(* ===== verification/_CoqProject ===== *)
-Q . S2P
Prelude.v
Types.v
Dll.v
KeyOrder.v
KeyOrderFacts.v
KeyOrderSpec.v
SimpleLru.v
SimpleLruSpec.v
BlockCodec.v
WriteBudget.v
Writeback.v
Hashes.v
FrequencySketch.v
Ordering.v
EntryMeta.v
Victim.v
VictimFacts.v
VictimSpec.v
EngineState.v
Engine.v
EngineWrite.v
EngineRead.v
EngineInv.v
EngineEvict.v
EnginePlace.v
EnginePut.v
EngineCapacity.v
EngineSpec.v
EngineReadSpec.v
EngineProbe.v
Cluster.v
ClusterFacts.v
ClusterBuild.v
ClusterLookup.v
ClusterCopies.v
HandoffFacts.v
ClusterSpec.v
KeyArena.v
KeyedLists.v
ArcList.v
ArcFacts.v
ArcSpec.v
L2Policy.v
Fifo.v
FifoSpec.v
Slru.v
SlruFacts.v
SlruSpec.v
SsdRecords.v
Zones.v
ZonesFacts.v
ZonesInv.v
ZonesOpen.v
ZonesSpec.v
ZonedGc.v
RdmaIndex.v
RdmaIndexFacts.v
RdmaTable.v
RdmaCache.v
RdmaSpec.v
Allocators.v
AllocatorLaws.v
MemStorage.v
MemStorageSpec.v
StorageGc.v
StorageBatch.v
Sharded.v
FileStore.v
FileStoreFacts.v
FileStoreDisk.v
FileStoreOps.v
FileStoreSpec.v
MultiStore.v
MultiStoreSpec.v
ManifestLine.v
ManifestFacts.v
DiskManifest.v
DiskManifestSpec.v
PmemManifest.v
PmemManifestSpec.v
