(* ===== verification/Prelude.v ===== *)
(** * MatrixCache: a verification development

    MatrixCache (src/) is a Rust cache library: a multi-tier cache engine
    (memory, persistent memory, SSD) with admission, demotion, eviction,
    expiry and pinning, the structures it is built from, a consistent-hash
    ring that spreads keys over a cluster, and a family of stand-alone
    replacement policies.  This library models that code as Rocq functions
    on explicit state and proves the properties that make it correct.  Names
    follow the source; each file says which source it translates.

    ** Parts and files

    Shared ground.
    - Prelude.v: machine integers with the overflow rule each use has, bytes,
      results, boolean automation, filters, sums over maps.
    - Types.v: keys, block kinds, tiers and the admission policy
      (core/concurrency_stats.rs, core/storage_config.rs, builder_and_gc.rs).
    - Ordering.v: the orders the engine compares by, and strings in the order
      of their bytes.
    - Hashes.v: xxh32, MurmurHash2 and the block id hash (core/rdma.rs).
    - Dll.v: doubly linked lists threaded through a vector of nodes, over any
      node type with a pair of links; used by the recency orders and by the
      replacement lists.

    The cache engine (runtime/multilayer_cache.rs, runtime/builder_and_gc.rs,
    runtime/cache_facades.rs).
    - KeyOrder.v, KeyOrderFacts.v, KeyOrderSpec.v: [CacheKeyOrder], two orders
      over one arena, the access order with an insertion point, and the
      compaction that renumbers the arena.
    - BlockCodec.v: the framed SSD block format and the codec a thread keeps,
      over the calls it makes to zstd.
    - WriteBudget.v: the paced share of SSD writes (core/write_budget.rs).
    - Writeback.v: the queue of asynchronous writes with its index of
      positions, over any cache behind an interface of two puts
      ([WritebackCache]), the plain queue it refines and its claims.
    - FrequencySketch.v: the counting sketch (core/frequency_sketch.rs).
    - EntryMeta.v, Victim.v, VictimFacts.v, VictimSpec.v: entry metadata,
      scores, groups and the ways a victim is chosen.
    - EngineState.v, Engine.v, EngineWrite.v, EngineRead.v: [CacheInner] as a
      record and its operations.  The recency order is the interface
      [RecencyOrder], which [CacheKeyOrder] implements; clocks, the device and
      persistent-memory writes answer through the class [Env]; zstd is the
      class [Zstd], with the round trip it documents in [ZstdLaws], which also
      assumes that memory can be had for a value that is read back.
    - EngineInv.v, EngineEvict.v, EnginePlace.v, EnginePut.v,
      EngineCapacity.v: the invariant and how each operation keeps it, with
      concrete caches at the end of the last; EngineSpec.v and
      EngineReadSpec.v: the claims about writes and reads; EngineProbe.v: a
      block read under the shared lock against writers that run in between.

    The cluster ring (core/cluster.rs).
    - Cluster.v: members, zones, ring, prefix table, owners, copies, and the
      ranges handed over between two memberships.
    - ClusterFacts.v, ClusterBuild.v, ClusterLookup.v, ClusterCopies.v,
      HandoffFacts.v: the lemmas; ClusterSpec.v: the claims.

    The tiers on disk (runtime/builder_and_gc.rs, runtime/multilayer_cache.rs,
    runtime/manifest_writer.rs).
    - ManifestLine.v, ManifestFacts.v: the text of an entry in a manifest, in
      the persistent-memory log and as a key of the SSD store, written,
      measured, hashed without being built and read back.
    - DiskManifest.v, DiskManifestSpec.v: the index, manifest and block files
      of the SSD tier, what each path does to them, and recovery.
    - PmemManifest.v, PmemManifestSpec.v: the log and block files of the
      persistent-memory tier, compaction, and recovery.

    The sharded cache (runtime/multilayer_cache.rs).
    - Sharded.v: [ShardedMultiLayerCache] over shards behind the interface
      [ShardApi]: the routing of keys, the three ways of a batch, the folding
      and laying out of its answers, shares of capacities and budgets, and
      the claims.

    Plain caches and migration (runtime/cache_facades.rs).
    - SimpleLru.v, SimpleLruSpec.v: [SimpleLruCache], [ZeroCopySimpleLruCache]
      with the reference counts of the values in the state, and
      [InProcessMemcachedCache].
    - L2Policy.v: [L2CachePolicy], which moves entries between two levels
      (the interface [CacheInstanceApi]) along the adaptive policy, and its
      claims.

    Replacement policies (runtime/replacement.rs).
    - KeyArena.v, KeyedLists.v: several lists in one arena and the index that
      finds a key's node.
    - ArcList.v, ArcFacts.v, ArcSpec.v: adaptive replacement.
    - Fifo.v, FifoSpec.v: first in, first out.
    - Slru.v, SlruFacts.v, SlruSpec.v: segmented recency.

    The zoned SSD store (core/storage_config.rs, runtime/zoned_store.rs,
    runtime/zoned_gc.rs).
    - SsdRecords.v: fixed-width fields, colored pointers, the index and its
      record states, checksummed data records and operation-log entries.  The
      standard hasher is the class [Hasher].
    - Zones.v: [ZoneDevice], [ZoneGroup] and [ZoneManager] over a file held
      as bytes; ZonesFacts.v, ZonesInv.v, ZonesOpen.v: the invariant, how each
      operation keeps it, opening and recovery; ZonesSpec.v: sessions of
      operations and the claims about them.
    - ZonedGc.v: the collector of a group and its claims.

    The remote cache (core/rdma.rs).
    - RdmaIndex.v: the bucket table that finds a block by its id, with its
      displacement walk; RdmaIndexFacts.v, RdmaTable.v: the lemmas and the
      table as a map.
    - RdmaCache.v: storages of blocks behind the table, the operations a
      client calls; RdmaSpec.v: the claims.

    Allocators and memory records (runtime/allocators_executors.rs,
    runtime/storage_engines.rs).
    - Allocators.v: the log-based, je and pool allocators and the interface
      [MemStorageAllocatorApi] they share; AllocatorLaws.v: the laws of that
      interface, and that each of the three has them.
    - MemStorage.v: records with a header and a CRC-32C, records in an
      allocator, the engine over a map, the recovery listener;
      MemStorageSpec.v: the claims, proved against the allocator laws.
    - StorageGc.v: the collector of an allocator's regions; a writer per node
      and the dispatcher; their claims.

    File-backed stores (runtime/storage_engines.rs).
    - StorageBatch.v: the routing of a batch, the folding of its equal keys
      and its inverse.
    - FileStore.v: [StorageEngineRocksDb] as built without RocksDB: a map in
      memory, a snapshot and a journal; the disk is a value with the history
      of its writes.
    - FileStoreFacts.v: the formats and the replay of a journal whose tail is
      cut; FileStoreDisk.v: the map a disk holds and what a crash leaves;
      FileStoreOps.v: the effect of each operation; FileStoreSpec.v: the
      claims.
    - MultiStore.v, MultiStoreSpec.v: [StorageEngineMultiSsd], keys spread
      over several such stores by hash, and its claim.

    ** What the theorems show

    - Writes: the engine invariant (byte counts equal the sizes held, orders
      list exactly the keys held, one metadata home per key) is kept; no value
      is invented or misplaced; pinned copies of other keys survive; a write
      the tiers accept leaves no stale copy; where no value is empty,
      capacities hold again after a release and after a write, up to what is
      pinned.
    - Reads: the answer is the first tier that holds a live entry, on every
      branch and error; promotions and refills lose and invent nothing; a
      probe accepted later is still the block the store holds.
    - Recency orders refine key lists, compactions included; the insertion
      point stays where its specification says.
    - Write-back: the queue with positions and coalescing is a plain bounded
      queue with one write for each key, and the last write taken for a key
      is the one the cache ends with.
    - Sharded cache: a batch answers and writes as if every shard had run its
      own part on its own, whichever way it takes and in whichever order the
      workers run; when a shard fails, those after it may not have run; shares
      add up to the whole.  Both interfaces, [ShardApi] and [WritebackCache],
      are kept abstract: the claims hold whatever the cache behind them does.
    - Tiers on disk: a manifest line is read back as what was written and
      nothing else, and so is the slot in the key of a page; after any history
      the SSD tier recovers its index and, where no two keys share the hash
      that names their files, the persistent-memory tier the map its puts,
      deletes and clears leave.
    - Plain caches: they answer as a list ordered by recency in which the
      least recent entry nobody holds goes first, within their capacity up to
      what readers hold.
    - Migration: queued accesses have the effect of immediate ones, and every
      access and buffer is accounted for.
    - Victim selection: the bounded and the grouped path agree, and choose the
      least member of the least group.
    - Block format: round trip, rejection of truncated blocks, agreement of
      the decoders; what a codec compressed before does not show in a block.
    - Write budget and sketch: bounds, recovery, no underestimation.
    - Cluster: the incremental topology is the rebuilt one; the table lookup
      is a search; a membership change moves only the keys it must; copies are
      spread over failure domains; handoffs cover exactly what moves.
    - Replacement policies: the intrusive structures refine plain lists and
      queues, byte counts are exact and capacities hold where the code
      enforces them.
    - Zoned store: a session whose appends stay within granted reservations
      keeps every group in one list, every write pointer in its zone and every
      sealed log whole; appended data reads back; reopening replays the sealed
      logs, less that of the first group when every group holds one;
      collecting a group gives back its pinned records, except those that
      cannot be read through their pointers, takes the other keys of its log
      out of the index and frees the group; a record is accepted exactly when
      it is what was written.
    - Remote cache: every history answers as a map of blocks with the
      evictions it reports.
    - Memory records: over any allocator with the laws, storing, reading and
      deleting records is a map from addresses; a changed byte changes the
      checksum; recovery hands over the keys scanned once.
    - Allocator collection and writers: when a collection is due; an address
      is found in the one writer that holds it.
    - File-backed stores: every history of operations, batches, stops, starts
      and crashes answers as a durable map, for one directory and for several
      devices; a crash inside an operation leaves the first few of its
      changes.  The limits are computed: a torn tail that is appended to, an
      interrupted reset, a device that is added and removed.
    - Where the code does not do what it means to, a theorem computes the
      behaviour on a concrete history: stale cold bits, the default time to
      live on a first write, a refused rewrite, an empty value that stops an
      eviction loop, a drain that goes round, a log appended after a refused
      reservation, an append larger than the reservation granted, a record read back short by its page count, an entry that
      recovery loses or revives, a write lost by a failed drain, a value that
      is not migrated again.

    ** Bounds and fuel

    Loops that are not structural carry fuel.  The fuel is always a bound the
    code itself obeys (the entries of an index, the nodes of an arena, the
    attempts of a budget, the bytes of a journal), and the refinement lemmas
    show that it is never the reason a loop ends.  Vectors are assumed to hold
    fewer entries than their index types count: a [u32] node or member index
    is a [nat].  Sizes are [Z]; where the source saturates or wraps, so does
    the model, and the theorems state the totals up to which counts are exact.

    ** Not modelled

    Thread pools and the metrics, health and report types; the batch variants
    of reads and writes of the engine; the build with RocksDB, which calls a
    library; the executors, files mapped as memory, and memory allocation that
    fails; I/O errors of the file-backed stores and of the manifests other
    than a crash that cuts an append; the checks of a configuration and the
    old names kept as aliases; the string and instance wrappers, which rename
    what is modelled, and the totals that the sharded cache only sums for
    reports.  These are
    read-only, I/O that a pure model says little about, or wrappers with no
    state of their own. *)

From Stdlib Require Export ZArith Lia.
From stdpp Require Export prelude gmap strings list sorting.
From Stdlib Require Import Strings.Byte.
From coqutil Require Word.LittleEndianList.

#[global] Open Scope Z_scope.

(** ** Machine integers

    A [u32], [u64] or [usize] of the source (64-bit targets) is a [Z] in
    range; the operations that leave the range are written with the rule the
    source uses for them. *)

Declare Scope mc_scope.
Delimit Scope mc_scope with mc.

Definition u32_max : Z := 2 ^ 32 - 1.
Definition u64_max : Z := 2 ^ 64 - 1.

(** [saturating_add] and [saturating_sub] on 64-bit values. *)
Definition sat_add (a b : Z) : Z := Z.min u64_max (a + b).
Definition sat_sub (a b : Z) : Z := Z.max 0 (a - b).
(** [saturating_add] on 32-bit values. *)
Definition sat_add32 (a b : Z) : Z := Z.min u32_max (a + b).
(** [saturating_mul]. *)
Definition sat_mul (a b : Z) : Z := Z.min u64_max (a * b).
Definition wrap64 (a : Z) : Z := a `mod` 2 ^ 64.
Definition wrap32 (a : Z) : Z := a `mod` 2 ^ 32.

Notation "a +! b" := (sat_add a b) (at level 50, left associativity) : mc_scope.
Notation "a -! b" := (sat_sub a b) (at level 50, left associativity) : mc_scope.
#[global] Open Scope mc_scope.

Lemma sat_sub_le a b : 0 <= b -> 0 <= a -> a -! b <= a.
Proof. unfold sat_sub; lia. Qed.

Lemma sat_sub_exact a b : b <= a -> a -! b = a - b.
Proof. unfold sat_sub; lia. Qed.

Lemma sat_sub_nonneg a b : 0 <= a -! b.
Proof. unfold sat_sub; lia. Qed.

Lemma sat_add_exact a b : a + b <= u64_max -> a +! b = a + b.
Proof. unfold sat_add; lia. Qed.

Lemma wrap64_small a : 0 <= a < 2 ^ 64 -> wrap64 a = a.
Proof. intros; unfold wrap64; by apply Z.mod_small. Qed.

Lemma wrap64_bound a : 0 <= wrap64 a < 2 ^ 64.
Proof. unfold wrap64. apply Z.mod_pos_bound. lia. Qed.

Lemma testbit_high n a i : 0 <= a < 2 ^ n -> n <= i -> Z.testbit a i = false.
Proof.
  intros Ha Hi. destruct (Z.lt_ge_cases n 0) as [Hn|Hn]; [rewrite Z.pow_neg_r in Ha; lia|].
  rewrite <- (Z.mod_small a (2 ^ n)) by done. by apply Z.mod_pow2_bits_high.
Qed.

Lemma testbit_ones n i : 0 <= n -> 0 <= i -> Z.testbit (Z.ones n) i = (i <? n).
Proof.
  intros. destruct (Z.ltb_spec i n); [by rewrite Z.ones_spec_low by lia|by rewrite Z.ones_spec_high by lia].
Qed.

(** The field of [w] bits at bit [k] of a word. *)
Definition field (w k x : Z) : Z := (x `div` 2 ^ k) `mod` 2 ^ w.

Lemma masked_field w k x : 0 <= w -> 0 <= k -> Z.shiftr (Z.land x (Z.shiftl (Z.ones w) k)) k = field w k x.
Proof.
  intros Hw Hk. unfold field. rewrite <- Z.shiftr_div_pow2, <- Z.land_ones by done.
  rewrite Z.shiftr_land, Z.shiftr_shiftl_l, Z.sub_diag, Z.shiftl_0_r by done. done.
Qed.

Lemma field_lor w k x y : 0 <= w -> 0 <= k -> field w k (Z.lor x y) = Z.lor (field w k x) (field w k y).
Proof.
  intros Hw Hk. unfold field. rewrite <- !Z.shiftr_div_pow2, <- !Z.land_ones by done.
  by rewrite Z.shiftr_lor, Z.land_lor_distr_l.
Qed.

(** A single bit. *)
Lemma land_bit m i : 0 <= i -> (Z.land m (Z.shiftl 1 i) =? 0) = negb (Z.testbit m i).
Proof.
  intros Hi. rewrite Z.shiftl_1_l. destruct (Z.testbit m i) eqn:E; cbn.
  - apply Z.eqb_neq. intros Hz. pose proof (f_equal (fun z => Z.testbit z i) Hz) as Hb. cbn beta in Hb.
    by rewrite Z.land_spec, E, Z.pow2_bits_true, Z.bits_0 in Hb.
  - apply Z.eqb_eq. apply Z.bits_inj'. intros j Hj. rewrite Z.land_spec, Z.pow2_bits_eqb, Z.bits_0 by done.
    destruct (Z.eqb_spec i j) as [<-|]; [by rewrite E|by rewrite andb_false_r].
Qed.

(** ** Panics *)

(** What a call that may panic comes to. *)
Inductive outcome (A : Type) := Returns (r : A) | Panics.
Arguments Returns {A} r.
Arguments Panics {A}.

(** ** Bytes *)

Abbreviation bytes := (list Byte.byte).

#[global] Instance byte_eq_decision : EqDecision Byte.byte := Byte.byte_eq_dec.

#[global] Instance byte_countable : Countable Byte.byte := inj_countable Byte.to_N Byte.of_N Byte.of_to_N.

(** [slice.len()] as a machine integer. *)
Definition blen (v : bytes) : Z := Z.of_nat (length v).

Lemma blen_nonneg v : 0 <= blen v.
Proof. unfold blen; lia. Qed.

Lemma blen_app v w : blen (v ++ w) = blen v + blen w.
Proof. unfold blen; rewrite length_app; lia. Qed.

(** [to_le_bytes] and [from_le_bytes] of an integer of [n] bytes. *)
Definition le_bytes (n : nat) (z : Z) : bytes := LittleEndianList.le_split n z.
Definition le_value (v : bytes) : Z := LittleEndianList.le_combine v.

Lemma le_bytes_length n z : length (le_bytes n z) = n.
Proof. apply LittleEndianList.length_le_split. Qed.

Lemma le_value_bytes n z :
  0 <= z < 2 ^ (Z.of_nat n * 8) -> le_value (le_bytes n z) = z.
Proof.
  intros H. unfold le_value, le_bytes.
  rewrite LittleEndianList.le_combine_split. by apply Z.mod_small.
Qed.

Lemma le_bytes_value v : le_bytes (length v) (le_value v) = v.
Proof. apply LittleEndianList.split_le_combine. Qed.

Lemma le_bytes_inj n a b :
  0 <= a < 2 ^ (Z.of_nat n * 8) -> 0 <= b < 2 ^ (Z.of_nat n * 8) ->
  le_bytes n a = le_bytes n b -> a = b.
Proof.
  intros Ha Hb H. rewrite <- (le_value_bytes n a Ha), <- (le_value_bytes n b Hb).
  by rewrite H.
Qed.

(** ** Results *)

(** What a read or an eviction record says about where an entry lived; [Reject]
    is the admission policy declining the value. *)
Inductive CacheTier := Memory | Pmem | Ssd | Reject.
#[global] Instance CacheTier_eq_dec : EqDecision CacheTier.
Proof. solve_decision. Defined.

(** [CacheError], with the payload text of the message-carrying variants left
    out: no code branches on it. *)
Inductive CacheError :=
| Io
| Stopped
| AlreadyStarted
| NotFound
| ReplaceMismatch
| UnsupportedTier (tier : CacheTier)
| UnsupportedInstance
| CorruptBlock
| UnsupportedCodec (codec : Z)
| CapacityExceeded
| InvalidConfig
| RocksDb.
#[global] Instance CacheError_eq_dec : EqDecision CacheError.
Proof. solve_decision. Defined.

Inductive result (A : Type) :=
| Ok (a : A)
| Err (e : CacheError).
Arguments Ok {A} a.
Arguments Err {A} e.

Definition result_bind {A B} (r : result A) (f : A -> result B) : result B :=
  match r with Ok a => f a | Err e => Err e end.

Notation "'let?' x := r 'in' k" := (result_bind r (fun x => k))
  (at level 10, x name, r at level 100, k at level 200) : mc_scope.

Definition is_ok {A} (r : result A) : bool :=
  match r with Ok _ => true | Err _ => false end.

(** ** Automation *)

Create HintDb mc.

Ltac case_if :=
  match goal with
  | |- context [if ?b then _ else _] => destruct b eqn:?
  | H : context [if ?b then _ else _] |- _ => destruct b eqn:?
  end.

(** Turn boolean comparisons in the context into propositions. *)
Ltac zbool :=
  repeat match goal with
  | H : (_ && _)%bool = true |- _ => apply andb_prop in H; destruct H
  | H : (_ || _)%bool = false |- _ => apply orb_false_elim in H; destruct H
  | H : (_ <? _) = true |- _ => apply Z.ltb_lt in H
  | H : (_ <? _) = false |- _ => apply Z.ltb_ge in H
  | H : (_ <=? _) = true |- _ => apply Z.leb_le in H
  | H : (_ <=? _) = false |- _ => apply Z.leb_gt in H
  | H : (_ =? _) = true |- _ => apply Z.eqb_eq in H
  | H : (_ =? _) = false |- _ => apply Z.eqb_neq in H
  | H : negb _ = true |- _ => apply negb_true_iff in H
  | H : negb _ = false |- _ => apply negb_false_iff in H
  | H : bool_decide _ = true |- _ => apply bool_decide_eq_true in H
  | H : bool_decide _ = false |- _ => apply bool_decide_eq_false in H
  end.

(** Filters agree where their conditions do. *)
Lemma filter_agree {A} (P Q : A -> Prop) `{forall x, Decision (P x), forall x, Decision (Q x)} (l : list A) :
  (forall x, x ∈ l -> P x <-> Q x) -> filter P l = filter Q l.
Proof.
  induction l as [|x l IH]; intros Hl; [done|]. pose proof (Hl x ltac:(set_solver)) as Hx. specialize (IH ltac:(set_solver)).
  destruct (decide (P x)); [rewrite !filter_cons_True by tauto|rewrite !filter_cons_False by tauto]; by rewrite IH.
Qed.

(** ** Sums over finite maps *)

Section map_sum.
Context {K : Type} `{Countable K} {A : Type} (f : A -> Z).

(** The total of a measure over the entries of a map. *)
Definition map_sum (m : gmap K A) : Z := map_fold (fun _ a acc => f a + acc) 0 m.

Lemma map_sum_empty : map_sum ∅ = 0.
Proof. apply map_fold_empty. Qed.

Lemma map_sum_insert_new m k a :
  m !! k = None -> map_sum (<[k := a]> m) = f a + map_sum m.
Proof.
  intros Hk. unfold map_sum.
  rewrite (map_fold_insert_L (fun _ a acc => f a + acc)); [done| |done].
  intros; lia.
Qed.

Lemma map_sum_delete m k a :
  m !! k = Some a -> map_sum m = f a + map_sum (delete k m).
Proof.
  intros Hk. unfold map_sum.
  rewrite (map_fold_delete_L (fun _ a acc => f a + acc) 0 k a m); [done| |done].
  intros; lia.
Qed.

Lemma map_sum_insert m k a b :
  m !! k = Some b -> map_sum (<[k := a]> m) = f a - f b + map_sum m.
Proof.
  intros Hk. rewrite <- insert_delete_eq.
  rewrite map_sum_insert_new by apply lookup_delete_eq.
  rewrite (map_sum_delete m k b Hk). lia.
Qed.

Lemma map_sum_nonneg m : (forall a, 0 <= f a) -> 0 <= map_sum m.
Proof.
  intros Hf. induction m as [|k a m Hk IH] using map_ind.
  - by rewrite map_sum_empty.
  - rewrite map_sum_insert_new by done. specialize (Hf a). lia.
Qed.

Lemma map_sum_lookup_le m k a :
  (forall a, 0 <= f a) -> m !! k = Some a -> f a <= map_sum m.
Proof.
  intros Hf Hk. rewrite (map_sum_delete m k a Hk).
  pose proof (map_sum_nonneg (delete k m) Hf). lia.
Qed.
End map_sum.
