(* ===== verification/Types.v ===== *)
(** * Cache keys and the admission policy

    The key type of every component ([CacheKey], concurrency_stats.rs), what
    the write path derives from a key (block kind, routing slot, initial
    hotness: builder_and_gc.rs) and the tiering policy's admission decision
    ([CacheTieringPolicy::decide], storage_config.rs). *)

From Stdlib Require Import Ascii.
From S2P Require Import Prelude.

(** ** Keys *)

Record CacheKey := mkKey {
  shard_id : Z;
  record_key : string;
  namespace : string;
  selector : string
}.

#[global] Instance CacheKey_eq_dec : EqDecision CacheKey.
Proof. solve_decision. Defined.

#[global] Instance CacheKey_countable : Countable CacheKey.
Proof.
  apply (inj_countable'
    (fun k => (shard_id k, record_key k, namespace k, selector k))
    (fun '(a, b, c, d) => mkKey a b c d)).
  by intros [].
Defined.

(** [CacheKey::empty], the key released arena nodes are given. *)
Definition empty_key : CacheKey := mkKey 0 "" "" "".

(** The derived [Ord]: fields in declaration order, strings bytewise. *)
Definition CacheKey_cmp (a b : CacheKey) : comparison :=
  match Z.compare (shard_id a) (shard_id b) with
  | Eq => match String.compare (record_key a) (record_key b) with
          | Eq => match String.compare (namespace a) (namespace b) with
                  | Eq => String.compare (selector a) (selector b)
                  | c => c
                  end
          | c => c
          end
  | c => c
  end.

Definition key_ltb (a b : CacheKey) : bool :=
  match CacheKey_cmp a b with Lt => true | _ => false end.

(** [CacheKey::string]. *)
Definition key_string (shard : Z) (key : string) : CacheKey :=
  mkKey shard key "string" "value".

(** ** What a key says about its entry *)

Inductive CacheBlockKind := Page | Object | Index | Oplog | Other.
#[global] Instance CacheBlockKind_eq_dec : EqDecision CacheBlockKind.
Proof. solve_decision. Defined.

Definition infer_block_kind (key : CacheKey) : CacheBlockKind :=
  let ns := namespace key in
  if String.eqb ns "page" then Page
  else if String.eqb ns "index" then Index
  else if String.eqb ns "oplog" then Oplog
  else if (String.eqb ns "string" || String.eqb ns "hash"
           || String.eqb ns "set" || String.eqb ns "feature")%bool then Object
  else Other.

Definition initial_hotness (block_kind : CacheBlockKind) (block_bytes : Z) : Z :=
  match block_kind with
  | Page => 2
  | Index => 3
  | Oplog => 1
  | Object => if block_bytes <=? 4096 then 2 else 1
  | Other => 0
  end.

(** [str::strip_prefix]. *)
Fixpoint strip_prefix (p s : string) : option string :=
  match p, s with
  | EmptyString, _ => Some s
  | String a p', String b s' => if Ascii.eqb a b then strip_prefix p' s' else None
  | String _ _, EmptyString => None
  end.

(** [str::split_once] at a one-byte delimiter. *)
Fixpoint split_once (sep : ascii) (s : string) : option (string * string) :=
  match s with
  | EmptyString => None
  | String c s' =>
      if Ascii.eqb c sep then Some (EmptyString, s')
      else match split_once sep s' with
           | Some (a, b) => Some (String c a, b)
           | None => None
           end
  end.

Definition digit_value (c : ascii) : option Z :=
  let n := Z.of_nat (nat_of_ascii c) in
  if ((48 <=? n) && (n <=? 57))%bool then Some (n - 48) else None.

(** [str::parse::<u32>]: an optional plus sign, at least one digit, an error
    on any other byte and on overflow. *)
Fixpoint parse_digits (acc : Z) (s : string) : option Z :=
  match s with
  | EmptyString => Some acc
  | String c s' =>
      match digit_value c with
      | Some d => let acc' := acc * 10 + d in
                  if acc' <=? u32_max then parse_digits acc' s' else None
      | None => None
      end
  end.

Definition parse_u32 (s : string) : option Z :=
  match s with
  | EmptyString => None
  | String "+" EmptyString => None
  | String "+" s' => parse_digits 0 s'
  | _ => parse_digits 0 s
  end.

Definition extract_routing_slot (key : CacheKey) : option Z :=
  match strip_prefix "slot-" (selector key) with
  | Some suffix =>
      match split_once ":" suffix with
      | Some (slot, _) => parse_u32 slot
      | None => None
      end
  | None => None
  end.

Example extract_slot_7 :
  extract_routing_slot (mkKey 0 "segment-1" "page" "slot-7:gen-2:0:4096") = Some 7.
Proof. reflexivity. Qed.
Example extract_slot_none :
  extract_routing_slot (mkKey 0 "k" "string" "value") = None.
Proof. reflexivity. Qed.

(** ** Admission *)

Inductive CacheDataPlacement := SideBySide | Tiered.
#[global] Instance CacheDataPlacement_eq_dec : EqDecision CacheDataPlacement.
Proof. solve_decision. Defined.

Inductive CacheAdmissionReason :=
| HotPage | HotObject | WarmSlot | PersistentMemory | LargeColdBlock | Oversize
| MemoryOnly.
#[global] Instance CacheAdmissionReason_eq_dec : EqDecision CacheAdmissionReason.
Proof. solve_decision. Defined.

Record CacheAdmissionRequest := mkRequest {
  rq_block_kind : CacheBlockKind;
  rq_shard_id : Z;
  rq_routing_slot : option Z;
  rq_block_bytes : Z;
  rq_hotness : Z;
  rq_pinned : bool
}.

Record CacheTieringPolicy := mkPolicy {
  tp_memory_capacity_bytes : Z;
  tp_pmem_capacity_bytes : Z;
  tp_ssd_capacity_bytes : Z;
  data_placement : CacheDataPlacement;
  data_placement_threshold_bytes : Z;
  memory_hotness_threshold : Z;
  pmem_admit_hotness_threshold : Z;
  ssd_admit_hotness_threshold : Z;
  max_memory_block_bytes : Z;
  max_pmem_block_bytes : Z;
  max_ssd_block_bytes : Z;
  ssd_write_through : bool
}.

(** [CacheTieringPolicy::default]. *)
Definition default_tiering_policy : CacheTieringPolicy := {|
  tp_memory_capacity_bytes := 64 * 1024 * 1024;
  tp_pmem_capacity_bytes := 512 * 1024 * 1024;
  tp_ssd_capacity_bytes := 16 * 1024 * 1024 * 1024;
  data_placement := Tiered;
  data_placement_threshold_bytes := 1024 * 1024;
  memory_hotness_threshold := 8;
  pmem_admit_hotness_threshold := 4;
  ssd_admit_hotness_threshold := 2;
  max_memory_block_bytes := 1024 * 1024;
  max_pmem_block_bytes := 4 * 1024 * 1024;
  max_ssd_block_bytes := 16 * 1024 * 1024;
  ssd_write_through := true
|}.

Record CacheAdmissionDecision := mkDecision {
  tier : CacheTier;
  reason : CacheAdmissionReason;
  admit_memory : bool;
  admit_pmem : bool;
  admit_ssd : bool
}.

(** The reason a block admitted to memory is given. *)
Definition hot_reason (kind : CacheBlockKind) : CacheAdmissionReason :=
  match kind with Page => HotPage | _ => HotObject end.

Definition policy_decide (p : CacheTieringPolicy) (r : CacheAdmissionRequest)
    : CacheAdmissionDecision :=
  let ssd_enabled := 0 <? tp_ssd_capacity_bytes p in
  let n := rq_block_bytes r in
  if (ssd_enabled && ((max_ssd_block_bytes p <? n) || (tp_ssd_capacity_bytes p <? n)))%bool
  then mkDecision Reject Oversize false false false
  else if (bool_decide (data_placement p = SideBySide)
           && ((0 <? tp_pmem_capacity_bytes p)
               && (data_placement_threshold_bytes p <? n)
               && (n <=? max_pmem_block_bytes p)
               && (n <=? tp_pmem_capacity_bytes p)))%bool
  then mkDecision Pmem PersistentMemory false true ssd_enabled
  else if (bool_decide (data_placement p = SideBySide)
           && ((n <=? max_memory_block_bytes p) && (n <=? tp_memory_capacity_bytes p)))%bool
  then mkDecision Memory (hot_reason (rq_block_kind r)) true false ssd_enabled
  else if (rq_pinned r
           || ((memory_hotness_threshold p <=? rq_hotness r)
               && (n <=? max_memory_block_bytes p)
               && (n <=? tp_memory_capacity_bytes p)))%bool
  then mkDecision Memory (hot_reason (rq_block_kind r)) true true ssd_enabled
  else if ((0 <? tp_pmem_capacity_bytes p)
           && (pmem_admit_hotness_threshold p <=? rq_hotness r)
           && (n <=? max_pmem_block_bytes p)
           && (n <=? tp_pmem_capacity_bytes p))%bool
  then mkDecision Pmem PersistentMemory false true ssd_enabled
  else if (ssd_enabled
           && bool_decide (is_Some (rq_routing_slot r))
           && (ssd_admit_hotness_threshold p <=? rq_hotness r)
           && (n <=? max_ssd_block_bytes p))%bool
  then mkDecision Ssd WarmSlot false false true
  else if (ssd_enabled
           && ((max_memory_block_bytes p <? n)
               || (ssd_admit_hotness_threshold p <=? rq_hotness r)))%bool
  then mkDecision Ssd LargeColdBlock false false true
  else mkDecision Memory MemoryOnly true false false.

(** ** What an admission decision promises *)

Section decide_facts.
Context (p : CacheTieringPolicy) (r : CacheAdmissionRequest).
Let d := policy_decide p r.

Ltac unfold_decide := unfold d, policy_decide; repeat case_if; simpl; zbool.

Lemma decide_ssd_enabled : admit_ssd d = true -> 0 < tp_ssd_capacity_bytes p.
Proof. unfold_decide; intros; zbool; try done; by apply Z.ltb_lt. Qed.

Lemma decide_ssd_fits :
  admit_ssd d = true ->
  rq_block_bytes r <= max_ssd_block_bytes p /\
  rq_block_bytes r <= tp_ssd_capacity_bytes p.
Proof.
  unfold d, policy_decide.
  destruct (0 <? tp_ssd_capacity_bytes p) eqn:Hssd; cbn [andb];
    [|repeat case_if; simpl; intros; try done;
      match goal with H : (_ && _)%bool = true |- _ => by rewrite ?andb_false_l in H end].
  destruct ((max_ssd_block_bytes p <? rq_block_bytes r)
            || (tp_ssd_capacity_bytes p <? rq_block_bytes r))%bool eqn:Hbig; [done|].
  zbool. intros _. lia.
Qed.

(** The tier named by the decision is a tier the decision admits to, and
    only an oversize value is rejected everywhere. *)
Definition decision_coherent : Prop :=
  match tier d with
  | Memory => admit_memory d = true
  | Pmem => admit_pmem d = true /\ admit_memory d = false
  | Ssd => admit_ssd d = true /\ admit_memory d = false /\ admit_pmem d = false
  | Reject => reason d = Oversize /\ admit_memory d = false /\
              admit_pmem d = false /\ admit_ssd d = false
  end.

Lemma decide_coherent : decision_coherent.
Proof. unfold decision_coherent; unfold_decide; tauto. Qed.

Lemma decide_pmem_fits :
  tier d = Pmem ->
  rq_block_bytes r <= max_pmem_block_bytes p /\
  rq_block_bytes r <= tp_pmem_capacity_bytes p /\ 0 < tp_pmem_capacity_bytes p.
Proof. unfold_decide; intros; zbool; try done; lia. Qed.
End decide_facts.
