(* ===== verification/Dll.v ===== *)
(** * Doubly linked lists threaded through an arena

    The recency orders of the cache ([CacheKeyOrder], cache_facades.rs) and the
    replacement lists ([KeyArena], replacement.rs) keep their entries in a
    [Vec] of nodes and thread doubly linked lists through it by position.  A
    position is a [nat] and the nil sentinel (u32::MAX in the source) is
    [None].  This file holds the linking operations once, over any node type
    with a pair of link fields, and the lemmas that they act on the list the
    links spell. *)

From S2P Require Import Prelude.

Abbreviation link := (option nat).

(** A pair of link fields of a node. *)
Class Links (N : Type) := {
  get_next : N -> link;
  set_next : link -> N -> N;
  get_prev : N -> link;
  set_prev : link -> N -> N;
  get_set_next v n : get_next (set_next v n) = v;
  get_set_prev v n : get_prev (set_prev v n) = v;
  next_set_prev v n : get_next (set_prev v n) = get_next n;
  prev_set_next v n : get_prev (set_next v n) = get_prev n
}.

(** ** Segments *)

Section segments.
Implicit Types (l : list nat) (p n : link) (nx pv : nat -> link).

Definition head_or l n : link := match l with [] => n | x :: _ => Some x end.
Definition last_or l p : link := match last l with Some x => Some x | None => p end.

(** The links spell [l], entered from [p] and left to [n]. *)
Fixpoint seg nx pv p l n : Prop :=
  match l with
  | [] => True
  | x :: l' => pv x = p /\ nx x = head_or l' n /\ seg nx pv (Some x) l' n
  end.

Lemma head_or_app l1 l2 n : head_or (l1 ++ l2) n = head_or l1 (head_or l2 n).
Proof. by destruct l1. Qed.

Lemma last_or_cons x l p : last_or (x :: l) p = last_or l (Some x).
Proof. unfold last_or. rewrite last_cons. by destruct (last l). Qed.

Lemma last_or_snoc l x p : last_or (l ++ [x]) p = Some x.
Proof. unfold last_or. by rewrite last_snoc. Qed.

Lemma seg_app nx pv p l1 l2 n :
  seg nx pv p (l1 ++ l2) n <->
  seg nx pv p l1 (head_or l2 n) /\ seg nx pv (last_or l1 p) l2 n.
Proof.
  revert p. induction l1 as [|x l1 IH]; intros p; [simpl; tauto|].
  simpl. rewrite IH, head_or_app, last_or_cons. tauto.
Qed.

Lemma seg_ext nx pv nx' pv' p l n :
  (forall x, x ∈ l -> nx' x = nx x) -> (forall x, x ∈ l -> pv' x = pv x) ->
  seg nx pv p l n -> seg nx' pv' p l n.
Proof.
  revert p. induction l as [|x l IH]; intros p Hn Hp; simpl; [done|].
  intros (H1 & H2 & H3). rewrite Hn, Hp by set_solver.
  split; [done|]. split; [done|]. apply IH; [set_solver..|done].
Qed.

(** Redirect where a segment leads. *)
Lemma seg_set_next nx pv nx' pv' p l n n' :
  NoDup l ->
  (forall x, x ∈ l -> last l <> Some x -> nx' x = nx x) ->
  (forall x, last l = Some x -> nx' x = n') ->
  (forall x, x ∈ l -> pv' x = pv x) ->
  seg nx pv p l n -> seg nx' pv' p l n'.
Proof.
  revert p. induction l as [|x l IH]; intros p Hnd Ho Hl Hp; [done|].
  apply NoDup_cons in Hnd as [Hx Hnd]. simpl. intros (H1 & H2 & H3).
  rewrite Hp by set_solver. split; [done|]. destruct l as [|y l].
  - simpl. split; [by apply Hl|done].
  - split.
    + rewrite Ho; [done|set_solver|]. rewrite last_cons_cons. intros Hlast.
      apply Hx. apply last_Some_elem_of. by rewrite Hlast.
    + apply IH; [done| | |set_solver|done].
      * intros z Hz Hlast. apply Ho; [set_solver|]. by rewrite last_cons_cons.
      * intros z Hlast. apply Hl. by rewrite last_cons_cons.
Qed.

(** Redirect where a segment is entered from. *)
Lemma seg_set_prev nx pv nx' pv' p p' l n :
  NoDup l ->
  (forall x, x ∈ l -> head l <> Some x -> pv' x = pv x) ->
  (forall x, head l = Some x -> pv' x = p') ->
  (forall x, x ∈ l -> nx' x = nx x) ->
  seg nx pv p l n -> seg nx' pv' p' l n.
Proof.
  destruct l as [|x l]; [done|].
  intros [Hx Hnd]%NoDup_cons Ho Hh Hn (H1 & H2 & H3).
  simpl. rewrite (Hh x), Hn by (done || set_solver).
  split; [done|]. split; [done|].
  eapply seg_ext; [| |exact H3]; intros y Hy; [set_solver|].
  apply Ho; [set_solver|]. simpl. intros [= ->]. done.
Qed.

Lemma seg_next nx pv p l1 x l2 n :
  seg nx pv p (l1 ++ x :: l2) n -> nx x = head_or l2 n.
Proof. rewrite seg_app. simpl. tauto. Qed.

Lemma seg_prev nx pv p l1 x l2 n :
  seg nx pv p (l1 ++ x :: l2) n -> pv x = last_or l1 p.
Proof. rewrite seg_app. simpl. tauto. Qed.
End segments.

(** ** Linking and unlinking *)

Section arena.
Context {N : Type} {L : Links N}.
Implicit Types (nodes : list N) (l : list nat).

(** [nodes[i].next], [nodes[i].prev] and their assignments. *)
Definition next_of nodes (i : nat) : link := nodes !! i ≫= get_next.
Definition prev_of nodes (i : nat) : link := nodes !! i ≫= get_prev.
Definition write_next (i : nat) (v : link) nodes : list N := alter (set_next v) i nodes.
Definition write_prev (i : nat) (v : link) nodes : list N := alter (set_prev v) i nodes.

(** The two ends of one list. *)
Record ends := mkEnds { e_head : link; e_tail : link }.

Definition link_back (i : nat) (st : list N * ends) : list N * ends :=
  let '(nodes, e) := st in
  let old_tail := e_tail e in
  let nodes := write_next i None (write_prev i old_tail nodes) in
  match old_tail with
  | None => (nodes, mkEnds (Some i) (Some i))
  | Some t => (write_next t (Some i) nodes, mkEnds (e_head e) (Some i))
  end.

Definition link_front (i : nat) (st : list N * ends) : list N * ends :=
  let '(nodes, e) := st in
  let old_head := e_head e in
  let nodes := write_prev i None (write_next i old_head nodes) in
  match old_head with
  | None => (nodes, mkEnds (Some i) (Some i))
  | Some h => (write_prev h (Some i) nodes, mkEnds (Some i) (e_tail e))
  end.

(** Link [i] just before [succ]. *)
Definition link_before (succ i : nat) (st : list N * ends) : list N * ends :=
  let '(nodes, e) := st in
  let pred := prev_of nodes succ in
  let nodes := write_next i (Some succ) (write_prev i pred nodes) in
  let nodes := write_prev succ (Some i) nodes in
  match pred with
  | None => (nodes, mkEnds (Some i) (e_tail e))
  | Some p => (write_next p (Some i) nodes, e)
  end.

Definition unlink (i : nat) (st : list N * ends) : list N * ends :=
  let '(nodes, e) := st in
  let prev := prev_of nodes i in
  let next := next_of nodes i in
  let '(nodes, head) := match prev with
                        | None => (nodes, next)
                        | Some p => (write_next p next nodes, e_head e)
                        end in
  let '(nodes, tail) := match next with
                        | None => (nodes, prev)
                        | Some n => (write_prev n prev nodes, e_tail e)
                        end in
  (write_next i None (write_prev i None nodes), mkEnds head tail).

(** Follow the next links from [cursor]; [fuel] bounds the walk, and the
    number of nodes is always enough. *)
Fixpoint walk (fuel : nat) (nodes : list N) (cursor : link) : list nat :=
  match fuel, cursor with
  | S f, Some i => i :: walk f nodes (next_of nodes i)
  | _, _ => []
  end.

Fixpoint walk_back (fuel : nat) (nodes : list N) (cursor : link) : list nat :=
  match fuel, cursor with
  | S f, Some i => i :: walk_back f nodes (prev_of nodes i)
  | _, _ => []
  end.

(** The arena and the ends spell the list [l]. *)
Record spells (st : list N * ends) (l : list nat) : Prop := {
  sp_nodup : NoDup l;
  sp_range : forall i, i ∈ l -> (i < length (fst st))%nat;
  sp_head : e_head (snd st) = head l;
  sp_tail : e_tail (snd st) = last l;
  sp_seg : seg (next_of (fst st)) (prev_of (fst st)) None l None
}.

Lemma length_write_next i v nodes : length (write_next i v nodes) = length nodes.
Proof. apply length_alter. Qed.
Lemma length_write_prev i v nodes : length (write_prev i v nodes) = length nodes.
Proof. apply length_alter. Qed.

Lemma next_write_next_eq i v nodes :
  (i < length nodes)%nat -> next_of (write_next i v nodes) i = v.
Proof.
  intros [n Hn]%lookup_lt_is_Some. unfold next_of, write_next.
  rewrite list_lookup_alter_eq, Hn. simpl. apply get_set_next.
Qed.
Lemma next_write_next_ne i j v nodes :
  i <> j -> next_of (write_next i v nodes) j = next_of nodes j.
Proof. intros. unfold next_of, write_next. by rewrite list_lookup_alter_ne. Qed.
Lemma next_write_prev i j v nodes :
  next_of (write_prev i v nodes) j = next_of nodes j.
Proof.
  unfold next_of, write_prev. destruct (decide (i = j)) as [->|].
  - rewrite list_lookup_alter_eq. destruct (nodes !! j); simpl; [apply next_set_prev|done].
  - by rewrite list_lookup_alter_ne.
Qed.
Lemma prev_write_prev_eq i v nodes :
  (i < length nodes)%nat -> prev_of (write_prev i v nodes) i = v.
Proof.
  intros [n Hn]%lookup_lt_is_Some. unfold prev_of, write_prev.
  rewrite list_lookup_alter_eq, Hn. simpl. apply get_set_prev.
Qed.
Lemma prev_write_prev_ne i j v nodes :
  i <> j -> prev_of (write_prev i v nodes) j = prev_of nodes j.
Proof. intros. unfold prev_of, write_prev. by rewrite list_lookup_alter_ne. Qed.
Lemma prev_write_next i j v nodes :
  prev_of (write_next i v nodes) j = prev_of nodes j.
Proof.
  unfold prev_of, write_next. destruct (decide (i = j)) as [->|].
  - rewrite list_lookup_alter_eq. destruct (nodes !! j); simpl; [apply prev_set_next|done].
  - by rewrite list_lookup_alter_ne.
Qed.
End arena.

Create Rewrite HintDb arena_len.
#[export] Hint Rewrite @length_write_next @length_write_prev : arena_len.

(** Evaluate link reads through link writes; side conditions by the context. *)
Ltac links :=
  repeat first
    [ rewrite next_write_prev | rewrite prev_write_next
    | rewrite next_write_next_eq by (autorewrite with arena_len; auto)
    | rewrite prev_write_prev_eq by (autorewrite with arena_len; auto)
    | rewrite next_write_next_ne by (auto || congruence)
    | rewrite prev_write_prev_ne by (auto || congruence) ].

Section spells_ops.
Context {N : Type} {L : Links N}.
Implicit Types (nodes : list N) (l : list nat) (st : list N * ends).

Lemma spells_nil nodes : spells (nodes, mkEnds None None) [].
Proof. split; simpl; [constructor|set_solver|done..]. Qed.

(** Only the two link fields matter. *)
Lemma spells_ext nodes nodes' e l :
  length nodes = length nodes' ->
  (forall i, i ∈ l -> next_of nodes' i = next_of nodes i) ->
  (forall i, i ∈ l -> prev_of nodes' i = prev_of nodes i) ->
  spells (nodes, e) l -> spells (nodes', e) l.
Proof.
  intros Hlen Hn Hp [H1 H2 H3 H4 H5]. simpl in *. split; simpl; try done.
  - rewrite <- Hlen. done.
  - by eapply seg_ext.
Qed.

Lemma link_back_spells nodes e l i :
  spells (nodes, e) l -> i ∉ l -> (i < length nodes)%nat ->
  spells (link_back i (nodes, e)) (l ++ [i]).
Proof.
  intros [Hnd Hr Hh Ht Hs] Hi Hlt. simpl in *. unfold link_back. rewrite Ht.
  destruct l as [|x l] using rev_ind; [|clear IHl].
  - simpl. split; simpl; try done.
    + apply NoDup_singleton.
    + intros j ->%list_elem_of_singleton. by autorewrite with arena_len.
    + by links.
  - rewrite last_snoc. assert (Hx : x <> i) by set_solver.
    assert (x < length nodes)%nat by (apply Hr; set_solver).
    split; simpl.
    + apply NoDup_app. split; [done|]. split; [set_solver|apply NoDup_singleton].
    + intros j Hj. autorewrite with arena_len.
      apply elem_of_app in Hj as [Hj| ->%list_elem_of_singleton]; auto.
    + rewrite Hh. by destruct l.
    + by rewrite last_snoc.
    + apply seg_app. split.
      * simpl. eapply seg_set_next; [done| | | |exact Hs].
        -- intros y Hy Hlast. rewrite last_snoc in Hlast.
           assert (y <> i) by set_solver. by links.
        -- intros y Hlast. rewrite last_snoc in Hlast.
           injection Hlast as <-. by links.
        -- intros y Hy. assert (y <> i) by set_solver. by links.
      * simpl. rewrite last_or_snoc. by links.
Qed.

Lemma link_front_spells nodes e l i :
  spells (nodes, e) l -> i ∉ l -> (i < length nodes)%nat ->
  spells (link_front i (nodes, e)) (i :: l).
Proof.
  intros [Hnd Hr Hh Ht Hs] Hi Hlt. simpl in *. unfold link_front. rewrite Hh.
  destruct l as [|x l].
  - simpl. split; simpl; try done.
    + apply NoDup_singleton.
    + intros j ->%list_elem_of_singleton. by autorewrite with arena_len.
    + by links.
  - change (head (x :: l)) with (Some x). assert (Hx : x <> i) by set_solver.
    assert (x < length nodes)%nat by (apply Hr; set_solver).
    split; cbn [fst snd e_head e_tail].
    + by apply NoDup_cons.
    + intros j Hj. autorewrite with arena_len.
      apply elem_of_cons in Hj as [->|Hj]; auto.
    + done.
    + rewrite Ht. by destruct l.
    + refine (conj _ (conj _ _)); [by links|by links|].
      eapply (seg_set_prev _ _ _ _ _ _ (x :: l)); [done| | | |exact Hs].
      * intros y Hy Hhd. simpl in Hhd. assert (y <> i) by set_solver.
        assert (x <> y) by congruence. by links.
      * intros y [= <-]. by links.
      * intros y Hy. assert (y <> i) by set_solver. by links.
Qed.

(** The list from [s] on, entered from the new node [i]. *)
Lemma seg_entered_from nodes nodes' p s l i :
  NoDup (s :: l) -> seg (next_of nodes) (prev_of nodes) p (s :: l) None ->
  (forall y, y ∈ s :: l -> next_of nodes' y = next_of nodes y) ->
  (forall y, y ∈ l -> prev_of nodes' y = prev_of nodes y) ->
  prev_of nodes' s = Some i ->
  seg (next_of nodes') (prev_of nodes') (Some i) (s :: l) None.
Proof.
  intros Hnd Hs Hn Hp Hps. eapply (seg_set_prev _ _ _ _ _ _ (s :: l)); [done| | |exact Hn|exact Hs].
  - intros y Hy Hhd. simpl in Hhd. apply Hp. set_solver.
  - by intros y [= <-].
Qed.

Lemma link_before_spells nodes e l1 l2 s i :
  spells (nodes, e) (l1 ++ s :: l2) -> i ∉ l1 ++ s :: l2 -> (i < length nodes)%nat ->
  spells (link_before s i (nodes, e)) (l1 ++ i :: s :: l2).
Proof.
  intros [Hnd Hr Hh Ht Hs] Hi Hlt. simpl in *. unfold link_before.
  rewrite (seg_prev _ _ _ _ _ _ _ Hs).
  assert (Hsi : s <> i) by set_solver.
  assert (Hsl : (s < length nodes)%nat) by (apply Hr; set_solver).
  apply NoDup_app in Hnd as (Hnd1 & Hd & Hnd2).
  apply seg_app in Hs as [Hs1 Hs2]. simpl in Hs1.
  assert (Hnew : NoDup (l1 ++ i :: s :: l2)).
  { apply NoDup_app. split; [done|]. split; [set_solver|].
    apply NoDup_cons. split; [set_solver|done]. }
  pose proof (fun nodes' => seg_entered_from nodes nodes' _ _ _ i Hnd2 Hs2) as Hseg2.
  destruct l1 as [|p l1] using rev_ind; [|clear IHl1].
  - unfold last_or. cbn [last]. split; cbn [fst snd e_head e_tail]; try done.
    + intros j Hj. autorewrite with arena_len.
      apply elem_of_cons in Hj as [->|Hj]; auto.
    + refine (conj _ (conj _ _)); [by links|by links|]. apply Hseg2; [intros y Hy..|].
      * assert (y <> i) by set_solver. by links.
      * assert (y <> i) by set_solver.
        assert (s <> y). { apply NoDup_cons in Hnd2. set_solver. } by links.
      * by links.
  - rewrite last_or_snoc.
    assert (Hpi : p <> i) by set_solver. assert (Hps : p <> s) by set_solver.
    assert (Hpl : (p < length nodes)%nat) by (apply Hr; set_solver).
    split; cbn [fst snd e_head e_tail]; try done.
    + intros j Hj. autorewrite with arena_len.
      set_solver.
    + rewrite Hh. by destruct l1.
    + rewrite Ht. rewrite !last_app. by rewrite last_cons_cons.
    + apply seg_app. split.
      * eapply seg_set_next; [done| | | |exact Hs1].
        -- intros y Hy Hlast. rewrite last_snoc in Hlast.
           assert (y <> i) by set_solver. by links.
        -- intros y Hlast. rewrite last_snoc in Hlast. injection Hlast as <-. by links.
        -- intros y Hy. assert (y <> i) by set_solver. assert (s <> y) by set_solver. by links.
      * rewrite last_or_snoc. refine (conj _ (conj _ _)); [by links|by links|].
        apply Hseg2; [intros y Hy..|].
        -- assert (y <> i) by set_solver.
           assert (p <> y) by (intros ->; by eapply (Hd y); set_solver). by links.
        -- assert (y <> i) by set_solver.
           assert (s <> y). { apply NoDup_cons in Hnd2. set_solver. } by links.
        -- by links.
Qed.
End spells_ops.

Section unlink.
Context {N : Type} {L : Links N}.
Implicit Types (nodes : list N) (l : list nat).

(** The writes [unlink] makes before it clears the node itself. *)
Definition bridge (p n : link) nodes : list N :=
  let nodes := match p with None => nodes | Some i => write_next i n nodes end in
  match n with None => nodes | Some j => write_prev j p nodes end.

Lemma unlink_eq i nodes e :
  unlink i (nodes, e) =
    (write_next i None (write_prev i None (bridge (prev_of nodes i) (next_of nodes i) nodes)),
     mkEnds (match prev_of nodes i with None => next_of nodes i | Some _ => e_head e end)
            (match next_of nodes i with None => prev_of nodes i | Some _ => e_tail e end)).
Proof. unfold unlink, bridge. by destruct (prev_of nodes i), (next_of nodes i). Qed.

Lemma length_bridge p n nodes : length (bridge p n nodes) = length nodes.
Proof. unfold bridge. destruct p, n; by autorewrite with arena_len. Qed.

Lemma next_bridge p n nodes j :
  (forall i, p = Some i -> (i < length nodes)%nat) ->
  next_of (bridge p n nodes) j = if decide (p = Some j) then n else next_of nodes j.
Proof.
  intros Hp. unfold bridge. destruct p as [i|], n as [k|]; links; case_decide; try congruence;
    simplify_eq; try (apply next_write_next_eq; auto); rewrite ?next_write_next_ne by congruence; done.
Qed.

Lemma prev_bridge p n nodes j :
  (forall i, n = Some i -> (i < length nodes)%nat) ->
  prev_of (bridge p n nodes) j = if decide (n = Some j) then p else prev_of nodes j.
Proof.
  intros Hn. unfold bridge. destruct p as [i|], n as [k|]; case_decide; simplify_eq; links;
    rewrite ?prev_write_prev_eq by (autorewrite with arena_len; auto);
    rewrite ?prev_write_prev_ne by congruence; links; done.
Qed.

Lemma unlink_spells nodes e l1 l2 i :
  spells (nodes, e) (l1 ++ i :: l2) -> spells (unlink i (nodes, e)) (l1 ++ l2).
Proof.
  intros [Hnd Hr Hh Ht Hs]. cbn [fst snd] in *. rewrite unlink_eq.
  rewrite (seg_prev _ _ _ _ _ _ _ Hs), (seg_next _ _ _ _ _ _ _ Hs).
  pose proof Hnd as Hnd'. apply NoDup_app in Hnd as (Hnd1 & Hd & [Hi2 Hnd2]%NoDup_cons).
  assert (Hi1 : i ∉ l1) by (intros H; apply (Hd i H); set_solver).
  assert (Hdd : forall x, x ∈ l1 -> x ∉ l2) by (intros x Hx Hx2; apply (Hd x Hx); set_solver).
  assert (Hil : (i < length nodes)%nat) by (apply Hr; set_solver).
  assert (Hlast : forall x, last_or l1 None = Some x -> x ∈ l1 /\ (x < length nodes)%nat).
  { intros x. unfold last_or. destruct (last l1) eqn:E; [|done]. intros [= ->].
    apply last_Some_elem_of in E as Hx. split; [done|apply Hr; set_solver]. }
  assert (Hhead : forall x, head_or l2 None = Some x -> x ∈ l2 /\ (x < length nodes)%nat).
  { intros x. destruct l2; [done|]. intros [= ->]. split; [set_solver|apply Hr; set_solver]. }
  apply seg_app in Hs as [Hs1 (_ & _ & Hs2)].
  split; cbn [fst snd e_head e_tail].
  - by apply NoDup_app.
  - intros j Hj. autorewrite with arena_len. rewrite length_bridge. apply Hr. set_solver.
  - rewrite Hh. destruct l1 as [|x l1]; [by destruct l2|]. unfold last_or.
    rewrite last_cons. by destruct (last l1).
  - rewrite Ht. destruct l2 as [|y l2]; cbn [head_or].
    + rewrite app_nil_r. unfold last_or. by destruct (last l1).
    + rewrite !last_app, !last_cons. by destruct (last l2).
  - apply seg_app. split.
    + eapply seg_set_next; [done| | | |exact Hs1].
      * intros x Hx Hl. assert (x <> i) by congruence.
        links. rewrite next_bridge by (intros y Hy; by apply Hlast in Hy as []).
        rewrite decide_False; [done|]. unfold last_or. by destruct (last l1).
      * intros x Hl. assert (x <> i) by (intros ->; apply Hi1; by apply last_Some_elem_of).
        links. rewrite next_bridge by (intros y Hy; by apply Hlast in Hy as []).
        unfold last_or. rewrite Hl. by rewrite decide_True.
      * intros x Hx. assert (x <> i) by congruence.
        links. rewrite prev_bridge by (intros y Hy; by apply Hhead in Hy as []).
        rewrite decide_False; [done|]. intros Hy. apply Hhead in Hy as []. by eapply Hdd.
    + eapply seg_set_prev; [done| | | |exact Hs2].
      * intros x Hx Hl. assert (x <> i) by congruence.
        links. rewrite prev_bridge by (intros y Hy; by apply Hhead in Hy as []).
        rewrite decide_False; [done|]. by destruct l2.
      * intros x Hl. destruct l2 as [|y l2]; [done|]. simpl in Hl. injection Hl as ->.
        assert (x <> i) by set_solver.
        links. rewrite prev_bridge by (intros y Hy; by apply Hhead in Hy as []).
        by rewrite decide_True.
      * intros x Hx. assert (x <> i) by congruence.
        links. rewrite next_bridge by (intros y Hy; by apply Hlast in Hy as []).
        rewrite decide_False; [done|]. intros Hy. apply Hlast in Hy as []. by eapply Hdd.
Qed.
End unlink.

(** ** Iteration *)

Section iteration.
Context {N : Type} {L : Links N}.
Implicit Types (nodes : list N) (l : list nat).

Lemma walk_seg nodes fuel p l n :
  (length l < fuel)%nat -> seg (next_of nodes) (prev_of nodes) p l n -> n = None ->
  walk fuel nodes (head l) = l.
Proof.
  revert fuel p. induction l as [|x l IH]; intros [|f] p Hf Hs ->; simpl in *; try lia; [done|].
  destruct Hs as (_ & Hn & Hs). rewrite Hn. f_equal.
  replace (head_or l None) with (head l) by (by destruct l).
  apply (IH f (Some x)); [lia|done|done].
Qed.

Lemma walk_back_seg nodes fuel l n :
  (length l < fuel)%nat -> seg (next_of nodes) (prev_of nodes) None l n ->
  walk_back fuel nodes (last l) = reverse l.
Proof.
  revert fuel n. induction l as [|x l IH] using rev_ind; intros [|f] n Hf Hs; simpl in *; try lia; [done|].
  rewrite length_app in Hf. simpl in Hf.
  rewrite last_snoc, reverse_snoc. simpl. f_equal.
  rewrite (seg_prev _ _ _ _ _ _ _ Hs). apply seg_app in Hs as [Hs _]. simpl in Hs.
  replace (last_or l None) with (last l) by (unfold last_or; by destruct (last l)).
  apply (IH f (Some x)); [lia|done].
Qed.

Lemma spells_length nodes e l : spells (nodes, e) l -> (length l <= length nodes)%nat.
Proof.
  intros [Hnd Hr _ _ _]. cbn [fst] in Hr. rewrite <- (length_seq (length nodes) 0).
  apply NoDup_incl_length; [by apply NoDup_ListNoDup|]. intros j Hj.
  apply in_seq. apply list_elem_of_In, Hr in Hj. lia.
Qed.

(** Any fuel above the arena's size walks the whole list. *)
Lemma spells_walk_fuel fuel nodes e l :
  (length nodes < fuel)%nat -> spells (nodes, e) l -> walk fuel nodes (e_head e) = l.
Proof.
  intros Hf Hsp. pose proof (spells_length _ _ _ Hsp). destruct Hsp as [Hnd Hr Hh Ht Hs].
  cbn [fst snd] in *. rewrite Hh. eapply walk_seg; [|exact Hs|done]. lia.
Qed.

Lemma spells_walk_back_fuel fuel nodes e l :
  (length nodes < fuel)%nat -> spells (nodes, e) l ->
  walk_back fuel nodes (e_tail e) = reverse l.
Proof.
  intros Hf Hsp. pose proof (spells_length _ _ _ Hsp). destruct Hsp as [Hnd Hr Hh Ht Hs].
  cbn [fst snd] in *. rewrite Ht. eapply walk_back_seg; [|exact Hs]. lia.
Qed.

Lemma spells_walk nodes e l :
  spells (nodes, e) l -> walk (S (length nodes)) nodes (e_head e) = l.
Proof. apply spells_walk_fuel. lia. Qed.

Lemma spells_walk_back nodes e l :
  spells (nodes, e) l -> walk_back (S (length nodes)) nodes (e_tail e) = reverse l.
Proof. apply spells_walk_back_fuel. lia. Qed.
End iteration.

(** ** Framing

    A projection the link writes leave alone reads the same on every node. *)

Section frame.
Context {N : Type} {L : Links N} {B : Type} (f : N -> B).
Context (Hnext : forall v n, f (set_next v n) = f n).
Context (Hprev : forall v n, f (set_prev v n) = f n).
Implicit Types (nodes : list N) (st : list N * ends).

Lemma frame_alter (g : N -> N) i nodes :
  (forall n, f (g n) = f n) -> f <$> alter g i nodes = f <$> nodes.
Proof.
  intros Hg. apply list_eq. intros j. rewrite !list_lookup_fmap.
  destruct (decide (i = j)) as [->|].
  - rewrite list_lookup_alter_eq. destruct (nodes !! j); simpl; [by rewrite Hg|done].
  - by rewrite list_lookup_alter_ne.
Qed.

Lemma frame_write_next i v nodes : f <$> write_next i v nodes = f <$> nodes.
Proof. by apply frame_alter. Qed.
Lemma frame_write_prev i v nodes : f <$> write_prev i v nodes = f <$> nodes.
Proof. by apply frame_alter. Qed.

Lemma frame_link_back i st : f <$> (link_back i st).1 = f <$> st.1.
Proof.
  destruct st as [nodes e]. unfold link_back.
  destruct (e_tail e); simpl; by rewrite ?frame_write_next, ?frame_write_prev.
Qed.
Lemma frame_link_front i st : f <$> (link_front i st).1 = f <$> st.1.
Proof.
  destruct st as [nodes e]. unfold link_front.
  destruct (e_head e); simpl; by rewrite ?frame_write_prev, ?frame_write_next.
Qed.
Lemma frame_link_before s i st : f <$> (link_before s i st).1 = f <$> st.1.
Proof.
  destruct st as [nodes e]. unfold link_before.
  destruct (prev_of nodes s); simpl;
    by rewrite ?frame_write_next, ?frame_write_prev, ?frame_write_next, ?frame_write_prev.
Qed.
Lemma frame_unlink i st : f <$> (unlink i st).1 = f <$> st.1.
Proof.
  destruct st as [nodes e]. rewrite unlink_eq. unfold bridge.
  destruct (prev_of nodes i), (next_of nodes i); cbn [fst];
    by rewrite !frame_write_next, ?frame_write_prev, ?frame_write_next.
Qed.
End frame.
