(* ===== verification/KeyOrder.v ===== *)
(** * The recency orders of a tier

    [CacheKeyOrder] (cache_facades.rs) keeps the keys of one tier in two
    orders at once, the order they were inserted in and the order they were
    last accessed in, as two doubly linked lists through one arena, with an
    index from keys to nodes.  New entries can be placed inside the access
    order, at an insertion point kept [len >> spec] entries from its eviction
    end.  Everything eviction and expiry decide is read from these orders. *)

From S2P Require Import Prelude Types Dll.

(** ** Nodes *)

Record CacheOrderNode := mkNode {
  node_key : CacheKey;
  n_prev : link;
  n_next : link;
  n_access_prev : link;
  n_access_next : link
}.

#[global] Instance CacheOrderNode_eq_dec : EqDecision CacheOrderNode.
Proof. solve_decision. Defined.

(** The links of the insertion order. *)
Definition order_links : Links CacheOrderNode.
Proof.
  refine {| get_next := n_next;
            set_next v n := mkNode (node_key n) (n_prev n) v (n_access_prev n) (n_access_next n);
            get_prev := n_prev;
            set_prev v n := mkNode (node_key n) v (n_next n) (n_access_prev n) (n_access_next n) |};
    by intros.
Defined.

(** The links of the access order. *)
Definition access_links : Links CacheOrderNode.
Proof.
  refine {| get_next := n_access_next;
            set_next v n := mkNode (node_key n) (n_prev n) (n_next n) (n_access_prev n) v;
            get_prev := n_access_prev;
            set_prev v n := mkNode (node_key n) (n_prev n) (n_next n) v (n_access_next n) |};
    by intros.
Defined.

(** ** Cold bits: one bit per node, absent words are clear *)

Definition word_of (node : nat) : nat := node / 64.
Definition bit_of (node : nat) : Z := Z.of_nat (node mod 64).

Definition bits_get (bits : list Z) (node : nat) : bool :=
  match bits !! word_of node with
  | Some word => Z.testbit word (bit_of node)
  | None => false
  end.

Definition bits_set (bits : list Z) (node : nat) (cold : bool) : list Z :=
  let word := word_of node in
  if (length bits <=? word)%nat && negb cold then bits
  else
    let bits := if (length bits <=? word)%nat
                then bits ++ replicate (word + 1 - length bits) 0 else bits in
    alter (fun w => if cold then Z.setbit w (bit_of node) else Z.clearbit w (bit_of node))
          word bits.

(** ** State *)

Record CacheKeyOrder := mkOrder {
  nodes : list CacheOrderNode;
  free : list nat;
  index : gmap CacheKey nat;
  ends_of : ends;
  access_ends : ends;
  access_insert : link;
  access_cold : nat;
  access_cold_bits : list Z;
  insertion_spec : Z
}.

(** [CacheKeyOrder::new]. *)
Definition new_order : CacheKeyOrder :=
  mkOrder [] [] ∅ (mkEnds None None) (mkEnds None None) None 0 [] 0.

(** The two lists as arena and ends, and writing one of them back. *)
Definition order_list (o : CacheKeyOrder) : list CacheOrderNode * ends := (nodes o, ends_of o).
Definition access_list (o : CacheKeyOrder) : list CacheOrderNode * ends := (nodes o, access_ends o).

Definition with_order (st : list CacheOrderNode * ends) (o : CacheKeyOrder) : CacheKeyOrder :=
  mkOrder (fst st) (free o) (index o) (snd st) (access_ends o) (access_insert o)
          (access_cold o) (access_cold_bits o) (insertion_spec o).
Definition with_access (st : list CacheOrderNode * ends) (o : CacheKeyOrder) : CacheKeyOrder :=
  mkOrder (fst st) (free o) (index o) (ends_of o) (snd st) (access_insert o)
          (access_cold o) (access_cold_bits o) (insertion_spec o).
Definition with_index (i : gmap CacheKey nat) (o : CacheKeyOrder) : CacheKeyOrder :=
  mkOrder (nodes o) (free o) i (ends_of o) (access_ends o) (access_insert o)
          (access_cold o) (access_cold_bits o) (insertion_spec o).
Definition with_arena (ns : list CacheOrderNode) (fr : list nat) (o : CacheKeyOrder) : CacheKeyOrder :=
  mkOrder ns fr (index o) (ends_of o) (access_ends o) (access_insert o)
          (access_cold o) (access_cold_bits o) (insertion_spec o).
(** The insertion point and its distance from the eviction end. *)
Definition with_point (p : link) (cold : nat) (o : CacheKeyOrder) : CacheKeyOrder :=
  mkOrder (nodes o) (free o) (index o) (ends_of o) (access_ends o) p
          cold (access_cold_bits o) (insertion_spec o).
Definition with_spec (spec : Z) (o : CacheKeyOrder) : CacheKeyOrder :=
  mkOrder (nodes o) (free o) (index o) (ends_of o) (access_ends o) (access_insert o)
          (access_cold o) (access_cold_bits o) spec.

Definition set_node_cold (node : nat) (cold : bool) (o : CacheKeyOrder) : CacheKeyOrder :=
  mkOrder (nodes o) (free o) (index o) (ends_of o) (access_ends o) (access_insert o)
          (access_cold o) (bits_set (access_cold_bits o) node cold) (insertion_spec o).
Definition node_is_cold (o : CacheKeyOrder) (node : nat) : bool :=
  bits_get (access_cold_bits o) node.

(** ** Reads *)

Definition len (o : CacheKeyOrder) : nat := size (index o).

Definition contains (o : CacheKeyOrder) (key : CacheKey) : bool :=
  bool_decide (is_Some (index o !! key)).

(** The key held by a node; [empty_key] stands for an out-of-range read. *)
Definition key_at (ns : list CacheOrderNode) (i : nat) : CacheKey :=
  match ns !! i with Some n => node_key n | None => empty_key end.

(** [iter]: least to most recently inserted. *)
Definition iter (o : CacheKeyOrder) : list CacheKey :=
  key_at (nodes o) <$> walk (L := order_links) (S (length (nodes o))) (nodes o) (e_head (ends_of o)).
Definition iter_rev (o : CacheKeyOrder) : list CacheKey :=
  key_at (nodes o) <$> walk_back (L := order_links) (S (length (nodes o))) (nodes o) (e_tail (ends_of o)).
(** [iter_access]: least to most recently accessed. *)
Definition iter_access (o : CacheKeyOrder) : list CacheKey :=
  key_at (nodes o) <$>
    walk (L := access_links) (S (length (nodes o))) (nodes o) (e_head (access_ends o)).

Definition back (o : CacheKeyOrder) : option CacheKey := key_at (nodes o) <$> e_tail (ends_of o).
Definition front (o : CacheKeyOrder) : option CacheKey := key_at (nodes o) <$> e_head (ends_of o).

(** ** The insertion point *)

Definition anext (o : CacheKeyOrder) (i : nat) : link := next_of (L := access_links) (nodes o) i.
Definition aprev (o : CacheKeyOrder) (i : nat) : link := prev_of (L := access_links) (nodes o) i.

(** Toward the most recently used end while too few entries are cold. *)
Fixpoint point_forward (fuel target : nat) (o : CacheKeyOrder) : CacheKeyOrder :=
  match fuel with
  | O => o
  | S f =>
      if (access_cold o <? target)%nat then
        match access_insert o with
        | None => o
        | Some p =>
            match anext o p with
            | None => o
            | Some n => point_forward f target
                          (with_point (Some n) (access_cold o + 1) (set_node_cold p true o))
            end
        end
      else o
  end.

(** Back toward the eviction end while too many are. *)
Fixpoint point_backward (fuel target : nat) (o : CacheKeyOrder) : CacheKeyOrder :=
  match fuel with
  | O => o
  | S f =>
      if (target <? access_cold o)%nat then
        match access_insert o with
        | None => o
        | Some p =>
            match aprev o p with
            | None => o
            | Some q => point_backward f target
                          (with_point (Some q) (access_cold o - 1) (set_node_cold q false o))
            end
        end
      else o
  end.

(** [rebalance_insertion_point]; each loop moves at most once per node. *)
Definition rebalance_insertion_point (o : CacheKeyOrder) : CacheKeyOrder :=
  if insertion_spec o =? 0 then with_point None 0 o
  else
    let target := Z.to_nat (Z.shiftr (Z.of_nat (len o)) (insertion_spec o)) in
    match e_head (access_ends o) with
    | None => with_point None 0 o
    | Some h =>
        let o := match access_insert o with None => with_point (Some h) 0 o | Some _ => o end in
        let fuel := S (length (nodes o)) in
        let o := point_backward fuel target (point_forward fuel target o) in
        match access_insert o with Some p => set_node_cold p false o | None => o end
    end.

Definition set_insertion_spec (spec : Z) (o : CacheKeyOrder) : CacheKeyOrder :=
  rebalance_insertion_point (with_spec spec o).

(** ** Linking *)

Definition o_link_back (i : nat) (o : CacheKeyOrder) : CacheKeyOrder :=
  with_order (link_back (L := order_links) i (order_list o)) o.
Definition o_link_front (i : nat) (o : CacheKeyOrder) : CacheKeyOrder :=
  with_order (link_front (L := order_links) i (order_list o)) o.
Definition o_unlink (i : nat) (o : CacheKeyOrder) : CacheKeyOrder :=
  with_order (unlink (L := order_links) i (order_list o)) o.
Definition link_access_back (i : nat) (o : CacheKeyOrder) : CacheKeyOrder :=
  with_access (link_back (L := access_links) i (access_list o)) o.
Definition link_access_front (i : nat) (o : CacheKeyOrder) : CacheKeyOrder :=
  with_access (link_front (L := access_links) i (access_list o)) o.
Definition unlink_access_inner (i : nat) (o : CacheKeyOrder) : CacheKeyOrder :=
  with_access (unlink (L := access_links) i (access_list o)) o.

Definition link_access_insert (i : nat) (o : CacheKeyOrder) : CacheKeyOrder :=
  if insertion_spec o =? 0 then rebalance_insertion_point (link_access_back i o)
  else match access_insert o with
  | None => rebalance_insertion_point (link_access_back i o)
  | Some succ =>
      let o := with_access (link_before (L := access_links) succ i (access_list o)) o in
      let o := set_node_cold i true o in
      rebalance_insertion_point (with_point (access_insert o) (access_cold o + 1) o)
  end.

(** Keep the insertion point off a node about to leave. *)
Definition step_point_off (i : nat) (o : CacheKeyOrder) : CacheKeyOrder :=
  if insertion_spec o =? 0 then o
  else match access_insert o with
  | None => o
  | Some p =>
      if (i =? p)%nat then
        match anext o i with
        | Some n => set_node_cold n false (with_point (Some n) (access_cold o) o)
        | None =>
            match aprev o i with
            | Some q => set_node_cold q false (with_point (Some q) (access_cold o - 1) o)
            | None => with_point None 0 o
            end
        end
      else if node_is_cold o i then with_point (Some p) (access_cold o - 1) o
      else o
  end.

Definition unlink_access (i : nat) (o : CacheKeyOrder) : CacheKeyOrder :=
  unlink_access_inner i (set_node_cold i false (step_point_off i o)).

(** ** Allocation *)

Definition alloc (key : CacheKey) (o : CacheKeyOrder) : nat * CacheKeyOrder :=
  match reverse (free o) with
  | i :: rest =>
      (i, set_node_cold i false
            (with_arena (alter (fun _ => mkNode key None None None None) i (nodes o))
                        (reverse rest) o))
  | [] =>
      let i := length (nodes o) in
      (i, set_node_cold i false (with_arena (nodes o ++ [mkNode key None None None None]) [] o))
  end.

Definition release (i : nat) (o : CacheKeyOrder) : CacheKeyOrder :=
  with_arena
    (alter (fun n => mkNode empty_key (n_prev n) (n_next n) (n_access_prev n) (n_access_next n))
           i (nodes o))
    (free o ++ [i]) o.

(** ** Operations *)

Definition push_back_if_absent (key : CacheKey) (o : CacheKeyOrder) : CacheKeyOrder :=
  match index o !! key with
  | Some _ => o
  | None =>
      let '(i, o) := alloc key o in
      let o := o_link_back i o in
      let o := with_index (<[key := i]> (index o)) o in
      link_access_insert i o
  end.

Definition push_back (key : CacheKey) (o : CacheKeyOrder) : CacheKeyOrder :=
  match index o !! key with
  | Some i => link_access_back i (unlink_access i (o_link_back i (o_unlink i o)))
  | None =>
      let '(i, o) := alloc key o in
      let o := link_access_back i (o_link_back i o) in
      with_index (<[key := i]> (index o)) o
  end.

Definition push_front (key : CacheKey) (o : CacheKeyOrder) : CacheKeyOrder :=
  match index o !! key with
  | Some i => link_access_front i (unlink_access i (o_link_front i (o_unlink i o)))
  | None =>
      let '(i, o) := alloc key o in
      let o := link_access_front i (o_link_front i o) in
      with_index (<[key := i]> (index o)) o
  end.

Definition move_to_back (key : CacheKey) (o : CacheKeyOrder) : bool * CacheKeyOrder :=
  match index o !! key with
  | None => (false, o)
  | Some i =>
      if decide (e_tail (ends_of o) = Some i) then (true, o)
      else (true, o_link_back i (o_unlink i o))
  end.

Definition touch_access (key : CacheKey) (o : CacheKeyOrder) : bool * CacheKeyOrder :=
  match index o !! key with
  | None => (false, o)
  | Some i =>
      if decide (e_tail (access_ends o) = Some i) then (true, o)
      else (true, link_access_back i (unlink_access i o))
  end.

Definition remove (key : CacheKey) (o : CacheKeyOrder) : bool * CacheKeyOrder :=
  match index o !! key with
  | None => (false, o)
  | Some i =>
      let o := with_index (delete key (index o)) o in
      (true, release i (unlink_access i (o_unlink i o)))
  end.

(** The key of a node about to be released is moved out. *)
Definition clear_key (i : nat) (o : CacheKeyOrder) : CacheKeyOrder :=
  with_arena
    (alter (fun n => mkNode empty_key (n_prev n) (n_next n) (n_access_prev n) (n_access_next n))
           i (nodes o))
    (free o) o.
Definition pop_front (o : CacheKeyOrder) : option CacheKey * CacheKeyOrder :=
  match e_head (ends_of o) with
  | None => (None, o)
  | Some i =>
      let key := key_at (nodes o) i in
      let o := unlink_access i (o_unlink i (clear_key i o)) in
      (Some key, release i (with_index (delete key (index o)) o))
  end.

(** ** Compaction *)

(** Number the nodes in eviction order; [None] when the list has a cycle. *)
Fixpoint compact_walk (fuel : nat) (ns : list CacheOrderNode) (remap : list link) (order : list nat) (cursor : link) : option (list link * list nat) :=
  match cursor with
  | None => Some (remap, order)
  | Some c =>
      match fuel, remap !! c with
      | S f, Some None => compact_walk f ns (<[c := Some (length order)]> remap) (order ++ [c]) (next_of (L := order_links) ns c)
      | _, _ => None
      end
  end.
Definition remapped (remap : list link) (node : link) : link := node ≫= fun i => mjoin (remap !! i).
Definition remap_node (remap : list link) (n : CacheOrderNode) : CacheOrderNode :=
  mkNode (node_key n) (remapped remap (n_prev n)) (remapped remap (n_next n))
         (remapped remap (n_access_prev n)) (remapped remap (n_access_next n)).
Definition node_at (ns : list CacheOrderNode) (i : nat) : CacheOrderNode := default (mkNode empty_key None None None None) (ns !! i).
Definition remap_ends (remap : list link) (e : ends) : ends := mkEnds (remapped remap (e_head e)) (remapped remap (e_tail e)).
(** The bits of the new nodes, from [node] on. *)
Fixpoint cold_bits (node : nat) (cold : list bool) (bits : list Z) : list Z :=
  match cold with
  | [] => bits
  | c :: cold => cold_bits (S node) cold (if c then bits_set bits node true else bits)
  end.

(** [capacity] is what the arena has allocated.  A list that has a cycle or
    disagrees with the index is left as it is. *)
Definition compact_if_sparse (capacity floor : nat) (o : CacheKeyOrder) : CacheKeyOrder :=
  let live := len o in
  if ((capacity <=? floor) || (capacity <? live * 4))%nat then o
  else match compact_walk (S (length (nodes o))) (nodes o) (replicate (length (nodes o)) None) [] (e_head (ends_of o)) with
  | None => o
  | Some (remap, eviction_order) =>
      if negb (length eviction_order =? live)%nat then o
      else if existsb (fun node => bool_decide (mjoin (remap !! node) = None)) (map_to_list (index o)).*2 then o
      else
        mkOrder ((fun old => remap_node remap (node_at (nodes o) old)) <$> eviction_order) []
          ((fun node => default 0%nat (mjoin (remap !! node))) <$> index o)
          (remap_ends remap (ends_of o)) (remap_ends remap (access_ends o)) (remapped remap (access_insert o))
          (access_cold o) (cold_bits 0 (node_is_cold o <$> eviction_order) []) (insertion_spec o)
  end.

Definition clear (o : CacheKeyOrder) : CacheKeyOrder :=
  mkOrder [] [] ∅ (mkEnds None None) (mkEnds None None) None 0 [] (insertion_spec o).

(** [check_access_invariants]: [true] is [Ok]. *)
Definition check_access_invariants (o : CacheKeyOrder) : bool :=
  let fuel := S (S (length (nodes o))) in
  let forward := walk (L := access_links) fuel (nodes o) (e_head (access_ends o)) in
  let backward := walk_back (L := access_links) fuel (nodes o) (e_tail (access_ends o)) in
  (length forward <=? length (nodes o) + 1)%nat
  && (length forward =? len o)%nat
  && (length backward <=? length (nodes o) + 1)%nat
  && bool_decide (reverse backward = forward)
  && ((insertion_spec o =? 0) || bool_decide (forward = [])
      || match access_insert o with
         | None => false
         | Some p => match list_find (eq p) forward with
                     | Some (pos, _) => (pos =? access_cold o)%nat
                     | None => false
                     end
         end).

Definition demo_key (i : Z) : CacheKey := mkKey i "k" "string" "value".

Example two_orders :
  let o := fold_left (fun o i => push_back_if_absent (demo_key i) o) [1; 2; 3] new_order in
  let o := snd (touch_access (demo_key 1) o) in
  let o := snd (remove (demo_key 2) o) in
  iter o = demo_key <$> [1; 3] /\ iter_access o = demo_key <$> [3; 1] /\
  check_access_invariants o = true.
Proof. vm_compute. done. Qed.
