(* ===== verification/KeyOrderFacts.v ===== *)
(** * The recency orders refine a pair of lists

    [wf o] says that the arena of a [CacheKeyOrder] spells two permutations of
    the same nodes and that the index names exactly them; under it [iter] and
    [iter_access] are the two orders as lists of keys and every operation is
    its list counterpart.  [point_ok] adds that the insertion point and the
    cold bits are where [check_access_invariants] requires them. *)

From S2P Require Import Prelude Types Dll KeyOrder.

(** ** Lists *)

Lemma filter_ne_notin `{EqDecision A} (k : A) (l : list A) : k ∉ l -> filter (fun x => x <> k) l = l.
Proof.
  induction l as [|x l IH]; intros Hk; [done|].
  rewrite filter_cons_True by set_solver. by rewrite IH by set_solver.
Qed.

Lemma filter_ne_split `{EqDecision A} (k : A) (l1 l2 : list A) :
  NoDup (l1 ++ k :: l2) -> filter (fun x => x <> k) (l1 ++ k :: l2) = l1 ++ l2.
Proof.
  intros (Hd1 & Hd & [Hk Hd2]%NoDup_cons)%NoDup_app.
  rewrite filter_app, filter_cons_False by naive_solver.
  rewrite !filter_ne_notin; set_solver.
Qed.

(** ** Views of the arena *)

(** What one pair of links depends on, together with the key. *)
Definition order_view (n : CacheOrderNode) := (node_key n, n_prev n, n_next n).
Definition access_view (n : CacheOrderNode) := (node_key n, n_access_prev n, n_access_next n).

Lemma view_lookup {B} (f : CacheOrderNode -> B) (ns ns' : list CacheOrderNode) i :
  f <$> ns' = f <$> ns -> f <$> ns' !! i = f <$> ns !! i.
Proof. intros H. by rewrite <- !list_lookup_fmap, H. Qed.

Lemma view_length {B} (f : CacheOrderNode -> B) (ns ns' : list CacheOrderNode) :
  f <$> ns' = f <$> ns -> length ns = length ns'.
Proof. intros H. by rewrite <- (length_fmap f ns), <- (length_fmap f ns'), H. Qed.

Lemma spells_order_view ns ns' e l :
  order_view <$> ns' = order_view <$> ns ->
  spells (L := order_links) (ns, e) l -> spells (L := order_links) (ns', e) l.
Proof.
  intros H. apply spells_ext; [by eapply view_length|intros i _..];
    pose proof (view_lookup _ _ _ i H) as Hi; unfold next_of, prev_of;
    destruct (ns !! i), (ns' !! i); inversion Hi; simpl; done.
Qed.

Lemma spells_access_view ns ns' e l :
  access_view <$> ns' = access_view <$> ns ->
  spells (L := access_links) (ns, e) l -> spells (L := access_links) (ns', e) l.
Proof.
  intros H. apply spells_ext; [by eapply view_length|intros i _..];
    pose proof (view_lookup _ _ _ i H) as Hi; unfold next_of, prev_of;
    destruct (ns !! i), (ns' !! i); inversion Hi; simpl; done.
Qed.

Lemma key_at_order_view ns ns' i :
  order_view <$> ns' = order_view <$> ns -> key_at ns' i = key_at ns i.
Proof.
  intros H. pose proof (view_lookup _ _ _ i H) as Hi. unfold key_at.
  destruct (ns !! i), (ns' !! i); inversion Hi; simpl; done.
Qed.

Lemma key_at_access_view ns ns' i :
  access_view <$> ns' = access_view <$> ns -> key_at ns' i = key_at ns i.
Proof.
  intros H. pose proof (view_lookup _ _ _ i H) as Hi. unfold key_at.
  destruct (ns !! i), (ns' !! i); inversion Hi; simpl; done.
Qed.

(** The two lists of an order, and the key of every node, as one fact. *)
Record lists (o : CacheKeyOrder) (ins acc : list nat) (key : nat -> CacheKey) : Prop := {
  l_ins : spells (L := order_links) (order_list o) ins;
  l_acc : spells (L := access_links) (access_list o) acc;
  l_key : forall i, key_at (nodes o) i = key i
}.

Section list_ops.
Context (o : CacheKeyOrder) (key : nat -> CacheKey).
Implicit Types (ins acc : list nat).

Lemma o_link_back_lists ins acc i :
  lists o ins acc key -> i ∉ ins -> (i < length (nodes o))%nat ->
  lists (o_link_back i o) (ins ++ [i]) acc key.
Proof.
  intros [H1 H2 H3] Hi Hlt.
  assert (Hv : access_view <$> (link_back (L := order_links) i (order_list o)).1
               = access_view <$> nodes o) by (by rewrite frame_link_back).
  split; simpl.
  - pose proof (link_back_spells _ _ _ _ H1 Hi Hlt) as H.
    unfold order_list, o_link_back, with_order; simpl. by rewrite <- surjective_pairing.
  - by eapply spells_access_view.
  - intros j. rewrite <- H3. by apply key_at_access_view.
Qed.

Lemma o_link_front_lists ins acc i :
  lists o ins acc key -> i ∉ ins -> (i < length (nodes o))%nat ->
  lists (o_link_front i o) (i :: ins) acc key.
Proof.
  intros [H1 H2 H3] Hi Hlt.
  assert (Hv : access_view <$> (link_front (L := order_links) i (order_list o)).1
               = access_view <$> nodes o) by (by rewrite frame_link_front).
  split; simpl.
  - pose proof (link_front_spells _ _ _ _ H1 Hi Hlt) as H.
    unfold order_list, o_link_front, with_order; simpl. by rewrite <- surjective_pairing.
  - by eapply spells_access_view.
  - intros j. rewrite <- H3. by apply key_at_access_view.
Qed.

Lemma o_unlink_lists l1 l2 acc i :
  lists o (l1 ++ i :: l2) acc key -> lists (o_unlink i o) (l1 ++ l2) acc key.
Proof.
  intros [H1 H2 H3].
  assert (Hv : access_view <$> (unlink (L := order_links) i (order_list o)).1
               = access_view <$> nodes o) by (by rewrite frame_unlink).
  split; simpl.
  - pose proof (unlink_spells _ _ _ _ _ H1) as H.
    unfold order_list, o_unlink, with_order; simpl. by rewrite <- surjective_pairing.
  - by eapply spells_access_view.
  - intros j. rewrite <- H3. by apply key_at_access_view.
Qed.

Lemma link_access_back_lists ins acc i :
  lists o ins acc key -> i ∉ acc -> (i < length (nodes o))%nat ->
  lists (link_access_back i o) ins (acc ++ [i]) key.
Proof.
  intros [H1 H2 H3] Hi Hlt.
  assert (Hv : order_view <$> (link_back (L := access_links) i (access_list o)).1
               = order_view <$> nodes o) by (by rewrite frame_link_back).
  split; simpl.
  - by eapply spells_order_view.
  - pose proof (link_back_spells _ _ _ _ H2 Hi Hlt) as H.
    unfold access_list, link_access_back, with_access; simpl. by rewrite <- surjective_pairing.
  - intros j. rewrite <- H3. by apply key_at_order_view.
Qed.

Lemma link_access_front_lists ins acc i :
  lists o ins acc key -> i ∉ acc -> (i < length (nodes o))%nat ->
  lists (link_access_front i o) ins (i :: acc) key.
Proof.
  intros [H1 H2 H3] Hi Hlt.
  assert (Hv : order_view <$> (link_front (L := access_links) i (access_list o)).1
               = order_view <$> nodes o) by (by rewrite frame_link_front).
  split; simpl.
  - by eapply spells_order_view.
  - pose proof (link_front_spells _ _ _ _ H2 Hi Hlt) as H.
    unfold access_list, link_access_front, with_access; simpl. by rewrite <- surjective_pairing.
  - intros j. rewrite <- H3. by apply key_at_order_view.
Qed.

Lemma link_access_before_lists ins l1 s l2 i :
  lists o ins (l1 ++ s :: l2) key -> i ∉ l1 ++ s :: l2 -> (i < length (nodes o))%nat ->
  lists (with_access (link_before (L := access_links) s i (access_list o)) o)
        ins (l1 ++ i :: s :: l2) key.
Proof.
  intros [H1 H2 H3] Hi Hlt.
  assert (Hv : order_view <$> (link_before (L := access_links) s i (access_list o)).1
               = order_view <$> nodes o) by (by rewrite frame_link_before).
  split; simpl.
  - by eapply spells_order_view.
  - pose proof (link_before_spells _ _ _ _ _ _ H2 Hi Hlt) as H.
    unfold access_list, with_access; simpl. by rewrite <- surjective_pairing.
  - intros j. rewrite <- H3. by apply key_at_order_view.
Qed.

Lemma unlink_access_inner_lists ins l1 l2 i :
  lists o ins (l1 ++ i :: l2) key -> lists (unlink_access_inner i o) ins (l1 ++ l2) key.
Proof.
  intros [H1 H2 H3].
  assert (Hv : order_view <$> (unlink (L := access_links) i (access_list o)).1
               = order_view <$> nodes o) by (by rewrite frame_unlink).
  split; simpl.
  - by eapply spells_order_view.
  - pose proof (unlink_spells _ _ _ _ _ H2) as H.
    unfold access_list, unlink_access_inner, with_access; simpl. by rewrite <- surjective_pairing.
  - intros j. rewrite <- H3. by apply key_at_order_view.
Qed.
End list_ops.

(** ** Cold bits *)

Lemma node_words i j : i <> j -> word_of i = word_of j -> bit_of i <> bit_of j.
Proof.
  unfold word_of, bit_of. intros Hne Hw Hb. apply Nat2Z.inj in Hb.
  apply Hne. rewrite (Nat.div_mod_eq i 64), (Nat.div_mod_eq j 64). congruence.
Qed.

Lemma bits_get_alter (bits : list Z) i j (b : bool) :
  (word_of i < length bits)%nat ->
  bits_get (alter (fun w => if b then Z.setbit w (bit_of i) else Z.clearbit w (bit_of i))
                  (word_of i) bits) j
  = if decide (i = j) then b else bits_get bits j.
Proof.
  intros [w Hw]%lookup_lt_is_Some. unfold bits_get.
  assert (H0 : 0 <= bit_of i) by (unfold bit_of; lia).
  destruct (decide (word_of i = word_of j)) as [He|Hne].
  - rewrite <- He, list_lookup_alter_eq, Hw. simpl.
    case_decide as Hij.
    + subst j. destruct b; [rewrite Z.setbit_eqb|rewrite Z.clearbit_eqb]; try lia;
        rewrite Z.eqb_refl; simpl; by rewrite ?andb_false_r.
    + pose proof (node_words _ _ Hij He).
      destruct b; [rewrite Z.setbit_eqb|rewrite Z.clearbit_eqb]; try done;
        replace (bit_of i =? bit_of j) with false by (symmetry; by apply Z.eqb_neq);
        simpl; by rewrite ?andb_true_r.
  - rewrite list_lookup_alter_ne by done. by rewrite decide_False by congruence.
Qed.

Lemma bits_get_app_zero bits n j : bits_get (bits ++ replicate n 0) j = bits_get bits j.
Proof.
  unfold bits_get. destruct (bits !! word_of j) as [w|] eqn:E.
  - by rewrite (lookup_app_l_Some _ _ _ _ E).
  - apply lookup_ge_None in E. rewrite lookup_app_r by done.
    destruct (replicate n 0 !! (word_of j - length bits)%nat) eqn:E2; [|done].
    apply lookup_replicate in E2 as [-> _]. apply Z.testbit_0_l.
Qed.

Lemma bits_get_set bits i j b :
  bits_get (bits_set bits i b) j = (if decide (i = j) then b else bits_get bits j).
Proof.
  unfold bits_set. destruct (length bits <=? word_of i)%nat eqn:E.
  - apply Nat.leb_le in E. destruct (negb b) eqn:Eb; simpl.
    + apply negb_true_iff in Eb as ->. case_decide; [|done].
      subst. unfold bits_get. by rewrite lookup_ge_None_2.
    + rewrite bits_get_alter.
      * by rewrite bits_get_app_zero.
      * rewrite length_app, length_replicate. lia.
  - apply Nat.leb_gt in E. simpl. by apply bits_get_alter.
Qed.

(** ** The insertion point *)

(** The parts of an order the insertion point does not touch. *)
Definition same_lists (o o' : CacheKeyOrder) : Prop :=
  nodes o' = nodes o /\ free o' = free o /\ index o' = index o /\
  ends_of o' = ends_of o /\ access_ends o' = access_ends o /\
  insertion_spec o' = insertion_spec o.

#[global] Instance same_lists_refl : Reflexive same_lists.
Proof. by intros o. Qed.
#[global] Instance same_lists_trans : Transitive same_lists.
Proof. unfold same_lists. intros x y z; intuition congruence. Qed.

Lemma same_lists_lists o o' ins acc key :
  same_lists o o' -> lists o ins acc key -> lists o' ins acc key.
Proof.
  intros (Hn & _ & _ & He & Ha & _) [H1 H2 H3]. unfold order_list, access_list in *.
  split; unfold order_list, access_list; by rewrite ?Hn, ?He, ?Ha.
Qed.

Lemma point_forward_same fuel t o : same_lists o (point_forward fuel t o).
Proof.
  revert o. induction fuel as [|f IH]; intros o; simpl; [done|].
  repeat case_match; try done. etrans; [|apply IH]. done.
Qed.

Lemma point_backward_same fuel t o : same_lists o (point_backward fuel t o).
Proof.
  revert o. induction fuel as [|f IH]; intros o; simpl; [done|].
  repeat case_match; try done. etrans; [|apply IH]. done.
Qed.

Lemma rebalance_same o : same_lists o (rebalance_insertion_point o).
Proof.
  unfold rebalance_insertion_point. case_match; [done|]. case_match; [|done].
  destruct (access_insert o) as [p|]; case_match;
    (etrans; [|etrans; [apply point_forward_same|apply point_backward_same]]); done.
Qed.

Lemma step_point_off_same i o : same_lists o (step_point_off i o).
Proof. unfold step_point_off. repeat case_match; done. Qed.

(** Where the point is and which nodes are cold, against the access order. *)
Record point_at (o : CacheKeyOrder) (acc : list nat) : Prop := {
  pa_insert : access_insert o = acc !! access_cold o;
  pa_bound : access_cold o = 0%nat \/ (access_cold o < length acc)%nat;
  pa_cold : forall i, node_is_cold o i = bool_decide (i ∈ take (access_cold o) acc)
}.

(** [point_at] when a spec is set; a clear point when none is. *)
Definition point_ok (o : CacheKeyOrder) (acc : list nat) : Prop :=
  if insertion_spec o =? 0
  then access_insert o = None /\ access_cold o = 0%nat /\ forall i, node_is_cold o i = false
  else point_at o acc.

Lemma node_is_cold_set o i j b :
  node_is_cold (set_node_cold i b o) j = (if decide (i = j) then b else node_is_cold o j).
Proof. apply bits_get_set. Qed.

Section point.
Context (o : CacheKeyOrder) (ins acc : list nat) (key : nat -> CacheKey).
Context (Hl : lists o ins acc key).

Lemma anext_lookup c p : acc !! c = Some p -> anext o p = acc !! S c.
Proof.
  intros Hp. destruct (l_acc _ _ _ _ Hl) as [_ _ _ _ Hs]. cbn [fst access_list] in Hs. unfold anext.
  rewrite <- (take_drop_middle acc c p Hp) in Hs. apply seg_next in Hs as ->.
  assert (drop (S c) acc !! 0%nat = acc !! S c) as <-
    by (rewrite lookup_drop; f_equal; lia).
  by destruct (drop (S c) acc).
Qed.

Lemma aprev_lookup c p : acc !! S c = Some p -> aprev o p = acc !! c.
Proof.
  intros Hp. destruct (l_acc _ _ _ _ Hl) as [_ _ _ _ Hs]. cbn [fst access_list] in Hs. unfold aprev.
  rewrite <- (take_drop_middle acc (S c) p Hp) in Hs. apply seg_prev in Hs as ->.
  unfold last_or. rewrite last_lookup, length_take_le by (apply lookup_lt_Some in Hp; lia).
  simpl. rewrite lookup_take_lt by lia. by destruct (acc !! c).
Qed.

Lemma aprev_first p : acc !! 0%nat = Some p -> aprev o p = None.
Proof.
  intros Hp. destruct (l_acc _ _ _ _ Hl) as [_ _ _ _ Hs]. cbn [fst access_list] in Hs. unfold aprev.
  rewrite <- (take_drop_middle acc 0 p Hp) in Hs. by apply seg_prev in Hs as ->.
Qed.
End point.

Lemma take_S_nodup {A} (l : list A) c x :
  NoDup l -> l !! c = Some x -> x ∉ take c l.
Proof.
  intros Hnd Hx Hin. apply list_elem_of_lookup in Hin as [i Hi].
  apply lookup_take_Some in Hi as [Hi Hlt].
  pose proof (NoDup_lookup _ _ _ _ Hnd Hi Hx). lia.
Qed.

Section rebalance.
Context (ins acc : list nat) (key : nat -> CacheKey).
Context (Hnd : NoDup acc).

Lemma point_forward_ok fuel t o :
  lists o ins acc key -> point_at o acc -> (t < length acc)%nat ->
  (t <= access_cold o + fuel)%nat ->
  point_at (point_forward fuel t o) acc /\
  access_cold (point_forward fuel t o) = Nat.max (access_cold o) t.
Proof.
  revert o. induction fuel as [|f IH]; intros o Hl [Hp Hb Hc] Ht Hf; simpl.
  - split; [done|lia].
  - destruct (access_cold o <? t)%nat eqn:E; [apply Nat.ltb_lt in E|apply Nat.ltb_ge in E].
    2: { split; [done|lia]. }
    destruct (lookup_lt_is_Some_2 acc (access_cold o)) as [p Hpa]; [lia|].
    rewrite Hp, Hpa. rewrite (anext_lookup _ _ _ _ Hl _ _ Hpa).
    destruct (lookup_lt_is_Some_2 acc (S (access_cold o))) as [n Hna]; [lia|].
    rewrite Hna.
    destruct (IH (with_point (Some n) (access_cold o + 1) (set_node_cold p true o)))
      as [IH1 IH2]; simpl; try done; try lia.
    { by apply (same_lists_lists o). }
    { split; simpl.
      - by rewrite Nat.add_1_r.
      - lia.
      - intros i. unfold node_is_cold. simpl. rewrite bits_get_set.
        rewrite Nat.add_1_r, (take_S_r _ _ _ Hpa). specialize (Hc i). unfold node_is_cold in Hc.
        destruct (decide (p = i)); [|rewrite Hc]; symmetry.
        + apply bool_decide_eq_true. set_solver.
        + apply bool_decide_ext. set_solver. }
    split; [done|]. rewrite IH2. cbn [access_cold with_point set_node_cold]. lia.
Qed.

Lemma point_backward_ok fuel t o :
  lists o ins acc key -> point_at o acc ->
  (access_cold o <= t + fuel)%nat ->
  point_at (point_backward fuel t o) acc /\
  access_cold (point_backward fuel t o) = Nat.min (access_cold o) t.
Proof.
  revert o. induction fuel as [|f IH]; intros o Hl [Hp Hb Hc] Hf; simpl.
  - split; [done|lia].
  - destruct (t <? access_cold o)%nat eqn:E; [apply Nat.ltb_lt in E|apply Nat.ltb_ge in E].
    2: { split; [done|lia]. }
    destruct Hb as [Hb|Hb]; [lia|].
    destruct (access_cold o) as [|c] eqn:Ec; [lia|].
    destruct (lookup_lt_is_Some_2 acc (S c)) as [p Hpa]; [lia|].
    rewrite Hp, Hpa. rewrite (aprev_lookup _ _ _ _ Hl _ _ Hpa).
    destruct (lookup_lt_is_Some_2 acc c) as [q Hqa]; [lia|].
    rewrite Hqa.
    cbn [Nat.sub]. rewrite Nat.sub_0_r.
    destruct (IH (with_point (Some q) c (set_node_cold q false o)))
      as [IH1 IH2]; simpl; try done; try lia.
    { by apply (same_lists_lists o). }
    { split; simpl.
      - done.
      - lia.
      - intros i. unfold node_is_cold. simpl. rewrite bits_get_set.
        specialize (Hc i). unfold node_is_cold in Hc. rewrite (take_S_r _ _ _ Hqa) in Hc.
        destruct (decide (q = i)); [|rewrite Hc]; symmetry.
        + subst. apply bool_decide_eq_false. by apply take_S_nodup.
        + apply bool_decide_ext. set_solver. }
    split; [done|]. rewrite IH2. cbn [access_cold with_point set_node_cold].
    change (c `min` t = S c `min` t)%nat. lia.
Qed.
End rebalance.

(** ** Well-formed orders *)

(** A point is a listed node, and there is one only when a spec is set. *)
Definition point_in (o : CacheKeyOrder) (acc : list nat) : Prop :=
  forall p, access_insert o = Some p -> insertion_spec o <> 0 /\ p ∈ acc.

Record order_ok (o : CacheKeyOrder) (ins acc : list nat) (key : nat -> CacheKey) : Prop := {
  ok_lists : lists o ins acc key;
  ok_perm : acc ≡ₚ ins;
  ok_index : forall k i, index o !! k = Some i <-> i ∈ ins /\ key i = k;
  ok_free : forall i, i ∈ free o -> (i < length (nodes o))%nat /\ i ∉ ins;
  ok_free_nodup : NoDup (free o);
  ok_point : point_in o acc
}.

Definition wf (o : CacheKeyOrder) : Prop := exists ins acc key, order_ok o ins acc key.

(** [wf] with the insertion point in place as well. *)
Definition wf_point (o : CacheKeyOrder) : Prop :=
  exists ins acc key, order_ok o ins acc key /\ point_ok o acc.

Lemma new_order_ok : order_ok new_order [] [] (fun _ => empty_key).
Proof.
  split; simpl.
  - split; try apply spells_nil. by intros i.
  - done.
  - intros k i. rewrite lookup_empty. split; [done|]. set_solver.
  - set_solver.
  - constructor.
  - done.
Qed.

Lemma fmap_key_at (ns : list CacheOrderNode) (key : nat -> CacheKey) (l : list nat) :
  (forall i, key_at ns i = key i) -> key_at ns <$> l = key <$> l.
Proof. intros H. apply list_fmap_ext. by intros. Qed.

Section order_ok_facts.
Context (o : CacheKeyOrder) (ins acc : list nat) (key : nat -> CacheKey).
Context (Hok : order_ok o ins acc key).

Lemma ok_iter : iter o = key <$> ins.
Proof.
  unfold iter. destruct (ok_lists _ _ _ _ Hok) as [H1 _ H3].
  rewrite (spells_walk (L := order_links) _ _ _ H1). by apply fmap_key_at.
Qed.

Lemma ok_iter_rev : iter_rev o = reverse (key <$> ins).
Proof.
  unfold iter_rev. destruct (ok_lists _ _ _ _ Hok) as [H1 _ H3].
  rewrite (spells_walk_back (L := order_links) _ _ _ H1), <- fmap_reverse.
  by apply fmap_key_at.
Qed.

Lemma ok_iter_access : iter_access o = key <$> acc.
Proof.
  unfold iter_access. destruct (ok_lists _ _ _ _ Hok) as [_ H2 H3].
  rewrite (spells_walk (L := access_links) _ _ _ H2). by apply fmap_key_at.
Qed.

Lemma ok_ins_nodup : NoDup ins.
Proof. apply (l_ins _ _ _ _ (ok_lists _ _ _ _ Hok)). Qed.
Lemma ok_acc_nodup : NoDup acc.
Proof. apply (l_acc _ _ _ _ (ok_lists _ _ _ _ Hok)). Qed.

Lemma ok_range i : i ∈ ins -> (i < length (nodes o))%nat.
Proof. apply (sp_range (L := order_links) _ _ (l_ins _ _ _ _ (ok_lists _ _ _ _ Hok))). Qed.

Lemma ok_key_inj i j : i ∈ ins -> j ∈ ins -> key i = key j -> i = j.
Proof.
  intros Hi Hj Hk. assert (index o !! key j = Some i) as H1 by (by apply (ok_index _ _ _ _ Hok)).
  assert (index o !! key j = Some j) as H2 by (by apply (ok_index _ _ _ _ Hok)).
  congruence.
Qed.

Lemma ok_keys_nodup : NoDup (key <$> ins).
Proof.
  apply NoDup_fmap_2_strong; [|apply ok_ins_nodup].
  intros x y Hx Hy Hk. by apply ok_key_inj.
Qed.

Lemma ok_index_None k : index o !! k = None <-> k ∉ key <$> ins.
Proof.
  rewrite list_elem_of_fmap. destruct (index o !! k) as [i|] eqn:E.
  - apply (ok_index _ _ _ _ Hok) in E as [Hi Hk]. split; [done|]. intros H. exfalso. eauto.
  - split; [|done]. intros _ (i & Hk & Hi).
    assert (index o !! k = Some i) by (by apply (ok_index _ _ _ _ Hok)). congruence.
Qed.

Lemma ok_len : len o = length ins.
Proof.
  unfold len. rewrite <- length_map_to_list, <- (length_fmap snd).
  apply Permutation_length, NoDup_Permutation.
  - apply NoDup_fmap_2_strong; [|apply NoDup_map_to_list].
    intros [k1 i1] [k2 i2] H1%elem_of_map_to_list H2%elem_of_map_to_list. simpl. intros ->.
    apply (ok_index _ _ _ _ Hok) in H1 as [_ <-], H2 as [_ <-]. done.
  - apply ok_ins_nodup.
  - intros i. rewrite list_elem_of_fmap. split.
    + intros ([k j] & -> & H%elem_of_map_to_list).
      by apply (ok_index _ _ _ _ Hok) in H as [? _].
    + intros Hi. exists (key i, i). split; [done|]. apply elem_of_map_to_list.
      by apply (ok_index _ _ _ _ Hok).
Qed.

Lemma ok_acc_length : length acc = length ins.
Proof. by rewrite (ok_perm _ _ _ _ Hok). Qed.
End order_ok_facts.

(** ** Rebalancing *)

Lemma elem_anext o ins acc key p n :
  lists o ins acc key -> p ∈ acc -> anext o p = Some n -> n ∈ acc.
Proof.
  intros Hl [c Hc]%list_elem_of_lookup Hn. rewrite (anext_lookup _ _ _ _ Hl _ _ Hc) in Hn.
  by eapply list_elem_of_lookup_2.
Qed.

Lemma elem_aprev o ins acc key p n :
  lists o ins acc key -> p ∈ acc -> aprev o p = Some n -> n ∈ acc.
Proof.
  intros Hl [[|c] Hc]%list_elem_of_lookup Hn.
  - by rewrite (aprev_first _ _ _ _ Hl _ Hc) in Hn.
  - rewrite (aprev_lookup _ _ _ _ Hl _ _ Hc) in Hn. by eapply list_elem_of_lookup_2.
Qed.

Lemma point_forward_in fuel t o ins acc key :
  lists o ins acc key -> point_in o acc -> point_in (point_forward fuel t o) acc.
Proof.
  revert o. induction fuel as [|f IH]; intros o Hl Hp; simpl; [done|].
  repeat case_match; try done. apply IH; [by apply (same_lists_lists o)|].
  intros q [= <-]. destruct (Hp _ H0). split; [done|]. by eapply elem_anext; eauto.
Qed.

Lemma point_backward_in fuel t o ins acc key :
  lists o ins acc key -> point_in o acc -> point_in (point_backward fuel t o) acc.
Proof.
  revert o. induction fuel as [|f IH]; intros o Hl Hp; simpl; [done|].
  repeat case_match; try done. apply IH; [by apply (same_lists_lists o)|].
  intros q [= <-]. destruct (Hp _ H0). split; [done|]. by eapply elem_aprev; eauto.
Qed.

Lemma head_of_lists o ins acc key :
  lists o ins acc key -> e_head (access_ends o) = head acc.
Proof. intros Hl. apply (sp_head (L := access_links) _ _ (l_acc _ _ _ _ Hl)). Qed.
Lemma tail_of_lists o ins acc key :
  lists o ins acc key -> e_tail (access_ends o) = last acc.
Proof. intros Hl. apply (sp_tail (L := access_links) _ _ (l_acc _ _ _ _ Hl)). Qed.

Lemma rebalance_in o ins acc key :
  lists o ins acc key -> point_in o acc -> point_in (rebalance_insertion_point o) acc.
Proof.
  intros Hl Hp. unfold rebalance_insertion_point. case_if; [done|].
  rewrite (head_of_lists _ _ _ _ Hl). destruct acc as [|h acc']; [done|]. change (head (h :: acc')) with (Some h). cbv beta iota zeta.
  set (o1 := match access_insert o with None => with_point (Some h) 0 o | Some _ => o end).
  assert (Hl1 : lists o1 ins (h :: acc') key)
    by (unfold o1; destruct (access_insert o); by apply (same_lists_lists o)).
  assert (Hp1 : point_in o1 (h :: acc')).
  { unfold o1. destruct (access_insert o) eqn:E'; [done|]. intros q [= <-]. split; [by zbool|set_solver]. }
  pose proof (point_forward_in (S (length (nodes o1)))
                (Z.to_nat (Z.shiftr (Z.of_nat (len o)) (insertion_spec o))) _ _ _ _ Hl1 Hp1) as Hf.
  pose proof (point_backward_in (S (length (nodes o1)))
                (Z.to_nat (Z.shiftr (Z.of_nat (len o)) (insertion_spec o))) _ _ _ _
                (same_lists_lists _ _ _ _ _ (point_forward_same _ _ _) Hl1) Hf) as Hb.
  match goal with
  | |- point_in (match access_insert ?x with _ => _ end) _ => destruct (access_insert x) eqn:E
  end; intros q Hq; apply Hb; exact Hq.
Qed.

(** How many entries the spec asks to leave on the eviction side. *)
Definition cold_target (o : CacheKeyOrder) : nat :=
  Z.to_nat (Z.shiftr (Z.of_nat (len o)) (insertion_spec o)).

Lemma cold_target_lt o : 0 < insertion_spec o -> (0 < len o)%nat -> (cold_target o < len o)%nat.
Proof.
  intros Hs Hl. unfold cold_target. rewrite Z.shiftr_div_pow2 by lia.
  assert (1 < 2 ^ insertion_spec o) by (by apply Z.pow_gt_1).
  assert (Z.of_nat (len o) / 2 ^ insertion_spec o < Z.of_nat (len o)) by (apply Z.div_lt; lia).
  pose proof (Z.div_pos (Z.of_nat (len o)) (2 ^ insertion_spec o)). lia.
Qed.

Lemma point_at_clear_insert o acc p :
  NoDup acc -> point_at o acc -> access_insert o = Some p -> point_at (set_node_cold p false o) acc.
Proof.
  intros Hnd [Hp Hb Hc] Hi. split; simpl; [done|done|].
  intros i. rewrite node_is_cold_set, Hc. destruct (decide (p = i)) as [->|]; [|done].
  symmetry. apply bool_decide_eq_false. rewrite Hi in Hp. by apply take_S_nodup.
Qed.

Lemma spells_length_le (o : CacheKeyOrder) ins acc key :
  lists o ins acc key -> (length acc <= length (nodes o))%nat.
Proof. intros Hl. exact (spells_length (L := access_links) _ _ _ (l_acc _ _ _ _ Hl)). Qed.

(** Rebalancing puts the point exactly [len >> spec] entries from the end. *)
Lemma rebalance_point o ins acc key :
  lists o ins acc key -> len o = length acc -> 0 < insertion_spec o ->
  (point_at o acc \/ access_insert o = None /\ forall i, node_is_cold o i = false) ->
  point_at (rebalance_insertion_point o) acc /\
  (acc <> [] -> access_cold (rebalance_insertion_point o) = cold_target o).
Proof.
  intros Hl Hlen Hs Hpt. pose proof (spells_length_le _ _ _ _ Hl) as Hfuel.
  unfold rebalance_insertion_point.
  replace (insertion_spec o =? 0) with false by (symmetry; apply Z.eqb_neq; lia).
  rewrite (head_of_lists _ _ _ _ Hl). destruct acc as [|h acc'].
  { simpl. split; [|done]. split; simpl; auto. destruct Hpt as [[_ _ Hc]|[_ Hc]].
    - intros i. unfold node_is_cold in *. simpl. rewrite Hc. by rewrite take_nil.
    - intros i. unfold node_is_cold in *. simpl. by rewrite Hc. }
  change (head (h :: acc')) with (Some h). cbv beta iota zeta. fold (cold_target o).
  set (o1 := match access_insert o with None => with_point (Some h) 0 o | Some _ => o end).
  assert (Hl1 : lists o1 ins (h :: acc') key)
    by (unfold o1; destruct (access_insert o); by apply (same_lists_lists o)).
  assert (Hn1 : nodes o1 = nodes o) by (unfold o1; by destruct (access_insert o)).
  assert (Hp1 : point_at o1 (h :: acc')).
  { unfold o1. destruct Hpt as [Hpt|[Hi Hc]].
    - destruct (access_insert o) eqn:E; [done|]. destruct Hpt as [Hp Hb _]. rewrite E in Hp.
      symmetry in Hp. apply lookup_ge_None in Hp. simpl in *. lia.
    - rewrite Hi. split; simpl; [done|by left|]. intros i. unfold node_is_cold in *. simpl. by rewrite Hc. }
  assert (Ht : (cold_target o < length (h :: acc'))%nat).
  { rewrite <- Hlen. apply cold_target_lt; [done|rewrite Hlen; simpl; lia]. }
  assert (Hnd : NoDup (h :: acc')) by apply (l_acc _ _ _ _ Hl).
  destruct (point_forward_ok _ _ _ Hnd (S (length (nodes o1))) (cold_target o) o1 Hl1 Hp1 Ht)
    as [Hf1 Hf2]; [rewrite Hn1; lia|].
  destruct (point_backward_ok _ _ _ Hnd (S (length (nodes o1))) (cold_target o) _
              (same_lists_lists _ _ _ _ _ (point_forward_same _ _ _) Hl1) Hf1) as [Hb1 Hb2].
  { rewrite Hf2, Hn1. destruct Hp1 as [_ [->|Hb] _]; lia. }
  split.
  - match goal with
    | |- point_at (match access_insert ?x with _ => _ end) _ => destruct (access_insert x) eqn:E
    end; [|exact Hb1]. by apply point_at_clear_insert.
  - intros _. match goal with
    | |- access_cold (match access_insert ?x with _ => _ end) = _ => destruct (access_insert x) eqn:E
    end; (etrans; [exact Hb2|]); rewrite Hf2; lia.
Qed.

(** ** Allocation and release *)

Definition key_upd (key : nat -> CacheKey) (i : nat) (k : CacheKey) (j : nat) : CacheKey :=
  if decide (i = j) then k else key j.

(** Nodes off the lists may change freely. *)
Lemma spells_arena {N} {L : Links N} (ns ns' : list N) e l :
  (length ns <= length ns')%nat ->
  (forall i, i ∈ l -> ns' !! i = ns !! i) -> spells (ns, e) l -> spells (ns', e) l.
Proof.
  intros Hle Heq [H1 H2 H3 H4 H5]. cbn [fst snd] in *. split; cbn [fst snd]; try done.
  - intros i Hi. specialize (H2 i Hi). lia.
  - eapply seg_ext; [| |exact H5]; intros i Hi; unfold next_of, prev_of; by rewrite Heq.
Qed.

Lemma alloc_ok o ins acc key k :
  order_ok o ins acc key ->
  let '(i, o') := alloc k o in
  lists o' ins acc (key_upd key i k) /\ (i ∉ ins) /\ (i < length (nodes o'))%nat /\
  index o' = index o /\ insertion_spec o' = insertion_spec o /\
  access_insert o' = access_insert o /\ access_cold o' = access_cold o /\
  (forall j, node_is_cold o' j = (if decide (i = j) then false else node_is_cold o j)) /\
  (forall j, j ∈ free o' -> (j < length (nodes o'))%nat /\ (j ∉ ins) /\ j <> i) /\ NoDup (free o').
Proof.
  intros Hok. destruct (ok_lists _ _ _ _ Hok) as [H1 H2 H3].
  pose proof (ok_perm _ _ _ _ Hok) as Hperm. pose proof (ok_range _ _ _ _ Hok) as Hr.
  unfold alloc. destruct (reverse (free o)) as [|i rest] eqn:Ef.
  - apply (f_equal reverse) in Ef. rewrite reverse_involutive in Ef. change (reverse []) with (@nil nat) in Ef.
    set (i := length (nodes o)). split_and!; simpl; try done.
    + split; simpl.
      * eapply spells_arena; [| |exact H1]; simpl; [rewrite length_app; simpl; lia|].
        intros j Hj%Hr. by rewrite lookup_app_l.
      * eapply spells_arena; [| |exact H2]; simpl; [rewrite length_app; simpl; lia|].
        intros j Hj. rewrite Hperm in Hj. apply Hr in Hj. by rewrite lookup_app_l.
      * intros j. unfold key_upd, key_at. destruct (decide (i = j)) as [<-|Hne].
        { unfold i. by rewrite lookup_app_r, Nat.sub_diag by lia. }
        rewrite <- H3. unfold key_at, i in *. destruct (decide (j < length (nodes o))%nat).
        { by rewrite lookup_app_l. }
        rewrite (lookup_ge_None_2 (nodes o)), lookup_ge_None_2 by (rewrite ?length_app; simpl; lia).
        done.
    + intros Hi%Hr. unfold i in Hi. lia.
    + rewrite length_app. simpl. unfold i. lia.
    + intros j. etrans; [apply node_is_cold_set|]. done.
    + set_solver.
    + constructor.
  - assert (Hfree : free o = reverse rest ++ [i]).
    { apply (f_equal reverse) in Ef. by rewrite reverse_involutive, reverse_cons in Ef. }
    pose proof (ok_free _ _ _ _ Hok) as Hfr. pose proof (ok_free_nodup _ _ _ _ Hok) as Hnd.
    rewrite Hfree in Hfr, Hnd. apply NoDup_app in Hnd as (Hnd & Hd & _).
    destruct (Hfr i) as [Hilt Hii]; [set_solver|].
    split_and!; simpl; try done.
    + split; simpl.
      * eapply spells_arena; [| |exact H1]; simpl; [by rewrite length_alter|].
        intros j Hj. rewrite list_lookup_alter_ne; [done|]. congruence.
      * eapply spells_arena; [| |exact H2]; simpl; [by rewrite length_alter|].
        intros j Hj. rewrite Hperm in Hj. rewrite list_lookup_alter_ne; [done|]. congruence.
      * intros j. unfold key_upd, key_at. destruct (decide (i = j)) as [<-|Hne].
        { apply lookup_lt_is_Some in Hilt as [n Hn]. by rewrite list_lookup_alter_eq, Hn. }
        rewrite <- H3. unfold key_at. by rewrite list_lookup_alter_ne.
    + by rewrite length_alter.
    + intros j. etrans; [apply node_is_cold_set|]. done.
    + intros j Hj. rewrite length_alter. destruct (Hfr j) as [? ?]; [set_solver|].
      split_and!; [done..|]. intros ->. apply (Hd i Hj). set_solver.
Qed.

Lemma release_lists o ins acc key i :
  lists o ins acc key -> i ∉ ins -> i ∉ acc ->
  (i < length (nodes o))%nat ->
  lists (release i o) ins acc (key_upd key i empty_key).
Proof.
  intros [H1 H2 H3] Hi Ha Hlt. split; simpl.
  - eapply spells_arena; [| |exact H1]; simpl; [by rewrite length_alter|].
    intros j Hj. rewrite list_lookup_alter_ne; [done|]. congruence.
  - eapply spells_arena; [| |exact H2]; simpl; [by rewrite length_alter|].
    intros j Hj. rewrite list_lookup_alter_ne; [done|]. congruence.
  - intros j. unfold key_upd, key_at. destruct (decide (i = j)) as [<-|Hne].
    + apply lookup_lt_is_Some in Hlt as [n Hn]. by rewrite list_lookup_alter_eq, Hn.
    + rewrite <- H3. unfold key_at. by rewrite list_lookup_alter_ne.
Qed.

Lemma key_upd_fmap key i k (l : list nat) : i ∉ l -> key_upd key i k <$> l = key <$> l.
Proof.
  intros Hi. apply list_fmap_ext. intros j x Hx. unfold key_upd.
  rewrite decide_False; [done|]. intros ->. apply Hi. by eapply list_elem_of_lookup_2.
Qed.

Lemma key_upd_eq key i k : key_upd key i k i = k.
Proof. unfold key_upd. by rewrite decide_True. Qed.

(** ** Entering and leaving the access order *)

(** What linking and unlinking leave alone. *)
Definition frame (o o' : CacheKeyOrder) : Prop :=
  length (nodes o') = length (nodes o) /\ free o' = free o /\ index o' = index o /\
  insertion_spec o' = insertion_spec o.

#[global] Instance frame_refl : Reflexive frame.
Proof. by intros o. Qed.
#[global] Instance frame_trans : Transitive frame.
Proof. unfold frame. intros x y z; intuition congruence. Qed.

Lemma same_lists_frame o o' : same_lists o o' -> frame o o'.
Proof. intros (? & ? & ? & _ & _ & ?). split_and!; congruence. Qed.

Lemma view_frame {B} (f : CacheOrderNode -> B) o o' :
  f <$> nodes o' = f <$> nodes o -> free o' = free o -> index o' = index o ->
  insertion_spec o' = insertion_spec o -> frame o o'.
Proof. intros H%view_length ???. split_and!; congruence. Qed.

Lemma o_link_back_frame i o : frame o (o_link_back i o).
Proof. by apply (view_frame access_view); [apply frame_link_back|..]. Qed.
Lemma o_link_front_frame i o : frame o (o_link_front i o).
Proof. by apply (view_frame access_view); [apply frame_link_front|..]. Qed.
Lemma o_unlink_frame i o : frame o (o_unlink i o).
Proof. by apply (view_frame access_view); [apply frame_unlink|..]. Qed.
Lemma link_access_back_frame i o : frame o (link_access_back i o).
Proof. by apply (view_frame order_view); [apply frame_link_back|..]. Qed.
Lemma link_access_front_frame i o : frame o (link_access_front i o).
Proof. by apply (view_frame order_view); [apply frame_link_front|..]. Qed.
Lemma link_access_before_frame s i o :
  frame o (with_access (link_before (L := access_links) s i (access_list o)) o).
Proof. by apply (view_frame order_view); [apply frame_link_before|..]. Qed.
Lemma unlink_access_frame i o : frame o (unlink_access i o).
Proof.
  etrans; [apply same_lists_frame, (step_point_off_same i)|].
  by apply (view_frame order_view); [apply frame_unlink|..].
Qed.

Lemma point_ok_cold o acc :
  insertion_spec o <> 0 -> point_ok o acc -> point_at o acc.
Proof. intros H. unfold point_ok. by destruct (Z.eqb_spec (insertion_spec o) 0). Qed.

Lemma point_ok_zero o acc :
  insertion_spec o = 0 -> access_insert o = None -> access_cold o = 0%nat ->
  (forall i, node_is_cold o i = false) -> point_ok o acc.
Proof. intros H. unfold point_ok. by rewrite H. Qed.

Lemma rebalance_point_ok o ins acc key :
  lists o ins acc key -> len o = length acc -> 0 <= insertion_spec o ->
  (if insertion_spec o =? 0 then forall i, node_is_cold o i = false
   else point_at o acc \/ access_insert o = None /\ forall i, node_is_cold o i = false) ->
  point_ok (rebalance_insertion_point o) acc /\
  (0 < insertion_spec o -> acc <> [] ->
   access_cold (rebalance_insertion_point o) = cold_target o).
Proof.
  intros Hl Hlen Hs Hp. destruct (Z.eqb_spec (insertion_spec o) 0) as [E|E].
  - unfold rebalance_insertion_point. rewrite E. simpl. split; [|lia].
    by apply point_ok_zero.
  - destruct (rebalance_point _ _ _ _ Hl Hlen) as [H1 H2]; [lia|done|].
    split; [|auto]. unfold point_ok.
    destruct (rebalance_same o) as (_ & _ & _ & _ & _ & ->).
    by rewrite (proj2 (Z.eqb_neq _ _) E).
Qed.

(** A new entry enters at the insertion point, at the recent end without one. *)
Definition enter_at (o : CacheKeyOrder) (acc a1 a2 : list nat) : Prop :=
  acc = a1 ++ a2 /\
  match access_insert o with None => a2 = [] | Some p => head a2 = Some p end.

Lemma link_access_insert_lists o ins acc key i :
  lists o ins acc key -> i ∉ acc -> (i < length (nodes o))%nat -> point_in o acc ->
  exists a1 a2, enter_at o acc a1 a2 /\
    lists (link_access_insert i o) ins (a1 ++ i :: a2) key /\
    frame o (link_access_insert i o) /\
    point_in (link_access_insert i o) (a1 ++ i :: a2).
Proof.
  intros Hl Hi Hlt Hp. unfold link_access_insert.
  assert (Hback : exists a1 a2, (acc = a1 ++ a2 /\ a2 = []) /\
    lists (rebalance_insertion_point (link_access_back i o)) ins (a1 ++ i :: a2) key /\
    frame o (rebalance_insertion_point (link_access_back i o)) /\
    point_in (rebalance_insertion_point (link_access_back i o)) (a1 ++ i :: a2)).
  { exists acc, []. pose proof (link_access_back_lists _ _ _ _ _ Hl Hi Hlt) as Hl1.
    split_and!; [by rewrite app_nil_r|done|..].
    - eapply same_lists_lists; [apply rebalance_same|done].
    - etrans; [apply link_access_back_frame|]. apply same_lists_frame, rebalance_same.
    - eapply rebalance_in; [done|]. intros p Hq. destruct (Hp p Hq). set_solver. }
  unfold enter_at. destruct (access_insert o) as [s|] eqn:E; [|by case_if].
  destruct (Hp s E) as [Hs Hin]. rewrite (proj2 (Z.eqb_neq _ _) Hs).
  apply list_elem_of_split in Hin as (a1 & a2 & ->). exists a1, (s :: a2).
  pose proof (link_access_before_lists _ _ _ _ _ _ _ Hl Hi Hlt) as Hl1.
  split_and!; [done|done|..].
  - eapply same_lists_lists; [|exact Hl1]. etrans; [|apply rebalance_same]. done.
  - etrans; [apply (link_access_before_frame s i)|].
    apply same_lists_frame. etrans; [|apply rebalance_same]. done.
  - eapply rebalance_in; [by eapply same_lists_lists; [|exact Hl1]|].
    intros p Hq. simpl in Hq. rewrite E in Hq. simplify_eq. split; [done|]. set_solver.
Qed.

Lemma link_access_insert_point o ins acc a1 a2 key i :
  lists o ins acc key -> i ∉ acc -> (i < length (nodes o))%nat -> NoDup acc ->
  0 <= insertion_spec o -> len o = S (length acc) -> point_ok o acc -> enter_at o acc a1 a2 ->
  point_ok (link_access_insert i o) (a1 ++ i :: a2) /\
  (0 < insertion_spec o -> a1 = take (access_cold o) acc /\
                           access_cold (link_access_insert i o) = cold_target o).
Proof.
  intros Hl Hi Hlt Hnd Hs Hlen Hp [-> He]. unfold link_access_insert.
  destruct (Z.eqb_spec (insertion_spec o) 0) as [E|E].
  { unfold point_ok in Hp. rewrite E in Hp. simpl in Hp. destruct Hp as (Hn & Hc & Hb).
    rewrite Hn in He. subst a2. rewrite app_nil_r in *.
    pose proof (link_access_back_lists _ _ _ _ _ Hl Hi Hlt) as Hl1.
    edestruct (rebalance_point_ok (link_access_back i o)) as [H1 _]; [exact Hl1|..].
    - rewrite length_app. simpl. rewrite <- Nat.add_1_r in Hlen. exact Hlen.
    - exact Hs.
    - simpl. rewrite E. exact Hb.
    - split; [exact H1|lia]. }
  apply point_ok_cold in Hp; [|done]. destruct (access_insert o) as [s|] eqn:Es.
  - destruct a2 as [|s' a2]; [done|]. simpl in He. simplify_eq.
    pose proof (link_access_before_lists _ _ _ _ _ _ _ Hl Hi Hlt) as Hl1.
    destruct Hp as [Hp Hb Hc].
    assert (Hc1 : access_cold o = length a1).
    { eapply NoDup_lookup; [exact Hnd|by rewrite <- Hp|]. by apply list_lookup_middle. }
    set (o1 := with_point _ _ _).
    edestruct (rebalance_point_ok o1 ins (a1 ++ i :: s :: a2) key) as [H1 H2].
    + by eapply same_lists_lists; [|exact Hl1].
    + etrans; [exact Hlen|]. rewrite !length_app. simpl. lia.
    + exact Hs.
    + simpl. rewrite (proj2 (Z.eqb_neq _ _) E). left. split; simpl.
      * rewrite Es, Hc1, lookup_app_r by lia. by replace (length a1 + 1 - length a1)%nat with 1%nat by lia.
      * right. rewrite Hc1, length_app. simpl. lia.
      * intros j. etrans; [apply node_is_cold_set|].
        etrans; [apply (f_equal (fun b : bool => if decide (i = j) then true else b)), Hc|].
        rewrite Hc1, take_app_length, take_app_ge by lia.
        replace (length a1 + 1 - length a1)%nat with 1%nat by lia. simpl.
        rewrite ?take_0. destruct (decide (i = j)); symmetry.
        { apply bool_decide_eq_true. set_solver. }
        { apply bool_decide_ext. set_solver. }
    + split; [exact H1|]. intros Hpos. split; [by rewrite Hc1, take_app_length|].
      apply H2; [done|]. by destruct a1.
  - subst a2. destruct Hp as [Hp Hb Hc]. rewrite Es in Hp. symmetry in Hp.
    apply lookup_ge_None in Hp. rewrite app_nil_r in *.
    destruct a1; [|simpl in *; lia]. clear Hb Hp.
    pose proof (link_access_back_lists _ _ _ _ _ Hl Hi Hlt) as Hl1.
    edestruct (rebalance_point_ok (link_access_back i o)) as [H1 H2]; [exact Hl1|..].
    + exact Hlen.
    + exact Hs.
    + simpl. rewrite (proj2 (Z.eqb_neq _ _) E). right. split; [done|].
      intros j. etrans; [apply Hc|]. by rewrite take_nil.
    + split; [exact H1|]. intros Hpos. split; [by rewrite take_nil|]. by apply H2.
Qed.

Lemma take_in {A} n (l : list A) x : x ∈ take n l -> x ∈ l.
Proof. intros (i & Hi & _)%elem_of_take. by eapply list_elem_of_lookup_2. Qed.

Lemma step_point_off_in o ins l1 i l2 key :
  lists o ins (l1 ++ i :: l2) key -> NoDup (l1 ++ i :: l2) -> point_in o (l1 ++ i :: l2) ->
  point_in (step_point_off i o) (l1 ++ l2).
Proof.
  intros Hl Hnd Hp q Hq. pose proof (list_lookup_middle l1 l2 i _ eq_refl) as Hc.
  destruct (step_point_off_same i o) as (_ & _ & _ & _ & _ & ->).
  assert (Hne : forall c j, (l1 ++ i :: l2) !! c = Some j -> c <> length l1 -> j ∈ l1 ++ l2).
  { intros c j Hj Hne. pose proof (list_elem_of_lookup_2 _ _ _ Hj) as Hin.
    assert (j <> i) by (intros ->; apply Hne; by eapply NoDup_lookup). set_solver. }
  unfold step_point_off in Hq.
  destruct (Z.eqb_spec (insertion_spec o) 0) as [E|E].
  { destruct (Hp _ Hq). done. }
  split; [done|]. destruct (access_insert o) as [p|] eqn:Ep; [|congruence].
  destruct (Hp p Ep) as [_ Hin]. destruct (Nat.eqb_spec i p) as [<-|Hip].
  - rewrite (anext_lookup _ _ _ _ Hl _ _ Hc) in Hq.
    destruct ((l1 ++ i :: l2) !! S (length l1)) as [n|] eqn:En.
    { simpl in Hq. simplify_eq. eapply Hne; [exact En|lia]. }
    destruct l1 as [|x l1].
    { by rewrite (aprev_first _ _ _ _ Hl _ Hc) in Hq. }
    simpl length in Hc. rewrite (aprev_lookup _ _ _ _ Hl _ _ Hc) in Hq.
    destruct ((((x :: l1) ++ i :: l2)) !! length l1) eqn:Eq; [|done].
    simpl in Hq. simplify_eq. eapply Hne; [exact Eq|simpl; lia].
  - assert (q = p) as ->.
    { destruct (node_is_cold o i); simpl in Hq; congruence. }
    set_solver.
Qed.

Lemma unlink_access_lists o ins l1 i l2 key :
  lists o ins (l1 ++ i :: l2) key -> point_in o (l1 ++ i :: l2) ->
  lists (unlink_access i o) ins (l1 ++ l2) key /\ point_in (unlink_access i o) (l1 ++ l2).
Proof.
  intros Hl Hp. split.
  - apply unlink_access_inner_lists. eapply same_lists_lists; [|exact Hl].
    etrans; [apply step_point_off_same|]. done.
  - exact (step_point_off_in _ _ _ _ _ _ Hl (sp_nodup (L := access_links) _ _ (l_acc _ _ _ _ Hl)) Hp).
Qed.

(** Where the point stands once its node's neighbour has taken over. *)
(** What is left for [unlink]: the point stands right in the list without [i]. *)
Definition point_without o (i : nat) (l : list nat) : Prop :=
  access_insert o = l !! access_cold o /\
  (access_cold o = 0 \/ access_cold o < length l)%nat /\
  (forall j, j <> i -> node_is_cold o j = bool_decide (j ∈ take (access_cold o) l)).

(** The point is at [i], the last node: it steps back. *)
Lemma step_back_off o ins l1 i key :
  lists o ins (l1 ++ [i]) key -> NoDup (l1 ++ [i]) -> insertion_spec o <> 0 ->
  point_at o (l1 ++ [i]) -> access_cold o = length l1 -> point_without (step_point_off i o) i l1.
Proof.
  intros Hl Hnd Hs [Hp _ Hc] Hcl. pose proof (list_lookup_middle l1 [] i _ eq_refl) as Hi.
  unfold step_point_off, point_without. rewrite (proj2 (Z.eqb_neq _ _) Hs), Hp.
  replace ((_ ++ _) !! access_cold o) with (Some i) by (by rewrite Hcl). rewrite Nat.eqb_refl.
  rewrite (anext_lookup _ _ _ _ Hl _ _ Hi), lookup_app_r by lia.
  replace (S (length l1) - length l1)%nat with 1%nat by lia. simpl.
  destruct l1 as [|q l1 _] using rev_ind.
  { rewrite (aprev_first _ _ _ _ Hl _ Hi). simpl. split_and!; [done|by left|].
    intros j Hj. etrans; [apply Hc|]. by rewrite Hcl. }
  rewrite length_app in Hi, Hcl. simpl in Hi, Hcl. rewrite Nat.add_1_r in Hi, Hcl.
  rewrite (aprev_lookup _ _ _ _ Hl _ _ Hi).
  assert (Hq : ((l1 ++ [q]) ++ [i]) !! length l1 = Some q)
    by (rewrite lookup_app_l, list_lookup_middle; rewrite ?length_app; simpl; auto; lia).
  rewrite Hq. simpl. rewrite Hcl. simpl. rewrite Nat.sub_0_r.
  rewrite list_lookup_middle by done. rewrite length_app. simpl. split_and!; [done|lia|].
  intros j Hj. etrans; [apply node_is_cold_set|].
  rewrite take_app_length. destruct (decide (q = j)) as [->|Hqj].
  { symmetry. apply bool_decide_eq_false.
    apply NoDup_app in Hnd as (Hnd & _ & _). apply NoDup_app in Hnd. set_solver. }
  etrans; [apply Hc|]. rewrite Hcl. apply bool_decide_ext.
  rewrite take_app_le by (rewrite length_app; simpl; lia).
  rewrite take_ge by (rewrite length_app; simpl; lia). set_solver.
Qed.

(** The point is at [i] with a node behind it: it steps on to that node. *)
Lemma step_on_off o ins l1 i n l2 key :
  lists o ins (l1 ++ i :: n :: l2) key -> NoDup (l1 ++ i :: n :: l2) -> insertion_spec o <> 0 ->
  point_at o (l1 ++ i :: n :: l2) -> access_cold o = length l1 ->
  point_without (step_point_off i o) i (l1 ++ n :: l2).
Proof.
  intros Hl Hnd Hs [Hp _ Hc] Hcl. pose proof (list_lookup_middle l1 (n :: l2) i _ eq_refl) as Hi.
  unfold step_point_off, point_without. rewrite (proj2 (Z.eqb_neq _ _) Hs), Hp.
  replace ((_ ++ _) !! access_cold o) with (Some i) by (by rewrite Hcl). rewrite Nat.eqb_refl.
  rewrite (anext_lookup _ _ _ _ Hl _ _ Hi), lookup_app_r by lia.
  replace (S (length l1) - length l1)%nat with 1%nat by lia. simpl.
  rewrite Hcl, list_lookup_middle by done. rewrite length_app. simpl.
  split_and!; [done|lia|]. intros j Hj. etrans; [apply node_is_cold_set|]. rewrite take_app_length.
  destruct (decide (n = j)) as [->|Hnj].
  { symmetry. apply bool_decide_eq_false. apply NoDup_app in Hnd. set_solver. }
  etrans; [apply Hc|]. by rewrite Hcl, take_app_length.
Qed.

(** The point is elsewhere: only the count of cold nodes may change. *)
Lemma stay_off o l1 i l2 p :
  NoDup (l1 ++ i :: l2) -> insertion_spec o <> 0 -> point_at o (l1 ++ i :: l2) ->
  (l1 ++ i :: l2) !! access_cold o = Some p -> i <> p -> point_without (step_point_off i o) i (l1 ++ l2).
Proof.
  intros Hnd Hs [Hp Hb Hc] Ep Hip. pose proof (list_lookup_middle l1 l2 i _ eq_refl) as Hi.
  assert (Hil1 : i ∉ l1) by (apply NoDup_app in Hnd; set_solver).
  unfold step_point_off, point_without. rewrite (proj2 (Z.eqb_neq _ _) Hs). rewrite Ep in Hp.
  rewrite Hp, (proj2 (Nat.eqb_neq _ _) Hip).
  specialize (Hc i) as Hci. rewrite Hci.
  assert (Hcl : access_cold o <> length l1) by (intros He; rewrite He in Ep; congruence).
  assert (Hcase : (access_cold o < length l1 \/ length l1 < access_cold o)%nat) by lia.
  destruct Hcase as [Hlt|Hgt].
  + rewrite bool_decide_eq_false_2.
    2: { rewrite take_app_le by lia. intros Hin%take_in. done. }
    rewrite lookup_app_l in Ep |- * by lia. rewrite length_app.
    split_and!; [congruence|lia|]. intros j Hj. etrans; [apply Hc|].
    by rewrite !take_app_le by lia.
  + rewrite bool_decide_eq_true_2.
    2: { rewrite take_app_ge by lia. destruct (access_cold o - length l1)%nat eqn:?; [lia|].
         simpl. set_solver. }
    rewrite length_app in Hb. simpl in Hb. simpl.
    rewrite lookup_app_r in Ep |- * by lia. rewrite length_app.
    destruct (access_cold o - length l1)%nat as [|m] eqn:Em; [lia|]. simpl in Ep.
    replace (access_cold o - 1 - length l1)%nat with m by lia.
    split_and!; [congruence|lia|]. intros j Hj. etrans; [apply Hc|].
    rewrite !take_app_ge by lia. rewrite Em.
    replace (access_cold o - 1 - length l1)%nat with m by lia. simpl.
    apply bool_decide_ext. set_solver.
Qed.

Lemma step_point_off_at o ins l1 i l2 key :
  lists o ins (l1 ++ i :: l2) key -> NoDup (l1 ++ i :: l2) -> insertion_spec o <> 0 ->
  point_at o (l1 ++ i :: l2) -> point_without (step_point_off i o) i (l1 ++ l2).
Proof.
  intros Hl Hnd Hs Hat. pose proof Hat as [Hp Hb _].
  destruct ((l1 ++ i :: l2) !! access_cold o) as [p|] eqn:Ep.
  2: { apply lookup_ge_None in Ep. rewrite length_app in Ep, Hb. simpl in Ep, Hb. lia. }
  destruct (decide (i = p)) as [<-|Hip]; [|by eapply stay_off].
  assert (Hcl : access_cold o = length l1) by (eapply NoDup_lookup; [done..|by apply list_lookup_middle]).
  destruct l2 as [|n l2]; [rewrite app_nil_r; by eapply step_back_off|by eapply step_on_off].
Qed.

Lemma unlink_access_point o ins l1 i l2 key :
  lists o ins (l1 ++ i :: l2) key -> point_ok o (l1 ++ i :: l2) ->
  point_ok (unlink_access i o) (l1 ++ l2).
Proof.
  intros Hl Hp. pose proof (sp_nodup (L := access_links) _ _ (l_acc _ _ _ _ Hl)) as Hnd.
  unfold point_ok in *.
  destruct (unlink_access_frame i o) as (_ & _ & _ & ->).
  destruct (Z.eqb_spec (insertion_spec o) 0) as [E|E].
  - unfold unlink_access, step_point_off. rewrite E. simpl.
    destruct Hp as (-> & -> & Hc). split_and!; [done..|].
    intros j. etrans; [apply node_is_cold_set|]. rewrite Hc. by destruct (decide _).
  - destruct (step_point_off_at _ _ _ _ _ _ Hl Hnd E Hp) as (H1 & H2 & H3).
    split; [exact H1|exact H2|]. intros j. etrans; [apply node_is_cold_set|].
    destruct (decide (i = j)) as [<-|Hij]; [|by apply H3].
    symmetry. apply bool_decide_eq_false. intros Hin%take_in.
    apply NoDup_app in Hnd as (_ & Hd & Hnd). apply NoDup_cons in Hnd as [? _]. set_solver.
Qed.

Lemma lists_with_index o ins acc key m : lists o ins acc key -> lists (with_index m o) ins acc key.
Proof. by intros [H1 H2 H3]. Qed.

Lemma point_ok_ext o o' acc :
  insertion_spec o' = insertion_spec o -> access_insert o' = access_insert o ->
  access_cold o' = access_cold o -> (forall i, node_is_cold o' i = node_is_cold o i) ->
  point_ok o acc -> point_ok o' acc.
Proof.
  unfold point_ok. intros -> Hi Hc Hn. case_if.
  - rewrite Hi, Hc. intros (-> & -> & H). split_and!; [done..|]. intros i. by rewrite Hn.
  - intros [H1 H2 H3]. split; rewrite ?Hi, ?Hc; [done..|]. intros i. by rewrite Hn.
Qed.

Lemma point_ok_outside o acc i : point_ok o acc -> i ∉ acc -> node_is_cold o i = false.
Proof.
  unfold point_ok. case_if.
  - by intros (_ & _ & ->).
  - intros [_ _ ->] Hi. apply bool_decide_eq_false. by intros ?%take_in.
Qed.

Lemma nodup_middle {A} (l1 l2 : list A) x :
  NoDup (l1 ++ x :: l2) -> NoDup (l1 ++ l2) /\ x ∉ l1 ++ l2.
Proof. rewrite <- Permutation_middle. by intros [? ?]%NoDup_cons. Qed.

Lemma nodup_last {A} (l1 l2 l : list A) x :
  NoDup (l1 ++ x :: l2) -> l1 ++ x :: l2 = l ++ [x] -> l2 = [] /\ l = l1.
Proof.
  intros Hnd Heq. destruct l2 as [|y l2 _] using rev_ind.
  - by apply app_inj_tail in Heq as [-> _].
  - rewrite app_comm_cons, app_assoc in Heq. apply app_inj_tail in Heq as [_ ->].
    apply nodup_middle in Hnd as [_ Hn]. set_solver.
Qed.

(** Appending keeps the point in place unless the order was empty. *)
Lemma point_ok_link_back i o acc :
  point_ok o acc -> acc <> [] -> point_ok (link_access_back i o) (acc ++ [i]).
Proof.
  intros Hp Hne. unfold point_ok in *. destruct (link_access_back_frame i o) as (_ & _ & _ & ->).
  case_if; [exact Hp|]. destruct Hp as [H1 H2 H3].
  assert (Hlt : (access_cold o < length acc)%nat).
  { destruct acc; [done|]. simpl in *. lia. }
  split; cbn [access_insert access_cold link_access_back with_access].
  - by rewrite lookup_app_l.
  - rewrite length_app. lia.
  - intros j. rewrite take_app_le by lia. apply H3.
Qed.
