(* ===== verification/KeyOrderSpec.v ===== *)
(** * What the recency orders promise

    The operations of [CacheKeyOrder] against the two lists of keys they stand
    for, the upkeep of the insertion point, and the [RecencyOrder] interface
    the tiers are verified against. *)

From S2P Require Import Prelude Types Dll KeyOrder KeyOrderFacts.

(** ** Node level *)

Section node_level.
Context (o : CacheKeyOrder) (ins acc : list nat) (key : nat -> CacheKey).
Context (Hok : order_ok o ins acc key).

Lemma ok_split k i :
  index o !! k = Some i ->
  exists l1 l2 a1 a2, ins = l1 ++ i :: l2 /\ acc = a1 ++ i :: a2 /\ key i = k.
Proof using Hok.
  intros [Hi Hk]%(ok_index _ _ _ _ Hok). assert (Ha : i ∈ acc) by (by rewrite (ok_perm _ _ _ _ Hok)).
  apply list_elem_of_split in Hi as (l1 & l2 & ->), Ha as (a1 & a2 & ->). eauto 10.
Qed.

Lemma push_absent_ok k :
  index o !! k = None -> 0 <= insertion_spec o ->
  exists i a1 a2, (i ∉ ins) /\ enter_at o acc a1 a2 /\
    order_ok (push_back_if_absent k o) (ins ++ [i]) (a1 ++ i :: a2) (key_upd key i k) /\
    insertion_spec (push_back_if_absent k o) = insertion_spec o /\
    len (push_back_if_absent k o) = S (len o) /\
    (point_ok o acc ->
     point_ok (push_back_if_absent k o) (a1 ++ i :: a2) /\
     (0 < insertion_spec o -> a1 = take (access_cold o) acc /\
        access_cold (push_back_if_absent k o) = cold_target (push_back_if_absent k o))).
Proof using Hok.
  intros Hk Hs. unfold push_back_if_absent. rewrite Hk.
  pose proof (alloc_ok _ _ _ _ k Hok) as Ha. destruct (alloc k o) as [i o1].
  destruct Ha as (Hl & Hi & Hlt & Hx & Hsp & Hai & Hac & Hc & Hf & Hfn).
  pose proof (ok_perm _ _ _ _ Hok) as Hperm.
  assert (Hia : i ∉ acc) by (by rewrite Hperm).
  set (o2 := with_index _ _).
  assert (Hl2 : lists o2 (ins ++ [i]) acc (key_upd key i k)).
  { eapply lists_with_index, o_link_back_lists; [|done..]. done. }
  assert (Hf2 : length (nodes o2) = length (nodes o1)) by apply (o_link_back_frame i o1).
  assert (Hx2 : index o2 = <[k := i]> (index o)) by (unfold o2; simpl; by rewrite Hx).
  assert (Hp2 : point_in o2 acc).
  { intros p Hp. simpl in Hp |- *. rewrite Hsp. apply (ok_point _ _ _ _ Hok). by rewrite <- Hai, <- Hp. }
  destruct (link_access_insert_lists _ _ _ _ i Hl2 Hia) as (a1 & a2 & He & Hl3 & Hfr & Hp3);
    [by rewrite Hf2|done|].
  destruct Hfr as (Hfr1 & Hfr2 & Hfr3 & Hfr4).
  assert (Hlen2 : len o2 = S (len o)) by (unfold len; by rewrite Hx2, map_size_insert_None).
  assert (Hlen3 : len (link_access_insert i o2) = S (len o)) by (rewrite <- Hlen2; unfold len; by rewrite Hfr3).
  assert (Hspec : insertion_spec (link_access_insert i o2) = insertion_spec o).
  { rewrite Hfr4. exact Hsp. }
  exists i, a1, a2. split_and!; [done| | |done|done|].
  - destruct He as [He1 He2]. split; [done|]. simpl in He2. by rewrite <- Hai.
  - split; [done| | | | |done].
    + destruct He as [-> _]. rewrite <- Hperm. solve_Permutation.
    + intros k' j. rewrite Hfr3, Hx2. unfold key_upd.
      rewrite lookup_insert_Some, (ok_index _ _ _ _ Hok), elem_of_app, list_elem_of_singleton.
      assert (forall j, j ∈ ins -> key j <> k).
      { intros j' Hj' Hkj. assert (index o !! k = Some j') by (by apply (ok_index _ _ _ _ Hok)).
        congruence. }
      destruct (decide (i = j)); naive_solver.
    + intros j. rewrite Hfr2, Hfr1, Hf2. intros (H1 & H2 & H3)%Hf. set_solver.
    + rewrite Hfr2. exact Hfn.
  - intros Hpt. destruct (link_access_insert_point o2 (ins ++ [i]) acc a1 a2 _ i Hl2 Hia)
      as [Hq1 Hq2]; try done.
    + by rewrite Hf2.
    + apply (ok_acc_nodup _ _ _ _ Hok).
    + by rewrite <- Hsp in Hs.
    + by rewrite Hlen2, (ok_len _ _ _ _ Hok), (ok_acc_length _ _ _ _ Hok).
    + eapply point_ok_ext; [..|exact Hpt]; try done.
      intros j. etrans; [apply Hc|]. destruct (decide (i = j)) as [<-|]; [|done].
      symmetry. by eapply point_ok_outside.
    + split; [done|]. intros Hpos. destruct Hq2 as [-> Hq2]; [by rewrite <- Hsp in Hpos|].
      split; [simpl; by rewrite Hac|]. rewrite Hq2. unfold cold_target.
      rewrite Hlen3, Hspec, Hlen2. by rewrite <- Hsp.
Qed.

Lemma remove_present_ok k i l1 l2 a1 a2 :
  index o !! k = Some i -> ins = l1 ++ i :: l2 -> acc = a1 ++ i :: a2 ->
  let o' := (remove k o).2 in
  order_ok o' (l1 ++ l2) (a1 ++ a2) (key_upd key i empty_key) /\
  insertion_spec o' = insertion_spec o /\ (point_ok o acc -> point_ok o' (a1 ++ a2)).
Proof using Hok.
  intros Hk -> ->. unfold remove. rewrite Hk. cbn [snd].
  set (o1 := with_index _ o).
  assert (Hl1 : lists o1 (l1 ++ i :: l2) (a1 ++ i :: a2) key)
    by apply lists_with_index, (ok_lists _ _ _ _ Hok).
  pose proof (o_unlink_lists _ _ _ _ _ _ Hl1) as Hl2.
  destruct (o_unlink_frame i o1) as (Hf1 & Hf2 & Hf3 & Hf4).
  assert (Hp2 : point_in (o_unlink i o1) (a1 ++ i :: a2)).
  { intros p Hp. apply (ok_point _ _ _ _ Hok). exact Hp. }
  destruct (unlink_access_lists _ _ _ _ _ _ Hl2 Hp2) as [Hl3 Hp3].
  destruct (unlink_access_frame i (o_unlink i o1)) as (Hg1 & Hg2 & Hg3 & Hg4).
  destruct (nodup_middle _ _ _ (ok_ins_nodup _ _ _ _ Hok)) as [_ Hi].
  destruct (nodup_middle _ _ _ (ok_acc_nodup _ _ _ _ Hok)) as [_ Hia].
  assert (Hlt : (i < length (nodes o))%nat) by (apply (ok_range _ _ _ _ Hok); set_solver).
  split_and!.
  - split.
    + apply release_lists; [done..|]. rewrite Hg1, Hf1. exact Hlt.
    + apply (Permutation_cons_inv (a := i)). rewrite !Permutation_middle. apply (ok_perm _ _ _ _ Hok).
    + intros k' j. cbn [index release with_arena]. rewrite Hg3, Hf3. cbn [index o1 with_index].
      rewrite lookup_delete_Some, (ok_index _ _ _ _ Hok). unfold key_upd.
      assert (Hki : key i = k) by (by apply (ok_index _ _ _ _ Hok) in Hk as [_ ?]).
      destruct (decide (i = j)) as [<-|Hij].
      { split; [naive_solver|]. intros [? _]. done. }
      assert (Hin : j ∈ l1 ++ i :: l2 <-> j ∈ l1 ++ l2) by set_solver. rewrite Hin.
      split; [naive_solver|]. intros [Hj <-]. split; [|done]. rewrite <- Hki.
      intros Hkk. apply Hij. apply (ok_key_inj _ _ _ _ Hok); set_solver.
    + intros j. cbn [free nodes release with_arena]. rewrite Hg2, Hf2, length_alter, Hg1, Hf1.
      intros [Hj|Hj]%elem_of_app.
      { destruct (ok_free _ _ _ _ Hok j Hj). set_solver. }
      { set_solver. }
    + cbn [free release with_arena]. rewrite Hg2, Hf2.
      apply NoDup_app. split_and!; [apply (ok_free_nodup _ _ _ _ Hok)| |apply NoDup_singleton].
      intros j Hj. destruct (ok_free _ _ _ _ Hok j Hj) as [_ Hn]. set_solver.
    + exact Hp3.
  - cbn [insertion_spec release with_arena]. rewrite Hg4, Hf4. done.
  - intros Hpt. eapply (point_ok_ext (unlink_access i (o_unlink i o1))); [done..|].
    eapply unlink_access_point; [exact Hl2|]. eapply (point_ok_ext o); done.
Qed.

Lemma touch_present_ok k i a1 a2 :
  index o !! k = Some i -> acc = a1 ++ i :: a2 ->
  let o' := (touch_access k o).2 in
  order_ok o' ins (a1 ++ a2 ++ [i]) key /\
  insertion_spec o' = insertion_spec o /\ (point_ok o acc -> point_ok o' (a1 ++ a2 ++ [i])).
Proof using Hok.
  intros Hk ->. unfold touch_access. rewrite Hk.
  pose proof (ok_lists _ _ _ _ Hok) as Hl. rewrite (tail_of_lists _ _ _ _ Hl).
  destruct (decide (last (a1 ++ i :: a2) = Some i)) as [Hlast|Hlast]; cbn [snd].
  { apply last_Some in Hlast as [l Hl']. destruct (nodup_last _ _ _ _ (ok_acc_nodup _ _ _ _ Hok) Hl') as [-> _].
    split_and!; done. }
  destruct (unlink_access_lists _ _ _ _ _ _ Hl (ok_point _ _ _ _ Hok)) as [Hl1 Hp1].
  destruct (unlink_access_frame i o) as (Hg1 & Hg2 & Hg3 & Hg4).
  destruct (link_access_back_frame i (unlink_access i o)) as (Hf1 & Hf2 & Hf3 & Hf4).
  destruct (nodup_middle _ _ _ (ok_acc_nodup _ _ _ _ Hok)) as [_ Hia].
  assert (Hin : i ∈ ins) by (rewrite <- (ok_perm _ _ _ _ Hok); set_solver).
  assert (Hlt : (i < length (nodes (unlink_access i o)))%nat)
    by (rewrite Hg1; by apply (ok_range _ _ _ _ Hok)).
  rewrite app_assoc. split_and!.
  - split.
    + by apply link_access_back_lists.
    + rewrite <- (ok_perm _ _ _ _ Hok). solve_Permutation.
    + intros k' j. rewrite Hf3, Hg3. apply (ok_index _ _ _ _ Hok).
    + intros j. rewrite Hf1, Hf2, Hg1, Hg2. apply (ok_free _ _ _ _ Hok).
    + rewrite Hf2, Hg2. apply (ok_free_nodup _ _ _ _ Hok).
    + intros p Hp. rewrite Hf4. destruct (Hp1 p Hp). set_solver.
  - congruence.
  - intros Hpt. apply (unlink_access_point _ _ _ _ _ _ Hl) in Hpt.
    apply point_ok_link_back; [done|]. intros Hnil. apply app_eq_nil in Hnil as [-> ->]. by apply Hlast.
Qed.
Lemma push_front_absent_ok k :
  index o !! k = None -> exists i, (i ∉ ins) /\ order_ok (push_front k o) (i :: ins) (i :: acc) (key_upd key i k) /\
    insertion_spec (push_front k o) = insertion_spec o.
Proof using Hok.
  intros Hk. unfold push_front. rewrite Hk.
  pose proof (alloc_ok _ _ _ _ k Hok) as Ha. destruct (alloc k o) as [i o1].
  destruct Ha as (Hl & Hi & Hlt & Hx & Hsp & Hai & _ & _ & Hf & Hfn).
  pose proof (ok_perm _ _ _ _ Hok) as Hperm. assert (Hia : i ∉ acc) by (by rewrite Hperm).
  destruct (o_link_front_frame i o1) as (Hf1 & Hf2 & Hf3 & Hf4).
  destruct (link_access_front_frame i (o_link_front i o1)) as (Hg1 & Hg2 & Hg3 & Hg4).
  exists i. split_and!; [done| |].
  - split.
    + apply lists_with_index, link_access_front_lists; [by apply o_link_front_lists|done|by rewrite Hf1].
    + by rewrite Hperm.
    + intros k' j. cbn [index with_index]. rewrite Hg3, Hf3, Hx, lookup_insert_Some, (ok_index _ _ _ _ Hok), elem_of_cons. unfold key_upd.
      assert (forall j, j ∈ ins -> key j <> k).
      { intros j' Hj' Hkj. assert (index o !! k = Some j') by (by apply (ok_index _ _ _ _ Hok)). congruence. }
      destruct (decide (i = j)); naive_solver.
    + intros j. cbn [free nodes with_index]. rewrite Hg1, Hg2, Hf1, Hf2. intros (H1 & H2 & H3)%Hf. set_solver.
    + cbn [free with_index]. by rewrite Hg2, Hf2.
    + intros p Hp. change (access_insert (o_link_front i o1) = Some p) in Hp. change (access_insert o1 = Some p) in Hp. rewrite Hai in Hp.
      destruct (ok_point _ _ _ _ Hok p Hp) as [H1 H2]. split; [|set_solver].
      change (insertion_spec (link_access_front i (o_link_front i o1)) <> 0). by rewrite Hg4, Hf4, Hsp.
  - change (insertion_spec (link_access_front i (o_link_front i o1)) = insertion_spec o). by rewrite Hg4, Hf4, Hsp.
Qed.

Lemma push_front_present_ok k i l1 l2 a1 a2 :
  index o !! k = Some i -> ins = l1 ++ i :: l2 -> acc = a1 ++ i :: a2 ->
  order_ok (push_front k o) (i :: l1 ++ l2) (i :: a1 ++ a2) key /\ insertion_spec (push_front k o) = insertion_spec o.
Proof using Hok.
  intros Hk -> ->. unfold push_front. rewrite Hk.
  destruct (nodup_middle _ _ _ (ok_ins_nodup _ _ _ _ Hok)) as [_ Hi]. destruct (nodup_middle _ _ _ (ok_acc_nodup _ _ _ _ Hok)) as [_ Hia].
  assert (Hlt : (i < length (nodes o))%nat) by (apply (ok_range _ _ _ _ Hok); set_solver).
  pose proof (o_unlink_lists _ _ _ _ _ _ (ok_lists _ _ _ _ Hok)) as L1. destruct (o_unlink_frame i o) as (F1 & F2 & F3 & F4).
  assert (Hlt1 : (i < length (nodes (o_unlink i o)))%nat) by (by rewrite F1).
  pose proof (o_link_front_lists _ _ _ _ _ L1 Hi Hlt1) as L2. destruct (o_link_front_frame i (o_unlink i o)) as (G1 & G2 & G3 & G4).
  assert (Hp2 : point_in (o_link_front i (o_unlink i o)) (a1 ++ i :: a2)).
  { intros p Hp. apply (ok_point _ _ _ _ Hok). exact Hp. }
  destruct (unlink_access_lists _ _ _ _ _ _ L2 Hp2) as [L3 Hp3]. destruct (unlink_access_frame i (o_link_front i (o_unlink i o))) as (K1 & K2 & K3 & K4).
  set (o3 := unlink_access i _) in *. assert (Hlt3 : (i < length (nodes o3))%nat) by (by rewrite K1, G1, F1).
  pose proof (link_access_front_lists _ _ _ _ _ L3 Hia Hlt3) as L4. destruct (link_access_front_frame i o3) as (M1 & M2 & M3 & M4).
  split; [|congruence]. split.
  - done.
  - pose proof (ok_perm _ _ _ _ Hok) as Hperm. by rewrite !Permutation_middle.
  - intros k' j. rewrite M3, K3, G3, F3, (ok_index _ _ _ _ Hok). set_solver.
  - intros j. rewrite M1, M2, K1, K2, G1, G2, F1, F2. intros [H1 H2]%(ok_free _ _ _ _ Hok). set_solver.
  - rewrite M2, K2, G2, F2. apply (ok_free_nodup _ _ _ _ Hok).
  - intros p Hp. rewrite M4. destruct (Hp3 p Hp). set_solver.
Qed.
End node_level.

(** ** Key level *)

Lemma wf_point_wf o : wf_point o -> wf o.
Proof. intros (ins & acc & key & Hok & _). by exists ins, acc, key. Qed.

Lemma wf_keys o : wf o -> NoDup (iter o) /\ iter_access o ≡ₚ iter o.
Proof.
  intros (ins & acc & key & Hok).
  rewrite (ok_iter _ _ _ _ Hok), (ok_iter_access _ _ _ _ Hok). split.
  - by eapply ok_keys_nodup.
  - by rewrite (ok_perm _ _ _ _ Hok).
Qed.

Lemma wf_contains o k : wf o -> contains o k = bool_decide (k ∈ iter o).
Proof.
  intros (ins & acc & key & Hok). unfold contains. apply bool_decide_ext.
  rewrite (ok_iter _ _ _ _ Hok). destruct (index o !! k) eqn:E.
  - split; [intros _|by eauto]. apply dec_stable. intros Hn%(ok_index_None _ _ _ _ Hok). congruence.
  - apply (ok_index_None _ _ _ _ Hok) in E. split; [by intros [? ?]|done].
Qed.

Lemma wf_len o : wf o -> len o = length (iter o).
Proof.
  intros (ins & acc & key & Hok). by rewrite (ok_len _ _ _ _ Hok), (ok_iter _ _ _ _ Hok), length_fmap.
Qed.

(** The node-level step of [remove] in terms of keys. *)
Lemma remove_ok o ins acc key k i :
  order_ok o ins acc key -> index o !! k = Some i ->
  exists ins' acc' key', order_ok (remove k o).2 ins' acc' key' /\
    key' <$> ins' = filter (fun x => x <> k) (key <$> ins) /\
    key' <$> acc' = filter (fun x => x <> k) (key <$> acc) /\
    insertion_spec (remove k o).2 = insertion_spec o /\
    (point_ok o acc -> point_ok (remove k o).2 acc').
Proof.
  intros Hok E. destruct (ok_split _ _ _ _ Hok k i E) as (l1 & l2 & a1 & a2 & -> & -> & Hk).
  destruct (remove_present_ok _ _ _ _ Hok k i l1 l2 a1 a2 E eq_refl eq_refl) as (H1 & H2 & H3).
  exists (l1 ++ l2), (a1 ++ a2), (key_upd key i empty_key).
  pose proof (ok_keys_nodup _ _ _ _ Hok) as Hn1.
  assert (Hn2 : NoDup (key <$> a1 ++ i :: a2)) by (by rewrite (ok_perm _ _ _ _ Hok)).
  rewrite !key_upd_fmap by
    (first [apply (nodup_middle _ _ _ (ok_ins_nodup _ _ _ _ Hok))
           |apply (nodup_middle _ _ _ (ok_acc_nodup _ _ _ _ Hok))]).
  rewrite !fmap_app, !fmap_cons, Hk in *.
  split_and!; [done| | |done|done]; by rewrite filter_ne_split.
Qed.

Lemma wf_index_None o k : wf o -> index o !! k = None -> (k ∉ iter o) /\ (k ∉ iter_access o).
Proof.
  intros Hwf E. destruct (wf_keys o Hwf) as [_ Hperm]. rewrite Hperm.
  destruct Hwf as (ins & acc & key & Hok). rewrite (ok_iter _ _ _ _ Hok).
  by apply (ok_index_None _ _ _ _ Hok) in E.
Qed.

Lemma wf_index_Some o k i : wf o -> index o !! k = Some i -> k ∈ iter o.
Proof.
  intros Hwf E. pose proof (wf_contains o k Hwf) as Hc. unfold contains in Hc.
  rewrite E, bool_decide_eq_true_2 in Hc by eauto. by eapply bool_decide_eq_true_1.
Qed.

Lemma push_front_keys o k :
  wf o -> iter (push_front k o) = k :: filter (fun x => x <> k) (iter o) /\
  iter_access (push_front k o) = k :: filter (fun x => x <> k) (iter_access o) /\ wf (push_front k o).
Proof.
  intros Hwf. destruct (index o !! k) as [i|] eqn:E.
  - destruct Hwf as (ins & acc & key & Hok). destruct (ok_split _ _ _ _ Hok k i E) as (l1 & l2 & a1 & a2 & -> & -> & Hk).
    destruct (push_front_present_ok _ _ _ _ Hok k i l1 l2 a1 a2 E eq_refl eq_refl) as [H1 _].
    rewrite (ok_iter _ _ _ _ H1), (ok_iter_access _ _ _ _ H1), (ok_iter _ _ _ _ Hok), (ok_iter_access _ _ _ _ Hok).
    pose proof (ok_keys_nodup _ _ _ _ Hok) as Hn1. assert (Hn2 : NoDup (key <$> a1 ++ i :: a2)) by (by rewrite (ok_perm _ _ _ _ Hok)).
    rewrite !fmap_cons, !fmap_app, !fmap_cons, Hk in *. rewrite !filter_ne_split by done. split_and!; [done..|by do 3 eexists].
  - destruct (wf_index_None _ _ Hwf E) as [Hi Ha]. destruct Hwf as (ins & acc & key & Hok).
    destruct (push_front_absent_ok _ _ _ _ Hok k E) as (i & Hin & H1 & _).
    rewrite !filter_ne_notin by done. rewrite (ok_iter _ _ _ _ H1), (ok_iter_access _ _ _ _ H1), (ok_iter _ _ _ _ Hok), (ok_iter_access _ _ _ _ Hok).
    assert (i ∉ acc) by (by rewrite (ok_perm _ _ _ _ Hok)).
    rewrite !fmap_cons, !key_upd_eq, !key_upd_fmap by done. split_and!; [done..|by do 3 eexists].
Qed.

Lemma remove_keys o k :
  wf o ->
  (remove k o).1 = bool_decide (k ∈ iter o) /\
  iter (remove k o).2 = filter (fun x => x <> k) (iter o) /\
  iter_access (remove k o).2 = filter (fun x => x <> k) (iter_access o) /\
  insertion_spec (remove k o).2 = insertion_spec o /\
  wf (remove k o).2 /\ (wf_point o -> wf_point (remove k o).2).
Proof.
  intros Hwf. destruct (index o !! k) as [i|] eqn:E.
  - split; [unfold remove; rewrite E; symmetry; apply bool_decide_eq_true;
            by eapply wf_index_Some|].
    destruct Hwf as (ins & acc & key & Hok).
    destruct (remove_ok _ _ _ _ _ _ Hok E) as (ins' & acc' & key' & H1 & H2 & H3 & H4 & _).
    rewrite (ok_iter _ _ _ _ H1), (ok_iter_access _ _ _ _ H1),
      (ok_iter _ _ _ _ Hok), (ok_iter_access _ _ _ _ Hok).
    split_and!; [done..|by exists ins', acc', key'|].
    intros (ins2 & acc2 & key2 & Hok2 & Hpt).
    destruct (remove_ok _ _ _ _ _ _ Hok2 E) as (ins3 & acc3 & key3 & G1 & _ & _ & _ & G5).
    exists ins3, acc3, key3. auto.
  - destruct (wf_index_None _ _ Hwf E) as [Hi Ha]. unfold remove. rewrite E. cbn [fst snd].
    rewrite !filter_ne_notin, bool_decide_eq_false_2 by done. done.
Qed.

(** ** Popping *)

Lemma alter_commute {A} (f g : A -> A) i j (l : list A) :
  (forall x, f (g x) = g (f x)) -> alter f i (alter g j l) = alter g j (alter f i l).
Proof.
  intros Hfg. apply list_eq. intros k. destruct (decide (i = k)) as [->|Hi], (decide (j = k)) as [->|Hj];
    rewrite ?list_lookup_alter_eq, ?list_lookup_alter_ne by done; rewrite ?list_lookup_alter_eq, ?list_lookup_alter_ne by done; [|done..].
  destruct (l !! k); simpl; by rewrite ?Hfg.
Qed.
Lemma unlink_alter {N} {L : Links N} (g : N -> N) i j ns e :
  (forall n, get_next (g n) = get_next n) -> (forall n, get_prev (g n) = get_prev n) ->
  (forall v n, set_next v (g n) = g (set_next v n)) -> (forall v n, set_prev v (g n) = g (set_prev v n)) ->
  unlink j (alter g i ns, e) = (alter g i (unlink j (ns, e)).1, (unlink j (ns, e)).2).
Proof.
  intros Hn Hp Hsn Hsp.
  assert (En : next_of (alter g i ns) j = next_of ns j).
  { unfold next_of. destruct (decide (i = j)) as [->|]; [rewrite list_lookup_alter_eq; by destruct (ns !! j); simpl; rewrite ?Hn|by rewrite list_lookup_alter_ne]. }
  assert (Ep : prev_of (alter g i ns) j = prev_of ns j).
  { unfold prev_of. destruct (decide (i = j)) as [->|]; [rewrite list_lookup_alter_eq; by destruct (ns !! j); simpl; rewrite ?Hp|by rewrite list_lookup_alter_ne]. }
  rewrite !unlink_eq, En, Ep. cbn [fst snd]. f_equal. unfold bridge, write_next, write_prev.
  destruct (prev_of ns j), (next_of ns j); repeat rewrite (alter_commute _ g) by done; done.
Qed.

Lemma clear_key_order i j o : o_unlink j (clear_key i o) = clear_key i (o_unlink j o).
Proof. unfold o_unlink, clear_key, order_list, with_order. cbn [nodes free index ends_of access_ends access_insert access_cold access_cold_bits insertion_spec with_arena]. by rewrite (unlink_alter (L := order_links)). Qed.
Lemma clear_key_access i j o : unlink_access j (clear_key i o) = clear_key i (unlink_access j o).
Proof.
  assert (Hs : step_point_off j (clear_key i o) = clear_key i (step_point_off j o)).
  { unfold step_point_off, anext, aprev, next_of, prev_of. simpl. change (node_is_cold (clear_key i o) j) with (node_is_cold o j).
    destruct (decide (i = j)) as [->|]; [rewrite list_lookup_alter_eq|rewrite list_lookup_alter_ne by done];
      destruct (nodes o !! j); simpl; repeat case_match; done. }
  unfold unlink_access, unlink_access_inner. rewrite Hs. unfold with_access, access_list, clear_key.
  cbn [nodes free index ends_of access_ends access_insert access_cold access_cold_bits insertion_spec with_arena set_node_cold].
  by rewrite (unlink_alter (L := access_links)).
Qed.
Lemma release_clear_key i o : release i (clear_key i o) = release i o.
Proof.
  unfold release, clear_key, with_arena. simpl. f_equal. apply list_eq. intros j.
  destruct (decide (i = j)) as [->|]; [rewrite !list_lookup_alter_eq|by rewrite !list_lookup_alter_ne]. by destruct (nodes o !! j).
Qed.

Lemma unlink_access_index i m o : unlink_access i (with_index m o) = with_index m (unlink_access i o).
Proof.
  unfold unlink_access, unlink_access_inner. assert (step_point_off i (with_index m o) = with_index m (step_point_off i o)) as ->; [|done].
  unfold step_point_off, anext, aprev. simpl. change (node_is_cold (with_index m o) i) with (node_is_cold o i). repeat case_match; done.
Qed.

(** The oldest key goes, as [remove] would take it. *)
Lemma pop_front_keys o : wf o ->
  pop_front o = match iter o with [] => (None, o) | k :: _ => (Some k, (remove k o).2) end.
Proof.
  intros (ins & acc & key & Hok). unfold pop_front. rewrite (ok_iter _ _ _ _ Hok).
  destruct (ok_lists _ _ _ _ Hok) as [Hl _ Hk]. pose proof (sp_head (L := order_links) _ _ Hl) as Hh. simpl in Hh. rewrite Hh.
  destruct ins as [|i ins]; [done|]. rewrite fmap_cons. cbn [head]. rewrite Hk.
  assert (E : index o !! key i = Some i) by (apply (ok_index _ _ _ _ Hok); split; [set_solver|done]).
  unfold remove. rewrite E. cbn [snd]. f_equal. rewrite clear_key_order, clear_key_access.
  rewrite <- (release_clear_key i (unlink_access i (o_unlink i (with_index _ o)))). f_equal.
  change (o_unlink i (with_index (delete (key i) (index o)) o)) with (with_index (delete (key i) (index o)) (o_unlink i o)).
  rewrite unlink_access_index. destruct (unlink_access_frame i (o_unlink i o)) as (_ & _ & Hi & _). 
  change (index (clear_key i ?u)) with (index u). rewrite Hi. done.
Qed.

(** ** Compacting *)

(** What the walk has numbered so far. *)
Definition numbers (n : nat) (remap : list link) (l : list nat) : Prop :=
  length remap = n /\ (forall j i, l !! j = Some i -> remap !! i = Some (Some j)) /\
  (forall i, (i < n)%nat -> i ∉ l -> remap !! i = Some None).

Lemma compact_walk_spells fuel ns remap l l' p :
  seg (next_of (L := order_links) ns) (prev_of (L := order_links) ns) p l' None -> NoDup (l ++ l') -> (forall i, i ∈ l' -> (i < length ns)%nat) ->
  (length l' <= fuel)%nat -> numbers (length ns) remap l ->
  exists remap', compact_walk fuel ns remap l (head l') = Some (remap', l ++ l') /\ numbers (length ns) remap' (l ++ l').
Proof.
  revert fuel remap l p. induction l' as [|c l' IH]; intros fuel remap l p Hs Hnd Hr Hf Hm.
  { exists remap. rewrite app_nil_r. by destruct fuel. }
  destruct fuel as [|fuel]; [simpl in Hf; lia|]. destruct Hs as (_ & Hn & Hs). destruct Hm as (Hlen & Hin & Hout).
  assert (Hc : c ∉ l) by (apply NoDup_app in Hnd as (_ & Hd & _); intros Hc; apply (Hd c Hc); set_solver).
  assert (Hcl : (c < length ns)%nat) by (apply Hr; set_solver).
  cbn [head compact_walk]. rewrite (Hout c Hcl Hc), Hn. replace (head_or l' None) with (head l') by (by destruct l').
  destruct (IH fuel (<[c := Some (length l)]> remap) (l ++ [c]) (Some c)) as (remap' & Hw & Hm'); [done| |set_solver|simpl in Hf; lia| |].
  - by rewrite <- app_assoc.
  - split_and!; [by rewrite length_insert| |].
    + intros j i Hj. apply lookup_app_Some in Hj as [Hj|[Hle Hj]].
      * rewrite list_lookup_insert_ne; [by apply Hin|]. intros ->. apply Hc. by eapply list_elem_of_lookup_2.
      * apply list_lookup_singleton_Some in Hj as [Hj ->]. rewrite list_lookup_insert_eq by lia. do 2 f_equal. lia.
    + intros i Hi Hni. rewrite list_lookup_insert_ne by set_solver. apply Hout; set_solver.
  - exists remap'. rewrite <- app_assoc in Hw, Hm'. done.
Qed.

(** Renaming the nodes of a list renames the list. *)
Section renaming.
Context (remap : list link) (rank : nat -> nat) (ins : list nat).
Context (Hrank : forall i, i ∈ ins -> mjoin (remap !! i) = Some (rank i)).

Lemma remapped_head l : (forall i, i ∈ l -> i ∈ ins) -> remapped remap (head l) = head (rank <$> l).
Proof. intros Hl. destruct l; [done|]. simpl. apply Hrank, Hl. set_solver. Qed.
Lemma remapped_head_or l : (forall i, i ∈ l -> i ∈ ins) -> remapped remap (head_or l None) = head_or (rank <$> l) None.
Proof. intros Hl. destruct l; [done|]. simpl. apply Hrank, Hl. set_solver. Qed.
Lemma remapped_last l : (forall i, i ∈ l -> i ∈ ins) -> remapped remap (last l) = last (rank <$> l).
Proof.
  intros Hl. rewrite fmap_last. destruct (last l) as [i|] eqn:E; [|done]. simpl. apply Hrank, Hl. by apply last_Some_elem_of.
Qed.
Lemma seg_remap nx pv nx' pv' p l : (forall i, i ∈ l -> i ∈ ins) ->
  (forall i, i ∈ l -> nx' (rank i) = remapped remap (nx i)) -> (forall i, i ∈ l -> pv' (rank i) = remapped remap (pv i)) ->
  seg nx pv p l None -> seg nx' pv' (remapped remap p) (rank <$> l) None.
Proof.
  revert p. induction l as [|i l IH]; intros p Hl Hn Hp; [done|]. intros (H1 & H2 & H3). simpl. split_and!.
  - rewrite Hp, H1 by set_solver. done.
  - rewrite Hn, H2 by set_solver. apply remapped_head_or. set_solver.
  - replace (Some (rank i)) with (remapped remap (Some i)) by (simpl; apply Hrank, Hl; set_solver). apply IH; set_solver.
Qed.
Lemma spells_remap {L : Links CacheOrderNode} ns ns' e l :
  (forall i, i ∈ l -> i ∈ ins) -> (forall i j, i ∈ ins -> j ∈ ins -> rank i = rank j -> i = j) ->
  (forall i, i ∈ ins -> ns' !! rank i = remap_node remap <$> ns !! i) ->
  (forall n, get_next (remap_node remap n) = remapped remap (get_next n)) -> (forall n, get_prev (remap_node remap n) = remapped remap (get_prev n)) ->
  spells (ns, e) l -> spells (ns', remap_ends remap e) (rank <$> l).
Proof.
  intros Hl Hinj Hns Hgn Hgp [H1 H2 H3 H4 H5]. simpl in *. split; simpl.
  - apply NoDup_fmap_2_strong; [|done]. intros x y Hx Hy. apply Hinj; auto.
  - intros j (i & -> & Hi)%list_elem_of_fmap. apply lookup_lt_is_Some. rewrite Hns by auto. apply fmap_is_Some, lookup_lt_is_Some. auto.
  - rewrite H3. by apply remapped_head.
  - rewrite H4. by apply remapped_last.
  - eapply (seg_remap _ _ _ _ None); [done| | |exact H5]; intros i Hi; unfold next_of, prev_of; rewrite Hns by auto; destruct (ns !! i); simpl; auto.
Qed.
End renaming.

Lemma cold_bits_get node cold bits j :
  bits_get (cold_bits node cold bits) j = (if (node <=? j)%nat then default false (cold !! (j - node)%nat) else false) || bits_get bits j.
Proof.
  revert node bits. induction cold as [|c cold IH]; intros node bits; simpl; [by destruct (node <=? j)%nat|].
  rewrite IH. destruct (decide (node = j)) as [->|Hne].
  - rewrite (proj2 (Nat.leb_gt _ _)), Nat.leb_refl, Nat.sub_diag by lia. simpl. destruct c; [|done]. by rewrite bits_get_set, decide_True.
  - assert (bits_get (if c then bits_set bits node true else bits) j = bits_get bits j) as -> by (destruct c; [by rewrite bits_get_set, decide_False|done]).
    destruct (Nat.leb_spec node j).
    + rewrite (proj2 (Nat.leb_le _ _)) by lia. by replace (j - node)%nat with (S (j - S node)) by lia.
    + rewrite (proj2 (Nat.leb_gt _ _)) by lia. done.
Qed.

Section compaction.
Context (o : CacheKeyOrder) (ins acc : list nat) (key : nat -> CacheKey) (remap : list link).
Context (Hok : order_ok o ins acc key) (Hm : numbers (length (nodes o)) remap ins).

Definition rank (i : nat) : nat := default 0%nat (mjoin (remap !! i)).
Definition compacted : CacheKeyOrder :=
  mkOrder ((fun old => remap_node remap (node_at (nodes o) old)) <$> ins) [] (rank <$> index o)
    (remap_ends remap (ends_of o)) (remap_ends remap (access_ends o)) (remapped remap (access_insert o))
    (access_cold o) (cold_bits 0 (node_is_cold o <$> ins) []) (insertion_spec o).
Definition compacted_key (j : nat) : CacheKey := match ins !! j with Some i => key i | None => empty_key end.

Lemma rank_lookup i j : ins !! j = Some i -> mjoin (remap !! i) = Some j /\ rank i = j.
Proof. intros Hj. unfold rank. destruct Hm as (_ & Hin & _). by rewrite (Hin j i Hj). Qed.
Lemma rank_of i : i ∈ ins -> mjoin (remap !! i) = Some (rank i) /\ ins !! rank i = Some i.
Proof. intros [j Hj]%list_elem_of_lookup. destruct (rank_lookup i j Hj) as [-> ->]. done. Qed.
Lemma rank_inj i i' : i ∈ ins -> i' ∈ ins -> rank i = rank i' -> i = i'.
Proof. intros [_ H1]%rank_of [_ H2]%rank_of E. congruence. Qed.
Lemma acc_in_ins i : i ∈ acc -> i ∈ ins.
Proof. by rewrite (ok_perm _ _ _ _ Hok). Qed.
Lemma rank_ins : rank <$> ins = seq 0 (length ins).
Proof.
  apply list_eq. intros j. rewrite list_lookup_fmap. destruct (ins !! j) as [i|] eqn:E; simpl.
  - rewrite lookup_seq_lt by (by eapply lookup_lt_Some). by destruct (rank_lookup i j E) as [_ ->].
  - symmetry. apply lookup_seq_ge. by apply lookup_ge_None.
Qed.
Lemma compacted_nodes i : i ∈ ins -> nodes compacted !! rank i = remap_node remap <$> nodes o !! i.
Proof.
  intros Hi. destruct (rank_of i Hi) as [_ E]. simpl. rewrite list_lookup_fmap, E. simpl. unfold node_at.
  destruct (lookup_lt_is_Some_2 (nodes o) i (ok_range _ _ _ _ Hok i Hi)) as [n ->]. done.
Qed.
Lemma compacted_lists : lists compacted (rank <$> ins) (rank <$> acc) compacted_key.
Proof.
  destruct (ok_lists _ _ _ _ Hok) as [H1 H2 H3]. split.
  - apply (spells_remap remap rank ins (fun i Hi => proj1 (rank_of i Hi)) (nodes o)); try done; auto using rank_inj, compacted_nodes.
  - apply (spells_remap remap rank ins (fun i Hi => proj1 (rank_of i Hi)) (nodes o)); try done; auto using rank_inj, compacted_nodes, acc_in_ins.
  - intros j. unfold key_at, compacted_key. simpl. rewrite list_lookup_fmap. destruct (ins !! j) as [i|]; [|done]. simpl.
    rewrite <- H3. unfold key_at, node_at. by destruct (nodes o !! i).
Qed.
Lemma compacted_ok : order_ok compacted (rank <$> ins) (rank <$> acc) compacted_key.
Proof.
  split; [apply compacted_lists|by rewrite (ok_perm _ _ _ _ Hok)| |simpl; set_solver|constructor|].
  - intros k j. simpl. rewrite lookup_fmap, fmap_Some. split.
    + intros (i & Hi & ->). apply (ok_index _ _ _ _ Hok) in Hi as [Hi <-]. split; [by apply list_elem_of_fmap_2|].
      unfold compacted_key. by destruct (rank_of i Hi) as [_ ->].
    + intros [(i & -> & Hi)%list_elem_of_fmap Hk]. exists i. split; [|done]. apply (ok_index _ _ _ _ Hok). split; [done|].
      unfold compacted_key in Hk. by destruct (rank_of i Hi) as [_ E]; rewrite E in Hk.
  - intros p. simpl. destruct (access_insert o) as [q|] eqn:E; simpl; [|done]. intros Hp.
    destruct (ok_point _ _ _ _ Hok q E) as [Hs Hq]. split; [done|]. destruct (rank_of q (acc_in_ins q Hq)) as [Hr _].
    rewrite Hr in Hp. injection Hp as <-. by apply list_elem_of_fmap_2.
Qed.
Lemma compacted_cold j : node_is_cold compacted j = match ins !! j with Some i => node_is_cold o i | None => false end.
Proof.
  unfold node_is_cold. simpl. rewrite cold_bits_get, Nat.sub_0_r, list_lookup_fmap. simpl.
  assert (bits_get [] j = false) as -> by done. rewrite orb_false_r. by destruct (ins !! j).
Qed.
Lemma compacted_point : point_ok o acc -> point_ok compacted (rank <$> acc).
Proof.
  unfold point_ok. change (insertion_spec compacted) with (insertion_spec o). case_if.
  - intros (H1 & H2 & H3). simpl. rewrite H1. split_and!; [done..|]. intros j. rewrite compacted_cold. by destruct (ins !! j).
  - intros [H1 H2 H3]. split; simpl; [|by rewrite length_fmap|].
    + rewrite H1, list_lookup_fmap. destruct (acc !! access_cold o) as [i|] eqn:E; [|done]. simpl.
      by apply rank_of, acc_in_ins, (list_elem_of_lookup_2 _ _ _ E).
    + intros j. rewrite compacted_cold, <- fmap_take. destruct (ins !! j) as [i|] eqn:E.
      * rewrite H3. apply bool_decide_ext. destruct (rank_lookup i j E) as [_ <-]. split; [apply list_elem_of_fmap_2|].
        intros (i' & Hr & Hi')%list_elem_of_fmap. apply rank_inj in Hr as ->; [done|by eapply list_elem_of_lookup_2|]. by eapply acc_in_ins, take_in.
      * symmetry. apply bool_decide_eq_false. intros (i & -> & Hi)%list_elem_of_fmap. apply take_in, acc_in_ins, rank_of in Hi as [_ Hi]. congruence.
Qed.
End compaction.

(** Compaction changes no order, and gives every free node back. *)
Lemma compact_ok capacity floor o ins acc key : order_ok o ins acc key ->
  exists ins' acc' key', order_ok (compact_if_sparse capacity floor o) ins' acc' key' /\
    key' <$> ins' = key <$> ins /\ key' <$> acc' = key <$> acc /\
    insertion_spec (compact_if_sparse capacity floor o) = insertion_spec o /\
    (point_ok o acc -> point_ok (compact_if_sparse capacity floor o) acc') /\
    ((floor < capacity)%nat -> (len o * 4 <= capacity)%nat -> length (nodes (compact_if_sparse capacity floor o)) = len o /\ free (compact_if_sparse capacity floor o) = []).
Proof.
  intros Hok. unfold compact_if_sparse. destruct ((_ <=? _) || (_ <? _))%nat eqn:Et.
  { exists ins, acc, key. split_and!; try done. intros. apply orb_prop in Et as [Et|Et]; [apply Nat.leb_le in Et|apply Nat.ltb_lt in Et]; lia. }
  destruct (ok_lists _ _ _ _ Hok) as [[H1 H2 H3 _ H5] _ _]. simpl in H2, H3, H5. rewrite H3.
  destruct (compact_walk_spells (S (length (nodes o))) (nodes o) (replicate (length (nodes o)) None) [] ins None H5 H1 H2) as (remap & -> & Hm).
  { pose proof (spells_length (L := order_links) _ _ _ (l_ins _ _ _ _ (ok_lists _ _ _ _ Hok))). lia. }
  { split_and!; [apply length_replicate|done|]. intros i Hi _. by apply lookup_replicate_2. }
  simpl app in *. rewrite (ok_len _ _ _ _ Hok), Nat.eqb_refl. cbn [negb].
  assert (existsb (fun node => bool_decide (mjoin (remap !! node) = None)) (map_to_list (index o)).*2 = false) as ->.
  { apply not_true_iff_false. rewrite existsb_exists. intros (i & Hi & Hn). apply list_elem_of_In, list_elem_of_fmap in Hi as ([k i'] & -> & Hi%elem_of_map_to_list).
    apply (ok_index _ _ _ _ Hok) in Hi as [Hi _]. apply bool_decide_eq_true in Hn. simpl in *. destruct (rank_of o ins remap Hm i' Hi). congruence. }
  pose proof (compacted_ok o ins acc key remap Hok Hm) as Hc. pose proof (compacted_point o ins acc key remap Hok Hm) as Hp.
  unfold compacted, rank in Hc, Hp. do 3 eexists. split; [exact Hc|].
  assert (Hkeys : forall l : list nat, (forall i, i ∈ l -> i ∈ ins) -> compacted_key ins key <$> (rank remap <$> l) = key <$> l).
  { intros l Hl. rewrite <- list_fmap_compose. apply list_fmap_ext. intros j i Hj. simpl. unfold compacted_key.
    by destruct (rank_of o ins remap Hm i (Hl i (list_elem_of_lookup_2 _ _ _ Hj))) as [_ ->]. }
  split_and!; [apply Hkeys; auto|apply Hkeys; eauto using acc_in_ins|done|exact Hp|]. intros _ _. simpl. by rewrite length_fmap.
Qed.
Lemma compact_keys capacity floor o : wf o ->
  iter (compact_if_sparse capacity floor o) = iter o /\ iter_access (compact_if_sparse capacity floor o) = iter_access o /\
  insertion_spec (compact_if_sparse capacity floor o) = insertion_spec o /\ wf (compact_if_sparse capacity floor o) /\
  (wf_point o -> wf_point (compact_if_sparse capacity floor o)) /\
  ((floor < capacity)%nat -> (len o * 4 <= capacity)%nat -> length (nodes (compact_if_sparse capacity floor o)) = len o /\ free (compact_if_sparse capacity floor o) = []).
Proof.
  intros (ins & acc & key & Hok). destruct (compact_ok capacity floor o ins acc key Hok) as (ins' & acc' & key' & H1 & H2 & H3 & H4 & _ & H6).
  rewrite (ok_iter _ _ _ _ H1), (ok_iter_access _ _ _ _ H1), (ok_iter _ _ _ _ Hok), (ok_iter_access _ _ _ _ Hok).
  split_and!; [done..|by exists ins', acc', key'| |done].
  intros (ins2 & acc2 & key2 & Hok2 & Hpt). destruct (compact_ok capacity floor o ins2 acc2 key2 Hok2) as (ins3 & acc3 & key3 & G1 & _ & _ & _ & G5 & _).
  exists ins3, acc3, key3. auto.
Qed.

Lemma touch_ok o ins acc key k i :
  order_ok o ins acc key -> index o !! k = Some i ->
  exists acc', order_ok (touch_access k o).2 ins acc' key /\
    key <$> acc' = filter (fun x => x <> k) (key <$> acc) ++ [k] /\
    insertion_spec (touch_access k o).2 = insertion_spec o /\
    (point_ok o acc -> point_ok (touch_access k o).2 acc').
Proof.
  intros Hok E. destruct (ok_split _ _ _ _ Hok k i E) as (l1 & l2 & a1 & a2 & -> & -> & Hk).
  destruct (touch_present_ok _ _ _ _ Hok k i a1 a2 E eq_refl) as (H1 & H2 & H3).
  exists (a1 ++ a2 ++ [i]).
  assert (Hn2 : NoDup (key <$> a1 ++ i :: a2))
    by (rewrite (ok_perm _ _ _ _ Hok); by eapply ok_keys_nodup).
  rewrite !fmap_app, !fmap_cons, Hk in *.
  split_and!; [done| |done|done]. rewrite filter_ne_split by done. by rewrite <- app_assoc.
Qed.

Lemma touch_access_keys o k :
  wf o ->
  (touch_access k o).1 = bool_decide (k ∈ iter o) /\
  iter (touch_access k o).2 = iter o /\
  iter_access (touch_access k o).2 =
    (if bool_decide (k ∈ iter o) then filter (fun x => x <> k) (iter_access o) ++ [k]
     else iter_access o) /\
  insertion_spec (touch_access k o).2 = insertion_spec o /\
  wf (touch_access k o).2 /\ (wf_point o -> wf_point (touch_access k o).2).
Proof.
  intros Hwf. destruct (index o !! k) as [i|] eqn:E.
  - rewrite bool_decide_eq_true_2 by (by eapply wf_index_Some).
    split; [unfold touch_access; rewrite E; by case_decide|].
    destruct Hwf as (ins & acc & key & Hok).
    destruct (touch_ok _ _ _ _ _ _ Hok E) as (acc' & H1 & H2 & H3 & _).
    rewrite (ok_iter _ _ _ _ H1), (ok_iter_access _ _ _ _ H1),
      (ok_iter _ _ _ _ Hok), (ok_iter_access _ _ _ _ Hok).
    split_and!; [done..|by exists ins, acc', key|].
    intros (ins2 & acc2 & key2 & Hok2 & Hpt).
    destruct (touch_ok _ _ _ _ _ _ Hok2 E) as (acc3 & G1 & _ & _ & G5).
    exists ins2, acc3, key2. auto.
  - destruct (wf_index_None _ _ Hwf E) as [Hi Ha]. unfold touch_access. rewrite E. cbn [fst snd].
    by rewrite bool_decide_eq_false_2.
Qed.

(** Where [push_back_if_absent] puts a new key in the access order. *)
Definition insert_access (o : CacheKeyOrder) (k : CacheKey) : list CacheKey :=
  if insertion_spec o =? 0 then iter_access o ++ [k]
  else take (access_cold o) (iter_access o) ++ k :: drop (access_cold o) (iter_access o).

Lemma push_back_if_absent_keys o k :
  wf o -> 0 <= insertion_spec o -> k ∉ iter o ->
  iter (push_back_if_absent k o) = iter o ++ [k] /\
  (exists a1 a2, iter_access o = a1 ++ a2 /\
     iter_access (push_back_if_absent k o) = a1 ++ k :: a2) /\
  insertion_spec (push_back_if_absent k o) = insertion_spec o /\ wf (push_back_if_absent k o) /\
  (wf_point o -> wf_point (push_back_if_absent k o) /\
     iter_access (push_back_if_absent k o) = insert_access o k /\
     (0 < insertion_spec o ->
      access_cold (push_back_if_absent k o) = cold_target (push_back_if_absent k o))).
Proof.
  intros Hwf Hs Hk. destruct (index o !! k) as [j|] eqn:E; [by apply wf_index_Some in E|].
  destruct Hwf as (ins & acc & key & Hok).
  destruct (push_absent_ok _ _ _ _ Hok k E Hs) as (i & a1 & a2 & Hi & [-> He] & H1 & H2 & _ & _).
  assert (Hia : i ∉ a1 ++ a2) by (by rewrite (ok_perm _ _ _ _ Hok)).
  rewrite (ok_iter _ _ _ _ H1), (ok_iter_access _ _ _ _ H1),
    (ok_iter _ _ _ _ Hok), (ok_iter_access _ _ _ _ Hok).
  rewrite !fmap_app, !fmap_cons, !key_upd_eq, !key_upd_fmap by set_solver.
  split_and!; [done|eauto|done|by do 3 eexists|].
  intros (ins2 & acc2 & key2 & Hok2 & Hpt).
  destruct (push_absent_ok _ _ _ _ Hok2 k E Hs) as (j & b1 & b2 & Hj & [-> Hje] & G1 & _ & _ & G5).
  destruct (G5 Hpt) as [G6 G7]. split; [by do 3 eexists|].
  assert (Hja : j ∉ b1 ++ b2) by (by rewrite (ok_perm _ _ _ _ Hok2)).
  pose proof (ok_iter_access _ _ _ _ H1) as Hacc. rewrite (ok_iter_access _ _ _ _ G1) in Hacc.
  rewrite !fmap_app, !fmap_cons, !key_upd_eq, !key_upd_fmap in Hacc by set_solver.
  rewrite <- Hacc. unfold insert_access. rewrite (ok_iter_access _ _ _ _ Hok2).
  split; [|intros Hpos; by apply G7].
  destruct (Z.eqb_spec (insertion_spec o) 0) as [E0|E0].
  - unfold point_ok in Hpt. rewrite E0 in Hpt. destruct Hpt as (Hn & _). rewrite Hn in Hje.
    subst b2. by rewrite !app_nil_r.
  - destruct G7 as [Hb1 _]; [lia|]. rewrite <- fmap_take, <- fmap_drop, <- Hb1.
    assert (Hb2 : drop (access_cold o) (b1 ++ b2) = b2).
    { pose proof (take_drop (access_cold o) (b1 ++ b2)) as Htd. rewrite <- Hb1 in Htd.
      by apply app_inv_head in Htd. }
    by rewrite Hb2.
Qed.

Lemma set_insertion_spec_keys o spec :
  wf o -> 0 <= spec ->
  iter (set_insertion_spec spec o) = iter o /\
  iter_access (set_insertion_spec spec o) = iter_access o /\
  insertion_spec (set_insertion_spec spec o) = spec /\ wf (set_insertion_spec spec o) /\
  (wf_point o -> insertion_spec o = 0 \/ 0 < spec ->
   0 <= insertion_spec o -> wf_point (set_insertion_spec spec o)).
Proof.
  intros Hwf Hs. unfold set_insertion_spec.
  destruct (rebalance_same (with_spec spec o)) as (Hn & Hf & Hi & He & Ha & Hsp).
  assert (Hsame : forall ins acc key, order_ok o ins acc key ->
            lists (with_spec spec o) ins acc key /\
            order_ok (rebalance_insertion_point (with_spec spec o)) ins acc key).
  { intros ins acc key Hok. assert (Hl : lists (with_spec spec o) ins acc key).
    { by destruct (ok_lists _ _ _ _ Hok). }
    split; [done|]. split.
    - eapply same_lists_lists; [apply rebalance_same|done].
    - apply (ok_perm _ _ _ _ Hok).
    - rewrite Hi. apply (ok_index _ _ _ _ Hok).
    - rewrite Hf, Hn. apply (ok_free _ _ _ _ Hok).
    - rewrite Hf. apply (ok_free_nodup _ _ _ _ Hok).
    - destruct (Z.eqb_spec spec 0) as [->|Hne].
      { unfold rebalance_insertion_point. simpl. by intros p. }
      eapply rebalance_in; [done|]. intros p Hp. split; [done|].
      by apply (ok_point _ _ _ _ Hok). }
  unfold iter, iter_access. rewrite Hn, He, Ha, Hsp. split_and!; [done..| |].
  - destruct Hwf as (ins & acc & key & Hok). exists ins, acc, key. by apply Hsame.
  - intros (ins & acc & key & Hok & Hpt) Hor H0. destruct (Hsame _ _ _ Hok) as [Hl Hok'].
    exists ins, acc, key. split; [done|].
    eapply rebalance_point_ok; [exact Hl| |done|].
    + etrans; [apply (ok_len _ _ _ _ Hok)|]. symmetry. apply (ok_acc_length _ _ _ _ Hok).
    + simpl. unfold point_ok in Hpt. destruct (Z.eqb_spec (insertion_spec o) 0) as [E|E].
      * destruct Hpt as (H1 & H2 & H3). destruct (spec =? 0); [exact H3|]. by right.
      * rewrite (proj2 (Z.eqb_neq spec 0)) by lia. left. destruct Hpt as [H1 H2 H3]. by split.
Qed.

Lemma clear_keys o :
  iter (clear o) = [] /\ iter_access (clear o) = [] /\
  insertion_spec (clear o) = insertion_spec o /\ wf_point (clear o).
Proof.
  split_and!; [done..|]. exists [], [], (fun _ => empty_key). split.
  - split; simpl.
    + split; try apply spells_nil. by intros i.
    + done.
    + intros k i. rewrite lookup_empty. split; [done|]. set_solver.
    + set_solver.
    + constructor.
    + done.
  - unfold point_ok. case_if; [done|]. split; simpl; auto.
Qed.

Lemma new_order_wf : wf_point new_order.
Proof. apply (clear_keys new_order). Qed.

(** [check_access_invariants] passes on every order with its point in place. *)
Lemma wf_point_check o : wf_point o -> check_access_invariants o = true.
Proof.
  intros (ins & acc & key & Hok & Hpt). pose proof (ok_lists _ _ _ _ Hok) as Hl.
  pose proof (spells_length_le _ _ _ _ Hl) as Hle.
  unfold check_access_invariants.
  rewrite (spells_walk_fuel (L := access_links) _ _ _ acc) by (lia || apply (l_acc _ _ _ _ Hl)).
  rewrite (spells_walk_back_fuel (L := access_links) _ _ _ acc) by (lia || apply (l_acc _ _ _ _ Hl)).
  rewrite length_reverse, reverse_involutive, bool_decide_eq_true_2 by done.
  rewrite (proj2 (Nat.leb_le _ _)) by lia.
  rewrite (proj2 (Nat.eqb_eq _ _)) by (by rewrite (ok_len _ _ _ _ Hok), (ok_acc_length _ _ _ _ Hok)).
  simpl. unfold point_ok in Hpt. destruct (insertion_spec o =? 0); [done|]. cbn [orb].
  destruct (decide (acc = [])) as [->|Hne]; [done|]. destruct Hpt as [Hp Hb _].
  rewrite bool_decide_eq_false_2 by done. cbn [orb].
  destruct (lookup_lt_is_Some_2 acc (access_cold o)) as [p Hpa];
    [destruct acc; simpl in *; [done|lia]|].
  rewrite Hp, Hpa.
  rewrite (proj2 (list_find_Some (eq p) acc (access_cold o) p)).
  - by rewrite Nat.eqb_refl.
  - split_and!; [done..|]. intros j y Hy Hj <-.
    pose proof (NoDup_lookup _ _ _ _ (ok_acc_nodup _ _ _ _ Hok) Hpa Hy). lia.
Qed.

(** ** The interface the tiers use *)

Class RecencyOrder (O : Type) := {
  ord_wf : O -> Prop;
  ord_ins : O -> list CacheKey;
  ord_acc : O -> list CacheKey;
  ord_insert : CacheKey -> O -> O;
  ord_touch : CacheKey -> O -> O;
  ord_remove : CacheKey -> O -> O;
  ord_clear : O -> O;
  ord_nodup o : ord_wf o -> NoDup (ord_ins o);
  ord_perm o : ord_wf o -> ord_acc o ≡ₚ ord_ins o;
  ord_insert_spec k o : ord_wf o ->
    ord_wf (ord_insert k o) /\
    (k ∈ ord_ins o -> ord_insert k o = o) /\
    (k ∉ ord_ins o -> ord_ins (ord_insert k o) = ord_ins o ++ [k] /\
       exists a1 a2, ord_acc o = a1 ++ a2 /\ ord_acc (ord_insert k o) = a1 ++ k :: a2);
  ord_touch_spec k o : ord_wf o ->
    ord_wf (ord_touch k o) /\ ord_ins (ord_touch k o) = ord_ins o /\
    ord_acc (ord_touch k o) =
      (if bool_decide (k ∈ ord_ins o) then filter (fun x => x <> k) (ord_acc o) ++ [k]
       else ord_acc o);
  ord_remove_spec k o : ord_wf o ->
    ord_wf (ord_remove k o) /\
    ord_ins (ord_remove k o) = filter (fun x => x <> k) (ord_ins o) /\
    ord_acc (ord_remove k o) = filter (fun x => x <> k) (ord_acc o);
  ord_clear_spec o : ord_wf o ->
    ord_wf (ord_clear o) /\ ord_ins (ord_clear o) = [] /\ ord_acc (ord_clear o) = []
}.

Lemma push_back_if_absent_present o k : wf o -> k ∈ iter o -> push_back_if_absent k o = o.
Proof.
  intros Hwf Hk. unfold push_back_if_absent. destruct (index o !! k) eqn:E; [done|].
  by destruct (wf_index_None _ _ Hwf E).
Qed.

#[export] Instance CacheKeyOrder_recency : RecencyOrder CacheKeyOrder.
Proof.
  refine {|
    ord_wf o := wf o /\ 0 <= insertion_spec o;
    ord_ins := iter;
    ord_acc := iter_access;
    ord_insert := push_back_if_absent;
    ord_touch k o := (touch_access k o).2;
    ord_remove k o := (remove k o).2;
    ord_clear := clear |}.
  - intros o [H _]. apply (wf_keys o H).
  - intros o [H _]. apply (wf_keys o H).
  - intros k o [H Hs]. destruct (decide (k ∈ iter o)) as [Hk|Hk].
    + rewrite push_back_if_absent_present by done. naive_solver.
    + destruct (push_back_if_absent_keys o k H Hs Hk) as (H1 & H2 & H3 & H4 & _).
      rewrite H3. naive_solver.
  - intros k o [H Hs]. destruct (touch_access_keys o k H) as (_ & H1 & H2 & H3 & H4 & _).
    by rewrite H3.
  - intros k o [H Hs]. destruct (remove_keys o k H) as (_ & H1 & H2 & H3 & H4 & _).
    by rewrite H3.
  - intros o [H Hs]. destruct (clear_keys o) as (H1 & H2 & H3 & H4%wf_point_wf).
    done.
Defined.

(** ** Sequences of operations *)

Inductive OrderOp :=
| OpInsert (k : CacheKey)
| OpTouch (k : CacheKey)
| OpRemove (k : CacheKey)
| OpSetSpec (spec : Z)
| OpClear
| OpPop
| OpCompact (capacity floor : nat).

Definition order_step (o : CacheKeyOrder) (op : OrderOp) : CacheKeyOrder :=
  match op with
  | OpInsert k => push_back_if_absent k o
  | OpTouch k => snd (touch_access k o)
  | OpRemove k => snd (remove k o)
  | OpSetSpec spec => set_insertion_spec spec o
  | OpClear => clear o
  | OpPop => snd (pop_front o)
  | OpCompact capacity floor => compact_if_sparse capacity floor o
  end.

Definition order_run (ops : list OrderOp) (o : CacheKeyOrder) : CacheKeyOrder :=
  fold_left order_step ops o.

(** The specification: two lists of keys, oldest first. *)
Definition abs_step (s : list CacheKey * list CacheKey) (op : OrderOp) : list CacheKey * list CacheKey :=
  let '(ins, acc) := s in
  match op with
  | OpInsert k => if bool_decide (k ∈ ins) then (ins, acc) else (ins ++ [k], acc ++ [k])
  | OpTouch k => if bool_decide (k ∈ ins) then (ins, filter (fun x => x <> k) acc ++ [k]) else (ins, acc)
  | OpRemove k => (filter (fun x => x <> k) ins, filter (fun x => x <> k) acc)
  | OpSetSpec _ => (ins, acc)
  | OpClear => ([], [])
  | OpPop => match ins with [] => (ins, acc) | k :: _ => (filter (fun x => x <> k) ins, filter (fun x => x <> k) acc) end
  | OpCompact _ _ => (ins, acc)
  end.

(** Specs a caller may set, as an unsigned byte. *)
Definition spec_at_least (low : Z) (op : OrderOp) : bool :=
  match op with OpSetSpec spec => low <=? spec | _ => true end.
Definition spec_is_zero (op : OrderOp) : bool :=
  match op with OpSetSpec spec => spec =? 0 | _ => true end.

Lemma order_step_point o op :
  wf_point o -> 0 <= insertion_spec o ->
  match op with OpSetSpec spec => 0 < spec \/ spec = 0 /\ insertion_spec o = 0 | _ => True end ->
  wf_point (order_step o op) /\ 0 <= insertion_spec (order_step o op).
Proof.
  intros Hp Hs Hop. pose proof (wf_point_wf _ Hp) as Hwf. destruct op as [k|k|k|spec| | |capacity floor]; simpl.
  - destruct (decide (k ∈ iter o)) as [Hk|Hk]; [by rewrite push_back_if_absent_present|].
    destruct (push_back_if_absent_keys o k Hwf Hs Hk) as (_ & _ & H3 & _ & H5). rewrite H3.
    split; [by apply H5|done].
  - destruct (touch_access_keys o k Hwf) as (_ & _ & _ & H3 & _ & H5). rewrite H3. auto.
  - destruct (remove_keys o k Hwf) as (_ & _ & _ & H3 & _ & H5). rewrite H3. auto.
  - destruct (set_insertion_spec_keys o spec Hwf) as (_ & _ & H3 & _ & H5); [lia|]. rewrite H3.
    split; [apply H5; [done|lia..]|lia].
  - destruct (clear_keys o) as (_ & _ & _ & H4). done.
  - rewrite pop_front_keys by done. destruct (iter o) as [|k l]; [done|]. simpl.
    destruct (remove_keys o k Hwf) as (_ & _ & _ & H3 & _ & H5). rewrite H3. auto.
  - destruct (compact_keys capacity floor o Hwf) as (_ & _ & H3 & _ & H5 & _). rewrite H3. auto.
Qed.

Lemma order_run_point ops o :
  wf_point o -> 0 <= insertion_spec o -> forallb (spec_at_least 1) ops = true ->
  wf_point (order_run ops o).
Proof.
  unfold order_run. revert o. induction ops as [|op ops IH]; intros o Hp Hs Hops; simpl in *; [done|].
  apply andb_prop in Hops as [Hop Hops]. destruct (order_step_point o op) as [H1 H2]; [done..| |].
  - destruct op; try done. simpl in Hop. zbool. lia.
  - by apply IH.
Qed.

(** Inserting, touching, removing, popping, clearing and compacting the
    arena in any order, with any non-zero insertion specs set between them,
    keeps everything [check_access_invariants] tests: the access list is
    acyclic, agrees with the index and reads the same both ways, and the
    insertion point is a member of it exactly [access_cold] entries from the
    eviction end. *)
Theorem access_invariants_kept (ops : list OrderOp) :
  forallb (spec_at_least 1) ops = true ->
  check_access_invariants (order_run ops new_order) = true.
Proof. intros Hops. apply wf_point_check, order_run_point; [apply new_order_wf|done|done]. Qed.

Lemma access_invariants_kept_witness :
  check_access_invariants (order_run
    [OpSetSpec 1; OpInsert (demo_key 1); OpInsert (demo_key 2); OpInsert (demo_key 3);
     OpTouch (demo_key 1); OpRemove (demo_key 3); OpSetSpec 2; OpInsert (demo_key 4)] new_order) = true.
Proof. apply access_invariants_kept. vm_compute. reflexivity. Defined.

Lemma order_step_refines o op :
  wf_point o -> insertion_spec o = 0 -> spec_is_zero op = true ->
  (iter (order_step o op), iter_access (order_step o op)) = abs_step (iter o, iter_access o) op /\
  insertion_spec (order_step o op) = 0.
Proof.
  intros Hp Hs Hop. pose proof (wf_point_wf _ Hp) as Hwf. destruct op as [k|k|k|spec| | |capacity floor]; simpl.
  - destruct (decide (k ∈ iter o)) as [Hk|Hk].
    + by rewrite push_back_if_absent_present, bool_decide_eq_true_2.
    + destruct (push_back_if_absent_keys o k Hwf) as (H1 & _ & H3 & _ & H5); [lia|done|].
      destruct (H5 Hp) as (_ & H6 & _). unfold insert_access in H6. rewrite Hs in H6. simpl in H6.
      by rewrite H1, H6, H3, bool_decide_eq_false_2.
  - destruct (touch_access_keys o k Hwf) as (_ & H1 & H2 & H3 & _). rewrite H1, H2, H3.
    by case_if.
  - destruct (remove_keys o k Hwf) as (_ & H1 & H2 & H3 & _). by rewrite H1, H2, H3.
  - simpl in Hop. zbool. subst spec.
    destruct (set_insertion_spec_keys o 0 Hwf) as (H1 & H2 & H3 & _); [lia|]. by rewrite H1, H2, H3.
  - done.
  - rewrite pop_front_keys by done. destruct (iter o) as [|k l] eqn:E; [cbn [snd]; by rewrite E|]. simpl.
    destruct (remove_keys o k Hwf) as (_ & H1 & H2 & H3 & _). by rewrite H1, H2, H3, E.
  - destruct (compact_keys capacity floor o Hwf) as (H1 & H2 & H3 & _). by rewrite H1, H2, H3.
Qed.

(** C12. With no insertion spec set the two arena lists are exactly their
    specification: insertion order is the order keys first arrived in, access
    order the order they were last inserted or touched in, whatever sequence
    of operations ran, compactions that renumber every node included. *)
Theorem order_refines_lists (ops : list OrderOp) :
  forallb spec_is_zero ops = true ->
  (iter (order_run ops new_order), iter_access (order_run ops new_order)) =
  fold_left abs_step ops ([], []).
Proof.
  assert (Hgen : forall o, wf_point o -> insertion_spec o = 0 -> forallb spec_is_zero ops = true ->
    (iter (order_run ops o), iter_access (order_run ops o)) =
    fold_left abs_step ops (iter o, iter_access o)).
  { unfold order_run. induction ops as [|op ops IH]; intros o Hp Hs Hops;
      cbn [fold_left forallb] in *; [done|].
    apply andb_prop in Hops as [Hop Hops].
    destruct (order_step_refines o op Hp Hs Hop) as [H1 H2]. rewrite <- H1. apply IH; [|done..].
    apply order_step_point; [done|lia|]. destruct op; try done.
    simpl in Hop. zbool. lia. }
  apply (Hgen new_order); [apply new_order_wf|done].
Qed.

Lemma order_refines_lists_witness :
  iter_access (order_run [OpInsert (demo_key 3); OpInsert (demo_key 1); OpInsert (demo_key 2); OpTouch (demo_key 1); OpPop; OpCompact 64 8] new_order)
  = [demo_key 2; demo_key 1].
Proof.
  pose proof (order_refines_lists
    [OpInsert (demo_key 3); OpInsert (demo_key 1); OpInsert (demo_key 2); OpTouch (demo_key 1); OpPop; OpCompact 64 8] eq_refl) as H.
  exact (f_equal snd H).
Defined.

(** A new key enters the access order at the insertion point, and the
    point then stands exactly [len >> spec] entries from the eviction end. *)
Theorem insertion_point_spec (ops : list OrderOp) (k : CacheKey) :
  let o := order_run ops new_order in
  let o' := push_back_if_absent k o in
  forallb (spec_at_least 1) ops = true -> 0 < insertion_spec o -> contains o k = false ->
  iter_access o' = take (access_cold o) (iter_access o) ++ k :: drop (access_cold o) (iter_access o) /\
  Z.of_nat (access_cold o') = Z.shiftr (Z.of_nat (len o')) (insertion_spec o).
Proof.
  intros o o' Hops Hs Hk. assert (Hp : wf_point o) by (by apply order_run_point; [apply new_order_wf|..]).
  pose proof (wf_point_wf _ Hp) as Hwf. rewrite wf_contains in Hk by done.
  apply bool_decide_eq_false in Hk.
  destruct (push_back_if_absent_keys o k Hwf) as (_ & _ & H3 & _ & H5); [lia|done|].
  destruct (H5 Hp) as (_ & H6 & H7). fold o' in H3, H6, H7. rewrite H6, H7 by done.
  unfold insert_access, cold_target. rewrite (proj2 (Z.eqb_neq _ _)), H3 by lia. split; [done|].
  apply Z2Nat.id. apply Z.shiftr_nonneg. lia.
Qed.

Lemma insertion_point_spec_witness :
  let o := order_run [OpSetSpec 1; OpInsert (demo_key 1); OpInsert (demo_key 2); OpInsert (demo_key 3)] new_order in
  Z.of_nat (access_cold (push_back_if_absent (demo_key 4) o)) = 2.
Proof.
  intros o.
  destruct (insertion_point_spec
    [OpSetSpec 1; OpInsert (demo_key 1); OpInsert (demo_key 2); OpInsert (demo_key 3)] (demo_key 4))
    as [_ H]; [vm_compute; reflexivity..|]. exact H.
Defined.

Definition reset_ops : list OrderOp :=
  OpSetSpec 1 :: (OpInsert ∘ demo_key <$> [1; 2; 3; 4; 5; 6; 7; 8])
  ++ [OpSetSpec 0; OpSetSpec 2; OpTouch (demo_key 8)].

(** Turning the insertion point off and on again breaks the invariant
    [check_access_invariants] documents: [rebalance_insertion_point] clears
    the point but not the cold bits, so a later touch of a node whose bit is
    stale takes one off a cold count the node was never part of. *)
Theorem insertion_spec_reset_stale :
  check_access_invariants (order_run reset_ops new_order) = false /\
  forallb (spec_at_least 0) reset_ops = true.
Proof. vm_compute. done. Qed.
