(* ===== verification/SimpleLru.v ===== *)
(** * The plain in-memory caches

    [SimpleLruInner], the cache behind [SimpleLruCache] and
    [ZeroCopySimpleLruCache] (cache_facades.rs).  A value is shared: the cache
    and the handles of its readers point at it, and whether an entry may be
    evicted is read off the number of pointers.  The counts are part of the
    state here; taking and dropping a pointer changes them. *)

From S2P Require Import Prelude Types Dll KeyOrder.

(** ** Shared values *)

(** A pointer to a value: which one it points at, and its bytes. *)
Record Arc := mkArc { arc_id : Z; arc_value : bytes }.

(** [Arc::strong_count] of every value, and the next one to make. *)
Record Arcs := mkArcs { next_arc : Z; counts : gmap Z Z }.
Definition no_arcs : Arcs := mkArcs 0 ∅.
Definition strong_count (p : Arc) (h : Arcs) : Z := default 0 (counts h !! arc_id p).
Definition arc_alloc (value : bytes) (h : Arcs) : Arc * Arcs :=
  (mkArc (next_arc h) value, mkArcs (next_arc h + 1) (<[next_arc h := 1]> (counts h))).
Definition arc_clone (p : Arc) (h : Arcs) : Arcs := mkArcs (next_arc h) (alter (fun n => n + 1) (arc_id p) (counts h)).
Definition arc_drop (p : Arc) (h : Arcs) : Arcs := mkArcs (next_arc h) (alter (fun n => n - 1) (arc_id p) (counts h)).

(** ** State *)

Record SimpleLruEntry := mkLruEntry { sl_value : Arc; sl_bytes : Z }.
Record SimpleLruInner := mkSimpleLru {
  sl_capacity : Z;
  sl_size : Z;
  sl_order : CacheKeyOrder;
  sl_entries : gmap CacheKey SimpleLruEntry;
  sl_pinned_removed : list SimpleLruEntry;
  sl_arcs : Arcs }.

Implicit Types (s : SimpleLruInner) (e : SimpleLruEntry) (key : CacheKey).

Definition sl_set_size (n : Z) s : SimpleLruInner :=
  mkSimpleLru (sl_capacity s) n (sl_order s) (sl_entries s) (sl_pinned_removed s) (sl_arcs s).
Definition sl_set_order (o : CacheKeyOrder) s : SimpleLruInner :=
  mkSimpleLru (sl_capacity s) (sl_size s) o (sl_entries s) (sl_pinned_removed s) (sl_arcs s).
Definition sl_set_entries (m : gmap CacheKey SimpleLruEntry) s : SimpleLruInner :=
  mkSimpleLru (sl_capacity s) (sl_size s) (sl_order s) m (sl_pinned_removed s) (sl_arcs s).
Definition sl_set_removed (l : list SimpleLruEntry) s : SimpleLruInner :=
  mkSimpleLru (sl_capacity s) (sl_size s) (sl_order s) (sl_entries s) l (sl_arcs s).
Definition sl_set_arcs (h : Arcs) s : SimpleLruInner :=
  mkSimpleLru (sl_capacity s) (sl_size s) (sl_order s) (sl_entries s) (sl_pinned_removed s) h.

Definition sl_new (capacity : Z) : outcome SimpleLruInner :=
  if capacity <=? 0 then Panics else Returns (mkSimpleLru capacity 0 new_order ∅ [] no_arcs).

(** ** Operations *)

Definition sl_pinned e s : bool := 1 <? strong_count (sl_value e) (sl_arcs s).
(** The entry goes, and its pointer with it. *)
Definition sl_forget e s : SimpleLruInner := sl_set_arcs (arc_drop (sl_value e) (sl_arcs s)) s.

Definition sl_retire e s : SimpleLruInner :=
  if sl_pinned e s then sl_set_removed (sl_pinned_removed s ++ [e]) s
  else sl_forget e (sl_set_size (sl_size s -! sl_bytes e) s).

(** [Vec::retain], gathering what it lets go. *)
Fixpoint sl_reap_loop (l : list SimpleLruEntry) (released : Z) s : list SimpleLruEntry * Z * SimpleLruInner :=
  match l with
  | [] => ([], released, s)
  | e :: l =>
      if sl_pinned e s then let '(kept, released, s) := sl_reap_loop l released s in (e :: kept, released, s)
      else sl_reap_loop l (released +! sl_bytes e) (sl_forget e s)
  end.
Definition sl_reap_pinned_removed s : SimpleLruInner :=
  let '(kept, released, s) := sl_reap_loop (sl_pinned_removed s) 0 s in
  sl_set_size (sl_size s -! released) (sl_set_removed kept s).

Definition sl_current_size s : Z * SimpleLruInner := let s := sl_reap_pinned_removed s in (sl_size s, s).

Definition sl_touch key s : SimpleLruInner := sl_set_order (push_front key (sl_order s)) s.

Definition sl_lookup key s : option Arc * SimpleLruInner :=
  match sl_entries s !! key with
  | None => (None, s)
  | Some e => (Some (sl_value e), sl_touch key (sl_set_arcs (arc_clone (sl_value e) (sl_arcs s)) s))
  end.

Definition sl_remove key s : SimpleLruInner :=
  match sl_entries s !! key with
  | None => s
  | Some e => sl_retire e (sl_set_order (remove key (sl_order s)).2 (sl_set_entries (delete key (sl_entries s)) s))
  end.

(** The entries are drained in the order of a hash map. *)
Definition sl_remove_all (iterate : gmap CacheKey SimpleLruEntry -> list (CacheKey * SimpleLruEntry)) s : SimpleLruInner :=
  let retired := (iterate (sl_entries s)).*2 in
  let s := foldl (fun s e => sl_retire e s) (sl_set_entries ∅ s) retired in
  sl_set_order (clear (sl_order s)) s.

(** The least recently used entry nobody holds. *)
Definition sl_evictable key s : bool :=
  match sl_entries s !! key with Some e => strong_count (sl_value e) (sl_arcs s) =? 1 | None => false end.
Definition sl_victim s : option CacheKey := snd <$> list_find (fun key => sl_evictable key s = true) (iter_rev (sl_order s)).
Definition sl_evict_one key s : SimpleLruInner :=
  let s := sl_set_order (remove key (sl_order s)).2 s in
  match sl_entries s !! key with
  | None => s
  | Some e => sl_forget e (sl_set_size (sl_size s -! sl_bytes e) (sl_set_entries (delete key (sl_entries s)) s))
  end.
(** Every turn but the last takes an entry out. *)
Fixpoint sl_evict_loop (fuel : nat) s : SimpleLruInner :=
  match fuel with
  | O => s
  | S fuel =>
      if sl_capacity s <? sl_size s then
        match sl_victim s with Some key => sl_evict_loop fuel (sl_evict_one key s) | None => s end
      else s
  end.
Definition sl_evict_unpinned s : SimpleLruInner :=
  let s := sl_reap_pinned_removed s in sl_evict_loop (S (size (sl_entries s))) s.

(** The pointer is the caller's to give away: it is dropped when the value is
    too large. *)
Definition sl_insert key (value : Arc) (bytes : Z) s : outcome (bool * SimpleLruInner) :=
  if bytes <=? 0 then Panics
  else if sl_capacity s <? bytes then Returns (false, sl_set_arcs (arc_drop value (sl_arcs s)) s)
  else
    let s := sl_remove key (sl_reap_pinned_removed s) in
    let s := sl_set_size (wrap64 (sl_size s + bytes)) s in
    let s := sl_set_order (push_front key (sl_order s)) s in
    let s := sl_set_entries (<[key := mkLruEntry value bytes]> (sl_entries s)) s in
    Returns (true, sl_evict_unpinned s).

Definition sl_set_capacity (capacity : Z) s : outcome SimpleLruInner :=
  if capacity <=? 0 then Panics
  else Returns (sl_evict_unpinned
    (mkSimpleLru capacity (sl_size s) (sl_order s) (sl_entries s) (sl_pinned_removed s) (sl_arcs s))).

(** ** The two caches *)

(** [SimpleLruCache]: values are moved in and copied out. *)
Definition simple_lru_insert key (value : bytes) (bytes : Z) s : outcome SimpleLruInner :=
  let '(p, h) := arc_alloc value (sl_arcs s) in
  match sl_insert key p bytes (sl_set_arcs h s) with Panics => Panics | Returns (_, s) => Returns s end.
Definition simple_lru_lookup key s : option bytes * SimpleLruInner :=
  match sl_lookup key s with
  | (None, s) => (None, s)
  | (Some p, s) => (Some (arc_value p), sl_set_arcs (arc_drop p (sl_arcs s)) s)
  end.

(** [ZeroCopySimpleLruCache]: a handle is a key and a pointer. *)
Definition zero_copy_acquire key s : option (CacheKey * Arc) * SimpleLruInner :=
  let '(p, s) := sl_lookup key s in ((fun p => (key, p)) <$> p, s).
Definition zero_copy_release (handle : CacheKey * Arc) s : SimpleLruInner :=
  sl_evict_unpinned (sl_set_arcs (arc_drop handle.2 (sl_arcs s)) s).
Definition zero_copy_insert_pinned key (value : bytes) (bytes : Z) s : outcome (option (CacheKey * Arc) * SimpleLruInner) :=
  let '(p, h) := arc_alloc value (sl_arcs s) in
  match sl_insert key p bytes (sl_set_arcs (arc_clone p h) s) with
  | Panics => Panics
  | Returns (true, s) => Returns (Some (key, p), s)
  | Returns (false, s) => Returns (None, sl_set_arcs (arc_drop p (sl_arcs s)) s)
  end.
(** The handle is dropped, not released. *)
Definition zero_copy_insert key (value : bytes) (bytes : Z) s : outcome SimpleLruInner :=
  match zero_copy_insert_pinned key value bytes s with
  | Panics => Panics
  | Returns (Some handle, s) => Returns (sl_set_arcs (arc_drop handle.2 (sl_arcs s)) s)
  | Returns (None, s) => Returns s
  end.

(** ** The in-process memcached cache *)

(** [InProcessMemcachedCache]: a map of values and one of sizes; a capacity of
    zero is no bound. *)
Record Memcached := mkMemcached {
  mc_capacity : Z;
  mc_started : bool;
  mc_entries : gmap string string;
  mc_sizes : gmap string Z;
  mc_reset_clients : Z }.

Definition memcached_new (capacity : Z) : Memcached := mkMemcached capacity false ∅ ∅ 0.
Definition memcached_reset_clients (m : Memcached) : Memcached :=
  mkMemcached (mc_capacity m) (mc_started m) (mc_entries m) (mc_sizes m) (wrap64 (mc_reset_clients m + 1)).
Definition memcached_start (m : Memcached) : bool * Memcached := (true, mkMemcached (mc_capacity m) true (mc_entries m) (mc_sizes m) (mc_reset_clients m)).
Definition memcached_stop (m : Memcached) : bool * Memcached := (true, mkMemcached (mc_capacity m) false (mc_entries m) (mc_sizes m) (mc_reset_clients m)).
Definition memcached_size (m : Memcached) : Z := wrap64 (map_sum id (mc_sizes m)).
Definition memcached_insert (key value : string) (size : Z) (m : Memcached) : result unit * Memcached :=
  if negb (mc_started m) then (Err Stopped, m)
  else
    let old_size := default 0 (mc_sizes m !! key) in
    let used := memcached_size m -! old_size in
    if (0 <? mc_capacity m) && (mc_capacity m <? used +! size) then (Err CapacityExceeded, m)
    else (Ok tt, mkMemcached (mc_capacity m) true (<[key := value]> (mc_entries m)) (<[key := size]> (mc_sizes m)) (mc_reset_clients m)).
Definition memcached_lookup (key : string) (m : Memcached) : result (option string) := if negb (mc_started m) then Err Stopped else Ok (mc_entries m !! key).
Definition memcached_remove (key : string) (m : Memcached) : Memcached :=
  mkMemcached (mc_capacity m) (mc_started m) (delete key (mc_entries m)) (delete key (mc_sizes m)) (mc_reset_clients m).
Definition memcached_remove_all (m : Memcached) : Memcached := mkMemcached (mc_capacity m) (mc_started m) ∅ ∅ (mc_reset_clients m).
Definition memcached_set_capacity (capacity : Z) (m : Memcached) : Memcached := mkMemcached capacity (mc_started m) (mc_entries m) (mc_sizes m) (mc_reset_clients m).
