(* ===== verification/SimpleLruSpec.v ===== *)
(** * What the plain in-memory caches promise

    The caches of SimpleLru.v against a list of entries, most recent first,
    whose sizes are added up when they are asked for: no counters, no pointer
    counts and nothing to reap. *)

From S2P Require Import Prelude Types Dll KeyOrder KeyOrderFacts KeyOrderSpec SimpleLru.

(** ** Specification *)

(** [lru_retired] keeps what was taken out of the cache; it counts while it is
    held. *)
Record LruSpec := mkLruSpec {
  lru_room : Z;
  lru_cached : list (CacheKey * SimpleLruEntry);
  lru_retired : list SimpleLruEntry }.

Implicit Types (es fl dead : list SimpleLruEntry) (l : LruSpec) (c : list (CacheKey * SimpleLruEntry)) (e : SimpleLruEntry) (key : CacheKey) (H : list Z) (s : SimpleLruInner).

Definition entry_id e : Z := arc_id (sl_value e).
Definition entry_held H e : bool := bool_decide (entry_id e ∈ H).
Definition sum_bytes (es : list SimpleLruEntry) : Z := foldr (fun e n => sl_bytes e + n) 0 es.
Definition lru_total H l : Z := sum_bytes l.(lru_cached).*2 + sum_bytes (filter (fun e => entry_held H e = true) l.(lru_retired)).

(** One pass from the least recent end: entries nobody holds go while there
    are bytes to give up. *)
Fixpoint shed H (excess : Z) c : list (CacheKey * SimpleLruEntry) :=
  match c with
  | [] => []
  | ke :: c => if (0 <? excess) && negb (entry_held H ke.2) then shed H (excess - sl_bytes ke.2) c else ke :: shed H excess c
  end.
Definition spec_evict H l : LruSpec :=
  mkLruSpec (lru_room l) (reverse (shed H (lru_total H l - lru_room l) (reverse (lru_cached l)))) (lru_retired l).
Definition cached_entry key l : option SimpleLruEntry := (list_to_map (lru_cached l) : gmap CacheKey SimpleLruEntry) !! key.
Definition without key c : list (CacheKey * SimpleLruEntry) := filter (fun ke => ke.1 <> key) c.
Definition spec_remove key l : LruSpec :=
  match cached_entry key l with
  | None => l
  | Some e => mkLruSpec (lru_room l) (without key (lru_cached l)) (e :: lru_retired l)
  end.
Definition spec_insert H key e l : bool * LruSpec :=
  if lru_room l <? sl_bytes e then (false, l)
  else let l := spec_remove key l in (true, spec_evict H (mkLruSpec (lru_room l) ((key, e) :: lru_cached l) (lru_retired l))).
Definition spec_lookup key l : option Arc * LruSpec :=
  match cached_entry key l with
  | None => (None, l)
  | Some e => (Some (sl_value e), mkLruSpec (lru_room l) ((key, e) :: without key (lru_cached l)) (lru_retired l))
  end.
Definition spec_remove_all l : LruSpec := mkLruSpec (lru_room l) [] ((lru_cached l).*2 ++ lru_retired l).
Definition spec_set_capacity H capacity l : LruSpec := spec_evict H (mkLruSpec capacity (lru_cached l) (lru_retired l)).

(** ** The relation *)

(** How often a value is held outside of the cache. *)
Definition holds (i : Z) H : Z := Z.of_nat (length (filter (fun j => j = i) H)).

(** [dead] were taken out while they were held, and are not any more; their
    bytes are counted until they are reaped.  [fl] are on their way out of the
    cache, and [n] bounds the counter. *)
Record lru_core H n fl s l (dead : list SimpleLruEntry) : Prop := {
  lr_room : sl_capacity s = lru_room l;
  lr_keys : NoDup (lru_cached l).*1;
  lr_entries : sl_entries s = list_to_map (lru_cached l);
  lr_removed : sl_pinned_removed s ≡ₚ filter (fun e => entry_held H e = true) (lru_retired l) ++ dead;
  lr_dead : dead ⊆ lru_retired l /\ Forall (fun e => entry_held H e = false) dead;
  lr_ids : NoDup (entry_id <$> (lru_cached l).*2 ++ fl ++ lru_retired l);
  lr_fresh : Forall (fun i => i < next_arc (sl_arcs s)) (H ++ (entry_id <$> (lru_cached l).*2 ++ fl ++ lru_retired l));
  lr_counts e : e ∈ (lru_cached l).*2 ++ fl ++ sl_pinned_removed s -> strong_count (sl_value e) (sl_arcs s) = 1 + holds (entry_id e) H;
  lr_positive : Forall (fun e => 0 < sl_bytes e) ((lru_cached l).*2 ++ fl ++ lru_retired l);
  lr_size : sl_size s = sum_bytes (lru_cached l).*2 + sum_bytes fl + sum_bytes (sl_pinned_removed s);
  lr_bound : sl_size s <= n < 2 ^ 64 }.
Definition lru_rel H n s l dead : Prop :=
  lru_core H n [] s l dead /\ wf (sl_order s) /\ iter (sl_order s) = (lru_cached l).*1.

(** ** Sums and counts *)

Lemma sum_bytes_app es es' : sum_bytes (es ++ es') = sum_bytes es + sum_bytes es'.
Proof. unfold sum_bytes. induction es as [|e es IH]; cbn; [done|]. rewrite IH. lia. Qed.
#[global] Instance sum_bytes_perm : Proper ((≡ₚ) ==> (=)) sum_bytes.
Proof. unfold sum_bytes. intros es es' Hp. induction Hp; cbn; lia. Qed.
Lemma sum_bytes_nonneg es : Forall (fun e => 0 < sl_bytes e) es -> 0 <= sum_bytes es.
Proof. unfold sum_bytes. induction 1; cbn; lia. Qed.
Lemma sum_bytes_filter (P : SimpleLruEntry -> bool) es :
  sum_bytes es = sum_bytes (filter (fun e => P e = true) es) + sum_bytes (filter (fun e => P e = false) es).
Proof. unfold sum_bytes in *. induction es as [|e es IH]; [done|]. rewrite !filter_cons. destruct (P e); repeat case_decide; cbn; try congruence; lia. Qed.

Lemma positive_filter (P : SimpleLruEntry -> Prop) `{forall e, Decision (P e)} es : Forall (fun e => 0 < sl_bytes e) es -> Forall (fun e => 0 < sl_bytes e) (filter P es).
Proof. rewrite !Forall_forall. intros Hes e [_ He]%list_elem_of_filter. by apply Hes. Qed.
Lemma filter_false H es : Forall (fun e => entry_held H e = false) es -> filter (fun e => entry_held H e = true) es = [].
Proof. induction 1 as [|e es He _ IH]; [done|]. by rewrite filter_cons, He, IH. Qed.
Lemma nodup_ids_ne es es' e e' : NoDup (entry_id <$> es ++ es') -> e ∈ es -> e' ∈ es' -> entry_id e = entry_id e' -> False.
Proof.
  rewrite fmap_app. intros (_ & Hd & _)%NoDup_app He He' Ei. apply (Hd (entry_id e)); [by apply list_elem_of_fmap_2|]. rewrite Ei. by apply list_elem_of_fmap_2.
Qed.

Lemma nodup_ids_other es es1 e e' : NoDup (entry_id <$> es ++ e :: es1) -> e' ∈ es ++ es1 -> entry_id e' <> entry_id e.
Proof.
  rewrite <- Permutation_middle, fmap_cons. intros [Hn _]%NoDup_cons He Ei. apply Hn. rewrite <- Ei. by apply list_elem_of_fmap_2.
Qed.

Lemma holds_cons i j H : holds i (j :: H) = (if decide (j = i) then 1 else 0) + holds i H.
Proof. unfold holds. rewrite filter_cons. case_decide; cbn; lia. Qed.
Lemma holds_pos i H : 0 < holds i H <-> i ∈ H.
Proof.
  induction H as [|j H IH]; [split; [done|by intros ?%elem_of_nil]|]. rewrite holds_cons, elem_of_cons. case_decide as E; [|rewrite Z.add_0_l, IH; naive_solver].
  split; [by left|]. intros _. unfold holds. lia.
Qed.
Lemma holds_nonneg i H : 0 <= holds i H.
Proof. unfold holds. lia. Qed.
#[global] Instance holds_perm i : Proper ((≡ₚ) ==> (=)) (holds i).
Proof. intros H H' Hp. unfold holds. by rewrite Hp. Qed.

Lemma held_of H e n : n = 1 + holds (entry_id e) H -> (1 <? n) = entry_held H e /\ (n =? 1) = negb (entry_held H e).
Proof.
  intros ->. unfold entry_held. pose proof (holds_pos (entry_id e) H). pose proof (holds_nonneg (entry_id e) H). case_bool_decide as E.
  - apply holds_pos in E. split; [apply Z.ltb_lt|apply Z.eqb_neq]; lia.
  - assert (~ 0 < holds (entry_id e) H) by tauto. split; [apply Z.ltb_ge|apply Z.eqb_eq]; lia.
Qed.

Section core.
Context (H : list Z) (n : Z) (fl : list SimpleLruEntry) (s : SimpleLruInner) (l : LruSpec) (dead : list SimpleLruEntry).
Context (R : lru_core H n fl s l dead).

Lemma core_pinned e : e ∈ (lru_cached l).*2 ++ fl ++ sl_pinned_removed s -> sl_pinned e s = entry_held H e.
Proof using R. intros He. apply (lr_counts _ _ _ _ _ _ R) in He. by apply held_of in He as [? _]. Qed.

Lemma core_removed_in e : e ∈ sl_pinned_removed s -> e ∈ lru_retired l.
Proof using R.
  rewrite (lr_removed _ _ _ _ _ _ R), elem_of_app, list_elem_of_filter. intros [[_ ?]|Hd]; [done|]. by apply (lr_dead _ _ _ _ _ _ R).
Qed.

Lemma core_nonneg : 0 <= sum_bytes (lru_cached l).*2 /\ 0 <= sum_bytes fl /\ 0 <= sum_bytes (sl_pinned_removed s).
Proof using R.
  pose proof (lr_positive _ _ _ _ _ _ R) as HP. rewrite !Forall_app in HP. destruct HP as (P1 & P2 & P3).
  split_and!; apply sum_bytes_nonneg; [done..|]. rewrite Forall_forall in P3 |- *. intros e He. by apply P3, core_removed_in.
Qed.

(** The counts may change where the holders do. *)
Lemma core_reframe H' h' : Forall (fun i => i < next_arc h') H' -> next_arc (sl_arcs s) <= next_arc h' ->
  (forall e, e ∈ (lru_cached l).*2 ++ fl ++ sl_pinned_removed s -> strong_count (sl_value e) h' - holds (entry_id e) H' = strong_count (sl_value e) (sl_arcs s) - holds (entry_id e) H) ->
  (forall e, e ∈ lru_retired l -> entry_held H' e = entry_held H e) -> lru_core H' n fl (sl_set_arcs h' s) l dead.
Proof using R.
  intros Hf Hn Hc Hh. destruct R as [R1 R2 R3 R4 [R5 R5'] R6 R7 R8 R9 R10 R11]. split; cbn; try done.
  - rewrite R4. f_equiv. apply Permutation_refl', filter_agree. intros e He. by rewrite Hh.
  - split; [done|]. rewrite Forall_forall in R5' |- *. intros e He. rewrite Hh by (by apply R5). by apply R5'.
  - apply Forall_app. split; [done|]. apply Forall_app in R7 as [_ R7]. eapply Forall_impl; [exact R7|]. cbn. lia.
  - intros e He. specialize (Hc e He). rewrite R8 in Hc by done. lia.
Qed.
End core.

(** ** Reaping *)

Lemma forget_count e p s : strong_count p (sl_arcs (sl_forget e s)) = strong_count p (sl_arcs s) - if decide (arc_id p = entry_id e) then (if decide (is_Some (counts (sl_arcs s) !! arc_id p)) then 1 else 0) else 0.
Proof.
  unfold strong_count, entry_id. cbn. case_decide as E.
  - rewrite <- E, lookup_alter_eq. destruct (counts (sl_arcs s) !! arc_id p); cbn; case_decide as E'; try lia; [by destruct E'; eexists|by destruct E'].
  - rewrite lookup_alter_ne by done. lia.
Qed.

Lemma reap_loop_ok H es : forall released s,
  (forall e, e ∈ es -> if entry_held H e then 1 < strong_count (sl_value e) (sl_arcs s) else strong_count (sl_value e) (sl_arcs s) <= 1) ->
  Forall (fun e => 0 < sl_bytes e) es -> 0 <= released -> released + sum_bytes es < 2 ^ 64 ->
  exists h', sl_reap_loop es released s = (filter (fun e => entry_held H e = true) es, released + sum_bytes (filter (fun e => entry_held H e = false) es), sl_set_arcs h' s) /\
    next_arc h' = next_arc (sl_arcs s) /\ forall p, arc_id p ∉ entry_id <$> filter (fun e => entry_held H e = false) es -> strong_count p h' = strong_count p (sl_arcs s).
Proof.
  induction es as [|e es IH]; intros released s Hc Hp Hr Hb; cbn [sl_reap_loop].
  { exists (sl_arcs s). split; [|done]. cbn. rewrite Z.add_0_r. by destruct s. }
  apply Forall_cons in Hp as [He Hp]. pose proof (sum_bytes_nonneg es Hp). change (sum_bytes (e :: es)) with (sl_bytes e + sum_bytes es) in Hb.
  pose proof (Hc e ltac:(by left)) as Hce. rewrite !filter_cons. unfold sl_pinned. destruct (entry_held H e) eqn:Eh.
  - rewrite (proj2 (Z.ltb_lt _ _) Hce). destruct (IH released s) as (h' & E & Hn & Hs); [intros; apply Hc; by right|done..|lia|].
    exists h'. rewrite E. cbn. done.
  - rewrite (proj2 (Z.ltb_ge _ _) Hce). destruct (IH (released +! sl_bytes e) (sl_forget e s)) as (h' & E & Hn & Hs).
    + intros e' He'. specialize (Hc e' ltac:(by right)). revert Hc. rewrite forget_count. destruct (entry_held H e') eqn:Eh'; intros Hc; [|repeat case_decide; lia].
      rewrite decide_False; [lia|]. intros Ei. unfold entry_held, entry_id in *. rewrite Ei in Eh'. congruence.
    + done.
    + unfold sat_add, u64_max. lia.
    + rewrite sat_add_exact by (unfold u64_max; lia). lia.
    + exists h'. rewrite E, sat_add_exact by (unfold u64_max; lia). rewrite (decide_False (P := false = true)), (decide_True (P := false = false)) by done.
      change (sum_bytes (e :: ?es)) with (sl_bytes e + sum_bytes es). split; [f_equal; f_equal; lia|]. split; [done|]. intros p Hni. rewrite fmap_cons in Hni. rewrite Hs by set_solver. rewrite forget_count, decide_False by set_solver. lia.
Qed.

Lemma reap_loop_core H n fl s l dead : lru_core H n fl s l dead ->
  exists h', sl_reap_loop (sl_pinned_removed s) 0 s =
      (filter (fun e => entry_held H e = true) (sl_pinned_removed s), 0 + sum_bytes (filter (fun e => entry_held H e = false) (sl_pinned_removed s)), sl_set_arcs h' s) /\
    next_arc h' = next_arc (sl_arcs s) /\ forall p, arc_id p ∉ entry_id <$> filter (fun e => entry_held H e = false) (sl_pinned_removed s) -> strong_count p h' = strong_count p (sl_arcs s).
Proof.
  intros R. pose proof (core_nonneg _ _ _ _ _ _ R) as (N1 & N2 & N3). pose proof (lr_positive _ _ _ _ _ _ R) as P. pose proof (lr_size _ _ _ _ _ _ R). pose proof (lr_bound _ _ _ _ _ _ R).
  apply reap_loop_ok; [|rewrite Forall_forall in P |- *; intros e He%(core_removed_in _ _ _ _ _ _ R); apply P; set_solver|lia|lia].
  intros e He. pose proof (lr_counts _ _ _ _ _ _ R e ltac:(set_solver)) as Hc. apply held_of in Hc as [Hc _]. destruct (entry_held H e); [by apply Z.ltb_lt|by apply Z.ltb_ge].
Qed.

Lemma reap_core H n fl s l dead : lru_core H n fl s l dead ->
  lru_core H n fl (sl_reap_pinned_removed s) l [] /\ sl_order (sl_reap_pinned_removed s) = sl_order s /\
  sl_size (sl_reap_pinned_removed s) = lru_total H l + sum_bytes fl.
Proof.
  intros R. pose proof (reap_loop_core _ _ _ _ _ _ R) as (h' & Eloop & Hn & Hs). pose proof R as [R1 R2 R3 R4 [R5 R5'] R6 R7 R8 R9 R10 R11].
  apply Forall_app in R9 as [P1 P2]. apply Forall_app in P2 as [P2 P3].
  assert (Forall (fun e => 0 < sl_bytes e) (sl_pinned_removed s)) as P4 by (apply Forall_forall; intros e He; rewrite Forall_forall in P3; apply P3; by eapply core_removed_in).
  pose proof (sum_bytes_nonneg _ P1). pose proof (sum_bytes_nonneg _ P2). unfold sl_reap_pinned_removed. rewrite Eloop. clear Eloop.
  set (live := filter (fun e => entry_held H e = true) (sl_pinned_removed s)). set (gone := filter (fun e => entry_held H e = false) (sl_pinned_removed s)) in *.
  assert (sum_bytes (sl_pinned_removed s) = sum_bytes live + sum_bytes gone) as Esum by apply (sum_bytes_filter (entry_held H)).
  assert (live ≡ₚ filter (fun e => entry_held H e = true) (lru_retired l)) as Elive.
  { unfold live. rewrite R4, filter_app, list_filter_filter, (filter_false H dead R5'), app_nil_r.
    apply Permutation_refl', list_filter_iff. naive_solver. }
  assert (Forall (fun e => 0 < sl_bytes e) live) as P5 by (by apply positive_filter).
  assert (Forall (fun e => 0 < sl_bytes e) gone) as P6 by (by apply positive_filter).
  pose proof (sum_bytes_nonneg _ P5). pose proof (sum_bytes_nonneg _ P6).
  assert (sl_size s -! (0 + sum_bytes gone) = sum_bytes (lru_cached l).*2 + sum_bytes fl + sum_bytes live) as Esz by (rewrite sat_sub_exact; lia).
  rewrite Z.add_0_l in *.
  split; [|split; [done|]].
  - split; cbn; try done.
    + by rewrite app_nil_r.
    + by split; [apply list_subseteq_nil|].
    + by rewrite Hn.
    + intros e He. rewrite !elem_of_app in He. assert (e ∈ (lru_cached l).*2 ++ fl ++ sl_pinned_removed s) as Hin.
      { rewrite !elem_of_app. destruct He as [?|[?|[_ ?]%list_elem_of_filter]]; tauto. }
      rewrite Hs; [by apply R8|]. intros (e' & Ei & [Hu Hin']%list_elem_of_filter)%list_elem_of_fmap. assert ((e ∈ (lru_cached l).*2 \/ e ∈ fl) \/ e ∈ live) as [He'|He'] by tauto.
      * apply (core_removed_in _ _ _ _ _ _ R) in Hin'. eapply (nodup_ids_ne ((lru_cached l).*2 ++ fl) (lru_retired l) e e'); [by rewrite <- app_assoc|by apply elem_of_app|done|done].
      * apply list_elem_of_filter in He' as [Hh _]. unfold entry_held, entry_id in *. rewrite Ei in Hh. congruence.
    + rewrite !Forall_app. done.
    + rewrite Esz. lia.
  - cbn. rewrite Esz, Elive. unfold lru_total. lia.
Qed.

(** ** Retiring *)

Definition add_retired e l : LruSpec := mkLruSpec (lru_room l) (lru_cached l) (e :: lru_retired l).

Lemma move_retired es1 fl e es : es1 ++ (e :: fl) ++ es ≡ₚ es1 ++ fl ++ e :: es.
Proof. f_equiv. rewrite <- app_comm_cons. apply Permutation_middle. Qed.

Lemma retire_core H n fl e s l dead : lru_core H n (e :: fl) s l dead ->
  lru_core H n fl (sl_retire e s) (add_retired e l) dead /\ sl_order (sl_retire e s) = sl_order s.
Proof.
  intros R. pose proof (core_pinned _ _ _ _ _ _ R e ltac:(rewrite !elem_of_app; right; left; by left)) as Hp.
  pose proof (core_removed_in _ _ _ _ _ _ R) as Hrem. pose proof (core_nonneg _ _ _ _ _ _ R) as (N1 & N2 & N3). destruct R as [R1 R2 R3 R4 [R5 R5'] R6 R7 R8 R9 R10 R11].
  pose proof R6 as Hother. rewrite move_retired in R6, R7, R9. unfold sl_retire. rewrite Hp. change (sum_bytes (e :: fl)) with (sl_bytes e + sum_bytes fl) in *.
  assert (0 <= sum_bytes fl /\ 0 < sl_bytes e) as [N4 N5].
  { rewrite !Forall_app, Forall_cons in R9. destruct R9 as (_ & Hf & He & _). split; [by apply sum_bytes_nonneg|done]. }
  assert (dead ⊆ e :: lru_retired l) as Hd by (intros x Hx; right; by apply R5).
  destruct (entry_held H e) eqn:Eh; (split; [|done]); split; try done;
    cbn [sl_pinned_removed sl_set_removed sl_forget sl_set_arcs sl_set_size sl_size add_retired lru_retired lru_cached].
  - rewrite filter_cons, decide_True by done. rewrite R4. symmetry. apply Permutation_cons_append.
  - intros x Hx. apply R8. rewrite !elem_of_app, elem_of_cons in *. rewrite elem_of_nil in Hx. tauto.
  - rewrite sum_bytes_app. cbn. lia.
  - rewrite filter_cons, decide_False by congruence. done.
  - intros x Hx. change (sl_arcs _) with (sl_arcs (sl_forget e s)). rewrite forget_count, decide_False; [rewrite Z.sub_0_r; apply R8; rewrite !elem_of_app, elem_of_cons in *; tauto|].
    apply (nodup_ids_other (lru_cached l).*2 (fl ++ lru_retired l)); [done|]. rewrite !elem_of_app in *. naive_solver.
  - rewrite sat_sub_exact; lia.
  - unfold sat_sub. lia.
Qed.

Lemma without_keys key c : (without key c).*1 = filter (fun k => k <> key) c.*1.
Proof. induction c as [|[k e] c IH]; [done|]. unfold without in *. rewrite fmap_cons, !filter_cons. cbn [fst]. case_decide; [rewrite fmap_cons|]; by rewrite IH. Qed.
Lemma without_absent key c : key ∉ c.*1 -> without key c = c.
Proof.
  induction c as [|[k e] c IH]; intros Hk; [done|]. cbn in Hk. apply not_elem_of_cons in Hk as [Hne Hk]. unfold without in *. rewrite filter_cons. cbn [fst].
  by rewrite decide_True, IH.
Qed.
Lemma without_map key c : (list_to_map (without key c) : gmap CacheKey SimpleLruEntry) = delete key (list_to_map c).
Proof.
  induction c as [|[k e] c IH]; [symmetry; apply delete_empty|]. unfold without in *. rewrite filter_cons, list_to_map_cons. case_decide as E; cbn in E.
  - by rewrite list_to_map_cons, IH, delete_insert_ne.
  - destruct (decide (k = key)) as [->|]; [|done]. by rewrite IH, delete_insert_eq.
Qed.
Lemma without_perm key c e : NoDup c.*1 -> (list_to_map c : gmap CacheKey SimpleLruEntry) !! key = Some e -> c ≡ₚ (key, e) :: without key c.
Proof.
  induction c as [|[k e'] c IH]; intros Hnd He; [done|]. cbn in Hnd. apply NoDup_cons in Hnd as [Hk Hnd]. rewrite list_to_map_cons in He. unfold without in *. rewrite filter_cons.
  destruct (decide (k = key)) as [->|Hne].
  - rewrite lookup_insert_eq in He. simplify_eq. cbn [fst]. rewrite decide_False by tauto. change (filter (fun ke => ke.1 <> key) c) with (without key c). by rewrite (without_absent key c Hk).
  - rewrite lookup_insert_ne in He by done. rewrite decide_True by done. rewrite IH at 1 by done. apply Permutation_swap.
Qed.
Lemma without_values key c e : NoDup c.*1 -> (list_to_map c : gmap CacheKey SimpleLruEntry) !! key = Some e -> c.*2 ≡ₚ e :: (without key c).*2.
Proof. intros Hnd He. by rewrite (without_perm key c e Hnd He) at 1. Qed.

Lemma take_core H n s l dead key e : lru_core H n [] s l dead -> cached_entry key l = Some e ->
  lru_core H n [e] (sl_set_entries (delete key (sl_entries s)) s) (mkLruSpec (lru_room l) (without key (lru_cached l)) (lru_retired l)) dead.
Proof.
  intros [R1 R2 R3 R4 [R5 R5'] R6 R7 R8 R9 R10 R11] He. unfold cached_entry in He. pose proof (without_values key _ e R2 He) as Hv.
  assert ((lru_cached l).*2 ++ [] ++ lru_retired l ≡ₚ (without key (lru_cached l)).*2 ++ [e] ++ lru_retired l) as Hp by (rewrite Hv; cbn; apply Permutation_middle).
  rewrite Hp in R6, R7, R9. split; try done; cbn [lru_cached sl_set_entries sl_entries sl_size sl_pinned_removed].
  - rewrite without_keys. by apply NoDup_filter.
  - by rewrite without_map, R3.
  - intros x Hx. apply R8. rewrite Hv. cbn. rewrite !elem_of_app, !elem_of_cons in *. rewrite ?elem_of_app in *. rewrite elem_of_nil in Hx. tauto.
  - rewrite R10, Hv. cbn. fold (sum_bytes (without key (lru_cached l)).*2). lia.
Qed.

Lemma lookup_cached H n fl s l dead key : lru_core H n fl s l dead -> sl_entries s !! key = cached_entry key l.
Proof. intros R. by rewrite (lr_entries _ _ _ _ _ _ R). Qed.

Lemma remove_rel H n s l dead key : lru_rel H n s l dead -> lru_rel H n (sl_remove key s) (spec_remove key l) dead.
Proof.
  intros (R & Hwf & Ho). unfold sl_remove, spec_remove. rewrite (lookup_cached _ _ _ _ _ _ key R). destruct (cached_entry key l) as [e|] eqn:He; [|done].
  pose proof (take_core _ _ _ _ _ key e R He) as T. set (s1 := sl_set_entries _ s) in *.
  assert (lru_core H n [e] (sl_set_order (remove key (sl_order s)).2 s1) (mkLruSpec (lru_room l) (without key (lru_cached l)) (lru_retired l)) dead) as T1 by (destruct T; by split).
  destruct (retire_core _ _ _ _ _ _ _ T1) as [T2 Eo]. destruct (remove_keys (sl_order s) key Hwf) as (_ & Hi & _ & _ & Hw & _).
  split; [exact T2|]. cbn [s1 sl_set_entries sl_order sl_set_order] in *. rewrite Eo. cbn [lru_cached add_retired]. by rewrite without_keys, Hi, Ho.
Qed.

Lemma core_perm H n fl s room c es dead es' : es ≡ₚ es' -> lru_core H n fl s (mkLruSpec room c es) dead -> lru_core H n fl s (mkLruSpec room c es') dead.
Proof.
  intros Hp [R1 R2 R3 R4 [R5 R5'] R6 R7 R8 R9 R10 R11]. cbn [lru_retired lru_cached] in *. rewrite Hp in R4, R6, R7, R9. split; try done. cbn [lru_retired]. split; [|done].
  intros x Hx. rewrite <- Hp. by apply R5.
Qed.

Lemma clear_rel H n s l dead (iterate : gmap CacheKey SimpleLruEntry -> list (CacheKey * SimpleLruEntry)) : (forall m, iterate m ≡ₚ map_to_list m) ->
  lru_rel H n s l dead -> lru_rel H n (sl_remove_all iterate s) (spec_remove_all l) dead.
Proof.
  intros Hit (R & Hwf & Ho). unfold sl_remove_all. set (es := (iterate (sl_entries s)).*2).
  assert (es ≡ₚ (lru_cached l).*2) as Hes.
  { unfold es. rewrite Hit, (lr_entries _ _ _ _ _ _ R), map_to_list_to_map by apply R. done. }
  assert (lru_core H n es (sl_set_entries ∅ s) (mkLruSpec (lru_room l) [] (lru_retired l)) dead) as T.
  { destruct R as [R1 R2 R3 R4 R5 R6 R7 R8 R9 R10 R11]. rewrite <- Hes in R6, R7, R9. split; try done; cbn [lru_cached sl_set_entries sl_size sl_pinned_removed].
    - constructor.
    - intros x Hx. apply R8. by rewrite <- Hes.
    - rewrite R10, Hes. cbn. lia. }
  clear Hwf Ho. assert (forall s0 es retired, lru_core H n es s0 (mkLruSpec (lru_room l) [] retired) dead ->
    exists retired', retired' ≡ₚ es ++ retired /\ lru_core H n [] (foldl (fun s e => sl_retire e s) s0 es) (mkLruSpec (lru_room l) [] retired') dead) as Hfold.
  { clear. intros s0 es. revert s0. induction es as [|e es IH]; intros s0 retired T; [by exists retired|]. cbn [foldl]. apply retire_core in T as [T _].
    destruct (IH _ _ T) as (r' & Hp & T'). exists r'. split; [|done]. rewrite Hp. cbn. symmetry. apply Permutation_middle. }
  destruct (Hfold _ _ _ T) as (r' & Hp & T'). destruct (clear_keys (sl_order (foldl (fun s e => sl_retire e s) (sl_set_entries ∅ s) es))) as (Hi & _ & _ & Hw%wf_point_wf).
  apply (core_perm _ _ _ _ _ _ _ _ ((lru_cached l).*2 ++ lru_retired l)) in T'; [|by rewrite Hp, Hes]. split; [destruct T'; by split|]. done.
Qed.

(** ** Eviction *)

Lemma shed_none H x c : x <= 0 -> shed H x c = c.
Proof. intros Hx. induction c as [|ke c IH]; [done|]. cbn. rewrite (proj2 (Z.ltb_ge _ _)) by done. cbn. by rewrite IH. Qed.
Lemma shed_held H x c1 c2 : Forall (fun ke => entry_held H ke.2 = true) c1 -> shed H x (c1 ++ c2) = c1 ++ shed H x c2.
Proof. induction 1 as [|ke c1 He _ IH]; [done|]. cbn. rewrite He, andb_false_r, IH. done. Qed.

(** The search from the tail. *)
Lemma victim_split H n s l dead : lru_rel H n s l dead ->
  match sl_victim s with
  | Some key => exists c1 e c2, reverse (lru_cached l) = c1 ++ (key, e) :: c2 /\ entry_held H e = false /\ Forall (fun ke => entry_held H ke.2 = true) c1
  | None => Forall (fun ke => entry_held H ke.2 = true) (reverse (lru_cached l))
  end.
Proof.
  intros (R & Hwf & Ho). assert (iter_rev (sl_order s) = (reverse (lru_cached l)).*1) as Er.
  { destruct Hwf as (ins & acc & key & Hok). rewrite (ok_iter_rev _ _ _ _ Hok), <- (ok_iter _ _ _ _ Hok), Ho. by rewrite fmap_reverse. }
  assert (forall key e, (key, e) ∈ reverse (lru_cached l) -> sl_evictable key s = negb (entry_held H e)) as Hev.
  { intros key e He. rewrite elem_of_reverse in He. unfold sl_evictable. rewrite (lr_entries _ _ _ _ _ _ R).
    rewrite (elem_of_list_to_map_1 _ key e (lr_keys _ _ _ _ _ _ R) He). eapply held_of, (lr_counts _ _ _ _ _ _ R). apply elem_of_app. left. by apply (list_elem_of_fmap_2 snd _ (key, e)). }
  unfold sl_victim. rewrite Er. destruct (list_find _ _) as [[i key]|] eqn:Ef; cbn.
  - apply list_find_Some in Ef as (Hi & He & Hb). rewrite list_lookup_fmap in Hi. destruct (reverse (lru_cached l) !! i) as [[k e]|] eqn:Ei; [|done]. cbn in Hi. simplify_eq.
    exists (take i (reverse (lru_cached l))), e, (drop (S i) (reverse (lru_cached l))). split_and!; [by rewrite take_drop_middle| |].
    + rewrite (Hev key e) in He by (by eapply list_elem_of_lookup_2). by destruct (entry_held H e).
    + apply Forall_lookup. intros j [k' e'] Hj. apply lookup_take_Some in Hj as [Hj Hlt]. assert ((reverse (lru_cached l)).*1 !! j = Some k') as Hk by (by rewrite list_lookup_fmap, Hj).
      specialize (Hb j k' Hk Hlt). rewrite (Hev k' e') in Hb by (by eapply list_elem_of_lookup_2). cbn. by destruct (entry_held H e').
  - apply list_find_None in Ef. apply Forall_forall. intros [k e] He. rewrite Forall_forall in Ef. specialize (Ef k). rewrite (Hev k e He) in Ef. cbn. destruct (entry_held H e); [done|].
    exfalso. apply Ef; [|done]. by apply (list_elem_of_fmap_2 fst _ (k, e)).
Qed.

Lemma evict_one_rel H n s l dead key e : lru_rel H n s l dead -> cached_entry key l = Some e ->
  lru_rel H n (sl_evict_one key s) (mkLruSpec (lru_room l) (without key (lru_cached l)) (lru_retired l)) dead /\ sl_size (sl_evict_one key s) = sl_size s - sl_bytes e.
Proof.
  intros (R & Hwf & Ho) He. pose proof (take_core _ _ _ _ _ key e R He) as T. unfold sl_evict_one. cbn [sl_entries sl_set_order]. rewrite (lookup_cached _ _ _ _ _ _ key R), He.
  destruct (remove_keys (sl_order s) key Hwf) as (_ & Hi & _ & _ & Hw & _). pose proof (core_nonneg _ _ _ _ _ _ T) as (N1 & N2 & N3). pose proof (core_removed_in _ _ _ _ _ _ T) as Hrem.
  destruct T as [R1 R2 R3 R4 R5 R6 R7 R8 R9 R10 R11]. cbn [lru_cached lru_retired sl_set_entries sl_size sl_pinned_removed sl_arcs sl_entries] in *.
  change (sum_bytes [e]) with (sl_bytes e + 0) in R10, N2. assert (sl_size s -! sl_bytes e = sl_size s - sl_bytes e) as Es by (rewrite sat_sub_exact; lia).
  change ([e] ++ ?r) with (e :: r) in *. pose proof R6 as Hother. rewrite <- (Permutation_middle (without key (lru_cached l)).*2 (lru_retired l) e) in R9, R7, R6.
  split; [|exact Es]. split; [|split; [exact Hw|]; change (iter (remove key (sl_order s)).2 = (without key (lru_cached l)).*1); by rewrite without_keys, Hi, Ho]. split; try done;
    cbn [lru_cached lru_retired sl_forget sl_set_arcs sl_set_size sl_set_entries sl_set_order sl_size sl_pinned_removed sl_arcs].
  - rewrite fmap_cons in R6. apply NoDup_cons in R6 as [_ R6]. exact R6.
  - apply Forall_app in R7 as [R7 R7']. apply Forall_app. split; [done|]. rewrite fmap_cons in R7'. by apply Forall_cons in R7' as [_ ?].
  - intros x Hx. change (arc_drop (sl_value e) (sl_arcs s)) with (sl_arcs (sl_forget e s)). rewrite forget_count, decide_False.
    + rewrite Z.sub_0_r. apply R8. rewrite !elem_of_app in *. rewrite elem_of_cons. rewrite elem_of_nil in Hx. tauto.
    + apply (nodup_ids_other (without key (lru_cached l)).*2 (lru_retired l)); [done|]. rewrite !elem_of_app in *. rewrite elem_of_nil in Hx. naive_solver.
  - by apply Forall_cons in R9 as [_ ?].
  - rewrite Es, R10. cbn. lia.
  - rewrite Es. lia.
Qed.

Lemma evict_loop_rel H n fuel : forall s l, (length (lru_cached l) < fuel)%nat -> lru_rel H n s l [] -> sl_size s = lru_total H l ->
  lru_rel H n (sl_evict_loop fuel s) (spec_evict H l) [].
Proof.
  induction fuel as [|fuel IH]; intros s l Hf R Hs; [lia|]. cbn [sl_evict_loop]. pose proof R as (R0 & _). rewrite (lr_room _ _ _ _ _ _ R0), Hs. destruct (Z.ltb_spec (lru_room l) (lru_total H l)) as [Hlt|Hge].
  - pose proof (victim_split H n s l [] R) as Hv. destruct (sl_victim s) as [key|].
    + destruct Hv as (c1 & e & c2 & Er & He & Hc1). apply (f_equal reverse) in Er. rewrite reverse_involutive, reverse_app, reverse_cons, <- app_assoc in Er. cbn in Er.
      assert (without key (lru_cached l) = reverse c2 ++ reverse c1) as Ew.
      { pose proof (lr_keys _ _ _ _ _ _ R0) as Hnd. rewrite Er in Hnd |- *. rewrite fmap_app, fmap_cons in Hnd. unfold without. rewrite filter_app, filter_cons. cbn [fst]. rewrite decide_False by tauto.
        change (without key (reverse c2) ++ without key (reverse c1) = reverse c2 ++ reverse c1). rewrite <- Permutation_middle in Hnd. apply NoDup_cons in Hnd as [Hk _]. rewrite !without_absent by set_solver. done. }
      assert (cached_entry key l = Some e) as Ec.
      { unfold cached_entry. apply elem_of_list_to_map_1; [apply R0|]. rewrite Er. set_solver. }
      destruct (evict_one_rel H n s l [] key e R Ec) as [R' Es']. rewrite Ew in R'. set (l' := mkLruSpec _ _ _) in R'.
      assert (lru_total H l' = lru_total H l - sl_bytes e) as Et.
      { unfold lru_total, l'. cbn [lru_cached lru_retired]. rewrite Er, !fmap_app, fmap_cons, !sum_bytes_app. cbn [snd].
        change (sum_bytes (e :: (reverse c1).*2)) with (sl_bytes e + sum_bytes (reverse c1).*2). lia. }
      assert (spec_evict H l' = spec_evict H l) as <-.
      { unfold spec_evict. change (lru_room l') with (lru_room l). change (lru_retired l') with (lru_retired l). rewrite Et. f_equal. f_equal. change (lru_cached l') with (reverse c2 ++ reverse c1).
        rewrite Er, !reverse_app, reverse_cons, !reverse_involutive, <- app_assoc. cbn [app].
        rewrite !shed_held by done. f_equal. cbn [shed snd]. rewrite (proj2 (Z.ltb_lt _ _)), He by lia. cbn. f_equal. lia. }
      apply IH; [|done|by rewrite Es', Et, Hs]. unfold l'. cbn. rewrite Er in Hf. rewrite length_app in *. cbn in Hf. lia.
    + rewrite <- (app_nil_r (reverse (lru_cached l))) in Hv. unfold spec_evict. rewrite <- (app_nil_r (reverse (lru_cached l))), shed_held, app_nil_r, reverse_involutive by (by rewrite app_nil_r in Hv).
      by destruct l.
  - unfold spec_evict. rewrite shed_none, reverse_involutive by lia. by destruct l.
Qed.

Lemma evict_rel H n s l dead : lru_rel H n s l dead -> lru_rel H n (sl_evict_unpinned s) (spec_evict H l) [].
Proof.
  intros (R & Hwf & Ho). destruct (reap_core _ _ _ _ _ _ R) as (R' & Eo & Es). unfold sl_evict_unpinned. apply evict_loop_rel.
  - rewrite (lr_entries _ _ _ _ _ _ R'), map_size_list_to_map by apply R'. lia.
  - split; [done|]. by rewrite Eo.
  - rewrite Es. cbn. lia.
Qed.

(** ** Pointers from outside *)

(** A value the cache has no entry of. *)
Definition foreign (p : Arc) l : Prop := arc_id p ∉ entry_id <$> (lru_cached l).*2 ++ lru_retired l.

Lemma reap_foreign H n fl s l dead p : lru_core H n fl s l dead -> foreign p l ->
  strong_count p (sl_arcs (sl_reap_pinned_removed s)) = strong_count p (sl_arcs s) /\ next_arc (sl_arcs (sl_reap_pinned_removed s)) = next_arc (sl_arcs s).
Proof.
  intros R Hp. destruct (reap_loop_core _ _ _ _ _ _ R) as (h' & E & Hn & Hs). unfold sl_reap_pinned_removed. rewrite E. split; [|done]. apply Hs.
  intros (e & Ei & [_ He]%list_elem_of_filter)%list_elem_of_fmap. apply Hp. rewrite Ei. apply list_elem_of_fmap_2, elem_of_app. right. by eapply core_removed_in.
Qed.
Lemma remove_foreign H n s l dead key p : lru_rel H n s l dead -> foreign p l ->
  strong_count p (sl_arcs (sl_remove key s)) = strong_count p (sl_arcs s) /\ next_arc (sl_arcs (sl_remove key s)) = next_arc (sl_arcs s).
Proof.
  intros [R _] Hp. unfold sl_remove. rewrite (lookup_cached _ _ _ _ _ _ key R). destruct (cached_entry key l) as [e|] eqn:He; [|done].
  unfold sl_retire. case_match; [done|]. split; [|done]. rewrite forget_count, decide_False; [cbn; lia|]. intros Ei. apply Hp. rewrite Ei.
  apply list_elem_of_fmap_2, elem_of_app. left. rewrite (without_values key _ e (lr_keys _ _ _ _ _ _ R) He). by left.
Qed.

Lemma spec_remove_values key l : NoDup (lru_cached l).*1 -> (lru_cached (spec_remove key l)).*2 ++ lru_retired (spec_remove key l) ≡ₚ (lru_cached l).*2 ++ lru_retired l.
Proof.
  intros Hnd. unfold spec_remove. destruct (cached_entry key l) as [e|] eqn:He; [|done]. cbn. rewrite (without_values key _ e Hnd He). cbn. symmetry. apply Permutation_middle.
Qed.
Lemma spec_remove_absent key l : key ∉ (lru_cached (spec_remove key l)).*1.
Proof.
  unfold spec_remove. destruct (cached_entry key l) as [e|] eqn:He; cbn.
  - rewrite without_keys, list_elem_of_filter. tauto.
  - by apply not_elem_of_list_to_map.
Qed.

Lemma insert_rel H n s l dead key p b : lru_rel H n s l dead -> foreign p l -> arc_id p < next_arc (sl_arcs s) ->
  strong_count p (sl_arcs s) = 1 + holds (arc_id p) H -> 0 < b -> n + b < 2 ^ 64 ->
  if lru_room l <? b then sl_insert key p b s = Returns (false, sl_set_arcs (arc_drop p (sl_arcs s)) s) /\ spec_insert H key (mkLruEntry p b) l = (false, l)
  else exists s' l', sl_insert key p b s = Returns (true, s') /\ spec_insert H key (mkLruEntry p b) l = (true, l') /\ lru_rel H (n + b) s' l' [].
Proof.
  intros R Hf Hlt Hc Hb Hn. unfold sl_insert, spec_insert. rewrite (proj2 (Z.leb_gt _ _) Hb). pose proof R as (R0 & Hwf & Ho). rewrite (lr_room _ _ _ _ _ _ R0). cbn [sl_bytes].
  destruct (lru_room l <? b) eqn:Eb; [done|]. eexists _, _. split; [reflexivity|]. split; [reflexivity|]. eapply (evict_rel _ _ _ _ []).
  destruct (reap_core _ _ _ _ _ _ R0) as (R1 & Eo & _). destruct (reap_foreign _ _ _ _ _ _ p R0 Hf) as [F1 F2].
  assert (lru_rel H n (sl_reap_pinned_removed s) l []) as R2 by (split; [done|]; by rewrite Eo). set (s1 := sl_reap_pinned_removed s) in *.
  destruct (remove_foreign _ _ _ _ _ key p R2 Hf) as [F3 F4]. apply (remove_rel _ _ _ _ _ key) in R2. set (s2 := sl_remove key s1) in *.
  pose proof (spec_remove_values key l (lr_keys _ _ _ _ _ _ R0)) as Hv. pose proof (spec_remove_absent key l) as Hk. set (l2 := spec_remove key l) in *. unfold foreign in Hf. rewrite <- Hv in Hf.
  destruct R2 as (R2 & Hwf2 & Ho2). pose proof (core_nonneg _ _ _ _ _ _ R2) as (N1 & _ & N3). destruct (push_front_keys (sl_order s2) key Hwf2) as (P1 & _ & P2).
  destruct R2 as [Q1 Q2 Q3 Q4 Q5 Q6 Q7 Q8 Q9 Q10 Q11].
  assert (wrap64 (sl_size s2 + b) = sl_size s2 + b) as Ew by (apply wrap64_small; rewrite Q10 in *; cbn in *; lia).
  split; [split; try done; cbn [lru_cached lru_retired sl_set_order sl_set_size sl_set_entries sl_size sl_pinned_removed sl_arcs sl_entries]; rewrite ?fmap_cons; cbn [fst snd app] in *|].
  - by constructor.
  - rewrite Q3. done.
  - constructor; [done|exact Q6].
  - apply Forall_app in Q7 as [Q7 Q7']. apply Forall_app. split; [done|]. constructor; [|done]. unfold entry_id. cbn. by rewrite F4, F2.
  - intros e. rewrite elem_of_cons. intros [->|He]; [|by apply Q8]. cbn. unfold entry_id. cbn. by rewrite F3, F1.
  - by constructor.
  - rewrite Ew, Q10. cbn. fold (sum_bytes (lru_cached l2).*2). lia.
  - rewrite Ew. lia.
  - change (wf (push_front key (sl_order s2)) /\ iter (push_front key (sl_order s2)) = key :: (lru_cached l2).*1). split; [done|]. rewrite P1, Ho2, filter_ne_notin by done. done.
Qed.

Lemma set_same_arcs s : sl_set_arcs (sl_arcs s) s = s.
Proof. by destruct s. Qed.

Lemma rel_holders H H' n s l dead : H ≡ₚ H' -> lru_rel H n s l dead -> lru_rel H' n s l dead.
Proof.
  intros Hp (R & Ho). split; [|done]. rewrite <- (set_same_arcs s). pose proof (lr_fresh _ _ _ _ _ _ R) as Hf. apply Forall_app in Hf as [Hf _].
  apply (core_reframe _ _ _ _ _ _ R); [by rewrite <- Hp|done|intros e _; by rewrite Hp|]. intros e _. unfold entry_held. apply bool_decide_ext. by rewrite Hp.
Qed.

Lemma alter_count (f : Z -> Z) p q h : 0 < strong_count p h ->
  default 0 (alter f (arc_id q) (counts h) !! arc_id p) = if decide (arc_id p = arc_id q) then f (strong_count p h) else strong_count p h.
Proof.
  unfold strong_count. intros Hc. case_decide as E; [|by rewrite lookup_alter_ne].
  rewrite <- E, lookup_alter_eq in *. by destruct (counts h !! arc_id p).
Qed.
Lemma core_count_pos H n fl s l dead e : lru_core H n fl s l dead -> e ∈ (lru_cached l).*2 ++ fl ++ sl_pinned_removed s -> 0 < strong_count (sl_value e) (sl_arcs s).
Proof. intros R He. rewrite (lr_counts _ _ _ _ _ _ R e He). pose proof (holds_nonneg (entry_id e) H). lia. Qed.

(** A reader takes a pointer to a cached value. *)
Lemma clone_rel H n s l dead e : lru_rel H n s l dead -> e ∈ (lru_cached l).*2 ->
  lru_rel (entry_id e :: H) n (sl_set_arcs (arc_clone (sl_value e) (sl_arcs s)) s) l dead.
Proof.
  intros (R & Ho) He. split; [|done]. pose proof (lr_fresh _ _ _ _ _ _ R) as Hf. rewrite fmap_app, Forall_app, Forall_app in Hf. destruct Hf as (Hf1 & Hf2 & _).
  apply (core_reframe _ _ _ _ _ _ R); [|done| |].
  - constructor; [|done]. rewrite Forall_forall in Hf2. apply Hf2. by apply list_elem_of_fmap_2.
  - intros x Hx. rewrite holds_cons. unfold strong_count at 1. cbn [arc_clone counts]. rewrite alter_count by (by eapply core_count_pos). unfold entry_id.
    destruct (decide (arc_id (sl_value x) = arc_id (sl_value e))) as [E|E]; [rewrite decide_True by done|rewrite decide_False by congruence]; lia.
  - intros x Hx. unfold entry_held. apply bool_decide_ext. rewrite elem_of_cons. split; [|tauto]. intros [Ei|?]; [|done]. exfalso.
    eapply (nodup_ids_ne (lru_cached l).*2 (lru_retired l) e x); [apply R|done|done|done].
Qed.

Lemma filter_split (P Q : SimpleLruEntry -> bool) es : (forall e, Q e = true -> P e = true) ->
  filter (fun e => P e = true) es ≡ₚ filter (fun e => Q e = true) es ++ filter (fun e => P e && negb (Q e) = true) es.
Proof.
  intros Hqp. induction es as [|e es IH]; [done|]. rewrite !filter_cons. specialize (Hqp e). destruct (P e), (Q e); cbn; repeat case_decide; try done; try (by destruct (Hqp eq_refl)).
  - cbn. by rewrite IH.
  - rewrite IH. apply Permutation_middle.
Qed.

(** A pointer from outside goes; what it kept alive may be dead now. *)
Lemma drop_rel H n s l dead p : lru_rel (arc_id p :: H) n s l dead -> exists dead', lru_rel H n (sl_set_arcs (arc_drop p (sl_arcs s)) s) l dead'.
Proof.
  intros (R & Ho). exists (dead ++ filter (fun e => entry_held (arc_id p :: H) e && negb (entry_held H e) = true) (lru_retired l)). split; [|done].
  assert (forall e, entry_held H e = true -> entry_held (arc_id p :: H) e = true) as Hmono.
  { unfold entry_held. intros e He%bool_decide_eq_true. apply bool_decide_eq_true. by right. }
  pose proof (fun e => core_count_pos _ _ _ _ _ _ e R) as Hpos. destruct R as [R1 R2 R3 R4 [R5 R5'] R6 R7 R8 R9 R10 R11].
  split; try done; cbn [sl_set_arcs sl_pinned_removed sl_arcs].
  - rewrite R4, (filter_split _ (entry_held H)) by done. rewrite <- app_assoc. f_equiv. apply Permutation_app_comm.
  - split.
    + intros e [He|[_ He]%list_elem_of_filter]%elem_of_app; [by apply R5|done].
    + apply Forall_app. split.
      * eapply Forall_impl; [exact R5'|]. intros e He. cbn beta in *. pose proof (Hmono e) as Hm. destruct (entry_held H e); [|done]. specialize (Hm eq_refl). congruence.
      * apply Forall_forall. intros e [He _]%list_elem_of_filter. apply andb_prop in He as [_ He]. by apply negb_true_iff in He.
  - cbn in R7. by apply Forall_cons in R7 as [_ R7].
  - intros e He. unfold strong_count. cbn [arc_drop counts]. rewrite alter_count, R8, holds_cons by (by auto). unfold entry_id.
    destruct (decide (arc_id (sl_value e) = arc_id p)) as [E|E]; [rewrite decide_True by done|rewrite decide_False by congruence]; lia.
Qed.

(** A new value. *)
Lemma new_rel H n s l dead v : lru_rel H n s l dead ->
  let '(p, h) := arc_alloc v (sl_arcs s) in
  lru_rel H n (sl_set_arcs h s) l dead /\ foreign p l /\ arc_id p < next_arc h /\ strong_count p h = 1 /\ arc_id p = next_arc (sl_arcs s) /\ arc_id p ∉ H.
Proof.
  intros (R & Ho). cbn. pose proof (lr_fresh _ _ _ _ _ _ R) as Hf. apply Forall_app in Hf as [Hf1 Hf2]. cbn in Hf2.
  assert (forall i, i ∈ H \/ i ∈ entry_id <$> (lru_cached l).*2 ++ lru_retired l -> i <> next_arc (sl_arcs s)) as Hne.
  { intros i Hi ->. rewrite Forall_forall in Hf1, Hf2. destruct Hi as [Hi|Hi]; [specialize (Hf1 _ Hi)|specialize (Hf2 _ Hi)]; lia. }
  split_and!.
  - split; [|done]. apply (core_reframe _ _ _ _ _ _ R); cbn; [eapply Forall_impl; [exact Hf1|]; cbn; lia|lia| |done].
    intros e He. f_equal. unfold strong_count. cbn. rewrite lookup_insert_ne; [done|]. intros E. apply (Hne (entry_id e)); [|done].
    right. rewrite elem_of_app in He. apply list_elem_of_fmap_2, elem_of_app. destruct He as [?|He]; [by left|right]. by eapply core_removed_in.
  - intros Hi. apply (Hne (next_arc (sl_arcs s))); [by right|done].
  - lia.
  - unfold strong_count. cbn. by rewrite lookup_insert_eq.
  - done.
  - intros Hi. apply (Hne (next_arc (sl_arcs s))); [by left|done].
Qed.

Lemma holds_absent i H : i ∉ H -> holds i H = 0.
Proof. intros Hi. pose proof (holds_pos i H). pose proof (holds_nonneg i H). destruct (decide (0 < holds i H)); [tauto|lia]. Qed.

(** Counts of a foreign value are of no concern to the cache. *)
Lemma foreign_rel H H' n s l dead p h : lru_rel H n s l dead -> foreign p l -> next_arc h = next_arc (sl_arcs s) -> Forall (fun i => i < next_arc h) H' ->
  (forall q, arc_id q <> arc_id p -> strong_count q h = strong_count q (sl_arcs s)) -> (forall i, i <> arc_id p -> holds i H' = holds i H) ->
  lru_rel H' n (sl_set_arcs h s) l dead.
Proof.
  intros (R & Ho) Hp Hn Hf Hc Hh. split; [|done].
  assert (forall e, e ∈ (lru_cached l).*2 ++ lru_retired l -> arc_id (sl_value e) <> arc_id p) as Hne.
  { intros e He E. apply Hp. rewrite <- E. change (arc_id (sl_value e)) with (entry_id e). by apply list_elem_of_fmap_2. }
  apply (core_reframe _ _ _ _ _ _ R); [done|lia| |].
  - intros e He. rewrite Hc, Hh; [done|..]; apply Hne; rewrite elem_of_app in He |- *; (destruct He as [?|He]; [by left|right; by eapply core_removed_in]).
  - intros e He. unfold entry_held. apply bool_decide_ext. rewrite <- !holds_pos, Hh; [done|]. apply Hne, elem_of_app. by right.
Qed.

(** ** Histories *)

Inductive lru_op :=
| LInsert (key : CacheKey) (value : bytes) (size : Z)
| LZeroInsert (key : CacheKey) (value : bytes) (size : Z)
| LInsertPinned (key : CacheKey) (value : bytes) (size : Z)
| LLookup (key : CacheKey)
| LAcquire (key : CacheKey)
| LRelease (i : nat)
| LDrop (i : nat)
| LRemove (key : CacheKey)
| LRemoveAll
| LSetCapacity (capacity : Z)
| LSize.
Inductive lru_answer := LDone | LValue (v : option bytes) | LHandle (v : option bytes) | LBytes (n : Z).

Definition op_bytes (op : lru_op) : Z := match op with LInsert _ _ b | LZeroInsert _ _ b | LInsertPinned _ _ b => Z.max 0 b | _ => 0 end.

(** The handles that are out, and the cache. *)
Section histories.
Context (iterate : gmap CacheKey SimpleLruEntry -> list (CacheKey * SimpleLruEntry)).
Implicit Types (hs : list (CacheKey * Arc)).

Definition lru_step (op : lru_op) (st : list (CacheKey * Arc) * SimpleLruInner) : outcome (lru_answer * (list (CacheKey * Arc) * SimpleLruInner)) :=
  let '(hs, s) := st in
  match op with
  | LInsert key v b => match simple_lru_insert key v b s with Panics => Panics | Returns s => Returns (LDone, (hs, s)) end
  | LZeroInsert key v b => match zero_copy_insert key v b s with Panics => Panics | Returns s => Returns (LDone, (hs, s)) end
  | LInsertPinned key v b =>
      match zero_copy_insert_pinned key v b s with
      | Panics => Panics
      | Returns (h, s) => Returns (LHandle ((fun h => arc_value h.2) <$> h), (option_list h ++ hs, s))
      end
  | LLookup key => let '(v, s) := simple_lru_lookup key s in Returns (LValue v, (hs, s))
  | LAcquire key => let '(h, s) := zero_copy_acquire key s in Returns (LHandle ((fun h => arc_value h.2) <$> h), (option_list h ++ hs, s))
  | LRelease i => match hs !! i with None => Returns (LDone, st) | Some h => Returns (LDone, (delete i hs, zero_copy_release h s)) end
  | LDrop i => match hs !! i with None => Returns (LDone, st) | Some h => Returns (LDone, (delete i hs, sl_set_arcs (arc_drop h.2 (sl_arcs s)) s)) end
  | LRemove key => Returns (LDone, (hs, sl_remove key s))
  | LRemoveAll => Returns (LDone, (hs, sl_remove_all iterate s))
  | LSetCapacity c => match sl_set_capacity c s with Panics => Panics | Returns s => Returns (LDone, (hs, s)) end
  | LSize => let '(n, s) := sl_current_size s in Returns (LBytes n, (hs, s))
  end.

Definition handle_ids hs : list Z := (fun h => arc_id h.2) <$> hs.
Definition spec_step (op : lru_op) (st : list (CacheKey * Arc) * Z * LruSpec) : outcome (lru_answer * (list (CacheKey * Arc) * Z * LruSpec)) :=
  let '(hs, next, l) := st in let H := handle_ids hs in
  match op with
  | LInsert key v b => if b <=? 0 then Panics else Returns (LDone, (hs, next + 1, (spec_insert H key (mkLruEntry (mkArc next v) b) l).2))
  | LZeroInsert key v b => if b <=? 0 then Panics else Returns (LDone, (hs, next + 1, (spec_insert (next :: H) key (mkLruEntry (mkArc next v) b) l).2))
  | LInsertPinned key v b =>
      if b <=? 0 then Panics
      else let '(inserted, l) := spec_insert (next :: H) key (mkLruEntry (mkArc next v) b) l in
        if inserted then Returns (LHandle (Some v), ((key, mkArc next v) :: hs, next + 1, l)) else Returns (LHandle None, (hs, next + 1, l))
  | LLookup key => let '(p, l) := spec_lookup key l in Returns (LValue (arc_value <$> p), (hs, next, l))
  | LAcquire key =>
      let '(p, l) := spec_lookup key l in
      Returns (LHandle (arc_value <$> p), (match p with Some p => (key, p) :: hs | None => hs end, next, l))
  | LRelease i => match hs !! i with None => Returns (LDone, st) | Some _ => Returns (LDone, (delete i hs, next, spec_evict (handle_ids (delete i hs)) l)) end
  | LDrop i => Returns (LDone, (delete i hs, next, l))
  | LRemove key => Returns (LDone, (hs, next, spec_remove key l))
  | LRemoveAll => Returns (LDone, (hs, next, spec_remove_all l))
  | LSetCapacity c => if c <=? 0 then Panics else Returns (LDone, (hs, next, spec_set_capacity H c l))
  | LSize => Returns (LBytes (lru_total H l), (hs, next, l))
  end.

(** A panic ends a history. *)
Fixpoint run_steps {St : Type} (step : lru_op -> St -> outcome (lru_answer * St)) (ops : list lru_op) (st : St) : list lru_answer * option St :=
  match ops with
  | [] => ([], Some st)
  | op :: ops => match step op st with Panics => ([], None) | Returns (a, st) => let '(answers, end_) := run_steps step ops st in (a :: answers, end_) end
  end.

Definition lru_states n (st : list (CacheKey * Arc) * SimpleLruInner) (sp : list (CacheKey * Arc) * Z * LruSpec) : Prop :=
  sp.1.1 = st.1 /\ sp.1.2 = next_arc (sl_arcs st.2) /\ exists dead, lru_rel (handle_ids st.1) n st.2 sp.2 dead.

(** The numbers of new values. *)
Lemma reap_next s : next_arc (sl_arcs (sl_reap_pinned_removed s)) = next_arc (sl_arcs s).
Proof.
  unfold sl_reap_pinned_removed. generalize (sl_pinned_removed s), 0. intros es. revert s. induction es as [|e es IH]; intros s released; [done|]. cbn [sl_reap_loop].
  destruct (sl_pinned e s); [|apply (IH (sl_forget e s))]. specialize (IH s released). by destruct (sl_reap_loop es released s) as [[kept r] s'].
Qed.
Lemma retire_next e s : next_arc (sl_arcs (sl_retire e s)) = next_arc (sl_arcs s).
Proof. unfold sl_retire. by case_match. Qed.
Lemma remove_next key s : next_arc (sl_arcs (sl_remove key s)) = next_arc (sl_arcs s).
Proof. unfold sl_remove. case_match; [|done]. by rewrite retire_next. Qed.
Lemma evict_next s : next_arc (sl_arcs (sl_evict_unpinned s)) = next_arc (sl_arcs s).
Proof.
  unfold sl_evict_unpinned. etrans; [|apply reap_next]. generalize (sl_reap_pinned_removed s). intros s0. generalize (S (size (sl_entries s0))). intros fuel. revert s0.
  induction fuel as [|fuel IH]; intros s0; [done|]. cbn [sl_evict_loop]. destruct (_ <? _); [|done]. destruct (sl_victim s0); [|done]. rewrite IH. unfold sl_evict_one. by case_match.
Qed.
Lemma remove_all_next s : next_arc (sl_arcs (sl_remove_all iterate s)) = next_arc (sl_arcs s).
Proof.
  unfold sl_remove_all. cbn [sl_set_order sl_arcs]. generalize ((iterate (sl_entries s)).*2). intros es. change (sl_arcs s) with (sl_arcs (sl_set_entries ∅ s)). generalize (sl_set_entries ∅ s).
  induction es as [|e es IH]; intros s0; [done|]. cbn [foldl]. by rewrite IH, retire_next.
Qed.

Lemma insert_next key p b s r : sl_insert key p b s = Returns r -> next_arc (sl_arcs r.2) = next_arc (sl_arcs s).
Proof. unfold sl_insert. repeat case_match; intros [= <-]; [done|]. cbn [snd]. rewrite evict_next. cbn. by rewrite remove_next, reap_next. Qed.

Lemma delete_ids hs i h : hs !! i = Some h -> handle_ids hs ≡ₚ arc_id h.2 :: handle_ids (delete i hs).
Proof. intros Hi. unfold handle_ids. rewrite (delete_Permutation hs i h Hi) at 1. done. Qed.

Lemma lookup_rel H n s l dead key : lru_rel H n s l dead ->
  (sl_lookup key s).1 = (spec_lookup key l).1 /\ next_arc (sl_arcs (sl_lookup key s).2) = next_arc (sl_arcs s) /\
  lru_rel (match (spec_lookup key l).1 with Some p => arc_id p :: H | None => H end) n (sl_lookup key s).2 (spec_lookup key l).2 dead.
Proof.
  intros R. pose proof R as (R0 & Hwf & Ho). unfold sl_lookup, spec_lookup. rewrite (lookup_cached _ _ _ _ _ _ key R0). destruct (cached_entry key l) as [e|] eqn:He; [|done].
  split; [done|]. split; [done|]. cbn [fst snd]. assert (e ∈ (lru_cached l).*2) as Hin.
  { rewrite (without_values key _ e (lr_keys _ _ _ _ _ _ R0) He). by left. }
  apply (clone_rel _ _ _ _ _ e R) in Hin as (R1 & _). pose proof (without_perm key _ e (lr_keys _ _ _ _ _ _ R0) He) as Hp. pose proof (without_map key (lru_cached l)) as Hm.
  destruct (push_front_keys (sl_order s) key Hwf) as (P1 & _ & P2). split; [|split; [exact P2|]].
  - destruct R1 as [Q1 Q2 Q3 Q4 Q5 Q6 Q7 Q8 Q9 Q10 Q11]. rewrite Hp in Q2, Q6, Q7, Q9, Q10. split; try done; cbn [lru_cached lru_retired sl_touch sl_set_order sl_entries sl_set_arcs sl_pinned_removed sl_size sl_arcs] in *.
    + rewrite list_to_map_cons, Hm, insert_delete_eq, insert_id by done. done.
    + intros x Hx. apply Q8. by rewrite Hp.
  - change (iter (push_front key (sl_order s)) = key :: (without key (lru_cached l)).*1). by rewrite P1, without_keys, Ho.
Qed.

Lemma lru_rel_weaken H n n' s l dead : n <= n' < 2 ^ 64 -> lru_rel H n s l dead -> lru_rel H n' s l dead.
Proof. intros Hn ([Q1 Q2 Q3 Q4 Q5 Q6 Q7 Q8 Q9 Q10 Q11] & Ho). split; [|done]. split; try done. lia. Qed.

Lemma drop_other p q h : arc_id q <> arc_id p -> strong_count q (arc_drop p h) = strong_count q h.
Proof. intros Hne. unfold strong_count. cbn. by rewrite lookup_alter_ne. Qed.
Lemma clone_other p q h : arc_id q <> arc_id p -> strong_count q (arc_clone p h) = strong_count q h.
Proof. intros Hne. unfold strong_count. cbn. by rewrite lookup_alter_ne. Qed.
Lemma rel_fresh H n s l dead : lru_rel H n s l dead -> Forall (fun i => i < next_arc (sl_arcs s)) H.
Proof. intros (R & _). pose proof (lr_fresh _ _ _ _ _ _ R) as Hf. by apply Forall_app in Hf as [? _]. Qed.

Lemma simple_insert_rel H n s l dead key v b : lru_rel H n s l dead -> 0 < b -> n + b < 2 ^ 64 ->
  exists s' dead', simple_lru_insert key v b s = Returns s' /\ next_arc (sl_arcs s') = next_arc (sl_arcs s) + 1 /\
    lru_rel H (n + b) s' (spec_insert H key (mkLruEntry (mkArc (next_arc (sl_arcs s)) v) b) l).2 dead'.
Proof.
  intros R Hb Hn. pose proof (new_rel _ _ _ _ _ v R) as Hnew. unfold simple_lru_insert. cbn [arc_alloc] in *. set (p := mkArc _ v) in *. set (h := mkArcs _ _) in *.
  destruct Hnew as (R1 & Hf & Hlt & Hc & _ & Hni). pose proof (insert_rel _ _ _ _ _ key p b R1 Hf Hlt ltac:(rewrite holds_absent by done; exact Hc) Hb Hn) as Hi. destruct (lru_room l <? b).
  - destruct Hi as [-> ->]. eexists _, dead. split; [reflexivity|]. split; [done|]. cbn [snd]. apply (lru_rel_weaken H n); [lia|].
    apply (foreign_rel H H n (sl_set_arcs h s) l dead p); [done|done|done|by eapply (rel_fresh _ _ _ _ _ R1)|intros q Hq; by apply drop_other|done].
  - destruct Hi as (s' & l' & E & -> & R'). rewrite E. exists s', []. split; [done|]. split; [|done]. by apply insert_next in E.
Qed.

Lemma pinned_insert_rel H n s l dead key v b : lru_rel H n s l dead -> 0 < b -> n + b < 2 ^ 64 ->
  let p := mkArc (next_arc (sl_arcs s)) v in
  exists s' dead', next_arc (sl_arcs s') = next_arc (sl_arcs s) + 1 /\
    let '(inserted, l') := spec_insert (arc_id p :: H) key (mkLruEntry p b) l in
    zero_copy_insert_pinned key v b s = Returns (if inserted then Some (key, p) else None, s') /\ lru_rel (if inserted then arc_id p :: H else H) (n + b) s' l' dead'.
Proof.
  intros R Hb Hn p. pose proof (new_rel _ _ _ _ _ v R) as Hnew. unfold zero_copy_insert_pinned. cbn [arc_alloc] in *. fold p in Hnew |- *. set (h := mkArcs _ _) in *.
  destruct Hnew as (R1 & Hf & Hlt & Hc & _ & Hni).
  assert (forall i, i <> arc_id p -> holds i (arc_id p :: H) = holds i H) as Hh by (intros i Hne; rewrite holds_cons, decide_False by congruence; lia).
  assert (lru_rel (arc_id p :: H) n (sl_set_arcs (arc_clone p h) s) l dead) as R2.
  { apply (foreign_rel H _ n (sl_set_arcs h s) l dead p); [done|done|done| |intros q Hq; by apply clone_other|done]. constructor; [done|]. exact (rel_fresh _ _ _ _ _ R1). }
  assert (strong_count p (arc_clone p h) = 1 + holds (arc_id p) (arc_id p :: H)) as Hc2.
  { rewrite holds_cons, decide_True, holds_absent by done. unfold strong_count. cbn [arc_clone counts]. rewrite alter_count, decide_True, Hc by (done || lia). lia. }
  pose proof (insert_rel _ _ _ _ _ key p b R2 Hf Hlt Hc2 Hb Hn) as Hi. destruct (lru_room l <? b).
  - destruct Hi as [E ->]. rewrite E. eexists _, dead. split; [|split; [reflexivity|]]; [done|]. apply (lru_rel_weaken H n); [lia|].
    apply (foreign_rel (arc_id p :: H) H n (sl_set_arcs (arc_clone p h) s) l dead p); [done|done|done|exact (rel_fresh _ _ _ _ _ R1)| |].
    + intros q Hq. cbn [sl_arcs sl_set_arcs]. by rewrite !drop_other.
    + intros i Hne. by rewrite Hh.
  - destruct Hi as (s' & l' & E & -> & R'). rewrite E. exists s', []. split; [|done]. by apply insert_next in E.
Qed.

Lemma step_refines (Hit : forall m, iterate m ≡ₚ map_to_list m) op n st sp : lru_states n st sp -> n + op_bytes op < 2 ^ 64 ->
  match lru_step op st, spec_step op sp with
  | Returns (a, st'), Returns (a', sp') => a = a' /\ lru_states (n + op_bytes op) st' sp'
  | Panics, Panics => True
  | _, _ => False
  end.
Proof.
  destruct st as [hs s], sp as [[hs' next] l]. intros (E1 & E2 & dead & R) Hn. cbn in E1, E2, R. subst hs' next. unfold lru_states. destruct op as [key v b|key v b|key v b|key|key|i|i|key| |c|]; cbn [lru_step spec_step op_bytes] in *.
  - destruct (Z.leb_spec b 0) as [Hb|Hb].
    { unfold simple_lru_insert, sl_insert. cbn [arc_alloc]. by rewrite (proj2 (Z.leb_le _ _) Hb). }
    rewrite Z.max_r in * by lia. destruct (simple_insert_rel _ _ _ _ _ key v b R Hb Hn) as (s' & dead' & -> & Enx & R'). cbn. rewrite Enx. eauto 10.
  - destruct (Z.leb_spec b 0) as [Hb|Hb].
    { unfold zero_copy_insert, zero_copy_insert_pinned, sl_insert. cbn [arc_alloc]. by rewrite (proj2 (Z.leb_le _ _) Hb). }
    rewrite Z.max_r in * by lia. destruct (pinned_insert_rel _ _ _ _ _ key v b R Hb Hn) as (s' & dead' & Enx & Hi). cbn [arc_id] in Hi.
    destruct (spec_insert _ _ _ _) as [[|] l']; destruct Hi as [E R']; unfold zero_copy_insert; rewrite E; cbn; rewrite <- Enx.
    + apply (drop_rel _ _ _ _ _ (mkArc (next_arc (sl_arcs s)) v)) in R' as [dead2 R']. eauto 10.
    + eauto 10.
  - destruct (Z.leb_spec b 0) as [Hb|Hb].
    { unfold zero_copy_insert_pinned, sl_insert. cbn [arc_alloc]. by rewrite (proj2 (Z.leb_le _ _) Hb). }
    rewrite Z.max_r in * by lia. destruct (pinned_insert_rel _ _ _ _ _ key v b R Hb Hn) as (s' & dead' & Enx & Hi). cbn [arc_id] in Hi.
    destruct (spec_insert _ _ _ _) as [[|] l']; destruct Hi as [E R']; rewrite E; cbn; rewrite <- Enx; eauto 10.
  - rewrite Z.add_0_r in *. destruct (lookup_rel _ _ _ _ _ key R) as (Ea & Enx & R'). unfold simple_lru_lookup. destruct (sl_lookup key s) as [p s'], (spec_lookup key l) as [p' l']. cbn in *. subst p'.
    destruct p as [p|]; cbn; (split; [done|]); rewrite <- Enx; [|eauto 10]. apply drop_rel in R' as [dead' R']. eauto 10.
  - rewrite Z.add_0_r in *. destruct (lookup_rel _ _ _ _ _ key R) as (Ea & Enx & R'). unfold zero_copy_acquire. destruct (sl_lookup key s) as [p s'], (spec_lookup key l) as [p' l']. cbn in *. subst p'.
    destruct p as [p|]; cbn; (split; [done|]); rewrite <- Enx; eauto 10.
  - rewrite Z.add_0_r in *. destruct (hs !! i) as [h|] eqn:Ei; [|eauto 10]. apply (rel_holders _ _ _ _ _ _ (delete_ids hs i h Ei)), drop_rel in R as [dead' R].
    unfold zero_copy_release. cbn [fst snd]. rewrite evict_next. apply evict_rel in R. eauto 10.
  - rewrite Z.add_0_r in *. destruct (hs !! i) as [h|] eqn:Ei.
    + apply (rel_holders _ _ _ _ _ _ (delete_ids hs i h Ei)), drop_rel in R as [dead' R]. cbn. eauto 10.
    + apply lookup_ge_None_1 in Ei. rewrite delete_take_drop, take_ge, drop_ge, app_nil_r by lia. eauto 10.
  - rewrite Z.add_0_r in *. cbn [fst snd]. rewrite remove_next. apply (remove_rel _ _ _ _ _ key) in R. eauto 10.
  - rewrite Z.add_0_r in *. cbn [fst snd]. rewrite remove_all_next. apply (clear_rel _ _ _ _ _ iterate Hit) in R. eauto 10.
  - rewrite Z.add_0_r in *. unfold sl_set_capacity. destruct (c <=? 0); [done|]. cbn [fst snd]. rewrite evict_next. cbn [sl_arcs]. split; [done|]. split; [done|]. split; [done|]. exists [].
    apply (evict_rel _ _ _ _ dead). destruct R as ([] & Ho). split; [by split|done].
  - rewrite Z.add_0_r in *. unfold sl_current_size. cbn [fst snd]. rewrite reap_next. destruct R as (R & Hwf & Ho). destruct (reap_core _ _ _ _ _ _ R) as (R' & Eo & Es). rewrite Es, Z.add_0_r.
    split; [done|]. split; [done|]. split; [done|]. exists []. split; [done|]. by rewrite Eo.
Qed.

Definition history_bytes (ops : list lru_op) : Z := foldr (fun op n => op_bytes op + n) 0 ops.
Lemma history_nonneg ops : 0 <= history_bytes ops.
Proof. unfold history_bytes. induction ops as [|op ops IH]; cbn; [lia|]. destruct op; cbn; lia. Qed.

Lemma lru_run_refines (Hit : forall m, iterate m ≡ₚ map_to_list m) ops : forall n st sp, lru_states n st sp -> n + history_bytes ops < 2 ^ 64 ->
  (run_steps lru_step ops st).1 = (run_steps spec_step ops sp).1 /\
  match (run_steps lru_step ops st).2, (run_steps spec_step ops sp).2 with
  | Some st', Some sp' => lru_states (n + history_bytes ops) st' sp'
  | None, None => True
  | _, _ => False
  end.
Proof.
  induction ops as [|op ops IH]; intros n st sp R Hn; [cbn; by rewrite Z.add_0_r|].
  change (history_bytes (op :: ops)) with (op_bytes op + history_bytes ops) in *. rewrite Z.add_assoc in *. pose proof (history_nonneg ops).
  pose proof (step_refines Hit op n st sp R ltac:(lia)) as Hs. cbn [run_steps]. destruct (lru_step op st) as [[a st']|], (spec_step op sp) as [[a' sp']|]; try done.
  destruct Hs as [<- Hs]. specialize (IH _ _ _ Hs Hn). destruct (run_steps lru_step ops st') as [x1 x2], (run_steps spec_step ops sp') as [y1 y2]. cbn in *. destruct IH as [<- IH]. done.
Qed.

Lemma start_states capacity : lru_states 0 ([], mkSimpleLru capacity 0 new_order ∅ [] no_arcs) ([], 0, mkLruSpec capacity [] []).
Proof.
  split; [done|]. split; [done|]. exists []. split; [|split; [apply wf_point_wf, new_order_wf|done]].
  split; try done; cbn; try (by constructor); intros e []%elem_of_nil.
Qed.

(** ** Bounds *)

Lemma shed_bound H x c : sum_bytes (shed H x c).*2 <= sum_bytes c.*2 - x \/ Forall (fun ke => entry_held H ke.2 = true) (shed H x c).
Proof.
  revert x. induction c as [|[k e] c IH]; intros x; [by right|]. cbn [shed snd]. change (sum_bytes ((k, e) :: c).*2) with (sl_bytes e + sum_bytes c.*2).
  destruct (Z.ltb_spec 0 x) as [Hx|Hx]; cbn [andb].
  - destruct (entry_held H e) eqn:He; cbn [negb].
    + destruct (IH x) as [?|?]; [left|right; by constructor]. change (sum_bytes ((k, e) :: shed H x c).*2) with (sl_bytes e + sum_bytes (shed H x c).*2). lia.
    + destruct (IH (x - sl_bytes e)) as [?|?]; [left; lia|by right].
  - left. rewrite shed_none by done. change (sum_bytes ((k, e) :: c).*2) with (sl_bytes e + sum_bytes c.*2). lia.
Qed.
Lemma reverse_bytes c : sum_bytes (reverse c).*2 = sum_bytes c.*2.
Proof. by rewrite reverse_Permutation. Qed.
Lemma spec_evict_bound H l : lru_total H (spec_evict H l) <= lru_room l \/ Forall (fun ke => entry_held H ke.2 = true) (lru_cached (spec_evict H l)).
Proof.
  destruct (shed_bound H (lru_total H l - lru_room l) (reverse (lru_cached l))) as [Hb|Hb]; [left|right]; unfold spec_evict; cbn [lru_cached].
  - unfold lru_total at 1. cbn [lru_cached lru_retired]. rewrite reverse_bytes. rewrite (reverse_bytes (lru_cached l)) in Hb. unfold lru_total in Hb |- *. lia.
  - by apply Forall_reverse.
Qed.

Definition plain_op (op : lru_op) : bool := match op with LInsert _ _ _ | LLookup _ | LRemove _ | LRemoveAll | LSetCapacity _ | LSize => true | _ => false end.
(** The calls that bring the cache down to its capacity, where they are made
    with a handle that is out. *)
Definition reclaims (op : lru_op) hs : bool := match op with LRelease i => bool_decide (i < length hs)%nat | LSetCapacity _ => true | _ => false end.

Lemma no_holders_total l : lru_total [] l = sum_bytes (lru_cached l).*2.
Proof. unfold lru_total. rewrite filter_false; [cbn; lia|]. apply Forall_forall. intros e _. unfold entry_held. apply bool_decide_eq_false. by intros ?%elem_of_nil. Qed.
Lemma evict_plain l : 0 < lru_room l -> sum_bytes (lru_cached (spec_evict [] l)).*2 <= lru_room l.
Proof.
  intros Hr. destruct (spec_evict_bound [] l) as [Hb|Hb]; [by rewrite no_holders_total in Hb|]. destruct (lru_cached (spec_evict [] l)) as [|ke c]; [cbn; lia|].
  apply Forall_cons in Hb as [Hh _]. unfold entry_held in Hh. apply bool_decide_eq_true in Hh. by apply elem_of_nil in Hh.
Qed.

Lemma remove_shrinks H n fl s l dead key : lru_core H n fl s l dead -> sum_bytes (lru_cached (spec_remove key l)).*2 <= sum_bytes (lru_cached l).*2.
Proof.
  intros R. unfold spec_remove. destruct (cached_entry key l) as [e|] eqn:He; [|done]. cbn [lru_cached]. pose proof (without_values key _ e (lr_keys _ _ _ _ _ _ R) He) as Hv.
  pose proof (lr_positive _ _ _ _ _ _ R) as Hp. rewrite Forall_app in Hp. destruct Hp as [Hp _]. rewrite Hv in Hp |- *. apply Forall_cons in Hp as [Hp _].
  change (sum_bytes (e :: (without key (lru_cached l)).*2)) with (sl_bytes e + sum_bytes (without key (lru_cached l)).*2). lia.
Qed.

Lemma plain_step op n st sp sp' a : lru_states n st sp -> plain_op op = true -> spec_step op sp = Returns (a, sp') ->
  sp.1.1 = [] -> 0 < lru_room sp.2 -> sum_bytes (lru_cached sp.2).*2 <= lru_room sp.2 ->
  sp'.1.1 = [] /\ 0 < lru_room sp'.2 /\ sum_bytes (lru_cached sp'.2).*2 <= lru_room sp'.2.
Proof.
  destruct sp as [[hs next] l], st as [hs0 s]. intros (_ & _ & dead & R & _) Hop Hs. cbn. intros -> Hr Hb. cbn in R. destruct op; try done; cbn [spec_step handle_ids fmap list_fmap] in Hs.
  - destruct (size <=? 0); [done|]. simplify_eq. cbn [fst snd]. unfold spec_insert. cbn [sl_bytes]. destruct (lru_room l <? size); [done|]. cbn [snd].
    split; [done|]. assert (lru_room (spec_remove key l) = lru_room l) as Er by (unfold spec_remove; by case_match). split; [cbn; lia|]. cbn [spec_evict lru_room]. apply (evict_plain (mkLruSpec _ _ _)). cbn. lia.
  - unfold spec_lookup in Hs. destruct (cached_entry key l) as [e|] eqn:He; simplify_eq; [|done]. cbn [fst snd lru_cached lru_room]. split; [done|]. split; [done|].
    by rewrite <- (without_perm key _ e (lr_keys _ _ _ _ _ _ R) He).
  - simplify_eq. cbn [fst snd]. pose proof (remove_shrinks _ _ _ _ _ _ key R). assert (lru_room (spec_remove key l) = lru_room l) as -> by (unfold spec_remove; by case_match). split; [done|]. lia.
  - simplify_eq. cbn. done || (split; [done|]; lia).
  - destruct (Z.leb_spec capacity 0) as [Hc|Hc]; [done|]. simplify_eq. cbn [fst snd]. split; [done|]. split; [done|]. by apply (evict_plain (mkLruSpec capacity (lru_cached l) (lru_retired l))).
  - by simplify_eq.
Qed.

Definition plain_ok (sp : list (CacheKey * Arc) * Z * LruSpec) : Prop := sp.1.1 = [] /\ 0 < lru_room sp.2 /\ sum_bytes (lru_cached sp.2).*2 <= lru_room sp.2.
Lemma plain_run (Hit : forall m, iterate m ≡ₚ map_to_list m) ops : forall n st sp sp', lru_states n st sp -> n + history_bytes ops < 2 ^ 64 -> forallb plain_op ops = true ->
  plain_ok sp -> (run_steps spec_step ops sp).2 = Some sp' -> plain_ok sp'.
Proof.
  induction ops as [|op ops IH]; intros n st sp sp' R Hn Hp Ho Hr; [by simplify_eq/=|]. cbn [forallb] in Hp. apply andb_prop in Hp as [Hp1 Hp].
  change (history_bytes (op :: ops)) with (op_bytes op + history_bytes ops) in Hn. pose proof (history_nonneg ops).
  pose proof (step_refines Hit op n st sp R ltac:(lia)) as Hs. cbn [run_steps] in Hr. destruct (lru_step op st) as [[a st1]|], (spec_step op sp) as [[a' sp1]|] eqn:E; try done.
  destruct Hs as [_ Hs]. destruct Ho as (H1 & H2 & H3). apply (IH _ _ _ sp' Hs); [lia|done|by apply (plain_step op n st sp sp1 a' R Hp1 E H1 H2 H3)|]. by destruct (run_steps spec_step ops sp1).
Qed.

Lemma states_size n hs s sp : lru_states n (hs, s) sp -> (sl_current_size s).1 = lru_total (handle_ids hs) sp.2 /\ sl_capacity s = lru_room sp.2.
Proof. intros (_ & _ & dead & R & _). cbn in R. destruct (reap_core _ _ _ _ _ _ R) as (_ & _ & Es). split; [rewrite <- Z.add_0_r; exact Es|apply R]. Qed.
Lemma states_held n hs s sp : lru_states n (hs, s) sp -> Forall (fun ke => entry_held (handle_ids hs) ke.2 = true) (lru_cached sp.2) ->
  forall k e, sl_entries s !! k = Some e -> arc_id (sl_value e) ∈ handle_ids hs.
Proof.
  intros (_ & _ & dead & R & _) Hh k e He. cbn in R. rewrite (lr_entries _ _ _ _ _ _ R) in He. apply elem_of_list_to_map_2 in He. rewrite Forall_forall in Hh.
  specialize (Hh _ He). by apply bool_decide_eq_true in Hh.
Qed.

Lemma reclaims_bound op hs next l a hs' next' l' : reclaims op hs = true -> spec_step op (hs, next, l) = Returns (a, (hs', next', l')) ->
  lru_total (handle_ids hs') l' <= lru_room l' \/ Forall (fun ke => entry_held (handle_ids hs') ke.2 = true) (lru_cached l').
Proof.
  intros Hr Hs. destruct op; try done; cbn [spec_step reclaims] in *.
  - apply bool_decide_eq_true, lookup_lt_is_Some in Hr as [h Hh]. rewrite Hh in Hs. simplify_eq. apply (spec_evict_bound (handle_ids (delete i hs)) l).
  - destruct (capacity <=? 0); [done|]. simplify_eq. apply (spec_evict_bound (handle_ids hs') (mkLruSpec capacity (lru_cached l) (lru_retired l))).
Qed.
End histories.

(** C25. Any history of the plain caches, with values held, released, dropped,
    overwritten and removed in any order, answers as a list of entries does:
    the same values, the same refusals, the same handles and the same sizes,
    which count a removed entry while it is held, and it panics where the list
    does. *)
Theorem simple_lru_refines (iterate : gmap CacheKey SimpleLruEntry -> list (CacheKey * SimpleLruEntry)) (capacity : Z) (ops : list lru_op) :
  (forall m, iterate m ≡ₚ map_to_list m) -> history_bytes ops < 2 ^ 64 ->
  match sl_new capacity with
  | Panics => capacity <= 0
  | Returns s =>
      let code := run_steps (lru_step iterate) ops ([], s) in
      let list := run_steps spec_step ops ([], 0, mkLruSpec capacity [] []) in
      code.1 = list.1 /\ bool_decide (is_Some code.2) = bool_decide (is_Some list.2)
  end.
Proof.
  intros Hit Hb. unfold sl_new. destruct (Z.leb_spec capacity 0); [done|].
  destruct (lru_run_refines iterate Hit ops 0 _ _ (start_states capacity) ltac:(lia)) as [H1 H2]. split; [done|].
  destruct (run_steps (lru_step iterate) ops _) as [? [?|]], (run_steps spec_step ops _) as [? [?|]]; try done.
Qed.

(** The cache without handles never counts more than its capacity, and
    whatever handles are out, a release or a change of the capacity leaves the
    cache within its capacity or with nothing in it that is not held. *)
Theorem simple_lru_bounded (iterate : gmap CacheKey SimpleLruEntry -> list (CacheKey * SimpleLruEntry)) (capacity : Z) (ops : list lru_op) (op : lru_op) hs s a hs' s' :
  (forall m, iterate m ≡ₚ map_to_list m) -> history_bytes (ops ++ [op]) < 2 ^ 64 -> 0 < capacity ->
  (run_steps (lru_step iterate) ops ([], mkSimpleLru capacity 0 new_order ∅ [] no_arcs)).2 = Some (hs, s) -> lru_step iterate op (hs, s) = Returns (a, (hs', s')) ->
  (forallb plain_op (ops ++ [op]) = true -> (sl_current_size s').1 <= sl_capacity s') /\
  (reclaims op hs = true -> (sl_current_size s').1 <= sl_capacity s' \/ forall k e, sl_entries s' !! k = Some e -> arc_id (sl_value e) ∈ handle_ids hs').
Proof.
  intros Hit Hb Hc Hrun Hstep.
  assert (history_bytes (ops ++ [op]) = history_bytes ops + op_bytes op) as Eb by (clear; induction ops as [|o ops IH]; [cbn; lia|]; unfold history_bytes in *; cbn; lia).
  pose proof (history_nonneg [op]). change (history_bytes [op]) with (op_bytes op + 0) in *.
  destruct (lru_run_refines iterate Hit ops 0 _ _ (start_states capacity) ltac:(lia)) as [_ Hr]. rewrite Hrun in Hr. destruct (run_steps spec_step ops _).2 as [sp|] eqn:Esp; [|done].
  pose proof (step_refines iterate Hit op _ _ _ Hr ltac:(lia)) as Hs. rewrite Hstep in Hs. destruct (spec_step op sp) as [[a' sp']|] eqn:Es; [|done]. destruct Hs as [_ Hs].
  destruct (states_size _ _ _ _ Hs) as [-> ->]. split.
  - rewrite forallb_app. cbn. intros [Hp [Hp1 _]%andb_prop]%andb_prop. assert (plain_ok ([], 0, mkLruSpec capacity [] [])) as H0 by (split; [done|]; cbn; lia).
    pose proof (plain_run iterate Hit ops 0 _ _ sp (start_states capacity) ltac:(lia) Hp H0 Esp) as (P1 & P2 & P3).
    destruct (plain_step _ _ _ _ _ _ Hr Hp1 Es P1 P2 P3) as (Q1 & Q2 & Q3). destruct Hs as (E & _). cbn in E. rewrite <- E, Q1. cbn [handle_ids fmap list_fmap]. by rewrite no_holders_total.
  - intros Hre. destruct sp as [[hs0 next] l], sp' as [[hs1 next'] l']. destruct Hr as (E & _), Hs as (E' & Hs'). cbn in E, E'. subst.
    destruct (reclaims_bound _ _ _ _ _ _ _ _ Hre Es) as [?|Hh]; [by left|right]. by eapply (states_held _ hs' s' (hs', next', l')).
Qed.

Definition lru_demo (i : Z) : CacheKey := mkKey i "k" "string" "value".
Definition lru_history : list lru_op :=
  [LInsert (lru_demo 1) [] 4; LInsertPinned (lru_demo 2) [] 4; LLookup (lru_demo 1); LInsert (lru_demo 3) [] 4; LRemove (lru_demo 2); LSize; LInsert (lru_demo 4) [] 4;
   LRelease 0; LSize; LLookup (lru_demo 1); LInsert (lru_demo 5) [] 11; LAcquire (lru_demo 4); LSetCapacity 3; LSize; LDrop 0; LSize; LRemoveAll; LSize].

Lemma simple_lru_refines_witness :
  (run_steps (lru_step map_to_list) lru_history ([], mkSimpleLru 10 0 new_order ∅ [] no_arcs)).1 =
  [LDone; LHandle (Some []); LValue (Some []); LDone; LDone; LBytes 8; LDone; LDone; LBytes 4; LValue None; LDone; LHandle (Some []); LDone; LBytes 4; LDone; LBytes 4; LDone; LBytes 0].
Proof.
  destruct (simple_lru_refines map_to_list 10 lru_history) as [-> _]; [done|vm_compute; done|]. vm_compute. reflexivity.
Defined.

Definition lru_plain : list lru_op := [LInsert (lru_demo 1) [] 4; LInsert (lru_demo 2) [] 4].
Lemma simple_lru_bounded_witness :
  match (run_steps (lru_step map_to_list) lru_plain ([], mkSimpleLru 10 0 new_order ∅ [] no_arcs)).2 with
  | Some (hs, s) => match lru_step map_to_list (LInsert (lru_demo 3) [] 4) (hs, s) with Returns (_, (_, s')) => (sl_current_size s').1 <= sl_capacity s' | Panics => False end
  | None => False
  end.
Proof.
  destruct (run_steps (lru_step map_to_list) lru_plain _).2 as [[hs s]|] eqn:E; [|vm_compute in E; discriminate E].
  destruct (lru_step map_to_list (LInsert (lru_demo 3) [] 4) (hs, s)) as [[a [hs' s']]|] eqn:E'.
  - apply (simple_lru_bounded map_to_list 10 lru_plain (LInsert (lru_demo 3) [] 4) hs s a hs' s'); [done|vm_compute; done|lia|exact E|exact E'|vm_compute; done].
  - vm_compute in E. injection E as <- <-. vm_compute in E'. discriminate E'.
Defined.

(** [insert] of the cache with handles makes room while it holds the new value
    itself, and drops its handle without making room again: the entry stays
    although nobody holds it and the cache is over its capacity. *)
Example dropped_insert_overshoots :
  (run_steps (lru_step map_to_list) [LInsertPinned (lru_demo 1) [] 10; LZeroInsert (lru_demo 2) [] 10; LSize; LLookup (lru_demo 2)]
    ([], mkSimpleLru 10 0 new_order ∅ [] no_arcs)).1 = [LHandle (Some []); LDone; LBytes 20; LValue (Some [])].
Proof. vm_compute. reflexivity. Qed.

(** ** The in-process memcached cache *)

Inductive memcached_op :=
| MStart
| MStop
| MInsert (key value : string) (size : Z)
| MRemove (key : string)
| MRemoveAll
| MResetClients.
Definition memcached_step (op : memcached_op) (m : Memcached) : Memcached :=
  match op with
  | MStart => (memcached_start m).2
  | MStop => (memcached_stop m).2
  | MInsert key value size => (memcached_insert key value size m).2
  | MRemove key => memcached_remove key m
  | MRemoveAll => memcached_remove_all m
  | MResetClients => memcached_reset_clients m
  end.
Definition memcached_size_ok (op : memcached_op) : Prop := match op with MInsert _ _ size => 0 <= size | _ => True end.

(** Within its capacity, and one size per value. *)
Record memcached_ok (m : Memcached) : Prop := {
  mk_sizes : map_Forall (fun _ n => 0 <= n) (mc_sizes m);
  mk_fits : map_sum id (mc_sizes m) <= mc_capacity m;
  mk_dom : dom (mc_entries m) = dom (mc_sizes m) }.

Lemma sizes_nonneg (m : gmap string Z) : map_Forall (fun _ n => 0 <= n) m -> 0 <= map_sum id m.
Proof.
  induction m as [|k n m Hk IH] using map_ind; intros Hm; [done|]. apply map_Forall_insert in Hm as [Hn Hm]; [|done]. rewrite map_sum_insert_new by done. specialize (IH Hm). cbn. lia.
Qed.
Lemma delete_sum (m : gmap string Z) k : map_sum id m = default 0 (m !! k) + map_sum id (delete k m).
Proof. destruct (m !! k) as [n|] eqn:E; [by apply (map_sum_delete id m k n)|]. by rewrite delete_id. Qed.

Lemma memcached_step_ok op m : 0 < mc_capacity m < u64_max -> memcached_size_ok op -> memcached_ok m -> memcached_ok (memcached_step op m) /\ mc_capacity (memcached_step op m) = mc_capacity m.
Proof.
  unfold u64_max. intros Hc Hop [M1 M2 M3]. pose proof (sizes_nonneg _ M1) as N1. destruct op as [| |key value size|key| |]; cbn [memcached_step memcached_size_ok] in *; try done.
  - unfold memcached_insert. destruct (mc_started m); [|done]. cbn [negb]. destruct (_ && _) eqn:E; [done|]. split; [|done]. rewrite (proj2 (Z.ltb_lt _ _)) in E by lia. apply Z.ltb_ge in E.
    unfold memcached_size in E. rewrite wrap64_small in E by lia. pose proof (delete_sum (mc_sizes m) key) as Hd. pose proof (sizes_nonneg (delete key (mc_sizes m)) (map_Forall_delete _ _ _ M1)) as N2.
    rewrite sat_sub_exact in E by lia. unfold sat_add, u64_max in E. split; cbn.
    + by apply map_Forall_insert_2.
    + rewrite <- insert_delete_eq, map_sum_insert_new by apply lookup_delete_eq. change (id size) with size. lia.
    + by rewrite !dom_insert_L, M3.
  - split; [|done]. pose proof (delete_sum (mc_sizes m) key) as Hd. assert (0 <= default 0 (mc_sizes m !! key)) as N2.
    { destruct (mc_sizes m !! key) as [n|] eqn:E; [by apply (M1 key)|done]. }
    split; cbn; [by apply map_Forall_delete|lia|by rewrite !dom_delete_L, M3].
  - split; [|done]. split; cbn; [done|rewrite map_sum_empty; lia|done].
Qed.

(** A memcached cache with a capacity never holds more than it; the largest
    capacity is no bound either, since the sum saturates there. *)
Lemma memcached_bounded capacity ops : 0 < capacity < u64_max -> Forall memcached_size_ok ops -> memcached_ok (foldl (fun m op => memcached_step op m) (memcached_new capacity) ops).
Proof.
  intros Hc Hops. assert (memcached_ok (memcached_new capacity)) as Hm by (split; [done|cbn; rewrite map_sum_empty; lia|done]).
  assert (mc_capacity (memcached_new capacity) = capacity) as E by done. revert Hm E. generalize (memcached_new capacity). induction Hops as [|op ops Hop _ IH]; intros m Hm E; [done|].
  cbn [foldl]. destruct (memcached_step_ok op m) as [Hm' E']; [by rewrite E|done..|]. apply IH; [done|congruence].
Qed.
