(* ===== verification/BlockCodec.v ===== *)
(** * Cache blocks

    The frame an SSD block carries (builder_and_gc.rs, [encode_cache_block] to
    [is_encoded_compressed_block]): eight magic bytes, a version, a codec, the
    length of the value and of the payload, then the payload, raw or
    compressed.  Bytes without the magic are a value written before the frame
    existed.  The codec a thread keeps between calls ([CacheBlockCodec]) is
    modelled over the calls it makes to the zstd library, which is a
    parameter. *)

From Stdlib Require Import Strings.Byte.
From S2P Require Import Prelude.

(** ** The compression library *)

(** What the codec asks of zstd and of the allocator.  A streaming encoder is
    built for a level ([Encoder::new]), put at the start of a new frame
    ([reinit]), given another level ([set_parameter]), run over an input into
    an output buffer with some room left (the answer: the position reached in
    the input and the bytes written) and made to end its frame (the answer:
    zero or a hint of what is still to be written, and the bytes written).
    [None] and [false] are the errors of the library.  A frame is decompressed
    into a buffer of a given capacity, or without knowing its size; and a
    buffer of a size can be reserved or not.  Building a context fails only
    when memory runs out, and is taken to succeed. *)
Class Zstd := {
  zstd_encoder : Type;
  zstd_new : Z -> zstd_encoder;
  zstd_reinit : zstd_encoder -> bool * zstd_encoder;
  zstd_set_level : Z -> zstd_encoder -> bool * zstd_encoder;
  zstd_compress_bound : Z -> Z;
  zstd_run : bytes -> Z -> zstd_encoder -> option (Z * bytes) * zstd_encoder;
  zstd_finish : Z -> zstd_encoder -> option (Z * bytes) * zstd_encoder;
  zstd_decompress_to_buffer : bytes -> Z -> option bytes;
  zstd_decode_all : bytes -> result bytes;
  try_reserve_exact : Z -> bool
}.

(** An encoder at the start of a frame. *)
Inductive session `{Zstd} : zstd_encoder -> Prop :=
| session_reinit e e' : zstd_reinit e = (true, e') -> session e'
| session_level e e' level : session e -> zstd_set_level level e = (true, e') -> session e'.

(** [c] is a whole frame [e] wrote for [v]: all of [v] was taken in one run
    (which an empty value does not need) and nothing was left to write. *)
Inductive frame_of `{Zstd} (e : zstd_encoder) (room : Z) : bytes -> bytes -> Prop :=
| frame_of_nil c e2 : zstd_finish room e = (Some (0, c), e2) -> frame_of e room [] c
| frame_of_value v e1 e2 o1 o2 : v <> [] ->
    zstd_run v room e = (Some (blen v, o1), e1) -> zstd_finish (room - blen o1) e1 = (Some (0, o2), e2) ->
    frame_of e room v (o1 ++ o2).

(** The behaviour zstd documents on the frames it wrote itself; and one
    assumption on the machine, not on zstd: that the memory for a value which
    was in memory when it was compressed can be had again when it is read. *)
Class ZstdLaws `(Zstd) : Prop := {
  zstd_round_trip e room v c : session e -> frame_of e room v c -> zstd_decompress_to_buffer c (blen v) = Some v;
  memory_suffices e room v c : session e -> frame_of e room v c -> try_reserve_exact (blen v) = true
}.

(** What zstd documents of an encoder that is used again: [reinit] starts a
    frame which depends on the parameters alone, the level is such a parameter
    and stays set until it is set again; and a frame that fits its buffer is
    the same in a larger one. *)
Class ZstdReuse `(Zstd) := {
  at_level : Z -> zstd_encoder -> Prop;
  new_at level : at_level level (zstd_new level);
  reinit_at level e : at_level level e -> exists e', zstd_reinit e = (true, e') /\ at_level level e';
  reinit_same level e e' : at_level level e -> at_level level e' -> zstd_reinit e = zstd_reinit e';
  level_set level level' e e' : at_level level e -> at_level level' e' -> zstd_set_level level' (zstd_reinit e).2 = zstd_reinit e';
  run_at level v room e : at_level level e -> at_level level (zstd_run v room e).2;
  finish_at level room e : at_level level e -> at_level level (zstd_finish room e).2;
  run_room v room room' e o : room <= room' -> (zstd_run v room e).1 = Some (blen v, o) -> zstd_run v room' e = zstd_run v room e;
  finish_room room room' e o : room <= room' -> (zstd_finish room e).1 = Some (0, o) -> zstd_finish room' e = zstd_finish room e
}.

(** ** Options *)

Inductive CacheCompression := CompressionNone | CompressionZstd (level : Z).

Record CacheBlockOptions := mkBlockOptions {
  compression : CacheCompression;
  min_compress_bytes : Z
}.

Definition CACHE_BLOCK_MAGIC : bytes := ["T"; "S"; "B"; "C"; "A"; "C"; "H"; "E"]%byte.
Definition CACHE_BLOCK_VERSION : Byte.byte := x01.
Definition CACHE_CODEC_RAW : Byte.byte := x00.
Definition CACHE_CODEC_ZSTD : Byte.byte := x01.
Definition CACHE_HEADER_LEN : Z := 8 + 1 + 1 + 8 + 8.

Definition byte_value (b : Byte.byte) : Z := Z.of_N (Byte.to_N b).

Lemma byte_value_range b : 0 <= byte_value b < 256.
Proof. unfold byte_value. pose proof (Byte.to_N_bounded b). lia. Qed.

Lemma byte_value_inj b c : byte_value b = byte_value c -> b = c.
Proof.
  unfold byte_value. intros E. apply N2Z.inj in E. pose proof (Byte.of_to_N b) as Hb. rewrite E, Byte.of_to_N in Hb. congruence.
Qed.


(** ** Encoding *)

Definition frame_cache_block (original_len : Z) (codec : Byte.byte) (payload : bytes) : bytes :=
  CACHE_BLOCK_MAGIC ++ [CACHE_BLOCK_VERSION] ++ [codec]
  ++ le_bytes 8 original_len ++ le_bytes 8 (blen payload) ++ payload.

Section codec.
Context `{Zstd}.

(** Of the scratch buffer only the capacity outlives a call. *)
Record CacheBlockCodec := mkCodec { encoder : zstd_encoder; level_of : Z; scratch : Z }.

(** [CacheBlockCodec::new]. *)
Definition new_codec (level : Z) : CacheBlockCodec := mkCodec (zstd_new level) level 0.

(** [Vec::reserve] on an empty vector of bytes: the capacity after it. *)
Definition reserve (capacity needed : Z) : Z :=
  if needed <=? capacity then capacity else Z.max 8 (Z.max (capacity * 2) needed).

(** From the output buffer on: run the encoder unless the value is empty, end
    the frame. *)
Definition one_pass (value : bytes) (room : Z) (e : zstd_encoder) : result bytes * zstd_encoder :=
  let '(r, e) :=
    if bool_decide (value = []) then (Ok [], e)
    else match zstd_run value room e with
    | (None, e) => (Err Io, e)
    | (Some (pos, out), e) => (if negb (pos =? blen value) then Err CorruptBlock else Ok out, e)
    end in
  match r with
  | Err err => (Err err, e)
  | Ok out =>
      match zstd_finish (room - blen out) e with
      | (None, e) => (Err Io, e)
      | (Some (hint, rest), e) => (if negb (hint =? 0) then Err CorruptBlock else Ok (out ++ rest), e)
      end
  end.

Definition compress (value : bytes) (level : Z) (codec : CacheBlockCodec) : result bytes * CacheBlockCodec :=
  let '(ok, e) := zstd_reinit (encoder codec) in
  if negb ok then (Err Io, mkCodec e (level_of codec) (scratch codec))
  else
    let '(ok, e) := if level =? level_of codec then (true, e) else zstd_set_level level e in
    if negb ok then (Err Io, mkCodec e (level_of codec) (scratch codec))
    else
      let capacity := reserve (scratch codec) (zstd_compress_bound (blen value)) in
      let '(r, e) := one_pass value capacity e in
      (r, mkCodec e level capacity).

(** The codec of the thread, built on first use. *)
Definition with_cache_block_codec {T} (level : Z) (use_codec : CacheBlockCodec -> result T * CacheBlockCodec)
    (slot : option CacheBlockCodec) : result T * option CacheBlockCodec :=
  let '(r, codec) := use_codec (default (new_codec level) slot) in (r, Some codec).

(** [encode_cache_block] on a thread whose codec is [slot]. *)
Definition encode_cache_block_on (slot : option CacheBlockCodec) (value : bytes) (options : CacheBlockOptions) : result bytes * option CacheBlockCodec :=
  match compression options with
  | CompressionZstd level =>
      if min_compress_bytes options <=? blen value then
        with_cache_block_codec level (fun codec =>
          let '(r, codec) := compress value level codec in
          (let? compressed := r in
           if CACHE_HEADER_LEN + blen compressed <? blen value
           then Ok (frame_cache_block (blen value) CACHE_CODEC_ZSTD compressed)
           else Ok (frame_cache_block (blen value) CACHE_CODEC_RAW value), codec)) slot
      else (Ok (frame_cache_block (blen value) CACHE_CODEC_RAW value), slot)
  | CompressionNone => (Ok (frame_cache_block (blen value) CACHE_CODEC_RAW value), slot)
  end.

(** The block alone, on a thread that has compressed nothing yet; a thread
    that has writes the same one ([encode_reused] below). *)
Definition encode_cache_block (value : bytes) (options : CacheBlockOptions) : result bytes :=
  (encode_cache_block_on None value options).1.

(** ** Decoding *)

Definition starts_with (p block : bytes) : bool := bool_decide (take (length p) block = p).

Definition byte_at (block : bytes) (i : nat) : Byte.byte := default x00 (block !! i).
Definition original_len_of (block : bytes) : Z := le_value (take 8 (drop 10 block)).
Definition payload_len_of (block : bytes) : Z := le_value (take 8 (drop 18 block)).
Definition payload_of (block : bytes) : bytes := drop 26 block.

(** [CacheBlockCodec::decompress]. *)
Definition decompress (payload : bytes) (original_len : Z) : result bytes :=
  if negb (try_reserve_exact original_len) then Err CorruptBlock
  else match zstd_decompress_to_buffer payload original_len with
       | Some decoded => Ok decoded
       | None => zstd_decode_all payload
       end.

Definition uncompressed_block_payload (block : bytes) : result (option bytes) :=
  if negb (starts_with CACHE_BLOCK_MAGIC block) then Ok (Some block)
  else if blen block <? CACHE_HEADER_LEN then Err CorruptBlock
  else if negb (bool_decide (byte_at block 8 = CACHE_BLOCK_VERSION)) then Err CorruptBlock
  else if negb (bool_decide (byte_at block 9 = CACHE_CODEC_RAW)) then Ok None
  else if negb (blen block =? wrap64 (CACHE_HEADER_LEN + payload_len_of block)) then Err CorruptBlock
  else if negb (blen (payload_of block) =? original_len_of block) then Err CorruptBlock
  else Ok (Some (payload_of block)).

Definition decode_cache_block (block : bytes) : result bytes :=
  if negb (starts_with CACHE_BLOCK_MAGIC block) then Ok block
  else if blen block <? CACHE_HEADER_LEN then Err CorruptBlock
  else if negb (bool_decide (byte_at block 8 = CACHE_BLOCK_VERSION)) then Err CorruptBlock
  else if negb (blen block =? wrap64 (CACHE_HEADER_LEN + payload_len_of block)) then Err CorruptBlock
  else
    let? decoded :=
      (if decide (byte_at block 9 = CACHE_CODEC_RAW) then Ok (payload_of block)
       else if decide (byte_at block 9 = CACHE_CODEC_ZSTD)
            then decompress (payload_of block) (original_len_of block)
            else Err (UnsupportedCodec (byte_value (byte_at block 9)))) in
    if negb (blen decoded =? original_len_of block) then Err CorruptBlock else Ok decoded.

(** The payload is moved to the front of the block and the rest cut off. *)
Definition decode_cache_block_owned (block : bytes) : result bytes :=
  let? payload := uncompressed_block_payload block in
  match payload with
  | Some payload =>
      let len := length payload in
      let start := (length block - len)%nat in
      if (start =? 0)%nat then Ok block
      else Ok (take len (drop start block ++ drop len block))
  | None => decode_cache_block block
  end.

Definition decode_cache_block_shared (block : bytes) : result bytes :=
  let? payload := uncompressed_block_payload block in
  match payload with
  | Some payload => Ok payload
  | None => decode_cache_block block
  end.

Definition cache_block_matches_value (block value : bytes) : result bool :=
  let? payload := uncompressed_block_payload block in
  match payload with
  | Some payload => Ok (bool_decide (payload = value))
  | None => let? decoded := decode_cache_block block in Ok (bool_decide (decoded = value))
  end.

Definition is_encoded_compressed_block (block : bytes) : bool :=
  starts_with CACHE_BLOCK_MAGIC block && (CACHE_HEADER_LEN <=? blen block)
  && bool_decide (byte_at block 9 = CACHE_CODEC_ZSTD).

(** ** The frame *)

Section frame.
Context (n : Z) (codec : Byte.byte) (payload : bytes).
Context (Hn : 0 <= n < 2 ^ 64) (Hp : blen payload < 2 ^ 63).

Let block := frame_cache_block n codec payload.

Lemma frame_split :
  block = (CACHE_BLOCK_MAGIC ++ [CACHE_BLOCK_VERSION; codec])
          ++ le_bytes 8 n ++ le_bytes 8 (blen payload) ++ payload.
Proof. unfold block, frame_cache_block. by rewrite <- !app_assoc. Qed.

Lemma frame_length : blen block = CACHE_HEADER_LEN + blen payload.
Proof.
  rewrite frame_split. unfold blen. rewrite !length_app, !le_bytes_length.
  unfold CACHE_HEADER_LEN. simpl. lia.
Qed.

Lemma frame_magic : starts_with CACHE_BLOCK_MAGIC block = true.
Proof. apply bool_decide_eq_true. done. Qed.

Lemma frame_version : byte_at block 8 = CACHE_BLOCK_VERSION.
Proof. done. Qed.

Lemma frame_codec : byte_at block 9 = codec.
Proof. done. Qed.

Lemma frame_drop10 : drop 10 block = le_bytes 8 n ++ le_bytes 8 (blen payload) ++ payload.
Proof. rewrite frame_split. done. Qed.

Lemma frame_drop18 : drop 18 block = le_bytes 8 (blen payload) ++ payload.
Proof.
  change 18%nat with (10 + 8)%nat. rewrite <- drop_drop, frame_drop10.
  by rewrite drop_app_length' by (by rewrite le_bytes_length).
Qed.

Lemma frame_original : original_len_of block = n.
Proof using Hn.
  unfold original_len_of. rewrite frame_drop10, take_app_length' by (by rewrite le_bytes_length).
  by apply le_value_bytes.
Qed.

Lemma frame_payload_len : payload_len_of block = blen payload.
Proof using Hp.
  unfold payload_len_of. rewrite frame_drop18, take_app_length' by (by rewrite le_bytes_length).
  apply le_value_bytes. pose proof (blen_nonneg payload). lia.
Qed.

Lemma frame_payload : payload_of block = payload.
Proof.
  unfold payload_of. change 26%nat with (18 + 8)%nat. rewrite <- drop_drop, frame_drop18.
  by rewrite drop_app_length' by (by rewrite le_bytes_length).
Qed.

Lemma frame_len_check :
  negb (blen block =? wrap64 (CACHE_HEADER_LEN + payload_len_of block)) = false.
Proof using Hp.
  rewrite frame_length, frame_payload_len. apply negb_false_iff, Z.eqb_eq. symmetry.
  apply wrap64_small. pose proof (blen_nonneg payload). unfold CACHE_HEADER_LEN in *. lia.
Qed.

Lemma frame_header_check : (blen block <? CACHE_HEADER_LEN) = false.
Proof.
  rewrite frame_length. apply Z.ltb_ge. pose proof (blen_nonneg payload). lia.
Qed.
End frame.

Lemma decode_raw value :
  blen value < 2 ^ 63 ->
  decode_cache_block (frame_cache_block (blen value) CACHE_CODEC_RAW value) = Ok value.
Proof.
  intros Hv. pose proof (blen_nonneg value). unfold decode_cache_block.
  rewrite frame_magic, frame_header_check, frame_version, frame_len_check by done. simpl negb.
  rewrite frame_codec, frame_payload, frame_original by lia. simpl.
  by rewrite Z.eqb_refl.
Qed.

(** A payload the codec compressed is a whole frame of a new session. *)
Lemma one_pass_frame value room e c : (one_pass value room e).1 = Ok c -> frame_of e room value c.
Proof.
  unfold one_pass. case_bool_decide as Hv.
  - subst value. cbn [blen length]. rewrite Z.sub_0_r. destruct (zstd_finish room e) as [[[hint o]|] e2] eqn:E; [|done].
    destruct (Z.eqb_spec hint 0) as [->|]; [|done]. intros [= <-]. by eapply frame_of_nil.
  - destruct (zstd_run value room e) as [[[pos o1]|] e1] eqn:E1; [|done]. destruct (Z.eqb_spec pos (blen value)) as [->|]; [|done]. cbn [negb].
    destruct (zstd_finish (room - blen o1) e1) as [[[hint o2]|] e2] eqn:E2; [|done]. destruct (Z.eqb_spec hint 0) as [->|]; [|done].
    intros [= <-]. by eapply frame_of_value.
Qed.
Lemma compress_frame value level codec c : (compress value level codec).1 = Ok c -> exists e room, session e /\ frame_of e room value c.
Proof.
  unfold compress. destruct (zstd_reinit (encoder codec)) as [[] e1] eqn:E1; [|done]. cbn [negb]. pose proof (session_reinit _ _ E1) as Hs.
  destruct (level =? level_of codec).
  - cbn [negb]. destruct (one_pass _ _ _) as [r e2] eqn:E2. cbn [fst]. intros ->. do 2 eexists. split; [exact Hs|]. by eapply one_pass_frame; rewrite E2.
  - destruct (zstd_set_level level e1) as [[] e2] eqn:E2; [|done]. cbn [negb]. destruct (one_pass _ _ _) as [r e3] eqn:E3. cbn [fst]. intros ->.
    do 2 eexists. split; [by eapply session_level|]. by eapply one_pass_frame; rewrite E3.
Qed.

Lemma decode_zstd `{!ZstdLaws H} e room value compressed :
  blen value < 2 ^ 63 -> blen compressed < 2 ^ 63 ->
  session e -> frame_of e room value compressed ->
  decode_cache_block (frame_cache_block (blen value) CACHE_CODEC_ZSTD compressed) = Ok value.
Proof.
  intros Hv Hc Hs Hz. pose proof (blen_nonneg value). unfold decode_cache_block.
  rewrite frame_magic, frame_header_check, frame_version, frame_len_check by done. simpl negb.
  rewrite frame_codec, frame_payload, frame_original by lia. cbv beta iota.
  rewrite decide_False by done. rewrite decide_True by done.
  unfold decompress. rewrite (memory_suffices _ _ _ _ Hs Hz), (zstd_round_trip _ _ _ _ Hs Hz). simpl.
  by rewrite Z.eqb_refl.
Qed.

(** The two arms every encoded block comes from. *)
Lemma encode_cases value options block :
  encode_cache_block value options = Ok block ->
  block = frame_cache_block (blen value) CACHE_CODEC_RAW value \/
  exists e room compressed, session e /\ frame_of e room value compressed /\
    CACHE_HEADER_LEN + blen compressed < blen value /\
    block = frame_cache_block (blen value) CACHE_CODEC_ZSTD compressed.
Proof.
  unfold encode_cache_block, encode_cache_block_on, with_cache_block_codec. intros He. destruct (compression options) as [|level].
  - left. simpl in He. congruence.
  - destruct (min_compress_bytes options <=? blen value); [|left; simpl in He; congruence].
    destruct (compress value level (default (new_codec level) None)) as [r codec] eqn:Ez. simpl in He. destruct r as [c|e]; [|done]. simpl in He.
    case_if; zbool; [|left; congruence]. right.
    destruct (compress_frame value level _ c (f_equal fst Ez)) as (e & room & Hs & Hf). exists e, room, c. split_and!; [done..|congruence].
Qed.

Lemma encode_pos value options block : encode_cache_block value options = Ok block -> 0 < blen block.
Proof.
  intros [->|(e & room & c & _ & _ & _ & ->)]%encode_cases; rewrite frame_length;
    unfold CACHE_HEADER_LEN, blen; lia.
Qed.

(** The optimised path and the plain one give the same answer on any bytes. *)
Lemma uncompressed_decode block :
  match uncompressed_block_payload block with
  | Ok (Some payload) => decode_cache_block block = Ok payload
  | Ok None => True
  | Err e => decode_cache_block block = Err e
  end.
Proof.
  unfold uncompressed_block_payload, decode_cache_block.
  destruct (starts_with _ _); simpl; [|done].
  destruct (blen block <? CACHE_HEADER_LEN); [done|].
  destruct (bool_decide _); simpl; [|done].
  destruct (bool_decide (byte_at block 9 = CACHE_CODEC_RAW)) eqn:Ec; simpl; [|done].
  apply bool_decide_eq_true in Ec. rewrite Ec.
  destruct (_ =? wrap64 _); simpl; [|done].
  by destruct (blen (payload_of block) =? original_len_of block); simpl.
Qed.

Lemma uncompressed_suffix block payload :
  uncompressed_block_payload block = Ok (Some payload) ->
  payload = drop (length block - length payload) block /\ (length payload <= length block)%nat.
Proof.
  unfold uncompressed_block_payload.
  destruct (starts_with _ _); simpl; intros Hu; [|simplify_eq; by rewrite Nat.sub_diag].
  destruct (blen block <? CACHE_HEADER_LEN) eqn:Eh; [done|].
  repeat (case_if; [done|]). simplify_eq. unfold payload_of.
  rewrite length_drop. zbool. unfold blen, CACHE_HEADER_LEN in Eh.
  replace (length block - (length block - 26))%nat with 26%nat by lia. split; [done|lia].
Qed.

Lemma owned_decode_ok block :
  decode_cache_block_owned block = decode_cache_block block.
Proof.
  unfold decode_cache_block_owned. pose proof (uncompressed_decode block) as Hd.
  destruct (uncompressed_block_payload block) as [[payload|]|e] eqn:E; simpl; [|done..].
  destruct (uncompressed_suffix _ _ E) as [Hs Hl]. rewrite Hd.
  destruct (Nat.eqb_spec (length block - length payload) 0) as [E0|E0].
  - rewrite E0 in Hs. simpl in Hs. by rewrite drop_0 in Hs; subst.
  - rewrite <- Hs. by rewrite take_app_length.
Qed.

Lemma decode_length block value :
  starts_with CACHE_BLOCK_MAGIC block = true -> decode_cache_block block = Ok value ->
  blen value = original_len_of block.
Proof.
  unfold decode_cache_block. intros -> Hd. simpl in Hd.
  destruct (blen block <? CACHE_HEADER_LEN); [done|].
  destruct (negb _); [done|]. destruct (negb _); [done|].
  match type of Hd with context [result_bind ?r _] => destruct r as [d|e] end; simpl in Hd; [|done].
  destruct (Z.eqb_spec (blen d) (original_len_of block)); simpl in Hd; congruence.
Qed.

Lemma encode_decode `{!ZstdLaws H} value options block :
  blen value < 2 ^ 63 -> encode_cache_block value options = Ok block ->
  decode_cache_block block = Ok value.
Proof.
  intros Hv [->|(e & room & c & Hs & Hz & Hlt & ->)]%encode_cases; [by apply decode_raw|].
  eapply decode_zstd; [done| |done..]. unfold CACHE_HEADER_LEN in Hlt. lia.
Qed.

Lemma shared_decode_ok block : decode_cache_block_shared block = decode_cache_block block.
Proof.
  unfold decode_cache_block_shared. pose proof (uncompressed_decode block) as Hd.
  by destruct (uncompressed_block_payload block) as [[payload|]|e]; simpl.
Qed.

Lemma matches_decode_ok block value :
  cache_block_matches_value block value =
  (let? decoded := decode_cache_block block in Ok (bool_decide (decoded = value))).
Proof.
  unfold cache_block_matches_value. pose proof (uncompressed_decode block) as Hd.
  destruct (uncompressed_block_payload block) as [[payload|]|e]; simpl; by rewrite ?Hd.
Qed.

Lemma encoded_is_framed value options block :
  blen value < 2 ^ 63 -> encode_cache_block value options = Ok block ->
  exists codec payload, block = frame_cache_block (blen value) codec payload /\
    blen payload < 2 ^ 63 /\ blen payload <= blen value /\
    (codec = CACHE_CODEC_RAW \/ codec = CACHE_CODEC_ZSTD /\ CACHE_HEADER_LEN + blen payload < blen value).
Proof.
  intros Hv [->|(e & room & c & _ & _ & Hlt & ->)]%encode_cases.
  - exists CACHE_CODEC_RAW, value. naive_solver lia.
  - exists CACHE_CODEC_ZSTD, c. unfold CACHE_HEADER_LEN in *. naive_solver lia.
Qed.

(** ** The codec a thread keeps *)

Section reuse.
Context {ZR : ZstdReuse H}.

(** The encoder is at the level the codec remembers, whatever was done with it;
    and the scratch buffer, once allocated, holds eight bytes. *)
Definition codec_ok (codec : CacheBlockCodec) : Prop :=
  at_level (level_of codec) (encoder codec) /\ (scratch codec = 0 \/ 8 <= scratch codec).

Lemma new_codec_ok level : codec_ok (new_codec level).
Proof. split; [apply new_at|by left]. Qed.

Lemma one_pass_at level value room e : at_level level e -> at_level level (one_pass value room e).2.
Proof.
  intros He. unfold one_pass. case_bool_decide.
  - pose proof (finish_at level (room - blen []) e He). by destruct (zstd_finish _ e) as [[[]|] e'].
  - pose proof (run_at level value room e He) as H1. destruct (zstd_run value room e) as [[[pos o]|] e1]; [|done]. cbn [snd] in H1.
    destruct (negb _); [done|]. pose proof (finish_at level (room - blen o) e1 H1). by destruct (zstd_finish _ e1) as [[[]|] e2].
Qed.
Lemma one_pass_room value room room' e c : room <= room' -> (one_pass value room e).1 = Ok c -> one_pass value room' e = one_pass value room e.
Proof.
  intros Hr. unfold one_pass. case_bool_decide.
  - destruct (zstd_finish (room - blen []) e) as [[[hint o]|] e1] eqn:E; [|done]. destruct (Z.eqb_spec hint 0) as [->|]; [|done].
    intros _. rewrite (finish_room (room - blen []) (room' - blen []) e o), E; [done|lia|by rewrite E].
  - destruct (zstd_run value room e) as [[[pos o]|] e1] eqn:E1; [|done]. destruct (Z.eqb_spec pos (blen value)) as [->|]; [|done]. cbn [negb].
    rewrite (run_room value room room' e o), E1, Z.eqb_refl by (done || by rewrite E1). cbn [negb].
    destruct (zstd_finish (room - blen o) e1) as [[[hint o2]|] e2] eqn:E2; [|done]. destruct (Z.eqb_spec hint 0) as [->|]; [|done].
    intros _. rewrite (finish_room (room - blen o) (room' - blen o) e1 o2), E2; [done|lia|by rewrite E2].
Qed.

(** A codec that has been used starts a frame as a new one does. *)
Lemma compress_starts value level codec : codec_ok codec -> exists e,
  zstd_reinit (zstd_new level) = (true, e) /\ at_level level e /\
  compress value level codec =
    (let '(r, e) := one_pass value (reserve (scratch codec) (zstd_compress_bound (blen value))) e in
     (r, mkCodec e level (reserve (scratch codec) (zstd_compress_bound (blen value))))).
Proof.
  intros [Hat _]. destruct (reinit_at level (zstd_new level) (new_at level)) as (e & He & Hae). exists e. split_and!; [done..|]. unfold compress.
  destruct (reinit_at _ _ Hat) as (e1 & E1 & _). rewrite E1. cbn [negb]. destruct (Z.eqb_spec level (level_of codec)) as [El|El].
  - rewrite <- El in Hat. rewrite (reinit_same _ _ _ Hat (new_at level)), He in E1. by injection E1 as <-.
  - pose proof (level_set _ level _ _ Hat (new_at level)) as Hl. rewrite E1 in Hl. cbn [snd] in Hl. by rewrite Hl, He.
Qed.

Lemma compress_keeps value level codec : codec_ok codec -> codec_ok (compress value level codec).2.
Proof.
  intros Hc. destruct (compress_starts value level codec Hc) as (e & _ & Hae & ->). destruct Hc as [_ Hs].
  pose proof (one_pass_at level value (reserve (scratch codec) (zstd_compress_bound (blen value))) e Hae) as Hp.
  destruct (one_pass _ _ e) as [r e']. split; [done|]. cbn [snd scratch]. unfold reserve. case_match; [done|]. right. lia.
Qed.

Lemma compress_reused value level codec c : codec_ok codec ->
  (compress value level (new_codec level)).1 = Ok c -> (compress value level codec).1 = Ok c.
Proof.
  intros Hc. destruct (compress_starts value level codec Hc) as (e & He & _ & ->).
  destruct (compress_starts value level _ (new_codec_ok level)) as (e' & He' & _ & ->). rewrite He in He'. injection He' as <-.
  set (room := reserve (scratch (new_codec level)) _). set (room' := reserve (scratch codec) _). intros Ho.
  assert (room <= room') as Hr.
  { subst room room'. unfold reserve. destruct Hc as [_ [->|Hs]]; [done|]. cbn [scratch new_codec]. repeat case_match; zbool; lia. }
  destruct (one_pass value room e) as [r1 e1] eqn:E1. cbn [fst] in Ho. subst r1.
  by rewrite (one_pass_room value room room' e c Hr), E1 by (by rewrite E1).
Qed.

(** What a thread has compressed before, at whatever levels, does not show in
    the blocks it writes: each is the one a new codec writes, and the codec is
    left fit for the next. *)
Theorem encode_reused (slot : option CacheBlockCodec) value options block : (forall codec, slot = Some codec -> codec_ok codec) ->
  encode_cache_block value options = Ok block ->
  (encode_cache_block_on slot value options).1 = Ok block /\
  forall codec, (encode_cache_block_on slot value options).2 = Some codec -> codec_ok codec.
Proof.
  intros Hs. unfold encode_cache_block, encode_cache_block_on. destruct (compression options) as [|level]; [done|].
  destruct (_ <=? _); [|done]. unfold with_cache_block_codec.
  assert (codec_ok (default (new_codec level) slot)) as Hc by (destruct slot; [by apply Hs|apply new_codec_ok]).
  cbn [default]. pose proof (compress_keeps value level _ Hc) as Hk. destruct (compress value level (new_codec level)) as [[c|e] codec0] eqn:E0; [|done].
  pose proof (compress_reused value level _ c Hc ltac:(by rewrite E0)) as Hr.
  destruct (compress value level (default (new_codec level) slot)) as [r codec]. cbn [fst snd] in *. subst r. intros Hb. split; [exact Hb|]. by intros ? [= <-].
Qed.
End reuse.

(** A framed block cut anywhere past its magic fails a length check. *)
Lemma truncated_frame n codec payload cut :
  0 <= n < 2 ^ 64 -> blen payload < 2 ^ 63 -> (8 <= cut)%nat ->
  (cut < length (frame_cache_block n codec payload))%nat ->
  decode_cache_block (take cut (frame_cache_block n codec payload)) = Err CorruptBlock.
Proof.
  intros Hn Hp Hcut Hlt. set (block := frame_cache_block n codec payload) in *.
  assert (Hblen : blen (take cut block) = Z.of_nat cut) by (unfold blen; rewrite length_take; lia).
  unfold decode_cache_block.
  replace (starts_with CACHE_BLOCK_MAGIC (take cut block)) with true.
  2: { symmetry. apply bool_decide_eq_true. rewrite take_take, Nat.min_l by (simpl; lia). done. }
  rewrite Hblen. simpl negb. destruct (Z.ltb_spec (Z.of_nat cut) CACHE_HEADER_LEN) as [|Hge]; [done|].
  unfold CACHE_HEADER_LEN in Hge.
  assert (Hat : byte_at (take cut block) 8 = CACHE_BLOCK_VERSION).
  { unfold byte_at. rewrite lookup_take_lt by lia. done. }
  rewrite Hat, bool_decide_eq_true_2 by done. simpl negb.
  assert (Hpl : payload_len_of (take cut block) = blen payload).
  { rewrite <- (frame_payload_len n codec payload Hp). unfold payload_len_of. fold block.
    rewrite skipn_firstn_comm, take_take, Nat.min_l by lia. done. }
  rewrite Hpl, wrap64_small by (unfold CACHE_HEADER_LEN; pose proof (blen_nonneg payload); lia).
  pose proof (frame_length n codec payload) as Hfl. fold block in Hfl. unfold blen in Hfl at 1.
  destruct (Z.eqb_spec (Z.of_nat cut) (CACHE_HEADER_LEN + blen payload)); [lia|done].
Qed.

(** C38. Every block [encode_cache_block] writes, compressed or raw, is read
    back by [decode_cache_block] as the value it was written from. *)
Theorem block_round_trip `{!ZstdLaws H} (value : bytes) (options : CacheBlockOptions) (block : bytes) :
  blen value < 2 ^ 63 -> encode_cache_block value options = Ok block ->
  decode_cache_block block = Ok value.
Proof. apply encode_decode. Qed.

(** The three readers that avoid copies agree with the plain one on every
    block whatever its bytes, errors included: [decode_cache_block_owned]
    (which moves the payload inside the block), [decode_cache_block_shared]
    and [cache_block_matches_value]. *)
Theorem decode_paths_agree (block value : bytes) :
  decode_cache_block_owned block = decode_cache_block block /\
  decode_cache_block_shared block = decode_cache_block block /\
  cache_block_matches_value block value =
    (let? decoded := decode_cache_block block in Ok (bool_decide (decoded = value))).
Proof. split_and!; [apply owned_decode_ok|apply shared_decode_ok|apply matches_decode_ok]. Qed.

(** C40. A block cut short anywhere past its eight magic bytes is refused as
    corrupt, not served as a shorter value. *)
Theorem truncated_block_rejected (value : bytes) (options : CacheBlockOptions) (block : bytes) (cut : nat) :
  blen value < 2 ^ 63 -> encode_cache_block value options = Ok block ->
  (8 <= cut < length block)%nat -> decode_cache_block (take cut block) = Err CorruptBlock.
Proof.
  intros Hv (codec & payload & -> & Hp & _)%encoded_is_framed [H1 H2]; [|done].
  apply truncated_frame; try done. pose proof (blen_nonneg value). lia.
Qed.

(** Compression never costs space: a block is at most a header longer than
    its value, and one marked compressed is strictly shorter than the value. *)
Theorem encoded_block_size (value : bytes) (options : CacheBlockOptions) (block : bytes) :
  blen value < 2 ^ 63 -> encode_cache_block value options = Ok block ->
  blen block <= CACHE_HEADER_LEN + blen value /\
  (is_encoded_compressed_block block = true -> blen block < blen value).
Proof.
  intros Hv (codec & payload & -> & Hp & Hle & Hc)%encoded_is_framed; [|done].
  rewrite frame_length. split; [lia|]. unfold is_encoded_compressed_block.
  rewrite frame_codec. intros Ht. zbool. destruct Hc as [->|[_ Hc]]; [done|lia].
Qed.
End codec.

(** ** A concrete compressor for the examples

    Runs of one byte become the byte and a length; anything else is refused. *)
Definition run_of (v : bytes) : option Byte.byte :=
  match v with
  | b :: rest => if decide (Forall (eq b) rest) then Some b else None
  | [] => None
  end.

Definition run_zstd : Zstd := {|
  zstd_encoder := bytes;
  zstd_new _ := [];
  zstd_reinit _ := (true, []);
  zstd_set_level _ e := (true, e);
  zstd_compress_bound n := n + 9;
  zstd_run v _ _ := (Some (blen v, []), v);
  zstd_finish room v :=
    (if 2 ^ 62 <=? blen v then None
     else if room <? 9 then Some (9 - room, [])
     else match run_of v with Some b => Some (0, b :: le_bytes 8 (blen v)) | None => None end, v);
  zstd_decompress_to_buffer c capacity :=
    match c with
    | b :: len => if le_value len <=? capacity then Some (replicate (Z.to_nat (le_value len)) b) else None
    | [] => None
    end;
  zstd_decode_all c :=
    match c with b :: len => Ok (replicate (Z.to_nat (le_value len)) b) | [] => Err Io end;
  try_reserve_exact n := n <? 2 ^ 62
|}.

Lemma run_of_spec v b : run_of v = Some b -> v = replicate (length v) b.
Proof.
  destruct v as [|x rest]; simpl; [done|]. case_decide as Hf; [|done]. intros [= ->]. f_equal.
  induction Hf as [|y rest <- Hf IH]; simpl; [done|]. by f_equal.
Qed.

Lemma run_session e : session (H := run_zstd) e -> e = [].
Proof. induction 1 as [e e' [= <-]|e e' level _ IH [= <-]]; done. Qed.
Lemma run_frame e room v c : session (H := run_zstd) e -> frame_of (H := run_zstd) e room v c ->
  blen v < 2 ^ 62 /\ exists b, run_of v = Some b /\ c = b :: le_bytes 8 (blen v).
Proof.
  intros ->%run_session Hf. destruct Hf as [c e2 E|v e1 e2 o1 o2 _ [= <- <-] E]; simpl in E; [destruct (Z.ltb_spec room 9); [injection E; intros; lia|done]|].
  destruct (Z.leb_spec (2 ^ 62) (blen v)); [done|]. split; [done|]. destruct (Z.ltb_spec (room - blen []) 9); [injection E; intros; lia|].
  destruct (run_of v) as [b|]; [|done]. injection E as <- _. by exists b.
Qed.

Lemma run_zstd_laws : ZstdLaws run_zstd.
Proof.
  split; intros e room v c Hs (Hv & b & E & ->)%run_frame; try done; cbn [zstd_decompress_to_buffer try_reserve_exact run_zstd].
  - rewrite le_value_bytes by (pose proof (blen_nonneg v); lia).
    rewrite Z.leb_refl. f_equal. apply run_of_spec in E.
    unfold blen. rewrite Nat2Z.id. by symmetry.
  - by apply Z.ltb_lt.
Qed.

Definition run_zstd_reuse : ZstdReuse run_zstd.
Proof.
  refine {| at_level := fun _ _ => True |}; simpl; try done; [by eexists|].
  intros room room' e o Hr. destruct (2 ^ 62 <=? blen e); [done|]. destruct (Z.ltb_spec room 9); [intros [= ? _]; lia|].
  by destruct (Z.ltb_spec room' 9); [lia|].
Defined.

Definition demo_value : bytes := replicate 64 x07.
Definition demo_options : CacheBlockOptions := mkBlockOptions (CompressionZstd 1) 16.

Lemma block_round_trip_witness :
  exists block, encode_cache_block (H := run_zstd) demo_value demo_options = Ok block /\
    blen block = 35 /\ decode_cache_block (H := run_zstd) block = Ok demo_value.
Proof.
  eexists. split; [vm_compute; reflexivity|]. split; [vm_compute; reflexivity|].
  apply (block_round_trip (H := run_zstd) (ZstdLaws0 := run_zstd_laws) demo_value demo_options);
    vm_compute; reflexivity.
Defined.

Lemma truncated_block_rejected_witness :
  exists block, encode_cache_block (H := run_zstd) demo_value demo_options = Ok block /\
    decode_cache_block (H := run_zstd) (take 30 block) = Err CorruptBlock.
Proof.
  eexists. split; [vm_compute; reflexivity|].
  apply (truncated_block_rejected (H := run_zstd) demo_value demo_options);
    [vm_compute; reflexivity..|split; apply Nat.leb_le; vm_compute; reflexivity].
Defined.

Lemma encoded_block_size_witness :
  exists block, encode_cache_block (H := run_zstd) demo_value demo_options = Ok block /\
    blen block < blen demo_value.
Proof.
  eexists. split; [vm_compute; reflexivity|].
  apply (encoded_block_size (H := run_zstd) demo_value demo_options); vm_compute; reflexivity.
Defined.

(** A thread that compressed another value at another level before. *)
Definition used_slot : option (CacheBlockCodec (H := run_zstd)) :=
  (encode_cache_block_on (H := run_zstd) None (replicate 99 x01) (mkBlockOptions (CompressionZstd 9) 16)).2.
Definition demo_block : bytes := frame_cache_block 64 CACHE_CODEC_ZSTD (x07 :: le_bytes 8 64).

Lemma encode_reused_witness :
  level_of <$> used_slot = Some 9 /\ (encode_cache_block_on (H := run_zstd) used_slot demo_value demo_options).1 = Ok demo_block.
Proof.
  split; [vm_compute; reflexivity|].
  apply (encode_reused (H := run_zstd) (ZR := run_zstd_reuse)); [|vm_compute; reflexivity].
  intros codec E. split; [exact I|right]. assert (scratch <$> used_slot = Some 108) as Hs by (vm_compute; reflexivity).
  rewrite E in Hs. injection Hs as ->. lia.
Defined.
