(* ===== verification/WriteBudget.v ===== *)
(** * The SSD write budget

    [SsdWriteBudget] (core/write_budget.rs) admits a share of the keys, chosen
    by hash, and moves the share from what the last window wrote.  An instant
    is a number of nanoseconds; the feedback arithmetic is the source's, in
    128 bits where it uses them. *)

From S2P Require Import Prelude.

Definition WRITE_BUDGET_SCALE : Z := 10000.
(** [WRITE_BUDGET_WINDOW], one second. *)
Definition WRITE_BUDGET_WINDOW : Z := 1000000000.
Definition WRITE_BUDGET_MAX_STEP_UP : Z := 2.

Record SsdWriteBudget := mkBudget {
  admission_disabled : bool;
  target_bytes_per_sec : Z;
  admitted_share : Z;
  bytes_this_window : Z;
  window_started : option Z;
  observed_bytes_per_sec : Z
}.

Definition unlimited : SsdWriteBudget := mkBudget false 0 WRITE_BUDGET_SCALE 0 None 0.
Definition with_target (bytes_per_sec : Z) : SsdWriteBudget :=
  mkBudget false bytes_per_sec WRITE_BUDGET_SCALE 0 None 0.

Definition set_target_bytes_per_sec (bytes_per_sec : Z) (b : SsdWriteBudget) : SsdWriteBudget :=
  if (bytes_per_sec =? target_bytes_per_sec b) && negb (admission_disabled b) then b
  else
    let share := if admission_disabled b then WRITE_BUDGET_SCALE else admitted_share b in
    let share := if bytes_per_sec =? 0 then WRITE_BUDGET_SCALE else share in
    mkBudget false bytes_per_sec share 0 None 0.

Definition disable_admission (b : SsdWriteBudget) : SsdWriteBudget :=
  let b := set_target_bytes_per_sec 0 b in
  mkBudget true (target_bytes_per_sec b) 0 (bytes_this_window b) (window_started b)
           (observed_bytes_per_sec b).

(** [clamp]. *)
Definition clamp (low high x : Z) : Z := Z.max low (Z.min high x).

Definition roll_window (now : Z) (b : SsdWriteBudget) : SsdWriteBudget :=
  match window_started b with
  | None => mkBudget (admission_disabled b) (target_bytes_per_sec b) (admitted_share b)
                     (bytes_this_window b) (Some now) (observed_bytes_per_sec b)
  | Some started =>
      let elapsed := now -! started in
      if elapsed <? WRITE_BUDGET_WINDOW then b
      else
        let elapsed_millis := Z.min (elapsed / 1000000) u64_max in
        let allowed := target_bytes_per_sec b * elapsed_millis / 1000 in
        let share :=
          if bytes_this_window b <=? allowed
          then clamp 1 WRITE_BUDGET_SCALE (sat_mul (admitted_share b) WRITE_BUDGET_MAX_STEP_UP)
          else Z.max (admitted_share b * allowed / bytes_this_window b) 1 in
        let observed :=
          if elapsed_millis =? 0 then 0
          else Z.min (bytes_this_window b * 1000 / elapsed_millis) u64_max in
        mkBudget (admission_disabled b) (target_bytes_per_sec b) share 0 (Some now) observed
  end.

(** [admits_with_hash]: the answer and the rolled budget. *)
Definition admits (key_hash now : Z) (b : SsdWriteBudget) : bool * SsdWriteBudget :=
  if admission_disabled b then (false, b)
  else if target_bytes_per_sec b =? 0 then (true, b)
  else
    let b := roll_window now b in
    if WRITE_BUDGET_SCALE <=? admitted_share b then (true, b)
    else (Z.shiftr key_hash 32 `mod` WRITE_BUDGET_SCALE <? admitted_share b, b).

Definition record_written (bytes now : Z) (b : SsdWriteBudget) : SsdWriteBudget :=
  if target_bytes_per_sec b =? 0 then b
  else
    let b := roll_window now b in
    mkBudget (admission_disabled b) (target_bytes_per_sec b) (admitted_share b)
             (bytes_this_window b +! bytes) (window_started b) (observed_bytes_per_sec b).

(** ** The share stays a share *)

(** A budget is either switched off, unlimited and fully open, or limited with
    a share that is never zero. *)
Definition budget_ok (b : SsdWriteBudget) : Prop :=
  0 <= target_bytes_per_sec b /\ 0 <= bytes_this_window b /\
  (if admission_disabled b then admitted_share b = 0 /\ target_bytes_per_sec b = 0
   else if target_bytes_per_sec b =? 0 then admitted_share b = WRITE_BUDGET_SCALE
   else 1 <= admitted_share b <= WRITE_BUDGET_SCALE).

Lemma scaled_share share allowed bytes :
  0 <= share -> 0 <= allowed < bytes -> 0 <= share * allowed / bytes <= share.
Proof.
  intros Hs [Ha Hb]. split; [apply Z.div_pos; nia|].
  apply Z.div_le_upper_bound; nia.
Qed.

Lemma elapsed_allowed_nonneg target elapsed :
  0 <= target -> 0 <= elapsed -> 0 <= target * Z.min (elapsed / 1000000) u64_max / 1000.
Proof.
  intros Ht He. apply Z.div_pos; [|lia]. apply Z.mul_nonneg_nonneg; [done|].
  pose proof (Z.div_pos elapsed 1000000). unfold u64_max. lia.
Qed.

Lemma roll_window_ok now b :
  budget_ok b -> admission_disabled b = false -> target_bytes_per_sec b <> 0 ->
  budget_ok (roll_window now b) /\
  admission_disabled (roll_window now b) = false /\
  target_bytes_per_sec (roll_window now b) = target_bytes_per_sec b.
Proof.
  intros (Ht & Hb & Hs) Hd Hne. rewrite Hd, (proj2 (Z.eqb_neq _ _) Hne) in Hs.
  unfold roll_window. destruct (window_started b) as [started|].
  - case_if; simpl; unfold budget_ok; simpl; rewrite ?Hd, ?(proj2 (Z.eqb_neq _ _) Hne);
      [done|]. split_and!; try done.
    + case_if; zbool; [unfold clamp; lia|lia].
    + case_if; zbool; [unfold clamp, WRITE_BUDGET_SCALE; lia|].
      pose proof (elapsed_allowed_nonneg _ (now -! started) Ht (sat_sub_nonneg _ _)) as Ha.
      pose proof (scaled_share (admitted_share b)
        (target_bytes_per_sec b * Z.min ((now -! started) / 1000000) u64_max / 1000)
        (bytes_this_window b)) as Hsc.
      unfold WRITE_BUDGET_SCALE in *. lia.
  - unfold budget_ok; simpl. rewrite Hd, (proj2 (Z.eqb_neq _ _) Hne). done.
Qed.

(** Everything a caller can do to a budget. *)
Inductive BudgetOp :=
| BudgetTarget (bytes_per_sec : Z)
| BudgetDisable
| BudgetAdmits (key_hash now : Z)
| BudgetWritten (bytes now : Z).

Definition budget_step (b : SsdWriteBudget) (op : BudgetOp) : SsdWriteBudget :=
  match op with
  | BudgetTarget t => set_target_bytes_per_sec t b
  | BudgetDisable => disable_admission b
  | BudgetAdmits h now => snd (admits h now b)
  | BudgetWritten n now => record_written n now b
  end.

Definition budget_op_valid (op : BudgetOp) : bool :=
  match op with
  | BudgetTarget t => (0 <=? t) && (t <=? u64_max)
  | BudgetWritten n _ => 0 <=? n
  | _ => true
  end.

Lemma set_target_ok t b : 0 <= t -> budget_ok b -> budget_ok (set_target_bytes_per_sec t b).
Proof.
  intros Ht Hok. unfold set_target_bytes_per_sec. case_if; [done|].
  destruct Hok as (H1 & H2 & H3). unfold budget_ok. simpl.
  unfold WRITE_BUDGET_SCALE in *. split_and!; [done..|].
  destruct (t =? 0); [done|]. destruct (admission_disabled b); [lia|].
  destruct (target_bytes_per_sec b =? 0); lia.
Qed.

Lemma budget_step_ok b op : budget_op_valid op = true -> budget_ok b -> budget_ok (budget_step b op).
Proof.
  intros Hv Hok. destruct op as [t| |h now|n now]; simpl in *.
  - zbool. by apply set_target_ok.
  - pose proof (set_target_ok 0 b (Z.le_refl 0) Hok) as (H1 & H2 & _).
    unfold disable_admission, budget_ok. simpl. split_and!; try done.
    unfold set_target_bytes_per_sec. case_if; [zbool; lia|done].
  - unfold admits. destruct (admission_disabled b) eqn:Ed; [done|].
    destruct (Z.eqb_spec (target_bytes_per_sec b) 0); [done|].
    destruct (roll_window_ok now b Hok Ed) as (Hr & _); [done|]. by case_if.
  - zbool. unfold record_written. destruct (Z.eqb_spec (target_bytes_per_sec b) 0); [done|].
    destruct (admission_disabled b) eqn:Ed.
    { destruct Hok as (_ & _ & Hs). rewrite Ed in Hs. lia. }
    destruct (roll_window_ok now b Hok Ed) as ((H1 & H2 & H3) & _); [done|].
    unfold budget_ok. simpl. split_and!; [done|unfold sat_add, u64_max; lia|done].
Qed.

(** Whatever a caller does to a budget, a limited one always admits some
    keys and never more than all of them, an unlimited one admits every key
    and a disabled one none. *)
Theorem budget_share_bounded (ops : list BudgetOp) (key_hash now : Z) :
  let b := fold_left budget_step ops unlimited in
  forallb budget_op_valid ops = true ->
  (admission_disabled b = true -> fst (admits key_hash now b) = false) /\
  (admission_disabled b = false -> target_bytes_per_sec b = 0 -> fst (admits key_hash now b) = true) /\
  (admission_disabled b = false -> target_bytes_per_sec b <> 0 ->
   1 <= admitted_share b <= WRITE_BUDGET_SCALE).
Proof.
  intros b Hops. assert (Hok : budget_ok b).
  { unfold b. clear b. assert (Hu : budget_ok unlimited) by done. revert Hu.
    generalize unlimited. induction ops as [|op ops IH]; intros u Hu; simpl in *; [done|].
    zbool. apply IH; [done|]. by apply budget_step_ok. }
  destruct Hok as (_ & _ & Hs). unfold admits. split_and!.
  - by intros ->.
  - by intros -> ->.
  - intros Hd Ht. by rewrite Hd, (proj2 (Z.eqb_neq _ _) Ht) in Hs.
Qed.

Lemma budget_share_bounded_witness :
  let b := fold_left budget_step
    [BudgetTarget 1000; BudgetWritten 0 0; BudgetWritten 50000 5; BudgetAdmits 7 1000000000] unlimited in
  admitted_share b = 200 /\ 1 <= admitted_share b <= WRITE_BUDGET_SCALE.
Proof.
  split; [vm_compute; reflexivity|].
  destruct (budget_share_bounded
    [BudgetTarget 1000; BudgetWritten 0 0; BudgetWritten 50000 5; BudgetAdmits 7 1000000000] 0 0)
    as (_ & _ & H); [vm_compute; reflexivity|].
  apply H; vm_compute; [reflexivity|discriminate].
Defined.

(** ** Closing and reopening *)

(** A window that wrote more than the target allowed closes the share in
    proportion at once: had the same keys been offered at the new share, what
    they wrote would have fitted the target, unless the share is already at
    its floor of one in ten thousand. *)
Theorem overrun_closes_share (b : SsdWriteBudget) (started now : Z) :
  let allowed := target_bytes_per_sec b * Z.min ((now -! started) / 1000000) u64_max / 1000 in
  let b' := roll_window now b in
  budget_ok b -> admission_disabled b = false -> target_bytes_per_sec b <> 0 ->
  window_started b = Some started -> WRITE_BUDGET_WINDOW <= now - started ->
  allowed < bytes_this_window b ->
  admitted_share b' <= admitted_share b /\
  (admitted_share b' = 1 \/ admitted_share b' * bytes_this_window b <= admitted_share b * allowed) /\
  bytes_this_window b' = 0.
Proof.
  intros allowed b' (Ht & Hb & Hs) Hd Hne Hw Hel Hover.
  rewrite Hd, (proj2 (Z.eqb_neq _ _) Hne) in Hs.
  assert (Ha : 0 <= allowed) by (apply elapsed_allowed_nonneg; [done|apply sat_sub_nonneg]).
  unfold b', roll_window. rewrite Hw. unfold WRITE_BUDGET_WINDOW in *.
  replace (now -! started <? 1000000000) with false
    by (symmetry; apply Z.ltb_ge; unfold sat_sub; lia).
  cbv zeta. fold allowed. replace (bytes_this_window b <=? allowed) with false
    by (symmetry; apply Z.leb_gt; done). simpl.
  pose proof (scaled_share (admitted_share b) allowed (bytes_this_window b)).
  split_and!; [lia| |done].
  destruct (Z.max_spec (admitted_share b * allowed / bytes_this_window b) 1) as [[? ->]|[? ->]]; [by left|].
  right. rewrite Z.mul_comm. apply Z.mul_div_le. lia.
Qed.

Lemma overrun_closes_share_witness :
  let b := mkBudget false 1000 10000 50000 (Some 0) 0 in
  admitted_share (roll_window 1000000000 b) = 200 /\
  admitted_share (roll_window 1000000000 b) <= admitted_share b.
Proof.
  intros b. split; [vm_compute; reflexivity|].
  apply (overrun_closes_share b 0 1000000000); vm_compute; try done; repeat split; done.
Defined.

Lemma quiet_roll now b started :
  budget_ok b -> admission_disabled b = false -> target_bytes_per_sec b <> 0 ->
  window_started b = Some started -> bytes_this_window b = 0 ->
  WRITE_BUDGET_WINDOW <= now - started ->
  roll_window now b =
    mkBudget false (target_bytes_per_sec b) (Z.min WRITE_BUDGET_SCALE (2 * admitted_share b)) 0
             (Some now) 0.
Proof.
  intros (Ht & _ & Hs) Hd Hne Hw Hb Hel. rewrite Hd, (proj2 (Z.eqb_neq _ _) Hne) in Hs.
  unfold roll_window. rewrite Hw, Hd, Hb. unfold WRITE_BUDGET_WINDOW, WRITE_BUDGET_SCALE in *.
  replace (now -! started <? 1000000000) with false
    by (symmetry; apply Z.ltb_ge; unfold sat_sub; lia).
  cbv zeta. replace (0 <=? _) with true
    by (symmetry; apply Z.leb_le; apply elapsed_allowed_nonneg; [done|apply sat_sub_nonneg]).
  f_equal; [|].
  - unfold clamp, sat_mul, WRITE_BUDGET_MAX_STEP_UP, WRITE_BUDGET_SCALE, u64_max. lia.
  - case_if; [done|]. rewrite Z.mul_0_l, Z.div_0_l by (zbool; lia). done.
Qed.

(** Rolls at the given times, each at least a window after the one before. *)
Fixpoint quiet_times (from : Z) (times : list Z) : bool :=
  match times with
  | [] => true
  | t :: rest => (WRITE_BUDGET_WINDOW <=? t - from) && quiet_times t rest
  end.

Lemma min_scaled m p a : 0 <= m -> 0 < p -> Z.min m (p * Z.min m a) = Z.min m (p * a).
Proof. intros Hm Hp. destruct (Z.min_spec m a) as [[? ->]|[? ->]]; nia. Qed.

Lemma quiet_rolls times b started :
  budget_ok b -> admission_disabled b = false -> target_bytes_per_sec b <> 0 ->
  window_started b = Some started -> bytes_this_window b = 0 -> quiet_times started times = true ->
  admitted_share (fold_left (fun b now => roll_window now b) times b) =
  Z.min WRITE_BUDGET_SCALE (2 ^ Z.of_nat (length times) * admitted_share b).
Proof.
  revert b started. induction times as [|t times IH]; intros b started Hok Hd Hne Hw Hb Hq.
  - simpl. destruct Hok as (_ & _ & Hs). rewrite Hd, (proj2 (Z.eqb_neq _ _) Hne) in Hs. lia.
  - simpl in Hq. zbool. cbn [fold_left].
    pose proof (quiet_roll t b started Hok Hd Hne Hw Hb) as Hr.
    destruct (roll_window_ok t b Hok Hd Hne) as (Hok' & _).
    rewrite Hr in * by done.
    rewrite (IH _ t) by (done || simpl; done). cbn [admitted_share length].
    rewrite Nat2Z.inj_succ, Z.pow_succ_r by lia.
    destruct Hok as (_ & _ & Hs). rewrite Hd, (proj2 (Z.eqb_neq _ _) Hne) in Hs.
    rewrite min_scaled; [f_equal; ring|unfold WRITE_BUDGET_SCALE; lia|].
    apply Z.pow_pos_nonneg; lia.
Qed.

(** C39. However far the share was closed, fourteen windows inside the target
    open it fully again. *)
Theorem quiet_windows_reopen (b : SsdWriteBudget) (started : Z) (times : list Z) :
  budget_ok b -> admission_disabled b = false -> target_bytes_per_sec b <> 0 ->
  window_started b = Some started -> bytes_this_window b = 0 ->
  length times = 14%nat -> quiet_times started times = true ->
  admitted_share (fold_left (fun b now => roll_window now b) times b) = WRITE_BUDGET_SCALE.
Proof.
  intros Hok Hd Hne Hw Hb Hl Hq. rewrite (quiet_rolls _ _ started) by done. rewrite Hl.
  destruct Hok as (_ & _ & Hs). rewrite Hd, (proj2 (Z.eqb_neq _ _) Hne) in Hs.
  unfold WRITE_BUDGET_SCALE in *. lia.
Qed.

Lemma quiet_windows_reopen_witness :
  let times := (fun i => Z.of_nat i * 1000000000) <$> seq 1 14 in
  admitted_share (fold_left (fun b now => roll_window now b) times
                            (mkBudget false 1000 1 0 (Some 0) 0)) = WRITE_BUDGET_SCALE.
Proof.
  intros times. apply (quiet_windows_reopen (mkBudget false 1000 1 0 (Some 0) 0) 0);
    vm_compute; try done; repeat split; done.
Defined.
