(* ===== verification/Writeback.v ===== *)
(** * Asynchronous write-back

    The write-back queue of [MultiLayerCache] (multilayer_cache.rs): writes
    wait in a queue with an index of their positions, a second write of a
    waiting key takes the place of the first, a full queue turns writes back
    to the caller, and a drain hands the oldest to the cache.  The cache they
    go to is behind an interface. *)

From S2P Require Import Prelude Types.

(** ** The cache behind the queue *)

(** [put_batch_sized] with the lengths of the values as their sizes, and
    [put]. *)
Class WritebackCache (S : Type) := {
  cache_put_batch : list (CacheKey * bytes) -> S -> result Z * S;
  cache_put : CacheKey -> bytes -> S -> result unit * S }.

(** ** State *)

Record WritebackStats := mkWbStats {
  async_writeback_enqueued : Z;
  async_writeback_backpressure_rejections : Z;
  async_writeback_drained : Z;
  async_writeback_queue_depth : Z;
  async_writeback_queue_bytes_seen : Z;
  async_writeback_max_queue_depth : Z;
  async_writeback_max_queue_bytes : Z }.

(** [wb_positions] numbers the waiting writes from the first ever, and
    [wb_head] is the number of the oldest. *)
Record Writeback := mkWriteback {
  wb_started : bool;
  wb_queue : list (CacheKey * bytes);
  wb_positions : gmap CacheKey Z;
  wb_head : Z;
  wb_queue_bytes : Z;
  wb_limit : Z;
  wb_stats : WritebackStats }.
Implicit Types (w : Writeback) (key : CacheKey) (value : bytes).

Definition no_wb_stats : WritebackStats := mkWbStats 0 0 0 0 0 0 0.
Definition new_writeback (limit : Z) : Writeback := mkWriteback true [] ∅ 0 0 limit no_wb_stats.
Definition set_wb_queue (q : list (CacheKey * bytes)) (bytes : Z) w : Writeback :=
  mkWriteback (wb_started w) q (wb_positions w) (wb_head w) bytes (wb_limit w) (wb_stats w).
Definition set_wb_positions (m : gmap CacheKey Z) (head : Z) w : Writeback :=
  mkWriteback (wb_started w) (wb_queue w) m head (wb_queue_bytes w) (wb_limit w) (wb_stats w).
Definition set_wb_stats (s : WritebackStats) w : Writeback :=
  mkWriteback (wb_started w) (wb_queue w) (wb_positions w) (wb_head w) (wb_queue_bytes w) (wb_limit w) s.
Definition set_wb_started (b : bool) w : Writeback :=
  mkWriteback b (wb_queue w) (wb_positions w) (wb_head w) (wb_queue_bytes w) (wb_limit w) (wb_stats w).
Definition set_async_writeback_queue_limit (limit : Z) w : Writeback :=
  mkWriteback (wb_started w) (wb_queue w) (wb_positions w) (wb_head w) (wb_queue_bytes w) limit (wb_stats w).

Definition refresh_async_writeback_pressure_stats w : Writeback :=
  let s := wb_stats w in
  let depth := Z.of_nat (length (wb_queue w)) in
  let bytes := wb_queue_bytes w in
  set_wb_stats (mkWbStats (async_writeback_enqueued s) (async_writeback_backpressure_rejections s) (async_writeback_drained s)
    depth bytes (Z.max (async_writeback_max_queue_depth s) depth) (Z.max (async_writeback_max_queue_bytes s) bytes)) w.
Definition note_writeback (enqueued rejected drained : Z) w : Writeback :=
  let s := wb_stats w in
  set_wb_stats (mkWbStats (async_writeback_enqueued s +! enqueued) (async_writeback_backpressure_rejections s +! rejected)
    (async_writeback_drained s +! drained) (async_writeback_queue_depth s) (async_writeback_queue_bytes_seen s)
    (async_writeback_max_queue_depth s) (async_writeback_max_queue_bytes s)) w.

(** ** Enqueueing *)

(** [true] when the write waits now; a position that points outside of the
    queue is dropped and its write turned back. *)
Definition enqueue_one key value w : bool * Writeback :=
  let value_len := blen value in
  match wb_positions w !! key with
  | Some sequence =>
      let existing := if wb_head w <=? sequence then let i := Z.to_nat (sequence - wb_head w) in (fun e => (i, e)) <$> wb_queue w !! i else None in
      match existing with
      | Some (i, e) => (true, set_wb_queue (<[i := (e.1, value)]> (wb_queue w)) (wb_queue_bytes w -! blen e.2 +! value_len) w)
      | None => (false, set_wb_positions (delete key (wb_positions w)) (wb_head w) w)
      end
  | None =>
      if Z.of_nat (length (wb_queue w)) <? wb_limit w then
        let sequence := wrap64 (wb_head w + Z.of_nat (length (wb_queue w))) in
        let w := set_wb_queue (wb_queue w ++ [(key, value)]) (wb_queue_bytes w +! value_len) w in
        (true, set_wb_positions (<[key := sequence]> (wb_positions w)) (wb_head w) w)
      else (false, w)
  end.
Definition enqueue_entry (st : Z * list (CacheKey * bytes) * Writeback) (entry : CacheKey * bytes) : Z * list (CacheKey * bytes) * Writeback :=
  let '(enqueued, rejected, w) := st in
  let '(waits, w) := enqueue_one entry.1 entry.2 w in
  if waits then (enqueued +! 1, rejected, w) else (enqueued, rejected ++ [entry], w).

(** [inr] are the writes turned back. *)
Definition enqueue_async_writeback_batch (entries : list (CacheKey * bytes)) w : (Z + list (CacheKey * bytes)) * Writeback :=
  if bool_decide (entries = []) then (inl 0, w)
  else if negb (wb_started w) then (inr entries, w)
  else
    let '(enqueued, rejected, w) := foldl enqueue_entry (0, [], w) entries in
    let w := refresh_async_writeback_pressure_stats (note_writeback enqueued (Z.of_nat (length rejected)) 0 w) in
    (if bool_decide (rejected = []) then inl enqueued else inr rejected, w).
(** [inr] is the write turned back; [rejected.pop()]. *)
Definition enqueue_async_writeback key value w : (unit + (CacheKey * bytes)) * Writeback :=
  match enqueue_async_writeback_batch [(key, value)] w with
  | (inl _, w) => (inl tt, w)
  | (inr rejected, w) => (inr (default (key, value) (last rejected)), w)
  end.

(** ** Draining *)

Fixpoint pop_jobs (n : nat) w : list (CacheKey * bytes) * Writeback :=
  match n with
  | O => ([], w)
  | S n =>
      match wb_queue w with
      | [] => ([], w)
      | job :: q =>
          let w := set_wb_queue q (wb_queue_bytes w -! blen job.2) w in
          let w := set_wb_positions (delete job.1 (wb_positions w)) (wrap64 (wb_head w + 1)) w in
          let '(jobs, w) := pop_jobs n w in (job :: jobs, w)
      end
  end.

(** The last value of a key, in the place of its first. *)
Definition coalesce_job (st : list (CacheKey * bytes) * gmap CacheKey nat) (job : CacheKey * bytes) : list (CacheKey * bytes) * gmap CacheKey nat :=
  match st.2 !! job.1 with
  | Some i => (alter (fun e => (e.1, job.2)) i st.1, st.2)
  | None => (st.1 ++ [job], <[job.1 := length st.1]> st.2)
  end.
Definition coalesce_jobs (jobs : list (CacheKey * bytes)) : list (CacheKey * bytes) := (foldl coalesce_job ([], ∅) jobs).1.

Record CacheWritebackDrainReport := mkDrain { dr_requested : Z; dr_drained : Z; dr_remaining : Z }.
Record CacheWritebackSubmitReport := mkSubmit { sr_queued : Z; sr_write_through : Z }.

Section drain.
Context {S : Type} `{WritebackCache S}.
Implicit Types (s : S).

(** An empty batch is not put. *)
Definition put_drained (batch : list (CacheKey * bytes)) s : result Z * S := if bool_decide (batch = []) then (Ok 0, s) else cache_put_batch batch s.

Definition drain_async_writeback (max_jobs : nat) (st : Writeback * S) : result CacheWritebackDrainReport * (Writeback * S) :=
  let '(w, s) := st in
  if negb (wb_started w) then (Err Stopped, st)
  else
    let '(jobs, w) := pop_jobs max_jobs w in
    let w := refresh_async_writeback_pressure_stats w in
    let drained := Z.of_nat (length jobs) in
    match put_drained (coalesce_jobs jobs) s with
    | (Err e, s) => (Err e, (w, s))
    | (Ok _, s) =>
        let w := refresh_async_writeback_pressure_stats (note_writeback 0 0 drained w) in
        (Ok (mkDrain (Z.of_nat max_jobs) drained (Z.of_nat (length (wb_queue w)))), (w, s))
    end.
Definition flush_async_writeback (st : Writeback * S) : result CacheWritebackDrainReport * (Writeback * S) :=
  if negb (wb_started st.1) then (Err Stopped, st) else drain_async_writeback (length (wb_queue st.1)) st.

Definition submit_async_writeback_or_write_through key value (st : Writeback * S) : result CacheWritebackSubmitReport * (Writeback * S) :=
  let '(w, s) := st in
  match enqueue_async_writeback key value w with
  | (inl _, w) => (Ok (mkSubmit 1 0), (w, s))
  | (inr job, w) =>
      match cache_put job.1 job.2 s with
      | (Err e, s) => (Err e, (w, s))
      | (Ok _, s) => (Ok (mkSubmit 0 1), (w, s))
      end
  end.
Fixpoint submit_loop (entries : list (CacheKey * bytes)) (report : CacheWritebackSubmitReport) (st : Writeback * S) : result CacheWritebackSubmitReport * (Writeback * S) :=
  match entries with
  | [] => (Ok report, st)
  | (key, value) :: entries =>
      match submit_async_writeback_or_write_through key value st with
      | (Err e, st) => (Err e, st)
      | (Ok r, st) => submit_loop entries (mkSubmit (sr_queued report +! sr_queued r) (sr_write_through report +! sr_write_through r)) st
      end
  end.
Definition submit_async_writeback_batch_or_write_through (entries : list (CacheKey * bytes)) (st : Writeback * S) : result CacheWritebackSubmitReport * (Writeback * S) :=
  submit_loop entries (mkSubmit 0 0) st.
End drain.

(** What clearing the cache does to the queue. *)
Definition clear_writeback w : Writeback := mkWriteback (wb_started w) [] ∅ 0 0 (wb_limit w) (wb_stats w).

(** ** The plain queue

    What the queue promises, without positions, sequence numbers or
    coalescing: a bounded list of writes, one for each key. *)

Definition total (q : list (CacheKey * bytes)) : Z := Z.of_nat (sum_list_with (fun e => length e.2) q).
Definition replace_value key value (q : list (CacheKey * bytes)) : list (CacheKey * bytes) :=
  (fun e => if decide (e.1 = key) then (key, value) else e) <$> q.
(** [None] turns the write back. *)
Definition plain_put (limit : Z) key value (q : list (CacheKey * bytes)) : option (list (CacheKey * bytes)) :=
  if bool_decide (key ∈ q.*1) then Some (replace_value key value q)
  else if Z.of_nat (length q) <? limit then Some (q ++ [(key, value)]) else None.
Definition plain_entry (limit : Z) (st : Z * list (CacheKey * bytes) * list (CacheKey * bytes)) (entry : CacheKey * bytes) : Z * list (CacheKey * bytes) * list (CacheKey * bytes) :=
  let '(enqueued, rejected, q) := st in
  match plain_put limit entry.1 entry.2 q with
  | Some q => (enqueued +! 1, rejected, q)
  | None => (enqueued, rejected ++ [entry], q)
  end.

Record Plain := mkPlain { p_started : bool; p_limit : Z; p_queue : list (CacheKey * bytes) }.
Definition set_p_queue q (p : Plain) : Plain := mkPlain (p_started p) (p_limit p) q.
Definition plain_enqueue (entries : list (CacheKey * bytes)) (p : Plain) : (Z + list (CacheKey * bytes)) * Plain :=
  if bool_decide (entries = []) then (inl 0, p)
  else if negb (p_started p) then (inr entries, p)
  else
    let '(enqueued, rejected, q) := foldl (plain_entry (p_limit p)) (0, [], p_queue p) entries in
    (if bool_decide (rejected = []) then inl enqueued else inr rejected, set_p_queue q p).

(** What a history does, and what each call answers. *)
Inductive WbOp :=
  | WEnqueue (entries : list (CacheKey * bytes)) | WSubmit (key : CacheKey) (value : bytes)
  | WSubmitBatch (entries : list (CacheKey * bytes)) | WDrain (max_jobs : nat) | WFlush
  | WLimit (limit : Z) | WClear | WStarted (b : bool).
Inductive WbOut :=
  | OEnqueue (r : Z + list (CacheKey * bytes)) | OSubmit (r : result CacheWritebackSubmitReport)
  | ODrain (r : result CacheWritebackDrainReport) | ODone.
Definition op_entries (op : WbOp) : list (CacheKey * bytes) :=
  match op with WEnqueue es | WSubmitBatch es => es | WSubmit k v => [(k, v)] | _ => [] end.
Definition all_entries (ops : list WbOp) : list (CacheKey * bytes) := ops ≫= op_entries.

Section histories.
Context {S : Type} `{WritebackCache S}.
Implicit Types (s : S).

Definition plain_submit key value (st : Plain * S) : result CacheWritebackSubmitReport * (Plain * S) :=
  match plain_enqueue [(key, value)] st.1 with
  | (inl _, p) => (Ok (mkSubmit 1 0), (p, st.2))
  | (inr _, p) => let '(r, s) := cache_put key value st.2 in (let? _ := r in Ok (mkSubmit 0 1), (p, s))
  end.
Fixpoint plain_submits (entries : list (CacheKey * bytes)) (report : CacheWritebackSubmitReport) (st : Plain * S) : result CacheWritebackSubmitReport * (Plain * S) :=
  match entries with
  | [] => (Ok report, st)
  | (key, value) :: entries =>
      match plain_submit key value st with
      | (Err e, st) => (Err e, st)
      | (Ok r, st) => plain_submits entries (mkSubmit (sr_queued report +! sr_queued r) (sr_write_through report +! sr_write_through r)) st
      end
  end.
(** The oldest [n] writes go to the cache as they stand. *)
Definition plain_drain (n : nat) (st : Plain * S) : result CacheWritebackDrainReport * (Plain * S) :=
  if negb (p_started st.1) then (Err Stopped, st)
  else
    let q := p_queue st.1 in
    let '(r, s) := put_drained (take n q) st.2 in
    (let? _ := r in Ok (mkDrain (Z.of_nat n) (Z.of_nat (length (take n q))) (Z.of_nat (length (drop n q)))), (set_p_queue (drop n q) st.1, s)).

Definition plain_step (op : WbOp) (st : Plain * S) : WbOut * (Plain * S) :=
  match op with
  | WEnqueue es => let '(r, p) := plain_enqueue es st.1 in (OEnqueue r, (p, st.2))
  | WSubmit k v => let '(r, st) := plain_submit k v st in (OSubmit r, st)
  | WSubmitBatch es => let '(r, st) := plain_submits es (mkSubmit 0 0) st in (OSubmit r, st)
  | WDrain n => let '(r, st) := plain_drain n st in (ODrain r, st)
  | WFlush => let '(r, st) := plain_drain (length (p_queue st.1)) st in (ODrain r, st)
  | WLimit l => (ODone, (mkPlain (p_started st.1) l (p_queue st.1), st.2))
  | WClear => (ODone, (set_p_queue [] st.1, st.2))
  | WStarted b => (ODone, (mkPlain b (p_limit st.1) (p_queue st.1), st.2))
  end.
Definition wb_step (op : WbOp) (st : Writeback * S) : WbOut * (Writeback * S) :=
  match op with
  | WEnqueue es => let '(r, w) := enqueue_async_writeback_batch es st.1 in (OEnqueue r, (w, st.2))
  | WSubmit k v => let '(r, st) := submit_async_writeback_or_write_through k v st in (OSubmit r, st)
  | WSubmitBatch es => let '(r, st) := submit_async_writeback_batch_or_write_through es st in (OSubmit r, st)
  | WDrain n => let '(r, st) := drain_async_writeback n st in (ODrain r, st)
  | WFlush => let '(r, st) := flush_async_writeback st in (ODrain r, st)
  | WLimit l => (ODone, (set_async_writeback_queue_limit l st.1, st.2))
  | WClear => (ODone, (clear_writeback st.1, st.2))
  | WStarted b => (ODone, (set_wb_started b st.1, st.2))
  end.
Fixpoint runs {T} (step : WbOp -> T -> WbOut * T) (ops : list WbOp) (st : T) : list WbOut * T :=
  match ops with
  | [] => ([], st)
  | op :: ops => let '(o, st) := step op st in let '(os, st) := runs step ops st in (o :: os, st)
  end.
End histories.

(** ** The index of positions *)

(** Each waiting write is at the place its position says, and there is one
    for each key, so that no position ever points outside of the queue. *)
Record wb_ok w : Prop := {
  wo_nodup : NoDup (wb_queue w).*1;
  wo_index : forall key sequence, wb_positions w !! key = Some sequence <-> exists i : nat, (wb_queue w).*1 !! i = Some key /\ sequence = wb_head w + Z.of_nat i;
  wo_bytes : wb_queue_bytes w = total (wb_queue w);
  wo_head : 0 <= wb_head w }.
(** There is room for these more writes before a counter overflows. *)
Definition wb_room w (es : list (CacheKey * bytes)) : Prop :=
  wb_head w + Z.of_nat (length (wb_queue w)) + Z.of_nat (length es) < 2 ^ 64 /\ total (wb_queue w) + total es < 2 ^ 64.
Definition wb_plain w : Plain := mkPlain (wb_started w) (wb_limit w) (wb_queue w).

Lemma total_nonneg q : 0 <= total q.
Proof. unfold total. lia. Qed.
Lemma total_cons e q : total (e :: q) = blen e.2 + total q.
Proof. unfold total, blen. simpl. lia. Qed.
Lemma total_app q q' : total (q ++ q') = total q + total q'.
Proof. unfold total. rewrite sum_list_with_app. lia. Qed.
Lemma total_insert i e e' q : q !! i = Some e -> total (<[i := e']> q) = total q - blen e.2 + blen e'.2.
Proof.
  intros Hi. pose proof (lookup_lt_Some _ _ _ Hi).
  rewrite insert_take_drop by done. rewrite <- (take_drop_middle _ _ _ Hi) at 3.
  rewrite !total_app, !total_cons. lia.
Qed.

Lemma replace_value_keys key value q : (replace_value key value q).*1 = q.*1.
Proof.
  unfold replace_value. rewrite <- list_fmap_compose. apply list_fmap_ext. intros _ e _. simpl.
  destruct (decide _) as [<-|]; done.
Qed.
Lemma insert_replaces i e key value q : NoDup q.*1 -> q !! i = Some e -> e.1 = key ->
  <[i := (key, value)]> q = replace_value key value q.
Proof.
  intros Hnd Hi He. apply list_eq. intros j. unfold replace_value. rewrite list_lookup_fmap.
  destruct (decide (i = j)) as [<-|Hne].
  - rewrite list_lookup_insert_eq, Hi by (by eapply lookup_lt_Some). simpl. by rewrite decide_True.
  - rewrite list_lookup_insert_ne by done. destruct (q !! j) as [e'|] eqn:Hj; [|done]. simpl.
    rewrite decide_False; [done|]. intros He'. apply Hne. eapply (NoDup_lookup q.*1); [done|rewrite list_lookup_fmap, Hi; simpl; by rewrite He|].
    rewrite list_lookup_fmap, Hj. simpl. by rewrite He'.
Qed.

Lemma wb_ok_fields w w' : wb_queue w' = wb_queue w -> wb_positions w' = wb_positions w -> wb_head w' = wb_head w ->
  wb_queue_bytes w' = wb_queue_bytes w -> wb_ok w -> wb_ok w'.
Proof. intros E1 E2 E3 E4 []. split; rewrite ?E1, ?E2, ?E3, ?E4; auto. Qed.

Lemma waiting_position w key : wb_ok w -> key ∈ (wb_queue w).*1 ->
  exists i e, wb_positions w !! key = Some (wb_head w + Z.of_nat i) /\ wb_queue w !! i = Some e /\ e.1 = key.
Proof.
  intros Hok [i Hi]%list_elem_of_lookup. pose proof Hi as Hi'. rewrite list_lookup_fmap in Hi'.
  destruct (wb_queue w !! i) as [e|] eqn:He; simplify_eq/=. exists i, e.
  split_and!; [|done..]. apply (wo_index w Hok). by exists i.
Qed.
Lemma absent_position w key : wb_ok w -> key ∉ (wb_queue w).*1 -> wb_positions w !! key = None.
Proof.
  intros Hok Hk. destruct (wb_positions w !! key) as [sequence|] eqn:E; [|done].
  apply (wo_index w Hok) in E as (i & Hi & _). destruct Hk. by eapply list_elem_of_lookup_2.
Qed.

Lemma enqueue_waiting w key value : wb_ok w -> wb_room w [(key, value)] -> key ∈ (wb_queue w).*1 ->
  let w' := set_wb_queue (replace_value key value (wb_queue w)) (total (replace_value key value (wb_queue w))) w in
  enqueue_one key value w = (true, w') /\ wb_ok w'.
Proof.
  intros Hok [_ Hroom] Hk. destruct (waiting_position w key Hok Hk) as (i & e & Hp & He & Hek). simpl.
  pose proof (total_insert i e (key, value) _ He) as Ht. pose proof (wo_bytes w Hok). pose proof (wo_nodup w Hok) as Hnd.
  pose proof (take_drop_middle _ _ _ He) as Hmid. apply (f_equal total) in Hmid. rewrite total_app, total_cons in Hmid.
  pose proof (total_nonneg (take i (wb_queue w))). pose proof (total_nonneg (drop (S i) (wb_queue w))). pose proof (blen_nonneg e.2).
  rewrite total_cons in Hroom. simpl in Hroom, Ht. change (total []) with 0 in Hroom.
  pose proof (insert_replaces i e key value _ Hnd He Hek) as Hr. rewrite <- Hr. split.
  - unfold enqueue_one. rewrite Hp, (proj2 (Z.leb_le _ _)) by lia.
    replace (Z.to_nat _) with i by lia. rewrite He. simpl. rewrite Hek. do 2 f_equal.
    rewrite sat_sub_exact, sat_add_exact by (unfold u64_max; lia). lia.
  - rewrite Hr. destruct Hok. split; simpl; rewrite ?replace_value_keys; auto.
Qed.

Lemma enqueue_new w key value : wb_ok w -> wb_room w [(key, value)] -> key ∉ (wb_queue w).*1 -> Z.of_nat (length (wb_queue w)) < wb_limit w ->
  exists w', enqueue_one key value w = (true, w') /\ wb_ok w' /\ wb_queue w' = wb_queue w ++ [(key, value)] /\
    wb_head w' = wb_head w /\ wb_limit w' = wb_limit w /\ wb_started w' = wb_started w.
Proof.
  intros Hok [Hn Hb] Hk Hl. pose proof (wo_head w Hok). simpl in Hn. rewrite total_cons in Hb. change (total []) with 0 in Hb. simpl in Hb.
  unfold enqueue_one. rewrite absent_position by done. rewrite (proj2 (Z.ltb_lt _ _)) by done.
  rewrite wrap64_small by lia. rewrite sat_add_exact by (rewrite (wo_bytes w Hok); unfold u64_max; lia).
  eexists. split_and!; [done| |done..]. destruct Hok as [Hnd Hidx Hbytes Hhead]. split; simpl.
  - rewrite fmap_app, NoDup_app. simpl. split_and!; [done|set_solver|apply NoDup_singleton].
  - intros k sequence. rewrite fmap_app. destruct (decide (key = k)) as [<-|Hne].
    + rewrite lookup_insert_eq. split.
      * intros [= <-]. exists (length (wb_queue w)). split; [|done]. rewrite lookup_app_r by (rewrite length_fmap; lia).
        rewrite length_fmap, Nat.sub_diag. done.
      * intros (i & Hi & ->). apply lookup_app_Some in Hi as [Hi|[Hle Hi]].
        -- destruct Hk. by eapply list_elem_of_lookup_2.
        -- apply list_lookup_singleton_Some in Hi as [Hi _]. rewrite length_fmap in *. do 2 f_equal. lia.
    + rewrite lookup_insert_ne, Hidx by done. split; intros (i & Hi & ->); exists i; (split; [|done]).
      * by apply lookup_app_l_Some.
      * apply lookup_app_Some in Hi as [Hi|[_ Hi]]; [done|]. apply list_lookup_singleton_Some in Hi as [_ Hi]. done.
  - rewrite total_app, total_cons. change (total []) with 0. simpl. lia.
  - done.
Qed.

(** One write: what the plain queue does. *)
Lemma enqueue_one_plain w key value es : wb_ok w -> wb_room w ((key, value) :: es) ->
  exists w', enqueue_one key value w = (bool_decide (is_Some (plain_put (wb_limit w) key value (wb_queue w))), w') /\ wb_ok w' /\ wb_room w' es /\
    wb_plain w' = set_p_queue (default (wb_queue w) (plain_put (wb_limit w) key value (wb_queue w))) (wb_plain w).
Proof.
  intros Hok Hroom. pose proof (total_nonneg es). pose proof (blen_nonneg value).
  assert (Hroom1 : wb_room w [(key, value)]).
  { destruct Hroom as [Hn Hb]. rewrite total_cons in Hb. split; simpl in *; [lia|]. rewrite total_cons. change (total []) with 0. simpl. lia. }
  destruct Hroom as [Hn Hb]. rewrite total_cons in Hb. simpl in Hn, Hb.
  unfold plain_put. destruct (decide (key ∈ (wb_queue w).*1)) as [Hk|Hk]; [rewrite (bool_decide_eq_true_2 (key ∈ _)) by done|rewrite (bool_decide_eq_false_2 (key ∈ _)) by done].
  - destruct (enqueue_waiting w key value Hok Hroom1 Hk) as [-> Hok']. eexists. split_and!; [done|done| |done].
    pose proof Hroom1 as [_ Hb1]. split; simpl; [unfold replace_value; rewrite length_fmap; lia|].
    destruct (waiting_position w key Hok Hk) as (i & e & _ & He & Hek).
    rewrite <- (insert_replaces i e) by eauto using wo_nodup. rewrite (total_insert i e) by done. simpl. pose proof (blen_nonneg e.2). lia.
  - destruct (Z.ltb_spec (Z.of_nat (length (wb_queue w))) (wb_limit w)) as [Hl|Hl].
    + destruct (enqueue_new w key value Hok Hroom1 Hk Hl) as (w' & -> & Hok' & Hq & Hh & Hli & Hst). exists w'. split_and!; [done|done| |].
      * split; rewrite Hq; [rewrite Hh, length_app; simpl; lia|]. rewrite total_app, total_cons. change (total []) with 0. simpl. lia.
      * unfold wb_plain, set_p_queue. simpl. by rewrite Hq, Hli, Hst.
    + exists w. unfold enqueue_one. rewrite absent_position by done. rewrite (proj2 (Z.ltb_ge _ _)) by done. split_and!; [done|done| |by destruct w].
      split; [simpl in *; lia|lia].
Qed.

(** A batch: the entries one after the other. *)
Lemma enqueue_entries_plain es rest w n rejected : wb_ok w -> wb_room w (es ++ rest) ->
  exists w', let '(n', rejected', q') := foldl (plain_entry (wb_limit w)) (n, rejected, wb_queue w) es in
    foldl enqueue_entry (n, rejected, w) es = (n', rejected', w') /\ wb_ok w' /\ wb_room w' rest /\ wb_plain w' = set_p_queue q' (wb_plain w).
Proof.
  revert w n rejected. induction es as [|[key value] es IH]; intros w n rejected Hok Hroom; [exists w; by destruct w|]. simpl in Hroom |- *.
  destruct (enqueue_one_plain w key value (es ++ rest) Hok Hroom) as (w' & -> & Hok' & Hroom' & Hp).
  pose proof (f_equal p_limit Hp) as Hl. pose proof (f_equal p_queue Hp) as Hq. simpl in Hl, Hq.
  destruct (plain_put (wb_limit w) key value (wb_queue w)) as [q|]; simpl in *.
  - destruct (IH w' (n +! 1) rejected Hok' Hroom') as (w'' & IH'). exists w''. rewrite Hl, Hq in IH'.
    destruct (foldl _ (n +! 1, rejected, q) es) as [[n' rej'] q']. destruct IH' as (H1 & H2 & H3 & H4). split_and!; try done. by rewrite H4, Hp.
  - destruct (IH w' n (rejected ++ [(key, value)]) Hok' Hroom') as (w'' & IH'). exists w''. rewrite Hl, Hq in IH'.
    destruct (foldl _ (n, rejected ++ _, _) es) as [[n' rej'] q']. destruct IH' as (H1 & H2 & H3 & H4). split_and!; try done. by rewrite H4, Hp.
Qed.
Lemma enqueue_batch_plain es rest w : wb_ok w -> wb_room w (es ++ rest) ->
  exists w', enqueue_async_writeback_batch es w = ((plain_enqueue es (wb_plain w)).1, w') /\ wb_ok w' /\ wb_room w' rest /\
    wb_plain w' = (plain_enqueue es (wb_plain w)).2.
Proof.
  intros Hok Hroom. unfold enqueue_async_writeback_batch, plain_enqueue. case_bool_decide as Hes.
  { subst. by exists w. }
  destruct Hroom as [Hn Hb]. simpl. destruct (wb_started w) eqn:Hst; simpl.
  - destruct (enqueue_entries_plain es rest w 0 [] Hok (conj Hn Hb)) as (w' & Hw').
    destruct (foldl (plain_entry _) _ es) as [[n rejected] q]. destruct Hw' as (-> & Hok' & Hroom' & Hp).
    eexists. split_and!; [done| | |].
    + by apply (wb_ok_fields w').
    + exact Hroom'.
    + exact Hp.
  - exists w. rewrite length_app, total_app in *. pose proof (total_nonneg es).
    split_and!; [done|done| |done]. split; lia.
Qed.

(** A drain pops the oldest writes. *)
Lemma pop_one w job q : wb_ok w -> wb_head w + Z.of_nat (length (wb_queue w)) < 2 ^ 64 -> wb_queue w = job :: q ->
  wb_ok (set_wb_positions (delete job.1 (wb_positions w)) (wb_head w + 1) (set_wb_queue q (total q) w)).
Proof.
  intros [Hnd Hidx Hb Hh] Hroom Hq. rewrite Hq in Hnd, Hidx. simpl in Hnd, Hidx. apply NoDup_cons in Hnd as [Hj Hnd]. split; simpl; auto with lia.
  intros key sequence. destruct (decide (key = job.1)) as [->|Hne].
  - rewrite lookup_delete_eq. split; [done|]. intros (i & Hi & _). destruct Hj. by eapply list_elem_of_lookup_2.
  - rewrite lookup_delete_ne, Hidx by done. split.
    + intros ([|i] & Hi & ->); simpl in Hi; [by simplify_eq|]. exists i. split; [done|lia].
    + intros (i & Hi & ->). exists (S i). split; [done|lia].
Qed.
Lemma pop_jobs_plain n w es : wb_ok w -> wb_room w es ->
  exists w', pop_jobs n w = (take n (wb_queue w), w') /\ wb_ok w' /\ wb_room w' es /\ wb_plain w' = set_p_queue (drop n (wb_queue w)) (wb_plain w).
Proof.
  revert w. induction n as [|n IH]; intros w Hok Hroom; [exists w; by destruct w|]. simpl.
  destruct (wb_queue w) as [|job q] eqn:Hq; [exists w; split_and!; [done..|unfold wb_plain; by rewrite Hq]|].
  destruct Hroom as [Hn Hb]. pose proof (wo_head w Hok). rewrite Hq, total_cons in Hb. pose proof (blen_nonneg job.2). pose proof (total_nonneg q). pose proof (total_nonneg es).
  pose proof (pop_one w job q Hok ltac:(lia) Hq) as Hok'.
  rewrite (wo_bytes w Hok), Hq, total_cons, sat_sub_exact by lia. simpl. rewrite Hq in Hn. simpl in Hn. rewrite wrap64_small by lia.
  replace (blen job.2 + total q - blen job.2) with (total q) by lia.
  destruct (IH _ Hok') as (w' & Hp & ? & ? & ?); [split; simpl; lia|]. simpl in Hp. rewrite Hp. exists w'. done.
Qed.

(** Waiting writes have one key each, so coalescing leaves them alone. *)
Lemma coalesce_distinct jobs : NoDup jobs.*1 -> coalesce_jobs jobs = jobs.
Proof.
  intros Hnd. enough (exists m, foldl coalesce_job ([], ∅) jobs = (jobs, m) /\ forall key, is_Some (m !! key) <-> key ∈ jobs.*1) as (m & Hm & _).
  { unfold coalesce_jobs. by rewrite Hm. }
  induction jobs as [|job jobs IH] using rev_ind.
  { exists ∅. split; [done|]. intros key. rewrite lookup_empty, elem_of_nil. by split; [intros []|]. }
  rewrite fmap_app in Hnd. apply NoDup_app in Hnd as (Hnd & Hj & _). destruct (IH Hnd) as (m & Hm & Hdom).
  rewrite foldl_app, Hm. simpl. unfold coalesce_job. simpl. destruct (m !! job.1) as [i|] eqn:E.
  - destruct (Hj job.1); [apply Hdom; by eexists|simpl; set_solver].
  - eexists. split; [done|]. intros key. rewrite fmap_app, lookup_insert_is_Some', Hdom. set_solver.
Qed.

(** ** The queue is the plain queue *)

#[local] Arguments submit_async_writeback_or_write_through : simpl never.
#[local] Arguments drain_async_writeback : simpl never.
#[local] Arguments flush_async_writeback : simpl never.
#[local] Arguments enqueue_async_writeback_batch : simpl never.
#[local] Arguments plain_enqueue : simpl never.
#[local] Arguments plain_submit : simpl never.
#[local] Arguments plain_drain : simpl never.

Section refinement.
Context {S : Type} `{WritebackCache S}.
Implicit Types (s : S).

(** The same answer and the same cache, and a queue in order that holds the
    same writes. *)
Definition wb_sim {A} (es : list (CacheKey * bytes)) (a : A * (Writeback * S)) (b : A * (Plain * S)) : Prop :=
  a.1 = b.1 /\ a.2.2 = b.2.2 /\ wb_plain a.2.1 = b.2.1 /\ wb_ok a.2.1 /\ wb_room a.2.1 es.

Lemma drain_sim n w s es : wb_ok w -> wb_room w es -> wb_sim es (drain_async_writeback n (w, s)) (plain_drain n (wb_plain w, s)).
Proof.
  intros Hok Hroom. unfold drain_async_writeback, plain_drain. simpl. destruct (wb_started w); simpl; [|by split_and!].
  destruct (pop_jobs_plain n w es Hok Hroom) as (w' & -> & Hok' & Hroom' & Hp). pose proof (f_equal p_queue Hp) as Hq. simpl in Hq.
  rewrite coalesce_distinct by (rewrite fmap_take; eapply sublist_NoDup; [apply (wo_nodup w Hok)|apply sublist_take]).
  destruct (put_drained _ s) as [[x|e] s']; split_and!; simpl; rewrite ?Hq; try done; by apply (wb_ok_fields w').
Qed.
Lemma flush_sim w s es : wb_ok w -> wb_room w es -> wb_sim es (flush_async_writeback (w, s)) (plain_drain (length (wb_queue w)) (wb_plain w, s)).
Proof.
  intros Hok Hroom. unfold flush_async_writeback. change ((w, s).1) with w. destruct (wb_started w) eqn:E; [by apply drain_sim|].
  unfold plain_drain. simpl. rewrite E. by split_and!.
Qed.
Lemma plain_enqueue_single key value p r p' : plain_enqueue [(key, value)] p = (inr r, p') -> r = [(key, value)].
Proof.
  unfold plain_enqueue. simpl. destruct (p_started p); simpl; [|congruence].
  destruct (plain_put _ key value _); simpl; congruence.
Qed.
Lemma submit_sim key value w s es : wb_ok w -> wb_room w ((key, value) :: es) ->
  wb_sim es (submit_async_writeback_or_write_through key value (w, s)) (plain_submit key value (wb_plain w, s)).
Proof.
  intros Hok Hroom. unfold submit_async_writeback_or_write_through, enqueue_async_writeback, plain_submit.
  destruct (enqueue_batch_plain [(key, value)] es w Hok Hroom) as (w' & -> & Hok' & Hroom' & Hp). simpl.
  destruct (plain_enqueue _ (wb_plain w)) as [[n|r] p] eqn:E; simpl in *; [by split_and!|].
  apply plain_enqueue_single in E as ->. simpl. destruct (cache_put key value s) as [[x|e] s']; by split_and!.
Qed.
Lemma submits_sim entries report w s es : wb_ok w -> wb_room w (entries ++ es) ->
  wb_sim es (submit_loop entries report (w, s)) (plain_submits entries report (wb_plain w, s)).
Proof.
  revert report w s. induction entries as [|[key value] entries IH]; intros report w s Hok Hroom; simpl; [by split_and!|].
  destruct (submit_sim key value w s (entries ++ es) Hok Hroom) as (H1 & H2 & H3 & H4 & H5).
  destruct (submit_async_writeback_or_write_through _ _ _) as [r [w' s']], (plain_submit _ _ _) as [r' [p' s'']]. simpl in *. subst r' s'' p'.
  destruct r as [r|e]; [by apply IH|]. split_and!; try done. simpl.
  destruct H5 as [Hn Hb]. rewrite length_app, total_app in *. pose proof (total_nonneg entries). split; simpl; lia.
Qed.

Lemma wb_step_sim op w s es : wb_ok w -> wb_room w (op_entries op ++ es) -> wb_sim es (wb_step op (w, s)) (plain_step op (wb_plain w, s)).
Proof.
  intros Hok Hroom. destruct op; simpl in *.
  - destruct (enqueue_batch_plain entries es w Hok Hroom) as (w' & -> & Hok' & Hroom' & Hp). by destruct (plain_enqueue _ _).
  - destruct (submit_sim key value w s es Hok Hroom) as (H1 & H2 & H3 & H4 & H5).
    destruct (submit_async_writeback_or_write_through _ _ _) as [r [w' s']], (plain_submit _ _ _) as [r' [p' s'']]. simpl in *. by subst.
  - destruct (submits_sim entries (mkSubmit 0 0) w s es Hok Hroom) as (H1 & H2 & H3 & H4 & H5). unfold submit_async_writeback_batch_or_write_through.
    destruct (submit_loop _ _ _) as [r [w' s']], (plain_submits _ _ _) as [r' [p' s'']]. simpl in *. by subst.
  - destruct (drain_sim max_jobs w s es Hok Hroom) as (H1 & H2 & H3 & H4 & H5).
    destruct (drain_async_writeback _ _) as [r [w' s']], (plain_drain _ _) as [r' [p' s'']]. simpl in *. by subst.
  - destruct (flush_sim w s es Hok Hroom) as (H1 & H2 & H3 & H4 & H5).
    destruct (flush_async_writeback _) as [r [w' s']], (plain_drain _ _) as [r' [p' s'']]. simpl in *. by subst.
  - split_and!; try done. by apply (wb_ok_fields w).
  - split_and!; try done; simpl.
    + split; simpl; [constructor| |done|done]. intros key sequence. rewrite lookup_empty. split; [done|]. by intros (i & ? & _).
    + destruct Hroom as [Hn Hb]. pose proof (wo_head w Hok). pose proof (total_nonneg (wb_queue w)). split; simpl; change (total []) with 0; lia.
  - split_and!; try done. by apply (wb_ok_fields w).
Qed.
Lemma runs_sim ops w s : wb_ok w -> wb_room w (all_entries ops) -> wb_sim [] (runs wb_step ops (w, s)) (runs plain_step ops (wb_plain w, s)).
Proof.
  revert w s. induction ops as [|op ops IH]; intros w s Hok Hroom; simpl; [by split_and!|].
  destruct (wb_step_sim op w s (all_entries ops) Hok Hroom) as (H1 & H2 & H3 & H4 & H5).
  destruct (wb_step op (w, s)) as [o [w' s']], (plain_step op (wb_plain w, s)) as [o' [p' s'']]. simpl in *. subst o' s'' p'.
  destruct (IH w' s' H4 H5) as (G1 & G2 & G3 & G4 & G5).
  destruct (runs wb_step ops _) as [os [w1 s1]], (runs plain_step ops _) as [os' [p1 s2]]. simpl in *. by subst.
Qed.
Lemma new_writeback_ok limit : wb_ok (new_writeback limit).
Proof. split; simpl; [constructor| |done..]. intros key sequence. rewrite lookup_empty. split; [done|]. by intros (i & ? & _). Qed.

(** C26. The write-back queue, with its index of positions, its sequence
    numbers, its byte count and its coalescing, is a plain bounded queue:
    over any cache and for any history of enqueues, submits, drains,
    flushes, limits, stops and clears that makes fewer than 2^64 writes of
    fewer than 2^64 bytes, every call answers what the plain queue
    answers (failures of the cache included), the cache ends in the same
    state, the same writes wait in the same order, one for each key, and
    the byte count is the number of bytes that wait. *)
Theorem writeback_refines limit ops s :
  Z.of_nat (length (all_entries ops)) < 2 ^ 64 -> total (all_entries ops) < 2 ^ 64 ->
  let '(outs, (w, s1)) := runs wb_step ops (new_writeback limit, s) in
  let '(outs', (p, s2)) := runs plain_step ops (mkPlain true limit [], s) in
  outs = outs' /\ s1 = s2 /\ wb_queue w = p_queue p /\ NoDup (p_queue p).*1 /\ wb_queue_bytes w = total (p_queue p).
Proof.
  intros Hn Hb. destruct (runs_sim ops (new_writeback limit) s (new_writeback_ok limit)) as (H1 & H2 & H3 & H4 & _); [by split|].
  change (wb_plain (new_writeback limit)) with (mkPlain true limit []) in H1, H2, H3.
  destruct (runs wb_step _ _) as [os [w1 s1]], (runs plain_step _ _) as [os' [p1 s2]]. simpl in *. subst.
  split_and!; [done..|apply (wo_nodup _ H4)|apply (wo_bytes _ H4)].
Qed.
End refinement.

(** ** The last write wins *)

(** The value each key was written last. *)
Definition lasts (writes : list (CacheKey * bytes)) : gmap CacheKey bytes := list_to_map (reverse writes).

Lemma lasts_app l l' : lasts (l ++ l') = lasts l' ∪ lasts l.
Proof. unfold lasts. by rewrite reverse_app, list_to_map_app. Qed.
Lemma lasts_snoc l key value : lasts (l ++ [(key, value)]) = <[key := value]> (lasts l).
Proof. unfold lasts. by rewrite reverse_snoc. Qed.
Lemma lasts_none l key : key ∉ l.*1 -> lasts l !! key = None.
Proof. intros Hk. unfold lasts. apply not_elem_of_list_to_map. rewrite fmap_reverse. by rewrite elem_of_reverse. Qed.

Lemma replace_absent key value q : key ∉ q.*1 -> replace_value key value q = q.
Proof.
  intros Hk. unfold replace_value. rewrite <- (list_fmap_id q) at 2. apply list_fmap_ext. intros i e He. simpl.
  rewrite decide_False; [done|]. intros <-. destruct Hk. apply list_elem_of_fmap. exists e. split; [done|]. by eapply list_elem_of_lookup_2.
Qed.
Lemma lasts_replace key value q : NoDup q.*1 -> key ∈ q.*1 -> lasts (replace_value key value q) = <[key := value]> (lasts q).
Proof.
  induction q as [|[k v] q IH] using rev_ind; intros Hnd Hk; [by apply elem_of_nil in Hk|].
  rewrite fmap_app in Hnd, Hk. apply NoDup_app in Hnd as (Hnd & Hd & _).
  unfold replace_value. rewrite fmap_app. fold (replace_value key value q). simpl. destruct (decide (k = key)) as [->|Hne].
  - rewrite replace_absent by (intros Hin; apply (Hd key Hin); set_solver). by rewrite !lasts_snoc, insert_insert_eq.
  - rewrite !lasts_snoc, IH by (try done; set_solver). by rewrite insert_insert_ne.
Qed.

Lemma plain_put_some limit key value q q' log : NoDup q.*1 -> plain_put limit key value q = Some q' ->
  NoDup q'.*1 /\ lasts (log ++ q') = <[key := value]> (lasts (log ++ q)) /\ key ∈ q'.*1 /\ q.*1 ⊆ q'.*1 /\
  (limit <= Z.of_nat (length q) -> key ∈ q.*1 /\ q'.*1 = q.*1) /\ (length q <= length q')%nat.
Proof.
  intros Hnd. unfold plain_put. case_bool_decide as Hk; [|case_if; [|done]]; intros [= <-].
  - rewrite replace_value_keys, !lasts_app, lasts_replace, insert_union_l by done. unfold replace_value. by rewrite length_fmap.
  - rewrite app_assoc, lasts_snoc, fmap_app, length_app. simpl. split_and!; [|done|set_solver|set_solver|zbool; lia|lia].
    apply NoDup_app. split_and!; [done|set_solver|apply NoDup_singleton].
Qed.
Lemma plain_put_none limit key value q : plain_put limit key value q = None -> key ∉ q.*1 /\ limit <= Z.of_nat (length q).
Proof. unfold plain_put. case_bool_decide; [done|]. case_if; [done|]. zbool. auto. Qed.

(** Of a batch, the writes that are not turned back. *)
Lemma plain_entries_lasts limit q es log : NoDup q.*1 ->
  let '(n, rejected, q') := foldl (plain_entry limit) (0, [], q) es in
  NoDup q'.*1 /\ (forall e, e ∈ rejected -> e.1 ∉ q'.*1 /\ limit <= Z.of_nat (length q')) /\
  (forall e, e ∈ es -> e ∈ rejected \/ e.1 ∈ q'.*1) /\ lasts (log ++ q') = lasts ((log ++ q) ++ filter (fun e => e ∉ rejected) es).
Proof.
  intros Hnd. induction es as [|[k v] es IH] using rev_ind; simpl.
  { split_and!; [done|set_solver|set_solver|by rewrite app_nil_r]. }
  rewrite foldl_app. destruct (foldl _ _ es) as [[n rejected] q']. simpl. destruct IH as (Hnd' & Hrej & Hes & Hl).
  destruct (plain_put limit k v q') as [q''|] eqn:E.
  - apply (plain_put_some _ _ _ _ _ log Hnd') in E as (Hnd'' & Hl' & Hk & Hsub & Hfull & Hlen).
    assert (Hn : (k, v) ∉ rejected). { intros Hin. destruct (Hrej _ Hin) as [Hn Hf]. by apply Hn, Hfull. }
    split_and!; [done| | |].
    + intros e He. destruct (Hrej e He) as [Hn' Hf]. destruct (Hfull Hf) as [_ ->]. split; [done|lia].
    + intros e [He| ->%list_elem_of_singleton]%elem_of_app; [|by right]. destruct (Hes e He); [by left|right; by apply Hsub].
    + rewrite filter_app, filter_cons_True by done. by rewrite filter_nil, app_assoc, lasts_snoc, Hl', Hl.
  - apply plain_put_none in E as [Hk Hf]. split_and!; [done| | |].
    + intros e [He| ->%list_elem_of_singleton]%elem_of_app; [by apply Hrej|done].
    + intros e [He| ->%list_elem_of_singleton]%elem_of_app; [destruct (Hes e He); set_solver|set_solver].
    + rewrite filter_app, (filter_cons_False _ (k, v)), filter_nil, app_nil_r by set_solver. rewrite Hl. do 2 f_equal.
      apply filter_agree. intros e He. destruct (Hes e He) as [Hr|Hq]; [set_solver|].
      split; intros Hn Hin; apply Hn; [|set_solver]. apply elem_of_app in Hin as [| ->%list_elem_of_singleton]; [done|]. done.
Qed.

(** The writes an operation took, as its answer says. *)
Definition taken (op : WbOp) (o : WbOut) : list (CacheKey * bytes) :=
  match op, o with
  | WEnqueue es, OEnqueue (inr rejected) => filter (fun e => e ∉ rejected) es
  | _, _ => op_entries op
  end.
Definition all_taken (ops : list WbOp) (outs : list WbOut) : list (CacheKey * bytes) := concat (zip_with taken ops outs).
(** Neither clears the queue nor stops the cache. *)
Definition steady (op : WbOp) : Prop := match op with WClear | WStarted _ => False | _ => True end.

(** Any cache, with a record of the writes it took. *)
#[local] Instance recording {S} `{WritebackCache S} : WritebackCache (list (CacheKey * bytes) * S) := {
  cache_put_batch batch st := let '(r, s) := cache_put_batch batch st.2 in (r, (if is_ok r then st.1 ++ batch else st.1, s));
  cache_put key value st := let '(r, s) := cache_put key value st.2 in (r, (if is_ok r then st.1 ++ [(key, value)] else st.1, s)) }.

Section last_write.
Context {S : Type} `{WritebackCache S}.
Hypothesis puts_succeed : forall key value (s : S), is_ok (cache_put key value s).1.
Hypothesis batches_succeed : forall batch (s : S), is_ok (cache_put_batch batch s).1.
Implicit Types (st : Plain * (list (CacheKey * bytes) * S)).

(** The writes that reached the cache, and those that wait. *)
Definition all_writes st : list (CacheKey * bytes) := st.2.1 ++ p_queue st.1.
Definition plain_ok st : Prop := p_started st.1 = true /\ NoDup (p_queue st.1).*1.

Lemma put_drained_records batch log (s : S) : exists n s', put_drained batch (log, s) = (Ok n, (log ++ batch, s')).
Proof.
  unfold put_drained. case_bool_decide as Hb; [subst; exists 0, s; by rewrite app_nil_r|]. simpl.
  pose proof (batches_succeed batch s) as Hs. destruct (cache_put_batch batch s) as [[n|e] s']; [|done]. by exists n, s'.
Qed.
Lemma drain_keeps n st : plain_ok st -> plain_ok (plain_drain n st).2 /\ all_writes (plain_drain n st).2 = all_writes st /\
  p_queue (plain_drain n st).2.1 = drop n (p_queue st.1).
Proof.
  destruct st as [p [log s]]. intros [Hst Hnd]. unfold plain_drain, all_writes. simpl in *. rewrite Hst. simpl.
  destruct (put_drained_records (take n (p_queue p)) log s) as (m & s' & ->). simpl. rewrite <- app_assoc, take_drop.
  split_and!; try done. split; [done|]. simpl. rewrite fmap_drop. eapply sublist_NoDup; [done|]. apply sublist_drop.
Qed.
Lemma enqueue_keeps es st : plain_ok st -> let '(r, p) := plain_enqueue es st.1 in
  plain_ok (p, st.2) /\ lasts (all_writes (p, st.2)) = lasts (all_writes st ++ taken (WEnqueue es) (OEnqueue r)).
Proof.
  destruct st as [p [log s]]. intros [Hst Hnd]. unfold plain_enqueue, all_writes, taken. simpl in *. rewrite Hst.
  case_bool_decide as Hes; simpl; [subst; by rewrite app_nil_r|].
  pose proof (plain_entries_lasts (p_limit p) (p_queue p) es log Hnd) as Hl. destruct (foldl _ _ es) as [[n rejected] q].
  destruct Hl as (Hnd' & _ & _ & Hl). simpl. split; [done|]. case_bool_decide as Hr; [|done]. rewrite Hl. subst. do 2 f_equal.
  rewrite (filter_agree _ (fun _ => True)) by (split; [done|]; intros _ Hin; by apply elem_of_nil in Hin).
  clear. induction es as [|e es IH]; [done|]. by rewrite filter_cons_True, IH.
Qed.
Lemma submit_keeps key value st : plain_ok st -> plain_ok (plain_submit key value st).2 /\ is_ok (plain_submit key value st).1 /\
  lasts (all_writes (plain_submit key value st).2) = lasts (all_writes st ++ [(key, value)]).
Proof.
  destruct st as [p [log s]]. intros [Hst Hnd]. unfold plain_submit, plain_enqueue, all_writes. simpl in *. rewrite Hst. simpl.
  destruct (plain_put (p_limit p) key value (p_queue p)) as [q|] eqn:E; simpl.
  - apply (plain_put_some _ _ _ _ _ log Hnd) in E as (Hnd' & Hl & _). by rewrite lasts_snoc.
  - apply plain_put_none in E as [Hk _]. pose proof (puts_succeed key value s) as Hp.
    destruct (cache_put key value s) as [[x|e] s']; [|done]. simpl. split_and!; [done..|].
    rewrite lasts_snoc, !lasts_app, insert_union_r by (by apply lasts_none). do 2 f_equal.
    change (lasts [(key, value)]) with (<[key := value]> (∅ : gmap CacheKey bytes)). by rewrite <- insert_union_l, (left_id_L ∅ (∪)).
Qed.
Lemma submits_keep es report st : plain_ok st -> plain_ok (plain_submits es report st).2 /\
  lasts (all_writes (plain_submits es report st).2) = lasts (all_writes st ++ es).
Proof.
  revert report st. induction es as [|[key value] es IH]; intros report st Hst; simpl; [by rewrite app_nil_r|].
  destruct (submit_keeps key value st Hst) as (Hok & Hr & Hl). destruct (plain_submit key value st) as [[r|e] st']; [|done]. simpl in *.
  destruct (IH (mkSubmit (sr_queued report +! sr_queued r) (sr_write_through report +! sr_write_through r)) st' Hok) as [Hok' Hl'].
  split; [done|]. rewrite Hl', cons_middle, app_assoc, !lasts_app. f_equal. rewrite <- lasts_app. done.
Qed.

Lemma step_keeps op st : steady op -> plain_ok st -> plain_ok (plain_step op st).2 /\
  lasts (all_writes (plain_step op st).2) = lasts (all_writes st ++ taken op (plain_step op st).1).
Proof.
  intros Hop Hst. destruct op; simpl; try done.
  - pose proof (enqueue_keeps entries st Hst). by destruct (plain_enqueue _ _).
  - destruct (submit_keeps key value st Hst) as (? & _ & ?). by destruct (plain_submit _ _ _).
  - destruct (submits_keep entries (mkSubmit 0 0) st Hst). by destruct (plain_submits _ _ _).
  - destruct (drain_keeps max_jobs st Hst) as (? & Hw & _). destruct (plain_drain _ _). simpl in *. by rewrite app_nil_r, Hw.
  - destruct (drain_keeps (length (p_queue st.1)) st Hst) as (? & Hw & _). destruct (plain_drain _ _). simpl in *. by rewrite app_nil_r, Hw.
  - by rewrite app_nil_r.
Qed.
Lemma runs_keep ops st : Forall steady ops -> plain_ok st -> plain_ok (runs plain_step ops st).2 /\
  lasts (all_writes (runs plain_step ops st).2) = lasts (all_writes st ++ all_taken ops (runs plain_step ops st).1).
Proof.
  intros Hops. revert st. induction Hops as [|op ops Hop _ IH]; intros st Hst; simpl; [by rewrite app_nil_r|].
  destruct (step_keeps op st Hop Hst) as [Hok Hl]. destruct (plain_step op st) as [o st']. simpl in *.
  destruct (IH st' Hok) as [Hok' Hl']. destruct (runs plain_step ops st') as [os st'']. simpl in *. split; [done|].
  rewrite Hl', lasts_app, Hl, <- lasts_app, <- app_assoc. done.
Qed.
End last_write.

(** C27. The last write of a key wins: over any cache whose puts succeed, for
    any history of enqueues, submits, drains, flushes and limit changes, the
    writes that reached the cache followed by those that still wait leave
    every key the value of the last write that was taken for it (a submit
    is always taken; an enqueue unless it was turned back), whatever was
    drained when, replaced in the queue or written through; and a flush
    then empties the queue and brings all of it to the cache. *)
Theorem writeback_keeps_last {S} `{WritebackCache S} limit ops (s : S) :
  (forall key value (s : S), is_ok (cache_put key value s).1) -> (forall batch (s : S), is_ok (cache_put_batch batch s).1) ->
  Forall steady ops -> Z.of_nat (length (all_entries ops)) < 2 ^ 64 -> total (all_entries ops) < 2 ^ 64 ->
  let '(outs, (w, (log, s))) := runs wb_step ops (new_writeback limit, ([], s)) in
  let '(_, (w', (log', _))) := wb_step WFlush (w, (log, s)) in
  lasts (log ++ wb_queue w) = lasts (all_taken ops outs) /\ wb_queue w' = [] /\ lasts log' = lasts (all_taken ops outs).
Proof.
  intros Hput Hbatch Hops Hn Hb.
  destruct (runs_sim ops (new_writeback limit) ([], s) (new_writeback_ok limit)) as (H1 & H2 & H3 & H4 & H5); [by split|].
  destruct (runs_keep Hput Hbatch ops (wb_plain (new_writeback limit), ([], s)) Hops) as [Hk Hl]; [split; [done|constructor]|].
  destruct (runs wb_step _ _) as [outs [w [log s1]]], (runs plain_step _ _) as [outs' [p ls]]. simpl in H1, H2, H3, H4, H5, Hk, Hl. subst outs' ls p.
  destruct (flush_sim w (log, s1) [] H4 H5) as (_ & F2 & F3 & _).
  destruct (drain_keeps Hbatch (length (wb_queue w)) (wb_plain w, (log, s1)) Hk) as (_ & G2 & G3). simpl.
  destruct (flush_async_writeback _) as [r [w' [log' s2]]], (plain_drain _ _) as [r' [p' ls']]. simpl in F2, F3, G3. subst ls' p'.
  unfold all_writes in G2, Hl. simpl in G2, G3, Hl. rewrite drop_all in G3. rewrite G3, app_nil_r in G2. by rewrite G2.
Qed.

(** ** A small instance *)

(** A cache that takes every put while it is [true]. *)
#[local] Instance switch_cache : WritebackCache bool := {
  cache_put_batch batch up := (if up then Ok (Z.of_nat (length batch)) else Err Io, up);
  cache_put _ _ up := (if up then Ok tt else Err Io, up) }.
(** A cache that takes every put. *)
#[local] Instance open_cache : WritebackCache unit := {
  cache_put_batch batch u := (Ok (Z.of_nat (length batch)), u);
  cache_put _ _ u := (Ok tt, u) }.
Definition wb_demo (n : Z) (v : bytes) : CacheKey * bytes := (mkKey n "a" "string" "value", v).
Definition wb_demo_ops : list WbOp :=
  [WSubmit (wb_demo 1 []).1 [Byte.x61]; WEnqueue [wb_demo 2 [Byte.x62]; wb_demo 3 [Byte.x63]]; WSubmit (wb_demo 1 []).1 [Byte.x64]; WSubmit (wb_demo 3 []).1 [Byte.x65]; WDrain 1].

Lemma writeback_refines_witness :
  let '(outs, (w, up)) := runs wb_step wb_demo_ops (new_writeback 2, true) in
  outs = (runs plain_step wb_demo_ops (mkPlain true 2 [], true)).1 /\ wb_queue_bytes w = 1 /\ nth_error outs 1 = Some (OEnqueue (inr [wb_demo 3 [Byte.x63]])).
Proof.
  pose proof (writeback_refines 2 wb_demo_ops true ltac:(vm_compute; reflexivity) ltac:(vm_compute; reflexivity)) as Hr.
  assert (let '(outs, (w, up)) := runs wb_step wb_demo_ops (new_writeback 2, true) in
    wb_queue_bytes w = 1 /\ nth_error outs 1 = Some (OEnqueue (inr [wb_demo 3 [Byte.x63]]))) as Hc by (vm_compute; split; reflexivity).
  destruct (runs wb_step _ _) as [outs [w up]], (runs plain_step _ _) as [outs' [p up']]. destruct Hr as (-> & _). split; [reflexivity|exact Hc].
Defined.

Lemma writeback_keeps_last_witness :
  let '(outs, (w, (log, up))) := runs wb_step wb_demo_ops (new_writeback 2, ([], tt)) in
  lasts (log ++ wb_queue w) = lasts (all_taken wb_demo_ops outs) /\
  log = [wb_demo 3 [Byte.x65]; wb_demo 1 [Byte.x64]] /\ wb_queue w = [wb_demo 2 [Byte.x62]].
Proof.
  pose proof (writeback_keeps_last 2 wb_demo_ops tt ltac:(intros ?? []; exact I) ltac:(intros ? []; exact I)
    ltac:(repeat constructor) ltac:(vm_compute; reflexivity) ltac:(vm_compute; reflexivity)) as Hk.
  assert (let '(outs, (w, (log, up))) := runs wb_step wb_demo_ops (new_writeback 2, ([], tt)) in
    log = [wb_demo 3 [Byte.x65]; wb_demo 1 [Byte.x64]] /\ wb_queue w = [wb_demo 2 [Byte.x62]]) as Hc by (vm_compute; split; reflexivity).
  destruct (runs wb_step _ _) as [outs [w [log up]]]. destruct (wb_step WFlush _) as [o [w' [log' up']]]. destruct Hk as [Hk _]. split; [exact Hk|exact Hc].
Defined.

(** A write that waits is not seen by a direct put of its key: the flush
    brings the older value over the newer. *)
Example waiting_write_overtakes_put :
  let '(_, (w, st)) := wb_step (WSubmit (wb_demo 1 []).1 [Byte.x61]) (new_writeback 2, ([], tt)) in
  let '(_, st) := cache_put (wb_demo 1 []).1 [Byte.x62] st in
  let '(_, (w, (log, _))) := wb_step WFlush (w, st) in
  log = [wb_demo 1 [Byte.x62]; wb_demo 1 [Byte.x61]].
Proof. vm_compute. reflexivity. Qed.

(** A drain takes its writes off the queue before it puts them: when the
    batch fails they are gone. *)
Example failed_drain_loses_writes :
  let '(outs, (w, (log, _))) := runs wb_step [WSubmit (wb_demo 1 []).1 [Byte.x61]; WFlush] (new_writeback 2, ([], false)) in
  outs = [OSubmit (Ok (mkSubmit 1 0)); ODrain (Err Io)] /\ wb_queue w = [] /\ log = [].
Proof. vm_compute. repeat split. Qed.
