(* ===== verification/Hashes.v ===== *)
(** * Hash functions

    The hashes of core/rdma.rs the other components place keys with, at their
    machine widths: [xxh32_with_seed], [mur_mur_hash2_with_seed] and
    [hash_uint64]. *)

From S2P Require Import Prelude.
From Stdlib Require Import Strings.Byte.

Definition add32 (a b : Z) : Z := wrap32 (a + b).
Definition mul32 (a b : Z) : Z := wrap32 (a * b).
Definition mul64 (a b : Z) : Z := wrap64 (a * b).
(** [rotate_left] on 32 bits. *)
Definition rotl32 (x n : Z) : Z := Z.lor (wrap32 (Z.shiftl x n)) (Z.shiftr x (32 - n)).
Definition xorshift (x n : Z) : Z := Z.lxor x (Z.shiftr x n).

(** A byte as [u32], and sign-extended through [i8]. *)
Definition byte_u32 (b : Byte.byte) : Z := Z.of_N (Byte.to_N b).
Definition byte_i32 (b : Byte.byte) : Z :=
  if byte_u32 b <? 128 then byte_u32 b else byte_u32 b - 256.

Definition string_bytes (s : string) : bytes := String.list_byte_of_string s.

(** ** xxHash, 32 bits *)

Definition PRIME1 : Z := 2654435761.
Definition PRIME2 : Z := 2246822519.
Definition PRIME3 : Z := 3266489917.
Definition PRIME4 : Z := 668265263.
Definition PRIME5 : Z := 374761393.

Definition xxh_round (acc lane : Z) : Z := mul32 (rotl32 (add32 acc (mul32 lane PRIME2)) 13) PRIME1.

Definition lane (input : bytes) (offset : nat) : Z := le_value (take 4 (drop offset input)).

(** The sixteen-byte stripes; the state is the four accumulators. *)
Fixpoint xxh_stripes (fuel : nat) (v : Z * Z * Z * Z) (input : bytes) : (Z * Z * Z * Z) * bytes :=
  match fuel with
  | O => (v, input)
  | S f =>
      if (16 <=? length input)%nat then
        let '(v1, v2, v3, v4) := v in
        xxh_stripes f (xxh_round v1 (lane input 0), xxh_round v2 (lane input 4),
                       xxh_round v3 (lane input 8), xxh_round v4 (lane input 12))
                    (drop 16 input)
      else (v, input)
  end.

Fixpoint xxh_words (fuel : nat) (hash : Z) (input : bytes) : Z * bytes :=
  match fuel with
  | O => (hash, input)
  | S f =>
      if (4 <=? length input)%nat
      then xxh_words f (mul32 (rotl32 (add32 hash (mul32 (lane input 0) PRIME3)) 17) PRIME4)
                     (drop 4 input)
      else (hash, input)
  end.

Definition xxh_bytes (hash : Z) (input : bytes) : Z :=
  fold_left (fun h b => mul32 (rotl32 (add32 h (mul32 (byte_u32 b) PRIME5)) 11) PRIME1) input hash.

(** The remaining input stands for the offset; every loop consumes input, so
    its length is enough fuel. *)
Definition xxh32_with_seed (input : bytes) (seed : Z) : Z :=
  let fuel := length input in
  let '(hash, rest) :=
    (if (16 <=? length input)%nat then
       let '(v1, v2, v3, v4, rest) :=
         xxh_stripes fuel (add32 (add32 seed PRIME1) PRIME2, add32 seed PRIME2, seed,
                           wrap32 (seed - PRIME1)) input in
       (add32 (add32 (add32 (rotl32 v1 1) (rotl32 v2 7)) (rotl32 v3 12)) (rotl32 v4 18), rest)
     else (add32 seed PRIME5, input)) in
  let hash := add32 hash (wrap32 (blen input)) in
  let '(hash, rest) := xxh_words fuel hash rest in
  let hash := xxh_bytes hash rest in
  let hash := mul32 (xorshift hash 15) PRIME2 in
  let hash := mul32 (xorshift hash 13) PRIME3 in
  xorshift hash 16.

(** The published vectors of the 32-bit function. *)
Example xxh32_empty : xxh32_with_seed [] 0 = 0x02CC5D05.
Proof. vm_compute. reflexivity. Qed.
Example xxh32_abc : xxh32_with_seed (string_bytes "abc") 0 = 0x32D153FF.
Proof. vm_compute. reflexivity. Qed.
Example xxh32_long :
  xxh32_with_seed (string_bytes "Nobody inspects the spammish repetition") 0 = 0xE2293B2F.
Proof. vm_compute. reflexivity. Qed.

(** ** MurmurHash2, 32 bits, with the tail sign-extended *)

Definition MURMUR_M : Z := 0x5bd1e995.

Definition murmur_mix (h chunk : Z) : Z :=
  let k := mul32 chunk MURMUR_M in
  let k := xorshift k 24 in
  let k := mul32 k MURMUR_M in
  Z.lxor (mul32 h MURMUR_M) k.

(** [as_chunks::<4>]: whole groups in order, then the tail. *)
Fixpoint murmur_groups (fuel : nat) (h : Z) (key : bytes) : Z * bytes :=
  match fuel with
  | O => (h, key)
  | S f =>
      if (4 <=? length key)%nat
      then murmur_groups f (murmur_mix h (le_value (take 4 key))) (drop 4 key)
      else (h, key)
  end.

Definition murmur_tail (h : Z) (tail : bytes) : Z :=
  let x b n := wrap32 (Z.shiftl (byte_i32 b) n) in
  match tail with
  | [b0; b1; b2] => mul32 (Z.lxor (Z.lxor (Z.lxor h (x b2 16)) (x b1 8)) (x b0 0)) MURMUR_M
  | [b0; b1] => mul32 (Z.lxor (Z.lxor h (x b1 8)) (x b0 0)) MURMUR_M
  | [b0] => mul32 (Z.lxor h (x b0 0)) MURMUR_M
  | _ => h
  end.

Definition mur_mur_hash2_with_seed (key : bytes) (seed : Z) : Z :=
  let h := Z.lxor seed (wrap32 (blen key)) in
  let '(h, tail) := murmur_groups (length key) h key in
  let h := murmur_tail h tail in
  let h := mul32 (xorshift h 13) MURMUR_M in
  xorshift h 15.

Definition MT_MURMUR_HASH2_DEFAULT_SEED : Z := 97.
Definition mur_mur_hash2 (key : bytes) : Z := mur_mur_hash2_with_seed key MT_MURMUR_HASH2_DEFAULT_SEED.

(** ** Block ids *)

Definition MT_HASH_SEED : Z := 0x20170730.
Definition HASH64_M : Z := 0xc6a4a7935bd1e995.

Definition hash_uint64 (block_id : Z) : Z :=
  let k := mul64 block_id HASH64_M in
  let k := xorshift k 47 in
  let k := mul64 k HASH64_M in
  let h := Z.lxor MT_HASH_SEED (mul64 8 HASH64_M) in
  let h := Z.lxor h k in
  let h := mul64 h HASH64_M in
  let h := xorshift h 47 in
  let h := mul64 h HASH64_M in
  xorshift h 47.

(** ** Bounds and inverses *)

Lemma wrap32_bound a : 0 <= wrap32 a < 2 ^ 32.
Proof. unfold wrap32. apply Z.mod_pos_bound. lia. Qed.

Lemma shiftr_bound x n : 0 <= x -> 0 <= n -> 0 <= Z.shiftr x n <= x.
Proof.
  intros Hx Hn. rewrite Z.shiftr_div_pow2 by done. pose proof (Z.pow_pos_nonneg 2 n).
  split; [apply Z.div_pos; lia|]. apply Z.div_le_upper_bound; nia.
Qed.

Lemma lxor_bound w a b : 0 <= w -> 0 <= a < 2 ^ w -> 0 <= b < 2 ^ w -> 0 <= Z.lxor a b < 2 ^ w.
Proof.
  intros Hw Ha Hb. assert (0 <= Z.lxor a b) by (apply Z.lxor_nonneg; lia). split; [done|].
  destruct (Z.eq_dec (Z.lxor a b) 0) as [->|Hne]; [lia|].
  apply Z.log2_lt_pow2; [lia|]. pose proof (Z.log2_lxor a b).
  assert (forall x, 0 <= x < 2 ^ w -> Z.log2 x < w \/ x = 0).
  { intros x Hx. destruct (Z.eq_dec x 0); [by right|]. left. apply Z.log2_lt_pow2; lia. }
  destruct (H1 a Ha), (H1 b Hb); subst; rewrite ?Z.lxor_0_r, ?Z.lxor_0_l in *; simpl in *; lia.
Qed.

Lemma xorshift_bound w x n : 0 <= w -> 0 <= n -> 0 <= x < 2 ^ w -> 0 <= xorshift x n < 2 ^ w.
Proof.
  intros Hw Hn Hx. apply lxor_bound; [done|done|]. pose proof (shiftr_bound x n). lia.
Qed.

(** A shift of at least half the width is undone by itself. *)
Lemma xorshift_involutive w n x :
  0 <= n -> w <= 2 * n -> 0 <= w -> 0 <= x < 2 ^ w -> xorshift (xorshift x n) n = x.
Proof.
  intros Hn Hw Hw0 Hx. unfold xorshift.
  rewrite Z.shiftr_lxor, Z.shiftr_shiftr by done.
  assert (Z.shiftr x (n + n) = 0) as ->.
  { rewrite Z.shiftr_div_pow2 by lia. apply Z.div_small. split; [lia|].
    eapply Z.lt_le_trans; [apply Hx|]. apply Z.pow_le_mono_r; lia. }
  by rewrite Z.lxor_0_r, Z.lxor_assoc, Z.lxor_nilpotent, Z.lxor_0_r.
Qed.

(** The inverse of the odd multiplier modulo 2^64. *)
Definition HASH64_M_INV : Z := 0x5f7a0ea7e59b19bd.

Lemma mul64_inv x : 0 <= x < 2 ^ 64 -> mul64 (mul64 x HASH64_M) HASH64_M_INV = x.
Proof.
  intros Hx. unfold mul64, wrap64. rewrite Z.mul_mod_idemp_l, <- Z.mul_assoc by lia.
  rewrite <- Z.mul_mod_idemp_r by lia.
  replace ((HASH64_M * HASH64_M_INV) `mod` 2 ^ 64) with 1 by (vm_compute; reflexivity).
  rewrite Z.mul_1_r. by apply Z.mod_small.
Qed.

Lemma mul64_inj x y :
  0 <= x < 2 ^ 64 -> 0 <= y < 2 ^ 64 -> mul64 x HASH64_M = mul64 y HASH64_M -> x = y.
Proof. intros Hx Hy He. rewrite <- (mul64_inv x), <- (mul64_inv y) by done. by rewrite He. Qed.

Lemma xorshift47_inj x y :
  0 <= x < 2 ^ 64 -> 0 <= y < 2 ^ 64 -> xorshift x 47 = xorshift y 47 -> x = y.
Proof.
  intros Hx Hy He. rewrite <- (xorshift_involutive 64 47 x), <- (xorshift_involutive 64 47 y) by lia.
  by rewrite He.
Qed.

Lemma lxor_inj a x y : Z.lxor a x = Z.lxor a y -> x = y.
Proof.
  intros H. rewrite <- (Z.lxor_0_l x), <- (Z.lxor_0_l y), <- (Z.lxor_nilpotent a).
  by rewrite !Z.lxor_assoc, H.
Qed.

Lemma mul64_range x y : 0 <= mul64 x y < 2 ^ 64.
Proof. apply wrap64_bound. Qed.

Create HintDb width.
#[export] Hint Resolve mul64_range : width.
#[export] Hint Extern 1 (0 <= xorshift _ _ < 2 ^ 64) => apply xorshift_bound; [lia|lia|] : width.
#[export] Hint Extern 1 (0 <= Z.lxor _ _ < 2 ^ 64) => apply lxor_bound; [lia| |] : width.

(** [hash_uint64] never gives two block ids the same hash, and always
    gives a 64-bit one. *)
Theorem hash_uint64_injective (a b : Z) :
  0 <= a < 2 ^ 64 -> 0 <= b < 2 ^ 64 ->
  0 <= hash_uint64 a < 2 ^ 64 /\ (hash_uint64 a = hash_uint64 b -> a = b).
Proof.
  intros Ha Hb. assert (Hseed : 0 <= MT_HASH_SEED < 2 ^ 64) by (unfold MT_HASH_SEED; lia).
  unfold hash_uint64. split; [eauto 10 with width|]. intros He.
  apply xorshift47_inj in He; [|eauto 10 with width..].
  apply mul64_inj in He; [|eauto 10 with width..].
  apply xorshift47_inj in He; [|eauto 10 with width..].
  apply mul64_inj in He; [|eauto 10 with width..].
  apply lxor_inj in He.
  apply mul64_inj in He; [|eauto 10 with width..].
  apply xorshift47_inj in He; [|eauto 10 with width..].
  by apply mul64_inj in He.
Qed.

Lemma hash_uint64_injective_witness :
  0 <= hash_uint64 1 < 2 ^ 64 /\ (hash_uint64 1 = hash_uint64 2 -> 1 = 2).
Proof. apply hash_uint64_injective; lia. Defined.
