(* ===== verification/FrequencySketch.v ===== *)
(** * The frequency sketch

    [FrequencySketch] (core/frequency_sketch.rs): a count-min sketch of four
    byte counters per key with periodic halving.  Recording is modelled one
    call at a time, so the [aging] flag is never found taken. *)

From S2P Require Import Prelude Types Hashes.

Definition SKETCH_HASHES : nat := 4.
Definition COUNTERS_PER_ENTRY : Z := 32.
Definition WINDOW_TO_CAPACITY_RATIO : Z := 32.

(** [next_power_of_two] of a positive integer. *)
Definition next_power_of_two (n : Z) : Z := 2 ^ Z.log2_up n.

Record FrequencySketch := mkSketch {
  counters : list Z;
  sketch_mask : Z;
  sketch_window : Z;
  max_window : Z
}.

Definition bytes_for (entries : Z) : Z := next_power_of_two (Z.max entries 1 * COUNTERS_PER_ENTRY).

Definition footprint_bytes (s : FrequencySketch) : Z := Z.of_nat (length (counters s)).

Definition with_capacity (entries : Z) : FrequencySketch :=
  let width := next_power_of_two (Z.max entries 1 * COUNTERS_PER_ENTRY) in
  mkSketch (replicate (Z.to_nat width) 0) (width - 1) 0
           (Z.min u64_max (Z.max entries 1 * WINDOW_TO_CAPACITY_RATIO)).

Definition positions (s : FrequencySketch) (key : CacheKey) : list nat :=
  let identity := xxh32_with_seed (string_bytes (namespace key)) 0 in
  let identity := xxh32_with_seed (le_bytes 8 (shard_id key)) identity in
  let identity := xxh32_with_seed (string_bytes (record_key key)) identity in
  let first := xxh32_with_seed (string_bytes (selector key)) identity in
  let step := Z.lor (xxh32_with_seed (string_bytes (selector key)) (Z.lxor identity 0x9E3779B9)) 1 in
  (fun row => Z.to_nat (Z.land (wrap64 (first + wrap64 (Z.of_nat row * step))) (sketch_mask s)))
    <$> seq 0 SKETCH_HASHES.

(** One counter, kept at its maximum. *)
Definition bump (cs : list Z) (position : nat) : list Z :=
  alter (fun c => if c =? 255 then c else c + 1) position cs.

Definition decay (s : FrequencySketch) : FrequencySketch :=
  if sketch_window s <? max_window s then s
  else mkSketch ((fun c => Z.shiftr c 1) <$> counters s) (sketch_mask s)
                (Z.shiftr (sketch_window s) 1) (max_window s).

Definition record_positions (ps : list nat) (s : FrequencySketch) : FrequencySketch :=
  let s := mkSketch (fold_left bump ps (counters s)) (sketch_mask s)
                    (wrap64 (sketch_window s + 1)) (max_window s) in
  if max_window s <=? sketch_window s then decay s else s.

Definition record (key : CacheKey) (s : FrequencySketch) : FrequencySketch :=
  record_positions (positions s key) s.

Definition record_many (key : CacheKey) (count : nat) (s : FrequencySketch) : FrequencySketch :=
  Nat.iter count (record_positions (positions s key)) s.

Definition estimate (s : FrequencySketch) (key : CacheKey) : Z :=
  foldr Z.min 255 ((fun p => default 0 (counters s !! p)) <$> positions s key).

(** ** Well-formed sketches *)

Record sketch_ok (s : FrequencySketch) : Prop := {
  sk_width : exists w, 5 <= w /\ Z.of_nat (length (counters s)) = 2 ^ w /\ sketch_mask s = 2 ^ w - 1;
  sk_cells : Forall (fun c => 0 <= c <= 255) (counters s);
  sk_window : 0 <= sketch_window s < max_window s;
  sk_max : max_window s <= u64_max
}.

Lemma width_pow entries :
  exists w, 5 <= w /\ next_power_of_two (Z.max entries 1 * COUNTERS_PER_ENTRY) = 2 ^ w.
Proof.
  exists (Z.log2_up (Z.max entries 1 * COUNTERS_PER_ENTRY)). split; [|done].
  change 5 with (Z.log2_up 32). apply Z.log2_up_le_mono. unfold COUNTERS_PER_ENTRY. lia.
Qed.

Lemma with_capacity_ok entries : sketch_ok (with_capacity entries).
Proof.
  destruct (width_pow entries) as (w & Hw & Hn). unfold with_capacity. rewrite Hn.
  assert (0 < 2 ^ w) by (apply Z.pow_pos_nonneg; lia).
  split; simpl.
  - exists w. rewrite length_replicate. split_and!; [done|lia|done].
  - apply Forall_replicate. lia.
  - unfold u64_max, WINDOW_TO_CAPACITY_RATIO. lia.
  - lia.
Qed.

Lemma positions_same_mask s s' key :
  sketch_mask s' = sketch_mask s -> positions s' key = positions s key.
Proof. unfold positions. by intros ->. Qed.

Lemma land_mask x w : 0 <= w -> Z.land x (2 ^ w - 1) = x `mod` 2 ^ w.
Proof. intros Hw. rewrite <- Z.land_ones by done. by rewrite Z.ones_equiv. Qed.

Lemma positions_range s key :
  sketch_ok s -> Forall (fun p => (p < length (counters s))%nat) (positions s key).
Proof.
  intros [(w & Hw & Hl & Hm) _ _ _]. unfold positions. apply Forall_fmap, Forall_forall.
  intros row _. simpl. rewrite Hm, land_mask by lia.
  assert (0 < 2 ^ w) by (apply Z.pow_pos_nonneg; lia).
  match goal with |- context [?x `mod` 2 ^ w] => pose proof (Z.mod_pos_bound x (2 ^ w)) end. lia.
Qed.

Lemma length_bump cs p : length (bump cs p) = length cs.
Proof. apply length_alter. Qed.

Lemma length_bumps ps cs : length (fold_left bump ps cs) = length cs.
Proof.
  revert cs. induction ps as [|p ps IH]; intros cs; simpl; [done|]. by rewrite IH, length_bump.
Qed.

Lemma bump_cells cs p : Forall (fun c => 0 <= c <= 255) cs -> Forall (fun c => 0 <= c <= 255) (bump cs p).
Proof.
  intros H. unfold bump. apply Forall_alter; [done|]. intros c _ Hc. case_if; zbool; lia.
Qed.

Lemma bumps_cells ps cs :
  Forall (fun c => 0 <= c <= 255) cs -> Forall (fun c => 0 <= c <= 255) (fold_left bump ps cs).
Proof. revert cs. induction ps; intros cs H; simpl; [done|]. auto using bump_cells. Qed.

Lemma shiftr1 c : Z.shiftr c 1 = c / 2.
Proof. by rewrite Z.shiftr_div_pow2. Qed.

Lemma record_positions_ok ps s : sketch_ok s -> sketch_ok (record_positions ps s).
Proof.
  intros [(w & Hw & Hl & Hm) Hc Hwin Hmax]. unfold record_positions, decay.
  rewrite wrap64_small by (unfold u64_max in Hmax; lia). cbn [max_window sketch_window].
  destruct (Z.leb_spec (max_window s) (sketch_window s + 1)).
  - rewrite (proj2 (Z.ltb_ge _ _)) by done. split; cbn [counters sketch_mask max_window sketch_window].
    + exists w. by rewrite length_fmap, length_bumps.
    + apply Forall_fmap. eapply Forall_impl; [by apply bumps_cells|]. simpl. intros c Hcc.
      rewrite shiftr1. split; [apply Z.div_pos; lia|]. apply Z.div_le_upper_bound; lia.
    + rewrite shiftr1. split; [apply Z.div_pos; lia|]. apply Z.div_lt_upper_bound; lia.
    + done.
  - split; cbn [counters sketch_mask max_window sketch_window].
    + exists w. by rewrite length_bumps.
    + by apply bumps_cells.
    + lia.
    + done.
Qed.

Lemma record_many_iter key n s :
  sketch_ok s -> record_many key n s = Nat.iter n (record key) s /\ sketch_ok (record_many key n s) /\
  sketch_mask (record_many key n s) = sketch_mask s.
Proof.
  intros Hok. unfold record_many. induction n as [|n (IH1 & IH2 & IH3)]; [done|]. rewrite !Nat.iter_succ.
  split_and!.
  - rewrite <- IH1. unfold record. f_equal. symmetry. by apply positions_same_mask.
  - by apply record_positions_ok.
  - rewrite <- IH3. unfold record_positions, decay. by repeat case_if.
Qed.

(** ** Never an underestimate *)

(** The exact count the sketch stands for: capped at 255, halved with it. *)
Definition exact_step (s : FrequencySketch) (key : CacheKey) (f : CacheKey -> Z) : CacheKey -> Z :=
  let f' := fun k => if decide (k = key) then Z.min 255 (f k + 1) else f k in
  if max_window s <=? sketch_window s + 1 then fun k => f' k / 2 else f'.

(** Sketch and exact counts after a history of accesses. *)
Fixpoint run_accesses (keys : list CacheKey) (s : FrequencySketch) (f : CacheKey -> Z)
    : FrequencySketch * (CacheKey -> Z) :=
  match keys with
  | [] => (s, f)
  | k :: rest => run_accesses rest (record k s) (exact_step s k f)
  end.

(** Every counter of a key is at least its exact count. *)
Definition dominates (s : FrequencySketch) (f : CacheKey -> Z) : Prop :=
  forall k p, p ∈ positions s k -> exists c, counters s !! p = Some c /\ f k <= c.

Lemma bump_lookup cs p q c :
  cs !! q = Some c -> exists c', bump cs p !! q = Some c' /\ c <= c' /\
    (p = q -> c <= 255 -> Z.min 255 (c + 1) <= c').
Proof.
  intros Hc. unfold bump. destruct (decide (p = q)) as [->|Hne].
  - rewrite list_lookup_alter_eq, Hc. simpl. eexists; split; [done|]. case_if; zbool; split; intros; lia.
  - rewrite list_lookup_alter_ne by done. exists c. split_and!; [done|lia|done].
Qed.

Lemma bumps_lookup ps cs q c :
  cs !! q = Some c -> Forall (fun c => 0 <= c <= 255) cs ->
  exists c', fold_left bump ps cs !! q = Some c' /\ c <= c' /\
    (q ∈ ps -> Z.min 255 (c + 1) <= c').
Proof.
  revert cs c. induction ps as [|p ps IH]; intros cs c Hc Hcs; simpl.
  - exists c. split_and!; [done|lia|set_solver].
  - destruct (bump_lookup cs p q c Hc) as (c1 & H1 & H2 & H3).
    destruct (IH (bump cs p) c1 H1 (bump_cells _ _ Hcs)) as (c2 & G1 & G2 & G3).
    exists c2. split_and!; [done|lia|]. intros [->|Hin]%elem_of_cons.
    + pose proof (Forall_lookup_1 _ _ _ _ Hcs Hc) as Hb. simpl in Hb. specialize (H3 eq_refl). lia.
    + specialize (G3 Hin). lia.
Qed.

Lemma record_mask key s : sketch_mask (record key s) = sketch_mask s.
Proof. unfold record, record_positions, decay. by repeat case_if. Qed.

Lemma record_dominates key s f :
  sketch_ok s -> dominates s f -> dominates (record key s) (exact_step s key f).
Proof.
  intros Hok Hd k p Hp. rewrite (positions_same_mask s) in Hp by apply record_mask.
  destruct (Hd k p Hp) as (c & Hc & Hf).
  destruct (bumps_lookup (positions s key) _ _ _ Hc (sk_cells _ Hok)) as (c' & H1 & H2 & H3).
  assert (Hstep : (if decide (k = key) then Z.min 255 (f k + 1) else f k) <= c').
  { case_decide; [|lia]. subst k. specialize (H3 Hp). lia. }
  destruct Hok as [_ _ Hwin Hmax]. unfold record, record_positions, exact_step, decay.
  cbn [max_window sketch_window]. rewrite wrap64_small by (unfold u64_max in Hmax; lia).
  destruct (Z.leb_spec (max_window s) (sketch_window s + 1)).
  - rewrite (proj2 (Z.ltb_ge _ _)) by done. cbn [counters]. exists (Z.shiftr c' 1).
    rewrite list_lookup_fmap, H1. split; [done|]. rewrite shiftr1. by apply Z.div_le_mono; [lia|].
  - cbn [counters]. exists c'. done.
Qed.

Lemma run_dominates keys s f :
  sketch_ok s -> dominates s f ->
  let '(s', f') := run_accesses keys s f in sketch_ok s' /\ dominates s' f'.
Proof.
  revert s f. induction keys as [|k keys IH]; intros s f Hok Hd; simpl; [done|].
  apply IH; [by apply record_positions_ok|by apply record_dominates].
Qed.

Lemma exact_zero keys s f :
  (forall k, 0 <= f k <= 255) -> forall x, 0 <= (run_accesses keys s f).2 x <= 255.
Proof.
  revert s f. induction keys as [|k' keys IH]; intros s f Hf; simpl; [done|].
  apply IH. intros x. unfold exact_step. specialize (Hf x).
  assert (0 <= (if decide (x = k') then Z.min 255 (f x + 1) else f x) <= 255) as Hx by (case_decide; lia).
  case_if; [|done]. split; [apply Z.div_pos; lia|apply Z.div_le_upper_bound; lia].
Qed.

Lemma foldr_min_ge (l : list Z) lo : lo <= 255 -> Forall (fun c => lo <= c) l -> lo <= foldr Z.min 255 l.
Proof. intros Hlo. induction 1; simpl; lia. Qed.

Lemma estimate_dominates s f k : dominates s f -> f k <= 255 -> f k <= estimate s k.
Proof.
  intros Hd Hf. apply foldr_min_ge; [done|]. apply Forall_fmap, Forall_forall.
  intros p Hp. destruct (Hd k p Hp) as (c & Hc & Hle). simpl. by rewrite Hc.
Qed.

(** The sketch never underestimates: after any history of accesses the
    estimate of every key is at least its exact count, where the exact count
    is capped at 255 and halved whenever the sketch halves its counters. *)
Theorem sketch_never_underestimates (entries : Z) (history : list CacheKey) (key : CacheKey) :
  let '(s, exact) := run_accesses history (with_capacity entries) (fun _ => 0) in
  exact key <= estimate s key <= 255.
Proof.
  destruct (run_accesses history (with_capacity entries) (fun _ => 0)) as [s exact] eqn:E.
  pose proof (run_dominates history (with_capacity entries) (fun _ => 0) (with_capacity_ok entries)) as H.
  pose proof (exact_zero history (with_capacity entries) (fun _ => 0)) as Hz.
  rewrite E in H, Hz. destruct H as [Hok Hd].
  { intros k p Hp. pose proof (positions_range _ k (with_capacity_ok entries)) as Hr.
    rewrite Forall_forall in Hr. apply Hr, lookup_lt_is_Some in Hp as [c Hc]. exists c. split; [done|].
    pose proof (Forall_lookup_1 _ _ _ _ (sk_cells _ (with_capacity_ok entries)) Hc) as Hb. apply Hb. }
  split.
  - apply estimate_dominates; [done|]. apply Hz. lia.
  - unfold estimate. generalize ((fun p => default 0 (counters s !! p)) <$> positions s key).
    intros l. induction l; simpl; lia.
Qed.

(** ** Four different counters *)

Lemma odd_step_distinct w x step i j :
  2 <= w -> Z.odd step = true -> 0 <= i < 4 -> 0 <= j < 4 ->
  (x + i * step) `mod` 2 ^ w = (x + j * step) `mod` 2 ^ w -> i = j.
Proof.
  intros Hw Ho Hi Hj He.
  assert (Hdiv : (2 ^ 2 | (i - j) * step)).
  { assert (H1 : (2 ^ w | (x + i * step) - (x + j * step))).
    { apply Z.mod_divide; [pose proof (Z.pow_pos_nonneg 2 w); lia|].
      rewrite Zminus_mod, He, Z.sub_diag. by rewrite Z.mod_0_l by (pose proof (Z.pow_pos_nonneg 2 w); lia). }
    replace ((x + i * step) - (x + j * step)) with ((i - j) * step) in H1 by ring.
    etrans; [|exact H1]. exists (2 ^ (w - 2)). rewrite <- Z.pow_add_r by lia. f_equal. lia. }
  destruct Hdiv as [m Hm]. apply Z.odd_spec in Ho as [q ->]. change (2 ^ 2) with 4 in Hm.
  assert (i - j = -3 \/ i - j = -2 \/ i - j = -1 \/ i - j = 0 \/ i - j = 1 \/ i - j = 2 \/ i - j = 3)
    as Hd by lia.
  destruct Hd as [Hd|[Hd|[Hd|[Hd|[Hd|[Hd|Hd]]]]]]; rewrite Hd in Hm; lia.
Qed.

Lemma wrap64_mod_pow a b w : 0 <= w <= 64 -> wrap64 (a + wrap64 b) `mod` 2 ^ w = (a + b) `mod` 2 ^ w.
Proof.
  intros Hw. assert (Hd : forall x, wrap64 x `mod` 2 ^ w = x `mod` 2 ^ w).
  { intros x. unfold wrap64. apply Z.mod_mod_divide.
    exists (2 ^ (64 - w)). rewrite <- Z.pow_add_r by lia. f_equal. lia. }
  rewrite Hd, Z.add_mod, Hd, <- Z.add_mod; [done|..]; apply Z.pow_nonzero; lia.
Qed.

(** A key's four positions are four different counters inside the table,
    so an estimate is a minimum of four, as the odd step is there to ensure. *)
Theorem positions_distinct (entries : Z) (history : list CacheKey) (key : CacheKey) :
  let s := fst (run_accesses history (with_capacity entries) (fun _ => 0)) in
  Z.max entries 1 * COUNTERS_PER_ENTRY <= 2 ^ 63 ->
  NoDup (positions s key) /\ Forall (fun p => (p < length (counters s))%nat) (positions s key).
Proof.
  intros s Hent.
  assert (Hok : sketch_ok s /\ sketch_mask s = sketch_mask (with_capacity entries)).
  { unfold s. clear s. pose proof (with_capacity_ok entries) as Hok.
    generalize (fun _ : CacheKey => 0) as f. revert Hok. generalize (with_capacity entries) as u.
    induction history as [|k history IH]; intros u Hok f; simpl; [done|].
    destruct (IH (record k u) (record_positions_ok _ _ Hok) (exact_step u k f)) as [H1 H2].
    split; [done|]. by rewrite H2, record_mask. }
  destruct Hok as [Hok Hmask]. split; [|by apply positions_range].
  assert (Hw : exists w, 5 <= w <= 63 /\ sketch_mask s = 2 ^ w - 1).
  { exists (Z.log2_up (Z.max entries 1 * COUNTERS_PER_ENTRY)). split_and!; [| |by rewrite Hmask].
    - change 5 with (Z.log2_up 32). apply Z.log2_up_le_mono. unfold COUNTERS_PER_ENTRY. lia.
    - rewrite <- (Z.log2_up_pow2 63) by lia. by apply Z.log2_up_le_mono. }
  destruct Hw as (w & Hw & Hm). unfold positions. rewrite Hm.
  set (step := Z.lor _ 1). set (first := xxh32_with_seed (string_bytes (selector key)) _).
  assert (Ho : Z.odd step = true) by (unfold step; by rewrite <- Z.bit0_odd, Z.lor_spec, orb_true_r).
  apply NoDup_fmap_2_strong; [|apply NoDup_seq]. intros i j Hi%elem_of_seq Hj%elem_of_seq He.
  unfold SKETCH_HASHES in *. rewrite !land_mask in He by lia.
  rewrite !wrap64_mod_pow in He by lia.
  assert (0 < 2 ^ w) by (apply Z.pow_pos_nonneg; lia).
  apply Z2Nat.inj in He; [|apply Z.mod_pos_bound; done..].
  apply odd_step_distinct in He; lia || done.
Qed.

Lemma positions_distinct_witness :
  NoDup (positions (with_capacity 100) (key_string 1 "user:1")).
Proof.
  apply (positions_distinct 100 [] (key_string 1 "user:1")). vm_compute. discriminate.
Defined.

(** Recording a key [n] times at once is recording it [n] times. *)
Theorem record_many_is_repeated_record (entries : Z) (history : list CacheKey) (key : CacheKey) (n : nat) :
  let s := fst (run_accesses history (with_capacity entries) (fun _ => 0)) in
  record_many key n s = Nat.iter n (record key) s.
Proof.
  intros s. apply record_many_iter. unfold s. clear s.
  pose proof (with_capacity_ok entries) as Hok.
  generalize (fun _ : CacheKey => 0) as f. revert Hok. generalize (with_capacity entries) as u.
  induction history as [|k history IH]; intros u Hok f; simpl; [done|].
  by apply IH, record_positions_ok.
Qed.
