(* ===== verification/Ordering.v ===== *)
(** * Total orders by comparison

    The derived [Ord] of the source's structs: lexicographic comparisons, with
    the laws a minimum needs to be independent of the order it is taken in. *)

From Stdlib Require Import Sorting.Sorted Structures.OrderedTypeEx.
From S2P Require Import Prelude Types.

Class TotalCmp {A : Type} (cmp : A -> A -> comparison) : Prop := {
  cmp_eq a b : cmp a b = Eq <-> a = b;
  cmp_antisym a b : cmp b a = CompOpp (cmp a b);
  cmp_trans a b c : cmp a b = Lt -> cmp b c = Lt -> cmp a c = Lt
}.

(** [then_with]. *)
Definition cmp_then (c1 c2 : comparison) : comparison := match c1 with Eq => c2 | c => c end.

Definition lex_cmp {A B} (ca : A -> A -> comparison) (cb : B -> B -> comparison)
    (x y : A * B) : comparison :=
  cmp_then (ca x.1 y.1) (cb x.2 y.2).

#[export] Instance Z_cmp : TotalCmp Z.compare.
Proof.
  split.
  - apply Z.compare_eq_iff.
  - intros a b. apply Z.compare_antisym.
  - intros a b c. rewrite !Z.compare_lt_iff. lia.
Qed.

Lemma Ascii_compare_refl x : Ascii.compare x x = Eq.
Proof. unfold Ascii.compare. apply N.compare_refl. Qed.

Lemma string_compare_trans a b c :
  String.compare a b = Lt -> String.compare b c = Lt -> String.compare a c = Lt.
Proof.
  revert b c. induction a as [|x a IH]; intros [|y b] [|z c]; simpl; try done.
  destruct (Ascii.compare x y) eqn:E1; [|intros _|done].
  - apply Ascii.compare_eq_iff in E1 as ->.
    destruct (Ascii.compare y z); [apply IH|done|done].
  - destruct (Ascii.compare y z) eqn:E2; [intros _|intros _|done].
    + apply Ascii.compare_eq_iff in E2 as ->. by rewrite E1.
    + enough (Ascii.compare x z = Lt) as -> by done.
      unfold Ascii.compare in *. rewrite N.compare_lt_iff in *. by etrans.
Qed.

#[export] Instance string_cmp : TotalCmp String.compare.
Proof.
  split.
  - intros a b. split; [apply String.compare_eq_iff|intros ->].
    by induction b as [|x b IH]; simpl; [|rewrite Ascii_compare_refl].
  - intros a b. apply String.compare_antisym.
  - apply string_compare_trans.
Qed.

#[export] Instance lex_total {A B} (ca : A -> A -> comparison) (cb : B -> B -> comparison)
  `{!TotalCmp ca} `{!TotalCmp cb} : TotalCmp (lex_cmp ca cb).
Proof.
  unfold lex_cmp, cmp_then. split.
  - intros [a1 b1] [a2 b2]; simpl. pose proof (cmp_eq a1 a2).
    destruct (ca a1 a2); [|naive_solver..]. rewrite cmp_eq. naive_solver.
  - intros [a1 b1] [a2 b2]; simpl. rewrite (cmp_antisym a1 a2).
    destruct (ca a1 a2); simpl; [apply cmp_antisym|done..].
  - intros [a1 b1] [a2 b2] [a3 b3]; simpl.
    destruct (ca a1 a2) eqn:E1; [|intros _|done].
    + apply cmp_eq in E1 as ->. destruct (ca a2 a3); [apply cmp_trans|done..].
    + destruct (ca a2 a3) eqn:E2; [intros _|intros _|done].
      * apply cmp_eq in E2 as ->. by rewrite E1.
      * by rewrite (cmp_trans _ _ _ E1 E2).
Qed.

(** A comparison through an injective projection. *)
Lemma inj_total {A B} (f : A -> B) (cmp : B -> B -> comparison) (cmp' : A -> A -> comparison) :
  Inj (=) (=) f -> (forall x y, cmp' x y = cmp (f x) (f y)) -> TotalCmp cmp -> TotalCmp cmp'.
Proof.
  intros Hf Hc Ht. split; intros *; rewrite !Hc.
  - rewrite cmp_eq. split; [apply Hf|by intros ->].
  - apply cmp_antisym.
  - apply cmp_trans.
Qed.

#[export] Instance CacheKey_total : TotalCmp CacheKey_cmp.
Proof.
  eapply (inj_total (fun k => (shard_id k, (record_key k, (namespace k, selector k))))
            (lex_cmp Z.compare (lex_cmp String.compare (lex_cmp String.compare String.compare)))).
  - intros [] [] ?; simplify_eq/=; done.
  - intros x y. unfold CacheKey_cmp, lex_cmp, cmp_then. simpl. by repeat case_match.
  - apply _.
Qed.

(** ** Minima *)

Section minimum.
Context {A : Type} (cmp : A -> A -> comparison) `{!TotalCmp cmp}.

Definition cmp_lt (a b : A) : bool := match cmp a b with Lt => true | _ => false end.
Definition cmp_le (a b : A) : Prop := cmp a b <> Gt.

(** The smaller of two, the first of equals. *)
Definition cmp_min (a b : A) : A := if cmp_lt b a then b else a.

Lemma cmp_refl a : cmp a a = Eq.
Proof. by apply cmp_eq. Qed.

Lemma cmp_le_refl a : cmp_le a a.
Proof. unfold cmp_le. by rewrite cmp_refl. Qed.

Lemma cmp_lt_spec a b : cmp_lt a b = true <-> cmp a b = Lt.
Proof. unfold cmp_lt. destruct (cmp a b); naive_solver. Qed.

Lemma cmp_not_lt a b : cmp_lt b a = false <-> cmp_le a b.
Proof.
  unfold cmp_lt, cmp_le. rewrite (cmp_antisym (cmp := cmp) a b). destruct (cmp a b); simpl; naive_solver.
Qed.

Lemma cmp_le_trans a b c : cmp_le a b -> cmp_le b c -> cmp_le a c.
Proof.
  unfold cmp_le. destruct (cmp a b) eqn:E1; [|intros _|done].
  - apply cmp_eq in E1 as ->. done.
  - destruct (cmp b c) eqn:E2; [intros _|intros _|done].
    + apply cmp_eq in E2 as ->. by rewrite E1.
    + by rewrite (cmp_trans _ _ _ E1 E2).
Qed.

Lemma cmp_le_antisym a b : cmp_le a b -> cmp_le b a -> a = b.
Proof.
  unfold cmp_le. rewrite (cmp_antisym (cmp := cmp) a b). destruct (cmp a b) eqn:E; simpl; [|done..].
  intros _ _. by apply cmp_eq in E.
Qed.

Lemma cmp_min_l a b : cmp_le (cmp_min a b) a.
Proof.
  unfold cmp_min. destruct (cmp_lt b a) eqn:E; [|apply cmp_le_refl].
  apply cmp_lt_spec in E. unfold cmp_le. by rewrite E.
Qed.
Lemma cmp_min_r a b : cmp_le (cmp_min a b) b.
Proof.
  unfold cmp_min. destruct (cmp_lt b a) eqn:E; [apply cmp_le_refl|]. by apply cmp_not_lt in E.
Qed.
Lemma cmp_min_cases a b : cmp_min a b = a \/ cmp_min a b = b.
Proof. unfold cmp_min. case_if; auto. Qed.

Lemma cmp_min_unique a b m :
  (m = a \/ m = b) -> cmp_le m a -> cmp_le m b -> cmp_min a b = m.
Proof.
  intros Hm Ha Hb. apply cmp_le_antisym.
  - destruct Hm as [->| ->]; [apply cmp_min_l|apply cmp_min_r].
  - by destruct (cmp_min_cases a b) as [->| ->].
Qed.

#[global] Instance cmp_min_comm : Comm (=) cmp_min.
Proof.
  intros a b. apply cmp_min_unique.
  - destruct (cmp_min_cases b a); auto.
  - apply cmp_min_r.
  - apply cmp_min_l.
Qed.

Lemma cmp_min_le a b m : cmp_le m a -> cmp_le m b -> cmp_le m (cmp_min a b).
Proof. by destruct (cmp_min_cases a b) as [-> | ->]. Qed.

#[global] Instance cmp_min_assoc : Assoc (=) cmp_min.
Proof.
  intros a b c. apply cmp_le_antisym; repeat apply cmp_min_le;
    eauto using cmp_le_trans, cmp_min_l, cmp_min_r.
Qed.
End minimum.

(** ** Keys as text

    Rust's [String]s compare byte by byte; the engines sort the keys of their
    hash maps with that order before they walk them. *)

Definition string_le (a b : string) : Prop := String.leb a b = true.
#[global] Instance string_le_dec a b : Decision (string_le a b) := decide (String.leb a b = true).

(** [keys().cloned().collect()] and [keys.sort()]. *)
Definition sorted_keys {V} (m : gmap string V) : list string := merge_sort string_le (map_to_list m).*1.

Lemma string_le_cases a b : string_le a b <-> a = b \/ String_as_OT.lt a b.
Proof.
  unfold string_le, String.leb. rewrite <- String_as_OT.cmp_lt. change String_as_OT.cmp with String.compare.
  destruct (String.compare a b) eqn:E; split; intros; try done.
  - left. by apply String.compare_eq_iff.
  - by right.
  - destruct H as [->|]; [|done]. pose proof (String.compare_antisym b b) as Hb. rewrite E in Hb. done.
Qed.

#[global] Instance string_le_trans : Transitive string_le.
Proof.
  intros a b c. rewrite !string_le_cases. intros [->|H1] [->|H2]; auto. right. by eapply String_as_OT.lt_trans.
Qed.
#[global] Instance string_le_antisymm : AntiSymm (=) string_le.
Proof. intros a b. apply String.leb_antisym. Qed.
#[global] Instance string_le_total : Total string_le.
Proof. intros a b. apply String.leb_total. Qed.

Section sorted.
Context {V : Type} (m : gmap string V).

Lemma sorted_keys_perm : sorted_keys m ≡ₚ (map_to_list m).*1.
Proof. apply merge_sort_Permutation. Qed.

Lemma sorted_keys_elem k : k ∈ sorted_keys m <-> is_Some (m !! k).
Proof.
  rewrite sorted_keys_perm, list_elem_of_fmap. split.
  - intros ([k' v] & -> & Hv%elem_of_map_to_list). by exists v.
  - intros [v Hv]. exists (k, v). by rewrite elem_of_map_to_list.
Qed.

Lemma sorted_keys_nodup : NoDup (sorted_keys m).
Proof. rewrite sorted_keys_perm. apply NoDup_fst_map_to_list. Qed.

Lemma sorted_keys_sorted : StronglySorted string_le (sorted_keys m).
Proof. apply (StronglySorted_merge_sort _). Qed.

Lemma sorted_keys_length : length (sorted_keys m) = size m.
Proof. by rewrite sorted_keys_perm, length_fmap, length_map_to_list. Qed.
End sorted.

(** The keys depend on which keys are there only. *)
Lemma sorted_keys_fmap {V W} (f : V -> W) (m : gmap string V) : sorted_keys (f <$> m) = sorted_keys m.
Proof.
  apply (StronglySorted_unique string_le); [apply sorted_keys_sorted..|].
  apply NoDup_Permutation; [apply sorted_keys_nodup..|]. intros k. rewrite !sorted_keys_elem, lookup_fmap. apply fmap_is_Some.
Qed.

(** Picking some of the keys of a sorted list keeps it sorted. *)
Lemma sorted_keys_filter (P : string -> Prop) `{forall k, Decision (P k)} l :
  StronglySorted string_le l -> StronglySorted string_le (filter P l).
Proof.
  induction 1 as [|k l Hs IH Hk]; [constructor|]. rewrite filter_cons. case_decide; [|done]. constructor; [done|].
  apply Forall_forall. intros x [_ Hx]%list_elem_of_filter. by eapply Forall_forall in Hk.
Qed.
