(* ===== verification/EntryMeta.v ===== *)
(** * Per-entry metadata

    [CacheEntryMeta] (multilayer_cache.rs) and what eviction reads from it:
    the score an entry is weighed by and the group it is weighed within. *)

From S2P Require Import Prelude Types Ordering.

Record CacheEntryMeta := mkMeta {
  last_access_epoch : Z;
  hotness : Z;
  hits : Z;
  routing_slot_value : Z;
  meta_block_kind : CacheBlockKind;
  admission_reason : CacheAdmissionReason;
  routing_slot_present : bool
}.

Definition HITS_CEILING : Z := 2 ^ 31.
Definition HITS_MAX_PER_CALL : Z := 2 ^ 20.
Definition HIT_SAMPLE_INTERVAL : Z := 16.
Definition SLRU_PROTECTED_HITS : Z := 2.

(** [CacheEntryMeta::new]. *)
Definition new_meta (block_kind : CacheBlockKind) (slot : option Z) (hot hit epoch : Z)
    (reason : CacheAdmissionReason) : CacheEntryMeta :=
  mkMeta epoch hot hit (default 0 slot) block_kind reason (bool_decide (is_Some slot)).

(** [CacheEntryMeta::routing_slot]. *)
Definition meta_routing_slot (m : CacheEntryMeta) : option Z :=
  if routing_slot_present m then Some (routing_slot_value m) else None.

Definition set_routing_slot (slot : option Z) (m : CacheEntryMeta) : CacheEntryMeta :=
  mkMeta (last_access_epoch m) (hotness m) (hits m) (default 0 slot) (meta_block_kind m)
         (admission_reason m) (bool_decide (is_Some slot)).

Definition set_epoch (epoch : Z) (m : CacheEntryMeta) : CacheEntryMeta :=
  mkMeta epoch (hotness m) (hits m) (routing_slot_value m) (meta_block_kind m)
         (admission_reason m) (routing_slot_present m).

(** [hotness.fetch_add]: the count before, and the entry after; an atomic add
    wraps. *)
Definition add_hotness (n : Z) (m : CacheEntryMeta) : Z * CacheEntryMeta :=
  (hotness m,
   mkMeta (last_access_epoch m) (wrap32 (hotness m + n)) (hits m) (routing_slot_value m)
          (meta_block_kind m) (admission_reason m) (routing_slot_present m)).

(** [record_hits]: the count before, and the entry after. *)
Definition record_hits (occurrences : Z) (m : CacheEntryMeta) : Z * CacheEntryMeta :=
  if HITS_CEILING <=? hits m then (hits m, m)
  else (hits m,
        mkMeta (last_access_epoch m) (hotness m)
               (wrap32 (hits m + wrap32 (Z.min occurrences HITS_MAX_PER_CALL)))
               (routing_slot_value m) (meta_block_kind m) (admission_reason m)
               (routing_slot_present m)).

Definition sampled_hit_count (hits_before occurrences : Z) : Z :=
  if occurrences =? 0 then 0
  else
    let last_hit := hits_before +! (occurrences -! 1) in
    let before_window := hits_before -! 1 in
    last_hit / HIT_SAMPLE_INTERVAL - before_window / HIT_SAMPLE_INTERVAL.

(** ** Scores *)

Record EvictionScore := mkScore {
  sc_segment : Z;
  sc_hotness : Z;
  sc_hits : Z;
  sc_epoch : Z
}.

#[global] Instance EvictionScore_eq_dec : EqDecision EvictionScore.
Proof. solve_decision. Defined.

(** The derived [Ord]: fields in declaration order. *)
Definition score_cmp (a b : EvictionScore) : comparison :=
  cmp_then (Z.compare (sc_segment a) (sc_segment b))
  (cmp_then (Z.compare (sc_hotness a) (sc_hotness b))
  (cmp_then (Z.compare (sc_hits a) (sc_hits b))
            (Z.compare (sc_epoch a) (sc_epoch b)))).

#[export] Instance score_total : TotalCmp score_cmp.
Proof.
  eapply (inj_total (fun s => (sc_segment s, (sc_hotness s, (sc_hits s, sc_epoch s))))
            (lex_cmp Z.compare (lex_cmp Z.compare (lex_cmp Z.compare Z.compare)))).
  - intros [] [] ?; simplify_eq/=; done.
  - done.
  - apply _.
Qed.

Definition eviction_score_of (meta : option CacheEntryMeta) (segmented : bool) : EvictionScore :=
  match meta with
  | Some m => mkScore (if segmented && (SLRU_PROTECTED_HITS <=? hits m) then 1 else 0)
                      (hotness m) (hits m) (last_access_epoch m)
  | None => mkScore 0 0 0 0
  end.

Inductive EvictionReason := Cold | LowHit | Stale | ReasonExpired.
#[global] Instance EvictionReason_eq_dec : EqDecision EvictionReason.
Proof. solve_decision. Defined.

Definition eviction_reason_for (score : EvictionScore) : EvictionReason :=
  if sc_hotness score =? 0 then Cold else if sc_hits score =? 0 then LowHit else Stale.

Inductive CacheRemovalCause := CauseEvicted | CauseExpired.

Definition removal_cause (reason : EvictionReason) : CacheRemovalCause :=
  match reason with ReasonExpired => CauseExpired | Cold | LowHit | Stale => CauseEvicted end.

(** ** Groups *)

Inductive EvictionGroupKey := Slot (slot : Z) | ObjectGroup (key : CacheKey).

(** What the group's equality, order and hash read. *)
Definition group_id (g : EvictionGroupKey) : Z * (Z * (string * string)) :=
  match g with
  | Slot slot => (0, (slot, (EmptyString, EmptyString)))
  | ObjectGroup key => (1, (0, (namespace key, record_key key)))
  end.

Definition group_eqb (a b : EvictionGroupKey) : bool :=
  match a, b with
  | Slot l, Slot r => l =? r
  | ObjectGroup l, ObjectGroup r =>
      String.eqb (namespace l) (namespace r) && String.eqb (record_key l) (record_key r)
  | _, _ => false
  end.

Definition group_cmp (a b : EvictionGroupKey) : comparison :=
  match a, b with
  | Slot l, Slot r => Z.compare l r
  | Slot _, ObjectGroup _ => Lt
  | ObjectGroup _, Slot _ => Gt
  | ObjectGroup l, ObjectGroup r =>
      cmp_then (String.compare (namespace l) (namespace r))
               (String.compare (record_key l) (record_key r))
  end.

Definition eviction_group_key_of (meta : option CacheEntryMeta) (key : CacheKey) : EvictionGroupKey :=
  match (match meta with Some m => meta_routing_slot m | None => None end) with
  | Some slot => Slot slot
  | None => match extract_routing_slot key with
            | Some slot => Slot slot
            | None => ObjectGroup key
            end
  end.

Lemma group_eqb_id a b : group_eqb a b = bool_decide (group_id a = group_id b).
Proof.
  destruct a, b; simpl; symmetry.
  - destruct (Z.eqb_spec slot slot0); [apply bool_decide_eq_true|apply bool_decide_eq_false]; naive_solver.
  - done.
  - done.
  - destruct (String.eqb_spec (namespace key) (namespace key0)),
      (String.eqb_spec (record_key key) (record_key key0)); simpl;
      [apply bool_decide_eq_true|apply bool_decide_eq_false..]; naive_solver congruence.
Qed.

Definition id_cmp : Z * (Z * (string * string)) -> Z * (Z * (string * string)) -> comparison :=
  lex_cmp Z.compare (lex_cmp Z.compare (lex_cmp String.compare String.compare)).

Lemma group_cmp_id a b : group_cmp a b = id_cmp (group_id a) (group_id b).
Proof.
  destruct a, b; unfold id_cmp, lex_cmp; simpl; try done.
  by destruct (slot ?= slot0).
Qed.

(** Hits are counted up to a ceiling that a single call cannot pass by much:
    the counter never wraps. *)
Lemma record_hits_bound occurrences m :
  0 <= occurrences -> 0 <= hits m <= u32_max ->
  let '(before, m') := record_hits occurrences m in
  before = hits m /\ hits m <= hits m' <= Z.max (hits m) (HITS_CEILING + HITS_MAX_PER_CALL - 1).
Proof.
  intros Ho Hh. unfold record_hits, HITS_CEILING, HITS_MAX_PER_CALL, u32_max in *.
  case_if; zbool; cbn [hits]; [lia|].
  unfold wrap32. rewrite (Z.mod_small (Z.min _ _)) by lia. rewrite Z.mod_small by lia. lia.
Qed.
