(* ===== verification/Victim.v ===== *)
(** * Choosing an eviction victim

    The selection functions of builder_and_gc.rs over a tier's orders.  Pins,
    metadata, expiry and the SSD frequency estimate are what the cache knows
    about each key; here they are the variables of a section.  The two ways of
    grouping candidates, a hash table for wide scans and a sort for the bounded
    window, are both modelled. *)

From S2P Require Import Prelude Types Ordering EntryMeta.

Definition EVICTION_CANDIDATE_WINDOW : nat := 128.

(** ** Groups *)

Record SlotEvictionGroup := mkGroup {
  group_score : EvictionScore;
  victim : CacheKey;
  victim_score : EvictionScore
}.

Definition new_group (key : CacheKey) (score : EvictionScore) : SlotEvictionGroup :=
  mkGroup score key score.

Definition observe (key : CacheKey) (score : EvictionScore) (g : SlotEvictionGroup) : SlotEvictionGroup :=
  let gs := group_score g in
  let gs' := mkScore (Z.min (sc_segment gs) (sc_segment score))
                     (Z.max (sc_hotness gs) (sc_hotness score))
                     (sc_hits gs +! sc_hits score)
                     (Z.max (sc_epoch gs) (sc_epoch score)) in
  if cmp_lt score_cmp score (victim_score g)
     || (bool_decide (score = victim_score g) && cmp_lt CacheKey_cmp key (victim g))
  then mkGroup gs' key score
  else mkGroup gs' (victim g) (victim_score g).

(** The order victims are compared in across groups. *)
Definition victim_cmp (a b : SlotEvictionGroup) : comparison :=
  cmp_then (score_cmp (group_score a) (group_score b))
  (cmp_then (score_cmp (victim_score a) (victim_score b)) (CacheKey_cmp (victim a) (victim b))).

Record PickedEvictionVictim := mkPicked {
  picked_victim : option (CacheKey * EvictionReason * Z);
  groups_weighed : nat;
  promote : list CacheKey
}.

(** ** Selection *)

Section select.
Context (is_pinned : CacheKey -> bool).
Context (metadata_of : CacheKey -> option CacheEntryMeta).
Context (ssd_estimate : CacheKey -> Z).

Definition select_fifo_eviction_victim (keys : list CacheKey) : option (CacheKey * EvictionReason * Z) :=
  (fix go skips keys :=
     match keys with
     | [] => None
     | key :: rest => if is_pinned key then go (skips +! 1) rest else Some (key, Stale, skips)
     end) 0 keys.

(** The score of one candidate. *)
Definition candidate_score (segmented frequency : bool) (key : CacheKey) : EvictionScore :=
  let score := eviction_score_of (metadata_of key) segmented in
  if frequency then
    let recent := ssd_estimate key in
    mkScore (if segmented && (SLRU_PROTECTED_HITS <=? recent) then 1 else 0) recent 0 (sc_epoch score)
  else score.

Definition candidate_group (key : CacheKey) : EvictionGroupKey :=
  eviction_group_key_of (metadata_of key) key.

(** The candidates that can be displaced, and how many cannot. *)
Definition unpinned (keys : list CacheKey) : list CacheKey := filter (fun k => is_pinned k = false) keys.

Definition pinned_count (keys : list CacheKey) : Z :=
  fold_left (fun n key => if is_pinned key then n +! 1 else n) keys 0.

(** [wide_groups.entry(group_key).and_modify(..).or_insert_with(..)]. *)
Fixpoint upsert (gk : EvictionGroupKey) (key : CacheKey) (score : EvictionScore)
    (groups : list (EvictionGroupKey * SlotEvictionGroup)) : list (EvictionGroupKey * SlotEvictionGroup) :=
  match groups with
  | [] => [(gk, new_group key score)]
  | (gk', g) :: rest =>
      if group_eqb gk' gk then (gk', observe key score g) :: rest
      else (gk', g) :: upsert gk key score rest
  end.

Definition wide_groups (segmented frequency : bool) (keys : list CacheKey)
    : list (EvictionGroupKey * SlotEvictionGroup) :=
  fold_left (fun groups key => upsert (candidate_group key) key (candidate_score segmented frequency key) groups)
            (unpinned keys) [].

(** [min_by]: the first of the least. *)
Definition min_group (groups : list SlotEvictionGroup) : option SlotEvictionGroup :=
  match groups with
  | [] => None
  | g :: rest => Some (fold_left (cmp_min victim_cmp) rest g)
  end.

(** The members of a sorted run that share the group's key, folded in. *)
Fixpoint take_group (gk : EvictionGroupKey) (g : SlotEvictionGroup)
    (rest : list (EvictionGroupKey * CacheKey * EvictionScore))
    : SlotEvictionGroup * list (EvictionGroupKey * CacheKey * EvictionScore) :=
  match rest with
  | (gk', key, score) :: rest' =>
      if group_eqb gk' gk then take_group gk (observe key score g) rest' else (g, rest)
  | [] => (g, [])
  end.

(** The fold over sorted runs; every round consumes a candidate. *)
Fixpoint bounded_best (fuel : nat) (groups : list (EvictionGroupKey * CacheKey * EvictionScore))
    (count : nat) (best : option SlotEvictionGroup) : nat * option SlotEvictionGroup :=
  match fuel, groups with
  | S f, (gk, key, score) :: rest =>
      let '(g, rest') := take_group gk (new_group key score) rest in
      let replace := match best with None => true | Some old => cmp_lt victim_cmp g old end in
      bounded_best f rest' (count + 1) (if replace then Some g else best)
  | _, _ => (count, best)
  end.

Definition run_le (a b : EvictionGroupKey * CacheKey * EvictionScore) : Prop :=
  group_cmp a.1.1 b.1.1 <> Gt.
#[export] Instance run_le_dec a b : Decision (run_le a b) := _.

(** [sort_unstable_by] on the group key; which of equal elements comes first
    is not specified there, and does not matter below. *)
Definition sort_runs (l : list (EvictionGroupKey * CacheKey * EvictionScore)) :=
  merge_sort run_le l.

(** [candidates] bounds the number of [keys]; the callers count them or stop at
    the window, so the array of [EVICTION_CANDIDATE_WINDOW] places which the
    bounded path fills is never overrun. *)
Definition select_eviction_victim (keys : list CacheKey) (segmented : bool) (candidates : nat)
    (frequency : bool) : PickedEvictionVictim :=
  let pinned_skips := pinned_count keys in
  let report (g : SlotEvictionGroup) := (victim g, eviction_reason_for (victim_score g), pinned_skips) in
  if (EVICTION_CANDIDATE_WINDOW <? candidates)%nat then
    let groups := wide_groups segmented frequency keys in
    mkPicked (report <$> min_group (snd <$> groups)) (length groups) []
  else
    let runs := (fun key => (candidate_group key, key, candidate_score segmented frequency key))
                  <$> unpinned keys in
    let '(count, best) := bounded_best (length runs) (sort_runs runs) 0 None in
    mkPicked (report <$> best) count [].

Context (ttl_in_use : bool) (entry_expired : CacheKey -> bool).
Context (cold_eviction_share_pct : Z).

(** The scan of the cold share: the first entry not read twice is given up,
    the ones passed over are moved back. *)
Fixpoint cold_scan (keys : list CacheKey) (promoted : list CacheKey) (first_unpinned : option CacheKey)
    : option PickedEvictionVictim :=
  match keys with
  | [] => match first_unpinned with
          | Some v => Some (mkPicked (Some (v, Stale, 0)) 0 (filter (fun k => k <> v) promoted))
          | None => None
          end
  | key :: rest =>
      if is_pinned key then cold_scan rest promoted first_unpinned
      else
        let first := match first_unpinned with None => Some key | some => some end in
        let twice_read := match metadata_of key with
                          | Some m => SLRU_PROTECTED_HITS <=? hits m
                          | None => false
                          end in
        if twice_read then cold_scan rest (promoted ++ [key]) first
        else Some (mkPicked (Some (key, Stale, 0)) 0 promoted)
  end.

Definition select_windowed_eviction_victim (order : list CacheKey) (segmented : bool)
    (candidates : nat) (frequency : bool) : PickedEvictionVictim :=
  let window := take candidates order in
  let expired := if ttl_in_use
                 then head (filter (fun k => entry_expired k = true /\ is_pinned k = false) window)
                 else None in
  match expired with
  | Some key => mkPicked (Some (key, ReasonExpired, 0)) 0 []
  | None =>
      let cold := if negb frequency && (cold_eviction_share_pct <? 100)
                  then cold_scan window [] None else None in
      match cold with
      | Some picked => picked
      | None =>
          let windowed := select_eviction_victim window segmented candidates frequency in
          if bool_decide (is_Some (picked_victim windowed)) || (length order <=? candidates)%nat
          then windowed
          else
            let full := select_eviction_victim order segmented (length order) frequency in
            mkPicked (picked_victim full) (groups_weighed windowed + groups_weighed full) []
      end
  end.

End select.
