(* ===== verification/VictimFacts.v ===== *)
(** * What victim selection chooses

    Both groupings compute the same partition, and the group and victim they
    pick are the least; selection never takes a pinned entry, never stalls
    while an unpinned one exists, and keeps the promises its policies make. *)

From S2P Require Import Prelude Types Ordering EntryMeta Victim.

(** ** Groups are order independent *)

#[export] Instance victim_total : TotalCmp victim_cmp.
Proof.
  eapply (inj_total (fun g => (group_score g, (victim_score g, victim g)))
            (lex_cmp score_cmp (lex_cmp score_cmp CacheKey_cmp))).
  - intros [] [] ?; simplify_eq/=; done.
  - done.
  - apply _.
Qed.

Abbreviation member := (CacheKey * EvictionScore)%type.

Definition pair_cmp : EvictionScore * CacheKey -> EvictionScore * CacheKey -> comparison :=
  lex_cmp score_cmp CacheKey_cmp.

(** A group as the pair of what it accumulates and what it would give up. *)
Definition join_scores (a b : EvictionScore) : EvictionScore :=
  mkScore (Z.min (sc_segment a) (sc_segment b)) (Z.max (sc_hotness a) (sc_hotness b))
          (sc_hits a +! sc_hits b) (Z.max (sc_epoch a) (sc_epoch b)).

Lemma observe_join key score g :
  observe key score g =
  let v := cmp_min pair_cmp (victim_score g, victim g) (score, key) in
  mkGroup (join_scores (group_score g) score) v.2 v.1.
Proof.
  unfold observe, cmp_min, cmp_lt, pair_cmp, lex_cmp, cmp_then. simpl.
  destruct (score_cmp score (victim_score g)) eqn:E; simpl.
  - apply cmp_eq in E as ->. rewrite bool_decide_eq_true_2 by done. simpl.
    by destruct (CacheKey_cmp key (victim g)).
  - done.
  - rewrite bool_decide_eq_false_2; [done|]. intros ->. by rewrite (cmp_refl score_cmp) in E.
Qed.

Definition nonneg_hits (m : member) : Prop := 0 <= sc_hits m.2.

Definition fold_members (g : SlotEvictionGroup) (l : list member) : SlotEvictionGroup :=
  fold_left (fun g m => observe m.1 m.2 g) l g.

(** The group of a list of members, in the order they are met. *)
Definition group_of (l : list member) : option SlotEvictionGroup :=
  match l with
  | [] => None
  | m :: rest => Some (fold_members (new_group m.1 m.2) rest)
  end.

Lemma join_swap a b c :
  0 <= sc_hits b -> 0 <= sc_hits c ->
  join_scores (join_scores a b) c = join_scores (join_scores a c) b.
Proof. intros Hb Hc. unfold join_scores, sat_add. f_equal; simpl; lia. Qed.

Lemma join_comm a b : join_scores a b = join_scores b a.
Proof. unfold join_scores, sat_add. f_equal; lia. Qed.

Lemma observe_swap g x y :
  nonneg_hits x -> nonneg_hits y ->
  observe y.1 y.2 (observe x.1 x.2 g) = observe x.1 x.2 (observe y.1 y.2 g).
Proof.
  intros Hx Hy. rewrite !observe_join. simpl.
  set (v := (victim_score g, victim g)). rewrite <- !surjective_pairing.
  rewrite <- !(assoc_L (cmp_min pair_cmp)), (comm_L (cmp_min pair_cmp) (x.2, x.1)).
  by rewrite join_swap.
Qed.

Lemma fold_members_perm g l l' :
  Forall nonneg_hits l -> l ≡ₚ l' -> fold_members g l = fold_members g l'.
Proof.
  intros Hl Hp. revert g Hl. induction Hp as [|x l l' Hp IH|x y l|l1 l2 l3 H1 IH1 H2 IH2];
    intros g Hl; unfold fold_members in *; simpl.
  - done.
  - apply IH. by apply Forall_cons in Hl as [_ ?].
  - apply Forall_cons in Hl as [Hy [Hx _]%Forall_cons]. by rewrite observe_swap.
  - rewrite IH1 by done. apply IH2. by rewrite <- H1.
Qed.

Lemma group_of_perm l l' : Forall nonneg_hits l -> l ≡ₚ l' -> group_of l = group_of l'.
Proof.
  intros Hl Hp. revert Hl. induction Hp as [|x l l' Hp IH|x y l|l1 l2 l3 H1 IH1 H2 IH2]; intros Hl.
  - done.
  - simpl. f_equal. apply fold_members_perm; [|done]. by apply Forall_cons in Hl as [_ ?].
  - simpl. f_equal. unfold fold_members. simpl. f_equal.
    rewrite !observe_join. simpl. rewrite (comm_L (cmp_min pair_cmp)).
    f_equal. apply join_comm.
  - rewrite IH1 by done. apply IH2. by rewrite <- H1.
Qed.

(** ** The partition of the candidates *)

Abbreviation run := (EvictionGroupKey * CacheKey * EvictionScore)%type.
Abbreviation gid := (Z * (Z * (string * string)))%type.

Definition run_id (r : run) : gid := group_id r.1.1.
Definition run_member (r : run) : member := (r.1.2, r.2).

(** The members of one group, in the order the scan meets them. *)
Definition members (id : gid) (l : list run) : list member :=
  run_member <$> filter (fun r => run_id r = id) l.

(** [gs] is the partition of [l]: one entry per group, folded. *)
Record partition_of (l : list run) (gs : list (gid * SlotEvictionGroup)) : Prop := {
  pt_nodup : NoDup gs.*1;
  pt_groups : forall id g, (id, g) ∈ gs <-> group_of (members id l) = Some g
}.

Lemma partition_unique l l' gs gs' :
  Forall nonneg_hits (run_member <$> l) -> l ≡ₚ l' ->
  partition_of l gs -> partition_of l' gs' -> gs ≡ₚ gs'.
Proof.
  intros Hn Hp [H1 H2] [H3 H4]. apply NoDup_Permutation.
  - by eapply NoDup_fmap_1.
  - by eapply NoDup_fmap_1.
  - intros [id g]. rewrite H2, H4. rewrite (group_of_perm (members id l) (members id l')); [done| |].
    + unfold members. apply Forall_fmap. rewrite Forall_fmap in Hn.
      rewrite Forall_forall in Hn |- *. intros r [_ Hr]%list_elem_of_filter. by apply Hn.
    + unfold members. by rewrite Hp.
Qed.

Lemma members_app id l1 l2 : members id (l1 ++ l2) = members id l1 ++ members id l2.
Proof. unfold members. by rewrite filter_app, fmap_app. Qed.

Lemma group_of_snoc l m :
  group_of (l ++ [m]) = Some (match group_of l with
                              | Some g => observe m.1 m.2 g
                              | None => new_group m.1 m.2
                              end).
Proof. destruct l as [|x l]; simpl; [done|]. unfold fold_members. by rewrite fold_left_app. Qed.

Lemma members_eq id r : run_id r = id -> members id [r] = [run_member r].
Proof. intros Hr. unfold members. by rewrite filter_cons_True by done. Qed.
Lemma members_ne id r : run_id r <> id -> members id [r] = [].
Proof. intros Hr. unfold members. by rewrite filter_cons_False by done. Qed.

(** ** The hash table *)

Definition ids (groups : list (EvictionGroupKey * SlotEvictionGroup)) : list (gid * SlotEvictionGroup) :=
  prod_map group_id id <$> groups.

Lemma ids_cons gk g rest : ids ((gk, g) :: rest) = (group_id gk, g) :: ids rest.
Proof. done. Qed.

Lemma upsert_ids gk key score groups :
  (ids (upsert gk key score groups)).*1 =
  (if bool_decide (group_id gk ∈ (ids groups).*1) then (ids groups).*1
   else (ids groups).*1 ++ [group_id gk]).
Proof.
  induction groups as [|[gk' g] rest IH]; [done|].
  cbn [upsert]. rewrite group_eqb_id, ids_cons, fmap_cons. cbn [fst].
  destruct (decide (group_id gk' = group_id gk)) as [He|Hne].
  - rewrite bool_decide_eq_true_2 by done. rewrite ids_cons, fmap_cons. cbn [fst].
    rewrite bool_decide_eq_true_2; [done|]. rewrite He. apply list_elem_of_here.
  - rewrite bool_decide_eq_false_2 by done. rewrite ids_cons, fmap_cons, IH. cbn [fst].
    destruct (decide (group_id gk ∈ (ids rest).*1)) as [Hin|Hin].
    + rewrite !bool_decide_eq_true_2; [done|by apply list_elem_of_further|done].
    + rewrite !bool_decide_eq_false_2; [done|by apply not_elem_of_cons|done].
Qed.

Lemma ids_fst id g gs : (id, g) ∈ gs -> id ∈ (gs : list (gid * SlotEvictionGroup)).*1.
Proof. intros H. apply list_elem_of_fmap. by exists (id, g). Qed.

Lemma upsert_elem gk key score groups id g :
  NoDup (ids groups).*1 ->
  (id, g) ∈ ids (upsert gk key score groups) <->
  (id <> group_id gk /\ (id, g) ∈ ids groups) \/
  (id = group_id gk /\
   ((exists g0, (id, g0) ∈ ids groups /\ g = observe key score g0) \/
    (id ∉ (ids groups).*1) /\ g = new_group key score)).
Proof.
  induction groups as [|[gk' g'] rest IH]; intros Hnd.
  - cbn. rewrite list_elem_of_singleton. set_solver.
  - cbn [upsert]. rewrite group_eqb_id, ids_cons, fmap_cons in *. cbn [fst] in *.
    apply NoDup_cons in Hnd as [Hni Hnd]. specialize (IH Hnd).
    destruct (decide (group_id gk' = group_id gk)) as [He|Hne].
    + rewrite bool_decide_eq_true_2 by done. rewrite ids_cons, !elem_of_cons.
      rewrite He in *. split.
      * intros [[= -> ->]|Hin]; [right|left].
        { split; [done|]. left. exists g'. split; [by apply list_elem_of_here|done]. }
        { split; [|by right]. intros ->. by apply Hni, (ids_fst _ g). }
      * intros [[Hid [[= ? ?]|Hin]]|[-> [(g0 & [[= ->]|Hin]%elem_of_cons & ->)|[Hn _]]]];
          [done|by right|by left|exfalso; by apply Hni, (ids_fst _ g0)|].
        exfalso. apply Hn. by left.
    + rewrite bool_decide_eq_false_2 by done. rewrite ids_cons, !elem_of_cons, IH.
      split.
      * intros [[= -> ->]|[[Hid Hin]|[-> [(g0 & Hin & ->)|[Hn ->]]]]]; [left|left|right|right].
        { split; [done|by left]. }
        { split; [done|by right]. }
        { split; [done|]. left. exists g0. split; [by apply list_elem_of_further|done]. }
        { split; [done|]. right. split; [by intros [?|?]|done]. }
      * intros [[Hid [[= -> ->]|Hin]]|[-> [(g0 & [[= ? ->]|Hin]%elem_of_cons & ->)|[Hn ->]]]]; [by left|..].
        { right. left. done. }
        { congruence. }
        { right. right. split; [done|]. left. eauto. }
        { right. right. split; [done|]. right. split; [|done]. intros ?. apply Hn. by right. }
Qed.

Lemma members_nil id l : members id l = [] <-> id ∉ (run_id <$> l).
Proof.
  unfold members. split.
  - intros Hm (r & -> & Hr)%list_elem_of_fmap. apply fmap_nil_inv in Hm.
    assert (Hin : r ∈ filter (fun x => run_id x = run_id r) l) by (by apply list_elem_of_filter).
    rewrite Hm in Hin. by apply not_elem_of_nil in Hin.
  - intros Hn. destruct (filter _ l) as [|r rs] eqn:E; [done|]. exfalso. apply Hn.
    assert (Hin : r ∈ filter (fun x => run_id x = id) l) by (rewrite E; apply list_elem_of_here).
    apply list_elem_of_filter in Hin as [<- Hin]. by apply list_elem_of_fmap_2.
Qed.

Lemma group_of_none l : group_of l = None <-> l = [].
Proof. by destruct l. Qed.

Lemma partition_fst l gs id : partition_of l gs -> id ∈ gs.*1 <-> id ∈ (run_id <$> l).
Proof.
  intros [_ Hg]. rewrite list_elem_of_fmap. split.
  - intros ([id' g] & -> & Hin%Hg). apply dec_stable. intros Hn%members_nil. simpl in Hn.
    by rewrite Hn in Hin.
  - intros Hin. destruct (group_of (members id l)) as [g|] eqn:E.
    + exists (id, g). split; [done|]. by apply Hg.
    + apply group_of_none, members_nil in E. done.
Qed.

(** Adding one candidate to the table keeps it the partition. *)
Lemma upsert_partition l groups gk key score :
  partition_of l (ids groups) ->
  partition_of (l ++ [(gk, key, score)]) (ids (upsert gk key score groups)).
Proof.
  intros Hp. destruct Hp as [Hnd Hg] eqn:Ep. clear Ep. split.
  - rewrite upsert_ids. case_bool_decide as Hin; [done|]. apply NoDup_app. split_and!; [done| |].
    + intros x Hx ->%list_elem_of_singleton. done.
    + apply NoDup_singleton.
  - intros id g. rewrite upsert_elem by done. rewrite members_app.
    destruct (decide (group_id gk = id)) as [<-|Hne].
    + rewrite (members_eq _ (gk, key, score)), group_of_snoc by done. simpl.
      destruct (group_of (members (group_id gk) l)) as [g0|] eqn:E.
      * assert (Hin : (group_id gk, g0) ∈ ids groups) by (by apply Hg).
        split.
        { intros [[? _]|[_ [(g1 & H1 & ->)|[Hn _]]]]; [done| |].
          - apply Hg in H1. congruence.
          - exfalso. by apply Hn, (ids_fst _ g0). }
        { intros [= <-]. right. split; [done|]. left. eauto. }
      * assert (Hout : group_id gk ∉ (ids groups).*1).
        { intros Hin%(partition_fst l); [|done]. by apply group_of_none, members_nil in E. }
        split.
        { intros [[? _]|[_ [(g1 & H1 & ->)|[_ ->]]]]; [done| |done].
          apply Hg in H1. congruence. }
        { intros [= <-]. right. split; [done|]. right. done. }
    + rewrite members_ne, app_nil_r by done. rewrite <- Hg. split; [|naive_solver].
      intros [[_ ?]|[? _]]; [done|]. congruence.
Qed.

Lemma nil_partition : partition_of [] [].
Proof. split; [constructor|]. intros id g. simpl. split; [by intros ?%not_elem_of_nil|done]. Qed.

Section candidates.
Context (is_pinned : CacheKey -> bool) (metadata_of : CacheKey -> option CacheEntryMeta).
Context (ssd_estimate : CacheKey -> Z) (segmented frequency : bool).

Definition runs_of (keys : list CacheKey) : list run :=
  (fun key => (candidate_group metadata_of key, key,
               candidate_score metadata_of ssd_estimate segmented frequency key)) <$> keys.

Lemma wide_partition keys :
  partition_of (runs_of (unpinned is_pinned keys))
    (ids (wide_groups is_pinned metadata_of ssd_estimate segmented frequency keys)).
Proof.
  unfold wide_groups. generalize (unpinned is_pinned keys) as l. intros l.
  induction l as [|k l IH] using rev_ind; [apply nil_partition|].
  rewrite fold_left_app. unfold runs_of in *. rewrite fmap_app. simpl. by apply upsert_partition.
Qed.
End candidates.

(** ** The sorted runs *)

Fixpoint split_runs (fuel : nat) (l : list run) : list (gid * SlotEvictionGroup) :=
  match fuel, l with
  | S f, (gk, key, score) :: rest =>
      let '(g, rest') := take_group gk (new_group key score) rest in
      (group_id gk, g) :: split_runs f rest'
  | _, _ => []
  end.

Lemma take_group_spec gk g rest :
  exists pre rest', rest = pre ++ rest' /\
    take_group gk g rest = (fold_members g (run_member <$> pre), rest') /\
    Forall (fun r => run_id r = group_id gk) pre /\
    match rest' with [] => True | r :: _ => run_id r <> group_id gk end.
Proof.
  revert g. induction rest as [|[[gk' k] s] rest IH]; intros g; cbn [take_group].
  - exists [], []. done.
  - rewrite group_eqb_id. case_bool_decide as He.
    + destruct (IH (observe k s g)) as (pre & rest' & -> & Ht & Hf & Hr).
      exists ((gk', k, s) :: pre), rest'. split_and!; [done|by rewrite Ht| |done].
      by constructor.
    + exists [], ((gk', k, s) :: rest). done.
Qed.

Lemma run_le_id a b : run_le a b <-> cmp_le id_cmp (run_id a) (run_id b).
Proof. unfold run_le, cmp_le, run_id. by rewrite group_cmp_id. Qed.

#[export] Instance id_total : TotalCmp id_cmp.
Proof. unfold id_cmp. apply _. Qed.

#[export] Instance run_le_trans : Transitive run_le.
Proof. intros a b c. rewrite !run_le_id. apply (cmp_le_trans id_cmp). Qed.

#[export] Instance run_le_total : Total run_le.
Proof.
  intros a b. rewrite !run_le_id. unfold cmp_le.
  rewrite (cmp_antisym (cmp := id_cmp) (run_id a) (run_id b)).
  destruct (id_cmp (run_id a) (run_id b)); simpl; auto.
Qed.

(** Past the first element of another group, the group does not recur. *)
Lemma sorted_rest r pre rest' :
  StronglySorted run_le (r :: pre ++ rest') ->
  match rest' with [] => True | r' :: _ => run_id r' <> run_id r end ->
  (run_id r ∉ (run_id <$> rest')) /\ StronglySorted run_le rest'.
Proof.
  intros Hs Hr. apply StronglySorted_inv in Hs as [Hs Hall].
  apply StronglySorted_app in Hs as (_ & _ & Hs).
  apply Forall_app in Hall as [_ Hall]. split; [|done].
  destruct rest' as [|r' rest']; [by intros ?%not_elem_of_nil|].
  apply StronglySorted_inv in Hs as [_ Hlater].
  apply Forall_cons in Hall as [Hle _]. rewrite run_le_id in Hle.
  rewrite fmap_cons, not_elem_of_cons. split; [done|].
  intros (x & Hx & Hin)%list_elem_of_fmap. rewrite Forall_forall in Hlater.
  specialize (Hlater x Hin). rewrite run_le_id, <- Hx in Hlater.
  apply Hr. by apply (cmp_le_antisym id_cmp).
Qed.

Lemma members_same id l : Forall (fun r => run_id r = id) l -> members id l = run_member <$> l.
Proof.
  unfold members. induction 1 as [|r l Hr Hl IH]; [done|].
  rewrite filter_cons_True, !fmap_cons, IH by done. done.
Qed.

Lemma members_other id id' l : Forall (fun r => run_id r = id) l -> id' <> id -> members id' l = [].
Proof.
  intros Hl Hne. apply members_nil. intros (r & -> & Hr)%list_elem_of_fmap.
  rewrite Forall_forall in Hl. apply Hne. by apply Hl.
Qed.

Lemma split_partition fuel l :
  (length l <= fuel)%nat -> StronglySorted run_le l -> partition_of l (split_runs fuel l).
Proof.
  revert l. induction fuel as [|f IH]; intros [|[[gk k] s] rest] Hf Hs; simpl in Hf;
    [apply nil_partition|lia|apply nil_partition|]. cbn [split_runs].
  destruct (take_group_spec gk (new_group k s) rest) as (pre & rest' & -> & -> & Hpre & Hr).
  destruct (sorted_rest (gk, k, s) pre rest' Hs Hr) as [Hout Hs'].
  rewrite length_app in Hf. destruct (IH rest') as [Hnd Hg]; [lia|done|].
  set (r := (gk, k, s)) in *.
  assert (Hrun : Forall (fun x => run_id x = group_id gk) (r :: pre)) by (by constructor).
  change (r :: pre ++ rest') with ((r :: pre) ++ rest'). split.
  - rewrite fmap_cons. apply NoDup_cons. split; [|done]. simpl.
    rewrite (partition_fst rest') by done. done.
  - intros id g. rewrite members_app, elem_of_cons.
    destruct (decide (id = group_id gk)) as [->|Hne].
    + rewrite members_same by done. rewrite (proj2 (members_nil (group_id gk) rest')), app_nil_r by done.
      simpl. split.
      * intros [[= ->]|Hin]; [done|]. exfalso.
        apply (ids_fst _ g), (partition_fst rest') in Hin; done.
      * intros [= <-]. by left.
    + rewrite (members_other (group_id gk)) by done. simpl. rewrite <- Hg. split; [|by right].
      intros [[= ? ?]|?]; done.
Qed.

(** The best of a list of groups, [None] for none. *)
Definition best_of (best : option SlotEvictionGroup) (gs : list SlotEvictionGroup) : option SlotEvictionGroup :=
  fold_left (fun best g => Some (match best with None => g | Some old => cmp_min victim_cmp old g end)) gs best.

Lemma bounded_best_spec fuel l count best :
  bounded_best fuel l count best =
  ((count + length (split_runs fuel l))%nat, best_of best (split_runs fuel l).*2).
Proof.
  revert l count best. induction fuel as [|f IH]; intros [|[[gk k] s] rest] count best;
    cbn [bounded_best split_runs]; try by rewrite Nat.add_0_r.
  destruct (take_group gk (new_group k s) rest) as [g rest'] eqn:E. rewrite IH. f_equal.
  - simpl. lia.
  - simpl. f_equal. destruct best as [old|]; [|done]. unfold cmp_min. by case_if.
Qed.

Lemma min_group_best gs : min_group gs = best_of None gs.
Proof.
  destruct gs as [|g gs]; [done|]. simpl. unfold best_of. simpl. revert g.
  induction gs as [|g' gs IH]; intros g; simpl; [done|]. apply IH.
Qed.

Lemma best_of_perm gs gs' best : gs ≡ₚ gs' -> best_of best gs = best_of best gs'.
Proof.
  intros Hp. revert best. induction Hp as [|x l l' Hp IH|x y l|l1 l2 l3 H1 IH1 H2 IH2];
    intros best; unfold best_of in *; simpl.
  - done.
  - apply IH.
  - f_equal. f_equal. destruct best as [old|].
    + rewrite <- !(assoc_L (cmp_min victim_cmp)). f_equal. apply (comm_L (cmp_min victim_cmp)).
    + apply (comm_L (cmp_min victim_cmp)).
  - by rewrite IH1, IH2.
Qed.

(** ** What a group reports *)

Record group_facts (l : list member) (g : SlotEvictionGroup) : Prop := {
  gf_victim : (victim g, victim_score g) ∈ l;
  gf_least : forall m, m ∈ l -> cmp_le pair_cmp (victim_score g, victim g) (m.2, m.1);
  gf_segment : forall m, m ∈ l -> sc_segment (group_score g) <= sc_segment m.2;
  gf_segment_of : exists m, m ∈ l /\ sc_segment (group_score g) = sc_segment m.2
}.

Lemma observe_facts l g m : group_facts l g -> group_facts (l ++ [m]) (observe m.1 m.2 g).
Proof.
  intros [H1 H2 H3 (m0 & H4 & H5)]. rewrite observe_join. cbn zeta.
  set (v := cmp_min pair_cmp (victim_score g, victim g) (m.2, m.1)).
  pose proof (cmp_min_l pair_cmp (victim_score g, victim g) (m.2, m.1)) as Hl. fold v in Hl.
  pose proof (cmp_min_r pair_cmp (victim_score g, victim g) (m.2, m.1)) as Hr. fold v in Hr.
  split; cbn [victim victim_score group_score join_scores sc_segment].
  - apply elem_of_app. destruct (cmp_min_cases pair_cmp (victim_score g, victim g) (m.2, m.1)) as [E|E];
      fold v in E; rewrite E; simpl; [by left|right]. rewrite <- surjective_pairing. apply list_elem_of_here.
  - intros x [Hx| ->%list_elem_of_singleton]%elem_of_app; rewrite <- surjective_pairing; [|done].
    eapply cmp_le_trans; [apply _|exact Hl|by apply H2].
  - intros x [Hx| ->%list_elem_of_singleton]%elem_of_app; [specialize (H3 x Hx)|]; lia.
  - destruct (Z.min_spec (sc_segment (group_score g)) (sc_segment m.2)) as [[_ ->]|[_ ->]].
    + exists m0. split; [|done]. apply elem_of_app. by left.
    + exists m. split; [|done]. apply elem_of_app. right. apply list_elem_of_here.
Qed.

Lemma group_of_facts l g : group_of l = Some g -> group_facts l g.
Proof.
  revert g. induction l as [|m l IH] using rev_ind; intros g; [done|].
  rewrite group_of_snoc. destruct (group_of l) as [g0|] eqn:E; intros [= <-].
  - by apply observe_facts, IH.
  - apply group_of_none in E as ->. split; simpl.
    + rewrite <- surjective_pairing. apply list_elem_of_here.
    + intros x ->%list_elem_of_singleton. apply (cmp_le_refl pair_cmp).
    + intros x ->%list_elem_of_singleton. lia.
    + exists m. split; [apply list_elem_of_here|done].
Qed.

Lemma best_of_spec gs best g :
  best_of best gs = Some g ->
  (g ∈ gs \/ best = Some g) /\ (forall x, x ∈ gs \/ best = Some x -> cmp_le victim_cmp g x).
Proof.
  revert best. induction gs as [|y gs IH]; intros best; cbn.
  - intros ->. split; [by right|]. intros x [?%not_elem_of_nil|[= ->]]; [done|]. apply (cmp_le_refl victim_cmp).
  - intros Hb. destruct (IH _ Hb) as [H1 H2]. set (m := match best with None => y | Some old => _ end) in *.
    assert (Hm : (m = y \/ best = Some m) /\ cmp_le victim_cmp m y /\ (forall o, best = Some o -> cmp_le victim_cmp m o)).
    { unfold m. destruct best as [old|].
      - split_and!; [destruct (cmp_min_cases victim_cmp old y) as [->| ->]; auto| |].
        + apply (cmp_min_r victim_cmp).
        + intros o [= <-]. apply (cmp_min_l victim_cmp).
      - split_and!; [by left|apply (cmp_le_refl victim_cmp)|done]. }
    destruct Hm as (Hm1 & Hm2 & Hm3). assert (Hgm : cmp_le victim_cmp g m) by (apply H2; by right).
    split.
    + destruct H1 as [H1|[= ->]]; [left; by apply list_elem_of_further|].
      destruct Hm1 as [->|?]; [left; apply list_elem_of_here|by right].
    + intros x [[->|Hx]%elem_of_cons|Hx].
      * by eapply (cmp_le_trans victim_cmp).
      * apply H2. by left.
      * eapply (cmp_le_trans victim_cmp); [done|]. by apply Hm3.
Qed.

Lemma best_of_none gs : best_of None gs = None <-> gs = [].
Proof.
  split; [|by intros ->]. destruct gs as [|g gs]; [done|]. cbn.
  assert (H : forall x, best_of (Some x) gs <> None).
  { induction gs as [|y gs IH]; intros x; cbn; [done|]. apply IH. }
  intros Hb. by apply H in Hb.
Qed.

(** ** Selection over the partition *)

Section selection.
Context (is_pinned : CacheKey -> bool) (metadata_of : CacheKey -> option CacheEntryMeta).
Context (ssd_estimate : CacheKey -> Z).
Context (Hmeta : forall k m, metadata_of k = Some m -> 0 <= hits m).

Abbreviation select := (select_eviction_victim is_pinned metadata_of ssd_estimate).
Abbreviation score := (candidate_score metadata_of ssd_estimate).
Abbreviation candidates_of segmented frequency keys :=
  (runs_of metadata_of ssd_estimate segmented frequency (unpinned is_pinned keys)).

Lemma runs_nonneg segmented frequency l :
  Forall nonneg_hits (run_member <$> runs_of metadata_of ssd_estimate segmented frequency l).
Proof using Hmeta.
  apply Forall_fmap, Forall_fmap, Forall_forall. intros k _. unfold nonneg_hits. simpl.
  unfold candidate_score. destruct frequency; simpl; [lia|].
  unfold eviction_score_of. destruct (metadata_of k) as [m|] eqn:E; simpl; [by eapply Hmeta|lia].
Qed.

Definition report (keys : list CacheKey) (g : SlotEvictionGroup) : CacheKey * EvictionReason * Z :=
  (victim g, eviction_reason_for (victim_score g), pinned_count is_pinned keys).

Lemma select_spec keys segmented candidates frequency :
  exists gs, partition_of (candidates_of segmented frequency keys) gs /\
    select keys segmented candidates frequency =
    mkPicked (report keys <$> best_of None gs.*2) (length gs) [].
Proof using Hmeta.
  unfold select_eviction_victim. destruct (EVICTION_CANDIDATE_WINDOW <? candidates)%nat.
  - exists (ids (wide_groups is_pinned metadata_of ssd_estimate segmented frequency keys)).
    split; [apply wide_partition|]. rewrite min_group_best. unfold ids. rewrite length_fmap.
    by rewrite <- list_fmap_compose.
  - fold (candidates_of segmented frequency keys).
    set (l := candidates_of segmented frequency keys).
    assert (Hs : StronglySorted run_le (sort_runs l)) by (apply StronglySorted_merge_sort; apply _).
    assert (Hp : sort_runs l ≡ₚ l) by apply merge_sort_Permutation.
    pose proof (split_partition (length l) (sort_runs l)
      (Nat.eq_le_incl _ _ (Permutation_length Hp)) Hs) as Hsp.
    rewrite bounded_best_spec. exists (split_runs (length l) (sort_runs l)). split; [|done].
    destruct Hsp as [H1 H2]. split; [done|]. intros id g. rewrite H2.
    rewrite (group_of_perm (members id (sort_runs l)) (members id l)); [done| |].
    + unfold members. apply Forall_fmap. pose proof (runs_nonneg segmented frequency (unpinned is_pinned keys)) as Hn.
      rewrite Forall_fmap in Hn. fold l in Hn. rewrite <- Hp in Hn. rewrite Forall_forall in Hn |- *.
      intros r [_ Hr]%list_elem_of_filter. by apply Hn.
    + unfold members. by rewrite Hp.
Qed.

Lemma select_same keys segmented c1 c2 frequency :
  select keys segmented c1 frequency = select keys segmented c2 frequency.
Proof using Hmeta.
  destruct (select_spec keys segmented c1 frequency) as (g1 & H1 & ->).
  destruct (select_spec keys segmented c2 frequency) as (g2 & H2 & ->).
  assert (Hp : g1 ≡ₚ g2) by (eapply partition_unique; [apply runs_nonneg|done..]).
  f_equal; [|by rewrite Hp]. f_equal. by apply best_of_perm; rewrite Hp.
Qed.
End selection.

(** ** Which candidate is chosen *)

Section chosen.
Context (is_pinned : CacheKey -> bool) (metadata_of : CacheKey -> option CacheEntryMeta).
Context (ssd_estimate : CacheKey -> Z).
Context (Hmeta : forall k m, metadata_of k = Some m -> 0 <= hits m).

Abbreviation select := (select_eviction_victim is_pinned metadata_of ssd_estimate).
Abbreviation score := (candidate_score metadata_of ssd_estimate).
Abbreviation group k := (group_id (candidate_group metadata_of k)).

(** The accumulated score of a key's group among the candidates. *)
Definition group_total (keys : list CacheKey) (segmented frequency : bool) (k : CacheKey)
    : option SlotEvictionGroup :=
  group_of (members (group k)
    (runs_of metadata_of ssd_estimate segmented frequency (unpinned is_pinned keys))).

Lemma elem_unpinned k keys : k ∈ unpinned is_pinned keys <-> k ∈ keys /\ is_pinned k = false.
Proof. unfold unpinned. rewrite list_elem_of_filter. naive_solver. Qed.

Lemma member_runs id segmented frequency l m :
  m ∈ members id (runs_of metadata_of ssd_estimate segmented frequency l) <->
  m.1 ∈ l /\ group m.1 = id /\ m.2 = score segmented frequency m.1.
Proof.
  unfold members, runs_of. rewrite list_elem_of_fmap. split.
  - intros (r & -> & [Hid Hr]%list_elem_of_filter).
    apply list_elem_of_fmap in Hr as (k & -> & Hk). done.
  - destruct m as [k s]. simpl. intros (Hk & Hid & ->).
    exists (candidate_group metadata_of k, k, score segmented frequency k). split; [done|].
    apply list_elem_of_filter. split; [done|]. apply list_elem_of_fmap. by exists k.
Qed.

Lemma group_total_some keys segmented frequency k :
  k ∈ unpinned is_pinned keys -> exists g, group_total keys segmented frequency k = Some g.
Proof.
  intros Hk. destruct (group_total keys segmented frequency k) as [g|] eqn:E; [by exists g|].
  apply group_of_none in E. exfalso.
  assert (Hm : (k, score segmented frequency k) ∈ members (group k)
    (runs_of metadata_of ssd_estimate segmented frequency (unpinned is_pinned keys)))
    by (by apply member_runs).
  rewrite E in Hm. by apply not_elem_of_nil in Hm.
Qed.

Lemma select_none keys segmented candidates frequency :
  picked_victim (select keys segmented candidates frequency) = None <->
  forall k, k ∈ keys -> is_pinned k = true.
Proof using Hmeta.
  destruct (select_spec is_pinned _ ssd_estimate Hmeta keys segmented candidates frequency)
    as (gs & Hp & ->). simpl. rewrite fmap_None, best_of_none. split.
  - intros ->%fmap_nil_inv k Hk. destruct (is_pinned k) eqn:E; [done|]. exfalso.
    assert (Hid : group k ∈ ([] : list (gid * SlotEvictionGroup)).*1).
    { rewrite (partition_fst _ _ _ Hp). apply list_elem_of_fmap.
      exists (candidate_group metadata_of k, k, score segmented frequency k). split; [done|].
      apply list_elem_of_fmap. exists k. split; [done|]. by apply elem_unpinned. }
    by apply not_elem_of_nil in Hid.
  - intros Hall. destruct gs as [|[id g] gs]; [done|]. exfalso.
    assert (Hid : id ∈ ((id, g) :: gs).*1) by apply list_elem_of_here.
    rewrite (partition_fst _ _ _ Hp) in Hid.
    apply list_elem_of_fmap in Hid as (r & _ & (k & _ & Hk)%list_elem_of_fmap).
    apply elem_unpinned in Hk as [Hk Hu]. by rewrite Hall in Hu.
Qed.

Lemma select_least keys segmented candidates frequency v reason skips :
  picked_victim (select keys segmented candidates frequency) = Some (v, reason, skips) ->
  v ∈ keys /\ is_pinned v = false /\
  reason = eviction_reason_for (score segmented frequency v) /\ skips = pinned_count is_pinned keys /\
  exists g, group_total keys segmented frequency v = Some g /\ victim g = v /\
    (forall k, k ∈ keys -> is_pinned k = false -> group k = group v ->
       cmp_le pair_cmp (score segmented frequency v, v) (score segmented frequency k, k)) /\
    (forall k g', k ∈ keys -> is_pinned k = false -> group_total keys segmented frequency k = Some g' ->
       cmp_le victim_cmp g g').
Proof using Hmeta.
  destruct (select_spec is_pinned _ ssd_estimate Hmeta keys segmented candidates frequency)
    as (gs & Hp & ->). simpl. intros (g & Hb & Hr)%fmap_Some. unfold report in Hr. simplify_eq.
  destruct (best_of_spec _ _ _ Hb) as [[Hg|?] Hle]; [|done].
  apply list_elem_of_fmap in Hg as ([id g'] & -> & Hin). simpl in *.
  pose proof (proj1 (pt_groups _ _ Hp id g') Hin) as Hgo.
  destruct (group_of_facts _ _ Hgo) as [Hv Hl _ _].
  apply member_runs in Hv as ([Hk Hu]%elem_unpinned & Hid & Hsc). simpl in *.
  rewrite Hsc in *. split_and!; [done..|]. exists g'. split_and!.
  - unfold group_total. by rewrite Hid.
  - done.
  - intros k Hk' Hu' Hg'. apply (Hl (k, score segmented frequency k)). apply member_runs. simpl.
    split_and!; [by apply elem_unpinned|congruence|done].
  - intros k gk Hk' Hu' Hgk. apply Hle. left. apply list_elem_of_fmap.
    exists (group k, gk). split; [done|]. by apply (pt_groups _ _ Hp).
Qed.

Lemma segment_le a b : cmp_le score_cmp a b -> sc_segment a <= sc_segment b.
Proof.
  unfold cmp_le, score_cmp, cmp_then. destruct (Z.compare_spec (sc_segment a) (sc_segment b)); [lia|lia|done].
Qed.

Lemma victim_le_group a b : cmp_le victim_cmp a b -> cmp_le score_cmp (group_score a) (group_score b).
Proof. unfold cmp_le, victim_cmp, cmp_then. by destruct (score_cmp (group_score a) (group_score b)). Qed.
Lemma pair_le_score a b : cmp_le pair_cmp a b -> cmp_le score_cmp a.1 b.1.
Proof. unfold cmp_le, pair_cmp, lex_cmp, cmp_then. by destruct (score_cmp a.1 b.1). Qed.

(** The victim is in the lowest segment any candidate is in. *)
Lemma select_segment keys segmented candidates frequency v reason skips k :
  picked_victim (select keys segmented candidates frequency) = Some (v, reason, skips) ->
  k ∈ keys -> is_pinned k = false ->
  sc_segment (score segmented frequency v) <= sc_segment (score segmented frequency k).
Proof using Hmeta.
  intros Hs Hk Hu. destruct (select_least _ _ _ _ _ _ _ Hs) as (Hv & Hvu & _ & _ & g & Hg & _ & Hmin & Hgrp).
  assert (Hk' : k ∈ unpinned is_pinned keys) by (by apply elem_unpinned).
  destruct (group_total_some keys segmented frequency k Hk') as [gk Hgk].
  pose proof (Hgrp k gk Hk Hu Hgk) as Hle%victim_le_group%segment_le.
  destruct (group_of_facts _ _ Hgk) as [_ _ Hseg _].
  assert (Hsk : sc_segment (group_score gk) <= sc_segment (score segmented frequency k)).
  { apply (Hseg (k, score segmented frequency k)). by apply member_runs. }
  destruct (group_of_facts _ _ Hg) as [_ _ _ (m & Hm & Heq)].
  apply member_runs in Hm as ([Hmk Hmu]%elem_unpinned & Hmid & Hms).
  pose proof (Hmin m.1 Hmk Hmu Hmid) as Hvm%pair_le_score%segment_le. simpl in Hvm.
  rewrite Hms in Heq. lia.
Qed.

(** ** First in, first out *)

Lemma fifo_spec keys :
  match select_fifo_eviction_victim is_pinned keys with
  | Some (v, reason, _) => exists l1 l2, keys = l1 ++ v :: l2 /\ is_pinned v = false /\ reason = Stale /\
                             forall k, k ∈ l1 -> is_pinned k = true
  | None => forall k, k ∈ keys -> is_pinned k = true
  end.
Proof.
  unfold select_fifo_eviction_victim. generalize 0 as skips.
  induction keys as [|k keys IH]; intros skips; [by intros k ?%not_elem_of_nil|].
  destruct (is_pinned k) eqn:E.
  - specialize (IH (skips +! 1)). match type of IH with match ?x with _ => _ end => destruct x as [[[v r] s]|] end.
    + destruct IH as (l1 & l2 & -> & H1 & H2 & H3). exists (k :: l1), l2. split_and!; [done..|].
      intros x [->|Hx]%elem_of_cons; auto.
    + intros x [->|Hx]%elem_of_cons; auto.
  - exists [], keys. split_and!; [done..|]. by intros x ?%not_elem_of_nil.
Qed.
End chosen.
