(* ===== verification/VictimSpec.v ===== *)
(** * The promises of victim selection

    The claims about [select_eviction_victim] and
    [select_windowed_eviction_victim], and the summary of them the tiers use. *)

From S2P Require Import Prelude Types Ordering EntryMeta Victim VictimFacts.

Section windowed.
Context (is_pinned : CacheKey -> bool) (metadata_of : CacheKey -> option CacheEntryMeta).
Context (ssd_estimate : CacheKey -> Z).
Context (Hmeta : forall k m, metadata_of k = Some m -> 0 <= hits m).
Context (ttl_in_use : bool) (entry_expired : CacheKey -> bool) (share : Z).

Abbreviation windowed :=
  (select_windowed_eviction_victim is_pinned metadata_of ssd_estimate ttl_in_use entry_expired share).

(** Entries the scan moves back: read twice, not pinned. *)
Definition promotable (k : CacheKey) : Prop :=
  is_pinned k = false /\ exists m, metadata_of k = Some m /\ SLRU_PROTECTED_HITS <= hits m.

Lemma cold_scan_spec keys promoted first :
  Forall (fun k => promotable k) promoted ->
  (forall v, first = Some v -> is_pinned v = false) ->
  match cold_scan is_pinned metadata_of keys promoted first with
  | Some p => exists v reason, picked_victim p = Some (v, reason, 0) /\ is_pinned v = false /\
      (v ∈ keys \/ first = Some v) /\ Forall (fun k => promotable k) (promote p) /\
      (forall x, x ∈ promote p -> x ∈ keys \/ x ∈ promoted) /\ reason = Stale
  | None => first = None /\ forall k, k ∈ keys -> is_pinned k = true
  end.
Proof.
  revert promoted first. induction keys as [|k keys IH]; intros promoted first Hp Hf; cbn [cold_scan].
  - destruct first as [v|].
    + exists v, Stale. cbn [picked_victim promote]. split_and!; [done|by apply Hf|by right| | |done].
      * rewrite Forall_forall in Hp |- *. intros x [_ Hx]%list_elem_of_filter. by apply Hp.
      * intros x [_ Hx]%list_elem_of_filter. by right.
    + split; [done|]. by intros k ?%not_elem_of_nil.
  - destruct (is_pinned k) eqn:Ek.
    + specialize (IH promoted first Hp Hf). case_match.
      * destruct IH as (v & r & H1 & H2 & H3 & H4 & H5 & H6). exists v, r. split_and!; try done.
        { destruct H3; [left; by apply list_elem_of_further|by right]. }
        { intros x Hx. destruct (H5 x Hx); [left; by apply list_elem_of_further|by right]. }
      * destruct IH as [-> IH]. split; [done|]. intros x [->|Hx]%elem_of_cons; auto.
    + destruct (match metadata_of k with Some m => SLRU_PROTECTED_HITS <=? hits m | None => false end) eqn:Et.
      * assert (Hk : promotable k).
        { split; [done|]. destruct (metadata_of k) as [m|]; [|done]. zbool. eauto. }
        specialize (IH (promoted ++ [k]) (match first with None => Some k | some => some end)).
        destruct (cold_scan _ _ keys _ _) as [p|].
        { destruct IH as (v & r & H1 & H2 & H3 & H4 & H5 & H6).
          - by apply Forall_app; split; [|constructor].
          - intros v. destruct first; [by apply Hf|by intros [= <-]].
          - exists v, r. split_and!; try done.
            + destruct H3 as [H3|H3]; [left; by apply list_elem_of_further|].
              destruct first; [by right|]. simplify_eq. left. apply list_elem_of_here.
            + intros x Hx. destruct (H5 x Hx) as [Hy|[Hy| ->%list_elem_of_singleton]%elem_of_app];
                [left; by apply list_elem_of_further|by right|left; apply list_elem_of_here]. }
        { exfalso. destruct IH as [IH _]; [by apply Forall_app; split; [|constructor]| |by destruct first].
          intros v. destruct first; [by apply Hf|by intros [= <-]]. }
      * exists k, Stale. cbn [picked_victim promote]. split_and!; try done.
        { left. apply list_elem_of_here. } { intros x Hx. by right. }
Qed.

Lemma head_filter_elem (P : CacheKey -> Prop) `{!forall k, Decision (P k)} (l : list CacheKey) k :
  head (filter P l) = Some k -> k ∈ l /\ P k.
Proof.
  intros Hh. assert (Hk : k ∈ filter P l) by (destruct (filter P l); simplify_eq/=; apply list_elem_of_here).
  apply list_elem_of_filter in Hk as [? ?]. done.
Qed.

Lemma take_elem n (l : list CacheKey) k : k ∈ take n l -> k ∈ l.
Proof. intros (i & Hi & _)%elem_of_take. by eapply list_elem_of_lookup_2. Qed.

(** What the tiers rely on: a victim is unpinned and listed, and there is none
    only when everything is pinned. *)
Lemma windowed_spec order segmented candidates frequency :
  match picked_victim (windowed order segmented candidates frequency) with
  | Some (v, reason, _) => v ∈ order /\ is_pinned v = false
  | None => forall k, k ∈ order -> is_pinned k = true
  end.
Proof using Hmeta.
  unfold select_windowed_eviction_victim.
  destruct (if ttl_in_use then _ else None) as [k|] eqn:Ex.
  { destruct ttl_in_use; [|done]. apply head_filter_elem in Ex as [Hk [_ Hu]]. simpl.
    split; [by eapply take_elem|done]. }
  destruct (if negb frequency && (share <? 100) then _ else None) as [p|] eqn:Ec.
  { case_if; [|done].
    pose proof (cold_scan_spec (take candidates order) [] None) as Hs. rewrite Ec in Hs.
    destruct Hs as (v & r & -> & H2 & [H3|?] & _); [done|done| |done]. split; [by eapply take_elem|done]. }
  case_if.
  - pose proof (select_none is_pinned _ ssd_estimate Hmeta (take candidates order) segmented candidates frequency).
    destruct (picked_victim _) as [[[v r] s]|] eqn:Ep.
    + destruct (select_least is_pinned _ ssd_estimate Hmeta _ _ _ _ _ _ _ Ep) as (Hv & Hu & _).
      split; [by eapply take_elem|done].
    + rewrite bool_decide_eq_false_2 in Heqb by (by intros [? ?]). simpl in Heqb.
      apply Nat.leb_le in Heqb. rewrite take_ge in H by done. by apply H.
  - simpl. destruct (picked_victim (select_eviction_victim _ _ _ order _ _ _)) as [[[v r] s]|] eqn:Ep.
    + destruct (select_least is_pinned _ ssd_estimate Hmeta _ _ _ _ _ _ _ Ep) as (Hv & Hu & _). done.
    + exact (proj1 (select_none is_pinned _ ssd_estimate Hmeta _ _ _ _) Ep).
Qed.

Lemma windowed_promote order segmented candidates frequency k :
  k ∈ promote (windowed order segmented candidates frequency) -> promotable k /\ k ∈ order.
Proof using Hmeta.
  unfold select_windowed_eviction_victim.
  destruct (if ttl_in_use then _ else None) as [x|]; [by intros ?%not_elem_of_nil|].
  destruct (if negb frequency && (share <? 100) then _ else None) as [p|] eqn:Ec.
  - case_if; [|done].
    pose proof (cold_scan_spec (take candidates order) [] None) as Hs. rewrite Ec in Hs.
    destruct Hs as (v & r & _ & _ & _ & H4 & H5 & _); [done|done|]. intros Hk.
    rewrite Forall_forall in H4. split; [by apply H4|].
    destruct (H5 k Hk) as [?|?%not_elem_of_nil]; [by eapply take_elem|done].
  - case_if; [|by intros ?%not_elem_of_nil].
    destruct (select_spec is_pinned _ ssd_estimate Hmeta (take candidates order) segmented candidates frequency)
      as (gs & _ & ->). by intros ?%not_elem_of_nil.
Qed.
End windowed.

(** ** Claims *)

(** C13. The bounded path that sorts candidates and the wide path that hashes
    them choose the same victim for the same reason and weigh the same number
    of groups, whatever the candidates and however the window is set. *)
Theorem selection_paths_agree
    (is_pinned : CacheKey -> bool) (metadata_of : CacheKey -> option CacheEntryMeta)
    (ssd_estimate : CacheKey -> Z) (keys : list CacheKey) (segmented frequency : bool) (c1 c2 : nat) :
  (forall k m, metadata_of k = Some m -> 0 <= hits m) ->
  select_eviction_victim is_pinned metadata_of ssd_estimate keys segmented c1 frequency =
  select_eviction_victim is_pinned metadata_of ssd_estimate keys segmented c2 frequency.
Proof. intros Hm. by apply select_same. Qed.

(** The victim is unpinned and among the candidates, no unpinned candidate
    of its group scores below it, its group scores lowest of all groups, the
    reason is the one its own score gives, and there is no victim only when
    every candidate is pinned. *)
Theorem victim_is_least
    (is_pinned : CacheKey -> bool) (metadata_of : CacheKey -> option CacheEntryMeta)
    (ssd_estimate : CacheKey -> Z) (keys : list CacheKey) (segmented frequency : bool) (candidates : nat) :
  let score := candidate_score metadata_of ssd_estimate segmented frequency in
  let group k := group_total is_pinned metadata_of ssd_estimate keys segmented frequency k in
  (forall k m, metadata_of k = Some m -> 0 <= hits m) ->
  match picked_victim
          (select_eviction_victim is_pinned metadata_of ssd_estimate keys segmented candidates frequency) with
  | None => forall k, k ∈ keys -> is_pinned k = true
  | Some (v, reason, skips) =>
      v ∈ keys /\ is_pinned v = false /\ reason = eviction_reason_for (score v) /\
      skips = pinned_count is_pinned keys /\
      forall k, k ∈ keys -> is_pinned k = false ->
        (group_eqb (candidate_group metadata_of k) (candidate_group metadata_of v) = true ->
         score_cmp (score v) (score k) <> Gt) /\
        (forall gv gk, group v = Some gv -> group k = Some gk ->
         score_cmp (group_score gv) (group_score gk) <> Gt)
  end.
Proof.
  intros score group Hm.
  destruct (picked_victim _) as [[[v reason] skips]|] eqn:E.
  - destruct (select_least is_pinned _ ssd_estimate Hm _ _ _ _ _ _ _ E)
      as (H1 & H2 & H3 & H4 & g & Hg & Hv & Hin & Hgrp).
    split_and!; [done..|]. intros k Hk Hu. split.
    + rewrite group_eqb_id. intros He%bool_decide_eq_true. by apply (pair_le_score _ _ (Hin k Hk Hu He)).
    + intros gv gk Hgv Hgk. assert (gv = g) as -> by (unfold group in Hgv; congruence).
      by apply victim_le_group, (Hgrp k).
  - exact (proj1 (select_none is_pinned _ ssd_estimate Hm _ _ _ _) E).
Qed.

(** Under the segmented policy an entry read at least twice is given up
    only when every unpinned candidate has been read at least twice. *)
Theorem slru_protects_reused
    (is_pinned : CacheKey -> bool) (metadata_of : CacheKey -> option CacheEntryMeta)
    (ssd_estimate : CacheKey -> Z) (keys : list CacheKey) (candidates : nat)
    (v k : CacheKey) (reason : EvictionReason) (skips : Z) (mv : CacheEntryMeta) :
  (forall k m, metadata_of k = Some m -> 0 <= hits m) ->
  picked_victim (select_eviction_victim is_pinned metadata_of ssd_estimate keys true candidates false)
    = Some (v, reason, skips) ->
  metadata_of v = Some mv -> SLRU_PROTECTED_HITS <= hits mv ->
  k ∈ keys -> is_pinned k = false ->
  exists mk, metadata_of k = Some mk /\ SLRU_PROTECTED_HITS <= hits mk.
Proof.
  intros Hm Hs Hv Hh Hk Hu.
  pose proof (select_segment is_pinned _ ssd_estimate Hm _ _ _ _ _ _ _ k Hs Hk Hu) as Hseg.
  unfold candidate_score, eviction_score_of in Hseg. rewrite Hv in Hseg. simpl in Hseg.
  rewrite (proj2 (Z.leb_le _ _) Hh) in Hseg.
  destruct (metadata_of k) as [mk|]; simpl in Hseg; [|lia].
  exists mk. split; [done|]. destruct (Z.leb_spec SLRU_PROTECTED_HITS (hits mk)); [done|lia].
Qed.

(** Eviction never stalls and never takes a pinned entry: the windowed
    selection finds a victim in the order whenever some entry is unpinned,
    also behind a window full of pins, and every victim it returns is
    unpinned; what it asks to be moved back has been read twice and is not
    pinned. *)
Theorem windowed_selection_safe
    (is_pinned : CacheKey -> bool) (metadata_of : CacheKey -> option CacheEntryMeta)
    (ssd_estimate : CacheKey -> Z) (ttl_in_use : bool) (entry_expired : CacheKey -> bool) (share : Z)
    (order : list CacheKey) (segmented frequency : bool) (candidates : nat) :
  let picked := select_windowed_eviction_victim is_pinned metadata_of ssd_estimate ttl_in_use
                  entry_expired share order segmented candidates frequency in
  (forall k m, metadata_of k = Some m -> 0 <= hits m) ->
  match picked_victim picked with
  | Some (v, _, _) => v ∈ order /\ is_pinned v = false
  | None => forall k, k ∈ order -> is_pinned k = true
  end /\
  (forall k, k ∈ promote picked -> k ∈ order /\ is_pinned k = false /\
     exists m, metadata_of k = Some m /\ SLRU_PROTECTED_HITS <= hits m).
Proof.
  intros picked Hm. split; [by apply windowed_spec|]. intros k Hk.
  apply windowed_promote in Hk as [[H1 H2] H3]; done.
Qed.

(** With a time to live in use, an unpinned entry of the window that has
    expired is always taken before anything still alive. *)
Theorem expired_taken_first
    (is_pinned : CacheKey -> bool) (metadata_of : CacheKey -> option CacheEntryMeta)
    (ssd_estimate : CacheKey -> Z) (entry_expired : CacheKey -> bool) (share : Z)
    (order : list CacheKey) (segmented frequency : bool) (candidates : nat) (k : CacheKey) :
  k ∈ take candidates order -> entry_expired k = true -> is_pinned k = false ->
  exists v, picked_victim (select_windowed_eviction_victim is_pinned metadata_of ssd_estimate true
              entry_expired share order segmented candidates frequency) = Some (v, ReasonExpired, 0) /\
    entry_expired v = true /\ is_pinned v = false /\ v ∈ order.
Proof.
  intros Hk He Hu. unfold select_windowed_eviction_victim. simpl.
  assert (Hin : k ∈ filter (fun k => entry_expired k = true /\ is_pinned k = false) (take candidates order))
    by (by apply list_elem_of_filter).
  destruct (filter _ _) as [|v rest] eqn:Ef; [by apply not_elem_of_nil in Hin|].
  exists v. simpl. assert (Hv : head (filter (fun k => entry_expired k = true /\ is_pinned k = false)
    (take candidates order)) = Some v) by (by rewrite Ef).
  apply head_filter_elem in Hv as [H1 [H2 H3]]. split_and!; try done. by eapply take_elem.
Qed.

(** ** Examples *)

Definition demo_pinned (k : CacheKey) : bool := shard_id k =? 3.
Definition demo_meta (k : CacheKey) : option CacheEntryMeta :=
  Some (mkMeta (shard_id k) 1 (if shard_id k =? 1 then 0 else 2) 0 Object HotObject false).
Definition demo_keys : list CacheKey := (fun i => mkKey i "r" "string" "value") <$> [3; 2; 1].

Lemma demo_meta_hits k m : demo_meta k = Some m -> 0 <= hits m.
Proof. intros [= <-]. simpl. case_if; lia. Qed.

Lemma selection_paths_agree_witness :
  select_eviction_victim demo_pinned demo_meta (fun _ => 0) demo_keys true 8 false =
  select_eviction_victim demo_pinned demo_meta (fun _ => 0) demo_keys true 1000 false.
Proof. apply selection_paths_agree. exact demo_meta_hits. Defined.

Definition demo_victim : CacheKey := mkKey 1 "r" "string" "value".

Lemma demo_picked :
  picked_victim (select_eviction_victim demo_pinned demo_meta (fun _ => 0) demo_keys true 8 false)
  = Some (demo_victim, LowHit, 1).
Proof. vm_compute. reflexivity. Qed.

Lemma victim_is_least_witness : demo_victim ∈ demo_keys /\ demo_pinned demo_victim = false.
Proof.
  pose proof (victim_is_least demo_pinned demo_meta (fun _ => 0) demo_keys true false 8 demo_meta_hits) as H.
  cbv zeta in H. rewrite demo_picked in H. destruct H as (H1 & H2 & _). split; [exact H1|exact H2].
Defined.

(** Everything read twice: a reused entry may go. *)
Definition demo_meta2 (k : CacheKey) : option CacheEntryMeta :=
  Some (mkMeta (shard_id k) 1 2 0 Object HotObject false).

Lemma slru_protects_reused_witness :
  exists mk, demo_meta2 (mkKey 2 "r" "string" "value") = Some mk /\ SLRU_PROTECTED_HITS <= hits mk.
Proof.
  apply (slru_protects_reused demo_pinned demo_meta2 (fun _ => 0) demo_keys 8 demo_victim
           (mkKey 2 "r" "string" "value") Stale 1 (mkMeta 1 1 2 0 Object HotObject false)).
  - intros k m [= <-]. simpl. lia.
  - vm_compute. reflexivity.
  - reflexivity.
  - vm_compute. discriminate.
  - apply list_elem_of_further, list_elem_of_here.
  - reflexivity.
Defined.

Lemma demo_windowed :
  picked_victim (select_windowed_eviction_victim demo_pinned demo_meta (fun _ => 0) false
    (fun _ => false) 100 demo_keys false 1 false) = Some (demo_victim, LowHit, 1).
Proof. vm_compute. reflexivity. Qed.

Lemma windowed_selection_safe_witness : demo_victim ∈ demo_keys /\ demo_pinned demo_victim = false.
Proof.
  pose proof (windowed_selection_safe demo_pinned demo_meta (fun _ => 0) false (fun _ => false) 100
    demo_keys false false 1 demo_meta_hits) as H.
  cbv zeta in H. rewrite demo_windowed in H. exact (proj1 H).
Defined.

Lemma expired_taken_first_witness :
  exists v, picked_victim (select_windowed_eviction_victim demo_pinned demo_meta (fun _ => 0) true
              (fun k => shard_id k =? 2) 100 demo_keys false 2 false) = Some (v, ReasonExpired, 0) /\
    (shard_id v =? 2) = true /\ demo_pinned v = false /\ v ∈ demo_keys.
Proof.
  apply (expired_taken_first demo_pinned demo_meta (fun _ => 0) (fun k => shard_id k =? 2) 100
           demo_keys false false 2 (mkKey 2 "r" "string" "value")); [|reflexivity..].
  apply list_elem_of_further, list_elem_of_here.
Defined.
