(* ===== verification/EngineState.v ===== *)
(** * The cache engine: state

    [CacheInner] (multilayer_cache.rs) as a record.  What eviction, admission
    and reads decide on is the [Cache]; counters, sketches, budgets, probe
    epochs and queues are its [Aux] part.  The clock, the outcome of each
    device operation and the key hash are the environment; a tick counter in
    the state says which answer of the environment comes next. *)

From S2P Require Import Prelude Types Ordering EntryMeta Victim BlockCodec WriteBudget FrequencySketch.
From S2P Require Import KeyOrder KeyOrderSpec.

(** ** The environment *)

Class Env := {
  (** [DefaultHasher] over a key. *)
  key_hash : CacheKey -> Z;
  (** Whether the n-th device operation succeeds. *)
  io_ok : nat -> bool;
  (** [CoarseClock::now_millis] and [Instant::now] in nanoseconds, at the n-th
      question. *)
  coarse_now : nat -> Z;
  instant_now : nat -> Z;
  (** [lru_refresh_effective_millis] as the n-th question finds it. *)
  refresh_window : nat -> Z;
  (** Whether equal bytes compared at the n-th question share an allocation. *)
  same_allocation : nat -> bool
}.

(** ** Configuration *)

Inductive CacheReplacementPolicy := Fifo | Slru | WeightedHotnessLru.
#[global] Instance CacheReplacementPolicy_eq_dec : EqDecision CacheReplacementPolicy.
Proof. solve_decision. Defined.

(** The settings an operation reads. *)
Record Config := mkConfig {
  memory_capacity_bytes : Z;
  pmem_capacity_bytes : Z;
  ssd_capacity_bytes : Z;
  tiering_policy : CacheTieringPolicy;
  block_options : CacheBlockOptions;
  eviction_handler_enabled : bool;
  eviction_callback : bool;
  eviction_metric_callback : bool;
  ssd_instance_only : bool;
  started : bool;
  memory_replacement_policy : CacheReplacementPolicy;
  pmem_replacement_policy : CacheReplacementPolicy;
  ssd_replacement_policy : CacheReplacementPolicy;
  cold_eviction_share_pct : Z;
  admission_filter_enabled : bool;
  default_ttl_millis : Z;
  ttl_in_use : bool;
  has_pmem_tier : bool;
  ssd_store_enabled : bool
}.

(** ** Entries *)

(** [MemoryResident] and [PmemResident]: the value and, when this tier is the
    metadata's home, the metadata. *)
Record Resident := mkResident { value : bytes; meta : option CacheEntryMeta }.

Record PinnedEntry := mkPin {
  handles : Z;
  handle_bytes : Z;
  removed_bytes : option Z
}.

Record CacheEvictionRecord := mkEvictionRecord {
  er_tier : CacheTier;
  er_key : CacheKey;
  er_value : bytes;
  er_cause : CacheRemovalCause
}.

(** ** Bookkeeping *)

(** [CacheStats] and the read counters are one map from field names. *)
Record Aux := mkAux {
  stats : gmap string Z;
  access_frequency : FrequencySketch;
  ssd_access_frequency : option FrequencySketch;
  sketch_sized : bool;
  ssd_write_budget : SsdWriteBudget;
  ssd_probe_epoch : Z;
  ssd_probe_global_epoch : Z;
  ssd_probe_mutations : list Z;
  pending_eviction_records : list CacheEvictionRecord;
  pending_eviction_metric_tiers : list CacheTier;
  pinned_removals_seen : bool;
  tick : nat
}.

Definition set_stats (x : gmap string Z) (s : Aux) : Aux :=
  mkAux x (access_frequency s) (ssd_access_frequency s) (sketch_sized s) (ssd_write_budget s) (ssd_probe_epoch s) (ssd_probe_global_epoch s) (ssd_probe_mutations s) (pending_eviction_records s) (pending_eviction_metric_tiers s) (pinned_removals_seen s) (tick s).
Definition set_access_frequency (x : FrequencySketch) (s : Aux) : Aux :=
  mkAux (stats s) x (ssd_access_frequency s) (sketch_sized s) (ssd_write_budget s) (ssd_probe_epoch s) (ssd_probe_global_epoch s) (ssd_probe_mutations s) (pending_eviction_records s) (pending_eviction_metric_tiers s) (pinned_removals_seen s) (tick s).
Definition set_ssd_access_frequency (x : option FrequencySketch) (s : Aux) : Aux :=
  mkAux (stats s) (access_frequency s) x (sketch_sized s) (ssd_write_budget s) (ssd_probe_epoch s) (ssd_probe_global_epoch s) (ssd_probe_mutations s) (pending_eviction_records s) (pending_eviction_metric_tiers s) (pinned_removals_seen s) (tick s).
Definition set_sketch_sized (x : bool) (s : Aux) : Aux :=
  mkAux (stats s) (access_frequency s) (ssd_access_frequency s) x (ssd_write_budget s) (ssd_probe_epoch s) (ssd_probe_global_epoch s) (ssd_probe_mutations s) (pending_eviction_records s) (pending_eviction_metric_tiers s) (pinned_removals_seen s) (tick s).
Definition set_ssd_write_budget (x : SsdWriteBudget) (s : Aux) : Aux :=
  mkAux (stats s) (access_frequency s) (ssd_access_frequency s) (sketch_sized s) x (ssd_probe_epoch s) (ssd_probe_global_epoch s) (ssd_probe_mutations s) (pending_eviction_records s) (pending_eviction_metric_tiers s) (pinned_removals_seen s) (tick s).
Definition set_ssd_probe_epoch (x : Z) (s : Aux) : Aux :=
  mkAux (stats s) (access_frequency s) (ssd_access_frequency s) (sketch_sized s) (ssd_write_budget s) x (ssd_probe_global_epoch s) (ssd_probe_mutations s) (pending_eviction_records s) (pending_eviction_metric_tiers s) (pinned_removals_seen s) (tick s).
Definition set_ssd_probe_global_epoch (x : Z) (s : Aux) : Aux :=
  mkAux (stats s) (access_frequency s) (ssd_access_frequency s) (sketch_sized s) (ssd_write_budget s) (ssd_probe_epoch s) x (ssd_probe_mutations s) (pending_eviction_records s) (pending_eviction_metric_tiers s) (pinned_removals_seen s) (tick s).
Definition set_ssd_probe_mutations (x : list Z) (s : Aux) : Aux :=
  mkAux (stats s) (access_frequency s) (ssd_access_frequency s) (sketch_sized s) (ssd_write_budget s) (ssd_probe_epoch s) (ssd_probe_global_epoch s) x (pending_eviction_records s) (pending_eviction_metric_tiers s) (pinned_removals_seen s) (tick s).
Definition set_pending_eviction_records (x : list CacheEvictionRecord) (s : Aux) : Aux :=
  mkAux (stats s) (access_frequency s) (ssd_access_frequency s) (sketch_sized s) (ssd_write_budget s) (ssd_probe_epoch s) (ssd_probe_global_epoch s) (ssd_probe_mutations s) x (pending_eviction_metric_tiers s) (pinned_removals_seen s) (tick s).
Definition set_pending_eviction_metric_tiers (x : list CacheTier) (s : Aux) : Aux :=
  mkAux (stats s) (access_frequency s) (ssd_access_frequency s) (sketch_sized s) (ssd_write_budget s) (ssd_probe_epoch s) (ssd_probe_global_epoch s) (ssd_probe_mutations s) (pending_eviction_records s) x (pinned_removals_seen s) (tick s).
Definition set_pinned_removals_seen (x : bool) (s : Aux) : Aux :=
  mkAux (stats s) (access_frequency s) (ssd_access_frequency s) (sketch_sized s) (ssd_write_budget s) (ssd_probe_epoch s) (ssd_probe_global_epoch s) (ssd_probe_mutations s) (pending_eviction_records s) (pending_eviction_metric_tiers s) x (tick s).
Definition set_tick (x : nat) (s : Aux) : Aux :=
  mkAux (stats s) (access_frequency s) (ssd_access_frequency s) (sketch_sized s) (ssd_write_budget s) (ssd_probe_epoch s) (ssd_probe_global_epoch s) (ssd_probe_mutations s) (pending_eviction_records s) (pending_eviction_metric_tiers s) (pinned_removals_seen s) x.

(** ** The cache *)

Section state.
Context {O : Type}.

Record Cache := mkCache {
  cfg : Config;
  memory : gmap CacheKey Resident;
  pmem : gmap CacheKey Resident;
  metadata_map : gmap CacheKey CacheEntryMeta;
  expiries : gmap CacheKey Z;
  disk_index : gmap CacheKey Z;
  ssd_store : gmap CacheKey bytes;
  memory_order : O;
  pmem_order : O;
  disk_order : O;
  memory_bytes : Z;
  pmem_bytes : Z;
  ssd_bytes : Z;
  pins : gmap CacheKey PinnedEntry;
  pin_handles : Z;
  aux : Aux
}.

Definition set_cfg (x : Config) (s : Cache) : Cache :=
  mkCache x (memory s) (pmem s) (metadata_map s) (expiries s) (disk_index s) (ssd_store s) (memory_order s) (pmem_order s) (disk_order s) (memory_bytes s) (pmem_bytes s) (ssd_bytes s) (pins s) (pin_handles s) (aux s).
Definition set_memory (x : gmap CacheKey Resident) (s : Cache) : Cache :=
  mkCache (cfg s) x (pmem s) (metadata_map s) (expiries s) (disk_index s) (ssd_store s) (memory_order s) (pmem_order s) (disk_order s) (memory_bytes s) (pmem_bytes s) (ssd_bytes s) (pins s) (pin_handles s) (aux s).
Definition set_pmem (x : gmap CacheKey Resident) (s : Cache) : Cache :=
  mkCache (cfg s) (memory s) x (metadata_map s) (expiries s) (disk_index s) (ssd_store s) (memory_order s) (pmem_order s) (disk_order s) (memory_bytes s) (pmem_bytes s) (ssd_bytes s) (pins s) (pin_handles s) (aux s).
Definition set_metadata_map (x : gmap CacheKey CacheEntryMeta) (s : Cache) : Cache :=
  mkCache (cfg s) (memory s) (pmem s) x (expiries s) (disk_index s) (ssd_store s) (memory_order s) (pmem_order s) (disk_order s) (memory_bytes s) (pmem_bytes s) (ssd_bytes s) (pins s) (pin_handles s) (aux s).
Definition set_expiries (x : gmap CacheKey Z) (s : Cache) : Cache :=
  mkCache (cfg s) (memory s) (pmem s) (metadata_map s) x (disk_index s) (ssd_store s) (memory_order s) (pmem_order s) (disk_order s) (memory_bytes s) (pmem_bytes s) (ssd_bytes s) (pins s) (pin_handles s) (aux s).
Definition set_disk_index (x : gmap CacheKey Z) (s : Cache) : Cache :=
  mkCache (cfg s) (memory s) (pmem s) (metadata_map s) (expiries s) x (ssd_store s) (memory_order s) (pmem_order s) (disk_order s) (memory_bytes s) (pmem_bytes s) (ssd_bytes s) (pins s) (pin_handles s) (aux s).
Definition set_ssd_store (x : gmap CacheKey bytes) (s : Cache) : Cache :=
  mkCache (cfg s) (memory s) (pmem s) (metadata_map s) (expiries s) (disk_index s) x (memory_order s) (pmem_order s) (disk_order s) (memory_bytes s) (pmem_bytes s) (ssd_bytes s) (pins s) (pin_handles s) (aux s).
Definition set_memory_order (x : O) (s : Cache) : Cache :=
  mkCache (cfg s) (memory s) (pmem s) (metadata_map s) (expiries s) (disk_index s) (ssd_store s) x (pmem_order s) (disk_order s) (memory_bytes s) (pmem_bytes s) (ssd_bytes s) (pins s) (pin_handles s) (aux s).
Definition set_pmem_order (x : O) (s : Cache) : Cache :=
  mkCache (cfg s) (memory s) (pmem s) (metadata_map s) (expiries s) (disk_index s) (ssd_store s) (memory_order s) x (disk_order s) (memory_bytes s) (pmem_bytes s) (ssd_bytes s) (pins s) (pin_handles s) (aux s).
Definition set_disk_order (x : O) (s : Cache) : Cache :=
  mkCache (cfg s) (memory s) (pmem s) (metadata_map s) (expiries s) (disk_index s) (ssd_store s) (memory_order s) (pmem_order s) x (memory_bytes s) (pmem_bytes s) (ssd_bytes s) (pins s) (pin_handles s) (aux s).
Definition set_memory_bytes (x : Z) (s : Cache) : Cache :=
  mkCache (cfg s) (memory s) (pmem s) (metadata_map s) (expiries s) (disk_index s) (ssd_store s) (memory_order s) (pmem_order s) (disk_order s) x (pmem_bytes s) (ssd_bytes s) (pins s) (pin_handles s) (aux s).
Definition set_pmem_bytes (x : Z) (s : Cache) : Cache :=
  mkCache (cfg s) (memory s) (pmem s) (metadata_map s) (expiries s) (disk_index s) (ssd_store s) (memory_order s) (pmem_order s) (disk_order s) (memory_bytes s) x (ssd_bytes s) (pins s) (pin_handles s) (aux s).
Definition set_ssd_bytes (x : Z) (s : Cache) : Cache :=
  mkCache (cfg s) (memory s) (pmem s) (metadata_map s) (expiries s) (disk_index s) (ssd_store s) (memory_order s) (pmem_order s) (disk_order s) (memory_bytes s) (pmem_bytes s) x (pins s) (pin_handles s) (aux s).
Definition set_pins (x : gmap CacheKey PinnedEntry) (s : Cache) : Cache :=
  mkCache (cfg s) (memory s) (pmem s) (metadata_map s) (expiries s) (disk_index s) (ssd_store s) (memory_order s) (pmem_order s) (disk_order s) (memory_bytes s) (pmem_bytes s) (ssd_bytes s) x (pin_handles s) (aux s).
Definition set_pin_handles (x : Z) (s : Cache) : Cache :=
  mkCache (cfg s) (memory s) (pmem s) (metadata_map s) (expiries s) (disk_index s) (ssd_store s) (memory_order s) (pmem_order s) (disk_order s) (memory_bytes s) (pmem_bytes s) (ssd_bytes s) (pins s) x (aux s).
Definition set_aux (x : Aux) (s : Cache) : Cache :=
  mkCache (cfg s) (memory s) (pmem s) (metadata_map s) (expiries s) (disk_index s) (ssd_store s) (memory_order s) (pmem_order s) (disk_order s) (memory_bytes s) (pmem_bytes s) (ssd_bytes s) (pins s) (pin_handles s) x.

Definition upd_aux (f : Aux -> Aux) (s : Cache) : Cache := set_aux (f (aux s)) s.

Definition stat (name : string) (s : Cache) : Z := default 0 (stats (aux s) !! name).

(** [self.stats.name = self.stats.name.saturating_add(n)], also for [+=]. *)
Definition add_stat (name : string) (n : Z) (s : Cache) : Cache :=
  upd_aux (fun a => set_stats (<[name := default 0 (stats a !! name) +! n]> (stats a)) a) s.
Definition put_stat (name : string) (n : Z) (s : Cache) : Cache :=
  upd_aux (fun a => set_stats (<[name := n]> (stats a)) a) s.
Definition max_stat (name : string) (n : Z) (s : Cache) : Cache :=
  upd_aux (fun a => set_stats (<[name := Z.max (default 0 (stats a !! name)) n]> (stats a)) a) s.

(** ** Questions to the environment *)

Context {ENV : Env}.

Definition next_tick (s : Cache) : Cache := upd_aux (fun a => set_tick (S (tick a)) a) s.
Definition coarse (s : Cache) : Z * Cache := (coarse_now (tick (aux s)), next_tick s).
Definition instant (s : Cache) : Z * Cache := (instant_now (tick (aux s)), next_tick s).
Definition device (s : Cache) : bool * Cache := (io_ok (tick (aux s)), next_tick s).
End state.
Arguments Cache : clear implicits.
