(* ===== verification/Engine.v ===== *)
(** * The cache engine: operations

    The write path of [CacheInner] (multilayer_cache.rs, builder_and_gc.rs):
    metadata homes, tier residency, expiry, pins, the SSD block operations,
    demotion, the three eviction loops and [put_with_request_shared].  The
    build is the default one, with RocksDB as the SSD store: appending to the
    disk manifest does nothing there.  Blocks left as files by an older layout
    are taken to be absent, and of what the persistent-memory tier leaves on
    its device only whether writing it succeeded is modelled. *)

From S2P Require Import Prelude Types Ordering EntryMeta Victim BlockCodec WriteBudget FrequencySketch.
From S2P Require Import KeyOrder KeyOrderSpec EngineState.

Definition EXPIRY_SWEEP_PER_WRITE : nat := 8.
Definition SKETCH_RESEED_RECORDS_PER_ENTRY : Z := 8.

Section engine.
Context {Ord : Type} {RO : RecencyOrder Ord} {ENV : Env} {ZS : Zstd}.
Implicit Types (s : Cache Ord) (k : CacheKey) (v : bytes).

(** ** Metadata homes *)

Definition metadata_of s k : option CacheEntryMeta :=
  match memory s !! k with
  | Some resident => meta resident
  | None => match pmem s !! k with
            | Some resident => meta resident
            | None => metadata_map s !! k
            end
  end.

(** Writing through [metadata_of_mut]. *)
Definition update_metadata k (f : CacheEntryMeta -> CacheEntryMeta) s : Cache Ord :=
  match memory s !! k with
  | Some r => set_memory (<[k := mkResident (value r) (f <$> meta r)]> (memory s)) s
  | None => match pmem s !! k with
            | Some r => set_pmem (<[k := mkResident (value r) (f <$> meta r)]> (pmem s)) s
            | None => set_metadata_map (alter f k (metadata_map s)) s
            end
  end.

Definition set_metadata k (m : CacheEntryMeta) s : Cache Ord :=
  match memory s !! k with
  | Some r => set_memory (<[k := mkResident (value r) (Some m)]> (memory s)) s
  | None => match pmem s !! k with
            | Some r => set_pmem (<[k := mkResident (value r) (Some m)]> (pmem s)) s
            | None => set_metadata_map (<[k := m]> (metadata_map s)) s
            end
  end.

Definition drop_meta (r : Resident) : Resident := mkResident (value r) None.

Definition forget_metadata_of k s : Cache Ord :=
  let s := set_memory (alter drop_meta k (memory s)) s in
  let s := set_pmem (alter drop_meta k (pmem s)) s in
  set_metadata_map (delete k (metadata_map s)) s.

Definition resident_value s k : option bytes := value <$> memory s !! k.
Definition pmem_value s k : option bytes := value <$> pmem s !! k.

(** ** Probe epochs *)

Definition bump_ssd_probe_epoch s : Cache Ord :=
  upd_aux (fun a =>
    let e := ssd_probe_epoch a +! 1 in
    set_ssd_probe_global_epoch e (set_ssd_probe_epoch e a)) s.

(** The journal entry for one key. *)
Definition journal_mutation k (a : Aux) : Aux :=
  let e := ssd_probe_epoch a +! 1 in
  let index := Z.to_nat (e `mod` Z.of_nat (length (ssd_probe_mutations a))) in
  set_ssd_probe_mutations (<[index := key_hash k]> (ssd_probe_mutations a))
    (set_ssd_probe_epoch e a).

Definition note_ssd_probe_mutation k s : Cache Ord :=
  if ssd_capacity_bytes (cfg s) =? 0 then bump_ssd_probe_epoch s
  else upd_aux (journal_mutation k) s.

(** ** Residency *)

(** Enter the memory tier; the bytes replaced, if any. *)
Definition make_resident k v s : option bytes * Cache Ord :=
  let s := note_ssd_probe_mutation k s in
  match memory s !! k with
  | Some r => (Some (value r), set_memory (<[k := mkResident v (meta r)]> (memory s)) s)
  | None =>
      let pmem_meta := match pmem s !! k with Some r => meta r | None => None end in
      let s := set_pmem (alter drop_meta k (pmem s)) s in
      match pmem_meta with
      | Some m => (None, set_memory (<[k := mkResident v (Some m)]> (memory s)) s)
      | None =>
          let m := metadata_map s !! k in
          let s := set_metadata_map (delete k (metadata_map s)) s in
          (None, set_memory (<[k := mkResident v m]> (memory s)) s)
      end
  end.

(** Leave the memory tier; the metadata stays behind. *)
Definition take_resident k s : option bytes * Cache Ord :=
  let s := note_ssd_probe_mutation k s in
  match memory s !! k with
  | None => (None, s)
  | Some r =>
      let s := set_memory (delete k (memory s)) s in
      (Some (value r),
       match meta r with
       | None => s
       | Some m => match pmem s !! k with
                   | Some p => set_pmem (<[k := mkResident (value p) (Some m)]> (pmem s)) s
                   | None => set_metadata_map (<[k := m]> (metadata_map s)) s
                   end
       end)
  end.

Definition make_pmem_resident k v s : option bytes * Cache Ord :=
  match pmem s !! k with
  | Some r => (Some (value r), set_pmem (<[k := mkResident v (meta r)]> (pmem s)) s)
  | None =>
      match memory s !! k with
      | Some _ => (None, set_pmem (<[k := mkResident v None]> (pmem s)) s)
      | None =>
          let m := metadata_map s !! k in
          let s := set_metadata_map (delete k (metadata_map s)) s in
          (None, set_pmem (<[k := mkResident v m]> (pmem s)) s)
      end
  end.

Definition take_pmem_resident k s : option bytes * Cache Ord :=
  match pmem s !! k with
  | None => (None, s)
  | Some r =>
      let s := set_pmem (delete k (pmem s)) s in
      (Some (value r),
       match meta r with
       | None => s
       | Some m => match memory s !! k with
                   | Some p => set_memory (<[k := mkResident (value p) (Some m)]> (memory s)) s
                   | None => set_metadata_map (<[k := m]> (metadata_map s)) s
                   end
       end)
  end.

(** ** Expiry *)

Definition entry_expired s k (now_millis : Z) : bool :=
  ttl_in_use (cfg s) && match expiries s !! k with
                        | Some expires_at => expires_at <=? now_millis
                        | None => false
                        end.

Definition forget_expiry k s : Cache Ord :=
  if ttl_in_use (cfg s) then set_expiries (delete k (expiries s)) s else s.

Definition set_entry_expiry k (ttl_millis now_millis : Z) s : Cache Ord :=
  if ttl_millis =? 0 then forget_expiry k s
  else set_expiries (<[k := Z.max (now_millis +! ttl_millis) 1]> (expiries s)) s.

Definition resident_anywhere s k : bool :=
  bool_decide (is_Some (memory s !! k)) || bool_decide (is_Some (pmem s !! k))
  || bool_decide (is_Some (disk_index s !! k)).

Definition forget_metadata_unless_resident k s : Cache Ord :=
  if negb (resident_anywhere s k) then forget_expiry k (forget_metadata_of k s) else s.

(** ** Pins *)

Definition is_pinned s k : bool :=
  if pin_handles s =? 0 then false else bool_decide (is_Some (pins s !! k)).

(** ** Requests and metadata *)

Definition default_request s k (block_bytes : Z) : CacheAdmissionRequest :=
  let existing := metadata_of s k in
  {| rq_block_kind := match existing with Some m => meta_block_kind m | None => infer_block_kind k end;
     rq_shard_id := shard_id k;
     rq_routing_slot :=
       match (match existing with Some m => meta_routing_slot m | None => None end) with
       | Some slot => Some slot
       | None => extract_routing_slot k
       end;
     rq_block_bytes := block_bytes;
     rq_hotness := match existing with Some m => hotness m | None => 0 end;
     rq_pinned := is_pinned s k |}.

Definition record_metadata k (kind : CacheBlockKind) (slot : option Z) (block_bytes requested_hotness : Z)
    (why : CacheAdmissionReason) s : Cache Ord :=
  let '(epoch, s) := coarse s in
  match metadata_of s k with
  | Some _ =>
      let s := update_metadata k (fun m =>
        let m := set_routing_slot slot m in
        mkMeta epoch (hotness m) (hits m) (routing_slot_value m) kind why (routing_slot_present m)) s in
      set_entry_expiry k (default_ttl_millis (cfg s)) epoch s
  | None =>
      set_metadata k (new_meta kind slot (Z.max (initial_hotness kind block_bytes) requested_hotness)
                               0 epoch why) s
  end.

(** ** Notifications *)

Definition notifying s : bool := eviction_handler_enabled (cfg s) && eviction_callback (cfg s).

(** The queues the callbacks are served from. *)
Definition queue_eviction (metric handler : bool) (record : CacheEvictionRecord) (a : Aux) : Aux :=
  let a := if metric then set_pending_eviction_metric_tiers
                            (pending_eviction_metric_tiers a ++ [er_tier record]) a else a in
  if handler then set_pending_eviction_records (pending_eviction_records a ++ [record]) a else a.

Definition record_eviction_with_value (t : CacheTier) k v (cause : CacheRemovalCause) s : Cache Ord :=
  upd_aux (queue_eviction (eviction_metric_callback (cfg s)) (notifying s) (mkEvictionRecord t k v cause)) s.

Definition bucket_name (prefix : string) (micros : Z) : string :=
  String.append prefix
    (if micros <=? 10 then "_latency_le_10us"
     else if micros <=? 100 then "_latency_le_100us"
     else if micros <=? 1000 then "_latency_le_1ms"
     else if micros <=? 10000 then "_latency_le_10ms"
     else "_latency_gt_10ms").

Definition record_eviction_latency (started_at : Z) s : Cache Ord :=
  let '(now, s) := instant s in
  let micros := Z.min ((now -! started_at) / 1000) u64_max in
  let s := add_stat "eviction_latency_total_micros" micros s in
  let s := max_stat "eviction_latency_max_micros" micros s in
  let s := add_stat "eviction_latency_samples" 1 s in
  add_stat (bucket_name "eviction" micros) 1 s.

Definition record_eviction_reason (prefix : string) (why : EvictionReason) s : Cache Ord :=
  match why with
  | Cold => add_stat (String.append prefix "eviction_cold") 1 s
  | LowHit => add_stat (String.append prefix "eviction_low_hit") 1 s
  | Stale => add_stat (String.append prefix "eviction_stale") 1 s
  | ReasonExpired => add_stat "eviction_expired" 1 s
  end.

(** ** The SSD store *)

Definition read_ssd_block k s : result (option bytes) * Cache Ord :=
  if negb (ssd_store_enabled (cfg s)) then (Ok None, s)
  else let '(ok, s) := device s in
       if ok then (Ok (ssd_store s !! k), s) else (Err RocksDb, s).

Definition refresh_ssd_write_budget_stats s : Cache Ord :=
  let b := ssd_write_budget (aux s) in
  let s := put_stat "ssd_write_budget_share" (admitted_share b) s in
  let s := put_stat "ssd_write_budget_observed_bytes_per_sec" (observed_bytes_per_sec b) s in
  put_stat "ssd_write_budget_target_bytes_per_sec" (target_bytes_per_sec b) s.

Definition charge_ssd_write (n : Z) s : Cache Ord :=
  let s := add_stat "ssd_bytes_written" n s in
  let '(now, s) := instant s in
  let s := upd_aux (fun a => set_ssd_write_budget (record_written n now (ssd_write_budget a)) a) s in
  refresh_ssd_write_budget_stats s.

Definition write_ssd_block k (block : bytes) s : result unit * Cache Ord :=
  let s := note_ssd_probe_mutation k s in
  let s := charge_ssd_write (blen block) s in
  if negb (ssd_store_enabled (cfg s)) then (Ok tt, s)
  else let '(ok, s) := device s in
       if ok then (Ok tt, set_ssd_store (<[k := block]> (ssd_store s)) s) else (Err RocksDb, s).

Definition delete_ssd_block k s : result unit * Cache Ord :=
  let s := note_ssd_probe_mutation k s in
  if negb (ssd_store_enabled (cfg s)) then (Ok tt, s)
  else let '(ok, s) := device s in
       if ok then (Ok tt, set_ssd_store (delete k (ssd_store s)) s) else (Err RocksDb, s).

Definition delete_ssd_blocks (keys : list CacheKey) s : result unit * Cache Ord :=
  match keys with
  | [] => (Ok tt, s)
  | _ =>
      let s := fold_left (fun s k => note_ssd_probe_mutation k s) keys s in
      if negb (ssd_store_enabled (cfg s)) then (Ok tt, s)
      else let '(ok, s) := device s in
           if ok then (Ok tt, set_ssd_store (fold_left (fun m k => delete k m) keys (ssd_store s)) s)
           else (Err RocksDb, s)
  end.

Definition ssd_write_budget_admits k s : bool * Cache Ord :=
  let '(now, s) := instant s in
  let '(admitted, b) := admits (key_hash k) now (ssd_write_budget (aux s)) in
  let s := refresh_ssd_write_budget_stats (upd_aux (set_ssd_write_budget b) s) in
  if admitted then (true, s)
  else (false, add_stat "ssd_admission_rejected" 1 (add_stat "ssd_write_budget_rejections" 1 s)).

Definition read_ssd_value_for_eviction k s : bytes * Cache Ord :=
  if negb (notifying s) then ([], s)
  else let '(r, s) := read_ssd_block k s in
       (match r with
        | Ok (Some block) => match decode_cache_block_owned block with Ok v => v | Err _ => [] end
        | _ => []
        end, s).

(** Persisting to and deleting from the persistent-memory device. *)
Definition persist_pmem_put k v s : result unit * Cache Ord :=
  if negb (has_pmem_tier (cfg s)) then (Ok tt, s)
  else let '(ok, s) := device s in (if ok then Ok tt else Err Io, s).
Definition persist_pmem_delete k s : result unit * Cache Ord :=
  if negb (has_pmem_tier (cfg s)) then (Ok tt, s)
  else let '(ok, s) := device s in (if ok then Ok tt else Err Io, s).

(** ** Choosing victims *)

Definition ssd_estimate s k : Z :=
  match ssd_access_frequency (aux s) with Some sk => estimate sk k | None => 0 end.

(** [select_windowed_eviction_victim] at a moment of the clock, which is read
    only when a time to live is in use. *)
Definition windowed_victim (order : Ord) (segmented : bool) (candidates : nat) (frequency : bool) s
    : PickedEvictionVictim * Cache Ord :=
  let '(now, s) := if ttl_in_use (cfg s) then coarse s else (0, s) in
  (select_windowed_eviction_victim (is_pinned s) (metadata_of s) (ssd_estimate s) (ttl_in_use (cfg s))
     (fun k => entry_expired s k now) (cold_eviction_share_pct (cfg s)) (ord_acc order)
     segmented candidates frequency, s).

Definition record_sampled_groups (groups : nat) s : Cache Ord :=
  add_stat "eviction_sampled_groups" (Z.of_nat groups) s.

(** How many of the coldest entries make up the evictable share. *)
Definition memory_cold_candidate_count s : nat :=
  let share := cold_eviction_share_pct (cfg s) in
  if 100 <=? share then EVICTION_CANDIDATE_WINDOW
  else
    let budget := sat_mul (memory_bytes s) share / 100 in
    (fix go keys bytes count :=
       match keys with
       | [] => Nat.max count 1
       | k :: rest =>
           if (EVICTION_CANDIDATE_WINDOW <=? count)%nat || ((budget <=? bytes) && (1 <=? count)%nat)
           then Nat.max count 1
           else go rest (bytes +! (match resident_value s k with Some v => blen v | None => 0 end)) (S count)
       end) (ord_acc (memory_order s)) 0 0%nat.

Definition apply_cold_tail_promotions (keys : list CacheKey) s : Cache Ord :=
  fold_left (fun s k => set_memory_order (ord_touch k (memory_order s)) s) keys s.

Definition select_memory_eviction_victim s : option (CacheKey * EvictionReason * Z) * Cache Ord :=
  match memory_replacement_policy (cfg s) with
  | Fifo => (select_fifo_eviction_victim (is_pinned s) (ord_ins (memory_order s)), s)
  | p =>
      let candidates := memory_cold_candidate_count s in
      let '(picked, s) := windowed_victim (memory_order s) (bool_decide (p = Slru)) candidates false s in
      let s := record_sampled_groups (groups_weighed picked) s in
      let s := apply_cold_tail_promotions (promote picked) s in
      (picked_victim picked, s)
  end.

Definition select_pmem_eviction_victim s : option (CacheKey * EvictionReason * Z) * Cache Ord :=
  match pmem_replacement_policy (cfg s) with
  | Fifo => (select_fifo_eviction_victim (is_pinned s) (ord_ins (pmem_order s)), s)
  | p =>
      let '(picked, s) := windowed_victim (pmem_order s) (bool_decide (p = Slru))
                            EVICTION_CANDIDATE_WINDOW false s in
      (picked_victim picked, record_sampled_groups (groups_weighed picked) s)
  end.

Definition select_ssd_eviction_victim s : option (CacheKey * EvictionReason * Z) * Cache Ord :=
  match ssd_replacement_policy (cfg s) with
  | Fifo => (select_fifo_eviction_victim (is_pinned s) (ord_ins (disk_order s)), s)
  | p =>
      let '(picked, s) := windowed_victim (disk_order s) (bool_decide (p = Slru))
                            EVICTION_CANDIDATE_WINDOW
                            (bool_decide (is_Some (ssd_access_frequency (aux s)))) s in
      (picked_victim picked, record_sampled_groups (groups_weighed picked) s)
  end.

(** ** SSD eviction and installation *)

(** One victim leaves the index and the order; its block is deleted after the
    loop. *)
Definition evict_ssd_victim (victim : CacheKey) (why : EvictionReason) (skips : Z) s : Cache Ord :=
  let s := add_stat "ssd_eviction_pinned_skips" skips s in
  let '(evicted_value, s) := read_ssd_value_for_eviction victim s in
  let removed := default 0 (disk_index s !! victim) in
  let s := set_disk_index (delete victim (disk_index s)) s in
  let s := set_disk_order (ord_remove victim (disk_order s)) s in
  let s := record_eviction_with_value Ssd victim evicted_value (removal_cause why) s in
  let s := set_ssd_bytes (ssd_bytes s -! removed) s in
  let s := add_stat "ssd_evictions" 1 s in
  let s := add_stat "ssd_eviction_capacity" 1 s in
  let s := add_stat "ssd_slot_evictions" 1 s in
  let s := record_eviction_reason "ssd_" why s in
  forget_metadata_unless_resident victim s.

(** Each round removes a listed key, so the length of the order is enough
    fuel. *)
Fixpoint evict_ssd_loop (fuel : nat) (incoming : Z) (victims : list CacheKey) s : list CacheKey * Cache Ord :=
  match fuel with
  | O => (victims, s)
  | S f =>
      if ssd_capacity_bytes (cfg s) <? ssd_bytes s +! incoming then
        let before := ssd_bytes s in
        let '(picked, s) := select_ssd_eviction_victim s in
        match picked with
        | None => (victims, s)
        | Some (victim, why, skips) =>
            let s := evict_ssd_victim victim why skips s in
            let victims := victims ++ [victim] in
            if ssd_bytes s =? before then (victims, s) else evict_ssd_loop f incoming victims s
        end
      else (victims, s)
  end.

Definition evict_ssd_for_batch (incoming : Z) s : Cache Ord :=
  let '(victims, s) := evict_ssd_loop (S (length (ord_ins (disk_order s)))) incoming [] s in
  match victims with
  | [] => s
  | _ => snd (delete_ssd_blocks victims s)
  end.

Definition put_ssd_bypass_if_absent k v s : bool * Cache Ord :=
  if bool_decide (is_Some (disk_index s !! k)) || (ssd_capacity_bytes (cfg s) =? 0) then (false, s)
  else
    let '(budget_ok, s) := ssd_write_budget_admits k s in
    if negb budget_ok then (false, s)
    else if (max_ssd_block_bytes (tiering_policy (cfg s)) <? blen v) || (ssd_capacity_bytes (cfg s) <? blen v)
    then (false, add_stat "ssd_oversize_rejections" 1 (add_stat "ssd_admission_rejected" 1 s))
    else match encode_cache_block v (block_options (cfg s)) with
    | Err _ => (false, add_stat "ssd_admission_rejected" 1 s)
    | Ok block =>
        let block_len := blen block in
        if (max_ssd_block_bytes (tiering_policy (cfg s)) <? block_len)
           || (ssd_capacity_bytes (cfg s) <? block_len)
        then (false, add_stat "ssd_oversize_rejections" 1 (add_stat "ssd_admission_rejected" 1 s))
        else
          let s := evict_ssd_for_batch block_len s in
          if ssd_capacity_bytes (cfg s) <? ssd_bytes s +! block_len
          then (false, add_stat "ssd_admission_rejected" 1 s)
          else
            let '(written, s) := write_ssd_block k block s in
            match written with
            | Err _ => (false, add_stat "ssd_admission_rejected" 1 s)
            | Ok _ =>
                let s := set_disk_index (<[k := block_len]> (disk_index s)) s in
                let s := set_disk_order (ord_insert k (disk_order s)) s in
                let s := set_ssd_bytes (ssd_bytes s +! block_len) s in
                let s := add_stat "disk_fills" 1 s in
                (true, add_stat "ssd_admission_accepted" 1 s)
            end
    end.

(** With nothing pending, as the single write asks it. *)
Definition projected_ssd_install_bytes k (block_bytes : Z) s : Z :=
  let upper := ssd_bytes s +! 0 +! block_bytes in
  if upper <=? ssd_capacity_bytes (cfg s) then upper
  else
    let replaced := 0 +! default 0 (disk_index s !! k) in
    (ssd_bytes s -! replaced) +! 0 +! block_bytes.

Fixpoint make_room_loop (fuel : nat) k (block_bytes : Z) s : bool * Cache Ord :=
  match fuel with
  | O => (false, s)
  | S f =>
      let projected := projected_ssd_install_bytes k block_bytes s in
      let capacity := ssd_capacity_bytes (cfg s) in
      if projected <=? capacity then (true, s)
      else
        let before := ssd_bytes s in
        let incoming := (capacity -! before) +! (projected - capacity) in
        let s := evict_ssd_for_batch incoming s in
        if before <=? ssd_bytes s then (false, s) else make_room_loop f k block_bytes s
  end.

(** Every further round removed at least one block. *)
Definition make_room_for_ssd_install k (block_bytes : Z) s : bool * Cache Ord :=
  make_room_loop (S (length (ord_ins (disk_order s)))) k block_bytes s.

Definition record_ssd_frequency k s : Cache Ord :=
  match ssd_access_frequency (aux s) with
  | Some sk => upd_aux (set_ssd_access_frequency (Some (record k sk))) s
  | None => s
  end.

(** The scan for a resident block the incoming one may replace. *)
Fixpoint colder_scan (keys : list CacheKey) (weighed : nat) (group : EvictionGroupKey)
    (can_replace : CacheKey -> bool) s : bool :=
  match keys with
  | [] => negb (weighed =? 0)%nat
  | candidate :: rest =>
      if is_pinned s candidate then colder_scan rest weighed group can_replace s
      else if group_eqb (eviction_group_key_of (metadata_of s candidate) candidate) group
      then colder_scan rest weighed group can_replace s
      else if can_replace candidate then false
      else if (S weighed =? EVICTION_CANDIDATE_WINDOW)%nat then true
      else colder_scan rest (S weighed) group can_replace s
  end.

Definition incoming_ssd_block_is_colder_than_existing_groups k (request : CacheAdmissionRequest)
    (block_bytes : Z) s : bool * Cache Ord :=
  if decide (ssd_replacement_policy (cfg s) = Fifo) then (false, s)
  else
    let s := record_ssd_frequency k s in
    let frequency := (fun sk => estimate sk k) <$> ssd_access_frequency (aux s) in
    let '(now, s) := coarse s in
    let incoming_score :=
      mkScore 0 (Z.max (initial_hotness (rq_block_kind request) block_bytes) (rq_hotness request)) 0 now in
    let incoming_group :=
      match rq_routing_slot request with
      | Some slot => Slot slot
      | None => match extract_routing_slot k with Some slot => Slot slot | None => ObjectGroup k end
      end in
    let can_replace candidate :=
      match frequency with
      | Some incoming => ssd_estimate s candidate <=? incoming
      | None => negb (cmp_lt score_cmp incoming_score (eviction_score_of (metadata_of s candidate) false))
      end in
    (colder_scan (ord_ins (disk_order s)) 0 incoming_group can_replace s, s).

(** ** Demotion and the resident tiers *)

Definition demotion_is_worthwhile k s : bool * Cache Ord :=
  let '(now, s) := coarse s in
  if entry_expired s k now then (false, add_stat "expired_demotions_skipped" 1 s) else (true, s).

Definition demote_pmem_victim k v s : bool * Cache Ord :=
  if negb (eviction_handler_enabled (cfg s)) || (ssd_capacity_bytes (cfg s) =? 0) then (false, s)
  else
    let '(worth, s) := demotion_is_worthwhile k s in
    if negb worth then (false, s) else put_ssd_bypass_if_absent k v s.

(** One victim leaves the tier; whether the tier held it. *)
Definition evict_pmem_victim (started_at : Z) (victim : CacheKey) (why : EvictionReason) (skips : Z) s
    : bool * Cache Ord :=
  let s := add_stat "pmem_eviction_pinned_skips" skips s in
  let s := set_pmem_order (ord_remove victim (pmem_order s)) s in
  let '(old, s) := take_pmem_resident victim s in
  match old with
  | None => (false, s)
  | Some old =>
      let s := set_pmem_bytes (pmem_bytes s -! blen old) s in
      let '(_, s) := demote_pmem_victim victim old s in
      let '(_, s) := persist_pmem_delete victim s in
      let s := record_eviction_with_value Pmem victim old (removal_cause why) s in
      let s := add_stat "pmem_evictions" 1 s in
      let s := add_stat "pmem_eviction_capacity" 1 s in
      let s := forget_metadata_unless_resident victim s in
      (true, record_eviction_latency started_at s)
  end.

Fixpoint evict_pmem_loop (fuel : nat) (started_at : Z) s : Cache Ord :=
  match fuel with
  | O => s
  | S f =>
      if pmem_capacity_bytes (cfg s) <? pmem_bytes s then
        let before := pmem_bytes s in
        let '(picked, s) := select_pmem_eviction_victim s in
        match picked with
        | None => add_stat "pmem_eviction_pinned_skips" 1 s
        | Some (victim, why, skips) =>
            let '(held, s) := evict_pmem_victim started_at victim why skips s in
            if held && (pmem_bytes s =? before) then s else evict_pmem_loop f started_at s
        end
      else s
  end.

Definition evict_pmem_to_capacity_since (started_at : Z) s : Cache Ord :=
  evict_pmem_loop (S (length (ord_ins (pmem_order s)))) started_at s.

Definition put_pmem_shared_with_persistence k v (persist : bool) s : bool * Cache Ord :=
  let s := note_ssd_probe_mutation k s in
  let '(started_at, s) := instant s in
  if (pmem_capacity_bytes (cfg s) =? 0) || (pmem_capacity_bytes (cfg s) <? blen v)
  then (false, add_stat "pmem_admission_rejected" 1 s)
  else
    let '(persisted, s) := if persist then persist_pmem_put k v s else (Ok tt, s) in
    if negb (is_ok persisted) then (false, add_stat "pmem_admission_rejected" 1 s)
    else
      let s := add_stat "pmem_admission_accepted" 1 s in
      let s := add_stat "pmem_fills" 1 s in
      let '(old, s) := make_pmem_resident k v s in
      let s := match old with
               | Some old => set_pmem_bytes (pmem_bytes s -! blen old) s
               | None => set_pmem_order (ord_insert k (pmem_order s)) s
               end in
      let s := set_pmem_bytes (pmem_bytes s +! blen v) s in
      (true, evict_pmem_to_capacity_since started_at s).

Definition put_pmem_shared k v s : bool * Cache Ord := put_pmem_shared_with_persistence k v true s.

Definition demote_memory_victim k v s : bool * Cache Ord :=
  if negb (eviction_handler_enabled (cfg s)) then (false, s)
  else
    let '(worth, s) := demotion_is_worthwhile k s in
    if negb worth then (false, s)
    else if bool_decide (data_placement (tiering_policy (cfg s)) = Tiered)
            && (0 <? pmem_capacity_bytes (cfg s)) && has_pmem_tier (cfg s)
    then if decide (is_Some (pmem s !! k))
         then (true, add_stat "demotions_already_resident" 1 s)
         else put_pmem_shared k v s
    else if 0 <? ssd_capacity_bytes (cfg s) then put_ssd_bypass_if_absent k v s
    else (false, s).

Definition evict_memory_victim (started_at : Z) (victim : CacheKey) (why : EvictionReason) (skips : Z) s
    : bool * Cache Ord :=
  let s := add_stat "eviction_pinned_skips" skips s in
  let s := set_memory_order (ord_remove victim (memory_order s)) s in
  let '(old, s) := take_resident victim s in
  match old with
  | None => (false, s)
  | Some old =>
      let s := set_memory_bytes (memory_bytes s -! blen old) s in
      let '(_, s) := demote_memory_victim victim old s in
      let s := record_eviction_with_value Memory victim old (removal_cause why) s in
      let s := add_stat "memory_evictions" 1 s in
      let s := add_stat "eviction_capacity" 1 s in
      let s := add_stat "memory_slot_evictions" 1 s in
      let s := record_eviction_reason "" why s in
      let s := forget_metadata_unless_resident victim s in
      (true, record_eviction_latency started_at s)
  end.

Fixpoint evict_memory_loop (fuel : nat) (started_at : Z) s : Cache Ord :=
  match fuel with
  | O => s
  | S f =>
      if memory_capacity_bytes (cfg s) <? memory_bytes s then
        let before := memory_bytes s in
        let '(picked, s) := select_memory_eviction_victim s in
        match picked with
        | None => add_stat "eviction_pinned_skips" 1 s
        | Some (victim, why, skips) =>
            let '(held, s) := evict_memory_victim started_at victim why skips s in
            if held && (memory_bytes s =? before) then s else evict_memory_loop f started_at s
        end
      else s
  end.

Definition evict_memory_to_capacity_since (started_at : Z) s : Cache Ord :=
  evict_memory_loop (S (length (ord_ins (memory_order s)))) started_at s.

(** ** Admission to memory *)

Definition size_the_sketch_for_what_is_resident s : Cache Ord :=
  if negb (admission_filter_enabled (cfg s)) || sketch_sized (aux s) then s
  else if bool_decide (memory s = ∅) || (memory_bytes s <? memory_capacity_bytes (cfg s)) then s
  else
    let s := upd_aux (set_sketch_sized true) s in
    let entries := Z.of_nat (size (memory s)) in
    if bytes_for entries =? footprint_bytes (access_frequency (aux s)) then s
    else
      let sized := fold_left (fun sk '(k, r) =>
        let hit_count := match meta r with Some m => hits m | None => 0 end in
        let records := Z.min (sampled_hit_count 0 hit_count) SKETCH_RESEED_RECORDS_PER_ENTRY in
        record_many k (Z.to_nat (Z.max records 1)) sk) (map_to_list (memory s)) (with_capacity entries) in
      upd_aux (set_access_frequency sized) s.

Definition candidate_beats_the_victim k (value_len : Z) s : bool :=
  if negb (admission_filter_enabled (cfg s)) then true
  else if memory_bytes s + value_len <=? memory_capacity_bytes (cfg s) then true
  else
    let order := ord_acc (memory_order s) in
    let windowed := head (filter (fun c => is_pinned s c = false) (take EVICTION_CANDIDATE_WINDOW order)) in
    let on_offer :=
      match windowed with
      | Some c => Some c
      | None => if (EVICTION_CANDIDATE_WINDOW <? length order)%nat
                then head (filter (fun c => is_pinned s c = false) order) else None
      end in
    match on_offer with
    | None => true
    | Some victim => estimate (access_frequency (aux s)) victim <=? estimate (access_frequency (aux s)) k
    end.

Definition put_memory_shared k v s : bool * Cache Ord :=
  let '(started_at, s) := instant s in
  let value_len := blen v in
  if (memory_capacity_bytes (cfg s) =? 0) || (memory_capacity_bytes (cfg s) <? value_len)
  then (false, add_stat "eviction_oversize" 1 (add_stat "memory_admission_rejected" 1 s))
  else
    let s := size_the_sketch_for_what_is_resident s in
    let s := upd_aux (fun a => set_access_frequency (record k (access_frequency a)) a) s in
    if negb (candidate_beats_the_victim k value_len s)
    then (false, add_stat "memory_admission_rejected" 1 s)
    else
      let s := add_stat "memory_admission_accepted" 1 s in
      let s := add_stat "memory_fills" 1 s in
      let '(old, s) := make_resident k v s in
      let s :=
        match old with
        | Some old =>
            let s := set_memory_bytes (memory_bytes s -! blen old) s in
            let s := set_memory_order (ord_touch k (memory_order s)) s in
            match metadata_of s k with
            | Some m =>
                let threshold := memory_hotness_threshold (tiering_policy (cfg s)) in
                let before := hotness m in
                let s := update_metadata k (fun m => snd (add_hotness 1 m)) s in
                if (before <? threshold) && (threshold <=? sat_add32 before 1)
                then add_stat "hotness_promotions" 1 s else s
            | None => s
            end
        | None => set_memory_order (ord_insert k (memory_order s)) s
        end in
      let s := set_memory_bytes (memory_bytes s + value_len) s in
      (true, evict_memory_to_capacity_since started_at s).

(** Take a tier's copy out because a newer write went elsewhere. *)
Definition drop_stale_tier_copy k (t : CacheTier) s : result unit * Cache Ord :=
  match t with
  | Memory =>
      let s := match resident_value s k with
               | Some _ =>
                   let '(stale, s) := take_resident k s in
                   match stale with
                   | Some stale =>
                       let s := set_memory_bytes (memory_bytes s -! blen stale) s in
                       add_stat "stale_tier_copies_dropped" 1 (put_stat "memory_bytes" (memory_bytes s) s)
                   | None => s
                   end
               | None => s
               end in
      (Ok tt, set_memory_order (ord_remove k (memory_order s)) s)
  | Pmem =>
      let '(deleted, s) :=
        if decide (is_Some (pmem s !! k)) then
          let '(r, s) := persist_pmem_delete k s in
          match r with Ok _ => (Ok tt, note_ssd_probe_mutation k s) | Err e => (Err e, s) end
        else (Ok tt, s) in
      match deleted with
      | Err e => (Err e, s)
      | Ok _ =>
          let '(stale, s) := take_pmem_resident k s in
          let s := match stale with
                   | Some stale =>
                       let s := set_pmem_bytes (pmem_bytes s -! blen stale) s in
                       add_stat "stale_tier_copies_dropped" 1 (put_stat "pmem_bytes" (pmem_bytes s) s)
                   | None => s
                   end in
          (Ok tt, set_pmem_order (ord_remove k (pmem_order s)) s)
      end
  | Ssd | Reject => (Ok tt, s)
  end.
End engine.
