(* ===== verification/EngineWrite.v ===== *)
(** * The cache engine: writes, expiry, pins and removal

    The operations of [MultiLayerCache] that run under the exclusive lock:
    [put_with_request_shared] and the public [put], the expiry sweep, pins and
    their release, invalidation, and clearing. *)

From S2P Require Import Prelude Types Ordering EntryMeta Victim BlockCodec WriteBudget FrequencySketch.
From S2P Require Import KeyOrder KeyOrderSpec EngineState Engine.

Section write.
Context {Ord : Type} {RO : RecencyOrder Ord} {ENV : Env} {ZS : Zstd}.
Implicit Types (s : Cache Ord) (k : CacheKey) (v : bytes).

(** ** Expiry *)

(** The first tier that held the entry, told to the handler once. *)
Definition departing_from (t : CacheTier) (notify : bool) (taken : option bytes)
    (departing : option (CacheTier * bytes)) : option (CacheTier * bytes) :=
  match departing, taken with
  | None, Some v => if notify then Some (t, v) else None
  | _, _ => departing
  end.

(** Out of a resident tier: the entry, its bytes and its place in the order. *)
Definition leave_memory_tier k (reported : bool) s : option bytes * Cache Ord :=
  let '(taken, s) := take_resident k s in
  let s := match taken with
           | Some v => let s := set_memory_bytes (memory_bytes s -! blen v) s in
                       if reported then put_stat "memory_bytes" (memory_bytes s) s else s
           | None => s
           end in
  (taken, set_memory_order (ord_remove k (memory_order s)) s).

Definition leave_pmem_tier k (reported : bool) s : option bytes * Cache Ord :=
  let '(taken, s) := take_pmem_resident k s in
  let s := match taken with
           | Some v => let s := set_pmem_bytes (pmem_bytes s -! blen v) s in
                       if reported then put_stat "pmem_bytes" (pmem_bytes s) s else s
           | None => s
           end in
  (taken, set_pmem_order (ord_remove k (pmem_order s)) s).

(** Out of the index and its order. *)
Definition leave_disk_index k s : Cache Ord :=
  let s := match disk_index s !! k with
           | Some block_len =>
               let s := set_disk_index (delete k (disk_index s)) s in
               let s := set_ssd_bytes (ssd_bytes s -! block_len) s in
               put_stat "disk_bytes" (ssd_bytes s) s
           | None => s
           end in
  set_disk_order (ord_remove k (disk_order s)) s.

Definition remove_expired_entry k s : Cache Ord :=
  let notify := notifying s in
  let '(taken, s) := leave_memory_tier k true s in
  let departing := departing_from Memory notify taken None in
  let '(taken, s) := leave_pmem_tier k true s in
  let departing := departing_from Pmem notify taken departing in
  let '(deleted, s) := persist_pmem_delete k s in
  let s := if is_ok deleted then s else add_stat "expired_delete_failures" 1 s in
  let '(departing, s) :=
    if notify && bool_decide (departing = None) then
      let '(v, s) := read_ssd_value_for_eviction k s in
      (if bool_decide (v = []) then None else Some (Ssd, v), s)
    else (departing, s) in
  let s := leave_disk_index k s in
  let '(deleted, s) := delete_ssd_block k s in
  let s := if is_ok deleted then s else add_stat "expired_delete_failures" 1 s in
  let s := forget_metadata_of k s in
  let s := forget_expiry k s in
  let s := add_stat "expired_removals" 1 s in
  match departing with
  | Some (t, v) => record_eviction_with_value t k v CauseExpired s
  | None => s
  end.

(** [sort_unstable] on keys, then [dedup]. *)
Definition sort_keys (l : list CacheKey) : list CacheKey :=
  merge_sort (fun a b => negb (cmp_lt CacheKey_cmp b a)) l.

Fixpoint dedup (l : list CacheKey) : list CacheKey :=
  match l with
  | a :: rest =>
      match dedup rest with
      | b :: rest' => if decide (a = b) then b :: rest' else a :: b :: rest'
      | [] => [a]
      end
  | [] => []
  end.

Definition expired_in_window s (now : Z) (order : Ord) : list CacheKey :=
  filter (fun k => entry_expired s k now = true)
    (filter (fun k => is_pinned s k = false) (take EXPIRY_SWEEP_PER_WRITE (ord_acc order))).

Definition sweep_some_expired s : Cache Ord :=
  if negb (ttl_in_use (cfg s)) then s
  else
    let '(now, s) := coarse s in
    let expired := expired_in_window s now (memory_order s) ++ expired_in_window s now (pmem_order s)
                   ++ expired_in_window s now (disk_order s) in
    fold_left (fun s k => remove_expired_entry k s) (dedup (sort_keys expired)) s.

(** ** The write *)

Definition count_ssd_refusal (backpressure oversize : bool) s : Cache Ord :=
  let s := add_stat "ssd_admission_rejected" 1 s in
  let s := if oversize then add_stat "ssd_oversize_rejections" 1 s else s in
  let s := if backpressure then add_stat "writeback_backpressure_events" 1 s else s in
  add_stat "puts" 1 s.

(** The SSD half of the write: [Ok true] when the block was installed. *)
Definition put_ssd_copy k v (request : CacheAdmissionRequest) (decision : CacheAdmissionDecision)
    (to_ssd : bool) s : result bool * Cache Ord :=
  let too_large n := (max_ssd_block_bytes (tiering_policy (cfg s)) <? n)
                     || (ssd_capacity_bytes (cfg s) <? n) in
  if negb to_ssd then (Ok false, count_ssd_refusal true false s)
  else if too_large (blen v) then (Ok false, count_ssd_refusal true true s)
  else
    let '(budget_ok, s) := ssd_write_budget_admits k s in
    if negb budget_ok then (Ok false, add_stat "puts" 1 s)
    else
      let s := if ssd_write_through (tiering_policy (cfg s)) && negb (admit_ssd decision)
               then add_stat "ssd_write_through_admissions" 1 s else s in
      match encode_cache_block v (block_options (cfg s)) with
      | Err e => (Err e, s)
      | Ok block =>
          let block_len := blen block in
          if too_large block_len then (Ok false, count_ssd_refusal true true s)
          else
            let '(colder, s) :=
              if ssd_capacity_bytes (cfg s) <? projected_ssd_install_bytes k block_len s
              then incoming_ssd_block_is_colder_than_existing_groups k request (blen v) s
              else (false, s) in
            if colder then (Ok false, count_ssd_refusal true false s)
            else
              let '(room, s) := make_room_for_ssd_install k block_len s in
              if negb room then (Ok false, count_ssd_refusal true false s)
              else
                let s := if is_encoded_compressed_block block
                         then add_stat "compression_bytes_saved" (blen v -! block_len)
                                (add_stat "compressed_puts" 1 s)
                         else s in
                let '(written, s) := write_ssd_block k block s in
                match written with
                | Err e => (Err e, s)
                | Ok _ =>
                    let old := disk_index s !! k in
                    let s := set_disk_index (<[k := block_len]> (disk_index s)) s in
                    let s := match old with
                             | Some old_len => set_ssd_bytes (ssd_bytes s -! old_len) s
                             | None => s
                             end in
                    let s := set_disk_order (ord_insert k (disk_order s)) s in
                    let s := set_ssd_bytes (ssd_bytes s +! block_len) s in
                    let s := record_metadata k (rq_block_kind request) (rq_routing_slot request) (blen v)
                               (rq_hotness request) (reason decision) s in
                    let s := add_stat "disk_fills" 1 (add_stat "puts" 1 s) in
                    (Ok true, add_stat "ssd_admission_accepted" 1 s)
                end
      end.

(** The memory half; whether the persistent tier took what memory refused. *)
Definition put_memory_copy k v (request : CacheAdmissionRequest) (decision : CacheAdmissionDecision)
    (to_memory : bool) s : result bool * Cache Ord :=
  if to_memory then
    let s := record_metadata k (rq_block_kind request) (rq_routing_slot request) (blen v)
               (rq_hotness request) (reason decision) s in
    let '(kept, s) := put_memory_shared k v s in
    if negb kept && bool_decide (data_placement (tiering_policy (cfg s)) = Tiered)
       && (0 <? pmem_capacity_bytes (cfg s))
    then
      let s := record_metadata k (rq_block_kind request) (rq_routing_slot request) (blen v)
                 (rq_hotness request) PersistentMemory s in
      let '(in_pmem, s) := put_pmem_shared k v s in (Ok in_pmem, s)
    else (Ok false, s)
  else if negb (ssd_instance_only (cfg s)) then
    let s := add_stat "memory_admission_rejected" 1 s in
    let '(r, s) := drop_stale_tier_copy k Memory s in
    match r with Ok _ => (Ok false, s) | Err e => (Err e, s) end
  else (Ok false, s).

Definition put_pmem_copy k v (request : CacheAdmissionRequest) (decision : CacheAdmissionDecision)
    (to_pmem via_memory : bool) s : result unit * Cache Ord :=
  if to_pmem && negb via_memory then
    let s := record_metadata k (rq_block_kind request) (rq_routing_slot request) (blen v)
               (rq_hotness request) (reason decision) s in
    (Ok tt, snd (put_pmem_shared k v s))
  else if negb (ssd_instance_only (cfg s)) then
    let s := add_stat "pmem_admission_rejected" 1 s in
    if negb via_memory then drop_stale_tier_copy k Pmem s else (Ok tt, s)
  else (Ok tt, s).

Definition put_with_request_inner k v (request : option CacheAdmissionRequest) s
    : result bool * Cache Ord :=
  let s := sweep_some_expired s in
  let s := if negb (is_pinned s k) then set_pins (delete k (pins s)) s else s in
  let request := match request with Some r => r | None => default_request s k (blen v) end in
  let decision := policy_decide (tiering_policy (cfg s)) request in
  let ssd_enabled := (0 <? ssd_capacity_bytes (cfg s)) || ssd_instance_only (cfg s) in
  let to_ssd := ssd_enabled && (admit_ssd decision || ssd_write_through (tiering_policy (cfg s))
                                   || ssd_instance_only (cfg s)) in
  let to_memory := admit_memory decision && negb (ssd_instance_only (cfg s)) in
  let to_pmem := admit_pmem decision && negb (ssd_instance_only (cfg s)) in
  let '(via_memory, s) := put_memory_copy k v request decision to_memory s in
  match via_memory with
  | Err e => (Err e, s)
  | Ok via_memory =>
      let '(r, s) := put_pmem_copy k v request decision to_pmem via_memory s in
      match r with
      | Err e => (Err e, s)
      | Ok _ => put_ssd_copy k v request decision to_ssd s
      end
  end.

(** Whether the SSD copy is an older value than the one just written. *)
Definition ssd_copy_stale k v (outcome : result bool) s : result bool * Cache Ord :=
  match outcome with
  | Ok false =>
      if bool_decide (is_Some (disk_index s !! k)) then
        let '(block, s) := read_ssd_block k s in
        (match block with
         | Err e => Err e
         | Ok None => Ok true
         | Ok (Some block) => let? same := cache_block_matches_value block v in Ok (negb same)
         end, s)
      else (Ok false, s)
  | _ => (Ok false, s)
  end.

Definition drop_ssd_copy k s : result unit * Cache Ord :=
  let '(r, s) := delete_ssd_block k s in
  match r with
  | Err e => (Err e, s)
  | Ok _ =>
      (Ok tt, leave_disk_index k s)
  end.

Definition put_with_request_shared k v (request : option CacheAdmissionRequest) s
    : result unit * Cache Ord :=
  let '(outcome, s) := put_with_request_inner k v request s in
  let '(stale, s) := ssd_copy_stale k v outcome s in
  match stale with
  | Err e => (Err e, s)
  | Ok stale =>
      let '(r, s) := if stale then drop_ssd_copy k s else (Ok tt, s) in
      match r with
      | Err e => (Err e, s)
      | Ok _ =>
          let s := forget_metadata_unless_resident k s in
          (match outcome with Ok _ => Ok tt | Err e => Err e end, s)
      end
  end.

Definition record_put_latency (started_at : Z) s : Cache Ord :=
  let '(now, s) := instant s in
  let micros := Z.min ((now -! started_at) / 1000) u64_max in
  let s := add_stat "put_latency_samples" 1 s in
  let s := add_stat "put_latency_total_micros" micros s in
  let s := max_stat "put_latency_max_micros" micros s in
  add_stat (bucket_name "put" micros) 1 s.

(** What the callbacks are called with once the lock is released: the counts
    per tier, each tier once in order of first appearance, and the records. *)
Definition metric_counts (tiers : list CacheTier) : list (CacheTier * nat) :=
  let reported := fold_left (fun acc t => if decide (t ∈ acc) then acc else acc ++ [t]) tiers [] in
  (fun t => (t, length (filter (fun u => u = t) tiers))) <$> reported.

Definition drain_eviction_records s : list (CacheTier * nat) * list CacheEvictionRecord * Cache Ord :=
  if negb (eviction_callback (cfg s) || eviction_metric_callback (cfg s)) then ([], [], s)
  else
    let a := aux s in
    (if eviction_metric_callback (cfg s) then metric_counts (pending_eviction_metric_tiers a) else [],
     if eviction_callback (cfg s) then pending_eviction_records a else [],
     upd_aux (fun a => set_pending_eviction_metric_tiers [] (set_pending_eviction_records [] a)) s).

Definition put k v s : result unit * Cache Ord :=
  let '(started_at, s) := instant s in
  if negb (started (cfg s)) then (Err Stopped, s)
  else
    let '(r, s) := put_with_request_shared k v None s in
    let s := record_put_latency started_at s in
    (r, if is_ok r then snd (drain_eviction_records s) else s).

(** ** Pins *)

Definition no_pin : PinnedEntry := mkPin 0 0 None.

(** The relaxed counter wraps like [fetch_add] and [fetch_sub]. *)
Definition add_pin_handles (n : Z) s : Cache Ord := set_pin_handles (wrap64 (pin_handles s + n)) s.
Definition remove_pin_handles (n : Z) s : Cache Ord := set_pin_handles (wrap64 (pin_handles s - n)) s.

Definition increment_pin_with_optional_size k (size : option Z) s : Cache Ord :=
  let s := add_pin_handles 1 s in
  let e := default no_pin (pins s !! k) in
  let e := mkPin (handles e +! 1)
                 (match size with Some n => Z.max (handle_bytes e) n | None => handle_bytes e end)
                 (removed_bytes e) in
  add_stat "pin_operations" 1 (set_pins (<[k := e]> (pins s)) s).

Definition increment_pin k s : Cache Ord :=
  let size :=
    match resident_value s k with
    | Some v => Some (blen v)
    | None => match pmem_value s k with
              | Some v => Some (blen v)
              | None => match pins s !! k with Some e => removed_bytes e | None => None end
              end
    end in
  increment_pin_with_optional_size k size s.

Definition increment_pin_with_size k (n : Z) s : Cache Ord := increment_pin_with_optional_size k (Some n) s.

Definition decrement_pin_count k (count : Z) s : Cache Ord :=
  if count =? 0 then s
  else match pins s !! k with
  | None => s
  | Some e =>
      let removed := Z.min (handles e) count in
      let s := set_pins (if count <? handles e
                         then <[k := mkPin (handles e - count) (handle_bytes e) (removed_bytes e)]> (pins s)
                         else delete k (pins s)) s in
      remove_pin_handles removed (add_stat "unpin_operations" count s)
  end.

Definition decrement_pin k s : Cache Ord := decrement_pin_count k 1 s.

Definition over_a_capacity s : bool :=
  (memory_capacity_bytes (cfg s) <? memory_bytes s) || (pmem_capacity_bytes (cfg s) <? pmem_bytes s)
  || (ssd_capacity_bytes (cfg s) <? ssd_bytes s).

Definition reclaim_after_release s : Cache Ord :=
  let '(t, s) := instant s in
  let s := evict_memory_to_capacity_since t s in
  let '(t, s) := instant s in
  let s := evict_pmem_to_capacity_since t s in
  let s := evict_ssd_for_batch 0 s in
  snd (drain_eviction_records s).

Definition pin_ref k s : Cache Ord := if negb (started (cfg s)) then s else increment_pin k s.

Definition unpin k s : Cache Ord :=
  let s := decrement_pin k s in
  if over_a_capacity s then reclaim_after_release s else s.

(** ** Removal *)

(** [CacheKeyOrder::retain]: a walk in insertion order that removes the nodes
    whose key the predicate refuses. *)
Definition retain (keep : CacheKey -> bool) (o : Ord) : Ord :=
  fold_left (fun o k => if keep k then o else ord_remove k o) (ord_ins o) o.

(** One key of [invalidate_keys_locked]; the disk order and the store follow
    for the whole batch. *)
Definition invalidate_one (remove_disk : bool) k s : Cache Ord :=
  let key_pinned := is_pinned s k in
  let '(taken, s) := leave_memory_tier k false s in
  let removed := match taken with Some v => blen v | None => 0 end in
  let '(removed, s) :=
    if remove_disk then
      let disk_bytes := default 0 (disk_index s !! k) in
      let s := set_disk_index (delete k (disk_index s)) s in
      (Z.max removed disk_bytes, set_ssd_bytes (ssd_bytes s -! disk_bytes) s)
    else (removed, s) in
  let '(taken, s) := take_pmem_resident k s in
  let s := match taken with Some v => set_pmem_bytes (pmem_bytes s -! blen v) s | None => s end in
  let removed := match taken with Some v => Z.max removed (blen v) | None => removed end in
  let s := if remove_disk then snd (persist_pmem_delete k s) else s in
  let s := set_pmem_order (ord_remove k (pmem_order s)) s in
  let s := forget_metadata_unless_resident k s in
  let s :=
    if key_pinned && (0 <? removed) then
      let s := upd_aux (set_pinned_removals_seen true) s in
      let e := default no_pin (pins s !! k) in
      set_pins (<[k := mkPin (handles e) (handle_bytes e) (Some removed)]> (pins s)) s
    else set_pins (delete k (pins s)) s in
  add_stat "invalidations" 1 s.

Definition invalidate_keys_locked (keys : list CacheKey) (remove_disk : bool) s : Cache Ord :=
  match keys with
  | [] => s
  | _ =>
      let s := fold_left (fun s k => invalidate_one remove_disk k s) keys s in
      if remove_disk then
        let s := set_disk_order (retain (fun k => negb (bool_decide (k ∈ keys))) (disk_order s)) s in
        snd (delete_ssd_blocks keys s)
      else s
  end.

Definition invalidate k s : result unit * Cache Ord :=
  if negb (started (cfg s)) then (Err Stopped, s) else (Ok tt, invalidate_keys_locked [k] true s).
End write.
