(* ===== verification/EngineRead.v ===== *)
(** * The cache engine: reads

    [get_with_tier]: the probe under the shared lock and what follows it under
    the exclusive one.  Other operations may run between the two, so the read
    is two steps; [get_with_tier] is their composition.  The refresh window is
    an answer of the environment, since it is scaled with floating point. *)

From S2P Require Import Prelude Types Ordering EntryMeta Victim BlockCodec WriteBudget FrequencySketch.
From S2P Require Import KeyOrder KeyOrderSpec EngineState Engine EngineWrite.

Section read.
Context {Ord : Type} {RO : RecencyOrder Ord} {ENV : Env} {ZS : Zstd}.
Implicit Types (s : Cache Ord) (k : CacheKey) (v : bytes).

Inductive HitOutcome := Accounted | NeedsAccessOrderRefresh | NeedsMetadata.

(** ** Hit accounting *)

Definition access_order_needs_refresh (seen_at : option Z) s : bool * Cache Ord :=
  let window := refresh_window (tick (aux s)) in
  let s := next_tick s in
  if window =? 0 then (true, s)
  else match seen_at with
  | None => (true, s)
  | Some seen_at => let '(now, s) := coarse s in (window <? now -! seen_at, s)
  end.

Definition refresh_access_order k s : Cache Ord :=
  let s := set_memory_order (ord_touch k (memory_order s)) s in
  let s := set_pmem_order (ord_touch k (pmem_order s)) s in
  set_disk_order (ord_touch k (disk_order s)) s.

Definition sample_ssd_frequency k (samples : Z) s : Cache Ord :=
  match ssd_access_frequency (aux s) with
  | Some sk =>
      if negb (samples =? 0) && bool_decide (is_Some (disk_index s !! k))
      then upd_aux (set_ssd_access_frequency (Some (record_many k (Z.to_nat samples) sk))) s
      else s
  | None => s
  end.

(** Account a hit on an entry whose metadata the lookup found. *)
Definition record_known_hit_shared_occurrences_at k (entry : option CacheEntryMeta) (occurrences epoch : Z) s
    : HitOutcome * Cache Ord :=
  match entry with
  | None => (NeedsMetadata, s)
  | Some m =>
      let threshold := memory_hotness_threshold (tiering_policy (cfg s)) in
      let occurrences := Z.max occurrences 1 in
      let '(hits_before, m) := record_hits occurrences m in
      let s := sample_ssd_frequency k (sampled_hit_count hits_before occurrences) s in
      let s := if admission_filter_enabled (cfg s)
               then upd_aux (fun a => set_access_frequency
                      (record_many k (Z.to_nat (sampled_hit_count hits_before occurrences))
                         (access_frequency a)) a) s
               else s in
      let delta := Z.min occurrences u32_max in
      let '(before, m) := add_hotness delta m in
      let seen_at := last_access_epoch m in
      let s := if (before <? threshold) && (threshold <=? sat_add32 before delta)
               then add_stat "hotness_promotions" 1 s else s in
      let '(moves, s) := if hits_before =? 0 then (true, s)
                         else access_order_needs_refresh (Some seen_at) s in
      if moves then
        let s := update_metadata k (fun _ => set_epoch epoch m) s in
        (NeedsAccessOrderRefresh, add_stat "access_order_refreshes" 1 s)
      else (Accounted, update_metadata k (fun _ => m) s)
  end.

Definition record_hit_metadata k (block_bytes : Z) s : option Z * Cache Ord :=
  let '(epoch, s) := coarse s in
  let threshold := memory_hotness_threshold (tiering_policy (cfg s)) in
  let crossed (before after : Z) s :=
    if (before <? threshold) && (threshold <=? after) then add_stat "hotness_promotions" 1 s else s in
  match metadata_of s k with
  | Some m =>
      let '(hits_before, m) := record_hits 1 m in
      let s := sample_ssd_frequency k (sampled_hit_count hits_before 1) s in
      let '(before, m) := add_hotness 1 m in
      let s := update_metadata k (fun _ => m) s in
      (Some (last_access_epoch m), crossed before (sat_add32 before 1) s)
  | None =>
      let kind := infer_block_kind k in
      let before := initial_hotness kind block_bytes in
      let after := sat_add32 before 1 in
      let s := set_metadata k (new_meta kind (extract_routing_slot k) after 1 epoch MemoryOnly) s in
      (None, crossed before after s)
  end.

Definition record_hit k (block_bytes : Z) s : Cache Ord :=
  let '(seen_at, s) := record_hit_metadata k block_bytes s in
  let '(moves, s) := access_order_needs_refresh seen_at s in
  if negb moves then s
  else
    let s := match metadata_of s k with
             | Some _ => let '(now, s) := coarse s in update_metadata k (set_epoch now) s
             | None => s
             end in
    refresh_access_order k (add_stat "access_order_refreshes" 1 s).

Definition apply_outcome k (len : Z) (outcome : HitOutcome) s : Cache Ord :=
  match outcome with
  | Accounted => s
  | NeedsAccessOrderRefresh => refresh_access_order k s
  | NeedsMetadata => if decide (is_Some (memory s !! k)) then record_hit k len s else s
  end.

Definition observe_latency (family : string) (started_at : Z) s : Cache Ord :=
  let '(now, s) := instant s in
  let micros := Z.min ((now -! started_at) / 1000) u64_max in
  let s := add_stat (bucket_name family micros) 1 s in
  let s := add_stat (String.append family "_total_micros") micros s in
  max_stat (String.append family "_max_micros") micros s.

(** ** Promotion from the persistent tier *)

Definition pmem_should_refill_memory (value_len : Z) s : bool :=
  if (memory_capacity_bytes (cfg s) =? 0) || (memory_capacity_bytes (cfg s) <? value_len) then false
  else negb (bool_decide (data_placement (tiering_policy (cfg s)) = SideBySide))
       || (pmem_capacity_bytes (cfg s) =? 0)
       || (value_len <=? data_placement_threshold_bytes (tiering_policy (cfg s))).

(** [Arc::ptr_eq] holds of equal bytes only; whether equal bytes are also the
    same allocation is an answer of the environment. *)
Definition promote_pmem_probe_if_current k v s : Cache Ord :=
  let '(now, s) := coarse s in
  let same := same_allocation (tick (aux s)) && bool_decide (pmem_value s k = Some v) in
  let s := next_tick s in
  if negb (started (cfg s)) || ssd_instance_only (cfg s) || bool_decide (is_Some (memory s !! k))
     || entry_expired s k now || negb same
  then s
  else
    let s := record_hit k (blen v) s in
    if negb (pmem_should_refill_memory (blen v) s) then s
    else
      let '(kept, s) := put_memory_shared k v s in
      if kept then s else add_stat "refill_failures" 1 s.

(** ** SSD probes *)

Definition ssd_probe_is_current_for k (epoch : Z) s : bool :=
  let a := aux s in
  if (epoch =? u64_max) || (ssd_probe_epoch a =? u64_max)
     || (epoch <? ssd_probe_global_epoch a) || (ssd_probe_epoch a <? epoch)
  then false
  else
    let len := Z.of_nat (length (ssd_probe_mutations a)) in
    let changed := ssd_probe_epoch a - epoch in
    if changed =? 0 then true
    else if len <? changed then false
    else forallb (fun sequence =>
           match ssd_probe_mutations a !! Z.to_nat (sequence `mod` len) with
           | Some h => negb (h =? key_hash k)
           | None => true
           end) (seqZ (epoch + 1) changed).

Definition ssd_batch_probe_epoch (keys : list CacheKey) s : Z :=
  if existsb (fun k => bool_decide (is_Some (memory s !! k)) || bool_decide (is_Some (pmem s !! k))) keys
  then u64_max else ssd_probe_epoch (aux s).

Definition refill_from_ssd_shared k v s : bool * Cache Ord :=
  if bool_decide (data_placement (tiering_policy (cfg s)) = SideBySide)
     && (0 <? pmem_capacity_bytes (cfg s))
     && (data_placement_threshold_bytes (tiering_policy (cfg s)) <? blen v)
  then put_pmem_shared k v s
  else put_memory_shared k v s.

Definition refill_ssd_probe k v (current : bool) s : bool * Cache Ord :=
  if negb current || negb (started (cfg s)) || ssd_instance_only (cfg s)
     || bool_decide (is_Some (memory s !! k)) || bool_decide (is_Some (pmem s !! k))
  then (true, s)
  else
    let '(now, s) := coarse s in
    if entry_expired s k now then (true, s)
    else
      let memory_target :=
        negb (bool_decide (data_placement (tiering_policy (cfg s)) = SideBySide))
        || (pmem_capacity_bytes (cfg s) =? 0)
        || (blen v <=? data_placement_threshold_bytes (tiering_policy (cfg s))) in
      let spare_memory := memory_bytes s + blen v <=? memory_capacity_bytes (cfg s) in
      let epoch := ssd_probe_epoch (aux s) in
      let len := Z.of_nat (length (ssd_probe_mutations (aux s))) in
      let journal_index := Z.to_nat ((epoch +! 1) `mod` len) in
      let previous := default 0 (ssd_probe_mutations (aux s) !! journal_index) in
      let '(refilled, s) := refill_from_ssd_shared k v s in
      (refilled,
       if refilled && memory_target && spare_memory && (epoch + 1 =? ssd_probe_epoch (aux s))
          && (epoch + 1 <=? u64_max) && (ssd_probe_global_epoch (aux s) <=? epoch)
       then upd_aux (fun a => set_ssd_probe_mutations (<[journal_index := previous]> (ssd_probe_mutations a))
                                (set_ssd_probe_epoch epoch a)) s
       else s).

(** ** The read *)

(** What the probe under the shared lock found. *)
Inductive Probe :=
  | ProbeStopped
  | ProbeExpired
  | ProbeMemory (v : bytes) (outcome : HitOutcome)
  | ProbePmem (v : bytes)
  | ProbeNone.

Definition get_probe k (now_millis : Z) s : Probe * Cache Ord :=
  if negb (started (cfg s)) then (ProbeStopped, s)
  else if entry_expired s k now_millis then (ProbeExpired, s)
  else if ssd_instance_only (cfg s) then (ProbeNone, s)
  else match memory s !! k with
  | Some r =>
      let s := add_stat "memory_hits" 1 s in
      let '(epoch, s) := coarse s in
      let '(outcome, s) := record_known_hit_shared_occurrences_at k (meta r) 1 epoch s in
      (ProbeMemory (value r) outcome, s)
  | None => (match pmem_value s k with Some v => ProbePmem v | None => ProbeNone end, s)
  end.

(** The block read under the shared lock, with the epoch it was read at. *)
Definition ssd_probe k s : result (option bytes) * bool * Z * Cache Ord :=
  let '(block, s) := read_ssd_block k s in
  (block, negb (ssd_instance_only (cfg s)), ssd_batch_probe_epoch [k] s, s).

Definition finish_ssd_hit k (compressed : bool) v (wants_refill : bool) (probe_epoch started_at refill_started : Z) s
    : Cache Ord :=
  let current := ssd_probe_is_current_for k probe_epoch s in
  let s := add_stat "disk_hits" 1 s in
  let s := if compressed then add_stat "compressed_hits" 1 s else s in
  let s := record_hit k (blen v) s in
  let s := if wants_refill then
             let '(refilled, s) := refill_ssd_probe k v current s in
             if refilled then s else add_stat "refill_failures" 1 s
           else s in
  let s := observe_latency "get" started_at s in
  let s := observe_latency "read_through" started_at s in
  observe_latency "refill" refill_started s.

(** Served from an SSD-only instance without refilling. *)
Definition finish_ssd_instance_hit k (compressed : bool) v (started_at refill_started : Z) s : result unit * Cache Ord :=
  if negb (started (cfg s)) then (Err Stopped, s)
  else
    let s := add_stat "disk_hits" 1 s in
    let s := if compressed then add_stat "compressed_hits" 1 s else s in
    let '(epoch, s) := coarse s in
    let '(outcome, s) := record_known_hit_shared_occurrences_at k (metadata_of s k) 1 epoch s in
    let s := observe_latency "get" started_at s in
    let s := observe_latency "read_through" started_at s in
    let s := observe_latency "refill" refill_started s in
    (Ok tt, match outcome with
            | Accounted => s
            | NeedsAccessOrderRefresh => refresh_access_order k s
            | NeedsMetadata => record_hit k (blen v) s
            end).

Definition get_from_ssd k (started_at : Z) s : result (option (bytes * CacheTier)) * Cache Ord :=
  let '(refill_started, s) := instant s in
  let '(block, refill_wanted, probe_epoch, s) := ssd_probe k s in
  match block with
  | Err e => (Err e, s)
  | Ok (Some block) =>
      match decode_cache_block_owned block with
      | Err e => (Err e, s)
      | Ok v =>
          let compressed := is_encoded_compressed_block block in
          if negb refill_wanted then
            let '(r, s) := finish_ssd_instance_hit k compressed v started_at refill_started s in
            (match r with Ok _ => Ok (Some (v, Ssd)) | Err e => Err e end, s)
          else
            let s := finish_ssd_hit k compressed v true probe_epoch started_at refill_started s in
            (Ok (Some (v, Ssd)), snd (drain_eviction_records s))
      end
  | Ok None =>
      let s := add_stat "misses" 1 s in
      let s := observe_latency "get" started_at s in
      (Ok None, observe_latency "read_through" started_at s)
  end.

Definition get_with_tier k s : result (option (bytes * CacheTier)) * Cache Ord :=
  let '(started_at, s) := instant s in
  let '(now_millis, s) := coarse s in
  let '(probe, s) := get_probe k now_millis s in
  match probe with
  | ProbeStopped => (Err Stopped, s)
  | ProbeExpired =>
      (Ok None,
       if entry_expired s k now_millis
       then add_stat "misses" 1 (add_stat "expired_reads" 1 (remove_expired_entry k s)) else s)
  | ProbeMemory v outcome =>
      let s := observe_latency "get" started_at s in
      let s := observe_latency "read_through" started_at s in
      (Ok (Some (v, Memory)), apply_outcome k (blen v) outcome s)
  | ProbePmem v =>
      let s := add_stat "pmem_hits" 1 s in
      let s := promote_pmem_probe_if_current k v s in
      let s := observe_latency "get" started_at s in
      let s := observe_latency "read_through" started_at s in
      let s := observe_latency "refill" started_at s in
      (Ok (Some (v, Pmem)), snd (drain_eviction_records s))
  | ProbeNone => get_from_ssd k started_at s
  end.
End read.
