(* ===== verification/EngineInv.v ===== *)
(** * The cache engine: what always holds

    The invariant of the engine ([inv]), the copies of an entry and what a
    state holds ([copies], [holds]), and the relation [rel] every operation
    stands in with the state it started from: the invariant is kept, nothing
    but what was written is newly held, and pinned entries keep their copies. *)

From S2P Require Import Prelude Types Ordering EntryMeta Victim VictimFacts VictimSpec BlockCodec WriteBudget.
From S2P Require Import FrequencySketch KeyOrder KeyOrderSpec EngineState Engine.

(** Marks a map and key whose facts are already in the context. *)
Definition learnt {A B : Type} (_ : A) (_ : B) : Prop := True.

(** Case analysis on lookups of updated maps. *)
Ltac lookups :=
  repeat match goal with
  | H : <[?i := _]> _ !! ?j = Some _ |- _ => apply lookup_insert_Some in H as [[? ?]|[? ?]]
  | H : delete ?i _ !! ?j = Some _ |- _ => apply lookup_delete_Some in H as [? ?]
  | H : alter _ ?i _ !! ?j = Some _ |- _ =>
      destruct (decide (i = j)); [subst; rewrite lookup_alter_eq in H; apply fmap_Some in H as (? & ? & ?)
                                 |rewrite lookup_alter_ne in H by done]
  end; subst; simplify_eq/=.

(** The three conjuncts of [homes_ok] after an update, with the old ones at
    hand. *)
Ltac homes :=
  intros (Hh1 & Hh2 & Hh3); (split; [|split]);
  [intros x rx Hx; lookups; (split_and!; [|intros px Hpx; lookups|intros mx Hmx])
  |intros x px Hpx; lookups; (split; [|intros mx Hmx])
  |intros x mx Hmx; lookups];
  repeat match goal with
  | |- <[_ := _]> _ !! _ = None => apply lookup_insert_None; split
  | |- delete ?i _ !! ?i = None => apply lookup_delete_eq
  | |- delete _ _ !! _ = None => apply lookup_delete_None; right
  | |- alter _ _ _ !! _ = None => apply lookup_alter_None
  end.
Ltac homes_learn :=
  repeat match goal with
  | Hh : (forall k r, ?m !! k = Some r -> _ /\ _), H : ?m !! ?x = Some ?r |- _ =>
      let E := fresh in pose proof (Hh x r H) as E;
      lazymatch goal with
      | F : learnt m x |- _ => fail
      | _ => assert (learnt m x) by exact I
      end; destruct_and? E
  | Hh : (forall p, ?m !! ?x = Some p -> meta p = None), H : ?m !! ?x = Some ?r |- _ =>
      pose proof (Hh r H); clear Hh
  end.
Ltac homes_auto :=
  homes; homes_learn; simplify_eq/=;
  repeat match goal with
  | H : _ <$> _ = Some _ |- _ => apply fmap_Some in H as (? & ? & ?); subst
  end; try first [done | congruence | by eauto].

Section engine_inv.
Context {Ord : Type} {RO : RecencyOrder Ord} {ENV : Env} {ZS : Zstd}.
Implicit Types (s : Cache Ord) (k : CacheKey) (v : bytes).

(** ** The invariant *)

(** The values a tier holds. *)
Definition memv s : gmap CacheKey bytes := value <$> memory s.
Definition pmemv s : gmap CacheKey bytes := value <$> pmem s.

(** An order lists exactly the keys of a map, and a counter is the total of
    its sizes. *)
Definition tracks {A} (size_of : A -> Z) (m : gmap CacheKey A) (o : Ord) (n : Z) : Prop :=
  ord_wf o /\ (forall k, k ∈ ord_ins o <-> is_Some (m !! k)) /\ n = map_sum size_of m /\
  (forall k a, m !! k = Some a -> 0 <= size_of a).

(** Each entry's metadata has one home: memory's copy when memory holds the
    entry, the persistent tier's when only that does, the side map otherwise. *)
Definition homes_ok (mem pm : gmap CacheKey Resident) (mm : gmap CacheKey CacheEntryMeta) : Prop :=
  (forall k r, mem !! k = Some r ->
     mm !! k = None /\ (forall p, pm !! k = Some p -> meta p = None) /\
     (forall m, meta r = Some m -> 0 <= hits m)) /\
  (forall k p, pm !! k = Some p -> mm !! k = None /\ forall m, meta p = Some m -> 0 <= hits m) /\
  (forall k m, mm !! k = Some m -> 0 <= hits m).

(** Every indexed block is in the store with its recorded length, and no block
    is empty. *)
Definition store_ok (c : Config) (idx : gmap CacheKey Z) (store : gmap CacheKey bytes) : Prop :=
  forall k n, idx !! k = Some n ->
  0 < n /\ (ssd_store_enabled c = true -> exists block, store !! k = Some block /\ blen block = n).

Definition cfg_ok (c : Config) : Prop :=
  0 <= memory_capacity_bytes c /\ 0 <= pmem_capacity_bytes c /\ 0 <= ssd_capacity_bytes c < u64_max.

Definition inv s : Prop :=
  cfg_ok (cfg s) /\
  tracks blen (memv s) (memory_order s) (memory_bytes s) /\
  tracks blen (pmemv s) (pmem_order s) (pmem_bytes s) /\
  tracks (fun n => n) (disk_index s) (disk_order s) (ssd_bytes s) /\
  homes_ok (memory s) (pmem s) (metadata_map s) /\
  store_ok (cfg s) (disk_index s) (ssd_store s).

(** ** What a state holds *)

Definition copies s k : option bytes * option bytes * option Z * option bytes :=
  (memv s !! k, pmemv s !! k, disk_index s !! k, ssd_store s !! k).

(** Some tier would serve [v] for [k]. *)
Definition holds s k v : Prop :=
  memv s !! k = Some v \/ pmemv s !! k = Some v \/
  exists block, ssd_store s !! k = Some block /\ decode_cache_block block = Ok v.

(** The bytes of the resident tiers, and what no allocation can exceed. *)
Definition total s : Z := memory_bytes s + pmem_bytes s.
Definition isize_max : Z := 2 ^ 63 - 1.

Record rel (W : CacheKey -> bytes -> Prop) (n : Z) s s' : Prop := {
  r_inv : inv s';
  r_total : total s' <= total s + n;
  r_cfg : cfg s' = cfg s;
  r_pin : forall k, is_pinned s' k = is_pinned s k;
  r_holds : forall k v, holds s' k v -> holds s k v \/ W k v;
  r_kept : forall k, is_pinned s k = true -> (forall v, ~ W k v) -> copies s' k = copies s k
}.

Lemma rel_refl W s : inv s -> rel W 0 s s.
Proof. intros H. split; auto. lia. Qed.

Lemma rel_trans W n1 n2 s1 s2 s3 : rel W n1 s1 s2 -> rel W n2 s2 s3 -> rel W (n1 + n2) s1 s3.
Proof.
  intros R1 R2. split.
  - apply R2.
  - pose proof (r_total _ _ _ _ R1). pose proof (r_total _ _ _ _ R2). lia.
  - by rewrite (r_cfg _ _ _ _ R2), (r_cfg _ _ _ _ R1).
  - intros k. by rewrite (r_pin _ _ _ _ R2), (r_pin _ _ _ _ R1).
  - intros k v [H|H]%(r_holds _ _ _ _ R2); [|by right]. by apply (r_holds _ _ _ _ R1).
  - intros k Hp Hw. rewrite (r_kept _ _ _ _ R2); [by apply (r_kept _ _ _ _ R1)| |done].
    by rewrite (r_pin _ _ _ _ R1).
Qed.

Lemma rel_weaken W n m s s' : n <= m -> rel W n s s' -> rel W m s s'.
Proof. intros Hle [? ? ? ? ? ?]. split; auto. lia. Qed.

Lemma rel_mono (W W' : CacheKey -> bytes -> Prop) n s s' :
  (forall k v, W k v -> W' k v) -> rel W n s s' -> rel W' n s s'.
Proof.
  intros HW [? ? ? ? Hh Hk]. split; auto.
  - intros k v [?|?]%Hh; auto.
  - intros k Hp Hn. apply Hk; [done|]. intros v ?%HW. by apply (Hn v).
Qed.

(** ** Tracking *)

Section tracks.
Context {A : Type} (f : A -> Z).
Implicit Types (m : gmap CacheKey A).

Lemma tracks_new m o n k a :
  tracks f m o n -> m !! k = None -> 0 <= f a -> tracks f (<[k := a]> m) (ord_insert k o) (n + f a).
Proof.
  intros (Hw & Hl & -> & Hp) Hk Ha. destruct (ord_insert_spec k o Hw) as (Hw' & _ & Hn).
  destruct Hn as [Hi _]; [rewrite Hl, Hk; by intros [? ?]|].
  split_and!; [done| | |].
  - intros x. rewrite Hi, elem_of_app, list_elem_of_singleton, Hl.
    destruct (decide (x = k)) as [->|]; [rewrite lookup_insert_eq; naive_solver|].
    rewrite lookup_insert_ne by done. naive_solver.
  - rewrite map_sum_insert_new by done. lia.
  - intros x b [[<- <-]|[? ?]]%lookup_insert_Some; eauto.
Qed.

Lemma tracks_replace m o n k a b :
  tracks f m o n -> m !! k = Some b -> 0 <= f a -> tracks f (<[k := a]> m) o (n - f b + f a).
Proof.
  intros (Hw & Hl & -> & Hp) Hk Ha. split_and!; [done| | |].
  - intros x. rewrite Hl. destruct (decide (x = k)) as [->|]; [rewrite lookup_insert_eq, Hk; naive_solver|].
    by rewrite lookup_insert_ne.
  - rewrite (map_sum_insert f m k a b) by done. lia.
  - intros x c [[<- <-]|[? ?]]%lookup_insert_Some; eauto.
Qed.

Lemma tracks_insert_present m o n k :
  tracks f m o n -> is_Some (m !! k) -> ord_insert k o = o.
Proof. intros (Hw & Hl & _) Hk. by apply (ord_insert_spec k o Hw), Hl. Qed.

Lemma tracks_touch m o n k : tracks f m o n -> tracks f m (ord_touch k o) n.
Proof.
  intros (Hw & Hl & ? & ?). destruct (ord_touch_spec k o Hw) as (? & Hi & _).
  split_and!; auto. intros x. by rewrite Hi.
Qed.

Lemma tracks_remove m o n k a :
  tracks f m o n -> m !! k = Some a -> tracks f (delete k m) (ord_remove k o) (n - f a).
Proof.
  intros (Hw & Hl & -> & Hp) Hk. destruct (ord_remove_spec k o Hw) as (? & Hi & _).
  split_and!; [done| | |].
  - intros x. rewrite Hi, list_elem_of_filter, Hl. destruct (decide (x = k)) as [->|].
    + rewrite lookup_delete_eq. split; [tauto|by intros [? ?]].
    + rewrite lookup_delete_ne by done. tauto.
  - rewrite (map_sum_delete f m k a Hk). lia.
  - intros x b [_ ?]%lookup_delete_Some; eauto.
Qed.

Lemma tracks_remove_absent m o n k :
  tracks f m o n -> m !! k = None -> tracks f m (ord_remove k o) n.
Proof.
  intros (Hw & Hl & ? & ?) Hk. destruct (ord_remove_spec k o Hw) as (? & Hi & _).
  split_and!; auto. intros x. rewrite Hi, list_elem_of_filter, Hl. split; [tauto|].
  intros [? Hx]. split; [|eauto]. intros ->. congruence.
Qed.

Lemma tracks_lookup_le m o n k a : tracks f m o n -> m !! k = Some a -> 0 <= f a <= n.
Proof.
  intros (Hw & Hl & -> & Hp) Hk. split; [eauto|]. rewrite (map_sum_delete f m k a Hk).
  enough (forall m', (forall k b, m' !! k = Some b -> 0 <= f b) -> 0 <= map_sum f m') as Hn.
  { pose proof (Hn (delete k m)). apply Z.le_trans with (f a + 0); [lia|].
    apply Z.add_le_mono_l, Hn. intros x b [_ ?]%lookup_delete_Some; eauto. }
  clear. intros m'. induction m' as [|k a m Hk IH] using map_ind; intros Hp.
  - by rewrite map_sum_empty.
  - rewrite map_sum_insert_new by done. pose proof (Hp k a (lookup_insert_eq m k a)).
    enough (0 <= map_sum f m) by lia. apply IH. intros x b Hx. apply (Hp x).
    rewrite lookup_insert_ne; [done|]. intros ->. congruence.
Qed.

Lemma tracks_nonneg m o n : tracks f m o n -> 0 <= n.
Proof.
  intros H. destruct (decide (m = ∅)) as [->|Hne].
  - destruct H as (_ & _ & -> & _). by rewrite map_sum_empty.
  - apply map_choose in Hne as (k & a & Hk). pose proof (tracks_lookup_le _ _ _ _ _ H Hk). lia.
Qed.
End tracks.

(** ** Operations on residency and metadata *)

Definition retier (mem pm : gmap CacheKey Resident) (mm : gmap CacheKey CacheEntryMeta)
    (e : gmap CacheKey Z) (a : Aux) s : Cache Ord :=
  mkCache (cfg s) mem pm mm e (disk_index s) (ssd_store s) (memory_order s) (pmem_order s)
    (disk_order s) (memory_bytes s) (pmem_bytes s) (ssd_bytes s) (pins s) (pin_handles s) a.

(** The resident tiers now hold [X] and [Y]; nothing else but metadata,
    expiries and bookkeeping moved. *)
Definition retiered (X Y : gmap CacheKey bytes) s s' : Prop :=
  exists mem pm mm e a, s' = retier mem pm mm e a s /\ value <$> mem = X /\ value <$> pm = Y /\
    (homes_ok (memory s) (pmem s) (metadata_map s) -> homes_ok mem pm mm).

Definition meta_only s s' : Prop := retiered (memv s) (pmemv s) s s'.

Lemma meta_only_refl s : meta_only s s.
Proof. destruct s. eexists _, _, _, _, _. split_and!; [reflexivity..|done]. Qed.

Lemma retiered_trans X Y s1 s2 s3 : meta_only s1 s2 -> retiered X Y s2 s3 -> retiered X Y s1 s3.
Proof.
  intros (m1 & p1 & mm1 & e1 & a1 & -> & Em & Ep & Hh) (m2 & p2 & mm2 & e2 & a2 & -> & <- & <- & Hh2).
  eexists m2, p2, mm2, e2, a2. split_and!; auto.
Qed.

Lemma meta_only_trans s1 s2 s3 : meta_only s1 s2 -> meta_only s2 s3 -> meta_only s1 s3.
Proof.
  intros H1 H2. apply (retiered_trans _ _ _ s2 _ H1).
  destruct H1 as (m1 & p1 & mm1 & e1 & a1 & -> & Em & Ep & Hh). unfold meta_only, memv, pmemv in *.
  cbn in H2. by rewrite Em, Ep in H2.
Qed.

Lemma retiered_meta X Y s1 s2 s3 : retiered X Y s1 s2 -> meta_only s2 s3 -> retiered X Y s1 s3.
Proof.
  intros (m1 & p1 & mm1 & e1 & a1 & -> & <- & <- & Hh) (m2 & p2 & mm2 & e2 & a2 & -> & E1 & E2 & Hh2).
  eexists m2, p2, mm2, e2, a2. split_and!; auto.
Qed.

Lemma meta_only_upd f s : meta_only s (upd_aux f s).
Proof. destruct s. eexists _, _, _, _, _. split_and!; [reflexivity..|done]. Qed.

Lemma meta_only_expiries e s : meta_only s (set_expiries e s).
Proof. destruct s. eexists _, _, _, _, _. split_and!; [reflexivity..|done]. Qed.

Lemma meta_only_if (b : bool) s s1 s2 : meta_only s s1 -> meta_only s s2 -> meta_only s (if b then s1 else s2).
Proof. by destruct b. Qed.

Lemma meta_only_stat name n s s' : meta_only s s' -> meta_only s (add_stat name n s').
Proof. intros H. eapply meta_only_trans; [exact H|apply meta_only_upd]. Qed.
Lemma meta_only_put_stat name n s s' : meta_only s s' -> meta_only s (put_stat name n s').
Proof. intros H. eapply meta_only_trans; [exact H|apply meta_only_upd]. Qed.
Lemma meta_only_upd_r f s s' : meta_only s s' -> meta_only s (upd_aux f s').
Proof. intros H. eapply meta_only_trans; [exact H|apply meta_only_upd]. Qed.
Lemma meta_only_tick s s' : meta_only s s' -> meta_only s (next_tick s').
Proof. apply meta_only_upd_r. Qed.

Lemma meta_only_note k s s' : meta_only s s' -> meta_only s (note_ssd_probe_mutation k s').
Proof. intros H. unfold note_ssd_probe_mutation. case_match; by apply meta_only_upd_r. Qed.

Lemma homes_metadata s k m :
  homes_ok (memory s) (pmem s) (metadata_map s) -> metadata_of s k = Some m -> 0 <= hits m.
Proof.
  intros (H1 & H2 & H3). unfold metadata_of.
  destruct (memory s !! k) eqn:E1; [by apply (H1 _ _ E1)|].
  destruct (pmem s !! k) eqn:E2; [by apply (H2 _ _ E2)|]. apply H3.
Qed.

Lemma value_insert (m : gmap CacheKey Resident) k r v x :
  m !! k = Some r -> value r = v -> value <$> <[k := mkResident v x]> m = value <$> m.
Proof.
  intros Hk Hr. rewrite fmap_insert. cbn. apply insert_id. by rewrite lookup_fmap, Hk, <- Hr.
Qed.

Lemma value_drop_meta (m : gmap CacheKey Resident) k : value <$> alter drop_meta k m = value <$> m.
Proof.
  apply map_eq. intros x. rewrite !lookup_fmap. destruct (decide (x = k)) as [->|].
  - rewrite lookup_alter_eq. by destruct (m !! k).
  - by rewrite lookup_alter_ne.
Qed.

Lemma retiered_intro X Y s mem pm mm e a :
  value <$> mem = X -> value <$> pm = Y ->
  (homes_ok (memory s) (pmem s) (metadata_map s) -> homes_ok mem pm mm) ->
  retiered X Y s (retier mem pm mm e a s).
Proof. intros. by eexists _, _, _, _, _. Qed.
End engine_inv.

(** ** Residency and metadata

    What each operation on residency and on metadata does to the values the
    resident tiers hold, and that metadata keeps its one home. *)

Create HintDb meta_only.
#[export] Hint Resolve meta_only_refl meta_only_stat meta_only_put_stat meta_only_upd_r meta_only_tick
  meta_only_note meta_only_if : meta_only.

Ltac by_retier :=
  unfold set_memory, set_pmem, set_metadata_map;
  cbn [cfg memory pmem metadata_map expiries disk_index ssd_store memory_order pmem_order disk_order
       memory_bytes pmem_bytes ssd_bytes pins pin_handles aux];
  eapply retiered_intro.

Section residency.
Context {Ord : Type} {RO : RecencyOrder Ord} {ENV : Env} {ZS : Zstd}.
Implicit Types (s : Cache Ord) (k : CacheKey) (v : bytes).

Lemma update_metadata_spec f k s :
  (forall m, 0 <= hits m -> 0 <= hits (f m)) -> meta_only s (update_metadata k f s).
Proof.
  intros Hf. unfold update_metadata. destruct (memory s !! k) as [r|] eqn:E1;
    [|destruct (pmem s !! k) as [r|] eqn:E2]; by_retier; try done.
  - by eapply value_insert.
  - homes_auto.
  - by eapply value_insert.
  - homes_auto.
  - homes_auto.
Qed.

Lemma set_metadata_spec m k s : 0 <= hits m -> meta_only s (set_metadata k m s).
Proof.
  intros Hf. unfold set_metadata. destruct (memory s !! k) as [r|] eqn:E1;
    [|destruct (pmem s !! k) as [r|] eqn:E2]; by_retier; try done.
  - by eapply value_insert.
  - homes_auto.
  - by eapply value_insert.
  - homes_auto.
  - homes_auto.
Qed.

Lemma forget_metadata_spec k s : meta_only s (forget_metadata_of k s).
Proof.
  unfold forget_metadata_of. by_retier; [apply value_drop_meta..|].
  homes_auto.
Qed.

Lemma make_resident_spec k v s :
  (make_resident k v s).1 = memv s !! k /\
  retiered (<[k := v]> (memv s)) (pmemv s) s (make_resident k v s).2.
Proof.
  unfold make_resident. set (s1 := note_ssd_probe_mutation k s).
  assert (meta_only s s1) as Hm by (apply meta_only_note, meta_only_refl).
  assert (memory s1 = memory s /\ pmem s1 = pmem s /\ metadata_map s1 = metadata_map s) as (E1 & E2 & E3).
  { unfold s1, note_ssd_probe_mutation. by case_match. }
  clearbody s1. unfold memv. rewrite lookup_fmap, <- E1.
  destruct (memory s1 !! k) as [r|] eqn:Er; cbn.
  { split; [done|]. apply (retiered_trans _ _ _ s1 _ Hm). by_retier.
    - by rewrite fmap_insert.
    - unfold pmemv. by rewrite E2.
    - homes_auto. }
  destruct (pmem s1 !! k) as [p|] eqn:Ep; [destruct (meta p) as [m|] eqn:Em|]; cbn;
    (split; [done|]; apply (retiered_trans _ _ _ s1 _ Hm); by_retier;
     [by rewrite fmap_insert|unfold pmemv; by rewrite value_drop_meta, E2|]).
  - homes_auto.
  - homes_auto.
  - homes_auto.
Qed.

Lemma take_resident_spec k s :
  (take_resident k s).1 = memv s !! k /\
  retiered (delete k (memv s)) (pmemv s) s (take_resident k s).2.
Proof.
  unfold take_resident. set (s1 := note_ssd_probe_mutation k s).
  assert (meta_only s s1) as Hm by (apply meta_only_note, meta_only_refl).
  assert (memory s1 = memory s /\ pmem s1 = pmem s /\ metadata_map s1 = metadata_map s) as (E1 & E2 & E3).
  { unfold s1, note_ssd_probe_mutation. by case_match. }
  clearbody s1. unfold memv. rewrite lookup_fmap, <- E1.
  destruct (memory s1 !! k) as [r|] eqn:Er; cbn.
  2: { split; [done|]. rewrite delete_id by by rewrite lookup_fmap, Er. rewrite E1. exact Hm. }
  split; [done|]. apply (retiered_trans _ _ _ s1 _ Hm).
  destruct (meta r) as [m|] eqn:Em; [destruct (pmem s1 !! k) as [p|] eqn:Ep|]; by_retier;
    try (by rewrite fmap_delete); unfold pmemv; rewrite <- ?E2; try done; cbn.
  - by eapply value_insert.
  - homes_auto.
  - homes_auto.
  - homes_auto.
Qed.

Lemma make_pmem_resident_spec k v s :
  (make_pmem_resident k v s).1 = pmemv s !! k /\
  retiered (memv s) (<[k := v]> (pmemv s)) s (make_pmem_resident k v s).2.
Proof.
  unfold make_pmem_resident, pmemv. rewrite lookup_fmap.
  destruct (pmem s !! k) as [r|] eqn:Er; [|destruct (memory s !! k) as [p|] eqn:Ep]; cbn;
    (split; [done|]; by_retier; [done|by rewrite fmap_insert|cbn]).
  - homes_auto.
  - homes_auto.
  - homes_auto.
Qed.

Lemma take_pmem_resident_spec k s :
  (take_pmem_resident k s).1 = pmemv s !! k /\
  retiered (memv s) (delete k (pmemv s)) s (take_pmem_resident k s).2.
Proof.
  unfold take_pmem_resident, pmemv. rewrite lookup_fmap.
  destruct (pmem s !! k) as [r|] eqn:Er; cbn.
  2: { split; [done|]. rewrite delete_id by by rewrite lookup_fmap, Er. apply meta_only_refl. }
  split; [done|].
  destruct (meta r) as [m|] eqn:Em; [destruct (memory s !! k) as [p|] eqn:Ep|]; by_retier;
    try (by rewrite fmap_delete); try done; cbn.
  - by eapply value_insert.
  - homes_auto.
  - homes_auto.
  - homes_auto.
Qed.

(** ** Operations that touch metadata and bookkeeping only *)

Lemma meta_only_max_stat name n s s' : meta_only s s' -> meta_only s (max_stat name n s').
Proof. apply meta_only_upd_r. Qed.

Lemma forget_expiry_spec k s s' : meta_only s s' -> meta_only s (forget_expiry k s').
Proof.
  intros H. unfold forget_expiry. case_match; [|done].
  eapply meta_only_trans; [exact H|apply meta_only_expiries].
Qed.

Lemma set_entry_expiry_spec k ttl now s s' : meta_only s s' -> meta_only s (set_entry_expiry k ttl now s').
Proof.
  intros H. unfold set_entry_expiry. case_match; [by apply forget_expiry_spec|].
  eapply meta_only_trans; [exact H|apply meta_only_expiries].
Qed.

Lemma forget_unless_spec k s s' : meta_only s s' -> meta_only s (forget_metadata_unless_resident k s').
Proof.
  intros H. unfold forget_metadata_unless_resident. case_match; [|done].
  apply forget_expiry_spec. eapply meta_only_trans; [exact H|apply forget_metadata_spec].
Qed.

Lemma record_metadata_spec k kind slot n hot why s s' :
  meta_only s s' -> meta_only s (record_metadata k kind slot n hot why s').
Proof.
  intros H. eapply meta_only_trans; [exact H|]. unfold record_metadata, coarse. cbn zeta iota beta.
  eapply meta_only_trans; [apply meta_only_tick, meta_only_refl|]. case_match.
  - apply set_entry_expiry_spec, update_metadata_spec. by intros [].
  - by apply set_metadata_spec.
Qed.

Lemma record_eviction_spec t k v cause s s' :
  meta_only s s' -> meta_only s (record_eviction_with_value t k v cause s').
Proof. intros H. by apply meta_only_upd_r. Qed.

Lemma record_latency_spec t s s' : meta_only s s' -> meta_only s (record_eviction_latency t s').
Proof. intros H. unfold record_eviction_latency, instant. cbn zeta iota beta. auto 10 using meta_only_max_stat with meta_only. Qed.

Lemma record_reason_spec p why s s' : meta_only s s' -> meta_only s (record_eviction_reason p why s').
Proof. intros H. unfold record_eviction_reason. repeat case_match; auto with meta_only. Qed.

Lemma read_ssd_block_spec k s s' : meta_only s s' -> meta_only s (read_ssd_block k s').2.
Proof. intros H. unfold read_ssd_block, device. repeat case_match; simplify_eq/=; auto with meta_only. Qed.

Lemma charge_spec n s s' : meta_only s s' -> meta_only s (charge_ssd_write n s').
Proof.
  intros H. unfold charge_ssd_write, refresh_ssd_write_budget_stats, instant. cbn zeta iota beta.
  auto 10 with meta_only.
Qed.

Lemma budget_admits_spec k s s' : meta_only s s' -> meta_only s (ssd_write_budget_admits k s').2.
Proof.
  intros H. unfold ssd_write_budget_admits, refresh_ssd_write_budget_stats, instant. cbn zeta iota beta.
  destruct (admits _ _ _) as [[] b]; cbn zeta iota beta; cbn [snd]; auto 15 with meta_only.
Qed.

Lemma read_for_eviction_spec k s s' : meta_only s s' -> meta_only s (read_ssd_value_for_eviction k s').2.
Proof.
  intros H. unfold read_ssd_value_for_eviction. case_match; [done|].
  pose proof (read_ssd_block_spec k s s' H). by destruct (read_ssd_block k s').
Qed.

Lemma persist_put_spec k v s s' : meta_only s s' -> meta_only s (persist_pmem_put k v s').2.
Proof. intros H. unfold persist_pmem_put, device. repeat case_match; simplify_eq/=; auto with meta_only. Qed.

Lemma persist_delete_spec k s s' : meta_only s s' -> meta_only s (persist_pmem_delete k s').2.
Proof. intros H. unfold persist_pmem_delete, device. repeat case_match; simplify_eq/=; auto with meta_only. Qed.

Lemma worthwhile_spec k s s' : meta_only s s' -> meta_only s (demotion_is_worthwhile k s').2.
Proof. intros H. unfold demotion_is_worthwhile, coarse. repeat case_match; simplify_eq/=; auto with meta_only. Qed.

Lemma resketch_spec s s' : meta_only s s' -> meta_only s (size_the_sketch_for_what_is_resident s').
Proof.
  intros H. unfold size_the_sketch_for_what_is_resident. repeat case_match; cbn zeta; auto with meta_only.
Qed.

Lemma colder_spec k request n s s' :
  meta_only s s' -> meta_only s (incoming_ssd_block_is_colder_than_existing_groups k request n s').2.
Proof.
  intros H. unfold incoming_ssd_block_is_colder_than_existing_groups, record_ssd_frequency, coarse.
  case_match; [done|]. cbn zeta iota beta. cbn [snd]. repeat case_match; auto with meta_only.
Qed.

(** ** From [meta_only] to [rel] *)

Lemma meta_only_is_pinned X Y s s' k : retiered X Y s s' -> is_pinned s' k = is_pinned s k.
Proof. by intros (? & ? & ? & ? & ? & -> & _). Qed.

Lemma inv_retier s mem pm mm e a :
  inv s -> value <$> mem = memv s -> value <$> pm = pmemv s -> homes_ok mem pm mm ->
  inv (retier mem pm mm e a s).
Proof.
  intros (H1 & H2 & H3 & H4 & H5 & H6) E1 E2 H. unfold inv, memv, pmemv, retier. cbn. rewrite E1, E2.
  by split_and!.
Qed.

Lemma rel_meta W s s' : inv s -> meta_only s s' -> rel W 0 s s'.
Proof.
  intros Hi (mem & pm & mm & e & a & -> & E1 & E2 & Hh).
  assert (forall k, copies (retier mem pm mm e a s) k = copies s k) as Hc.
  { intros k. unfold copies, memv, pmemv in *. cbn. by rewrite E1, E2. }
  split; try done.
  - apply inv_retier; try done. by apply Hh, Hi.
  - unfold total. cbn. lia.
  - intros k v Hv. left. unfold holds, memv, pmemv in *. cbn in Hv. by rewrite E1, E2 in Hv.
Qed.

Lemma rel_meta_l W n s1 s2 s3 : inv s1 -> meta_only s1 s2 -> (inv s2 -> rel W n s2 s3) -> rel W n s1 s3.
Proof.
  intros Hi Hm Hr. pose proof (rel_meta W _ _ Hi Hm) as R.
  apply (rel_weaken _ (0 + n)); [lia|]. eapply rel_trans; [exact R|]. apply Hr, R.
Qed.

Lemma rel_meta_r W n s1 s2 s3 : rel W n s1 s2 -> meta_only s2 s3 -> rel W n s1 s3.
Proof.
  intros R Hm. apply (rel_weaken _ (n + 0)); [lia|]. eapply rel_trans; [exact R|].
  apply rel_meta; [apply R|done].
Qed.

Lemma meta_only_total X Y s s' : retiered X Y s s' -> total s' = total s.
Proof. by intros (? & ? & ? & ? & ? & -> & _). Qed.
End residency.
#[export] Hint Resolve meta_only_max_stat forget_expiry_spec set_entry_expiry_spec forget_unless_spec
  record_metadata_spec record_eviction_spec record_latency_spec record_reason_spec read_ssd_block_spec
  charge_spec budget_admits_spec read_for_eviction_spec persist_put_spec persist_delete_spec
  worthwhile_spec resketch_spec colder_spec : meta_only.
