(* ===== verification/EngineEvict.v ===== *)
(** * The cache engine: eviction

    Victim selection against the engine's state, the three eviction loops,
    demotion, and placing a value in a tier: each stands in [rel] with the
    state it started from. *)

From S2P Require Import Prelude Types Ordering EntryMeta Victim VictimFacts VictimSpec BlockCodec WriteBudget.
From S2P Require Import FrequencySketch KeyOrder KeyOrderSpec EngineState Engine EngineInv.

Section evict.
Context {Ord : Type} {RO : RecencyOrder Ord} {ENV : Env} {ZS : Zstd}.
Implicit Types (s : Cache Ord) (k : CacheKey) (v : bytes).

(** ** Victims *)

Definition victim_ok (listed : CacheKey -> Prop) s (p : option (CacheKey * EvictionReason * Z)) : Prop :=
  match p with
  | Some (victim, _, _) => listed victim /\ is_pinned s victim = false
  | None => forall k, listed k -> is_pinned s k = true
  end.

Lemma victim_ok_iff (l1 l2 : CacheKey -> Prop) s p :
  (forall k, l1 k <-> l2 k) -> victim_ok l1 s p -> victim_ok l2 s p.
Proof. intros H. unfold victim_ok. destruct p as [[[v r] n]|]; [by rewrite H|]. intros Hp k ?%H. auto. Qed.

Lemma windowed_victim_ok order segmented candidates frequency s :
  homes_ok (memory s) (pmem s) (metadata_map s) -> ord_wf order ->
  let '(p, s') := windowed_victim order segmented candidates frequency s in
  meta_only s s' /\ victim_ok (fun k => k ∈ ord_ins order) s (picked_victim p).
Proof.
  intros Hh Hw. unfold windowed_victim, coarse.
  set (b := ttl_in_use (cfg s)). assert (meta_only s (next_tick s)) by auto with meta_only.
  assert (forall s1 now, meta_only s s1 ->
    victim_ok (fun k => k ∈ ord_ins order) s
      (picked_victim (select_windowed_eviction_victim (is_pinned s1) (metadata_of s1) (ssd_estimate s1)
         (ttl_in_use (cfg s1)) (fun k => entry_expired s1 k now) (cold_eviction_share_pct (cfg s1))
         (ord_acc order) segmented candidates frequency))) as Hv.
  { intros s1 now Hm. assert (homes_ok (memory s1) (pmem s1) (metadata_map s1)) as Hh1.
    { destruct Hm as (?&?&?&?&?&->&_&_&Hx). by apply Hx. }
    eapply victim_ok_iff with (l1 := fun k => k ∈ ord_acc order); [intros k; by rewrite (ord_perm order Hw)|].
    pose proof (windowed_spec (is_pinned s1) (metadata_of s1) (ssd_estimate s1)
      (fun k m => homes_metadata s1 k m Hh1) (ttl_in_use (cfg s1)) (fun k => entry_expired s1 k now)
      (cold_eviction_share_pct (cfg s1)) (ord_acc order) segmented candidates frequency) as Hs.
    unfold victim_ok. destruct (picked_victim _) as [[[x r] c]|].
    - by rewrite <- (meta_only_is_pinned _ _ _ _ x Hm).
    - intros k Hk. rewrite <- (meta_only_is_pinned _ _ _ _ k Hm). by apply Hs. }
  destruct b; (split; [auto with meta_only|]); apply Hv; auto with meta_only.
Qed.

Lemma fifo_victim_ok order s : victim_ok (fun k => k ∈ order) s (select_fifo_eviction_victim (is_pinned s) order).
Proof.
  pose proof (fifo_spec (is_pinned s) order) as H. unfold victim_ok.
  destruct (select_fifo_eviction_victim _ _) as [[[v r] n]|]; [|done].
  destruct H as (l1 & l2 & -> & ? & _). split; [|done]. apply elem_of_app; right; left.
Qed.

Lemma select_ssd_ok s :
  inv s -> let '(p, s') := select_ssd_eviction_victim s in
  meta_only s s' /\ victim_ok (fun k => is_Some (disk_index s !! k)) s p.
Proof.
  intros (_ & _ & _ & (Hw & Hl & _) & Hh & _). unfold select_ssd_eviction_victim.
  destruct (ssd_replacement_policy (cfg s)).
  - split; [apply meta_only_refl|]. apply (victim_ok_iff _ _ _ _ Hl). apply fifo_victim_ok.
  - pose proof (windowed_victim_ok (disk_order s) true EVICTION_CANDIDATE_WINDOW
      (bool_decide (is_Some (ssd_access_frequency (aux s)))) s Hh Hw) as H.
    cbn in *. destruct (windowed_victim _ _ _ _ _) as [p s'], H as [H1 H2].
    split; [by apply meta_only_stat|]. by apply (victim_ok_iff _ _ _ _ Hl).
  - pose proof (windowed_victim_ok (disk_order s) false EVICTION_CANDIDATE_WINDOW
      (bool_decide (is_Some (ssd_access_frequency (aux s)))) s Hh Hw) as H.
    cbn in *. destruct (windowed_victim _ _ _ _ _) as [p s'], H as [H1 H2].
    split; [by apply meta_only_stat|]. by apply (victim_ok_iff _ _ _ _ Hl).
Qed.

Lemma select_pmem_ok s :
  inv s -> let '(p, s') := select_pmem_eviction_victim s in
  meta_only s s' /\ victim_ok (fun k => is_Some (pmemv s !! k)) s p.
Proof.
  intros (_ & _ & (Hw & Hl & _) & _ & Hh & _). unfold select_pmem_eviction_victim.
  destruct (pmem_replacement_policy (cfg s)).
  - split; [apply meta_only_refl|]. apply (victim_ok_iff _ _ _ _ Hl). apply fifo_victim_ok.
  - pose proof (windowed_victim_ok (pmem_order s) true EVICTION_CANDIDATE_WINDOW false s Hh Hw) as H.
    cbn in *. destruct (windowed_victim _ _ _ _ _) as [p s'], H as [H1 H2].
    split; [by apply meta_only_stat|]. by apply (victim_ok_iff _ _ _ _ Hl).
  - pose proof (windowed_victim_ok (pmem_order s) false EVICTION_CANDIDATE_WINDOW false s Hh Hw) as H.
    cbn in *. destruct (windowed_victim _ _ _ _ _) as [p s'], H as [H1 H2].
    split; [by apply meta_only_stat|]. by apply (victim_ok_iff _ _ _ _ Hl).
Qed.

(** Moving keys in the memory order keeps everything [rel] speaks of. *)
Lemma rel_memory_touch W k s : inv s -> rel W 0 s (set_memory_order (ord_touch k (memory_order s)) s).
Proof.
  intros (H1 & H2 & H3 & H4 & H5 & H6). split; try done.
  - split_and!; try done. by apply tracks_touch.
  - unfold total. cbn. lia.
  - intros x v Hv. by left.
Qed.

Lemma rel_promotions W keys s : inv s -> rel W 0 s (apply_cold_tail_promotions keys s).
Proof.
  unfold apply_cold_tail_promotions. revert s. induction keys as [|k keys IH]; intros s Hi; cbn.
  - by apply rel_refl.
  - pose proof (rel_memory_touch W k s Hi) as R. apply (rel_weaken _ (0 + 0)); [lia|].
    eapply rel_trans; [exact R|]. apply IH, R.
Qed.

Lemma promotions_memory keys s :
  memory (apply_cold_tail_promotions keys s) = memory s /\
  memory_bytes (apply_cold_tail_promotions keys s) = memory_bytes s /\
  pmem (apply_cold_tail_promotions keys s) = pmem s.
Proof. unfold apply_cold_tail_promotions. revert s. induction keys as [|k keys IH]; intros s; cbn; [done|].
  exact (IH (set_memory_order (ord_touch k (memory_order s)) s)).
Qed.

Lemma select_memory_ok W s :
  inv s -> let '(p, s') := select_memory_eviction_victim s in
  rel W 0 s s' /\ memv s' = memv s /\ memory_bytes s' = memory_bytes s /\ pmemv s' = pmemv s /\
  victim_ok (fun k => is_Some (memv s !! k)) s p.
Proof.
  intros Hi. pose proof Hi as (_ & (Hw & Hl & _) & _ & _ & Hh & _). unfold select_memory_eviction_victim.
  assert (forall b n, let '(p, s') := windowed_victim (memory_order s) b n false s in
    let s'' := apply_cold_tail_promotions (promote p) (record_sampled_groups (groups_weighed p) s') in
    rel W 0 s s'' /\ memv s'' = memv s /\ memory_bytes s'' = memory_bytes s /\ pmemv s'' = pmemv s /\
    victim_ok (fun k => is_Some (memv s !! k)) s (picked_victim p)) as Hx.
  { intros b n. pose proof (windowed_victim_ok (memory_order s) b n false s Hh Hw) as H.
    destruct (windowed_victim _ _ _ _ _) as [p s'], H as [H1 H2]. cbn zeta.
    assert (meta_only s (record_sampled_groups (groups_weighed p) s')) as H3 by by apply meta_only_stat.
    split_and!.
    - apply (rel_meta_l _ _ _ _ _ Hi H3). apply rel_promotions.
    - unfold memv. rewrite (proj1 (promotions_memory _ _)). by destruct H3 as (?&?&?&?&?&->&?&_).
    - rewrite (proj1 (proj2 (promotions_memory _ _))). by destruct H3 as (?&?&?&?&?&->&?&_).
    - unfold pmemv. rewrite (proj2 (proj2 (promotions_memory _ _))). by destruct H3 as (?&?&?&?&?&->&?&?&_).
    - by apply (victim_ok_iff _ _ _ _ Hl). }
  destruct (memory_replacement_policy (cfg s)).
  - split_and!; try done; [by apply rel_refl|]. apply (victim_ok_iff _ _ _ _ Hl). apply fifo_victim_ok.
  - specialize (Hx true (memory_cold_candidate_count s)). cbn in *. by destruct (windowed_victim _ _ _ _ _).
  - specialize (Hx false (memory_cold_candidate_count s)). cbn in *. by destruct (windowed_victim _ _ _ _ _).
Qed.

(** ** Leaving a tier *)

Lemma holds_copies s s' k v : copies s' k = copies s k -> holds s' k v -> holds s k v.
Proof. unfold copies, holds. intros [= -> -> _ ->]. done. Qed.

Lemma rel_intro W n s s' :
  inv s' -> total s' <= total s + n -> cfg s' = cfg s -> pins s' = pins s -> pin_handles s' = pin_handles s ->
  (forall k, copies s' k = copies s k \/
     ((is_pinned s k = false \/ exists v, W k v) /\ forall v, holds s' k v -> holds s k v \/ W k v)) ->
  rel W n s s'.
Proof.
  intros Hi Ht Hc Hp Hh Hk. split; try done.
  - intros k. unfold is_pinned. by rewrite Hp, Hh.
  - intros k v Hv. destruct (Hk k) as [E|[_ H]]; [left; by apply (holds_copies _ _ _ _ E)|auto].
  - intros k Hpin Hw. destruct (Hk k) as [E|[[H|[v H]] _]]; [done|congruence|by destruct (Hw v)].
Qed.

Lemma copies_retiered s s' X Y k :
  retiered X Y s s' -> copies s' k = (X !! k, Y !! k, disk_index s !! k, ssd_store s !! k).
Proof. intros (?&?&?&?&?&->&<-&<-&_). done. Qed.

(** The index forgets a block; the store keeps it. *)
Definition unindex k s : Cache Ord :=
  set_ssd_bytes (ssd_bytes s -! default 0 (disk_index s !! k))
    (set_disk_order (ord_remove k (disk_order s)) (set_disk_index (delete k (disk_index s)) s)).

Lemma rel_unindex W k s :
  inv s -> is_pinned s k = false \/ (exists v, W k v) -> rel W 0 s (unindex k s).
Proof.
  intros (H1 & H2 & H3 & H4 & H5 & H6) Hp. apply rel_intro; try done.
  - split_and!; try done.
    + cbn. destruct (disk_index s !! k) as [n|] eqn:E; cbn.
      * pose proof (tracks_lookup_le _ _ _ _ _ _ H4 E).
        replace (ssd_bytes s -! n) with (ssd_bytes s - n) by (unfold sat_sub; lia).
        exact (tracks_remove _ _ _ _ _ _ H4 E).
      * pose proof (tracks_nonneg _ _ _ _ H4). rewrite delete_id by done.
        replace (ssd_bytes s -! 0) with (ssd_bytes s) by (unfold sat_sub; lia).
        by apply tracks_remove_absent.
    + intros x n Hx. cbn in Hx. apply lookup_delete_Some in Hx as [_ Hx]. by apply H6.
  - unfold total. cbn. lia.
  - intros x. destruct (decide (x = k)) as [->|].
    + right. split; [done|]. intros v Hv. by left.
    + left. unfold copies. cbn. by rewrite lookup_delete_ne.
Qed.

(** Blocks the index does not know leave the store. *)
Lemma rel_unstore W (keys : list CacheKey) s :
  inv s -> (forall k, k ∈ keys -> (is_pinned s k = false \/ exists v, W k v) /\ disk_index s !! k = None) ->
  rel W 0 s (set_ssd_store (fold_left (fun m k => delete k m) keys (ssd_store s)) s).
Proof.
  intros (H1 & H2 & H3 & H4 & H5 & H6) Hk.
  assert (forall m x, fold_left (fun (m : gmap CacheKey bytes) k => delete k m) keys m !! x
            = if decide (x ∈ keys) then None else m !! x) as Hf.
  { clear Hk. induction keys as [|k keys IH]; intros m x; cbn.
    - case_decide as E; [by apply not_elem_of_nil in E|done].
    - rewrite IH. destruct (decide (x = k)) as [->|Hne].
      + rewrite (decide_True (P := k ∈ k :: keys)) by left. case_decide; [done|apply lookup_delete_eq].
      + rewrite lookup_delete_ne by done. repeat case_decide; try done.
        * exfalso. apply H0. by right.
        * exfalso. apply elem_of_cons in H0 as [?|?]; done. }
  apply rel_intro; try done.
  - split_and!; try done. intros x n Hx. cbn. rewrite Hf.
    case_decide as E; [apply Hk in E as [_ E]; cbn in Hx; congruence|]. by apply H6.
  - unfold total. cbn. lia.
  - intros x. unfold copies, holds. cbn. rewrite Hf. case_decide as E; [|by left].
    right. apply Hk in E as [E _]. split; [done|]. intros v [?|[?|(b & ? & ?)]]; [naive_solver..|done].
Qed.

Lemma evict_ssd_victim_rel W victim why skips s :
  inv s -> is_pinned s victim = false ->
  rel W 0 s (evict_ssd_victim victim why skips s) /\
  ssd_store (evict_ssd_victim victim why skips s) = ssd_store s /\
  disk_index (evict_ssd_victim victim why skips s) = delete victim (disk_index s) /\
  ssd_bytes (evict_ssd_victim victim why skips s) = ssd_bytes s -! default 0 (disk_index s !! victim) /\
  memv (evict_ssd_victim victim why skips s) = memv s /\ pmemv (evict_ssd_victim victim why skips s) = pmemv s.
Proof.
  intros Hi Hp. unfold evict_ssd_victim. cbn zeta.
  set (s1 := add_stat _ _ s). assert (meta_only s s1) as H1 by by apply meta_only_stat, meta_only_refl.
  pose proof (read_for_eviction_spec victim s s1 H1) as H2.
  destruct (read_ssd_value_for_eviction victim s1) as [v s2]. cbn [snd] in H2. clearbody s1. clear s1 H1.
  match goal with |- rel _ _ _ ?x /\ _ => assert (meta_only (unindex victim s2) x) as H3 end.
  { apply forget_unless_spec, record_reason_spec. do 3 apply meta_only_stat.
    change (meta_only (unindex victim s2)
      (record_eviction_with_value Ssd victim v (removal_cause why) (unindex victim s2))).
    apply record_eviction_spec, meta_only_refl. }
  split.
  - apply (rel_meta_r _ _ _ (unindex victim s2)); [|exact H3].
    apply (rel_meta_l _ _ _ s2 _ Hi H2). intros Hi2. apply rel_unindex; [done|].
    left. by rewrite (meta_only_is_pinned _ _ _ _ victim H2).
  - destruct H3 as (?&?&?&?&?&->&Ea&Eb&_), H2 as (?&?&?&?&?&->&Ec&Ed&_).
    split_and!; try done; [unfold memv in *|unfold pmemv in *]; cbn in *; congruence.
Qed.

Lemma evict_ssd_loop_rel W fuel incoming vs s :
  inv s -> let '(vs', s') := evict_ssd_loop fuel incoming vs s in
  rel W 0 s s' /\ ssd_store s' = ssd_store s /\ disk_index s' ⊆ disk_index s /\
  memv s' = memv s /\ pmemv s' = pmemv s /\
  forall k, k ∈ vs' -> k ∈ vs \/ (is_pinned s k = false /\ disk_index s' !! k = None).
Proof.
  revert vs s. induction fuel as [|fuel IH]; intros vs s Hi; cbn [evict_ssd_loop].
  { split_and!; auto using rel_refl. }
  destruct (_ <? _) eqn:Hover; [|split_and!; auto using rel_refl].
  pose proof (select_ssd_ok s Hi) as Hs. destruct (select_ssd_eviction_victim s) as [p s1], Hs as [Hm Hv].
  pose proof (rel_meta W _ _ Hi Hm) as R1.
  assert (ssd_store s1 = ssd_store s /\ disk_index s1 = disk_index s /\ memv s1 = memv s /\ pmemv s1 = pmemv s)
    as (E1 & E2 & E3 & E4).
  { destruct Hm as (?&?&?&?&?&->&?&?&_). by split_and!. }
  destruct p as [[[victim why] skips]|]; [|by rewrite E2; split_and!; auto].
  destruct Hv as [_ Hp]. rewrite <- (meta_only_is_pinned _ _ _ _ victim Hm) in Hp.
  pose proof (evict_ssd_victim_rel W victim why skips s1 (r_inv _ _ _ _ R1) Hp) as (R2 & F1 & F2 & _ & F3 & F4).
  set (s2 := evict_ssd_victim victim why skips s1) in *. clearbody s2.
  pose proof (rel_trans _ _ _ _ _ _ R1 R2) as R. cbn in R.
  assert (disk_index s2 ⊆ disk_index s) as Hsub by (rewrite F2, E2; apply delete_subseteq).
  assert (forall k, k ∈ vs ++ [victim] -> k ∈ vs \/ (is_pinned s k = false /\ disk_index s2 !! k = None)) as Hvs.
  { intros k [?|Hk]%elem_of_app; [by left|]. right. apply list_elem_of_singleton in Hk as ->.
    rewrite <- (meta_only_is_pinned _ _ _ _ victim Hm), F2. split; [done|apply lookup_delete_eq]. }
  destruct (_ =? _).
  - split_and!; auto; congruence.
  - pose proof (IH (vs ++ [victim]) s2 (r_inv _ _ _ _ R)) as H'.
    destruct (evict_ssd_loop fuel incoming (vs ++ [victim]) s2) as [vs' s'].
    destruct H' as (R3 & G1 & G2 & G3 & G4 & G5). split_and!; try congruence.
    + exact (rel_trans _ _ _ _ _ _ R R3).
    + by etransitivity.
    + intros k [Hk|[Hk Hn]]%G5; [|right; by rewrite <- (r_pin _ _ _ _ R)].
      apply Hvs in Hk as [?|[? Hn]]; [by left|right]. split; [done|].
      eapply lookup_weaken_None; [exact Hn|exact G2].
Qed.

Lemma evict_ssd_rel W incoming s :
  inv s -> rel W 0 s (evict_ssd_for_batch incoming s) /\
  memv (evict_ssd_for_batch incoming s) = memv s /\ pmemv (evict_ssd_for_batch incoming s) = pmemv s /\
  disk_index (evict_ssd_for_batch incoming s) ⊆ disk_index s.
Proof.
  intros Hi. unfold evict_ssd_for_batch.
  pose proof (evict_ssd_loop_rel W (S (length (ord_ins (disk_order s)))) incoming [] s Hi) as H.
  destruct (evict_ssd_loop _ _ _ _) as [vs s1], H as (R & E1 & E2 & E3 & E4 & Hv).
  assert (forall k, k ∈ vs -> is_pinned s1 k = false /\ disk_index s1 !! k = None) as Hv1.
  { intros k [Hk%not_elem_of_nil|Hk]%Hv; [done|]. by rewrite (r_pin _ _ _ _ R). }
  destruct vs as [|k vs]; [done|]. unfold delete_ssd_blocks.
  set (keys := k :: vs) in *.
  set (s2 := fold_left (fun s k => note_ssd_probe_mutation k s) keys s1).
  assert (meta_only s1 s2) as H2.
  { unfold s2. generalize (meta_only_refl s1). generalize s1 at 2 4. generalize keys.
    intros l. induction l as [|x l IH]; intros t Ht; cbn; [done|]. by apply IH, meta_only_note. }
  clearbody s2. pose proof (rel_meta_r _ _ _ _ _ R H2) as R2.
  assert (memv s2 = memv s /\ pmemv s2 = pmemv s /\ disk_index s2 = disk_index s1) as (F1 & F2 & F3).
  { destruct H2 as (?&?&?&?&?&->&?&?&_). unfold memv, pmemv in *. cbn. split_and!; congruence. }
  unfold device. cbn zeta iota beta.
  destruct (ssd_store_enabled (cfg s2)); cbn [negb]; [|cbn; rewrite F3; by split_and!].
  destruct (io_ok _); cbn [snd].
  - split_and!; [|done..|change (disk_index s2 ⊆ disk_index s); by rewrite F3].
    apply (rel_weaken _ (0 + 0)); [lia|]. apply (rel_trans _ _ _ _ (next_tick s2)).
    { apply (rel_meta_r _ _ _ _ _ R2), meta_only_tick, meta_only_refl. }
    apply rel_unstore.
    + apply (rel_meta_r _ _ _ _ _ R2 (meta_only_tick _ _ (meta_only_refl _))).
    + intros x Hx. cbn. rewrite F3. destruct (Hv1 x Hx). split; [left|done].
      by rewrite <- (meta_only_is_pinned _ _ _ _ x H2) in *.
  - split_and!; [|done..|change (disk_index s2 ⊆ disk_index s); by rewrite F3].
    apply (rel_meta_r _ _ _ _ _ R2), meta_only_tick, meta_only_refl.
Qed.

(** ** Entering the SSD tier *)

Definition wrote k v : CacheKey -> bytes -> Prop := fun k' v' => k' = k /\ v' = v.

(** The block as the store keeps it. *)
Definition stored k (block : bytes) s : Cache Ord :=
  if ssd_store_enabled (cfg s) then set_ssd_store (<[k := block]> (ssd_store s)) s else s.

Lemma write_ssd_block_spec k block s :
  exists s1, meta_only s s1 /\
    match (write_ssd_block k block s).1 with
    | Ok _ => (write_ssd_block k block s).2 = stored k block s1
    | Err _ => (write_ssd_block k block s).2 = s1
    end.
Proof.
  unfold write_ssd_block, device, stored. cbn zeta.
  set (s1 := charge_ssd_write _ _).
  assert (meta_only s s1) as H by by apply charge_spec, meta_only_note, meta_only_refl.
  clearbody s1. destruct (ssd_store_enabled (cfg s1)) eqn:E; cbn [negb].
  - exists (next_tick s1). split; [by apply meta_only_tick|]. cbn zeta iota beta.
    destruct (io_ok _); cbn [fst snd]; [|done]. change (cfg (next_tick s1)) with (cfg s1). by rewrite E.
  - exists s1. split; [done|]. cbn [fst snd]. by rewrite E.
Qed.

Lemma stored_fields k block s :
  cfg (stored k block s) = cfg s /\ memory (stored k block s) = memory s /\ pmem (stored k block s) = pmem s /\
  metadata_map (stored k block s) = metadata_map s /\ disk_index (stored k block s) = disk_index s /\
  memory_order (stored k block s) = memory_order s /\ pmem_order (stored k block s) = pmem_order s /\
  disk_order (stored k block s) = disk_order s /\ memory_bytes (stored k block s) = memory_bytes s /\
  pmem_bytes (stored k block s) = pmem_bytes s /\ ssd_bytes (stored k block s) = ssd_bytes s /\
  pins (stored k block s) = pins s /\ pin_handles (stored k block s) = pin_handles s.
Proof. unfold stored. by case_match. Qed.

Lemma stored_lookup k block s x :
  ssd_store (stored k block s) !! x =
  if ssd_store_enabled (cfg s) then <[k := block]> (ssd_store s) !! x else ssd_store s !! x.
Proof. unfold stored. by case_match. Qed.

Definition installed k (block : bytes) (bytes_now : Z) s : Cache Ord :=
  set_ssd_bytes bytes_now (set_disk_order (ord_insert k (disk_order s))
    (set_disk_index (<[k := blen block]> (disk_index s)) (stored k block s))).

Lemma rel_installed k v block s :
  inv s -> decode_cache_block block = Ok v -> 0 < blen block ->
  rel (wrote k v) 0 s
    (installed k block (ssd_bytes s - default 0 (disk_index s !! k) + blen block) s).
Proof.
  intros (H1 & H2 & H3 & H4 & H5 & H6) Hd Hpos. unfold installed.
  pose proof (stored_fields k block s) as (E1&E2&E3&E4&E5&E6&E7&E8&E9&E10&E11&E12&E13).
  apply rel_intro; cbn; try done.
  - unfold inv, memv, pmemv. cbn. rewrite E1, E2, E3, E4, E6, E7, E9, E10. split_and!; try done.
    + destruct (disk_index s !! k) as [n|] eqn:E; cbn.
      * rewrite (tracks_insert_present _ _ _ _ k H4) by eauto.
        refine (tracks_replace (fun n => n) _ _ _ k (blen block) n H4 E _). unfold blen; lia.
      * rewrite Z.sub_0_r. refine (tracks_new (fun n => n) _ _ _ k (blen block) H4 E _). unfold blen; lia.
    + intros x n Hx. rewrite stored_lookup. apply lookup_insert_Some in Hx as [[<- <-]|[Hne Hx]].
      * split; [done|]. intros ->. exists block. by rewrite lookup_insert_eq.
      * split; [by eapply H6|]. intros Hs. rewrite Hs, lookup_insert_ne by done. by apply H6.
  - unfold total. cbn. rewrite E9, E10. lia.
  - intros x. destruct (decide (x = k)) as [->|Hne].
    + right. split; [right; by exists v|]. intros w. unfold holds, memv, pmemv. cbn. rewrite E2, E3.
      intros [?|[?|(b & Hb & Hw)]]; [left; tauto..|]. rewrite stored_lookup in Hb. case_match.
      * rewrite lookup_insert_eq in Hb. simplify_eq. right. split; congruence.
      * left. right. right. by exists b.
    + left. unfold copies, memv, pmemv. cbn. rewrite E2, E3, stored_lookup, !lookup_insert_ne by done.
      by case_match.
Qed.
End evict.
