(* ===== verification/EnginePlace.v ===== *)
(** * The cache engine: placing values in tiers

    Demotion, the eviction loops of the resident tiers and placing a value in
    a tier, in [rel] with the state they start from. *)

From S2P Require Import Prelude Types Ordering EntryMeta Victim VictimFacts VictimSpec BlockCodec WriteBudget.
From S2P Require Import FrequencySketch KeyOrder KeyOrderSpec EngineState Engine EngineInv.
From S2P Require Import EngineEvict.

Section place.
Context {Ord : Type} {RO : RecencyOrder Ord} {ENV : Env} {ZS : Zstd} {ZL : ZstdLaws ZS}.
Implicit Types (s : Cache Ord) (k : CacheKey) (v : bytes).

Lemma rel_step W n m s1 s2 s3 :
  rel W n s1 s2 -> (inv s2 -> total s2 <= total s1 + n -> rel W m s2 s3) -> rel W (n + m) s1 s3.
Proof. intros R H. eapply rel_trans; [exact R|]. apply H; apply R. Qed.

Lemma rel_meta_tick W n s s1 s2 name c : rel W n s s1 -> s2 = add_stat name c s1 -> rel W n s s2.
Proof. intros R ->. eapply rel_meta_r; [exact R|]. apply meta_only_stat, meta_only_refl. Qed.

Lemma bypass_rel k v s :
  inv s -> blen v < 2 ^ 63 ->
  rel (wrote k v) 0 s (put_ssd_bypass_if_absent k v s).2 /\
  memv (put_ssd_bypass_if_absent k v s).2 = memv s /\ pmemv (put_ssd_bypass_if_absent k v s).2 = pmemv s.
Proof.
  intros Hi Hv. unfold put_ssd_bypass_if_absent.
  destruct (bool_decide (is_Some (disk_index s !! k))) eqn:Hk; cbn [orb]; [by split_and!; auto using rel_refl|].
  destruct (ssd_capacity_bytes (cfg s) =? 0); [by split_and!; auto using rel_refl|]. zbool.
  apply eq_None_not_Some in Hk.
  pose proof (budget_admits_spec k s s (meta_only_refl s)) as Hm.
  destruct (ssd_write_budget_admits k s) as [ok s1]. cbn [snd] in Hm.
  assert (forall s2, meta_only s1 s2 -> rel (wrote k v) 0 s s2 /\ memv s2 = memv s /\ pmemv s2 = pmemv s) as Hdone.
  { intros s2 H2. pose proof (meta_only_trans _ _ _ Hm H2) as H3. split; [by apply rel_meta|].
    by destruct H3 as (?&?&?&?&?&->&?&?&_). }
  destruct ok; cbn [negb]; [|cbn zeta; cbn [fst snd]; apply Hdone; solve [auto with meta_only]].
  destruct (_ || _) eqn:Hbig1; [cbn zeta; cbn [fst snd]; apply Hdone; solve [auto with meta_only]|].
  destruct (encode_cache_block v (block_options (cfg s1))) as [block|e] eqn:Henc;
    [|cbn zeta; cbn [fst snd]; apply Hdone; solve [auto with meta_only]].
  cbn zeta. match goal with |- context [if ?b then _ else _] => destruct b eqn:Hbig2 end; [cbn zeta; cbn [fst snd]; apply Hdone; solve [auto with meta_only]|].
  assert (disk_index s1 !! k = None) as Hk1 by by destruct Hm as (?&?&?&?&?&->&_).
  pose proof (rel_meta (wrote k v) _ _ Hi Hm) as R1.
  destruct (Hdone s1 (meta_only_refl _)) as (_ & E1 & E2).
  pose proof (evict_ssd_rel (wrote k v) (blen block) s1 (r_inv _ _ _ _ R1)) as (R2 & E3 & E4 & E5).
  set (s2 := evict_ssd_for_batch (blen block) s1) in *. clearbody s2.
  pose proof (rel_trans _ _ _ _ _ _ R1 R2) as R. cbn in R.
  assert (disk_index s2 !! k = None) as Hk2 by (eapply lookup_weaken_None; eauto).
  destruct (ssd_capacity_bytes (cfg s2) <? _) eqn:Hroom.
  { split_and!; [by eapply rel_meta_tick|unfold memv, pmemv in *; cbn; congruence..]. }
  zbool. destruct (write_ssd_block_spec k block s2) as (s3 & Hm3 & Hw).
  destruct (write_ssd_block k block s2) as [written s4]. cbn [fst snd] in Hw.
  pose proof (rel_meta_r _ _ _ _ _ R Hm3) as R3.
  assert (memv s3 = memv s /\ pmemv s3 = pmemv s) as [E6 E7].
  { destruct Hm3 as (?&?&?&?&?&->&?&?&_). unfold memv, pmemv in *. cbn. split; congruence. }
  destruct written as [[]|e]; subst s4.
  2: { split_and!; [by eapply rel_meta_tick|done..]. }
  assert (disk_index s3 !! k = None /\ ssd_bytes s3 = ssd_bytes s2 /\ cfg s3 = cfg s2 /\ disk_order s3 = disk_order s2)
    as (Hk3 & Eb & Ec & _) by by destruct Hm3 as (?&?&?&?&?&->&_).
  pose proof (stored_fields k block s3) as (F1&F2&F3&F4&F5&F6&F7&F8&F9&F10&F11&F12&F13).
  split_and!.
  - eapply rel_meta_r.
    + apply (rel_weaken _ (0 + 0)); [lia|]. eapply rel_trans; [exact R3|].
      apply (rel_installed k v block s3); [apply R3| |by eapply encode_pos].
      by apply (encode_decode _ _ _ Hv Henc).
    + cbn [fst snd]. apply meta_only_stat, meta_only_stat. unfold installed. cbn. rewrite F5, F8, F11, Hk3.
      replace (ssd_bytes s3 +! blen block) with (ssd_bytes s3 - default 0 None + blen block); [apply meta_only_refl|].
      cbn. pose proof (r_inv _ _ _ _ R) as (Hc & _ & _ & Ht & _). apply tracks_nonneg in Ht.
      destruct Hc as (_ & _ & _ & Hc). rewrite Eb. unfold sat_add in *. unfold blen in *. lia.
  - unfold memv in *. cbn. rewrite F2. exact E6.
  - unfold pmemv in *. cbn. rewrite F3. exact E7.
Qed.

(** ** The persistent tier *)

Lemma rel_leave_pmem W k old s s2 :
  inv s -> is_pinned s k = false \/ (exists v, W k v) -> pmemv s !! k = Some old ->
  retiered (memv s) (delete k (pmemv s)) (set_pmem_order (ord_remove k (pmem_order s)) s) s2 ->
  rel W (- blen old) s (set_pmem_bytes (pmem_bytes s2 -! blen old) s2).
Proof.
  intros (H1 & H2 & H3 & H4 & H5 & H6) Hp Hk (mem & pm & mm & e & a & -> & Em & Ep & Hh).
  pose proof (tracks_lookup_le _ _ _ _ _ _ H3 Hk) as Hle. apply rel_intro; try done.
  - unfold inv, memv, pmemv. cbn. rewrite Em, Ep. split_and!; try done; [|by apply Hh].
    replace (pmem_bytes s -! blen old) with (pmem_bytes s - blen old) by (unfold sat_sub; lia).
    by apply tracks_remove.
  - unfold total. cbn. unfold sat_sub. lia.
  - intros x. unfold copies, holds, memv, pmemv. cbn. rewrite Em, Ep.
    destruct (decide (x = k)) as [->|]; [|left; by rewrite lookup_delete_ne].
    right. split; [done|]. rewrite lookup_delete_eq. intros v [?|[?|?]]; [|done|]; left; unfold holds; tauto.
Qed.

Lemma rel_enter_pmem k v s s2 o b :
  inv s -> retiered (memv s) (<[k := v]> (pmemv s)) s s2 ->
  tracks blen (<[k := v]> (pmemv s)) o b -> b <= pmem_bytes s + blen v ->
  rel (wrote k v) (blen v) s (set_pmem_bytes b (set_pmem_order o s2)).
Proof.
  intros (H1 & H2 & H3 & H4 & H5 & H6) (mem & pm & mm & e & a & -> & Em & Ep & Hh) Ht Hb.
  apply rel_intro; try done.
  - unfold inv, memv, pmemv. cbn. rewrite Em, Ep. split_and!; try done. by apply Hh.
  - unfold total. cbn. lia.
  - intros x. unfold copies, holds, memv, pmemv. cbn. rewrite Em, Ep.
    destruct (decide (x = k)) as [->|]; [|left; by rewrite lookup_insert_ne].
    right. split; [right; by exists v|]. rewrite lookup_insert_eq.
    intros w [?|[?|?]]; [left; unfold holds; tauto|right; split; congruence|left; unfold holds; tauto].
Qed.

Lemma rel_absorb W W1 n1 n2 s1 s2 s3 :
  rel W n1 s1 s2 -> rel W1 n2 s2 s3 ->
  (forall k v, W1 k v -> W k v \/ (holds s1 k v /\ is_pinned s1 k = false)) -> rel W (n1 + n2) s1 s3.
Proof.
  intros [P1 P2 P3 P4 P5 P6] [Q1 Q2 Q3 Q4 Q5 Q6] HW. split.
  - done.
  - lia.
  - congruence.
  - intros k. by rewrite Q4.
  - intros k v [H|H]%Q5; [by apply P5|]. destruct (HW _ _ H) as [?|[? _]]; auto.
  - intros k Hp Hw. rewrite Q6; [by apply P6|by rewrite P4|].
    intros v Hv. destruct (HW _ _ Hv) as [?|[_ ?]]; [by apply (Hw v)|congruence].
Qed.

Lemma demote_pmem_rel k v s :
  inv s -> blen v < 2 ^ 63 ->
  rel (wrote k v) 0 s (demote_pmem_victim k v s).2 /\
  memv (demote_pmem_victim k v s).2 = memv s /\ pmemv (demote_pmem_victim k v s).2 = pmemv s.
Proof.
  intros Hi Hv. unfold demote_pmem_victim. case_if; [by split_and!; auto using rel_refl|].
  pose proof (worthwhile_spec k s s (meta_only_refl s)) as Hm.
  destruct (demotion_is_worthwhile k s) as [w s1]. cbn [snd] in Hm.
  pose proof (rel_meta (wrote k v) _ _ Hi Hm) as R.
  assert (memv s1 = memv s /\ pmemv s1 = pmemv s) as [E1 E2] by by destruct Hm as (?&?&?&?&?&->&?&?&_).
  destruct w; cbn [negb]; [|done].
  destruct (bypass_rel k v s1 (r_inv _ _ _ _ R) Hv) as (R2 & E3 & E4).
  split_and!; [exact (rel_trans _ _ _ _ _ _ R R2)|congruence..].
Qed.

Lemma evict_pmem_victim_rel W t victim why skips s old :
  inv s -> total s <= isize_max -> is_pinned s victim = false -> pmemv s !! victim = Some old ->
  let '(held, s') := evict_pmem_victim t victim why skips s in
  rel W (- blen old) s s' /\ held = true /\ memv s' = memv s /\ pmemv s' = delete victim (pmemv s).
Proof.
  intros Hi Ht Hp Hk. unfold evict_pmem_victim. cbn zeta.
  set (s1 := add_stat _ _ s). assert (meta_only s s1) as H1 by by apply meta_only_stat, meta_only_refl.
  pose proof (rel_meta W _ _ Hi H1) as R1.
  destruct (take_pmem_resident_spec victim (set_pmem_order (ord_remove victim (pmem_order s1)) s1)) as [Ho Hr].
  destruct (take_pmem_resident _ _) as [o s2]. cbn [fst snd] in Ho, Hr.
  change (pmemv (set_pmem_order (ord_remove victim (pmem_order s1)) s1)) with (pmemv s) in Ho, Hr.
  rewrite Hk in Ho. subst o.
  pose proof (rel_leave_pmem W victim old s1 s2 (r_inv _ _ _ _ R1) (or_introl Hp) Hk Hr) as R2.
  set (s3 := set_pmem_bytes _ s2) in *.
  assert (memv s3 = memv s /\ pmemv s3 = delete victim (pmemv s)) as [E1 E2] by by destruct Hr as (?&?&?&?&?&->&?&?&_).
  clearbody s3. clear s2 Hr.
  pose proof Hi as (_ & (_ & Hm1) & Hpm & _).
  assert (blen old < 2 ^ 63) as Hlen.
  { pose proof (tracks_lookup_le _ _ _ _ _ _ Hpm Hk).
    assert (0 <= memory_bytes s) by (eapply tracks_nonneg; apply Hi). unfold total, isize_max in *. lia. }
  destruct (demote_pmem_rel victim old s3 (r_inv _ _ _ _ R2) Hlen) as (R3 & E3 & E4).
  destruct (demote_pmem_victim victim old s3) as [b s4]. cbn [snd] in *.
  pose proof (persist_delete_spec victim s4 s4 (meta_only_refl s4)) as H5.
  destruct (persist_pmem_delete victim s4) as [r s5]. cbn [snd] in H5.
  match goal with |- rel _ _ _ ?x /\ _ => assert (meta_only s4 x) as H6 by auto 10 with meta_only end.
  split_and!; [|done|destruct H6 as (?&?&?&?&?&->&?&?&_); unfold memv, pmemv in *; cbn; congruence..].
  eapply rel_meta_r; [|exact H6]. apply (rel_weaken _ ((0 + - blen old) + 0)); [lia|].
  eapply rel_absorb; [exact (rel_trans _ _ _ _ _ _ R1 R2)|exact R3|].
  intros k v [-> ->]. right. split; [right; by left|done].
Qed.

Lemma evict_pmem_loop_rel W fuel t s :
  inv s -> total s <= isize_max ->
  rel W 0 s (evict_pmem_loop fuel t s) /\ memv (evict_pmem_loop fuel t s) = memv s /\
  pmemv (evict_pmem_loop fuel t s) ⊆ pmemv s.
Proof.
  revert s. induction fuel as [|fuel IH]; intros s Hi Ht; cbn [evict_pmem_loop].
  { split_and!; auto using rel_refl. }
  destruct (_ <? _); [|split_and!; auto using rel_refl].
  pose proof (select_pmem_ok s Hi) as Hs. destruct (select_pmem_eviction_victim s) as [p s1], Hs as [Hm Hv].
  pose proof (rel_meta W _ _ Hi Hm) as R1.
  assert (memv s1 = memv s /\ pmemv s1 = pmemv s) as [E1 E2] by by destruct Hm as (?&?&?&?&?&->&?&?&_).
  destruct p as [[[victim why] skips]|].
  2: { split_and!; [by eapply rel_meta_tick|done|unfold pmemv in *; cbn; by rewrite E2]. }
  destruct Hv as [[old Hk] Hp]. rewrite <- E2 in Hk. rewrite <- (meta_only_is_pinned _ _ _ _ victim Hm) in Hp.
  pose proof (r_total _ _ _ _ R1) as Ht1. pose proof (evict_pmem_victim_rel W t victim why skips s1 old
    (r_inv _ _ _ _ R1) ltac:(lia) Hp Hk) as H.
  destruct (evict_pmem_victim t victim why skips s1) as [held s2], H as (R2 & -> & E3 & E4).
  assert (0 <= blen old) by (unfold blen; lia).
  assert (rel W 0 s s2) as R by (apply (rel_weaken _ (0 + - blen old)); [lia|exact (rel_trans _ _ _ _ _ _ R1 R2)]).
  assert (pmemv s2 ⊆ pmemv s) as Hsub by (rewrite E4, E2; apply delete_subseteq).
  cbn [andb]. destruct (_ =? _); [split_and!; [done|congruence|done]|].
  pose proof (r_total _ _ _ _ R). destruct (IH s2 (r_inv _ _ _ _ R) ltac:(lia)) as (R3 & E5 & E6).
  split_and!; [exact (rel_trans _ _ _ _ _ _ R R3)|congruence|by etransitivity].
Qed.

Lemma set_pmem_order_id s : set_pmem_order (pmem_order s) s = s.
Proof. by destruct s. Qed.
Lemma set_memory_order_id s : set_memory_order (memory_order s) s = s.
Proof. by destruct s. Qed.

(** The entry, before the tier is brought back under its capacity. *)
Lemma enter_pmem_rel k v s s2 old :
  inv s -> total s + blen v <= isize_max -> old = pmemv s !! k ->
  retiered (memv s) (<[k := v]> (pmemv s)) s s2 ->
  let s3 := match old with
            | Some old => set_pmem_bytes (pmem_bytes s2 -! blen old) s2
            | None => set_pmem_order (ord_insert k (pmem_order s2)) s2
            end in
  rel (wrote k v) (blen v) s (set_pmem_bytes (pmem_bytes s3 +! blen v) s3).
Proof.
  intros Hi Ht -> Hr. pose proof Hi as (_ & Hmem & Hpm & _).
  assert (pmem_order s2 = pmem_order s /\ pmem_bytes s2 = pmem_bytes s) as [E1 E2] by by destruct Hr as (?&?&?&?&?&->&_).
  pose proof (tracks_nonneg _ _ _ _ Hmem). pose proof (tracks_nonneg _ _ _ _ Hpm). pose proof (blen_nonneg v).
  unfold total, isize_max in Ht. cbn zeta. destruct (pmemv s !! k) as [old|] eqn:Hk.
  - pose proof (tracks_lookup_le _ _ _ _ _ _ Hpm Hk).
    change (set_pmem_bytes ?b (set_pmem_bytes _ s2)) with (set_pmem_bytes b s2). cbn [pmem_bytes set_pmem_bytes].
    rewrite <- (set_pmem_order_id s2) at 2. rewrite E1, E2. apply rel_enter_pmem; try done.
    + replace (pmem_bytes s -! blen old +! blen v) with (pmem_bytes s - blen old + blen v)
        by (unfold sat_sub, sat_add, u64_max; lia).
      by apply tracks_replace.
    + unfold sat_sub, sat_add, u64_max. lia.
  - cbn [pmem_bytes set_pmem_order]. rewrite E1, E2. apply rel_enter_pmem; try done.
    + replace (pmem_bytes s +! blen v) with (pmem_bytes s + blen v) by (unfold sat_add, u64_max; lia).
      by apply tracks_new.
    + unfold sat_add. lia.
Qed.

Lemma put_pmem_rel k v s :
  inv s -> total s + blen v <= isize_max ->
  let '(kept, s') := put_pmem_shared k v s in
  rel (wrote k v) (if kept then blen v else 0) s s' /\ memv s' = memv s /\
  (if kept then pmemv s' ⊆ <[k := v]> (pmemv s) else pmemv s' = pmemv s).
Proof.
  intros Hi Ht. unfold put_pmem_shared, put_pmem_shared_with_persistence, instant. cbn zeta iota beta.
  set (s1 := next_tick _). assert (meta_only s s1) as H1 by (unfold s1; auto with meta_only). clearbody s1.
  assert (forall s2, meta_only s1 s2 -> rel (wrote k v) 0 s s2 /\ memv s2 = memv s /\ pmemv s2 = pmemv s) as Hdone.
  { intros s2 H2. pose proof (meta_only_trans _ _ _ H1 H2) as H3. split; [by apply rel_meta|].
    by destruct H3 as (?&?&?&?&?&->&?&?&_). }
  case_if; [apply Hdone; auto with meta_only|].
  pose proof (persist_put_spec k v s1 s1 (meta_only_refl s1)) as H2.
  destruct (persist_pmem_put k v s1) as [r s2]. cbn [snd] in H2.
  case_if; [apply Hdone; auto with meta_only|].
  set (s3 := add_stat _ _ (add_stat _ _ s2)). assert (meta_only s1 s3) as H3 by (unfold s3; auto with meta_only).
  clearbody s3. destruct (Hdone s3 H3) as (R3 & E3 & E4). pose proof (r_total _ _ _ _ R3) as Ht3.
  destruct (make_pmem_resident_spec k v s3) as [Ho Hr]. destruct (make_pmem_resident k v s3) as [old s4].
  cbn [fst snd] in Ho, Hr.
  pose proof (enter_pmem_rel k v s3 s4 old (r_inv _ _ _ _ R3) ltac:(lia) Ho Hr) as R5. cbn zeta in R5.
  set (s5 := match old with Some _ => _ | None => _ end) in *.
  assert (memv s5 = memv s3 /\ pmemv s5 = <[k := v]> (pmemv s3)) as [E5 E6].
  { unfold s5. clear R5 s5. destruct Hr as (?&?&?&?&?&->&?&?&_). by destruct old. }
  set (s6 := set_pmem_bytes _ s5) in *.
  change (memv s5) with (memv s6) in E5. change (pmemv s5) with (pmemv s6) in E6.
  clearbody s6. clear s5 Hr Ho. pose proof (rel_trans _ _ _ _ _ _ R3 R5) as R. pose proof (r_total _ _ _ _ R) as Ht6.
  unfold evict_pmem_to_capacity_since.
  destruct (evict_pmem_loop_rel (wrote k v) (S (length (ord_ins (pmem_order s6))))
    (instant_now (tick (aux (note_ssd_probe_mutation k s)))) s6 (r_inv _ _ _ _ R) ltac:(lia)) as (R7 & E7 & E8).
  split_and!.
  - apply (rel_weaken _ (0 + blen v + 0)); [lia|]. exact (rel_trans _ _ _ _ _ _ R R7).
  - congruence.
  - by rewrite <- E4, <- E6.
Qed.

(** ** The memory tier *)

Lemma rel_leave_memory W k old s s2 :
  inv s -> is_pinned s k = false \/ (exists v, W k v) -> memv s !! k = Some old ->
  retiered (delete k (memv s)) (pmemv s) (set_memory_order (ord_remove k (memory_order s)) s) s2 ->
  rel W (- blen old) s (set_memory_bytes (memory_bytes s2 -! blen old) s2).
Proof.
  intros (H1 & H2 & H3 & H4 & H5 & H6) Hp Hk (mem & pm & mm & e & a & -> & Em & Ep & Hh).
  pose proof (tracks_lookup_le _ _ _ _ _ _ H2 Hk) as Hle. apply rel_intro; try done.
  - unfold inv, memv, pmemv. cbn. rewrite Em, Ep. split_and!; try done; [|by apply Hh].
    replace (memory_bytes s -! blen old) with (memory_bytes s - blen old) by (unfold sat_sub; lia).
    by apply tracks_remove.
  - unfold total. cbn. unfold sat_sub. lia.
  - intros x. unfold copies, holds, memv, pmemv. cbn. rewrite Em, Ep.
    destruct (decide (x = k)) as [->|]; [|left; by rewrite lookup_delete_ne].
    right. split; [done|]. rewrite lookup_delete_eq. intros v [?|[?|?]]; [done|left; unfold holds; tauto..].
Qed.

Lemma rel_enter_memory k v s s2 o b :
  inv s -> retiered (<[k := v]> (memv s)) (pmemv s) s s2 ->
  tracks blen (<[k := v]> (memv s)) o b -> b <= memory_bytes s + blen v ->
  rel (wrote k v) (blen v) s (set_memory_bytes b (set_memory_order o s2)).
Proof.
  intros (H1 & H2 & H3 & H4 & H5 & H6) (mem & pm & mm & e & a & -> & Em & Ep & Hh) Ht Hb.
  apply rel_intro; try done.
  - unfold inv, memv, pmemv. cbn. rewrite Em, Ep. split_and!; try done. by apply Hh.
  - unfold total. cbn. lia.
  - intros x. unfold copies, holds, memv, pmemv. cbn. rewrite Em, Ep.
    destruct (decide (x = k)) as [->|]; [|left; by rewrite lookup_insert_ne].
    right. split; [right; by exists v|]. rewrite lookup_insert_eq.
    intros w [?|?]; [right; split; congruence|left; unfold holds; tauto].
Qed.

Lemma demote_memory_rel k v s :
  inv s -> total s + blen v <= isize_max ->
  rel (wrote k v) (blen v) s (demote_memory_victim k v s).2 /\
  memv (demote_memory_victim k v s).2 = memv s.
Proof.
  intros Hi Ht. pose proof (blen_nonneg v) as Hnn.
  assert (forall s', rel (wrote k v) 0 s s' -> rel (wrote k v) (blen v) s s') as Hz by (intros; by eapply rel_weaken).
  unfold demote_memory_victim. case_if; [by split; [apply Hz, rel_refl|]|].
  pose proof (worthwhile_spec k s s (meta_only_refl s)) as Hm.
  destruct (demotion_is_worthwhile k s) as [w s1]. cbn [snd] in Hm.
  pose proof (rel_meta (wrote k v) _ _ Hi Hm) as R.
  assert (memv s1 = memv s) as E1 by by destruct Hm as (?&?&?&?&?&->&?&?&_).
  pose proof (r_total _ _ _ _ R) as Ht1.
  assert (blen v < 2 ^ 63) as Hlen.
  { pose proof Hi as (_ & H2 & H3 & _). apply tracks_nonneg in H2, H3. unfold total, isize_max in *. lia. }
  destruct w; cbn [negb]; [|auto]. case_if; [|case_if; [|cbn [snd]; auto]].
  - destruct (decide (is_Some (pmem s1 !! k))); [split; [apply Hz; eapply rel_meta_tick; [exact R|reflexivity]|done]|].
    pose proof (put_pmem_rel k v s1 (r_inv _ _ _ _ R) ltac:(lia)) as H.
    destruct (put_pmem_shared k v s1) as [kept s2], H as (R2 & E2 & _). cbn [snd].
    split; [|congruence]. apply (rel_weaken _ (0 + (if kept then blen v else 0))); [destruct kept; lia|].
    exact (rel_trans _ _ _ _ _ _ R R2).
  - destruct (bypass_rel k v s1 (r_inv _ _ _ _ R) Hlen) as (R2 & E3 & E4).
    split; [|congruence]. apply Hz. exact (rel_trans _ _ _ _ _ _ R R2).
Qed.

Lemma evict_memory_victim_rel W t victim why skips s old :
  inv s -> total s <= isize_max -> is_pinned s victim = false -> memv s !! victim = Some old ->
  let '(held, s') := evict_memory_victim t victim why skips s in
  rel W 0 s s' /\ held = true /\ memv s' = delete victim (memv s).
Proof.
  intros Hi Ht Hp Hk. unfold evict_memory_victim. cbn zeta.
  set (s1 := add_stat _ _ s). assert (meta_only s s1) as H1 by by apply meta_only_stat, meta_only_refl.
  pose proof (rel_meta W _ _ Hi H1) as R1.
  destruct (take_resident_spec victim (set_memory_order (ord_remove victim (memory_order s1)) s1)) as [Ho Hr].
  destruct (take_resident _ _) as [o s2]. cbn [fst snd] in Ho, Hr.
  change (memv (set_memory_order (ord_remove victim (memory_order s1)) s1)) with (memv s) in Ho, Hr.
  rewrite Hk in Ho. subst o.
  pose proof (rel_leave_memory W victim old s1 s2 (r_inv _ _ _ _ R1) (or_introl Hp) Hk Hr) as R2.
  set (s3 := set_memory_bytes _ s2) in *.
  assert (memv s3 = delete victim (memv s)) as E1 by by destruct Hr as (?&?&?&?&?&->&?&?&_).
  clearbody s3. clear s2 Hr. pose proof (rel_trans _ _ _ _ _ _ R1 R2) as R. pose proof (r_total _ _ _ _ R) as Ht3.
  destruct (demote_memory_rel victim old s3 (r_inv _ _ _ _ R2) ltac:(lia)) as (R3 & E3).
  destruct (demote_memory_victim victim old s3) as [b s4]. cbn [snd] in *.
  match goal with |- rel _ _ _ ?x /\ _ => assert (meta_only s4 x) as H6 by auto 10 with meta_only end.
  split_and!; [|done|destruct H6 as (?&?&?&?&?&->&?&?&_); unfold memv, pmemv in *; cbn; congruence].
  eapply rel_meta_r; [|exact H6]. apply (rel_weaken _ ((0 + - blen old) + blen old)); [lia|].
  eapply rel_absorb; [exact R|exact R3|]. intros k v [-> ->]. right. split; [by left|done].
Qed.

Lemma evict_memory_loop_rel W fuel t s :
  inv s -> total s <= isize_max ->
  rel W 0 s (evict_memory_loop fuel t s) /\ memv (evict_memory_loop fuel t s) ⊆ memv s.
Proof.
  revert s. induction fuel as [|fuel IH]; intros s Hi Ht; cbn [evict_memory_loop].
  { split; auto using rel_refl. }
  destruct (_ <? _); [|split; auto using rel_refl].
  pose proof (select_memory_ok W s Hi) as Hs. destruct (select_memory_eviction_victim s) as [p s1].
  destruct Hs as (R1 & E1 & Eb & _ & Hv).
  destruct p as [[[victim why] skips]|].
  2: { split; [by eapply rel_meta_tick|unfold memv in *; cbn; by rewrite E1]. }
  destruct Hv as [[old Hk] Hp]. rewrite <- E1 in Hk. rewrite <- (r_pin _ _ _ _ R1) in Hp.
  pose proof (r_total _ _ _ _ R1) as Ht1. pose proof (evict_memory_victim_rel W t victim why skips s1 old
    (r_inv _ _ _ _ R1) ltac:(lia) Hp Hk) as H.
  destruct (evict_memory_victim t victim why skips s1) as [held s2], H as (R2 & -> & E3).
  pose proof (rel_trans _ _ _ _ _ _ R1 R2) as R. cbn in R.
  assert (memv s2 ⊆ memv s) as Hsub by (rewrite E3, E1; apply delete_subseteq).
  cbn [andb]. destruct (_ =? _); [done|].
  pose proof (r_total _ _ _ _ R). destruct (IH s2 (r_inv _ _ _ _ R) ltac:(lia)) as (R3 & E5).
  split; [exact (rel_trans _ _ _ _ _ _ R R3)|by etransitivity].
Qed.

(** A rewrite of a resident entry counts as a use of it. *)
Definition rewarm k s : Cache Ord :=
  match metadata_of s k with
  | Some m =>
      let threshold := memory_hotness_threshold (tiering_policy (cfg s)) in
      let before := hotness m in
      let s := update_metadata k (fun m => snd (add_hotness 1 m)) s in
      if (before <? threshold) && (threshold <=? sat_add32 before 1)
      then add_stat "hotness_promotions" 1 s else s
  | None => s
  end.

Lemma rewarm_spec k s : meta_only s (rewarm k s).
Proof.
  unfold rewarm. case_match; [|apply meta_only_refl]. cbn zeta.
  case_match; [apply meta_only_stat|]; by apply update_metadata_spec.
Qed.

(** The entry, before the tier is brought back under its capacity. *)
Lemma enter_memory_rel k v s s2 old :
  inv s -> old = memv s !! k -> retiered (<[k := v]> (memv s)) (pmemv s) s s2 ->
  let s3 := match old with
            | Some old =>
                rewarm k (set_memory_order (ord_touch k (memory_order s2))
                            (set_memory_bytes (memory_bytes s2 -! blen old) s2))
            | None => set_memory_order (ord_insert k (memory_order s2)) s2
            end in
  rel (wrote k v) (blen v) s (set_memory_bytes (memory_bytes s3 + blen v) s3) /\
  memv s3 = <[k := v]> (memv s) /\ pmemv s3 = pmemv s.
Proof.
  intros Hi -> Hr. pose proof Hi as (_ & Hmem & _). pose proof (blen_nonneg v).
  assert (memory_order s2 = memory_order s /\ memory_bytes s2 = memory_bytes s) as [E1 E2]
    by by destruct Hr as (?&?&?&?&?&->&_).
  cbn zeta. destruct (memv s !! k) as [old|] eqn:Hk.
  - pose proof (tracks_lookup_le _ _ _ _ _ _ Hmem Hk). pose proof (blen_nonneg old).
    rewrite E1, E2. set (o := ord_touch k (memory_order s)). set (b := memory_bytes s -! blen old).
    destruct (rewarm_spec k (set_memory_order o (set_memory_bytes b s2))) as (mem&pm&mm&e&a&E&Em&Ep&Hh).
    rewrite E. set (s2' := retier mem pm mm e a s2).
    assert (retiered (<[k := v]> (memv s)) (pmemv s) s s2') as Hr2.
    { eapply retiered_meta; [exact Hr|]. apply retiered_intro; [exact Em|exact Ep|exact Hh]. }
    split.
    + change (rel (wrote k v) (blen v) s (set_memory_bytes (b + blen v) (set_memory_order o s2'))).
      apply rel_enter_memory; try done.
      * apply tracks_touch. replace (b + blen v) with (memory_bytes s - blen old + blen v) by (unfold b, sat_sub; lia).
        by apply tracks_replace.
      * unfold b, sat_sub. lia.
    + assert (memv s2 = <[k := v]> (memv s) /\ pmemv s2 = pmemv s) as [F1 F2]
        by by destruct Hr as (?&?&?&?&?&->&?&?&_).
      split; [exact (eq_trans Em F1)|exact (eq_trans Ep F2)].
  - rewrite E1. cbn [memory_bytes set_memory_order]. rewrite E2. split.
    + apply rel_enter_memory; try done. by apply tracks_new.
    + by destruct Hr as (?&?&?&?&?&->&?&?&_).
Qed.

Lemma put_memory_rel k v s :
  inv s -> total s + blen v <= isize_max ->
  let '(kept, s') := put_memory_shared k v s in
  rel (wrote k v) (if kept then blen v else 0) s s' /\
  (if kept then memv s' ⊆ <[k := v]> (memv s) else meta_only s s').
Proof.
  intros Hi Ht. unfold put_memory_shared, instant. cbn zeta iota beta.
  case_if.
  { split; [apply rel_meta; [done|]|]; auto with meta_only. }
  set (s1 := upd_aux _ _). assert (meta_only s s1) as H1 by (unfold s1; auto with meta_only). clearbody s1.
  case_if.
  { split; [apply rel_meta; [done|]|]; auto with meta_only. }
  set (s2 := add_stat _ _ (add_stat _ _ s1)). assert (meta_only s s2) as H2 by (unfold s2; auto with meta_only).
  clearbody s2. pose proof (rel_meta (wrote k v) _ _ Hi H2) as R2. pose proof (r_total _ _ _ _ R2) as Ht2.
  assert (memv s2 = memv s) as E2 by by destruct H2 as (?&?&?&?&?&->&?&?&_).
  destruct (make_resident_spec k v s2) as [Ho Hr]. destruct (make_resident k v s2) as [old s3].
  cbn [fst snd] in Ho, Hr.
  pose proof (enter_memory_rel k v s2 s3 old (r_inv _ _ _ _ R2) Ho Hr) as (R4 & E3 & E4).
  set (s4 := match old with Some _ => _ | None => _ end) in R4, E3, E4.
  match goal with |- context [set_memory_bytes (memory_bytes ?x + _) _] => change x with s4 end.
  set (s5 := set_memory_bytes (memory_bytes s4 + blen v) s4) in *.
  change (memv s4) with (memv s5) in E3. clearbody s5. clear s4 E4 Hr.
  pose proof (rel_trans _ _ _ _ _ _ R2 R4) as R. pose proof (r_total _ _ _ _ R) as Ht5.
  unfold evict_memory_to_capacity_since.
  destruct (evict_memory_loop_rel (wrote k v) (S (length (ord_ins (memory_order s5))))
    (instant_now (tick (aux s))) s5 (r_inv _ _ _ _ R) ltac:(lia)) as (R6 & E6).
  split.
  - apply (rel_weaken _ (0 + blen v + 0)); [lia|]. exact (rel_trans _ _ _ _ _ _ R R6).
  - by rewrite <- E2, <- E3.
Qed.

(** ** Making room and dropping stale copies *)

Lemma make_room_rel W fuel k n s :
  inv s -> rel W 0 s (make_room_loop fuel k n s).2 /\ memv (make_room_loop fuel k n s).2 = memv s /\
  pmemv (make_room_loop fuel k n s).2 = pmemv s /\
  ((make_room_loop fuel k n s).1 = true ->
   projected_ssd_install_bytes k n (make_room_loop fuel k n s).2 <= ssd_capacity_bytes (cfg s)).
Proof.
  revert s. induction fuel as [|fuel IH]; intros s Hi; cbn [make_room_loop].
  { split_and!; auto using rel_refl. by intros. }
  cbn zeta. destruct (_ <=? ssd_capacity_bytes (cfg s)) eqn:E; cbn [fst snd].
  { zbool. split_and!; auto using rel_refl. }
  match goal with |- context [evict_ssd_for_batch ?i s] => set (inc := i) end.
  pose proof (evict_ssd_rel W inc s Hi) as (R & E1 & E2 & _). set (s1 := evict_ssd_for_batch inc s) in *.
  clearbody s1. destruct (_ <=? ssd_bytes s1) eqn:E3; cbn [fst snd].
  { split_and!; try done. }
  destruct (IH s1 (r_inv _ _ _ _ R)) as (R2 & E4 & E5 & E6). rewrite (r_cfg _ _ _ _ R) in E6.
  split_and!; [exact (rel_trans _ _ _ _ _ _ R R2)|congruence..|done].
Qed.

Lemma drop_memory_rel W k s :
  inv s -> (exists v, W k v) ->
  rel W 0 s (drop_stale_tier_copy k Memory s).2 /\ memv (drop_stale_tier_copy k Memory s).2 = delete k (memv s) /\
  pmemv (drop_stale_tier_copy k Memory s).2 = pmemv s /\ (drop_stale_tier_copy k Memory s).1 = Ok tt.
Proof.
  intros Hi Hw. unfold drop_stale_tier_copy.
  replace (resident_value s k) with (memv s !! k) by (unfold memv; by rewrite lookup_fmap).
  destruct (memv s !! k) as [old|] eqn:Hk; cbn [fst snd].
  - destruct (take_resident_spec k s) as [Ho Hr]. destruct (take_resident k s) as [o s2]. cbn [fst snd] in Ho, Hr.
    rewrite Hk in Ho. subst o. cbn zeta.
    destruct Hr as (mem&pm&mm&e&a&->&Em&Ep&Hh).
    pose proof (rel_leave_memory W k old s
      (retier mem pm mm e a (set_memory_order (ord_remove k (memory_order s)) s)) Hi (or_intror Hw) Hk
      (retiered_intro _ _ (set_memory_order (ord_remove k (memory_order s)) s) mem pm mm e a Em Ep Hh)) as R.
    split_and!; [|exact Em|exact Ep|done].
    apply (rel_weaken _ (- blen old)); [pose proof (blen_nonneg old); lia|].
    eapply rel_meta_r; [exact R|].
    match goal with |- meta_only ?x ?y =>
      change y with (add_stat "stale_tier_copies_dropped" 1 (put_stat "memory_bytes" (memory_bytes s -! blen old) x)) end.
    auto with meta_only.
  - rewrite delete_id by done. split_and!; try done.
    pose proof Hi as (H1 & H2 & H3 & H4 & H5 & H6). apply rel_intro; try done.
    + split_and!; try done. by apply tracks_remove_absent.
    + unfold total. cbn. lia.
    + intros x. by left.
Qed.

Lemma drop_pmem_rel W k s :
  inv s -> (exists v, W k v) ->
  let '(r, s') := drop_stale_tier_copy k Pmem s in
  rel W 0 s s' /\ memv s' = memv s /\ (r = Ok tt -> pmemv s' = delete k (pmemv s)).
Proof.
  intros Hi Hw. unfold drop_stale_tier_copy.
  assert (exists r s1, meta_only s s1 /\
    (if decide (is_Some (pmem s !! k)) then
       let '(r, s0) := persist_pmem_delete k s in
       match r with Ok _ => (Ok tt, note_ssd_probe_mutation k s0) | Err e => (Err e, s0) end
     else (Ok tt, s)) = (r, s1)) as (r & s1 & H1 & ->).
  { destruct (decide _); [|eexists _, _; split; [apply meta_only_refl|done]].
    pose proof (persist_delete_spec k s s (meta_only_refl s)) as Hm.
    destruct (persist_pmem_delete k s) as [[[]|e] s0]; cbn [snd] in Hm; eexists _, _; (split; [|done]);
      auto with meta_only. }
  pose proof (rel_meta W _ _ Hi H1) as R1. 
  assert (memv s1 = memv s /\ pmemv s1 = pmemv s) as [E1 E2] by by destruct H1 as (?&?&?&?&?&->&?&?&_).
  destruct r as [[]|e]; [|split_and!; auto; done].
  destruct (take_pmem_resident_spec k s1) as [Ho Hr]. destruct (take_pmem_resident k s1) as [o s2]. cbn [fst snd] in Ho, Hr.
  destruct Hr as (mem&pm&mm&e&a&->&Em&Ep&Hh). destruct (pmemv s1 !! k) as [old|] eqn:Hk; subst o; cbn zeta.
  - pose proof (rel_leave_pmem W k old s1
      (retier mem pm mm e a (set_pmem_order (ord_remove k (pmem_order s1)) s1)) (r_inv _ _ _ _ R1) (or_intror Hw) Hk
      (retiered_intro _ _ (set_pmem_order (ord_remove k (pmem_order s1)) s1) mem pm mm e a Em Ep Hh)) as R.
    split_and!; [|by rewrite <- E1|intros _; by rewrite <- E2].
    apply (rel_weaken _ (0 + - blen old)); [pose proof (blen_nonneg old); lia|].
    eapply rel_trans; [exact R1|]. eapply rel_meta_r; [exact R|].
    match goal with |- meta_only ?x ?y =>
      change y with (add_stat "stale_tier_copies_dropped" 1 (put_stat "pmem_bytes" (pmem_bytes s1 -! blen old) x)) end.
    auto with meta_only.
  - split_and!; [|by rewrite <- E1|intros _; by rewrite <- E2].
    apply (rel_weaken _ (0 + 0)); [lia|]. eapply rel_trans; [exact R1|].
    rewrite delete_id in Ep by done.
    eapply (rel_meta_l _ _ _ (retier mem pm mm e a s1)); [apply R1|apply retiered_intro; [exact Em|exact Ep|exact Hh]|].
    intros Hi2. pose proof Hi2 as (H1' & H2 & H3 & H4 & H5 & H6). apply rel_intro; try done.
    + split_and!; try done. apply tracks_remove_absent; [done|].
      exact (eq_trans (f_equal (fun m => m !! k) Ep) Hk).
    + unfold total. cbn. lia.
    + intros x. by left.
Qed.
End place.
