(* ===== verification/EnginePut.v ===== *)
(** * The cache engine: the write path

    Expiry removal, the sweep, the three halves of a write and the write
    itself, in [rel] with the state they start from. *)

From S2P Require Import Prelude Types Ordering EntryMeta Victim VictimFacts VictimSpec BlockCodec WriteBudget.
From S2P Require Import FrequencySketch KeyOrder KeyOrderSpec EngineState Engine EngineWrite EngineInv.
From S2P Require Import EngineInv EngineEvict EnginePlace.

Section put.
Context {Ord : Type} {RO : RecencyOrder Ord} {ENV : Env} {ZS : Zstd} {ZL : ZstdLaws ZS}.
Implicit Types (s : Cache Ord) (k : CacheKey) (v : bytes).

(** ** Departures *)

Lemma leave_memory_rel W k b s :
  inv s -> is_pinned s k = false \/ (exists v, W k v) ->
  rel W 0 s (leave_memory_tier k b s).2 /\ memv (leave_memory_tier k b s).2 = delete k (memv s) /\
  pmemv (leave_memory_tier k b s).2 = pmemv s /\ disk_index (leave_memory_tier k b s).2 = disk_index s /\
  ssd_store (leave_memory_tier k b s).2 = ssd_store s /\ (leave_memory_tier k b s).1 = memv s !! k.
Proof.
  intros Hi Hw. unfold leave_memory_tier. destruct (take_resident_spec k s) as [Ho Hr].
  destruct (take_resident k s) as [o s2]. cbn [fst snd] in *.
  destruct Hr as (mem&pm&mm&e&a&->&Em&Ep&Hh). subst o. destruct (memv s !! k) as [old|] eqn:Hk.
  - cbn zeta. split_and!; try (by destruct b). apply (rel_weaken _ (- blen old)); [pose proof (blen_nonneg old); lia|].
    pose proof (rel_leave_memory W k old s (retier mem pm mm e a (set_memory_order (ord_remove k (memory_order s)) s))
      Hi Hw Hk (retiered_intro _ _ (set_memory_order (ord_remove k (memory_order s)) s) mem pm mm e a Em Ep Hh)) as R.
    destruct b; [|exact R]. exact (rel_meta_r _ _ _ _ _ R (meta_only_put_stat "memory_bytes" _ _ _ (meta_only_refl _))).
  - split_and!; try done. rewrite delete_id in Em by done.
    apply (rel_meta_l _ _ _ (retier mem pm mm e a s) _ Hi); [by apply retiered_intro|].
    intros (H1 & H2 & H3 & H4 & H5 & H6). apply rel_intro; try done.
    + split_and!; try done. apply tracks_remove_absent; [done|]. exact (eq_trans (f_equal (fun m => m !! k) Em) Hk).
    + unfold total. cbn. lia.
    + intros x. by left.
Qed.

Lemma leave_pmem_rel W k b s :
  inv s -> is_pinned s k = false \/ (exists v, W k v) ->
  rel W 0 s (leave_pmem_tier k b s).2 /\ memv (leave_pmem_tier k b s).2 = memv s /\
  pmemv (leave_pmem_tier k b s).2 = delete k (pmemv s) /\ disk_index (leave_pmem_tier k b s).2 = disk_index s /\
  ssd_store (leave_pmem_tier k b s).2 = ssd_store s /\ (leave_pmem_tier k b s).1 = pmemv s !! k.
Proof.
  intros Hi Hw. unfold leave_pmem_tier. destruct (take_pmem_resident_spec k s) as [Ho Hr].
  destruct (take_pmem_resident k s) as [o s2]. cbn [fst snd] in *.
  destruct Hr as (mem&pm&mm&e&a&->&Em&Ep&Hh). subst o. destruct (pmemv s !! k) as [old|] eqn:Hk.
  - cbn zeta. split_and!; try (by destruct b). apply (rel_weaken _ (- blen old)); [pose proof (blen_nonneg old); lia|].
    pose proof (rel_leave_pmem W k old s (retier mem pm mm e a (set_pmem_order (ord_remove k (pmem_order s)) s))
      Hi Hw Hk (retiered_intro _ _ (set_pmem_order (ord_remove k (pmem_order s)) s) mem pm mm e a Em Ep Hh)) as R.
    destruct b; [|exact R]. exact (rel_meta_r _ _ _ _ _ R (meta_only_put_stat "pmem_bytes" _ _ _ (meta_only_refl _))).
  - split_and!; try done. rewrite delete_id in Ep by done.
    apply (rel_meta_l _ _ _ (retier mem pm mm e a s) _ Hi); [by apply retiered_intro|].
    intros (H1 & H2 & H3 & H4 & H5 & H6). apply rel_intro; try done.
    + split_and!; try done. apply tracks_remove_absent; [done|]. exact (eq_trans (f_equal (fun m => m !! k) Ep) Hk).
    + unfold total. cbn. lia.
    + intros x. by left.
Qed.

(** ** Expiry *)

Lemma is_pinned_or W n s s' k :
  rel W n s s' -> is_pinned s k = false \/ (exists v, W k v) -> is_pinned s' k = false \/ (exists v, W k v).
Proof. intros R [H|H]; [left|by right]. by rewrite (r_pin _ _ _ _ R). Qed.

Lemma delete_ssd_block_rel W k s :
  inv s -> is_pinned s k = false \/ (exists v, W k v) -> disk_index s !! k = None ->
  rel W 0 s (delete_ssd_block k s).2 /\ memv (delete_ssd_block k s).2 = memv s /\
  pmemv (delete_ssd_block k s).2 = pmemv s /\ disk_index (delete_ssd_block k s).2 = disk_index s /\
  ((delete_ssd_block k s).1 = Ok tt -> ssd_store_enabled (cfg s) = true ->
   ssd_store (delete_ssd_block k s).2 = delete k (ssd_store s)) /\
  (forall x, x <> k -> ssd_store (delete_ssd_block k s).2 !! x = ssd_store s !! x).
Proof.
  intros Hi Hw Hk. unfold delete_ssd_block, device. cbn zeta.
  set (s1 := note_ssd_probe_mutation k s). assert (meta_only s s1) as H1 by (unfold s1; auto with meta_only).
  clearbody s1. pose proof (rel_meta W _ _ Hi H1) as R.
  assert (cfg s1 = cfg s /\ memv s1 = memv s /\ pmemv s1 = pmemv s /\ disk_index s1 = disk_index s /\
          ssd_store s1 = ssd_store s) as (E1 & E2 & E3 & E4 & E5) by by destruct H1 as (?&?&?&?&?&->&?&?&_).
  rewrite E1. destruct (ssd_store_enabled (cfg s)); cbn [negb].
  2: { cbn [fst snd]. rewrite E5. split_and!; done. }
  cbn zeta iota beta. destruct (io_ok _); cbn [fst snd].
  - cbn [ssd_store set_ssd_store]. rewrite <- E5. split_and!; try done.
    + assert (meta_only s1 (next_tick s1)) as H2 by auto with meta_only.
      pose proof (rel_meta_r _ _ _ _ _ R H2) as R2. apply (rel_weaken _ (0 + 0)); [lia|].
      eapply rel_trans; [exact R2|]. apply (rel_unstore W [k] (next_tick s1) (r_inv _ _ _ _ R2)).
      intros x ->%list_elem_of_singleton. split; [by apply (is_pinned_or _ _ _ _ _ R2)|]. cbn. by rewrite E4.
    + intros x Hx. by apply lookup_delete_ne.
  - change (ssd_store (next_tick s1)) with (ssd_store s1). rewrite E5. split_and!; try done.
    eapply rel_meta_r; [exact R|]. auto with meta_only.
Qed.

Lemma leave_disk_index_fields k s :
  memv (leave_disk_index k s) = memv s /\ pmemv (leave_disk_index k s) = pmemv s /\
  disk_index (leave_disk_index k s) = delete k (disk_index s) /\
  ssd_store (leave_disk_index k s) = ssd_store s /\ cfg (leave_disk_index k s) = cfg s.
Proof.
  unfold leave_disk_index. destruct (disk_index s !! k) eqn:E; [done|].
  rewrite delete_id by done. done.
Qed.

Lemma leave_disk_index_rel W k s :
  inv s -> is_pinned s k = false \/ (exists v, W k v) -> rel W 0 s (leave_disk_index k s).
Proof.
  intros Hi Hw. unfold leave_disk_index. destruct (disk_index s !! k) as [n|] eqn:E.
  - pose proof (rel_unindex W k s Hi Hw) as R. unfold unindex in R. rewrite E in R.
    exact (rel_meta_r _ _ _ _ _ R (meta_only_put_stat "disk_bytes" _ _ _ (meta_only_refl _))).
  - pose proof Hi as (H1 & H2 & H3 & H4 & H5 & H6). apply rel_intro; try done.
    + split_and!; try done. by apply tracks_remove_absent.
    + unfold total. cbn. lia.
    + intros x. by left.
Qed.

Lemma drop_ssd_copy_rel W k s :
  inv s -> (exists v, W k v) ->
  let '(r, s') := drop_ssd_copy k s in
  rel W 0 s s' /\ memv s' = memv s /\ pmemv s' = pmemv s /\
  (r = Ok tt -> disk_index s' = delete k (disk_index s) /\
                (ssd_store_enabled (cfg s) = true -> ssd_store s' = delete k (ssd_store s))).
Proof.
  intros Hi Hw. unfold drop_ssd_copy, delete_ssd_block, device. cbn zeta.
  set (s1 := note_ssd_probe_mutation k s). assert (meta_only s s1) as H1 by (unfold s1; auto with meta_only).
  clearbody s1. pose proof (rel_meta W _ _ Hi H1) as R.
  assert (cfg s1 = cfg s /\ memv s1 = memv s /\ pmemv s1 = pmemv s /\ disk_index s1 = disk_index s /\
          ssd_store s1 = ssd_store s) as (E1 & E2 & E3 & E4 & E5) by by destruct H1 as (?&?&?&?&?&->&?&?&_).
  rewrite E1. destruct (ssd_store_enabled (cfg s)); cbn [negb].
  2: { destruct (leave_disk_index_fields k s1) as (F1 & F2 & F3 & F4 & F5). rewrite F1, F2, F3, E4.
       split_and!; try done. apply (rel_weaken _ (0 + 0)); [lia|]. eapply rel_trans; [exact R|].
       apply leave_disk_index_rel; [apply R|by right]. }
  cbn zeta iota beta. destruct (io_ok _).
  2: { split_and!; try done. eapply rel_meta_r; [exact R|]. auto with meta_only. }
  set (s2 := set_ssd_store _ (next_tick s1)).
  destruct (leave_disk_index_fields k s2) as (F1 & F2 & F3 & F4 & F5). rewrite F1, F2, F3, F4.
  split_and!; try done; [|intros _; cbn; by rewrite E4, E5].
  pose proof (rel_meta_r _ _ _ _ _ R (meta_only_tick _ _ (meta_only_refl s1))) as R2.
  pose proof (leave_disk_index_rel W k (next_tick s1) (r_inv _ _ _ _ R2) (or_intror Hw)) as R3.
  destruct (leave_disk_index_fields k (next_tick s1)) as (G1 & G2 & G3 & G4 & G5).
  assert (leave_disk_index k s2 = set_ssd_store (delete k (ssd_store (leave_disk_index k (next_tick s1))))
            (leave_disk_index k (next_tick s1))) as ->.
  { rewrite G4. unfold leave_disk_index, s2. cbn. by destruct (disk_index s1 !! k). }
  pose proof (rel_trans _ _ _ _ _ _ R2 R3) as R4. apply (rel_weaken _ (0 + 0 + 0)); [lia|].
  eapply rel_trans; [exact R4|]. apply (rel_unstore W [k] _ (r_inv _ _ _ _ R4)).
  intros x ->%list_elem_of_singleton. split; [by right|]. rewrite G3. apply lookup_delete_eq.
Qed.

(** ** Expired entries *)

Lemma remove_expired_rel W k s :
  inv s -> is_pinned s k = false \/ (exists v, W k v) ->
  rel W 0 s (remove_expired_entry k s) /\ memv (remove_expired_entry k s) = delete k (memv s) /\
  pmemv (remove_expired_entry k s) = delete k (pmemv s) /\
  disk_index (remove_expired_entry k s) = delete k (disk_index s) /\
  (forall x, x <> k -> ssd_store (remove_expired_entry k s) !! x = ssd_store s !! x).
Proof.
  intros Hi Hw. unfold remove_expired_entry. cbn zeta.
  destruct (leave_memory_rel W k true s Hi Hw) as (R1 & A1 & A2 & A3 & A4 & _).
  destruct (leave_memory_tier k true s) as [t1 s1]. cbn [fst snd] in *.
  destruct (leave_pmem_rel W k true s1 (r_inv _ _ _ _ R1) (is_pinned_or _ _ _ _ _ R1 Hw)) as (R2 & B1 & B2 & B3 & B4 & _).
  destruct (leave_pmem_tier k true s1) as [t2 s2]. cbn [fst snd] in *.
  pose proof (persist_delete_spec k s2 s2 (meta_only_refl s2)) as M1.
  destruct (persist_pmem_delete k s2) as [d s3]. cbn [snd] in M1.
  set (s4 := if is_ok d then s3 else _). assert (meta_only s2 s4) as M2 by (unfold s4; auto with meta_only).
  clearbody s4. set (dep := departing_from Pmem _ _ _). clearbody dep.
  assert (exists dep' s5, (if notifying s && bool_decide (dep = None) then
      let '(v, s0) := read_ssd_value_for_eviction k s4 in
      (if bool_decide (v = []) then None else Some (Ssd, v), s0) else (dep, s4)) = (dep', s5) /\ meta_only s2 s5)
    as (dep' & s5 & -> & M3).
  { destruct (notifying s && _); [|by eexists _, _].
    pose proof (read_for_eviction_spec k s2 s4 M2) as M3. destruct (read_ssd_value_for_eviction k s4) as [v s0].
    by eexists _, _. }
  pose proof (rel_trans _ _ _ _ _ _ R1 R2) as R12. pose proof (rel_meta_r _ _ _ _ _ R12 M3) as R5.
  pose proof (is_pinned_or _ _ _ _ _ R5 Hw) as Hw5.
  pose proof (leave_disk_index_rel W k s5 (r_inv _ _ _ _ R5) Hw5) as R6.
  destruct (leave_disk_index_fields k s5) as (G1 & G2 & G3 & G4 & _). set (s6 := leave_disk_index k s5) in *. clearbody s6.
  assert (disk_index s6 !! k = None) as Hn by (rewrite G3; apply lookup_delete_eq).
  destruct (delete_ssd_block_rel W k s6 (r_inv _ _ _ _ R6) (is_pinned_or _ _ _ _ _ R6 Hw5) Hn)
    as (R7 & D1 & D2 & D3 & D4 & D5).
  destruct (delete_ssd_block k s6) as [d2 s7]. cbn [fst snd] in *.
  match goal with |- rel _ _ _ ?x /\ _ => assert (meta_only s7 x) as M8 end.
  { assert (meta_only s7 (forget_metadata_of k (if is_ok d2 then s7 else add_stat "expired_delete_failures" 1 s7))).
    { eapply meta_only_trans; [|apply forget_metadata_spec]. auto with meta_only. }
    destruct dep' as [[]|]; auto with meta_only. }
  pose proof (rel_trans _ _ _ _ _ _ R5 R6) as R56. pose proof (rel_trans _ _ _ _ _ _ R56 R7) as R.
  split; [exact (rel_meta_r _ _ _ _ _ R M8)|].
  destruct M3 as (?&?&?&?&?&->&?&?&_), M8 as (?&?&?&?&?&->&?&?&_). unfold memv, pmemv in *. cbn in *.
  split_and!; [congruence..|]. intros y Hy. rewrite D5 by done. congruence.
Qed.

Lemma dedup_elem l x : x ∈ dedup l -> x ∈ l.
Proof.
  induction l as [|a l IH]; cbn; [done|]. destruct (dedup l) as [|b l'] eqn:E.
  - intros ->%list_elem_of_singleton. left.
  - case_decide; subst; intros Hx; [right; auto|].
    apply elem_of_cons in Hx as [->|Hx]; [left|right; auto].
Qed.

Lemma sort_keys_elem l x : x ∈ sort_keys l <-> x ∈ l.
Proof. unfold sort_keys. by rewrite merge_sort_Permutation. Qed.

Lemma sweep_keys_rel W keys s :
  inv s -> (forall x, x ∈ keys -> is_pinned s x = false) ->
  rel W 0 s (fold_left (fun s k => remove_expired_entry k s) keys s).
Proof.
  revert s. induction keys as [|k keys IH]; intros s Hi Hk; cbn; [by apply rel_refl|].
  destruct (remove_expired_rel W k s Hi (or_introl (Hk k (list_elem_of_here _ _)))) as (R & _).
  apply (rel_weaken _ (0 + 0)); [lia|]. eapply rel_trans; [exact R|]. apply IH; [apply R|].
  intros x Hx. rewrite (r_pin _ _ _ _ R). by apply Hk; right.
Qed.

Lemma sweep_rel W s : inv s -> rel W 0 s (sweep_some_expired s).
Proof.
  intros Hi. unfold sweep_some_expired, coarse. case_if; [by apply rel_refl|]. cbn zeta iota beta.
  apply (rel_meta_l _ _ _ (next_tick s) _ Hi); [auto with meta_only|]. intros Hi2.
  apply sweep_keys_rel; [done|]. intros x Hx. apply dedup_elem in Hx. rewrite sort_keys_elem in Hx.
  assert (forall o now, x ∈ expired_in_window (next_tick s) now o -> is_pinned (next_tick s) x = false) as H.
  { intros o now. unfold expired_in_window. rewrite !list_elem_of_filter. tauto. }
  rewrite !elem_of_app in Hx. destruct Hx as [?|[?|?]]; eauto.
Qed.

Lemma unpinned_entry_rel W k s :
  inv s -> is_pinned s k = false -> rel W 0 s (set_pins (delete k (pins s)) s).
Proof.
  intros Hi Hp. split; try done.
  - unfold total. cbn. lia.
  - intros x. unfold is_pinned in *. cbn. case_match; [done|].
    destruct (decide (x = k)) as [->|]; [|by rewrite lookup_delete_ne].
    rewrite lookup_delete_eq, Hp. by apply bool_decide_eq_false_2; intros [? ?].
  - intros x v Hv. by left.
Qed.

(** ** The halves of a write *)

Section halves.
Context (k : CacheKey) (v : bytes) (request : CacheAdmissionRequest) (decision : CacheAdmissionDecision).
Abbreviation W := (wrote k v).

Lemma wrote_ex : exists w, W k w.
Proof. by exists v. Qed.

(** Memory would take the value. *)
Definition memory_accepts (c : Config) : Prop :=
  admission_filter_enabled c = false /\ 0 < memory_capacity_bytes c /\ blen v <= memory_capacity_bytes c.

(** So would the persistent tier. *)
Definition pmem_accepts (c : Config) : Prop :=
  0 < pmem_capacity_bytes c /\ blen v <= pmem_capacity_bytes c /\
  (has_pmem_tier c = false \/ forall n, io_ok n = true).

Lemma put_memory_accepts s : memory_accepts (cfg s) -> (put_memory_shared k v s).1 = true.
Proof.
  intros (Hf & Hc & Hv). unfold put_memory_shared, instant. cbn zeta iota beta.
  change (cfg (next_tick s)) with (cfg s).
  replace (_ || _) with false by (symmetry; apply orb_false_iff; lia).
  set (s1 := upd_aux _ _). assert (meta_only s s1) as H1 by (unfold s1; auto with meta_only).
  unfold candidate_beats_the_victim.
  assert (cfg s1 = cfg s) as -> by by destruct H1 as (?&?&?&?&?&->&_).
  rewrite Hf. cbn [negb]. by destruct (make_resident _ _ _).
Qed.

Lemma put_pmem_accepts s : pmem_accepts (cfg s) -> (put_pmem_shared k v s).1 = true.
Proof.
  intros (Hc & Hv & Hd). unfold put_pmem_shared, put_pmem_shared_with_persistence, instant. cbn zeta iota beta.
  set (s1 := next_tick _). assert (meta_only s s1) as H1 by (unfold s1; auto with meta_only).
  assert (cfg s1 = cfg s) as E by by destruct H1 as (?&?&?&?&?&->&_). rewrite E.
  replace (_ || _) with false by (symmetry; apply orb_false_iff; lia).
  unfold persist_pmem_put, device. rewrite E. destruct Hd as [->|Hd]; cbn [negb].
  - by destruct (make_pmem_resident _ _ _).
  - destruct (has_pmem_tier (cfg s)); cbn [negb]; [rewrite Hd|]; by destruct (make_pmem_resident _ _ _).
Qed.

Lemma put_memory_copy_rel to_memory s :
  inv s -> total s + 2 * blen v <= isize_max ->
  let '(r, s') := put_memory_copy k v request decision to_memory s in
  (exists via : bool, r = Ok via /\ rel W (if via then 2 * blen v else blen v) s s') /\
  (ssd_instance_only (cfg s) = false -> (to_memory = true -> memory_accepts (cfg s)) ->
   r = Ok false /\ forall w, memv s' !! k = Some w -> w = v).
Proof.
  intros Hi Ht. pose proof (blen_nonneg v) as Hv. unfold put_memory_copy. destruct to_memory.
  - set (s1 := record_metadata _ _ _ _ _ _ s). assert (meta_only s s1) as H1 by (unfold s1; auto with meta_only).
    clearbody s1. pose proof (rel_meta W _ _ Hi H1) as R1. pose proof (r_total _ _ _ _ R1) as Ht1.
    pose proof (put_memory_rel k v s1 (r_inv _ _ _ _ R1) ltac:(lia)) as H2.
    pose proof (put_memory_accepts s1) as Hacc. rewrite (r_cfg _ _ _ _ R1) in Hacc.
    destruct (put_memory_shared k v s1) as [kept s2], H2 as [R2 E2]. cbn [fst] in Hacc.
    pose proof (rel_trans _ _ _ _ _ _ R1 R2) as R.
    destruct kept; cbn [negb andb].
    + split; [exists false; split; [done|]; by apply (rel_weaken _ (0 + blen v)); [lia|]|].
      intros _ _. split; [done|]. intros w Hw. eapply lookup_weaken in Hw; [|exact E2].
      rewrite lookup_insert_eq in Hw. congruence.
    + assert (forall (via : bool) s', rel W (if via then 2 * blen v else blen v) s s' ->
        (exists via' : bool, Ok via = Ok via' /\ rel W (if via' then 2 * blen v else blen v) s s') /\
        (ssd_instance_only (cfg s) = false -> (true = true -> memory_accepts (cfg s)) ->
         @Ok bool via = Ok false /\ forall w, memv s' !! k = Some w -> w = v)) as Hfin.
      { intros via s' Rs. split; [by exists via|]. intros _ Ha. by specialize (Hacc (Ha eq_refl)). }
      case_if; [|apply Hfin; apply (rel_weaken _ (0 + 0)); [lia|done]].
      set (s3 := record_metadata _ _ _ _ _ _ s2). assert (meta_only s2 s3) as H3 by (unfold s3; auto with meta_only).
      clearbody s3. pose proof (rel_meta_r _ _ _ _ _ R H3) as R3. pose proof (r_total _ _ _ _ R3) as Ht3.
      pose proof (put_pmem_rel k v s3 (r_inv _ _ _ _ R3) ltac:(lia)) as H4.
      destruct (put_pmem_shared k v s3) as [in_pmem s4], H4 as (R4 & _). apply Hfin.
      apply (rel_weaken _ (0 + 0 + (if in_pmem then blen v else 0))); [destruct in_pmem; lia|].
      exact (rel_trans _ _ _ _ _ _ R3 R4).
  - destruct (ssd_instance_only (cfg s)); cbn [negb].
    { split; [exists false; split; [done|]; by apply (rel_weaken _ 0), rel_refl|done]. }
    assert (meta_only s (add_stat "memory_admission_rejected" 1 s)) as H1 by auto with meta_only.
    pose proof (rel_meta W _ _ Hi H1) as R1.
    destruct (drop_memory_rel W k _ (r_inv _ _ _ _ R1) wrote_ex) as (R2 & E2 & _ & E4).
    destruct (drop_stale_tier_copy k Memory _) as [r s2]. cbn [fst snd] in *. subst r.
    split; [exists false; split; [done|]; apply (rel_weaken _ (0 + 0)); [lia|exact (rel_trans _ _ _ _ _ _ R1 R2)]|].
    intros _ _. split; [done|]. rewrite E2. intros w. by rewrite lookup_delete_eq.
Qed.

Lemma put_pmem_copy_rel to_pmem via s :
  inv s -> total s + blen v <= isize_max ->
  let '(r, s') := put_pmem_copy k v request decision to_pmem via s in
  rel W (if via then 0 else blen v) s s' /\ memv s' = memv s /\
  (ssd_instance_only (cfg s) = false -> via = false -> (to_pmem = true -> pmem_accepts (cfg s)) -> r = Ok tt ->
   forall w, pmemv s' !! k = Some w -> w = v).
Proof.
  intros Hi Ht. pose proof (blen_nonneg v) as Hv. unfold put_pmem_copy.
  destruct (to_pmem && negb via) eqn:E.
  - zbool. subst. set (s1 := record_metadata _ _ _ _ _ _ s).
    assert (meta_only s s1) as H1 by (unfold s1; auto with meta_only). clearbody s1.
    pose proof (rel_meta W _ _ Hi H1) as R1. pose proof (r_total _ _ _ _ R1) as Ht1.
    assert (memv s1 = memv s) as E1 by by destruct H1 as (?&?&?&?&?&->&?&?&_).
    pose proof (put_pmem_rel k v s1 (r_inv _ _ _ _ R1) ltac:(lia)) as H2.
    pose proof (put_pmem_accepts s1) as Hacc. rewrite (r_cfg _ _ _ _ R1) in Hacc.
    destruct (put_pmem_shared k v s1) as [kept s2], H2 as (R2 & E2 & E3). cbn [fst snd] in *.
    split_and!; [|congruence|].
    + apply (rel_weaken _ (0 + (if kept then blen v else 0))); [destruct kept; lia|exact (rel_trans _ _ _ _ _ _ R1 R2)].
    + intros _ _ Ha _ w Hw. rewrite Hacc in E3 by auto. eapply lookup_weaken in Hw; [|exact E3].
      rewrite lookup_insert_eq in Hw. congruence.
  - assert (0 <= (if via then 0 else blen v)) by (destruct via; lia).
    destruct (ssd_instance_only (cfg s)); cbn [negb].
    { split_and!; [by apply (rel_weaken _ 0), rel_refl|done|done]. }
    assert (meta_only s (add_stat "pmem_admission_rejected" 1 s)) as H1 by auto with meta_only.
    pose proof (rel_meta W _ _ Hi H1) as R1. destruct via; cbn [negb].
    { split_and!; [done..|by intros]. }
    pose proof (drop_pmem_rel W k _ (r_inv _ _ _ _ R1) wrote_ex) as H2.
    destruct (drop_stale_tier_copy k Pmem _) as [r s2], H2 as (R2 & E2 & E3).
    split_and!; [|done|].
    + apply (rel_weaken _ (0 + 0)); [lia|exact (rel_trans _ _ _ _ _ _ R1 R2)].
    + intros _ _ _ Hr w. rewrite E3 by done. by rewrite lookup_delete_eq.
Qed.

(** What an installed copy must be. *)
Definition ssd_copy_is s : Prop :=
  forall block, ssd_store_enabled (cfg s) = true -> is_Some (disk_index s !! k) -> ssd_store s !! k = Some block ->
  decode_cache_block block = Ok v.

Lemma projected_fits n s :
  inv s -> 0 <= n -> projected_ssd_install_bytes k n s <= ssd_capacity_bytes (cfg s) ->
  (match disk_index s !! k with Some old => ssd_bytes s -! old | None => ssd_bytes s end) +! n
  = ssd_bytes s - default 0 (disk_index s !! k) + n.
Proof.
  intros ((_ & _ & _ & Hc) & _ & _ & H4 & _) Hn. pose proof (tracks_nonneg _ _ _ _ H4) as Hb.
  unfold projected_ssd_install_bytes. cbn zeta. destruct (disk_index s !! k) as [old|] eqn:E; cbn [default from_option].
  - pose proof (tracks_lookup_le _ _ _ _ _ _ H4 E) as Ho. cbn in Ho.
    case_if; zbool; unfold sat_add, sat_sub, u64_max in *; cbn [id] in *; lia.
  - case_if; zbool; unfold sat_add, sat_sub, u64_max in *; lia.
Qed.

(** Index, bytes and order of the block just written. *)
Lemma install_rel block s :
  inv s -> decode_cache_block block = Ok v -> 0 < blen block -> projected_ssd_install_bytes k (blen block) s <= ssd_capacity_bytes (cfg s) ->
  let s1 := set_disk_index (<[k := blen block]> (disk_index s)) (stored k block s) in
  let s2 := match disk_index s !! k with
            | Some old_len => set_ssd_bytes (ssd_bytes s1 -! old_len) s1
            | None => s1
            end in
  let s3 := set_disk_order (ord_insert k (disk_order s2)) s2 in
  let s4 := set_ssd_bytes (ssd_bytes s3 +! blen block) s3 in
  rel W 0 s s4 /\ memv s4 = memv s /\ pmemv s4 = pmemv s /\ ssd_copy_is s4.
Proof.
  intros Hi Hd Hpos Hp. pose proof (projected_fits (blen block) s Hi (blen_nonneg _) Hp) as Hb.
  pose proof (stored_fields k block s) as (F1&F2&F3&F4&F5&F6&F7&F8&F9&F10&F11&F12&F13).
  pose proof (rel_installed k v block s Hi Hd Hpos) as R. cbn zeta.
  match goal with |- rel _ _ _ ?x /\ _ =>
    replace x with (installed k block (ssd_bytes s - default 0 (disk_index s !! k) + blen block) s) end.
  - split_and!; [exact R|unfold memv; cbn; by rewrite F2|unfold pmemv; cbn; by rewrite F3|].
    intros b Hs _ Hst. cbn in Hs, Hst. rewrite F1 in Hs. rewrite stored_lookup, Hs, lookup_insert_eq in Hst.
    congruence.
  - unfold installed. rewrite <- Hb. destruct (disk_index s !! k); cbn; by rewrite F8, F11.
Qed.

(** A refusal, or a failure before anything was installed. *)
Lemma ssd_untouched (r : result bool) s s' :
  inv s -> meta_only s s' -> r <> Ok true ->
  rel W 0 s s' /\ memv s' = memv s /\ pmemv s' = pmemv s /\ (r = Ok true -> ssd_copy_is s').
Proof. intros Hi Hm Hr. split; [by apply rel_meta|]. by destruct Hm as (?&?&?&?&?&->&?&?&_). Qed.

Lemma count_refusal_meta a b s s' : meta_only s s' -> meta_only s (count_ssd_refusal a b s').
Proof. intros Hm. unfold count_ssd_refusal. cbn zeta. destruct a, b; auto with meta_only. Qed.

Lemma colder_check_meta block s s' :
  meta_only s s' ->
  meta_only s (if ssd_capacity_bytes (cfg s') <? projected_ssd_install_bytes k (blen block) s'
    then incoming_ssd_block_is_colder_than_existing_groups k request (blen v) s' else (false, s')).2.
Proof. intros Hm. case_if; [|done]. by apply colder_spec. Qed.

Lemma put_ssd_copy_rel to_ssd s :
  inv s -> blen v < 2 ^ 63 ->
  let '(r, s') := put_ssd_copy k v request decision to_ssd s in
  rel W 0 s s' /\ memv s' = memv s /\ pmemv s' = pmemv s /\ (r = Ok true -> ssd_copy_is s').
Proof.
  intros Hi Hv. unfold put_ssd_copy. cbn zeta.
  pose proof (fun r s' => ssd_untouched r s s' Hi) as Hdone. pose proof count_refusal_meta as Hcount.
  destruct to_ssd; cbn [negb]; [|apply Hdone; [apply Hcount; auto with meta_only|done]].
  case_if; [apply Hdone; [apply Hcount; auto with meta_only|done]|].
  pose proof (budget_admits_spec k s s (meta_only_refl s)) as M1.
  destruct (ssd_write_budget_admits k s) as [ok s1]. cbn [snd] in M1.
  destruct ok; cbn [negb]; [|apply Hdone; [auto with meta_only|done]].
  set (s2 := if ssd_write_through _ && _ then _ else s1).
  assert (meta_only s s2) as M2 by (unfold s2; auto with meta_only). clearbody s2.
  destruct (encode_cache_block v (block_options (cfg s2))) as [block|e] eqn:Henc; [|by apply Hdone].
  pose proof (encode_decode v (block_options (cfg s2)) block Hv Henc) as Hdec.
  case_if; [apply Hdone; [apply Hcount; auto with meta_only|done]|].
  pose proof (colder_check_meta block s s2 M2) as M3.
  destruct (if ssd_capacity_bytes (cfg s2) <? _ then _ else _) as [colder s3]. cbn [snd] in M3.
  destruct colder; [apply Hdone; [apply Hcount; auto with meta_only|done]|].
  pose proof (rel_meta W _ _ Hi M3) as R3. destruct (Hdone (Ok false) s3 M3) as (_ & A1 & A2 & _); [done|].
  unfold make_room_for_ssd_install.
  pose proof (make_room_rel W (S (length (ord_ins (disk_order s3)))) k (blen block) s3 (r_inv _ _ _ _ R3))
    as (R4 & A3 & A4 & Hroom).
  destruct (make_room_loop _ _ _ _) as [room s4]. cbn [fst snd] in *.
  pose proof (rel_trans _ _ _ _ _ _ R3 R4) as R. cbn in R.
  assert (forall s5, meta_only s4 s5 -> rel W 0 s s5 /\ memv s5 = memv s /\ pmemv s5 = pmemv s) as Hdone2.
  { intros s5 Hm. split; [exact (rel_meta_r _ _ _ _ _ R Hm)|]. destruct Hm as (?&?&?&?&?&->&?&?&_).
    unfold memv, pmemv in *. cbn. split; congruence. }
  destruct room; cbn [negb].
  2: { destruct (Hdone2 (count_ssd_refusal true false s4)) as (? & ? & ?); [apply Hcount; auto with meta_only|].
       split_and!; done. }
  set (s5 := if is_encoded_compressed_block block then _ else s4).
  assert (meta_only s4 s5) as M5 by (unfold s5; auto with meta_only). clearbody s5.
  destruct (write_ssd_block_spec k block s5) as (s6 & M6 & Hw).
  destruct (write_ssd_block k block s5) as [written s7]. cbn [fst snd] in Hw.
  pose proof (meta_only_trans _ _ _ M5 M6) as M46. destruct (Hdone2 s6 M46) as (R6 & A5 & A6).
  destruct written as [[]|e]; subst s7; [|by split_and!].
  assert (projected_ssd_install_bytes k (blen block) s6 <= ssd_capacity_bytes (cfg s6)) as Hfit.
  { rewrite (r_cfg _ _ _ _ R6), <- (r_cfg _ _ _ _ R3). specialize (Hroom eq_refl).
    by destruct M46 as (?&?&?&?&?&->&_). }
  destruct (install_rel block s6 (r_inv _ _ _ _ R6) Hdec (encode_pos _ _ _ Henc) Hfit) as (R8 & A7 & A8 & Hc).
  pose proof (stored_fields k block s6) as (_&_&_&_&F5&_). rewrite F5.
  match goal with |- rel _ _ _ (add_stat _ _ (add_stat _ _ (add_stat _ _ (record_metadata _ _ _ _ _ _ ?x)))) /\ _ =>
    set (s8 := x) in * end.
  match goal with |- rel _ _ _ ?x /\ _ => assert (meta_only s8 x) as M9 by auto with meta_only end.
  split_and!.
  - exact (rel_meta_r _ _ _ _ _ (rel_trans _ _ _ _ _ _ R6 R8) M9).
  - destruct M9 as (?&?&?&?&?&->&?&?&_). unfold memv in *. cbn in *. congruence.
  - destruct M9 as (?&?&?&?&?&->&?&?&_). unfold pmemv in *. cbn in *. congruence.
  - intros _. destruct M9 as (?&?&?&?&?&->&?&?&_). exact Hc.
Qed.

(** ** The write *)

(** The tiers that the decision admits the value to would take it. *)
Definition tiers_accept (d : CacheAdmissionDecision) (c : Config) : Prop :=
  ssd_instance_only c = false /\ (admit_memory d = true -> memory_accepts c) /\
  (admit_pmem d = true -> pmem_accepts c).

Lemma len_bound s : inv s -> total s + 2 * blen v <= isize_max -> blen v < 2 ^ 63.
Proof.
  intros (_ & H2 & H3 & _) Ht. apply tracks_nonneg in H2, H3. pose proof (blen_nonneg v).
  unfold total, isize_max in *. lia.
Qed.
End halves.

Definition request_or_default k v (request : option CacheAdmissionRequest) s : CacheAdmissionRequest :=
  match request with Some r => r | None => default_request s k (blen v) end.

(** The persistent-memory step, with the value already handed to the SSD
    ([via]) or not. *)
Lemma put_pmem_step_rel k v rq d to_p (via : bool) s :
  inv s -> (via = false -> total s + blen v <= isize_max) ->
  let '(r, s') := put_pmem_copy k v rq d to_p via s in
  rel (wrote k v) (if via then 0 else blen v) s s' /\ memv s' = memv s /\
  (ssd_instance_only (cfg s) = false -> via = false -> (to_p = true -> pmem_accepts v (cfg s)) -> r = Ok tt ->
   forall w, pmemv s' !! k = Some w -> w = v).
Proof.
  intros Hi Ht. destruct via; [|by apply put_pmem_copy_rel; auto].
  unfold put_pmem_copy. rewrite andb_false_r.
  destruct (ssd_instance_only (cfg s)); cbn [negb]; (split_and!; [|done|done]); [by apply rel_refl|].
  apply rel_meta; [done|auto with meta_only].
Qed.

Lemma put_inner_rel k v request s :
  inv s -> total s + 2 * blen v <= isize_max ->
  let '(r, s') := put_with_request_inner k v request s in
  rel (wrote k v) (2 * blen v) s s' /\
  (forall rq, request = Some rq -> tiers_accept v (policy_decide (tiering_policy (cfg s)) rq) (cfg s) ->
   forall b, r = Ok b -> (forall w, memv s' !! k = Some w \/ pmemv s' !! k = Some w -> w = v) /\
                         (b = true -> ssd_copy_is k v s')).
Proof.
  intros Hi Ht. pose proof (len_bound v s Hi Ht) as Hlen. pose proof (blen_nonneg v) as Hv.
  unfold put_with_request_inner. cbn zeta.
  pose proof (sweep_rel (wrote k v) s Hi) as R0. set (s0 := sweep_some_expired s) in *. clearbody s0.
  set (s1 := if negb (is_pinned s0 k) then _ else s0).
  assert (rel (wrote k v) 0 s s1) as R1.
  { unfold s1. destruct (is_pinned s0 k) eqn:Hp; cbn [negb]; [done|]. apply (rel_weaken _ (0 + 0)); [lia|].
    eapply rel_trans; [exact R0|]. apply unpinned_entry_rel; [apply R0|done]. }
  clearbody s1. clear s0 R0. pose proof (r_total _ _ _ _ R1) as Ht1. rewrite (r_cfg _ _ _ _ R1).
  change (match request with Some r => r | None => default_request s1 k (blen v) end)
    with (request_or_default k v request s1).
  set (rq := request_or_default k v request s1). set (d := policy_decide (tiering_policy (cfg s)) rq).
  match goal with |- context [put_memory_copy k v rq d ?m s1] => set (to_m := m) end.
  pose proof (put_memory_copy_rel k v rq d to_m s1 (r_inv _ _ _ _ R1) ltac:(lia)) as H2.
  destruct (put_memory_copy k v rq d to_m s1) as [r2 s2], H2 as [(via & -> & R2) Hm].
  pose proof (rel_trans _ _ _ _ _ _ R1 R2) as R12. pose proof (r_total _ _ _ _ R12) as Ht2.
  match goal with |- context [put_pmem_copy k v rq d ?m via s2] => set (to_p := m) end.
  pose proof (put_pmem_step_rel k v rq d to_p via s2 (r_inv _ _ _ _ R2) ltac:(intros ->; lia)) as H3.
  destruct (put_pmem_copy k v rq d to_p via s2) as [r3 s3], H3 as (R3 & A1 & Hpm).
  pose proof (rel_trans _ _ _ _ _ _ R12 R3) as R13.
  assert (rel (wrote k v) (2 * blen v) s s3) as R by (refine (rel_weaken _ _ _ _ _ _ R13); destruct via; lia).
  destruct r3 as [[]|e]; [|split; [done|by intros]].
  match goal with |- context [put_ssd_copy k v rq d ?m s3] => set (to_s := m) end.
  pose proof (put_ssd_copy_rel k v rq d to_s s3 (r_inv _ _ _ _ R3) Hlen) as H4.
  destruct (put_ssd_copy k v rq d to_s s3) as [r4 s4], H4 as (R4 & A2 & A3 & Hc).
  split; [apply (rel_weaken _ (2 * blen v + 0)); [lia|exact (rel_trans _ _ _ _ _ _ R R4)]|].
  intros rq' -> (Ho & Hma & Hpa) b ->. subst rq d to_m to_p. cbn [request_or_default] in *.
  rewrite (r_cfg _ _ _ _ R1) in Hm. rewrite (r_cfg _ _ _ _ R12) in Hpm.
  destruct Hm as [[= ->] Hm]; [done|intros [? _]%andb_prop; auto|].
  split; [|by intros ->; apply Hc]. intros w [Hw|Hw].
  - apply Hm. congruence.
  - apply Hpm; [done|done|intros [? _]%andb_prop; auto|done|congruence].
Qed.

Lemma stale_check k v outcome s :
  let '(r, s') := ssd_copy_stale k v outcome s in
  meta_only s s' /\ (outcome = Ok false -> r = Ok false -> ssd_copy_is k v s').
Proof.
  unfold ssd_copy_stale. destruct outcome as [[]|e]; try (split; [apply meta_only_refl|done]).
  destruct (bool_decide (is_Some (disk_index s !! k))) eqn:E; zbool.
  2: { split; [apply meta_only_refl|]. intros _ _ block _ H. by destruct E. }
  unfold read_ssd_block, device. destruct (ssd_store_enabled (cfg s)) eqn:Es; cbn [negb].
  2: { split; [apply meta_only_refl|]. intros _ _ block H. congruence. }
  cbn zeta iota beta. destruct (io_ok _); (split; [auto with meta_only|]); [|done].
  intros _ Hr block _ _ Hb. change (ssd_store (next_tick s)) with (ssd_store s) in *.
  rewrite Hb in Hr. rewrite matches_decode_ok in Hr.
  destruct (decode_cache_block block) as [w|] eqn:Ed; cbn in Hr; [|done].
  case_bool_decide; [congruence|done].
Qed.

Lemma put_shared_rel k v request s :
  inv s -> total s + 2 * blen v <= isize_max ->
  let '(r, s') := put_with_request_shared k v request s in
  rel (wrote k v) (2 * blen v) s s' /\
  (forall rq, request = Some rq -> tiers_accept v (policy_decide (tiering_policy (cfg s)) rq) (cfg s) ->
   r = Ok tt -> (forall w, memv s' !! k = Some w \/ pmemv s' !! k = Some w -> w = v) /\ ssd_copy_is k v s').
Proof.
  intros Hi Ht. unfold put_with_request_shared.
  pose proof (put_inner_rel k v request s Hi Ht) as H1.
  destruct (put_with_request_inner k v request s) as [outcome s1], H1 as [R1 Hf1].
  pose proof (stale_check k v outcome s1) as H2. destruct (ssd_copy_stale k v outcome s1) as [stale s2], H2 as [M2 Hf2].
  pose proof (rel_meta_r _ _ _ _ _ R1 M2) as R2.
  assert (memv s2 = memv s1 /\ pmemv s2 = pmemv s1) as [E1 E2] by by destruct M2 as (?&?&?&?&?&->&?&?&_).
  destruct stale as [stale|e]; [|by split; [|intros]].
  assert (let '(r, s3) := if stale then drop_ssd_copy k s2 else (Ok tt, s2) in
    rel (wrote k v) 0 s2 s3 /\ memv s3 = memv s2 /\ pmemv s3 = pmemv s2 /\
    (r = Ok tt -> forall b, outcome = Ok b -> (b = true -> ssd_copy_is k v s1) -> ssd_copy_is k v s3)) as H3.
  { destruct stale.
    - pose proof (drop_ssd_copy_rel (wrote k v) k s2 (r_inv _ _ _ _ R2) (wrote_ex k v)) as H3.
      destruct (drop_ssd_copy k s2) as [r s3], H3 as (R3 & F1 & F2 & F3). split_and!; try done.
      intros -> b _ _ block Hs [n Hn]. destruct F3 as [F3 _]; [done|]. by rewrite F3, lookup_delete_eq in Hn.
    - split_and!; [by apply rel_refl; apply R2|done..|]. intros _ [] -> Hb.
      + destruct M2 as (?&?&?&?&?&->&_). intros block. by apply Hb.
      + by apply Hf2. }
  destruct (if stale then drop_ssd_copy k s2 else (Ok tt, s2)) as [r s3], H3 as (R3 & E3 & E4 & Hf3).
  pose proof (rel_trans _ _ _ _ _ _ R2 R3) as R23.
  assert (rel (wrote k v) (2 * blen v) s s3) as R by (refine (rel_weaken _ _ _ _ _ _ R23); lia).
  destruct r as [[]|e]; [|by split; [|intros]].
  assert (meta_only s3 (forget_metadata_unless_resident k s3)) as M4 by auto with meta_only.
  split; [exact (rel_meta_r _ _ _ _ _ R M4)|].
  intros rq -> Ha Hr. destruct outcome as [b|]; [|done]. destruct (Hf1 rq eq_refl Ha b eq_refl) as [G1 G2].
  specialize (Hf3 eq_refl b eq_refl G2). destruct M4 as (?&?&?&?&?&->&X1&X2&_). split; [|exact Hf3].
  intros w. unfold memv, pmemv in *. cbn. rewrite X1, X2, E3, E4, E1, E2. apply G1.
Qed.
End put.
