(* ===== verification/EngineCapacity.v ===== *)
(** * The cache engine: capacity

    The eviction loops end with their tier under its capacity, or with nothing
    in it but pinned entries; so does a release that reclaims, and a write
    keeps the memory tier so. *)

From S2P Require Import Prelude Types Ordering EntryMeta Victim VictimFacts VictimSpec BlockCodec WriteBudget.
From S2P Require Import FrequencySketch KeyOrder KeyOrderSpec EngineState Engine EngineWrite EngineInv.
From S2P Require Import EngineInv EngineEvict EnginePlace EnginePut.
From S2P Require Import EngineRead.

Section capacity.
Context {Ord : Type} {RO : RecencyOrder Ord} {ENV : Env} {ZS : Zstd} {ZL : ZstdLaws ZS}.
Implicit Types (s : Cache Ord) (k : CacheKey) (v : bytes).

Lemma tracks_length {A} (f : A -> Z) m (o : Ord) n : tracks f m o n -> length (ord_ins o) = size m.
Proof.
  intros (Hw & Hl & _). rewrite <- length_map_to_list, <- (length_fmap fst (map_to_list m)).
  apply Permutation_length, NoDup_Permutation; [by apply ord_nodup|apply NoDup_fst_map_to_list|].
  intros k. rewrite Hl, list_elem_of_fmap. split.
  - intros [a Ha]. exists (k, a). by rewrite elem_of_map_to_list.
  - intros ([x a] & -> & Ha%elem_of_map_to_list). by exists a.
Qed.

Lemma size_delete {A} (m : gmap CacheKey A) k a : m !! k = Some a -> size m = S (size (delete k m)).
Proof.
  intros Hk. rewrite <- (insert_delete_id m k a Hk) at 1. apply map_size_insert_None, lookup_delete_eq.
Qed.

Lemma tracks_delete_neq {A} (f : A -> Z) m (o o' : Ord) n n' k a :
  tracks f m o n -> tracks f (delete k m) o' n' -> m !! k = Some a -> 0 < f a -> n' <> n.
Proof. intros (_ & _ & -> & _) (_ & _ & -> & _) Hk Ha. rewrite (map_sum_delete f m k a Hk). lia. Qed.

Lemma nonempty_pos v : v <> [] -> 0 < blen v.
Proof. destruct v; [done|]. unfold blen. cbn. lia. Qed.

(** No tier would serve an empty value. *)
Definition no_empty s : Prop := forall k v, holds s k v -> v <> [].

Lemma no_empty_rel W n s s' :
  rel W n s s' -> (forall k v, W k v -> v <> []) -> no_empty s -> no_empty s'.
Proof. intros R HW Hn k v [?|?]%(r_holds _ _ _ _ R); eauto. Qed.

Definition nothing_written : CacheKey -> bytes -> Prop := fun _ _ => False.

(** A tier is under its capacity, or all of it is pinned. *)
Definition memory_bounded s : Prop :=
  memory_bytes s <= memory_capacity_bytes (cfg s) \/ forall k, is_Some (memv s !! k) -> is_pinned s k = true.
Definition pmem_bounded s : Prop :=
  pmem_bytes s <= pmem_capacity_bytes (cfg s) \/ forall k, is_Some (pmemv s !! k) -> is_pinned s k = true.
Definition ssd_bounded s : Prop :=
  ssd_bytes s <= ssd_capacity_bytes (cfg s) \/ forall k, is_Some (disk_index s !! k) -> is_pinned s k = true.

Lemma memory_loop_bounded fuel t s :
  inv s -> total s <= isize_max -> no_empty s -> (size (memv s) < fuel)%nat ->
  memory_bounded (evict_memory_loop fuel t s).
Proof.
  revert s. induction fuel as [|fuel IH]; intros s Hi Ht Hn Hf; [lia|]. cbn [evict_memory_loop].
  destruct (_ <? _) eqn:Hover; zbool; [|by left].
  pose proof (select_memory_ok nothing_written s Hi) as Hs. destruct (select_memory_eviction_victim s) as [p s1].
  destruct Hs as (R1 & E1 & Eb & _ & Hv).
  destruct p as [[[victim why] skips]|].
  2: { right. intros k Hk. unfold memv in Hk. cbn in Hk. change (is_pinned s1 k = true).
       rewrite (r_pin _ _ _ _ R1). apply Hv. by rewrite <- E1. }
  destruct Hv as [[old Hk] Hp]. rewrite <- E1 in Hk. rewrite <- (r_pin _ _ _ _ R1) in Hp.
  pose proof (r_total _ _ _ _ R1) as Ht1.
  pose proof (evict_memory_victim_rel nothing_written t victim why skips s1 old
    (r_inv _ _ _ _ R1) ltac:(lia) Hp Hk) as H.
  destruct (evict_memory_victim t victim why skips s1) as [held s2], H as (R2 & -> & E3).
  pose proof (rel_trans _ _ _ _ _ _ R1 R2) as R. cbn in R. cbn [andb].
  pose proof (r_inv _ _ _ _ R1) as (_ & T1 & _). pose proof (r_inv _ _ _ _ R2) as (_ & T2 & _).
  rewrite E3 in T2. assert (old <> []) as Hold by (apply (no_empty_rel _ _ _ _ R1 ltac:(done) Hn victim); by left).
  pose proof (tracks_delete_neq _ _ _ _ _ _ _ _ T1 T2 Hk (nonempty_pos _ Hold)) as Hne.
  rewrite (proj2 (Z.eqb_neq (memory_bytes s2) (memory_bytes s))) by (by rewrite <- Eb).
  pose proof (r_total _ _ _ _ R). apply IH; [apply R|lia|by eapply (no_empty_rel _ _ _ _ R)|].
  rewrite E3. pose proof (size_delete _ _ _ Hk) as Hsz. rewrite E1 in Hsz at 1. lia.
Qed.

Lemma pmem_loop_bounded fuel t s :
  inv s -> total s <= isize_max -> no_empty s -> (size (pmemv s) < fuel)%nat ->
  pmem_bounded (evict_pmem_loop fuel t s).
Proof.
  revert s. induction fuel as [|fuel IH]; intros s Hi Ht Hn Hf; [lia|]. cbn [evict_pmem_loop].
  destruct (_ <? _) eqn:Hover; zbool; [|by left].
  pose proof (select_pmem_ok s Hi) as Hs. destruct (select_pmem_eviction_victim s) as [p s1], Hs as [Hm Hv].
  pose proof (rel_meta nothing_written _ _ Hi Hm) as R1.
  assert (pmemv s1 = pmemv s /\ pmem_bytes s1 = pmem_bytes s) as [E1 Eb] by by destruct Hm as (?&?&?&?&?&->&?&?&_).
  destruct p as [[[victim why] skips]|].
  2: { right. intros k Hk. unfold pmemv in Hk. cbn in Hk. change (is_pinned s1 k = true).
       rewrite (r_pin _ _ _ _ R1). apply Hv. by rewrite <- E1. }
  destruct Hv as [[old Hk] Hp]. rewrite <- E1 in Hk. rewrite <- (r_pin _ _ _ _ R1) in Hp.
  pose proof (r_total _ _ _ _ R1) as Ht1.
  pose proof (evict_pmem_victim_rel nothing_written t victim why skips s1 old
    (r_inv _ _ _ _ R1) ltac:(lia) Hp Hk) as H.
  destruct (evict_pmem_victim t victim why skips s1) as [held s2], H as (R2 & -> & _ & E3).
  pose proof (rel_trans _ _ _ _ _ _ R1 R2) as R. cbn [andb].
  pose proof (r_inv _ _ _ _ R1) as (_ & _ & T1 & _). pose proof (r_inv _ _ _ _ R2) as (_ & _ & T2 & _).
  rewrite E3 in T2.
  assert (old <> []) as Hold by (apply (no_empty_rel _ _ _ _ R1 ltac:(done) Hn victim); right; by left).
  pose proof (tracks_delete_neq _ _ _ _ _ _ _ _ T1 T2 Hk (nonempty_pos _ Hold)) as Hne.
  rewrite (proj2 (Z.eqb_neq (pmem_bytes s2) (pmem_bytes s))) by (by rewrite <- Eb).
  pose proof (r_total _ _ _ _ R). pose proof (blen_nonneg old).
  apply IH; [apply R|lia|by eapply (no_empty_rel _ _ _ _ R)|].
  rewrite E3. pose proof (size_delete _ _ _ Hk) as Hsz. rewrite E1 in Hsz at 1. lia.
Qed.

Lemma ssd_loop_bounded fuel incoming vs s :
  inv s -> (size (disk_index s) < fuel)%nat ->
  let '(vs', s') := evict_ssd_loop fuel incoming vs s in
  ssd_bytes s' +! incoming <= ssd_capacity_bytes (cfg s') \/
  forall k, is_Some (disk_index s' !! k) -> is_pinned s' k = true.
Proof.
  revert vs s. induction fuel as [|fuel IH]; intros vs s Hi Hf; [lia|]. cbn [evict_ssd_loop].
  destruct (_ <? _) eqn:Hover; zbool; [|by left].
  pose proof (select_ssd_ok s Hi) as Hs. destruct (select_ssd_eviction_victim s) as [p s1], Hs as [Hm Hv].
  pose proof (rel_meta nothing_written _ _ Hi Hm) as R1.
  assert (disk_index s1 = disk_index s /\ ssd_bytes s1 = ssd_bytes s) as [E1 Eb] by by destruct Hm as (?&?&?&?&?&->&?&?&_).
  destruct p as [[[victim why] skips]|].
  2: { right. intros k Hk. rewrite (r_pin _ _ _ _ R1). apply Hv. by rewrite <- E1. }
  destruct Hv as [[n Hk] Hp]. rewrite <- E1 in Hk. rewrite <- (r_pin _ _ _ _ R1) in Hp.
  pose proof (evict_ssd_victim_rel nothing_written victim why skips s1 (r_inv _ _ _ _ R1) Hp)
    as (R2 & _ & E3 & _). set (s2 := evict_ssd_victim victim why skips s1) in *. clearbody s2.
  pose proof (rel_trans _ _ _ _ _ _ R1 R2) as R.
  pose proof (r_inv _ _ _ _ R1) as (_ & _ & _ & T1 & _ & S1). pose proof (r_inv _ _ _ _ R2) as (_ & _ & _ & T2 & _).
  rewrite E3 in T2. destruct (S1 _ _ Hk) as [Hpos _].
  pose proof (tracks_delete_neq _ _ _ _ _ _ _ _ T1 T2 Hk Hpos) as Hne.
  rewrite (proj2 (Z.eqb_neq (ssd_bytes s2) (ssd_bytes s))) by (by rewrite <- Eb).
  apply IH; [apply R|]. rewrite E3. pose proof (size_delete _ _ _ Hk) as Hsz. rewrite E1 in Hsz at 1. lia.
Qed.

Lemma evict_ssd_bounded incoming s :
  inv s -> let s' := evict_ssd_for_batch incoming s in
  ssd_bytes s' +! incoming <= ssd_capacity_bytes (cfg s') \/
  forall k, is_Some (disk_index s' !! k) -> is_pinned s' k = true.
Proof.
  intros Hi. unfold evict_ssd_for_batch. pose proof Hi as (_ & _ & _ & T & _).
  pose proof (ssd_loop_bounded (S (length (ord_ins (disk_order s)))) incoming [] s Hi) as H.
  rewrite (tracks_length _ _ _ _ T) in H |- *. specialize (H ltac:(lia)).
  destruct (evict_ssd_loop _ _ _ _) as [vs s1]. cbn zeta. destruct vs as [|k vs]; [done|].
  unfold delete_ssd_blocks. set (s2 := fold_left _ (k :: vs) s1).
  assert (meta_only s1 s2) as M.
  { unfold s2. generalize (meta_only_refl s1). generalize s1 at 2 4. generalize (k :: vs).
    intros l. induction l as [|x l IH]; intros t Ht; cbn; [done|]. by apply IH, meta_only_note. }
  clearbody s2. unfold device. destruct M as (?&?&?&?&?&->&_). repeat case_if; exact H.
Qed.

Lemma map_sum_subseteq {A} (f : A -> Z) (m1 m2 : gmap CacheKey A) :
  (forall a, 0 <= f a) -> m1 ⊆ m2 -> map_sum f m1 <= map_sum f m2.
Proof.
  intros Hf. revert m2. induction m1 as [|k a m1 Hk IH] using map_ind; intros m2 Hs.
  - rewrite map_sum_empty. by apply map_sum_nonneg.
  - rewrite map_sum_insert_new by done.
    assert (m2 !! k = Some a) as H2 by (eapply lookup_weaken; [apply lookup_insert_eq|done]).
    rewrite (map_sum_delete f m2 k a H2). apply Z.add_le_mono_l, IH.
    apply map_subseteq_spec. intros x b Hx. rewrite lookup_delete_ne by congruence.
    eapply lookup_weaken; [|exact Hs]. rewrite lookup_insert_ne by congruence. done.
Qed.

Lemma memory_bounded_mono W n s s' :
  inv s -> rel W n s s' -> memv s' ⊆ memv s -> memory_bounded s -> memory_bounded s'.
Proof.
  intros (_ & (_ & _ & E1 & _) & _) R Hsub [Hb|Hp].
  - left. rewrite (r_cfg _ _ _ _ R). pose proof (r_inv _ _ _ _ R) as (_ & (_ & _ & E2 & _) & _).
    pose proof (map_sum_subseteq blen (memv s') (memv s) blen_nonneg Hsub). lia.
  - right. intros k [v Hk]. rewrite (r_pin _ _ _ _ R). apply Hp. eapply lookup_weaken in Hk; eauto.
Qed.

(** The passes over the three layers that a release makes, one at a time. *)
Lemma memory_pass s t :
  inv s -> total s <= isize_max -> no_empty s ->
  let s' := evict_memory_to_capacity_since t s in
  rel nothing_written 0 s s' /\ memory_bounded s'.
Proof.
  intros Hi Ht Hn. unfold evict_memory_to_capacity_since. split; [by apply evict_memory_loop_rel|].
  apply memory_loop_bounded; [done..|]. destruct Hi as (_ & T & _). rewrite (tracks_length _ _ _ _ T). lia.
Qed.

Lemma pmem_pass s t :
  inv s -> total s <= isize_max -> no_empty s ->
  let s' := evict_pmem_to_capacity_since t s in
  rel nothing_written 0 s s' /\ memv s' = memv s /\ pmem_bounded s'.
Proof.
  intros Hi Ht Hn. unfold evict_pmem_to_capacity_since. cbn zeta.
  destruct (evict_pmem_loop_rel nothing_written (S (length (ord_ins (pmem_order s)))) t s Hi Ht) as (R & E & _).
  split_and!; [done..|]. apply pmem_loop_bounded; [done..|].
  destruct Hi as (_ & _ & T & _). rewrite (tracks_length _ _ _ _ T). lia.
Qed.

Lemma ssd_pass s :
  inv s ->
  let s' := evict_ssd_for_batch 0 s in
  rel nothing_written 0 s s' /\ memv s' = memv s /\ pmemv s' = pmemv s /\ ssd_bounded s'.
Proof.
  intros Hi. cbn zeta. destruct (evict_ssd_rel nothing_written 0 s Hi) as (R & E1 & E2 & _). split_and!; [done..|].
  destruct (evict_ssd_bounded 0 s Hi) as [Hb|Hp]; [left|by right].
  pose proof (r_inv _ _ _ _ R) as ((_ & _ & _ & ?) & _ & _ & T & _).
  apply tracks_nonneg in T. unfold sat_add, u64_max in *. lia.
Qed.

Lemma pmem_bounded_same W n s s' :
  inv s -> rel W n s s' -> pmemv s' = pmemv s -> pmem_bounded s -> pmem_bounded s'.
Proof.
  intros (_ & _ & (_ & _ & Eb & _) & _) R E [Hb|Hp].
  - left. rewrite (r_cfg _ _ _ _ R). pose proof (r_inv _ _ _ _ R) as (_ & _ & (_ & _ & -> & _) & _). rewrite E. lia.
  - right. intros k. rewrite E, (r_pin _ _ _ _ R). apply Hp.
Qed.

Lemma drain_records_meta s : meta_only s (drain_eviction_records s).2.
Proof. unfold drain_eviction_records. case_if; [apply meta_only_refl|]. cbn [snd]. auto with meta_only. Qed.

Lemma reclaim_bounded s :
  inv s -> total s <= isize_max -> no_empty s ->
  let s' := reclaim_after_release s in
  rel nothing_written 0 s s' /\ memory_bounded s' /\ pmem_bounded s' /\ ssd_bounded s'.
Proof.
  intros Hi Ht Hn. unfold reclaim_after_release, instant. cbn zeta iota beta.
  assert (meta_only s (next_tick s)) as M1 by auto with meta_only.
  pose proof (rel_meta nothing_written _ _ Hi M1) as R1. pose proof (r_total _ _ _ _ R1) as Ht1.
  destruct (memory_pass _ (instant_now (tick (aux s))) (r_inv _ _ _ _ R1) ltac:(lia) (no_empty_rel _ _ _ _ R1 ltac:(done) Hn)) as [R2 B2].
  set (s2 := evict_memory_to_capacity_since _ _) in *. clearbody s2. pose proof (rel_trans _ _ _ _ _ _ R1 R2) as R12.
  assert (meta_only s2 (next_tick s2)) as M3 by auto with meta_only. change (memory_bounded (next_tick s2)) in B2.
  pose proof (rel_meta_r _ _ _ _ _ R12 M3) as R3. pose proof (r_total _ _ _ _ R3) as Ht3.
  destruct (pmem_pass _ (instant_now (tick (aux s2))) (r_inv _ _ _ _ R3) ltac:(lia) (no_empty_rel _ _ _ _ R3 ltac:(done) Hn)) as (R4 & E4 & B4).
  set (s3 := next_tick s2) in *. clearbody s3. set (s4 := evict_pmem_to_capacity_since _ _) in *. clearbody s4.
  assert (memory_bounded s4) as B4m by (eapply memory_bounded_mono; [apply R3|exact R4|by rewrite E4|done]).
  destruct (ssd_pass s4 (r_inv _ _ _ _ R4)) as (R5 & E5 & E6 & B5). set (s5 := evict_ssd_for_batch 0 s4) in *. clearbody s5.
  assert (memory_bounded s5) as B5m by (eapply memory_bounded_mono; [apply R4|exact R5|by rewrite E5|done]).
  assert (pmem_bounded s5) as B5p by (eapply pmem_bounded_same; [apply R4|exact R5|done|done]).
  split; [exact (rel_meta_r _ _ _ _ _ (rel_trans _ _ _ _ _ _ (rel_trans _ _ _ _ _ _ R3 R4) R5) (drain_records_meta s5))|].
  unfold drain_eviction_records. by case_if.
Qed.

(** ** Writes keep memory bounded *)

Lemma sweep_memory_subseteq s : inv s -> memv (sweep_some_expired s) ⊆ memv s.
Proof.
  intros Hi. unfold sweep_some_expired, coarse. case_if; [done|]. cbn zeta iota beta.
  set (keys := dedup _).
  assert (forall x, x ∈ keys -> is_pinned (next_tick s) x = false) as Hk.
  { intros x Hx. apply dedup_elem in Hx. rewrite sort_keys_elem in Hx. revert Hx.
    rewrite !elem_of_app. unfold expired_in_window. rewrite !list_elem_of_filter. tauto. }
  change (memv s) with (memv (next_tick s)). change (inv (next_tick s)) in Hi.
  revert Hi Hk. generalize (next_tick s). induction keys as [|k keys IH]; intros t Hi Hk; cbn; [done|].
  destruct (remove_expired_rel nothing_written k t Hi (or_introl (Hk k (list_elem_of_here _ _)))) as (R & E & _).
  transitivity (memv (remove_expired_entry k t)); [|rewrite E; apply delete_subseteq].
  apply IH; [apply R|]. intros x Hx. rewrite (r_pin _ _ _ _ R). by apply Hk; right.
Qed.

Lemma put_memory_bounded k v s :
  inv s -> total s + blen v <= isize_max -> no_empty s -> v <> [] -> memory_bounded s ->
  memory_bounded (put_memory_shared k v s).2.
Proof.
  intros Hi Ht Hn Hv Hb. pose proof (put_memory_rel k v s Hi Ht) as H0. revert H0.
  unfold put_memory_shared, instant. cbn zeta iota beta.
  assert (forall s', meta_only s s' -> memory_bounded s') as Hm.
  { intros s' M. pose proof (rel_meta nothing_written _ _ Hi M) as R.
    eapply memory_bounded_mono; [exact Hi|exact R| |done]. destruct M as (?&?&?&?&?&->&E&_).
    unfold memv in *. cbn. by rewrite E. }
  case_if; [intros _; apply Hm; cbn [snd]; auto with meta_only|].
  set (s1 := upd_aux _ _). assert (meta_only s s1) as H1 by (unfold s1; auto with meta_only). clearbody s1.
  case_if; [intros _; apply Hm; cbn [snd]; auto with meta_only|].
  set (s2 := add_stat _ _ (add_stat _ _ s1)). assert (meta_only s s2) as H2 by (unfold s2; auto with meta_only).
  clearbody s2. intros _. pose proof (rel_meta (wrote k v) _ _ Hi H2) as R2.
  destruct (make_resident_spec k v s2) as [Ho Hr]. destruct (make_resident k v s2) as [old s3].
  cbn [fst snd] in Ho, Hr.
  pose proof (enter_memory_rel k v s2 s3 old (r_inv _ _ _ _ R2) Ho Hr) as (R4 & E3 & E4).
  set (s4 := match old with Some _ => _ | None => _ end) in R4, E3, E4. cbn [snd].
  match goal with |- context [set_memory_bytes (memory_bytes ?x + _) _] => change x with s4 end.
  set (s5 := set_memory_bytes (memory_bytes s4 + blen v) s4) in *.
  pose proof (rel_trans _ _ _ _ _ _ R2 R4) as R. pose proof (r_total _ _ _ _ R) as Ht5.
  unfold evict_memory_to_capacity_since. apply memory_loop_bounded; [apply R|lia| |].
  - eapply (no_empty_rel _ _ _ _ R); [|done]. intros x w [_ ->]. done.
  - pose proof (r_inv _ _ _ _ R) as (_ & T & _). rewrite (tracks_length _ _ _ _ T). lia.
Qed.

Lemma put_memory_copy_bounded k v request decision to_memory s :
  inv s -> total s + 2 * blen v <= isize_max -> no_empty s -> v <> [] -> memory_bounded s ->
  memory_bounded (put_memory_copy k v request decision to_memory s).2.
Proof.
  intros Hi Ht Hn Hv Hb. pose proof (blen_nonneg v) as Hl. unfold put_memory_copy. destruct to_memory.
  - set (s1 := record_metadata _ _ _ _ _ _ s). assert (meta_only s s1) as H1 by (unfold s1; auto with meta_only).
    clearbody s1. pose proof (rel_meta nothing_written _ _ Hi H1) as R1. pose proof (r_total _ _ _ _ R1) as Ht1.
    assert (memv s1 = memv s) as E1 by by destruct H1 as (?&?&?&?&?&->&?&?&_).
    pose proof (put_memory_rel k v s1 (r_inv _ _ _ _ R1) ltac:(lia)) as H2.
    pose proof (put_memory_bounded k v s1 (r_inv _ _ _ _ R1) ltac:(lia)
      (no_empty_rel _ _ _ _ R1 ltac:(done) Hn) Hv
      (memory_bounded_mono _ _ _ _ Hi R1 ltac:(by rewrite E1) Hb)) as B2.
    destruct (put_memory_shared k v s1) as [kept s2], H2 as [R2 _]. cbn [snd] in B2.
    destruct kept; cbn [negb andb]; [done|]. case_if; [|done].
    set (s3 := record_metadata _ _ _ _ _ _ s2). assert (meta_only s2 s3) as H3 by (unfold s3; auto with meta_only).
    clearbody s3. pose proof (rel_meta_r _ _ _ _ _ R2 H3) as R3. pose proof (r_total _ _ _ _ R3) as Ht3.
    pose proof (rel_meta (wrote k v) _ _ (r_inv _ _ _ _ R2) H3) as R23.
    assert (memv s3 = memv s2) as E3 by by destruct H3 as (?&?&?&?&?&->&?&?&_).
    pose proof (put_pmem_rel k v s3 (r_inv _ _ _ _ R3) ltac:(lia)) as H4.
    destruct (put_pmem_shared k v s3) as [in_pmem s4], H4 as (R4 & E4 & _). cbn [snd].
    eapply memory_bounded_mono; [apply R3|exact R4|by rewrite E4|].
    eapply memory_bounded_mono; [apply R2|exact R23|by rewrite E3|done].
  - destruct (ssd_instance_only (cfg s)); cbn [negb]; [done|].
    assert (meta_only s (add_stat "memory_admission_rejected" 1 s)) as H1 by auto with meta_only.
    pose proof (rel_meta (wrote k v) _ _ Hi H1) as R1.
    destruct (drop_memory_rel (wrote k v) k _ (r_inv _ _ _ _ R1) (wrote_ex k v)) as (R2 & E2 & _ & E4).
    destruct (drop_stale_tier_copy k Memory _) as [r s2]. cbn [fst snd] in *. subst r.
    change (memory_bounded s2). eapply memory_bounded_mono; [apply R1|exact R2|rewrite E2; apply delete_subseteq|done].
Qed.

(** The copies of a write, memory first, leave the memory layer within its
    bound. *)
Lemma put_inner_memory_bounded k v request s :
  inv s -> total s + 2 * blen v <= isize_max -> no_empty s -> v <> [] -> memory_bounded s ->
  memory_bounded (put_with_request_inner k v request s).2.
Proof.
  intros Hi Ht Hn Hv Hb. pose proof (len_bound v s Hi Ht) as Hlen. pose proof (blen_nonneg v) as Hl.
  assert (forall k' w, wrote k v k' w -> w <> []) as HW by by intros ? ? [_ ->].
  unfold put_with_request_inner. cbn zeta.
  pose proof (sweep_rel (wrote k v) s Hi) as R0. pose proof (sweep_memory_subseteq s Hi) as S0.
  set (s0 := sweep_some_expired s) in *. clearbody s0. pose proof (memory_bounded_mono _ _ _ _ Hi R0 S0 Hb) as B0.
  set (s1 := if negb (is_pinned s0 k) then _ else s0).
  assert (rel (wrote k v) 0 s0 s1 /\ memv s1 = memv s0) as [R1 E1].
  { unfold s1. destruct (is_pinned s0 k) eqn:Hp; cbn [negb]; [split; [by apply rel_refl; apply R0|done]|].
    split; [|done]. apply unpinned_entry_rel; [apply R0|done]. }
  clearbody s1. pose proof (memory_bounded_mono _ _ _ _ (r_inv _ _ _ _ R0) R1 ltac:(by rewrite E1) B0) as B1.
  pose proof (rel_trans _ _ _ _ _ _ R0 R1) as R01. pose proof (r_total _ _ _ _ R01) as Ht1.
  pose proof (no_empty_rel _ _ _ _ R01 HW Hn) as Hn1.
  set (rq := match request with Some r => r | None => _ end).
  set (d := policy_decide (tiering_policy (cfg s1)) rq).
  match goal with |- context [put_memory_copy k v rq d ?m s1] => set (to_m := m) end.
  pose proof (put_memory_copy_rel k v rq d to_m s1 (r_inv _ _ _ _ R1) ltac:(lia)) as H2.
  pose proof (put_memory_copy_bounded k v rq d to_m s1 (r_inv _ _ _ _ R1) ltac:(lia) Hn1 Hv B1) as B2.
  destruct (put_memory_copy k v rq d to_m s1) as [r2 s2], H2 as [(via & -> & R2) _]. cbn [snd] in B2.
  match goal with |- context [put_pmem_copy k v rq d ?m via s2] => set (to_p := m) end.
  pose proof (r_total _ _ _ _ R2) as Ht2.
  pose proof (put_pmem_step_rel k v rq d to_p via s2 (r_inv _ _ _ _ R2) ltac:(intros ->; lia)) as H3.
  destruct (put_pmem_copy k v rq d to_p via s2) as [r3 s3], H3 as (R3 & E3 & _).
  pose proof (memory_bounded_mono _ _ _ _ (r_inv _ _ _ _ R2) R3 ltac:(by rewrite E3) B2) as B3.
  destruct r3 as [[]|e]; [|done].
  match goal with |- context [put_ssd_copy k v rq d ?m s3] => set (to_s := m) end.
  pose proof (put_ssd_copy_rel k v rq d to_s s3 (r_inv _ _ _ _ R3) Hlen) as H4.
  destruct (put_ssd_copy k v rq d to_s s3) as [r4 s4], H4 as (R4 & E4 & _). cbn [snd].
  eapply memory_bounded_mono; [apply R3|exact R4|by rewrite E4|done].
Qed.

Lemma drop_if_stale_rel k v (stale : bool) s :
  inv s ->
  let '(r, s') := if stale then drop_ssd_copy k s else (Ok tt, s) in
  rel (wrote k v) 0 s s' /\ memv s' = memv s.
Proof.
  intros Hi. destruct stale; [|split; [by apply rel_refl|done]].
  pose proof (drop_ssd_copy_rel (wrote k v) k s Hi (wrote_ex k v)) as H.
  by destruct (drop_ssd_copy k s), H as (? & ? & _).
Qed.

Lemma put_keeps_memory_bounded k v request s :
  inv s -> total s + 2 * blen v <= isize_max -> no_empty s -> v <> [] -> memory_bounded s ->
  memory_bounded (put_with_request_shared k v request s).2.
Proof.
  intros Hi Ht Hn Hv Hb. pose proof (put_inner_memory_bounded k v request s Hi Ht Hn Hv Hb) as B1.
  assert (rel (wrote k v) (2 * blen v) s (put_with_request_inner k v request s).2) as R1.
  { pose proof (put_inner_rel k v request s Hi Ht) as R. by destruct (put_with_request_inner k v request s), R. }
  unfold put_with_request_shared. destruct (put_with_request_inner k v request s) as [outcome s1]. cbn [snd] in *.
  pose proof (stale_check k v outcome s1) as H2. destruct (ssd_copy_stale k v outcome s1) as [stale s2], H2 as [M2 _].
  pose proof (rel_meta (wrote k v) _ _ (r_inv _ _ _ _ R1) M2) as R2.
  assert (memv s2 = memv s1) as E2 by by destruct M2 as (?&?&?&?&?&->&?&?&_).
  pose proof (memory_bounded_mono _ _ _ _ (r_inv _ _ _ _ R1) R2 ltac:(by rewrite E2) B1) as B2.
  destruct stale as [stale|e]; [|done].
  pose proof (drop_if_stale_rel k v stale s2 (r_inv _ _ _ _ R2)) as H3.
  destruct (if stale then drop_ssd_copy k s2 else (Ok tt, s2)) as [r s3], H3 as (R3 & E3).
  pose proof (memory_bounded_mono _ _ _ _ (r_inv _ _ _ _ R2) R3 ltac:(by rewrite E3) B2) as B3.
  destruct r as [[]|e]; [|done]. cbn [snd].
  assert (meta_only s3 (forget_metadata_unless_resident k s3)) as M4 by auto with meta_only.
  eapply memory_bounded_mono; [apply R3|exact (rel_meta (wrote k v) _ _ (r_inv _ _ _ _ R3) M4)| |done].
  destruct M4 as (?&?&?&?&?&->&E&_). unfold memv in *. cbn. by rewrite E.
Qed.
End capacity.

(** ** A small instance

    A key order, an environment and a configuration the engine runs on, for
    the witnesses and the concrete runs. *)

(** A clock that moves a millisecond a question, and a device that never
    fails. *)
#[export] Instance demo_env : Env := {|
  key_hash k := shard_id k;
  io_ok _ := true;
  coarse_now n := Z.of_nat n;
  instant_now n := Z.of_nat n * 1000000;
  refresh_window _ := 0;
  same_allocation _ := true
|}.

#[export] Instance demo_zstd : Zstd := run_zstd.
#[export] Instance demo_zstd_laws : ZstdLaws demo_zstd := run_zstd_laws.

(** Tiers of the given capacities, with the default policy scaled to them. *)
Definition demo_config (memory pmem ssd ttl : Z) : Config :=
  mkConfig memory pmem ssd
    (mkPolicy memory pmem ssd Tiered 1024 8 4 2 1024 4096 16384 true)
    (mkBlockOptions CompressionNone 16) true false false false true
    WeightedHotnessLru WeightedHotnessLru WeightedHotnessLru 100 false ttl (0 <? ttl) false (0 <? ssd).

Definition demo_aux : Aux :=
  mkAux ∅ (with_capacity 1) None false unlimited 0 0 (replicate 8 0) [] [] false 0.

Definition fresh_cache (c : Config) : Cache CacheKeyOrder :=
  mkCache c ∅ ∅ ∅ ∅ ∅ ∅ new_order new_order new_order 0 0 0 ∅ 0 demo_aux.

Definition key (n : Z) : CacheKey := mkKey n "ns" "record" "page".
Definition payload (b : Byte.byte) (n : nat) : bytes := replicate n b.

Fixpoint puts (writes : list (CacheKey * bytes)) (s : Cache CacheKeyOrder) : Cache CacheKeyOrder :=
  match writes with
  | [] => s
  | (k, v) :: rest => puts rest (snd (put k v s))
  end.
