(* ===== verification/EngineSpec.v ===== *)
(** * The cache engine: what writes and releases promise *)

From S2P Require Import Prelude Types Ordering EntryMeta Victim VictimFacts VictimSpec BlockCodec WriteBudget.
From S2P Require Import FrequencySketch KeyOrder KeyOrderFacts KeyOrderSpec EngineState Engine EngineWrite.
From S2P Require Import EngineRead EngineInv EngineEvict EnginePlace EnginePut EngineCapacity.
From S2P Require Import EngineCapacity.

Section claims.
Context {Ord : Type} {RO : RecencyOrder Ord} {ENV : Env} {ZS : Zstd} {ZL : ZstdLaws ZS}.
Implicit Types (s : Cache Ord) (k : CacheKey) (v : bytes).

Lemma put_shared_rel' k v request s :
  inv s -> total s + 2 * blen v <= isize_max ->
  rel (wrote k v) (2 * blen v) s (put_with_request_shared k v request s).2.
Proof.
  intros Hi Ht. pose proof (put_shared_rel k v request s Hi Ht) as H.
  by destruct (put_with_request_shared k v request s), H.
Qed.

(** C1. A write keeps the engine's invariant, whatever it admits, refuses,
    demotes or evicts and whichever device operations fail: each tier's order
    lists exactly the tier's keys, each byte counter is the total of the sizes
    it counts, metadata has one home, and every indexed block is in the store
    with its recorded length. *)
Theorem write_keeps_invariant k v request s :
  inv s -> total s + 2 * blen v <= isize_max -> inv (put_with_request_shared k v request s).2.
Proof. intros Hi Ht. apply (r_inv _ _ _ _ (put_shared_rel' k v request s Hi Ht)). Qed.

(** C2. A write invents nothing: whatever any tier would serve afterwards,
    for any key, some tier would have served before, or it is the value
    written under the key written.  Demotions, refused admissions and failed
    deletions never mix up keys or values. *)
Theorem write_invents_nothing k v request s k' w :
  inv s -> total s + 2 * blen v <= isize_max ->
  holds (put_with_request_shared k v request s).2 k' w -> holds s k' w \/ (k' = k /\ w = v).
Proof. intros Hi Ht. apply (r_holds _ _ _ _ (put_shared_rel' k v request s Hi Ht)). Qed.

(** C3. An entry that is pinned keeps every copy it has, in every tier, over
    a write of another key: neither the sweep nor any eviction touches it. *)
Theorem pinned_copies_survive k v request s k' :
  inv s -> total s + 2 * blen v <= isize_max -> is_pinned s k' = true -> k' <> k ->
  copies (put_with_request_shared k v request s).2 k' = copies s k'.
Proof.
  intros Hi Ht Hp Hne. apply (r_kept _ _ _ _ (put_shared_rel' k v request s Hi Ht)); [done|].
  by intros w [? _].
Qed.

(** C4. When the tiers the decision names would take the value and the write
    returns [Ok], no older value of the key is left behind: the memory copy,
    the persistent copy and the indexed block, where there is one, are the
    value just written. *)
Theorem rewrite_leaves_no_stale_copy k v rq s s' :
  inv s -> total s + 2 * blen v <= isize_max ->
  tiers_accept v (policy_decide (tiering_policy (cfg s)) rq) (cfg s) ->
  put_with_request_shared k v (Some rq) s = (Ok tt, s') ->
  (forall w, memv s' !! k = Some w \/ pmemv s' !! k = Some w -> w = v) /\ ssd_copy_is k v s'.
Proof.
  intros Hi Ht Ha He. pose proof (put_shared_rel k v (Some rq) s Hi Ht) as H. rewrite He in H.
  by apply (proj2 H rq).
Qed.

(** C5. When no value held is empty, releasing a handle restores the bounds:
    after [reclaim_after_release] each tier is under its capacity or holds nothing
    but pinned entries, the invariant is kept, and nothing is held that was
    not held before.  With an empty value they may stay exceeded: see
    [empty_value_stalls_eviction]. *)
Theorem release_restores_bounds s :
  inv s -> total s <= isize_max -> no_empty s ->
  let s' := reclaim_after_release s in
  memory_bounded s' /\ pmem_bounded s' /\ ssd_bounded s' /\ inv s' /\
  forall k v, holds s' k v -> holds s k v.
Proof.
  intros Hi Ht Hn. destruct (reclaim_bounded s Hi Ht Hn) as (R & B1 & B2 & B3).
  split_and!; try done; [apply R|]. by intros k v [?|?]%(r_holds _ _ _ _ R).
Qed.

(** C6. When the memory tier is under its capacity or holds nothing but pinned
    entries, no value held is empty and the value written is not either, it is
    so again after the write.  Empty values are excluded: see
    [empty_value_stalls_eviction]. *)
Theorem write_keeps_memory_bounded k v request s :
  inv s -> total s + 2 * blen v <= isize_max -> no_empty s -> v <> [] -> memory_bounded s ->
  memory_bounded (put_with_request_shared k v request s).2.
Proof. apply put_keeps_memory_bounded. Qed.

(** The public [put] around it. *)
Lemma put_public_rel k v s :
  inv s -> total s + 2 * blen v <= isize_max -> rel (wrote k v) (2 * blen v) s (put k v s).2.
Proof.
  intros Hi Ht. pose proof (blen_nonneg v). unfold put, instant. cbn zeta iota beta.
  assert (meta_only s (next_tick s)) as M1 by auto with meta_only.
  pose proof (rel_meta (wrote k v) _ _ Hi M1) as R1.
  case_if; [by apply (rel_weaken _ 0); [lia|]|].
  pose proof (put_shared_rel' k v None _ (r_inv _ _ _ _ R1) Ht) as R2.
  destruct (put_with_request_shared k v None (next_tick s)) as [r s2]. cbn [snd] in *.
  match goal with |- rel _ _ _ ?x => assert (meta_only s2 x) as M3 end.
  { unfold record_put_latency, instant, drain_eviction_records. cbn zeta iota beta.
    repeat case_if; cbn [snd]; auto 10 with meta_only. }
  refine (rel_meta_r _ _ _ _ _ _ M3). apply (rel_weaken _ (0 + 2 * blen v)); [lia|].
  exact (rel_trans _ _ _ _ _ _ R1 R2).
Qed.
End claims.

(** ** Witnesses *)

Lemma fresh_inv c : cfg_ok c -> inv (fresh_cache c).
Proof.
  intros Hc. assert (ord_wf new_order /\ ord_ins new_order = []) as [Hw He].
  { split; [|done]. cbn. split; [|done]. exists [], [], (fun _ => empty_key). apply new_order_ok. }
  assert (forall {A} (f : A -> Z), tracks f (∅ : gmap CacheKey A) new_order 0) as Ht.
  { intros A f. split_and!; [done| |by rewrite map_sum_empty|by intros k a ?%lookup_empty_Some].
    intros k. rewrite He, lookup_empty. split; [by intros ?%not_elem_of_nil|by intros [? ?]]. }
  split_and!; done.
Qed.

Lemma fresh_holds_nothing c k v : ~ holds (fresh_cache c) k v.
Proof. unfold holds, memv, pmemv. cbn. rewrite !fmap_empty, !lookup_empty. naive_solver. Qed.

Lemma puts_ok writes s :
  inv s -> no_empty s -> Forall (fun w => w.2 <> []) writes ->
  total s + foldr (fun w n => 2 * blen w.2 + n) 0 writes <= isize_max ->
  inv (puts writes s) /\ no_empty (puts writes s) /\
  total (puts writes s) <= total s + foldr (fun w n => 2 * blen w.2 + n) 0 writes.
Proof.
  revert s. induction writes as [|[k v] writes IH]; intros s Hi Hn Hf Ht;
    cbn [puts foldr snd] in *; [split_and!; auto with lia|].
  apply Forall_cons in Hf as [Hv Hf]. cbn [snd] in Hv.
  assert (forall l : list (CacheKey * bytes), 0 <= foldr (fun w n => 2 * blen w.2 + n) 0 l) as Hnn.
  { intros l. induction l as [|[? x] l IHl]; cbn [foldr snd]; [done|]. pose proof (blen_nonneg x). lia. }
  pose proof (Hnn writes). pose proof (put_public_rel k v s Hi ltac:(lia)) as R.
  pose proof (r_total _ _ _ _ R). destruct (IH (put k v s).2) as (H1 & H2 & H3); [apply R| |done|lia|].
  - eapply (no_empty_rel _ _ _ _ R); [by intros ? ? [_ ->]|done].
  - split_and!; [done..|lia].
Qed.

Lemma pin_ref_ok k (s : Cache CacheKeyOrder) :
  (inv s -> inv (pin_ref k s)) /\ (no_empty s -> no_empty (pin_ref k s)) /\ total (pin_ref k s) = total s.
Proof. unfold pin_ref. by case_if. Qed.

(** Two entries in a memory tier of ten bytes over an SSD tier of two hundred,
    the first of them pinned. *)
Definition demo_cache : Cache CacheKeyOrder :=
  pin_ref (key 1) (puts [(key 1, payload Byte.x01 4); (key 2, payload Byte.x02 4)]
                     (fresh_cache (demo_config 10 0 200 0))).

Lemma demo_cache_ok : inv demo_cache /\ no_empty demo_cache /\ total demo_cache <= 16.
Proof.
  destruct (puts_ok [(key 1, payload Byte.x01 4); (key 2, payload Byte.x02 4)]
    (fresh_cache (demo_config 10 0 200 0))) as (H1 & H2 & H3).
  - apply fresh_inv. vm_compute. intuition congruence.
  - intros k v Hk. by destruct (fresh_holds_nothing _ _ _ Hk).
  - repeat constructor; done.
  - vm_compute. congruence.
  - unfold demo_cache. destruct (pin_ref_ok (key 1)
      (puts [(key 1, payload Byte.x01 4); (key 2, payload Byte.x02 4)] (fresh_cache (demo_config 10 0 200 0))))
      as (P1 & P2 & ->).
    change (total (fresh_cache (demo_config 10 0 200 0)) + _) with 16 in H3. exact (conj (P1 H1) (conj (P2 H2) H3)).
Qed.

Lemma write_keeps_invariant_witness :
  inv (put_with_request_shared (key 3) (payload Byte.x03 5) None demo_cache).2 /\
  (put_with_request_shared (key 3) (payload Byte.x03 5) None demo_cache).1 = Ok tt.
Proof.
  destruct demo_cache_ok as (H1 & H2 & H3). split; [|vm_compute; reflexivity].
  apply (write_keeps_invariant (key 3) (payload Byte.x03 5) None demo_cache H1).
  change (blen (payload Byte.x03 5)) with 5. unfold isize_max. lia.
Defined.

Lemma write_invents_nothing_witness :
  holds demo_cache (key 2) (payload Byte.x02 4) \/ (key 2 = key 3 /\ payload Byte.x02 4 = payload Byte.x03 5).
Proof.
  destruct demo_cache_ok as (H1 & H2 & H3).
  apply (write_invents_nothing (key 3) (payload Byte.x03 5) None demo_cache); [done| |].
  - change (blen (payload Byte.x03 5)) with 5. unfold isize_max. lia.
  - right. right. exists (frame_cache_block 4 CACHE_CODEC_RAW (payload Byte.x02 4)).
    split; vm_compute; reflexivity.
Defined.

Lemma pinned_copies_survive_witness :
  copies (put_with_request_shared (key 3) (payload Byte.x03 5) None demo_cache).2 (key 1)
  = copies demo_cache (key 1).
Proof.
  destruct demo_cache_ok as (H1 & H2 & H3).
  apply (pinned_copies_survive (key 3) (payload Byte.x03 5) None demo_cache (key 1)); [done| | |done].
  - change (blen (payload Byte.x03 5)) with 5. unfold isize_max. lia.
  - vm_compute. reflexivity.
Defined.

Definition demo_request : CacheAdmissionRequest := mkRequest Other 2 None 5 0 false.

Lemma fst_eq {A B} (p : A * B) a : p.1 = a -> p = (a, p.2).
Proof. by destruct p; intros <-. Qed.

Lemma rewrite_leaves_no_stale_copy_witness :
  let s' := (put_with_request_shared (key 2) (payload Byte.x07 5) (Some demo_request) demo_cache).2 in
  ssd_store s' !! key 2 = Some (frame_cache_block 5 CACHE_CODEC_RAW (payload Byte.x07 5)) /\
  forall w, memv s' !! key 2 = Some w \/ pmemv s' !! key 2 = Some w -> w = payload Byte.x07 5.
Proof.
  destruct demo_cache_ok as (H1 & H2 & H3). split; [vm_compute; reflexivity|].
  apply (rewrite_leaves_no_stale_copy (key 2) (payload Byte.x07 5) demo_request demo_cache); [exact H1| | |].
  - change (blen (payload Byte.x07 5)) with 5. unfold isize_max. lia.
  - vm_compute. intuition congruence.
  - apply fst_eq. vm_compute. reflexivity.
Defined.

(** The same cache with room for five bytes only. *)
Definition shrunk_cache : Cache CacheKeyOrder := set_cfg (demo_config 5 0 200 0) demo_cache.

Lemma set_cfg_ok c (s : Cache CacheKeyOrder) :
  cfg_ok c -> ssd_store_enabled c = ssd_store_enabled (cfg s) -> inv s -> inv (set_cfg c s).
Proof.
  intros Hc Hs (H1 & H2 & H3 & H4 & H5 & H6). split_and!; try done.
  intros k n Hk. destruct (H6 k n Hk) as [? H]. split; [done|]. cbn. rewrite Hs. exact H.
Qed.

Lemma set_cfg_no_empty c (s : Cache CacheKeyOrder) : no_empty s -> no_empty (set_cfg c s).
Proof. by intros H. Qed.

Lemma release_restores_bounds_witness :
  memory_bounded (reclaim_after_release shrunk_cache) /\
  memory_bytes shrunk_cache = 8 /\ memory_bytes (reclaim_after_release shrunk_cache) = 4.
Proof.
  destruct demo_cache_ok as (H1 & H2 & H3). split; [|split; vm_compute; reflexivity].
  assert (inv shrunk_cache) as Hi.
  { apply set_cfg_ok; [vm_compute; intuition congruence|vm_compute; reflexivity|exact H1]. }
  assert (total shrunk_cache <= isize_max) as Ht by (vm_compute; congruence).
  destruct (release_restores_bounds shrunk_cache Hi Ht (set_cfg_no_empty _ _ H2)) as [B _]. exact B.
Defined.

Lemma write_keeps_memory_bounded_witness :
  memory_bounded (put_with_request_shared (key 3) (payload Byte.x03 5) None demo_cache).2 /\
  memory_bytes (put_with_request_shared (key 3) (payload Byte.x03 5) None demo_cache).2 <= 10.
Proof.
  destruct demo_cache_ok as (H1 & H2 & H3). split; [|vm_compute; congruence].
  apply (write_keeps_memory_bounded (key 3) (payload Byte.x03 5) None demo_cache H1); [|exact H2|done|].
  - change (blen (payload Byte.x03 5)) with 5. unfold isize_max. lia.
  - left. vm_compute. congruence.
Defined.

(** ** Where the code falls short of what it says *)

Definition small_cache : Cache CacheKeyOrder := fresh_cache (demo_config 8 0 0 0).

(** A write that no tier keeps leaves the value before it in place: on a
    memory-only cache of eight bytes a rewrite with nine returns [Ok] and the
    next read still returns the old four bytes. *)
Theorem refused_rewrite_serves_old_value :
  let s := puts [(key 1, payload Byte.x01 4)] small_cache in
  let '(r, s') := put (key 1) (payload Byte.x02 9) s in
  r = Ok tt /\ fst (get_with_tier (key 1) s') = Ok (Some (payload Byte.x01 4, Memory)).
Proof. vm_compute. done. Qed.

(** The default time to live is not given to a key written once: with a
    default of five milliseconds the first write of a key on a memory-only
    cache never expires, the second does. *)
Theorem default_ttl_skips_first_write :
  let s1 := puts [(key 1, payload Byte.x01 4)] (fresh_cache (demo_config 8 0 0 5)) in
  let s2 := puts [(key 1, payload Byte.x01 4); (key 1, payload Byte.x01 4)] (fresh_cache (demo_config 8 0 0 5)) in
  default_ttl_millis (cfg s1) = 5 /\ (forall now, entry_expired s1 (key 1) now = false) /\
  entry_expired s2 (key 1) 100 = true.
Proof.
  cbn zeta. split; [vm_compute; reflexivity|]. split; [|vm_compute; reflexivity].
  intros now. unfold entry_expired.
  replace (expiries _ !! key 1) with (@None Z) by (vm_compute; reflexivity). apply andb_false_r.
Qed.

(** Evicting an empty value ends the eviction loop, because the bytes did
    not change: a tier of eight bytes is left holding twelve with nothing
    pinned. *)
Theorem empty_value_stalls_eviction :
  let s := puts [(key 1, []); (key 2, payload Byte.x02 4); (key 3, payload Byte.x03 4); (key 4, payload Byte.x04 4)]
             small_cache in
  memory_bytes s = 12 /\ memory_capacity_bytes (cfg s) = 8 /\ forall k, is_pinned s k = false.
Proof. vm_compute. done. Qed.
