(* ===== verification/EngineReadSpec.v ===== *)
(** * The cache engine: what reads promise *)

From S2P Require Import Prelude Types Ordering EntryMeta Victim VictimFacts VictimSpec BlockCodec WriteBudget.
From S2P Require Import FrequencySketch KeyOrder KeyOrderFacts KeyOrderSpec EngineState Engine EngineWrite.
From S2P Require Import EngineRead EngineInv EngineEvict EnginePlace EnginePut EngineCapacity.
From S2P Require Import EngineCapacity EngineSpec.

Section read_facts.
Context {Ord : Type} {RO : RecencyOrder Ord} {ENV : Env} {ZS : Zstd} {ZL : ZstdLaws ZS}.
Implicit Types (s : Cache Ord) (k : CacheKey) (v : bytes).

(** ** What a read answers *)

(** The device's answer for a block, at the question it is asked. *)
Definition stored_value s k (question : nat) : result (option (bytes * CacheTier)) :=
  if negb (ssd_store_enabled (cfg s)) then Ok None
  else if negb (io_ok question) then Err RocksDb
  else match ssd_store s !! k with
       | None => Ok None
       | Some block => let? v := decode_cache_block block in Ok (Some (v, Ssd))
       end.

(** The reference: the first tier that holds the entry, unless its time is up.
    The clock is read at the second question of a read, the device asked at
    the fourth. *)
Definition lookup_spec k s : result (option (bytes * CacheTier)) :=
  let t := tick (aux s) in
  if negb (started (cfg s)) then Err Stopped
  else if entry_expired s k (coarse_now (t + 1)) then Ok None
  else if ssd_instance_only (cfg s) then stored_value s k (t + 3)
  else match memv s !! k with
       | Some v => Ok (Some (v, Memory))
       | None => match pmemv s !! k with
                 | Some v => Ok (Some (v, Pmem))
                 | None => stored_value s k (t + 3)
                 end
       end.

Lemma get_from_ssd_answer k t s :
  started (cfg s) = true -> (get_from_ssd k t s).1 = stored_value s k (tick (aux s) + 1).
Proof.
  intros Hs. unfold get_from_ssd, ssd_probe, read_ssd_block, stored_value, instant, device. cbn zeta iota beta.
  change (cfg (next_tick s)) with (cfg s). destruct (ssd_store_enabled (cfg s)); cbn [negb]; [|done].
  cbn zeta iota beta. change (tick (aux (next_tick s))) with (S (tick (aux s))). rewrite Nat.add_1_r.
  destruct (io_ok (S (tick (aux s)))); cbn [negb]; [|done].
  change (ssd_store (next_tick (next_tick s))) with (ssd_store s).
  destruct (ssd_store s !! k) as [block|]; [|done].
  rewrite owned_decode_ok. destruct (decode_cache_block block) as [v|e]; cbn [result_bind]; [|done].
  change (cfg (next_tick (next_tick s))) with (cfg s). rewrite negb_involutive.
  destruct (ssd_instance_only (cfg s)); [|done].
  unfold finish_ssd_instance_hit. change (cfg (next_tick (next_tick s))) with (cfg s). rewrite Hs. cbn [negb].
  cbn zeta iota beta. destruct (coarse _). by destruct (record_known_hit_shared_occurrences_at _ _ _ _ _).
Qed.

Lemma get_answer k s : (get_with_tier k s).1 = lookup_spec k s.
Proof.
  unfold get_with_tier, lookup_spec, get_probe, instant, coarse. cbn zeta iota beta.
  change (cfg (next_tick (next_tick s))) with (cfg s). change (tick (aux (next_tick s))) with (S (tick (aux s))).
  rewrite Nat.add_1_r. destruct (started (cfg s)) eqn:Hs; cbn [negb]; [|done].
  change (entry_expired (next_tick (next_tick s)) k) with (entry_expired s k).
  destruct (entry_expired s k (coarse_now (S (tick (aux s))))) eqn:He; [done|].
  assert ((get_from_ssd k (instant_now (tick (aux s))) (next_tick (next_tick s))).1
          = stored_value s k (tick (aux s) + 3)) as Hg.
  { rewrite get_from_ssd_answer by done.
    change (tick (aux (next_tick (next_tick s)))) with (S (S (tick (aux s)))).
    replace (S (S (tick (aux s))) + 1)%nat with (tick (aux s) + 3)%nat by lia. done. }
  destruct (ssd_instance_only (cfg s)); [done|].
  change (memory (next_tick (next_tick s))) with (memory s). unfold memv. rewrite lookup_fmap.
  destruct (memory s !! k) as [r|]; cbn [fmap option_fmap option_map].
  - by destruct (record_known_hit_shared_occurrences_at _ _ _ _ _).
  - change (pmem_value (next_tick (next_tick s)) k) with (value <$> pmem s !! k). unfold pmemv. rewrite lookup_fmap.
    destruct (value <$> pmem s !! k); [done|exact Hg].
Qed.

(** ** What a read leaves behind *)

Lemma record_hits_nonneg n m : 0 <= hits m -> 0 <= hits (record_hits n m).2.
Proof. intros H. unfold record_hits. case_if; cbn [snd hits]; [done|]. unfold wrap32. apply Z.mod_pos_bound. lia. Qed.

Lemma needs_refresh_spec seen s s' : meta_only s s' -> meta_only s (access_order_needs_refresh seen s').2.
Proof.
  intros H. unfold access_order_needs_refresh, coarse. cbn zeta iota beta. repeat case_match; cbn [snd]; auto with meta_only.
Qed.

Lemma sample_ssd_spec k n s s' : meta_only s s' -> meta_only s (sample_ssd_frequency k n s').
Proof. intros H. unfold sample_ssd_frequency. repeat case_match; auto with meta_only. Qed.

Lemma known_hit_spec k entry n epoch s :
  (forall m, entry = Some m -> 0 <= hits m) ->
  meta_only s (record_known_hit_shared_occurrences_at k entry n epoch s).2.
Proof.
  intros He. unfold record_known_hit_shared_occurrences_at. destruct entry as [m|]; [|apply meta_only_refl].
  specialize (He m eq_refl). cbn zeta. pose proof (record_hits_nonneg (Z.max n 1) m He) as Hh.
  destruct (record_hits (Z.max n 1) m) as [before m1]. cbn [snd] in Hh. cbn [add_hotness].
  set (s1 := if _ && (_ <=? sat_add32 _ _) then _ else _).
  assert (meta_only s s1) as M1.
  { unfold s1. apply meta_only_if; [apply meta_only_stat|]; apply meta_only_if; auto using sample_ssd_spec with meta_only. }
  clearbody s1.
  assert (exists b s2, (if before =? 0 then (true, s1) else access_order_needs_refresh (Some (last_access_epoch (add_hotness (Z.min (Z.max n 1) u32_max) m1).2)) s1) = (b, s2)
     /\ meta_only s s2) as (b & s2 & E & M2).
  { case_if; [by eexists _, _|]. pose proof (needs_refresh_spec (Some (last_access_epoch (add_hotness (Z.min (Z.max n 1) u32_max) m1).2)) s s1 M1).
    destruct (access_order_needs_refresh _ s1). by eexists _, _. }
  cbn [add_hotness snd] in E. rewrite E.
  destruct b; cbn [snd]; [apply meta_only_stat|]; (eapply meta_only_trans; [exact M2|]); by apply update_metadata_spec.
Qed.

Lemma record_hit_metadata_spec k n s :
  homes_ok (memory s) (pmem s) (metadata_map s) -> meta_only s (record_hit_metadata k n s).2.
Proof.
  intros Hh. unfold record_hit_metadata, coarse. cbn zeta iota beta.
  assert (meta_only s (next_tick s)) as M1 by auto with meta_only.
  change (metadata_of (next_tick s) k) with (metadata_of s k).
  destruct (metadata_of s k) as [m|] eqn:E.
  - pose proof (record_hits_nonneg 1 m (homes_metadata _ _ _ Hh E)) as Hm.
    destruct (record_hits 1 m) as [before m1]. cbn [snd] in Hm. cbn [add_hotness snd].
    set (s1 := sample_ssd_frequency _ _ _). assert (meta_only s s1) as M2 by (unfold s1; auto using sample_ssd_spec).
    clearbody s1. match goal with |- meta_only s (if _ then _ else ?x) => assert (meta_only s x) as M3 end.
    { eapply meta_only_trans; [exact M2|]. by apply update_metadata_spec. }
    case_if; auto with meta_only.
  - cbn [snd]. match goal with |- meta_only s (if _ then _ else ?x) => assert (meta_only s x) as M3 end.
    { eapply meta_only_trans; [exact M1|]. by apply set_metadata_spec. }
    case_if; auto with meta_only.
Qed.

Lemma refresh_order_rel W k s : inv s -> rel W 0 s (refresh_access_order k s).
Proof.
  intros (H1 & H2 & H3 & H4 & H5 & H6). apply rel_intro; try done.
  - split_and!; try done; by apply tracks_touch.
  - unfold total. cbn. lia.
  - intros x. by left.
Qed.

Lemma record_hit_rel W k n s :
  inv s -> rel W 0 s (record_hit k n s) /\ memv (record_hit k n s) = memv s /\ pmemv (record_hit k n s) = pmemv s.
Proof.
  intros Hi. unfold record_hit. pose proof Hi as (_ & _ & _ & _ & Hh & _).
  pose proof (record_hit_metadata_spec k n s Hh) as M1. destruct (record_hit_metadata k n s) as [seen s1]. cbn [snd] in M1.
  pose proof (needs_refresh_spec seen s s1 M1) as M2. destruct (access_order_needs_refresh seen s1) as [b s2].
  cbn [snd] in M2.
  assert (forall s3, meta_only s s3 -> rel W 0 s s3 /\ memv s3 = memv s /\ pmemv s3 = pmemv s) as Hm.
  { intros s3 M. split; [by apply rel_meta|]. by destruct M as (?&?&?&?&?&->&?&?&_). }
  destruct b; cbn [negb]; [|by apply Hm].
  match goal with |- context [refresh_access_order k ?x] => assert (meta_only s x) as M3 end.
  { apply meta_only_stat. unfold coarse. case_match; [|done]. cbn zeta iota beta.
    eapply meta_only_trans; [apply meta_only_tick; exact M2|]. by apply update_metadata_spec. }
  destruct (Hm _ M3) as (R & E1 & E2). split_and!; [|exact E1|exact E2].
  apply (rel_weaken _ (0 + 0)); [lia|]. eapply rel_trans; [exact R|]. apply refresh_order_rel, R.
Qed.

Lemma observe_spec f t s s' : meta_only s s' -> meta_only s (observe_latency f t s').
Proof. intros H. unfold observe_latency, instant. cbn zeta iota beta. auto 10 with meta_only. Qed.

Lemma drain_spec s s' : meta_only s s' -> meta_only s (drain_eviction_records s').2.
Proof. intros H. unfold drain_eviction_records. case_if; [done|]. cbn [snd]. auto with meta_only. Qed.

Definition room_for s k : Prop := forall w, holds s k w -> total s + blen w <= isize_max.

Lemma room_for_rel k v n s s' k' w0 :
  rel (wrote k v) n s s' -> k' <> k -> (forall w, holds s k' w -> w = w0) ->
  total s + n + blen w0 <= isize_max -> room_for s' k'.
Proof.
  intros R Hne Hw Ht w [H|[? _]]%(r_holds _ _ _ _ R); [|done]. apply Hw in H as ->.
  pose proof (r_total _ _ _ _ R). lia.
Qed.

Lemma refill_rel k v current s :
  inv s -> total s + blen v <= isize_max -> rel (wrote k v) (blen v) s (refill_ssd_probe k v current s).2.
Proof.
  intros Hi Ht. pose proof (blen_nonneg v) as Hv. unfold refill_ssd_probe, coarse.
  case_if; [by apply (rel_weaken _ 0), rel_refl|]. cbn zeta iota beta.
  assert (meta_only s (next_tick s)) as M1 by auto with meta_only. pose proof (rel_meta (wrote k v) _ _ Hi M1) as R1.
  case_if; [by apply (rel_weaken _ 0)|].
  assert (rel (wrote k v) (blen v) (next_tick s) (refill_from_ssd_shared k v (next_tick s)).2) as R2.
  { unfold refill_from_ssd_shared. case_if.
    - pose proof (put_pmem_rel k v (next_tick s) (r_inv _ _ _ _ R1) Ht) as H.
      destruct (put_pmem_shared k v (next_tick s)) as [kept s2], H as (R & _). cbn [snd].
      refine (rel_weaken _ _ _ _ _ _ R). destruct kept; lia.
    - pose proof (put_memory_rel k v (next_tick s) (r_inv _ _ _ _ R1) Ht) as H.
      destruct (put_memory_shared k v (next_tick s)) as [kept s2], H as (R & _). cbn [snd].
      refine (rel_weaken _ _ _ _ _ _ R). destruct kept; lia. }
  destruct (refill_from_ssd_shared k v (next_tick s)) as [refilled s2]. cbn [snd] in *.
  pose proof (rel_trans _ _ _ _ _ _ R1 R2) as R. cbn [Z.add] in R.
  case_if; [eapply rel_meta_r; [exact R|auto with meta_only]|exact R].
Qed.

Lemma promote_rel k v s :
  inv s -> total s + blen v <= isize_max -> rel (wrote k v) (blen v) s (promote_pmem_probe_if_current k v s).
Proof.
  intros Hi Ht. pose proof (blen_nonneg v) as Hv. unfold promote_pmem_probe_if_current, coarse. cbn zeta iota beta.
  set (s1 := next_tick (next_tick s)). assert (meta_only s s1) as M1 by (unfold s1; auto with meta_only). clearbody s1.
  pose proof (rel_meta (wrote k v) _ _ Hi M1) as R1. case_if; [by apply (rel_weaken _ 0)|].
  destruct (record_hit_rel (wrote k v) k (blen v) s1 (r_inv _ _ _ _ R1)) as (R2 & _).
  set (s2 := record_hit k (blen v) s1) in *. clearbody s2. pose proof (rel_trans _ _ _ _ _ _ R1 R2) as R.
  case_if; [by apply (rel_weaken _ (0 + 0))|]. pose proof (r_total _ _ _ _ R) as Ht2.
  pose proof (put_memory_rel k v s2 (r_inv _ _ _ _ R) ltac:(lia)) as H.
  destruct (put_memory_shared k v s2) as [kept s3], H as (R3 & _).
  assert (rel (wrote k v) (blen v) s s3) as R4.
  { refine (rel_weaken _ _ _ _ _ _ (rel_trans _ _ _ _ _ _ R R3)). destruct kept; lia. }
  case_if; [done|]. by eapply rel_meta_tick.
Qed.

(** The read of one key leaves no other value held, and other pinned entries
    alone. *)
Definition harmless k s s' : Prop :=
  inv s' /\ (forall k' w, holds s' k' w -> holds s k' w) /\
  (forall k', k' <> k -> is_pinned s k' = true -> copies s' k' = copies s k').

Lemma harmless_wrote k v n s s' : rel (wrote k v) n s s' -> holds s k v -> harmless k s s'.
Proof.
  intros R Hv. split_and!; [apply R| |].
  - intros k' w [?|[-> ->]]%(r_holds _ _ _ _ R); done.
  - intros k' Hne Hp. apply (r_kept _ _ _ _ R _ Hp). by intros w [? _].
Qed.

Lemma harmless_any k n s s' : (forall W : CacheKey -> bytes -> Prop, (exists v, W k v) -> rel W n s s') -> harmless k s s'.
Proof.
  intros H. split_and!; [apply (H (wrote k [])); by exists []| |].
  - intros k' w Hw. pose proof (H (wrote k (Byte.x00 :: w)) (wrote_ex _ _)) as R.
    apply (r_holds _ _ _ _ R) in Hw as [?|[_ E]]; [done|]. apply (f_equal length) in E. cbn in E. lia.
  - intros k' Hne Hp. apply (r_kept _ _ _ _ (H (wrote k []) (wrote_ex _ _)) _ Hp). by intros w [? _].
Qed.

Lemma harmless_meta k s s' : inv s -> meta_only s s' -> harmless k s s'.
Proof. intros Hi M. apply (harmless_any k 0). intros W _. by apply rel_meta. Qed.

Lemma harmless_snd {A} k s (a : A) s' : harmless k s s' -> harmless k s (a, s').2.
Proof. done. Qed.

Lemma instance_hit_rel W k compressed v t t0 s :
  inv s -> rel W 0 s (finish_ssd_instance_hit k compressed v t t0 s).2.
Proof.
  intros Hi. unfold finish_ssd_instance_hit, coarse. case_if; [by apply rel_refl|]. cbn zeta iota beta.
  set (s1 := if compressed then _ else _). assert (meta_only s s1) as M1 by (unfold s1; auto with meta_only).
  clearbody s1. set (s2 := next_tick s1). assert (meta_only s s2) as M2 by (unfold s2; auto with meta_only).
  set (ep := coarse_now _). clearbody ep. clearbody s2.
  assert (forall m, metadata_of s2 k = Some m -> 0 <= hits m) as Hm.
  { intros m. apply homes_metadata. destruct M2 as (?&?&?&?&?&->&_&_&Hh). apply Hh, Hi. }
  pose proof (known_hit_spec k (metadata_of s2 k) 1 ep s2 Hm) as M3.
  destruct (record_known_hit_shared_occurrences_at k (metadata_of s2 k) 1 ep s2) as [outcome s3].
  cbn [snd] in M3 |- *. set (s4 := observe_latency _ _ _). assert (meta_only s s4) as M4.
  { unfold s4. do 3 apply observe_spec. eapply meta_only_trans; [exact M2|exact M3]. }
  clearbody s4. pose proof (rel_meta W _ _ Hi M4) as R4.
  apply (rel_weaken _ (0 + 0)); [lia|]. eapply rel_trans; [exact R4|]. pose proof (r_inv _ _ _ _ R4).
  destruct outcome; [by apply rel_refl|by apply refresh_order_rel|by apply record_hit_rel].
Qed.

Lemma ssd_hit_rel k compressed v ep t t0 s :
  inv s -> total s + blen v <= isize_max -> rel (wrote k v) (blen v) s (finish_ssd_hit k compressed v true ep t t0 s).
Proof.
  intros Hi Ht. unfold finish_ssd_hit. set (cur := ssd_probe_is_current_for _ _ _). clearbody cur. cbn zeta.
  set (s2 := if compressed then _ else _). assert (meta_only s s2) as M2 by (unfold s2; auto with meta_only). clearbody s2.
  pose proof (rel_meta (wrote k v) _ _ Hi M2) as R2.
  destruct (record_hit_rel (wrote k v) k (blen v) s2 (r_inv _ _ _ _ R2)) as (R3 & _).
  set (s3 := record_hit k (blen v) s2) in *. clearbody s3.
  pose proof (rel_trans _ _ _ _ _ _ R2 R3) as R23. pose proof (r_total _ _ _ _ R23) as Ht3.
  pose proof (refill_rel k v cur s3 (r_inv _ _ _ _ R3) ltac:(lia)) as R4.
  destruct (refill_ssd_probe k v cur s3) as [refilled s4]. cbn [snd] in R4.
  pose proof (rel_trans _ _ _ _ _ _ R23 R4) as R. apply (rel_weaken _ (0 + 0 + blen v)); [lia|].
  eapply rel_meta_r; [exact R|]. do 3 apply observe_spec. case_if; auto with meta_only.
Qed.

Lemma get_from_ssd_harmless k t s : inv s -> room_for s k -> harmless k s (get_from_ssd k t s).2.
Proof.
  intros Hi Hroom. unfold get_from_ssd, ssd_probe, instant. cbn zeta iota beta.
  set (t0 := instant_now _). set (s0 := next_tick s). assert (meta_only s s0) as M0 by (unfold s0; auto with meta_only).
  pose proof (read_ssd_block_spec k s s0 M0) as M1.
  assert (forall block, (read_ssd_block k s0).1 = Ok (Some block) -> ssd_store s !! k = Some block) as Hb.
  { intros block. unfold read_ssd_block, device. repeat case_if; cbn; congruence. }
  destruct (read_ssd_block k s0) as [r s1]. cbn [fst snd] in *. clearbody s0 t0. clear M0.
  destruct r as [[block|]|e]; [| |by apply harmless_meta].
  2: { cbn [snd]. apply harmless_meta; [done|]. auto using observe_spec with meta_only. }
  specialize (Hb block eq_refl). rewrite owned_decode_ok.
  destruct (decode_cache_block block) as [v|e] eqn:Ed; [|by apply harmless_meta].
  assert (holds s k v) as Hv by (right; right; by exists block). pose proof (Hroom v Hv) as Ht.
  pose proof (blen_nonneg v) as Hl. pose proof (rel_meta (wrote k v) _ _ Hi M1) as R1.
  rewrite negb_involutive. destruct (ssd_instance_only (cfg s1)).
  - pose proof (instance_hit_rel (wrote k v) k (is_encoded_compressed_block block) v t t0 s1 (r_inv _ _ _ _ R1)) as R2.
    destruct (finish_ssd_instance_hit k _ v t t0 s1) as [r2 s2]. cbn [snd] in R2 |- *.
    apply (harmless_wrote k v (0 + 0)); [|done]. exact (rel_trans _ _ _ _ _ _ R1 R2).
  - apply harmless_snd. set (ep := ssd_batch_probe_epoch _ _). clearbody ep. pose proof (r_total _ _ _ _ R1) as Ht1.
    pose proof (ssd_hit_rel k (is_encoded_compressed_block block) v ep t t0 s1 (r_inv _ _ _ _ R1) ltac:(lia)) as R2.
    set (s2 := finish_ssd_hit _ _ _ _ _ _ _ _) in *. clearbody s2.
    apply (harmless_wrote k v (0 + blen v)); [|done].
    eapply rel_meta_r; [exact (rel_trans _ _ _ _ _ _ R1 R2)|apply drain_spec, meta_only_refl].
Qed.

Lemma get_harmless k s : inv s -> room_for s k -> harmless k s (get_with_tier k s).2.
Proof.
  intros Hi Hroom. unfold get_with_tier, get_probe, instant, coarse. cbn zeta iota beta.
  set (t0 := instant_now _). set (now := coarse_now _). set (s0 := next_tick (next_tick s)).
  assert (meta_only s s0) as M0 by (unfold s0; auto with meta_only).
  assert (memory s0 = memory s /\ memv s0 = memv s /\ pmemv s0 = pmemv s) as (E0 & E1 & E2) by done.
  assert (forall w, holds s0 k w -> holds s k w) as Eh by by intros w.
  assert (room_for s0 k) as Hroom0 by exact Hroom.
  clearbody s0 t0 now. pose proof (rel_meta (wrote k []) _ _ Hi M0) as R0. pose proof (r_inv _ _ _ _ R0) as Hi0.
  assert (forall s', harmless k s0 s' -> harmless k s s') as Htrans.
  { intros s' (P1 & P2 & P3). destruct (harmless_meta k _ _ Hi M0) as (Q1 & Q2 & Q3). split_and!; [done|auto|].
    intros k' Hne Hp. rewrite P3; [by apply Q3|done|]. by rewrite (meta_only_is_pinned _ _ _ _ k' M0). }
  apply Htrans. destruct (started (cfg s0)); cbn [negb]; [|by apply harmless_meta; auto with meta_only].
  destruct (entry_expired s0 k now) eqn:He.
  { cbn [snd]. rewrite He. apply (harmless_any k 0). intros W Hw.
    destruct (remove_expired_rel W k s0 Hi0 (or_intror Hw)) as (R & _).
    eapply rel_meta_r; [exact R|]. auto with meta_only. }
  destruct (ssd_instance_only (cfg s0)); [by apply get_from_ssd_harmless|].
  destruct (memory s0 !! k) as [r|] eqn:Hk.
  - set (s1 := next_tick _). set (ep := coarse_now _). assert (meta_only s0 s1) as M1 by (unfold s1; auto with meta_only). clearbody s1 ep.
    assert (forall m, meta r = Some m -> 0 <= hits m) as Hm.
    { intros m. pose proof Hi0 as (_ & _ & _ & _ & (Hh & _) & _). by apply (Hh k r Hk). }
    pose proof (known_hit_spec k (meta r) 1 ep s1 Hm) as M2.
    destruct (record_known_hit_shared_occurrences_at _ _ _ _ _) as [outcome s2]. cbn [snd] in M2 |- *.
    set (s3 := observe_latency _ _ _). assert (meta_only s0 s3) as M3.
    { unfold s3. do 2 apply observe_spec. eapply meta_only_trans; [exact M1|exact M2]. }
    clearbody s3. apply (harmless_any k (0 + 0)). intros W _. pose proof (rel_meta W _ _ Hi0 M3) as R3.
    eapply rel_trans; [exact R3|]. pose proof (r_inv _ _ _ _ R3). unfold apply_outcome.
    destruct outcome; [by apply rel_refl|by apply refresh_order_rel|].
    case_decide; [by apply record_hit_rel|by apply rel_refl].
  - destruct (pmem_value s0 k) as [v|] eqn:Hp; [|by apply get_from_ssd_harmless]. apply harmless_snd.
    assert (holds s0 k v) as Hv by (right; left; unfold pmemv; by rewrite lookup_fmap).
    assert (meta_only s0 (add_stat "pmem_hits" 1 s0)) as M1 by auto with meta_only.
    pose proof (rel_meta (wrote k v) _ _ Hi0 M1) as R1.
    pose proof (promote_rel k v _ (r_inv _ _ _ _ R1) (Hroom0 v Hv)) as R2.
    set (s2 := promote_pmem_probe_if_current k v _) in *. clearbody s2.
    apply (harmless_wrote k v (0 + blen v)); [|done].
    eapply rel_meta_r; [exact (rel_trans _ _ _ _ _ _ R1 R2)|]. apply drain_spec. do 3 apply observe_spec. apply meta_only_refl.
Qed.

(** C7. A read answers exactly what the tiers hold: the memory copy if there
    is one, else the persistent copy, else the stored block decoded; nothing
    once the entry's time is up; an error when the cache is stopped, the
    device fails or the block does not decode.  The statement is an equation
    with the reference lookup, for every state and environment. *)
Theorem read_answers_lookup k s : (get_with_tier k s).1 = lookup_spec k s.
Proof. apply get_answer. Qed.

(** C8. A read changes no data: it keeps the invariant, no tier would serve
    anything afterwards that some tier would not have served before --
    promotion and refill install only what the key already had -- and pinned
    entries of other keys keep every copy. *)
Theorem read_changes_no_data k s :
  inv s -> room_for s k ->
  let s' := (get_with_tier k s).2 in
  inv s' /\ (forall k' w, holds s' k' w -> holds s k' w) /\
  (forall k', k' <> k -> is_pinned s k' = true -> copies s' k' = copies s k').
Proof. apply get_harmless. Qed.
End read_facts.

Lemma read_changes_no_data_witness :
  let s := (put (key 3) (payload Byte.x03 5) demo_cache).2 in
  let s' := (get_with_tier (key 2) s).2 in
  (get_with_tier (key 2) s).1 = Ok (Some (payload Byte.x02 4, Ssd)) /\
  memv s !! key 2 = None /\ memv s' !! key 2 = Some (payload Byte.x02 4) /\
  copies s' (key 1) = copies s (key 1).
Proof.
  cbn zeta. split; [vm_compute; reflexivity|]. split; [vm_compute; reflexivity|]. split; [vm_compute; reflexivity|].
  destruct demo_cache_ok as (H1 & H2 & H3).
  assert (total demo_cache + 2 * blen (payload Byte.x03 5) <= isize_max) as Ht.
  { change (blen (payload Byte.x03 5)) with 5. unfold isize_max. lia. }
  pose proof (put_public_rel (key 3) (payload Byte.x03 5) demo_cache H1 Ht) as R.
  destruct (read_changes_no_data (key 2) (put (key 3) (payload Byte.x03 5) demo_cache).2) as (_ & _ & H).
  - apply R.
  - apply (room_for_rel (key 3) (payload Byte.x03 5) _ _ _ (key 2) (payload Byte.x02 4) R); [done| |].
    + intros w [Hw|[Hw|(b & Hb & Hw)]].
      * replace (memv demo_cache !! key 2) with (Some (payload Byte.x02 4)) in Hw by (vm_compute; reflexivity). congruence.
      * replace (pmemv demo_cache !! key 2) with (@None bytes) in Hw by (vm_compute; reflexivity). done.
      * replace (ssd_store demo_cache !! key 2) with (Some (frame_cache_block 4 CACHE_CODEC_RAW (payload Byte.x02 4)))
          in Hb by (vm_compute; reflexivity). injection Hb as <-. vm_compute in Hw. injection Hw as <-.
        vm_compute. reflexivity.
    + assert (blen (payload Byte.x03 5) = 5) as -> by reflexivity.
      assert (blen (payload Byte.x02 4) = 4) as -> by reflexivity. unfold isize_max. lia.
  - apply H; [done|vm_compute; reflexivity].
Defined.
