(* ===== verification/EngineProbe.v ===== *)
(** * The cache engine: reads that race with other operations

    An SSD read runs in two steps: the block is read under the shared lock
    with the probe epoch of the moment, and the refill comes later under the
    exclusive lock, if [ssd_probe_is_current_for] still says the read is
    current.  [jrel] relates a state to a later one: the probe epoch and
    journal of the later state account for every change to the store. *)

From S2P Require Import Prelude Types Ordering EntryMeta Victim BlockCodec WriteBudget FrequencySketch.
From S2P Require Import KeyOrder KeyOrderSpec EngineState Engine EngineWrite EngineRead EngineCapacity.

Create HintDb probe.

Section probe.
Context {Ord : Type} {RO : RecencyOrder Ord} {ENV : Env} {ZS : Zstd}.
Implicit Types (s : Cache Ord) (k : CacheKey) (v : bytes).

Definition epoch s : Z := ssd_probe_epoch (aux s).
Definition fence s : Z := ssd_probe_global_epoch (aux s).
Definition journal s : list Z := ssd_probe_mutations (aux s).
Definition jlen s : Z := Z.of_nat (length (journal s)).
Definition slot s (seq : Z) : option Z := journal s !! Z.to_nat (seq `mod` jlen s).

(** The journal is usable. *)
Definition probe_ok s : Prop := 0 <= epoch s <= u64_max /\ 0 < jlen s /\ fence s <= epoch s.

(** A later state shows that [k] was touched after [s]. *)
Definition touched k s s' : Prop :=
  epoch s' = u64_max \/ epoch s < fence s' \/
  exists seq, epoch s < seq <= epoch s' /\ (epoch s' - jlen s' < seq -> slot s' seq = Some (key_hash k)).

Record jrel s s' : Prop := {
  j_ok : probe_ok s';
  j_len : jlen s' = jlen s;
  j_epoch : epoch s <= epoch s';
  j_fence : fence s <= fence s';
  j_stable : epoch s' < u64_max -> forall seq, epoch s' - jlen s < seq <= epoch s -> slot s' seq = slot s seq;
  j_store : forall k, ssd_store s' !! k = ssd_store s !! k \/ touched k s s'
}.

Lemma jrel_refl s : probe_ok s -> jrel s s.
Proof. intros H. split; auto; lia. Qed.

Lemma touched_later k s1 s2 s3 : touched k s1 s2 -> jrel s2 s3 -> touched k s1 s3.
Proof.
  intros H R. pose proof (j_epoch _ _ R). pose proof (j_fence _ _ R). pose proof (proj1 (j_ok _ _ R)).
  destruct H as [H|[H|(seq & Hs & Hh)]]; [left; lia|right; left; lia|].
  destruct (decide (epoch s3 = u64_max)) as [|Hne]; [by left|]. right; right. exists seq. split; [lia|].
  intros Hin. rewrite (j_len _ _ R) in Hin. rewrite (j_stable _ _ R) by lia. apply Hh. lia.
Qed.

Lemma touched_earlier k s1 s2 s3 : epoch s1 <= epoch s2 -> touched k s2 s3 -> touched k s1 s3.
Proof.
  intros He [H|[H|(seq & Hs & Hh)]]; [by left|right; left; lia|]. right; right. exists seq. split; [lia|done].
Qed.

Lemma jrel_trans s1 s2 s3 : jrel s1 s2 -> jrel s2 s3 -> jrel s1 s3.
Proof.
  intros R1 R2. pose proof (j_epoch _ _ R1) as He. pose proof (j_len _ _ R1) as Hl.
  pose proof (j_epoch _ _ R2) as He2. split.
  - apply R2.
  - by rewrite (j_len _ _ R2).
  - lia.
  - pose proof (j_fence _ _ R1). pose proof (j_fence _ _ R2). lia.
  - intros Hm seq Hs. rewrite (j_stable _ _ R2) by lia. apply (j_stable _ _ R1); lia.
  - intros k. destruct (j_store _ _ R2 k) as [E2|T2]; [|right; by apply (touched_earlier _ _ s2)].
    destruct (j_store _ _ R1 k) as [E1|T1]; [left; congruence|right; by apply (touched_later _ _ s2)].
Qed.

(** What of a state this relation looks at. *)
Definition pv s : Z * gmap CacheKey bytes * Z * Z * list Z :=
  (ssd_capacity_bytes (cfg s), ssd_store s, epoch s, fence s, journal s).

Lemma jrel_quiet s s' s'' : jrel s s' -> pv s'' = pv s' -> jrel s s''.
Proof.
  unfold pv. intros R [= _ E1 E2 E3 E4]. assert (jlen s'' = jlen s') as E5 by (unfold jlen; by rewrite E4).
  destruct R as [R1 R2 R3 R4 R5 R6]. split; unfold probe_ok, touched, slot in *; rewrite ?E1, ?E2, ?E3, ?E4, ?E5; auto.
Qed.

(** The store changed where the later state says so. *)
Lemma jrel_change s s1 s2 t :
  jrel s s1 -> jrel s1 s2 ->
  (epoch t, fence t, journal t) = (epoch s2, fence s2, journal s2) ->
  (forall k, ssd_store t !! k = ssd_store s1 !! k \/ touched k s1 s2) -> jrel s t.
Proof.
  intros R1 R2 [= E2 E3 E4] Hst. assert (jlen t = jlen s2) as E5 by (unfold jlen; by rewrite E4).
  pose proof (jrel_trans _ _ _ R1 R2) as [Q1 Q2 Q3 Q4 Q5 Q6].
  assert (forall k, touched k s s2 -> touched k s t) as Ht.
  { intros k. unfold touched, slot. by rewrite E2, E3, E4, E5. }
  split; unfold probe_ok, slot in *; rewrite ?E2, ?E3, ?E4, ?E5; auto.
  intros k. destruct (Hst k) as [E|T].
  - rewrite E. destruct (j_store _ _ R1 k) as [|T1]; [by left|right]. apply Ht. by apply (touched_later _ _ s1).
  - right. apply Ht. apply (touched_earlier _ _ s1); [apply R1|done].
Qed.

Lemma slot_written s (e : Z) h :
  0 <= e -> 0 < jlen s ->
  <[Z.to_nat (e `mod` jlen s) := h]> (journal s) !! Z.to_nat (e `mod` jlen s) = Some h.
Proof.
  intros He Hl. apply list_lookup_insert_eq. pose proof (Z.mod_pos_bound e (jlen s) Hl). unfold jlen in *. lia.
Qed.

Lemma mod_distinct a b l : 0 < l -> a < b -> b - a < l -> a `mod` l <> b `mod` l.
Proof.
  intros Hl Hab Hd E. pose proof (Z_div_mod_eq_full a l). pose proof (Z_div_mod_eq_full b l).
  set (q := b / l - a / l). assert (b - a = l * q) by (unfold q; lia).
  destruct (Z.le_gt_cases q 0); nia.
Qed.

Lemma note_jrel k s : probe_ok s -> jrel s (note_ssd_probe_mutation k s) /\ touched k s (note_ssd_probe_mutation k s).
Proof.
  intros (He & Hl & Hf). unfold note_ssd_probe_mutation, bump_ssd_probe_epoch.
  destruct (ssd_capacity_bytes (cfg s) =? 0).
  - split; [split|]; unfold probe_ok, touched, slot, jlen, epoch, fence, journal in *; cbn; unfold sat_add in *;
      [lia|lia|lia|lia|auto|auto|].
    destruct (decide (Z.min u64_max (ssd_probe_epoch (aux s) + 1) = u64_max)); [by left|right; left; lia].
  - set (e := epoch s +! 1). set (t := upd_aux (journal_mutation k) s).
    assert (epoch t = e /\ fence t = fence s /\ jlen t = jlen s /\
            journal t = <[Z.to_nat (e `mod` jlen s) := key_hash k]> (journal s)) as (E1 & E2 & E3 & E4).
    { split_and!; try done. unfold jlen. cbn. by rewrite length_insert. }
    assert (0 <= e <= u64_max) as He' by (unfold e, sat_add, u64_max in *; lia).
    split; [split|].
    + unfold probe_ok. rewrite E1, E2, E3. unfold e, sat_add in *. lia.
    + done.
    + rewrite E1. unfold e, sat_add. lia.
    + lia.
    + intros Hm seq Hs. unfold slot. rewrite E3, E4. apply list_lookup_insert_ne.
      rewrite E1 in *. assert (e = epoch s + 1) by (unfold e, sat_add in *; lia).
      pose proof (mod_distinct seq e (jlen s) Hl ltac:(lia) ltac:(lia)) as Hd.
      pose proof (Z.mod_pos_bound seq (jlen s) Hl). pose proof (Z.mod_pos_bound e (jlen s) Hl). lia.
    + auto.
    + destruct (decide (e = u64_max)) as [|Hne]; [left; lia|right; right]. exists e. rewrite E1, E3.
      split; [unfold e, sat_add in *; lia|]. intros _. unfold slot. rewrite E3, E4. apply slot_written; [lia|done].
Qed.

Lemma jrel_note k s s' : jrel s s' -> jrel s (note_ssd_probe_mutation k s').
Proof. intros R. eapply jrel_trans; [exact R|]. apply note_jrel, R. Qed.

Lemma notes_jrel keys s :
  probe_ok s ->
  let s' := fold_left (fun s k => note_ssd_probe_mutation k s) keys s in
  jrel s s' /\ forall k, k ∈ keys -> touched k s s'.
Proof.
  revert s. induction keys as [|k keys IH]; intros s Hs; cbn.
  - split; [by apply jrel_refl|]. by intros k ?%not_elem_of_nil.
  - destruct (note_jrel k s Hs) as [R T]. destruct (IH (note_ssd_probe_mutation k s) (j_ok _ _ R)) as [R2 T2].
    split; [by eapply jrel_trans|]. intros x [->|Hx]%elem_of_cons.
    + by apply (touched_later _ _ (note_ssd_probe_mutation k s)).
    + apply (touched_earlier _ _ (note_ssd_probe_mutation k s)); [apply R|auto].
Qed.

(** A current probe has seen every change to its block. *)
Lemma current_store k s s' :
  jrel s s' -> ssd_probe_is_current_for k (epoch s) s' = true -> ssd_store s' !! k = ssd_store s !! k.
Proof.
  intros R Hc. destruct (j_store _ _ R k) as [|T]; [done|exfalso]. pose proof (j_epoch _ _ R) as He.
  unfold ssd_probe_is_current_for in Hc. change (ssd_probe_epoch (aux s')) with (epoch s') in Hc.
  change (ssd_probe_global_epoch (aux s')) with (fence s') in Hc.
  change (ssd_probe_mutations (aux s')) with (journal s') in Hc.
  change (Z.of_nat (length (journal s'))) with (jlen s') in Hc.
  destruct (_ || _ || _ || _) eqn:E; [done|]. zbool.
  destruct T as [T|[T|(seq & Hs & Hh)]]; [done|lia|].
  destruct (epoch s' - epoch s =? 0) eqn:E0; zbool; [lia|].
  destruct (jlen s' <? epoch s' - epoch s) eqn:E1; [done|]. zbool.
  rewrite forallb_forall in Hc. specialize (Hc seq). unfold slot in Hh. rewrite Hh in Hc by lia.
  assert (negb (key_hash k =? key_hash k) = true) as Hx.
  { apply Hc, list_elem_of_In, elem_of_seqZ. lia. }
  by rewrite Z.eqb_refl in Hx.
Qed.
End probe.

(** ** Every operation journals what it does to the store

    Each operation of the engine stands in [jrel] with the state it started
    from. *)

Section quiet.
Context {Ord : Type} {RO : RecencyOrder Ord} {ENV : Env} {ZS : Zstd}.
Implicit Types (s : Cache Ord) (k : CacheKey) (v : bytes).

(** Bookkeeping that leaves epochs and journal alone. *)
Definition keeps_probe (f : Aux -> Aux) : Prop :=
  forall a, ssd_probe_epoch (f a) = ssd_probe_epoch a /\ ssd_probe_global_epoch (f a) = ssd_probe_global_epoch a /\
            ssd_probe_mutations (f a) = ssd_probe_mutations a.

Lemma q_upd f s s' : keeps_probe f -> jrel s s' -> jrel s (upd_aux f s').
Proof.
  intros Hf R. apply (jrel_quiet _ _ _ R). destruct (Hf (aux s')) as (E1 & E2 & E3).
  unfold pv, epoch, fence, journal. cbn. by rewrite E1, E2, E3.
Qed.

Lemma q_add_stat n c s s' : jrel s s' -> jrel s (add_stat n c s').
Proof. by apply q_upd. Qed.
Lemma q_put_stat n c s s' : jrel s s' -> jrel s (put_stat n c s').
Proof. by apply q_upd. Qed.
Lemma q_max_stat n c s s' : jrel s s' -> jrel s (max_stat n c s').
Proof. by apply q_upd. Qed.
Lemma q_tick s s' : jrel s s' -> jrel s (next_tick s').
Proof. by apply q_upd. Qed.
Lemma q_memory x s s' : jrel s s' -> jrel s (set_memory x s').
Proof. intros R. by apply (jrel_quiet _ _ _ R). Qed.
Lemma q_pmem x s s' : jrel s s' -> jrel s (set_pmem x s').
Proof. intros R. by apply (jrel_quiet _ _ _ R). Qed.
Lemma q_metadata x s s' : jrel s s' -> jrel s (set_metadata_map x s').
Proof. intros R. by apply (jrel_quiet _ _ _ R). Qed.
Lemma q_expiries x s s' : jrel s s' -> jrel s (set_expiries x s').
Proof. intros R. by apply (jrel_quiet _ _ _ R). Qed.
Lemma q_disk_index x s s' : jrel s s' -> jrel s (set_disk_index x s').
Proof. intros R. by apply (jrel_quiet _ _ _ R). Qed.
Lemma q_memory_order x s s' : jrel s s' -> jrel s (set_memory_order x s').
Proof. intros R. by apply (jrel_quiet _ _ _ R). Qed.
Lemma q_pmem_order x s s' : jrel s s' -> jrel s (set_pmem_order x s').
Proof. intros R. by apply (jrel_quiet _ _ _ R). Qed.
Lemma q_disk_order x s s' : jrel s s' -> jrel s (set_disk_order x s').
Proof. intros R. by apply (jrel_quiet _ _ _ R). Qed.
Lemma q_memory_bytes x s s' : jrel s s' -> jrel s (set_memory_bytes x s').
Proof. intros R. by apply (jrel_quiet _ _ _ R). Qed.
Lemma q_pmem_bytes x s s' : jrel s s' -> jrel s (set_pmem_bytes x s').
Proof. intros R. by apply (jrel_quiet _ _ _ R). Qed.
Lemma q_ssd_bytes x s s' : jrel s s' -> jrel s (set_ssd_bytes x s').
Proof. intros R. by apply (jrel_quiet _ _ _ R). Qed.
Lemma q_pins x s s' : jrel s s' -> jrel s (set_pins x s').
Proof. intros R. by apply (jrel_quiet _ _ _ R). Qed.
Lemma q_pin_handles x s s' : jrel s s' -> jrel s (set_pin_handles x s').
Proof. intros R. by apply (jrel_quiet _ _ _ R). Qed.
Lemma q_if (b : bool) s s1 s2 : jrel s s1 -> jrel s s2 -> jrel s (if b then s1 else s2).
Proof. by destruct b. Qed.
End quiet.
#[export] Hint Resolve q_add_stat q_put_stat q_max_stat q_tick q_memory q_pmem q_metadata q_expiries q_disk_index
  q_memory_order q_pmem_order q_disk_order q_memory_bytes q_pmem_bytes q_ssd_bytes q_pins q_pin_handles
  jrel_note q_if : probe.

(** Destruct what the branches depend on, then peel. *)
Ltac probe_cases := repeat case_match; simplify_eq/=; auto 20 with probe.

Section journal.
Context {Ord : Type} {RO : RecencyOrder Ord} {ENV : Env} {ZS : Zstd}.
Implicit Types (s : Cache Ord) (k : CacheKey) (v : bytes).

Lemma j_update k f s s' : jrel s s' -> jrel s (update_metadata k f s').
Proof. intros R. unfold update_metadata. probe_cases. Qed.
Lemma j_set_metadata k m s s' : jrel s s' -> jrel s (set_metadata k m s').
Proof. intros R. unfold set_metadata. probe_cases. Qed.
Lemma j_forget k s s' : jrel s s' -> jrel s (forget_metadata_of k s').
Proof. intros R. unfold forget_metadata_of. auto with probe. Qed.
Lemma j_forget_expiry k s s' : jrel s s' -> jrel s (forget_expiry k s').
Proof. intros R. unfold forget_expiry. probe_cases. Qed.
Lemma j_set_expiry k a b s s' : jrel s s' -> jrel s (set_entry_expiry k a b s').
Proof. intros R. unfold set_entry_expiry. case_match; auto using j_forget_expiry with probe. Qed.
Lemma j_forget_unless k s s' : jrel s s' -> jrel s (forget_metadata_unless_resident k s').
Proof. intros R. unfold forget_metadata_unless_resident. case_match; auto using j_forget_expiry, j_forget with probe. Qed.
Lemma j_record_metadata k a b c d e s s' : jrel s s' -> jrel s (record_metadata k a b c d e s').
Proof.
  intros R. unfold record_metadata, coarse. cbn zeta iota beta.
  case_match; auto using j_set_expiry, j_update, j_set_metadata with probe.
Qed.
Lemma j_make_resident k v s s' : jrel s s' -> jrel s (make_resident k v s').2.
Proof.
  intros R. unfold make_resident. cbn zeta. set (s1 := note_ssd_probe_mutation k s').
  assert (jrel s s1) by (unfold s1; auto with probe). clearbody s1. probe_cases.
Qed.
Lemma j_take_resident k s s' : jrel s s' -> jrel s (take_resident k s').2.
Proof.
  intros R. unfold take_resident. cbn zeta. set (s1 := note_ssd_probe_mutation k s').
  assert (jrel s s1) by (unfold s1; auto with probe). clearbody s1. probe_cases.
Qed.
Lemma j_make_pmem k v s s' : jrel s s' -> jrel s (make_pmem_resident k v s').2.
Proof. intros R. unfold make_pmem_resident. probe_cases. Qed.
Lemma j_take_pmem k s s' : jrel s s' -> jrel s (take_pmem_resident k s').2.
Proof. intros R. unfold take_pmem_resident. probe_cases. Qed.
Lemma j_record_eviction t k v c s s' : jrel s s' -> jrel s (record_eviction_with_value t k v c s').
Proof. intros R. apply q_upd; [|done]. intros a. unfold queue_eviction. by repeat case_match. Qed.
Lemma j_eviction_latency t s s' : jrel s s' -> jrel s (record_eviction_latency t s').
Proof. intros R. unfold record_eviction_latency, instant. cbn zeta iota beta. auto 10 with probe. Qed.
Lemma j_reason p w s s' : jrel s s' -> jrel s (record_eviction_reason p w s').
Proof. intros R. unfold record_eviction_reason. probe_cases. Qed.
Lemma j_read_block k s s' : jrel s s' -> jrel s (read_ssd_block k s').2.
Proof. intros R. unfold read_ssd_block, device. probe_cases. Qed.
Lemma j_read_value k s s' : jrel s s' -> jrel s (read_ssd_value_for_eviction k s').2.
Proof.
  intros R. unfold read_ssd_value_for_eviction. case_match; [done|].
  pose proof (j_read_block k s s' R). by destruct (read_ssd_block k s').
Qed.
Lemma j_charge n s s' : jrel s s' -> jrel s (charge_ssd_write n s').
Proof.
  intros R. unfold charge_ssd_write, refresh_ssd_write_budget_stats, instant. cbn zeta iota beta.
  do 3 apply q_put_stat. apply q_upd; [done|]. auto with probe.
Qed.
Lemma j_budget k s s' : jrel s s' -> jrel s (ssd_write_budget_admits k s').2.
Proof.
  intros R. unfold ssd_write_budget_admits, refresh_ssd_write_budget_stats, instant. cbn zeta iota beta.
  destruct (admits _ _ _) as [ok b]. destruct ok; cbn [snd]; repeat (apply q_put_stat || apply q_add_stat);
    (apply q_upd; [done|]); auto with probe.
Qed.
Lemma j_persist_put k v s s' : jrel s s' -> jrel s (persist_pmem_put k v s').2.
Proof. intros R. unfold persist_pmem_put, device. probe_cases. Qed.
Lemma j_persist_delete k s s' : jrel s s' -> jrel s (persist_pmem_delete k s').2.
Proof. intros R. unfold persist_pmem_delete, device. probe_cases. Qed.
Lemma j_worth k s s' : jrel s s' -> jrel s (demotion_is_worthwhile k s').2.
Proof. intros R. unfold demotion_is_worthwhile, coarse. probe_cases. Qed.
Lemma j_sketch s s' : jrel s s' -> jrel s (size_the_sketch_for_what_is_resident s').
Proof.
  intros R. unfold size_the_sketch_for_what_is_resident. cbn zeta.
  repeat case_match; try done; repeat (apply q_upd; [done|]); done.
Qed.
Lemma j_colder k rq n s s' : jrel s s' -> jrel s (incoming_ssd_block_is_colder_than_existing_groups k rq n s').2.
Proof.
  intros R. unfold incoming_ssd_block_is_colder_than_existing_groups, record_ssd_frequency, coarse.
  case_match; [done|]. cbn zeta iota beta. cbn [snd]. apply q_tick. case_match; [by apply q_upd|done].
Qed.

(** *** The operations that change the store *)

Lemma note_store k s : ssd_store (note_ssd_probe_mutation k s) = ssd_store s.
Proof. unfold note_ssd_probe_mutation. by case_match. Qed.

Lemma charge_pv n s : pv (charge_ssd_write n s) = pv s.
Proof. reflexivity. Qed.

(** A store that differs in one noted key. *)
Lemma j_stored x t s s1 s' :
  jrel s s' -> jrel s' s1 -> touched x s' s1 -> ssd_store s1 = ssd_store s' ->
  (epoch t, fence t, journal t) = (epoch s1, fence s1, journal s1) ->
  (forall y, y <> x -> ssd_store t !! y = ssd_store s1 !! y) -> jrel s t.
Proof.
  intros R R1 T1 Es Ej Hst. apply (jrel_change s s' s1); [done..|].
  intros y. destruct (decide (y = x)) as [->|]; [by right|left]. by rewrite Hst, Es.
Qed.

Lemma j_write k block s s' : jrel s s' -> jrel s (write_ssd_block k block s').2.
Proof.
  intros R. unfold write_ssd_block.
  destruct (note_jrel k s' (j_ok _ _ R)) as [R1 T1]. pose proof (note_store k s') as Es.
  set (s1 := note_ssd_probe_mutation k s') in *. clearbody s1.
  pose proof (j_charge (blen block) s' s1 R1) as R2. pose proof (charge_pv (blen block) s1) as Ep.
  set (s2 := charge_ssd_write (blen block) s1) in *. clearbody s2.
  assert (jrel s s2) as R3 by by eapply jrel_trans.
  destruct (negb _); [done|]. unfold device.
  destruct (io_ok _); cbn [snd]; [|by apply q_tick].
  unfold pv in Ep. injection Ep as _ E1 E2 E3 E4.
  apply (j_stored k _ s s1 s'); [done..| |].
  - change ((epoch s2, fence s2, journal s2) = (epoch s1, fence s1, journal s1)). by rewrite E2, E3, E4.
  - intros y Hy. change ((<[k := block]> (ssd_store s2)) !! y = ssd_store s1 !! y).
    by rewrite lookup_insert_ne, E1.
Qed.

Lemma j_delete k s s' : jrel s s' -> jrel s (delete_ssd_block k s').2.
Proof.
  intros R. unfold delete_ssd_block, device. cbn zeta.
  destruct (note_jrel k s' (j_ok _ _ R)) as [R1 T1]. pose proof (note_store k s') as Es.
  set (s1 := note_ssd_probe_mutation k s') in *. clearbody s1.
  assert (jrel s s1) as R3 by by eapply jrel_trans.
  case_match; [done|]. cbn zeta iota beta. case_match; cbn [snd]; [|by apply q_tick].
  apply (j_stored k _ s s1 s'); [done..|]. intros y Hy. cbn. by rewrite lookup_delete_ne.
Qed.

Lemma j_deletes keys s s' : jrel s s' -> jrel s (delete_ssd_blocks keys s').2.
Proof.
  intros R. unfold delete_ssd_blocks. destruct keys as [|k0 ks]; [done|]. set (keys := k0 :: ks). unfold device.
  destruct (notes_jrel keys s' (j_ok _ _ R)) as [R1 T1].
  assert (ssd_store (fold_left (fun s k => note_ssd_probe_mutation k s) keys s') = ssd_store s') as Es.
  { clear. generalize keys. intros l. revert s'. induction l as [|x l IH]; intros s'; cbn; [done|]. by rewrite IH, note_store. }
  set (s1 := fold_left _ keys s') in *. clearbody s1. assert (jrel s s1) as R3 by by eapply jrel_trans.
  case_match; [done|]. cbn zeta iota beta. case_match; cbn [snd]; [|by apply q_tick].
  apply (jrel_change s s' s1); [done..|]. intros x.
  change (ssd_store (set_ssd_store ?m _)) with m. change (ssd_store (next_tick s1)) with (ssd_store s1). rewrite Es.
  destruct (decide (x ∈ keys)) as [Hx|Hx]; [right; auto|left]. clear -Hx. revert Hx. generalize keys (ssd_store s').
  intros l. induction l as [|y l IH]; intros m Hx; cbn; [done|]. apply not_elem_of_cons in Hx as [Hne Hx].
  rewrite IH by done. by apply lookup_delete_ne.
Qed.
End journal.
#[export] Hint Resolve j_update j_set_metadata j_forget j_forget_expiry j_set_expiry j_forget_unless j_record_metadata
  j_record_eviction j_eviction_latency j_reason j_charge j_sketch : probe.

(** Step over a call that returns a pair. *)
Tactic Notation "jcall" uconstr(lem) :=
  match goal with
  | |- jrel ?s _ =>
      match goal with
      | |- context [match ?call with (_, _) => _ end] =>
          let H := fresh "J" in
          assert (jrel s call.2) as H by (apply lem; auto 20 with probe);
          destruct call as [? ?]; cbn [snd] in H
      end
  end.

Section operations.
Context {Ord : Type} {RO : RecencyOrder Ord} {ENV : Env} {ZS : Zstd}.
Implicit Types (s : Cache Ord) (k : CacheKey) (v : bytes).

Lemma j_windowed o b n f s s' : jrel s s' -> jrel s (windowed_victim o b n f s').2.
Proof. intros R. unfold windowed_victim, coarse. probe_cases. Qed.

Lemma j_promotions keys s s' : jrel s s' -> jrel s (apply_cold_tail_promotions keys s').
Proof.
  unfold apply_cold_tail_promotions. revert s'. induction keys as [|k keys IH]; intros s' R; cbn; auto with probe.
Qed.

Lemma j_select_memory s s' : jrel s s' -> jrel s (select_memory_eviction_victim s').2.
Proof.
  intros R. unfold select_memory_eviction_victim. cbn zeta. case_match; [done|..];
    jcall j_windowed; apply j_promotions, q_add_stat; done.
Qed.
Lemma j_select_pmem s s' : jrel s s' -> jrel s (select_pmem_eviction_victim s').2.
Proof. intros R. unfold select_pmem_eviction_victim. case_match; [done|..]; jcall j_windowed; by apply q_add_stat. Qed.
Lemma j_select_ssd s s' : jrel s s' -> jrel s (select_ssd_eviction_victim s').2.
Proof. intros R. unfold select_ssd_eviction_victim. case_match; [done|..]; jcall j_windowed; by apply q_add_stat. Qed.

Lemma j_ssd_victim k w n s s' : jrel s s' -> jrel s (evict_ssd_victim k w n s').
Proof. intros R. unfold evict_ssd_victim. cbn zeta. jcall j_read_value. auto 20 with probe. Qed.

Lemma j_ssd_loop fuel inc vs s s' : jrel s s' -> jrel s (evict_ssd_loop fuel inc vs s').2.
Proof.
  revert vs s'. induction fuel as [|fuel IH]; intros vs s' R; cbn [evict_ssd_loop]; [done|].
  destruct (_ <? _); [|done]. jcall j_select_ssd. destruct o as [[[k w] n]|]; [|done].
  assert (jrel s (evict_ssd_victim k w n c)) by by apply j_ssd_victim. case_match; auto.
Qed.

Lemma j_evict_ssd inc s s' : jrel s s' -> jrel s (evict_ssd_for_batch inc s').
Proof. intros R. unfold evict_ssd_for_batch. jcall j_ssd_loop. case_match; [done|]. by apply j_deletes. Qed.

Lemma j_bypass k v s s' : jrel s s' -> jrel s (put_ssd_bypass_if_absent k v s').2.
Proof.
  intros R. unfold put_ssd_bypass_if_absent. case_match; [done|]. jcall j_budget.
  case_match; [done|]. case_match; [cbn [snd]; auto with probe|].
  destruct (encode_cache_block _ _) as [block|e]; [|cbn [snd]; auto with probe].
  cbn zeta. case_match; [cbn [snd]; auto with probe|].
  assert (jrel s (evict_ssd_for_batch (blen block) c)) as R2 by by apply j_evict_ssd.
  set (c2 := evict_ssd_for_batch (blen block) c) in *. clearbody c2. case_match; [cbn [snd]; auto with probe|].
  jcall j_write. destruct r; cbn [snd]; auto 10 with probe.
Qed.

Lemma j_room fuel k n s s' : jrel s s' -> jrel s (make_room_loop fuel k n s').2.
Proof.
  revert s'. induction fuel as [|fuel IH]; intros s' R; cbn [make_room_loop]; [done|]. cbn zeta.
  case_match; [done|]. match goal with |- context [evict_ssd_for_batch ?i s'] => set (inc := i) end.
  assert (jrel s (evict_ssd_for_batch inc s')) as R2 by by apply j_evict_ssd.
  case_match; [done|]. by apply IH.
Qed.

Lemma j_demote_pmem k v s s' : jrel s s' -> jrel s (demote_pmem_victim k v s').2.
Proof. intros R. unfold demote_pmem_victim. case_match; [done|]. jcall j_worth. case_match; [done|]. by apply j_bypass. Qed.

Lemma j_pmem_victim t k w n s s' : jrel s s' -> jrel s (evict_pmem_victim t k w n s').2.
Proof.
  intros R. unfold evict_pmem_victim. cbn zeta. jcall j_take_pmem. destruct o as [old|]; [|done].
  jcall j_demote_pmem. jcall j_persist_delete. cbn [snd]. auto 20 with probe.
Qed.

Lemma j_pmem_loop fuel t s s' : jrel s s' -> jrel s (evict_pmem_loop fuel t s').
Proof.
  revert s'. induction fuel as [|fuel IH]; intros s' R; cbn [evict_pmem_loop]; [done|].
  destruct (_ <? _); [|done]. jcall j_select_pmem. destruct o as [[[k w] n]|]; [|auto with probe].
  jcall j_pmem_victim. case_match; auto.
Qed.

Lemma j_put_pmem k v s s' : jrel s s' -> jrel s (put_pmem_shared k v s').2.
Proof.
  intros R. unfold put_pmem_shared, put_pmem_shared_with_persistence, instant. cbn zeta iota beta.
  set (s1 := next_tick _). assert (jrel s s1) as R1 by (unfold s1; auto with probe). clearbody s1.
  case_match; [cbn [snd]; auto with probe|]. jcall j_persist_put. case_match; [cbn [snd]; auto with probe|].
  jcall j_make_pmem. cbn [snd]. apply j_pmem_loop. case_match; auto 10 with probe.
Qed.

Lemma j_demote_memory k v s s' : jrel s s' -> jrel s (demote_memory_victim k v s').2.
Proof.
  intros R. unfold demote_memory_victim. case_match; [done|]. jcall j_worth. case_match; [done|].
  case_match; [case_match; [cbn [snd]; auto with probe|by apply j_put_pmem]|].
  case_match; [by apply j_bypass|done].
Qed.

Lemma j_memory_victim t k w n s s' : jrel s s' -> jrel s (evict_memory_victim t k w n s').2.
Proof.
  intros R. unfold evict_memory_victim. cbn zeta. jcall j_take_resident. destruct o as [old|]; [|done].
  jcall j_demote_memory. cbn [snd]. auto 20 with probe.
Qed.

Lemma j_memory_loop fuel t s s' : jrel s s' -> jrel s (evict_memory_loop fuel t s').
Proof.
  revert s'. induction fuel as [|fuel IH]; intros s' R; cbn [evict_memory_loop]; [done|].
  destruct (_ <? _); [|done]. jcall j_select_memory. destruct o as [[[k w] n]|]; [|auto with probe].
  jcall j_memory_victim. case_match; auto.
Qed.

Lemma j_put_memory k v s s' : jrel s s' -> jrel s (put_memory_shared k v s').2.
Proof.
  intros R. unfold put_memory_shared, instant. cbn zeta iota beta. case_match; [cbn [snd]; auto with probe|].
  set (s1 := upd_aux _ _). assert (jrel s s1) as R1.
  { unfold s1. apply q_upd; [done|]. auto with probe. }
  clearbody s1. case_match; [cbn [snd]; auto with probe|]. jcall j_make_resident. cbn [snd].
  apply j_memory_loop. case_match; [|auto 10 with probe]. apply q_memory_bytes. repeat case_match; auto 10 with probe.
Qed.
End operations.

Section requests.
Context {Ord : Type} {RO : RecencyOrder Ord} {ENV : Env} {ZS : Zstd}.
Implicit Types (s : Cache Ord) (k : CacheKey) (v : bytes).

Lemma j_drop_stale k t s s' : jrel s s' -> jrel s (drop_stale_tier_copy k t s').2.
Proof.
  intros R. unfold drop_stale_tier_copy. destruct t; [| |done..].
  - cbn [snd]. apply q_memory_order. case_match; [|done]. jcall j_take_resident. case_match; auto with probe.
  - assert (exists r s1, jrel s s1 /\
      (if decide (is_Some (pmem s' !! k)) then
         let '(r, s0) := persist_pmem_delete k s' in
         match r with Ok _ => (Ok tt, note_ssd_probe_mutation k s0) | Err e => (Err e, s0) end
       else (Ok tt, s')) = (r, s1)) as (r & s1 & R1 & ->).
    { case_decide; [|by eexists _, _]. pose proof (j_persist_delete k s s' R) as R1.
      destruct (persist_pmem_delete k s') as [[[]|e] s0]; eexists _, _; (split; [|done]); auto with probe. }
    destruct r as [[]|e]; [|done]. jcall j_take_pmem. cbn [snd]. case_match; auto with probe.
Qed.

Lemma j_leave_memory k b s s' : jrel s s' -> jrel s (leave_memory_tier k b s').2.
Proof. intros R. unfold leave_memory_tier. jcall j_take_resident. cbn [snd]. repeat case_match; auto with probe. Qed.
Lemma j_leave_pmem k b s s' : jrel s s' -> jrel s (leave_pmem_tier k b s').2.
Proof. intros R. unfold leave_pmem_tier. jcall j_take_pmem. cbn [snd]. repeat case_match; auto with probe. Qed.
Lemma j_leave_disk k s s' : jrel s s' -> jrel s (leave_disk_index k s').
Proof. intros R. unfold leave_disk_index. case_match; auto with probe. Qed.

Lemma j_remove_expired k s s' : jrel s s' -> jrel s (remove_expired_entry k s').
Proof.
  intros R. unfold remove_expired_entry. cbn zeta. jcall j_leave_memory. jcall j_leave_pmem. jcall j_persist_delete.
  set (s1 := if is_ok r then c1 else _). assert (jrel s s1) as R1 by (unfold s1; auto with probe). clearbody s1.
  set (dep := departing_from Pmem _ _ _). clearbody dep.
  assert (exists dep' s2, (if notifying s' && bool_decide (dep = None) then
      let '(v, s0) := read_ssd_value_for_eviction k s1 in
      (if bool_decide (v = []) then None else Some (Ssd, v), s0) else (dep, s1)) = (dep', s2) /\ jrel s s2)
    as (dep' & s2 & -> & R2).
  { case_match; [|by eexists _, _]. pose proof (j_read_value k s s1 R1) as R2.
    destruct (read_ssd_value_for_eviction k s1). by eexists _, _. }
  assert (jrel s (leave_disk_index k s2)) as R3 by by apply j_leave_disk.
  jcall j_delete. destruct dep' as [[? ?]|]; auto 10 with probe.
Qed.

Lemma j_sweep s s' : jrel s s' -> jrel s (sweep_some_expired s').
Proof.
  intros R. unfold sweep_some_expired, coarse. case_match; [done|]. cbn zeta iota beta.
  assert (jrel s (next_tick s')) as R1 by auto with probe. revert R1. set (keys := dedup _). clearbody keys.
  generalize (next_tick s'). induction keys as [|k keys IH]; intros t Rt; cbn; [done|].
  by apply IH, j_remove_expired.
Qed.

Lemma j_count a b s s' : jrel s s' -> jrel s (count_ssd_refusal a b s').
Proof. intros R. unfold count_ssd_refusal. destruct a, b; auto with probe. Qed.

Lemma j_put_ssd_copy k v rq d to s s' : jrel s s' -> jrel s (put_ssd_copy k v rq d to s').2.
Proof.
  intros R. unfold put_ssd_copy. cbn zeta. destruct to; cbn [negb]; [|cbn [snd]; auto using j_count].
  case_match; [cbn [snd]; auto using j_count|]. jcall j_budget. case_match; [cbn [snd]; auto with probe|].
  set (s1 := if ssd_write_through _ && _ then _ else _). assert (jrel s s1) as R1 by (unfold s1; auto with probe).
  clearbody s1. destruct (encode_cache_block _ _) as [block|e]; [|done].
  case_match; [cbn [snd]; auto using j_count|].
  assert (exists colder s2, (if ssd_capacity_bytes (cfg s1) <? projected_ssd_install_bytes k (blen block) s1
      then incoming_ssd_block_is_colder_than_existing_groups k rq (blen v) s1 else (false, s1)) = (colder, s2)
      /\ jrel s s2) as (colder & s2 & -> & R2).
  { case_match; [|by eexists _, _]. pose proof (j_colder k rq (blen v) s s1 R1) as R2.
    destruct (incoming_ssd_block_is_colder_than_existing_groups _ _ _ _). by eexists _, _. }
  destruct colder; [cbn [snd]; auto using j_count|]. unfold make_room_for_ssd_install.
  jcall j_room. case_match; [cbn [snd]; auto using j_count|]. jcall j_write. destruct r; [|done]. cbn [snd].
  do 3 apply q_add_stat. apply j_record_metadata. case_match; auto 10 with probe.
Qed.

Lemma j_put_memory_copy k v rq d to s s' : jrel s s' -> jrel s (put_memory_copy k v rq d to s').2.
Proof.
  intros R. unfold put_memory_copy. destruct to.
  - jcall j_put_memory. case_match; [|done]. jcall j_put_pmem. done.
  - case_match; [|done]. jcall j_drop_stale. by case_match.
Qed.

Lemma j_put_pmem_copy k v rq d to via s s' : jrel s s' -> jrel s (put_pmem_copy k v rq d to via s').2.
Proof.
  intros R. unfold put_pmem_copy. case_match; [cbn [snd]; apply j_put_pmem; auto with probe|].
  case_match; [|done]. case_match; [apply j_drop_stale; auto with probe|cbn [snd]; auto with probe].
Qed.

Lemma j_put_inner k v rq s s' : jrel s s' -> jrel s (put_with_request_inner k v rq s').2.
Proof.
  intros R. unfold put_with_request_inner. cbn zeta. set (s0 := sweep_some_expired s').
  assert (jrel s s0) as R0 by by apply j_sweep. clearbody s0.
  set (s1 := if negb (is_pinned s0 k) then _ else s0). assert (jrel s s1) as R1 by (unfold s1; auto with probe).
  clearbody s1. jcall j_put_memory_copy. destruct r; [|done]. jcall j_put_pmem_copy. destruct r; [|done].
  by apply j_put_ssd_copy.
Qed.

Lemma j_put_shared k v rq s s' : jrel s s' -> jrel s (put_with_request_shared k v rq s').2.
Proof.
  intros R. unfold put_with_request_shared. jcall j_put_inner.
  assert (jrel s (ssd_copy_stale k v r c).2) as R1.
  { unfold ssd_copy_stale. destruct r as [[]|]; try done. case_match; [|done]. jcall j_read_block. done. }
  destruct (ssd_copy_stale k v r c) as [stale s1]. cbn [snd] in R1. destruct stale as [stale|]; [|done].
  assert (jrel s (if stale then drop_ssd_copy k s1 else (Ok tt, s1)).2) as R2.
  { destruct stale; [|done]. unfold drop_ssd_copy. jcall j_delete. destruct r0; [|done]. by apply j_leave_disk. }
  destruct (if stale then drop_ssd_copy k s1 else (Ok tt, s1)) as [r1 s2]. cbn [snd] in R2.
  destruct r1; [|done]. cbn [snd]. auto with probe.
Qed.

Lemma j_drain s s' : jrel s s' -> jrel s (drain_eviction_records s').2.
Proof. intros R. unfold drain_eviction_records. case_match; [done|]. cbn [snd]. by apply q_upd. Qed.

Lemma j_put k v s s' : jrel s s' -> jrel s (put k v s').2.
Proof.
  intros R. unfold put, instant. cbn zeta iota beta. case_match; [cbn [snd]; auto with probe|].
  jcall j_put_shared. cbn [snd].
  assert (forall t, jrel s (record_put_latency t c)).
  { intros t. unfold record_put_latency, instant. cbn zeta iota beta. auto 10 with probe. }
  case_match; auto using j_drain.
Qed.

Lemma j_unpin k s s' : jrel s s' -> jrel s (unpin k s').
Proof.
  intros R. unfold unpin. assert (jrel s (decrement_pin k s')) as R1.
  { unfold decrement_pin, decrement_pin_count, remove_pin_handles. repeat case_match; auto with probe. }
  set (s1 := decrement_pin k s') in *. clearbody s1. case_match; [|done].
  unfold reclaim_after_release, instant. cbn zeta iota beta. apply j_drain, j_evict_ssd, j_pmem_loop, q_tick, j_memory_loop.
  auto with probe.
Qed.

Lemma j_pin k s s' : jrel s s' -> jrel s (pin_ref k s').
Proof.
  intros R. unfold pin_ref, increment_pin, increment_pin_with_optional_size, add_pin_handles.
  case_match; auto 10 with probe.
Qed.

Lemma j_invalidate k s s' : jrel s s' -> jrel s (invalidate k s').2.
Proof.
  intros R. unfold invalidate, invalidate_keys_locked. case_match; [done|]. cbn [snd fold_left]. apply j_deletes, q_disk_order.
  unfold invalidate_one. cbn zeta. jcall j_leave_memory. jcall j_take_pmem. apply q_add_stat.
  assert (forall t, jrel s t -> jrel s (persist_pmem_delete k t).2) as Hp by (intros; by apply j_persist_delete).
  case_match; [apply q_pins, q_upd; [done|]|apply q_pins]; apply j_forget_unless, q_pmem_order, Hp; case_match; auto with probe.
Qed.

(** *** Reads *)

Lemma j_needs seen s s' : jrel s s' -> jrel s (access_order_needs_refresh seen s').2.
Proof. intros R. unfold access_order_needs_refresh, coarse. probe_cases. Qed.

Lemma j_sample k n s s' : jrel s s' -> jrel s (sample_ssd_frequency k n s').
Proof. intros R. unfold sample_ssd_frequency. repeat case_match; try done. by apply q_upd. Qed.

Lemma j_known_hit k e n ep s s' : jrel s s' -> jrel s (record_known_hit_shared_occurrences_at k e n ep s').2.
Proof.
  intros R. unfold record_known_hit_shared_occurrences_at. destruct e as [m|]; [|done]. cbn zeta.
  destruct (record_hits _ m) as [before m1]. cbn [add_hotness].
  set (s1 := if _ && (_ <=? sat_add32 _ _) then _ else _). assert (jrel s s1) as R1.
  { assert (forall t, jrel s t -> forall b f, keeps_probe f -> jrel s (if b : bool then upd_aux f t else t)) as Hu.
    { intros t Rt [] f Hf; [by apply q_upd|done]. }
    unfold s1. apply q_if; [apply q_add_stat|]; (apply Hu; [by apply j_sample|done]). }
  clearbody s1. destruct (before =? 0); [cbn [snd]; auto with probe|]. jcall j_needs.
  match goal with |- context [if ?b then _ else _] => destruct b end; cbn [snd]; auto with probe.
Qed.

Lemma j_record_hit k n s s' : jrel s s' -> jrel s (record_hit k n s').
Proof.
  intros R. unfold record_hit.
  assert (jrel s (record_hit_metadata k n s').2) as R1.
  { unfold record_hit_metadata, coarse. cbn zeta iota beta. case_match.
    - destruct (record_hits 1 _) as [before m1]. cbn [add_hotness snd].
      assert (forall t, jrel s t -> jrel s (sample_ssd_frequency k (sampled_hit_count before 1) t)) as Hs
        by (intros; by apply j_sample). case_match; [apply q_add_stat|]; apply j_update, Hs; auto with probe.
    - cbn [snd]. case_match; auto with probe. }
  destruct (record_hit_metadata k n s') as [seen s1]. cbn [snd] in R1. jcall j_needs. case_match; [done|].
  unfold refresh_access_order, coarse. cbn zeta iota beta. do 3 (apply q_disk_order || apply q_pmem_order || apply q_memory_order).
  apply q_add_stat. case_match; auto with probe.
Qed.

Lemma j_observe f t s s' : jrel s s' -> jrel s (observe_latency f t s').
Proof. intros R. unfold observe_latency, instant. cbn zeta iota beta. auto 10 with probe. Qed.
End requests.

Section reads.
Context {Ord : Type} {RO : RecencyOrder Ord} {ENV : Env} {ZS : Zstd}.
Implicit Types (s : Cache Ord) (k : CacheKey) (v : bytes).

Lemma pv_note k s s' : pv s' = pv s -> pv (note_ssd_probe_mutation k s') = pv (note_ssd_probe_mutation k s).
Proof.
  unfold pv, note_ssd_probe_mutation, epoch, fence, journal. intros [= E0 E1 E2 E3 E4]. rewrite E0.
  case_match; cbn; by rewrite E0, E1, E2, ?E3, E4.
Qed.

(** Entering unused memory journals the one key and nothing else. *)
Lemma put_memory_spare k v s :
  memory s !! k = None -> memory_bytes s + blen v <= memory_capacity_bytes (cfg s) ->
  (put_memory_shared k v s).1 = true ->
  pv (put_memory_shared k v s).2 = pv (note_ssd_probe_mutation k s).
Proof.
  intros Hk Hb. unfold put_memory_shared, instant. cbn zeta iota beta.
  destruct (_ || _); [done|]. set (s1 := upd_aux _ _).
  assert (pv s1 = pv s /\ memory s1 = memory s /\ memory_bytes s1 = memory_bytes s /\ cfg s1 = cfg s)
    as (E1 & E2 & E3 & E4).
  { unfold s1, size_the_sketch_for_what_is_resident. cbn zeta. by repeat case_match. }
  clearbody s1. destruct (negb _); [done|]. intros _.
  set (s2 := add_stat _ _ (add_stat _ _ s1)).
  assert (pv s2 = pv s /\ memory s2 = memory s /\ memory_bytes s2 = memory_bytes s /\ cfg s2 = cfg s)
    as (F1 & F2 & F3 & F4) by done.
  clearbody s2. unfold make_resident. cbn zeta. set (s3 := note_ssd_probe_mutation k s2).
  assert (pv s3 = pv (note_ssd_probe_mutation k s) /\ memory s3 = memory s2 /\ memory_bytes s3 = memory_bytes s2
          /\ cfg s3 = cfg s2) as (G1 & G2 & G3 & G4).
  { split; [by apply pv_note|]. unfold s3, note_ssd_probe_mutation. by case_match. }
  clearbody s3. rewrite G2, F2, Hk.
  match goal with |- context [let '(_, _) := ?x in _] => assert (exists s4, x = (None, s4) /\ pv s4 = pv s3 /\
    memory_bytes s4 = memory_bytes s3 /\ cfg s4 = cfg s3) as (s4 & -> & H1 & H2 & H3) end.
  { repeat case_match; eexists; split_and!; done. }
  cbn [snd]. unfold evict_memory_to_capacity_since. cbn [evict_memory_loop].
  set (s5 := set_memory_bytes _ _).
  assert ((memory_capacity_bytes (cfg s5) <? memory_bytes s5) = false) as ->.
  { apply Z.ltb_ge. change (memory_bytes s4 + blen v <= memory_capacity_bytes (cfg s4)).
    rewrite H2, H3, G3, G4, F3, F4. lia. }
  change (pv s4 = pv (note_ssd_probe_mutation k s)). congruence.
Qed.

Lemma j_refill k v cur s s' : jrel s s' -> jrel s (refill_ssd_probe k v cur s').2.
Proof.
  intros R. unfold refill_ssd_probe, coarse. destruct (_ || _) eqn:E0; [done|]. cbn zeta iota beta.
  set (s1 := next_tick s'). assert (jrel s s1) as R1 by (unfold s1; auto with probe).
  change (memory s') with (memory s1) in E0. clearbody s1. case_match; [cbn [snd]; done|].
  assert (jrel s (refill_from_ssd_shared k v s1).2) as R2.
  { unfold refill_from_ssd_shared. case_match; [by apply j_put_pmem|by apply j_put_memory]. }
  destruct (refill_from_ssd_shared k v s1) as [refilled s2] eqn:Er. cbn [snd] in *.
  assert (memory s1 !! k = None) as Hk.
  { destruct (memory s1 !! k) eqn:E; [|done]. rewrite (bool_decide_eq_true_2 (is_Some (Some r))) in E0 by done.
    by rewrite ?orb_true_r in E0. }
  match goal with |- context [if ?b then _ else _] => destruct b eqn:Hroll end; [|done].
  apply andb_prop in Hroll as [Hroll Hf]. apply andb_prop in Hroll as [Hroll Hmax].
  apply andb_prop in Hroll as [Hroll He]. apply andb_prop in Hroll as [Hroll Hspare].
  apply andb_prop in Hroll as [-> Htarget]. zbool.
  assert (refill_from_ssd_shared k v s1 = put_memory_shared k v s1) as Em.
  { unfold refill_from_ssd_shared. destruct (bool_decide (_ = SideBySide)); [|done]. cbn [negb orb andb] in *.
    destruct (0 <? pmem_capacity_bytes (cfg s1)) eqn:E1; [|done].
    destruct (data_placement_threshold_bytes _ <? blen v) eqn:E2; [|done]. exfalso.
    apply orb_true_iff in Htarget as [?|?]; zbool; lia. }
  rewrite Em in Er. pose proof (put_memory_spare k v s1 Hk Hspare) as Hpv. rewrite Er in Hpv. specialize (Hpv eq_refl).
  cbn [snd] in Hpv. apply (jrel_quiet _ _ _ R1). pose proof (j_ok _ _ R1) as (_ & Hl & _).
  clear -Hpv He Hf Hl. unfold pv, note_ssd_probe_mutation, bump_ssd_probe_epoch, journal_mutation in Hpv.
  unfold epoch, fence, journal, jlen in *. destruct (ssd_capacity_bytes (cfg s1) =? 0) eqn:Ec; cbn in Hpv;
    injection Hpv as P0 P1 P2 P3 P4.
  - rewrite P3 in Hf. unfold sat_add in *. lia.
  - unfold pv, epoch, fence, journal. cbn. rewrite P0, P1, P3, P4, list_insert_insert_eq.
    set (l := ssd_probe_mutations (aux s1)) in *.
    assert (Z.to_nat (sat_add (ssd_probe_epoch (aux s1)) 1 `mod` Z.of_nat (length l)) < length l)%nat as Hi.
    { pose proof (Z.mod_pos_bound (sat_add (ssd_probe_epoch (aux s1)) 1) (Z.of_nat (length l)) Hl). lia. }
    apply lookup_lt_is_Some in Hi as [h Eh]. rewrite Eh. cbn. by rewrite (list_insert_id _ _ _ Eh).
Qed.

Lemma j_promote k v s s' : jrel s s' -> jrel s (promote_pmem_probe_if_current k v s').
Proof.
  intros R. unfold promote_pmem_probe_if_current, coarse. cbn zeta iota beta.
  match goal with |- context [if ?b then _ else _] => destruct b end; [auto with probe|].
  set (s1 := record_hit _ _ _). assert (jrel s s1) by (apply j_record_hit; auto with probe). clearbody s1.
  case_match; [done|]. jcall j_put_memory. case_match; auto with probe.
Qed.

Lemma j_get_probe k now s s' : jrel s s' -> jrel s (get_probe k now s').2.
Proof.
  intros R. unfold get_probe, coarse. do 3 (case_match; [done|]). case_match; [|done]. cbn zeta iota beta.
  by jcall j_known_hit.
Qed.

Lemma j_ssd_probe k s s' : jrel s s' -> jrel s (ssd_probe k s').2.
Proof. intros R. unfold ssd_probe. by jcall j_read_block. Qed.

Lemma j_finish_hit k c v w pe a b s s' : jrel s s' -> jrel s (finish_ssd_hit k c v w pe a b s').
Proof.
  intros R. unfold finish_ssd_hit. cbn zeta. do 3 apply j_observe.
  set (s1 := record_hit _ _ _). assert (jrel s s1) as R1.
  { apply j_record_hit. destruct c; auto with probe. }
  clearbody s1. case_match; [|done]. jcall j_refill. case_match; auto with probe.
Qed.

Lemma j_outcome k n o s s' :
  jrel s s' -> jrel s (match o with Accounted => s' | NeedsAccessOrderRefresh => refresh_access_order k s'
                                  | NeedsMetadata => record_hit k n s' end).
Proof.
  intros R. destruct o; [done| |by apply j_record_hit].
  by apply q_disk_order, q_pmem_order, q_memory_order.
Qed.

Lemma j_finish_instance k c v a b s s' : jrel s s' -> jrel s (finish_ssd_instance_hit k c v a b s').2.
Proof.
  intros R. unfold finish_ssd_instance_hit, coarse. case_match; [done|]. cbn zeta iota beta.
  set (s1 := if c then _ else _). assert (jrel s s1) by (unfold s1; destruct c; auto with probe). clearbody s1.
  jcall j_known_hit. cbn [snd]. apply j_outcome. by do 3 apply j_observe.
Qed.

Lemma j_pair {A} (a : A) s t : jrel s t -> jrel s (a, t).2.
Proof. done. Qed.

Lemma j_get_from_ssd k t s s' : jrel s s' -> jrel s (get_from_ssd k t s').2.
Proof.
  intros R. unfold get_from_ssd, instant. cbn zeta iota beta.
  assert (jrel s (ssd_probe k (next_tick s')).2) as R1 by (apply j_ssd_probe; auto with probe).
  destruct (ssd_probe k (next_tick s')) as [[[block wanted] pe] s1]. cbn [snd] in R1.
  destruct block as [[block|]|e]; [|apply j_pair; do 2 apply j_observe; auto with probe|done].
  destruct (decode_cache_block_owned block) as [v|e]; [|done]. case_match.
  - by jcall j_finish_instance.
  - apply j_pair. by apply j_drain, j_finish_hit.
Qed.

Lemma j_get k s s' : jrel s s' -> jrel s (get_with_tier k s').2.
Proof.
  intros R. unfold get_with_tier, instant, coarse. cbn zeta iota beta. jcall j_get_probe.
  match goal with |- context [match ?p with ProbeStopped => _ | _ => _ end] => destruct p end; [apply j_pair..|].
  - done.
  - case_match; [|done]. do 2 apply q_add_stat. by apply j_remove_expired.
  - unfold apply_outcome. match goal with |- context [observe_latency _ ?t (observe_latency _ _ ?x)] =>
      set (s2 := observe_latency "read_through" t (observe_latency "get" t x));
      assert (jrel s s2) as R2 by (by do 2 apply j_observe) end. clearbody s2.
    case_match; [done|by apply (j_outcome k 0 NeedsAccessOrderRefresh)|case_decide; [by apply j_record_hit|done]].
  - apply j_drain. do 3 apply j_observe. apply j_promote. auto with probe.
  - by apply j_get_from_ssd.
Qed.
End reads.

(** ** A read overtaken by other operations

    Any sequence of operations may run between the two steps of a read; the
    late refill still installs what the store holds, or is refused. *)

Section race.
Context {Ord : Type} {RO : RecencyOrder Ord} {ENV : Env} {ZS : Zstd}.
Implicit Types (s : Cache Ord) (k : CacheKey) (v : bytes).

(** The operations that can run between the two steps. *)
Inductive Operation :=
  | OpPut (k : CacheKey) (v : bytes)
  | OpGet (k : CacheKey)
  | OpPin (k : CacheKey)
  | OpUnpin (k : CacheKey)
  | OpInvalidate (k : CacheKey).

Definition run_operation s (op : Operation) : Cache Ord :=
  match op with
  | OpPut k v => (put k v s).2
  | OpGet k => (get_with_tier k s).2
  | OpPin k => pin_ref k s
  | OpUnpin k => unpin k s
  | OpInvalidate k => (invalidate k s).2
  end.

Definition run_operations (ops : list Operation) s : Cache Ord := fold_left run_operation ops s.

Lemma j_operations ops s s' : jrel s s' -> jrel s (run_operations ops s').
Proof.
  revert s'. induction ops as [|op ops IH]; intros s' R; [done|]. apply IH.
  destruct op; cbn [run_operation]; [by apply j_put|by apply j_get|by apply j_pin|by apply j_unpin|by apply j_invalidate].
Qed.

Lemma read_block_quiet k s : pv (read_ssd_block k s).2 = pv s.
Proof. unfold read_ssd_block, device. by repeat case_match. Qed.

Lemma read_block_found k s block : (read_ssd_block k s).1 = Ok (Some block) -> ssd_store s !! k = Some block.
Proof.
  unfold read_ssd_block, device. case_match; [done|]. cbn zeta iota beta. case_match; [|done]. cbn [fst]. by intros [= E].
Qed.

Lemma probe_epoch_quiet k s : ssd_batch_probe_epoch [k] s = u64_max \/ ssd_batch_probe_epoch [k] s = epoch s.
Proof. unfold ssd_batch_probe_epoch. case_match; auto. Qed.

(** C9. A block read under the shared lock may be refilled, after any other
    operations have run, only while it is the block the store holds: when
    [ssd_probe_is_current_for] accepts the probe, nothing that ran in between
    changed or removed the block. *)
Theorem current_probe_is_fresh k s ops block refill probe_epoch s0 :
  probe_ok s -> ssd_probe k s = (Ok (Some block), refill, probe_epoch, s0) ->
  ssd_probe_is_current_for k probe_epoch (run_operations ops s0) = true ->
  ssd_store (run_operations ops s0) !! k = Some block.
Proof.
  unfold ssd_probe. intros Hs Hp Hc. pose proof (read_block_quiet k s) as Eq. pose proof (read_block_found k s block) as Hb.
  destruct (read_ssd_block k s) as [r t]. cbn [fst snd] in *. injection Hp as -> _ <- ->.
  assert (jrel s s0) as R0 by (eapply jrel_quiet; [by apply jrel_refl|done]).
  rewrite (current_store k s0).
  - injection Eq as _ -> _ _ _. by apply Hb.
  - apply j_operations, jrel_refl, R0.
  - destruct (probe_epoch_quiet k s0) as [E|E]; rewrite E in Hc; [|exact Hc].
    unfold ssd_probe_is_current_for in Hc. by rewrite Z.eqb_refl in Hc.
Qed.
End race.

(** A block in the store with nothing above it, and other keys written,
    pinned and dropped while it is being read. *)
Definition race_state : Cache CacheKeyOrder :=
  let s := puts [(key 1, payload Byte.x01 4)] (fresh_cache (demo_config 0 0 200 0)) in
  set_cfg (demo_config 64 0 200 0) s.

Definition race_ops : list Operation :=
  [OpPut (key 2) (payload Byte.x02 4); OpPin (key 2); OpUnpin (key 2); OpInvalidate (key 2)].

Definition probe_accepted {Ord} `{RecencyOrder Ord} `{Env} `{Zstd} k ops
    (p : result (option bytes) * bool * Z * Cache Ord) : bool :=
  match p with
  | (Ok (Some _), _, e, s0) => ssd_probe_is_current_for k e (run_operations ops s0)
  | _ => false
  end.

Lemma probe_accepted_inv {Ord} `{RecencyOrder Ord} `{Env} `{Zstd} k ops (p : result (option bytes) * bool * Z * Cache Ord) :
  probe_accepted k ops p = true ->
  exists block refill e s0, p = (Ok (Some block), refill, e, s0) /\
    ssd_probe_is_current_for k e (run_operations ops s0) = true.
Proof. destruct p as [[[[[b|]|]] e] s0]; cbn; [|done..]. eauto 10. Qed.

Lemma current_probe_is_fresh_witness :
  exists block refill probe_epoch s0,
    ssd_probe (key 1) race_state = (Ok (Some block), refill, probe_epoch, s0) /\
    ssd_probe_is_current_for (key 1) probe_epoch (run_operations race_ops s0) = true /\
    ssd_store (run_operations race_ops s0) !! key 1 = Some block.
Proof.
  assert (probe_accepted (key 1) race_ops (ssd_probe (key 1) race_state) = true) as H by (vm_compute; reflexivity).
  destruct (probe_accepted_inv _ _ _ H) as (block & refill & e & s0 & Hp & Hc).
  exists block, refill, e, s0. split; [exact Hp|]. split; [exact Hc|].
  apply (current_probe_is_fresh (key 1) race_state race_ops block refill e s0); [|exact Hp|exact Hc].
  split; [|split]; vm_compute; [split|..]; congruence.
Defined.

(** A rewrite of the key in between is always seen. *)
Example rewritten_probe_is_stale :
  let '(_, _, e, s0) := ssd_probe (key 1) race_state in
  ssd_probe_is_current_for (key 1) e (run_operations [OpPut (key 1) (payload Byte.x03 4)] s0) = false.
Proof. vm_compute. reflexivity. Qed.
