(* ===== verification/Cluster.v ===== *)
(** * Placing keys on a cluster

    [CacheClusterTopology] (core/cluster.rs): a hash ring over the members of
    a cluster, kept up to date one member at a time, with a table that finds a
    ring point from the leading bits of a hash.  The membership, a
    [BTreeMap<String, _>] whose keys are the nodes' own names, is the list of
    nodes in name order.  A member index is a [nat]: the [u32] of the source
    counts members, of which there are never 2^32. *)

From stdpp Require Import pretty.
From S2P Require Import Prelude Types Ordering Hashes.

(** ** Hashing *)

Definition murmur64_mix (h k : Z) : Z :=
  let k := mul64 k HASH64_M in
  let k := xorshift k 47 in
  let k := mul64 k HASH64_M in
  mul64 (Z.lxor h k) HASH64_M.

(** [as_chunks::<8>]: whole blocks in order, then the tail. *)
Fixpoint murmur64_blocks (fuel : nat) (h : Z) (key : bytes) : Z * bytes :=
  match fuel with
  | O => (h, key)
  | S f =>
      if (8 <=? length key)%nat
      then murmur64_blocks f (murmur64_mix h (le_value (take 8 key))) (drop 8 key)
      else (h, key)
  end.

Definition mur_mur_hash2_64a (key : bytes) (seed : Z) : Z :=
  let h := Z.lxor seed (mul64 (blen key) HASH64_M) in
  let '(h, tail) := murmur64_blocks (length key) h key in
  let h := match tail with [] => h | _ => mul64 (Z.lxor h (le_value tail)) HASH64_M end in
  let h := xorshift h 47 in
  let h := mul64 h HASH64_M in
  xorshift h 47.

Definition cache_route_hash (key : bytes) : Z := mur_mur_hash2_64a key MT_HASH_SEED.

Definition cache_key_routing_bytes (key : CacheKey) : bytes :=
  le_bytes 4 (wrap32 (blen (string_bytes (namespace key)))) ++ string_bytes (namespace key)
  ++ le_bytes 8 (shard_id key)
  ++ le_bytes 4 (wrap32 (blen (string_bytes (record_key key)))) ++ string_bytes (record_key key)
  ++ string_bytes (selector key).

Definition cache_key_route_hash (key : CacheKey) : Z := cache_route_hash (cache_key_routing_bytes key).

(** ** Members *)

Inductive CacheNodeState := Live | Down.
#[global] Instance CacheNodeState_eq_dec : EqDecision CacheNodeState.
Proof. solve_decision. Defined.

Record CacheClusterNode := mkNode {
  node_name : string;
  node_weight : Z;
  node_state : CacheNodeState;
  node_zone : option string
}.

Definition node_get (name : string) (nodes : list CacheClusterNode) : option CacheClusterNode :=
  List.find (fun n => bool_decide (node_name n = name)) nodes.

(** [BTreeMap::insert] under the node's own name. *)
Fixpoint node_insert (n : CacheClusterNode) (nodes : list CacheClusterNode) : list CacheClusterNode :=
  match nodes with
  | [] => [n]
  | x :: rest =>
      match String.compare (node_name n) (node_name x) with
      | Lt => n :: x :: rest
      | Eq => n :: rest
      | Gt => x :: node_insert n rest
      end
  end.

Definition node_remove (name : string) (nodes : list CacheClusterNode) : list CacheClusterNode :=
  filter (fun n => node_name n <> name) nodes.

(** Writing through [get_mut]. *)
Definition node_set_state (name : string) (state : CacheNodeState) (nodes : list CacheClusterNode)
    : list CacheClusterNode :=
  (fun n => if bool_decide (node_name n = name)
            then mkNode (node_name n) (node_weight n) state (node_zone n) else n) <$> nodes.

(** ** The ring *)

Record CacheRingPoint := mkPoint { pt_hash : Z; pt_node : nat }.

Definition CACHE_RING_POINTS_PER_WEIGHT : Z := 160.
Definition CACHE_RING_INDEX_MAX_BITS : Z := 16.
Definition CACHE_RING_INDEX_MIN_BITS : Z := 4.
Definition CACHE_RING_INDEX_POINTS_PER_SLOT : Z := 4.

(** [usize::BITS - x.leading_zeros()] is the number of bits [x] is written in. *)
Definition cache_ring_index_bits (points : Z) : Z :=
  let slots_wanted := Z.max ((points + CACHE_RING_INDEX_POINTS_PER_SLOT - 1) / CACHE_RING_INDEX_POINTS_PER_SLOT) 1 in
  let wanted := Z.log2 slots_wanted + 1 in
  Z.max CACHE_RING_INDEX_MIN_BITS (Z.min wanted CACHE_RING_INDEX_MAX_BITS).

Record CacheClusterTopology := mkTopology {
  nodes : list CacheClusterNode;
  members : list string;
  member_live : list bool;
  member_domain : list nat;
  live_count : nat;
  domain_count : nat;
  ring : list CacheRingPoint;
  prefix_index : list Z;
  index_bits : Z;
  points_per_weight : Z
}.

Definition with_points_per_weight (ppw : Z) : CacheClusterTopology :=
  mkTopology [] [] [] [] 0 0 [] [] CACHE_RING_INDEX_MIN_BITS (Z.max ppw 1).

Definition default_topology : CacheClusterTopology := with_points_per_weight CACHE_RING_POINTS_PER_WEIGHT.

(** The order of the ring: by hash, then by node. *)
Definition point_le (p q : CacheRingPoint) : Prop :=
  pt_hash p < pt_hash q \/ pt_hash p = pt_hash q /\ (pt_node p <= pt_node q)%nat.
#[export] Instance CacheRingPoint_eq_dec : EqDecision CacheRingPoint.
Proof. solve_decision. Defined.
#[export] Instance point_le_dec p q : Decision (point_le p q).
Proof. unfold point_le. apply _. Defined.

Definition point_label (name : string) (i : nat) : string :=
  String.append name (String.append "#" (pretty (N.of_nat i))).

Definition point_count (ppw weight : Z) : nat := Z.to_nat (Z.min u32_max (ppw * weight)).

(** The points of one member. *)
Definition node_points (ppw : Z) (index : nat) (n : CacheClusterNode) : list CacheRingPoint :=
  (fun i => mkPoint (cache_route_hash (string_bytes (point_label (node_name n) i))) index)
    <$> seq 0 (point_count ppw (node_weight n)).

Fixpoint all_points (ppw : Z) (index : nat) (ns : list CacheClusterNode) : list CacheRingPoint :=
  match ns with
  | [] => []
  | n :: rest => node_points ppw index n ++ all_points ppw (S index) rest
  end.

(** [sort_unstable_by]: points that compare equal are equal. *)
Definition sort_points (l : list CacheRingPoint) : list CacheRingPoint := merge_sort point_le l.

(** Named zones share a number; a member without one gets its own. *)
Fixpoint assign_domains (zone_ids : gmap string nat) (next_id : nat) (ns : list CacheClusterNode) : list nat :=
  match ns with
  | [] => []
  | n :: rest =>
      match node_zone n with
      | Some zone =>
          match zone_ids !! zone with
          | Some id => id :: assign_domains zone_ids next_id rest
          | None => next_id :: assign_domains (<[zone := next_id]> zone_ids) (S next_id) rest
          end
      | None => next_id :: assign_domains zone_ids (S next_id) rest
      end
  end.

Definition refresh_member_table (t : CacheClusterTopology) : CacheClusterTopology :=
  mkTopology (nodes t) (node_name <$> nodes t) (member_live t) (assign_domains ∅ 0 (nodes t))
    (live_count t) (domain_count t) (ring t) (prefix_index t) (index_bits t) (points_per_weight t).

Definition node_is_live (n : CacheClusterNode) : bool := bool_decide (node_state n = Live).

(** The domains of the members taking traffic. *)
Definition live_domains (domains : list nat) (live : list bool) : list nat :=
  fst <$> filter (fun p => p.2 = true) (zip domains live).

Definition refresh_live (t : CacheClusterTopology) : CacheClusterTopology :=
  let live := node_is_live <$> nodes t in
  mkTopology (nodes t) (members t) live (member_domain t)
    (length (filter (fun b => b = true) live))
    (length (remove_dups (live_domains (member_domain t) live)))
    (ring t) (prefix_index t) (index_bits t) (points_per_weight t).

(** The loop that skips the points below a bound, from a position on. *)
Fixpoint skip_below (bound : Z) (rest : list CacheRingPoint) (point : nat) : nat :=
  match rest with
  | p :: rest' => if pt_hash p <? bound then skip_below bound rest' (S point) else point
  | [] => point
  end.

(** The slots and the ring, walked together. *)
Fixpoint index_slots (r : list CacheRingPoint) (bits : Z) (slots : nat) (slot : Z) (point : nat) : list Z :=
  match slots with
  | O => []
  | S rest =>
      let point := skip_below (Z.shiftl slot (64 - bits)) (drop point r) point in
      wrap32 (Z.of_nat point) :: index_slots r bits rest (slot + 1) point
  end.

Definition rebuild_prefix_index (t : CacheClusterTopology) : CacheClusterTopology :=
  let r := ring t in
  let bits := cache_ring_index_bits (Z.of_nat (length r)) in
  let slots := Z.to_nat (Z.shiftl 1 bits) in
  mkTopology (nodes t) (members t) (member_live t) (member_domain t) (live_count t) (domain_count t)
    r (index_slots r bits slots 0 0 ++ [wrap32 (Z.of_nat (length r))]) bits (points_per_weight t).

Definition set_ring (r : list CacheRingPoint) (t : CacheClusterTopology) : CacheClusterTopology :=
  mkTopology (nodes t) (members t) (member_live t) (member_domain t) (live_count t) (domain_count t)
    r (prefix_index t) (index_bits t) (points_per_weight t).

Definition set_nodes (ns : list CacheClusterNode) (t : CacheClusterTopology) : CacheClusterTopology :=
  mkTopology ns (members t) (member_live t) (member_domain t) (live_count t) (domain_count t)
    (ring t) (prefix_index t) (index_bits t) (points_per_weight t).

Definition rebuild_ring (t : CacheClusterTopology) : CacheClusterTopology :=
  let t := refresh_member_table t in
  let t := set_ring (sort_points (all_points (points_per_weight t) 0 (nodes t))) t in
  refresh_live (rebuild_prefix_index t).

(** ** Membership changes *)

Definition position (name : string) (names : list string) : option nat :=
  fst <$> list_find (fun m => m = name) names.

(** The members after the newcomer move up by one. *)
Definition shift_up (inserted : nat) (p : CacheRingPoint) : CacheRingPoint :=
  if (inserted <=? pt_node p)%nat then mkPoint (pt_hash p) (S (pt_node p)) else p.

Definition admit_one_member (name : string) (t : CacheClusterTopology) : CacheClusterTopology :=
  match position name (node_name <$> nodes t), node_get name (nodes t) with
  | Some inserted, Some n =>
      let old := shift_up inserted <$> ring t in
      let arriving := sort_points (node_points (points_per_weight t) inserted n) in
      let t := set_ring (list_merge point_le old arriving) t in
      refresh_live (rebuild_prefix_index (refresh_member_table t))
  | _, _ => t
  end.

Definition shift_down (retired : nat) (p : CacheRingPoint) : CacheRingPoint :=
  if (retired <? pt_node p)%nat then mkPoint (pt_hash p) (pred (pt_node p)) else p.

Definition retire_one_member (retired : nat) (t : CacheClusterTopology) : CacheClusterTopology :=
  let t := set_ring (shift_down retired <$> filter (fun p => pt_node p <> retired) (ring t)) t in
  refresh_live (rebuild_prefix_index (refresh_member_table t)).

Definition check_new_node (name : string) (weight : Z) (t : CacheClusterTopology) : result unit :=
  if bool_decide (name = "") then Err InvalidConfig
  else if weight =? 0 then Err InvalidConfig
  else if bool_decide (is_Some (node_get name (nodes t))) then Err InvalidConfig
  else Ok tt.

Definition insert_node (name : string) (weight : Z) (zone : option string) (t : CacheClusterTopology)
    : CacheClusterTopology :=
  set_nodes (node_insert (mkNode name weight Live zone) (nodes t)) t.

Definition add_node (name : string) (weight : Z) (t : CacheClusterTopology)
    : result unit * CacheClusterTopology :=
  match check_new_node name weight t with
  | Err e => (Err e, t)
  | Ok _ => (Ok tt, admit_one_member name (insert_node name weight None t))
  end.

Definition add_node_in_zone (name : string) (weight : Z) (zone : string) (t : CacheClusterTopology)
    : result unit * CacheClusterTopology :=
  match check_new_node name weight t with
  | Err e => (Err e, t)
  | Ok _ =>
      if bool_decide (zone = "") then (Err InvalidConfig, t)
      else (Ok tt, admit_one_member name (insert_node name weight (Some zone) t))
  end.

(** The checks of a batch: every name new, and new within the batch. *)
Fixpoint check_batch (seen : gset string) (batch : list (string * Z * option string))
    (t : CacheClusterTopology) : result unit :=
  match batch with
  | [] => Ok tt
  | (name, weight, zone) :: rest =>
      let? _ := check_new_node name weight t in
      if bool_decide (zone = Some "") then Err InvalidConfig
      else if bool_decide (name ∈ seen) then Err InvalidConfig
      else check_batch ({[name]} ∪ seen) rest t
  end.

Definition add_batch (batch : list (string * Z * option string)) (t : CacheClusterTopology)
    : result unit * CacheClusterTopology :=
  match check_batch ∅ batch t with
  | Err e => (Err e, t)
  | Ok _ =>
      (Ok tt, rebuild_ring (fold_left (fun t '(name, weight, zone) => insert_node name weight zone t) batch t))
  end.

Definition add_nodes (batch : list (string * Z)) : CacheClusterTopology -> result unit * CacheClusterTopology :=
  add_batch ((fun '(name, weight) => (name, weight, None)) <$> batch).
Definition add_nodes_in_zones (batch : list (string * Z * string))
    : CacheClusterTopology -> result unit * CacheClusterTopology :=
  add_batch ((fun '(name, weight, zone) => (name, weight, Some zone)) <$> batch).

Definition remove_node (name : string) (t : CacheClusterTopology) : bool * CacheClusterTopology :=
  match position name (members t) with
  | None => (bool_decide (is_Some (node_get name (nodes t))), set_nodes (node_remove name (nodes t)) t)
  | Some i => (true, retire_one_member i (set_nodes (node_remove name (nodes t)) t))
  end.

Definition set_node_state (name : string) (state : CacheNodeState) (t : CacheClusterTopology)
    : bool * CacheClusterTopology :=
  match node_get name (nodes t) with
  | None => (false, t)
  | Some n =>
      if bool_decide (node_state n = state) then (true, t)
      else (true, refresh_live (set_nodes (node_set_state name state (nodes t)) t))
  end.

(** ** Lookups *)

(** Indexing the ring and the member table; the indices are in range wherever
    the code uses them. *)
Definition point_node (t : CacheClusterTopology) (i : nat) : nat :=
  match ring t !! i with Some p => pt_node p | None => 0 end.
Definition member_is_live (t : CacheClusterTopology) (m : nat) : bool := default false (member_live t !! m).
Definition member_name (t : CacheClusterTopology) (m : nat) : string := default "" (members t !! m).
Definition domain_of (t : CacheClusterTopology) (m : nat) : nat := default 0%nat (member_domain t !! m).

Definition point_is_live (t : CacheClusterTopology) (i : nat) : bool := member_is_live t (point_node t i).
Definition point_member (t : CacheClusterTopology) (i : nat) : string := member_name t (point_node t i).

(** The ring positions from [start] on, wrapping once. *)
Definition steps_from (start points : nat) : list nat :=
  (fun step => (start + step) `mod` points)%nat <$> seq 0 points.

Definition first_live_point_from (t : CacheClusterTopology) (i : nat) : option nat :=
  if (live_count t =? 0)%nat then None
  else List.find (point_is_live t) (steps_from i (length (ring t))).

(** The scan inside a slot. *)
Fixpoint scan_slot (hash : Z) (fuel : nat) (r : list CacheRingPoint) (point : nat) : nat :=
  match fuel with
  | O => point
  | S f => match r !! point with
           | Some p => if pt_hash p <? hash then scan_slot hash f r (S point) else point
           | None => point
           end
  end.

Definition first_point_at_or_after (hash : Z) (t : CacheClusterTopology) : option nat :=
  match ring t with
  | [] => None
  | _ =>
      let slot := Z.to_nat (Z.shiftr hash (64 - index_bits t)) in
      let point := Z.to_nat (default 0 (prefix_index t !! slot)) in
      let stop := Z.to_nat (default 0 (prefix_index t !! S slot)) in
      let point := scan_slot hash (stop - point) (ring t) point in
      Some (if (point =? length (ring t))%nat then 0%nat else point)
  end.

Definition owner_of_route_hash (hash : Z) (t : CacheClusterTopology) : option string :=
  match first_point_at_or_after hash t with
  | None => None
  | Some point => point_member t <$> first_live_point_from t point
  end.

Definition owner (key : CacheKey) (t : CacheClusterTopology) : option string :=
  owner_of_route_hash (cache_key_route_hash key) t.

(** The walk that places copies: members chosen, their domains, and the ones
    passed over because their domain was taken. *)
Fixpoint place_copies (t : CacheClusterTopology) (wanted : nat) (steps : list nat)
    (owners used_domains crowded : list nat) : list nat * list nat :=
  match steps with
  | [] => (owners, crowded)
  | point :: rest =>
      if negb (point_is_live t point) then place_copies t wanted rest owners used_domains crowded
      else
        let node := point_node t point in
        if bool_decide (node ∈ owners) || bool_decide (node ∈ crowded)
        then place_copies t wanted rest owners used_domains crowded
        else
          let domain := domain_of t node in
          let enough (owners crowded used_domains : list nat) :=
            (wanted <=? length owners + length crowded)%nat && (length used_domains =? domain_count t)%nat in
          if bool_decide (domain ∈ used_domains) then
            let crowded := crowded ++ [node] in
            if enough owners crowded used_domains then (owners, crowded)
            else place_copies t wanted rest owners used_domains crowded
          else
            let owners := owners ++ [node] in
            let used_domains := used_domains ++ [domain] in
            if (length owners =? wanted)%nat || enough owners crowded used_domains then (owners, crowded)
            else place_copies t wanted rest owners used_domains crowded
  end.

Definition owners_of_hash (hash : Z) (copies : nat) (t : CacheClusterTopology) : list string :=
  let wanted := Nat.min copies (live_count t) in
  if (wanted =? 0)%nat then []
  else match first_point_at_or_after hash t with
  | None => []
  | Some start =>
      let '(owners, crowded) := place_copies t wanted (steps_from start (length (ring t))) [] [] [] in
      member_name t <$> owners ++ take (wanted - length owners) crowded
  end.

Definition owners (key : CacheKey) (copies : nat) (t : CacheClusterTopology) : list string :=
  owners_of_hash (cache_key_route_hash key) copies t.

(** ** What has to move between two memberships

    [CacheHashRange], [CacheHandoff] and [CacheClusterTopology::handoffs_to]. *)

(** A stretch of the hash space, both ends included, wrapping when the start
    is above the end. *)
Record CacheHashRange := mkRange { rg_start : Z; rg_end : Z }.

Definition contains (r : CacheHashRange) (hash : Z) : bool :=
  if rg_start r <=? rg_end r then (rg_start r <=? hash) && (hash <=? rg_end r)
  else (rg_start r <=? hash) || (hash <=? rg_end r).

(** A [u128]: the whole space is one more than a [u64] holds. *)
Definition range_count (r : CacheHashRange) : Z :=
  if rg_start r <=? rg_end r then rg_end r - rg_start r + 1
  else u64_max - rg_start r + 1 + rg_end r + 1.

Record CacheHandoff := mkHandoff { ho_from : string; ho_to : string; ho_ranges : list CacheHashRange }.

Definition handoff_count (h : CacheHandoff) : Z := foldr Z.add 0 (range_count <$> ho_ranges h).

(** The merge pushes a hash unless it is the one pushed last. *)
Fixpoint drop_repeats (previous : option Z) (l : list Z) : list Z :=
  match l with
  | [] => []
  | h :: rest => if bool_decide (previous = Some h) then drop_repeats previous rest
                 else h :: drop_repeats (Some h) rest
  end.

Definition merge_bounds (self next : CacheClusterTopology) : list Z :=
  drop_repeats None (list_merge Z.le (pt_hash <$> ring self) (pt_hash <$> ring next)).

Definition wrap_point (t : CacheClusterTopology) (point : nat) : nat :=
  if (point =? length (ring t))%nat then 0%nat else point.

Definition stretch := (CacheHashRange * string * string)%type.

(** One stretch per boundary, with two indices stepping alongside. *)
Fixpoint moved_stretches (self next : CacheClusterTopology) (previous : Z) (bounds : list Z) (mine theirs : nat)
    : list stretch :=
  match bounds with
  | [] => []
  | stop :: rest =>
      let start := wrap64 (previous + 1) in
      let mine := skip_below stop (drop mine (ring self)) mine in
      let theirs := skip_below stop (drop theirs (ring next)) theirs in
      let before := point_member self <$> first_live_point_from self (wrap_point self mine) in
      let after := point_member next <$> first_live_point_from next (wrap_point next theirs) in
      let rest := moved_stretches self next stop rest mine theirs in
      match before, after with
      | Some before, Some after =>
          if bool_decide (before = after) then rest else (mkRange start stop, before, after) :: rest
      | _, _ => rest
      end
  end.

(** Whether a stretch continues the one before it. *)
Definition continues (last next : stretch) : bool :=
  bool_decide (last.1.2 = next.1.2) && bool_decide (last.2 = next.2)
  && (wrap64 (rg_end last.1.1 + 1) =? rg_start next.1.1).

Definition extend (last next : stretch) : stretch :=
  (mkRange (rg_start last.1.1) (rg_end next.1.1), next.1.2, next.2).

(** Joining: [last] is the stretch on top of the list. *)
Fixpoint join_from (last : stretch) (moved : list stretch) : list stretch :=
  match moved with
  | [] => [last]
  | m :: rest => if continues last m then join_from (extend last m) rest else last :: join_from m rest
  end.

Definition join_stretches (moved : list stretch) : list stretch :=
  match moved with [] => [] | m :: rest => join_from m rest end.

(** The first and the last are neighbours round the wrap. *)
Definition join_wrap (joined : list stretch) : list stretch :=
  match joined with
  | first :: (_ :: _) as rest =>
      match list.last rest with
      | Some l => if continues l first then extend l first :: removelast rest else joined
      | None => joined
      end
  | _ => joined
  end.

Fixpoint add_to_handoffs (m : stretch) (handoffs : list CacheHandoff) : list CacheHandoff :=
  match handoffs with
  | [] => [mkHandoff m.1.2 m.2 [m.1.1]]
  | h :: rest =>
      if bool_decide (ho_from h = m.1.2) && bool_decide (ho_to h = m.2)
      then mkHandoff (ho_from h) (ho_to h) (ho_ranges h ++ [m.1.1]) :: rest
      else h :: add_to_handoffs m rest
  end.

Definition handoffs_to (self next : CacheClusterTopology) : list CacheHandoff :=
  if bool_decide (ring self = []) || bool_decide (ring next = []) then []
  else
    let bounds := merge_bounds self next in
    let moved := moved_stretches self next (default 0 (list.last bounds)) bounds 0 0 in
    fold_left (fun hs m => add_to_handoffs m hs) (join_wrap (join_stretches moved)) [].
