(* ===== verification/ClusterFacts.v ===== *)
(** * The cluster ring: facts

    One member at a time or all at once, the ring comes out the same; the
    lookup table finds what a search of the ring would find. *)

From S2P Require Import Prelude Types Ordering Hashes Cluster.

(** ** The order of the ring *)

#[export] Instance point_le_trans : Transitive point_le.
Proof. intros [] [] []. unfold point_le. cbn. lia. Qed.
#[export] Instance point_le_total : Total point_le.
Proof. intros [] []. unfold point_le. cbn. lia. Qed.
#[export] Instance point_le_antisym : AntiSymm (=) point_le.
Proof. intros [h i] [k j]. unfold point_le. cbn. intros. assert (h = k) by lia. assert (i = j) by lia. by subst. Qed.

Lemma sort_sorted l : Sorted point_le (sort_points l).
Proof. apply (Sorted_merge_sort _). Qed.
Lemma sort_perm l : sort_points l ≡ₚ l.
Proof. apply merge_sort_Permutation. Qed.

(** A sorted arrangement is the sort. *)
Lemma sorted_is_sort l l' : Sorted point_le l -> l ≡ₚ l' -> l = sort_points l'.
Proof. intros Hs Hp. apply (Sorted_unique point_le); [done|apply sort_sorted|]. by rewrite sort_perm. Qed.

Lemma sorted_fmap f l :
  (forall p q, point_le p q -> point_le (f p) (f q)) -> Sorted point_le l -> Sorted point_le (f <$> l).
Proof. intros Hf Hs. apply (Sorted_fmap _ point_le point_le); [|done]. intros p q. apply Hf. Qed.

Lemma sorted_filter (P : CacheRingPoint -> Prop) `{forall p, Decision (P p)} (l : list CacheRingPoint) :
  Sorted point_le l -> Sorted point_le (filter P l).
Proof.
  intros Hs%(Sorted_StronglySorted _). apply StronglySorted_Sorted.
  induction Hs as [|p l Hs IH Hp]; [constructor|]. rewrite filter_cons. case_decide; [|done].
  constructor; [done|]. rewrite Forall_forall in *. intros q [_ Hq]%list_elem_of_filter. auto.
Qed.

(** ** Points of a membership *)

Lemma all_points_app ppw i l1 l2 :
  all_points ppw i (l1 ++ l2) = all_points ppw i l1 ++ all_points ppw (i + length l1) l2.
Proof.
  revert i. induction l1 as [|n l1 IH]; intros i; cbn [all_points app length]; [by rewrite Nat.add_0_r|].
  rewrite IH, app_assoc. by rewrite Nat.add_succ_r.
Qed.

Lemma all_points_node ppw i ns p : p ∈ all_points ppw i ns -> (i <= pt_node p < i + length ns)%nat.
Proof.
  revert i. induction ns as [|n ns IH]; intros i; cbn [all_points length]; [by intros ?%not_elem_of_nil|].
  rewrite elem_of_app. intros [Hp|Hp%IH]; [|lia].
  apply list_elem_of_fmap in Hp as (j & -> & _). cbn. lia.
Qed.

Lemma node_points_move (f : CacheRingPoint -> CacheRingPoint) ppw i j n :
  (forall h, f (mkPoint h i) = mkPoint h j) -> f <$> node_points ppw i n = node_points ppw j n.
Proof. intros Hf. unfold node_points. rewrite <- list_fmap_compose. apply list_fmap_ext. intros ? x _. apply Hf. Qed.

Lemma all_points_move (f : CacheRingPoint -> CacheRingPoint) (d : nat -> nat) ppw i ns :
  (forall h m, (i <= m)%nat -> f (mkPoint h m) = mkPoint h (d m)) -> (forall m, (i <= m)%nat -> d (S m) = S (d m)) ->
  f <$> all_points ppw i ns = all_points ppw (d i) ns.
Proof.
  revert i. induction ns as [|n ns IH]; intros i Hf Hd; [done|]. cbn [all_points]. rewrite fmap_app.
  f_equal; [apply node_points_move; auto|]. rewrite IH; [by rewrite Hd|intros; apply Hf; lia|intros; apply Hd; lia].
Qed.

Lemma fmap_fixed (f : CacheRingPoint -> CacheRingPoint) (l : list CacheRingPoint) : (forall p, p ∈ l -> f p = p) -> f <$> l = l.
Proof.
  intros Hf. rewrite <- (list_fmap_id l) at 2. apply list_fmap_ext. intros i p Hi. apply Hf. by eapply list_elem_of_lookup_2.
Qed.

Lemma filter_all (P : CacheRingPoint -> Prop) `{forall p, Decision (P p)} (l : list CacheRingPoint) : (forall p, p ∈ l -> P p) -> filter P l = l.
Proof.
  intros HP. induction l as [|p l IH]; [done|]. rewrite filter_cons, decide_True by (apply HP; left).
  f_equal. apply IH. intros q Hq. apply HP. by right.
Qed.
Lemma filter_none (P : CacheRingPoint -> Prop) `{forall p, Decision (P p)} (l : list CacheRingPoint) : (forall p, p ∈ l -> ~ P p) -> filter P l = [].
Proof.
  intros HP. induction l as [|p l IH]; [done|]. rewrite filter_cons, decide_False by (apply HP; left).
  apply IH. intros q Hq. apply HP. by right.
Qed.

Lemma filter_ext_in {A} (P Q : A -> Prop) `{forall x, Decision (P x)} `{forall x, Decision (Q x)} (l : list A) :
  (forall x, x ∈ l -> P x <-> Q x) -> filter P l = filter Q l.
Proof.
  intros Hl. induction l as [|x l IH]; [done|]. rewrite !filter_cons, IH by (intros y Hy; apply Hl; by right).
  destruct (Hl x) as [HP HQ]; [left|]. destruct (decide (P x)).
  - rewrite decide_True by auto. done.
  - rewrite decide_False by auto. done.
Qed.

Lemma shift_up_le i p q : point_le p q -> point_le (shift_up i p) (shift_up i q).
Proof.
  destruct p as [h a], q as [k b]. unfold point_le, shift_up. cbn [pt_hash pt_node].
  destruct (Nat.leb_spec i a), (Nat.leb_spec i b); cbn [pt_hash pt_node]; lia.
Qed.
Lemma shift_down_le i p q : point_le p q -> point_le (shift_down i p) (shift_down i q).
Proof.
  destruct p as [h a], q as [k b]. unfold point_le, shift_down. cbn [pt_hash pt_node].
  destruct (Nat.ltb_spec i a), (Nat.ltb_spec i b); cbn [pt_hash pt_node]; lia.
Qed.

Lemma shift_up_points ppw l1 l2 :
  shift_up (length l1) <$> all_points ppw 0 (l1 ++ l2) = all_points ppw 0 l1 ++ all_points ppw (S (length l1)) l2.
Proof.
  rewrite all_points_app, fmap_app. f_equal.
  - apply fmap_fixed. intros p Hp%all_points_node. unfold shift_up. case_match; [|done]. apply Nat.leb_le in H. lia.
  - rewrite Nat.add_0_l. apply all_points_move; [|done]. intros h m Hm. unfold shift_up. cbn.
    by rewrite (proj2 (Nat.leb_le _ _)).
Qed.

Lemma shift_down_points ppw l1 n l2 :
  shift_down (length l1) <$> filter (fun p => pt_node p <> length l1) (all_points ppw 0 (l1 ++ n :: l2))
  = all_points ppw 0 (l1 ++ l2).
Proof.
  rewrite !all_points_app, Nat.add_0_l. cbn [all_points]. rewrite !filter_app, !fmap_app. f_equal; [|].
  - rewrite filter_all by (intros p Hp%all_points_node; lia).
    apply fmap_fixed. intros p Hp%all_points_node. unfold shift_down. case_match; [|done]. apply Nat.ltb_lt in H. lia.
  - rewrite filter_none, filter_all; cbn [app fmap list_fmap].
    + rewrite (all_points_move _ pred); [done| |].
      * intros h m Hm. unfold shift_down. cbn [pt_hash pt_node]. by rewrite (proj2 (Nat.ltb_lt _ _)).
      * lia.
    + intros p Hp%all_points_node. lia.
    + intros p (j & -> & _)%list_elem_of_fmap. cbn. auto.
Qed.

(** The merge puts the newcomer where the sort would. *)
Lemma admitted_ring ppw l1 n l2 :
  list_merge point_le (shift_up (length l1) <$> sort_points (all_points ppw 0 (l1 ++ l2)))
    (sort_points (node_points ppw (length l1) n))
  = sort_points (all_points ppw 0 (l1 ++ n :: l2)).
Proof.
  apply sorted_is_sort.
  - apply (Sorted_list_merge _); [|apply sort_sorted]. apply sorted_fmap; [apply shift_up_le|apply sort_sorted].
  - rewrite merge_Permutation, !sort_perm, shift_up_points, (all_points_app _ 0 l1), Nat.add_0_l.
    cbn [all_points]. rewrite <- app_assoc. apply Permutation_app_head, Permutation_app_comm.
Qed.

Lemma retired_ring ppw l1 n l2 :
  shift_down (length l1) <$> filter (fun p => pt_node p <> length l1) (sort_points (all_points ppw 0 (l1 ++ n :: l2)))
  = sort_points (all_points ppw 0 (l1 ++ l2)).
Proof.
  apply sorted_is_sort.
  - apply sorted_fmap; [apply shift_down_le|]. apply sorted_filter, sort_sorted.
  - by rewrite sort_perm, shift_down_points.
Qed.

(** ** Membership lists *)

Definition name_lt (n m : CacheClusterNode) : Prop := String.compare (node_name n) (node_name m) = Lt.
Definition names (ns : list CacheClusterNode) : list string := node_name <$> ns.

#[export] Instance name_lt_trans : Transitive name_lt.
Proof. intros n m k. apply (cmp_trans (cmp := String.compare)). Qed.

Lemma name_lt_ne n m : name_lt n m -> node_name n <> node_name m.
Proof. unfold name_lt. intros H E. rewrite E, cmp_refl in H by apply _. done. Qed.

Lemma sorted_nodup ns : StronglySorted name_lt ns -> NoDup (names ns).
Proof.
  induction 1 as [|n ns Hs IH Hn]; cbn; constructor; [|done]. intros (m & E & Hm)%list_elem_of_fmap.
  rewrite Forall_forall in Hn. by apply (name_lt_ne n m); [apply Hn|].
Qed.

Lemma node_insert_split n ns :
  StronglySorted name_lt ns -> (node_name n ∉ names ns) ->
  exists l1 l2, ns = l1 ++ l2 /\ node_insert n ns = l1 ++ n :: l2 /\ StronglySorted name_lt (l1 ++ n :: l2).
Proof.
  induction 1 as [|x ns Hs IH Hx]; intros Hn; cbn [node_insert].
  - exists [], []. split; [done|]. split; [done|]. repeat constructor.
  - unfold names in *. cbn in Hn. apply not_elem_of_cons in Hn as [Hne Hn].
    destruct (String.compare (node_name n) (node_name x)) eqn:E.
    + by apply (cmp_eq (cmp := String.compare)) in E.
    + exists [], (x :: ns). split; [done|]. split; [done|]. constructor; [by constructor|].
      constructor; [done|]. apply (Forall_impl _ _ _ Hx). intros y Hy. by apply (name_lt_trans n x).
    + destruct (IH Hn) as (l1 & l2 & -> & -> & Hss). exists (x :: l1), l2. split; [done|]. split; [done|].
      cbn. constructor; [done|]. rewrite Forall_app in *. destruct Hx as [? ?]. split; [done|].
      constructor; [|done]. unfold name_lt. rewrite (cmp_antisym (cmp := String.compare) (node_name n)). by rewrite E.
Qed.

Lemma node_get_spec name ns n : node_get name ns = Some n -> n ∈ ns /\ node_name n = name.
Proof.
  unfold node_get. intros [H1 H2]%List.find_some. rewrite <- list_elem_of_In in H1. by apply bool_decide_eq_true in H2.
Qed.

Lemma node_get_none name ns : node_get name ns = None <-> (name ∉ names ns).
Proof.
  unfold node_get, names. split.
  - intros H (n & -> & Hn)%list_elem_of_fmap. apply list_elem_of_In in Hn.
    pose proof (List.find_none _ _ H _ Hn) as Hf. by rewrite bool_decide_eq_false in Hf.
  - intros H. destruct (List.find _ ns) as [n|] eqn:E; [|done]. apply List.find_some in E as [E1 E2].
    apply list_elem_of_In in E1. apply bool_decide_eq_true in E2. destruct H. subst. by apply list_elem_of_fmap_2.
Qed.

Lemma node_get_middle l1 n l2 : (node_name n ∉ names l1) -> node_get (node_name n) (l1 ++ n :: l2) = Some n.
Proof.
  induction l1 as [|x l1 IH]; intros H; cbn; [by rewrite bool_decide_eq_true_2|].
  unfold names in H. cbn in H. apply not_elem_of_cons in H as [H1 H2]. rewrite bool_decide_eq_false_2 by done. by apply IH.
Qed.

Lemma position_middle l1 n l2 :
  (node_name n ∉ names l1) -> position (node_name n) (names (l1 ++ n :: l2)) = Some (length l1).
Proof.
  unfold position, names. induction l1 as [|x l1 IH]; intros H; cbn; [by rewrite decide_True|].
  cbn in H. apply not_elem_of_cons in H as [H1 H2]. rewrite decide_False by done. specialize (IH H2).
  destruct (list_find _ (node_name <$> l1 ++ n :: l2)) as [[i y]|]; cbn in *; by simplify_eq.
Qed.

Lemma position_none name ns : position name (names ns) = None <-> (name ∉ names ns).
Proof.
  unfold position. rewrite fmap_None, list_find_None, Forall_forall. split.
  - intros H Hin. by apply (H name).
  - intros H x Hx ->. done.
Qed.

Lemma node_split name ns :
  NoDup (names ns) -> name ∈ names ns ->
  exists l1 n l2, ns = l1 ++ n :: l2 /\ name = node_name n /\ (name ∉ names l1) /\ (name ∉ names l2).
Proof.
  unfold names. intros Hd (n & -> & Hn)%list_elem_of_fmap. apply list_elem_of_split in Hn as (l1 & l2 & ->).
  exists l1, n, l2. rewrite fmap_app in Hd. cbn in Hd. apply NoDup_app in Hd as (_ & Hx & Hd).
  apply NoDup_cons in Hd as [Hn _]. split_and!; try done. intros H. apply (Hx _ H). left.
Qed.

Lemma node_remove_absent name ns : (name ∉ names ns) -> node_remove name ns = ns.
Proof.
  unfold node_remove, names. induction ns as [|n ns IH]; intros H; [done|]. cbn in H. apply not_elem_of_cons in H as [H1 H2].
  rewrite filter_cons, decide_True by done. f_equal. by apply IH.
Qed.

Lemma node_remove_middle l1 n l2 :
  (node_name n ∉ names l1) -> (node_name n ∉ names l2) -> node_remove (node_name n) (l1 ++ n :: l2) = l1 ++ l2.
Proof.
  intros H1 H2. unfold node_remove. rewrite filter_app, filter_cons, decide_False by auto.
  f_equal; by apply node_remove_absent.
Qed.

Lemma sorted_remove l1 n l2 : StronglySorted name_lt (l1 ++ n :: l2) -> StronglySorted name_lt (l1 ++ l2).
Proof.
  induction l1 as [|x l1 IH]; cbn; intros H; apply StronglySorted_inv in H as [H1 H2]; [done|].
  constructor; [auto|]. rewrite Forall_app, Forall_cons in *. tauto.
Qed.

Lemma node_set_state_names name st ns : names (node_set_state name st ns) = names ns.
Proof.
  unfold names, node_set_state. rewrite <- list_fmap_compose. apply list_fmap_ext. intros i n _. cbn. by case_match.
Qed.

Lemma sorted_names ns ms : names ns = names ms -> StronglySorted name_lt ns -> StronglySorted name_lt ms.
Proof.
  unfold names. revert ms. induction ns as [|n ns IH]; intros [|m ms]; cbn; intros E; simplify_eq/=; [done|].
  intros [H1 H2]%StronglySorted_inv. constructor; [eauto|]. rewrite Forall_forall in *. intros x Hx.
  assert (node_name x ∈ node_name <$> ns) as Hn by (rewrite H0; by apply list_elem_of_fmap_2).
  apply list_elem_of_fmap in Hn as (y & Ey & Hy). unfold name_lt in *. rewrite Ey, <- H. by apply H2.
Qed.
