(* ===== verification/ClusterBuild.v ===== *)
(** * The cluster ring: one member at a time

    Every membership change leaves the topology a full rebuild would leave. *)

From S2P Require Import Prelude Types Ordering Hashes Cluster ClusterFacts.

(** The topology a membership determines. *)
Definition topology_of (ppw : Z) (ns : list CacheClusterNode) : CacheClusterTopology :=
  rebuild_ring (mkTopology ns [] [] [] 0 0 [] [] 0 ppw).

Lemma rebuild_is_topology t : rebuild_ring t = topology_of (points_per_weight t) (nodes t).
Proof. reflexivity. Qed.

(** A topology with members is the one its membership determines; one that
    never had any is as it was created. *)
Record settled (t : CacheClusterTopology) : Prop := {
  st_sorted : StronglySorted name_lt (nodes t);
  st_weights : Forall (fun n => 0 < node_weight n) (nodes t);
  st_ppw : 1 <= points_per_weight t;
  st_built : t = topology_of (points_per_weight t) (nodes t) \/ t = with_points_per_weight (points_per_weight t)
}.

Lemma settled_topology ppw ns :
  StronglySorted name_lt ns -> Forall (fun n => 0 < node_weight n) ns -> 1 <= ppw -> settled (topology_of ppw ns).
Proof. intros. split; [done..|]. by left. Qed.

Lemma settled_new ppw : settled (with_points_per_weight ppw).
Proof.
  split; cbn; [constructor|constructor|lia|]. right. unfold with_points_per_weight. f_equal. cbn. lia.
Qed.

Lemma settled_ring t : settled t -> ring t = sort_points (all_points (points_per_weight t) 0 (nodes t)).
Proof. intros [_ _ _ [->| ->]]; done. Qed.
Lemma settled_members t : settled t -> members t = names (nodes t).
Proof. intros [_ _ _ [->| ->]]; done. Qed.

(** A changed ring that is the rebuilt one. *)
Lemma rebuilt t r :
  r = sort_points (all_points (points_per_weight t) 0 (nodes t)) ->
  refresh_live (rebuild_prefix_index (refresh_member_table (set_ring r t))) = topology_of (points_per_weight t) (nodes t).
Proof. by intros ->. Qed.

Lemma admit_topology n t :
  settled t -> (node_name n ∉ names (nodes t)) ->
  admit_one_member (node_name n) (set_nodes (node_insert n (nodes t)) t)
  = topology_of (points_per_weight t) (node_insert n (nodes t)).
Proof.
  intros Ht Hn. pose proof (settled_ring t Ht) as Er. unfold admit_one_member.
  destruct (node_insert_split n (nodes t) (st_sorted _ Ht) Hn) as (l1 & l2 & E & E' & _).
  rewrite E in Hn. assert (node_name n ∉ names l1) as Hn1.
  { unfold names in *. rewrite fmap_app, not_elem_of_app in Hn. by destruct Hn. }
  cbn [nodes set_nodes]. rewrite E'. change (node_name <$> l1 ++ n :: l2) with (names (l1 ++ n :: l2)).
  rewrite position_middle, node_get_middle by done.
  apply (rebuilt (set_nodes (l1 ++ n :: l2) t)). cbn [nodes points_per_weight set_nodes ring].
  rewrite Er, E. apply admitted_ring.
Qed.

Lemma retire_topology name t :
  settled t -> name ∈ names (nodes t) ->
  remove_node name t = (true, topology_of (points_per_weight t) (node_remove name (nodes t))).
Proof.
  intros Ht Hin. unfold remove_node. rewrite (settled_members t Ht). pose proof (settled_ring t Ht) as Er.
  destruct (node_split name (nodes t)) as (l1 & n & l2 & E & -> & H1 & H2); [by apply sorted_nodup, Ht|done|].
  rewrite E, position_middle by done. f_equal. unfold retire_one_member. cbn [ring set_nodes].
  rewrite Er, E, retired_ring, node_remove_middle by done. reflexivity.
Qed.

Lemma remove_absent name t : settled t -> (name ∉ names (nodes t)) -> remove_node name t = (false, t).
Proof.
  intros Ht Hn. unfold remove_node. rewrite (settled_members t Ht), (proj2 (position_none _ _)) by done.
  rewrite (proj2 (node_get_none _ _)) by done. rewrite node_remove_absent by done. by destruct t.
Qed.

Lemma set_state_points ppw i name st ns : all_points ppw i (node_set_state name st ns) = all_points ppw i ns.
Proof.
  revert i. induction ns as [|n ns IH]; intros i; [done|]. cbn [all_points node_set_state fmap list_fmap].
  f_equal; [|apply IH]. unfold node_points. by case_match.
Qed.

Lemma set_state_domains zs next name st ns : assign_domains zs next (node_set_state name st ns) = assign_domains zs next ns.
Proof.
  revert zs next. induction ns as [|n ns IH]; intros zs next; [done|]. cbn [node_set_state fmap list_fmap assign_domains].
  change (_ <$> ns) with (node_set_state name st ns).
  assert (node_zone (if bool_decide (node_name n = name) then mkNode (node_name n) (node_weight n) st (node_zone n) else n)
          = node_zone n) as -> by (by case_match).
  destruct (node_zone n) as [z|]; [destruct (zs !! z)|]; by rewrite IH.
Qed.

Lemma node_get_elem name ns n : node_get name ns = Some n -> name ∈ names ns.
Proof. intros [Hn <-]%node_get_spec. by apply list_elem_of_fmap_2. Qed.

Lemma set_state_topology name st t :
  settled t -> name ∈ names (nodes t) ->
  (set_node_state name st t).2 = topology_of (points_per_weight t) (node_set_state name st (nodes t)).
Proof.
  intros Ht Hin. unfold set_node_state.
  assert (t = topology_of (points_per_weight t) (nodes t)) as Eb.
  { destruct (st_built _ Ht) as [|E]; [done|]. rewrite E in Hin. by apply not_elem_of_nil in Hin. }
  destruct (node_get name (nodes t)) as [n|] eqn:E; [|by apply node_get_none in E].
  case_bool_decide as Es.
  - assert (node_set_state name st (nodes t) = nodes t) as ->; [|done].
    unfold node_set_state. rewrite <- (list_fmap_id (nodes t)) at 2. apply list_fmap_ext. intros i m Hm.
    case_bool_decide as Em; [|done]. apply node_get_spec in E as [En Enm].
    assert (m = n) as ->; [|by destruct n; cbn in *; subst].
    pose proof (sorted_nodup _ (st_sorted _ Ht)) as Hd. apply list_elem_of_lookup in En as [j Hj].
    assert (i = j) as ->; [|congruence]. apply (NoDup_lookup (names (nodes t)) i j name); [done|..]; unfold names;
      rewrite list_lookup_fmap; [rewrite Hm|rewrite Hj]; cbn; congruence.
  - cbn [snd]. revert Eb. generalize (points_per_weight t) (nodes t). intros ppw ns ->.
    unfold topology_of, rebuild_ring, refresh_member_table, refresh_live, rebuild_prefix_index, set_ring, set_nodes.
    cbn. rewrite set_state_points, set_state_domains. f_equal. symmetry. apply (node_set_state_names name st ns).
Qed.

(** ** Sequences of membership changes *)

Inductive ClusterOp :=
  | AddNode (name : string) (weight : Z)
  | AddNodeInZone (name : string) (weight : Z) (zone : string)
  | AddNodes (batch : list (string * Z))
  | AddNodesInZones (batch : list (string * Z * string))
  | RemoveNode (name : string)
  | SetNodeState (name : string) (state : CacheNodeState).

Definition cluster_step (t : CacheClusterTopology) (op : ClusterOp) : CacheClusterTopology :=
  match op with
  | AddNode name weight => (add_node name weight t).2
  | AddNodeInZone name weight zone => (add_node_in_zone name weight zone t).2
  | AddNodes batch => (add_nodes batch t).2
  | AddNodesInZones batch => (add_nodes_in_zones batch t).2
  | RemoveNode name => (remove_node name t).2
  | SetNodeState name state => (set_node_state name state t).2
  end.

Definition run_cluster (ops : list ClusterOp) (t : CacheClusterTopology) : CacheClusterTopology :=
  fold_left cluster_step ops t.

(** The weights are unsigned. *)
Definition op_weights (op : ClusterOp) : list Z :=
  match op with
  | AddNode _ w | AddNodeInZone _ w _ => [w]
  | AddNodes batch => snd <$> batch
  | AddNodesInZones batch => (fun p => p.1.2) <$> batch
  | _ => []
  end.
Definition op_ok (op : ClusterOp) : Prop := Forall (fun w => 0 <= w) (op_weights op).

Lemma node_insert_sorted n ns : StronglySorted name_lt ns -> StronglySorted name_lt (node_insert n ns).
Proof.
  intros Hs. destruct (decide (node_name n ∈ names ns)) as [Hin|Hn].
  - destruct (node_split _ ns (sorted_nodup _ Hs) Hin) as (l1 & m & l2 & -> & E & H1 & H2).
    enough (names (node_insert n (l1 ++ m :: l2)) = names (l1 ++ m :: l2)) as Ee by (by eapply sorted_names).
    clear Hin H2. induction l1 as [|x l1 IH]; cbn [node_insert app].
    + rewrite E, cmp_refl by apply _. unfold names. cbn. by rewrite E.
    + unfold names in H1. cbn in H1. apply not_elem_of_cons in H1 as [Hne H1]. cbn in Hs.
      apply StronglySorted_inv in Hs as [Hs Hx]. rewrite Forall_app, Forall_cons in Hx. destruct Hx as (_ & Hxm & _).
      unfold name_lt in Hxm. rewrite E, (cmp_antisym (cmp := String.compare) (node_name x)), Hxm. cbn. f_equal. by apply IH.
  - by destruct (node_insert_split n ns Hs Hn) as (l1 & l2 & _ & -> & ?).
Qed.

Lemma node_insert_elem n ns x : x ∈ node_insert n ns -> x = n \/ x ∈ ns.
Proof.
  induction ns as [|y ns IH]; cbn; [set_solver|]. destruct (String.compare _ _); set_solver.
Qed.

Lemma node_insert_weights n ns :
  0 < node_weight n -> Forall (fun n => 0 < node_weight n) ns -> Forall (fun n => 0 < node_weight n) (node_insert n ns).
Proof. rewrite !Forall_forall. intros Hn Hs x [->|Hx]%node_insert_elem; auto. Qed.

Lemma check_new_ok name weight t :
  check_new_node name weight t = Ok tt -> weight <> 0 /\ (name ∉ names (nodes t)).
Proof.
  unfold check_new_node. case_bool_decide; [done|]. case_match eqn:E; [done|]. case_bool_decide as Hs; [done|].
  intros _. zbool. split; [done|]. apply node_get_none. by apply eq_None_not_Some.
Qed.

Lemma insert_settled n t :
  settled t -> 0 < node_weight n -> settled (topology_of (points_per_weight t) (node_insert n (nodes t))).
Proof.
  intros [H1 H2 H3 _] Hn. apply settled_topology; [by apply node_insert_sorted|by apply node_insert_weights|done].
Qed.

Lemma admit_settled name weight zone t :
  settled t -> 0 <= weight -> check_new_node name weight t = Ok tt ->
  admit_one_member name (insert_node name weight zone t)
  = topology_of (points_per_weight t) (node_insert (mkNode name weight Live zone) (nodes t)) /\
  settled (topology_of (points_per_weight t) (node_insert (mkNode name weight Live zone) (nodes t))).
Proof.
  intros Ht Hw [Hne Hn]%check_new_ok. split.
  - by apply (admit_topology (mkNode name weight Live zone)).
  - apply insert_settled; [done|cbn; lia].
Qed.

Lemma batch_sorted batch t :
  settled t -> Forall (fun p : string * Z * option string => 0 <= p.1.2) batch -> forall seen, check_batch seen batch t = Ok tt ->
  forall s, StronglySorted name_lt (nodes s) -> Forall (fun n => 0 < node_weight n) (nodes s) ->
  points_per_weight s = points_per_weight t ->
  let s' := fold_left (fun t '(name, weight, zone) => insert_node name weight zone t) batch s in
  StronglySorted name_lt (nodes s') /\ Forall (fun n => 0 < node_weight n) (nodes s') /\
  points_per_weight s' = points_per_weight t.
Proof.
  intros Ht Hb. induction Hb as [|[[name weight] zone] batch Hw Hb IH]; intros seen Hc s H1 H2 H3; [done|].
  cbn [check_batch] in Hc. destruct (check_new_node name weight t) as [[]|] eqn:E; cbn [result_bind] in Hc; [|done].
  do 2 (case_bool_decide; [done|]). cbn [fold_left]. apply (IH _ Hc).
  - by apply node_insert_sorted.
  - apply node_insert_weights; [|done]. apply check_new_ok in E as [? _]. cbn in *. lia.
  - done.
Qed.

Lemma add_batch_settled batch t :
  settled t -> Forall (fun p : string * Z * option string => 0 <= p.1.2) batch -> settled (add_batch batch t).2.
Proof.
  intros Ht Hb. unfold add_batch. destruct (check_batch ∅ batch t) as [[]|] eqn:E; [|done]. cbn [snd].
  destruct (batch_sorted batch t Ht Hb _ E t (st_sorted _ Ht) (st_weights _ Ht) eq_refl) as (H1 & H2 & H3).
  rewrite rebuild_is_topology. apply settled_topology; [done|done|]. rewrite H3. apply Ht.
Qed.

Lemma step_settled op t : op_ok op -> settled t -> settled (cluster_step t op).
Proof.
  intros Ho Ht. destruct op as [name weight|name weight zone|batch|batch|name|name st]; cbn [cluster_step].
  - apply Forall_cons in Ho as [Hw _]. unfold add_node.
    destruct (check_new_node name weight t) as [[]|] eqn:E; [|done].
    destruct (admit_settled name weight None t Ht Hw E) as [Ea Hs]. cbn [snd]. by rewrite Ea.
  - apply Forall_cons in Ho as [Hw _]. unfold add_node_in_zone.
    destruct (check_new_node name weight t) as [[]|] eqn:E; [|done]. case_bool_decide; [done|].
    destruct (admit_settled name weight (Some zone) t Ht Hw E) as [Ea Hs]. cbn [snd]. by rewrite Ea.
  - apply add_batch_settled; [done|]. rewrite Forall_forall. pose proof (proj1 (Forall_forall _ _) Ho) as Hw.
    intros x ([name w] & -> & Hx)%list_elem_of_fmap. apply (Hw w). by apply (list_elem_of_fmap_2 snd _ (name, w)).
  - apply add_batch_settled; [done|]. rewrite Forall_forall. pose proof (proj1 (Forall_forall _ _) Ho) as Hw.
    intros x ([[name w] z] & -> & Hx)%list_elem_of_fmap. apply (Hw w).
    by apply (list_elem_of_fmap_2 (fun p => p.1.2) _ (name, w, z)).
  - destruct (decide (name ∈ names (nodes t))) as [Hin|Hn]; [|by rewrite remove_absent].
    rewrite retire_topology by done. cbn [snd]. destruct Ht as [H1 H2 H3 _].
    destruct (node_split name (nodes t) (sorted_nodup _ H1) Hin) as (l1 & n & l2 & E & -> & Ha & Hb).
    rewrite E, node_remove_middle by done. rewrite E in *. apply settled_topology; [by eapply sorted_remove| |done].
    rewrite Forall_app, Forall_cons in *. tauto.
  - destruct (decide (name ∈ names (nodes t))) as [Hin|Hn].
    + rewrite set_state_topology by done. destruct Ht as [H1 H2 H3 _]. apply settled_topology; [| |done].
      * eapply sorted_names; [symmetry; apply node_set_state_names|done].
      * apply Forall_fmap, (Forall_impl _ _ _ H2). intros n ?. cbn. by case_match.
    + unfold set_node_state. by rewrite (proj2 (node_get_none _ _)).
Qed.

Lemma run_settled ops t : Forall op_ok ops -> settled t -> settled (run_cluster ops t).
Proof.
  intros Ho. revert t. induction Ho as [|op ops Hop Ho IH]; intros t Ht; [done|]. apply IH. by apply step_settled.
Qed.

(** Sorted memberships with the same members are the same. *)
Lemma same_members ns ms : StronglySorted name_lt ns -> StronglySorted name_lt ms -> ns ≡ₚ ms -> ns = ms.
Proof.
  intros H1 H2. apply (StronglySorted_unique_strong name_lt); [|done|done]. intros n m _ _ Hn Hm.
  exfalso. by apply (name_lt_ne n n); [by transitivity m|].
Qed.

(** The number of points per weight never changes. *)
Lemma step_ppw op t : points_per_weight (cluster_step t op) = points_per_weight t.
Proof.
  assert (forall name t, points_per_weight (admit_one_member name t) = points_per_weight t) as Ha.
  { intros name s. unfold admit_one_member. by repeat case_match. }
  assert (forall batch t, points_per_weight (add_batch batch t).2 = points_per_weight t) as Hb.
  { intros batch s. unfold add_batch. case_match; [|done]. cbn [snd]. change (points_per_weight (rebuild_ring ?x)) with (points_per_weight x).
    clear H. revert s. induction batch as [|[[name w] z] batch IH]; intros s; [done|]. cbn [fold_left]. by rewrite IH. }
  destruct op; cbn [cluster_step]; [unfold add_node|unfold add_node_in_zone|apply Hb|apply Hb|unfold remove_node|unfold set_node_state];
    repeat case_match; cbn [snd]; by rewrite ?Ha.
Qed.

Lemma run_ppw ops t : points_per_weight (run_cluster ops t) = points_per_weight t.
Proof. revert t. induction ops as [|op ops IH]; intros t; [done|]. cbn. by rewrite IH, step_ppw. Qed.
