(* ===== verification/ClusterLookup.v ===== *)
(** * The cluster ring: lookups

    The table of hash prefixes finds the point a search of the ring finds,
    and the owner of a hash is the first live point clockwise of it. *)

From S2P Require Import Prelude Types Ordering Hashes Cluster ClusterFacts ClusterBuild.

(** How many points lie below a bound. *)
Definition below (h : Z) (r : list CacheRingPoint) : nat := skip_below h r 0.

Lemma skip_below_shift b r n : skip_below b r n = (n + skip_below b r 0)%nat.
Proof.
  revert n. induction r as [|p r IH]; intros n; cbn; [lia|]. case_match; [|lia]. rewrite IH, (IH 1%nat). lia.
Qed.

Lemma below_cons h p r : below h (p :: r) = if pt_hash p <? h then S (below h r) else 0%nat.
Proof. unfold below. cbn. case_match; [|done]. by rewrite skip_below_shift. Qed.

Lemma below_length h r : (below h r <= length r)%nat.
Proof. induction r as [|p r IH]; [done|]. rewrite below_cons. cbn. case_match; lia. Qed.

Lemma below_mono b c r : b <= c -> (below b r <= below c r)%nat.
Proof.
  intros Hbc. induction r as [|p r IH]; [done|]. rewrite !below_cons.
  destruct (Z.ltb_spec (pt_hash p) b), (Z.ltb_spec (pt_hash p) c); lia.
Qed.

Lemma below_inside h r i : (i < below h r)%nat -> exists p, r !! i = Some p /\ pt_hash p < h.
Proof.
  revert i. induction r as [|p r IH]; intros i; [unfold below; cbn; lia|]. rewrite below_cons.
  destruct (Z.ltb_spec (pt_hash p) h); [|lia]. destruct i as [|i]; [by exists p|]. intros Hi. apply IH. lia.
Qed.

Lemma below_at h r p : r !! below h r = Some p -> h <= pt_hash p.
Proof.
  induction r as [|q r IH]; [done|]. rewrite below_cons. destruct (Z.ltb_spec (pt_hash q) h); cbn; [done|]. by intros [= ->].
Qed.

Lemma skip_from b r n : (n <= below b r)%nat -> skip_below b (drop n r) n = below b r.
Proof.
  revert n. induction r as [|p r IH]; intros n.
  - unfold below. cbn. intros. assert (n = 0)%nat as -> by lia. done.
  - destruct n as [|n]; [done|]. rewrite below_cons. case_match; [|lia]. intros Hn. cbn [drop].
    rewrite skip_below_shift. assert (n <= below b r)%nat as Hn' by lia. specialize (IH n Hn').
    rewrite skip_below_shift in IH. lia.
Qed.

Lemma scan_below h fuel r n :
  (n <= below h r)%nat -> (below h r <= n + fuel)%nat -> scan_slot h fuel r n = below h r.
Proof.
  revert n. induction fuel as [|f IH]; intros n H1 H2; cbn; [lia|].
  destruct (decide (n = below h r)) as [->|Hne].
  - destruct (r !! below h r) as [p|] eqn:E; [|done]. apply below_at in E. by rewrite (proj2 (Z.ltb_ge _ _)).
  - destruct (below_inside h r n) as (p & -> & Hp); [lia|]. rewrite (proj2 (Z.ltb_lt _ _)) by done. apply IH; lia.
Qed.

(** ** The table *)

Definition slot_start (bits slot : Z) : Z := Z.shiftl slot (64 - bits).

Lemma slot_start_mul bits slot : 0 <= bits <= 64 -> slot_start bits slot = slot * 2 ^ (64 - bits).
Proof. intros. unfold slot_start. rewrite Z.shiftl_mul_pow2 by lia. done. Qed.

Lemma index_slots_length r bits n slot point : length (index_slots r bits n slot point) = n.
Proof. revert slot point. induction n as [|n IH]; intros; cbn; [done|]. by rewrite IH. Qed.

Lemma index_slots_lookup r bits n slot point i :
  0 <= bits <= 64 -> (point <= below (slot_start bits slot) r)%nat -> (i < n)%nat ->
  index_slots r bits n slot point !! i = Some (wrap32 (Z.of_nat (below (slot_start bits (slot + Z.of_nat i)) r))).
Proof.
  intros Hb. revert slot point i. induction n as [|n IH]; intros slot point i Hp Hi; [lia|]. cbn [index_slots].
  change (Z.shiftl slot (64 - bits)) with (slot_start bits slot). rewrite skip_from by done.
  destruct i as [|i]; cbn [lookup list_lookup].
  - by rewrite Z.add_0_r.
  - rewrite IH; [by replace (slot + 1 + Z.of_nat i) with (slot + Z.of_nat (S i)) by lia| |lia]. apply below_mono. rewrite !slot_start_mul by done. nia.
Qed.

Lemma index_bits_bound n : 4 <= cache_ring_index_bits n <= 16.
Proof. unfold cache_ring_index_bits, CACHE_RING_INDEX_MIN_BITS, CACHE_RING_INDEX_MAX_BITS. lia. Qed.

(** What a topology's table holds. *)
Definition table_ok (t : CacheClusterTopology) : Prop :=
  index_bits t = cache_ring_index_bits (Z.of_nat (length (ring t))) /\
  prefix_index t = index_slots (ring t) (index_bits t) (Z.to_nat (Z.shiftl 1 (index_bits t))) 0 0
                   ++ [wrap32 (Z.of_nat (length (ring t)))].

Lemma topology_table ppw ns : table_ok (topology_of ppw ns).
Proof. done. Qed.

Lemma table_lookup t i :
  table_ok t -> Z.of_nat (length (ring t)) < 2 ^ 32 -> 0 <= i <= 2 ^ index_bits t ->
  Z.to_nat (default 0 (prefix_index t !! Z.to_nat i))
  = if i =? 2 ^ index_bits t then length (ring t) else below (slot_start (index_bits t) i) (ring t).
Proof.
  intros [Hb Hp] Hl Hi. pose proof (index_bits_bound (Z.of_nat (length (ring t)))) as Hbits. rewrite <- Hb in Hbits.
  rewrite Hp, Z.shiftl_1_l.
  assert (0 < 2 ^ index_bits t) by (apply Z.pow_pos_nonneg; lia).
  destruct (Z.eqb_spec i (2 ^ index_bits t)) as [->|Hne].
  - rewrite lookup_app_r by (rewrite index_slots_length; lia). rewrite index_slots_length.
    replace (Z.to_nat (2 ^ index_bits t) - Z.to_nat (2 ^ index_bits t))%nat with 0%nat by lia.
    cbn [lookup list_lookup from_option id]. unfold wrap32. rewrite Z.mod_small; lia.
  - rewrite lookup_app_l by (rewrite index_slots_length; lia).
    rewrite index_slots_lookup by (lia || (cbn; lia)). cbn [from_option id].
    replace (0 + Z.of_nat (Z.to_nat i)) with i by lia.
    pose proof (below_length (slot_start (index_bits t) i) (ring t)). unfold wrap32. rewrite Z.mod_small; lia.
Qed.

Lemma first_point t h :
  table_ok t -> Z.of_nat (length (ring t)) < 2 ^ 32 -> 0 <= h < 2 ^ 64 -> ring t <> [] ->
  first_point_at_or_after h t
  = Some (if (below h (ring t) =? length (ring t))%nat then 0%nat else below h (ring t)).
Proof.
  intros Ht Hl Hh Hr. pose proof Ht as [Hb _].
  pose proof (index_bits_bound (Z.of_nat (length (ring t)))) as Hbits. rewrite <- Hb in Hbits.
  unfold first_point_at_or_after. destruct (ring t) as [|p r] eqn:Er; [done|]. rewrite <- Er in *.
  set (s := Z.shiftr h (64 - index_bits t)). assert (s = h / 2 ^ (64 - index_bits t)) as Es by (apply Z.shiftr_div_pow2; lia).
  set (w := 2 ^ (64 - index_bits t)) in *. assert (0 < w) by (apply Z.pow_pos_nonneg; lia).
  assert (w * 2 ^ index_bits t = 2 ^ 64) as Hw.
  { unfold w. rewrite <- Z.pow_add_r by lia. f_equal. lia. }
  assert (0 <= s < 2 ^ index_bits t) as Hs.
  { rewrite Es. split; [apply Z.div_pos; lia|]. apply Z.div_lt_upper_bound; lia. }
  assert (s * w <= h < (s + 1) * w) as Hsw.
  { rewrite Es. pose proof (Z.mul_div_le h w). pose proof (Z.mul_succ_div_gt h w). nia. }
  replace (S (Z.to_nat s)) with (Z.to_nat (s + 1)) by lia.
  rewrite !table_lookup by (done || lia).
  rewrite (proj2 (Z.eqb_neq s _)) by lia. rewrite !slot_start_mul by lia. fold w.
  rewrite scan_below; [done| |].
  - apply below_mono. lia.
  - destruct (Z.eqb_spec (s + 1) (2 ^ index_bits t)).
    + pose proof (below_length h (ring t)). lia.
    + pose proof (below_mono h ((s + 1) * w) (ring t) ltac:(lia)). lia.
Qed.

(** ** Clockwise order *)

(** The ring from a hash on. *)
Definition clockwise (h : Z) (r : list CacheRingPoint) : list CacheRingPoint :=
  filter (fun p => h <= pt_hash p) r ++ filter (fun p => pt_hash p < h) r.

Lemma sorted_split h r :
  Sorted point_le r ->
  take (below h r) r = filter (fun p => pt_hash p < h) r /\ drop (below h r) r = filter (fun p => h <= pt_hash p) r.
Proof.
  intros Hs%(Sorted_StronglySorted _). induction Hs as [|p r Hs [IH1 IH2] Hp]; [done|].
  rewrite below_cons, !filter_cons. destruct (Z.ltb_spec (pt_hash p) h) as [Hlt|Hge].
  - rewrite decide_True, decide_False by lia. cbn [take drop]. by rewrite IH1, IH2.
  - rewrite decide_False, decide_True by lia. cbn [take drop].
    assert (forall q, q ∈ r -> h <= pt_hash q) as Hr.
    { intros q Hq. rewrite Forall_forall in Hp. specialize (Hp q Hq). unfold point_le in Hp. lia. }
    split; [|f_equal; symmetry]; [symmetry; apply filter_none|by apply filter_all]. intros q Hq%Hr. lia.
Qed.

Lemma clockwise_rotate h r : Sorted point_le r -> clockwise h r = drop (below h r) r ++ take (below h r) r.
Proof. intros Hs. unfold clockwise. by destruct (sorted_split h r Hs) as [-> ->]. Qed.

Lemma steps_split start n : (start < n)%nat -> steps_from start n = seq start (n - start) ++ seq 0 start.
Proof.
  intros H. unfold steps_from.
  assert (seq 0 n = seq 0 (n - start) ++ seq (n - start) start) as ->.
  { pose proof (seq_app (n - start) start 0) as E. rewrite Nat.add_0_l in E. rewrite <- E. f_equal. lia. }
  rewrite fmap_app. f_equal.
  - apply list_eq. intros i. rewrite list_lookup_fmap. destruct (decide (i < n - start)%nat).
    + rewrite !lookup_seq_lt by done. cbn. by rewrite Nat.mod_small by lia.
    + by rewrite !lookup_seq_ge by lia.
  - apply list_eq. intros i. rewrite list_lookup_fmap. destruct (decide (i < start)%nat).
    + rewrite !lookup_seq_lt by done. cbn. f_equal.
      replace (start + (n - start + i))%nat with (i + 1 * n)%nat by lia. rewrite Nat.Div0.mod_add. apply Nat.mod_small. lia.
    + by rewrite !lookup_seq_ge by lia.
Qed.

(** The point at a ring position. *)
Definition point_at (r : list CacheRingPoint) (i : nat) : CacheRingPoint := default (mkPoint 0 0) (r !! i).

Lemma points_seq r a k : (a + k <= length r)%nat -> point_at r <$> seq a k = take k (drop a r).
Proof.
  intros H. apply list_eq. intros i. rewrite list_lookup_fmap. destruct (decide (i < k)%nat) as [Hi|Hi].
  - rewrite lookup_seq_lt, lookup_take_lt, lookup_drop by done. cbn. unfold point_at.
    destruct (lookup_lt_is_Some_2 r (a + i)) as [p ->]; [lia|done].
  - rewrite lookup_seq_ge by lia. symmetry. apply lookup_ge_None_2. rewrite length_take. lia.
Qed.

Lemma point_node_at t i : point_node t i = pt_node (point_at (ring t) i).
Proof. unfold point_node, point_at. by destruct (ring t !! i). Qed.

Lemma steps_clockwise h r :
  Sorted point_le r -> r <> [] ->
  point_at r <$> steps_from (if (below h r =? length r)%nat then 0%nat else below h r) (length r) = clockwise h r.
Proof.
  intros Hs Hr. rewrite clockwise_rotate by done. assert (0 < length r)%nat by (destruct r; [done|cbn; lia]).
  pose proof (below_length h r). destruct (Nat.eqb_spec (below h r) (length r)) as [->|Hne].
  - rewrite steps_split, drop_all, firstn_all by lia. rewrite fmap_app, points_seq by lia. cbn [seq fmap list_fmap drop].
    rewrite app_nil_r, Nat.sub_0_r. by rewrite firstn_all.
  - rewrite steps_split, fmap_app, !points_seq by lia. cbn [drop]. f_equal. rewrite firstn_all2; [done|].
    rewrite length_skipn. lia.
Qed.

Lemma find_fmap {A B} (f : A -> B) (P : B -> bool) l : List.find P (f <$> l) = f <$> List.find (fun x => P (f x)) l.
Proof. induction l as [|x l IH]; [done|]. cbn. by case_match. Qed.

(** ** Owners *)

Definition point_live (t : CacheClusterTopology) (p : CacheRingPoint) : bool := member_is_live t (pt_node p).
Definition point_name (t : CacheClusterTopology) (p : CacheRingPoint) : string := member_name t (pt_node p).

(** What a lookup answers, over the points themselves. *)
Definition owner_spec (h : Z) (t : CacheClusterTopology) : option string :=
  point_name t <$> List.find (point_live t) (clockwise h (ring t)).

Lemma no_live t p : live_count t = 0%nat -> live_count t = length (filter (fun b => b = true) (member_live t)) ->
  point_live t p = false.
Proof.
  intros H0 H. rewrite H0 in H. unfold point_live, member_is_live.
  destruct (member_live t !! pt_node p) as [[]|] eqn:E; [|done..].
  apply list_elem_of_lookup_2 in E. assert (true ∈ filter (fun b => b = true) (member_live t)) as Hin.
  { by apply list_elem_of_filter. }
  destruct (filter _ _); [by apply not_elem_of_nil in Hin|done].
Qed.

Lemma settled_sorted t : settled t -> Sorted point_le (ring t).
Proof. intros Ht. rewrite (settled_ring t Ht). apply sort_sorted. Qed.

Lemma settled_live t : settled t -> live_count t = length (filter (fun b => b = true) (member_live t)).
Proof. intros [_ _ _ [->| ->]]; done. Qed.

Lemma settled_table t : settled t -> ring t <> [] -> table_ok t.
Proof. intros [_ _ _ [->| ->]] H; [done|]. by destruct H. Qed.

Lemma find_all_false {A} (P : A -> bool) l : (forall x, P x = false) -> List.find P l = None.
Proof. intros H. induction l as [|x l IH]; [done|]. cbn. by rewrite H. Qed.

Lemma owner_is_spec t h :
  settled t -> Z.of_nat (length (ring t)) < 2 ^ 32 -> 0 <= h < 2 ^ 64 -> owner_of_route_hash h t = owner_spec h t.
Proof.
  intros Ht Hl Hh. unfold owner_of_route_hash, owner_spec. destruct (decide (ring t = [])) as [E|Hr].
  - unfold first_point_at_or_after. by rewrite E.
  - rewrite (first_point t h (settled_table t Ht Hr) Hl Hh Hr). unfold first_live_point_from.
    rewrite <- (steps_clockwise h (ring t) (settled_sorted t Ht) Hr), find_fmap, <- option_fmap_compose.
    destruct (Nat.eqb_spec (live_count t) 0) as [E0|_].
    + rewrite find_all_false; [done|]. intros i. by apply no_live; [|apply settled_live].
    + assert (forall l, List.find (point_is_live t) l = List.find (fun i => point_live t (point_at (ring t) i)) l) as ->.
      { intros l. induction l as [|i l IH]; [done|]. cbn. unfold point_is_live at 1, point_live at 1.
        rewrite point_node_at. by case_match. }
      apply option_fmap_ext. intros i. cbn. unfold point_member, point_name. by rewrite point_node_at.
Qed.

(** ** What a membership change moves

    A member that leaves gives up the keys it owned and no others; a member
    that arrives takes keys and moves none between the rest. *)

Lemma clockwise_filter h (P : CacheRingPoint -> Prop) `{forall p, Decision (P p)} r :
  clockwise h (filter P r) = filter P (clockwise h r).
Proof.
  unfold clockwise. rewrite filter_app, !list_filter_filter. f_equal; apply list_filter_iff; tauto.
Qed.

Lemma filter_fmap_stable (P : CacheRingPoint -> Prop) `{forall p, Decision (P p)} f (r : list CacheRingPoint) :
  (forall p, P (f p) <-> P p) -> filter P (f <$> r) = f <$> filter P r.
Proof.
  intros Hf. induction r as [|p r IH]; [done|]. rewrite fmap_cons, !filter_cons.
  destruct (decide (P p)) as [Hp|Hp].
  - rewrite decide_True by (by apply Hf). rewrite fmap_cons. by f_equal.
  - rewrite decide_False by (by rewrite Hf). done.
Qed.

Lemma clockwise_fmap h f (r : list CacheRingPoint) :
  (forall p, pt_hash (f p) = pt_hash p) -> clockwise h (f <$> r) = f <$> clockwise h r.
Proof. intros Hf. unfold clockwise. rewrite fmap_app, !filter_fmap_stable; [done|intros p; by rewrite Hf..]. Qed.

Lemma find_filter {A} (P : A -> Prop) `{forall x, Decision (P x)} (Q : A -> bool) l :
  List.find Q (filter P l) = List.find (fun x => bool_decide (P x) && Q x) l.
Proof.
  induction l as [|x l IH]; [done|]. rewrite filter_cons. cbn. case_decide.
  - rewrite bool_decide_eq_true_2 by done. cbn. by case_match.
  - by rewrite bool_decide_eq_false_2.
Qed.

(** Restricting a search that did not end at a refused element. *)
Lemma find_restrict {A} (P Q Q' : A -> bool) l :
  (forall x, Q' x = P x && Q x) -> (forall x, List.find Q l = Some x -> P x = true) -> List.find Q' l = List.find Q l.
Proof.
  intros HQ HP. induction l as [|x l IH]; [done|]. cbn in *. rewrite HQ. destruct (Q x).
  - by rewrite HP.
  - rewrite andb_false_r. auto.
Qed.

Lemma find_ext {A} (P Q : A -> bool) l : (forall x, P x = Q x) -> List.find P l = List.find Q l.
Proof. intros H. induction l as [|x l IH]; [done|]. cbn. rewrite H, IH. done. Qed.

(** ** The members of a rebuilt topology *)

Section departing.
Context (ppw : Z) (l1 l2 : list CacheClusterNode) (n : CacheClusterNode).
Local Abbreviation here := (topology_of ppw (l1 ++ n :: l2)).
Local Abbreviation gone := (topology_of ppw (l1 ++ l2)).

Lemma members_lookup ns m : member_name (topology_of ppw ns) m = default "" (node_name <$> ns !! m).
Proof. unfold member_name. change (members (topology_of ppw ns)) with (node_name <$> ns). by rewrite list_lookup_fmap. Qed.

Lemma live_lookup ns m : member_is_live (topology_of ppw ns) m = default false (node_is_live <$> ns !! m).
Proof. unfold member_is_live. change (member_live (topology_of ppw ns)) with (node_is_live <$> ns). by rewrite list_lookup_fmap. Qed.

Lemma shifted_node p : pt_node p <> length l1 -> (l1 ++ l2) !! pt_node (shift_down (length l1) p) = (l1 ++ n :: l2) !! pt_node p.
Proof.
  intros Hp. unfold shift_down. destruct (Nat.ltb_spec (length l1) (pt_node p)); cbn [pt_node].
  - rewrite !lookup_app_r by lia. replace (pt_node p - length l1)%nat with (S (pred (pt_node p) - length l1)) by lia. done.
  - rewrite !lookup_app_l by lia. done.
Qed.

Lemma departed_owner h :
  owner_spec h here <> Some (node_name n) -> owner_spec h gone = owner_spec h here.
Proof.
  intros Hne. unfold owner_spec in *.
  assert (ring gone = shift_down (length l1) <$> filter (fun p => pt_node p <> length l1) (ring here)) as ->
    by (symmetry; apply (retired_ring ppw l1 n l2)).
  rewrite clockwise_fmap by (intros p; unfold shift_down; by case_match).
  rewrite clockwise_filter, find_fmap, find_filter, <- option_fmap_compose.
  set (L := clockwise h (ring here)) in *.
  rewrite (find_restrict (fun p => bool_decide (pt_node p <> length l1)) (point_live here)).
  - destruct (List.find (point_live here) L) as [p|] eqn:E; [|done]. cbn in *. f_equal.
    unfold point_name. rewrite !members_lookup, shifted_node; [done|]. intros Hp. apply Hne. f_equal.
    unfold point_name. rewrite members_lookup, Hp, list_lookup_middle by done. done.
  - intros p. case_bool_decide as Hp; cbn [andb]; [|done]. unfold point_live. by rewrite !live_lookup, shifted_node.
  - intros p E. apply bool_decide_eq_true. intros Hp. apply Hne. rewrite E. cbn. f_equal.
    unfold point_name. rewrite members_lookup, Hp, list_lookup_middle by done. done.
Qed.

(** The same members with one of them down. *)
Local Abbreviation downed := (topology_of ppw (l1 ++ mkNode (node_name n) (node_weight n) Down (node_zone n) :: l2)).

Lemma downed_owner h : owner_spec h here <> Some (node_name n) -> owner_spec h downed = owner_spec h here.
Proof.
  intros Hne. unfold owner_spec in *.
  assert (ring downed = ring here) as ->.
  { change (sort_points (all_points ppw 0 (l1 ++ mkNode (node_name n) (node_weight n) Down (node_zone n) :: l2))
            = sort_points (all_points ppw 0 (l1 ++ n :: l2))). by rewrite !all_points_app. }
  set (L := clockwise h (ring here)) in *.
  rewrite (find_restrict (fun p => bool_decide (pt_node p <> length l1)) (point_live here)).
  - apply option_fmap_ext. intros p. unfold point_name. rewrite !members_lookup. f_equal.
    rewrite <- !list_lookup_fmap, !fmap_app. done.
  - intros p. unfold point_live. rewrite !live_lookup. case_bool_decide as Hp; cbn [andb].
    + destruct (decide (pt_node p < length l1)%nat); [by rewrite !lookup_app_l|].
      rewrite !lookup_app_r by lia. destruct (pt_node p - length l1)%nat eqn:E; [lia|done].
    + by rewrite Hp, list_lookup_middle.
  - intros p E. apply bool_decide_eq_true. intros Hp. apply Hne. rewrite E. cbn. f_equal.
    unfold point_name. rewrite members_lookup, Hp, list_lookup_middle by done. done.
Qed.
End departing.
