(* ===== verification/ClusterCopies.v ===== *)
(** * The cluster ring: where the copies of a key go

    The walk of [owners_of_hash] finds as many distinct live members as it was
    asked for, in as many failure domains as there are. *)

From S2P Require Import Prelude Types Ordering Hashes Cluster ClusterFacts ClusterBuild ClusterLookup.

(** ** Counting *)

Lemma nodup_incl_length {A} (l k : list A) : NoDup l -> (forall x, x ∈ l -> x ∈ k) -> (length l <= length k)%nat.
Proof. intros H1 H2. apply submseteq_length, NoDup_submseteq; [done|exact H2]. Qed.

Lemma true_positions (l : list bool) (i : nat) :
  length (filter (fun m => l !! (m - i)%nat = Some true) (seq i (length l))) = length (filter (fun b => b = true) l).
Proof.
  revert i. induction l as [|b l IH]; intros i; [done|]. cbn [length seq]. rewrite !filter_cons.
  rewrite Nat.sub_diag. cbn [lookup list_lookup].
  assert (filter (fun m => (b :: l) !! (m - i)%nat = Some true) (seq (S i) (length l))
          = filter (fun m => l !! (m - S i)%nat = Some true) (seq (S i) (length l))) as E.
  { apply filter_ext_in. intros m Hm. apply elem_of_seq in Hm.
    replace (m - i)%nat with (S (m - S i)) by lia. done. }
  rewrite E. destruct b.
  - rewrite !decide_True by done. cbn [length]. by rewrite IH.
  - rewrite !decide_False by done. by rewrite IH.
Qed.

Lemma live_domains_elem ds ls d :
  length ds = length ls -> d ∈ live_domains ds ls <-> exists m, ds !! m = Some d /\ ls !! m = Some true.
Proof.
  intros Hl. unfold live_domains. rewrite list_elem_of_fmap. split.
  - intros ([d' b] & -> & [Hb Hin]%list_elem_of_filter). cbn in Hb. subst b.
    apply list_elem_of_lookup in Hin as [m Hm]. exists m. by apply lookup_zip_Some in Hm.
  - intros (m & H1 & H2). exists (d, true). split; [done|]. apply list_elem_of_filter. split; [done|].
    apply (list_elem_of_lookup_2 _ m). by apply lookup_zip_Some.
Qed.

(** ** The walk *)

Section walk.
Context (t : CacheClusterTopology) (wanted : nat).

(** What has been placed so far. *)
Record placed (o c : list nat) : Prop := {
  pl_domains : NoDup (domain_of t <$> o);
  pl_nodup : NoDup (o ++ c);
  pl_live : forall m, m ∈ o ++ c -> member_is_live t m = true;
  pl_crowded : forall m, m ∈ c -> domain_of t m ∈ domain_of t <$> o
}.

Definition walk_done (steps : list nat) (o' c' : list nat) : Prop :=
  length o' = wanted \/ (wanted <= length o' + length c' /\ length o' = domain_count t)%nat \/
  forall i, i ∈ steps -> point_is_live t i = true -> point_node t i ∈ o' ++ c'.

Lemma placed_nil : placed [] [].
Proof. split; cbn; [constructor|constructor|intros m Hm|intros m Hm]; by apply not_elem_of_nil in Hm. Qed.

Lemma placed_owner o c m :
  placed o c -> (m ∉ o ++ c) -> member_is_live t m = true -> (domain_of t m ∉ domain_of t <$> o) -> placed (o ++ [m]) c.
Proof.
  intros [H1 H2 H3 H4] Hm Hl Hd. split.
  - rewrite fmap_app. apply NoDup_app. split; [done|]. split; [|apply NoDup_singleton].
    intros d Hin Hd'. apply Hd. apply list_elem_of_singleton in Hd' as ->. done.
  - rewrite <- app_assoc. apply (NoDup_Permutation_proper (m :: (o ++ c))); [by solve_Permutation|]. by constructor.
  - intros x. rewrite !elem_of_app, list_elem_of_singleton. intros [[?| ->]|?]; [apply H3; set_solver|done|apply H3; set_solver].
  - intros x Hx. rewrite fmap_app. apply elem_of_app. left. by apply H4.
Qed.

Lemma placed_crowded o c m :
  placed o c -> (m ∉ o ++ c) -> member_is_live t m = true -> domain_of t m ∈ domain_of t <$> o -> placed o (c ++ [m]).
Proof.
  intros [H1 H2 H3 H4] Hm Hl Hd. split.
  - done.
  - rewrite app_assoc. apply NoDup_app. split; [done|]. split; [|apply NoDup_singleton].
    intros x Hin Hx. apply list_elem_of_singleton in Hx as ->. done.
  - intros x. rewrite app_assoc, elem_of_app, list_elem_of_singleton. intros [?| ->]; [by apply H3|done].
  - intros x [Hx|Hx%list_elem_of_singleton]%elem_of_app; [by apply H4|by subst].
Qed.

Lemma place_spec steps o c :
  placed o c -> (length o < wanted)%nat ->
  let '(o', c') := place_copies t wanted steps o (domain_of t <$> o) c in
  placed o' c' /\ (exists e, o' = o ++ e) /\ (exists e, c' = c ++ e) /\ (length o' <= wanted)%nat /\ walk_done steps o' c'.
Proof.
  revert o c. induction steps as [|i steps IH]; intros o c Hp Hw; cbn [place_copies].
  { split; [done|]. split; [by exists []; rewrite app_nil_r|]. split; [by exists []; rewrite app_nil_r|].
    split; [lia|]. right. right. by intros i ?%not_elem_of_nil. }
  assert (forall o1 c1 : list nat, placed o1 c1 -> (length o1 < wanted)%nat -> (exists e, o1 = o ++ e) -> (exists e, c1 = c ++ e) ->
    (point_is_live t i = true -> point_node t i ∈ o1 ++ c1) ->
    let '(o', c') := place_copies t wanted steps o1 (domain_of t <$> o1) c1 in
    placed o' c' /\ (exists e, o' = o ++ e) /\ (exists e, c' = c ++ e) /\ (length o' <= wanted)%nat /\ walk_done (i :: steps) o' c')
    as Hgo.
  { intros o1 c1 Hp1 Hw1 [e1 ->] [e2 ->] Hi. specialize (IH _ _ Hp1 Hw1).
    destruct (place_copies t wanted steps (o ++ e1) (domain_of t <$> o ++ e1) (c ++ e2)) as [o' c'].
    destruct IH as (I1 & [f1 ->] & [f2 ->] & I3 & I4). split; [done|].
    split; [by exists (e1 ++ f1); rewrite app_assoc|]. split; [by exists (e2 ++ f2); rewrite app_assoc|].
    split; [done|]. destruct I4 as [?|[?|I4]]; [by left|by right; left|]. right. right.
    intros j [->|Hj]%elem_of_cons Hl; [|by apply I4]. specialize (Hi Hl). set_solver. }
  destruct (point_is_live t i) eqn:El; cbn [negb];
    [|by apply Hgo; [done|done|exists []; by rewrite app_nil_r|exists []; by rewrite app_nil_r|]].
  set (m := point_node t i). change (point_is_live t i) with (member_is_live t m) in El.
  destruct (bool_decide (m ∈ o) || bool_decide (m ∈ c)) eqn:Es.
  { apply Hgo; [done|done|exists []; by rewrite app_nil_r|exists []; by rewrite app_nil_r|]. intros _.
    apply orb_true_iff in Es as [E|E]; zbool; set_solver. }
  apply orb_false_iff in Es as [E1 E2]. zbool. assert (m ∉ o ++ c) as Hm by set_solver.
  case_bool_decide as Ed.
  - pose proof (placed_crowded o c m Hp Hm El Ed) as Hp1. rewrite length_fmap.
    match goal with |- context [if ?b then _ else _] => destruct b eqn:En end.
    + split; [done|]. split; [by exists []; rewrite app_nil_r|]. split; [by exists [m]|]. split; [lia|].
      right. left. apply andb_prop in En as [En1 En2]. apply Nat.leb_le in En1. apply Nat.eqb_eq in En2. done.
    + apply Hgo; [done|done|exists []; by rewrite app_nil_r|by exists [m]|]. set_solver.
  - pose proof (placed_owner o c m Hp Hm El Ed) as Hp1.
    assert ((domain_of t <$> o) ++ [domain_of t m] = domain_of t <$> o ++ [m]) as -> by by rewrite fmap_app.
    rewrite length_fmap. assert (length (o ++ [m]) <= wanted)%nat as Hw1 by (rewrite length_app; cbn; lia).
    match goal with |- context [if ?b then _ else _] => destruct b eqn:En end.
    + split; [done|]. split; [by exists [m]|]. split; [by exists []; rewrite app_nil_r|]. split; [done|].
      apply orb_true_iff in En as [En|En]; [left; by apply Nat.eqb_eq|]. right. left.
      apply andb_prop in En as [En1 En2]. apply Nat.leb_le in En1. by apply Nat.eqb_eq in En2.
    + apply orb_false_iff in En as [En _]. apply Nat.eqb_neq in En.
      apply Hgo; [done|lia|by exists [m]|exists []; by rewrite app_nil_r|]. set_solver.
Qed.
End walk.

(** ** Every live member is met *)

Lemma assign_domains_length zs next ns : length (assign_domains zs next ns) = length ns.
Proof.
  revert zs next. induction ns as [|n ns IH]; intros zs next; [done|]. cbn.
  destruct (node_zone n) as [z|]; [destruct (zs !! z)|]; cbn; by rewrite IH.
Qed.

Lemma all_points_has ppw i ns m :
  1 <= ppw -> Forall (fun n => 0 < node_weight n) ns -> (m < length ns)%nat ->
  exists p, p ∈ all_points ppw i ns /\ pt_node p = (i + m)%nat.
Proof.
  intros Hp Hw. revert i m. induction Hw as [|n ns Hn Hw IH]; intros i m Hm; [cbn in Hm; lia|]. cbn [all_points].
  destruct m as [|m].
  - eexists. split; [apply elem_of_app; left; apply list_elem_of_fmap; exists 0%nat; split; [reflexivity|]|cbn; lia].
    apply elem_of_seq. unfold point_count, u32_max. nia.
  - destruct (IH (S i) m) as (p & H1 & H2); [cbn in Hm; lia|]. exists p. split; [apply elem_of_app; by right|lia].
Qed.

Lemma steps_cover start n i : (start < n)%nat -> (i < n)%nat -> i ∈ steps_from start n.
Proof. intros H1 H2. rewrite steps_split by done. rewrite elem_of_app, !elem_of_seq. lia. Qed.

Section copies.
Context (ppw : Z) (ns : list CacheClusterNode).
Context (Hppw : 1 <= ppw) (Hweights : Forall (fun n => 0 < node_weight n) ns).
Local Abbreviation t := (topology_of ppw ns).

Lemma live_iff m : member_is_live t m = true <-> member_live t !! m = Some true.
Proof. unfold member_is_live. destruct (member_live t !! m) as [[]|]; naive_solver. Qed.

Lemma live_range m : member_is_live t m = true -> (m < length ns)%nat.
Proof.
  rewrite live_iff. intros H%lookup_lt_Some. change (member_live t) with (node_is_live <$> ns) in H. by rewrite length_fmap in H.
Qed.

Lemma live_has_point m : member_is_live t m = true -> exists i, (i < length (ring t))%nat /\ point_node t i = m.
Proof.
  intros Hm%live_range. destruct (all_points_has ppw 0 ns m Hppw Hweights Hm) as (p & H1 & H2).
  assert (p ∈ ring t) as Hin by (change (ring t) with (sort_points (all_points ppw 0 ns)); by rewrite sort_perm).
  apply list_elem_of_lookup in Hin as [i Hi]. exists i. split; [by eapply lookup_lt_Some|].
  unfold point_node. by rewrite Hi.
Qed.

Lemma live_positions : length (filter (fun m => member_live t !! m = Some true) (seq 0 (length ns))) = live_count t.
Proof.
  change (live_count t) with (length (filter (fun b => b = true) (member_live t))).
  rewrite <- (true_positions (member_live t) 0). change (member_live t) with (node_is_live <$> ns).
  rewrite length_fmap. f_equal. apply filter_ext_in. intros m _. by rewrite Nat.sub_0_r.
Qed.

Lemma domains_range m : (m < length ns)%nat -> member_domain t !! m = Some (domain_of t m).
Proof.
  intros Hm. unfold domain_of. change (member_domain t) with (assign_domains ∅ 0 ns).
  destruct (lookup_lt_is_Some_2 (assign_domains ∅ 0 ns) m) as [d ->]; [by rewrite assign_domains_length|done].
Qed.

Lemma live_domain_iff d : d ∈ live_domains (member_domain t) (member_live t) <-> exists m, member_is_live t m = true /\ domain_of t m = d.
Proof.
  rewrite live_domains_elem.
  - split; intros (m & H1 & H2); exists m.
    + rewrite live_iff. split; [done|]. unfold domain_of. by rewrite H1.
    + split; [|by apply live_iff]. rewrite domains_range by (by apply live_range). by subst.
  - change (member_domain t) with (assign_domains ∅ 0 ns). change (member_live t) with (node_is_live <$> ns).
    by rewrite assign_domains_length, length_fmap.
Qed.

Lemma placed_count o c : placed t o c -> (length o <= domain_count t)%nat.
Proof.
  intros [H1 _ H3 _]. rewrite <- (length_fmap (domain_of t) o). apply nodup_incl_length; [done|].
  intros d (m & -> & Hm)%list_elem_of_fmap. apply elem_of_remove_dups, live_domain_iff. exists m. split; [|done].
  apply H3. set_solver.
Qed.

(** A finished walk has enough members, in as many domains as possible. *)
Lemma walk_enough wanted start o c :
  (wanted <= live_count t)%nat -> (start < length (ring t))%nat -> placed t o c -> (length o <= wanted)%nat ->
  walk_done t wanted (steps_from start (length (ring t))) o c ->
  (wanted <= length o + length c)%nat /\ length o = Nat.min wanted (domain_count t).
Proof.
  intros Hw Hs Hp Ho Hd. pose proof (placed_count o c Hp) as Hdc. destruct Hd as [Hd|[[Hd1 Hd2]|Hd]]; [lia|lia|].
  assert (forall m, member_is_live t m = true -> m ∈ o ++ c) as Hall.
  { intros m Hm. destruct (live_has_point m Hm) as (i & Hi & <-). apply Hd; [by apply steps_cover|done]. }
  split.
  - rewrite <- length_app. etrans; [exact Hw|]. rewrite <- live_positions. apply nodup_incl_length.
    + apply NoDup_filter, NoDup_seq.
    + intros m [Hm _]%list_elem_of_filter. by apply Hall, live_iff.
  - assert (domain_count t <= length o)%nat; [|lia].
    rewrite <- (length_fmap (domain_of t) o). apply nodup_incl_length; [apply NoDup_remove_dups|].
    intros d (m & Hm & <-)%elem_of_remove_dups%live_domain_iff. specialize (Hall m Hm).
    apply elem_of_app in Hall as [Hin|Hin]; [by apply list_elem_of_fmap_2|by apply Hp].
Qed.

Lemma distinct_domains o c k : placed t o c -> length (remove_dups (domain_of t <$> o ++ take k c)) = length o.
Proof.
  intros [H1 _ _ H4]. rewrite <- (length_fmap (domain_of t) o). apply Nat.le_antisymm; apply nodup_incl_length.
  - apply NoDup_remove_dups.
  - intros d Hd. rewrite elem_of_remove_dups in Hd. rewrite fmap_app, elem_of_app in Hd. destruct Hd as [|Hd]; [done|].
    apply list_elem_of_fmap in Hd as (m & -> & Hm). apply H4. apply elem_of_take in Hm as (i & Hm & _). by eapply list_elem_of_lookup_2.
  - done.
  - intros d Hd. apply elem_of_remove_dups. rewrite fmap_app. set_solver.
Qed.

Lemma place_first wanted steps i :
  (0 < wanted)%nat -> List.find (point_is_live t) steps = Some i ->
  head (place_copies t wanted steps [] [] []).1 = Some (point_node t i).
Proof.
  intros Hw. induction steps as [|j steps IH]; [done|]. cbn [List.find place_copies].
  destruct (point_is_live t j) eqn:El; cbn [negb]; [|done]. intros [= ->].
  repeat (rewrite bool_decide_eq_false_2 by apply not_elem_of_nil). cbn [orb app].
  match goal with |- context [if ?b then _ else _] => destruct b eqn:En end; [done|].
  apply orb_false_iff in En as [En _]. apply Nat.eqb_neq in En. cbn in En.
  assert (placed t [point_node t i] []) as Hp.
  { apply (placed_owner t [] []); [|apply not_elem_of_nil|done|apply not_elem_of_nil].
    apply placed_nil. }
  pose proof (place_spec t wanted steps [point_node t i] [] Hp ltac:(cbn; lia)) as Hs. cbn [fmap list_fmap] in Hs.
  destruct (place_copies t wanted steps [point_node t i] [domain_of t (point_node t i)] []) as [o' c'].
  destruct Hs as (_ & [e ->] & _). done.
Qed.

Lemma live_ring : live_count t <> 0%nat -> ring t <> [].
Proof.
  intros Hlc Er. rewrite <- live_positions in Hlc.
  destruct (filter _ (seq 0 (length ns))) as [|m f] eqn:Ef; [done|].
  assert (m ∈ m :: f) as Hm by left. rewrite <- Ef in Hm. apply list_elem_of_filter in Hm as [Hm _].
  apply live_iff in Hm. destruct (live_has_point m Hm) as (i & Hi & _). rewrite Er in Hi. cbn in Hi. lia.
Qed.

Lemma walk_head h wanted o c i :
  (0 < wanted)%nat -> (wanted <= length o + length c)%nat -> placed t o c ->
  (i < length (ring t))%nat -> first_point_at_or_after h t = Some i -> live_count t <> 0%nat ->
  place_copies t wanted (steps_from i (length (ring t))) [] [] [] = (o, c) ->
  member_name t <$> head o = owner_of_route_hash h t.
Proof.
  intros Hw Hn Hp Hi Hf Hlc Hpc. unfold owner_of_route_hash. rewrite Hf. unfold first_live_point_from.
  rewrite (proj2 (Nat.eqb_neq _ _) Hlc).
  destruct (List.find (point_is_live t) (steps_from i (length (ring t)))) as [j|] eqn:Ef.
  - pose proof (place_first wanted _ j Hw Ef) as Hfirst. rewrite Hpc in Hfirst. cbn [fst] in Hfirst.
    rewrite Hfirst. done.
  - destruct o as [|m o].
    + destruct c as [|m c]; [cbn in Hn; lia|]. pose proof (pl_crowded _ _ _ Hp m ltac:(left)) as Hx.
      by apply not_elem_of_nil in Hx.
    + pose proof (pl_live _ _ _ Hp m ltac:(left)) as Hm. destruct (live_has_point m Hm) as (j & Hj & En).
      pose proof (List.find_none _ _ Ef j) as Hx. unfold point_is_live in Hx. rewrite En, Hm in Hx.
      discriminate Hx. apply list_elem_of_In. by apply steps_cover.
Qed.

Lemma first_point_lt h : ring t <> [] ->
  ((if (below h (ring t) =? length (ring t))%nat then 0%nat else below h (ring t)) < length (ring t))%nat.
Proof.
  intros Hr. pose proof (below_length h (ring t)). assert (0 < length (ring t))%nat by (destruct (ring t); [done|cbn; lia]).
  destruct (Nat.eqb_spec (below h (ring t)) (length (ring t))); lia.
Qed.

Lemma placed_distinct o c k : placed t o c -> NoDup (o ++ take k c) /\ forall m, m ∈ o ++ take k c -> member_is_live t m = true.
Proof.
  intros [_ Hd Hl _]. split.
  - apply (sublist_NoDup _ (o ++ c)); [done|]. apply sublist_app; [done|apply sublist_take].
  - intros m Hm. apply Hl. apply elem_of_app. apply elem_of_app in Hm as [?|Hm]; [by left|right].
    apply elem_of_take in Hm as (i & Hi & _). by eapply list_elem_of_lookup_2.
Qed.
End copies.

(** ** What the walk places *)

Definition spread (h : Z) (copies : nat) (t : CacheClusterTopology) (idx : list nat) : Prop :=
  owners_of_hash h copies t = member_name t <$> idx /\ NoDup idx /\
  (forall m, m ∈ idx -> member_is_live t m = true) /\
  length idx = Nat.min copies (live_count t) /\
  length (remove_dups (domain_of t <$> idx)) = Nat.min (Nat.min copies (live_count t)) (domain_count t) /\
  ((0 < copies)%nat -> member_name t <$> head idx = owner_of_route_hash h t).

Lemma spread_built ppw ns h copies :
  1 <= ppw -> Forall (fun n => 0 < node_weight n) ns ->
  Z.of_nat (length (ring (topology_of ppw ns))) < 2 ^ 32 -> 0 <= h < 2 ^ 64 ->
  Nat.min copies (live_count (topology_of ppw ns)) <> 0%nat -> exists idx, spread h copies (topology_of ppw ns) idx.
Proof.
  intros Hp Hw Hl Hh Hne. assert (ring (topology_of ppw ns) <> []) as Hr by (apply live_ring; [done|done|lia]).
  unfold spread, owners_of_hash. rewrite (proj2 (Nat.eqb_neq _ _) Hne).
  pose proof (first_point _ h (topology_table ppw ns) Hl Hh Hr) as Hf. rewrite Hf.
  pose proof (first_point_lt ppw ns h Hr) as Hlt.
  set (start := if (_ =? _)%nat then _ else _) in *. clearbody start.
  pose proof (place_spec (topology_of ppw ns) (Nat.min copies (live_count (topology_of ppw ns)))
    (steps_from start (length (ring (topology_of ppw ns)))) [] [] (placed_nil _)) as Hsp.
  cbn [fmap list_fmap] in Hsp.
  destruct (place_copies (topology_of ppw ns) _ _ [] [] []) as [o c] eqn:Epc.
  destruct Hsp as (Hpl & _ & _ & Ho & Hd); [cbn [length]; lia|].
  destruct (walk_enough ppw ns Hp Hw _ start o c (Nat.le_min_r _ _) Hlt Hpl Ho Hd) as [Hn Hcount].
  destruct (placed_distinct ppw ns o c (Nat.min copies (live_count (topology_of ppw ns)) - length o) Hpl) as [Hnd Hlive].
  eexists. split; [reflexivity|]. split; [done|]. split; [done|]. split; [rewrite length_app, length_take; lia|].
  split; [by rewrite distinct_domains|]. intros Hc.
  rewrite <- (walk_head ppw ns Hp Hw h (Nat.min copies (live_count (topology_of ppw ns))) o c start ltac:(lia) Hn Hpl Hlt Hf ltac:(lia) Epc).
  destruct o as [|m o]; [|done]. destruct c as [|m c]; [cbn [length] in Hn; lia|].
  pose proof (pl_crowded _ _ _ Hpl m ltac:(left)) as Hx. by apply not_elem_of_nil in Hx.
Qed.

Lemma owners_spread t h copies :
  settled t -> Z.of_nat (length (ring t)) < 2 ^ 32 -> 0 <= h < 2 ^ 64 -> exists idx, spread h copies t idx.
Proof.
  intros Ht Hl Hh. destruct (decide (Nat.min copies (live_count t) = 0)%nat) as [E0|Hne].
  - exists []. unfold spread, owners_of_hash. rewrite E0. split; [done|]. split; [constructor|].
    split; [by intros m ?%not_elem_of_nil|]. split; [done|]. split; [done|].
    intros Hc. rewrite owner_is_spec by done. unfold owner_spec. rewrite find_all_false; [done|].
    intros p. apply no_live; [lia|by apply settled_live].
  - destruct Ht as [_ Hw Hp [E|E]].
    + rewrite E in *. by apply spread_built.
    + exfalso. apply Hne. rewrite E. cbn. lia.
Qed.
