(* ===== verification/HandoffFacts.v ===== *)
(** * Handoffs: facts

    Positions are measured from the hash just past the last boundary, so that
    the stretches of [moved_stretches] are intervals in increasing order. *)

From S2P Require Import Prelude Types Ordering Hashes Cluster ClusterFacts ClusterBuild ClusterLookup.

Local Abbreviation W := (2 ^ 64).

(** ** Positions *)

Section positions.
Context (K : Z) (HK : 0 <= K < W).

Definition pos (h : Z) : Z := wrap64 (h + K).
Definition at_pos (x : Z) : Z := wrap64 (x - K).

Lemma pos_cases h : 0 <= h < W -> (h + K < W /\ pos h = h + K) \/ (W <= h + K /\ pos h = h + K - W).
Proof.
  intros Hh. unfold pos, wrap64. destruct (Z.lt_ge_cases (h + K) W); [left|right]; (split; [done|]).
  - apply Z.mod_small. lia.
  - rewrite <- (Z.mod_add (h + K) (-1) W) by lia. apply Z.mod_small. lia.
Qed.

Lemma at_pos_cases x : 0 <= x < W -> (K <= x /\ at_pos x = x - K) \/ (x < K /\ at_pos x = x - K + W).
Proof.
  intros Hx. unfold at_pos, wrap64. destruct (Z.lt_ge_cases x K); [right|left]; (split; [done|]).
  - rewrite <- (Z.mod_add (x - K) 1 W) by lia. rewrite Z.mul_1_l. apply Z.mod_small. lia.
  - apply Z.mod_small. lia.
Qed.

Lemma pos_range h : 0 <= pos h < W.
Proof. apply wrap64_bound. Qed.
Lemma at_pos_range x : 0 <= at_pos x < W.
Proof. apply wrap64_bound. Qed.

Lemma at_pos_pos h : 0 <= h < W -> at_pos (pos h) = h.
Proof. intros Hh. pose proof (pos_range h) as Hr. destruct (pos_cases h Hh), (at_pos_cases (pos h) Hr); lia. Qed.

Lemma pos_at_pos x : 0 <= x < W -> pos (at_pos x) = x.
Proof. intros Hx. pose proof (at_pos_range x) as Hr. destruct (at_pos_cases x Hx), (pos_cases (at_pos x) Hr); lia. Qed.

Lemma at_pos_next x : wrap64 (at_pos x + 1) = at_pos (x + 1).
Proof.
  unfold at_pos, wrap64. rewrite Zplus_mod_idemp_l. f_equal. lia.
Qed.

Lemma at_pos_wrap : at_pos W = at_pos 0.
Proof. unfold at_pos, wrap64. rewrite <- (Z.mod_add (0 - K) 1 W) by lia. f_equal. lia. Qed.

Lemma at_pos_inj x y : 0 <= x < W -> 0 <= y < W -> at_pos x = at_pos y -> x = y.
Proof. intros Hx Hy E. rewrite <- (pos_at_pos x Hx), <- (pos_at_pos y Hy). by rewrite E. Qed.

(** An interval of positions as a range of hashes. *)
Lemma contains_interval x y h :
  0 <= x -> x <= y < W -> 0 <= h < W ->
  contains (mkRange (at_pos x) (at_pos y)) h = true <-> x <= pos h <= y.
Proof.
  intros Hx Hy Hh. unfold contains. cbn [rg_start rg_end].
  destruct (pos_cases h Hh), (at_pos_cases x ltac:(lia)), (at_pos_cases y ltac:(lia));
    destruct (Z.leb_spec (at_pos x) (at_pos y)); rewrite ?andb_true_iff, ?orb_true_iff, !Z.leb_le; lia.
Qed.

Lemma contains_around x y h :
  0 <= y < x -> x < W -> 0 <= h < W ->
  contains (mkRange (at_pos x) (at_pos y)) h = true <-> x <= pos h \/ pos h <= y.
Proof.
  intros Hy Hx Hh. unfold contains. cbn [rg_start rg_end].
  destruct (pos_cases h Hh), (at_pos_cases x ltac:(lia)), (at_pos_cases y ltac:(lia));
    destruct (Z.leb_spec (at_pos x) (at_pos y)); rewrite ?andb_true_iff, ?orb_true_iff, !Z.leb_le; lia.
Qed.

(** ** Stretches as intervals *)

Record piece := mkPiece { pc_lo : Z; pc_hi : Z; pc_from : string; pc_to : string }.
Definition to_stretch (p : piece) : stretch := (mkRange (at_pos (pc_lo p)) (at_pos (pc_hi p)), pc_from p, pc_to p).

(** Intervals in increasing order, from a position on. *)
Fixpoint in_order (lo : Z) (ps : list piece) : Prop :=
  match ps with
  | [] => True
  | p :: rest => lo <= pc_lo p /\ pc_lo p <= pc_hi p < W /\ in_order (pc_hi p + 1) rest
  end.

Definition covers (ps : list piece) (x : Z) (a b : string) : Prop :=
  exists p, p ∈ ps /\ pc_lo p <= x <= pc_hi p /\ pc_from p = a /\ pc_to p = b.

Lemma covers_cons p ps x a b :
  covers (p :: ps) x a b <-> (pc_lo p <= x <= pc_hi p /\ pc_from p = a /\ pc_to p = b) \/ covers ps x a b.
Proof.
  unfold covers. split.
  - intros (q & [->|Hq]%elem_of_cons & H); [by left|right; eauto].
  - intros [H|(q & Hq & H)]; [exists p; split; [left|done]|exists q; split; [by right|done]].
Qed.

Lemma in_order_weaken lo lo' ps : lo' <= lo -> in_order lo ps -> in_order lo' ps.
Proof. destruct ps as [|p ps]; cbn; [done|]. intros ? (? & ? & ?). split; [lia|]. by split. Qed.

Lemma covers_nil x a b : ~ covers [] x a b.
Proof. intros (p & Hp & _). by apply not_elem_of_nil in Hp. Qed.

Lemma covers_from lo ps x a b : in_order lo ps -> covers ps x a b -> lo <= x.
Proof.
  revert lo. induction ps as [|p ps IH]; intros lo; [by intros _ ?%covers_nil|]. cbn [in_order]. intros (H1 & H2 & H3).
  rewrite covers_cons. intros [?|Hc]; [lia|]. apply IH in H3; [lia|done].
Qed.

Lemma continues_iff p q :
  0 <= pc_lo p -> pc_lo p <= pc_hi p < W -> pc_hi p + 1 <= pc_lo q < W ->
  continues (to_stretch p) (to_stretch q) = true <-> pc_from p = pc_from q /\ pc_to p = pc_to q /\ pc_lo q = pc_hi p + 1.
Proof.
  intros H1 H2 H3. unfold continues, to_stretch. cbn [fst snd rg_start rg_end]. rewrite at_pos_next.
  rewrite !andb_true_iff, !bool_decide_eq_true, Z.eqb_eq. split.
  - intros [[? ?] E]. split_and!; [done..|]. apply at_pos_inj in E; lia.
  - intros (-> & -> & ->). done.
Qed.

Lemma join_from_spec ps p lo :
  0 <= lo -> in_order lo (p :: ps) ->
  exists js, join_from (to_stretch p) (to_stretch <$> ps) = to_stretch <$> js /\ in_order lo js /\
    forall x a b, covers js x a b <-> covers (p :: ps) x a b.
Proof.
  revert p lo. induction ps as [|q ps IH]; intros p lo Hlo (H1 & H2 & H3); cbn [fmap list_fmap join_from].
  { exists [p]. split; [done|]. split; [done|]. done. }
  cbn [in_order] in H3. destruct H3 as (H4 & H5 & H6).
  destruct (continues (to_stretch p) (to_stretch q)) eqn:E.
  - apply continues_iff in E as (E1 & E2 & E3); [|lia..].
    set (m := mkPiece (pc_lo p) (pc_hi q) (pc_from q) (pc_to q)).
    destruct (IH m lo Hlo) as (js & Ej & Ho & Hc); [cbn; split; [lia|]; split; [lia|done]|].
    exists js. split; [exact Ej|]. split; [done|]. intros x a b. rewrite Hc, !covers_cons. cbn.
    rewrite E1, E2. assert (pc_lo p <= x <= pc_hi q <-> pc_lo p <= x <= pc_hi p \/ pc_lo q <= x <= pc_hi q) by lia.
    tauto.
  - destruct (IH q (pc_hi p + 1)) as (js & Ej & Ho & Hc); [lia|done|].
    exists (p :: js). rewrite Ej. split; [done|]. split; [by split|]. intros x a b.
    rewrite covers_cons, Hc, (covers_cons p). done.
Qed.

(** ** Ranges as intervals *)

Definition range_covers (l : list stretch) (h : Z) (a b : string) : Prop :=
  exists r, (r, a, b) ∈ l /\ contains r h = true.

Lemma range_covers_cons m l h a b :
  range_covers (m :: l) h a b <-> (m.1.2 = a /\ m.2 = b /\ contains m.1.1 h = true) \/ range_covers l h a b.
Proof.
  unfold range_covers. split.
  - intros (r & [E|Hr]%elem_of_cons & H); [left; by subst m|right; eauto].
  - intros [(<- & <- & H)|(r & Hr & H)]; [|exists r; split; [by right|done]].
    exists m.1.1. split; [|done]. destruct m as [[r x] y]. left.
Qed.

Lemma range_covers_app l1 l2 h a b : range_covers (l1 ++ l2) h a b <-> range_covers l1 h a b \/ range_covers l2 h a b.
Proof. unfold range_covers. set_solver. Qed.

Lemma range_covers_nil h a b : ~ range_covers [] h a b.
Proof. intros (r & Hr & _). by apply not_elem_of_nil in Hr. Qed.

Lemma covers_app ps qs x a b : covers (ps ++ qs) x a b <-> covers ps x a b \/ covers qs x a b.
Proof. unfold covers. set_solver. Qed.

Lemma pieces_cover ps lo h a b :
  0 <= lo -> in_order lo ps -> 0 <= h < W -> range_covers (to_stretch <$> ps) h a b <-> covers ps (pos h) a b.
Proof.
  intros Hlo Ho Hh. revert lo Hlo Ho. induction ps as [|p ps IH]; intros lo Hlo Ho.
  - split; intros H; [by apply range_covers_nil in H|by apply covers_nil in H].
  - cbn [in_order] in Ho. destruct Ho as (H1 & H2 & H3). cbn [fmap list_fmap].
    rewrite range_covers_cons, covers_cons, (IH (pc_hi p + 1)) by (done || lia). unfold to_stretch at 1 2 3. cbn [fst snd].
    rewrite contains_interval by (done || lia). tauto.
Qed.

Lemma in_order_app lo ps q : in_order lo (ps ++ [q]) -> in_order lo ps /\ lo <= pc_lo q /\ pc_lo q <= pc_hi q < W.
Proof.
  revert lo. induction ps as [|p ps IH]; intros lo; cbn [app in_order]; [tauto|].
  intros (H1 & H2 & (H3 & H4 & H5)%IH). split_and!; try done; lia.
Qed.

Lemma join_wrap_cover js h a b :
  in_order 0 js -> 0 <= h < W -> range_covers (join_wrap (to_stretch <$> js)) h a b <-> covers js (pos h) a b.
Proof.
  intros Ho Hh. destruct js as [|p [|q rest]]; [by apply (pieces_cover [] 0)|by apply (pieces_cover [p] 0)|].
  destruct (exists_last (l := q :: rest) ltac:(done)) as (init & l & E). rewrite E in *. clear E q rest.
  assert (to_stretch <$> p :: init ++ [l] = to_stretch p :: (to_stretch <$> init) ++ [to_stretch l]) as Ef
    by (by rewrite fmap_cons, fmap_app).
  pose proof Ho as Ho'. cbn [in_order] in Ho'. destruct Ho' as (H1 & H2 & (H3 & H4 & H5)%in_order_app).
  assert (join_wrap (to_stretch <$> p :: init ++ [l])
          = if continues (to_stretch l) (to_stretch p)
            then extend (to_stretch l) (to_stretch p) :: (to_stretch <$> init) else to_stretch <$> p :: init ++ [l]) as ->.
  { rewrite Ef. unfold join_wrap. rewrite last_snoc, removelast_last. by destruct (to_stretch <$> init). }
  destruct (continues _ _) eqn:Ec; [|by apply (pieces_cover _ 0)].
  unfold continues, to_stretch in Ec. cbn [fst snd rg_start rg_end] in Ec. rewrite at_pos_next in Ec.
  apply andb_prop in Ec as [Ec Er]. apply andb_prop in Ec as [Ea Eb]. zbool.
  assert (pc_hi l + 1 = W /\ pc_lo p = 0) as [E1 E2].
  { destruct (decide (pc_hi l + 1 = W)) as [E|Hne].
    - split; [done|]. rewrite E, at_pos_wrap in Er. symmetry. apply at_pos_inj in Er; lia.
    - apply at_pos_inj in Er; lia. }
  rewrite range_covers_cons, (pieces_cover init (pc_hi p + 1)) by (done || lia).
  rewrite covers_cons, covers_app, covers_cons. unfold extend, to_stretch. cbn [fst snd rg_start rg_end].
  rewrite contains_around by lia. pose proof (pos_range h). pose proof (covers_nil (pos h) a b).
  rewrite Ea, Eb.
  assert (pc_lo l <= pos h \/ pos h <= pc_hi p <-> pc_lo p <= pos h <= pc_hi p \/ pc_lo l <= pos h <= pc_hi l) by lia.
  tauto.
Qed.
End positions.

(** ** Boundaries *)

Lemma route_hash_range key : 0 <= cache_route_hash key < W.
Proof.
  unfold cache_route_hash, mur_mur_hash2_64a. destruct (murmur64_blocks _ _ _) as [h tail].
  apply (xorshift_bound 64); [lia|lia|]. apply wrap64_bound.
Qed.

Lemma all_points_hash ppw i ns p : p ∈ all_points ppw i ns -> 0 <= pt_hash p < W.
Proof.
  revert i. induction ns as [|n ns IH]; intros i; cbn [all_points]; [by intros ?%not_elem_of_nil|].
  rewrite elem_of_app. intros [(j & -> & _)%list_elem_of_fmap|Hp]; [apply route_hash_range|by eapply IH].
Qed.

Lemma settled_hash t p : settled t -> p ∈ ring t -> 0 <= pt_hash p < W.
Proof. intros Ht. rewrite (settled_ring t Ht), sort_perm. apply all_points_hash. Qed.

Lemma settled_hashes_sorted t : settled t -> Sorted Z.le (pt_hash <$> ring t).
Proof.
  intros Ht. apply (Sorted_fmap _ point_le Z.le); [|by apply settled_sorted]. intros p q. unfold point_le. lia.
Qed.

Lemma drop_repeats_elem prev l x :
  x ∈ drop_repeats prev l \/ prev = Some x <-> x ∈ l \/ prev = Some x.
Proof.
  revert prev. induction l as [|y l IH]; intros prev; cbn [drop_repeats]; [done|].
  case_bool_decide as E.
  - rewrite IH, elem_of_cons. subst. naive_solver.
  - rewrite !elem_of_cons. specialize (IH (Some y)). naive_solver.
Qed.

Lemma drop_repeats_sorted prev l :
  Sorted Z.le l -> (forall p x, prev = Some p -> x ∈ l -> p <= x) ->
  StronglySorted Z.lt (drop_repeats prev l) /\ forall p x, prev = Some p -> x ∈ drop_repeats prev l -> p < x.
Proof.
  intros Hs%(Sorted_StronglySorted _). revert prev. induction Hs as [|y l Hs IH Hy]; intros prev Hp; cbn [drop_repeats].
  - split; [constructor|]. by intros p x _ ?%not_elem_of_nil.
  - rewrite Forall_forall in Hy. case_bool_decide as E.
    + apply IH. intros p x Ep Hx. apply (Hp p x Ep). by right.
    + destruct (IH (Some y)) as [I1 I2]; [intros p x [= <-] Hx; by apply Hy|]. split.
      * constructor; [done|]. rewrite Forall_forall. intros x Hx. by apply (I2 y).
      * intros p x Ep [->|Hx]%elem_of_cons; [|specialize (I2 y x eq_refl Hx)];
          pose proof (Hp p y Ep ltac:(left)); (destruct (decide (p = y)); [congruence|lia]).
Qed.

Lemma merge_bounds_spec self next :
  settled self -> settled next ->
  StronglySorted Z.lt (merge_bounds self next) /\
  forall x, x ∈ merge_bounds self next <-> x ∈ pt_hash <$> ring self \/ x ∈ pt_hash <$> ring next.
Proof.
  intros H1 H2. unfold merge_bounds. split.
  - apply drop_repeats_sorted; [|done]. apply (Sorted_list_merge _); by apply settled_hashes_sorted.
  - intros x. pose proof (drop_repeats_elem None (list_merge Z.le (pt_hash <$> ring self) (pt_hash <$> ring next)) x) as H.
    rewrite <- elem_of_app, <- (merge_Permutation Z.le (pt_hash <$> ring self) (pt_hash <$> ring next)). naive_solver.
Qed.

(** ** Owners between boundaries *)

Section owners.
Context (K : Z) (HK : 0 <= K < W).

Lemma clockwise_same r h b :
  0 <= h < W -> 0 <= b < W -> pos K h <= pos K b ->
  (forall p, p ∈ r -> 0 <= pt_hash p < W /\ (pos K h <= pos K (pt_hash p) -> pos K b <= pos K (pt_hash p))) ->
  clockwise h r = clockwise b r.
Proof.
  intros Hh Hb Hle Hr. unfold clockwise. destruct (Z.le_gt_cases h b) as [Hhb|Hhb].
  - f_equal; apply filter_ext_in; intros p Hp; destruct (Hr p Hp) as [Hp1 Hp2];
      destruct (pos_cases K HK h Hh), (pos_cases K HK b Hb), (pos_cases K HK (pt_hash p) Hp1); lia.
  - assert (forall p, p ∈ r -> b <= pt_hash p < h) as Hall.
    { intros p Hp. destruct (Hr p Hp) as [Hp1 Hp2].
      destruct (pos_cases K HK h Hh), (pos_cases K HK b Hb), (pos_cases K HK (pt_hash p) Hp1); lia. }
    rewrite (filter_none (fun p => h <= pt_hash p)), (filter_all (fun p => pt_hash p < h)),
      (filter_all (fun p => b <= pt_hash p)), (filter_none (fun p => pt_hash p < b)), app_nil_r; [done|..];
      intros p Hp%Hall; lia.
Qed.
End owners.

Definition indexable (t : CacheClusterTopology) : Prop := Z.of_nat (length (ring t)) < 2 ^ 32.

Lemma owner_at t b :
  settled t -> indexable t -> ring t <> [] -> 0 <= b < W ->
  point_member t <$> first_live_point_from t (wrap_point t (below b (ring t))) = owner_of_route_hash b t.
Proof.
  intros Ht Hl Hr Hb. unfold owner_of_route_hash. by rewrite (first_point t b (settled_table t Ht Hr) Hl Hb Hr).
Qed.

(** The owners a hash has before and after, when they differ. *)
Definition moves (self next : CacheClusterTopology) (h : Z) (a b : string) : Prop :=
  owner_of_route_hash h self = Some a /\ owner_of_route_hash h next = Some b /\ a <> b.

Section moved.
Context (self next : CacheClusterTopology).
Context (Hself : settled self) (Hnext : settled next) (Hself' : indexable self) (Hnext' : indexable next).
Context (Hrself : ring self <> []) (Hrnext : ring next <> []).
Context (lastb : Z) (Hlast : 0 <= lastb < W).
Local Abbreviation K := (W - 1 - lastb).

Lemma bound_pos b : 0 <= b <= lastb -> pos K b = b + K.
Proof. intros Hb. destruct (pos_cases K ltac:(lia) b ltac:(lia)); lia. Qed.

Lemma owner_stretch t x b :
  settled t -> indexable t -> 0 <= b <= lastb -> 0 <= x <= b + K ->
  (forall p, p ∈ ring t -> x <= pos K (pt_hash p) -> b + K <= pos K (pt_hash p)) ->
  owner_of_route_hash (at_pos K x) t = owner_of_route_hash b t.
Proof.
  intros Ht Hl Hb Hx Hp. rewrite !owner_is_spec by (done || lia || apply at_pos_range). unfold owner_spec.
  rewrite (clockwise_same K ltac:(lia) (ring t) (at_pos K x) b); [done|apply at_pos_range|lia| |];
    rewrite pos_at_pos, bound_pos by lia; [lia|].
  intros p Hin. split; [by apply (settled_hash t)|]. by apply Hp.
Qed.

(** What is left of the boundaries, from a position on. *)
Record walking (lo : Z) (prev : Z) (bs : list Z) (mine theirs : nat) : Prop := {
  wk_lo : 0 <= lo;
  wk_start : wrap64 (prev + 1) = at_pos K lo;
  wk_sorted : StronglySorted Z.lt bs;
  wk_range : forall b, b ∈ bs -> 0 <= b <= lastb /\ lo <= b + K;
  wk_mine : forall b, b ∈ bs -> (mine <= below b (ring self))%nat;
  wk_theirs : forall b, b ∈ bs -> (theirs <= below b (ring next))%nat;
  wk_points : forall p, p ∈ ring self \/ p ∈ ring next -> lo <= pos K (pt_hash p) -> pt_hash p ∈ bs;
  wk_end : lastb ∈ bs \/ lo = W
}.

Lemma walking_step lo prev b bs mine theirs :
  walking lo prev (b :: bs) mine theirs ->
  walking (b + K + 1) b bs (below b (ring self)) (below b (ring next)).
Proof.
  intros [H1 H2 H3 H4 H5 H6 H7 H8]. apply StronglySorted_inv in H3 as [H3 Hb]. rewrite Forall_forall in Hb.
  destruct (H4 b ltac:(left)) as [Hb1 Hb2]. split.
  - lia.
  - rewrite <- at_pos_next. f_equal. f_equal. rewrite <- (bound_pos b Hb1). symmetry. apply at_pos_pos; lia.
  - done.
  - intros c Hc. specialize (Hb c Hc). destruct (H4 c ltac:(by right)). lia.
  - intros c Hc. apply below_mono. specialize (Hb c Hc). lia.
  - intros c Hc. apply below_mono. specialize (Hb c Hc). lia.
  - intros p Hp Hlo. specialize (H7 p Hp ltac:(lia)). apply elem_of_cons in H7 as [E|]; [|done].
    rewrite E, (bound_pos b Hb1) in Hlo. lia.
  - destruct H8 as [[E|Hin]%elem_of_cons|E]; [right; lia|by left|lia].
Qed.

Lemma moved_spec bs lo prev mine theirs :
  walking lo prev bs mine theirs ->
  exists ps, moved_stretches self next prev bs mine theirs = to_stretch K <$> ps /\ in_order lo ps /\
    forall x a b, lo <= x < W -> covers ps x a b <-> moves self next (at_pos K x) a b.
Proof.
  revert lo prev mine theirs. induction bs as [|b bs IH]; intros lo prev mine theirs Hw.
  { exists []. split; [done|]. split; [done|]. intros x a b Hx. exfalso.
    destruct (wk_end _ _ _ _ _ Hw) as [H%not_elem_of_nil|E]; [done|lia]. }
  pose proof (walking_step _ _ _ _ _ _ Hw) as Hw'. pose proof Hw as [H1 H2 H3 H4 H5 H6 H7 H8].
  destruct (H4 b ltac:(left)) as [Hb1 Hb2]. apply StronglySorted_inv in H3 as [_ Hbs]. rewrite Forall_forall in Hbs.
  cbn [moved_stretches]. rewrite !skip_from by (by apply H5 || apply H6; left).
  rewrite !owner_at by (done || lia). rewrite H2.
  destruct (IH _ _ _ _ Hw') as (ps & Ep & Ho & Hc). rewrite Ep.
  assert (forall t, settled t -> indexable t -> (forall p, p ∈ ring t -> p ∈ ring self \/ p ∈ ring next) ->
          forall x, lo <= x <= b + K -> owner_of_route_hash (at_pos K x) t = owner_of_route_hash b t) as Hown.
  { intros t Ht Hl Hin x Hx. apply owner_stretch; [done|done|done|lia|]. intros p Hp Hpx.
    specialize (H7 p (Hin p Hp) ltac:(lia)). apply elem_of_cons in H7 as [->|Hp7]; [rewrite bound_pos by done; lia|].
    pose proof (Hbs _ Hp7). destruct (H4 (pt_hash p) ltac:(by right)). rewrite bound_pos by done. lia. }
  assert (forall x a c, lo <= x <= b + K -> moves self next (at_pos K x) a c <-> moves self next b a c) as Hm.
  { intros x a c Hx. unfold moves. rewrite (Hown self), (Hown next); auto. }
  assert (forall x a c, x <= b + K -> ~ covers ps x a c) as Hnone.
  { intros x a c Hx Hcv. apply (covers_from _ _ _ _ _ Ho) in Hcv. lia. }
  assert ((forall a c, ~ moves self next b a c) ->
    in_order lo ps /\ forall x a c, lo <= x < W -> covers ps x a c <-> moves self next (at_pos K x) a c) as Hskip.
  { intros Hno. split; [apply (in_order_weaken (b + K + 1)); [lia|done]|]. intros x a c Hx.
    destruct (Z.le_gt_cases x (b + K)); [|apply Hc; lia]. rewrite Hm by lia. split; intros H'; [by apply Hnone in H'|by apply Hno in H']. }
  destruct (owner_of_route_hash b self) as [before|] eqn:E1;
    [destruct (owner_of_route_hash b next) as [after|] eqn:E2; [case_bool_decide as E|]|].
  - exists ps. split; [done|]. apply Hskip. intros a c (Ha & Hb & Hne). congruence.
  - exists (mkPiece lo (b + K) before after :: ps). split; [|split].
    + assert (at_pos K (b + K) = b) as Hat by (rewrite <- (bound_pos b Hb1); apply at_pos_pos; lia).
      rewrite fmap_cons. f_equal. unfold to_stretch. cbn [pc_lo pc_hi pc_from pc_to]. by rewrite Hat.
    + cbn. split; [lia|]. split; [lia|done].
    + intros x a c Hx. rewrite covers_cons. cbn. destruct (Z.le_gt_cases x (b + K)).
      * rewrite Hm by lia. pose proof (Hnone x a c). unfold moves. split; [intros [(? & <- & <-)|?]; [done|naive_solver]|].
        intros (Ha & Hb & _). left. split; [lia|]. split; congruence.
      * rewrite <- Hc by lia. split; [intros [?|?]; [lia|done]|by right].
  - exists ps. split; [done|]. apply Hskip. intros a c (Ha & Hb & Hne). congruence.
  - exists ps. split; [done|]. apply Hskip. intros a c (Ha & Hb & Hne). congruence.
Qed.
End moved.

(** ** Gathering *)

Definition handed (hs : list CacheHandoff) (h : Z) (a b : string) : Prop :=
  exists ho r, ho ∈ hs /\ ho_from ho = a /\ ho_to ho = b /\ r ∈ ho_ranges ho /\ contains r h = true.

Lemma handed_cons ho hs h a b :
  handed (ho :: hs) h a b <-> (ho_from ho = a /\ ho_to ho = b /\ exists r, r ∈ ho_ranges ho /\ contains r h = true) \/ handed hs h a b.
Proof.
  unfold handed. split.
  - intros (o & r & [->|Ho]%elem_of_cons & H); [left; naive_solver|right; eauto 10].
  - intros [(<- & <- & r & H)|(o & r & Ho & H)]; [exists ho, r; split; [left|done]|exists o, r; split; [by right|done]].
Qed.

Lemma handed_nil h a b : ~ handed [] h a b.
Proof. intros (o & r & Ho & _). by apply not_elem_of_nil in Ho. Qed.

Lemma add_handed m hs h a b :
  handed (add_to_handoffs m hs) h a b <-> handed hs h a b \/ (m.1.2 = a /\ m.2 = b /\ contains m.1.1 h = true).
Proof.
  induction hs as [|ho hs IH]; cbn [add_to_handoffs].
  - rewrite handed_cons. cbn. setoid_rewrite list_elem_of_singleton. pose proof (handed_nil h a b). naive_solver.
  - case_match eqn:E.
    + apply andb_prop in E as [E1 E2]. zbool. rewrite !handed_cons. cbn. setoid_rewrite elem_of_app.
      setoid_rewrite list_elem_of_singleton. rewrite E1, E2. naive_solver.
    + rewrite !handed_cons, IH. tauto.
Qed.

Lemma gather_handed l hs h a b :
  handed (fold_left (fun hs m => add_to_handoffs m hs) l hs) h a b <-> handed hs h a b \/ range_covers l h a b.
Proof.
  revert hs. induction l as [|m l IH]; intros hs; cbn [fold_left].
  - pose proof (range_covers_nil h a b). tauto.
  - rewrite IH, add_handed, range_covers_cons. tauto.
Qed.

Lemma sorted_last l x b : StronglySorted Z.lt l -> list.last l = Some x -> b ∈ l -> b <= x.
Proof.
  intros Hs Hl Hb. apply last_Some in Hl as [l' ->]. apply elem_of_app in Hb as [Hb|Hb%list_elem_of_singleton]; [|lia].
  pose proof (proj1 (StronglySorted_app _ _ _) Hs) as (H & _). specialize (H b x Hb ltac:(left)). lia.
Qed.

Lemma moved_from_start self next :
  settled self -> settled next -> indexable self -> indexable next -> ring self <> [] -> ring next <> [] ->
  exists K ps, 0 <= K < W /\
    moved_stretches self next (default 0 (list.last (merge_bounds self next))) (merge_bounds self next) 0 0
      = to_stretch K <$> ps /\ in_order 0 ps /\
    forall x a b, 0 <= x < W -> covers ps x a b <-> moves self next (at_pos K x) a b.
Proof.
  intros Hs Hn Hs' Hn' Hr1 Hr2. destruct (merge_bounds_spec self next Hs Hn) as [Hsort Hel].
  destruct (list.last (merge_bounds self next)) as [lastb|] eqn:El.
  2:{ apply last_None in El. destruct (ring self) as [|p r]; [done|].
      assert (pt_hash p ∈ merge_bounds self next) as Hp by (apply Hel; left; left).
      rewrite El in Hp. by apply not_elem_of_nil in Hp. }
  assert (forall b, b ∈ merge_bounds self next -> 0 <= b < W) as Hrange.
  { intros b [(p & -> & Hp)%list_elem_of_fmap|(p & -> & Hp)%list_elem_of_fmap]%Hel;
      [by apply (settled_hash self)|by apply (settled_hash next)]. }
  assert (lastb ∈ merge_bounds self next) as Hin.
  { apply last_Some in El as [l ->]. apply elem_of_app. right. left. }
  pose proof (Hrange _ Hin) as Hlast. exists (W - 1 - lastb).
  destruct (moved_spec self next Hs Hn Hs' Hn' Hr1 Hr2 lastb Hlast (merge_bounds self next) 0 lastb 0 0)
    as (ps & E & Ho & Hc).
  - split.
    + lia.
    + unfold at_pos, wrap64. rewrite <- (Z.mod_add (0 - (W - 1 - lastb)) 1 W) by lia. f_equal. lia.
    + done.
    + intros b Hb. pose proof (Hrange b Hb). pose proof (sorted_last _ _ _ Hsort El Hb). lia.
    + lia.
    + lia.
    + intros p [Hp|Hp] _; apply Hel; [left|right]; by apply list_elem_of_fmap_2.
    + by left.
  - exists ps. split; [lia|done].
Qed.

Lemma handoffs_handed self next h a b :
  settled self -> settled next -> indexable self -> indexable next -> 0 <= h < W ->
  handed (handoffs_to self next) h a b <-> moves self next h a b.
Proof.
  intros Hs Hn Hs' Hn' Hh. unfold handoffs_to. destruct (bool_decide (ring self = []) || bool_decide (ring next = [])) eqn:E.
  - split; [by intros ?%handed_nil|]. intros (H1 & H2 & _). exfalso.
    unfold owner_of_route_hash, first_point_at_or_after in *.
    apply orb_true_iff in E as [E|E]; zbool; rewrite E in *; done.
  - apply orb_false_iff in E as [E1 E2]. zbool.
    destruct (moved_from_start self next Hs Hn Hs' Hn' E1 E2) as (K & ps & HK & Em & Ho & Hc). rewrite Em.
    rewrite gather_handed. pose proof (handed_nil h a b).
    assert (range_covers (join_wrap (join_stretches (to_stretch K <$> ps))) h a b <-> covers ps (pos K h) a b) as Hj.
    { destruct ps as [|p ps]; [by apply (join_wrap_cover K HK [])|].
      destruct (join_from_spec K HK ps p 0 ltac:(lia) Ho) as (js & Ej & Hoj & Hcj).
      change (join_stretches (to_stretch K <$> p :: ps)) with (join_from (to_stretch K p) (to_stretch K <$> ps)).
      rewrite Ej, (join_wrap_cover K HK js) by done. apply Hcj. }
    rewrite Hj, Hc by apply pos_range. rewrite at_pos_pos by done. tauto.
Qed.
