(* ===== verification/ClusterSpec.v ===== *)
(** * The cluster ring: what it promises *)

From S2P Require Import Prelude Types Ordering Hashes Cluster ClusterFacts ClusterBuild ClusterLookup.
From S2P Require Import ClusterLookup ClusterCopies Cluster HandoffFacts.

(** A topology reached from a new one by membership changes. *)
Definition assembled (t : CacheClusterTopology) : Prop :=
  exists ppw ops, Forall op_ok ops /\ t = run_cluster ops (with_points_per_weight ppw).

Lemma assembled_settled t : assembled t -> settled t.
Proof. intros (ppw & ops & Ho & ->). apply run_settled; [done|apply settled_new]. Qed.

(** ** Moves *)

(** The two ways a member stops taking traffic, and the three it starts. *)
Definition departure (name : string) (t t' : CacheClusterTopology) : Prop :=
  t' = (remove_node name t).2 \/ t' = (set_node_state name Down t).2.
Definition arrival (name : string) (t t' : CacheClusterTopology) : Prop :=
  (exists w, 0 <= w /\ t' = (add_node name w t).2) \/
  (exists w zone, 0 <= w /\ t' = (add_node_in_zone name w zone t).2) \/
  t' = (set_node_state name Live t).2.

Lemma spec_of_members t h : settled t -> owner_spec h t = owner_spec h (topology_of (points_per_weight t) (nodes t)).
Proof. intros [_ _ _ [<-|E]]; [done|]. by rewrite E. Qed.

Lemma set_state_middle l1 n l2 st :
  (node_name n ∉ names l1) -> (node_name n ∉ names l2) ->
  node_set_state (node_name n) st (l1 ++ n :: l2) = l1 ++ mkNode (node_name n) (node_weight n) st (node_zone n) :: l2.
Proof.
  intros H1 H2. assert (forall l, (node_name n ∉ names l) -> node_set_state (node_name n) st l = l) as Hl.
  { intros l Hn. unfold node_set_state. rewrite <- (list_fmap_id l) at 2. apply list_fmap_ext. intros i m Hm.
    rewrite bool_decide_eq_false_2; [done|]. intros E. apply Hn. rewrite <- E. apply list_elem_of_fmap_2.
    by eapply list_elem_of_lookup_2. }
  unfold node_set_state. rewrite fmap_app, fmap_cons. rewrite bool_decide_eq_true_2 by done.
  f_equal; [by apply Hl|]. f_equal. by apply Hl.
Qed.

Lemma departure_spec name t t' h :
  settled t -> departure name t t' -> owner_spec h t <> Some name -> owner_spec h t' = owner_spec h t.
Proof.
  intros Ht Hd Hne. destruct (decide (name ∈ names (nodes t))) as [Hin|Hn].
  - rewrite (spec_of_members t) in * by done.
    destruct (node_split name (nodes t)) as (l1 & n & l2 & E & -> & H1 & H2); [by apply sorted_nodup, Ht|done|].
    destruct Hd as [->| ->].
    + rewrite retire_topology by done. cbn [snd]. rewrite E in *. rewrite node_remove_middle by done. by apply departed_owner.
    + rewrite set_state_topology by done. rewrite E in *. rewrite set_state_middle by done. by apply downed_owner.
  - destruct Hd as [->| ->]; [by rewrite remove_absent|]. unfold set_node_state. by rewrite (proj2 (node_get_none _ _)).
Qed.

Lemma admitted_spec name weight zone t h :
  settled t -> 0 <= weight -> check_new_node name weight t = Ok tt ->
  owner_spec h (admit_one_member name (insert_node name weight zone t)) <> Some name ->
  owner_spec h (admit_one_member name (insert_node name weight zone t)) = owner_spec h t.
Proof.
  intros Ht Hw Hc. destruct (admit_settled name weight zone t Ht Hw Hc) as [-> _]. apply check_new_ok in Hc as [_ Hn].
  rewrite (spec_of_members t) by done.
  destruct (node_insert_split (mkNode name weight Live zone) (nodes t) (st_sorted _ Ht) Hn) as (l1 & l2 & -> & -> & _).
  intros Hne. symmetry. by apply (departed_owner _ l1 l2 (mkNode name weight Live zone)).
Qed.

Lemma arrival_spec name t t' h :
  settled t -> arrival name t t' -> owner_spec h t' <> Some name -> owner_spec h t' = owner_spec h t.
Proof.
  intros Ht [(w & Hw & ->)|[(w & zone & Hw & ->)| ->]].
  - unfold add_node. destruct (check_new_node name w t) as [[]|] eqn:E; [|done]. by apply admitted_spec.
  - unfold add_node_in_zone. destruct (check_new_node name w t) as [[]|] eqn:E; [|done]. case_bool_decide; [done|].
    by apply admitted_spec.
  - destruct (decide (name ∈ names (nodes t))) as [Hin|Hn].
    2:{ unfold set_node_state. by rewrite (proj2 (node_get_none _ _)). }
    rewrite set_state_topology by done. rewrite (spec_of_members t) by done.
    destruct (node_split name (nodes t)) as (l1 & n & l2 & E & -> & H1 & H2); [by apply sorted_nodup, Ht|done|].
    rewrite E, set_state_middle by done. intros Hne. destruct n as [nm w [] z]; cbn in *; [done|].
    symmetry. by apply (downed_owner _ l1 l2 (mkNode nm w Live z)).
Qed.

(** ** Copies *)

Lemma domain_cases zs next ns i n d :
  ns !! i = Some n -> assign_domains zs next ns !! i = Some d ->
  (exists z, node_zone n = Some z /\ zs !! z = Some d) \/ ((next <= d)%nat /\ forall z, node_zone n = Some z -> zs !! z = None).
Proof.
  revert zs next i. induction ns as [|m ns IH]; intros zs next [|i]; cbn; [done|done| |].
  - intros [= ->]. destruct (node_zone n) as [z|] eqn:Ez; [destruct (zs !! z) as [id|] eqn:Es|]; cbn; intros [= <-].
    + left. eauto.
    + right. split; [lia|]. by intros ? [= ->].
    + right. split; [lia|done].
  - intros Hn. destruct (node_zone m) as [z|] eqn:Ez; [destruct (zs !! z) as [id|] eqn:Es|]; cbn; intros Hd.
    + eauto.
    + destruct (IH _ _ _ Hn Hd) as [(z' & H1 & H2)|[H1 H2]].
      * apply lookup_insert_Some in H2 as [[-> <-]|[Hne H2]]; [right; split; [lia|]|left; eauto].
        intros ? E. rewrite H1 in E. by injection E as <-.
      * right. split; [lia|]. intros z' E. specialize (H2 z' E). by apply lookup_insert_None in H2 as [? _].
    + destruct (IH _ _ _ Hn Hd) as [H|[H1 H2]]; [by left|right; split; [lia|done]].
Qed.

Lemma zone_domain zs next ns i j n m z d e :
  ns !! i = Some n -> ns !! j = Some m -> node_zone n = Some z -> node_zone m = Some z ->
  assign_domains zs next ns !! i = Some d -> assign_domains zs next ns !! j = Some e -> d = e.
Proof.
  assert (forall zs next (ns : list CacheClusterNode) k x z d f, ns !! k = Some x -> node_zone x = Some z -> zs !! z = Some d ->
          assign_domains zs next ns !! k = Some f -> f = d) as Hk.
  { intros zs' next' ns' k x z' d' f Hx Hz Hd Hf. destruct (domain_cases _ _ _ _ _ _ Hx Hf) as [(z2 & H1 & H2)|[_ H2]].
    - rewrite Hz in H1. injection H1 as <-. congruence.
    - rewrite (H2 z' Hz) in Hd. done. }
  revert zs next i j. induction ns as [|x ns IH]; intros zs next [|i] [|j]; cbn; try done.
  - intros [= ->] [= ->] _ _ H1 H2. congruence.
  - intros [= ->] Hm Hz1 Hz2. rewrite Hz1. destruct (zs !! z) as [id|] eqn:Es; cbn; intros [= <-] He; symmetry; eapply Hk; eauto.
    apply lookup_insert_eq.
  - intros Hn [= ->] Hz1 Hz2. rewrite Hz2. destruct (zs !! z) as [id|] eqn:Es; cbn; intros Hd [= <-]; eapply Hk; eauto.
    apply lookup_insert_eq.
  - intros Hn Hm Hz1 Hz2. destruct (node_zone x) as [y|]; [destruct (zs !! y)|]; cbn; intros; eapply IH; eauto.
Qed.

Lemma remove_dups_length {A} `{EqDecision A} (l : list A) : (length (remove_dups l) <= length l)%nat.
Proof. induction l as [|x l IH]; [done|]. cbn. case_match; cbn; lia. Qed.

Lemma no_dups_removed {A} `{EqDecision A} (l : list A) : length (remove_dups l) = length l -> NoDup l.
Proof.
  induction l as [|x l IH]; [constructor|]. cbn. pose proof (remove_dups_length l).
  case_match; cbn; intros E; [lia|]. constructor; [done|]. apply IH. lia.
Qed.

Lemma live_member t m :
  settled t -> member_is_live t m = true ->
  exists n, nodes t !! m = Some n /\ node_state n = Live /\ member_name t m = node_name n /\ member_domain t !! m = Some (domain_of t m).
Proof.
  intros [_ _ _ [E|E]] Hm; [|rewrite E in Hm; by destruct m].
  rewrite E in Hm |- *. pose proof (live_range _ _ _ Hm) as Hr. cbn [nodes].
  change (nodes (topology_of (points_per_weight t) (nodes t))) with (nodes t).
  destruct (lookup_lt_is_Some_2 _ _ Hr) as [n Hn]. exists n. split; [done|].
  rewrite live_lookup, Hn in Hm. cbn in Hm. unfold node_is_live in Hm. zbool. split; [done|].
  split; [by rewrite members_lookup, Hn|by apply domains_range].
Qed.

Lemma names_inj t i j n m :
  settled t -> nodes t !! i = Some n -> nodes t !! j = Some m -> node_name n = node_name m -> i = j.
Proof.
  intros Ht Hi Hj E. apply (NoDup_lookup (names (nodes t)) i j (node_name n)); [by apply sorted_nodup, Ht|..];
    unfold names; rewrite list_lookup_fmap; [by rewrite Hi|rewrite Hj; cbn; by rewrite E].
Qed.

(** ** Routing bytes *)

Lemma string_bytes_inj a b : string_bytes a = string_bytes b -> a = b.
Proof.
  unfold string_bytes. intros E. rewrite <- (String.string_of_list_byte_of_string a), <- (String.string_of_list_byte_of_string b).
  by rewrite E.
Qed.

Lemma counted_inj a b x y :
  blen a < 2 ^ 32 -> blen b < 2 ^ 32 ->
  le_bytes 4 (wrap32 (blen a)) ++ a ++ x = le_bytes 4 (wrap32 (blen b)) ++ b ++ y -> a = b /\ x = y.
Proof.
  intros Ha Hb E. pose proof (blen_nonneg a). pose proof (blen_nonneg b). unfold wrap32 in E.
  rewrite !Z.mod_small in E by lia. apply app_inj_1 in E as [E1 E2]; [|by rewrite !le_bytes_length].
  apply le_bytes_inj in E1; [|lia..]. apply app_inj_1 in E2; [done|]. unfold blen in E1. lia.
Qed.

(** ** Claims *)

(** C10. A cluster assembled one member at a time, in any order and through
    any joins, batches, departures and state changes, is the cluster a full
    rebuild gives, so two clusters with the same members agree on every
    field, ring and lookup table included. *)
Theorem topology_is_its_membership ops1 ops2 ppw :
  Forall op_ok ops1 -> Forall op_ok ops2 ->
  let t1 := run_cluster ops1 (with_points_per_weight ppw) in
  let t2 := run_cluster ops2 (with_points_per_weight ppw) in
  nodes t1 <> [] -> nodes t1 ≡ₚ nodes t2 ->
  rebuild_ring t1 = t1 /\ t1 = t2.
Proof.
  intros H1 H2 t1 t2 Hne Hn. assert (points_per_weight t1 = points_per_weight t2) as Hp by (unfold t1, t2; by rewrite !run_ppw).
  pose proof (run_settled ops1 _ H1 (settled_new ppw)) as S1.
  pose proof (run_settled ops2 _ H2 (settled_new ppw)) as S2. fold t1 in S1. fold t2 in S2.
  pose proof (same_members _ _ (st_sorted _ S1) (st_sorted _ S2) Hn) as En.
  assert (forall t, settled t -> nodes t <> [] -> t = topology_of (points_per_weight t) (nodes t)) as Hb.
  { intros t [_ _ _ [E|E]] Ht; [done|]. rewrite E in Ht. done. }
  rewrite rebuild_is_topology. split; [by rewrite <- Hb|]. rewrite (Hb t1), (Hb t2) by (done || by rewrite <- En).
  by rewrite Hp, En.
Qed.

(** The lookup table finds the point a search of the ring finds: the
    first one at or after the hash, or the first of all past the end. *)
Theorem table_lookup_is_search t h :
  assembled t -> indexable t -> 0 <= h < 2 ^ 64 ->
  first_point_at_or_after h t
  = match ring t with
    | [] => None
    | _ => Some (match list_find (fun p => h <= pt_hash p) (ring t) with Some (i, _) => i | None => 0%nat end)
    end.
Proof.
  intros Ht%assembled_settled Hl Hh. destruct (decide (ring t = [])) as [E|Hr].
  - unfold first_point_at_or_after. by rewrite E.
  - rewrite (first_point t h (settled_table t Ht Hr) Hl Hh Hr). destruct (ring t) as [|p0 r0] eqn:Er; [done|].
    rewrite <- Er in *. f_equal. pose proof (below_length h (ring t)) as Hb.
    destruct (list_find (fun p => h <= pt_hash p) (ring t)) as [[i p]|] eqn:Ef.
    + apply list_find_Some in Ef as (Hi & Hp & Hmin). assert (below h (ring t) = i) as ->.
      { apply Nat.le_antisymm.
        - destruct (Nat.le_gt_cases (below h (ring t)) i) as [|Hgt]; [done|].
          destruct (below_inside h (ring t) i Hgt) as (q & Hq & Hlt). rewrite Hi in Hq. simplify_eq. lia.
        - destruct (Nat.le_gt_cases i (below h (ring t))) as [|Hgt]; [done|].
          destruct (lookup_lt_is_Some_2 (ring t) (below h (ring t))) as [q Hq].
          { apply lookup_lt_Some in Hi. lia. }
          pose proof (below_at _ _ _ Hq). by destruct (Hmin _ _ Hq Hgt). }
      apply lookup_lt_Some in Hi. by rewrite (proj2 (Nat.eqb_neq _ _)) by lia.
    + apply list_find_None in Ef. rewrite Forall_forall in Ef. destruct (Nat.eqb_spec (below h (ring t)) (length (ring t))); [done|].
      destruct (lookup_lt_is_Some_2 (ring t) (below h (ring t))) as [q Hq]; [lia|].
      pose proof (below_at _ _ _ Hq). destruct (Ef q); [by eapply list_elem_of_lookup_2|done].
Qed.

(** A membership change moves few keys: when a member leaves or goes
    down, a hash it did not own keeps its owner, and when one joins or comes
    back, a hash it does not now own keeps the owner it had. *)
Theorem few_keys_move name t t' h :
  assembled t -> indexable t -> assembled t' -> indexable t' -> 0 <= h < 2 ^ 64 ->
  (departure name t t' -> owner_of_route_hash h t <> Some name -> owner_of_route_hash h t' = owner_of_route_hash h t) /\
  (arrival name t t' -> owner_of_route_hash h t' <> Some name -> owner_of_route_hash h t' = owner_of_route_hash h t).
Proof.
  intros Ht%assembled_settled Hl Ht'%assembled_settled Hl' Hh. rewrite !owner_is_spec by done.
  split; intros H Hne; [by eapply departure_spec|by eapply arrival_spec].
Qed.

(** The copies of a key are on as many distinct live members as asked
    for, or all there are, the owner first; and when that is no more than the
    failure domains available, no two of them share a zone. *)
Theorem copies_are_spread t h copies :
  assembled t -> indexable t -> 0 <= h < 2 ^ 64 ->
  let os := owners_of_hash h copies t in
  NoDup os /\ length os = Nat.min copies (live_count t) /\
  (forall o, o ∈ os -> exists n, n ∈ nodes t /\ node_name n = o /\ node_state n = Live) /\
  ((0 < copies)%nat -> head os = owner_of_route_hash h t) /\
  ((Nat.min copies (live_count t) <= domain_count t)%nat ->
   forall n m z, n ∈ nodes t -> m ∈ nodes t -> node_name n ∈ os -> node_name m ∈ os ->
   node_zone n = Some z -> node_zone m = Some z -> n = m).
Proof.
  intros Ht%assembled_settled Hl Hh os. destruct (owners_spread t h copies Ht Hl Hh) as (idx & Eo & Hnd & Hlive & Hlen & Hdom & Hhead).
  assert (forall o, o ∈ os -> exists i n, i ∈ idx /\ nodes t !! i = Some n /\ node_name n = o /\ node_state n = Live /\
            member_domain t !! i = Some (domain_of t i)) as Hos.
  { intros o Ho. unfold os in Ho. rewrite Eo in Ho. apply list_elem_of_fmap in Ho as (i & -> & Hi).
    destruct (live_member t i Ht (Hlive i Hi)) as (n & H1 & H2 & H3 & H4). exists i, n. by rewrite H3. }
  split_and!.
  - unfold os. rewrite Eo. apply NoDup_fmap_2_strong; [|done]. intros i j Hi Hj E.
    destruct (live_member t i Ht (Hlive i Hi)) as (n & H1 & _ & H3 & _).
    destruct (live_member t j Ht (Hlive j Hj)) as (m & G1 & _ & G3 & _). apply (names_inj t i j n m); [done..|congruence].
  - unfold os. by rewrite Eo, length_fmap.
  - intros o Ho. destruct (Hos o Ho) as (i & n & _ & H1 & H2 & H3 & _). exists n.
    split; [by eapply list_elem_of_lookup_2|done].
  - intros Hc. unfold os. rewrite Eo, <- (Hhead Hc). by destruct idx.
  - intros Hd n m z Hn Hm Hno Hmo Hz1 Hz2. rewrite Nat.min_l in Hdom by done.
    rewrite <- Hlen, <- (length_fmap (domain_of t) idx) in Hdom. apply no_dups_removed in Hdom.
    destruct (Hos _ Hno) as (i & n' & Hi & H1 & H2 & _ & H4). destruct (Hos _ Hmo) as (j & m' & Hj & G1 & G2 & _ & G4).
    apply list_elem_of_lookup in Hn as [i' Hi']. apply list_elem_of_lookup in Hm as [j' Hj'].
    pose proof (names_inj t i i' n' n Ht H1 Hi' H2) as <-. pose proof (names_inj t j j' m' m Ht G1 Hj' G2) as <-.
    assert (n' = n) as -> by congruence. assert (m' = m) as -> by congruence.
    assert (member_domain t = assign_domains ∅ 0 (nodes t)) as Em.
    { destruct (st_built _ Ht) as [E|E]; rewrite E; done. }
    rewrite Em in H4, G4. pose proof (zone_domain _ _ _ _ _ _ _ _ _ _ H1 G1 Hz1 Hz2 H4 G4) as Ed.
    apply list_elem_of_lookup in Hi as [a Ha]. apply list_elem_of_lookup in Hj as [b Hb].
    assert (a = b) as ->; [|congruence].
    apply (NoDup_lookup (domain_of t <$> idx) a b (domain_of t i)); [done|..]; rewrite list_lookup_fmap;
      [by rewrite Ha|rewrite Hb; cbn; by rewrite Ed].
Qed.

(** C11. The handoffs between two memberships are exactly the keys that move:
    a hash lies in a range handed from one node to another if and only if
    those two are its owners before and after and they differ. *)
Theorem handoffs_move_exactly self next h a b :
  assembled self -> assembled next -> indexable self -> indexable next -> 0 <= h < 2 ^ 64 ->
  (exists ho r, ho ∈ handoffs_to self next /\ ho_from ho = a /\ ho_to ho = b /\ r ∈ ho_ranges ho /\ contains r h = true) <->
  owner_of_route_hash h self = Some a /\ owner_of_route_hash h next = Some b /\ a <> b.
Proof.
  intros H1%assembled_settled H2%assembled_settled H3 H4 H5. by apply handoffs_handed.
Qed.

(** Two different keys are never routed by the same bytes. *)
Theorem routing_bytes_injective k1 k2 :
  0 <= shard_id k1 < 2 ^ 64 -> 0 <= shard_id k2 < 2 ^ 64 ->
  blen (string_bytes (namespace k1)) < 2 ^ 32 -> blen (string_bytes (namespace k2)) < 2 ^ 32 ->
  blen (string_bytes (record_key k1)) < 2 ^ 32 -> blen (string_bytes (record_key k2)) < 2 ^ 32 ->
  cache_key_routing_bytes k1 = cache_key_routing_bytes k2 -> k1 = k2.
Proof.
  intros Hs1 Hs2 Hn1 Hn2 Hr1 Hr2 E. unfold cache_key_routing_bytes in E.
  apply counted_inj in E as [En E]; [|done..]. apply app_inj_1 in E as [Es E]; [|by rewrite !le_bytes_length].
  apply le_bytes_inj in Es; [|done..]. apply counted_inj in E as [Er E]; [|done..].
  apply string_bytes_inj in En, Er, E. destruct k1, k2; cbn in *. by subst.
Qed.

(** ** Concrete clusters *)

Definition demo_ops : list ClusterOp :=
  [AddNodesInZones [("b", 1, "east"); ("a", 1, "west")]; AddNodeInZone "c" 2 "east"].
(** The same members, joined differently and with one down for a while. *)
Definition demo_ops' : list ClusterOp :=
  [AddNode "d" 1; AddNodeInZone "c" 2 "east"; RemoveNode "d"; SetNodeState "c" Down; AddNodeInZone "a" 1 "west";
   SetNodeState "c" Live; AddNodeInZone "b" 1 "east"].
Definition demo_cluster : CacheClusterTopology := run_cluster demo_ops (with_points_per_weight 2).
Definition smaller_cluster : CacheClusterTopology := (remove_node "b" demo_cluster).2.

Lemma demo_ops_ok : Forall op_ok demo_ops /\ Forall op_ok demo_ops'.
Proof. split; repeat constructor; done. Qed.

Lemma demo_assembled : assembled demo_cluster.
Proof. exists 2, demo_ops. split; [apply demo_ops_ok|done]. Qed.

Lemma smaller_assembled : assembled smaller_cluster.
Proof.
  exists 2, (demo_ops ++ [RemoveNode "b"]). split; [apply Forall_app; split; [apply demo_ops_ok|repeat constructor]|done].
Qed.

Lemma demo_indexable : indexable demo_cluster /\ indexable smaller_cluster.
Proof. split; vm_compute; done. Qed.

Lemma topology_is_its_membership_witness :
  run_cluster demo_ops (with_points_per_weight 2) = run_cluster demo_ops' (with_points_per_weight 2).
Proof.
  apply (topology_is_its_membership demo_ops demo_ops' 2); [apply demo_ops_ok|apply demo_ops_ok|done|].
  vm_compute. reflexivity.
Defined.

Lemma table_lookup_is_search_witness :
  first_point_at_or_after 5000000000000000000 demo_cluster
  = match ring demo_cluster with
    | [] => None
    | _ => Some (match list_find (fun p => 5000000000000000000 <= pt_hash p) (ring demo_cluster) with
                 | Some (i, _) => i | None => 0%nat end)
    end.
Proof. apply (table_lookup_is_search demo_cluster); [apply demo_assembled|apply demo_indexable|done]. Defined.

Lemma few_keys_move_witness :
  owner_of_route_hash 0 smaller_cluster = owner_of_route_hash 0 demo_cluster.
Proof.
  destruct (few_keys_move "b" demo_cluster smaller_cluster 0) as [H _];
    [apply demo_assembled|apply demo_indexable|apply smaller_assembled|apply demo_indexable|done|].
  apply H; [left; reflexivity|]. vm_compute. done.
Defined.

Lemma copies_are_spread_witness : length (owners_of_hash 0 2 demo_cluster) = 2%nat.
Proof.
  destruct (copies_are_spread demo_cluster 0 2) as (_ & H & _); [apply demo_assembled|apply demo_indexable|done|].
  rewrite H. vm_compute. reflexivity.
Defined.

Lemma handoffs_move_exactly_witness :
  exists ho r, ho ∈ handoffs_to demo_cluster smaller_cluster /\ ho_from ho = "b" /\ ho_to ho = "c" /\
    r ∈ ho_ranges ho /\ contains r 9000000000000000000 = true.
Proof.
  apply (handoffs_move_exactly demo_cluster smaller_cluster 9000000000000000000 "b" "c");
    [apply demo_assembled|apply smaller_assembled|apply demo_indexable|apply demo_indexable|done|].
  split; [vm_compute; reflexivity|]. split; [vm_compute; reflexivity|done].
Defined.

Lemma routing_bytes_injective_witness : key_string 1 "ab" = key_string 1 "ab".
Proof.
  apply (routing_bytes_injective (key_string 1 "ab") (key_string 1 "ab")); try (vm_compute; done).
Defined.

(** The characters of a key cannot move between its fields. *)
Example routing_bytes_differ :
  cache_key_routing_bytes (mkKey 0 "ab" "ns" "c") <> cache_key_routing_bytes (mkKey 0 "a" "ns" "bc").
Proof. vm_compute. done. Qed.
