(* ===== verification/KeyArena.v ===== *)
(** * The arena behind the replacement lists

    [KeyArena] and [KeyList] (runtime/replacement.rs): intrusive lists of keys
    whose nodes live in one vector, with released nodes recycled.  Several
    lists may share an arena; [forest] says what each of them spells. *)

From S2P Require Import Prelude Dll.

Abbreviation PolicyKey := string.

Record KeyListNode := mkListNode { kn_key : PolicyKey; kn_prev : link; kn_next : link }.

#[export] Instance KeyListNode_links : Links KeyListNode := {|
  get_next := kn_next;
  set_next v n := mkListNode (kn_key n) (kn_prev n) v;
  get_prev := kn_prev;
  set_prev v n := mkListNode (kn_key n) v (kn_next n);
  get_set_next _ _ := eq_refl;
  get_set_prev _ _ := eq_refl;
  next_set_prev _ _ := eq_refl;
  prev_set_next _ _ := eq_refl
|}.

Record KeyArena := mkArena { a_nodes : list KeyListNode; a_free : list nat }.

(** [used] is a byte count for the policies that budget their lists. *)
Record KeyList := mkKeyList { l_head : link; l_tail : link; l_used : Z; l_len : Z }.

Definition new_arena : KeyArena := mkArena [] [].
Definition new_list : KeyList := mkKeyList None None 0 0.

(** [alloc]: the node released last, or a new one at the end. *)
Definition arena_alloc (key : PolicyKey) (a : KeyArena) : nat * KeyArena :=
  match last (a_free a) with
  | Some i => (i, mkArena (alter (fun _ => mkListNode key None None) i (a_nodes a)) (removelast (a_free a)))
  | None => (length (a_nodes a), mkArena (a_nodes a ++ [mkListNode key None None]) (a_free a))
  end.

Definition arena_release (i : nat) (a : KeyArena) : KeyArena :=
  mkArena (alter (fun _ => mkListNode "" None None) i (a_nodes a)) (a_free a ++ [i]).

Definition arena_key (a : KeyArena) (i : nat) : PolicyKey := default "" (kn_key <$> a_nodes a !! i).

(** The linking steps of Dll.v, with the length kept beside the ends. *)
Definition on_list (step : list KeyListNode * ends -> list KeyListNode * ends) (len : Z -> Z)
    (l : KeyList) (a : KeyArena) : KeyList * KeyArena :=
  let '(nodes, e) := step (a_nodes a, mkEnds (l_head l) (l_tail l)) in
  (mkKeyList (e_head e) (e_tail e) (l_used l) (len (l_len l)), mkArena nodes (a_free a)).

Definition list_link_front (l : KeyList) (i : nat) (a : KeyArena) : KeyList * KeyArena :=
  on_list (link_front i) (fun n => n +! 1) l a.
Definition list_link_back (l : KeyList) (i : nat) (a : KeyArena) : KeyList * KeyArena :=
  on_list (link_back i) (fun n => n +! 1) l a.
Definition list_unlink (l : KeyList) (i : nat) (a : KeyArena) : KeyList * KeyArena :=
  on_list (unlink i) (fun n => n -! 1) l a.

Definition with_used (f : Z -> Z) (l : KeyList) : KeyList :=
  mkKeyList (l_head l) (l_tail l) (f (l_used l)) (l_len l).

(** [collect_from_tail]: the loop stops after [size] keys. *)
Fixpoint collect_from (a : KeyArena) (cursor : link) (size : nat) : list PolicyKey :=
  match size, cursor with
  | S n, Some i => arena_key a i :: collect_from a (prev_of (a_nodes a) i) n
  | _, _ => []
  end.
Definition collect_from_tail (a : KeyArena) (l : KeyList) (size : nat) : list PolicyKey :=
  collect_from a (l_tail l) size.

(** ** Several lists in one arena *)

Definition list_ends (l : KeyList) : ends := mkEnds (l_head l) (l_tail l).

(** A node in use by nobody: neither linked nor free. *)
Definition loose {I} (a : KeyArena) (ns : I -> list nat) (i : nat) : Prop :=
  (i < length (a_nodes a))%nat /\ (i ∉ a_free a) /\ forall id, i ∉ ns id.

Record forest {I} (a : KeyArena) (L : I -> option KeyList) (ns : I -> list nat) : Prop := {
  f_spells : forall id l, L id = Some l -> spells (a_nodes a, list_ends l) (ns id);
  f_len : Z.of_nat (length (a_nodes a)) <= u64_max ->
    forall id l, L id = Some l -> l_len l = Z.of_nat (length (ns id));
  f_none : forall id, L id = None -> ns id = [];
  f_apart : forall id id' i, i ∈ ns id -> i ∈ ns id' -> id = id';
  f_free : NoDup (a_free a);
  f_free_in : forall i, i ∈ a_free a -> (i < length (a_nodes a))%nat /\ forall id, i ∉ ns id
}.

Section forest.
Context {I : Type} `{EqDecision I}.
Implicit Types (a : KeyArena) (L : I -> option KeyList) (ns : I -> list nat) (id : I).

Definition set_at {A} id (x : A) (f : I -> A) : I -> A := fun j => if decide (j = id) then x else f j.

Lemma set_at_eq {A} id (x : A) f : set_at id x f id = x.
Proof. unfold set_at. by rewrite decide_True. Qed.
Lemma set_at_ne {A} id (x : A) f j : j <> id -> set_at id x f j = f j.
Proof. intros. unfold set_at. by rewrite decide_False. Qed.
Lemma set_at_id {A} id (f : I -> A) j : set_at id (f id) f j = f j.
Proof. unfold set_at. by destruct (decide (j = id)) as [->|]. Qed.

(** A step on one list that touches only its own nodes and one loose node
    leaves the other lists as they were. *)
Record local_step a id L ns (a' : KeyArena) (l' : KeyList) (ms : list nat) : Prop := {
  ls_length : length (a_nodes a') = length (a_nodes a);
  ls_free : a_free a' = a_free a;
  ls_keys : kn_key <$> a_nodes a' = kn_key <$> a_nodes a;
  ls_spells : spells (a_nodes a', list_ends l') ms;
  ls_len : Z.of_nat (length (a_nodes a)) <= u64_max -> l_len l' = Z.of_nat (length ms);
  ls_nodes : forall i, i ∈ ms -> i ∈ ns id \/ loose a ns i;
  ls_rest : forall id' i, id' <> id -> i ∈ ns id' ->
    next_of (a_nodes a') i = next_of (a_nodes a) i /\ prev_of (a_nodes a') i = prev_of (a_nodes a) i
}.

Lemma local_step_forest a id L ns a' l' ms :
  is_Some (L id) -> forest a L ns -> local_step a id L ns a' l' ms ->
  forest a' (set_at id (Some l') L) (set_at id ms ns).
Proof.
  intros HL F [H1 H2 H3 H4 H5 H6 H7]. split.
  - intros j l Hj. destruct (decide (j = id)) as [->|Hne]; rewrite ?set_at_eq, ?set_at_ne in * by done.
    + by injection Hj as <-.
    + eapply spells_ext; [by symmetry| | |by apply F]; intros i Hi; by apply (H7 j i).
  - intros Hb j l Hj. rewrite H1 in Hb. destruct (decide (j = id)) as [->|Hne]; rewrite ?set_at_eq, ?set_at_ne in * by done.
    + injection Hj as <-. by apply H5.
    + by apply (f_len _ _ _ F).
  - intros j Hj. destruct (decide (j = id)) as [->|Hne]; rewrite ?set_at_eq, ?set_at_ne in * by done; [done|].
    by apply (f_none _ _ _ F).
  - intros j j' i. destruct (decide (j = id)) as [->|Hne], (decide (j' = id)) as [->|Hne'];
      rewrite ?set_at_eq, ?set_at_ne by done; intros Hi Hi'; [done| | |by eapply f_apart].
    + destruct (H6 i Hi) as [Hx|Hx]; [by eapply f_apart|]. by destruct (proj2 (proj2 Hx) j').
    + destruct (H6 i Hi') as [Hx|Hx]; [by eapply f_apart|]. by destruct (proj2 (proj2 Hx) j).
  - rewrite H2. apply F.
  - rewrite H2, H1. intros i Hi. destruct (f_free_in _ _ _ F i Hi) as [Hr Hn]. split; [done|]. intros j.
    destruct (decide (j = id)) as [->|Hne]; rewrite ?set_at_eq, ?set_at_ne by done; [|done].
    intros Hm. destruct (H6 i Hm) as [Hx|Hx]; [by apply (Hn id)|by apply (proj1 (proj2 Hx))].
Qed.

(** ** The steps *)

Lemma key_of_keys a a' i : kn_key <$> a_nodes a' = kn_key <$> a_nodes a -> arena_key a' i = arena_key a i.
Proof. intros H. unfold arena_key. by rewrite <- !list_lookup_fmap, H. Qed.

Lemma link_front_elsewhere (nodes : list KeyListNode) e l i j :
  spells (nodes, e) l -> j <> i -> j ∉ l ->
  next_of (link_front i (nodes, e)).1 j = next_of nodes j /\ prev_of (link_front i (nodes, e)).1 j = prev_of nodes j.
Proof.
  intros [_ _ Hh _ _] Hi Hl. cbn [snd] in Hh. unfold link_front. rewrite Hh. destruct l as [|h l]; cbn [head].
  - split; cbn [fst]; links; done.
  - assert (h <> j) by set_solver. split; cbn [fst]; links; done.
Qed.

Lemma link_back_elsewhere (nodes : list KeyListNode) e l i j :
  spells (nodes, e) l -> j <> i -> j ∉ l ->
  next_of (link_back i (nodes, e)).1 j = next_of nodes j /\ prev_of (link_back i (nodes, e)).1 j = prev_of nodes j.
Proof.
  intros [_ _ _ Ht _] Hi Hl. cbn [snd] in Ht. unfold link_back. rewrite Ht. destruct (last l) as [h|] eqn:El.
  - assert (h <> j) by (intros ->; apply Hl; by apply last_Some_elem_of). split; cbn [fst]; links; done.
  - split; cbn [fst]; links; done.
Qed.

Lemma unlink_elsewhere (nodes : list KeyListNode) e l1 l2 i j :
  spells (nodes, e) (l1 ++ i :: l2) -> j ∉ l1 ++ i :: l2 ->
  next_of (unlink i (nodes, e)).1 j = next_of nodes j /\ prev_of (unlink i (nodes, e)).1 j = prev_of nodes j.
Proof.
  intros [_ Hr _ _ Hs] Hl. cbn [fst snd] in *. pose proof (seg_next _ _ _ _ _ _ _ Hs) as En. pose proof (seg_prev _ _ _ _ _ _ _ Hs) as Ep.
  assert (forall x, next_of nodes i = Some x -> x ∈ l1 ++ i :: l2) as Hn.
  { intros x. rewrite En. destruct l2 as [|y l2]; [done|]. intros [= ->]. set_solver. }
  assert (forall x, prev_of nodes i = Some x -> x ∈ l1 ++ i :: l2) as Hp.
  { intros x. rewrite Ep. unfold last_or. destruct (last l1) eqn:El; [|done]. intros [= ->].
    apply elem_of_app. left. by apply last_Some_elem_of. }
  rewrite unlink_eq. cbn [fst]. assert (i <> j) by set_solver. split; links.
  - rewrite next_bridge; [|auto]. rewrite decide_False; [done|]. intros E. by apply Hl, Hp.
  - rewrite prev_bridge; [|auto]. rewrite decide_False; [done|]. intros E. by apply Hl, Hn.
Qed.

Lemma length_steps i (st : list KeyListNode * ends) :
  length (link_front i st).1 = length st.1 /\ length (link_back i st).1 = length st.1 /\ length (unlink i st).1 = length st.1.
Proof.
  assert (forall x y : list KeyListNode, kn_key <$> x = kn_key <$> y -> length x = length y) as H.
  { intros x y E. by rewrite <- (length_fmap kn_key x), E, length_fmap. }
  split_and!; apply H; [by apply frame_link_front|by apply frame_link_back|by apply frame_unlink].
Qed.

Lemma on_list_eq step len l a :
  on_list step len l a =
  (mkKeyList (e_head (step (a_nodes a, list_ends l)).2) (e_tail (step (a_nodes a, list_ends l)).2) (l_used l) (len (l_len l)),
   mkArena (step (a_nodes a, list_ends l)).1 (a_free a)).
Proof. unfold on_list, list_ends. by destruct (step _) as [? []]. Qed.

Lemma spells_on_list step len l a ms :
  spells (step (a_nodes a, list_ends l)) ms ->
  spells (a_nodes (on_list step len l a).2, list_ends (on_list step len l a).1) ms.
Proof. rewrite on_list_eq. unfold list_ends; cbn. by destruct (step _) as [? []]. Qed.

Lemma forest_fresh_len a L ns id l i :
  forest a L ns -> L id = Some l -> loose a ns i -> Z.of_nat (length (a_nodes a)) <= u64_max ->
  l_len l +! 1 = Z.of_nat (S (length (ns id))).
Proof.
  intros F HL [Hi [_ Hn]] Hb. rewrite (f_len _ _ _ F Hb id l HL).
  assert (spells (link_front i (a_nodes a, list_ends l)) (i :: ns id)) as Hs by (apply link_front_spells; [by apply F|done..]).
  destruct (link_front i (a_nodes a, list_ends l)) as [nodes' e'] eqn:E. apply spells_length in Hs.
  pose proof (proj1 (length_steps i (a_nodes a, list_ends l))) as Hl. rewrite E in Hl. cbn [fst length] in *.
  rewrite sat_add_exact; lia.
Qed.

Lemma local_link_front a L ns id l i :
  forest a L ns -> L id = Some l -> loose a ns i ->
  local_step a id L ns (list_link_front l i a).2 (list_link_front l i a).1 (i :: ns id).
Proof.
  intros F HL Hi. pose proof (f_spells _ _ _ F id l HL) as Hs. split.
  - unfold list_link_front. rewrite on_list_eq. apply length_steps.
  - unfold list_link_front. by rewrite on_list_eq.
  - unfold list_link_front. rewrite on_list_eq. by apply frame_link_front.
  - apply spells_on_list, link_front_spells; [done|apply Hi|apply Hi].
  - intros Hb. unfold list_link_front. rewrite on_list_eq. cbn [fst l_len length]. by eapply forest_fresh_len.
  - intros j [E|Hj]%elem_of_cons; [subst|]; auto.
  - intros id' j Hne Hj. unfold list_link_front. rewrite on_list_eq. cbn [snd a_nodes].
    eapply link_front_elsewhere; [exact Hs| |].
    + intros ->. by apply (proj2 (proj2 Hi) id').
    + intros Hj'. apply Hne. by eapply f_apart.
Qed.

Lemma local_link_back a L ns id l i :
  forest a L ns -> L id = Some l -> loose a ns i ->
  local_step a id L ns (list_link_back l i a).2 (list_link_back l i a).1 (ns id ++ [i]).
Proof.
  intros F HL Hi. pose proof (f_spells _ _ _ F id l HL) as Hs. split.
  - unfold list_link_back. rewrite on_list_eq. apply length_steps.
  - unfold list_link_back. by rewrite on_list_eq.
  - unfold list_link_back. rewrite on_list_eq. by apply frame_link_back.
  - apply spells_on_list, link_back_spells; [done|apply Hi|apply Hi].
  - intros Hb. unfold list_link_back. rewrite on_list_eq. cbn [fst l_len]. rewrite length_app, Nat.add_comm.
    by eapply forest_fresh_len.
  - intros j [Hj|E%list_elem_of_singleton]%elem_of_app; [|subst]; auto.
  - intros id' j Hne Hj. unfold list_link_back. rewrite on_list_eq. cbn [snd a_nodes].
    eapply link_back_elsewhere; [exact Hs| |].
    + intros ->. by apply (proj2 (proj2 Hi) id').
    + intros Hj'. apply Hne. by eapply f_apart.
Qed.

Lemma local_unlink a L ns id l l1 i l2 :
  forest a L ns -> L id = Some l -> ns id = l1 ++ i :: l2 ->
  local_step a id L ns (list_unlink l i a).2 (list_unlink l i a).1 (l1 ++ l2).
Proof.
  intros F HL En. pose proof (f_spells _ _ _ F id l HL) as Hs. rewrite En in Hs. split.
  - unfold list_unlink. rewrite on_list_eq. apply length_steps.
  - unfold list_unlink. by rewrite on_list_eq.
  - unfold list_unlink. rewrite on_list_eq. by apply frame_unlink.
  - by apply spells_on_list, unlink_spells.
  - intros Hb. unfold list_unlink. rewrite on_list_eq. cbn [fst l_len]. rewrite (f_len _ _ _ F Hb id l HL), En, !length_app.
    cbn [length]. rewrite sat_sub_exact; lia.
  - intros j Hj. left. rewrite En. set_solver.
  - intros id' j Hne Hj. unfold list_unlink. rewrite on_list_eq. cbn [snd a_nodes].
    eapply unlink_elsewhere; [exact Hs|]. intros Hj'. apply Hne. eapply f_apart; [done|exact Hj|]. by rewrite En.
Qed.

Lemma spells_alter (g : KeyListNode -> KeyListNode) (nodes : list KeyListNode) e l i :
  i ∉ l -> spells (nodes, e) l -> spells (alter g i nodes, e) l.
Proof.
  intros Hi. apply spells_ext; [by rewrite length_alter|..]; intros j Hj; unfold next_of, prev_of;
    rewrite list_lookup_alter_ne by (intros ->; done); done.
Qed.

Lemma spells_more (nodes : list KeyListNode) n e l : spells (nodes, e) l -> spells (nodes ++ [n], e) l.
Proof.
  intros [H1 H2 H3 H4 H5]. cbn [fst snd] in *. split; cbn [fst snd]; try done.
  - intros i Hi. rewrite length_app. specialize (H2 i Hi). cbn. lia.
  - eapply seg_ext; [| |exact H5]; intros j Hj; specialize (H2 j Hj); unfold next_of, prev_of;
      by rewrite lookup_app_l.
Qed.

Lemma forest_alloc key a L ns :
  forest a L ns ->
  forest (arena_alloc key a).2 L ns /\ loose (arena_alloc key a).2 ns (arena_alloc key a).1 /\
  arena_key (arena_alloc key a).2 (arena_alloc key a).1 = key /\
  forall id i, i ∈ ns id -> arena_key (arena_alloc key a).2 i = arena_key a i.
Proof.
  intros F. unfold arena_alloc. destruct (last (a_free a)) as [i|] eqn:El; cbn [fst snd].
  - apply last_Some in El as [fr Efr]. pose proof (f_free _ _ _ F) as Hnd. rewrite Efr in Hnd.
    apply NoDup_app in Hnd as (Hnd & Hx & _). destruct (f_free_in _ _ _ F i) as [Hr Hn]; [rewrite Efr; set_solver|].
    assert (removelast (a_free a) = fr) as Erl by (rewrite Efr; by rewrite removelast_last). rewrite Erl.
    split; [split|]; unfold loose, arena_key; cbn [a_nodes a_free]; rewrite ?length_alter; try apply F.
    + intros id l HL. apply spells_alter; [apply Hn|]. by apply F.
    + done.
    + intros j Hj. apply (f_free_in _ _ _ F). rewrite Efr. set_solver.
    + split_and!; [done|intros Hj; apply (Hx i Hj); set_solver|done| |].
      * rewrite list_lookup_alter_eq. by destruct (lookup_lt_is_Some_2 _ _ Hr) as [n ->].
      * intros id j Hj. rewrite list_lookup_alter_ne; [done|]. intros ->. by apply (Hn id).
  - apply last_None in El.
    split; [split|]; unfold loose, arena_key; cbn [a_nodes a_free]; rewrite ?length_app; cbn [length]; try apply F.
    + intros id l HL. by apply spells_more, F.
    + intros Hb id l HL. apply (f_len _ _ _ F); [lia|done].
    + rewrite El. intros j Hj. by apply elem_of_nil in Hj.
    + assert (forall id, length (a_nodes a) ∉ ns id) as Hn.
      { intros id Hi. destruct (L id) as [l|] eqn:EL.
        - pose proof (sp_range _ _ (f_spells _ _ _ F id l EL) _ Hi). cbn [fst] in *. lia.
        - rewrite (f_none _ _ _ F id EL) in Hi. by apply elem_of_nil in Hi. }
      split_and!; [lia|rewrite El; apply not_elem_of_nil|done| |].
      * by rewrite list_lookup_middle.
      * intros id j Hj. destruct (L id) as [l|] eqn:EL.
        -- pose proof (sp_range _ _ (f_spells _ _ _ F id l EL) _ Hj). cbn [fst] in *. by rewrite lookup_app_l.
        -- rewrite (f_none _ _ _ F id EL) in Hj. by apply elem_of_nil in Hj.
Qed.

Lemma forest_release i a L ns :
  forest a L ns -> loose a ns i ->
  forest (arena_release i a) L ns /\ forall id j, j ∈ ns id -> arena_key (arena_release i a) j = arena_key a j.
Proof.
  intros F (Hr & Hf & Hn). split.
  - unfold arena_release. split; cbn [a_nodes a_free]; rewrite ?length_alter; try apply F.
    + intros id l HL. apply spells_alter; [apply Hn|]. by apply F.
    + apply NoDup_app. split_and!; [apply F| |apply NoDup_singleton]. intros j Hj ->%list_elem_of_singleton. done.
    + intros j [Hj|E%list_elem_of_singleton]%elem_of_app; [by apply F|by subst].
  - intros id j Hj. unfold arena_key, arena_release. cbn [a_nodes]. rewrite list_lookup_alter_ne; [done|].
    intros ->. by apply (Hn id).
Qed.

(** What a node is loose from. *)
Lemma loose_unlinked a L ns id l l1 i l2 :
  forest a L ns -> L id = Some l -> ns id = l1 ++ i :: l2 ->
  loose (list_unlink l i a).2 (set_at id (l1 ++ l2) ns) i.
Proof.
  intros F HL En. pose proof (local_unlink a L ns id l l1 i l2 F HL En) as S. destruct (f_spells _ _ _ F id l HL) as [Hnd Hr _ _ _].
  rewrite En in Hnd, Hr. cbn [fst] in Hr. unfold loose. rewrite (ls_length _ _ _ _ _ _ _ S), (ls_free _ _ _ _ _ _ _ S). split_and!.
  - apply Hr. set_solver.
  - intros Hi. apply (proj2 (f_free_in _ _ _ F i Hi) id). rewrite En. set_solver.
  - intros j. destruct (decide (j = id)) as [->|Hne]; rewrite ?set_at_eq, ?set_at_ne by done.
    + apply NoDup_app in Hnd as (_ & Hx & Hc). apply NoDup_cons in Hc as [Hc _]. intros [Hi|Hi]%elem_of_app; [|done].
      apply (Hx i Hi). set_solver.
    + intros Hi. apply Hne. eapply f_apart; [done|exact Hi|]. rewrite En. set_solver.
Qed.
End forest.
