(* ===== verification/KeyedLists.v ===== *)
(** * Lists of keys with an index

    The replacement policies keep, beside the lists of an arena, a hash map
    from each key to its node.  [keyed] relates the arena, the lists and the
    map to what they mean: a family of key lists with no key in two places. *)

From S2P Require Import Prelude Dll KeyArena.

Section keyed.
Context {I : Type} `{EqDecision I}.
Implicit Types (a : KeyArena) (L : I -> option KeyList) (ns : I -> list nat) (id : I).
Implicit Types (ix : string -> option (I * nat)) (ks : I -> list string).

Definition without (k : string) (l : list string) : list string := filter (fun x => x <> k) l.

Definition set_key {A} (k : string) (x : A) (f : string -> A) : string -> A :=
  fun j => if decide (j = k) then x else f j.

Lemma set_key_eq {A} k (x : A) f : set_key k x f k = x.
Proof. unfold set_key. by rewrite decide_True. Qed.
Lemma set_key_ne {A} k (x : A) f j : j <> k -> set_key k x f j = f j.
Proof. intros. unfold set_key. by rewrite decide_False. Qed.

(** [ns] are the nodes of the lists, [ks] their keys. *)
Record keyed_by a L ix ks ns : Prop := {
  kb_forest : forest a L ns;
  kb_index : forall k id i, ix k = Some (id, i) <-> i ∈ ns id /\ arena_key a i = k;
  kb_keys : forall id, ks id = arena_key a <$> ns id
}.
Definition keyed a L ix ks : Prop := exists ns, keyed_by a L ix ks ns.

(** The byte counts of the lists are not part of the relation. *)
Definition same_list (l l' : option KeyList) : Prop :=
  match l, l' with
  | Some l, Some l' => list_ends l = list_ends l' /\ l_len l = l_len l'
  | None, None => True
  | _, _ => False
  end.

Lemma keyed_ext a L ix ks L' ix' ks' :
  (forall id, same_list (L id) (L' id)) -> (forall k, ix' k = ix k) -> (forall id, ks' id = ks id) ->
  keyed a L ix ks -> keyed a L' ix' ks'.
Proof.
  intros HL Hix Hks (ns & [F Hi Hk]). exists ns. split.
  - assert (forall id l', L' id = Some l' -> exists l, L id = Some l /\ list_ends l = list_ends l' /\ l_len l = l_len l') as HL'.
    { intros id l' E. specialize (HL id). rewrite E in HL. destruct (L id) as [l|]; [|done]. by exists l. }
    split; try apply F.
    + intros id l' (l & El & <- & _)%HL'. by apply F.
    + intros Hb id l' (l & El & _ & <-)%HL'. by apply F.
    + intros id E. apply (f_none _ _ _ F). specialize (HL id). rewrite E in HL. by destruct (L id).
  - intros k id i. by rewrite Hix.
  - intros id. by rewrite Hks.
Qed.

Lemma keyed_empty L : (forall id l, L id = Some l -> list_ends l = mkEnds None None /\ l_len l = 0) ->
  keyed new_arena L (fun _ => None) (fun _ => []).
Proof.
  intros HL. exists (fun _ => []). split; [split|..]; try done.
  - intros id l [E _]%HL. rewrite E. apply spells_nil.
  - by intros _ id l [_ E]%HL.
  - intros id id' i Hi. by apply elem_of_nil in Hi.
  - apply NoDup_nil_2.
  - intros i Hi. by apply elem_of_nil in Hi.
  - intros k id i. split; [done|]. intros [Hi _]. by apply elem_of_nil in Hi.
Qed.

Section facts.
Context a L ix ks (K : keyed a L ix ks).

Lemma keyed_mem k id : k ∈ ks id <-> exists i, ix k = Some (id, i).
Proof.
  destruct K as (ns & [F Hi Hk]). rewrite Hk, list_elem_of_fmap. split.
  - intros (i & -> & Hin). exists i. by apply Hi.
  - intros (i & [Hin E]%Hi). by exists i.
Qed.

Lemma keyed_none k : ix k = None <-> forall id, k ∉ ks id.
Proof.
  split.
  - intros E id (i & Hi)%keyed_mem. congruence.
  - intros Hn. destruct (ix k) as [[id i]|] eqn:E; [|done]. destruct (Hn id). apply keyed_mem. eauto.
Qed.

Lemma keyed_apart k id id' : k ∈ ks id -> k ∈ ks id' -> id = id'.
Proof. intros (i & Hi)%keyed_mem (i' & Hi')%keyed_mem. congruence. Qed.

Lemma keyed_nodup id : NoDup (ks id).
Proof.
  destruct K as (ns & [F Hi Hk]). rewrite Hk. apply NoDup_fmap_2_strong.
  - intros i j Hin Hjn E. destruct (Hi (arena_key a j) id i) as [_ H1]. destruct (Hi (arena_key a j) id j) as [_ H2].
    assert (Some (id, i) = Some (id, j)) by (rewrite <- H1, <- H2; done). congruence.
  - destruct (L id) as [l|] eqn:EL; [apply (f_spells _ _ _ F id l EL)|]. rewrite (f_none _ _ _ F id EL). constructor.
Qed.

Lemma keyed_tail id l : L id = Some l ->
  match l_tail l with
  | None => ks id = []
  | Some i => last (ks id) = Some (arena_key a i) /\ ix (arena_key a i) = Some (id, i)
  end.
Proof.
  destruct K as (ns & [F Hi Hk]). intros EL. destruct (f_spells _ _ _ F id l EL) as [_ _ _ Ht _]. cbn in Ht. rewrite Ht, Hk.
  destruct (last (ns id)) as [i|] eqn:El.
  - rewrite fmap_last, El. split; [done|]. apply Hi. split; [by apply last_Some_elem_of|done].
  - apply last_None in El. by rewrite El.
Qed.

Lemma keyed_head id l : L id = Some l ->
  match l_head l with
  | None => ks id = []
  | Some i => head (ks id) = Some (arena_key a i) /\ ix (arena_key a i) = Some (id, i)
  end.
Proof.
  destruct K as (ns & [F Hi Hk]). intros EL. destruct (f_spells _ _ _ F id l EL) as [_ _ Hh _ _]. cbn in Hh. rewrite Hh, Hk.
  destruct (ns id) as [|i rest] eqn:El; [done|]. cbn. split; [done|]. apply Hi. rewrite El. set_solver.
Qed.

Lemma keyed_index k id i : ix k = Some (id, i) -> arena_key a i = k /\ is_Some (L id).
Proof.
  destruct K as (ns & [F Hi Hk]). intros [Hin E]%Hi. split; [done|]. destruct (L id) eqn:EL; [done|].
  rewrite (f_none _ _ _ F id EL) in Hin. by apply elem_of_nil in Hin.
Qed.

Lemma keyed_length id l : Z.of_nat (length (a_nodes a)) <= u64_max -> L id = Some l -> l_len l = Z.of_nat (length (ks id)).
Proof. destruct K as (ns & [F Hi Hk]). intros Hb EL. rewrite Hk, length_fmap. by apply F. Qed.
End facts.

Lemma without_notin k l : k ∉ l -> without k l = l.
Proof.
  intros H. unfold without. induction l as [|x l IH]; [done|]. rewrite filter_cons, decide_True by set_solver.
  f_equal. apply IH. set_solver.
Qed.

Lemma elem_without k x l : x ∈ without k l <-> x ∈ l /\ x <> k.
Proof. unfold without. rewrite list_elem_of_filter. tauto. Qed.

Lemma without_split k l1 l2 : NoDup (l1 ++ k :: l2) -> without k (l1 ++ k :: l2) = l1 ++ l2.
Proof.
  intros (_ & Hx & Hc)%NoDup_app. apply NoDup_cons in Hc as [Hc _]. unfold without. rewrite filter_app, filter_cons, decide_False by auto.
  f_equal; apply without_notin; [|done]. intros H. apply (Hx k H). set_solver.
Qed.

(** ** Operations *)

Section operations.
Context a L ix ks (K : keyed a L ix ks).

(** Linking a new key into one list, in any position [place] gives it. *)
Lemma keyed_insert_step k id l (step : KeyList -> nat -> KeyArena -> KeyList * KeyArena) (place : list nat -> list nat)
    (place_key : list string -> list string) :
  (forall b ns i, forest b L ns -> loose b ns i ->
     local_step b id L ns (step l i b).2 (step l i b).1 (place (i :: ns id))) ->
  (forall i ms j, j ∈ place (i :: ms) <-> j = i \/ j ∈ ms) ->
  (forall (f : nat -> string) i ms, f <$> place (i :: ms) = place_key (f i :: (f <$> ms))) ->
  ix k = None -> L id = Some l ->
  let r := step l (arena_alloc k a).1 (arena_alloc k a).2 in
  keyed r.2 (set_at id (Some r.1) L) (set_key k (Some (id, (arena_alloc k a).1)) ix)
    (set_at id (place_key (k :: ks id)) ks).
Proof.
  destruct K as (ns & [F Hi Hk]). intros Hstep Hmem Hmap Ek EL. destruct (forest_alloc k a L ns F) as (F1 & Hl & Hkey & Hold).
  destruct (arena_alloc k a) as [i a1] eqn:Ea. cbn [fst snd] in *. pose proof (Hstep a1 ns i F1 Hl) as S.
  set (r := step l i a1) in *.
  pose proof (local_step_forest a1 id L ns _ _ _ (mk_is_Some _ _ EL) F1 S) as F2.
  assert (forall j, arena_key r.2 j = arena_key a1 j) as Hr by (intros; by apply key_of_keys, S).
  assert (forall id', i ∉ ns id') as Hni by (intros; apply Hl).
  exists (set_at id (place (i :: ns id)) ns). split; [done|..].
  - intros k' id' j. rewrite Hr. unfold set_key, set_at. destruct (decide (k' = k)) as [->|Hne].
    + split.
      * intros [= <- <-]. rewrite decide_True by done. split; [|done]. rewrite Hmem. auto.
      * intros [Hin E]. destruct (decide (id' = id)) as [->|Hid]; [rewrite Hmem in Hin; destruct Hin as [->|Hin]; [done|]|].
        -- rewrite (Hold _ _ Hin) in E. assert (ix k = Some (id, j)) by by apply Hi. congruence.
        -- rewrite (Hold _ _ Hin) in E. assert (ix k = Some (id', j)) by by apply Hi. congruence.
    + rewrite Hi. split.
      * intros [Hin E]. rewrite (Hold _ _ Hin). split; [|done]. destruct (decide (id' = id)) as [->|]; [|done]. rewrite Hmem. auto.
      * intros [Hin E]. destruct (decide (id' = id)) as [->|Hid]; [rewrite Hmem in Hin; destruct Hin as [->|Hin]; [congruence|]|];
          by rewrite (Hold _ _ Hin) in E.
  - intros id'. unfold set_at. destruct (decide (id' = id)) as [->|]; rewrite ?Hk.
    + rewrite Hmap. rewrite Hr, Hkey. do 2 f_equal. apply list_fmap_ext. intros x j Hj. rewrite Hr. symmetry. eapply Hold.
      by eapply list_elem_of_lookup_2.
    + apply list_fmap_ext. intros x j Hj. rewrite Hr. symmetry. eapply Hold. by eapply list_elem_of_lookup_2.
Qed.

Lemma keyed_insert_front k id l :
  ix k = None -> L id = Some l ->
  let r := list_link_front l (arena_alloc k a).1 (arena_alloc k a).2 in
  keyed r.2 (set_at id (Some r.1) L) (set_key k (Some (id, (arena_alloc k a).1)) ix) (set_at id (k :: ks id) ks).
Proof.
  intros Ek EL. apply (keyed_insert_step k id l list_link_front (fun x => x) (fun x => x)); try done.
  - intros b ns i F Hl. by apply local_link_front.
  - intros i ms j. by rewrite elem_of_cons.
Qed.

Lemma keyed_insert_back k id l :
  ix k = None -> L id = Some l ->
  let r := list_link_back l (arena_alloc k a).1 (arena_alloc k a).2 in
  keyed r.2 (set_at id (Some r.1) L) (set_key k (Some (id, (arena_alloc k a).1)) ix) (set_at id (ks id ++ [k]) ks).
Proof.
  intros Ek EL.
  apply (keyed_insert_step k id l list_link_back (fun x => match x with [] => [] | i :: ms => ms ++ [i] end)
           (fun x => match x with [] => [] | i :: ms => ms ++ [i] end)); try done.
  - intros b ns i F Hl. by apply local_link_back.
  - intros i ms j. rewrite elem_of_app, list_elem_of_singleton. tauto.
  - intros f i ms. by rewrite fmap_app.
Qed.

(** Taking the node of a key off its list leaves it loose. *)
Lemma keyed_unlink k id i l :
  ix k = Some (id, i) -> L id = Some l ->
  let r := list_unlink l i a in
  exists ms ns, loose r.2 (set_at id ms ns) i /\ arena_key r.2 i = k /\
    keyed_by r.2 (set_at id (Some r.1) L) (set_key k None ix) (set_at id (without k (ks id)) ks) (set_at id ms ns).
Proof.
  destruct K as (ns & [F Hi Hk]). intros Ek EL r. pose proof (keyed_nodup a L ix ks K id) as Hnd.
  apply Hi in Ek as Hin. destruct Hin as [Hin Ei]. apply list_elem_of_split in Hin as (l1 & l2 & En).
  pose proof (local_unlink a L ns id l l1 i l2 F EL En) as S. fold r in S.
  pose proof (local_step_forest a id L ns _ _ _ (mk_is_Some _ _ EL) F S) as F2.
  assert (forall j, arena_key r.2 j = arena_key a j) as Hr by (intros; by apply key_of_keys, S).
  assert (without k (ks id) = arena_key a <$> (l1 ++ l2)) as Ew.
  { rewrite Hk, En, fmap_app, fmap_cons, Ei in *. rewrite without_split; [by rewrite fmap_app|done]. }
  exists (l1 ++ l2), ns. split; [by apply (loose_unlinked a L ns id l)|]. split; [by rewrite Hr|]. split; [done|..].
  - intros k' id' j. rewrite Hr. unfold set_key. destruct (decide (k' = k)) as [->|Hne].
    + split; [done|]. intros [Hin E]. exfalso. assert (j ∈ ns id') as Hj.
      { unfold set_at in Hin. destruct (decide (id' = id)) as [->|]; [|done]. rewrite En. set_solver. }
      assert (ix k = Some (id', j)) by by apply Hi. simplify_eq.
      destruct (loose_unlinked a L ns id l l1 i l2 F EL En) as (_ & _ & Hl). by apply (Hl id).
    + rewrite Hi. unfold set_at. destruct (decide (id' = id)) as [->|]; [|done]. rewrite En. split; intros [Hin E]; (split; [|done]).
      * apply elem_of_app in Hin as [Hin|[->|Hin]%elem_of_cons]; [set_solver|congruence|set_solver].
      * set_solver.
  - intros id'. unfold set_at. destruct (decide (id' = id)) as [->|]; [rewrite Ew|rewrite Hk];
      apply list_fmap_ext; intros x j Hj; by rewrite Hr.
Qed.

Lemma keyed_remove k id i l :
  ix k = Some (id, i) -> L id = Some l ->
  let r := list_unlink l i a in
  keyed (arena_release i r.2) (set_at id (Some r.1) L) (set_key k None ix) (set_at id (without k (ks id)) ks).
Proof.
  intros Ek EL r. destruct (keyed_unlink k id i l Ek EL) as (ms & ns & Hl & _ & [F Hi Hk]). fold r in Hl, F, Hi, Hk.
  destruct (forest_release i r.2 _ _ F Hl) as [F' Hold]. exists (set_at id ms ns). split; [done|..].
  - intros k' id' j. rewrite Hi. split; intros [Hin E]; (split; [done|]); [by rewrite (Hold _ _ Hin)|by rewrite (Hold _ _ Hin) in E].
  - intros id'. rewrite Hk. apply list_fmap_ext. intros x j Hj. symmetry. eapply Hold. by eapply list_elem_of_lookup_2.
Qed.

(** Moving a key to the front of a list, its own or another. *)
Lemma keyed_move k id i l id2 l2 :
  ix k = Some (id, i) -> L id = Some l ->
  let r := list_unlink l i a in
  set_at id (Some r.1) L id2 = Some l2 ->
  let r2 := list_link_front l2 i r.2 in
  keyed r2.2 (set_at id2 (Some r2.1) (set_at id (Some r.1) L)) (set_key k (Some (id2, i)) ix)
    (set_at id2 (k :: set_at id (without k (ks id)) ks id2) (set_at id (without k (ks id)) ks)).
Proof.
  intros Ek EL r E2 r2. destruct (keyed_unlink k id i l Ek EL) as (ms & ns & Hl & Hik & [F Hi Hk]). fold r in Hl, F, Hi, Hk, Hik.
  pose proof (local_link_front r.2 _ _ id2 l2 i F E2 Hl) as S. fold r2 in S.
  pose proof (local_step_forest r.2 id2 _ _ _ _ _ (mk_is_Some _ _ E2) F S) as F2.
  assert (forall j, arena_key r2.2 j = arena_key r.2 j) as Hr by (intros; by apply key_of_keys, S).
  exists (set_at id2 (i :: set_at id ms ns id2) (set_at id ms ns)). split; [done|..].
  - intros k' id' j. rewrite Hr. unfold set_key at 1. destruct (decide (k' = k)) as [->|Hne].
    + split.
      * intros [= <- <-]. rewrite set_at_eq. split; [set_solver|done].
      * intros [Hin E]. destruct (decide (id' = id2)) as [->|Hid]; rewrite ?set_at_eq, ?(set_at_ne id2) in Hin by done.
        -- apply elem_of_cons in Hin as [->|Hin]; [done|]. assert (set_key k None ix k = Some (id2, j)) as X by by apply Hi.
           by rewrite set_key_eq in X.
        -- assert (set_key k None ix k = Some (id', j)) as X by by apply Hi. by rewrite set_key_eq in X.
    + specialize (Hi k' id' j). rewrite set_key_ne in Hi by done. rewrite Hi.
      destruct (decide (id' = id2)) as [->|Hid]; rewrite ?set_at_eq, ?(set_at_ne id2) by done; [|done].
      rewrite elem_of_cons. split; intros [Hin E]; (split; [|done]); [auto|]. destruct Hin as [->|]; [congruence|done].
  - intros id'. destruct (decide (id' = id2)) as [->|Hid]; rewrite ?set_at_eq, ?(set_at_ne id2) by done; rewrite Hk.
    + rewrite fmap_cons, Hr, Hik. f_equal. apply list_fmap_ext. intros; by rewrite Hr.
    + apply list_fmap_ext. intros; by rewrite Hr.
Qed.

Lemma collect_seg (nodes : list KeyListNode) fr n l x :
  seg (next_of nodes) (prev_of nodes) None l x ->
  collect_from (mkArena nodes fr) (last l) n = take n (arena_key (mkArena nodes fr) <$> reverse l).
Proof.
  revert n x. induction l as [|j l IH] using rev_ind; intros [|n] x Hs; try done. rewrite last_snoc, reverse_app. cbn.
  apply seg_app in Hs as [Hs (Hp & _)]. f_equal. rewrite Hp. unfold last_or. destruct (last l) eqn:El.
  - eapply IH. exact Hs.
  - apply last_None in El. subst l. by destruct n.
Qed.

Lemma keyed_collect id l n : L id = Some l -> collect_from_tail a l n = take n (reverse (ks id)).
Proof.
  destruct K as (ns & [F Hi Hk]). intros EL. destruct (f_spells _ _ _ F id l EL) as [_ _ _ Ht Hs]. cbn in Ht, Hs.
  unfold collect_from_tail. rewrite Ht, Hk. destruct a as [nodes fr]. cbn in *. erewrite collect_seg; [|exact Hs].
  by rewrite fmap_reverse.
Qed.
End operations.
End keyed.
