(* ===== verification/ArcList.v ===== *)
(** * Adaptive replacement

    [BaseLruList], [GhostLruList], [ArcList] and [ReplacementArc]
    (runtime/replacement.rs): four recency lists, two of keys whose data is
    cached and two of ghosts, with a target that follows the hits on ghosts. *)

From S2P Require Import Prelude Dll KeyArena.

(** ** One recency list *)

Record BaseLruList := mkLru {
  lru_capacity : Z;
  lru_arena : KeyArena;
  lru_list : KeyList;
  lru_index : gmap PolicyKey nat
}.

Definition lru_new (capacity : Z) : BaseLruList := mkLru capacity new_arena new_list ∅.
Definition lru_set_capacity (capacity : Z) (b : BaseLruList) : BaseLruList :=
  mkLru capacity (lru_arena b) (lru_list b) (lru_index b).
Definition lru_size (b : BaseLruList) : Z := Z.of_nat (size (lru_index b)).

(** [unlink] then [link_front] on the list of [b]. *)
Definition lru_refront (i : nat) (b : BaseLruList) : BaseLruList :=
  let '(l, a) := list_unlink (lru_list b) i (lru_arena b) in
  let '(l, a) := list_link_front l i a in
  mkLru (lru_capacity b) a l (lru_index b).

Definition lru_put (key : PolicyKey) (b : BaseLruList) : BaseLruList :=
  match lru_index b !! key with
  | Some i => lru_refront i b
  | None =>
      let '(i, a) := arena_alloc key (lru_arena b) in
      let '(l, a) := list_link_front (lru_list b) i a in
      mkLru (lru_capacity b) a l (<[key := i]> (lru_index b))
  end.

Definition lru_get (key : PolicyKey) (b : BaseLruList) : bool * BaseLruList :=
  match lru_index b !! key with
  | Some i => (true, lru_refront i b)
  | None => (false, b)
  end.

Definition lru_unlink_release (i : nat) (key : PolicyKey) (b : BaseLruList) : BaseLruList :=
  let '(l, a) := list_unlink (lru_list b) i (lru_arena b) in
  mkLru (lru_capacity b) (arena_release i a) l (delete key (lru_index b)).

Definition lru_delete (key : PolicyKey) (b : BaseLruList) : bool * BaseLruList :=
  match lru_index b !! key with
  | None => (false, b)
  | Some i => (true, lru_unlink_release i key b)
  end.

Definition lru_get_tail (n : nat) (b : BaseLruList) : list PolicyKey :=
  collect_from_tail (lru_arena b) (lru_list b) n.

Definition lru_evict_one (b : BaseLruList) : list PolicyKey * BaseLruList :=
  match l_tail (lru_list b) with
  | None => ([], b)
  | Some i => let key := arena_key (lru_arena b) i in ([key], lru_unlink_release i key b)
  end.

Fixpoint lru_evict_loop (fuel : nat) (b : BaseLruList) : list PolicyKey * BaseLruList :=
  match fuel with
  | O => ([], b)
  | S f =>
      if lru_size b <=? lru_capacity b then ([], b)
      else
        let '(popped, b) := lru_evict_one b in
        match popped with
        | [] => ([], b)
        | _ => let '(more, b) := lru_evict_loop f b in (popped ++ more, b)
        end
  end.

(** Each turn of the loop takes one entry out of the index. *)
Definition lru_evict (b : BaseLruList) : list PolicyKey * BaseLruList :=
  lru_evict_loop (size (lru_index b)) b.

Definition lru_reset (b : BaseLruList) : BaseLruList := mkLru (lru_capacity b) new_arena new_list ∅.

(** ** A list and the ghosts of what left it *)

Record GhostLruList := mkGhost { data_list : BaseLruList; ghost_list : BaseLruList }.

Definition ghost_new (capacity : Z) : GhostLruList := mkGhost (lru_new capacity) (lru_new capacity).
Definition ghost_set_capacity (capacity : Z) (g : GhostLruList) : GhostLruList :=
  mkGhost (lru_set_capacity capacity (data_list g)) (lru_set_capacity capacity (ghost_list g)).
Definition data_capacity (g : GhostLruList) : Z := lru_capacity (data_list g).
Definition data_size (g : GhostLruList) : Z := lru_size (data_list g).
Definition ghost_size (g : GhostLruList) : Z := lru_size (ghost_list g).
Definition ghost_total_size (g : GhostLruList) : Z := data_size g +! ghost_size g.

Definition ghost_put_data (key : PolicyKey) (g : GhostLruList) : GhostLruList :=
  mkGhost (lru_put key (data_list g)) (ghost_list g).
Definition put_ghost (key : PolicyKey) (g : GhostLruList) : GhostLruList :=
  mkGhost (data_list g) (lru_put key (ghost_list g)).

Definition ghost_get (key : PolicyKey) (g : GhostLruList) : bool * GhostLruList :=
  let '(hit, d) := lru_get key (data_list g) in
  if hit then (true, mkGhost d (ghost_list g))
  else (false, mkGhost d (snd (lru_get key (ghost_list g)))).

Definition ghost_delete (key : PolicyKey) (g : GhostLruList) : bool * GhostLruList :=
  let '(deleted_data, d) := lru_delete key (data_list g) in
  let '(deleted_ghost, h) := lru_delete key (ghost_list g) in
  (deleted_data || deleted_ghost, mkGhost d h).

(** What the data list evicts becomes a ghost. *)
Definition downgrade (g : GhostLruList) : GhostLruList :=
  let '(keys, d) := lru_evict_one (data_list g) in
  mkGhost d (fold_left (fun h key => lru_put key h) keys (ghost_list g)).

Definition evict_one_data (g : GhostLruList) : list PolicyKey * GhostLruList :=
  let '(keys, d) := lru_evict_one (data_list g) in (keys, mkGhost d (ghost_list g)).
Definition evict_one_ghost (g : GhostLruList) : list PolicyKey * GhostLruList :=
  let '(keys, h) := lru_evict_one (ghost_list g) in (keys, mkGhost (data_list g) h).

Definition ghost_evict (g : GhostLruList) : list PolicyKey * GhostLruList :=
  let '(_, h) := lru_evict (ghost_list g) in
  let '(keys, d) := lru_evict (data_list g) in
  (keys, mkGhost d h).

(** [GhostLruPopResult]: the key found, empty when it was in neither list, and
    whether it was a ghost. *)
Definition ghost_pop (key : PolicyKey) (g : GhostLruList) : PolicyKey * bool * GhostLruList :=
  let '(in_data, d) := lru_delete key (data_list g) in
  if in_data then (key, false, mkGhost d (ghost_list g))
  else
    let '(in_ghost, h) := lru_delete key (ghost_list g) in
    if in_ghost then (key, true, mkGhost d h) else ("", false, mkGhost d h).

Definition ghost_reset (g : GhostLruList) : GhostLruList :=
  mkGhost (lru_reset (data_list g)) (lru_reset (ghost_list g)).

(** ** The adaptive list *)

Record ArcList := mkArc { arc_capacity : Z; fetch_list : GhostLruList; active_list : GhostLruList }.

Definition arc_new (capacity : Z) : ArcList :=
  mkArc capacity (ghost_new (capacity / 2)) (ghost_new (capacity -! capacity / 2)).
Definition arc_set_capacity (capacity : Z) (t : ArcList) : ArcList :=
  mkArc capacity (fetch_list t) (active_list t).

Definition arc_size (t : ArcList) : Z := data_size (fetch_list t) +! data_size (active_list t).
Definition arc_ghost_size (t : ArcList) : Z := ghost_size (fetch_list t) +! ghost_size (active_list t).
Definition arc_total_size (t : ArcList) : Z := arc_size t +! arc_ghost_size t.
Definition data_full (t : ArcList) : bool := arc_capacity t <=? arc_size t.

Definition with_fetch (f : GhostLruList -> GhostLruList) (t : ArcList) : ArcList :=
  mkArc (arc_capacity t) (f (fetch_list t)) (active_list t).
Definition with_active (f : GhostLruList -> GhostLruList) (t : ArcList) : ArcList :=
  mkArc (arc_capacity t) (fetch_list t) (f (active_list t)).

Definition replace (key_in_active_ghost : bool) (t : ArcList) : ArcList :=
  let s := data_size (fetch_list t) in
  let p := data_capacity (fetch_list t) in
  if negb (s =? 0) && ((p <? s) || (key_in_active_ghost && (s =? p)))
  then with_fetch downgrade t
  else with_active downgrade t.

(** [ArcPopResult]: the key, empty when absent, whether it was in the active
    half and whether it was a ghost. *)
Definition arc_pop (key : PolicyKey) (t : ArcList) : PolicyKey * bool * bool * ArcList :=
  let '(item, is_ghost, f) := ghost_pop key (fetch_list t) in
  let t := mkArc (arc_capacity t) f (active_list t) in
  if negb (bool_decide (item = "")) then (item, false, is_ghost, t)
  else
    let '(item, is_ghost, a) := ghost_pop key (active_list t) in
    let t := mkArc (arc_capacity t) (fetch_list t) a in
    if negb (bool_decide (item = "")) then (item, true, is_ghost, t) else ("", false, false, t).

(** Move the target between the halves. *)
Definition set_target (p : Z) (t : ArcList) : ArcList :=
  with_active (ghost_set_capacity (arc_capacity t -! p)) (with_fetch (ghost_set_capacity p) t).

Definition access (key : PolicyKey) (t : ArcList) : bool * ArcList :=
  let '(item, is_active, is_ghost, t) := arc_pop key t in
  let c := arc_capacity t in
  if bool_decide (item = "") then
    let t :=
      if c <=? ghost_total_size (fetch_list t) then
        if data_size (fetch_list t) <? c
        then replace false (with_fetch (fun f => snd (evict_one_ghost f)) t)
        else with_fetch (fun f => snd (evict_one_data f)) t
      else if c <=? arc_total_size t then
        let t := if sat_mul c 2 <=? arc_total_size t
                 then with_active (fun a => snd (evict_one_ghost a)) t else t in
        replace false t
      else t in
    (false, with_fetch (ghost_put_data key) t)
  else if is_ghost then
    let p := data_capacity (fetch_list t) in
    if is_active then
      let b1 := ghost_size (fetch_list t) in
      let b2 := ghost_size (active_list t) +! 1 in
      let delta := Z.max 1 (b1 / Z.max b2 1) in
      (false, with_active (ghost_put_data key) (replace true (set_target (p -! delta) t)))
    else
      let b1 := ghost_size (fetch_list t) +! 1 in
      let b2 := ghost_size (active_list t) in
      let delta := Z.max 1 (b2 / Z.max b1 1) in
      (false, with_active (ghost_put_data key) (replace false (set_target (Z.min (p +! delta) c) t)))
  else (true, with_active (ghost_put_data key) t).

Definition arc_put (key : PolicyKey) (t : ArcList) : ArcList := snd (access key t).
Definition arc_get (key : PolicyKey) (t : ArcList) : bool * ArcList := access key t.

Definition arc_delete (key : PolicyKey) (t : ArcList) : bool * ArcList :=
  let '(deleted, f) := ghost_delete key (fetch_list t) in
  if deleted then (true, mkArc (arc_capacity t) f (active_list t))
  else
    let '(deleted, a) := ghost_delete key (active_list t) in
    (deleted, mkArc (arc_capacity t) f a).

Definition arc_evict (t : ArcList) : list PolicyKey * ArcList :=
  let '(from_fetch, f) := ghost_evict (fetch_list t) in
  let '(from_active, a) := ghost_evict (active_list t) in
  (from_fetch ++ from_active, mkArc (arc_capacity t) f a).

Definition arc_reset (t : ArcList) : ArcList :=
  mkArc (arc_capacity t) (ghost_reset (fetch_list t)) (ghost_reset (active_list t)).

Definition get_active_data_tail (n : nat) (t : ArcList) : list PolicyKey := lru_get_tail n (data_list (active_list t)).
Definition get_fetch_data_tail (n : nat) (t : ArcList) : list PolicyKey := lru_get_tail n (data_list (fetch_list t)).

(** ** The policy over it *)

Record ReplacementArc := mkReplacementArc { item_capacity : Z; arc_initialized : bool; arc_list : ArcList }.

Definition replacement_arc_new (capacity : Z) : ReplacementArc := mkReplacementArc capacity false (arc_new capacity).
Definition replacement_arc_init (r : ReplacementArc) : ReplacementArc :=
  mkReplacementArc (item_capacity r) true (arc_set_capacity (item_capacity r) (arc_list r)).
Definition replacement_arc_reset (r : ReplacementArc) : ReplacementArc :=
  mkReplacementArc (item_capacity r) false (arc_reset (arc_list r)).
Definition set_item_capacity (capacity : Z) (r : ReplacementArc) : ReplacementArc :=
  mkReplacementArc capacity (arc_initialized r) (arc_set_capacity capacity (arc_list r)).
Definition with_arc (t : ArcList) (r : ReplacementArc) : ReplacementArc :=
  mkReplacementArc (item_capacity r) (arc_initialized r) t.
Definition replacement_arc_put (key : PolicyKey) (r : ReplacementArc) : ReplacementArc :=
  if bool_decide (key = "") then r else with_arc (arc_put key (arc_list r)) r.
Definition replacement_arc_get (key : PolicyKey) (r : ReplacementArc) : bool * ReplacementArc :=
  let '(hit, t) := arc_get key (arc_list r) in (hit, with_arc t r).
Definition replacement_arc_delete (key : PolicyKey) (r : ReplacementArc) : bool * ReplacementArc :=
  let '(deleted, t) := arc_delete key (arc_list r) in (deleted, with_arc t r).
