(* ===== verification/ArcFacts.v ===== *)
(** * The recency lists of the adaptive policy: facts *)

From S2P Require Import Prelude Dll KeyArena KeyedLists ArcList.

(** The keys of a recency list, most recent first. *)
Definition lru_repr (b : BaseLruList) (ks : list PolicyKey) : Prop :=
  keyed (lru_arena b) (fun _ : unit => Some (lru_list b)) (fun k => pair tt <$> lru_index b !! k) (fun _ => ks).

Section lru.
Implicit Types (b : BaseLruList) (ks : list PolicyKey) (k : PolicyKey).

Lemma lru_repr_nodup b ks : lru_repr b ks -> NoDup ks.
Proof. intros K. by apply (keyed_nodup _ _ _ _ K tt). Qed.

Lemma lru_index_in b ks k : lru_repr b ks -> k ∈ ks <-> is_Some (lru_index b !! k).
Proof.
  intros K. pose proof (keyed_mem _ _ _ _ K k tt) as Hm. cbn beta in Hm. rewrite Hm. destruct (lru_index b !! k) as [i|]; cbn.
  - split; [done|]. by exists i.
  - split; [by intros [? ?]|by intros [? ?]].
Qed.

Lemma lru_index_notin b ks k : lru_repr b ks -> k ∉ ks <-> lru_index b !! k = None.
Proof. intros K. rewrite (lru_index_in b ks k K). by rewrite <- eq_None_not_Some. Qed.

Lemma lru_size_repr b ks : lru_repr b ks -> lru_size b = Z.of_nat (length ks).
Proof.
  intros K. unfold lru_size. f_equal. rewrite <- size_dom. rewrite <- (size_list_to_set (C := gset string) ks) by by eapply lru_repr_nodup.
  f_equal. apply set_eq. intros k. rewrite elem_of_dom, elem_of_list_to_set. symmetry. by apply lru_index_in.
Qed.

Lemma lru_new_repr c : lru_repr (lru_new c) [].
Proof. eapply keyed_ext; [| | |apply (keyed_empty (fun _ : unit => Some new_list))]; try done. by intros [] l [= <-]. Qed.

Lemma lru_reset_repr b : lru_repr (lru_reset b) [].
Proof. apply (lru_new_repr (lru_capacity b)). Qed.

Lemma lru_set_capacity_repr c b ks : lru_repr b ks -> lru_repr (lru_set_capacity c b) ks.
Proof. done. Qed.

(** One list: updating it at its only name is replacing it. *)
Lemma lru_repr_intro c a l ix L ix' (ks : unit -> list PolicyKey) ks' :
  keyed a L ix' ks -> L tt = Some l -> (forall k, pair tt <$> ix !! k = ix' k) -> ks tt = ks' ->
  lru_repr (mkLru c a l ix) ks'.
Proof.
  intros K EL Hix <-. eapply keyed_ext; [| | |exact K]; cbn; [|done|by intros []]. intros []. by rewrite EL.
Qed.

Lemma lru_refront_repr b ks k i :
  lru_repr b ks -> lru_index b !! k = Some i -> lru_repr (lru_refront i b) (k :: without k ks).
Proof.
  intros K Ek. unfold lru_refront. destruct (list_unlink (lru_list b) i (lru_arena b)) as [l1 a1] eqn:E1.
  destruct (list_link_front l1 i a1) as [l2 a2] eqn:E2.
  pose proof (keyed_move _ _ _ _ K k tt i (lru_list b) tt l1) as M. cbn beta in M. rewrite Ek, E1 in M. cbn [fst snd] in M. rewrite E2 in M.
  specialize (M eq_refl eq_refl eq_refl). cbn [fst snd] in M. eapply lru_repr_intro; [exact M|apply set_at_eq| |by rewrite !set_at_eq].
  intros j. destruct (decide (j = k)) as [->|Hne]; [by rewrite set_key_eq, Ek|by rewrite set_key_ne].
Qed.

Lemma lru_put_repr b ks k : lru_repr b ks -> lru_repr (lru_put k b) (k :: without k ks).
Proof.
  intros K. unfold lru_put. destruct (lru_index b !! k) as [i|] eqn:Ek; [by apply lru_refront_repr|].
  assert (k ∉ ks) as Hn by by apply (lru_index_notin b ks). rewrite without_notin by done.
  pose proof (keyed_insert_front _ _ _ _ K k tt (lru_list b)) as M. cbn beta in M. rewrite Ek in M.
  destruct (arena_alloc k (lru_arena b)) as [i a1] eqn:E1. cbn [fst snd] in M.
  destruct (list_link_front (lru_list b) i a1) as [l2 a2] eqn:E2. specialize (M eq_refl eq_refl). cbn [fst snd] in M.
  eapply lru_repr_intro; [exact M|apply set_at_eq| |by rewrite !set_at_eq].
  intros j. destruct (decide (j = k)) as [->|Hne]; [by rewrite set_key_eq, lookup_insert_eq|by rewrite set_key_ne, lookup_insert_ne].
Qed.

Lemma lru_unlink_repr b ks k i :
  lru_repr b ks -> lru_index b !! k = Some i -> lru_repr (lru_unlink_release i k b) (without k ks).
Proof.
  intros K Ek. unfold lru_unlink_release. destruct (list_unlink (lru_list b) i (lru_arena b)) as [l1 a1] eqn:E1.
  pose proof (keyed_remove _ _ _ _ K k tt i (lru_list b)) as M. cbn beta in M. rewrite Ek, E1 in M.
  specialize (M eq_refl eq_refl). cbn [fst snd] in M. eapply lru_repr_intro; [exact M|apply set_at_eq| |by rewrite !set_at_eq].
  intros j. destruct (decide (j = k)) as [->|Hne]; [by rewrite set_key_eq, lookup_delete_eq|by rewrite set_key_ne, lookup_delete_ne].
Qed.

Lemma lru_delete_repr b ks k :
  lru_repr b ks -> (lru_delete k b).1 = bool_decide (k ∈ ks) /\ lru_repr (lru_delete k b).2 (without k ks).
Proof.
  intros K. unfold lru_delete. destruct (lru_index b !! k) as [i|] eqn:Ek; cbn [fst snd].
  - split; [|by apply lru_unlink_repr]. rewrite bool_decide_eq_true_2; [done|]. rewrite (lru_index_in b ks k K). by rewrite Ek.
  - assert (k ∉ ks) by by apply (lru_index_notin b ks). rewrite bool_decide_eq_false_2, without_notin by done. done.
Qed.

Lemma lru_get_repr b ks k :
  lru_repr b ks -> (lru_get k b).1 = bool_decide (k ∈ ks) /\
  lru_repr (lru_get k b).2 (if bool_decide (k ∈ ks) then k :: without k ks else ks).
Proof.
  intros K. unfold lru_get. destruct (lru_index b !! k) as [i|] eqn:Ek; cbn [fst snd].
  - rewrite bool_decide_eq_true_2 by (rewrite (lru_index_in b ks k K); by rewrite Ek). split; [done|by apply lru_refront_repr].
  - rewrite bool_decide_eq_false_2 by by apply (lru_index_notin b ks). done.
Qed.

Lemma without_last ks k : NoDup ks -> last ks = Some k -> without k ks = removelast ks.
Proof.
  intros Hnd [l ->]%last_Some. rewrite removelast_last, without_split by done. by rewrite app_nil_r.
Qed.

Lemma lru_evict_one_repr b ks :
  lru_repr b ks -> (lru_evict_one b).1 = match last ks with Some k => [k] | None => [] end /\
  lru_repr (lru_evict_one b).2 (removelast ks).
Proof.
  intros K. pose proof (keyed_tail _ _ _ _ K tt (lru_list b) eq_refl) as Ht. unfold lru_evict_one. cbn beta in Ht.
  destruct (l_tail (lru_list b)) as [i|]; cbn [fst snd]; [|by subst ks].
  destruct Ht as [El Ex]. rewrite El. split; [done|].
  erewrite <- without_last by (done || by eapply lru_repr_nodup). apply lru_unlink_repr; [done|].
  by destruct (lru_index b !! _); cbn in Ex; simplify_eq.
Qed.

Lemma lru_capacity_evict_one b : lru_capacity (lru_evict_one b).2 = lru_capacity b.
Proof. unfold lru_evict_one, lru_unlink_release. destruct (l_tail _); [|done]. cbn. by destruct (list_unlink _ _ _). Qed.
Lemma lru_capacity_put k b : lru_capacity (lru_put k b) = lru_capacity b.
Proof.
  unfold lru_put, lru_refront. destruct (lru_index b !! k).
  - destruct (list_unlink _ _ _), (list_link_front _ _ _). done.
  - destruct (arena_alloc _ _), (list_link_front _ _ _). done.
Qed.
Lemma lru_capacity_delete k b : lru_capacity (lru_delete k b).2 = lru_capacity b.
Proof. unfold lru_delete, lru_unlink_release. destruct (lru_index b !! k); [|done]. cbn. by destruct (list_unlink _ _ _). Qed.

Lemma lru_evict_loop_repr fuel b ks :
  lru_repr b ks -> 0 <= lru_capacity b -> (length ks <= fuel + Z.to_nat (lru_capacity b))%nat ->
  (lru_evict_loop fuel b).1 = reverse (drop (Z.to_nat (lru_capacity b)) ks) /\
  lru_repr (lru_evict_loop fuel b).2 (take (Z.to_nat (lru_capacity b)) ks) /\
  lru_capacity (lru_evict_loop fuel b).2 = lru_capacity b.
Proof.
  intros K Hc Hf. revert b ks K Hc Hf. induction fuel as [|f IH]; intros b ks K Hc Hf; cbn [lru_evict_loop].
  - rewrite drop_ge, take_ge by lia. done.
  - rewrite (lru_size_repr b ks K). case_if; zbool.
    { rewrite drop_ge, take_ge by lia. done. }
    pose proof (lru_evict_one_repr b ks K) as [E1 K1]. pose proof (lru_capacity_evict_one b) as Ec.
    destruct (lru_evict_one b) as [popped b1]. cbn [fst snd] in *.
    destruct ks as [|k ks _] using rev_ind; [cbn [length] in *; lia|]. rewrite last_snoc in E1. subst popped.
    rewrite removelast_last in K1. rewrite length_app in *. cbn [length] in *.
    destruct (IH b1 ks K1) as (I1 & I2 & I3); [lia|lia|]. destruct (lru_evict_loop f b1) as [more b2]. cbn [fst snd] in *.
    rewrite Ec in *. rewrite drop_app_le, take_app_le by lia. rewrite reverse_app. split_and!; [by rewrite I1|done|done].
Qed.

Lemma lru_evict_repr b ks :
  lru_repr b ks -> 0 <= lru_capacity b ->
  (lru_evict b).1 = reverse (drop (Z.to_nat (lru_capacity b)) ks) /\
  lru_repr (lru_evict b).2 (take (Z.to_nat (lru_capacity b)) ks) /\ lru_capacity (lru_evict b).2 = lru_capacity b.
Proof.
  intros K Hc. apply lru_evict_loop_repr; [done|done|]. pose proof (lru_size_repr b ks K). unfold lru_size in *. lia.
Qed.

Lemma lru_tail_repr b ks n : lru_repr b ks -> lru_get_tail n b = take n (reverse ks).
Proof. intros K. by apply (keyed_collect _ _ _ _ K tt). Qed.
End lru.

(** ** The four lists *)

(** What the adaptive list means: recent keys, their ghosts, frequent keys,
    their ghosts, and the share meant for the recent ones. *)
Record arc_lists := mkLists { T1 : list PolicyKey; B1 : list PolicyKey; T2 : list PolicyKey; B2 : list PolicyKey; target : Z }.

Definition no_lists (p : Z) : arc_lists := mkLists [] [] [] [] p.
Definition size_of (l : list PolicyKey) : Z := Z.of_nat (length l).

Definition forget (k : PolicyKey) (m : arc_lists) : arc_lists :=
  mkLists (without k (T1 m)) (without k (B1 m)) (without k (T2 m)) (without k (B2 m)) (target m).

(** The last of a list becomes the first of its ghosts. *)
Definition retire_recent (m : arc_lists) : arc_lists :=
  match last (T1 m) with Some k => mkLists (removelast (T1 m)) (k :: B1 m) (T2 m) (B2 m) (target m) | None => m end.
Definition retire_frequent (m : arc_lists) : arc_lists :=
  match last (T2 m) with Some k => mkLists (T1 m) (B1 m) (removelast (T2 m)) (k :: B2 m) (target m) | None => m end.

(** Recent keys give way while they are over their target, frequent ones
    otherwise. *)
Definition make_way (for_frequent_ghost : bool) (m : arc_lists) : arc_lists :=
  if bool_decide (T1 m <> []) && ((target m <? size_of (T1 m)) || (for_frequent_ghost && (size_of (T1 m) =? target m)))
  then retire_recent m else retire_frequent m.

Definition push_recent (k : PolicyKey) (m : arc_lists) : arc_lists :=
  mkLists (k :: T1 m) (B1 m) (T2 m) (B2 m) (target m).
Definition push_frequent (k : PolicyKey) (m : arc_lists) : arc_lists :=
  mkLists (T1 m) (B1 m) (k :: T2 m) (B2 m) (target m).
Definition retarget (p : Z) (m : arc_lists) : arc_lists := mkLists (T1 m) (B1 m) (T2 m) (B2 m) p.

Definition recent_total (m : arc_lists) : Z := size_of (T1 m) + size_of (B1 m).
Definition cached_total (m : arc_lists) : Z := size_of (T1 m) + size_of (T2 m).
Definition lists_total (m : arc_lists) : Z := recent_total m + size_of (T2 m) + size_of (B2 m).

(** A key no list holds. *)
Definition adapt_miss (c : Z) (k : PolicyKey) (m : arc_lists) : arc_lists :=
  push_recent k
    (if c <=? recent_total m then
       if size_of (T1 m) <? c then make_way false (mkLists (T1 m) (removelast (B1 m)) (T2 m) (B2 m) (target m))
       else mkLists (removelast (T1 m)) (B1 m) (T2 m) (B2 m) (target m)
     else if c <=? lists_total m then
       make_way false (if 2 * c <=? lists_total m then mkLists (T1 m) (B1 m) (T2 m) (removelast (B2 m)) (target m) else m)
     else m).

(** Whether the key was cached, and the lists after the access.  The empty key
    counts as absent. *)
Definition adapt_access (c : Z) (k : PolicyKey) (m : arc_lists) : bool * arc_lists :=
  let gone := forget k m in
  if bool_decide (k <> "") && (bool_decide (k ∈ T1 m) || bool_decide (k ∈ T2 m)) then (true, push_frequent k gone)
  else if bool_decide (k <> "") && bool_decide (k ∈ B1 m) then
    (false, push_frequent k (make_way false (retarget (Z.min (target m + Z.max 1 (size_of (B2 m) / size_of (B1 m))) c) gone)))
  else if bool_decide (k <> "") && bool_decide (k ∈ B2 m) then
    (false, push_frequent k (make_way true (retarget (Z.max 0 (target m - Z.max 1 (size_of (B1 m) / size_of (B2 m)))) gone)))
  else (false, adapt_miss c k gone).

(** Trimming every list to its share. *)
Definition adapt_evict (c : Z) (m : arc_lists) : arc_lists :=
  let p := Z.to_nat (target m) in
  let q := Z.to_nat (c - target m) in
  mkLists (take p (T1 m)) (take p (B1 m)) (take q (T2 m)) (take q (B2 m)) (target m).

(** ** The bounds of the four lists *)

Definition all_keys (m : arc_lists) : list PolicyKey := T1 m ++ B1 m ++ T2 m ++ B2 m.

Record arc_ok (c : Z) (m : arc_lists) : Prop := {
  ok_nodup : NoDup (all_keys m);
  ok_recent : recent_total m <= c;
  ok_cached : cached_total m <= c;
  ok_total : lists_total m <= 2 * c;
  ok_target : 0 <= target m <= c
}.

Lemma shrink_nodup m T1' B1' T2' B2' p :
  T1' `sublist_of` T1 m -> B1' `sublist_of` B1 m -> T2' `sublist_of` T2 m -> B2' `sublist_of` B2 m ->
  NoDup (all_keys m) -> NoDup (all_keys (mkLists T1' B1' T2' B2' p)).
Proof. intros H1 H2 H3 H4 Hn. eapply sublist_NoDup; [exact Hn|]. unfold all_keys; cbn. by repeat apply sublist_app. Qed.

Lemma sublist_removelast {A} (l : list A) : removelast l `sublist_of` l.
Proof.
  destruct l as [|x l _] using rev_ind; [done|]. rewrite removelast_last. rewrite <- (app_nil_r l) at 1.
  apply sublist_app; [done|apply sublist_nil_l].
Qed.

Lemma size_removelast (l : list PolicyKey) : size_of (removelast l) = Z.max 0 (size_of l - 1).
Proof.
  unfold size_of. destruct l as [|x l _] using rev_ind; [done|]. rewrite removelast_last, length_app. cbn. lia.
Qed.

Lemma size_nonneg l : 0 <= size_of l.
Proof. unfold size_of. lia. Qed.
Lemma size_cons k l : size_of (k :: l) = size_of l + 1.
Proof. unfold size_of. cbn [length]. lia. Qed.

Lemma size_zero l : size_of l = 0 <-> l = [].
Proof. unfold size_of. destruct l; cbn [length]; split; intros; (done || lia). Qed.

Lemma size_without k l : NoDup l -> size_of (without k l) = size_of l - (if bool_decide (k ∈ l) then 1 else 0).
Proof.
  intros Hn. case_bool_decide as Hk; [|rewrite without_notin by done; lia].
  apply list_elem_of_split in Hk as (l1 & l2 & ->). rewrite without_split by done. unfold size_of. rewrite !length_app. cbn. lia.
Qed.

Lemma all_nodup m : NoDup (all_keys m) -> NoDup (T1 m) /\ NoDup (B1 m) /\ NoDup (T2 m) /\ NoDup (B2 m).
Proof. unfold all_keys. rewrite !NoDup_app. tauto. Qed.

Lemma forget_absent k m : k ∉ all_keys (forget k m).
Proof. unfold all_keys, forget; cbn. rewrite !elem_of_app, !elem_without. tauto. Qed.

Lemma forget_nodup k m : NoDup (all_keys m) -> NoDup (all_keys (forget k m)).
Proof. apply shrink_nodup; apply sublist_filter. Qed.

Lemma retire_recent_perm m : all_keys (retire_recent m) ≡ₚ all_keys m.
Proof.
  unfold retire_recent, all_keys. destruct (last (T1 m)) as [k|] eqn:El; [|done]. apply last_Some in El as [l ->]. cbn.
  rewrite removelast_last. solve_Permutation.
Qed.
Lemma retire_frequent_perm m : all_keys (retire_frequent m) ≡ₚ all_keys m.
Proof.
  unfold retire_frequent, all_keys. destruct (last (T2 m)) as [k|] eqn:El; [|done]. apply last_Some in El as [l ->]. cbn.
  rewrite removelast_last. solve_Permutation.
Qed.
Lemma make_way_perm b m : all_keys (make_way b m) ≡ₚ all_keys m.
Proof. unfold make_way. case_if; [apply retire_recent_perm|apply retire_frequent_perm]. Qed.

Lemma make_way_sizes b m :
  target (make_way b m) = target m /\ recent_total (make_way b m) = recent_total m /\
  lists_total (make_way b m) = lists_total m /\
  (cached_total (make_way b m) = cached_total m - 1 \/
   cached_total (make_way b m) = cached_total m /\ size_of (T2 m) = 0 /\
   (size_of (T1 m) = 0 \/ size_of (T1 m) <= target m /\ (b = true -> size_of (T1 m) < target m))).
Proof.
  unfold make_way. destruct (_ && _) eqn:E.
  - apply andb_prop in E as [E _]. zbool. unfold retire_recent, recent_total, lists_total, cached_total, recent_total.
    destruct (last (T1 m)) as [k|] eqn:El; [|by apply last_None in El]. cbn. rewrite size_cons, size_removelast.
    apply last_Some in El as [l ->]. unfold size_of. rewrite length_app. cbn. lia.
  - apply andb_false_iff in E. unfold retire_frequent, recent_total, lists_total, cached_total, recent_total.
    destruct (last (T2 m)) as [k|] eqn:El.
    + cbn. rewrite size_cons, size_removelast. apply last_Some in El as [l ->]. unfold size_of. rewrite length_app. cbn. lia.
    + apply last_None in El. rewrite El. split_and!; try done. right. split_and!; try done. destruct E as [E|E].
      * zbool. left. apply size_zero. destruct (T1 m); [done|]. exfalso. by apply E.
      * apply orb_false_elim in E as [E1 E2]. zbool. right. split; [lia|]. intros ->. cbn in E2. zbool. lia.
Qed.

Definition ind (b : bool) : Z := if b then 1 else 0.

Lemma forget_sizes k m : NoDup (all_keys m) ->
  size_of (T1 (forget k m)) = size_of (T1 m) - ind (bool_decide (k ∈ T1 m)) /\
  size_of (B1 (forget k m)) = size_of (B1 m) - ind (bool_decide (k ∈ B1 m)) /\
  size_of (T2 (forget k m)) = size_of (T2 m) - ind (bool_decide (k ∈ T2 m)) /\
  size_of (B2 (forget k m)) = size_of (B2 m) - ind (bool_decide (k ∈ B2 m)).
Proof. intros (H1 & H2 & H3 & H4)%all_nodup. unfold forget, ind; cbn. by rewrite !size_without. Qed.

Lemma one_place k m : NoDup (all_keys m) ->
  ind (bool_decide (k ∈ T1 m)) + ind (bool_decide (k ∈ B1 m)) + ind (bool_decide (k ∈ T2 m)) + ind (bool_decide (k ∈ B2 m)) <= 1.
Proof.
  unfold all_keys. rewrite !NoDup_app. intros (_ & H1 & _ & H2 & _ & H3 & _). unfold ind.
  specialize (H1 k). specialize (H2 k). specialize (H3 k). rewrite !elem_of_app in *.
  repeat case_bool_decide; (lia || exfalso; tauto).
Qed.

Lemma arc_ok_grow c k m m' :
  arc_ok c m -> k ∉ all_keys m -> all_keys m' ≡ₚ k :: all_keys m ->
  recent_total m' <= c -> cached_total m' <= c -> lists_total m' <= 2 * c -> target m' = target m -> arc_ok c m'.
Proof.
  intros [H1 H2 H3 H4 H5] Hk Hp G1 G2 G3 G4. split; [|done..|by rewrite G4].
  rewrite Hp. by apply NoDup_cons.
Qed.

Ltac totals := unfold cached_total, lists_total, recent_total in *; cbn [T1 B1 T2 B2 target] in *;
  rewrite ?size_cons, ?size_removelast in *.

Lemma push_recent_perm k m : all_keys (push_recent k m) ≡ₚ k :: all_keys m.
Proof. unfold all_keys; cbn. solve_Permutation. Qed.
Lemma push_frequent_perm k m : all_keys (push_frequent k m) ≡ₚ k :: all_keys m.
Proof. unfold all_keys; cbn. solve_Permutation. Qed.

Lemma absent_perm k (l l' : list PolicyKey) : l' ≡ₚ l -> k ∉ l -> k ∉ l'.
Proof. intros E. by rewrite E. Qed.
Lemma absent_sublist k (l l' : list PolicyKey) : l' `sublist_of` l -> k ∉ l -> k ∉ l'.
Proof. intros E H Hk. apply H. by eapply elem_of_sublist. Qed.

Lemma adapt_miss_ok c k m : 1 <= c -> arc_ok c m -> k ∉ all_keys m -> arc_ok c (adapt_miss c k m).
Proof.
  intros Hc Hok Hk. unfold adapt_miss.
  assert (forall x, NoDup (all_keys x) -> (k ∉ all_keys x) -> recent_total x + 1 <= c -> cached_total x + 1 <= c ->
            lists_total x + 1 <= 2 * c -> target x = target m -> arc_ok c (push_recent k x)) as Hgo.
  { intros x N1 N2 G1 G2 G3 G4. pose proof (ok_target c m Hok). eapply (arc_ok_grow c k x); [split| |apply push_recent_perm|..];
      unfold push_recent; totals; try done; lia. }
  destruct Hok as [H1 H2 H3 H4 H5]. pose proof (size_nonneg (T1 m)). pose proof (size_nonneg (T2 m)).
  pose proof (size_nonneg (B1 m)). pose proof (size_nonneg (B2 m)).
  destruct (c <=? recent_total m) eqn:E1; zbool; [destruct (size_of (T1 m) <? c) eqn:E2; zbool|].
  - set (m1 := mkLists (T1 m) (removelast (B1 m)) (T2 m) (B2 m) (target m)).
    assert (all_keys m1 `sublist_of` all_keys m) as Hs.
    { unfold all_keys; cbn. apply sublist_app; [done|]. apply sublist_app; [apply sublist_removelast|done]. }
    pose proof (make_way_perm false m1) as Hp. pose proof (make_way_sizes false m1) as (S1 & S2 & S3 & S4).
    apply Hgo; [rewrite Hp; by eapply sublist_NoDup|eapply absent_perm; [exact Hp|by eapply absent_sublist]|..];
      unfold m1 in *; totals; try lia; done.
  - set (m1 := mkLists (removelast (T1 m)) (B1 m) (T2 m) (B2 m) (target m)).
    assert (all_keys m1 `sublist_of` all_keys m) as Hs.
    { unfold all_keys; cbn. apply sublist_app; [apply sublist_removelast|done]. }
    apply Hgo; [by eapply sublist_NoDup|by eapply absent_sublist|..]; unfold m1; totals; try lia; done.
  - destruct (c <=? lists_total m) eqn:E3; zbool.
    + set (m1 := if 2 * c <=? lists_total m then mkLists (T1 m) (B1 m) (T2 m) (removelast (B2 m)) (target m) else m).
      assert (all_keys m1 `sublist_of` all_keys m) as Hs.
      { unfold m1. case_if; [|done]. unfold all_keys; cbn. repeat apply sublist_app; try done. apply sublist_removelast. }
      assert (T1 m1 = T1 m /\ T2 m1 = T2 m /\ B1 m1 = B1 m /\ target m1 = target m) as (Q1 & Q2 & Q3 & Q4) by (unfold m1; by case_if).
      assert (lists_total m1 + 1 <= 2 * c) as Q5 by (unfold m1; case_if; zbool; totals; lia).
      pose proof (make_way_perm false m1) as Hp. pose proof (make_way_sizes false m1) as (S1 & S2 & S3 & S4).
      apply Hgo; [rewrite Hp; by eapply sublist_NoDup|eapply absent_perm; [exact Hp|by eapply absent_sublist]|..];
        totals; rewrite ?Q1, ?Q2, ?Q3, ?Q4 in *; try lia.
    + apply Hgo; try done; totals; lia.
Qed.

Lemma forget_ok c k m : arc_ok c m -> arc_ok c (forget k m).
Proof.
  intros [H1 H2 H3 H4 H5]. pose proof (forget_sizes k m H1) as (S1 & S2 & S3 & S4). unfold ind in *.
  split; [by apply forget_nodup|..|done]; unfold cached_total, lists_total, recent_total in *;
    repeat case_bool_decide; lia.
Qed.

Lemma adapt_evict_ok c m : arc_ok c m -> arc_ok c (adapt_evict c m).
Proof.
  intros [H1 H2 H3 H4 H5]. unfold adapt_evict. split; [eapply shrink_nodup; [apply sublist_take..|done]|..|done];
    totals; unfold size_of in *; rewrite !length_take; lia.
Qed.

(** A ghost hit: the key goes to the frequent ones after room was made. *)
Lemma ghost_hit_ok c k b m :
  arc_ok c m -> (k ∉ all_keys m) -> lists_total m + 1 <= 2 * c -> 1 <= c -> (b = false -> recent_total m + 1 <= c) ->
  arc_ok c (push_frequent k (make_way b m)).
Proof.
  intros [H1 H2 H3 H4 H5] Hk Ht Hc Hr. pose proof (make_way_perm b m) as Hp. pose proof (make_way_sizes b m) as (S1 & S2 & S3 & S4).
  pose proof (size_nonneg (T1 m)). pose proof (size_nonneg (T2 m)). pose proof (size_nonneg (B1 m)). pose proof (size_nonneg (B2 m)).
  eapply (arc_ok_grow c k (make_way b m)); [split| |apply push_frequent_perm|..]; unfold push_frequent; try done; totals; try lia;
    rewrite ?Hp; try done.
  destruct b; lia.
Qed.

Lemma adapt_access_ok c k m : 1 <= c -> arc_ok c m -> arc_ok c (adapt_access c k m).2.
Proof.
  intros Hc Hok. pose proof (forget_ok c k m Hok) as Hf. pose proof (forget_absent k m) as Ha. pose proof (one_place k m (ok_nodup c m Hok)) as H1.
  pose proof (forget_sizes k m (ok_nodup c m Hok)) as (S1 & S2 & S3 & S4). destruct Hok as [N1 N2 N3 N4 N5].
  pose proof (size_nonneg (T1 m)). pose proof (size_nonneg (T2 m)). pose proof (size_nonneg (B1 m)). pose proof (size_nonneg (B2 m)).
  unfold adapt_access, ind in *. destruct (bool_decide (k <> "")) eqn:Ek; cbn [andb]; [|by apply adapt_miss_ok].
  assert (forall p, 0 <= p <= c -> arc_ok c (retarget p (forget k m))) as Hre by (intros p Hp; destruct Hf; by split).
  destruct (bool_decide (k ∈ T1 m)) eqn:E1, (bool_decide (k ∈ T2 m)) eqn:E2, (bool_decide (k ∈ B1 m)) eqn:E3,
    (bool_decide (k ∈ B2 m)) eqn:E4; cbn [orb snd]; try lia; try (by apply adapt_miss_ok).
  - eapply (arc_ok_grow c k (forget k m)); [done|done|apply push_frequent_perm|..]; unfold push_frequent;
      unfold cached_total, lists_total, recent_total in *; cbn [T1 B1 T2 B2 target]; rewrite ?size_cons; try lia; done.
  - eapply (arc_ok_grow c k (forget k m)); [done|done|apply push_frequent_perm|..]; unfold push_frequent;
      unfold cached_total, lists_total, recent_total in *; cbn [T1 B1 T2 B2 target]; rewrite ?size_cons; try lia; done.
  - apply ghost_hit_ok; [apply Hre; lia|done| |done|]; unfold cached_total, lists_total, recent_total in *; cbn [T1 B1 T2 B2 retarget]; lia.
  - apply ghost_hit_ok; [apply Hre; lia|done| |done|done]; unfold cached_total, lists_total, recent_total in *; cbn [T1 B1 T2 B2 retarget]; lia.
Qed.
