(* ===== verification/ArcSpec.v ===== *)
(** * The adaptive policy: what it promises *)

From S2P Require Import Prelude Dll KeyArena KeyedLists ArcList ArcFacts.

(** ** Simulation *)

Record ghost_repr (g : GhostLruList) (d h : list PolicyKey) (p : Z) : Prop := {
  gr_data : lru_repr (data_list g) d;
  gr_ghost : lru_repr (ghost_list g) h;
  gr_cap : lru_capacity (data_list g) = p;
  gr_gcap : lru_capacity (ghost_list g) = p
}.

Section ghost.
Context (g : GhostLruList) (d h : list PolicyKey) (p : Z) (G : ghost_repr g d h p).

Lemma ghost_sizes : data_size g = size_of d /\ ghost_size g = size_of h.
Proof. destruct G as [H1 H2 _ _]. split; by apply lru_size_repr. Qed.

Lemma ghost_put_repr k : k ∉ d -> ghost_repr (ghost_put_data k g) (k :: d) h p.
Proof.
  intros Hk. destruct G as [H1 H2 H3 H4]. split; cbn; try done; [|by rewrite lru_capacity_put].
  rewrite <- (without_notin k d Hk) at 1. by apply lru_put_repr.
Qed.

Lemma evict_one_data_repr : ghost_repr (evict_one_data g).2 (removelast d) h p.
Proof.
  destruct G as [H1 H2 H3 H4]. pose proof (lru_evict_one_repr _ _ H1) as [_ K]. pose proof (lru_capacity_evict_one (data_list g)).
  unfold evict_one_data. destruct (lru_evict_one (data_list g)); cbn in *. split; cbn; congruence.
Qed.
Lemma evict_one_ghost_repr : ghost_repr (evict_one_ghost g).2 d (removelast h) p.
Proof.
  destruct G as [H1 H2 H3 H4]. pose proof (lru_evict_one_repr _ _ H2) as [_ K]. pose proof (lru_capacity_evict_one (ghost_list g)).
  unfold evict_one_ghost. destruct (lru_evict_one (ghost_list g)); cbn in *. split; cbn; congruence.
Qed.

Lemma downgrade_repr : (forall k, k ∈ d -> k ∉ h) ->
  ghost_repr (downgrade g) (removelast d) (match last d with Some k => k :: h | None => h end) p.
Proof.
  intros Ha. destruct G as [H1 H2 H3 H4]. pose proof (lru_evict_one_repr _ _ H1) as [E K]. pose proof (lru_capacity_evict_one (data_list g)).
  unfold downgrade. destruct (lru_evict_one (data_list g)) as [keys b]; cbn in *. subst keys.
  destruct (last d) as [k|] eqn:El; cbn; split; cbn; try done; try congruence; [|by rewrite lru_capacity_put].
  rewrite <- (without_notin k h) at 1; [by apply lru_put_repr|]. apply Ha. by apply last_Some_elem_of.
Qed.

Lemma ghost_set_capacity_repr q : ghost_repr (ghost_set_capacity q g) d h q.
Proof. destruct G as [H1 H2 H3 H4]. by split. Qed.

Lemma ghost_pop_repr k : (k ∈ d -> k ∉ h) ->
  (ghost_pop k g).1 = (if bool_decide (k ∈ d) || bool_decide (k ∈ h) then k else "", negb (bool_decide (k ∈ d)) && bool_decide (k ∈ h)) /\
  ghost_repr (ghost_pop k g).2 (without k d) (without k h) p.
Proof.
  intros Ha. destruct G as [H1 H2 H3 H4]. unfold ghost_pop. destruct (lru_delete_repr _ _ k H1) as [E1 K1].
  destruct (lru_delete_repr _ _ k H2) as [E2 K2].
  pose proof (lru_capacity_delete k (data_list g)). pose proof (lru_capacity_delete k (ghost_list g)).
  destruct (lru_delete k (data_list g)) as [x1 b1], (lru_delete k (ghost_list g)) as [x2 b2]; cbn in *. subst.
  destruct (bool_decide (k ∈ d)) eqn:D1; cbn; [split; [done|]|destruct (bool_decide (k ∈ h)) eqn:D2; cbn; (split; [done|])];
    split; cbn; try done; try congruence.
  zbool. by rewrite without_notin by auto.
Qed.

Lemma ghost_delete_repr k :
  (ghost_delete k g).1 = bool_decide (k ∈ d) || bool_decide (k ∈ h) /\ ghost_repr (ghost_delete k g).2 (without k d) (without k h) p.
Proof.
  destruct G as [H1 H2 H3 H4]. unfold ghost_delete. destruct (lru_delete_repr _ _ k H1) as [E1 K1]. destruct (lru_delete_repr _ _ k H2) as [E2 K2].
  pose proof (lru_capacity_delete k (data_list g)). pose proof (lru_capacity_delete k (ghost_list g)).
  destruct (lru_delete k (data_list g)) as [x1 b1], (lru_delete k (ghost_list g)) as [x2 b2]; cbn in *. subst. split; [done|].
  split; cbn; congruence.
Qed.

Lemma ghost_evict_repr : 0 <= p ->
  (ghost_evict g).1 = reverse (drop (Z.to_nat p) d) /\ ghost_repr (ghost_evict g).2 (take (Z.to_nat p) d) (take (Z.to_nat p) h) p.
Proof.
  intros Hp. destruct G as [H1 H2 H3 H4]. unfold ghost_evict.
  destruct (lru_evict_repr _ _ H1) as (E1 & K1 & C1); [lia|]. destruct (lru_evict_repr _ _ H2) as (E2 & K2 & C2); [lia|].
  destruct (lru_evict (ghost_list g)), (lru_evict (data_list g)); cbn in *. rewrite H3, H4 in *. split; [done|]. split; cbn; congruence.
Qed.

Lemma ghost_reset_repr : ghost_repr (ghost_reset g) [] [] p.
Proof. destruct G as [H1 H2 H3 H4]. split; cbn; try done; apply lru_reset_repr. Qed.
End ghost.

Record arc_repr (c : Z) (t : ArcList) (m : arc_lists) : Prop := {
  ar_capacity : arc_capacity t = c;
  ar_fetch : ghost_repr (fetch_list t) (T1 m) (B1 m) (target m);
  ar_active : ghost_repr (active_list t) (T2 m) (B2 m) (c - target m)
}.

Lemma arc_apart m k : NoDup (all_keys m) ->
  (k ∈ T1 m -> k ∉ B1 m) /\ (k ∈ T2 m -> k ∉ B2 m) /\ (k ∈ T1 m \/ k ∈ B1 m -> k ∉ T2 m /\ k ∉ B2 m).
Proof.
  unfold all_keys. rewrite !NoDup_app. intros (_ & H1 & _ & H2 & _ & H3 & _).
  specialize (H1 k). specialize (H2 k). specialize (H3 k). rewrite !elem_of_app in *. tauto.
Qed.

Section arc.
Context (c : Z).
Implicit Types (t : ArcList) (m : arc_lists) (k : PolicyKey).

Lemma replace_repr b t m : NoDup (all_keys m) -> arc_repr c t m -> arc_repr c (replace b t) (make_way b m).
Proof.
  intros Hn [H1 H2 H3]. unfold replace, make_way. destruct (ghost_sizes _ _ _ _ H2) as [-> _].
  replace (data_capacity (fetch_list t)) with (target m) by (symmetry; apply H2).
  replace (negb (size_of (T1 m) =? 0)) with (bool_decide (T1 m <> [])).
  2:{ destruct (T1 m) as [|x l]; [done|]. rewrite bool_decide_eq_true_2 by done. symmetry. apply negb_true_iff, Z.eqb_neq. rewrite size_cons. pose proof (size_nonneg l). lia. }
  destruct (_ && _) eqn:E.
  - pose proof (downgrade_repr _ _ _ _ H2) as D. unfold retire_recent. destruct (last (T1 m)) as [k|] eqn:El.
    + split; cbn; try done. apply D. intros x. by destruct (arc_apart m x Hn) as (? & ? & _).
    + apply last_None in El. apply andb_prop in E as [E _]. zbool. done.
  - pose proof (downgrade_repr _ _ _ _ H3) as D. unfold retire_frequent. destruct (last (T2 m)) as [k|] eqn:El.
    + split; cbn; try done. apply D. intros x. by destruct (arc_apart m x Hn) as (? & ? & _).
    + apply last_None in El as Et. split; cbn; try done. rewrite Et in *. apply D. intros x Hx. by apply elem_of_nil in Hx.
Qed.

Lemma arc_pop_repr k t m : NoDup (all_keys m) -> arc_repr c t m ->
  (arc_pop k t).1 =
    (if bool_decide (k <> "") && (bool_decide (k ∈ T1 m) || bool_decide (k ∈ B1 m)) then (k, false, bool_decide (k ∈ B1 m))
     else if bool_decide (k <> "") && (bool_decide (k ∈ T2 m) || bool_decide (k ∈ B2 m)) then (k, true, bool_decide (k ∈ B2 m))
     else ("", false, false)) /\
  arc_repr c (arc_pop k t).2 (forget k m).
Proof.
  intros Hn [H1 H2 H3]. destruct (arc_apart m k Hn) as (A1 & A2 & A3). unfold arc_pop.
  destruct (ghost_pop_repr _ _ _ _ H2 k A1) as [E1 G1]. destruct (ghost_pop k (fetch_list t)) as [[i1 g1] f]. cbn [fst snd] in *.
  injection E1 as -> ->. cbn [active_list].
  destruct (ghost_pop_repr _ _ _ _ H3 k A2) as [E2 G2]. destruct (ghost_pop k (active_list t)) as [[i2 g2] a]. cbn [fst snd] in *.
  injection E2 as -> ->.
  assert (forall b : bool, negb (bool_decide ((if b then k else "") = "")) = bool_decide (k <> "") && b) as Hb.
  { intros []; [|by rewrite andb_false_r]. rewrite andb_true_r, bool_decide_not. done. }
  rewrite !Hb. destruct (bool_decide (k <> "") && (bool_decide (k ∈ T1 m) || bool_decide (k ∈ B1 m))) eqn:F1.
  - apply andb_prop in F1 as [_ F1]. rewrite F1. cbn [fst snd].
    assert (k ∈ T1 m \/ k ∈ B1 m) as Hin by (apply orb_prop in F1 as [?|?]; zbool; auto). destruct (A3 Hin).
    split; [|split; cbn; [done|done|by rewrite !without_notin]].
    destruct (bool_decide (k ∈ T1 m)) eqn:D1; zbool; [rewrite bool_decide_eq_false_2 by auto; done|]. by rewrite andb_true_l.
  - destruct (bool_decide (k <> "") && (bool_decide (k ∈ T2 m) || bool_decide (k ∈ B2 m))) eqn:F2; cbn [fst snd];
      (split; [|split; cbn; done]); [|done].
    apply andb_prop in F2 as [_ F2]. rewrite F2.
    destruct (bool_decide (k ∈ T2 m)) eqn:D1; zbool; [rewrite bool_decide_eq_false_2 by auto; done|]. by rewrite andb_true_l.
Qed.

Lemma set_target_repr p t m : 0 <= p <= c -> arc_repr c t m -> arc_repr c (set_target p t) (retarget p m).
Proof.
  intros Hp [H1 H2 H3]. split; cbn; [done|by eapply ghost_set_capacity_repr|]. rewrite H1, sat_sub_exact by lia.
  by eapply ghost_set_capacity_repr.
Qed.

Lemma push_recent_repr k t m : k ∉ T1 m -> arc_repr c t m -> arc_repr c (with_fetch (ghost_put_data k) t) (push_recent k m).
Proof. intros Hk [H1 H2 H3]. split; cbn; [done|by apply ghost_put_repr|done]. Qed.
Lemma push_frequent_repr k t m : k ∉ T2 m -> arc_repr c t m -> arc_repr c (with_active (ghost_put_data k) t) (push_frequent k m).
Proof. intros Hk [H1 H2 H3]. split; cbn; [done|done|by apply ghost_put_repr]. Qed.

Lemma arc_sizes t m : c < 2 ^ 63 -> arc_ok c m -> arc_repr c t m ->
  data_size (fetch_list t) = size_of (T1 m) /\ ghost_size (fetch_list t) = size_of (B1 m) /\
  data_size (active_list t) = size_of (T2 m) /\ ghost_size (active_list t) = size_of (B2 m) /\
  ghost_total_size (fetch_list t) = recent_total m /\ arc_size t = cached_total m /\ arc_total_size t = lists_total m.
Proof.
  intros Hc [N1 N2 N3 N4 N5] [H1 H2 H3]. destruct (ghost_sizes _ _ _ _ H2) as [S1 S2]. destruct (ghost_sizes _ _ _ _ H3) as [S3 S4].
  unfold ghost_total_size, arc_total_size, arc_size, arc_ghost_size, recent_total, cached_total, lists_total, recent_total in *.
  rewrite S1, S2, S3, S4. pose proof (size_nonneg (T1 m)). pose proof (size_nonneg (T2 m)).
  pose proof (size_nonneg (B1 m)). pose proof (size_nonneg (B2 m)).
  unfold sat_add, u64_max. split_and!; lia.
Qed.

Lemma miss_repr k t m :
  c < 2 ^ 63 -> arc_ok c m -> (k ∉ all_keys m) -> arc_repr c t m ->
  arc_repr c
    (with_fetch (ghost_put_data k)
       (if c <=? ghost_total_size (fetch_list t) then
          if data_size (fetch_list t) <? c
          then replace false (with_fetch (fun f => snd (evict_one_ghost f)) t)
          else with_fetch (fun f => snd (evict_one_data f)) t
        else if c <=? arc_total_size t then
          replace false (if sat_mul c 2 <=? arc_total_size t
                         then with_active (fun a => snd (evict_one_ghost a)) t else t)
        else t))
    (adapt_miss c k m).
Proof.
  intros Hc Hok Hk R. destruct (arc_sizes t m Hc Hok R) as (S1 & S2 & S3 & S4 & S5 & S6 & S7). rewrite S1, S5, S7. unfold adapt_miss.
  assert (sat_mul c 2 = 2 * c) as -> by (unfold sat_mul, u64_max; lia).
  assert (forall x y, arc_repr c x y -> T1 y `sublist_of` T1 m -> arc_repr c (with_fetch (ghost_put_data k) x) (push_recent k y)) as Hgo.
  { intros x y Rx Hs. apply push_recent_repr; [|done]. intros Hin. apply Hk. unfold all_keys. apply elem_of_app. left. by eapply elem_of_sublist. }
  assert (forall b y, T1 (make_way b y) `sublist_of` T1 y) as Hmw.
  { intros b y. unfold make_way, retire_recent, retire_frequent. case_if; [destruct (last (T1 y))|destruct (last (T2 y))]; cbn;
      (done || apply sublist_removelast). }
  destruct R as [R1 R2 R3]. pose proof (ok_nodup c m Hok) as Hn.
  repeat case_if; apply Hgo.
  - apply replace_repr; [|split; cbn; [done|by apply evict_one_ghost_repr|done]].
    eapply shrink_nodup; [done|apply sublist_removelast|done|done|done].
  - etrans; [apply Hmw|done].
  - split; cbn; [done|by apply evict_one_data_repr|done].
  - apply sublist_removelast.
  - apply replace_repr; [|split; cbn; [done|done|by apply evict_one_ghost_repr]].
    eapply shrink_nodup; [done|done|done|apply sublist_removelast|done].
  - etrans; [apply Hmw|done].
  - apply replace_repr; [done|by split].
  - etrans; [apply Hmw|done].
  - by split.
  - done.
Qed.

Lemma make_way_absent k b m : k ∉ all_keys m -> k ∉ T2 (make_way b m).
Proof.
  intros Hk Hin. apply Hk. rewrite <- (make_way_perm b m). unfold all_keys. rewrite !elem_of_app. tauto.
Qed.

Lemma access_repr k t m :
  1 <= c < 2 ^ 63 -> arc_ok c m -> arc_repr c t m ->
  (access k t).1 = (adapt_access c k m).1 /\ arc_repr c (access k t).2 (adapt_access c k m).2.
Proof.
  intros Hc Hok R. pose proof (ok_nodup c m Hok) as Hn. destruct (arc_pop_repr k t m Hn R) as [Ep Rp].
  pose proof (forget_ok c k m Hok) as Hof. pose proof (forget_absent k m) as Hab. pose proof (one_place k m Hn) as H1.
  pose proof (forget_sizes k m Hn) as (Z1 & Z2 & Z3 & Z4). destruct Hok as [N1 N2 N3 N4 N5].
  pose proof (size_nonneg (T1 m)). pose proof (size_nonneg (T2 m)). pose proof (size_nonneg (B1 m)). pose proof (size_nonneg (B2 m)).
  pose proof (size_nonneg (B1 (forget k m))). pose proof (size_nonneg (B2 (forget k m))).
  unfold access. destruct (arc_pop k t) as [[[item is_active] is_ghost] t1]. cbn [fst snd] in Ep, Rp.
  destruct (arc_sizes t1 _ (proj2 Hc) Hof Rp) as (S1 & S2 & S3 & S4 & S5 & S6 & S7).
  rewrite (ar_capacity _ _ _ Rp). unfold adapt_access.
  destruct (bool_decide (k <> "")) eqn:Ek; cbn [andb] in *.
  2:{ injection Ep as -> -> ->. rewrite bool_decide_eq_true_2 by done. split; [done|]. apply miss_repr; [lia|done..]. }
  unfold lists_total, recent_total, ind in *.
  destruct (bool_decide (k ∈ T1 m)) eqn:E1, (bool_decide (k ∈ T2 m)) eqn:E2, (bool_decide (k ∈ B1 m)) eqn:E3,
    (bool_decide (k ∈ B2 m)) eqn:E4; cbn [orb] in *; try lia; simplify_eq; zbool;
    rewrite ?(bool_decide_eq_false_2 (k = "")) by done; cbn [fst snd].
  - split; [done|]. apply push_frequent_repr; [|done]. cbn. rewrite elem_without. tauto.
  - split; [done|]. apply push_frequent_repr; [|done]. cbn. rewrite elem_without. tauto.
  - split; [done|]. rewrite S2, S4, Z2, Z4. replace (data_capacity (fetch_list t1)) with (target m) by (symmetry; apply Rp).
    rewrite (sat_add_exact (_ - 1)) by (unfold u64_max; lia). rewrite Z.sub_0_r, Z.sub_add, (Z.max_l (size_of (B1 m))) by lia.
    assert (0 <= size_of (B2 m) / size_of (B1 m)) by (apply Z.div_pos; lia).
    
    assert (forall a, Z.min (target m +! a) c = Z.min (target m + a) c) as -> by (intros; unfold sat_add, u64_max; lia).
    apply push_frequent_repr; [by apply make_way_absent|].
    apply replace_repr; [by apply Hof|]. apply set_target_repr; [lia|done].
  - split; [done|]. rewrite S2, S4, Z2, Z4. replace (data_capacity (fetch_list t1)) with (target m) by (symmetry; apply Rp).
    rewrite (sat_add_exact (_ - 1)) by (unfold u64_max; lia). rewrite Z.sub_0_r, Z.sub_add, (Z.max_l (size_of (B2 m))) by lia.
    assert (0 <= size_of (B1 m) / size_of (B2 m)) by (apply Z.div_pos; lia).
    apply push_frequent_repr; [by apply make_way_absent|].
    apply replace_repr; [by apply Hof|]. apply set_target_repr; [unfold sat_sub; lia|done].
  - rewrite bool_decide_eq_true_2 by done. split; [done|]. apply miss_repr; [lia|done..].
Qed.

Lemma delete_repr k t m :
  NoDup (all_keys m) -> arc_repr c t m ->
  (arc_delete k t).1 = bool_decide (k ∈ all_keys m) /\ arc_repr c (arc_delete k t).2 (forget k m).
Proof.
  intros Hn [H1 H2 H3]. destruct (arc_apart m k Hn) as (A1 & A2 & A3). unfold arc_delete.
  destruct (ghost_delete_repr _ _ _ _ H2 k) as [E1 G1]. destruct (ghost_delete k (fetch_list t)) as [d1 f]. cbn [fst snd] in *. subst d1.
  destruct (ghost_delete_repr _ _ _ _ H3 k) as [E2 G2]. destruct (ghost_delete k (active_list t)) as [d2 a]. cbn [fst snd] in *. subst d2.
  assert (bool_decide (k ∈ all_keys m) = (bool_decide (k ∈ T1 m) || bool_decide (k ∈ B1 m)) || (bool_decide (k ∈ T2 m) || bool_decide (k ∈ B2 m))) as ->.
  { unfold all_keys. rewrite <- !bool_decide_or. apply bool_decide_ext. rewrite !elem_of_app. tauto. }
  destruct (bool_decide (k ∈ T1 m) || bool_decide (k ∈ B1 m)) eqn:F; cbn [fst snd orb]; (split; [done|]); split; cbn; try done.
  assert (k ∈ T1 m \/ k ∈ B1 m) as Hin by (apply orb_prop in F as [?|?]; zbool; auto). destruct (A3 Hin). by rewrite !without_notin.
Qed.

Lemma arc_evict_repr t m : 0 <= target m <= c -> arc_repr c t m -> arc_repr c (arc_evict t).2 (adapt_evict c m).
Proof.
  intros Hp [H1 H2 H3]. unfold arc_evict. destruct (ghost_evict_repr _ _ _ _ H2) as [_ G1]; [lia|].
  destruct (ghost_evict_repr _ _ _ _ H3) as [_ G2]; [lia|].
  destruct (ghost_evict (fetch_list t)), (ghost_evict (active_list t)). cbn in *. by split.
Qed.
End arc.

(** ** Histories *)

Inductive ArcOp := ArcPut (k : PolicyKey) | ArcGet (k : PolicyKey) | ArcDelete (k : PolicyKey) | ArcEvict | ArcReset.

Definition arc_step (t : ArcList) (op : ArcOp) : ArcList :=
  match op with
  | ArcPut k => arc_put k t
  | ArcGet k => snd (arc_get k t)
  | ArcDelete k => snd (arc_delete k t)
  | ArcEvict => snd (arc_evict t)
  | ArcReset => arc_reset t
  end.
Definition arc_run (ops : list ArcOp) (t : ArcList) : ArcList := fold_left arc_step ops t.

(** The same history on the four lists. *)
Definition adapt_step (c : Z) (m : arc_lists) (op : ArcOp) : arc_lists :=
  match op with
  | ArcPut k | ArcGet k => snd (adapt_access c k m)
  | ArcDelete k => forget k m
  | ArcEvict => adapt_evict c m
  | ArcReset => no_lists (target m)
  end.
Definition adapt_run (c : Z) (ops : list ArcOp) : arc_lists := fold_left (adapt_step c) ops (no_lists (c / 2)).

Lemma step_simulates c op t m : 1 <= c < 2 ^ 63 -> arc_ok c m -> arc_repr c t m ->
  arc_ok c (adapt_step c m op) /\ arc_repr c (arc_step t op) (adapt_step c m op).
Proof.
  intros Hc Hok R. pose proof (ok_nodup c m Hok) as Hn. pose proof (ok_target c m Hok) as Ht. destruct op as [k|k|k| |]; cbn.
  - split; [by apply adapt_access_ok; [lia|]|by apply access_repr].
  - split; [by apply adapt_access_ok; [lia|]|by apply access_repr].
  - split; [by apply forget_ok|by apply delete_repr].
  - split; [by apply adapt_evict_ok|by apply arc_evict_repr].
  - split; [split; cbn; unfold recent_total, cached_total, lists_total, recent_total, size_of; cbn; try lia; apply NoDup_nil_2|].
    destruct R as [H1 H2 H3]. split; cbn; [done|by eapply ghost_reset_repr|by eapply ghost_reset_repr].
Qed.

Lemma run_simulates c ops : 1 <= c < 2 ^ 63 ->
  arc_ok c (adapt_run c ops) /\ arc_repr c (arc_run ops (arc_new c)) (adapt_run c ops).
Proof.
  intros Hc. unfold arc_run, adapt_run. assert (0 <= c / 2 <= c) as Hp by (split; [apply Z.div_pos|apply Z.div_le_upper_bound]; lia).
  assert (arc_ok c (no_lists (c / 2)) /\ arc_repr c (arc_new c) (no_lists (c / 2))) as [H1 H2].
  { split; [split; cbn; unfold recent_total, cached_total, lists_total, recent_total, size_of; cbn; try lia; apply NoDup_nil_2|].
    split; cbn; [done|..]; split; cbn; try done; try apply lru_new_repr; by rewrite sat_sub_exact by lia. }
  revert H1 H2. generalize (no_lists (c / 2)) (arc_new c). induction ops as [|op ops IH]; intros m t H1 H2; [done|]. cbn.
  destruct (step_simulates c op t m Hc H1 H2). by apply IH.
Qed.

(** C14. The adaptive policy, four intrusive lists with hash indexes over
    recycled arenas, answers as four plain key lists do under any history of
    puts, gets, deletions, evictions and resets: the same hits and deletions,
    the same eviction candidates, the same target. *)
Theorem arc_refines_lists c ops k n :
  1 <= c < 2 ^ 63 ->
  let t := arc_run ops (arc_new c) in
  let m := adapt_run c ops in
  (arc_get k t).1 = bool_decide (k <> "" /\ (k ∈ T1 m \/ k ∈ T2 m)) /\
  (arc_delete k t).1 = bool_decide (k ∈ all_keys m) /\
  get_fetch_data_tail n t = take n (reverse (T1 m)) /\
  get_active_data_tail n t = take n (reverse (T2 m)) /\
  data_capacity (fetch_list t) = target m.
Proof.
  intros Hc t m. destruct (run_simulates c ops Hc) as [Hok R]. fold t m in Hok, R.
  pose proof (access_repr c k t m Hc Hok R) as [Eg _]. pose proof (delete_repr c k t m (ok_nodup c m Hok) R) as [Ed _].
  split_and!; [|done|by apply lru_tail_repr, R|by apply lru_tail_repr, R|apply R].
  unfold arc_get. rewrite Eg. unfold adapt_access. rewrite bool_decide_and, bool_decide_or.
  destruct (_ && (_ || _)); [done|]. by repeat case_if.
Qed.

(** C15. With a capacity of at least one, no history makes the policy track
    more keys than it may: at most the capacity cached, at most the capacity
    in the recent half with its ghosts, at most twice the capacity in all, no
    key twice, and the target between zero and the capacity. *)
Theorem arc_stays_bounded c ops :
  1 <= c < 2 ^ 63 ->
  let t := arc_run ops (arc_new c) in
  arc_size t <= c /\ ghost_total_size (fetch_list t) <= c /\ arc_total_size t <= 2 * c /\
  0 <= data_capacity (fetch_list t) <= c /\ data_capacity (active_list t) = c - data_capacity (fetch_list t) /\
  NoDup (get_fetch_data_tail (Z.to_nat c) t ++ get_active_data_tail (Z.to_nat c) t).
Proof.
  intros Hc t. destruct (run_simulates c ops Hc) as [Hok R]. fold t in R. set (m := adapt_run c ops) in *.
  destruct (arc_sizes c t m (proj2 Hc) Hok R) as (_ & _ & _ & _ & -> & -> & ->). destruct Hok as [N1 N2 N3 N4 N5].
  destruct R as [R1 [K1 K2 K3 K4] [K5 K6 K7 K8]]. unfold data_capacity. rewrite K3, K7.
  split_and!; try done; try lia. unfold get_fetch_data_tail, get_active_data_tail.
  rewrite (lru_tail_repr _ _ _ K1), (lru_tail_repr _ _ _ K5). eapply sublist_NoDup; [|apply sublist_app; apply sublist_take].
  rewrite !reverse_Permutation. unfold all_keys in N1. rewrite !NoDup_app in N1. rewrite NoDup_app. set_solver.
Qed.

(** ** Concrete histories *)

Definition arc_demo : list ArcOp := [ArcPut "a"; ArcPut "b"; ArcGet "a"; ArcPut "c"; ArcPut "d"; ArcGet "b"; ArcDelete "c"].

Lemma arc_refines_lists_witness : (arc_get "b" (arc_run arc_demo (arc_new 3))).1 = true.
Proof.
  destruct (arc_refines_lists 3 arc_demo "b" 3) as [H _]; [lia|]. rewrite H. vm_compute. reflexivity.
Defined.

Lemma arc_stays_bounded_witness : arc_total_size (arc_run arc_demo (arc_new 3)) <= 6.
Proof. destruct (arc_stays_bounded 3 arc_demo) as (_ & _ & H & _); [lia|]. exact H. Defined.

(** At a capacity of zero nothing bounds the frequent keys: each key put and
    then read stays. *)
Example arc_zero_capacity_grows :
  arc_size (arc_run [ArcPut "a"; ArcGet "a"; ArcPut "b"; ArcGet "b"; ArcPut "c"; ArcGet "c"] (arc_new 0)) = 3.
Proof. vm_compute. reflexivity. Qed.
