(* ===== verification/L2Policy.v ===== *)
(** * Migration between two cache levels

    [DramPmemL1Cache] and [L2CachePolicy] (cache_facades.rs): accesses to the
    upper level are buffered and applied to the adaptive policy, keys at the
    tails of its lists are pulled out of the upper level, and the pulled
    buffers are written to the lower one.  The cache instances of the two
    levels are behind an interface; the clock is an argument. *)

From S2P Require Import Prelude Dll KeyArena ArcList.

(** ** The levels *)

(** What the policy asks of a [CacheInstance]: a read that leaves its
    replacement order alone, a look, and a write. *)
Class CacheInstanceApi (I : Type) := {
  get_bypass_replacement_policy : PolicyKey -> I -> result (option bytes) * I;
  instance_peek : PolicyKey -> I -> bool;
  put_buffer : PolicyKey -> bytes -> I -> result unit * I }.

Record L2Buffer := mkL2Buffer { lb_key : PolicyKey; lb_value : bytes; lb_tier : option CacheTier }.
Inductive AccessRecordKind := RecordPut | RecordGet | RecordDelete.

Section policy.
Context {I : Type} `{CacheInstanceApi I}.

Record DramPmemL1Cache := mkL1 { dram_instance : I; pmem_instance : option I; l2_pulls : Z }.
Definition buffer_from_value (key : PolicyKey) (value : bytes) (tier : CacheTier) : L2Buffer := mkL2Buffer key value (Some tier).

(** The memory instance first; an error of either ends the read. *)
Definition l1_get (key : PolicyKey) (c : DramPmemL1Cache) : result (option L2Buffer) * DramPmemL1Cache :=
  let '(r, dram) := get_bypass_replacement_policy key (dram_instance c) in
  match r with
  | Err e => (Err e, mkL1 dram (pmem_instance c) (l2_pulls c))
  | Ok (Some value) => (Ok (Some (buffer_from_value key value Memory)), mkL1 dram (pmem_instance c) (wrap64 (l2_pulls c + 1)))
  | Ok None =>
      match pmem_instance c with
      | None => (Ok None, mkL1 dram None (l2_pulls c))
      | Some pmem =>
          let '(r, pmem) := get_bypass_replacement_policy key pmem in
          match r with
          | Err e => (Err e, mkL1 dram (Some pmem) (l2_pulls c))
          | Ok (Some value) => (Ok (Some (buffer_from_value key value Pmem)), mkL1 dram (Some pmem) (wrap64 (l2_pulls c + 1)))
          | Ok None => (Ok None, mkL1 dram (Some pmem) (l2_pulls c))
          end
      end
  end.

(** ** State *)

Record L2Settings := mkL2Settings {
  tail_batch_size : nat;
  access_interval_ms : Z;
  tail_interval_ms : Z;
  write_interval_ms : Z;
  async_on_access : bool;
  use_eviction_handler : bool;
  access_buffer_capacity : Z;
  write_buffer_capacity : Z }.
Record L2Counters := mkL2Counters {
  access_drop_count : Z;
  access_callback_count : Z;
  pull_success_count : Z;
  pull_fail_count : Z;
  write_exist_count : Z;
  write_success_count : Z;
  write_fail_count : Z;
  write_enqueue_fail_count : Z }.

(** [remove_handler] is whether a handler is registered, and [handed_over]
    what it was called with. *)
Record L2CachePolicy := mkL2 {
  l1_cache : DramPmemL1Cache;
  l2_cache : I;
  arc_policy : ReplacementArc;
  settings : L2Settings;
  last_access_pass : option Z;
  last_tail_pass : option Z;
  last_write_pass : option Z;
  access_queue : list (AccessRecordKind * PolicyKey);
  write_buffer_queue : list L2Buffer;
  tail_data_from_fetch_list : bool;
  l2_stopped : bool;
  l2_paused : bool;
  remove_handler : bool;
  handed_over : list L2Buffer;
  counters : L2Counters }.
Implicit Types (p : L2CachePolicy) (c : L2Counters) (key : PolicyKey).

Definition L2_DEFAULT_ACCESS_INTERVAL_MS : Z := 1.
Definition L2_DEFAULT_TAIL_INTERVAL_MS : Z := 1000.
Definition L2_DEFAULT_WRITE_INTERVAL_MS : Z := 1000.
Definition L2_DEFAULT_ACCESS_BUFFER_CAPACITY : Z := 100000.
Definition L2_DEFAULT_TAIL_BATCH_SIZE : Z := 1000.
Definition L2_DEFAULT_WRITE_BUFFER_CAPACITY : Z := 10000.
Definition L2_DEFAULT_MAX_ARC_CACHE_ITEMS : Z := 100000.
Definition L2_DEFAULT_ASYNC_ON_ACCESS : bool := true.
Definition L2_DEFAULT_USE_EVICTION_HANDLER : bool := false.

Definition l2_new (l1 : DramPmemL1Cache) (l2 : I) (arc : ReplacementArc) (access_capacity : Z) (tail_batch : nat) (write_capacity : Z) : L2CachePolicy :=
  mkL2 l1 l2 arc
    (mkL2Settings tail_batch L2_DEFAULT_ACCESS_INTERVAL_MS L2_DEFAULT_TAIL_INTERVAL_MS L2_DEFAULT_WRITE_INTERVAL_MS
       L2_DEFAULT_ASYNC_ON_ACCESS L2_DEFAULT_USE_EVICTION_HANDLER access_capacity write_capacity)
    None None None [] [] true true false false [] (mkL2Counters 0 0 0 0 0 0 0 0).
Definition create_l2_cache_policy (l1 : DramPmemL1Cache) (l2 : I) : L2CachePolicy :=
  l2_new l1 l2 (replacement_arc_init (replacement_arc_new L2_DEFAULT_MAX_ARC_CACHE_ITEMS))
    L2_DEFAULT_ACCESS_BUFFER_CAPACITY (Z.to_nat L2_DEFAULT_TAIL_BATCH_SIZE) L2_DEFAULT_WRITE_BUFFER_CAPACITY.

Definition set_l1 l1 p : L2CachePolicy :=
  mkL2 l1 (l2_cache p) (arc_policy p) (settings p) (last_access_pass p) (last_tail_pass p) (last_write_pass p) (access_queue p)
    (write_buffer_queue p) (tail_data_from_fetch_list p) (l2_stopped p) (l2_paused p) (remove_handler p) (handed_over p) (counters p).
Definition set_l2 l2 p : L2CachePolicy :=
  mkL2 (l1_cache p) l2 (arc_policy p) (settings p) (last_access_pass p) (last_tail_pass p) (last_write_pass p) (access_queue p)
    (write_buffer_queue p) (tail_data_from_fetch_list p) (l2_stopped p) (l2_paused p) (remove_handler p) (handed_over p) (counters p).
Definition set_arc arc p : L2CachePolicy :=
  mkL2 (l1_cache p) (l2_cache p) arc (settings p) (last_access_pass p) (last_tail_pass p) (last_write_pass p) (access_queue p)
    (write_buffer_queue p) (tail_data_from_fetch_list p) (l2_stopped p) (l2_paused p) (remove_handler p) (handed_over p) (counters p).
Definition set_settings st p : L2CachePolicy :=
  mkL2 (l1_cache p) (l2_cache p) (arc_policy p) st (last_access_pass p) (last_tail_pass p) (last_write_pass p) (access_queue p)
    (write_buffer_queue p) (tail_data_from_fetch_list p) (l2_stopped p) (l2_paused p) (remove_handler p) (handed_over p) (counters p).
Definition set_passes a t w p : L2CachePolicy :=
  mkL2 (l1_cache p) (l2_cache p) (arc_policy p) (settings p) a t w (access_queue p)
    (write_buffer_queue p) (tail_data_from_fetch_list p) (l2_stopped p) (l2_paused p) (remove_handler p) (handed_over p) (counters p).
Definition set_access_queue q p : L2CachePolicy :=
  mkL2 (l1_cache p) (l2_cache p) (arc_policy p) (settings p) (last_access_pass p) (last_tail_pass p) (last_write_pass p) q
    (write_buffer_queue p) (tail_data_from_fetch_list p) (l2_stopped p) (l2_paused p) (remove_handler p) (handed_over p) (counters p).
Definition set_write_queue q p : L2CachePolicy :=
  mkL2 (l1_cache p) (l2_cache p) (arc_policy p) (settings p) (last_access_pass p) (last_tail_pass p) (last_write_pass p) (access_queue p)
    q (tail_data_from_fetch_list p) (l2_stopped p) (l2_paused p) (remove_handler p) (handed_over p) (counters p).
Definition set_flags tail stopped paused handler p : L2CachePolicy :=
  mkL2 (l1_cache p) (l2_cache p) (arc_policy p) (settings p) (last_access_pass p) (last_tail_pass p) (last_write_pass p) (access_queue p)
    (write_buffer_queue p) tail stopped paused handler (handed_over p) (counters p).
Definition hand_over b p : L2CachePolicy :=
  mkL2 (l1_cache p) (l2_cache p) (arc_policy p) (settings p) (last_access_pass p) (last_tail_pass p) (last_write_pass p) (access_queue p)
    (write_buffer_queue p) (tail_data_from_fetch_list p) (l2_stopped p) (l2_paused p) (remove_handler p) (handed_over p ++ [b]) (counters p).
Definition count (f : L2Counters -> L2Counters) p : L2CachePolicy :=
  mkL2 (l1_cache p) (l2_cache p) (arc_policy p) (settings p) (last_access_pass p) (last_tail_pass p) (last_write_pass p) (access_queue p)
    (write_buffer_queue p) (tail_data_from_fetch_list p) (l2_stopped p) (l2_paused p) (remove_handler p) (handed_over p) (f (counters p)).

Definition note_drop c := mkL2Counters (access_drop_count c +! 1) (access_callback_count c) (pull_success_count c) (pull_fail_count c) (write_exist_count c) (write_success_count c) (write_fail_count c) (write_enqueue_fail_count c).
Definition note_callback c := mkL2Counters (access_drop_count c) (access_callback_count c +! 1) (pull_success_count c) (pull_fail_count c) (write_exist_count c) (write_success_count c) (write_fail_count c) (write_enqueue_fail_count c).
Definition note_pull c := mkL2Counters (access_drop_count c) (access_callback_count c) (pull_success_count c +! 1) (pull_fail_count c) (write_exist_count c) (write_success_count c) (write_fail_count c) (write_enqueue_fail_count c).
Definition note_pull_fail c := mkL2Counters (access_drop_count c) (access_callback_count c) (pull_success_count c) (pull_fail_count c +! 1) (write_exist_count c) (write_success_count c) (write_fail_count c) (write_enqueue_fail_count c).
Definition note_exist c := mkL2Counters (access_drop_count c) (access_callback_count c) (pull_success_count c) (pull_fail_count c) (write_exist_count c +! 1) (write_success_count c) (write_fail_count c) (write_enqueue_fail_count c).
Definition note_success c := mkL2Counters (access_drop_count c) (access_callback_count c) (pull_success_count c) (pull_fail_count c) (write_exist_count c) (write_success_count c +! 1) (write_fail_count c) (write_enqueue_fail_count c).
Definition note_fail c := mkL2Counters (access_drop_count c) (access_callback_count c) (pull_success_count c) (pull_fail_count c) (write_exist_count c) (write_success_count c) (write_fail_count c +! 1) (write_enqueue_fail_count c).
Definition note_enqueue_fail c := mkL2Counters (access_drop_count c) (access_callback_count c) (pull_success_count c) (pull_fail_count c) (write_exist_count c) (write_success_count c) (write_fail_count c) (write_enqueue_fail_count c +! 1).

(** ** Operations *)

Definition l2_start p : L2CachePolicy := set_flags (tail_data_from_fetch_list p) false (l2_paused p) (remove_handler p) p.
Definition l2_stop p : L2CachePolicy := set_flags (tail_data_from_fetch_list p) true (l2_paused p) (remove_handler p) p.
Definition l2_pause p : L2CachePolicy := set_flags (tail_data_from_fetch_list p) (l2_stopped p) true (remove_handler p) p.
Definition l2_continue p : L2CachePolicy := set_flags (tail_data_from_fetch_list p) (l2_stopped p) false (remove_handler p) p.
Definition register_remove_l2_policy_handler p : L2CachePolicy := set_flags (tail_data_from_fetch_list p) (l2_stopped p) (l2_paused p) true p.
Definition set_async_on_access (b : bool) p : L2CachePolicy :=
  let s := settings p in
  set_settings (mkL2Settings (tail_batch_size s) (access_interval_ms s) (tail_interval_ms s) (write_interval_ms s) b (use_eviction_handler s) (access_buffer_capacity s) (write_buffer_capacity s)) p.
Definition set_use_eviction_handler (b : bool) p : L2CachePolicy :=
  let s := settings p in
  set_settings (mkL2Settings (tail_batch_size s) (access_interval_ms s) (tail_interval_ms s) (write_interval_ms s) (async_on_access s) b (access_buffer_capacity s) (write_buffer_capacity s)) p.
(** [set_access_interval_ms], [set_tail_interval_ms] and
    [set_write_interval_ms]. *)
Definition set_intervals (a t w : Z) p : L2CachePolicy :=
  let s := settings p in
  set_settings (mkL2Settings (tail_batch_size s) a t w (async_on_access s) (use_eviction_handler s) (access_buffer_capacity s) (write_buffer_capacity s)) p.

Definition apply_access (kind : AccessRecordKind) key (r : ReplacementArc) : ReplacementArc :=
  match kind with
  | RecordPut => replacement_arc_put key r
  | RecordGet => (replacement_arc_get key r).2
  | RecordDelete => (replacement_arc_delete key r).2
  end.
Definition do_access (kind : AccessRecordKind) key p : L2CachePolicy := count note_callback (set_arc (apply_access kind key (arc_policy p)) p).

Definition on_access (kind : AccessRecordKind) key p : L2CachePolicy :=
  let s := settings p in
  if l2_stopped p then p
  else if negb (async_on_access s) then do_access kind key p
  else if negb (access_buffer_capacity s =? 0) && (access_buffer_capacity s <=? Z.of_nat (length (access_queue p))) then count note_drop p
  else set_access_queue (access_queue p ++ [(kind, key)]) p.

Definition put_queue (b : L2Buffer) p : L2CachePolicy :=
  let s := settings p in
  if negb (write_buffer_capacity s =? 0) && (write_buffer_capacity s <=? Z.of_nat (length (write_buffer_queue p))) then
    let p := count note_enqueue_fail p in if remove_handler p then hand_over b p else p
  else set_write_queue (write_buffer_queue p ++ [b]) p.
Definition on_evict (b : L2Buffer) p : L2CachePolicy :=
  if l2_stopped p || negb (use_eviction_handler (settings p)) then p else put_queue b p.

Definition fetch_queue p : option L2Buffer * L2CachePolicy :=
  match write_buffer_queue p with [] => (None, p) | b :: q => (Some b, set_write_queue q p) end.
Definition do_one_write (b : L2Buffer) p : result unit * L2CachePolicy :=
  if instance_peek (lb_key b) (l2_cache p) then (Ok tt, count note_exist p)
  else
    let '(r, l2) := put_buffer (lb_key b) (lb_value b) (l2_cache p) in
    let p := set_l2 l2 p in
    match r with Ok _ => (Ok tt, count note_success p) | Err e => (Err e, count note_fail p) end.

(** The queue is drained: one turn per record. *)
Fixpoint drain_accesses (fuel : nat) p : L2CachePolicy :=
  match fuel with
  | O => p
  | S fuel => match access_queue p with [] => p | (kind, key) :: q => drain_accesses fuel (do_access kind key (set_access_queue q p)) end
  end.
Definition access_task_internal p : L2CachePolicy := if l2_paused p then p else drain_accesses (length (access_queue p)) p.

Definition pull_key key p : L2CachePolicy :=
  let '(r, l1) := l1_get key (l1_cache p) in
  let p := set_l1 l1 p in
  match r with Ok (Some b) => put_queue b (count note_pull p) | Ok None | Err _ => count note_pull_fail p end.
Definition tail_task_internal p : L2CachePolicy :=
  if l2_stopped p || l2_paused p then p
  else
    let n := tail_batch_size (settings p) in
    let tail := if tail_data_from_fetch_list p then get_fetch_data_tail n (arc_list (arc_policy p)) else get_active_data_tail n (arc_list (arc_policy p)) in
    let p := set_flags (negb (tail_data_from_fetch_list p)) (l2_stopped p) (l2_paused p) (remove_handler p) p in
    foldl (fun p key => pull_key key p) p tail.

(** A buffer that cannot be written is counted and skipped. *)
Fixpoint drain_writes (fuel : nat) (written : Z) p : Z * L2CachePolicy :=
  match fuel with
  | O => (written, p)
  | S fuel =>
      match fetch_queue p with
      | (None, p) => (written, p)
      | (Some b, p) => let '(r, p) := do_one_write b p in drain_writes fuel (match r with Ok _ => written +! 1 | Err _ => written end) p
      end
  end.
Definition write_task_internal p : Z * L2CachePolicy :=
  if l2_stopped p || l2_paused p then (0, p) else drain_writes (length (write_buffer_queue p)) 0 p.

Definition flush_once p : Z * L2CachePolicy := write_task_internal (tail_task_internal (access_task_internal p)).

Definition pass_due (last : option Z) (now interval_ms : Z) : bool :=
  match last with None => true | Some last => interval_ms <=? now -! last end.
Definition l2_poll (now : Z) p : Z * L2CachePolicy :=
  if l2_stopped p || l2_paused p then (0, p)
  else
    let s := settings p in
    let p := if pass_due (last_access_pass p) now (access_interval_ms s)
             then access_task_internal (set_passes (Some now) (last_tail_pass p) (last_write_pass p) p) else p in
    let p := if pass_due (last_tail_pass p) now (tail_interval_ms s)
             then tail_task_internal (set_passes (last_access_pass p) (Some now) (last_write_pass p) p) else p in
    if pass_due (last_write_pass p) now (write_interval_ms s)
    then write_task_internal (set_passes (last_access_pass p) (last_tail_pass p) (Some now) p) else (0, p).
End policy.
Arguments L2CachePolicy : clear implicits.
Arguments DramPmemL1Cache : clear implicits.

(** ** Buffered accesses *)

Section accesses.
Context {I : Type} `{CacheInstanceApi I}.
Implicit Types (p : L2CachePolicy I) (recs : list (AccessRecordKind * PolicyKey)).

Definition access_all recs p : L2CachePolicy I := foldl (fun p r => on_access r.1 r.2 p) p recs.
Definition do_all recs p : L2CachePolicy I := foldl (fun p r => do_access r.1 r.2 p) p recs.
Definition drops (n : nat) p : L2CachePolicy I := Nat.iter n (count note_drop) p.
(** How many records the buffer still takes. *)
Definition room recs p : nat :=
  let capacity := access_buffer_capacity (settings p) in
  if capacity =? 0 then length recs else Z.to_nat (capacity - Z.of_nat (length (access_queue p))).

Lemma drops_one n p : drops n (count note_drop p) = drops (S n) p.
Proof. unfold drops. by rewrite Nat.iter_succ_r. Qed.
Lemma drops_frame n p : l2_paused (drops n p) = l2_paused p /\ access_queue (drops n p) = access_queue p.
Proof. induction n as [|n [IH1 IH2]]; [done|]. done. Qed.

Lemma access_all_buffered recs p : l2_stopped p = false -> async_on_access (settings p) = true ->
  access_all recs p = drops (length recs - room recs p) (set_access_queue (access_queue p ++ take (room recs p) recs) p).
Proof.
  revert p. induction recs as [|[kind key] recs IH]; intros p Hs Ha; [cbn; rewrite take_nil, app_nil_r; by destruct p|].
  cbn [access_all foldl fst snd]. unfold on_access at 2. rewrite Hs, Ha. cbn [negb]. unfold room. destruct (Z.eqb_spec (access_buffer_capacity (settings p)) 0) as [E|E]; cbn [negb andb].
  - fold (access_all recs (set_access_queue (access_queue p ++ [(kind, key)]) p)). rewrite IH by done. unfold room. cbn [set_access_queue settings access_queue]. rewrite E. cbn [Z.eqb].
    rewrite !Nat.sub_diag, !take_ge by done. cbn. by rewrite <- app_assoc.
  - destruct (Z.leb_spec (access_buffer_capacity (settings p)) (Z.of_nat (length (access_queue p)))) as [Hle|Hgt].
    + fold (access_all recs (count note_drop p)). rewrite IH by done. unfold room. cbn [count settings access_queue]. rewrite (proj2 (Z.eqb_neq _ _) E), (Z2Nat.nonpos (_ - _)) by lia.
      rewrite !take_0, app_nil_r, !Nat.sub_0_r. cbn [length]. rewrite <- drops_one. f_equal.
    + fold (access_all recs (set_access_queue (access_queue p ++ [(kind, key)]) p)). rewrite IH by done. unfold room. cbn [set_access_queue settings access_queue]. rewrite (proj2 (Z.eqb_neq _ _) E), length_app. cbn [length].
      replace (Z.to_nat (access_buffer_capacity (settings p) - Z.of_nat (length (access_queue p)))) with (S (Z.to_nat (access_buffer_capacity (settings p) - Z.of_nat (length (access_queue p) + 1)))) by lia.
      cbn [take Nat.sub]. by rewrite <- app_assoc.
Qed.

Lemma drain_all p : drain_accesses (length (access_queue p)) p = do_all (access_queue p) (set_access_queue [] p).
Proof.
  remember (access_queue p) as q eqn:Eq. revert p Eq. induction q as [|[kind key] q IH]; intros p Eq; cbn [length drain_accesses]; [destruct p; cbn in *; by subst|]. rewrite <- Eq.
  cbn [do_all foldl fst snd]. rewrite IH by done. done.
Qed.
Lemma do_all_app recs recs' p : do_all (recs ++ recs') p = do_all recs' (do_all recs p).
Proof. apply foldl_app. Qed.
Lemma do_all_drop recs p : do_all recs (count note_drop p) = count note_drop (do_all recs p).
Proof. revert p. induction recs as [|[kind key] recs IH]; intros p; [done|]. cbn [do_all foldl fst snd]. apply (IH (do_access kind key p)). Qed.
Lemma do_all_drops n recs p : do_all recs (drops n p) = drops n (do_all recs p).
Proof. induction n as [|n IH]; [done|]. change (drops (S n) ?x) with (count note_drop (drops n x)). by rewrite do_all_drop, IH. Qed.
Lemma drops_queue n q p : set_access_queue q (drops n p) = drops n (set_access_queue q p).
Proof. induction n as [|n IH]; [done|]. change (drops (S n) ?x) with (count note_drop (drops n x)). by rewrite <- IH. Qed.

(** Inline, the records go to the policy as they come. *)
Lemma access_all_inline recs p : l2_stopped p = false -> access_all recs (set_async_on_access false p) = set_async_on_access false (do_all recs p).
Proof.
  revert p. induction recs as [|[kind key] recs IH]; intros p Hs; [done|]. cbn [access_all do_all foldl fst snd]. unfold on_access at 2. cbn [settings set_async_on_access set_settings async_on_access l2_stopped].
  rewrite Hs. cbn [negb]. exact (IH (do_access kind key p) Hs).
Qed.
Lemma do_all_frame recs p : settings (do_all recs p) = settings p /\ l2_stopped (do_all recs p) = l2_stopped p.
Proof. revert p. induction recs as [|[kind key] recs IH]; intros p; [done|]. cbn [do_all foldl fst snd]. apply (IH (do_access kind key p)). Qed.
Lemma set_async_twice p : async_on_access (settings p) = true -> set_async_on_access true (set_async_on_access false p) = p.
Proof. intros Ha. destruct p as [? ? ? []]. cbn in *. by subst. Qed.
End accesses.

(** C31. Buffering the accesses and draining the buffer comes to the same, in
    every part of the state, as applying them to the adaptive policy one by
    one as they come, but for the records that arrive when the buffer is full:
    those are the last ones, and they are counted. *)
Theorem l2_async_is_sync {I : Type} `{CacheInstanceApi I} (p : L2CachePolicy I) (recs : list (AccessRecordKind * PolicyKey)) :
  l2_stopped p = false -> l2_paused p = false -> async_on_access (settings p) = true ->
  access_task_internal (access_all recs p) =
  drops (length recs - room recs p) (set_async_on_access true (access_all (take (room recs p) recs) (set_async_on_access false (access_task_internal p)))).
Proof.
  intros Hs Hp Ha. rewrite access_all_buffered by done. unfold access_task_internal. destruct (drops_frame (length recs - room recs p) (set_access_queue (access_queue p ++ take (room recs p) recs) p)) as [-> ->].
  cbn [l2_paused set_access_queue access_queue]. rewrite Hp.
  set (q := access_queue p ++ take (room recs p) recs). pose proof (drain_all (drops (length recs - room recs p) (set_access_queue q p))) as Hd.
  destruct (drops_frame (length recs - room recs p) (set_access_queue q p)) as [_ Eq]. rewrite Eq in Hd. cbn [access_queue set_access_queue] in Hd. rewrite Hd, drops_queue, do_all_drops, drain_all. f_equal.
  unfold q. rewrite do_all_app. set (p1 := do_all (access_queue p) (set_access_queue [] p)). destruct (do_all_frame (access_queue p) (set_access_queue [] p)) as [F1 F2]. fold p1 in F1, F2.
  rewrite access_all_inline by (by rewrite F2). destruct (do_all_frame (take (room recs p) recs) p1) as [G1 _]. rewrite set_async_twice by (by rewrite G1, F1). done.
Qed.

(** ** Histories *)

Inductive l2_op :=
| OStart
| OStop
| OPause
| OContinue
| ORegister
| OAsync (b : bool)
| OHandler (b : bool)
| OIntervals (a t w : Z)
| OAccess (kind : AccessRecordKind) (key : PolicyKey)
| OEvict (b : L2Buffer)
| OAccessTask
| OTailTask
| OWriteTask
| OFlush
| OPoll (now : Z).

Section accounts.
Context {I : Type} `{CacheInstanceApi I}.
Implicit Types (p : L2CachePolicy I) (op : l2_op) (ops : list l2_op).

Definition l2_step op p : L2CachePolicy I :=
  match op with
  | OStart => l2_start p
  | OStop => l2_stop p
  | OPause => l2_pause p
  | OContinue => l2_continue p
  | ORegister => register_remove_l2_policy_handler p
  | OAsync b => set_async_on_access b p
  | OHandler b => set_use_eviction_handler b p
  | OIntervals a t w => set_intervals a t w p
  | OAccess kind key => on_access kind key p
  | OEvict b => on_evict b p
  | OAccessTask => access_task_internal p
  | OTailTask => tail_task_internal p
  | OWriteTask => (write_task_internal p).2
  | OFlush => (flush_once p).2
  | OPoll now => (l2_poll now p).2
  end.

(** The accesses and the evicted buffers a running policy is told of. *)
Definition heard op p : Z * Z :=
  match op with
  | OAccess _ _ => (if l2_stopped p then 0 else 1, 0)
  | OEvict _ => (0, if l2_stopped p || negb (use_eviction_handler (settings p)) then 0 else 1)
  | _ => (0, 0)
  end.
Definition l2_run ops p : Z * Z * L2CachePolicy I :=
  foldl (fun '(a, e, p) op => let '(a', e') := heard op p in (a + a', e + e', l2_step op p)) (0, 0, p) ops.

Definition queue_fits (capacity : Z) (n : nat) : Prop := capacity = 0 \/ Z.of_nat n <= capacity.
Definition written c : Z := write_exist_count c + write_success_count c + write_fail_count c + write_enqueue_fail_count c.

(** After [a] accesses and [e] evicted buffers, with [k] as the most buffers
    that can have been offered. *)
Record accounts (a e k : Z) p : Prop := {
  ac_access : access_callback_count (counters p) + access_drop_count (counters p) + Z.of_nat (length (access_queue p)) = a;
  ac_write : written (counters p) + Z.of_nat (length (write_buffer_queue p)) = pull_success_count (counters p) + e;
  ac_most : pull_success_count (counters p) + e <= k;
  ac_range : Forall (fun n => 0 <= n) [access_callback_count (counters p); access_drop_count (counters p); pull_success_count (counters p);
    write_exist_count (counters p); write_success_count (counters p); write_fail_count (counters p); write_enqueue_fail_count (counters p); e];
  ac_access_fits : 0 <= access_buffer_capacity (settings p) -> queue_fits (access_buffer_capacity (settings p)) (length (access_queue p));
  ac_write_fits : 0 <= write_buffer_capacity (settings p) -> queue_fits (write_buffer_capacity (settings p)) (length (write_buffer_queue p)) }.

Lemma sat_one n : 0 <= n < u64_max -> n +! 1 = n + 1.
Proof. intros Hn. apply sat_add_exact. lia. Qed.

Ltac ranges R := rewrite !Forall_cons in R; destruct R as (?&?&?&?&?&?&?&?&_).
Ltac counted := unfold written, u64_max in *; cbn [count counters note_drop note_callback note_pull note_pull_fail note_exist note_success note_fail note_enqueue_fail
  access_drop_count access_callback_count pull_success_count pull_fail_count write_exist_count write_success_count write_fail_count write_enqueue_fail_count] in *.

Lemma do_access_accounts a e k kind key p : accounts a e k p -> a < u64_max -> accounts (a + 1) e k (do_access kind key p).
Proof.
  intros [A1 A2 A3 A4 A5 A6] Ha. ranges A4. split; try done; cbn [do_access set_arc count counters access_queue write_buffer_queue settings]; counted.
  - rewrite sat_one by (unfold u64_max; lia). lia.
  - rewrite !Forall_cons. unfold sat_add, u64_max. split_and!; try done; lia.
Qed.

Lemma pop_access_accounts a e k p r q : accounts a e k p -> access_queue p = r :: q -> accounts (a - 1) e k (set_access_queue q p).
Proof.
  intros [A1 A2 A3 A4 A5 A6] Eq. rewrite Eq in *. cbn [length] in *. split; try done; cbn [set_access_queue counters access_queue settings]; [lia|].
  intros Hc. destruct (A5 Hc) as [?|?]; [by left|right; lia].
Qed.
Lemma access_task_accounts a e k p : accounts a e k p -> a <= u64_max -> accounts a e k (access_task_internal p) /\ settings (access_task_internal p) = settings p.
Proof.
  intros A Ha. unfold access_task_internal. destruct (l2_paused p); [done|]. generalize (length (access_queue p)). intros fuel. revert p A.
  induction fuel as [|fuel IH]; intros p A; [done|]. cbn [drain_accesses]. destruct (access_queue p) as [|[kind key] q] eqn:Eq; [done|].
  pose proof (pop_access_accounts _ _ _ _ _ _ A Eq) as A1. apply (do_access_accounts _ _ _ kind key) in A1; [|lia]. replace (a - 1 + 1) with a in A1 by lia. apply (IH _ A1).
Qed.

Lemma on_access_accounts a e k kind key p : accounts a e k p -> a < u64_max ->
  accounts (a + if l2_stopped p then 0 else 1) e k (on_access kind key p) /\ settings (on_access kind key p) = settings p.
Proof.
  intros A Ha. unfold on_access. destruct (l2_stopped p); [by rewrite Z.add_0_r|]. destruct (async_on_access (settings p)); cbn [negb]; [|split; [by apply do_access_accounts|done]].
  destruct A as [A1 A2 A3 A4 A5 A6]. ranges A4. destruct (negb _ && _) eqn:E; (split; [|done]); (split; try done; cbn [set_access_queue count counters access_queue write_buffer_queue settings]); counted.
  - rewrite sat_one by (unfold u64_max; lia). lia.
  - rewrite !Forall_cons. unfold sat_add, u64_max. split_and!; try done; lia.
  - rewrite length_app. cbn. lia.
  - rewrite !Forall_cons. done.
  - intros Hc. rewrite length_app. cbn. apply andb_false_iff in E as [E%negb_false_iff%Z.eqb_eq|E%Z.leb_gt]; [by left|right; lia].
Qed.

Lemma put_queue_accounts a e k b p : accounts a e k p -> k < u64_max -> accounts a (e + 1) (k + 1) (put_queue b p) /\ settings (put_queue b p) = settings p.
Proof.
  intros [A1 A2 A3 A4 A5 A6] Hk. ranges A4. unfold put_queue. destruct (negb _ && _) eqn:E.
  - assert (accounts a (e + 1) (k + 1) (count note_enqueue_fail p)) as A.
    { split; try done; cbn [count counters access_queue write_buffer_queue settings]; counted.
      - rewrite sat_one by (unfold u64_max; lia). lia.
      - lia.
      - rewrite !Forall_cons. unfold sat_add, u64_max. split_and!; try done; lia. }
    destruct (remove_handler _); split; try done. destruct A. by split.
  - split; [|done]. split; try done; cbn [set_write_queue counters access_queue write_buffer_queue settings]; counted.
    + rewrite length_app. cbn. lia.
    + lia.
    + rewrite !Forall_cons. split_and!; try done; lia.
    + intros Hc. rewrite length_app. cbn. apply andb_false_iff in E as [E%negb_false_iff%Z.eqb_eq|E%Z.leb_gt]; [by left|right; lia].
Qed.
Lemma pull_accounts a e k p : accounts a (e + 1) k p -> 0 <= e -> k <= u64_max -> accounts a e k (count note_pull p).
Proof.
  intros [A1 A2 A3 A4 A5 A6] He Hk. ranges A4. split; try done; cbn [count counters access_queue write_buffer_queue settings]; counted; rewrite ?sat_one by (unfold u64_max; lia); try lia.
  rewrite !Forall_cons. split_and!; try done; lia.
Qed.
Lemma put_queue_pull b p : put_queue b (count note_pull p) = count note_pull (put_queue b p).
Proof. unfold put_queue. cbn [count settings write_buffer_queue remove_handler]. destruct (negb _ && _); [|done]. by destruct (remove_handler p). Qed.

Lemma pull_key_accounts a e k key p : accounts a e k p -> k < u64_max -> accounts a e (k + 1) (pull_key key p) /\ settings (pull_key key p) = settings p.
Proof.
  intros A Hk. unfold pull_key. destruct (l1_get key (l1_cache p)) as [r l1]. assert (accounts a e k (set_l1 l1 p)) as A1 by (destruct A; by split).
  assert (accounts a e (k + 1) (count note_pull_fail (set_l1 l1 p))) as A2.
  { destruct A1 as [B1 B2 B3 B4 B5 B6]. split; try done. counted. cbn [set_l1 counters] in *. lia. }
  destruct r as [[b|]|]; [|done..]. rewrite put_queue_pull. pose proof A as [_ _ _ A4 _ _]. ranges A4.
  destruct (put_queue_accounts _ _ _ b _ A1 Hk) as [A3 E]. split; [apply pull_accounts; [done|done|lia]|exact E].
Qed.

Lemma collect_length a cur n : (length (collect_from a cur n) <= n)%nat.
Proof. revert cur. induction n as [|n IH]; intros [i|]; cbn; try lia. specialize (IH (prev_of (a_nodes a) i)). lia. Qed.

Lemma tail_task_accounts a e k p : accounts a e k p -> k + Z.of_nat (tail_batch_size (settings p)) <= u64_max ->
  accounts a e (k + Z.of_nat (tail_batch_size (settings p))) (tail_task_internal p) /\ settings (tail_task_internal p) = settings p.
Proof.
  intros A Hk. unfold tail_task_internal. destruct (l2_stopped p || l2_paused p); [split; [|done]; destruct A; split; try done; lia|].
  set (tail := if tail_data_from_fetch_list p then _ else _). set (p1 := set_flags _ _ _ _ p).
  assert (length tail <= tail_batch_size (settings p))%nat as Hl by (unfold tail, get_fetch_data_tail, get_active_data_tail, lru_get_tail, collect_from_tail; case_match; apply collect_length).
  assert (accounts a e k p1) as A1 by (destruct A; by split). change (settings p) with (settings p1) in *. clearbody tail p1.
  assert (forall n, (length tail <= n)%nat -> k + Z.of_nat n <= u64_max -> accounts a e (k + Z.of_nat n) (foldl (fun p key => pull_key key p) p1 tail) /\ settings (foldl (fun p key => pull_key key p) p1 tail) = settings p1) as Hgen; [|by apply Hgen].
  clear -A1. revert p1 k A1. induction tail as [|key tail IH]; intros p1 k A1 n Hl Hk; cbn [foldl length] in *; [split; [|done]; destruct A1; split; try done; lia|].
  destruct (pull_key_accounts a e k key p1 A1) as [A2 E]; [lia|]. destruct (IH _ _ A2 (n - 1)%nat) as [A3 E']; [lia|lia|]. replace (k + 1 + Z.of_nat (n - 1)) with (k + Z.of_nat n) in A3 by lia. split; [done|congruence].
Qed.

Lemma write_step_accounts a e k b q p : accounts a e k p -> k <= u64_max -> write_buffer_queue p = b :: q ->
  accounts a e k (do_one_write b (set_write_queue q p)).2 /\ settings (do_one_write b (set_write_queue q p)).2 = settings p.
Proof.
  intros [A1 A2 A3 A4 A5 A6] Hk Eq. rewrite Eq in *. cbn [length] in *. ranges A4.
  assert (queue_fits (write_buffer_capacity (settings p)) (S (length q)) -> queue_fits (write_buffer_capacity (settings p)) (length q)) as Hfit by (intros [?|?]; [by left|right; lia]).
  unfold do_one_write. cbn [l2_cache set_write_queue]. destruct (instance_peek _ _); [|destruct (put_buffer _ _ _) as [[r|r] l2]]; (split; [|done]);
    (split; [| | | |done|by auto]); cbn [snd set_l2 set_write_queue count counters access_queue write_buffer_queue settings]; counted;
    rewrite ?sat_one by (unfold u64_max; lia); try lia; rewrite !Forall_cons; split_and!; try done; lia.
Qed.
Lemma write_task_accounts a e k p : accounts a e k p -> k <= u64_max -> accounts a e k (write_task_internal p).2 /\ settings (write_task_internal p).2 = settings p.
Proof.
  intros A Hk. unfold write_task_internal. destruct (l2_stopped p || l2_paused p); [done|]. generalize (length (write_buffer_queue p)), 0. intros fuel. revert p A.
  induction fuel as [|fuel IH]; intros p A w; [done|]. cbn [drain_writes]. unfold fetch_queue. destruct (write_buffer_queue p) as [|b q] eqn:Eq; [done|].
  destruct (write_step_accounts _ _ _ _ _ _ A Hk Eq) as [A1 E]. destruct (do_one_write b (set_write_queue q p)) as [r p1]. cbn [snd] in *. destruct (IH _ A1 (match r with Ok _ => w +! 1 | Err _ => w end)) as [A2 E2]. split; [done|congruence].
Qed.

Lemma accounts_most a e k k' p : accounts a e k p -> k <= k' -> accounts a e k' p.
Proof. intros [A1 A2 A3 A4 A5 A6] Hk. split; try done. lia. Qed.
Lemma passes_accounts a e k x y z p : accounts a e k p -> accounts a e k (set_passes x y z p).
Proof. intros []. by split. Qed.

(** What a step keeps of the settings. *)
Definition sizes p : nat * Z * Z := (tail_batch_size (settings p), access_buffer_capacity (settings p), write_buffer_capacity (settings p)).

Lemma flush_accounts a e k p : accounts a e k p -> a <= u64_max -> k + Z.of_nat (tail_batch_size (settings p)) <= u64_max ->
  accounts a e (k + Z.of_nat (tail_batch_size (settings p))) (flush_once p).2 /\ settings (flush_once p).2 = settings p.
Proof.
  intros A Ha Hk. unfold flush_once. destruct (access_task_accounts _ _ _ _ A Ha) as [A1 E1]. rewrite <- E1 in Hk. destruct (tail_task_accounts _ _ _ _ A1 Hk) as [A2 E2].
  destruct (write_task_accounts _ _ _ _ A2) as [A3 E3]; [done|]. rewrite E1 in A3. split; [done|congruence].
Qed.
Lemma poll_accounts a e k now p : accounts a e k p -> a <= u64_max -> k + Z.of_nat (tail_batch_size (settings p)) <= u64_max ->
  accounts a e (k + Z.of_nat (tail_batch_size (settings p))) (l2_poll now p).2 /\ settings (l2_poll now p).2 = settings p.
Proof.
  intros A Ha Hk. unfold l2_poll. destruct (l2_stopped p || l2_paused p); [split; [eapply accounts_most; [exact A|lia]|done]|]. set (batch := Z.of_nat _) in *.
  set (p1 := if pass_due (last_access_pass p) _ _ then _ else p). assert (accounts a e k p1 /\ settings p1 = settings p) as [A1 E1].
  { unfold p1. destruct (pass_due (last_access_pass p) _ _); [|done].
    destruct (access_task_accounts a e k (set_passes (Some now) (last_tail_pass p) (last_write_pass p) p)) as [A1 E1]; [by apply passes_accounts|done|]. done. }
  clearbody p1. set (p2 := if pass_due (last_tail_pass p1) _ _ then _ else p1). assert (accounts a e (k + batch) p2 /\ settings p2 = settings p) as [A2 E2].
  { unfold p2. destruct (pass_due (last_tail_pass p1) _ _); [|split; [eapply accounts_most; [exact A1|lia]|done]]. unfold batch in *. rewrite <- E1 in *.
    destruct (tail_task_accounts a e k (set_passes (last_access_pass p1) (Some now) (last_write_pass p1) p1)) as [A2 E2]; [by apply passes_accounts|done|]. done. }
  clearbody p2. destruct (pass_due (last_write_pass p2) _ _); [|done].
  destruct (write_task_accounts a e (k + batch) (set_passes (last_access_pass p2) (last_tail_pass p2) (Some now) p2)) as [A3 E3]; [by apply passes_accounts|done|]. split; [done|]. by rewrite E3.
Qed.

Lemma step_accounts a e k op p : accounts a e k p -> a < u64_max -> k + Z.of_nat (tail_batch_size (settings p)) + 1 <= u64_max ->
  accounts (a + (heard op p).1) (e + (heard op p).2) (k + Z.of_nat (tail_batch_size (settings p)) + 1) (l2_step op p) /\ sizes (l2_step op p) = sizes p.
Proof.
  intros A Ha Hk. set (batch := Z.of_nat _) in *. assert (0 <= batch) as Hb by lia. unfold sizes.
  assert (forall q, accounts a e k q -> accounts (a + 0) (e + 0) (k + batch + 1) q) as Hkeep.
  { intros q Aq. rewrite !Z.add_0_r. eapply accounts_most; [done|lia]. }
  assert (forall q, accounts a e (k + batch) q -> accounts (a + 0) (e + 0) (k + batch + 1) q) as Hkeep'.
  { intros q Aq. rewrite !Z.add_0_r. eapply accounts_most; [done|lia]. }
  destruct op; cbn [heard fst snd l2_step]; try (split; [apply Hkeep; destruct A; by split|done]).
  - destruct (on_access_accounts _ _ _ kind key _ A Ha) as [A1 E]. rewrite E. split; [|done]. rewrite Z.add_0_r. eapply accounts_most; [done|lia].
  - unfold on_evict. destruct (_ || _); [by split; [apply Hkeep|]|]. destruct (put_queue_accounts _ _ _ b _ A) as [A1 E]; [lia|]. rewrite E. split; [|done]. rewrite Z.add_0_r. eapply accounts_most; [done|lia].
  - destruct (access_task_accounts _ _ _ _ A) as [A1 E]; [lia|]. rewrite E. split; [by apply Hkeep|done].
  - destruct (tail_task_accounts _ _ _ _ A) as [A1 E]; [lia|]. rewrite E. split; [by apply Hkeep'|done].
  - destruct (write_task_accounts _ _ _ _ A) as [A1 E]; [lia|]. rewrite E. split; [by apply Hkeep|done].
  - destruct (flush_accounts _ _ _ _ A) as [A1 E]; [lia|lia|]. rewrite E. split; [by apply Hkeep'|done].
  - destruct (poll_accounts _ _ _ now _ A) as [A1 E]; [lia|lia|]. rewrite E. split; [by apply Hkeep'|done].
Qed.

Lemma heard_bounds op p : 0 <= (heard op p).1 <= 1 /\ 0 <= (heard op p).2 <= 1.
Proof. destruct op; cbn; try lia; repeat case_match; lia. Qed.

Lemma run_accounts ops : forall a e k p batch, accounts a e k p -> a <= k -> tail_batch_size (settings p) = batch -> k + Z.of_nat (length ops) * (Z.of_nat batch + 1) < u64_max ->
  let '(a', e', p') := foldl (fun '(a, e, p) op => let '(x, y) := heard op p in (a + x, e + y, l2_step op p)) (a, e, p) ops in
  accounts a' e' (k + Z.of_nat (length ops) * (Z.of_nat batch + 1)) p' /\ sizes p' = sizes p.
Proof.
  induction ops as [|op ops IH]; intros a e k p batch A Ha Hb Hk; cbn [foldl length] in *; [split; [|done]; eapply accounts_most; [done|lia]|].
  destruct (step_accounts a e k op p A) as [A1 E]; [nia|nia|]. pose proof (heard_bounds op p) as [Hx Hy]. destruct (heard op p) as [x y]. cbn [fst snd] in *. rewrite Hb in A1.
  assert (tail_batch_size (settings (l2_step op p)) = batch) as Hb' by (unfold sizes in E; congruence).
  specialize (IH _ _ _ _ batch A1 ltac:(lia) Hb' ltac:(nia)). destruct (foldl _ _ ops) as [[a' e'] p']. destruct IH as [A2 E2]. split; [|congruence]. eapply accounts_most; [exact A2|nia].
Qed.
End accounts.

(** C30. After any history no access and no buffer is lost track of: every
    access a running policy was told of was applied, dropped or is waiting,
    every buffer pulled or handed over by an eviction was written, found
    present, failed, refused or is waiting, and neither queue is longer than
    its capacity, where it has one. *)
Theorem l2_accounts_exactly {I : Type} `{CacheInstanceApi I} (l1 : DramPmemL1Cache I) (l2 : I) (arc : ReplacementArc) (access_capacity write_capacity : Z) (batch : nat) (ops : list l2_op) :
  0 <= access_capacity -> 0 <= write_capacity -> Z.of_nat (length ops) * (Z.of_nat batch + 1) < u64_max ->
  let '(accesses, evictions, p) := l2_run ops (l2_new l1 l2 arc access_capacity batch write_capacity) in
  let c := counters p in
  access_callback_count c + access_drop_count c + Z.of_nat (length (access_queue p)) = accesses /\
  write_exist_count c + write_success_count c + write_fail_count c + write_enqueue_fail_count c + Z.of_nat (length (write_buffer_queue p)) =
    pull_success_count c + evictions /\
  (access_capacity = 0 \/ Z.of_nat (length (access_queue p)) <= access_capacity) /\
  (write_capacity = 0 \/ Z.of_nat (length (write_buffer_queue p)) <= write_capacity).
Proof.
  intros Ha Hw Hn. assert (accounts 0 0 0 (l2_new l1 l2 arc access_capacity batch write_capacity)) as A.
  { split; try done; cbn; [by repeat constructor|right; lia..]. }
  pose proof (run_accounts ops 0 0 0 _ batch A ltac:(lia) eq_refl ltac:(lia)) as Hr. unfold l2_run. destruct (foldl _ _ ops) as [[a e] p]. destruct Hr as [[A1 A2 A3 A4 A5 A6] E].
  unfold sizes in E. injection E as _ E1 E2. rewrite E1 in A5. rewrite E2 in A6. split_and!; [done|exact A2|by apply A5|by apply A6].
Qed.

(** ** A small instance *)

(** A level that is a map. *)
#[local] Instance map_instance : CacheInstanceApi (gmap PolicyKey bytes) := {|
  get_bypass_replacement_policy k m := (Ok (m !! k), m);
  instance_peek k m := bool_decide (is_Some (m !! k));
  put_buffer k v m := (Ok tt, <[k := v]> m) |}.
Definition l2_demo (value : bytes) : L2CachePolicy (gmap PolicyKey bytes) :=
  l2_new (mkL1 {["a" := value]} None 0) ∅ (replacement_arc_init (replacement_arc_new 4)) 2 3 2.

Lemma l2_async_is_sync_witness :
  let p := l2_start (l2_demo []) in
  access_callback_count (counters (access_task_internal (access_all [(RecordPut, "a"); (RecordPut, "b"); (RecordGet, "a")] p))) = 2 /\
  access_drop_count (counters (access_task_internal (access_all [(RecordPut, "a"); (RecordPut, "b"); (RecordGet, "a")] p))) = 1.
Proof. intros p. rewrite (l2_async_is_sync p); [|reflexivity..]. split; vm_compute; reflexivity. Defined.

Definition l2_demo_ops : list l2_op :=
  [OStart; OHandler true; OAccess RecordPut "a"; OAccess RecordPut "b"; OAccess RecordGet "a"; OEvict (mkL2Buffer "c" [] None); OFlush; OPoll 5; OAccess RecordPut "d"].
Lemma l2_accounts_exactly_witness :
  let '(accesses, evictions, p) := l2_run l2_demo_ops (l2_demo []) in
  (accesses, evictions, access_drop_count (counters p), length (access_queue p), write_success_count (counters p)) = (4, 1, 1, 1%nat, 2) /\
  access_callback_count (counters p) + 1 + 1 = 4.
Proof.
  pose proof (l2_accounts_exactly (mkL1 {["a" := []]} None 0) ∅ (replacement_arc_init (replacement_arc_new 4)) 2 2 3 l2_demo_ops
    ltac:(lia) ltac:(lia) ltac:(vm_compute; reflexivity)) as Ha.
  change (l2_new (mkL1 {["a" := []]} None 0) ∅ (replacement_arc_init (replacement_arc_new 4)) 2 3 2) with (l2_demo []) in Ha.
  assert (let '(accesses, evictions, p) := l2_run l2_demo_ops (l2_demo []) in
    (accesses, evictions, access_drop_count (counters p), length (access_queue p), write_success_count (counters p)) = (4, 1, 1, 1%nat, 2)) as Hc by (vm_compute; reflexivity).
  destruct (l2_run l2_demo_ops (l2_demo [])) as [[a e] p]. destruct Ha as [Ha _]. split; [exact Hc|]. injection Hc as -> _ Hd Hq _. rewrite Hd, Hq in Ha. exact Ha.
Defined.

(** A value that was rewritten in the upper level is pulled again, and the
    lower level keeps the old one because it has the key. *)
Example rewritten_value_not_migrated :
  let p := l2_step OFlush (l2_step (OAccess RecordPut "a") (l2_start (l2_demo [Byte.x61]))) in
  let p := set_l1 (mkL1 {["a" := [Byte.x62]]} None 0) p in
  let p := l2_step OFlush (l2_step OFlush (l2_step (OAccess RecordPut "a") p)) in
  (pull_success_count (counters p), write_exist_count (counters p), l2_cache p !! "a") = (2, 1, Some [Byte.x61]).
Proof. vm_compute. reflexivity. Qed.
