(* ===== verification/Fifo.v ===== *)
(** * First in, first out

    [CacheBuffer] (runtime/storage_engines.rs), [ReplacementPolicyBase] and
    [ReplacementFifo] (runtime/replacement.rs).  A buffer's pin handle is not
    modelled: the policies never look at it.  The eviction handler is a record
    of the buffers it was called with. *)

From S2P Require Import Prelude Types Hashes Dll KeyArena KeyedLists.

(** ** Buffers

    [buf_tier] is the tier that served a read; no policy looks at it. *)

Record CacheBuffer := mkBuffer {
  buf_key : string;
  buf_value : bytes;
  buf_logical_size : option Z;
  buf_tier : option CacheTier
}.

Definition buffer_size (b : CacheBuffer) : Z := default (blen (buf_value b)) (buf_logical_size b).
Definition cache_buffer_space (b : CacheBuffer) : Z := blen (string_bytes (buf_key b)) +! buffer_size b.

(** ** The policy *)

Record ReplacementPolicyBase := mkBase { base_capacity : Z; base_used : Z; base_initialized : bool }.

(** [new] and [set_capacity] assert a positive capacity: [None] is the panic. *)
Definition base_new (capacity : Z) : option ReplacementPolicyBase :=
  if 0 <? capacity then Some (mkBase capacity 0 false) else None.
Definition base_init (b : ReplacementPolicyBase) : ReplacementPolicyBase := mkBase (base_capacity b) (base_used b) true.
Definition base_set_capacity (capacity : Z) (b : ReplacementPolicyBase) : option ReplacementPolicyBase :=
  if 0 <? capacity then Some (mkBase capacity (base_used b) (base_initialized b)) else None.
Definition free_space (b : ReplacementPolicyBase) : Z := base_capacity b -! base_used b.

Record FifoEntry := mkFifoEntry { fe_buffer : CacheBuffer; fe_node : nat }.

Record ReplacementFifo := mkFifo {
  fifo_base : ReplacementPolicyBase;
  fifo_index : gmap string FifoEntry;
  fifo_arena : KeyArena;
  fifo_queue : KeyList;
  fifo_handler : bool;
  fifo_handled : list CacheBuffer
}.

Definition fifo_new (capacity : Z) : option ReplacementFifo :=
  (fun b => mkFifo b ∅ new_arena new_list false []) <$> base_new capacity.

Definition with_base (b : ReplacementPolicyBase) (f : ReplacementFifo) : ReplacementFifo :=
  mkFifo b (fifo_index f) (fifo_arena f) (fifo_queue f) (fifo_handler f) (fifo_handled f).
Definition fifo_with_used (used : Z) (f : ReplacementFifo) : ReplacementFifo :=
  with_base (mkBase (base_capacity (fifo_base f)) used (base_initialized (fifo_base f))) f.
Definition fifo_set_index (ix : gmap string FifoEntry) (f : ReplacementFifo) : ReplacementFifo :=
  mkFifo (fifo_base f) ix (fifo_arena f) (fifo_queue f) (fifo_handler f) (fifo_handled f).
Definition fifo_set_lists (l : KeyList) (a : KeyArena) (f : ReplacementFifo) : ReplacementFifo :=
  mkFifo (fifo_base f) (fifo_index f) a l (fifo_handler f) (fifo_handled f).
(** Call the handler, if there is one. *)
Definition fifo_notify (b : CacheBuffer) (f : ReplacementFifo) : ReplacementFifo :=
  if fifo_handler f
  then mkFifo (fifo_base f) (fifo_index f) (fifo_arena f) (fifo_queue f) true (fifo_handled f ++ [b]) else f.

Definition fifo_init (f : ReplacementFifo) : ReplacementFifo := with_base (base_init (fifo_base f)) f.
Definition fifo_register_handler (f : ReplacementFifo) : ReplacementFifo :=
  mkFifo (fifo_base f) (fifo_index f) (fifo_arena f) (fifo_queue f) true [].
Definition fifo_reset (f : ReplacementFifo) : ReplacementFifo :=
  fifo_with_used 0 (fifo_set_lists new_list new_arena (fifo_set_index ∅ f)).

(** Off the queue and back to the arena. *)
Definition fifo_unlink_release (i : nat) (f : ReplacementFifo) : ReplacementFifo :=
  let '(l, a) := list_unlink (fifo_queue f) i (fifo_arena f) in fifo_set_lists l (arena_release i a) f.

(** Every turn takes a node off the queue. *)
Fixpoint fifo_evict_loop (fuel : nat) (f : ReplacementFifo) : list CacheBuffer * ReplacementFifo :=
  match fuel with
  | O => ([], f)
  | S n =>
      if base_used (fifo_base f) <=? base_capacity (fifo_base f) then ([], f)
      else match l_head (fifo_queue f) with
      | None => ([], f)
      | Some i =>
          let key := arena_key (fifo_arena f) i in
          let f := fifo_unlink_release i f in
          match fifo_index f !! key with
          | None => fifo_evict_loop n f
          | Some e =>
              let f := fifo_set_index (delete key (fifo_index f)) f in
              let f := fifo_with_used (base_used (fifo_base f) -! cache_buffer_space (fe_buffer e)) f in
              let f := fifo_notify (fe_buffer e) f in
              let '(more, f) := fifo_evict_loop n f in
              (fe_buffer e :: more, f)
          end
      end
  end.
Definition fifo_evict_to_capacity (f : ReplacementFifo) : list CacheBuffer * ReplacementFifo :=
  fifo_evict_loop (S (length (a_nodes (fifo_arena f)))) f.

(** Replace the buffer of a tracked key and move the byte count. *)
Definition fifo_replace (key : string) (e : FifoEntry) (buffer : CacheBuffer) (f : ReplacementFifo) : ReplacementFifo :=
  fifo_with_used (base_used (fifo_base f) -! cache_buffer_space (fe_buffer e) +! cache_buffer_space buffer)
    (fifo_set_index (<[key := mkFifoEntry buffer (fe_node e)]> (fifo_index f)) f).

Definition fifo_put (buffer : CacheBuffer) (f : ReplacementFifo) : list CacheBuffer * ReplacementFifo :=
  if negb (base_initialized (fifo_base f)) then ([], f)
  else
    let key := buf_key buffer in
    if bool_decide (key = "") then ([], f)
    else
      let f :=
        match fifo_index f !! key with
        | Some e => fifo_replace key e buffer f
        | None =>
            let '(i, a) := arena_alloc key (fifo_arena f) in
            let '(l, a) := list_link_back (fifo_queue f) i a in
            let f := fifo_with_used (base_used (fifo_base f) +! cache_buffer_space buffer) (fifo_set_lists l a f) in
            fifo_set_index (<[key := mkFifoEntry buffer i]> (fifo_index f)) f
        end in
      fifo_evict_to_capacity f.

Definition fifo_update_cache_buffer (key : string) (old_data : bytes) (buffer : CacheBuffer) (f : ReplacementFifo)
    : result unit * ReplacementFifo :=
  match fifo_index f !! key with
  | None => (Err NotFound, f)
  | Some e =>
      if bool_decide (buf_value (fe_buffer e) = old_data)
      then (Ok tt, snd (fifo_evict_to_capacity (fifo_replace key e buffer f)))
      else (Err ReplaceMismatch, f)
  end.

Definition fifo_get (key : string) (f : ReplacementFifo) : option CacheBuffer := fe_buffer <$> fifo_index f !! key.

Definition fifo_delete (key : string) (f : ReplacementFifo) : option CacheBuffer * ReplacementFifo :=
  match fifo_index f !! key with
  | None => (None, f)
  | Some e =>
      let f := fifo_set_index (delete key (fifo_index f)) f in
      let f := fifo_with_used (base_used (fifo_base f) -! cache_buffer_space (fe_buffer e)) f in
      (Some (fe_buffer e), fifo_unlink_release (fe_node e) f)
  end.

Definition fifo_set_capacity (capacity : Z) (f : ReplacementFifo) : option ReplacementFifo :=
  (fun b => snd (fifo_evict_to_capacity (with_base b f))) <$> base_set_capacity capacity (fifo_base f).

Definition fifo_item_count (f : ReplacementFifo) : Z := Z.of_nat (size (fifo_index f)).
Definition fifo_queue_len (f : ReplacementFifo) : Z := l_len (fifo_queue f).
