(* ===== verification/FifoSpec.v ===== *)
(** * The first-in-first-out policy refines a queue *)

From S2P Require Import Prelude Types Hashes Dll KeyArena KeyedLists Fifo.

(** ** The queue *)

Abbreviation queue := (list (string * CacheBuffer)).

Definition queue_total (q : queue) : Z := foldr (fun x acc => cache_buffer_space x.2 + acc) 0 q.
Definition queue_find (k : string) (q : queue) : option CacheBuffer := snd <$> List.find (fun x => bool_decide (x.1 = k)) q.
Definition queue_replace (k : string) (b : CacheBuffer) (q : queue) : queue :=
  (fun x => if bool_decide (x.1 = k) then (k, b) else x) <$> q.
Definition queue_remove (k : string) (q : queue) : queue := filter (fun x => x.1 <> k) q.

(** Oldest first, until the rest fits. *)
Fixpoint queue_trim (cap : Z) (q : queue) : list CacheBuffer * queue :=
  match q with
  | [] => ([], [])
  | (k, b) :: rest =>
      if queue_total q <=? cap then ([], q)
      else let '(out, rest) := queue_trim cap rest in (b :: out, rest)
  end.

Lemma queue_find_in k q : (exists b, queue_find k q = Some b) <-> k ∈ q.*1.
Proof.
  unfold queue_find. induction q as [|[j b] q IH]; cbn.
  - split; [by intros [? ?]|]. intros H. by apply elem_of_nil in H.
  - rewrite elem_of_cons. case_bool_decide as E; cbn; [subst; split; [auto|]; by exists b|]. rewrite IH. split; [auto|].
    intros [->|H]; done.
Qed.

Lemma queue_find_none k q : queue_find k q = None <-> k ∉ q.*1.
Proof.
  rewrite <- queue_find_in. destruct (queue_find k q) as [b|]; split; try done.
  - intros H. exfalso. apply H. by exists b.
  - intros _ [b Hb]. done.
Qed.

Lemma queue_total_app q1 q2 : queue_total (q1 ++ q2) = queue_total q1 + queue_total q2.
Proof. unfold queue_total. induction q1 as [|x q1 IH]; cbn; [done|]. rewrite IH. lia. Qed.

Lemma queue_total_cons k b q : queue_total ((k, b) :: q) = cache_buffer_space b + queue_total q.
Proof. done. Qed.

Definition buffer_ok (b : CacheBuffer) : Prop := 0 <= buffer_size b.

Lemma space_nonneg b : buffer_ok b -> 0 <= cache_buffer_space b.
Proof. intros H. unfold cache_buffer_space, sat_add, u64_max, buffer_ok in *. pose proof (blen_nonneg (string_bytes (buf_key b))). lia. Qed.

Lemma queue_total_nonneg q : Forall (fun x => buffer_ok x.2) q -> 0 <= queue_total q.
Proof.
  induction 1 as [|x q H Hq IH]; [done|]. unfold queue_total in *. cbn. pose proof (space_nonneg _ H). lia.
Qed.

Lemma queue_split k q b : queue_find k q = Some b -> exists q1 q2, q = q1 ++ (k, b) :: q2 /\ k ∉ q1.*1.
Proof.
  unfold queue_find. induction q as [|[j c] q IH]; cbn; [done|]. case_bool_decide as E; cbn.
  - intros [= ->]. subst. exists [], q. split; [done|]. apply not_elem_of_nil.
  - intros (q1 & q2 & -> & H)%IH. exists ((j, c) :: q1), q2. split; [done|]. cbn. rewrite elem_of_cons. intros [?|?]; congruence.
Qed.

Lemma queue_replace_split k b q1 c q2 : NoDup (q1 ++ (k, c) :: q2).*1 ->
  queue_replace k b (q1 ++ (k, c) :: q2) = q1 ++ (k, b) :: q2 /\ queue_remove k (q1 ++ (k, c) :: q2) = q1 ++ q2.
Proof.
  rewrite fmap_app, fmap_cons. cbn. intros (_ & Hx & Hc)%NoDup_app. apply NoDup_cons in Hc as [Hc _].
  assert (k ∉ q1.*1) as H1 by (intros H; apply (Hx k H); set_solver).
  assert (forall q : queue, k ∉ q.*1 -> queue_replace k b q = q /\ queue_remove k q = q) as Hid.
  { clear. intros q. induction q as [|[j c] q IH]; [done|]. rewrite fmap_cons, not_elem_of_cons. intros [H1 H2]. destruct (IH H2) as [E1 E2].
    unfold queue_replace, queue_remove in *. rewrite fmap_cons, filter_cons, E1, E2. cbn. rewrite bool_decide_eq_false_2, decide_True by done. done. }
  destruct (Hid q1 H1) as [E1 E2], (Hid q2 Hc) as [E3 E4]. unfold queue_replace, queue_remove in *.
  rewrite fmap_app, fmap_cons, filter_app, filter_cons, E1, E2, E3, E4. cbn. rewrite bool_decide_eq_true_2, decide_False by auto. done.
Qed.

Lemma find_eq_split k q1 c q2 j : NoDup (q1 ++ (k, c) :: q2).*1 -> 
  queue_find j (q1 ++ (k, c) :: q2) = if decide (j = k) then Some c else queue_find j (q1 ++ q2).
Proof.
  intros Hnd. unfold queue_find. induction q1 as [|[i b] q1 IH]; cbn in *.
  - case_bool_decide; destruct (decide (j = k)); subst; done.
  - apply NoDup_cons in Hnd as [Hi Hnd]. specialize (IH Hnd). case_bool_decide as E; cbn; [|done]. subst j.
    rewrite decide_False; [done|]. intros ->. apply Hi. rewrite fmap_app. set_solver.
Qed.

(** ** The relation *)

Record queue_repr (a : KeyArena) (l : KeyList) (ix : gmap string FifoEntry) (q : queue) : Prop := {
  qr_keyed : keyed a (fun _ : unit => Some l) (fun k => (fun e => (tt, fe_node e)) <$> ix !! k) (fun _ => q.*1);
  qr_find : forall k, fe_buffer <$> ix !! k = queue_find k q
}.
Definition fifo_repr (f : ReplacementFifo) (q : queue) : Prop :=
  queue_repr (fifo_arena f) (fifo_queue f) (fifo_index f) q.

Section queue_repr.
Context (a : KeyArena) (l : KeyList) (ix : gmap string FifoEntry) (q : queue) (R : queue_repr a l ix q).

Lemma qr_nodup : NoDup q.*1.
Proof. apply (keyed_nodup _ _ _ _ (qr_keyed _ _ _ _ R) tt). Qed.

Lemma qr_size : size ix = length q.
Proof.
  rewrite <- size_dom, <- (length_fmap fst q), <- (size_list_to_set (C := gset string) q.*1) by apply qr_nodup. f_equal.
  apply set_eq. intros k. rewrite elem_of_dom, elem_of_list_to_set, <- queue_find_in, <- (qr_find _ _ _ _ R k).
  destruct (ix !! k) as [e|]; cbn; split; try done; [eauto|by intros [? ?]].
Qed.

Lemma qr_entry k e : ix !! k = Some e -> exists q1 q2, q = q1 ++ (k, fe_buffer e) :: q2.
Proof.
  intros Ek. pose proof (qr_find _ _ _ _ R k) as E. rewrite Ek in E. cbn in E. symmetry in E.
  apply queue_split in E as (q1 & q2 & -> & _). eauto.
Qed.

(** One list: see [keyed_ext]. *)
Lemma qr_intro a' l' ix' (L' : unit -> option KeyList) (jx : string -> option (unit * nat)) (ks : unit -> list string) q' :
  keyed a' L' jx ks -> L' tt = Some l' -> (forall k, (fun e => (tt, fe_node e)) <$> ix' !! k = jx k) -> ks tt = q'.*1 ->
  (forall k, fe_buffer <$> ix' !! k = queue_find k q') -> queue_repr a' l' ix' q'.
Proof.
  intros K EL Hix Ek Hf. split; [|done]. eapply keyed_ext; [| | |exact K]; cbn; [|done|by intros []]. intros []. by rewrite EL.
Qed.

Lemma qr_remove k e : ix !! k = Some e ->
  let r := list_unlink l (fe_node e) a in
  queue_repr (arena_release (fe_node e) r.2) r.1 (delete k ix) (queue_remove k q).
Proof.
  intros Ek r. destruct (qr_entry k e Ek) as (q1 & q2 & Eq). pose proof qr_nodup as Hnd. rewrite Eq in Hnd.
  destruct (queue_replace_split k (fe_buffer e) q1 _ q2 Hnd) as [_ Er]. rewrite Eq, Er.
  pose proof (keyed_remove _ _ _ _ (qr_keyed _ _ _ _ R) k tt (fe_node e) l) as M. cbn beta in M. rewrite Ek in M.
  specialize (M eq_refl eq_refl). fold r in M. eapply qr_intro; [exact M|apply set_at_eq|..].
  - intros j. destruct (decide (j = k)) as [->|Hne]; [by rewrite set_key_eq, lookup_delete_eq|by rewrite set_key_ne, lookup_delete_ne].
  - rewrite set_at_eq, Eq, !fmap_app, fmap_cons. rewrite fmap_app, fmap_cons in Hnd. by apply without_split.
  - intros j. pose proof (qr_find _ _ _ _ R j) as E. rewrite Eq, find_eq_split in E by done.
    destruct (decide (j = k)) as [->|Hne]; [|by rewrite lookup_delete_ne]. rewrite lookup_delete_eq. symmetry. apply queue_find_none.
    rewrite fmap_app. rewrite fmap_app, fmap_cons in Hnd. apply NoDup_app in Hnd as (_ & Hx & Hc). apply NoDup_cons in Hc as [Hc _].
    rewrite elem_of_app. intros [H|H]; [|done]. apply (Hx k H). set_solver.
Qed.

Lemma find_app_notin k b j (q' : queue) : k ∉ q'.*1 ->
  queue_find j (q' ++ [(k, b)]) = if decide (j = k) then Some b else queue_find j q'.
Proof.
  unfold queue_find. induction q' as [|[i c] q' IH]; cbn.
  - intros _. case_bool_decide; destruct (decide (j = k)); subst; done.
  - rewrite not_elem_of_cons. intros [H1 H2]. specialize (IH H2). case_bool_decide as E; cbn; [|done].
    subst. by rewrite decide_False.
Qed.

Lemma qr_append k b : ix !! k = None ->
  let r := list_link_back l (arena_alloc k a).1 (arena_alloc k a).2 in
  queue_repr r.2 r.1 (<[k := mkFifoEntry b (arena_alloc k a).1]> ix) (q ++ [(k, b)]).
Proof.
  intros Ek r. pose proof (qr_find _ _ _ _ R k) as E. rewrite Ek in E. cbn in E. symmetry in E. apply queue_find_none in E.
  pose proof (keyed_insert_back _ _ _ _ (qr_keyed _ _ _ _ R) k tt l) as M. cbn beta in M. rewrite Ek in M.
  specialize (M eq_refl eq_refl). fold r in M. eapply qr_intro; [exact M|apply set_at_eq|..].
  - intros j. destruct (decide (j = k)) as [->|Hne]; [by rewrite set_key_eq, lookup_insert_eq|by rewrite set_key_ne, lookup_insert_ne].
  - by rewrite set_at_eq, fmap_app.
  - intros j. rewrite find_app_notin by done. destruct (decide (j = k)) as [->|Hne]; [by rewrite lookup_insert_eq|].
    rewrite lookup_insert_ne by done. apply R.
Qed.

Lemma qr_replace k e b : ix !! k = Some e ->
  queue_repr a l (<[k := mkFifoEntry b (fe_node e)]> ix) (queue_replace k b q).
Proof.
  intros Ek. destruct (qr_entry k e Ek) as (q1 & q2 & Eq). pose proof qr_nodup as Hnd. rewrite Eq in Hnd.
  destruct (queue_replace_split k b q1 _ q2 Hnd) as [Er _]. rewrite Eq, Er.
  assert ((q1 ++ (k, b) :: q2).*1 = q.*1) as Ek' by (by rewrite Eq, !fmap_app, !fmap_cons).
  eapply qr_intro; [apply R|done| |by rewrite Ek'|].
  - intros j. destruct (decide (j = k)) as [->|Hne]; [by rewrite lookup_insert_eq, Ek|by rewrite lookup_insert_ne].
  - intros j. rewrite find_eq_split by (by rewrite Ek'; apply qr_nodup). pose proof (qr_find _ _ _ _ R j) as E.
    rewrite Eq, find_eq_split in E by done.
    destruct (decide (j = k)) as [->|Hne]; [by rewrite lookup_insert_eq|by rewrite lookup_insert_ne].
Qed.

Lemma qr_front : match l_head l with
  | None => q = []
  | Some i => exists b rest, q = (arena_key a i, b) :: rest /\ ix !! arena_key a i = Some (mkFifoEntry b i)
  end.
Proof.
  pose proof (keyed_head _ _ _ _ (qr_keyed _ _ _ _ R) tt l eq_refl) as H. cbn beta in H. destruct (l_head l) as [i|].
  - destruct H as [H1 H2]. destruct q as [|[k b] rest] eqn:Eq; [done|]. cbn in H1. injection H1 as ->. exists b, rest. split; [done|].
    pose proof (qr_find _ _ _ _ R (arena_key a i)) as E. unfold queue_find in E. cbn in E. rewrite bool_decide_eq_true_2 in E by done.
    destruct (ix !! arena_key a i) as [[b' j]|]; cbn in *; [|done]. congruence.
  - by destruct q.
Qed.
End queue_repr.

(** ** Eviction *)

Lemma queue_trim_spec cap q : 0 <= cap -> Forall (fun x => buffer_ok x.2) q ->
  queue_total (queue_trim cap q).2 <= cap /\ (exists d, q = d ++ (queue_trim cap q).2 /\ (queue_trim cap q).1 = d.*2).
Proof.
  intros Hc. induction 1 as [|[k b] q Hb Hq IH]; cbn [queue_trim]; [split; [done|by exists []]|].
  case_if; zbool; cbn [fst snd]; [split; [done|by exists []]|].
  destruct IH as [H1 (d & H2 & H3)]. destruct (queue_trim cap q) as [out rest]. cbn [fst snd] in *. split; [done|].
  exists ((k, b) :: d). cbn. by rewrite <- H2, H3.
Qed.

Lemma queue_trim_ok cap q : Forall (fun x => buffer_ok x.2) q -> Forall (fun x => buffer_ok x.2) (queue_trim cap q).2.
Proof.
  induction 1 as [|[k b] q Hb Hq IH]; cbn [queue_trim]; [constructor|]. case_if; cbn [snd]; [by constructor|].
  by destruct (queue_trim cap q).
Qed.

Lemma remove_head k b (rest : queue) : NoDup ((k, b) :: rest).*1 -> queue_remove k ((k, b) :: rest) = rest.
Proof. intros H. apply (queue_replace_split k b [] b rest H). Qed.

(** What stays the same when only the queue changes. *)
Definition same_settings (f f' : ReplacementFifo) : Prop :=
  base_capacity (fifo_base f') = base_capacity (fifo_base f) /\
  base_initialized (fifo_base f') = base_initialized (fifo_base f) /\ fifo_handler f' = fifo_handler f.

Lemma fifo_evict_loop_repr fuel f q :
  (length q < fuel)%nat -> fifo_repr f q -> base_used (fifo_base f) = queue_total q -> Forall (fun x => buffer_ok x.2) q ->
  let r := fifo_evict_loop fuel f in
  let out := queue_trim (base_capacity (fifo_base f)) q in
  r.1 = out.1 /\ fifo_repr r.2 out.2 /\ base_used (fifo_base r.2) = queue_total out.2 /\ same_settings f r.2 /\
  fifo_handled r.2 = fifo_handled f ++ (if fifo_handler f then out.1 else []).
Proof.
  revert f q. induction fuel as [|n IH]; intros f q Hf R Hu Hok; [lia|]. cbn zeta. cbn [fifo_evict_loop].
  destruct (base_used (fifo_base f) <=? base_capacity (fifo_base f)) eqn:E.
  { assert (queue_trim (base_capacity (fifo_base f)) q = ([], q)) as ->.
    { destruct q as [|[k b] q]; [done|]. cbn [queue_trim]. rewrite <- Hu. by rewrite E. }
    cbn [fst snd]. split_and!; try done. by destruct (fifo_handler f); rewrite app_nil_r. }
  pose proof (qr_front _ _ _ _ R) as Hfr. destruct (l_head (fifo_queue f)) as [i|].
  2:{ subst q. cbn [queue_trim fst snd]. split_and!; try done. by destruct (fifo_handler f); rewrite app_nil_r. }
  destruct Hfr as (b & rest & -> & Ei). set (k := arena_key (fifo_arena f) i) in *.
  pose proof (qr_remove _ _ _ _ R k _ Ei) as R'. rewrite remove_head in R' by apply (qr_nodup _ _ _ _ R). cbn [fe_node] in R'.
  unfold fifo_unlink_release. destruct (list_unlink (fifo_queue f) i (fifo_arena f)) as [l1 a1]. cbn [fst snd] in R'.
  cbn [fifo_index fifo_set_lists]. rewrite Ei. cbn [fe_buffer].
  pose proof (Forall_inv Hok) as Hb. pose proof (Forall_inv_tail Hok) as Hrest. cbn [snd] in Hb.
  pose proof (space_nonneg b Hb). pose proof (queue_total_nonneg rest Hrest).
  assert (queue_total ((k, b) :: rest) = cache_buffer_space b + queue_total rest) as Et by done. rewrite Et in Hu.
  assert ((queue_total ((k, b) :: rest) <=? base_capacity (fifo_base f)) = false) as Ht by (rewrite Et, <- Hu; done).
  set (f1 := fifo_notify b _).
  assert (fifo_repr f1 rest /\ base_used (fifo_base f1) = queue_total rest /\ same_settings f f1 /\
          fifo_handled f1 = fifo_handled f ++ (if fifo_handler f then [b] else [])) as (R1 & U1 & S1 & N1).
  { assert (base_used (fifo_base f) -! cache_buffer_space b = queue_total rest) as Hs by (rewrite sat_sub_exact; lia).
    unfold f1, fifo_notify, fifo_repr, same_settings. cbn. destruct (fifo_handler f) eqn:Eh; cbn; rewrite ?app_nil_r; by split_and!. }
  destruct (IH f1 rest) as (I1 & I2 & I3 & I4 & I5); [cbn [length] in *; lia|done|done|done|].
  destruct (fifo_evict_loop n f1) as [more f2]. cbn [queue_trim]. rewrite Ht. destruct S1 as (S1 & S2 & S3). rewrite S1, S3 in *.
  destruct (queue_trim (base_capacity (fifo_base f)) rest) as [out q']. cbn [fst snd] in *. subst more.
  split_and!; [done|done|done|destruct I4 as (X1 & X2 & X3); unfold same_settings; split_and!; congruence|]. rewrite I5, N1.
  destruct (fifo_handler f); [by rewrite <- app_assoc|by rewrite !app_nil_r].
Qed.

Lemma queue_fits_arena f q : fifo_repr f q -> (length q <= length (a_nodes (fifo_arena f)))%nat.
Proof.
  intros [(ns & [F _ Hk]) _]. specialize (Hk tt). cbn beta in Hk. rewrite <- (length_fmap fst q), Hk, length_fmap.
  apply (spells_length _ _ _ (f_spells _ _ _ F tt _ eq_refl)).
Qed.

Lemma fifo_evict_repr f q :
  fifo_repr f q -> base_used (fifo_base f) = queue_total q -> Forall (fun x => buffer_ok x.2) q ->
  let r := fifo_evict_to_capacity f in
  let out := queue_trim (base_capacity (fifo_base f)) q in
  r.1 = out.1 /\ fifo_repr r.2 out.2 /\ base_used (fifo_base r.2) = queue_total out.2 /\ same_settings f r.2 /\
  fifo_handled r.2 = fifo_handled f ++ (if fifo_handler f then out.1 else []).
Proof. intros R. pose proof (queue_fits_arena f q R). apply fifo_evict_loop_repr; [lia|done]. Qed.

(** ** Histories *)

Inductive FifoOp :=
| FifoPut (b : CacheBuffer)
| FifoUpdate (k : string) (old : bytes) (b : CacheBuffer)
| FifoDelete (k : string)
| FifoSetCapacity (capacity : Z)
| FifoReset.

Inductive FifoOut := Evicted (bs : list CacheBuffer) | Updated (r : result unit) | Deleted (b : option CacheBuffer) | Panicked | Done.

Definition fifo_step (f : ReplacementFifo) (op : FifoOp) : FifoOut * ReplacementFifo :=
  match op with
  | FifoPut b => let '(out, f) := fifo_put b f in (Evicted out, f)
  | FifoUpdate k old b => let '(r, f) := fifo_update_cache_buffer k old b f in (Updated r, f)
  | FifoDelete k => let '(b, f) := fifo_delete k f in (Deleted b, f)
  | FifoSetCapacity c => match fifo_set_capacity c f with Some f => (Done, f) | None => (Panicked, f) end
  | FifoReset => (Done, fifo_reset f)
  end.

(** A queue of buffers in the order their keys first came, with a byte
    capacity. *)
Record bounded_queue := mkQueue { bq_items : queue; bq_capacity : Z }.

Definition queue_step (m : bounded_queue) (op : FifoOp) : FifoOut * bounded_queue :=
  match op with
  | FifoPut b =>
      if bool_decide (buf_key b = "") then (Evicted [], m)
      else
        let q := match queue_find (buf_key b) (bq_items m) with
                 | Some _ => queue_replace (buf_key b) b (bq_items m)
                 | None => bq_items m ++ [(buf_key b, b)]
                 end in
        let '(out, q) := queue_trim (bq_capacity m) q in (Evicted out, mkQueue q (bq_capacity m))
  | FifoUpdate k old b =>
      match queue_find k (bq_items m) with
      | None => (Updated (Err NotFound), m)
      | Some b0 => if bool_decide (buf_value b0 = old)
                   then (Updated (Ok tt), mkQueue (queue_trim (bq_capacity m) (queue_replace k b (bq_items m))).2 (bq_capacity m))
                   else (Updated (Err ReplaceMismatch), m)
      end
  | FifoDelete k => (Deleted (queue_find k (bq_items m)), mkQueue (queue_remove k (bq_items m)) (bq_capacity m))
  | FifoSetCapacity c => if 0 <? c then (Done, mkQueue (queue_trim c (bq_items m)).2 c) else (Panicked, m)
  | FifoReset => (Done, mkQueue [] (bq_capacity m))
  end.

(** Sizes and capacities under 2^63, as any that fit in memory are. *)
Definition fifo_op_ok (op : FifoOp) : Prop :=
  match op with
  | FifoPut b | FifoUpdate _ _ b => buffer_ok b /\ cache_buffer_space b < 2 ^ 63
  | FifoSetCapacity c => c < 2 ^ 63
  | _ => True
  end.

Record fifo_inv (f : ReplacementFifo) (m : bounded_queue) : Prop := {
  fi_repr : fifo_repr f (bq_items m);
  fi_used : base_used (fifo_base f) = queue_total (bq_items m);
  fi_ok : Forall (fun x => buffer_ok x.2) (bq_items m);
  fi_capacity : base_capacity (fifo_base f) = bq_capacity m;
  fi_bounds : 0 < bq_capacity m < 2 ^ 63;
  fi_fits : queue_total (bq_items m) <= bq_capacity m;
  fi_initialized : base_initialized (fifo_base f) = true
}.

(** Trimming an exactly counted queue restores the invariant. *)
Lemma evict_inv f q c :
  fifo_repr f q -> base_used (fifo_base f) = queue_total q -> Forall (fun x => buffer_ok x.2) q ->
  base_capacity (fifo_base f) = c -> 0 < c < 2 ^ 63 -> base_initialized (fifo_base f) = true ->
  (fifo_evict_to_capacity f).1 = (queue_trim c q).1 /\ fifo_inv (fifo_evict_to_capacity f).2 (mkQueue (queue_trim c q).2 c).
Proof.
  intros R U Ok Ec Hc Hi. destruct (fifo_evict_repr f q R U Ok) as (H1 & H2 & H3 & (H4 & H5 & _) & _). rewrite Ec in *.
  split; [done|]. split; cbn [bq_items bq_capacity]; try done; [by apply queue_trim_ok|by apply queue_trim_spec; [lia|]|congruence].
Qed.

Lemma replace_inv f m k e b :
  fifo_inv f m -> fifo_index f !! k = Some e -> buffer_ok b -> cache_buffer_space b < 2 ^ 63 ->
  let f' := fifo_replace k e b f in
  fifo_repr f' (queue_replace k b (bq_items m)) /\ base_used (fifo_base f') = queue_total (queue_replace k b (bq_items m)) /\
  Forall (fun x => buffer_ok x.2) (queue_replace k b (bq_items m)).
Proof.
  intros [R U Ok Ec Hc Hf Hi] Ek Hb Hs f'. destruct (qr_entry _ _ _ _ R k e Ek) as (q1 & q2 & Eq).
  pose proof (qr_nodup _ _ _ _ R) as Hnd. pose proof (qr_replace _ _ _ _ R k e b Ek) as R'. rewrite Eq in *.
  rewrite (proj1 (queue_replace_split k b q1 _ q2 Hnd)) in *. split; [done|]. cbn. rewrite U, !queue_total_app in *. cbn in *.
  apply Forall_app in Ok as [Ok1 [Ok2 Ok3]%Forall_cons]. cbn in Ok2. pose proof (space_nonneg _ Ok2). pose proof (space_nonneg _ Hb).
  pose proof (queue_total_nonneg _ Ok1). pose proof (queue_total_nonneg _ Ok3). unfold queue_total in *.
  rewrite sat_sub_exact, sat_add_exact by (unfold u64_max; lia). split; [lia|]. apply Forall_app. by repeat constructor.
Qed.

Lemma step_inv f m op : fifo_inv f m -> fifo_op_ok op ->
  (fifo_step f op).1 = (queue_step m op).1 /\ fifo_inv (fifo_step f op).2 (queue_step m op).2.
Proof.
  intros I Hop. pose proof I as [R U Ok Ec Hc Hf Hi]. destruct op as [b|k old b|k|c|]; cbn [fifo_step queue_step fifo_op_ok] in *.
  - destruct Hop as [Hb Hs]. unfold fifo_put. rewrite Hi. cbn [negb]. case_bool_decide as Ek; [done|].
    rewrite <- (qr_find _ _ _ _ R (buf_key b)). set (f1 := match fifo_index f !! buf_key b with Some _ => _ | None => _ end).
    set (q1 := match fe_buffer <$> _ with Some _ => _ | None => _ end).
    assert (fifo_repr f1 q1 /\ base_used (fifo_base f1) = queue_total q1 /\ Forall (fun x => buffer_ok x.2) q1 /\
            base_capacity (fifo_base f1) = bq_capacity m /\ base_initialized (fifo_base f1) = true) as (R1 & U1 & O1 & C1 & I1).
    { unfold f1, q1. destruct (fifo_index f !! buf_key b) as [e|] eqn:Ei; cbn [fmap option_fmap option_map].
      - destruct (replace_inv f m (buf_key b) e b I Ei Hb Hs) as (X1 & X2 & X3). by split_and!.
      - pose proof (qr_append _ _ _ _ R (buf_key b) b Ei) as X. destruct (arena_alloc (buf_key b) (fifo_arena f)) as [i a].
        cbn [fst snd] in X. destruct (list_link_back (fifo_queue f) i a) as [l a']. cbn. split_and!; try done.
        + rewrite U, queue_total_app. cbn. pose proof (space_nonneg _ Hb). pose proof (queue_total_nonneg _ Ok).
          rewrite sat_add_exact by (unfold u64_max; lia). lia.
        + apply Forall_app. by repeat constructor. }
    destruct (evict_inv f1 q1 _ R1 U1 O1 C1 Hc I1) as [E I2]. destruct (fifo_evict_to_capacity f1), (queue_trim _ q1).
    cbn [fst snd] in *. by subst.
  - destruct Hop as [Hb Hs]. unfold fifo_update_cache_buffer. rewrite <- (qr_find _ _ _ _ R k).
    destruct (fifo_index f !! k) as [e|] eqn:Ei; cbn [fmap option_fmap option_map]; [|done]. case_bool_decide; [|done]. cbn [fst snd].
    split; [done|]. destruct (replace_inv f m k e b I Ei Hb Hs) as (X1 & X2 & X3). by apply evict_inv.
  - unfold fifo_delete. rewrite <- (qr_find _ _ _ _ R k). destruct (fifo_index f !! k) as [e|] eqn:Ei; cbn [fmap option_fmap option_map].
    + split; [done|]. destruct (qr_entry _ _ _ _ R k e Ei) as (q1 & q2 & Eq). pose proof (qr_nodup _ _ _ _ R) as Hnd.
      pose proof (qr_remove _ _ _ _ R k e Ei) as R'. cbn [fst snd]. unfold fifo_unlink_release. cbn.
      destruct (list_unlink (fifo_queue f) (fe_node e) (fifo_arena f)) as [l a]. cbn [fst snd] in R'. rewrite Eq in *.
      rewrite (proj2 (queue_replace_split k (fe_buffer e) q1 _ q2 Hnd)) in *. rewrite queue_total_app, queue_total_cons in *.
      apply Forall_app in Ok as [Ok1 [Ok2 Ok3]%Forall_cons]. cbn [snd] in *. pose proof (space_nonneg _ Ok2).
      pose proof (queue_total_nonneg _ Ok1). pose proof (queue_total_nonneg _ Ok3).
      split; try done; cbn [bq_items bq_capacity]; [|by apply Forall_app|]; rewrite queue_total_app; [|lia].
      change (base_used (fifo_base f) -! cache_buffer_space (fe_buffer e) = queue_total q1 + queue_total q2).
      rewrite sat_sub_exact; lia.
    + assert (k ∉ (bq_items m).*1) as Hk.
      { apply queue_find_none. rewrite <- (qr_find _ _ _ _ R k). by rewrite Ei. }
      assert (queue_remove k (bq_items m) = bq_items m) as ->; [|by destruct m].
      clear -Hk. unfold queue_remove. induction (bq_items m) as [|[j b] q IH]; [done|]. rewrite fmap_cons, not_elem_of_cons in Hk.
      destruct Hk. rewrite filter_cons, decide_True by done. f_equal. by apply IH.
  - unfold fifo_set_capacity, base_set_capacity. case_if; zbool; cbn [fmap option_fmap option_map fst snd]; [|done]. split; [done|].
    by apply evict_inv.
  - split; [done|]. split; cbn; try done; [|lia]. split; [|done].
    eapply keyed_ext; [| | |apply (keyed_empty (fun _ : unit => Some new_list))]; try done. by intros [] l [= <-].
Qed.

(** A history and what each operation answered. *)
Fixpoint fifo_run (ops : list FifoOp) (f : ReplacementFifo) : list FifoOut * ReplacementFifo :=
  match ops with
  | [] => ([], f)
  | op :: rest => let '(o, f) := fifo_step f op in let '(os, f) := fifo_run rest f in (o :: os, f)
  end.
Fixpoint queue_run (ops : list FifoOp) (m : bounded_queue) : list FifoOut * bounded_queue :=
  match ops with
  | [] => ([], m)
  | op :: rest => let '(o, m) := queue_step m op in let '(os, m) := queue_run rest m in (o :: os, m)
  end.

Lemma run_inv ops f m : fifo_inv f m -> Forall fifo_op_ok ops ->
  (fifo_run ops f).1 = (queue_run ops m).1 /\ fifo_inv (fifo_run ops f).2 (queue_run ops m).2.
Proof.
  intros I Hops. revert f m I. induction Hops as [|op ops Hop Hops IH]; intros f m I; [done|]. cbn [fifo_run queue_run].
  destruct (step_inv f m op I Hop) as [E I1]. destruct (fifo_step f op) as [o f1], (queue_step m op) as [o' m1]. cbn [fst snd] in *.
  destruct (IH f1 m1 I1) as [E' I2]. destruct (fifo_run ops f1), (queue_run ops m1). cbn [fst snd] in *. by subst.
Qed.

Lemma new_inv capacity f : 0 < capacity < 2 ^ 63 -> fifo_new capacity = Some f -> fifo_inv (fifo_init f) (mkQueue [] capacity).
Proof.
  intros Hc. unfold fifo_new, base_new. rewrite (proj2 (Z.ltb_lt 0 capacity)) by lia. intros [= <-].
  split; cbn; try done; [|lia]. split; [|done].
  eapply keyed_ext; [| | |apply (keyed_empty (fun _ : unit => Some new_list))]; try done. by intros [] l [= <-].
Qed.

(** C17. An initialised first-in-first-out policy is a bounded queue: whatever
    the history, every operation answers as the queue does (the buffers
    evicted, oldest first; the outcome of an update; what a deletion found),
    lookups agree, the byte count is exact and never above the capacity once
    an operation has returned. *)
Theorem fifo_refines_queue capacity f ops k :
  0 < capacity < 2 ^ 63 -> fifo_new capacity = Some f -> Forall fifo_op_ok ops ->
  let r := fifo_run ops (fifo_init f) in
  let m := queue_run ops (mkQueue [] capacity) in
  r.1 = m.1 /\ fifo_get k r.2 = queue_find k (bq_items m.2) /\
  base_used (fifo_base r.2) = queue_total (bq_items m.2) /\ base_used (fifo_base r.2) <= base_capacity (fifo_base r.2) /\
  fifo_item_count r.2 = Z.of_nat (length (bq_items m.2)).
Proof.
  intros Hc Hf Hops r m. destruct (run_inv ops _ _ (new_inv capacity f Hc Hf) Hops) as [E [R U Ok Ec Hb Hfit Hi]]. fold r m in E, R, U, Ec, Hfit.
  split_and!; [done|apply (qr_find _ _ _ _ R)|done|lia|]. unfold fifo_item_count. by rewrite (qr_size _ _ _ _ R).
Qed.

Definition demo_buffer (k : string) (n : nat) : CacheBuffer := mkBuffer k (replicate n Byte.x00) None None.
Definition demo_fifo_ops : list FifoOp :=
  [FifoPut (demo_buffer "a" 3); FifoPut (demo_buffer "b" 3); FifoPut (demo_buffer "a" 2); FifoPut (demo_buffer "c" 4)].

Lemma fifo_refines_queue_witness :
  exists f, fifo_new 10 = Some f /\ (fifo_run demo_fifo_ops (fifo_init f)).1 =
    [Evicted []; Evicted []; Evicted []; Evicted [demo_buffer "a" 2]].
Proof.
  exists (mkFifo (mkBase 10 0 false) ∅ new_arena new_list false []). split; [reflexivity|].
  destruct (fifo_refines_queue 10 (mkFifo (mkBase 10 0 false) ∅ new_arena new_list false []) demo_fifo_ops "b") as [E _];
    [lia|reflexivity| |].
  - repeat constructor; vm_compute; congruence.
  - rewrite E. vm_compute. reflexivity.
Defined.
