(* ===== verification/Slru.v ===== *)
(** * Segmented recency

    [ReplacementSlru] (runtime/replacement.rs): the keys are split by hash over
    shards, each with a hot, a warm and a cold list and a byte budget; all
    lists share one arena.  [DefaultHasher] is the parameter [hash_key]. *)

From S2P Require Import Prelude Types Hashes Dll KeyArena Fifo.

Definition BUFFER_INIT : Z := 4.
Definition BUFFER_FETCHED : Z := 8.
Definition BUFFER_ACTIVE : Z := 16.
Definition HOT_LRU : nat := 0.
Definition WARM_LRU : nat := 1.
Definition COLD_LRU : nat := 2.
Definition SLRU_DEFAULT_NUM_SEGMENTS : Z := 256.
Definition SLRU_DEFAULT_HOT_LRU_PCT : Z := 20.
Definition SLRU_DEFAULT_WARM_LRU_PCT : Z := 40.
Definition SLRU_LIST_COUNT : nat := 3.
Definition SLRU_MAX_NUM_SEGMENTS : Z := Z.shiftl 1 20.

Definition next_power_of_two (n : Z) : Z := 2 ^ Z.log2_up n.

Definition resolve_slru_num_segments (capacity requested : Z) : Z :=
  let requested := next_power_of_two (Z.max 1 (Z.min requested SLRU_MAX_NUM_SEGMENTS)) in
  if capacity <? requested then 1 else requested.

Record SlruEntry := mkSlruEntry {
  se_buffer : CacheBuffer;
  se_flag : Z;
  se_lru : nat;
  se_segment : nat;
  se_node : nat
}.

Record SlruSegment := mkSegment { sg_lists : list KeyList; sg_used : Z }.
Definition new_segment : SlruSegment := mkSegment (replicate SLRU_LIST_COUNT new_list) 0.

Inductive SlruTailAction := Orphan | MoveTo (lru : nat) (space : Z) | EvictTail.
Inductive SlruMaintainerStep := StepStop | StepMoved | StepEvicted (b : CacheBuffer).

Record ReplacementSlru := mkSlru {
  slru_base : ReplacementPolicyBase;
  slru_index : gmap string SlruEntry;
  slru_segments : list SlruSegment;
  slru_arena : KeyArena;
  num_segments : Z;
  bytes_each_segment : Z;
  hot_lru_pct : Z;
  warm_lru_pct : Z;
  lru_maintainer_enabled : bool;
  slru_handler : bool;
  slru_handled : list CacheBuffer
}.

Definition slru_with_num_segments (capacity requested : Z) : option ReplacementSlru :=
  (fun base =>
     let n := resolve_slru_num_segments capacity requested in
     mkSlru base ∅ (replicate (Z.to_nat n) new_segment) new_arena n (capacity / n)
       SLRU_DEFAULT_HOT_LRU_PCT SLRU_DEFAULT_WARM_LRU_PCT true false []) <$> base_new capacity.

(** ** Fields *)

Definition slru_set_index (ix : gmap string SlruEntry) (s : ReplacementSlru) : ReplacementSlru :=
  mkSlru (slru_base s) ix (slru_segments s) (slru_arena s) (num_segments s) (bytes_each_segment s)
    (hot_lru_pct s) (warm_lru_pct s) (lru_maintainer_enabled s) (slru_handler s) (slru_handled s).
Definition slru_set_segments (sgs : list SlruSegment) (s : ReplacementSlru) : ReplacementSlru :=
  mkSlru (slru_base s) (slru_index s) sgs (slru_arena s) (num_segments s) (bytes_each_segment s)
    (hot_lru_pct s) (warm_lru_pct s) (lru_maintainer_enabled s) (slru_handler s) (slru_handled s).
Definition slru_set_arena (a : KeyArena) (s : ReplacementSlru) : ReplacementSlru :=
  mkSlru (slru_base s) (slru_index s) (slru_segments s) a (num_segments s) (bytes_each_segment s)
    (hot_lru_pct s) (warm_lru_pct s) (lru_maintainer_enabled s) (slru_handler s) (slru_handled s).
Definition slru_set_base (b : ReplacementPolicyBase) (bytes_each : Z) (s : ReplacementSlru) : ReplacementSlru :=
  mkSlru b (slru_index s) (slru_segments s) (slru_arena s) (num_segments s) bytes_each
    (hot_lru_pct s) (warm_lru_pct s) (lru_maintainer_enabled s) (slru_handler s) (slru_handled s).
Definition slru_set_tuning (hot warm : Z) (enabled : bool) (s : ReplacementSlru) : ReplacementSlru :=
  mkSlru (slru_base s) (slru_index s) (slru_segments s) (slru_arena s) (num_segments s) (bytes_each_segment s)
    hot warm enabled (slru_handler s) (slru_handled s).
Definition slru_notify (b : CacheBuffer) (s : ReplacementSlru) : ReplacementSlru :=
  if slru_handler s then
    mkSlru (slru_base s) (slru_index s) (slru_segments s) (slru_arena s) (num_segments s) (bytes_each_segment s)
      (hot_lru_pct s) (warm_lru_pct s) (lru_maintainer_enabled s) true (slru_handled s ++ [b])
  else s.

(** [self.segments[segment].lists[lru]]; both indices are always in range. *)
Definition seg_list (s : ReplacementSlru) (sg lru : nat) : option KeyList := slru_segments s !! sg ≫= fun x => sg_lists x !! lru.
Definition get_list (s : ReplacementSlru) (sg lru : nat) : KeyList := default new_list (seg_list s sg lru).
Definition segment_used (s : ReplacementSlru) (sg : nat) : Z := default 0 (sg_used <$> slru_segments s !! sg).

Definition set_list (sg lru : nat) (l : KeyList) (s : ReplacementSlru) : ReplacementSlru :=
  slru_set_segments (alter (fun x => mkSegment (<[lru := l]> (sg_lists x)) (sg_used x)) sg (slru_segments s)) s.
Definition add_used (sg : nat) (f : Z -> Z) (s : ReplacementSlru) : ReplacementSlru :=
  slru_set_segments (alter (fun x => mkSegment (sg_lists x) (f (sg_used x))) sg (slru_segments s)) s.

(** ** Lists *)

Definition attach_front (sg lru node : nat) (space : Z) (s : ReplacementSlru) : ReplacementSlru :=
  let '(l, a) := list_link_front (get_list s sg lru) node (slru_arena s) in
  add_used sg (fun u => u +! space) (set_list sg lru (with_used (fun u => u +! space) l) (slru_set_arena a s)).

Definition detach (sg lru node : nat) (space : Z) (s : ReplacementSlru) : ReplacementSlru :=
  let '(l, a) := list_unlink (get_list s sg lru) node (slru_arena s) in
  add_used sg (fun u => u -! space) (set_list sg lru (with_used (fun u => u -! space) l) (slru_set_arena a s)).

Definition move_node (sg from to node : nat) (space : Z) (s : ReplacementSlru) : ReplacementSlru :=
  let '(l, a) := list_unlink (get_list s sg from) node (slru_arena s) in
  let s := set_list sg from (with_used (fun u => u -! space) l) (slru_set_arena a s) in
  let '(l, a) := list_link_front (get_list s sg to) node (slru_arena s) in
  set_list sg to (with_used (fun u => u +! space) l) (slru_set_arena a s).

Definition release_node (node : nat) (s : ReplacementSlru) : ReplacementSlru :=
  slru_set_arena (arena_release node (slru_arena s)) s.
Definition list_tail (s : ReplacementSlru) (sg lru : nat) : link := l_tail (get_list s sg lru).
Definition node_key (s : ReplacementSlru) (node : nat) : string := arena_key (slru_arena s) node.

Definition segment_len (s : ReplacementSlru) (sg : nat) : Z :=
  foldr (fun l acc => l_len l + acc) 0 (default [] (sg_lists <$> slru_segments s !! sg)).
Definition drain_budget (s : ReplacementSlru) (sg : nat) : Z := Z.min u64_max (segment_len s sg * 4) +! 4.

Definition drop_orphan_node (sg lru node : nat) (s : ReplacementSlru) : ReplacementSlru :=
  release_node node (detach sg lru node 0 s).

Definition evict_key (key : string) (s : ReplacementSlru) : option CacheBuffer * ReplacementSlru :=
  match slru_index s !! key with
  | None => (None, s)
  | Some e =>
      let s := slru_set_index (delete key (slru_index s)) s in
      let s := detach (se_segment e) (se_lru e) (se_node e) (cache_buffer_space (se_buffer e)) s in
      let s := release_node (se_node e) s in
      (Some (se_buffer e), slru_notify (se_buffer e) s)
  end.

(** Write through [get_mut]. *)
Definition set_entry (key : string) (e : SlruEntry) (flag : Z) (lru : nat) (s : ReplacementSlru) : ReplacementSlru :=
  slru_set_index (<[key := mkSlruEntry (se_buffer e) flag lru (se_segment e) (se_node e)]> (slru_index s)) s.

(** ** Draining a shard *)

Definition try_evict_or_shuffle_cold (sg : nat) (s : ReplacementSlru) : option CacheBuffer * ReplacementSlru :=
  match list_tail s sg COLD_LRU with
  | None => (None, s)
  | Some node =>
      let key := node_key s node in
      match slru_index s !! key with
      | None => (None, drop_orphan_node sg COLD_LRU node s)
      | Some e =>
          if BUFFER_FETCHED <=? se_flag e then
            let s := set_entry key e BUFFER_ACTIVE WARM_LRU s in
            (None, move_node sg COLD_LRU WARM_LRU node (cache_buffer_space (se_buffer e)) s)
          else evict_key key s
      end
  end.

Definition shuffle_hot_tail (sg : nat) (s : ReplacementSlru) : bool * ReplacementSlru :=
  match list_tail s sg HOT_LRU with
  | None => (false, s)
  | Some node =>
      let key := node_key s node in
      match slru_index s !! key with
      | None => (true, drop_orphan_node sg HOT_LRU node s)
      | Some e =>
          let space := cache_buffer_space (se_buffer e) in
          if BUFFER_FETCHED <=? se_flag e
          then (true, move_node sg HOT_LRU WARM_LRU node space (set_entry key e BUFFER_ACTIVE WARM_LRU s))
          else (true, move_node sg HOT_LRU COLD_LRU node space (set_entry key e (se_flag e) COLD_LRU s))
      end
  end.

Definition shuffle_warm_tail (sg : nat) (s : ReplacementSlru) : bool * ReplacementSlru :=
  match list_tail s sg WARM_LRU with
  | None => (false, s)
  | Some node =>
      let key := node_key s node in
      match slru_index s !! key with
      | None => (true, drop_orphan_node sg WARM_LRU node s)
      | Some e =>
          let space := cache_buffer_space (se_buffer e) in
          if BUFFER_ACTIVE <=? se_flag e
          then (true, move_node sg WARM_LRU WARM_LRU node space (set_entry key e BUFFER_FETCHED (se_lru e) s))
          else (true, move_node sg WARM_LRU COLD_LRU node space (set_entry key e (se_flag e) COLD_LRU s))
      end
  end.

Fixpoint force_evict_lists (sg : nat) (lrus : list nat) (s : ReplacementSlru) : option CacheBuffer * ReplacementSlru :=
  match lrus with
  | [] => (None, s)
  | lru :: rest =>
      match list_tail s sg lru with
      | None => force_evict_lists sg rest s
      | Some node =>
          let '(b, s) := evict_key (node_key s node) s in
          match b with
          | Some b => (Some b, s)
          | None => force_evict_lists sg rest (drop_orphan_node sg lru node s)
          end
      end
  end.
Definition force_evict_any_tail (sg : nat) (s : ReplacementSlru) : option CacheBuffer * ReplacementSlru :=
  force_evict_lists sg [COLD_LRU; HOT_LRU; WARM_LRU] s.

(** One turn: what it evicted and whether to go on. *)
Definition evict_turn (sg : nat) (s : ReplacementSlru) : list CacheBuffer * bool * ReplacementSlru :=
  let '(b, s) := try_evict_or_shuffle_cold sg s in
  match b with
  | Some b => ([b], true, s)
  | None =>
      let '(moved, s) := shuffle_hot_tail sg s in
      if moved then ([], true, s)
      else
        let '(moved, s) := shuffle_warm_tail sg s in
        if moved then ([], true, s)
        else
          let '(b, s) := force_evict_any_tail sg s in
          match b with Some b => ([b], true, s) | None => ([], false, s) end
  end.

(** [attempts <= budget] allows one turn more than the budget. *)
Fixpoint evict_segment_loop (attempts : nat) (sg : nat) (s : ReplacementSlru) : list CacheBuffer * ReplacementSlru :=
  match attempts with
  | O => ([], s)
  | S n =>
      if segment_used s sg <=? bytes_each_segment s then ([], s)
      else
        let '(out, more, s) := evict_turn sg s in
        if more then let '(rest, s) := evict_segment_loop n sg s in (out ++ rest, s) else (out, s)
  end.
Definition evict_segment (sg : nat) (s : ReplacementSlru) : list CacheBuffer * ReplacementSlru :=
  evict_segment_loop (Z.to_nat (drain_budget s sg + 1)) sg s.

(** ** The maintainer *)

Definition hot_byte_limit (s : ReplacementSlru) : Z := Z.min u64_max (bytes_each_segment s * hot_lru_pct s) / 100.
Definition warm_byte_limit (s : ReplacementSlru) : Z := Z.min u64_max (bytes_each_segment s * warm_lru_pct s) / 100.

Definition maintain_demote_tail (sg from : nat) (s : ReplacementSlru) : bool * ReplacementSlru :=
  match list_tail s sg from with
  | None => (false, s)
  | Some node =>
      let key := node_key s node in
      match slru_index s !! key with
      | None => (true, drop_orphan_node sg from node s)
      | Some e =>
          let target := if se_flag e =? BUFFER_ACTIVE then WARM_LRU else COLD_LRU in
          (true, move_node sg from target node (cache_buffer_space (se_buffer e)) (set_entry key e BUFFER_INIT target s))
      end
  end.

Definition maintain_cold_tail (sg : nat) (s : ReplacementSlru) : SlruMaintainerStep * ReplacementSlru :=
  match list_tail s sg COLD_LRU with
  | None => (StepStop, s)
  | Some node =>
      let key := node_key s node in
      match slru_index s !! key with
      | None => (StepMoved, drop_orphan_node sg COLD_LRU node s)
      | Some e =>
          if se_flag e =? BUFFER_ACTIVE then
            (StepMoved, move_node sg COLD_LRU WARM_LRU node (cache_buffer_space (se_buffer e)) (set_entry key e BUFFER_INIT WARM_LRU s))
          else
            let '(b, s) := evict_key key s in
            match b with Some b => (StepEvicted b, s) | None => (StepStop, s) end
      end
  end.

Fixpoint demote_loop (attempts : nat) (sg from : nat) (limit : Z) (s : ReplacementSlru) : ReplacementSlru :=
  match attempts with
  | O => s
  | S n =>
      if l_used (get_list s sg from) <=? limit then s
      else let '(more, s) := maintain_demote_tail sg from s in if more then demote_loop n sg from limit s else s
  end.

Fixpoint cold_loop (attempts : nat) (sg : nat) (s : ReplacementSlru) : list CacheBuffer * ReplacementSlru :=
  match attempts with
  | O => ([], s)
  | S n =>
      if segment_used s sg <=? bytes_each_segment s then ([], s)
      else
        let '(step, s) := maintain_cold_tail sg s in
        match step with
        | StepStop => ([], s)
        | StepMoved => cold_loop n sg s
        | StepEvicted b => let '(rest, s) := cold_loop n sg s in (b :: rest, s)
        end
  end.

Definition maintain_segment (sg : nat) (s : ReplacementSlru) : list CacheBuffer * ReplacementSlru :=
  let attempts := Z.to_nat (drain_budget s sg + 1) in
  let s := demote_loop attempts sg HOT_LRU (hot_byte_limit s) s in
  let s := demote_loop attempts sg WARM_LRU (warm_byte_limit s) s in
  cold_loop attempts sg s.

(** ** Operations *)

Section operations.
Context (hash_key : string -> Z).

Definition pick_segment (key : string) (s : ReplacementSlru) : nat :=
  if num_segments s <=? 1 then 0%nat else Z.to_nat (Z.land (hash_key key) (num_segments s - 1)).

Definition slru_init (s : ReplacementSlru) : ReplacementSlru := slru_set_base (base_init (slru_base s)) (bytes_each_segment s) s.

Definition slru_reset (s : ReplacementSlru) : ReplacementSlru :=
  let s := slru_set_index ∅ s in
  let s := slru_set_segments ((fun x => mkSegment ((fun _ => new_list) <$> sg_lists x) 0) <$> slru_segments s) s in
  let s := slru_set_arena new_arena s in
  slru_set_base (mkBase (base_capacity (slru_base s)) 0 (base_initialized (slru_base s))) (bytes_each_segment s) s.

(** Take the entry of a key out, if it has one. *)
Definition slru_delete (key : string) (s : ReplacementSlru) : option CacheBuffer * ReplacementSlru :=
  match slru_index s !! key with
  | None => (None, s)
  | Some e =>
      let s := slru_set_index (delete key (slru_index s)) s in
      let s := detach (se_segment e) (se_lru e) (se_node e) (cache_buffer_space (se_buffer e)) s in
      (Some (se_buffer e), release_node (se_node e) s)
  end.

Definition slru_put (buffer : CacheBuffer) (s : ReplacementSlru) : list CacheBuffer * ReplacementSlru :=
  if negb (base_initialized (slru_base s)) then ([], s)
  else
    let key := buf_key buffer in
    if bool_decide (key = "") then ([], s)
    else
      let sg := pick_segment key s in
      let s := snd (slru_delete key s) in
      let space := cache_buffer_space buffer in
      let '(node, a) := arena_alloc key (slru_arena s) in
      let s := attach_front sg HOT_LRU node space (slru_set_arena a s) in
      let s := slru_set_index (<[key := mkSlruEntry buffer BUFFER_INIT HOT_LRU sg node]> (slru_index s)) s in
      let '(out, s) := if lru_maintainer_enabled s then maintain_segment sg s else ([], s) in
      let '(more, s) := evict_segment sg s in
      (out ++ more, s).

Definition slru_update_cache_buffer (key : string) (old_data : bytes) (buffer : CacheBuffer) (s : ReplacementSlru)
    : result unit * ReplacementSlru :=
  match slru_index s !! key with
  | None => (Err NotFound, s)
  | Some e =>
      if bool_decide (buf_value (se_buffer e) = old_data) then
        let old_space := cache_buffer_space (se_buffer e) in
        let new_space := cache_buffer_space buffer in
        let count u := u -! old_space +! new_space in
        let sg := se_segment e in
        let s := slru_set_index (<[key := mkSlruEntry buffer (se_flag e) (se_lru e) sg (se_node e)]> (slru_index s)) s in
        let s := set_list sg (se_lru e) (with_used count (get_list s sg (se_lru e))) s in
        let s := add_used sg count s in
        (Ok tt, snd (evict_segment sg s))
      else (Err ReplaceMismatch, s)
  end.

Definition slru_get (key : string) (s : ReplacementSlru) : option CacheBuffer * ReplacementSlru :=
  match slru_index s !! key with
  | None => (None, s)
  | Some e =>
      let flag := if se_flag e =? BUFFER_INIT then BUFFER_FETCHED else BUFFER_ACTIVE in
      (Some (se_buffer e), set_entry key e flag (se_lru e) s)
  end.
Definition slru_peek (key : string) (s : ReplacementSlru) : option CacheBuffer := se_buffer <$> slru_index s !! key.

Definition slru_set_capacity (capacity : Z) (s : ReplacementSlru) : option ReplacementSlru :=
  (fun b =>
     let s := slru_set_base b (base_capacity b / num_segments s) s in
     fold_left (fun s sg => snd (evict_segment sg s)) (seq 0 (Z.to_nat (num_segments s))) s)
  <$> base_set_capacity capacity (slru_base s).

Definition run_lru_maintainer_pass (s : ReplacementSlru) : list CacheBuffer * ReplacementSlru :=
  if negb (base_initialized (slru_base s)) || negb (lru_maintainer_enabled s) then ([], s)
  else fold_left (fun acc sg => let '(out, s) := maintain_segment sg acc.2 in (acc.1 ++ out, s))
         (seq 0 (Z.to_nat (num_segments s))) ([], s).

Definition slru_used_space (s : ReplacementSlru) : Z := foldr (fun x acc => sg_used x + acc) 0 (slru_segments s).
Definition slru_item_count (s : ReplacementSlru) : Z := Z.of_nat (size (slru_index s)).
Definition list_used_size (s : ReplacementSlru) (sg lru : nat) : Z := default 0 (l_used <$> seg_list s sg lru).
Definition list_item_count (s : ReplacementSlru) (sg lru : nat) : Z := default 0 (l_len <$> seg_list s sg lru).
Definition set_hot_lru_pct (pct : Z) (s : ReplacementSlru) : ReplacementSlru :=
  slru_set_tuning (Z.min pct 100) (warm_lru_pct s) (lru_maintainer_enabled s) s.
Definition set_warm_lru_pct (pct : Z) (s : ReplacementSlru) : ReplacementSlru :=
  slru_set_tuning (hot_lru_pct s) (Z.min pct 100) (lru_maintainer_enabled s) s.
Definition config_lru_maintainer (status : bool) (s : ReplacementSlru) : ReplacementSlru :=
  slru_set_tuning (hot_lru_pct s) (warm_lru_pct s) status s.
End operations.
