(* ===== verification/SlruFacts.v ===== *)
(** * Segmented recency: the shards and their byte counts *)

From S2P Require Import Prelude Types Hashes Dll KeyArena KeyedLists Fifo FifoSpec Slru.

Abbreviation list_id := (nat * nat)%type.

Definition entry_space (e : SlruEntry) : Z := cache_buffer_space (se_buffer e).
Definition space_of (ix : gmap string SlruEntry) (k : string) : Z := default 0 (entry_space <$> ix !! k).
Definition spaces (ix : gmap string SlruEntry) (l : list string) : Z := foldr (fun k acc => space_of ix k + acc) 0 l.

Definition lists_of (s : ReplacementSlru) (id : list_id) : option KeyList := seg_list s id.1 id.2.
Definition entry_id (e : SlruEntry) : list_id := (se_segment e, se_lru e).
Definition places (s : ReplacementSlru) (k : string) : option (list_id * nat) :=
  (fun e => (entry_id e, se_node e)) <$> slru_index s !! k.

(** The keys of every list, the byte counts they add up to. *)
Record slru_repr (s : ReplacementSlru) (ks : list_id -> list string) : Prop := {
  sr_keyed : keyed (slru_arena s) (lists_of s) (places s) ks;
  sr_list_used : forall id l, lists_of s id = Some l -> l_used l = spaces (slru_index s) (ks id);
  sr_segment : forall sg x, slru_segments s !! sg = Some x ->
    length (sg_lists x) = SLRU_LIST_COUNT /\
    sg_used x = spaces (slru_index s) (ks (sg, HOT_LRU)) + spaces (slru_index s) (ks (sg, WARM_LRU))
              + spaces (slru_index s) (ks (sg, COLD_LRU));
  sr_used : slru_used_space s = map_sum entry_space (slru_index s);
  sr_total : map_sum entry_space (slru_index s) <= u64_max;
  sr_buffers : forall k e, slru_index s !! k = Some e -> buffer_ok (se_buffer e)
}.

Lemma space_of_nonneg ix k : (forall k e, ix !! k = Some e -> buffer_ok (se_buffer e)) -> 0 <= space_of ix k.
Proof. intros H. unfold space_of. destruct (ix !! k) as [e|] eqn:E; cbn; [|done]. apply space_nonneg. by eapply H. Qed.

Lemma spaces_cons ix k l : spaces ix (k :: l) = space_of ix k + spaces ix l.
Proof. done. Qed.

Lemma spaces_nonneg ix l : (forall k e, ix !! k = Some e -> buffer_ok (se_buffer e)) -> 0 <= spaces ix l.
Proof. intros H. induction l as [|k l IH]; [done|]. rewrite spaces_cons. pose proof (space_of_nonneg ix k H). lia. Qed.

Lemma spaces_ext ix ix' l : (forall k, k ∈ l -> space_of ix' k = space_of ix k) -> spaces ix' l = spaces ix l.
Proof. induction l as [|k l IH]; intros H; [done|]. rewrite !spaces_cons, H by set_solver. rewrite IH; [done|]. intros; apply H. set_solver. Qed.

Lemma spaces_without ix k l : NoDup l -> k ∈ l -> spaces ix l = space_of ix k + spaces ix (without k l).
Proof.
  intros Hnd Hk. apply list_elem_of_split in Hk as (l1 & l2 & ->). rewrite without_split by done. clear Hnd.
  induction l1 as [|x l1 IH]; [done|]. cbn [app]. rewrite !spaces_cons, IH. lia.
Qed.

(** ** Reading through the updates *)

Lemma lists_set_list sg lru l s id :
  is_Some (lists_of s (sg, lru)) -> lists_of (set_list sg lru l s) id = set_at (sg, lru) (Some l) (lists_of s) id.
Proof.
  unfold lists_of, seg_list, set_list. destruct id as [sg' lru']; cbn. intros [x Hx].
  destruct (slru_segments s !! sg) as [y|] eqn:Ey; [|done]. cbn in Hx. unfold set_at.
  destruct (decide (sg' = sg)) as [->|Hne].
  - rewrite list_lookup_alter_eq, Ey. cbn. destruct (decide (lru' = lru)) as [->|Hl].
    + rewrite decide_True by done. apply list_lookup_insert_eq. apply (lookup_lt_Some _ _ _ Hx).
    + rewrite decide_False by congruence. rewrite list_lookup_insert_ne by done. by rewrite Ey.
  - rewrite list_lookup_alter_ne by done. by rewrite decide_False by congruence.
Qed.

Lemma lists_add_used sg f s id : lists_of (add_used sg f s) id = lists_of s id.
Proof.
  unfold lists_of, seg_list, add_used. destruct id as [sg' lru]; cbn. destruct (decide (sg' = sg)) as [->|Hne].
  - rewrite list_lookup_alter_eq. by destruct (slru_segments s !! sg).
  - by rewrite list_lookup_alter_ne.
Qed.

Lemma foldr_alter_used (g : SlruSegment -> SlruSegment) (sgs : list SlruSegment) i x :
  sgs !! i = Some x ->
  foldr (fun x acc => sg_used x + acc) 0 (alter g i sgs) = foldr (fun x acc => sg_used x + acc) 0 sgs + (sg_used (g x) - sg_used x).
Proof.
  revert i. induction sgs as [|z sgs IH]; intros [|i] H; cbn in *; [done|done|injection H as ->; lia|]. rewrite (IH i H). lia.
Qed.

Lemma segment_used_le s sg x : (forall y, y ∈ slru_segments s -> 0 <= sg_used y) ->
  slru_segments s !! sg = Some x -> sg_used x <= slru_used_space s.
Proof.
  unfold slru_used_space. generalize (slru_segments s). intros sgs. revert sg. induction sgs as [|y sgs IH]; intros [|i] Hn H; cbn in *; [done|done|..].
  - injection H as ->. assert (0 <= foldr (fun x acc => sg_used x + acc) 0 sgs); [|lia]. clear -Hn.
    induction sgs as [|z sgs IH]; cbn; [done|]. assert (0 <= sg_used z) by (apply Hn; set_solver). assert (0 <= foldr (fun x acc => sg_used x + acc) 0 sgs); [|lia].
    apply IH. intros y Hy. apply Hn. set_solver.
  - assert (0 <= sg_used y) by (apply Hn; set_solver). assert (sg_used x <= foldr (fun x acc => sg_used x + acc) 0 sgs); [|lia].
    eapply IH; [|done]. intros z Hz. apply Hn. set_solver.
Qed.

Lemma seg_list_Some s sg lru l : lists_of s (sg, lru) = Some l ->
  exists x, slru_segments s !! sg = Some x /\ sg_lists x !! lru = Some l /\ get_list s sg lru = l.
Proof.
  unfold lists_of, get_list, seg_list. cbn. destruct (slru_segments s !! sg) as [x|]; [|done]. cbn. intros E. exists x. by rewrite E.
Qed.

(** Replacing one list and the count of its segment. *)
Definition put_list (sg lru : nat) (l : KeyList) (f : Z -> Z) (a : KeyArena) (s : ReplacementSlru) : ReplacementSlru :=
  add_used sg f (set_list sg lru l (slru_set_arena a s)).

Lemma put_list_lists sg lru l f a s id :
  is_Some (lists_of s (sg, lru)) -> lists_of (put_list sg lru l f a s) id = set_at (sg, lru) (Some l) (lists_of s) id.
Proof. intros H. unfold put_list. rewrite lists_add_used. by apply (lists_set_list sg lru l (slru_set_arena a s)). Qed.

Lemma put_list_segment sg lru l f a s sg' x :
  slru_segments (put_list sg lru l f a s) !! sg' = Some x ->
  exists y, slru_segments s !! sg' = Some y /\ length (sg_lists x) = length (sg_lists y) /\
    sg_used x = (if decide (sg' = sg) then f (sg_used y) else sg_used y).
Proof.
  unfold put_list, add_used, set_list. cbn. destruct (decide (sg' = sg)) as [->|Hne].
  - rewrite !list_lookup_alter_eq. destruct (slru_segments s !! sg) as [y|]; [|done]. cbn. intros [= <-]. exists y. cbn.
    by rewrite length_insert.
  - rewrite !list_lookup_alter_ne by done. intros E. by exists x.
Qed.

Lemma put_list_used sg lru l f a s y :
  slru_segments s !! sg = Some y -> slru_used_space (put_list sg lru l f a s) = slru_used_space s + (f (sg_used y) - sg_used y).
Proof.
  intros E. unfold slru_used_space, put_list, add_used, set_list. cbn. rewrite list_alter_alter_eq.
  by rewrite (foldr_alter_used _ _ _ y).
Qed.

Definition segment_sum (ix : gmap string SlruEntry) (ks : list_id -> list string) (sg : nat) : Z :=
  spaces ix (ks (sg, HOT_LRU)) + spaces ix (ks (sg, WARM_LRU)) + spaces ix (ks (sg, COLD_LRU)).

Lemma segment_sum_set ix ks id l sg' : (id.2 < SLRU_LIST_COUNT)%nat ->
  segment_sum ix (set_at id l ks) sg' =
  segment_sum ix ks sg' + (if decide (sg' = id.1) then spaces ix l - spaces ix (ks id) else 0).
Proof.
  destruct id as [sg lru]. cbn [fst snd]. intros Hl. unfold segment_sum, set_at, HOT_LRU, WARM_LRU, COLD_LRU, SLRU_LIST_COUNT in *.
  destruct (decide (sg' = sg)) as [->|Hne]; [|by rewrite !decide_False by congruence; lia].
  destruct lru as [|[|[|lru]]]; [..|lia]; repeat case_decide; simplify_eq; lia.
Qed.

Lemma list_le_segment_sum ix ks sg lru :
  (forall k e, ix !! k = Some e -> buffer_ok (se_buffer e)) -> (lru < SLRU_LIST_COUNT)%nat ->
  spaces ix (ks (sg, lru)) <= segment_sum ix ks sg.
Proof.
  intros HB Hl. pose proof (spaces_nonneg ix (ks (sg, HOT_LRU)) HB). pose proof (spaces_nonneg ix (ks (sg, WARM_LRU)) HB).
  pose proof (spaces_nonneg ix (ks (sg, COLD_LRU)) HB).
  unfold segment_sum. destruct lru as [|[|[|lru]]]; unfold HOT_LRU, WARM_LRU, COLD_LRU, SLRU_LIST_COUNT in *; lia.
Qed.

Lemma segment_sum_ext ix ix' ks sg :
  (forall lru k, k ∈ ks (sg, lru) -> space_of ix' k = space_of ix k) -> segment_sum ix' ks sg = segment_sum ix ks sg.
Proof. intros H. unfold segment_sum. by rewrite !(spaces_ext ix ix') by (intros k; apply H). Qed.

Section repr.
Context (s : ReplacementSlru) (ks : list_id -> list string) (R : slru_repr s ks).

Lemma repr_entry k e : slru_index s !! k = Some e ->
  k ∈ ks (entry_id e) /\ arena_key (slru_arena s) (se_node e) = k /\
  exists l x, lists_of s (entry_id e) = Some l /\ slru_segments s !! se_segment e = Some x /\
    get_list s (se_segment e) (se_lru e) = l /\ (se_lru e < SLRU_LIST_COUNT)%nat.
Proof.
  intros Ek. destruct R as [K _ HS _ _ _]. assert (places s k = Some (entry_id e, se_node e)) as Ep by (unfold places; by rewrite Ek).
  split; [apply (keyed_mem _ _ _ _ K); eauto|]. destruct (keyed_index _ _ _ _ K _ _ _ Ep) as [Ea [l El]]. split; [done|].
  destruct (seg_list_Some s _ _ l El) as (x & Ex & Ex' & Eg). exists l, x. split_and!; try done.
  destruct (HS _ _ Ex) as [<- _]. by eapply lookup_lt_Some.
Qed.

Lemma repr_sum_bounds sg x : slru_segments s !! sg = Some x ->
  sg_used x = segment_sum (slru_index s) ks sg /\ 0 <= sg_used x <= map_sum entry_space (slru_index s).
Proof.
  intros Ex. destruct R as [K HL HS HU HT HB]. destruct (HS _ _ Ex) as [_ Es]. split; [done|].
  assert (forall sg x, slru_segments s !! sg = Some x -> 0 <= sg_used x) as Hn.
  { intros sg' y Ey. destruct (HS _ _ Ey) as [_ ->]. pose proof (spaces_nonneg (slru_index s) (ks (sg', HOT_LRU)) HB).
    pose proof (spaces_nonneg (slru_index s) (ks (sg', WARM_LRU)) HB). pose proof (spaces_nonneg (slru_index s) (ks (sg', COLD_LRU)) HB). lia. }
  split; [by eapply Hn|]. rewrite <- HU. eapply segment_used_le; [|done]. intros y [i Hy]%list_elem_of_lookup. by eapply Hn.
Qed.

Lemma repr_list_bounds sg lru : (lru < SLRU_LIST_COUNT)%nat -> 0 <= spaces (slru_index s) (ks (sg, lru)) <= segment_sum (slru_index s) ks sg.
Proof. intros Hl. pose proof (sr_buffers _ _ R) as HB. split; [by apply spaces_nonneg|by apply list_le_segment_sum]. Qed.

(** What the counts say about one entry: its bytes are part of its list, its
    segment and the whole. *)
Lemma repr_entry_counts k e : slru_index s !! k = Some e ->
  let id := entry_id e in
  space_of (slru_index s) k = entry_space e /\
  spaces (slru_index s) (ks id) = entry_space e + spaces (slru_index s) (without k (ks id)) /\
  0 <= entry_space e /\ 0 <= spaces (slru_index s) (without k (ks id)) /\
  spaces (slru_index s) (ks id) <= segment_sum (slru_index s) ks (se_segment e) <= map_sum entry_space (slru_index s).
Proof.
  intros Ek id. destruct (repr_entry k e Ek) as (Hk & _ & l & x & _ & Ex & _ & Hl).
  assert (space_of (slru_index s) k = entry_space e) as Esp by (unfold space_of; by rewrite Ek).
  rewrite <- Esp. destruct (repr_sum_bounds _ x Ex) as [<- Hb]. pose proof (sr_buffers _ _ R) as HB.
  split_and!; [done| |by apply space_of_nonneg|by apply spaces_nonneg| |lia].
  - apply spaces_without; [apply (keyed_nodup _ _ _ _ (sr_keyed _ _ R))|done].
  - destruct (repr_sum_bounds _ x Ex) as [-> _]. by apply (repr_list_bounds (se_segment e) (se_lru e)).
Qed.

End repr.

Lemma space_of_delete ix k j : space_of (delete k ix) j = if decide (j = k) then 0 else space_of ix j.
Proof. unfold space_of. destruct (decide (j = k)) as [->|]; [by rewrite lookup_delete_eq|by rewrite lookup_delete_ne]. Qed.
Lemma space_of_insert ix k e j : space_of (<[k := e]> ix) j = if decide (j = k) then entry_space e else space_of ix j.
Proof. unfold space_of. destruct (decide (j = k)) as [->|]; [by rewrite lookup_insert_eq|by rewrite lookup_insert_ne]. Qed.

Lemma spaces_delete ix k l : k ∉ l -> spaces (delete k ix) l = spaces ix l.
Proof. intros H. apply spaces_ext. intros j Hj. rewrite space_of_delete, decide_False; [done|]. by intros ->. Qed.
Lemma spaces_insert ix k e l : k ∉ l -> spaces (<[k := e]> ix) l = spaces ix l.
Proof. intros H. apply spaces_ext. intros j Hj. rewrite space_of_insert, decide_False; [done|]. by intros ->. Qed.

Lemma detach_put_list sg lru node space s :
  detach sg lru node space s =
  put_list sg lru (with_used (fun u => u -! space) (list_unlink (get_list s sg lru) node (slru_arena s)).1) (fun u => u -! space)
    (list_unlink (get_list s sg lru) node (slru_arena s)).2 s.
Proof. unfold detach. by destruct (list_unlink _ _ _). Qed.
Lemma attach_put_list sg lru node space s :
  attach_front sg lru node space s =
  put_list sg lru (with_used (fun u => u +! space) (list_link_front (get_list s sg lru) node (slru_arena s)).1) (fun u => u +! space)
    (list_link_front (get_list s sg lru) node (slru_arena s)).2 s.
Proof. unfold attach_front. by destruct (list_link_front _ _ _). Qed.

Lemma used_on_list step len l a : l_used (on_list step len l a).1 = l_used l.
Proof. by rewrite on_list_eq. Qed.

Lemma used_unlink l i a : l_used (list_unlink l i a).1 = l_used l.
Proof. apply used_on_list. Qed.
Lemma used_link_front l i a : l_used (list_link_front l i a).1 = l_used l.
Proof. apply used_on_list. Qed.

Lemma same_with_used f l : same_list (Some l) (Some (with_used f l)).
Proof. done. Qed.

(** Two lists of an index with one key less. *)
Lemma segment_sum_delete ix ks k id sg :
  (forall id', k ∈ ks id' -> id' = id) -> NoDup (ks id) -> k ∈ ks id -> (id.2 < SLRU_LIST_COUNT)%nat ->
  segment_sum (delete k ix) (set_at id (without k (ks id)) ks) sg =
  segment_sum ix ks sg - (if decide (sg = id.1) then space_of ix k else 0).
Proof.
  intros Ha Hnd Hk Hl. rewrite (segment_sum_ext ix).
  - rewrite segment_sum_set by done. rewrite (spaces_without ix k (ks id) Hnd Hk). case_decide; lia.
  - intros lru' j Hj. rewrite space_of_delete, decide_False; [done|]. intros ->. unfold set_at in Hj. case_decide as E.
    + apply elem_without in Hj as [_ Hj]. done.
    + apply E, Ha. done.
Qed.

Section remove.
Context (s : ReplacementSlru) (ks : list_id -> list string) (R : slru_repr s ks).

Lemma repr_remove k e : slru_index s !! k = Some e ->
  slru_repr
    (release_node (se_node e)
       (detach (se_segment e) (se_lru e) (se_node e) (cache_buffer_space (se_buffer e))
          (slru_set_index (delete k (slru_index s)) s)))
    (set_at (entry_id e) (without k (ks (entry_id e))) ks).
Proof.
  intros Ek. destruct (repr_entry s ks R k e Ek) as (Hk & Ekey & l & x & El & Ex & Eg & Hl). set (id := entry_id e) in *.
  pose proof (keyed_apart _ _ _ _ (sr_keyed _ _ R) k) as Ha. pose proof (keyed_nodup _ _ _ _ (sr_keyed _ _ R) id) as Hnd.
  destruct (repr_entry_counts s ks R k e Ek) as (Esp & Esum & Hsp & Hnn & Hlb). fold id in Esum, Hnn, Hlb.
  destruct (repr_sum_bounds s ks R _ x Ex) as [Ess Hb]. destruct R as [K HL HS HU HT HB].
  rewrite detach_put_list. set (s1 := slru_set_index _ s). change (get_list s1 (se_segment e) (se_lru e)) with (get_list s (se_segment e) (se_lru e)).
  change (slru_arena s1) with (slru_arena s). rewrite Eg. set (r := list_unlink l (se_node e) (slru_arena s)). change (cache_buffer_space (se_buffer e)) with (entry_space e).
  set (l' := with_used _ r.1). set (s2 := put_list _ _ l' _ r.2 s1).
  assert (forall id', lists_of (release_node (se_node e) s2) id' = set_at id (Some l') (lists_of s) id') as HL'.
  { intros id'. apply (put_list_lists (se_segment e) (se_lru e) l' _ r.2 s1 id'). by exists l. }
  split.
  - pose proof (keyed_remove _ _ _ _ K k id (se_node e) l) as M. fold r in M.
    eapply keyed_ext; [| | |apply M]; [| |done|unfold places; by rewrite Ek|done].
    + intros id'. rewrite HL'. unfold set_at. destruct (decide (id' = id)); [done|]. by destruct (lists_of s id').
    + intros j. unfold places, set_key. cbn. destruct (decide (j = k)) as [->|]; [by rewrite lookup_delete_eq|by rewrite lookup_delete_ne].
  - intros id' l0. rewrite HL'. cbn [slru_index release_node slru_set_arena]. unfold set_at. destruct (decide (id' = id)) as [->|Hne].
    + intros [= <-]. cbn [l_used l' with_used]. unfold r. rewrite used_unlink, (HL id l El).
      change (slru_index s2) with (delete k (slru_index s)). rewrite spaces_delete by (rewrite elem_without; tauto).
      rewrite sat_sub_exact by lia. lia.
    + intros E. rewrite (HL _ _ E). cbn. symmetry. apply spaces_delete. intros Hin. apply Hne. by apply Ha.
  - intros sg y Ey. apply put_list_segment in Ey as (z & Ez & Elen & Eu). destruct (HS _ _ Ez) as [Hz1 Hz2]. split; [congruence|].
    change (sg_used y = segment_sum (delete k (slru_index s)) (set_at id (without k (ks id)) ks) sg).
    rewrite segment_sum_delete; [|intros id' Hin; by apply Ha|done|done|done]. rewrite Eu, Esp. unfold id. cbn.
    fold (segment_sum (slru_index s) ks sg) in Hz2. destruct (decide (sg = se_segment e)) as [->|]; [|lia].
    change (slru_segments s !! se_segment e = Some z) in Ez. rewrite Ex in Ez. injection Ez as <-. rewrite sat_sub_exact by lia. lia.
  - change (slru_used_space (release_node (se_node e) s2)) with (slru_used_space s2). unfold s2.
    rewrite (put_list_used _ _ _ _ _ s1 x Ex). change (slru_used_space s1) with (slru_used_space s). cbn.
    rewrite HU, (map_sum_delete entry_space (slru_index s) k e Ek). rewrite sat_sub_exact by lia. lia.
  - cbn. rewrite (map_sum_delete entry_space (slru_index s) k e Ek) in HT. lia.
  - cbn. intros j f Hj. apply lookup_delete_Some in Hj as [_ Hj]. by eapply HB.
Qed.
End remove.

Lemma link_front_with_used f l i a :
  list_link_front (with_used f l) i a = (with_used f (list_link_front l i a).1, (list_link_front l i a).2).
Proof. unfold list_link_front. by rewrite !on_list_eq. Qed.

Lemma set_list_segment sg lru l s sg' x :
  slru_segments (set_list sg lru l s) !! sg' = Some x ->
  exists y, slru_segments s !! sg' = Some y /\ length (sg_lists x) = length (sg_lists y) /\ sg_used x = sg_used y.
Proof.
  unfold set_list. cbn. destruct (decide (sg' = sg)) as [->|Hne].
  - rewrite list_lookup_alter_eq. destruct (slru_segments s !! sg) as [y|]; [|done]. cbn. intros [= <-]. exists y. cbn.
    by rewrite length_insert.
  - rewrite list_lookup_alter_ne by done. intros E. by exists x.
Qed.

Lemma set_list_used_space sg lru l s : slru_used_space (set_list sg lru l s) = slru_used_space s.
Proof.
  unfold slru_used_space, set_list. cbn. destruct (slru_segments s !! sg) as [x|] eqn:E.
  - rewrite (foldr_alter_used _ _ _ x) by done. cbn. lia.
  - f_equal. apply list_eq. intros i. destruct (decide (i = sg)) as [->|]; [by rewrite list_lookup_alter_eq, E|by rewrite list_lookup_alter_ne].
Qed.

(** The other lists of a segment. *)
Lemma segment_has_list s ks sg lru x : slru_repr s ks -> slru_segments s !! sg = Some x -> (lru < SLRU_LIST_COUNT)%nat ->
  exists l, lists_of s (sg, lru) = Some l.
Proof.
  intros R Ex Hl. destruct (sr_segment _ _ R _ _ Ex) as [E _]. rewrite <- E in Hl. apply lookup_lt_is_Some in Hl as [l El].
  exists l. unfold lists_of, seg_list. cbn. by rewrite Ex.
Qed.

(** [move_node] as two steps on the lists: out of one, to the front of the
    other, which may be the same list. *)
Lemma move_node_lists sg from to node n s l m :
  lists_of s (sg, from) = Some l -> lists_of s (sg, to) = Some m ->
  let id := (sg, from) in
  let id2 := (sg, to) in
  let r := list_unlink l node (slru_arena s) in
  let r2 := list_link_front (if decide (id2 = id) then r.1 else m) node r.2 in
  let before u := if decide (id2 = id) then u -! n else u in
  let s' := move_node sg from to node n s in
  (forall id', lists_of s' id' =
     set_at id2 (Some (with_used (fun u => before u +! n) r2.1)) (set_at id (Some (with_used (fun u => u -! n) r.1)) (lists_of s)) id') /\
  slru_arena s' = r2.2 /\ slru_index s' = slru_index s /\ slru_used_space s' = slru_used_space s /\
  (forall sg' x, slru_segments s' !! sg' = Some x ->
     exists y, slru_segments s !! sg' = Some y /\ length (sg_lists x) = length (sg_lists y) /\ sg_used x = sg_used y).
Proof.
  intros El Em id id2 r r2 before s'. destruct (seg_list_Some s _ _ l El) as (_ & _ & _ & Eg).
  unfold s', move_node. rewrite Eg. fold r. destruct r as [l1 a1] eqn:Er. cbn [fst snd] in *.
  set (lu := with_used (fun u => u -! n) l1). set (s1 := set_list sg from lu (slru_set_arena a1 s)).
  assert (forall id', lists_of s1 id' = set_at id (Some lu) (lists_of s) id') as HL1.
  { intros id'. apply (lists_set_list sg from lu (slru_set_arena a1 s)). by exists l. }
  assert (get_list s1 sg to = with_used before (if decide (id2 = id) then l1 else m)) as Eg1.
  { unfold get_list. change (seg_list s1 sg to) with (lists_of s1 id2). rewrite HL1. unfold set_at, before.
    destruct (decide (id2 = id)); [done|]. change (lists_of s id2) with (lists_of s (sg, to)). rewrite Em. by destruct m. }
  rewrite Eg1, link_front_with_used. change (slru_arena s1) with a1. fold r2. destruct r2 as [l2 a2]. cbn [fst snd].
  split_and!; [|done|done| |].
  - intros id'. rewrite (lists_set_list sg to _ (slru_set_arena a2 s1)).
    + unfold set_at at 1 2. fold id2. destruct (decide (id' = id2)); [done|]. apply HL1.
    + change (is_Some (lists_of s1 id2)). rewrite HL1. unfold set_at. destruct (decide (id2 = id)); by eauto.
  - rewrite set_list_used_space. change (slru_used_space (slru_set_arena a2 s1)) with (slru_used_space s1).
    unfold s1. by rewrite set_list_used_space.
  - intros sg' x (z & Ez & -> & ->)%set_list_segment. by apply set_list_segment in Ez.
Qed.

Section move.
Context (s : ReplacementSlru) (ks : list_id -> list string) (R : slru_repr s ks).

(** An entry written back with the same buffer: only where the keys are
    threaded may change. *)
Lemma repr_rewritten k e e' s' ks' : slru_index s !! k = Some e -> se_buffer e' = se_buffer e ->
  slru_index s' = <[k := e']> (slru_index s) ->
  keyed (slru_arena s') (lists_of s') (places s') ks' ->
  (forall id l, lists_of s' id = Some l -> l_used l = spaces (slru_index s) (ks' id)) ->
  (forall sg x, slru_segments s' !! sg = Some x ->
     exists y, slru_segments s !! sg = Some y /\ length (sg_lists x) = length (sg_lists y) /\ sg_used x = sg_used y) ->
  (forall sg, segment_sum (slru_index s) ks' sg = segment_sum (slru_index s) ks sg) ->
  slru_used_space s' = slru_used_space s -> slru_repr s' ks'.
Proof.
  intros Ek Eb Ei K' HL' HS' Hsum HU'. destruct R as [_ _ HS HU HT HB].
  assert (forall j, space_of (slru_index s') j = space_of (slru_index s) j) as Hix.
  { intros j. rewrite Ei, space_of_insert. destruct (decide (j = k)) as [->|]; [|done].
    unfold space_of, entry_space. rewrite Ek, Eb. done. }
  assert (map_sum entry_space (slru_index s') = map_sum entry_space (slru_index s)) as Hm.
  { rewrite Ei, (map_sum_insert entry_space _ k e' e Ek). unfold entry_space. rewrite Eb. lia. }
  split; rewrite ?Hm; [done| | |congruence|done|].
  - intros id l El. rewrite (spaces_ext (slru_index s)) by (intros; apply Hix). by apply HL'.
  - intros sg x Ex. destruct (HS' _ _ Ex) as (y & Ey & Hlen & ->). destruct (HS _ _ Ey) as [Hy ->]. split; [congruence|].
    rewrite !(spaces_ext (slru_index s) (slru_index s')) by (intros; apply Hix). symmetry. apply Hsum.
  - intros j f. rewrite Ei. intros [[_ <-]|[_ Hj]]%lookup_insert_Some; [|by eapply HB]. rewrite Eb. by eapply HB.
Qed.

(** The count of the list an entry moves to: of its own list, which has just
    lost it, or of another list of the segment. *)
Lemma destination_count k e to : slru_index s !! k = Some e -> (to < SLRU_LIST_COUNT)%nat ->
  let id := entry_id e in
  let after := spaces (slru_index s) (k :: set_at id (without k (ks id)) ks (se_segment e, to)) in
  ((se_segment e, to) = id -> spaces (slru_index s) (ks id) -! entry_space e +! entry_space e = after) /\
  ((se_segment e, to) <> id -> spaces (slru_index s) (ks (se_segment e, to)) +! entry_space e = after).
Proof.
  intros Ek Hto id after. destruct (repr_entry s ks R k e Ek) as (Hk & _ & l & x & _ & Ex & _ & Hl). fold id in Hk.
  destruct (repr_entry_counts s ks R k e Ek) as (Esp & Esum & Hsp & Hnn & Hlb). fold id in Esum, Hnn, Hlb.
  destruct R as [_ _ _ _ HT HB].
  unfold after. rewrite spaces_cons, Esp. split; intros E2.
  - rewrite E2, set_at_eq, Esum. rewrite sat_sub_exact by lia. rewrite sat_add_exact; lia.
  - rewrite set_at_ne by done. rewrite sat_add_exact; [lia|].
    pose proof (segment_sum_set (slru_index s) ks id [] (se_segment e) Hl) as X. rewrite decide_True in X by done.
    assert (spaces (slru_index s) (ks (se_segment e, to)) <= segment_sum (slru_index s) (set_at id [] ks) (se_segment e)); [|cbn in X; lia].
    rewrite <- (set_at_ne id [] ks (se_segment e, to) E2). by apply list_le_segment_sum.
Qed.

Lemma repr_move k e flag to : slru_index s !! k = Some e -> (to < SLRU_LIST_COUNT)%nat ->
  slru_repr
    (move_node (se_segment e) (se_lru e) to (se_node e) (cache_buffer_space (se_buffer e)) (set_entry k e flag to s))
    (set_at (se_segment e, to) (k :: set_at (entry_id e) (without k (ks (entry_id e))) ks (se_segment e, to))
       (set_at (entry_id e) (without k (ks (entry_id e))) ks)).
Proof.
  intros Ek Hto. destruct (repr_entry s ks R k e Ek) as (Hk & Ekey & l & x & El & Ex & Eg & Hl). set (id := entry_id e) in *.
  set (id2 := (se_segment e, to)). destruct (segment_has_list s ks _ to x R Ex Hto) as [m Em]. fold id2 in Em.
  destruct (repr_entry_counts s ks R k e Ek) as (Esp & Esum & Hsp & Hnn & Hlb). fold id in Esum, Hnn, Hlb.
  pose proof (sr_keyed _ _ R) as K. pose proof (sr_list_used _ _ R) as HL.
  destruct (move_node_lists (se_segment e) (se_lru e) to (se_node e) (entry_space e) (set_entry k e flag to s) l m El Em)
    as (HL2 & Ea & Ei & HU & HS). fold id2 in HL2, Ea. change (se_segment e, se_lru e) with id in HL2, Ea.
  change (slru_arena (set_entry k e flag to s)) with (slru_arena s) in HL2, Ea.
  set (r := list_unlink l (se_node e) (slru_arena s)) in *.
  assert (set_at id (Some r.1) (lists_of s) id2 = Some (if decide (id2 = id) then r.1 else m)) as Emk.
  { unfold set_at. by destruct (decide (id2 = id)). }
  assert (places s k = Some (id, se_node e)) as Ep by (unfold places; by rewrite Ek).
  pose proof (keyed_move _ _ _ _ K k id (se_node e) l id2 _ Ep El Emk) as M. cbv zeta in M. fold r in M. rewrite <- Ea in M.
  apply (repr_rewritten k e (mkSlruEntry (se_buffer e) flag to (se_segment e) (se_node e))); [done..| | |exact HS| |exact HU].
  - eapply keyed_ext; [| | |exact M]; [| |done].
    + intros id'. rewrite HL2. unfold set_at. destruct (decide (id' = id2)); [done|]. destruct (decide (id' = id)); [done|].
      change (same_list (lists_of s id') (lists_of s id')). by destruct (lists_of s id').
    + intros j. unfold places, set_key. unfold entry_space in Ei. rewrite Ei. cbn. destruct (decide (j = k)) as [->|]; [by rewrite lookup_insert_eq|by rewrite lookup_insert_ne].
  - intros id' l0. rewrite HL2. unfold set_at at 1 2. destruct (decide (id' = id2)) as [->|Hne].
    + intros [= <-]. cbn [l_used with_used]. rewrite used_link_front, set_at_eq.
      destruct (destination_count k e to Ek Hto) as [Hsame Hother]. fold id id2 in Hsame, Hother.
      destruct (decide (id2 = id)); [unfold r; rewrite used_unlink, (HL id l El); auto|rewrite (HL id2 m Em); auto].
    + rewrite (set_at_ne id2) by done. unfold set_at. destruct (decide (id' = id)) as [->|Hne'].
      * intros [= <-]. cbn [l_used with_used]. unfold r. rewrite used_unlink, (HL id l El), sat_sub_exact by lia. lia.
      * intros E. by apply HL.
  - intros sg. rewrite !segment_sum_set by done. rewrite spaces_cons, Esp, Esum. change id2.1 with (se_segment e). change id.1 with (se_segment e).
    destruct (decide (sg = se_segment e)); lia.
Qed.
End move.

Section change.
Context (s : ReplacementSlru) (ks : list_id -> list string) (R : slru_repr s ks).

(** Writing an entry back with another flag. *)
Lemma repr_flag k e flag : slru_index s !! k = Some e -> slru_repr (set_entry k e flag (se_lru e) s) ks.
Proof.
  intros Ek. apply (repr_rewritten s ks R k e (mkSlruEntry (se_buffer e) flag (se_lru e) (se_segment e) (se_node e))); try done.
  - eapply keyed_ext; [| | |exact (sr_keyed _ _ R)]; [intros id; change (same_list (lists_of s id) (lists_of s id)); by destruct (lists_of s id)| |done].
    intros j. unfold places. cbn. destruct (decide (j = k)) as [->|]; [by rewrite lookup_insert_eq, Ek|by rewrite lookup_insert_ne].
  - exact (sr_list_used _ _ R).
  - intros sg x Ex. by exists x.
Qed.

Lemma repr_update k e b : slru_index s !! k = Some e -> buffer_ok b ->
  map_sum entry_space (slru_index s) - entry_space e + cache_buffer_space b <= u64_max ->
  let count u := u -! cache_buffer_space (se_buffer e) +! cache_buffer_space b in
  let s1 := slru_set_index (<[k := mkSlruEntry b (se_flag e) (se_lru e) (se_segment e) (se_node e)]> (slru_index s)) s in
  slru_repr
    (add_used (se_segment e) count
       (set_list (se_segment e) (se_lru e) (with_used count (get_list s1 (se_segment e) (se_lru e))) s1)) ks.
Proof.
  intros Ek Hb Ht count s1. destruct (repr_entry s ks R k e Ek) as (Hk & Ekey & l & x & El & Ex & Eg & Hl). set (id := entry_id e) in *.
  pose proof (keyed_apart _ _ _ _ (sr_keyed _ _ R) k) as Ha. pose proof (keyed_nodup _ _ _ _ (sr_keyed _ _ R) id) as Hnd.
  destruct (repr_entry_counts s ks R k e Ek) as (_ & Esum & Hsp & Hnn & Hlb). fold id in Esum, Hnn, Hlb.
  destruct (repr_sum_bounds s ks R _ x Ex) as [Ess Hbd]. destruct R as [K HL HS HU HT HB]. pose proof (space_nonneg b Hb) as Hbn.
  set (e' := mkSlruEntry b (se_flag e) (se_lru e) (se_segment e) (se_node e)). set (ix' := <[k := e']> (slru_index s)).
  assert (forall u, entry_space e <= u <= map_sum entry_space (slru_index s) -> count u = u - entry_space e + cache_buffer_space b) as Hc.
  { intros u Hu. unfold count. fold (entry_space e). rewrite sat_sub_exact by lia. rewrite sat_add_exact; lia. }
  assert (forall id', spaces ix' (ks id') = spaces (slru_index s) (ks id') + (if decide (id' = id) then cache_buffer_space b - entry_space e else 0)) as Hix.
  { intros id'. destruct (decide (id' = id)) as [->|Hne].
    - rewrite (spaces_without ix' k (ks id) Hnd Hk). unfold ix' at 1. rewrite space_of_insert, decide_True by done.
      unfold ix'. rewrite spaces_insert by (rewrite elem_without; tauto). unfold e', entry_space at 1. cbn [se_buffer]. lia.
    - unfold ix'. rewrite spaces_insert; [lia|]. intros Hin. apply Hne. by apply Ha. }
  assert (map_sum entry_space ix' = map_sum entry_space (slru_index s) - entry_space e + cache_buffer_space b) as Hsum.
  { unfold ix'. rewrite (map_sum_insert entry_space _ k e' e Ek). unfold e', entry_space at 1. cbn. lia. }
  change (get_list s1 (se_segment e) (se_lru e)) with (get_list s (se_segment e) (se_lru e)). rewrite Eg.
  change (slru_repr (put_list (se_segment e) (se_lru e) (with_used count l) count (slru_arena s1) s1) ks).
  assert (forall id', lists_of (put_list (se_segment e) (se_lru e) (with_used count l) count (slru_arena s1) s1) id'
            = set_at id (Some (with_used count l)) (lists_of s) id') as HL'.
  { intros id'. apply (put_list_lists (se_segment e) (se_lru e) _ count (slru_arena s1) s1). by exists l. }
  split; cbn [slru_index put_list add_used set_list slru_set_segments slru_set_arena s1 slru_set_index]; fold e'; fold ix'.
  - eapply keyed_ext; [| | |exact K]; [| |done].
    + intros id'. rewrite HL'. unfold set_at. destruct (decide (id' = id)) as [->|]; [by rewrite El|]. by destruct (lists_of s id').
    + intros j. unfold places. cbn. destruct (decide (j = k)) as [->|]; [by rewrite lookup_insert_eq, Ek|by rewrite lookup_insert_ne].
  - intros id' l0. rewrite HL', Hix. unfold set_at. destruct (decide (id' = id)) as [->|Hne]; [intros [= <-]|intros E; rewrite (HL _ _ E); lia].
    cbn. rewrite (HL id l El), Hc by lia. lia.
  - intros sg y Ey. apply put_list_segment in Ey as (z & Ez & Elen & Eu). destruct (HS _ _ Ez) as [Hz1 Hz2]. split; [congruence|].
    rewrite Eu, !Hix. assert (sg_used z = segment_sum (slru_index s) ks sg) as Hz3 by done. unfold segment_sum in Hz3.
    destruct (decide (sg = se_segment e)) as [->|Hne].
    + change (slru_segments s !! se_segment e = Some z) in Ez. rewrite Ex in Ez. injection Ez as <-. rewrite Hc by lia. rewrite Hz3. unfold id, entry_id.
      destruct (se_lru e) as [|[|[|n]]]; unfold HOT_LRU, WARM_LRU, COLD_LRU, SLRU_LIST_COUNT in *; [..|lia];
        repeat case_decide; simplify_eq; lia.
    + rewrite Hz3. unfold id, entry_id. repeat case_decide; simplify_eq; lia.
  - rewrite (put_list_used _ _ _ _ _ s1 x Ex), Hsum, Hc by lia. change (slru_used_space s1) with (slru_used_space s). lia.
  - lia.
  - unfold ix'. intros j f Hj. apply lookup_insert_Some in Hj as [[_ <-]|[_ Hj]]; [done|by eapply HB].
Qed.
End change.

Section add.
Context (s : ReplacementSlru) (ks : list_id -> list string) (R : slru_repr s ks).

(** A new key at the front of the hot list of a shard. *)
Lemma repr_add k b flag sg x : slru_index s !! k = None -> slru_segments s !! sg = Some x -> buffer_ok b ->
  map_sum entry_space (slru_index s) + cache_buffer_space b <= u64_max ->
  let node := (arena_alloc k (slru_arena s)).1 in
  let s1 := attach_front sg HOT_LRU node (cache_buffer_space b) (slru_set_arena (arena_alloc k (slru_arena s)).2 s) in
  slru_repr (slru_set_index (<[k := mkSlruEntry b flag HOT_LRU sg node]> (slru_index s1)) s1)
    (set_at (sg, HOT_LRU) (k :: ks (sg, HOT_LRU)) ks).
Proof.
  intros Ek Ex Hb Ht node s1. destruct (segment_has_list s ks sg HOT_LRU x R Ex) as [l El]; [unfold HOT_LRU, SLRU_LIST_COUNT; lia|].
  set (id := (sg, HOT_LRU)) in *. assert (forall id', k ∉ ks id') as Hk.
  { apply (keyed_none _ _ _ _ (sr_keyed _ _ R)). unfold places. by rewrite Ek. }
  destruct (repr_sum_bounds s ks R _ x Ex) as [Ess Hbd].
  pose proof (repr_list_bounds s ks R sg HOT_LRU) as Hlb. specialize (Hlb ltac:(unfold HOT_LRU, SLRU_LIST_COUNT; lia)). fold id in Hlb.
  destruct R as [K HL HS HU HT HB]. pose proof (space_nonneg b Hb) as Hbn.
  unfold s1. rewrite attach_put_list. set (s0 := slru_set_arena _ s). change (slru_arena s0) with (arena_alloc k (slru_arena s)).2.
  assert (get_list s0 sg HOT_LRU = l) as -> by (unfold get_list; change (seg_list s0 sg HOT_LRU) with (lists_of s id); by rewrite El).
  set (r := list_link_front l node _). set (count := fun u => u +! cache_buffer_space b). set (s2 := put_list _ _ _ count r.2 s0).
  set (e := mkSlruEntry b flag HOT_LRU sg node). change (slru_index s2) with (slru_index s).
  assert (forall id', lists_of s2 id' = set_at id (Some (with_used count r.1)) (lists_of s) id') as HL'.
  { intros id'. apply (put_list_lists sg HOT_LRU _ count r.2 s0). by exists l. }
  set (ix' := <[k := e]> (slru_index s)).
  assert (forall id', spaces ix' (ks id') = spaces (slru_index s) (ks id')) as Hix by (intros; by apply spaces_insert).
  assert (space_of ix' k = cache_buffer_space b) as Esp by (unfold ix'; rewrite space_of_insert, decide_True; done).
  assert (map_sum entry_space ix' = cache_buffer_space b + map_sum entry_space (slru_index s)) as Hsum.
  { unfold ix'. by rewrite map_sum_insert_new. }
  split; cbn [slru_index slru_set_index]; fold ix'.
  - pose proof (keyed_insert_front _ _ _ _ K k id l) as M. unfold places at 1 in M. rewrite Ek in M. specialize (M eq_refl El). fold r in M.
    eapply keyed_ext; [| | |exact M]; [| |done].
    + intros id'. change (lists_of (slru_set_index ix' s2) id') with (lists_of s2 id'). rewrite HL'. unfold set_at.
      destruct (decide (id' = id)); [done|]. by destruct (lists_of s id').
    + intros j. change (places (slru_set_index ix' s2) j) with ((fun e => (entry_id e, se_node e)) <$> ix' !! j).
      unfold ix', places, set_key. destruct (decide (j = k)) as [->|]; [by rewrite lookup_insert_eq|by rewrite lookup_insert_ne].
  - intros id' l0. change (lists_of (slru_set_index ix' s2) id') with (lists_of s2 id'). rewrite HL'. unfold set_at.
    destruct (decide (id' = id)) as [->|Hne]; [intros [= <-]|intros E; rewrite Hix; by apply HL].
    change (l_used r.1 +! cache_buffer_space b = spaces ix' (k :: ks id)). rewrite spaces_cons, Esp, Hix. unfold r.
    rewrite used_link_front, (HL id l El), sat_add_exact; lia.
  - intros sg' y Ey. apply put_list_segment in Ey as (z & Ez & Elen & Eu). destruct (HS _ _ Ez) as [Hz1 Hz2]. split; [congruence|].
    change (sg_used y = segment_sum ix' (set_at id (k :: ks id) ks) sg'). rewrite segment_sum_set by (cbn; unfold HOT_LRU, SLRU_LIST_COUNT; lia).
    rewrite spaces_cons, Esp, Hix, (segment_sum_ext (slru_index s)).
    2:{ intros lru j Hj. unfold ix'. rewrite space_of_insert, decide_False; [done|]. intros ->. by apply (Hk (sg', lru)). }
    rewrite Eu. change id.1 with sg. fold (segment_sum (slru_index s) ks sg') in Hz2. destruct (decide (sg' = sg)) as [->|]; [|lia].
    change (slru_segments s !! sg = Some z) in Ez. rewrite Ex in Ez. injection Ez as <-. unfold count. rewrite sat_add_exact; lia.
  - change (slru_used_space s2 = map_sum entry_space ix'). unfold s2. rewrite (put_list_used _ _ _ _ _ s0 x Ex).
    change (slru_used_space s0) with (slru_used_space s). unfold count. rewrite sat_add_exact by lia. lia.
  - lia.
  - unfold ix'. intros j f Hj. apply lookup_insert_Some in Hj as [[_ <-]|[_ Hj]]; [done|by eapply HB].
Qed.
End add.

Lemma lookup_spaces_empty l : spaces ∅ l = 0.
Proof. induction l as [|k l IH]; [done|]. rewrite spaces_cons, IH. done. Qed.

(** Every list of every segment empty. *)
Lemma repr_empty s :
  slru_index s = ∅ -> slru_arena s = new_arena ->
  (forall sg x, slru_segments s !! sg = Some x -> sg_lists x = replicate SLRU_LIST_COUNT new_list /\ sg_used x = 0) ->
  slru_repr s (fun _ => []).
Proof.
  intros Ei Ea Hs.
  assert (forall id l, lists_of s id = Some l -> l = new_list) as Hl.
  { intros [sg lru] l (x & Ex & Exl & _)%seg_list_Some. destruct (Hs _ _ Ex) as [El _]. rewrite El in Exl. by apply lookup_replicate in Exl as [-> _]. }
  split; rewrite ?Ei; try done.
  - rewrite Ea. eapply keyed_ext; [| | |apply (keyed_empty (lists_of s))]; [intros id; by destruct (lists_of s id)| |done|by intros id l ->%Hl].
    intros k. unfold places. by rewrite Ei.
  - intros id l ->%Hl. done.
  - intros sg x Ex. destruct (Hs _ _ Ex) as [-> ->]. done.
  - unfold slru_used_space. rewrite map_sum_empty. assert (forall x, x ∈ slru_segments s -> sg_used x = 0) as H0.
    { intros x [i Hx]%list_elem_of_lookup. by apply (Hs i). }
    induction (slru_segments s) as [|x sgs IH]; [done|]. cbn. rewrite H0 by set_solver. apply IH; [|intros; apply H0; set_solver].
    intros sg y Ey. by apply (Hs (S sg)).
Qed.
