(* ===== verification/SlruSpec.v ===== *)
(** * Segmented recency: what it promises *)

From S2P Require Import Prelude Types Hashes Dll KeyArena KeyedLists Fifo FifoSpec Slru SlruFacts.

(** ** Steps that only move and evict *)

Definition settings (s : ReplacementSlru) : ReplacementPolicyBase * Z * Z * (Z * Z * bool * bool) * nat :=
  (slru_base s, num_segments s, bytes_each_segment s,
   (hot_lru_pct s, warm_lru_pct s, lru_maintainer_enabled s, slru_handler s), length (slru_segments s)).

Definition represented (s : ReplacementSlru) : Prop := exists ks, slru_repr s ks.

(** The entries after come from the entries before, buffers unchanged. *)
Record calm (s s' : ReplacementSlru) : Prop := {
  ca_repr : represented s';
  ca_settings : settings s' = settings s;
  ca_sub : forall k e', slru_index s' !! k = Some e' ->
    exists e, slru_index s !! k = Some e /\ se_buffer e' = se_buffer e /\ se_segment e' = se_segment e;
  ca_sum : map_sum entry_space (slru_index s') <= map_sum entry_space (slru_index s)
}.

Lemma calm_refl s : represented s -> calm s s.
Proof. intros H. split; [done|done|eauto|lia]. Qed.

Lemma calm_trans s1 s2 s3 : calm s1 s2 -> calm s2 s3 -> calm s1 s3.
Proof.
  intros [A1 A2 A3 A4] [B1 B2 B3 B4]. split; [done|congruence| |lia].
  intros k e (e2 & H2 & E2 & F2)%B3. destruct (A3 k e2 H2) as (e1 & H1 & E1 & F1). exists e1. split_and!; [done|congruence..].
Qed.

Lemma tail_spec s ks sg lru : slru_repr s ks ->
  match list_tail s sg lru with
  | None => ks (sg, lru) = []
  | Some node => exists k e, node_key s node = k /\ slru_index s !! k = Some e /\ se_segment e = sg /\ se_lru e = lru /\
                   se_node e = node /\ last (ks (sg, lru)) = Some k
  end.
Proof.
  intros R. pose proof (sr_keyed _ _ R) as K. unfold list_tail, get_list. destruct (seg_list s sg lru) as [l|] eqn:El; cbn.
  - pose proof (keyed_tail _ _ _ _ K (sg, lru) l El) as H. destruct (l_tail l) as [node|]; [|done]. destruct H as [H1 H2].
    unfold places in H2. destruct (slru_index s !! arena_key (slru_arena s) node) as [e|] eqn:Ee; [|done]. cbn in H2.
    exists (arena_key (slru_arena s) node), e. unfold entry_id in H2. by injection H2 as -> -> ->.
  - destruct K as (ns & [F Hi Hk]). by rewrite Hk, (f_none _ _ _ F (sg, lru) El).
Qed.

Lemma settings_detach sg lru node space s : settings (detach sg lru node space s) = settings s.
Proof. unfold detach. destruct (list_unlink _ _ _). unfold settings. cbn. by rewrite !length_alter. Qed.
Lemma settings_move sg from to node space s : settings (move_node sg from to node space s) = settings s.
Proof.
  unfold move_node. destruct (list_unlink _ _ _). destruct (list_link_front _ _ _). unfold settings. cbn. by rewrite !length_alter.
Qed.
Lemma settings_notify b s : settings (slru_notify b s) = settings s.
Proof. unfold slru_notify. destruct (slru_handler s) eqn:E; [|done]. unfold settings. cbn. by rewrite E. Qed.
Lemma repr_notify b s ks : slru_repr s ks -> slru_repr (slru_notify b s) ks.
Proof. intros R. unfold slru_notify. destruct (slru_handler s); [|done]. destruct R. by split. Qed.
Lemma index_notify b s : slru_index (slru_notify b s) = slru_index s.
Proof. unfold slru_notify. by destruct (slru_handler s). Qed.
Lemma index_detach sg lru node space s : slru_index (detach sg lru node space s) = slru_index s.
Proof. unfold detach. by destruct (list_unlink _ _ _). Qed.
Lemma index_move sg from to node space s : slru_index (move_node sg from to node space s) = slru_index s.
Proof. unfold move_node. destruct (list_unlink _ _ _). by destruct (list_link_front _ _ _). Qed.

Lemma entry_space_nonneg s ks k e : slru_repr s ks -> slru_index s !! k = Some e -> 0 <= entry_space e.
Proof. intros R Ek. apply space_nonneg. by eapply sr_buffers. Qed.

Lemma index_sum_nonneg s ks : slru_repr s ks -> 0 <= map_sum entry_space (slru_index s).
Proof.
  intros R. pose proof (sr_buffers _ _ R) as H. revert H. generalize (slru_index s) as m. intros m.
  induction m as [|k e m Hk IH] using map_ind; intros H; [by rewrite map_sum_empty|]. rewrite map_sum_insert_new by done.
  assert (buffer_ok (se_buffer e)) as He by (apply (H k); by rewrite lookup_insert_eq). pose proof (space_nonneg _ He).
  assert (0 <= map_sum entry_space m); [|unfold entry_space at 1; lia]. apply IH. intros j f Hj. apply (H j).
  rewrite lookup_insert_ne; [done|congruence].
Qed.

(** Taking one key out. *)
Lemma take_out_calm s ks k e : slru_repr s ks -> slru_index s !! k = Some e ->
  let s' := release_node (se_node e) (detach (se_segment e) (se_lru e) (se_node e) (cache_buffer_space (se_buffer e))
              (slru_set_index (delete k (slru_index s)) s)) in
  slru_index s' = delete k (slru_index s) /\ calm s s'.
Proof.
  intros R Ek s'. pose proof (repr_remove s ks R k e Ek) as R'. pose proof (entry_space_nonneg s ks k e R Ek).
  assert (slru_index s' = delete k (slru_index s)) as Ei by (unfold s'; cbn; by rewrite index_detach). split; [done|].
  split; [eexists; exact R'| | |].
  - exact (settings_detach _ _ _ _ (slru_set_index (delete k (slru_index s)) s)).
  - rewrite Ei. intros j e' [_ Hj]%lookup_delete_Some. eauto.
  - rewrite Ei, (map_sum_delete entry_space (slru_index s) k e Ek). lia.
Qed.

Lemma evict_key_spec s ks k e : slru_repr s ks -> slru_index s !! k = Some e ->
  (evict_key k s).1 = Some (se_buffer e) /\ slru_index (evict_key k s).2 = delete k (slru_index s) /\ calm s (evict_key k s).2 /\
  slru_repr (evict_key k s).2 (set_at (entry_id e) (without k (ks (entry_id e))) ks).
Proof.
  intros R Ek. unfold evict_key. rewrite Ek. cbn [fst snd]. split; [done|]. destruct (take_out_calm s ks k e R Ek) as [Ei [C1 C2 C3 C4]].
  rewrite index_notify. split; [done|]. split; [|by apply repr_notify, repr_remove].
  split; rewrite ?settings_notify, ?index_notify; try done. destruct C1 as [ks' R']. exists ks'. by apply repr_notify.
Qed.

Lemma slru_delete_calm k s : represented s ->
  calm s (slru_delete k s).2 /\ slru_index (slru_delete k s).2 !! k = None /\
  (forall j, j <> k -> slru_index (slru_delete k s).2 !! j = slru_index s !! j).
Proof.
  intros [ks R]. unfold slru_delete. destruct (slru_index s !! k) as [e|] eqn:Ek; cbn [snd].
  - destruct (take_out_calm s ks k e R Ek) as [Ei C]. split; [done|]. rewrite Ei, lookup_delete_eq. split; [done|].
    intros j Hj. by rewrite lookup_delete_ne.
  - split; [by apply calm_refl; exists ks|]. done.
Qed.

Lemma set_entry_index k e flag lru s :
  slru_index (set_entry k e flag lru s) = <[k := mkSlruEntry (se_buffer e) flag lru (se_segment e) (se_node e)]> (slru_index s).
Proof. done. Qed.

(** Moving one key, with a new flag. *)
Lemma move_calm s ks k e flag to : slru_repr s ks -> slru_index s !! k = Some e -> (to < SLRU_LIST_COUNT)%nat ->
  calm s (move_node (se_segment e) (se_lru e) to (se_node e) (cache_buffer_space (se_buffer e)) (set_entry k e flag to s)).
Proof.
  intros R Ek Hto. pose proof (repr_move s ks R k e flag to Ek Hto) as R'.
  split; [eexists; exact R'|by rewrite settings_move|..]; rewrite index_move, set_entry_index.
  - intros j e' [[<- <-]|[_ Hj]]%lookup_insert_Some; [|by eauto]. exists e. done.
  - rewrite (map_sum_insert entry_space _ k _ e Ek). unfold entry_space. cbn. lia.
Qed.

(** ** The tails *)

(** Look at the tail of a list and at the entry it names. *)
Ltac at_tail R :=
  match goal with
  | |- context [list_tail ?s ?sg ?lru] =>
      let H := fresh "Htail" in
      pose proof (tail_spec s _ sg lru R) as H;
      destruct (list_tail s sg lru);
      [destruct H as (k & e & Hkey & Hindex & Hsg & Hlru & Hnode & Hlast);
       try rewrite !Hkey; try rewrite !Hindex; subst sg; try subst
      |]
  end.

Lemma cold_tail_calm sg s : represented s -> calm s (try_evict_or_shuffle_cold sg s).2.
Proof.
  intros [ks R]. unfold try_evict_or_shuffle_cold. at_tail R; [|by apply calm_refl; exists ks]. case_if; cbn [snd].
  - replace COLD_LRU with (se_lru e). by eapply move_calm; [..|unfold WARM_LRU, SLRU_LIST_COUNT; lia].
  - by eapply evict_key_spec.
Qed.

Lemma hot_tail_calm sg s : represented s -> calm s (shuffle_hot_tail sg s).2.
Proof.
  intros [ks R]. unfold shuffle_hot_tail. at_tail R; [|by apply calm_refl; exists ks].
  replace HOT_LRU with (se_lru e). case_if; cbn [snd];
    by eapply move_calm; [..|unfold WARM_LRU, COLD_LRU, SLRU_LIST_COUNT; lia].
Qed.

Lemma warm_tail_calm sg s : represented s -> calm s (shuffle_warm_tail sg s).2.
Proof.
  intros [ks R]. unfold shuffle_warm_tail. at_tail R; [|by apply calm_refl; exists ks].
  case_if; cbn [snd]; rewrite ?Hlru; pattern WARM_LRU at 1; rewrite <- Hlru;
    by eapply move_calm; [..|unfold WARM_LRU, COLD_LRU, SLRU_LIST_COUNT; lia].
Qed.

Lemma force_evict_calm sg lrus s : represented s -> calm s (force_evict_lists sg lrus s).2.
Proof.
  revert s. induction lrus as [|lru lrus IH]; intros s Hs; cbn [force_evict_lists]; [by apply calm_refl|]. destruct Hs as [ks R].
  pose proof (tail_spec s ks sg lru R) as H. destruct (list_tail s sg lru) as [node|]; [|by apply IH; exists ks].
  destruct H as (k & e & -> & Ek & _). destruct (evict_key_spec s ks k e R Ek) as (E1 & _ & C & _).
  destruct (evict_key k s) as [b s']. cbn [fst snd] in *. by subst b.
Qed.

Lemma evict_turn_calm sg s : represented s -> calm s (evict_turn sg s).2.
Proof.
  intros H. unfold evict_turn. pose proof (cold_tail_calm sg s H) as C1. destruct (try_evict_or_shuffle_cold sg s) as [[b|] s1]; [done|].
  cbn [snd] in C1. pose proof (hot_tail_calm sg s1 (ca_repr _ _ C1)) as C2. destruct (shuffle_hot_tail sg s1) as [[] s2]; cbn [snd] in *.
  { by eapply calm_trans. }
  pose proof (warm_tail_calm sg s2 (ca_repr _ _ C2)) as C3. destruct (shuffle_warm_tail sg s2) as [[] s3]; cbn [snd] in *.
  { eapply calm_trans; [done|]. by eapply calm_trans. }
  pose proof (force_evict_calm sg [COLD_LRU; HOT_LRU; WARM_LRU] s3 (ca_repr _ _ C3)) as C4. unfold force_evict_any_tail.
  destruct (force_evict_lists sg _ s3) as [[b|] s4]; cbn [snd] in *; eapply calm_trans; [done| |done|];
    (eapply calm_trans; [done|by eapply calm_trans]).
Qed.

Lemma evict_loop_calm n sg s : represented s -> calm s (evict_segment_loop n sg s).2.
Proof.
  revert s. induction n as [|n IH]; intros s H; cbn [evict_segment_loop]; [by apply calm_refl|]. case_if; [by apply calm_refl|].
  pose proof (evict_turn_calm sg s H) as C. destruct (evict_turn sg s) as [[out more] s1]. cbn [snd] in C. destruct more; [|done].
  pose proof (IH s1 (ca_repr _ _ C)) as C2. destruct (evict_segment_loop n sg s1). cbn [snd] in *. by eapply calm_trans.
Qed.

Lemma evict_segment_calm sg s : represented s -> calm s (evict_segment sg s).2.
Proof. apply evict_loop_calm. Qed.

Lemma demote_tail_calm sg from s : represented s -> calm s (maintain_demote_tail sg from s).2.
Proof.
  intros [ks R]. unfold maintain_demote_tail. pose proof (tail_spec s ks sg from R) as H.
  destruct (list_tail s sg from) as [node|]; [|by apply calm_refl; exists ks].
  destruct H as (k & e & -> & Ek & <- & <- & <- & _). rewrite Ek. cbn [snd].
  by eapply move_calm; [..|case_if; unfold WARM_LRU, COLD_LRU, SLRU_LIST_COUNT; lia].
Qed.

Lemma maintain_cold_calm sg s : represented s -> calm s (maintain_cold_tail sg s).2.
Proof.
  intros [ks R]. unfold maintain_cold_tail. at_tail R; [|by apply calm_refl; exists ks]. case_if; cbn [snd].
  - replace COLD_LRU with (se_lru e). by eapply move_calm; [..|unfold WARM_LRU, SLRU_LIST_COUNT; lia].
  - match goal with H : slru_index s !! ?k = Some e |- _ => destruct (evict_key_spec s ks k e R H) as (_ & _ & C & _); destruct (evict_key k s) as [[b|] s1] end; done.
Qed.

Lemma demote_loop_calm n sg from limit s : represented s -> calm s (demote_loop n sg from limit s).
Proof.
  revert s. induction n as [|n IH]; intros s H; cbn [demote_loop]; [by apply calm_refl|]. case_if; [by apply calm_refl|].
  pose proof (demote_tail_calm sg from s H) as C. destruct (maintain_demote_tail sg from s) as [[] s1]; [|done]. cbn [snd] in C.
  eapply calm_trans; [exact C|]. apply IH, C.
Qed.

Lemma cold_loop_calm n sg s : represented s -> calm s (cold_loop n sg s).2.
Proof.
  revert s. induction n as [|n IH]; intros s H; cbn [cold_loop]; [by apply calm_refl|]. case_if; [by apply calm_refl|].
  pose proof (maintain_cold_calm sg s H) as C. destruct (maintain_cold_tail sg s) as [[| |b] s1]; cbn [snd] in C; [done|..];
    pose proof (IH s1 (ca_repr _ _ C)) as C2.
  - by eapply calm_trans.
  - destruct (cold_loop n sg s1). cbn [snd] in *. by eapply calm_trans.
Qed.

Lemma maintain_segment_calm sg s : represented s -> calm s (maintain_segment sg s).2.
Proof.
  intros H. unfold maintain_segment. set (n := Z.to_nat _). pose proof (demote_loop_calm n sg HOT_LRU (hot_byte_limit s) s H) as C1.
  set (s1 := demote_loop n sg HOT_LRU _ s) in *. pose proof (demote_loop_calm n sg WARM_LRU (warm_byte_limit s1) s1 (ca_repr _ _ C1)) as C2.
  set (s2 := demote_loop n sg WARM_LRU _ s1) in *. eapply calm_trans; [exact C1|]. eapply calm_trans; [exact C2|].
  apply cold_loop_calm, C2.
Qed.

Lemma land_le_r a b : 0 <= b -> 0 <= Z.land a b <= b.
Proof.
  intros Hb. split; [apply Z.land_nonneg; auto|]. assert (Z.ldiff (Z.land a b) b = 0) as E.
  { apply Z.bits_inj'. intros n Hn. rewrite Z.ldiff_spec, Z.land_spec, Z.bits_0. by destruct (Z.testbit a n), (Z.testbit b n). }
  pose proof (Z.sub_nocarry_ldiff b (Z.land a b) E) as X. assert (0 <= Z.ldiff b (Z.land a b)) by (apply Z.ldiff_nonneg; auto). lia.
Qed.

(** ** Histories *)

Inductive SlruOp :=
| SlruPut (b : CacheBuffer)
| SlruUpdate (k : string) (old : bytes) (b : CacheBuffer)
| SlruGet (k : string)
| SlruDelete (k : string)
| SlruSetCapacity (capacity : Z)
| SlruMaintain
| SlruTune (hot warm : Z) (enabled : bool)
| SlruReset.

Definition op_space (op : SlruOp) : Z :=
  match op with SlruPut b | SlruUpdate _ _ b => cache_buffer_space b | _ => 0 end.
Definition op_buffer_ok (op : SlruOp) : Prop :=
  match op with SlruPut b | SlruUpdate _ _ b => buffer_ok b | _ => True end.

(** The buffers that may be tracked under a key: the last one put, and those
    that updates have replaced it with. *)
Definition candidates (k : string) (before : list CacheBuffer) (op : SlruOp) : list CacheBuffer :=
  match op with
  | SlruPut b => if bool_decide (buf_key b = k /\ k <> "") then [b] else before
  | SlruUpdate j _ b => if bool_decide (j = k) then b :: before else before
  | SlruDelete j => if bool_decide (j = k) then [] else before
  | SlruReset => []
  | _ => before
  end.

Section history.
Context (hash_key : string -> Z).

Definition slru_step (s : ReplacementSlru) (op : SlruOp) : ReplacementSlru :=
  match op with
  | SlruPut b => snd (slru_put hash_key b s)
  | SlruUpdate k old b => snd (slru_update_cache_buffer k old b s)
  | SlruGet k => snd (slru_get k s)
  | SlruDelete k => snd (slru_delete k s)
  | SlruSetCapacity c => default s (slru_set_capacity c s)
  | SlruMaintain => snd (run_lru_maintainer_pass s)
  | SlruTune hot warm enabled => config_lru_maintainer enabled (set_warm_lru_pct warm (set_hot_lru_pct hot s))
  | SlruReset => slru_reset s
  end.
Definition slru_run (ops : list SlruOp) (s : ReplacementSlru) : ReplacementSlru := fold_left slru_step ops s.

Record slru_inv (s : ReplacementSlru) : Prop := {
  si_repr : represented s;
  si_count : Z.of_nat (length (slru_segments s)) = num_segments s /\ 1 <= num_segments s;
  si_home : forall k e, slru_index s !! k = Some e -> se_segment e = pick_segment hash_key k s;
  si_init : base_initialized (slru_base s) = true
}.

Lemma pick_segment_num s s' k : num_segments s' = num_segments s -> pick_segment hash_key k s' = pick_segment hash_key k s.
Proof. intros E. unfold pick_segment. by rewrite E. Qed.

Lemma pick_segment_lt s k : slru_inv s -> exists x, slru_segments s !! pick_segment hash_key k s = Some x.
Proof.
  intros [_ [E1 E2] _ _]. apply lookup_lt_is_Some. unfold pick_segment. case_if; zbool; [lia|].
  pose proof (land_le_r (hash_key k) (num_segments s - 1)). lia.
Qed.

Lemma calm_inv s s' : calm s s' -> slru_inv s -> slru_inv s'.
Proof.
  intros [C1 C2 C3 C4] [I1 I2 I3 I4]. unfold settings in C2. injection C2 as X1 X2 X3 X4 X5 X6 X7 X8. split; [done|congruence| |congruence].
  intros k e' (e & Ee & _ & ->)%C3. rewrite (pick_segment_num s s') by done. by apply I3.
Qed.

Lemma calm_peek s s' k b : calm s s' -> slru_peek k s' = Some b -> slru_peek k s = Some b.
Proof.
  intros [_ _ C3 _]. unfold slru_peek. destruct (slru_index s' !! k) as [e'|] eqn:E; [|done]. cbn. intros [= <-].
  destruct (C3 k e' E) as (e & -> & -> & _). done.
Qed.

(** What one operation does to the tracked buffers. *)
Record stepped (s s' : ReplacementSlru) (op : SlruOp) : Prop := {
  st_inv : slru_inv s';
  st_sum : map_sum entry_space (slru_index s') <= map_sum entry_space (slru_index s) + op_space op;
  st_peek : forall k b, slru_peek k s' = Some b -> exists before, (slru_peek k s = before) /\
    b ∈ candidates k (match before with Some x => [x] | None => [] end) op
}.

Lemma calm_stepped s s' op : slru_inv s -> calm s s' -> 0 <= op_space op ->
  (forall k b, slru_peek k s' = Some b -> slru_peek k s = Some b -> b ∈ candidates k [b] op) -> stepped s s' op.
Proof.
  intros I C Ho Hc. split; [by eapply calm_inv| |].
  - pose proof (ca_sum _ _ C). lia.
  - intros k b Hb. pose proof (calm_peek s s' k b C Hb) as E. exists (slru_peek k s). split; [done|]. rewrite E. by apply Hc.
Qed.

(** A change followed by moves and evictions. *)
Lemma stepped_calm s s1 s2 op : stepped s s1 op -> calm s1 s2 -> stepped s s2 op.
Proof.
  intros [A1 A2 A3] C. split; [by eapply calm_inv|pose proof (ca_sum _ _ C); lia|]. intros k b Hb. apply A3. by eapply calm_peek.
Qed.

Lemma settings_attach sg lru node space s : settings (attach_front sg lru node space s) = settings s.
Proof. unfold attach_front. destruct (list_link_front _ _ _). unfold settings. cbn. by rewrite !length_alter. Qed.
Lemma index_attach sg lru node space s : slru_index (attach_front sg lru node space s) = slru_index s.
Proof. unfold attach_front. by destruct (list_link_front _ _ _). Qed.

(** The same settings give the same shards. *)
Lemma settings_inv s s' : slru_inv s -> settings s' = settings s -> represented s' ->
  (forall k e, slru_index s' !! k = Some e -> se_segment e = pick_segment hash_key k s) -> slru_inv s'.
Proof.
  intros [I1 I2 I3 I4] E R H. unfold settings in E. injection E as X1 X2 X3 X4 X5 X6 X7 X8.
  split; [done|congruence| |congruence]. intros k e Ek. rewrite (pick_segment_num s s') by done. by apply H.
Qed.

Lemma put_tracks s b : slru_inv s -> buffer_ok b -> buf_key b <> "" ->
  map_sum entry_space (slru_index s) + cache_buffer_space b <= u64_max ->
  let key := buf_key b in
  let sg := pick_segment hash_key key s in
  let s1 := (slru_delete key s).2 in
  let s2 := attach_front sg HOT_LRU (arena_alloc key (slru_arena s1)).1 (cache_buffer_space b)
              (slru_set_arena (arena_alloc key (slru_arena s1)).2 s1) in
  stepped s (slru_set_index (<[key := mkSlruEntry b BUFFER_INIT HOT_LRU sg (arena_alloc key (slru_arena s1)).1]> (slru_index s2)) s2) (SlruPut b).
Proof.
  intros I Hb Hk Ht key sg s1 s2. destruct (slru_delete_calm key s (si_repr _ I)) as (C1 & N1 & O1). fold s1 in C1, N1, O1.
  pose proof (calm_inv s s1 C1 I) as I1. destruct (si_repr _ I1) as [ks1 R1]. pose proof (ca_sum _ _ C1) as Hs.
  assert (num_segments s1 = num_segments s) as En by (pose proof (ca_settings _ _ C1) as E; unfold settings in E; congruence).
  assert (exists x, slru_segments s1 !! sg = Some x) as [x Ex].
  { unfold sg. rewrite <- (pick_segment_num s s1) by done. by apply pick_segment_lt. }
  pose proof (repr_add s1 ks1 R1 key b BUFFER_INIT sg x N1 Ex Hb ltac:(lia)) as R2. cbn zeta in R2. fold s2 in R2.
  assert (slru_index s2 = slru_index s1) as Ei by (unfold s2; by rewrite index_attach). rewrite Ei in *.
  split.
  - eapply (settings_inv s1); [done| |eexists; exact R2|].
    + exact (settings_attach sg HOT_LRU _ _ (slru_set_arena _ s1)).
    + cbn. intros j e [[<- <-]|[_ Hj]]%lookup_insert_Some; [cbn; unfold sg; symmetry; by apply pick_segment_num|by apply I1].
  - cbn. rewrite map_sum_insert_new by done. unfold entry_space at 1. cbn. lia.
  - intros k b'. unfold slru_peek at 1. cbn. destruct (decide (k = key)) as [->|Hne].
    + rewrite lookup_insert_eq. cbn. intros [= <-]. eexists. split; [done|]. rewrite bool_decide_eq_true_2 by done. set_solver.
    + rewrite lookup_insert_ne by done. rewrite O1 by done. intros E. exists (Some b'). split; [exact E|]. cbn.
      rewrite bool_decide_eq_false_2 by (intros [? _]; by apply Hne). set_solver.
Qed.

Lemma put_stepped s b : slru_inv s -> buffer_ok b -> map_sum entry_space (slru_index s) + cache_buffer_space b <= u64_max ->
  stepped s (slru_put hash_key b s).2 (SlruPut b).
Proof.
  intros I Hb Ht. unfold slru_put. rewrite (si_init _ I). cbn [negb]. case_bool_decide as Ek.
  { apply calm_stepped; [done|apply calm_refl, I|by apply space_nonneg|]. intros k b' _ _. cbn.
    rewrite bool_decide_eq_false_2 by (intros [? ?]; congruence). set_solver. }
  pose proof (put_tracks s b I Hb Ek Ht) as T. cbn zeta in T. set (s1 := (slru_delete (buf_key b) s).2) in *.
  destruct (arena_alloc (buf_key b) (slru_arena s1)) as [node a]. cbn [fst snd] in T.
  set (s2 := slru_set_index _ (attach_front _ _ _ _ _)) in *.
  assert (exists s3, calm s2 s3 /\ (if lru_maintainer_enabled s2 then maintain_segment (pick_segment hash_key (buf_key b) s) s2 else ([], s2)).2 = s3) as (s3 & C3 & E3).
  { destruct (lru_maintainer_enabled s2); eexists; (split; [|done]); [apply maintain_segment_calm, T|apply calm_refl, T]. }
  destruct (if lru_maintainer_enabled s2 then _ else _) as [out s3']. cbn [snd] in E3. subst s3'.
  pose proof (evict_segment_calm (pick_segment hash_key (buf_key b) s) s3 (ca_repr _ _ C3)) as C4.
  destruct (evict_segment _ s3) as [more s4]. cbn [snd] in *. eapply stepped_calm; [exact T|]. by eapply calm_trans.
Qed.

Lemma update_stepped s k old b : slru_inv s -> buffer_ok b -> map_sum entry_space (slru_index s) + cache_buffer_space b <= u64_max ->
  stepped s (slru_update_cache_buffer k old b s).2 (SlruUpdate k old b).
Proof.
  intros I Hb Ht. pose proof (space_nonneg b Hb) as Hn. assert (stepped s s (SlruUpdate k old b)) as Hid.
  { apply calm_stepped; [done|apply calm_refl, I|done|]. intros j b' _ _. cbn. case_bool_decide; set_solver. }
  unfold slru_update_cache_buffer. destruct (slru_index s !! k) as [e|] eqn:Ek; [|done]. case_bool_decide; [|done]. cbn [snd].
  destruct (si_repr _ I) as [ks R]. pose proof (entry_space_nonneg s ks k e R Ek) as He.
  pose proof (repr_update s ks R k e b Ek Hb ltac:(lia)) as R'. cbn zeta in R'. set (s1 := add_used _ _ _) in *.
  eapply (stepped_calm s s1); [|apply evict_segment_calm; by exists ks]. split.
  - eapply (settings_inv s); [done|unfold settings; cbn; by rewrite !length_alter|by exists ks|]. cbn.
    intros j e' [[<- <-]|[_ Hj]]%lookup_insert_Some; [by apply (si_home _ I k e)|by apply I].
  - cbn. rewrite (map_sum_insert entry_space _ k _ e Ek). unfold entry_space at 1. cbn. lia.
  - intros j b'. unfold slru_peek at 1. cbn. destruct (decide (j = k)) as [->|Hne].
    + rewrite lookup_insert_eq. cbn. intros [= <-]. eexists. split; [done|]. rewrite bool_decide_eq_true_2 by done. set_solver.
    + rewrite lookup_insert_ne by done. intros E. exists (Some b'). split; [exact E|]. cbn.
      rewrite bool_decide_eq_false_2 by done. set_solver.
Qed.

Lemma get_stepped s k : slru_inv s -> stepped s (slru_get k s).2 (SlruGet k).
Proof.
  intros I. unfold slru_get. destruct (slru_index s !! k) as [e|] eqn:Ek; cbn [snd].
  2:{ apply calm_stepped; [done|apply calm_refl, I|done|]. intros; set_solver. }
  destruct (si_repr _ I) as [ks R]. apply calm_stepped; [done| |done|intros; set_solver].
  split; [eexists; by apply repr_flag|done| |]; rewrite set_entry_index.
  - intros j e' [[<- <-]|[_ Hj]]%lookup_insert_Some; [|by eauto]. exists e. done.
  - rewrite (map_sum_insert entry_space _ k _ e Ek). unfold entry_space. cbn. lia.
Qed.

Lemma delete_stepped s k : slru_inv s -> stepped s (slru_delete k s).2 (SlruDelete k).
Proof.
  intros I. destruct (slru_delete_calm k s (si_repr _ I)) as (C & N & O). apply calm_stepped; [done|done|done|].
  intros j b Hj _. cbn. case_bool_decide as E; [|set_solver]. subst. unfold slru_peek in Hj. by rewrite N in Hj.
Qed.

Lemma evict_all_calm sgs s : represented s -> calm s (fold_left (fun s sg => snd (evict_segment sg s)) sgs s).
Proof.
  revert s. induction sgs as [|sg sgs IH]; intros s H; [by apply calm_refl|]. cbn. pose proof (evict_segment_calm sg s H) as C.
  eapply calm_trans; [exact C|]. apply IH, C.
Qed.

Lemma maintain_all_calm sgs acc : represented acc.2 ->
  calm acc.2 (fold_left (fun acc sg => let '(out, s) := maintain_segment sg acc.2 in (acc.1 ++ out, s)) sgs acc : list CacheBuffer * _).2.
Proof.
  revert acc. induction sgs as [|sg sgs IH]; intros acc H; [by apply calm_refl|]. cbn. pose proof (maintain_segment_calm sg acc.2 H) as C.
  destruct (maintain_segment sg acc.2) as [out s1]. cbn [snd] in C. eapply calm_trans; [exact C|]. apply (IH (acc.1 ++ out, s1)), C.
Qed.

(** A change of settings that keeps the shards. *)
Lemma retuned s s' op : slru_inv s -> op_space op = 0 -> (forall k b, b ∈ candidates k [b] op) ->
  slru_index s' = slru_index s -> slru_segments s' = slru_segments s -> slru_arena s' = slru_arena s ->
  num_segments s' = num_segments s -> base_initialized (slru_base s') = true -> stepped s s' op.
Proof.
  intros [[ks [K HL HS HU HT HB]] I2 I3 I4] Ho Hc E1 E2 E3 E4 E5. assert (forall id, lists_of s' id = lists_of s id) as El.
  { intros id. unfold lists_of, seg_list. by rewrite E2. }
  split; [|rewrite E1; lia|].
  - split; [|by rewrite E2, E4| |done].
    + exists ks. split; rewrite ?E1, ?E2, ?E3; try done.
      * eapply keyed_ext; [| | |exact K]; [|intros k; unfold places; by rewrite E1|done]. intros id. rewrite El. by destruct (lists_of s id).
      * intros id l. rewrite El. apply HL.
      * unfold slru_used_space. by rewrite E2.
    + rewrite E1. intros k e Ek. rewrite (pick_segment_num s s') by done. by apply I3.
  - intros k b. unfold slru_peek at 1. rewrite E1. intros E. exists (Some b). split; [exact E|]. apply Hc.
Qed.

Lemma set_capacity_stepped s c : slru_inv s -> stepped s (default s (slru_set_capacity c s)) (SlruSetCapacity c).
Proof.
  intros I. unfold slru_set_capacity, base_set_capacity. case_if; cbn.
  - set (s1 := slru_set_base _ _ s). assert (stepped s s1 (SlruSetCapacity c)) as T.
    { apply retuned; try done; [intros; cbn; set_solver|apply I]. }
    eapply stepped_calm; [exact T|]. apply evict_all_calm, T.
  - apply retuned; try done; [intros; cbn; set_solver|apply I].
Qed.

Lemma reset_stepped s : slru_inv s -> stepped s (slru_reset s) SlruReset.
Proof.
  intros I. assert (represented (slru_reset s)) as Hr.
  { exists (fun _ => []). apply repr_empty; [done|done|]. intros sg x Ex. apply list_lookup_fmap_Some in Ex as (y & -> & Ey). cbn [sg_lists sg_used].
    split; [|done]. destruct (si_repr _ I) as [ks R]. destruct (sr_segment _ _ R sg y Ey) as [El _]. rewrite <- El. clear.
    induction (sg_lists y) as [|l ls IH]; [done|]. cbn. by rewrite <- IH. }
  split; [split; [done| |done|]|..].
  - cbn. rewrite length_fmap. apply I.
  - apply I.
  - cbn. rewrite map_sum_empty. destruct (si_repr _ I) as [ks R]. pose proof (index_sum_nonneg s ks R). lia.
  - intros k b H. done.
Qed.

Lemma slru_step_stepped s op : slru_inv s -> op_buffer_ok op -> map_sum entry_space (slru_index s) + op_space op <= u64_max ->
  stepped s (slru_step s op) op.
Proof.
  intros I Hb Ht. destruct op as [b|k old b|k|k|c| |hot warm en|]; cbn [slru_step].
  - by apply put_stepped.
  - by apply update_stepped.
  - by apply get_stepped.
  - by apply delete_stepped.
  - by apply set_capacity_stepped.
  - apply calm_stepped; [done| |done|intros; cbn; set_solver]. unfold run_lru_maintainer_pass. case_if; [apply calm_refl, I|].
    apply (maintain_all_calm _ ([], s)), I.
  - apply retuned; try done; [intros; cbn; set_solver|apply I].
  - by apply reset_stepped.
Qed.

Definition total_space (ops : list SlruOp) : Z := foldr (fun op acc => op_space op + acc) 0 ops.

Lemma candidates_mono k b' x cs op : (forall y, x = Some y -> y ∈ cs) ->
  b' ∈ candidates k (match x with Some y => [y] | None => [] end) op -> b' ∈ candidates k cs op.
Proof.
  intros Hx. destruct op; cbn; try case_bool_decide; try done; destruct x as [y|]; set_unfold; naive_solver.
Qed.

Lemma run_stepped ops s (cs : string -> list CacheBuffer) :
  slru_inv s -> Forall op_buffer_ok ops -> map_sum entry_space (slru_index s) + total_space ops <= u64_max ->
  (forall k b, slru_peek k s = Some b -> b ∈ cs k) ->
  slru_inv (slru_run ops s) /\
  (forall k b, slru_peek k (slru_run ops s) = Some b -> b ∈ fold_left (candidates k) ops (cs k)).
Proof.
  revert s cs. induction ops as [|op ops IH]; intros s cs I Hb Ht Hp; [done|]. apply Forall_cons in Hb as [Hb Hbs].
  assert (forall ops, Forall op_buffer_ok ops -> 0 <= total_space ops) as Hn.
  { clear. induction 1 as [|op ops H Hs IH]; [done|]. change (0 <= op_space op + total_space ops).
    assert (0 <= op_space op); [|lia]. destruct op; cbn in *; try done; by apply space_nonneg. }
  pose proof (Hn ops Hbs). change (total_space (op :: ops)) with (op_space op + total_space ops) in Ht.
  destruct (slru_step_stepped s op I Hb ltac:(lia)) as [T1 T2 T3].
  apply (IH (slru_step s op) (fun k => candidates k (cs k) op)); [done|done|lia|].
  intros k b Hk. destruct (T3 k b Hk) as (x & Ex & Hin). eapply candidates_mono; [|exact Hin]. intros y ->. by apply Hp.
Qed.

Lemma resolve_segments_pos capacity requested : 1 <= resolve_slru_num_segments capacity requested.
Proof.
  unfold resolve_slru_num_segments, next_power_of_two. case_if; [lia|]. apply Z.pow_le_mono_r with (b := 0); [lia|]. apply Z.log2_up_nonneg.
Qed.

Lemma new_slru_inv capacity requested s0 : slru_with_num_segments capacity requested = Some s0 ->
  slru_inv (slru_init s0) /\ slru_index s0 = ∅.
Proof.
  unfold slru_with_num_segments. destruct (base_new capacity); [|done]. intros [= <-]. pose proof (resolve_segments_pos capacity requested).
  split; [|done]. split; cbn; try done; [|rewrite length_replicate; lia]. exists (fun _ => []). apply repr_empty; try done. cbn.
  intros sg x [-> _]%lookup_replicate. done.
Qed.
End history.

(** C16. Whatever the history of puts, updates, reads, deletions, capacity and
    tuning changes, maintainer passes and resets, every tracked key is in one
    place of one list, the one its entry names, in the shard its hash picks;
    the byte count of every list, of every shard and of the policy is exactly
    what its keys' buffers take; and a lookup only finds a buffer that was
    last put, or updated in its place, under that key. *)
Theorem slru_accounts_exactly hash_key capacity requested s0 ops :
  slru_with_num_segments capacity requested = Some s0 -> Forall op_buffer_ok ops -> total_space ops <= u64_max ->
  let s := slru_run hash_key ops (slru_init s0) in
  exists ks : nat * nat -> list string,
    (forall k e, slru_index s !! k = Some e -> k ∈ ks (se_segment e, se_lru e) /\ se_segment e = pick_segment hash_key k s) /\
    (forall id k, k ∈ ks id -> exists e, slru_index s !! k = Some e /\ id = (se_segment e, se_lru e)) /\
    (forall id, NoDup (ks id)) /\
    (forall sg lru l n, seg_list s sg lru = Some l ->
       list_used_size s sg lru = spaces (slru_index s) (ks (sg, lru)) /\
       collect_from_tail (slru_arena s) l n = take n (reverse (ks (sg, lru)))) /\
    (forall sg x, slru_segments s !! sg = Some x -> sg_used x = segment_sum (slru_index s) ks sg) /\
    slru_used_space s = map_sum entry_space (slru_index s) /\
    (forall k b, slru_peek k s = Some b -> b ∈ fold_left (candidates k) ops []).
Proof.
  intros Hs Hb Ht s. destruct (new_slru_inv hash_key capacity requested s0 Hs) as [I0 E0].
  destruct (run_stepped hash_key ops (slru_init s0) (fun _ => []) I0 Hb) as [I Hp].
  { cbn. rewrite E0, map_sum_empty. lia. }
  { intros k b. unfold slru_peek. cbn. rewrite E0. done. }
  fold s in I, Hp. destruct (si_repr _ _ I) as [ks R]. exists ks. pose proof (sr_keyed _ _ R) as K. split_and!.
  - intros k e Ek. split; [by apply (repr_entry s ks R k e Ek)|by apply I].
  - intros id k (i & Hi)%(keyed_mem _ _ _ _ K). unfold places in Hi. destruct (slru_index s !! k) as [e|]; [|done]. cbn in Hi.
    injection Hi as <- _. by exists e.
  - apply (keyed_nodup _ _ _ _ K).
  - intros sg lru l n El. unfold list_used_size. rewrite El. split; [by apply (sr_list_used _ _ R (sg, lru))|].
    by apply (keyed_collect _ _ _ _ K (sg, lru)).
  - intros sg x Ex. by apply (sr_segment _ _ R sg x).
  - apply R.
  - done.
Qed.

(** ** Draining *)

(** Entries of a shard nobody has read since they were put. *)
Definition unread (s : ReplacementSlru) (sg : nat) : Prop :=
  forall k e, slru_index s !! k = Some e -> se_segment e = sg -> se_flag e = BUFFER_INIT.

(** Turns an unread shard needs to give up everything. *)
Definition turns (ks : list_id -> list string) (sg : nat) : nat :=
  (2 * length (ks (sg, HOT_LRU)) + 2 * length (ks (sg, WARM_LRU)) + length (ks (sg, COLD_LRU)))%nat.

Lemma length_without k l : NoDup l -> k ∈ l -> S (length (without k l)) = length l.
Proof.
  intros Hnd Hk. apply list_elem_of_split in Hk as (l1 & l2 & ->). rewrite without_split by done. rewrite !length_app. cbn. lia.
Qed.

Section drain.
Context (s : ReplacementSlru) (ks : list_id -> list string) (R : slru_repr s ks) (sg : nat) (U : unread s sg).

Lemma nonempty_tail lru : ks (sg, lru) <> [] -> exists k e,
  list_tail s sg lru = Some (se_node e) /\ node_key s (se_node e) = k /\ slru_index s !! k = Some e /\ se_segment e = sg /\
  se_lru e = lru /\ se_flag e = BUFFER_INIT /\ S (length (without k (ks (sg, lru)))) = length (ks (sg, lru)).
Proof.
  intros Hne. pose proof (tail_spec s ks sg lru R) as H. destruct (list_tail s sg lru) as [node|]; [|done].
  destruct H as (k & e & H1 & H2 & H3 & H4 & H5 & H6). exists k, e. subst. split_and!; try done; [by eapply U|].
  apply length_without; [apply (keyed_nodup _ _ _ _ (sr_keyed _ _ R))|by apply last_Some_elem_of].
Qed.

Lemma empty_tail lru : ks (sg, lru) = [] -> list_tail s sg lru = None.
Proof.
  intros E. pose proof (tail_spec s ks sg lru R) as H. destruct (list_tail s sg lru) as [node|]; [|done].
  destruct H as (k & e & _ & _ & _ & _ & _ & H). by rewrite E in H.
Qed.

(** The shard after a turn: still unread, with less left to do. *)
Definition nearer (s' : ReplacementSlru) : Prop :=
  exists ks', slru_repr s' ks' /\ unread s' sg /\ (turns ks' sg < turns ks sg)%nat /\ bytes_each_segment s' = bytes_each_segment s.

Lemma evict_nearer k e : slru_index s !! k = Some e -> se_segment e = sg -> se_lru e = COLD_LRU ->
  S (length (without k (ks (sg, COLD_LRU)))) = length (ks (sg, COLD_LRU)) -> nearer (evict_key k s).2.
Proof.
  intros Ek Es El Hlen. destruct (evict_key_spec s ks k e R Ek) as (_ & Ei & C & R'). eexists. split; [exact R'|]. split_and!.
  - intros j f. rewrite Ei. intros [_ Hj]%lookup_delete_Some. by apply (U j f).
  - unfold entry_id, turns. rewrite Es, El, set_at_eq, !set_at_ne by (unfold HOT_LRU, WARM_LRU, COLD_LRU; congruence). lia.
  - pose proof (ca_settings _ _ C) as E. unfold settings in E. congruence.
Qed.

Lemma demote_nearer k e from : slru_index s !! k = Some e -> se_segment e = sg -> se_lru e = from -> from = HOT_LRU \/ from = WARM_LRU ->
  S (length (without k (ks (sg, from)))) = length (ks (sg, from)) ->
  nearer (move_node sg from COLD_LRU (se_node e) (cache_buffer_space (se_buffer e)) (set_entry k e (se_flag e) COLD_LRU s)).
Proof.
  intros Ek Es El Hf Hlen. pose proof (repr_move s ks R k e (se_flag e) COLD_LRU Ek) as R'.
  specialize (R' ltac:(unfold COLD_LRU, SLRU_LIST_COUNT; lia)). rewrite Es, El in R'. eexists. split; [exact R'|]. split_and!.
  - intros j f. rewrite index_move, set_entry_index. intros [[<- <-]|[_ Hj]]%lookup_insert_Some; [|by apply (U j f)]. cbn. intros _. by apply (U k e).
  - unfold entry_id, turns. rewrite Es, El. rewrite (set_at_eq (sg, COLD_LRU)), !(set_at_ne (sg, COLD_LRU)) by (unfold HOT_LRU, WARM_LRU, COLD_LRU; congruence).
    cbn [length]. destruct Hf as [-> | ->]; rewrite !set_at_eq, !set_at_ne by (unfold HOT_LRU, WARM_LRU, COLD_LRU; congruence); lia.
  - pose proof (settings_move sg from COLD_LRU (se_node e) (cache_buffer_space (se_buffer e)) (set_entry k e (se_flag e) COLD_LRU s)) as E.
    unfold settings in E. cbn in E. congruence.
Qed.

Lemma turn_nearer : (0 < turns ks sg)%nat -> (evict_turn sg s).1.2 = true /\ nearer (evict_turn sg s).2.
Proof.
  intros Hpos. unfold evict_turn, try_evict_or_shuffle_cold. destruct (decide (ks (sg, COLD_LRU) = [])) as [Ec|Ec].
  2:{ destruct (nonempty_tail COLD_LRU Ec) as (k & e & Ht & Hk & Ek & Es & El & Hf & Hlen). rewrite Ht, Hk, Ek, Hf. cbn [Z.leb].
      change (BUFFER_FETCHED <=? BUFFER_INIT) with false. cbn iota. pose proof (evict_nearer k e Ek Es El Hlen) as N.
      destruct (evict_key_spec s ks k e R Ek) as (E1 & _). destruct (evict_key k s) as [b s1]. cbn [fst snd] in *. by subst b. }
  rewrite (empty_tail COLD_LRU Ec). unfold shuffle_hot_tail. destruct (decide (ks (sg, HOT_LRU) = [])) as [Eh|Eh].
  2:{ destruct (nonempty_tail HOT_LRU Eh) as (k & e & Ht & Hk & Ek & Es & El & Hf & Hlen). rewrite Ht, Hk, Ek.
      replace (BUFFER_FETCHED <=? se_flag e) with false by (by rewrite Hf). split; [done|]. apply (demote_nearer k e HOT_LRU); auto. }
  rewrite (empty_tail HOT_LRU Eh). unfold shuffle_warm_tail. destruct (decide (ks (sg, WARM_LRU) = [])) as [Ew|Ew].
  { unfold turns in Hpos. rewrite Ec, Eh, Ew in Hpos. cbn in Hpos. lia. }
  destruct (nonempty_tail WARM_LRU Ew) as (k & e & Ht & Hk & Ek & Es & El & Hf & Hlen). rewrite Ht, Hk, Ek.
  replace (BUFFER_ACTIVE <=? se_flag e) with false by (by rewrite Hf). split; [done|]. apply (demote_nearer k e WARM_LRU); auto.
Qed.
End drain.

Lemma used_when_empty s ks sg : slru_repr s ks -> turns ks sg = 0%nat -> segment_used s sg = 0.
Proof.
  intros R Ht. unfold segment_used. destruct (slru_segments s !! sg) as [x|] eqn:Ex; [|done]. cbn.
  destruct (sr_segment _ _ R _ _ Ex) as [_ ->]. unfold turns in Ht.
  destruct (ks (sg, HOT_LRU)), (ks (sg, WARM_LRU)), (ks (sg, COLD_LRU)); cbn in *; lia.
Qed.

Lemma drain_loop n s ks sg : slru_repr s ks -> unread s sg -> 0 <= bytes_each_segment s -> (turns ks sg <= n)%nat ->
  segment_used (evict_segment_loop n sg s).2 sg <= bytes_each_segment s.
Proof.
  revert s ks. induction n as [|n IH]; intros s ks R U Hb Hn; cbn [evict_segment_loop].
  - cbn [snd]. rewrite (used_when_empty s ks sg R) by lia. done.
  - case_if; zbool; [done|]. destruct (decide (turns ks sg = 0%nat)) as [E|E].
    { pose proof (used_when_empty s ks sg R E). lia. }
    destruct (turn_nearer s ks R sg U) as [Hm (ks' & R' & U' & Hlt & Hbe)]; [lia|].
    destruct (evict_turn sg s) as [[out more] s1]. cbn [fst snd] in *. subst more.
    pose proof (IH s1 ks' R' U' ltac:(lia) ltac:(lia)) as H. destruct (evict_segment_loop n sg s1). cbn [snd] in *. lia.
Qed.

Lemma segment_len_repr s ks sg : slru_repr s ks -> Z.of_nat (length (a_nodes (slru_arena s))) < 2 ^ 32 ->
  (exists x, slru_segments s !! sg = Some x) ->
  segment_len s sg = Z.of_nat (length (ks (sg, HOT_LRU)) + length (ks (sg, WARM_LRU)) + length (ks (sg, COLD_LRU))) /\
  segment_len s sg <= 3 * 2 ^ 32.
Proof.
  intros R Hn [x Ex]. pose proof (sr_keyed _ _ R) as K. destruct (sr_segment _ _ R _ _ Ex) as [El _].
  assert (forall lru l, sg_lists x !! lru = Some l -> l_len l = Z.of_nat (length (ks (sg, lru))) /\ Z.of_nat (length (ks (sg, lru))) < 2 ^ 32) as H.
  { intros lru l Hl. assert (lists_of s (sg, lru) = Some l) as E by (unfold lists_of, seg_list; cbn; by rewrite Ex).
    split; [apply (keyed_length _ _ _ _ K (sg, lru)); [unfold u64_max; lia|done]|].
    destruct K as (ns & [F _ Hk]). rewrite Hk, length_fmap. pose proof (spells_length _ _ _ (f_spells _ _ _ F _ _ E)). lia. }
  unfold segment_len. rewrite Ex. cbn. unfold SLRU_LIST_COUNT in El. destruct (sg_lists x) as [|l0 [|l1 [|l2 [|]]]]; try done. cbn.
  destruct (H 0%nat l0 eq_refl), (H 1%nat l1 eq_refl), (H 2%nat l2 eq_refl). unfold HOT_LRU, WARM_LRU, COLD_LRU. lia.
Qed.

(** While no entry of a shard has been read since it was put, the drain
    budget is enough: evicting from the shard ends with its byte count within
    the shard's limit. *)
Theorem slru_drains_unread hash_key capacity requested s0 ops sg :
  slru_with_num_segments capacity requested = Some s0 -> Forall op_buffer_ok ops -> total_space ops <= u64_max ->
  let s := slru_run hash_key ops (slru_init s0) in
  Z.of_nat (length (a_nodes (slru_arena s))) < 2 ^ 32 -> 0 <= bytes_each_segment s ->
  (forall k e, slru_index s !! k = Some e -> se_segment e = sg -> se_flag e = BUFFER_INIT) ->
  segment_used (evict_segment sg s).2 sg <= bytes_each_segment s.
Proof.
  intros Hs Hb Ht s Hn Hbytes U. destruct (new_slru_inv hash_key capacity requested s0 Hs) as [I0 E0].
  destruct (run_stepped hash_key ops (slru_init s0) (fun _ => []) I0 Hb) as [I _].
  { cbn. rewrite E0, map_sum_empty. lia. }
  { intros k b. unfold slru_peek. cbn. rewrite E0. done. }
  fold s in I. destruct (si_repr _ _ I) as [ks R]. destruct (decide (exists x, slru_segments s !! sg = Some x)) as [Hx|Hx].
  - destruct (segment_len_repr s ks sg R Hn Hx) as [El Hl]. apply (drain_loop _ s ks sg R U Hbytes).
    unfold drain_budget, turns, sat_add, u64_max. lia.
  - pose proof (evict_segment_calm sg s (si_repr _ _ I)) as C. unfold segment_used.
    assert (slru_segments (evict_segment sg s).2 !! sg = None) as ->; [|done].
    apply lookup_ge_None. pose proof (ca_settings _ _ C) as E. unfold settings in E. injection E as _ _ _ _ _ _ _ ->.
    destruct (slru_segments s !! sg) as [x|] eqn:Ex; [exfalso; eauto|]. by apply lookup_ge_None.
Qed.

(** ** Concrete histories *)

Definition one_shard (s : string) : Z := 0.
Definition base_demo : ReplacementSlru :=
  default (mkSlru (mkBase 0 0 false) ∅ [] new_arena 0 0 0 0 false false []) (slru_with_num_segments 40 1).
Definition unread_ops : list SlruOp := [SlruPut (demo_buffer "a" 9); SlruPut (demo_buffer "b" 9)].
Definition read_ops : list SlruOp := unread_ops ++ [SlruGet "a"; SlruGet "b"].

(** One read of each entry is enough to defeat the budget: the shard's
    entries go round between the warm and the cold list, none is evicted, and
    lowering the capacity leaves the policy holding twice what it allows. *)
Theorem slru_drain_stalls :
  slru_used_space (slru_run one_shard (read_ops ++ [SlruSetCapacity 10]) (slru_init base_demo)) = 20 /\
  bytes_each_segment (slru_run one_shard (read_ops ++ [SlruSetCapacity 10]) (slru_init base_demo)) = 10 /\
  slru_used_space (slru_run one_shard (unread_ops ++ [SlruSetCapacity 10]) (slru_init base_demo)) = 10.
Proof. vm_compute. done. Qed.

Lemma slru_accounts_exactly_witness :
  slru_used_space (slru_run one_shard read_ops (slru_init base_demo)) = 20.
Proof.
  destruct (slru_accounts_exactly one_shard 40 1 base_demo read_ops) as (ks & _ & _ & _ & _ & _ & H & _).
  - reflexivity.
  - repeat constructor; vm_compute; congruence.
  - vm_compute. congruence.
  - rewrite H. vm_compute. reflexivity.
Defined.

Lemma slru_drains_unread_witness :
  segment_used (evict_segment 0 (slru_run one_shard unread_ops (slru_init base_demo))).2 0 <= 40.
Proof.
  apply (slru_drains_unread one_shard 40 1 base_demo unread_ops 0).
  - reflexivity.
  - repeat constructor; vm_compute; congruence.
  - vm_compute. congruence.
  - vm_compute. congruence.
  - vm_compute. congruence.
  - intros k e. destruct (decide (k = "a")) as [->|Ha]; [intros E; vm_compute in E; injection E as <-; reflexivity|].
    destruct (decide (k = "b")) as [->|Hb]; [intros E; vm_compute in E; injection E as <-; reflexivity|].
    assert (slru_index (slru_run one_shard unread_ops (slru_init base_demo))
            = <["a" := mkSlruEntry (demo_buffer "a" 9) BUFFER_INIT COLD_LRU 0 0]>
                (<["b" := mkSlruEntry (demo_buffer "b" 9) BUFFER_INIT COLD_LRU 0 1]> ∅)) as -> by (vm_compute; reflexivity).
    rewrite !lookup_insert_ne by done. done.
Defined.
