(* ===== verification/SsdRecords.v ===== *)
(** * Records on the device

    The byte formats of the SSD tier (core/storage_config.rs): fixed-width
    integers in a buffer, colored pointers (an address, a size in pages and a
    record state packed in one [u64]), the index that holds them, and the
    checksummed data records and operation-log entries of [BufferEncoder].
    [DefaultHasher], whose algorithm the standard library leaves open, is a
    parameter. *)

From Stdlib Require Import Strings.Byte.
From S2P Require Import Prelude BlockCodec.

(** ** Fixed-width fields *)

(** [usize::checked_add]. *)
Definition checked_add (a b : Z) : option Z := if a + b <=? u64_max then Some (a + b) else None.

(** [buf.get(from..to)]. *)
Definition slice (buf : bytes) (from to : Z) : option bytes :=
  if (from <=? to) && (to <=? blen buf)
  then Some (take (Z.to_nat (to - from)) (drop (Z.to_nat from) buf)) else None.

Definition put_fixed_uint32 (buf : bytes) (num : Z) : bytes := buf ++ le_bytes 4 num.
Definition put_fixed_uint64 (buf : bytes) (num : Z) : bytes := buf ++ le_bytes 8 num.
Definition copy_bytes_to (dst src : bytes) : bytes := dst ++ src.

Definition get_fixed_uint32 (buf : bytes) (offset : Z) : option (Z * Z) :=
  end_ ← checked_add offset 4; v ← slice buf offset end_; Some (le_value v, end_).
Definition get_fixed_uint64 (buf : bytes) (offset : Z) : option (Z * Z) :=
  end_ ← checked_add offset 8; v ← slice buf offset end_; Some (le_value v, end_).
Definition copy_bytes_from (src : bytes) (offset len : Z) : option (bytes * Z) :=
  end_ ← checked_add offset len; v ← slice src offset end_; Some (v, end_).

Record Xxh128 := mkHash { first : Z; second : Z }.
#[global] Instance Xxh128_eq_dec : EqDecision Xxh128.
Proof. solve_decision. Defined.

Definition get_fixed_hash128 (buf : bytes) (offset : Z) : option (Xxh128 * Z) :=
  '(a, offset) ← get_fixed_uint64 buf offset;
  '(b, offset) ← get_fixed_uint64 buf offset;
  Some (mkHash a b, offset).

Definition aligned_to (size align_size : Z) : Z :=
  if align_size =? 0 then size
  else
    let align_size := Z.min align_size u32_max in
    let rem := size `mod` align_size in
    if rem =? 0 then size else sat_add32 size (align_size - rem).

(** ** Colored pointers *)

Inductive RecordState := SoftDel | Normal | Pinned | MaxCode.
#[global] Instance RecordState_eq_dec : EqDecision RecordState.
Proof. solve_decision. Defined.

(** [state as u64]. *)
Definition state_code (st : RecordState) : Z :=
  match st with SoftDel => 0x0 | Normal => 0x1 | Pinned => 0x2 | MaxCode => 0xf end.

Definition SSD_RECORD_STATE_FLAGS : Z := 0x000000000000000f.
Definition SSD_RECORD_ALIGN_SIZE : Z := 4096.

Definition decode_colored_ptr (colored_ptr : Z) : Z * Z :=
  let size := Z.land (Z.shiftr colored_ptr 7) 0xfff in
  let lba := Z.shiftr colored_ptr 19 in
  (size, lba).

Definition mask_colored_ptr_lba (old_colored_ptr lba : Z) : Z :=
  Z.lor old_colored_ptr (Z.land (Z.shiftl lba 19) 0xfffffffffff80000).
Definition mask_colored_ptr_size (old_colored_ptr size : Z) : Z :=
  Z.lor old_colored_ptr (Z.shiftl (Z.land size 0xfff) 7).
Definition mask_colored_ptr_record_state (old_colored_ptr : Z) (state : RecordState) : Z :=
  Z.lor old_colored_ptr (Z.land (state_code state) (state_code MaxCode)).

Definition decode_colored_ptr_record_state (colored_ptr : Z) : RecordState :=
  let code := Z.land colored_ptr SSD_RECORD_STATE_FLAGS in
  if code =? 0x0 then SoftDel else if code =? 0x2 then Pinned else if code =? 0xf then MaxCode else Normal.

(** ** The index *)

Inductive SsdIndexValue :=
| SsdColoredPtr (ptr : Z)
| InMemory (value : bytes) (state : RecordState).

Definition value_state (v : SsdIndexValue) : RecordState :=
  match v with
  | SsdColoredPtr ptr => decode_colored_ptr_record_state ptr
  | InMemory _ state => state
  end.

(** [ptr & !SSD_RECORD_STATE_FLAGS], on 64 bits. *)
Definition clear_state (ptr : Z) : Z := Z.ldiff ptr SSD_RECORD_STATE_FLAGS.

Definition with_state (v : SsdIndexValue) (state : RecordState) : SsdIndexValue :=
  match v with
  | SsdColoredPtr ptr => SsdColoredPtr (mask_colored_ptr_record_state (clear_state ptr) state)
  | InMemory value _ => InMemory value state
  end.

Abbreviation SsdIndex := (gmap string SsdIndexValue).

Definition update_index (key : string) (value : SsdIndexValue) (entries : SsdIndex) : bool * SsdIndex :=
  match entries !! key with
  | None => (false, entries)
  | Some current => (true, <[key := with_state value (value_state current)]> entries)
  end.

Definition index_put (key : string) (value : SsdIndexValue) (entries : SsdIndex) : SsdIndex := <[key := value]> entries.

Definition index_get (key : string) (entries : SsdIndex) : option SsdIndexValue * SsdIndex :=
  match entries !! key with
  | None => (None, entries)
  | Some value =>
      if decide (value_state value = SoftDel) then
        let promoted := with_state value Normal in
        (Some promoted, <[key := promoted]> entries)
      else (Some value, entries)
  end.

Definition index_unpin (key : string) (entries : SsdIndex) : SsdIndex :=
  match entries !! key with
  | Some value => if decide (value_state value = Pinned) then <[key := with_state value Normal]> entries else entries
  | None => entries
  end.

Definition index_pin (key : string) (entries : SsdIndex) : bool * SsdIndex :=
  match entries !! key with
  | Some value =>
      if decide (value_state value = Pinned) then (false, entries)
      else (true, <[key := with_state value Pinned]> entries)
  | None => (false, entries)
  end.

Definition soft_delete (key : string) (entries : SsdIndex) : SsdIndex :=
  match entries !! key with
  | Some value => if decide (value_state value = Pinned) then entries else <[key := with_state value SoftDel]> entries
  | None => entries
  end.

Definition delete_if (key : string) (pred : RecordState -> bool) (entries : SsdIndex) : bool * SsdIndex :=
  match entries !! key with
  | Some value => if pred (value_state value) then (true, delete key entries) else (false, entries)
  | None => (false, entries)
  end.

(** ** Strings from bytes *)

(** [String::from_utf8_lossy]: how many continuation bytes a first byte asks
    for, with the range of the first of them. *)
Definition utf8_first (b : Byte.byte) : option (nat * Z * Z) :=
  let b := byte_value b in
  if b <=? 0x7f then Some (0%nat, 0x80, 0xbf)
  else if b <? 0xc2 then None
  else if b <=? 0xdf then Some (1%nat, 0x80, 0xbf)
  else if b =? 0xe0 then Some (2%nat, 0xa0, 0xbf)
  else if b =? 0xed then Some (2%nat, 0x80, 0x9f)
  else if b <=? 0xef then Some (2%nat, 0x80, 0xbf)
  else if b =? 0xf0 then Some (3%nat, 0x90, 0xbf)
  else if b <=? 0xf3 then Some (3%nat, 0x80, 0xbf)
  else if b =? 0xf4 then Some (3%nat, 0x80, 0x8f)
  else None.

(** The continuation bytes in range, and whether all [n] are there. *)
Fixpoint utf8_rest (n : nat) (lo hi : Z) (v : bytes) : nat * bool :=
  match n with
  | O => (0%nat, true)
  | S n =>
      match v with
      | b :: v =>
          if (lo <=? byte_value b) && (byte_value b <=? hi) then
            let '(m, ok) := utf8_rest n 0x80 0xbf v in (S m, ok)
          else (0%nat, false)
      | [] => (0%nat, false)
      end
  end.

Definition REPLACEMENT : bytes := [xef; xbf; xbd].

(** The length of the bytes bounds the chunks. *)
Fixpoint utf8_chunks (fuel : nat) (v : bytes) : list (bytes + unit) :=
  match fuel, v with
  | S fuel, b :: v =>
      match utf8_first b with
      | None => inr tt :: utf8_chunks fuel v
      | Some (n, lo, hi) =>
          let '(m, ok) := utf8_rest n lo hi v in
          (if ok then inl (b :: take m v) else inr tt) :: utf8_chunks fuel (drop m v)
      end
  | _, _ => []
  end.

Definition from_utf8_lossy (v : bytes) : bytes :=
  concat ((fun c => match c with inl v => v | inr _ => REPLACEMENT end) <$> utf8_chunks (length v) v).

(** What a Rust [String] holds. *)
Definition is_utf8 (v : bytes) : bool :=
  forallb (fun c => match c with inl _ => true | inr _ => false end) (utf8_chunks (length v) v).

Definition key_bytes (key : string) : bytes := String.list_byte_of_string key.
Definition key_of_bytes (v : bytes) : string := String.string_of_list_byte (from_utf8_lossy v).

(** ** The encoder *)

Record WriteBufferRecord := mkRecord { rec_key : string; rec_value : bytes }.

(** [seed.hash(..); value.hash(..); finish()] of a fresh [DefaultHasher]. *)
Class Hasher := hash_bytes_with_seed : bytes -> Z -> Z.
(** It answers a [u64]. *)
Class HasherLaws `(Hasher) : Prop := hash_u64 : forall v seed, 0 <= hash_bytes_with_seed v seed < 2 ^ 64.

Section encoder.
Context `{Hasher}.

Record BufferEncoder := mkEncoder { align_size : Z; xxh_seed : Z }.
Definition new_encoder : BufferEncoder := mkEncoder SSD_RECORD_ALIGN_SIZE 0.
Definition DATA_FIXED_PART_SIZE : Z := 20.
Definition OPLOG_FIXED_PART_SIZE : Z := 28.
Definition OPLOG_HEADER_SIZE : Z := 8.
Implicit Types enc : BufferEncoder.

Definition hash128 enc (value : bytes) : Xxh128 := mkHash (hash_bytes_with_seed value (xxh_seed enc)) 0.

(** Sixteen bytes of checksum over what follows them. *)
Definition sealed enc (body : bytes) : bytes :=
  let hash := hash128 enc body in le_bytes 8 (first hash) ++ le_bytes 8 (second hash) ++ body.

Definition serialize_data enc (value : bytes) : bytes :=
  sealed enc (copy_bytes_to (put_fixed_uint32 [] (wrap32 (blen value))) value).

Definition deserialize_data enc (src : bytes) : bytes * bool :=
  let bad := ([], true) in
  if blen src <? DATA_FIXED_PART_SIZE then bad
  else match get_fixed_hash128 src 0 with
  | None => bad
  | Some (expected, offset) =>
  match get_fixed_uint32 src offset with
  | None => bad
  | Some (length_, offset) =>
  match checked_add DATA_FIXED_PART_SIZE length_ with
  | None => bad
  | Some end_ =>
  if blen src <? end_ then bad
  else match copy_bytes_from src offset length_ with
  | None => bad
  | Some (value, _) =>
      let actual := hash128 enc (default [] (slice src 16 end_)) in
      (value, negb (bool_decide (actual = expected)))
  end end end end.

(** The pointer [serialize_oplog] gives a record whose data starts at
    [batch_begin_offset]. *)
Definition record_ptr enc (value_len batch_begin_offset : Z) : Z :=
  let record_size := sat_add32 DATA_FIXED_PART_SIZE value_len in
  let record_units := aligned_to record_size (align_size enc) `div` align_size enc in
  mask_colored_ptr_size
    (mask_colored_ptr_lba (mask_colored_ptr_record_state 0 SoftDel) batch_begin_offset) record_units.

Definition oplog_entry enc (key : bytes) (colored_ptr : Z) : bytes :=
  sealed enc (put_fixed_uint64 (copy_bytes_to (put_fixed_uint32 [] (wrap32 (blen key))) key) colored_ptr).

(** The bytes, and the state of the callback ([update_entry_callback]), which
    sees every pointer. *)
Fixpoint serialize_oplog {S : Type} enc (records : list WriteBufferRecord)
    (callback : string -> SsdIndexValue -> S -> bool * S) (batch_begin_offset : Z) (st : S) : bytes * S :=
  match records with
  | [] => ([], st)
  | record :: records =>
      let value_len := wrap32 (blen (rec_value record)) in
      let colored_ptr := record_ptr enc value_len batch_begin_offset in
      let st := snd (callback (rec_key record) (SsdColoredPtr colored_ptr) st) in
      let entry := oplog_entry enc (key_bytes (rec_key record)) colored_ptr in
      let '(encoded, st) :=
        serialize_oplog enc records callback (batch_begin_offset +! (DATA_FIXED_PART_SIZE + value_len)) st in
      (entry ++ encoded, st)
  end.

(** The key, the pointer, the bytes used, and whether the entry is corrupt. *)
Definition deserialize_oplog enc (src : bytes) : string * Z * Z * bool :=
  let bad := (EmptyString, 0, 0, true) in
  if blen src <? OPLOG_FIXED_PART_SIZE then bad
  else match get_fixed_hash128 src 0 with
  | None => bad
  | Some (expected, offset) =>
  match get_fixed_uint32 src offset with
  | None => bad
  | Some (key_len, offset) =>
  match copy_bytes_from src offset key_len with
  | None => bad
  | Some (key, offset) =>
  match get_fixed_uint64 src offset with
  | None => bad
  | Some (offset_value, next_offset) =>
      let actual := hash128 enc (default [] (slice src 16 next_offset)) in
      (key_of_bytes key, offset_value, next_offset, negb (bool_decide (actual = expected)))
  end end end end.

End encoder.

(** ** Reading a buffer front to back *)

(** A [Vec] never holds more than [isize::MAX] bytes. *)
Definition vec_ok (v : bytes) : Prop := blen v < 2 ^ 63.

Lemma slice_app p v r : slice (p ++ v ++ r) (blen p) (blen p + blen v) = Some v.
Proof.
  unfold slice. rewrite !blen_app. pose proof (blen_nonneg v). pose proof (blen_nonneg r).
  rewrite !(proj2 (Z.leb_le _ _)) by lia. cbn [andb]. f_equal.
  replace (blen p + blen v - blen p) with (blen v) by lia. unfold blen. rewrite !Nat2Z.id.
  by rewrite drop_app_length, take_app_length.
Qed.

Lemma checked_add_ok a b : a + b <= u64_max -> checked_add a b = Some (a + b).
Proof. intros. unfold checked_add. by rewrite (proj2 (Z.leb_le _ _)). Qed.

Section fields.
Context (src p r : bytes) (Hv : vec_ok src).

Lemma copy_at v : src = p ++ v ++ r -> copy_bytes_from src (blen p) (blen v) = Some (v, blen p + blen v).
Proof using Hv.
  intros ->. unfold copy_bytes_from. unfold vec_ok in Hv. rewrite !blen_app in Hv. pose proof (blen_nonneg r).
  rewrite checked_add_ok by (unfold u64_max; lia). cbn. by rewrite slice_app.
Qed.

Lemma u64_at z : src = p ++ le_bytes 8 z ++ r -> 0 <= z < 2 ^ 64 ->
  get_fixed_uint64 src (blen p) = Some (z, blen p + 8).
Proof using Hv.
  intros E Hz. pose proof (copy_at _ E) as C. unfold copy_bytes_from in C. unfold get_fixed_uint64.
  assert (blen (le_bytes 8 z) = 8) as L by (unfold blen; by rewrite le_bytes_length). rewrite L in C.
  destruct (checked_add (blen p) 8) as [e|]; [|done]. cbn in *. destruct (slice src (blen p) e); [|done].
  injection C as -> ->. cbn. by rewrite le_value_bytes.
Qed.

Lemma u32_at z : src = p ++ le_bytes 4 z ++ r -> 0 <= z < 2 ^ 32 ->
  get_fixed_uint32 src (blen p) = Some (z, blen p + 4).
Proof using Hv.
  intros E Hz. pose proof (copy_at _ E) as C. unfold copy_bytes_from in C. unfold get_fixed_uint32.
  assert (blen (le_bytes 4 z) = 4) as L by (unfold blen; by rewrite le_bytes_length). rewrite L in C.
  destruct (checked_add (blen p) 4) as [e|]; [|done]. cbn in *. destruct (slice src (blen p) e); [|done].
  injection C as -> ->. cbn. by rewrite le_value_bytes.
Qed.
End fields.

(** The first [n] bytes of a buffer, as an integer. *)
Lemma le_front n v : Z.of_nat n <= blen v -> exists z r, v = le_bytes n z ++ r /\ 0 <= z < 2 ^ (Z.of_nat n * 8).
Proof.
  intros H. exists (le_value (take n v)), (drop n v). assert (length (take n v) = n) as L by (rewrite length_take; unfold blen in H; lia).
  split.
  - rewrite <- L at 1. by rewrite le_bytes_value, take_drop.
  - rewrite <- L at 3. unfold le_value. rewrite Z.mul_comm. apply LittleEndianList.le_combine_bound.
Qed.

Lemma hash_front src a b body : src = le_bytes 8 a ++ le_bytes 8 b ++ body -> vec_ok src ->
  0 <= a < 2 ^ 64 -> 0 <= b < 2 ^ 64 -> get_fixed_hash128 src 0 = Some (mkHash a b, 16).
Proof.
  intros E Hv Ha Hb. unfold get_fixed_hash128.
  pose proof (u64_at src [] (le_bytes 8 b ++ body) Hv a E Ha) as X. change (blen []) with 0 in X. rewrite X. cbn [mbind option_bind]. change (0 + 8) with 8.
  pose proof (u64_at src (le_bytes 8 a) body Hv b E Hb) as Y. unfold blen in Y. rewrite le_bytes_length in Y.
  change (Z.of_nat 8) with 8 in Y. by rewrite Y.
Qed.


Section records.
Context `{HasherLaws} (enc : BufferEncoder).

Lemma sealed_length body : blen (sealed enc body) = 16 + blen body.
Proof. unfold sealed. rewrite !blen_app. unfold blen. rewrite !le_bytes_length. lia. Qed.

Lemma slice_body a b body rest :
  slice (le_bytes 8 a ++ le_bytes 8 b ++ body ++ rest) 16 (16 + blen body) = Some body.
Proof.
  pose proof (slice_app (le_bytes 8 a ++ le_bytes 8 b) body rest) as X. rewrite <- app_assoc in X.
  rewrite blen_app in X. unfold blen at 1 2 4 5 in X. by rewrite !le_bytes_length in X.
Qed.

(** What [deserialize_data] answers for a record that fits its buffer, whatever
    its checksum. *)
Lemma deserialize_data_fits a b v rest : 0 <= a < 2 ^ 64 -> 0 <= b < 2 ^ 64 -> blen v < 2 ^ 32 ->
  let src := le_bytes 8 a ++ le_bytes 8 b ++ (le_bytes 4 (blen v) ++ v) ++ rest in vec_ok src ->
  deserialize_data enc src =
    (v, negb (bool_decide (hash128 enc (le_bytes 4 (blen v) ++ v) = mkHash a b))).
Proof.
  intros Ha Hb Hv src Hs. pose proof (blen_nonneg v) as Hv0. pose proof (blen_nonneg rest) as Hr.
  assert (blen src = 20 + blen v + blen rest) as L
    by (unfold src; rewrite !blen_app; unfold blen; rewrite !le_bytes_length; lia).
  unfold deserialize_data, DATA_FIXED_PART_SIZE. rewrite (proj2 (Z.ltb_ge _ _)) by lia.
  rewrite (hash_front src a b _ eq_refl Hs Ha Hb).
  assert (forall c, blen (le_bytes 8 a ++ le_bytes 8 b ++ le_bytes 4 c) = 20) as L20
    by (intros; rewrite !blen_app; unfold blen; by rewrite !le_bytes_length).
  assert (blen (le_bytes 8 a ++ le_bytes 8 b) = 16) as L16 by (rewrite !blen_app; unfold blen; by rewrite !le_bytes_length).
  pose proof (u32_at src (le_bytes 8 a ++ le_bytes 8 b) (v ++ rest) Hs (blen v)) as X. rewrite L16 in X.
  rewrite X by (unfold src; rewrite <- ?app_assoc; done || lia). clear X. change (16 + 4) with 20.
  rewrite checked_add_ok by (unfold u64_max; lia). rewrite (proj2 (Z.ltb_ge _ _)) by lia.
  pose proof (copy_at src (le_bytes 8 a ++ le_bytes 8 b ++ le_bytes 4 (blen v)) rest Hs v) as X. rewrite L20 in X.
  rewrite X by (unfold src; by rewrite <- ?app_assoc). clear X.
  replace (20 + blen v) with (16 + blen (le_bytes 4 (blen v) ++ v))
    by (rewrite blen_app; unfold blen at 1; rewrite le_bytes_length; lia).
  unfold src. by rewrite slice_body.
Qed.

(** A buffer either holds a whole record or is refused. *)
Lemma deserialize_data_cases src : vec_ok src ->
  deserialize_data enc src = ([], true) \/
  exists a b v rest, 0 <= a < 2 ^ 64 /\ 0 <= b < 2 ^ 64 /\ blen v < 2 ^ 32 /\
    src = le_bytes 8 a ++ le_bytes 8 b ++ (le_bytes 4 (blen v) ++ v) ++ rest.
Proof.
  intros Hs. destruct (Z.ltb_spec (blen src) 20) as [Hlt|Hge].
  { left. unfold deserialize_data, DATA_FIXED_PART_SIZE. by rewrite (proj2 (Z.ltb_lt _ _)). }
  destruct (le_front 8 src) as (a & r1 & E1 & Ha); [lia|]. assert (blen src = 8 + blen r1) as L1.
  { rewrite E1, blen_app. unfold blen. rewrite le_bytes_length. lia. }
  destruct (le_front 8 r1) as (b & r2 & E2 & Hb); [lia|]. assert (blen r1 = 8 + blen r2) as L2.
  { rewrite E2, blen_app. unfold blen. rewrite le_bytes_length. lia. }
  destruct (le_front 4 r2) as (n & r3 & E3 & Hn); [lia|]. assert (blen r2 = 4 + blen r3) as L3.
  { rewrite E3, blen_app. unfold blen. rewrite le_bytes_length. lia. }
  subst r2 r1. change (2 ^ (Z.of_nat 8 * 8)) with (2 ^ 64) in *. change (2 ^ (Z.of_nat 4 * 8)) with (2 ^ 32) in *.
  destruct (Z.leb_spec n (blen r3)) as [Hfit|Hbig].
  - right. exists a, b, (take (Z.to_nat n) r3), (drop (Z.to_nat n) r3).
    assert (blen (take (Z.to_nat n) r3) = n) as Ln by (unfold blen in *; rewrite length_take; lia).
    rewrite Ln, <- app_assoc, take_drop. split_and!; lia || done.
  - left. unfold deserialize_data, DATA_FIXED_PART_SIZE. rewrite (proj2 (Z.ltb_ge _ _)) by lia.
    rewrite (hash_front src a b _ E1 Hs Ha Hb).
    assert (blen (le_bytes 8 a ++ le_bytes 8 b) = 16) as L16 by (rewrite !blen_app; unfold blen; by rewrite !le_bytes_length).
    pose proof (u32_at src (le_bytes 8 a ++ le_bytes 8 b) r3 Hs n) as X. rewrite L16 in X.
    rewrite X by (rewrite ?E1, <- ?app_assoc; done). rewrite checked_add_ok by (unfold u64_max; lia).
    by rewrite (proj2 (Z.ltb_lt _ _)) by lia.
Qed.
Lemma serialize_data_eq v : blen v < 2 ^ 32 ->
  let h := hash128 enc (le_bytes 4 (blen v) ++ v) in
  serialize_data enc v = le_bytes 8 (first h) ++ le_bytes 8 (second h) ++ le_bytes 4 (blen v) ++ v.
Proof.
  intros Hv. pose proof (blen_nonneg v). unfold serialize_data, copy_bytes_to, put_fixed_uint32, wrap32.
  rewrite Z.mod_small by lia. done.
Qed.

Lemma data_length v : blen v < 2 ^ 32 -> blen (serialize_data enc v) = DATA_FIXED_PART_SIZE + blen v.
Proof.
  intros Hv. unfold serialize_data. rewrite sealed_length. unfold copy_bytes_to, put_fixed_uint32.
  rewrite !blen_app. unfold blen at 2. rewrite le_bytes_length. unfold blen at 1, DATA_FIXED_PART_SIZE. cbn [length]. lia.
Qed.

Lemma hash128_range v : 0 <= first (hash128 enc v) < 2 ^ 64 /\ 0 <= second (hash128 enc v) < 2 ^ 64.
Proof. split; [apply hash_u64|done]. Qed.

Lemma data_round_trip v rest : blen v < 2 ^ 32 -> vec_ok (serialize_data enc v ++ rest) ->
  deserialize_data enc (serialize_data enc v ++ rest) = (v, false).
Proof.
  intros Hv Hs. rewrite serialize_data_eq in * by done. cbv zeta in *. set (h := hash128 enc _) in *.
  destruct (hash128_range (le_bytes 4 (blen v) ++ v)) as [H1 H2]. fold h in H1, H2.
  rewrite <- !app_assoc in *. rewrite (app_assoc _ v) in *.
  rewrite (deserialize_data_fits _ _ v rest H1 H2 Hv Hs). fold h.
  by rewrite bool_decide_eq_true_2 by by destruct h.
Qed.

(** An accepted buffer starts with the record of the value it gave. *)
Lemma data_accepted src v : vec_ok src -> deserialize_data enc src = (v, false) ->
  blen v < 2 ^ 32 /\ exists rest, src = serialize_data enc v ++ rest.
Proof.
  intros Hs E. destruct (deserialize_data_cases src Hs) as [X|(a & b & w & rest & Ha & Hb & Hw & ->)]; [congruence|].
  rewrite (deserialize_data_fits a b w rest Ha Hb Hw Hs) in E. apply pair_equal_spec in E as [<- Eb]. zbool.
  split; [done|]. exists rest. rewrite (serialize_data_eq w Hw). cbv zeta. rewrite Eb. cbn [first second].
  by rewrite <- !app_assoc.
Qed.

(** ** Log entries *)

Lemma oplog_length k ptr : blen (oplog_entry enc k ptr) = OPLOG_FIXED_PART_SIZE + blen k.
Proof.
  unfold oplog_entry. rewrite sealed_length. unfold put_fixed_uint64, copy_bytes_to, put_fixed_uint32.
  rewrite !blen_app. unfold blen. rewrite !le_bytes_length. unfold OPLOG_FIXED_PART_SIZE. cbn [length]. lia.
Qed.

Lemma oplog_entry_round_trip k ptr rest : blen k < 2 ^ 32 -> 0 <= ptr < 2 ^ 64 ->
  vec_ok (oplog_entry enc k ptr ++ rest) ->
  deserialize_oplog enc (oplog_entry enc k ptr ++ rest) = (key_of_bytes k, ptr, OPLOG_FIXED_PART_SIZE + blen k, false).
Proof.
  intros Hk Hp Hs. pose proof (blen_nonneg k) as Hk0. pose proof (blen_nonneg rest) as Hr.
  pose proof (oplog_length k ptr) as L. unfold oplog_entry in *. set (body := put_fixed_uint64 _ _) in *.
  assert (body = le_bytes 4 (blen k) ++ k ++ le_bytes 8 ptr) as Eb.
  { unfold body, put_fixed_uint64, copy_bytes_to, put_fixed_uint32, wrap32. rewrite Z.mod_small by lia.
    cbn [app]. by rewrite <- app_assoc. }
  unfold sealed in *. cbv zeta in *. set (h := hash128 enc body) in *. rewrite <- !app_assoc in *.
  set (src := le_bytes 8 (first h) ++ le_bytes 8 (second h) ++ body ++ rest) in *.
  destruct (hash128_range body) as [H1 H2]. fold h in H1, H2. unfold deserialize_oplog, OPLOG_FIXED_PART_SIZE in *.
  assert (blen (le_bytes 8 (first h) ++ le_bytes 8 (second h)) = 16) as L16 by (rewrite !blen_app; unfold blen; by rewrite !le_bytes_length).
  assert (blen (le_bytes 4 (blen k)) = 4) as L4 by (unfold blen; by rewrite le_bytes_length).
  set (p := le_bytes 8 (first h) ++ le_bytes 8 (second h)) in *.
  assert (blen src = 28 + blen k + blen rest) as Ls by (unfold src; rewrite !app_assoc, blen_app, <- app_assoc; lia).
  rewrite (proj2 (Z.ltb_ge _ _)) by lia. rewrite (hash_front src _ _ _ eq_refl Hs H1 H2).
  assert (src = p ++ le_bytes 4 (blen k) ++ k ++ le_bytes 8 ptr ++ rest) as Es
    by (unfold src, p; rewrite Eb; by rewrite <- !app_assoc).
  pose proof (u32_at src p _ Hs (blen k) Es) as X. rewrite L16 in X. rewrite X by lia. clear X.
  pose proof (copy_at src (p ++ le_bytes 4 (blen k)) (le_bytes 8 ptr ++ rest) Hs k) as X. rewrite blen_app, L16, L4 in X.
  rewrite X by (rewrite <- app_assoc; done). clear X. change (16 + 4) with 20.
  pose proof (u64_at src (p ++ le_bytes 4 (blen k) ++ k) rest Hs ptr) as X. rewrite !blen_app, L16, L4 in X.
  replace (20 + blen k) with (16 + (4 + blen k)) by lia. rewrite X by (rewrite ?Es, <- ?app_assoc; done). clear X.
  replace (16 + (4 + blen k) + 8) with (28 + blen k) by lia.
  assert (blen body = 12 + blen k) as Lb by (rewrite Eb, !blen_app; unfold blen; rewrite !le_bytes_length; lia).
  replace (28 + blen k) with (16 + blen body) by lia. unfold src. rewrite slice_body. cbn [default].
  rewrite bool_decide_eq_true_2; [done|]. change (id body) with body. fold h. by destruct h.
Qed.
End records.

(** ** Keys *)

Lemma utf8_chunks_lossless fuel v : (length v <= fuel)%nat ->
  forallb (fun c => match c with inl _ => true | inr _ => false end) (utf8_chunks fuel v) = true ->
  concat ((fun c : bytes + unit => match c with inl v => v | inr _ => REPLACEMENT end) <$> utf8_chunks fuel v) = v.
Proof.
  revert v. induction fuel as [|fuel IH]; intros [|b v] Hl; cbn in *; try done; [lia|].
  destruct (utf8_first b) as [[[n lo] hi]|]; [|done]. destruct (utf8_rest n lo hi v) as [m ok].
  destruct ok; [|done]. cbn. intros Hok. rewrite IH; [by rewrite take_drop|rewrite length_drop; lia|done].
Qed.

(** A key survives the bytes. *)
Lemma key_round_trip k : is_utf8 (key_bytes k) = true -> key_of_bytes (key_bytes k) = k.
Proof.
  intros Hu. unfold key_of_bytes, from_utf8_lossy. rewrite utf8_chunks_lossless by done.
  apply String.string_of_list_byte_of_string.
Qed.

(** ** Colored pointers *)

(** The three fields of a pointer do not disturb one another. *)
Definition pack_ptr (st : RecordState) (lba size : Z) : Z :=
  mask_colored_ptr_size (mask_colored_ptr_lba (mask_colored_ptr_record_state 0 st) lba) size.

Lemma state_code_bound st : 0 <= state_code st < 2 ^ 4.
Proof. by destruct st. Qed.

Lemma pack_ptr_bits st lba size i : 0 <= i ->
  Z.testbit (pack_ptr st lba size) i =
    Z.testbit (state_code st) i
    || (Z.testbit lba (i - 19) && (19 <=? i) && (i <? 64))
    || (Z.testbit size (i - 7) && (7 <=? i) && (i <? 19)).
Proof.
  intros Hi. unfold pack_ptr, mask_colored_ptr_size, mask_colored_ptr_lba, mask_colored_ptr_record_state.
  change 0xfffffffffff80000 with (Z.shiftl (Z.ones 45) 19). change 0xfff with (Z.ones 12).
  replace (Z.land (state_code st) (state_code MaxCode)) with (state_code st) by by destruct st.
  rewrite !Z.lor_spec, !Z.land_spec, Z.bits_0, !Z.shiftl_spec, Z.land_spec by lia. cbn [orb].
  f_equal; [f_equal|].
  - rewrite <- andb_assoc. f_equal. destruct (Z.leb_spec 19 i); [rewrite testbit_ones by lia|by rewrite Z.testbit_neg_r by lia].
    destruct (Z.ltb_spec (i - 19) 45), (Z.ltb_spec i 64); lia || done.
  - rewrite <- andb_assoc. f_equal. destruct (Z.leb_spec 7 i); [rewrite testbit_ones by lia|by rewrite Z.testbit_neg_r by lia].
    destruct (Z.ltb_spec (i - 7) 12), (Z.ltb_spec i 19); lia || done.
Qed.

Lemma pack_ptr_decode st lba size : 0 <= lba -> 0 <= size ->
  decode_colored_ptr (pack_ptr st lba size) = (size `mod` 2 ^ 12, lba `mod` 2 ^ 45) /\
  decode_colored_ptr_record_state (pack_ptr st lba size) = st.
Proof.
  intros Hl Hs. split.
  - unfold decode_colored_ptr. f_equal; apply Z.bits_inj'; intros i Hi.
    + change 0xfff with (Z.ones 12). rewrite Z.land_spec, testbit_ones, Z.shiftr_spec, pack_ptr_bits by lia.
      rewrite (testbit_high 4 (state_code st)) by (apply state_code_bound || lia).
      rewrite Z.testbit_mod_pow2 by lia. replace (i + 7 - 7) with i by lia.
      destruct (Z.ltb_spec i 12), (Z.leb_spec 19 (i + 7)), (Z.leb_spec 7 (i + 7)), (Z.ltb_spec (i + 7) 19);
        try lia; rewrite ?andb_false_r, ?andb_true_r, ?andb_false_l; done.
    + rewrite Z.shiftr_spec, pack_ptr_bits by lia.
      rewrite (testbit_high 4 (state_code st)) by (apply state_code_bound || lia).
      rewrite Z.testbit_mod_pow2 by lia. replace (i + 19 - 19) with i by lia.
      destruct (Z.ltb_spec i 45), (Z.leb_spec 19 (i + 19)), (Z.ltb_spec (i + 19) 64), (Z.ltb_spec (i + 19) 19);
        try lia; rewrite ?andb_false_r, ?andb_true_r, ?orb_false_r, ?orb_false_l; done.
  - unfold decode_colored_ptr_record_state, SSD_RECORD_STATE_FLAGS.
    assert (Z.land (pack_ptr st lba size) 15 = state_code st) as ->; [|by destruct st].
    apply Z.bits_inj'. intros i Hi. change 15 with (Z.ones 4). rewrite Z.land_spec, testbit_ones, pack_ptr_bits by lia.
    destruct (Z.ltb_spec i 4).
    + rewrite (proj2 (Z.leb_gt 19 i)), (proj2 (Z.leb_gt 7 i)) by lia. by rewrite !andb_false_r, !andb_false_l, !orb_false_r, andb_true_r.
    + rewrite andb_false_r. symmetry. apply (testbit_high 4); [apply state_code_bound|lia].
Qed.

Lemma pack_ptr_range st lba size : 0 <= pack_ptr st lba size < 2 ^ 64.
Proof.
  assert (pack_ptr st lba size `mod` 2 ^ 64 = pack_ptr st lba size) as <-.
  { apply Z.bits_inj'. intros i Hi. rewrite Z.testbit_mod_pow2 by lia. destruct (Z.ltb_spec i 64); [done|].
    rewrite pack_ptr_bits by lia. rewrite (testbit_high 4 (state_code st)) by (apply state_code_bound || lia).
    rewrite (proj2 (Z.ltb_ge i 64)), (proj2 (Z.ltb_ge i 19)) by lia. by rewrite !andb_false_r. }
  by apply Z.mod_pos_bound.
Qed.

(** ** States in the index *)

(** Where a value is, its state apart. *)
Definition location (v : SsdIndexValue) : Z * Z + bytes :=
  match v with SsdColoredPtr ptr => inl (decode_colored_ptr ptr) | InMemory value _ => inr value end.

Lemma state_with_state v st : value_state (with_state v st) = st.
Proof.
  destruct v as [ptr|]; [|done]. unfold value_state, with_state, decode_colored_ptr_record_state, mask_colored_ptr_record_state.
  assert (Z.land (Z.lor (clear_state ptr) (Z.land (state_code st) (state_code MaxCode))) SSD_RECORD_STATE_FLAGS = state_code st)
    as ->; [|by destruct st].
  unfold clear_state. rewrite Z.land_lor_distr_l, Z.land_ldiff, Z.lor_0_l. by destruct st.
Qed.

Lemma location_with_state v st : location (with_state v st) = location v.
Proof.
  destruct v as [ptr|]; [|done]. unfold location, with_state, decode_colored_ptr, mask_colored_ptr_record_state, clear_state, SSD_RECORD_STATE_FLAGS.
  replace (Z.land (state_code st) (state_code MaxCode)) with (state_code st) by by destruct st.
  assert (forall n, 4 <= n -> Z.shiftr (Z.lor (Z.ldiff ptr 15) (state_code st)) n = Z.shiftr ptr n) as E.
  { intros n Hn. apply Z.bits_inj'. intros i Hi. rewrite !Z.shiftr_spec, Z.lor_spec, Z.ldiff_spec by lia. change 15 with (Z.ones 4).
    rewrite testbit_ones, (testbit_high 4 (state_code st)) by (apply state_code_bound || lia).
    rewrite (proj2 (Z.ltb_ge _ _)) by lia. by rewrite orb_false_r, andb_true_r. }
  by rewrite !E by lia.
Qed.

Lemma get_lookup k j entries :
  (index_get k entries).2 !! j =
    (fun v => if decide (j = k /\ value_state v = SoftDel) then with_state v Normal else v) <$> entries !! j.
Proof.
  unfold index_get. destruct (entries !! k) as [v|] eqn:E; cbn.
  - destruct (decide (value_state v = SoftDel)) as [Hv|Hv]; cbn.
    + destruct (decide (j = k)) as [->|Hj].
      * rewrite lookup_insert_eq, E. cbn. by rewrite decide_True.
      * rewrite lookup_insert_ne by done. destruct (entries !! j); cbn; [|done]. by rewrite decide_False by tauto.
    + destruct (entries !! j) as [w|] eqn:Ej; cbn; [|done]. rewrite decide_False; [done|]. intros [-> ?]. congruence.
  - destruct (entries !! j) as [w|] eqn:Ej; cbn; [|done]. rewrite decide_False; [done|]. intros [-> ?]. congruence.
Qed.

(** ** The record format *)

(** C36. A buffer is accepted as the record of a value exactly when it starts
    with the bytes [serialize_data] writes for that value: what was written is
    read back whatever follows it, and nothing else passes the checksum test. *)
Theorem data_record_exact `{HasherLaws} enc src v : vec_ok src ->
  deserialize_data enc src = (v, false) <-> blen v < 2 ^ 32 /\ exists rest, src = serialize_data enc v ++ rest.
Proof.
  intros Hs. split; [by apply data_accepted|]. intros [Hv [rest ->]]. by apply data_round_trip.
Qed.

(** A checksum to run the encoder with. *)
Definition sum_hasher : Hasher := fun v seed => wrap64 (foldr (fun b acc => byte_value b + 3 * acc) seed v).
#[global] Instance sum_hasher_laws : HasherLaws sum_hasher.
Proof. intros v seed. apply wrap64_bound. Qed.
#[local] Existing Instance sum_hasher.

Lemma data_record_exact_witness :
  deserialize_data new_encoder (serialize_data new_encoder [x01; x02] ++ [x03]) = ([x01; x02], false).
Proof. apply data_record_exact; [by vm_compute|]. split; [by vm_compute|]. by exists [x03]. Defined.
