(* ===== verification/Zones.v ===== *)
(** * Zoned storage

    The append-only device of runtime/zoned_store.rs: a file cut into zones,
    each written forward from a header page to a footer page and reset as a
    whole, and [ZoneManager], which opens zones one after another, seals them
    with a metadata log and finds the logs again when the file is reopened.
    The file is a list of bytes; its reads and writes succeed wherever the code
    lets them happen. *)

From Stdlib Require Import Strings.Byte Floats.SpecFloat.
From S2P Require Import Prelude BlockCodec SsdRecords.

Definition ZONE_PAGE_SIZE : Z := 4096.
Definition ZONE_HEADER_MAGIC : Z := 20220209.

Inductive DataKind := Data | MetaLog.
Inductive GcMode := Lossy | Lossless.
Inductive ZoneStatus := Empty | Open | Full | Closed | Offline.

Record Zone := mkZone {
  z_start : Z; z_size : Z; z_capacity : Z; z_write_pointer : Z; z_valid_bytes : Z; z_status : ZoneStatus
}.

Definition new_zone (start size capacity : Z) : Zone := mkZone start size capacity start 0 Empty.
Definition avail_bytes (z : Zone) : Z := z_capacity z -! (z_write_pointer z -! z_start z).
Definition reset_zone_state (z : Zone) : Zone := mkZone (z_start z) (z_size z) (z_capacity z) (z_start z) 0 Empty.

Definition advance (wp valid : Z) (z : Zone) : Zone :=
  mkZone (z_start z) (z_size z) (z_capacity z) (z_write_pointer z + wp) (z_valid_bytes z + valid) (z_status z).
Definition with_status (st : ZoneStatus) (z : Zone) : Zone :=
  mkZone (z_start z) (z_size z) (z_capacity z) (z_write_pointer z) (z_valid_bytes z) st.
Definition with_valid (f : Z -> Z) (z : Zone) : Zone :=
  mkZone (z_start z) (z_size z) (z_capacity z) (z_write_pointer z) (f (z_valid_bytes z)) (z_status z).
(** [meta_zone.start] and its write pointer, moved together. *)
Definition moved_to (start : Z) (z : Zone) : Zone :=
  mkZone start (z_size z) (z_capacity z) start (z_valid_bytes z) (z_status z).

(** ** The device *)

Record ZoneDeviceInfo := mkInfo {
  device_size : Z; device_capacity : Z; page_size : Z; zone_size : Z; zone_capacity : Z;
  zones_in_device : Z; group_size : Z; groups_in_device : Z; zones_in_group : Z
}.

Record ZoneDevice := mkDevice { file : bytes; info : ZoneDeviceInfo }.

(** [File::set_len]. *)
Definition set_len (v : bytes) (n : Z) : bytes :=
  take (Z.to_nat n) v ++ replicate (Z.to_nat n - length v) x00.

Definition open_device (existing : bytes) (capacity zone_capacity : Z) : result ZoneDevice :=
  if (zone_capacity =? 0) || negb (zone_capacity `mod` ZONE_PAGE_SIZE =? 0) then Err InvalidConfig
  else if (capacity =? 0) || negb (capacity `mod` zone_capacity =? 0) then Err InvalidConfig
  else
    let zones := capacity `div` zone_capacity in
    Ok (mkDevice (set_len existing capacity)
          (mkInfo capacity capacity ZONE_PAGE_SIZE zone_capacity zone_capacity zones zone_capacity zones 1)).

Definition init_zones (d : ZoneDevice) : list Zone :=
  (fun index => new_zone (Z.of_nat index * zone_size (info d)) (zone_size (info d)) (zone_capacity (info d)))
    <$> seq 0 (Z.to_nat (zones_in_device (info d))).

(** The file read, and written over from [offset] on. *)
Definition window (v : bytes) (offset len : Z) : bytes := take (Z.to_nat len) (drop (Z.to_nat offset) v).
Definition splice (v : bytes) (offset : Z) (buf : bytes) : bytes :=
  take (Z.to_nat offset) v ++ buf ++ drop (Z.to_nat offset + length buf) v.

Definition device_read (offset len : Z) (d : ZoneDevice) : result bytes :=
  if device_capacity (info d) <? offset +! len then Err InvalidConfig else Ok (window (file d) offset len).

Definition device_write (buf : bytes) (offset : Z) (d : ZoneDevice) : result ZoneDevice :=
  if device_capacity (info d) <? offset +! blen buf then Err InvalidConfig
  else Ok (mkDevice (splice (file d) offset buf) (info d)).

Definition zeros (n : Z) : bytes := replicate (Z.to_nat n) x00.

Definition device_reset_zone (offset : Z) (d : ZoneDevice) : result ZoneDevice :=
  device_write (zeros (zone_capacity (info d))) offset d.

(** ** Groups *)

Record ZoneGroup := mkGroup {
  g_group_id : Z; g_zone_index : nat; g_zone_size : Z; g_meta_offset : Z; g_meta_size : Z; g_garbage_bytes : Z
}.

Definition new_group (group_id : Z) (zone_index : nat) (zone_size : Z) : ZoneGroup :=
  mkGroup group_id zone_index zone_size 0 0 0.

Definition with_meta (offset size : Z) (g : ZoneGroup) : ZoneGroup :=
  mkGroup (g_group_id g) (g_zone_index g) (g_zone_size g) offset size (g_garbage_bytes g).
Definition set_garbage_bytes (n : Z) (g : ZoneGroup) : ZoneGroup :=
  mkGroup (g_group_id g) (g_zone_index g) (g_zone_size g) (g_meta_offset g) (g_meta_size g) n.

(** A [u64 as f64], and the quotient of two. *)
Definition f64_of (n : Z) : spec_float := binary_normalize 53 1024 n 0 false.
Definition garbage_rate (g : ZoneGroup) : spec_float :=
  if g_zone_size g =? 0 then S754_zero false
  else SFdiv 53 1024 (f64_of (g_garbage_bytes g)) (f64_of (g_zone_size g)).

(** ** The manager *)

Record ZoneManager := mkManager {
  device : ZoneDevice;
  zones : list Zone;
  groups : list ZoneGroup;
  free_list : list Z;
  gc_list : list Z;
  recovery_list : list Z;
  current_group : Z;
  meta_zone : Zone;
  header_size : Z;
  footer_size : Z;
  sequence : Z;
  ensured : bool;
  meta_appendable : bool
}.

Definition upd_device (d : ZoneDevice) m : ZoneManager :=
  mkManager d (zones m) (groups m) (free_list m) (gc_list m) (recovery_list m) (current_group m) (meta_zone m)
    (header_size m) (footer_size m) (sequence m) (ensured m) (meta_appendable m).
Definition upd_zones (z : list Zone) m : ZoneManager :=
  mkManager (device m) z (groups m) (free_list m) (gc_list m) (recovery_list m) (current_group m) (meta_zone m)
    (header_size m) (footer_size m) (sequence m) (ensured m) (meta_appendable m).
Definition upd_groups (g : list ZoneGroup) m : ZoneManager :=
  mkManager (device m) (zones m) g (free_list m) (gc_list m) (recovery_list m) (current_group m) (meta_zone m)
    (header_size m) (footer_size m) (sequence m) (ensured m) (meta_appendable m).
Definition upd_lists (free gc recovery : list Z) m : ZoneManager :=
  mkManager (device m) (zones m) (groups m) free gc recovery (current_group m) (meta_zone m)
    (header_size m) (footer_size m) (sequence m) (ensured m) (meta_appendable m).
Definition upd_current (g : Z) m : ZoneManager :=
  mkManager (device m) (zones m) (groups m) (free_list m) (gc_list m) (recovery_list m) g (meta_zone m)
    (header_size m) (footer_size m) (sequence m) (ensured m) (meta_appendable m).
Definition upd_meta_zone (z : Zone) m : ZoneManager :=
  mkManager (device m) (zones m) (groups m) (free_list m) (gc_list m) (recovery_list m) (current_group m) z
    (header_size m) (footer_size m) (sequence m) (ensured m) (meta_appendable m).
Definition upd_sequence (n : Z) m : ZoneManager :=
  mkManager (device m) (zones m) (groups m) (free_list m) (gc_list m) (recovery_list m) (current_group m) (meta_zone m)
    (header_size m) (footer_size m) n (ensured m) (meta_appendable m).
Definition upd_flags (ensured meta_appendable : bool) m : ZoneManager :=
  mkManager (device m) (zones m) (groups m) (free_list m) (gc_list m) (recovery_list m) (current_group m) (meta_zone m)
    (header_size m) (footer_size m) (sequence m) ensured meta_appendable.

Definition group_at (m : ZoneManager) (id : Z) : ZoneGroup := default (new_group 0 0 0) (groups m !! Z.to_nat id).
Definition zone_at (m : ZoneManager) (i : nat) : Zone := default (new_zone 0 0 0) (zones m !! i).
Definition alter_zone (f : Zone -> Zone) (i : nat) m : ZoneManager := upd_zones (alter f i (zones m)) m.
Definition alter_group (f : ZoneGroup -> ZoneGroup) (id : Z) m : ZoneManager := upd_groups (alter f (Z.to_nat id) (groups m)) m.
Definition current_zone_index (m : ZoneManager) : nat := g_zone_index (group_at m (current_group m)).

(** A write that stops the operation when the device refuses it; what was done
    before stays done. *)
Definition write_then {A} (buf : bytes) (offset : Z) (m : ZoneManager) (k : ZoneManager -> result A * ZoneManager) : result A * ZoneManager :=
  match device_write buf offset (device m) with
  | Err e => (Err e, m)
  | Ok d => k (upd_device d m)
  end.

Definition header_bytes (m : ZoneManager) : bytes :=
  le_bytes 8 (sequence m) ++ le_bytes 8 ZONE_HEADER_MAGIC ++ zeros (header_size m - 16).

Definition write_header (zone_index : nat) (m : ZoneManager) : result unit * ZoneManager :=
  let offset := z_write_pointer (zone_at m zone_index) in
  write_then (header_bytes m) offset m (fun m =>
  (Ok tt, alter_zone (advance (header_size m) (header_size m)) zone_index m)).

Definition open_next_group (m : ZoneManager) : result unit * ZoneManager :=
  match free_list m with
  | [] => (Err CapacityExceeded, m)
  | group_id :: free =>
      let m := upd_current group_id (upd_lists free (gc_list m) (recovery_list m) m) in
      let zone_index := g_zone_index (group_at m group_id) in
      let m := alter_zone (fun z => with_status Open (reset_zone_state z)) zone_index m in
      let m := upd_sequence (sequence m + 1) m in
      let '(r, m) := write_header zone_index m in
      match r with
      | Err e => (Err e, m)
      | Ok _ =>
          let z := zone_at m zone_index in
          let m := upd_meta_zone (new_zone (z_write_pointer z) (z_capacity z) (z_capacity z)) m in
          (Ok tt, upd_flags (ensured m) true m)
      end
  end.

(** The padding is written in pieces of at most [chunk] bytes; [fuel] bounds
    them. *)
Fixpoint pad_loop (fuel : nat) (chunk left : Z) (zone_index : nat) (m : ZoneManager) : result unit * ZoneManager :=
  match fuel with
  | O => (Ok tt, m)
  | S fuel =>
      if 0 <? left then
        let take_ := Z.min chunk left in
        let offset := z_write_pointer (zone_at m zone_index) in
        write_then (zeros take_) offset m (fun m =>
        pad_loop fuel chunk (left - take_) zone_index (alter_zone (advance take_ 0) zone_index m))
      else (Ok tt, m)
  end.

Definition footer_bytes (g : ZoneGroup) (m : ZoneManager) : bytes :=
  le_bytes 8 (g_meta_offset g) ++ le_bytes 8 (g_meta_size g) ++ zeros (footer_size m - 16).

Definition seal_current_zone (m : ZoneManager) : result unit * ZoneManager :=
  let zone_index := current_zone_index m in
  let group := group_at m (current_group m) in
  let padding := avail_bytes (zone_at m zone_index) -! footer_size m in
  let chunk := Z.min (2 ^ 20) padding in
  let '(r, m) :=
    if 0 <? padding then pad_loop (S (Z.to_nat (padding `div` chunk))) chunk padding zone_index m else (Ok tt, m) in
  match r with
  | Err e => (Err e, m)
  | Ok _ =>
      let offset := z_write_pointer (zone_at m zone_index) in
      write_then (footer_bytes group m) offset m (fun m =>
      (Ok tt, alter_zone (fun z => with_status Full (advance (footer_size m) (footer_size m) z)) zone_index m))
  end.

Definition used_space (m : ZoneManager) : Z :=
  Z.of_nat (length (gc_list m)) * zones_in_group (info (device m)) * zone_capacity (info (device m)).

Definition garbage_total (m : ZoneManager) : Z :=
  foldr (fun id acc => g_garbage_bytes (group_at m id) + acc) 0 (gc_list m).

Definition ensure_available_space (data_size meta_size : Z) (m : ZoneManager) : bool * ZoneManager :=
  let m := upd_flags true (meta_appendable m) m in
  let page := page_size (info (device m)) in
  if negb (data_size `mod` page =? 0) || negb (meta_size `mod` page =? 0) then (false, m)
  else
    let needed := data_size +! meta_size in
    let zone := zone_at m (current_zone_index m) in
    (needed <=? avail_bytes zone -! footer_size m, m).

Definition append (buf : bytes) (kind : DataKind) (m : ZoneManager) : result Z * ZoneManager :=
  let inf := info (device m) in
  let size := blen buf in
  if (size =? 0) || negb (size `mod` page_size inf =? 0) || (zone_size inf <? size) then (Err InvalidConfig, m)
  else if negb (ensured m) then (Err InvalidConfig, m)
  else
    let zone_index := current_zone_index m in
    match kind with
    | Data =>
        if avail_bytes (zone_at m zone_index) <? size then (Err CapacityExceeded, m)
        else
          let offset := z_write_pointer (zone_at m zone_index) in
          write_then buf offset m (fun m =>
          let m := alter_zone (fun z => with_status Open (advance size size z)) zone_index m in
          let m := upd_meta_zone (moved_to (z_write_pointer (zone_at m zone_index)) (meta_zone m)) m in
          (Ok offset, m))
    | MetaLog =>
        if negb (meta_appendable m) then (Err InvalidConfig, m)
        else if avail_bytes (meta_zone m) <? size then (Err CapacityExceeded, m)
        else
          let offset := z_start (meta_zone m) in
          write_then buf offset m (fun m =>
          let m := alter_group (with_meta offset size) (current_group m) m in
          let m := upd_meta_zone (with_valid (fun v => v + size) (meta_zone m)) m in
          let m := alter_zone (advance size 0) zone_index m in
          let '(r, m) := seal_current_zone m in
          match r with
          | Err e => (Err e, m)
          | Ok _ => (Ok offset, upd_flags (ensured m) false m)
          end)
    end.

Definition read (offset len : Z) (m : ZoneManager) : result bytes := device_read offset len (device m).

Definition trim_bytes (offset size : Z) (m : ZoneManager) : result unit * ZoneManager :=
  let inf := info (device m) in
  let group_id := offset `div` group_size inf in
  if groups_in_device inf <=? group_id then (Err InvalidConfig, m)
  else
    let zone_index := g_zone_index (group_at m group_id) in
    let m := alter_zone (with_valid (fun v => v -! size)) zone_index m in
    (Ok tt, alter_group (fun g => set_garbage_bytes (g_garbage_bytes g +! size) g) group_id m).

Definition push_new (id : Z) (l : list Z) : list Z := if bool_decide (id ∈ l) then l else l ++ [id].

Definition finish_group (m : ZoneManager) : result unit * ZoneManager :=
  let m := upd_flags false true m in
  let m := alter_zone (with_status Full) (current_zone_index m) m in
  let m := upd_lists (free_list m) (push_new (current_group m) (gc_list m)) (recovery_list m) m in
  open_next_group m.

(** [sort_by] is stable, so any stable sort by the same order is it: [id] goes
    before the first group whose rate is below its own. *)
Fixpoint insert_by_rate (m : ZoneManager) (id : Z) (l : list Z) : list Z :=
  match l with
  | [] => [id]
  | x :: l =>
      match SFcompare (garbage_rate (group_at m x)) (garbage_rate (group_at m id)) with
      | Some Gt => x :: insert_by_rate m id l
      | _ => id :: x :: l
      end
  end.

Definition sort_by_rate (m : ZoneManager) (l : list Z) : list Z := foldr (insert_by_rate m) [] l.

Definition find_gc_group (m : ZoneManager) : option (Z * GcMode) * ZoneManager :=
  let used := used_space m in
  let capacity := device_capacity (info (device m)) in
  let throttle := 10 * zone_capacity (info (device m)) in
  let free_floor := Z.min throttle (Z.max (capacity `div` 10) (2 ^ 30)) in
  if free_floor <? capacity -! used then (None, m)
  else
    let sorted := sort_by_rate m (gc_list m) in
    ((fun id => (id, Lossy)) <$> head sorted, upd_lists (free_list m) sorted (recovery_list m) m).

Definition remove_first (id : Z) (l : list Z) : list Z :=
  match list_find (fun x => x = id) l with Some (i, _) => delete i l | None => l end.

Definition reset_group (group_id : Z) (m : ZoneManager) : result unit * ZoneManager :=
  if bool_decide (group_id ∈ gc_list m) then
    let m := upd_lists (free_list m) (remove_first group_id (gc_list m)) (recovery_list m) m in
    let zone_index := g_zone_index (group_at m group_id) in
    match device_reset_zone (z_start (zone_at m zone_index)) (device m) with
    | Err e => (Err e, m)
    | Ok d =>
        let m := alter_zone reset_zone_state zone_index (upd_device d m) in
        let m := alter_group (fun g => with_meta 0 0 (set_garbage_bytes 0 g)) group_id m in
        (Ok tt, upd_lists (free_list m ++ [group_id]) (gc_list m) (recovery_list m) m)
    end
  else (Err NotFound, m).

Definition load_meta_data (group_id : Z) (m : ZoneManager) : result bytes :=
  match groups m !! Z.to_nat group_id with
  | None => Err NotFound
  | Some group =>
      if g_meta_size group =? 0 then Err NotFound else device_read (g_meta_offset group) (g_meta_size group) (device m)
  end.

(** ** Opening and recovering *)

Definition u64_field (page : bytes) (at_ : Z) : Z := le_value (window page at_ 8).

(** What the header and the footer of a zone say: its metadata log, if both are
    there and the log fits. *)
Definition zone_log (m : ZoneManager) (zone_start : Z) : result (option (Z * Z)) :=
  let inf := info (device m) in
  let? header := device_read zone_start (header_size m) (device m) in
  if (u64_field header 0 =? 0) || negb (u64_field header 8 =? ZONE_HEADER_MAGIC) then Ok None
  else
    let? footer := device_read (zone_start + zone_capacity inf - footer_size m) (footer_size m) (device m) in
    let meta_offset := u64_field footer 0 in
    let meta_size := u64_field footer 8 in
    let zone_end := zone_start + zone_capacity inf in
    if (zone_start <? meta_offset) && (meta_offset <? zone_end) && (0 <? meta_size)
       && (meta_size <=? wrap64 (zone_end - meta_offset - page_size inf))
    then Ok (Some (meta_offset, meta_size)) else Ok None.

Fixpoint pick_loop (n : nat) (index : nat) (m : ZoneManager) : result unit * ZoneManager :=
  match n with
  | O => (Ok tt, m)
  | S n =>
      let group_id := Z.of_nat index `mod` 2 ^ 16 in
      let group := new_group group_id index (zone_size (info (device m))) in
      match zone_log m (z_start (zone_at m index)) with
      | Err e => (Err e, m)
      | Ok None =>
          pick_loop n (S index) (upd_lists (free_list m ++ [group_id]) (gc_list m) (recovery_list m)
                                   (upd_groups (groups m ++ [group]) m))
      | Ok (Some (meta_offset, meta_size)) =>
          pick_loop n (S index) (upd_lists (free_list m) (gc_list m) (recovery_list m ++ [group_id])
                                   (upd_groups (groups m ++ [with_meta meta_offset meta_size group]) m))
      end
  end.

Definition pick_recoverable_groups (m : ZoneManager) : result bool * ZoneManager :=
  let m := upd_lists [] (gc_list m) [] (upd_groups [] m) in
  let '(r, m) := pick_loop (Z.to_nat (groups_in_device (info (device m)))) 0 m in
  match r with
  | Err e => (Err e, m)
  | Ok _ =>
      match recovery_list m, free_list m with
      | [], _ => (Ok false, m)
      | group_id :: recovery, [] =>
          let m := upd_lists [] (gc_list m) recovery m in
          let zone_index := g_zone_index (group_at m group_id) in
          match device_reset_zone (z_start (zone_at m zone_index)) (device m) with
          | Err e => (Err e, m)
          | Ok d =>
              let m := alter_zone reset_zone_state zone_index (upd_device d m) in
              (Ok true, upd_lists [group_id] (gc_list m) (recovery_list m) m)
          end
      | _, _ => (Ok true, m)
      end
  end.

Fixpoint fresh_loop (n : nat) (index : nat) (m : ZoneManager) : result unit * ZoneManager :=
  match n with
  | O => (Ok tt, m)
  | S n =>
      let group_id := Z.of_nat index `mod` 2 ^ 16 in
      let m := upd_groups (groups m ++ [new_group group_id index (zone_size (info (device m)))]) m in
      let m := alter_zone reset_zone_state index m in
      match device_reset_zone (z_start (zone_at m index)) (device m) with
      | Err e => (Err e, m)
      | Ok d => fresh_loop n (S index) (upd_lists (free_list m ++ [group_id]) (gc_list m) (recovery_list m) (upd_device d m))
      end
  end.

Definition blank_manager (d : ZoneDevice) : ZoneManager :=
  mkManager d (init_zones d) [] [] [] [] 0 (new_zone 0 0 0) (page_size (info d)) (page_size (info d)) 0 false true.

(** [ZoneManager::new]; the bytes of the device are kept when it fails. *)
Definition new_manager (d : ZoneDevice) (reuse_existing : bool) : result unit * ZoneManager :=
  let m := blank_manager d in
  let '(r, m) := if reuse_existing then pick_recoverable_groups m else (Ok false, m) in
  match r with
  | Err e => (Err e, m)
  | Ok recovered =>
      let '(r, m) :=
        if recovered : bool then (Ok tt, m)
        else fresh_loop (Z.to_nat (groups_in_device (info (device m)))) 0 (upd_lists [] (gc_list m) [] (upd_groups [] m)) in
      match r with
      | Err e => (Err e, m)
      | Ok _ =>
          match free_list m with
          | [] => (Err CapacityExceeded, m)
          | _ => open_next_group m
          end
      end
  end.

(** [recover], with the logs handed to [replay] on the way and the state of
    the closure threaded through. *)
Fixpoint recover_loop {S : Type} (n : nat) (replay : Z -> bytes -> S -> Z * S) (recovered : Z) (m : ZoneManager) (st : S)
    : Z * ZoneManager * S :=
  match n, recovery_list m with
  | Datatypes.S n, group_id :: recovery =>
      let m := upd_lists (free_list m) (gc_list m) recovery m in
      let group := group_at m group_id in
      let zone_size := zone_size (info (device m)) in
      let '(recovered, m, st) :=
        match device_read (g_meta_offset group) (g_meta_size group) (device m) with
        | Ok buf =>
            let '(valid_bytes, st) := replay group_id buf st in
            (recovered + 1, alter_group (set_garbage_bytes (zone_size -! valid_bytes)) group_id m, st)
        | Err _ => (recovered, alter_group (set_garbage_bytes zone_size) group_id m, st)
        end in
      recover_loop n replay recovered (upd_lists (free_list m) (push_new group_id (gc_list m)) (recovery_list m) m) st
  | _, _ => (recovered, m, st)
  end.

Definition recover {S : Type} (replay : Z -> bytes -> S -> Z * S) (m : ZoneManager) (st : S) : Z * ZoneManager * S :=
  recover_loop (length (recovery_list m)) replay 0 m st.
