(* ===== verification/ZonesFacts.v ===== *)
(** * Zoned storage: the bytes of a zone and the state that goes with them *)

From Stdlib Require Import Strings.Byte.
From S2P Require Import Prelude BlockCodec SsdRecords Zones.

(** ** Windows on the file *)

Section windows.
Implicit Types (v buf : bytes) (o n : Z).

Lemma blen_window v o n : 0 <= o -> 0 <= n -> o + n <= blen v -> blen (window v o n) = n.
Proof. intros. unfold window, blen in *. rewrite length_take, length_drop. lia. Qed.

Lemma blen_splice v o buf : 0 <= o -> o + blen buf <= blen v -> blen (splice v o buf) = blen v.
Proof. intros. unfold splice, blen in *. rewrite !length_app, length_take, length_drop. lia. Qed.

Lemma blen_zeros n : 0 <= n -> blen (zeros n) = n.
Proof. intros. unfold zeros, blen. rewrite length_replicate. lia. Qed.

Lemma lookup_window v o n i :
  window v o n !! i = if decide (Z.of_nat i < n) then v !! (Z.to_nat o + i)%nat else None.
Proof.
  unfold window. destruct (decide (Z.of_nat i < n)).
  - by rewrite lookup_take_lt, lookup_drop by lia.
  - by rewrite lookup_take_ge by lia.
Qed.

Lemma lookup_splice v o buf i : 0 <= o -> o + blen buf <= blen v ->
  splice v o buf !! i =
    if decide (o <= Z.of_nat i < o + blen buf) then buf !! (i - Z.to_nat o)%nat else v !! i.
Proof.
  intros Ho Hl. unfold splice, blen in *. destruct (decide _) as [H|H].
  - rewrite lookup_app_r by (rewrite length_take; lia). rewrite length_take, lookup_app_l by lia. f_equal. lia.
  - destruct (decide (Z.of_nat i < o)).
    + rewrite lookup_app_l by (rewrite length_take; lia). by rewrite lookup_take_lt by lia.
    + rewrite lookup_app_r by (rewrite length_take; lia). rewrite length_take, lookup_app_r by lia.
      rewrite lookup_drop. f_equal. lia.
Qed.

(** Compare two byte strings position by position. *)
Ltac by_position :=
  apply list_eq; intros i; repeat (rewrite lookup_window || rewrite lookup_splice by (rewrite ?blen_window; lia));
  repeat (case_decide; try lia); try done; try (f_equal; lia).

Lemma window_same v o buf : 0 <= o -> o + blen buf <= blen v -> window (splice v o buf) o (blen buf) = buf.
Proof.
  intros. by_position; unfold blen in *; try lia.
  symmetry. apply lookup_ge_None. lia.
Qed.

Lemma window_apart v o buf o' n : 0 <= o -> o + blen buf <= blen v -> 0 <= o' -> 0 <= n ->
  o' + n <= o \/ o + blen buf <= o' -> window (splice v o buf) o' n = window v o' n.
Proof. intros. by_position. Qed.

Lemma window_window v o n a k : 0 <= o -> 0 <= a -> 0 <= k -> a + k <= n -> window (window v o n) a k = window v (o + a) k.
Proof. intros. by_position. Qed.

Lemma window_inside v s n o buf : 0 <= s -> s <= o -> o + blen buf <= s + n -> s + n <= blen v ->
  window (splice v o buf) s n = splice (window v s n) (o - s) buf.
Proof. intros. pose proof (blen_nonneg buf). by_position. Qed.

Lemma splice_adjacent v o x y : 0 <= o -> o + blen x + blen y <= blen v ->
  splice (splice v o x) (o + blen x) y = splice v o (x ++ y).
Proof.
  intros. pose proof (blen_nonneg x). pose proof (blen_nonneg y). apply list_eq. intros i.
  rewrite lookup_splice by (rewrite ?blen_splice; lia). rewrite lookup_splice by lia.
  rewrite (lookup_splice v o (x ++ y)) by (rewrite ?blen_app; lia). rewrite blen_app.
  destruct (decide (o + blen x <= Z.of_nat i < o + blen x + blen y)).
  - rewrite decide_True by lia. unfold blen in *. rewrite lookup_app_r by lia. f_equal. lia.
  - destruct (decide (o <= Z.of_nat i < o + blen x)).
    + rewrite decide_True by lia. unfold blen in *. by rewrite lookup_app_l by lia.
    + by rewrite decide_False by lia.
Qed.

Lemma splice_nil v o : splice v o [] = v.
Proof. unfold splice. cbn. rewrite Nat.add_0_r. apply take_drop. Qed.
End windows.

(** ** The bytes of one zone *)

Definition field (zb : bytes) (o : Z) : Z := le_value (window zb o 8).
Definition header_ok (zb : bytes) : Prop := field zb 0 <> 0 /\ field zb 8 = ZONE_HEADER_MAGIC.
Definition foot (zb : bytes) : Z * Z := (field zb (blen zb - 4096), field zb (blen zb - 4096 + 8)).

(** The test of [pick_recoverable_groups] on a footer of the zone at [s]. *)
Definition fits (s c : Z) (meta : Z * Z) : bool :=
  (s <? meta.1) && (meta.1 <? s + c) && (0 <? meta.2) && (meta.2 <=? wrap64 (s + c - meta.1 - 4096)).

(** The zone holds the metadata log [log], whole and where its footer says. *)
Record sealed_zone (s : Z) (zb log : bytes) : Prop := {
  sz_header : header_ok zb;
  sz_foot : (foot zb).2 = blen log;
  sz_low : s + 4096 <= (foot zb).1;
  sz_high : (foot zb).1 + blen log <= s + blen zb - 4096;
  sz_pos : 0 < blen log;
  sz_log : window zb ((foot zb).1 - s) (blen log) = log
}.

Section zone_bytes.
Implicit Types (zb buf log : bytes).

Lemma field_apart zb o buf a : 0 <= o -> o + blen buf <= blen zb -> 0 <= a ->
  a + 8 <= o \/ o + blen buf <= a -> field (splice zb o buf) a = field zb a.
Proof. intros. unfold field. by rewrite window_apart by lia. Qed.

Lemma header_apart zb o buf : 16 <= o -> o + blen buf <= blen zb -> header_ok zb -> header_ok (splice zb o buf).
Proof. intros Ho Hl [H1 H2]. split; by rewrite field_apart by lia. Qed.

Lemma foot_apart zb o buf : 0 <= o -> o + blen buf <= blen zb - 4096 -> foot (splice zb o buf) = foot zb.
Proof.
  intros. unfold foot. pose proof (blen_nonneg buf). rewrite blen_splice by lia. by rewrite !field_apart by lia.
Qed.

(** A page of two fields and padding. *)
Definition page_of (a b : Z) : bytes := le_bytes 8 a ++ le_bytes 8 b ++ zeros (4096 - 16).

Lemma blen_page a b : blen (page_of a b) = 4096.
Proof. unfold page_of. rewrite !blen_app, blen_zeros by lia. unfold blen. by rewrite !le_bytes_length. Qed.

Lemma page_fields zb o a b : 0 <= o -> o + 4096 <= blen zb -> 0 <= a < 2 ^ 64 -> 0 <= b < 2 ^ 64 ->
  field (splice zb o (page_of a b)) o = a /\ field (splice zb o (page_of a b)) (o + 8) = b.
Proof.
  intros Ho Hl Ha Hb. unfold field.
  pose proof (window_same zb o (page_of a b)) as E. rewrite blen_page in E. specialize (E Ho Hl).
  assert (forall k, 0 <= k <= 4088 -> window (splice zb o (page_of a b)) (o + k) 8 = window (page_of a b) k 8) as W
    by (intros k Hk; rewrite <- E at 2; by rewrite window_window by lia).
  pose proof (W 0 ltac:(lia)) as W0. rewrite Z.add_0_r in W0. rewrite W0, (W 8) by lia. clear E W W0.
  unfold page_of, window. change (Z.to_nat 0) with 0%nat. change (Z.to_nat 8) with 8%nat. rewrite drop_0.
  rewrite drop_app_length' by by rewrite le_bytes_length.
  rewrite !take_app_length' by by rewrite le_bytes_length. by rewrite !le_value_bytes.
Qed.

Lemma unfit_zeros s c : 0 <= s -> 4096 <= c -> fits s c (foot (zeros c)) = false.
Proof.
  intros Hs Hc. unfold fits, foot. cbn [fst]. rewrite blen_zeros by lia.
  assert (field (zeros c) (c - 4096) = 0) as ->.
  { unfold field, window, zeros. rewrite drop_replicate, take_replicate. rewrite Nat.min_l by lia. done. }
  by rewrite (proj2 (Z.ltb_ge _ _)) by lia.
Qed.

Lemma sealed_fits s zb log : 0 <= s -> s + blen zb < 2 ^ 64 -> sealed_zone s zb log -> fits s (blen zb) (foot zb) = true.
Proof.
  intros Hs Hc [H1 H2 H3 H4 H5 H6]. unfold fits. rewrite H2. rewrite wrap64_small by lia.
  rewrite !(proj2 (Z.ltb_lt _ _)) by lia. rewrite (proj2 (Z.leb_le _ _)) by lia. done.
Qed.

(** What sealing writes from [o] on: the log, padding, the footer page. *)
Definition seal_bytes (s o c : Z) (log : bytes) : bytes :=
  log ++ zeros (c - 4096 - (o + blen log)) ++ page_of (s + o) (blen log).

Lemma seal_zone s zb o log : 0 <= s -> s + blen zb < 2 ^ 64 -> header_ok zb ->
  4096 <= o -> 0 < blen log -> o + blen log <= blen zb - 4096 ->
  let zb' := splice zb o (seal_bytes s o (blen zb) log) in
  sealed_zone s zb' log /\ foot zb' = (s + o, blen log).
Proof.
  intros Hs Hc Hh Ho Hl Hfit zb'. subst zb'. set (c := blen zb) in *. unfold seal_bytes.
  set (pad := zeros (c - 4096 - (o + blen log))). assert (blen pad = c - 4096 - (o + blen log)) as Lp by (apply blen_zeros; lia).
  rewrite <- !(splice_adjacent zb) by (rewrite ?blen_app, ?blen_page; fold c; lia).
  rewrite <- (splice_adjacent (splice zb o log)) by (rewrite ?blen_splice, ?blen_page; fold c; lia).
  replace (o + blen log + blen pad) with (c - 4096) by lia.
  set (z1 := splice zb o log). assert (blen z1 = c) as L1 by (apply blen_splice; fold c; lia).
  set (z2 := splice z1 (o + blen log) pad). assert (blen z2 = c) as L2 by (unfold z2; rewrite blen_splice; lia).
  destruct (page_fields z2 (c - 4096) (s + o) (blen log)) as [F1 F2]; [lia..|].
  set (z3 := splice z2 (c - 4096) _) in *. assert (blen z3 = c) as L3 by (unfold z3; rewrite blen_splice; rewrite ?blen_page; lia).
  assert (foot z3 = (s + o, blen log)) as Ef by (unfold foot; rewrite L3; by rewrite F1, F2).
  split; [|done]. split; rewrite ?Ef, ?L3; cbn [fst snd]; [|done|lia|lia|lia|].
  - apply header_apart; [lia|rewrite blen_page; lia|]. apply header_apart; [lia..|]. by apply header_apart; fold c; [lia..|].
  - replace (s + o - s) with o by lia. unfold z3. rewrite window_apart by (rewrite ?blen_page; lia).
    unfold z2. rewrite window_apart by lia. apply window_same; fold c; lia.
Qed.
End zone_bytes.

(** ** Reading the tables through their updates *)

Lemma zone_at_alter f j m i : (j < length (zones m))%nat ->
  zone_at (alter_zone f j m) i = if decide (i = j) then f (zone_at m i) else zone_at m i.
Proof.
  intros Hj. unfold zone_at, alter_zone. cbn. destruct (decide (i = j)) as [->|Hne].
  - apply lookup_lt_is_Some in Hj as [z Hz]. by rewrite list_lookup_alter_eq, Hz.
  - by rewrite list_lookup_alter_ne by done.
Qed.

Lemma group_at_alter f j m i : 0 <= i -> 0 <= j < Z.of_nat (length (groups m)) ->
  group_at (alter_group f j m) i = if decide (i = j) then f (group_at m i) else group_at m i.
Proof.
  intros Hi Hj. unfold group_at, alter_group. cbn. destruct (decide (i = j)) as [->|Hne].
  - assert (Z.to_nat j < length (groups m))%nat as [g Hg]%lookup_lt_is_Some by lia. by rewrite list_lookup_alter_eq, Hg.
  - by rewrite list_lookup_alter_ne by lia.
Qed.

Lemma length_alter_zone f j m : length (zones (alter_zone f j m)) = length (zones m).
Proof. apply length_alter. Qed.

(** The file written over, nothing else. *)
Definition write_at (o : Z) (buf : bytes) (m : ZoneManager) : ZoneManager :=
  upd_device (mkDevice (splice (file (device m)) o buf) (info (device m))) m.

Lemma write_then_ok {A} buf o m (k : ZoneManager -> result A * ZoneManager) :
  0 <= o -> o + blen buf <= device_capacity (info (device m)) -> device_capacity (info (device m)) < 2 ^ 63 ->
  write_then buf o m k = k (write_at o buf m).
Proof.
  intros Ho Hb Hc. unfold write_then, device_write. rewrite sat_add_exact by (unfold u64_max; lia).
  by rewrite (proj2 (Z.ltb_ge _ _)) by lia.
Qed.

Lemma alter_advance_zero i (l : list Zone) : alter (advance 0 0) i l = l.
Proof.
  apply list_eq. intros j. destruct (decide (i = j)) as [->|]; [|by rewrite list_lookup_alter_ne].
  rewrite list_lookup_alter_eq. destruct (l !! j) as [z|]; [|done]. cbn. f_equal. unfold advance. rewrite !Z.add_0_r. by destruct z.
Qed.

Lemma alter_advance_twice a b i (l : list Zone) : alter (advance b 0) i (alter (advance a 0) i l) = alter (advance (a + b) 0) i l.
Proof.
  rewrite list_alter_alter_eq. apply list_alter_ext; [|done]. intros z _. unfold advance. cbn. f_equal; lia.
Qed.

(** The padding loop writes one run of zeros. *)
Lemma pad_loop_eq fuel chunk left zi m :
  0 < chunk -> 0 <= left <= Z.of_nat fuel * chunk -> (zi < length (zones m))%nat ->
  0 <= z_write_pointer (zone_at m zi) ->
  z_write_pointer (zone_at m zi) + left <= device_capacity (info (device m)) ->
  device_capacity (info (device m)) < 2 ^ 63 -> blen (file (device m)) = device_capacity (info (device m)) ->
  pad_loop fuel chunk left zi m =
    (Ok tt, alter_zone (advance left 0) zi (write_at (z_write_pointer (zone_at m zi)) (zeros left) m)).
Proof.
  intros Hch. revert left m. induction fuel as [|fuel IH]; intros left m Hl Hz Hw Hfit Hcap Hlen.
  - assert (left = 0) as -> by lia. cbn [pad_loop]. unfold alter_zone, write_at. cbn. rewrite splice_nil, alter_advance_zero. by destruct m as [[] ?].
  - cbn [pad_loop]. destruct (Z.ltb_spec 0 left) as [Hpos|Hz0].
    2: { assert (left = 0) as -> by lia. unfold alter_zone, write_at. cbn. rewrite splice_nil, alter_advance_zero. by destruct m as [[] ?]. }
    set (a := Z.min chunk left). assert (0 < a <= left /\ (a = chunk \/ a = left)) as [Ha Hac] by lia.
    assert (blen (zeros a) = a) as La by (apply blen_zeros; lia).
    set (wp := z_write_pointer (zone_at m zi)) in *. rewrite write_then_ok by lia.
    set (m1 := alter_zone (advance a 0) zi (write_at wp (zeros a) m)).
    assert (z_write_pointer (zone_at m1 zi) = wp + a) as Ew.
    { unfold m1. rewrite zone_at_alter by done. by rewrite decide_True by done. }
    rewrite IH; unfold m1; cbn -[blen]; rewrite ?length_alter.
    + f_equal. fold m1. rewrite Ew. unfold m1, alter_zone, write_at, upd_zones, upd_device. cbn -[zeros].
      rewrite alter_advance_twice. replace (a + (left - a)) with left by lia. f_equal. f_equal.
      pose proof (splice_adjacent (file (device m)) wp (zeros a) (zeros (left - a))) as X. rewrite La in X.
      rewrite X by (rewrite ?blen_zeros; lia). f_equal. unfold zeros.
      rewrite <- replicate_add. f_equal. lia.
    + split; [lia|]. destruct Hac; nia.
    + done.
    + fold m1. rewrite Ew. lia.
    + fold m1. rewrite Ew. lia.
    + done.
    + rewrite blen_splice by lia. done.
Qed.
