(* ===== verification/ZonesInv.v ===== *)
(** * Zoned storage: what holds between two operations of the manager *)

From Stdlib Require Import Strings.Byte.
From S2P Require Import Prelude BlockCodec SsdRecords Zones ZonesFacts.

Definition geometry (n c : Z) : ZoneDeviceInfo := mkInfo (n * c) (n * c) ZONE_PAGE_SIZE c c n c n 1.

Section inv.
(** [n] zones of [c] bytes, numbered in sixteen bits. *)
Context (n c : Z).

Definition sizes_ok : Prop := 8192 <= c /\ 0 < n <= 2 ^ 16 /\ n * c < 2 ^ 63.
Context (Hg : sizes_ok).

Definition zone_bytes (m : ZoneManager) (i : Z) : bytes := window (file (device m)) (i * c) c.

(** Where the current zone stands: open with room for its footer, or sealed to
    its end. *)
Definition current_ok (m : ZoneManager) (logs : gmap Z bytes) : Prop :=
  let cur := current_group m in
  let wp := z_write_pointer (zone_at m (Z.to_nat cur)) in
  if meta_appendable m then
    logs !! cur = None /\ header_ok (zone_bytes m cur) /\ cur * c + 4096 <= wp <= cur * c + c - 4096 /\
    z_start (meta_zone m) = wp /\ z_write_pointer (meta_zone m) = wp /\ z_capacity (meta_zone m) = c
  else wp = cur * c + c.

(** The tables fit the device. *)
Record shape (m : ZoneManager) : Prop := {
  sh_info : info (device m) = geometry n c;
  sh_file : blen (file (device m)) = n * c;
  sh_header : header_size m = 4096;
  sh_footer : footer_size m = 4096;
  sh_zone_count : length (zones m) = Z.to_nat n;
  sh_group_count : length (groups m) = Z.to_nat n;
  sh_zones : forall i, 0 <= i < n -> z_start (zone_at m (Z.to_nat i)) = i * c /\ z_capacity (zone_at m (Z.to_nat i)) = c;
  sh_groups : forall i, 0 <= i < n -> g_zone_index (group_at m i) = Z.to_nat i;
  sh_sequence : 0 <= sequence m
}.

(** Zone [i] holds the log, and its group says where; or it holds none a reopen
    could mistake for one. *)
Definition store_at (m : ZoneManager) (i : Z) (o : option bytes) : Prop :=
  match o with
  | Some log =>
      sealed_zone (i * c) (zone_bytes m i) log /\
      g_meta_offset (group_at m i) = (foot (zone_bytes m i)).1 /\ g_meta_size (group_at m i) = blen log
  | None => fits (i * c) c (foot (zone_bytes m i)) = false
  end.

(** The manager and the metadata logs its zones hold, by group. *)
Record zinv (m : ZoneManager) (logs : gmap Z bytes) : Prop := {
  zi_shape : shape m;
  zi_part : current_group m :: free_list m ++ gc_list m ++ recovery_list m ≡ₚ seqZ 0 n;
  zi_dom : forall i, is_Some (logs !! i) -> 0 <= i < n;
  zi_store : forall i, 0 <= i < n -> store_at m i (logs !! i);
  zi_free : forall i, i ∈ free_list m -> logs !! i = None;
  zi_recovery : forall i, i ∈ recovery_list m -> is_Some (logs !! i);
  zi_current : current_ok m logs
}.

(** ** Zones of the file *)

Lemma zone_end i : 0 <= i < n -> 0 <= i * c /\ i * c + c <= n * c.
Proof using Hg. intros. destruct Hg as (? & ? & ?). nia. Qed.

Lemma zone_apart v i j o buf : blen v = n * c -> 0 <= i < n -> 0 <= j < n -> i <> j ->
  j * c <= o -> o + blen buf <= j * c + c -> window (splice v o buf) (i * c) c = window v (i * c) c.
Proof using Hg.
  intros Hv Hi Hj Hij Ho Hb. pose proof (zone_end i Hi). pose proof (zone_end j Hj). destruct Hg as (? & ? & ?).
  apply window_apart; try lia. assert (i + 1 <= j \/ j + 1 <= i) as [?|?] by lia; [left|right]; nia.
Qed.

Lemma zone_inside v j o buf : blen v = n * c -> 0 <= j < n -> j * c <= o -> o + blen buf <= j * c + c ->
  window (splice v o buf) (j * c) c = splice (window v (j * c) c) (o - j * c) buf.
Proof using Hg. intros Hv Hj Ho Hb. pose proof (zone_end j Hj). destruct Hg as (? & ? & ?). apply window_inside; lia. Qed.

Lemma zone_length v i : blen v = n * c -> 0 <= i < n -> blen (window v (i * c) c) = c.
Proof using Hg. intros Hv Hi. pose proof (zone_end i Hi). destruct Hg as (? & ? & ?). apply blen_window; lia. Qed.

Lemma zone_bytes_length m i : shape m -> 0 <= i < n -> blen (zone_bytes m i) = c.
Proof using Hg. intros S. apply zone_length, (sh_file _ S). Qed.

(** The zones other than [j] keep their bytes under a write inside zone [j]. *)
Lemma write_keeps_others m j o buf i : shape m -> 0 <= j < n -> 0 <= i < n -> i <> j ->
  j * c <= o -> o + blen buf <= j * c + c -> zone_bytes (write_at o buf m) i = zone_bytes m i.
Proof using Hg. intros S Hj Hi Hij Ho Hb. apply (zone_apart _ i j); try done. apply (sh_file _ S). Qed.

Lemma write_in_zone m j o buf : shape m -> 0 <= j < n ->
  j * c <= o -> o + blen buf <= j * c + c -> zone_bytes (write_at o buf m) j = splice (zone_bytes m j) (o - j * c) buf.
Proof using Hg. intros S Hj Ho Hb. apply zone_inside; try done. apply (sh_file _ S). Qed.

Lemma shape_write m o buf : shape m -> 0 <= o -> o + blen buf <= n * c -> shape (write_at o buf m).
Proof. intros [H1 H2 H3 H4 H5 H6 H7 H8 H9] Ho Hb. split; try done. cbn -[blen]. rewrite blen_splice; lia. Qed.

Lemma shape_alter_zone f j m : (forall z, z_start (f z) = z_start z /\ z_capacity (f z) = z_capacity z) ->
  shape m -> 0 <= j < n -> shape (alter_zone f (Z.to_nat j) m).
Proof.
  intros Hf [H1 H2 H3 H4 H5 H6 H7 H8 H9] Hj. split; try done; [by rewrite length_alter_zone|].
  intros i Hi. rewrite zone_at_alter by lia. case_decide; [|by apply H7]. destruct (Hf (zone_at m (Z.to_nat i))) as [-> ->]. by apply H7.
Qed.

Lemma shape_alter_group f j m : (forall g, g_zone_index (f g) = g_zone_index g) -> shape m -> 0 <= j < n -> shape (alter_group f j m).
Proof.
  intros Hf [H1 H2 H3 H4 H5 H6 H7 H8 H9] Hj. split; try done; [by rewrite <- H6; apply length_alter|].
  intros i Hi. rewrite group_at_alter by lia. case_decide; [|by apply H8]. rewrite Hf. by apply H8.
Qed.

Lemma shape_same m m' : shape m -> device m' = device m -> zones m' = zones m -> groups m' = groups m ->
  header_size m' = header_size m -> footer_size m' = footer_size m -> 0 <= sequence m' -> shape m'.
Proof.
  intros [H1 H2 H3 H4 H5 H6 H7 H8 H9] E1 E2 E3 E4 E5 E6. unfold zone_at, group_at in *.
  split; rewrite ?E1, ?E2, ?E3, ?E4, ?E5; try done; intros i Hi; unfold zone_at, group_at in *; rewrite ?E2, ?E3; auto.
Qed.

(** Only the bytes of the zone and the metadata of the group matter. *)
Lemma store_same m m' i o : zone_bytes m' i = zone_bytes m i ->
  g_meta_offset (group_at m' i) = g_meta_offset (group_at m i) -> g_meta_size (group_at m' i) = g_meta_size (group_at m i) ->
  store_at m i o -> store_at m' i o.
Proof. intros E1 E2 E3. unfold store_at. by rewrite E1, E2, E3. Qed.

Section state.
Context (m : ZoneManager) (logs : gmap Z bytes) (I : zinv m logs).

Lemma part_range i : i ∈ current_group m :: free_list m ++ gc_list m ++ recovery_list m -> 0 <= i < n.
Proof using I. rewrite (zi_part _ _ I). rewrite elem_of_seqZ. lia. Qed.

Lemma part_nodup : NoDup (current_group m :: free_list m ++ gc_list m ++ recovery_list m).
Proof using I. rewrite (zi_part _ _ I). apply NoDup_seqZ. Qed.

Lemma current_range : 0 <= current_group m < n.
Proof using I. apply part_range. by left. Qed.

Lemma current_zone_index_eq : current_zone_index m = Z.to_nat (current_group m).
Proof using I. apply (sh_groups _ (zi_shape _ _ I)), current_range. Qed.

Lemma current_zone_ok : z_start (zone_at m (Z.to_nat (current_group m))) = current_group m * c /\
  z_capacity (zone_at m (Z.to_nat (current_group m))) = c /\ (Z.to_nat (current_group m) < length (zones m))%nat.
Proof using I.
  pose proof (zi_shape _ _ I) as S. pose proof current_range as Hr. destruct (sh_zones _ S _ Hr). split_and!; [done..|].
  rewrite (sh_zone_count _ S). lia.
Qed.

(** [ensured] is not part of it. *)
Lemma zinv_flags e : zinv (upd_flags e (meta_appendable m) m) logs.
Proof using I. destruct I as [H1 H2 H3 H4 H5 H6 H7]. split; try done. eapply shape_same; [exact H1|done..|apply H1]. Qed.

(** An admitted reservation leaves room for the footer. *)
Lemma ensure_admits d md : 0 <= d -> 0 <= md -> (ensure_available_space d md m).1 = true -> 0 < d + md ->
  meta_appendable m = true /\
  z_write_pointer (zone_at m (Z.to_nat (current_group m))) + d + md <= current_group m * c + c - 4096.
Proof using I Hg.
  intros Hd Hm. unfold ensure_available_space. cbn zeta. case_if; [done|]. cbn [fst]. intros Hn Hpos. zbool.
  change (current_zone_index (upd_flags true (meta_appendable m) m)) with (current_zone_index m) in Hn.
  rewrite current_zone_index_eq in Hn. destruct current_zone_ok as (Es & Ec & _). pose proof (zi_current _ _ I) as C.
  change (zone_at (upd_flags true (meta_appendable m) m)) with (zone_at m) in Hn.
  change (footer_size (upd_flags true (meta_appendable m) m)) with (footer_size m) in Hn.
  rewrite (sh_footer _ (zi_shape _ _ I)) in Hn. unfold avail_bytes in Hn. rewrite Es, Ec in Hn. unfold current_ok in C.
  pose proof (zone_end _ current_range). destruct Hg as (? & ? & ?). unfold sat_add, sat_sub, u64_max in Hn.
  destruct (meta_appendable m); [|lia]. destruct C as (_ & _ & C & _). split; [done|]. lia.
Qed.
End state.

(** ** Appending data *)

Lemma append_data_ok m logs buf :
  zinv m logs -> ensured m = true -> meta_appendable m = true -> 0 < blen buf -> blen buf `mod` 4096 = 0 ->
  let cur := current_group m in
  let wp := z_write_pointer (zone_at m (Z.to_nat cur)) in
  wp + blen buf <= cur * c + c - 4096 ->
  exists m', append buf Data m = (Ok wp, m') /\ zinv m' logs /\ file (device m') = splice (file (device m)) wp buf /\
    free_list m' = free_list m /\ gc_list m' = gc_list m /\ current_group m' = cur /\ meta_appendable m' = true /\
    recovery_list m' = recovery_list m /\ z_write_pointer (zone_at m' (Z.to_nat cur)) = wp + blen buf.
Proof using Hg.
  intros I He Ha Hpos Hmod cur wp Hfit. pose proof (zi_shape _ _ I) as S. destruct (current_zone_ok m logs I) as (Es & Ec & Hlen).
  fold cur in Es, Ec, Hlen. pose proof (current_range m logs I) as Hr. fold cur in Hr. pose proof (zone_end _ Hr) as Hz.
  pose proof (zi_current _ _ I) as C. unfold current_ok in C. rewrite Ha in C. fold cur wp in C. destruct C as (C1 & C2 & C3 & C4 & C5 & C6).
  pose proof Hg as (? & ? & ?). unfold append. cbn zeta. rewrite (sh_info _ S). cbn [page_size zone_size geometry].
  rewrite (proj2 (Z.eqb_neq _ _)) by lia. unfold ZONE_PAGE_SIZE. rewrite Hmod. cbn [Z.eqb negb orb].
  rewrite (proj2 (Z.ltb_ge _ _)) by lia. rewrite He. cbn [negb]. rewrite (current_zone_index_eq m logs I). fold cur wp.
  unfold avail_bytes. rewrite Es, Ec. fold wp. rewrite (proj2 (Z.ltb_ge _ _)) by (unfold sat_sub; lia).
  rewrite write_then_ok; [|lia|by rewrite (sh_info _ S); cbn -[blen]; lia|by rewrite (sh_info _ S); cbn; lia].
  set (m1 := write_at wp buf m). assert (shape m1) as S1 by (apply shape_write; [done|lia..]).
  set (m2 := alter_zone _ _ m1). assert (shape m2) as S2 by (by apply shape_alter_zone).
  assert (z_write_pointer (zone_at m2 (Z.to_nat cur)) = wp + blen buf) as Ew.
  { unfold m2. rewrite zone_at_alter by done. by rewrite decide_True by done. }
  eexists. split; [done|]. cbn zeta. split; [|done]. rewrite Ew.
  assert (forall i, 0 <= i < n -> i <> cur -> zone_bytes m1 i = zone_bytes m i) as Hother
    by (intros i Hi Hne; apply (write_keeps_others m cur); [done..|lia|lia]).
  assert (zone_bytes m1 cur = splice (zone_bytes m cur) (wp - cur * c) buf) as Hcur by (apply write_in_zone; [done..|lia|lia]).
  assert (blen (zone_bytes m cur) = c) as Lz by by apply zone_bytes_length.
  split; [eapply shape_same; [exact S2|done..|apply S2]|apply I|apply I| |apply I|apply I|].
  - intros i Hi. destruct (decide (i = cur)) as [->|Hne].
    + pose proof (zi_store _ _ I cur Hi) as St. rewrite C1 in *. unfold store_at in *.
      change (fits (cur * c) c (foot (zone_bytes m1 cur)) = false). rewrite Hcur, foot_apart by lia. done.
    + eapply store_same; [..|apply (zi_store _ _ I i Hi)]; try done. by apply Hother.
  - unfold current_ok. change (meta_appendable m) with (meta_appendable m). cbn [meta_appendable upd_meta_zone].
    change (meta_appendable m2) with (meta_appendable m). rewrite Ha. cbn [meta_zone upd_meta_zone moved_to z_start z_write_pointer z_capacity].
    change (current_group (upd_meta_zone _ m2)) with cur. change (zone_at (upd_meta_zone _ m2)) with (zone_at m2). rewrite Ew.
    split_and!; try done; try lia. change (header_ok (zone_bytes m1 cur)). rewrite Hcur. apply header_apart; [lia..|done].
Qed.
(** ** Sealing *)

(** The lists and the current group stay. *)
Definition same_lists (m m' : ZoneManager) : Prop :=
  free_list m' = free_list m /\ gc_list m' = gc_list m /\ recovery_list m' = recovery_list m /\
  current_group m' = current_group m.

Lemma seal_ok m w :
  let cur := current_group m in
  shape m -> 0 <= cur < n -> current_zone_index m = Z.to_nat cur ->
  z_write_pointer (zone_at m (Z.to_nat cur)) = cur * c + w -> 0 <= w <= c - 4096 ->
  exists m', seal_current_zone m = (Ok tt, m') /\ shape m' /\ same_lists m m' /\ groups m' = groups m /\
    file (device m') = splice (file (device m)) (cur * c + w)
      (zeros (c - 4096 - w) ++ page_of (g_meta_offset (group_at m cur)) (g_meta_size (group_at m cur))) /\
    z_write_pointer (zone_at m' (Z.to_nat cur)) = cur * c + c.
Proof using Hg.
  intros cur S Hr Hidx Hw Hwr. pose proof (zone_end _ Hr) as Hz. pose proof Hg as (? & ? & ?).
  destruct (sh_zones _ S _ Hr) as [Es Ec]. assert (Z.to_nat cur < length (zones m))%nat as Hlen by (rewrite (sh_zone_count _ S); lia).
  assert (device_capacity (info (device m)) = n * c) as Hcap by by rewrite (sh_info _ S).
  unfold seal_current_zone. rewrite Hidx. fold cur. unfold avail_bytes. rewrite Es, Ec, Hw, (sh_footer _ S).
  assert (c -! (cur * c + w -! cur * c) -! 4096 = c - 4096 - w) as -> by (unfold sat_sub; lia). set (pad := c - 4096 - w).
  cbn zeta. set (m1 := alter_zone (advance pad 0) (Z.to_nat cur) (write_at (cur * c + w) (zeros pad) m)).
  assert ((if 0 <? pad then pad_loop (Datatypes.S (Z.to_nat (pad `div` Z.min (2 ^ 20) pad))) (Z.min (2 ^ 20) pad) pad (Z.to_nat cur) m
           else (Ok tt, m)) = (Ok tt, m1)) as ->.
  { destruct (Z.ltb_spec 0 pad) as [Hpos|Hz0].
    - unfold m1. rewrite <- Hw. set (ch := Z.min (2 ^ 20) pad). assert (0 < ch) by lia. apply pad_loop_eq; try lia.
      + split; [lia|]. pose proof (Z.div_pos pad ch). pose proof (Z.mul_succ_div_gt pad ch). rewrite Nat2Z.inj_succ, Z2Nat.id by lia. nia.
      + rewrite (sh_file _ S). lia.
    - assert (pad = 0) as E0 by (unfold pad in *; lia). unfold m1. rewrite E0. unfold alter_zone, write_at. cbn.
      rewrite splice_nil, alter_advance_zero. by destruct m as [[] ?]. }
  assert (shape m1) as S1.
  { apply shape_alter_zone; [done| |done]. apply shape_write; [done|lia|]. rewrite blen_zeros; unfold pad; lia. }
  assert (z_write_pointer (zone_at m1 (Z.to_nat cur)) = cur * c + (c - 4096)) as E1.
  { unfold m1. rewrite zone_at_alter by done. rewrite decide_True by done. cbn. change (zone_at (write_at _ _ m)) with (zone_at m).
    rewrite Hw. unfold pad. lia. }
  rewrite E1. set (g := group_at m cur).
  assert (footer_bytes g m1 = page_of (g_meta_offset g) (g_meta_size g)) as -> by (unfold footer_bytes; by rewrite (sh_footer _ S1)).
  rewrite write_then_ok; [|lia|rewrite (sh_info _ S1), blen_page; cbn; lia|rewrite (sh_info _ S1); cbn; lia].
  set (m2 := write_at _ _ m1). assert (shape m2) as S2 by (apply shape_write; [done|lia|rewrite blen_page; lia]).
  eexists. split; [done|]. split_and!; [by apply shape_alter_zone|done|done| |].
  - cbn -[blen zeros]. pose proof (splice_adjacent (file (device m)) (cur * c + w) (zeros pad) (page_of (g_meta_offset g) (g_meta_size g))) as X.
    rewrite blen_zeros, blen_page, (sh_file _ S) in X by (unfold pad; lia).
    rewrite <- X by (unfold pad; lia). f_equal. unfold pad. lia.
  - rewrite zone_at_alter by (unfold m2; cbn; by rewrite length_alter). rewrite decide_True by done. cbn.
    change (zone_at m2) with (zone_at m1). rewrite E1. change (footer_size m2) with (footer_size m). rewrite ?(sh_footer _ S). lia.
Qed.

Lemma append_meta_ok m logs buf :
  zinv m logs -> ensured m = true -> meta_appendable m = true -> 0 < blen buf -> blen buf `mod` 4096 = 0 ->
  let cur := current_group m in
  let wp := z_write_pointer (zone_at m (Z.to_nat cur)) in
  wp + blen buf <= cur * c + c - 4096 ->
  exists m', append buf MetaLog m = (Ok wp, m') /\ zinv m' (<[cur := buf]> logs) /\
    free_list m' = free_list m /\ gc_list m' = gc_list m /\ current_group m' = cur /\ meta_appendable m' = false /\
    recovery_list m' = recovery_list m /\
    exists x, file (device m') = splice (file (device m)) wp x /\ blen x = cur * c + c - wp.
Proof using Hg.
  intros I He Ha Hpos Hmod cur wp Hfit. pose proof (zi_shape _ _ I) as S. destruct (current_zone_ok m logs I) as (Es & Ec & Hlen).
  fold cur in Es, Ec, Hlen. pose proof (current_range m logs I) as Hr. fold cur in Hr. pose proof (zone_end _ Hr) as Hz.
  pose proof (zi_current _ _ I) as C. unfold current_ok in C. rewrite Ha in C. fold cur wp in C. destruct C as (C1 & C2 & C3 & C4 & C5 & C6).
  pose proof Hg as (? & ? & ?). unfold append. cbn zeta. rewrite (sh_info _ S). cbn [page_size zone_size geometry].
  rewrite (proj2 (Z.eqb_neq _ _)) by lia. unfold ZONE_PAGE_SIZE. rewrite Hmod. cbn [Z.eqb negb orb].
  rewrite (proj2 (Z.ltb_ge _ _)) by lia. rewrite He, Ha. cbn [negb]. rewrite (current_zone_index_eq m logs I). fold cur.
  unfold avail_bytes. rewrite C4, C5, C6. rewrite (proj2 (Z.ltb_ge _ _)) by (unfold sat_sub; lia).
  rewrite write_then_ok; [|lia|by rewrite (sh_info _ S); cbn -[blen]; lia|by rewrite (sh_info _ S); cbn; lia].
  set (m1 := write_at wp buf m). assert (shape m1) as S1 by (apply shape_write; [done|lia..]).
  change (current_group m1) with cur. set (m2 := alter_group _ cur m1). assert (shape m2) as S2 by (by apply shape_alter_group).
  set (m3 := alter_zone _ _ (upd_meta_zone _ m2)).
  assert (shape m3) as S3 by (apply shape_alter_zone; [done| |done]; eapply shape_same; [exact S2|done..|apply S2]).
  assert (group_at m3 cur = with_meta wp (blen buf) (group_at m cur)) as Eg.
  { change (group_at m3 cur) with (group_at m2 cur). unfold m2. rewrite group_at_alter; [by rewrite decide_True|lia|].
    change (groups m1) with (groups m). rewrite (sh_group_count _ S). lia. }
  destruct (seal_ok m3 (wp - cur * c + blen buf)) as (m' & Em & S' & (L1 & L2 & L3 & L4) & Egs & Efile & Ewp); [done|done| | |lia|].
  { change (current_group m3) with cur. unfold current_zone_index. apply (sh_groups _ S3). done. }
  { change (current_group m3) with cur. unfold m3. rewrite zone_at_alter by done. rewrite decide_True by done. cbn -[blen].
    change (zone_at _ _) with (zone_at m (Z.to_nat cur)). fold wp. lia. }
  change (current_group m3) with cur in *. rewrite Em. eexists. split; [done|].
  assert (file (device m') = splice (file (device m)) wp (seal_bytes (cur * c) (wp - cur * c) c buf)) as Ef.
  { rewrite Efile, Eg. cbn -[blen splice seal_bytes zeros page_of]. replace (cur * c + (wp - cur * c + blen buf)) with (wp + blen buf) by lia.
    rewrite splice_adjacent by (rewrite ?(sh_file _ S), ?blen_app, ?blen_page, ?blen_zeros; lia).
    unfold seal_bytes. by replace (cur * c + (wp - cur * c)) with wp by lia. }
  assert (blen (seal_bytes (cur * c) (wp - cur * c) c buf) = cur * c + c - wp) as Lb.
  { unfold seal_bytes. rewrite !blen_app, blen_page, blen_zeros by lia. lia. }
  split; [|split_and!; try done; by exists (seal_bytes (cur * c) (wp - cur * c) c buf)].
  assert (forall i, 0 <= i < n -> i <> cur -> zone_bytes m' i = zone_bytes m i) as Hother.
  { intros i Hi Hne. unfold zone_bytes. rewrite Ef. apply (zone_apart _ i cur); rewrite ?Lb; try done; [apply S|lia|lia]. }
  assert (zone_bytes m' cur = splice (zone_bytes m cur) (wp - cur * c) (seal_bytes (cur * c) (wp - cur * c) c buf)) as Hcur.
  { unfold zone_bytes. rewrite Ef. apply zone_inside; rewrite ?Lb; [apply S|done|lia|lia]. }
  assert (blen (zone_bytes m cur) = c) as Lz by by apply zone_bytes_length.
  assert (forall i, group_at m' i = group_at m3 i) as Hgs by (intros; unfold group_at; by rewrite Egs).
  split.
  - eapply shape_same; [exact S'|done..|apply S'].
  - cbn. rewrite L1, L2, L3, L4. apply I.
  - intros i [->|[_ Hi]]%lookup_insert_is_Some; [done|by apply (zi_dom _ _ I)].
  - intros i Hi. destruct (decide (i = cur)) as [->|Hne].
    + rewrite lookup_insert_eq. change (store_at m' cur (Some buf)).
      destruct (seal_zone (cur * c) (zone_bytes m cur) (wp - cur * c) buf) as [Sz Ft]; rewrite ?Lz; try done; try lia.
      rewrite Lz, <- Hcur in Sz, Ft. split; [done|]. change (group_at (upd_flags _ _ m') cur) with (group_at m' cur).
      change (zone_bytes (upd_flags _ _ m') cur) with (zone_bytes m' cur). rewrite Ft, Hgs, Eg. cbn -[blen]. split; [lia|done].
    + rewrite lookup_insert_ne by done.
      assert (group_at m' i = group_at m i) as Hgi.
      { rewrite Hgs. change (group_at m3 i) with (group_at m2 i). unfold m2. rewrite group_at_alter; [by rewrite decide_False|lia|].
        change (groups m1) with (groups m). rewrite (sh_group_count _ S). lia. }
      eapply (store_same m); [by apply Hother|..|by apply I].
      * by change (group_at (upd_flags _ _ m') i) with (group_at m' i); rewrite Hgi.
      * by change (group_at (upd_flags _ _ m') i) with (group_at m' i); rewrite Hgi.
  - cbn. rewrite L1. intros i Hi. rewrite lookup_insert_ne; [by apply I|]. intros <-.
    pose proof (part_nodup m logs I) as Hnd. apply NoDup_cons in Hnd as [Hnd _]. apply Hnd. set_solver.
  - cbn. rewrite L3. intros i Hi. destruct (decide (i = cur)) as [->|]; [by rewrite lookup_insert_eq|].
    rewrite lookup_insert_ne by done. by apply I.
  - unfold current_ok. cbn. rewrite L4. exact Ewp.
Qed.
(** ** Opening a group *)

(** Between two groups: none is current. *)
Record closed (m : ZoneManager) (logs : gmap Z bytes) : Prop := {
  cl_shape : shape m;
  cl_part : free_list m ++ gc_list m ++ recovery_list m ≡ₚ seqZ 0 n;
  cl_dom : forall i, is_Some (logs !! i) -> 0 <= i < n;
  cl_store : forall i, 0 <= i < n -> store_at m i (logs !! i);
  cl_free : forall i, i ∈ free_list m -> logs !! i = None;
  cl_recovery : forall i, i ∈ recovery_list m -> is_Some (logs !! i)
}.

Lemma page_shape m : shape m -> header_bytes m = page_of (sequence m) ZONE_HEADER_MAGIC.
Proof. intros S. unfold header_bytes. by rewrite (sh_header _ S). Qed.

Lemma open_next_ok m logs id free :
  closed m logs -> free_list m = id :: free -> sequence m + 1 < 2 ^ 64 ->
  exists m', open_next_group m = (Ok tt, m') /\ zinv m' logs /\ free_list m' = free /\ gc_list m' = gc_list m /\
    recovery_list m' = recovery_list m /\ current_group m' = id /\ meta_appendable m' = true /\ sequence m' = sequence m + 1 /\
    (forall i, 0 <= i < n -> i <> id -> zone_bytes m' i = zone_bytes m i).
Proof using Hg.
  intros [S P D St F R] Ef Hseq. pose proof Hg as (? & ? & ?).
  assert (0 <= id < n) as Hr by (assert (id ∈ seqZ 0 n) as X%elem_of_seqZ by (rewrite <- P, Ef; by left); lia).
  pose proof (zone_end _ Hr) as Hz. pose proof (sh_sequence _ S) as Hs0.
  assert (Z.to_nat id < length (zones m))%nat as Hlen by (rewrite (sh_zone_count _ S); lia).
  unfold open_next_group. rewrite Ef. cbn zeta. set (m1 := upd_current id _).
  change (group_at m1 id) with (group_at m id). rewrite (sh_groups _ S id Hr).
  set (m2 := alter_zone _ _ m1).
  assert (shape m2) as S2.
  { apply shape_alter_zone; [done| |done]. eapply shape_same; [exact S|done..|done]. }
  set (m3 := upd_sequence _ m2). assert (shape m3) as S3 by (eapply shape_same; [exact S2|done..|cbn; lia]).
  destruct (sh_zones _ S id Hr) as [Es Ec].
  assert (zone_at m3 (Z.to_nat id) = with_status Open (reset_zone_state (zone_at m (Z.to_nat id)))) as Ez.
  { change (zone_at m3) with (zone_at m2). unfold m2. rewrite zone_at_alter by done. by rewrite decide_True. }
  unfold write_header. rewrite Ez. cbn [with_status reset_zone_state z_write_pointer]. rewrite Es, (page_shape m3 S3).
  rewrite write_then_ok; [|lia|rewrite (sh_info _ S3), blen_page; cbn; lia|rewrite (sh_info _ S3); cbn; lia].
  change (sequence m3) with (sequence m + 1). set (m4 := write_at _ _ m3).
  assert (shape m4) as S4 by (apply shape_write; [done|lia|rewrite blen_page; lia]).
  set (m5 := alter_zone _ _ m4). assert (shape m5) as S5 by (by apply shape_alter_zone).
  assert (zone_at m5 (Z.to_nat id) = advance 4096 4096 (zone_at m3 (Z.to_nat id))) as Ez5.
  { unfold m5. rewrite zone_at_alter; [|unfold m4, m3, m2; cbn; by rewrite length_alter].
    rewrite decide_True by done. change (header_size m4) with (header_size m). by rewrite (sh_header _ S). }
  rewrite Ez5, Ez. cbn [with_status reset_zone_state advance z_write_pointer z_capacity]. rewrite Es, Ec.
  eexists. split; [done|].
  assert (forall i, 0 <= i < n -> i <> id -> zone_bytes m4 i = zone_bytes m i) as Hother.
  { intros i Hi Hne. change (zone_bytes m i) with (zone_bytes m3 i). apply (write_keeps_others m3 id); rewrite ?blen_page; try done; lia. }
  assert (zone_bytes m4 id = splice (zone_bytes m id) 0 (page_of (sequence m + 1) ZONE_HEADER_MAGIC)) as Hcur.
  { unfold m4. rewrite (write_in_zone m3 id) by (rewrite ?blen_page; done || lia). by rewrite Z.sub_diag. }
  assert (blen (zone_bytes m id) = c) as Lz by by apply zone_bytes_length.
  assert (logs !! id = None) as Hid by (apply F; rewrite Ef; by left).
  split; [|by split_and!].
  split.
  - eapply shape_same; [exact S5|done..|apply S5].
  - cbn. rewrite <- P, Ef. done.
  - done.
  - intros i Hi. destruct (decide (i = id)) as [->|Hne].
    + pose proof (St id Hi) as X. rewrite Hid in *. unfold store_at in *.
      change (fits (id * c) c (foot (zone_bytes m4 id)) = false). rewrite Hcur, foot_apart by (rewrite ?blen_page; lia). done.
    + eapply (store_same m); [by apply Hother|done|done|by apply St].
  - cbn. intros i Hi. apply F. rewrite Ef. by right.
  - done.
  - unfold current_ok. cbn. change (zone_at (upd_flags _ _ _)) with (zone_at m5). rewrite Ez5, Ez. cbn. rewrite Es.
    split_and!; try done; try lia. change (header_ok (zone_bytes m4 id)). rewrite Hcur.
    destruct (page_fields (zone_bytes m id) 0 (sequence m + 1) ZONE_HEADER_MAGIC) as [F1 F2]; unfold ZONE_HEADER_MAGIC in *; try lia.
    split; [rewrite F1; lia|exact F2].
Qed.

Lemma finish_ok m logs id free :
  zinv m logs -> free_list m = id :: free -> sequence m + 1 < 2 ^ 64 ->
  exists m', finish_group m = (Ok tt, m') /\ zinv m' logs /\ free_list m' = free /\
    gc_list m' = gc_list m ++ [current_group m] /\ recovery_list m' = recovery_list m /\ current_group m' = id /\
    meta_appendable m' = true /\ sequence m' = sequence m + 1 /\
    (forall i, 0 <= i < n -> i <> id -> zone_bytes m' i = zone_bytes m i).
Proof using Hg.
  intros I Ef Hs. pose proof (current_range m logs I) as Hr. unfold finish_group. cbn zeta.
  change (current_zone_index (upd_flags false true m)) with (current_zone_index m). rewrite (current_zone_index_eq m logs I).
  set (m1 := alter_zone _ _ _). assert (shape m1) as S1.
  { apply shape_alter_zone; [done| |done]. eapply shape_same; [apply I|done..|apply (zi_shape _ _ I)]. }
  pose proof (part_nodup m logs I) as Hnd. apply NoDup_cons in Hnd as [Hnd _].
  change (current_group m1) with (current_group m). change (gc_list m1) with (gc_list m).
  unfold push_new. rewrite bool_decide_eq_false_2 by set_solver.
  destruct (open_next_ok (upd_lists (free_list m1) (gc_list m ++ [current_group m]) (recovery_list m1) m1) logs id free)
    as (m' & -> & I' & H1 & H2 & H3 & H4 & H5 & H6 & H7); [|done|done|by exists m'].
  split; [by eapply shape_same; [exact S1|done..|apply S1]| |apply I|apply I|apply I|apply I].
  cbn. rewrite <- (zi_part _ _ I). solve_Permutation.
Qed.

(** ** Reclaim and accounting *)

Lemma trim_ok m logs off size m' r : zinv m logs -> 0 <= off -> trim_bytes off size m = (r, m') ->
  zinv m' logs /\ device m' = device m /\ gc_list m' = gc_list m /\ current_group m' = current_group m /\
  z_write_pointer (zone_at m' (Z.to_nat (current_group m))) = z_write_pointer (zone_at m (Z.to_nat (current_group m))).
Proof using Hg.
  intros I Ho. unfold trim_bytes. cbn zeta. rewrite (sh_info _ (zi_shape _ _ I)). cbn [group_size groups_in_device geometry].
  case_if; [intros [= _ <-]; by split_and!|]. zbool. intros [= _ <-]. pose proof Hg as (? & ? & ?).
  assert (0 <= off `div` c < n) as Hr by (split; [apply Z.div_pos; lia|done]). set (j := off `div` c) in *.
  rewrite (sh_groups _ (zi_shape _ _ I) j Hr). set (m1 := alter_zone _ _ m).
  assert (shape m1) as S1 by (apply shape_alter_zone; [done|apply I|done]). set (m2 := alter_group _ j m1).
  assert (forall i, 0 <= i -> group_at m2 i = group_at m i \/ exists x, group_at m2 i = set_garbage_bytes x (group_at m i)) as Hgr.
  { intros i Hi. unfold m2. rewrite group_at_alter; [|done|].
    - change (group_at m1 i) with (group_at m i). case_decide; eauto.
    - change (groups m1) with (groups m). rewrite (sh_group_count _ (zi_shape _ _ I)). lia. }
  assert (z_write_pointer (zone_at m1 (Z.to_nat (current_group m))) = z_write_pointer (zone_at m (Z.to_nat (current_group m)))) as Ew.
  { unfold m1. rewrite zone_at_alter; [by case_decide|]. rewrite (sh_zone_count _ (zi_shape _ _ I)). lia. }
  split; [|by split_and!]. split; [by apply shape_alter_group|apply I|apply I| |apply I|apply I|].
  - intros i Hi. eapply (store_same m); [done|..|by apply I]; destruct (Hgr i) as [->|[x ->]]; done || lia.
  - pose proof (zi_current _ _ I) as C. unfold current_ok in *. change (current_group m2) with (current_group m).
    change (zone_at m2) with (zone_at m1). change (zone_bytes m2) with (zone_bytes m). change (meta_zone m2) with (meta_zone m).
    change (meta_appendable m2) with (meta_appendable m).
    by rewrite Ew.
Qed.

Lemma insert_perm m id l : insert_by_rate m id l ≡ₚ id :: l.
Proof.
  induction l as [|x l IH]; [done|]. cbn. destruct (SpecFloat.SFcompare _ _) as [[]|]; try done. rewrite IH. apply Permutation_swap.
Qed.
Lemma gc_order_perm m l : sort_by_rate m l ≡ₚ l.
Proof. induction l as [|x l IH]; [done|]. cbn. by rewrite insert_perm, IH. Qed.

Lemma find_gc_ok m logs : zinv m logs ->
  zinv (find_gc_group m).2 logs /\ gc_list (find_gc_group m).2 ≡ₚ gc_list m /\ (forall id mode, (find_gc_group m).1 = Some (id, mode) -> id ∈ gc_list m /\ mode = Lossy).
Proof.
  intros I. unfold find_gc_group. cbn zeta. case_if; [by split_and!|]. cbn [fst snd]. split_and!; [| |].
  - split; try apply I; [eapply shape_same; [apply I|done..|apply (zi_shape _ _ I)]|]. cbn. rewrite gc_order_perm. apply I.
  - apply gc_order_perm.
  - intros id mode. pose proof (gc_order_perm m (gc_list m)) as P. destruct (sort_by_rate m (gc_list m)) as [|x l]; [done|]. cbn.
    intros [= <- <-]. split; [|done]. rewrite <- P. by left.
Qed.

Lemma remove_first_perm id l : id ∈ l -> l ≡ₚ id :: remove_first id l.
Proof.
  intros Hin. unfold remove_first. destruct (list_find (fun x => x = id) l) as [[i x]|] eqn:E.
  - apply list_find_Some in E as (E & -> & _). by apply delete_Permutation.
  - apply list_find_None in E. rewrite Forall_forall in E. by apply E in Hin.
Qed.

Lemma reset_ok m logs id : zinv m logs -> id ∈ gc_list m ->
  exists m', reset_group id m = (Ok tt, m') /\ zinv m' (delete id logs) /\
    free_list m' = free_list m ++ [id] /\ gc_list m' = remove_first id (gc_list m) /\ recovery_list m' = recovery_list m /\
    current_group m' = current_group m /\ meta_appendable m' = meta_appendable m /\
    z_write_pointer (zone_at m' (Z.to_nat (current_group m))) = z_write_pointer (zone_at m (Z.to_nat (current_group m))) /\
    (forall i, 0 <= i < n -> i <> id -> zone_bytes m' i = zone_bytes m i).
Proof using Hg.
  intros I Hid. pose proof (zi_shape _ _ I) as S. pose proof Hg as (? & ? & ?).
  assert (0 <= id < n) as Hr by (apply (part_range m logs I); set_solver). pose proof (zone_end _ Hr) as Hz.
  pose proof (part_nodup m logs I) as Hnd. pose proof (current_range m logs I) as Hcr.
  assert (id <> current_group m) as Hne by (intros ->; apply NoDup_cons in Hnd as [Hnd _]; set_solver).
  unfold reset_group. rewrite bool_decide_eq_true_2 by done. cbn zeta. set (m1 := upd_lists _ _ _ m).
  change (group_at m1 id) with (group_at m id). rewrite (sh_groups _ S id Hr). change (zone_at m1) with (zone_at m).
  destruct (sh_zones _ S id Hr) as [-> _]. change (device m1) with (device m). unfold device_reset_zone, device_write.
  rewrite (sh_info _ S). cbn [zone_capacity device_capacity geometry]. rewrite blen_zeros by lia.
  rewrite sat_add_exact by (unfold u64_max; lia). rewrite (proj2 (Z.ltb_ge _ _)) by lia.
  rewrite <- (sh_info _ S). set (m2 := upd_device _ m1). assert (shape m2) as S2.
  { eapply shape_same; [apply (shape_write m (id * c) (zeros c) S); [lia|rewrite blen_zeros; lia]|done..|apply S]. }
  set (m3 := alter_zone _ _ m2). assert (shape m3) as S3 by (by apply shape_alter_zone).
  set (m4 := alter_group _ id m3). assert (shape m4) as S4 by (by apply shape_alter_group).
  eexists. split; [done|].
  assert (forall i, 0 <= i < n -> i <> id -> zone_bytes m2 i = zone_bytes m i) as Hother.
  { intros i Hi Hni. change (zone_bytes m2 i) with (zone_bytes (write_at (id * c) (zeros c) m) i).
    apply (write_keeps_others m id); rewrite ?blen_zeros; try done; lia. }
  assert (zone_bytes m2 id = zeros c) as Hzero.
  { change (zone_bytes m2 id) with (window (splice (file (device m)) (id * c) (zeros c)) (id * c) c).
    pose proof (window_same (file (device m)) (id * c) (zeros c)) as X. rewrite blen_zeros, (sh_file _ S) in X by lia. apply X; lia. }
  assert (forall i, 0 <= i -> i <> id -> group_at m4 i = group_at m i) as Hgr.
  { intros i Hi Hni. unfold m4. rewrite group_at_alter; [by rewrite decide_False|done|].
    change (groups m3) with (groups m). rewrite (sh_group_count _ S). lia. }
  assert (zone_at m3 (Z.to_nat (current_group m)) = zone_at m (Z.to_nat (current_group m))) as Hzc.
  { unfold m3. rewrite zone_at_alter; [rewrite decide_False; [done|lia]|]. change (zones m2) with (zones m). rewrite (sh_zone_count _ S). lia. }
  split; [|split_and!; try done; change (z_write_pointer (zone_at m3 (Z.to_nat (current_group m))) = z_write_pointer (zone_at m (Z.to_nat (current_group m)))); by rewrite Hzc].
  split.
  - eapply shape_same; [exact S4|done..|apply S4].
  - cbn. rewrite <- (zi_part _ _ I). rewrite (remove_first_perm id (gc_list m) Hid) at 2. solve_Permutation.
  - intros i [_ Hi]%lookup_delete_is_Some. by apply (zi_dom _ _ I).
  - intros i Hi. destruct (decide (i = id)) as [->|Hni].
    + rewrite lookup_delete_eq. unfold store_at. change (fits (id * c) c (foot (zone_bytes m2 id)) = false).
      rewrite Hzero. apply unfit_zeros; lia.
    + rewrite lookup_delete_ne by done. eapply (store_same m); [by apply Hother|..|by apply I].
      * change (g_meta_offset (group_at m4 i) = g_meta_offset (group_at m i)). rewrite Hgr; [done|lia|done].
      * change (g_meta_size (group_at m4 i) = g_meta_size (group_at m i)). rewrite Hgr; [done|lia|done].
  - cbn. intros i [Hi| ->%list_elem_of_singleton]%elem_of_app; [|apply lookup_delete_eq].
    destruct (decide (i = id)) as [->|]; [apply lookup_delete_eq|]. rewrite lookup_delete_ne by done. by apply I.
  - cbn. intros i Hi. rewrite lookup_delete_ne; [by apply I|]. intros <-.
    apply NoDup_cons in Hnd as [_ Hnd]. apply NoDup_app in Hnd as (_ & _ & Hnd). apply NoDup_app in Hnd as (_ & Hnd & _).
    by apply (Hnd id).
  - pose proof (zi_current _ _ I) as C. unfold current_ok in *.
    change (current_group (upd_lists _ _ _ m4)) with (current_group m). change (zone_at (upd_lists _ _ _ m4)) with (zone_at m3).
    change (zone_bytes (upd_lists _ _ _ m4)) with (zone_bytes m2). change (meta_zone (upd_lists _ _ _ m4)) with (meta_zone m).
    change (meta_appendable (upd_lists _ _ _ m4)) with (meta_appendable m).
    rewrite Hzc, lookup_delete_ne, Hother by done. done.
Qed.
End inv.
