(* ===== verification/ZonesOpen.v ===== *)
(** * Zoned storage: opening a device and recovering its logs *)

From Stdlib Require Import Strings.Byte.
From S2P Require Import Prelude BlockCodec SsdRecords Zones ZonesFacts ZonesInv.

Lemma seqZ_snoc k : 0 <= k -> seqZ 0 (k + 1) = seqZ 0 k ++ [k].
Proof. intros. rewrite seqZ_app by lia. by rewrite Z.add_0_l. Qed.

Section open.
Context (n c : Z) (Hg : sizes_ok n c).

(** ** A device opened *)

Lemma init_zone_at d i : info d = geometry n c -> 0 <= i < n ->
  zone_at (blank_manager d) (Z.to_nat i) = new_zone (i * c) c c.
Proof using Hg.
  intros Ei Hi. unfold zone_at, blank_manager, init_zones. cbn [zones]. rewrite list_lookup_fmap, Ei. cbn [zones_in_device geometry].
  rewrite lookup_seq_lt by lia. cbn. by rewrite Z2Nat.id by lia.
Qed.

(** The tables while the groups are listed: the first [k] are there. *)
Record listing (k : Z) (m : ZoneManager) : Prop := {
  ls_info : info (device m) = geometry n c;
  ls_file : blen (file (device m)) = n * c;
  ls_header : header_size m = 4096;
  ls_footer : footer_size m = 4096;
  ls_zone_count : length (zones m) = Z.to_nat n;
  ls_zones : forall i, 0 <= i < n -> z_start (zone_at m (Z.to_nat i)) = i * c /\ z_capacity (zone_at m (Z.to_nat i)) = c;
  ls_group_count : length (groups m) = Z.to_nat k;
  ls_groups : forall i, 0 <= i < k -> g_zone_index (group_at m i) = Z.to_nat i;
  ls_gc : gc_list m = [];
  ls_sequence : sequence m = 0
}.

Lemma listing_blank d : info d = geometry n c -> blen (file d) = n * c -> listing 0 (blank_manager d).
Proof using Hg.
  intros Ei Ef. split; try done; cbn; try (by rewrite Ei).
  - unfold init_zones. rewrite length_fmap, length_seq, Ei. done.
  - intros i Hi. change (zone_at _ _) with (zone_at (blank_manager d) (Z.to_nat i)). by rewrite init_zone_at.
  - lia.
Qed.

Lemma listing_shape m : listing n m -> shape n c m.
Proof. intros [H1 H2 H3 H4 H5 H6 H7 H8 H9 H10]. split; done || lia. Qed.

Lemma group_at_snoc m g i : 0 <= i ->
  group_at (upd_groups (groups m ++ [g]) m) i =
    if decide (i = Z.of_nat (length (groups m))) then g else group_at m i.
Proof.
  intros Hi. unfold group_at. cbn. destruct (decide _) as [->|Hne].
  - rewrite Nat2Z.id, lookup_app_r, Nat.sub_diag by lia. done.
  - destruct (decide (Z.to_nat i < length (groups m))%nat); [by rewrite lookup_app_l|].
    rewrite !lookup_ge_None_2; [done|lia|rewrite length_app; cbn; lia].
Qed.

Lemma listing_push k m g : listing k m -> 0 <= k -> g_zone_index g = Z.to_nat k -> listing (k + 1) (upd_groups (groups m ++ [g]) m).
Proof.
  intros [H1 H2 H3 H4 H5 H6 H7 H8 H9 H10] Hk Eg. split; try done.
  - cbn. rewrite length_app, H7. cbn. lia.
  - intros i Hi. rewrite group_at_snoc by lia. rewrite H7. case_decide; [subst; rewrite Eg; f_equal; lia|apply H8; lia].
Qed.

(** The id a group is given is its number. *)
Lemma group_id_small k : 0 <= k < n -> k `mod` 2 ^ 16 = k.
Proof using Hg. destruct Hg as (? & ? & ?). intros. apply Z.mod_small. lia. Qed.

(** ** A clean start *)

Lemma fresh_loop_ok fuel k m :
  listing k m -> 0 <= k -> k + Z.of_nat fuel = n -> free_list m = seqZ 0 k -> recovery_list m = [] ->
  (forall i, 0 <= i < k -> zone_bytes c m i = zeros c) ->
  exists m', fresh_loop fuel (Z.to_nat k) m = (Ok tt, m') /\ listing n m' /\ free_list m' = seqZ 0 n /\ recovery_list m' = [] /\
    (forall i, 0 <= i < n -> zone_bytes c m' i = zeros c).
Proof using Hg.
  pose proof Hg as (? & ? & ?). revert k m. induction fuel as [|fuel IH]; intros k m L Hk Hf Ef Er Hz.
  - assert (k = n) as -> by lia. exists m. by split_and!.
  - cbn [fresh_loop]. rewrite Z2Nat.id by lia. rewrite group_id_small by lia. cbn zeta.
    set (m1 := upd_groups _ m). assert (listing (k + 1) m1) as L1 by by apply listing_push.
    set (m2 := alter_zone _ _ m1). assert (0 <= k * c /\ k * c + c <= n * c) as [Hz1 Hz2] by (apply (zone_end n c Hg); lia).
    assert (z_start (zone_at m2 (Z.to_nat k)) = k * c) as ->.
    { unfold m2. rewrite zone_at_alter by (rewrite (ls_zone_count _ _ L1); lia). rewrite decide_True by done.
      cbn. by apply (ls_zones _ _ L1 k); lia. }
    change (device m2) with (device m). unfold device_reset_zone, device_write. rewrite (ls_info _ _ L). cbn [zone_capacity device_capacity geometry].
    rewrite blen_zeros, sat_add_exact by (unfold u64_max; lia). rewrite (proj2 (Z.ltb_ge _ _)) by lia. rewrite <- (ls_info _ _ L).
    set (m3 := upd_lists _ _ _ _). replace (Datatypes.S (Z.to_nat k)) with (Z.to_nat (k + 1)) by lia.
    assert (forall i, zone_bytes c m3 i = window (splice (file (device m)) (k * c) (zeros c)) (i * c) c) as Hzb by done.
    apply IH; try done; try lia.
    + destruct L1 as [H1' H2 H3 H4 H5 H6 H7 H8 H9 H10]. split; try done.
      * cbn -[blen]. rewrite blen_splice; rewrite ?blen_zeros, ?(ls_file _ _ L); lia.
      * change (length (zones m2) = Z.to_nat n). unfold m2. by rewrite length_alter_zone.
      * intros i Hi. change (zone_at m3) with (zone_at m2). unfold m2. rewrite zone_at_alter by lia. case_decide; [|by apply H6].
        cbn. by apply H6.
    + cbn. rewrite Ef. by rewrite seqZ_snoc by lia.
    + intros i Hi. rewrite Hzb. destruct (decide (i = k)) as [->|Hne].
      * pose proof (window_same (file (device m)) (k * c) (zeros c)) as X. rewrite blen_zeros, (ls_file _ _ L) in X by lia. apply X; lia.
      * rewrite (zone_apart n c Hg _ i k); try done; try lia; [apply Hz; lia|apply L|rewrite blen_zeros; lia].
Qed.

Lemma fresh_closed m : listing 0 m -> free_list m = [] -> recovery_list m = [] ->
  exists m', fresh_loop (Z.to_nat n) 0 m = (Ok tt, m') /\ closed n c m' ∅ /\ free_list m' = seqZ 0 n /\ recovery_list m' = [] /\ sequence m' = 0 /\ gc_list m' = [].
Proof using Hg.
  intros L Ef Er. pose proof Hg as (? & ? & ?).
  destruct (fresh_loop_ok (Z.to_nat n) 0 m L) as (m' & E & L' & Ef' & Er' & Hz); try done; try lia.
  exists m'. split; [exact E|]. split; [|by split_and!; try apply L'].
  split.
  - by apply listing_shape.
  - rewrite Ef', Er', (ls_gc _ _ L'). by rewrite !app_nil_r.
  - intros i [? E0]. by rewrite lookup_empty in E0.
  - intros i Hi. rewrite lookup_empty. unfold store_at. rewrite Hz by done. apply unfit_zeros; [|lia]. apply (zone_end n c Hg). lia.
  - intros i _. apply lookup_empty.
  - rewrite Er'. intros i Hi. by apply elem_of_nil in Hi.
Qed.

(** ** What a reopen finds *)

(** The zones hold these logs, and nothing else that looks like one. *)
Definition holds (v : bytes) (logs : gmap Z bytes) : Prop :=
  forall i, 0 <= i < n ->
    match logs !! i with
    | Some log => sealed_zone (i * c) (window v (i * c) c) log
    | None => fits (i * c) c (foot (window v (i * c) c)) = false
    end.

Lemma zone_log_ok k m logs i : listing k m -> holds (file (device m)) logs -> 0 <= i < n ->
  zone_log m (i * c) = Ok (if decide (is_Some (logs !! i)) then Some (foot (zone_bytes c m i)) else None).
Proof using Hg.
  intros L Hh Hi. pose proof Hg as (? & ? & ?). destruct (zone_end n c Hg i Hi) as [Hz1 Hz2]. pose proof (Hh i Hi) as St.
  fold (zone_bytes c m i) in St. assert (blen (zone_bytes c m i) = c) as Lz by (apply (zone_length n c Hg); [apply L|done]).
  unfold zone_log. cbn zeta. rewrite (ls_header _ _ L), (ls_footer _ _ L), (ls_info _ _ L). unfold device_read.
  rewrite (ls_info _ _ L). cbn [device_capacity zone_capacity page_size geometry].
  rewrite !sat_add_exact by (unfold u64_max; lia). rewrite !(proj2 (Z.ltb_ge _ _)) by lia. cbn [result_bind].
  assert (forall a o, 0 <= a -> 0 <= o -> o + 8 <= 4096 -> a + 4096 <= c ->
    u64_field (window (file (device m)) (i * c + a) 4096) o = field (zone_bytes c m i) (a + o)) as Hf.
  { intros a o ? ? ? ?. unfold u64_field, field, zone_bytes. rewrite !window_window by lia. f_equal. f_equal. lia. }
  pose proof (Hf 0 0) as F0. pose proof (Hf 0 8) as F1. rewrite Z.add_0_r in F0, F1. rewrite F0, F1 by lia.
  pose proof (Hf (c - 4096) 0) as F2. pose proof (Hf (c - 4096) 8) as F3.
  replace (i * c + (c - 4096)) with (i * c + c - 4096) in F2, F3 by lia. rewrite F2, F3 by lia. clear Hf F0 F1 F2 F3.
  rewrite !Z.add_0_r. change (0 + 8) with 8. unfold ZONE_PAGE_SIZE.
  assert (foot (zone_bytes c m i) = (field (zone_bytes c m i) (c - 4096), field (zone_bytes c m i) (c - 4096 + 8))) as Ef by (unfold foot; by rewrite Lz).
  destruct (logs !! i) as [log|] eqn:El; cbn match in St.
  - rewrite decide_True by eauto. destruct (sz_header _ _ _ St) as [Hs0 Hm]. rewrite (proj2 (Z.eqb_neq _ _) Hs0), Hm, Z.eqb_refl. cbn [negb orb].
    pose proof (sealed_fits _ _ _ Hz1 ltac:(rewrite Lz; lia) St) as X. rewrite Lz, Ef in X. unfold fits in X. cbn [fst snd] in X.
    by rewrite X, Ef.
  - rewrite decide_False by (intros [? ?]; congruence). rewrite Ef in St. unfold fits in St. cbn [fst snd] in St. rewrite St.
    by case_if.
Qed.

(** The groups with a log, and those without, in order. *)
Definition logged (logs : gmap Z bytes) (k : Z) : list Z := filter (fun i => is_Some (logs !! i)) (seqZ 0 k).
Definition unlogged (logs : gmap Z bytes) (k : Z) : list Z := filter (fun i => ~ is_Some (logs !! i)) (seqZ 0 k).

Lemma pick_loop_ok logs fuel k m :
  listing k m -> 0 <= k -> k + Z.of_nat fuel = n -> holds (file (device m)) logs ->
  free_list m = unlogged logs k -> recovery_list m = logged logs k ->
  (forall i log, 0 <= i < k -> logs !! i = Some log ->
     g_meta_offset (group_at m i) = (foot (zone_bytes c m i)).1 /\ g_meta_size (group_at m i) = blen log) ->
  exists m', pick_loop fuel (Z.to_nat k) m = (Ok tt, m') /\ listing n m' /\ device m' = device m /\
    free_list m' = unlogged logs n /\ recovery_list m' = logged logs n /\
    (forall i log, 0 <= i < n -> logs !! i = Some log ->
       g_meta_offset (group_at m' i) = (foot (zone_bytes c m' i)).1 /\ g_meta_size (group_at m' i) = blen log).
Proof using Hg.
  revert k m. induction fuel as [|fuel IH]; intros k m L Hk Hf Hh Ef Er Hm.
  - assert (k = n) as -> by lia. exists m. by split_and!.
  - cbn [pick_loop]. rewrite Z2Nat.id by lia. rewrite group_id_small by lia. cbn zeta.
    destruct (ls_zones _ _ L k ltac:(lia)) as [-> _]. rewrite (zone_log_ok k m logs k L Hh) by lia.
    pose proof (Hh k ltac:(lia)) as St. fold (zone_bytes c m k) in St.
    replace (Datatypes.S (Z.to_nat k)) with (Z.to_nat (k + 1)) by lia.
    assert (forall g m', g_zone_index g = Z.to_nat k -> m' = upd_lists (free_list m') (gc_list m') (recovery_list m') (upd_groups (groups m ++ [g]) m) ->
      gc_list m' = [] -> listing (k + 1) m') as Hpush.
    { intros g m' Eg -> Egc. pose proof (listing_push k m g L Hk Eg) as [? ? ? ? ? ? ? ? ? ?]. by split. }
    destruct (logs !! k) as [log|] eqn:Ek; cbn match in St.
    + rewrite decide_True by eauto. destruct (foot (zone_bytes c m k)) as [off size] eqn:Eft.
      set (g := with_meta off size _). set (m' := upd_lists _ _ _ _).
      destruct (IH (k + 1) m') as (m2 & E & L2 & Ed & H1 & H2 & H3); try done; try lia; [by apply (Hpush g), L| | | |by exists m2].
      * cbn. rewrite Ef. unfold unlogged. rewrite seqZ_snoc, filter_app by lia. rewrite filter_cons_False by (rewrite Ek; eauto). by rewrite app_nil_r.
      * cbn. rewrite Er. unfold logged. rewrite seqZ_snoc, filter_app by lia. by rewrite filter_cons_True by (rewrite Ek; eauto).
      * intros i log' Hi El. change (group_at m' i) with (group_at (upd_groups (groups m ++ [g]) m) i).
        change (zone_bytes c m' i) with (zone_bytes c m i). rewrite group_at_snoc, (ls_group_count _ _ L), Z2Nat.id by lia.
        case_decide as Hik; [|apply Hm; [lia|done]]. subst i. rewrite Eft. rewrite Ek in El. injection El as <-. cbn.
        split; [done|]. pose proof (sz_foot _ _ _ St) as X. by rewrite Eft in X.
    + rewrite decide_False by (intros [? ?]; congruence). set (g := new_group _ _ _). set (m' := upd_lists _ _ _ _).
      destruct (IH (k + 1) m') as (m2 & E & L2 & Ed & H1 & H2 & H3); try done; try lia; [by apply (Hpush g), L| | | |by exists m2].
      * cbn. rewrite Ef. unfold unlogged. rewrite seqZ_snoc, filter_app by lia.
        by rewrite filter_cons_True by (rewrite Ek; intros [? ?]; congruence).
      * cbn. rewrite Er. unfold logged. rewrite seqZ_snoc, filter_app by lia.
        rewrite filter_cons_False by (rewrite Ek; intros [? ?]; congruence). by rewrite app_nil_r.
      * intros i log' Hi El. change (group_at m' i) with (group_at (upd_groups (groups m ++ [g]) m) i).
        change (zone_bytes c m' i) with (zone_bytes c m i). rewrite group_at_snoc, (ls_group_count _ _ L), Z2Nat.id by lia.
        case_decide as Hik; [|apply Hm; [lia|done]]. subst i. congruence.
Qed.

(** ** [ZoneManager::new] *)

Lemma new_fresh d : info d = geometry n c -> blen (file d) = n * c ->
  exists m, new_manager d false = (Ok tt, m) /\ zinv n c m ∅ /\ recovery_list m = [] /\ sequence m = 1.
Proof using Hg.
  intros Ei Ef. pose proof Hg as (? & ? & ?). unfold new_manager.
  change (groups_in_device _) with (groups_in_device (info d)). rewrite Ei. cbn [groups_in_device geometry].
  destruct (fresh_closed (upd_lists [] (gc_list (blank_manager d)) [] (upd_groups [] (blank_manager d)))) as (m1 & -> & Cl & El & Er & Es & _).
  { by apply (listing_blank d). } { done. } { done. }
  destruct (free_list m1) as [|id free] eqn:Efree.
  { symmetry in El. apply (f_equal length) in El. rewrite length_seqZ in El. cbn in El. lia. }
  destruct (open_next_ok n c Hg m1 ∅ id free Cl Efree) as (m & -> & I & _ & _ & Hr & _ & _ & Hs & _); [lia|].
  exists m. split_and!; [done..|congruence|lia].
Qed.

Lemma filter_split_perm (P : Z -> Prop) `{!forall x, Decision (P x)} (l : list Z) :
  filter (fun x => ~ P x) l ++ filter P l ≡ₚ l.
Proof.
  induction l as [|x l IH]; [done|]. destruct (decide (P x)).
  - rewrite filter_cons_False, (filter_cons_True P) by tauto. rewrite <- Permutation_middle. by rewrite IH.
  - rewrite filter_cons_True, (filter_cons_False P) by tauto. cbn. by rewrite IH.
Qed.

(** The groups listed, with the logs their zones hold. *)
Lemma listed_closed m logs : listing n m -> holds (file (device m)) logs -> (forall i, is_Some (logs !! i) -> 0 <= i < n) ->
  free_list m = unlogged logs n -> recovery_list m = logged logs n ->
  (forall i log, 0 <= i < n -> logs !! i = Some log ->
     g_meta_offset (group_at m i) = (foot (zone_bytes c m i)).1 /\ g_meta_size (group_at m i) = blen log) ->
  closed n c m logs.
Proof using Hg.
  intros L Hh Hdom Ef Er Hm. split; [by apply listing_shape| |done| | |].
  - rewrite Ef, Er, (ls_gc _ _ L). apply (filter_split_perm (fun i => is_Some (logs !! i))).
  - intros i Hi. pose proof (Hh i Hi) as St. unfold store_at, zone_bytes. specialize (Hm i).
    destruct (logs !! i) as [log|]; [|done]. split; [done|]. by apply Hm.
  - rewrite Ef. intros i [Hi _]%list_elem_of_filter. by apply eq_None_not_Some.
  - rewrite Er. by intros i [Hi _]%list_elem_of_filter.
Qed.

(** The group given up when none is free: its zone is zeroed. *)
Lemma give_up_closed m logs id rest : closed n c m logs -> gc_list m = [] -> free_list m = [] -> recovery_list m = id :: rest ->
  exists d, device_reset_zone (z_start (zone_at m (Z.to_nat id))) (device m) = Ok d /\ let m' := upd_lists [id] (gc_list m) rest (alter_zone reset_zone_state (Z.to_nat id) (upd_device d (upd_lists [] (gc_list m) rest m))) in
    closed n c m' (delete id logs) /\ (forall i, 0 <= i < n -> i <> id -> zone_bytes c m' i = zone_bytes c m i).
Proof using Hg.
  intros [Sh P D St F R] Egc Ef Er. pose proof Hg as (? & ? & ?). rewrite Egc, Ef, Er in P. cbn [app] in P.
  assert (0 <= id < n) as Hid by (assert (id ∈ seqZ 0 n) as X%elem_of_seqZ by (rewrite <- P; by left); lia).
  destruct (zone_end n c Hg id Hid) as [Hz1 Hz2]. destruct (sh_zones _ _ _ Sh id Hid) as [-> _].
  unfold device_reset_zone, device_write. rewrite (sh_info _ _ _ Sh). cbn [zone_capacity device_capacity geometry].
  rewrite blen_zeros, sat_add_exact by (unfold u64_max; lia). rewrite (proj2 (Z.ltb_ge _ _)) by lia. rewrite <- (sh_info _ _ _ Sh).
  eexists. split; [done|]. cbv zeta. match goal with |- closed _ _ ?x _ /\ _ => set (m' := x) end.
  assert (forall i, zone_bytes c m' i = window (splice (file (device m)) (id * c) (zeros c)) (i * c) c) as Hzb by done.
  assert (forall i, 0 <= i < n -> i <> id -> zone_bytes c m' i = zone_bytes c m i) as Hother.
  { intros i Hi Hne. rewrite Hzb. apply (zone_apart n c Hg _ i id); try done; try lia; [apply Sh|rewrite blen_zeros; lia]. }
  split; [|done]. set (m2 := upd_device _ _) in m'. assert (shape n c m2) as S2.
  { eapply (shape_same n c); [apply (shape_write n c m (id * c) (zeros c) Sh); [lia|rewrite blen_zeros; lia]|done..|apply Sh]. }
  split.
  - eapply (shape_same n c (alter_zone reset_zone_state (Z.to_nat id) m2)); [by apply shape_alter_zone|done..|apply S2].
  - unfold m'. cbn. rewrite Egc. cbn. exact P.
  - intros i [_ Hi]%lookup_delete_is_Some. by apply D.
  - intros i Hi. destruct (decide (i = id)) as [->|Hne].
    + rewrite lookup_delete_eq. unfold store_at. rewrite Hzb.
      pose proof (window_same (file (device m)) (id * c) (zeros c)) as X. rewrite blen_zeros, (sh_file _ _ _ Sh) in X by lia.
      rewrite X by lia. apply unfit_zeros; lia.
    + rewrite lookup_delete_ne by done. eapply (store_same c m); [by apply Hother|done..|by apply St].
  - cbn. intros i ->%list_elem_of_singleton. apply lookup_delete_eq.
  - cbn. intros i Hi. rewrite lookup_delete_ne; [apply R; rewrite Er; by right|]. intros <-.
    assert (NoDup (id :: rest)) as [X _]%NoDup_cons by (rewrite P; apply NoDup_seqZ). done.
Qed.

(** What a reopen keeps: every log, unless all groups hold one; then the first
    group is given up so that there is one to write into. *)
Definition kept_logs (logs : gmap Z bytes) (k : Z) : gmap Z bytes := if bool_decide (unlogged logs k = []) then delete 0 logs else logs.

Lemma filter_kept_all (P : Z -> Prop) `{!forall x, Decision (P x)} (l : list Z) : (forall x, x ∈ l -> P x) -> filter P l = l.
Proof. intros Hl. induction l as [|x l IH]; [done|]. rewrite filter_cons_True by (apply Hl; by left). f_equal. apply IH. intros y Hy. apply Hl. by right. Qed.
Lemma kept_sub logs k i log : kept_logs logs k !! i = Some log -> logs !! i = Some log.
Proof. unfold kept_logs. case_bool_decide; [|done]. by intros [_ ?]%lookup_delete_Some. Qed.
Lemma all_logged logs : unlogged logs n = [] -> logged logs n = 0 :: seqZ 1 (n - 1).
Proof using Hg.
  intros E. pose proof Hg as (? & ? & ?).
  assert (logged logs n = seqZ 0 n) as ->; [|rewrite (seqZ_cons 0 n) by lia; do 2 f_equal; lia].
  unfold logged. apply filter_kept_all. intros i Hi. apply dec_stable. intros Hn. assert (i ∈ unlogged logs n) as X by (by apply list_elem_of_filter).
  rewrite E in X. by apply elem_of_nil in X.
Qed.

Lemma new_reopened d logs : info d = geometry n c -> blen (file d) = n * c -> holds (file d) logs ->
  (forall i, is_Some (logs !! i) -> 0 <= i < n) ->
  let kept := kept_logs logs n in
  exists m, new_manager d true = (Ok tt, m) /\ zinv n c m kept /\ recovery_list m = logged kept n /\ gc_list m = [] /\
    sequence m = 1 /\ (forall i, is_Some (kept !! i) -> zone_bytes c m i = window (file d) (i * c) c).
Proof using Hg.
  intros Ei Ef Hh Hdom kept. pose proof Hg as (? & ? & ?). unfold new_manager, pick_recoverable_groups.
  set (b := upd_lists [] (gc_list (blank_manager d)) [] (upd_groups [] (blank_manager d))).
  change (groups_in_device (info (device b))) with (groups_in_device (info d)). rewrite Ei. cbn [groups_in_device geometry].
  destruct (pick_loop_ok logs (Z.to_nat n) 0 b) as (m1 & E & L1 & Ed & Hfree & Hrec & Hm); try done; try lia; [by apply (listing_blank d)|].
  change (Z.to_nat 0) with 0%nat in E. rewrite E. change (device b) with d in Ed.
  assert (closed n c m1 logs) as Cl by (apply listed_closed; try done; by rewrite Ed).
  rewrite Hrec, Hfree. unfold kept, kept_logs in *. destruct (logged logs n) as [|r rs] eqn:Elog.
  - (* nothing to recover: a clean start *)
    assert (logs = ∅) as ->.
    { apply map_eq. intros i. rewrite lookup_empty. destruct (logs !! i) as [x|] eqn:Ex; [|done].
      assert (i ∈ logged logs n) as Y; [|rewrite Elog in Y; by apply elem_of_nil in Y].
      apply list_elem_of_filter. split; [by rewrite Ex; eauto|]. apply elem_of_seqZ. specialize (Hdom i). rewrite Ex in Hdom. specialize (Hdom ltac:(eauto)). lia. }
    rewrite (ls_info _ _ L1). cbn [groups_in_device geometry].
    rewrite bool_decide_eq_false_2 by (intros X; rewrite (all_logged ∅ X) in Elog; discriminate).
    destruct (fresh_closed (upd_lists [] (gc_list m1) [] (upd_groups [] m1))) as (m2 & -> & Cl2 & El & Er & Es & Egc); [|done|done|].
    { destruct L1. by split; cbn; lia || done. }
    destruct (free_list m2) as [|id free] eqn:Efree.
    { symmetry in El. apply (f_equal length) in El. rewrite length_seqZ in El. cbn in El. lia. }
    destruct (open_next_ok n c Hg m2 ∅ id free Cl2 Efree) as (m & -> & I & _ & Hgc & Hr & _ & _ & Hs & _); [lia|].
    exists m. split_and!; [done..|by rewrite Hr, Er, Elog|congruence|lia|]. intros i [? Hi]. by rewrite lookup_empty in Hi.
  - destruct (unlogged logs n) as [|u us] eqn:Eun.
    + (* every group holds a log *)
      rewrite (bool_decide_eq_true_2 ([] = [])) by done.
      assert (r = 0 /\ rs = seqZ 1 (n - 1)) as [-> ->] by (rewrite (all_logged logs Eun) in Elog; by injection Elog as <- <-).
      destruct (give_up_closed m1 logs 0 (seqZ 1 (n - 1)) Cl (ls_gc _ _ L1) Hfree Hrec) as (d' & Er & Cl' & Ho).
      change (group_at (upd_lists _ _ _ m1) 0) with (group_at m1 0). rewrite (sh_groups _ _ _ (cl_shape _ _ _ _ Cl) 0) by lia.
      change (zone_at (upd_lists _ _ _ m1)) with (zone_at m1). change (device (upd_lists _ _ _ m1)) with (device m1). rewrite Er.
      cbn [gc_list recovery_list free_list upd_lists alter_zone upd_device upd_zones] in *.
      match goal with |- context [open_next_group ?x] => set (m2 := x) in * end. fold m2 in Cl', Ho.
      destruct (open_next_ok n c Hg m2 (delete 0 logs) 0 [] Cl') as (m & -> & I & _ & Hgc & Hr & _ & _ & Hs & Hfr); [done|unfold m2; cbn; rewrite (ls_sequence _ _ L1); lia|].
      exists m. split_and!; [done..| |by rewrite Hgc; apply L1|rewrite Hs; unfold m2; cbn; by rewrite (ls_sequence _ _ L1)|].
      * rewrite Hr. change (recovery_list m2) with (seqZ 1 (n - 1)). unfold logged. rewrite (seqZ_cons 0 n) by lia. rewrite filter_cons_False by (rewrite lookup_delete_eq; by intros [? ?]).
        replace (Z.succ 0) with 1 by lia. replace (Z.pred n) with (n - 1) by lia. symmetry. apply filter_kept_all. intros i Hi.
        apply elem_of_seqZ in Hi as Hi'. rewrite lookup_delete_ne by lia. assert (i ∈ logged logs n) as [? _]%list_elem_of_filter by (rewrite Elog; by right). done.
      * intros i [x [Hne Hx]%lookup_delete_Some]. assert (0 <= i < n) by (apply Hdom; by eexists). rewrite Hfr, Ho by done. unfold zone_bytes. by rewrite Ed.
    + rewrite bool_decide_eq_false_2 by done. rewrite Hfree.
      destruct (open_next_ok n c Hg m1 logs u us Cl Hfree) as (m & -> & I & _ & Hgc & Hr & _ & _ & Hs & Hfr); [rewrite (ls_sequence _ _ L1); lia|].
      exists m. split_and!; [done..|congruence|by rewrite Hgc, (ls_gc _ _ L1)|rewrite Hs, (ls_sequence _ _ L1); lia|].
      intros i Hi. rewrite Hfr; [unfold zone_bytes; by rewrite Ed|by apply Hdom|].
      intros ->. assert (u ∈ unlogged logs n) as X by (rewrite Eun; by left). by apply list_elem_of_filter in X as [X _].
Qed.
(** ** [recover] *)

Lemma zinv_holds m logs : zinv n c m logs -> holds (file (device m)) logs.
Proof. intros I i Hi. pose proof (zi_store _ _ _ _ I i Hi) as St. by destruct (logs !! i) as [log|]; [apply St|]. Qed.

(** The log of a group, read where the group says. *)
Lemma read_log m logs i log : zinv n c m logs -> logs !! i = Some log ->
  device_read (g_meta_offset (group_at m i)) (g_meta_size (group_at m i)) (device m) = Ok log.
Proof using Hg.
  intros I El. pose proof Hg as (? & ? & ?). assert (0 <= i < n) as Hi by (apply (zi_dom _ _ _ _ I); eauto).
  destruct (zone_end n c Hg i Hi) as [Hz1 Hz2]. pose proof (zi_store _ _ _ _ I i Hi) as St. rewrite El in St. destruct St as (St & -> & ->).
  pose proof (zone_bytes_length n c Hg m i (zi_shape _ _ _ _ I) Hi) as Lz. destruct St as [_ _ H3 H4 H5 H6]. rewrite Lz in H4.
  unfold device_read. rewrite (sh_info _ _ _ (zi_shape _ _ _ _ I)). cbn [device_capacity geometry].
  rewrite sat_add_exact by (unfold u64_max; lia). rewrite (proj2 (Z.ltb_ge _ _)) by lia. f_equal. rewrite <- H6 at 2.
  unfold zone_bytes. rewrite window_window by (fold (zone_bytes c m i); lia). fold (zone_bytes c m i). f_equal. lia.
Qed.

Lemma load_log m logs i log : zinv n c m logs -> logs !! i = Some log -> load_meta_data i m = Ok log.
Proof using Hg.
  intros I El. assert (0 <= i < n) as Hi by (apply (zi_dom _ _ _ _ I); eauto).
  pose proof (zi_store _ _ _ _ I i Hi) as St. rewrite El in St. destruct St as (Sz & _ & Es). pose proof (sz_pos _ _ _ Sz).
  pose proof (read_log m logs i log I El) as X. unfold load_meta_data, group_at in *.
  destruct (groups m !! Z.to_nat i) as [g|] eqn:Eg; cbn [default] in *.
  - change (id g) with g in *. by rewrite (proj2 (Z.eqb_neq _ _)) by lia.
  - cbn in Es. lia.
Qed.

Lemma recover_step m logs id rec v : zinv n c m logs -> recovery_list m = id :: rec ->
  let m1 := alter_group (set_garbage_bytes v) id (upd_lists (free_list m) (gc_list m) rec m) in
  zinv n c (upd_lists (free_list m1) (push_new id (gc_list m1)) (recovery_list m1) m1) logs /\ push_new id (gc_list m) = gc_list m ++ [id].
Proof using Hg.
  intros I Er m1. pose proof (part_nodup n c m logs I) as Hnd. apply NoDup_cons in Hnd as [_ Hnd].
  apply NoDup_app in Hnd as (_ & _ & Hnd). rewrite Er in Hnd.
  assert (push_new id (gc_list m) = gc_list m ++ [id]) as Ep.
  { unfold push_new. rewrite bool_decide_eq_false_2; [done|]. intros Hin. apply NoDup_app in Hnd as (_ & Hd & _). apply (Hd id Hin). by left. }
  split; [|done]. change (gc_list m1) with (gc_list m). rewrite Ep. pose proof (zi_shape _ _ _ _ I) as Sh.
  assert (0 <= id < n) as Hid by (apply (part_range n c m logs I); rewrite Er; set_solver).
  assert (shape n c m1) as S1 by (apply shape_alter_group; [done| |done]; eapply shape_same; [exact Sh|done..|apply Sh]).
  assert (forall i, 0 <= i -> group_at m1 i = group_at m i \/ group_at m1 i = set_garbage_bytes v (group_at m i)) as Hgr.
  { intros i Hi. unfold m1. rewrite group_at_alter; [|done|].
    - change (group_at (upd_lists _ _ _ m) i) with (group_at m i). case_decide; eauto.
    - cbn. rewrite (sh_group_count _ _ _ Sh). lia. }
  split; [eapply shape_same; [exact S1|done..|apply S1]| |apply I| |apply I| |apply (zi_current _ _ _ _ I)].
  - cbn. rewrite <- (zi_part _ _ _ _ I), Er. solve_Permutation.
  - intros i Hi. eapply (store_same c m); [done|..|by apply I].
    + change (g_meta_offset (group_at m1 i) = g_meta_offset (group_at m i)). by destruct (Hgr i ltac:(lia)) as [->| ->].
    + change (g_meta_size (group_at m1 i) = g_meta_size (group_at m i)). by destruct (Hgr i ltac:(lia)) as [->| ->].
  - cbn. intros i Hi. apply I. rewrite Er. by right.
Qed.

Section recover.
Context {S : Type} (replay : Z -> bytes -> S -> Z * S).

(** The closure run over the logs of a list of groups. *)
Definition replay_all (logs : gmap Z bytes) (l : list Z) (st : S) : S :=
  foldl (fun st i => snd (replay i (default [] (logs !! i)) st)) st l.

Lemma replay_kept logs k (st : S) : replay_all (kept_logs logs k) (logged (kept_logs logs k) k) st = replay_all logs (logged (kept_logs logs k) k) st.
Proof.
  unfold replay_all. assert (forall i, i ∈ logged (kept_logs logs k) k -> kept_logs logs k !! i = logs !! i) as Hl.
  { intros i [[log Hi] _]%list_elem_of_filter. by rewrite Hi, (kept_sub logs k i log Hi). }
  revert st Hl. generalize (logged (kept_logs logs k) k). intros l. induction l as [|i l IH]; intros st Hl; [done|]. cbn [foldl].
  rewrite (Hl i) by (by left). apply IH. intros j Hj. apply Hl. by right.
Qed.

Lemma recover_loop_ok l : forall m logs count st, zinv n c m logs -> recovery_list m = l ->
  exists m', recover_loop (length l) replay count m st = (count + Z.of_nat (length l), m', replay_all logs l st) /\
    zinv n c m' logs /\ recovery_list m' = [] /\ gc_list m' = gc_list m ++ l /\ free_list m' = free_list m /\
    device m' = device m /\ current_group m' = current_group m.
Proof using Hg.
  induction l as [|id l IH]; intros m logs count st I Er.
  - exists m. cbn. rewrite Er. split_and!; try done; [f_equal; f_equal; lia|by rewrite app_nil_r].
  - cbn [recover_loop length]. rewrite Er. cbn zeta.
    change (group_at (upd_lists _ _ l m) id) with (group_at m id). change (device (upd_lists _ _ l m)) with (device m).
    destruct (zi_recovery _ _ _ _ I id) as [log El]; [rewrite Er; by left|].
    rewrite (read_log m logs id log I El). destruct (replay id log st) as [v st1] eqn:Erp.
    destruct (recover_step m logs id l (zone_size (info (device m)) -! v) I Er) as [I1 Ep].
    set (m1 := upd_lists _ _ _ (alter_group _ id _)) in I1 |- *.
    destruct (IH m1 logs (count + 1) st1 I1 eq_refl) as (m' & -> & I' & H1 & H2 & H3 & H4 & H5).
    exists m'. split; [|split_and!; [done..| |done|done|done]].
    + unfold replay_all. cbn. rewrite El. cbn. rewrite Erp. cbn. f_equal. f_equal. lia.
    + rewrite H2. change (gc_list m1) with (push_new id (gc_list m)). rewrite Ep. by rewrite <- app_assoc.
Qed.
End recover.
End open.
