(* ===== verification/ZonesSpec.v ===== *)
(** * Zoned storage: sessions, reopening, and what goes wrong without a reservation *)

From Stdlib Require Import Strings.Byte.
From S2P Require Import Prelude BlockCodec SsdRecords Zones ZonesFacts ZonesInv ZonesOpen.

(** ** Sessions *)

(** The calls a caller makes. *)
Inductive zone_op :=
| OpReserve (data_size meta_size : Z)
| OpAppend (buf : bytes)
| OpSeal (log : bytes)
| OpFinish
| OpTrim (offset size : Z)
| OpFindGc
| OpReset (group_id : Z)
| OpReopen (live : Z -> bytes -> Z).

(** The manager, the logs its zones hold, and the bytes left of the last
    reservation of the current group, if it was granted. *)
Abbreviation session := (ZoneManager * gmap Z bytes * Z)%type.

(** One call; [None] when it is refused, and when an append asks for more than
    what is left of a granted reservation, which the interface forbids and
    [append] does not check. *)
Definition run_op (op : zone_op) (st : session) : option session :=
  let '(m, logs, room) := st in
  match op with
  | OpReserve d md =>
      if (0 <=? d) && (0 <=? md) then let '(ok, m) := ensure_available_space d md m in Some (m, logs, if ok : bool then d + md else 0) else None
  | OpAppend buf =>
      if blen buf <=? room
      then match append buf Data m with (Ok _, m) => Some (m, logs, room - blen buf) | (Err _, _) => None end else None
  | OpSeal log =>
      if blen log <=? room
      then match append log MetaLog m with (Ok _, m) => Some (m, <[current_group m := log]> logs, 0) | (Err _, _) => None end
      else None
  | OpFinish =>
      if u64_max <=? sequence m then None
      else match finish_group m with (Ok _, m) => Some (m, logs, 0) | (Err _, _) => None end
  | OpTrim offset size => if 0 <=? offset then Some ((trim_bytes offset size m).2, logs, room) else None
  | OpFindGc => Some ((find_gc_group m).2, logs, room)
  | OpReset id => match reset_group id m with (Ok _, m) => Some (m, delete id logs, room) | (Err _, _) => None end
  | OpReopen live =>
      match new_manager (device m) true with
      | (Ok _, m') =>
          Some ((recover (fun id log (_ : unit) => (live id log, tt)) m' tt).1.2, kept_logs logs (groups_in_device (info (device m))), 0)
      | (Err _, _) => None
      end
  end.

Fixpoint run_ops (ops : list zone_op) (st : session) : option session :=
  match ops with
  | [] => Some st
  | op :: ops => run_op op st ≫= run_ops ops
  end.

Section spec.
Context (n c : Z) (Hg : sizes_ok n c).

Lemma append_rejects m buf kind : page_size (info (device m)) = 4096 -> (blen buf =? 0) || negb (blen buf `mod` 4096 =? 0) = true ->
  exists e, append buf kind m = (Err e, m).
Proof. intros Ep H. unfold append. cbn zeta. rewrite Ep, H. cbn [orb]. eauto. Qed.

(** Between two calls: what is left of the reservation fits before the footer
    of the current zone. *)
Record sinv (st : session) : Prop := {
  si_zones : zinv n c st.1.1 st.1.2;
  si_room : 0 <= st.2;
  si_fits : 0 < st.2 -> ensured st.1.1 = true /\ meta_appendable st.1.1 = true /\
    z_write_pointer (zone_at st.1.1 (Z.to_nat (current_group st.1.1))) + st.2 <= current_group st.1.1 * c + c - 4096
}.

Lemma sinv_closed m logs : zinv n c m logs -> sinv (m, logs, 0).
Proof. intros I. by split. Qed.

(** The cases of an append within the reservation, both kinds at once. *)
Lemma reserved_append m logs room buf kind : sinv (m, logs, room) -> blen buf <= room ->
  (exists e m', append buf kind m = (Err e, m')) \/
  (ensured m = true /\ meta_appendable m = true /\ 0 < blen buf /\ blen buf `mod` 4096 = 0 /\
   z_write_pointer (zone_at m (Z.to_nat (current_group m))) + room <= current_group m * c + c - 4096).
Proof using Hg.
  intros [I Hr Hf] Hb. cbn [fst snd] in *. pose proof (blen_nonneg buf).
  destruct ((blen buf =? 0) || negb (blen buf `mod` 4096 =? 0)) eqn:Ebad.
  { left. destruct (append_rejects m buf kind) as [e E]; [|done|by eexists _, _]. by rewrite (sh_info _ _ _ (zi_shape _ _ _ _ I)). }
  right. zbool. destruct (Hf ltac:(lia)) as (? & ? & ?). split_and!; done || lia.
Qed.

Lemma reopen_ok m logs : zinv n c m logs ->
  let kept := kept_logs logs n in
  exists m', new_manager (device m) true = (Ok tt, m') /\ zinv n c m' kept /\ recovery_list m' = logged kept n /\ gc_list m' = [] /\
    (forall i, is_Some (kept !! i) -> zone_bytes c m' i = zone_bytes c m i).
Proof using Hg.
  intros I kept. destruct (new_reopened n c Hg (device m) logs) as (m' & E & I' & Hr & Hgc & _ & Hfr); [apply I..| | |by exists m'].
  - by apply zinv_holds.
  - apply I.
Qed.

(** ** Each call inverted *)

Lemma run_reserve m logs room d md st' : sinv (m, logs, room) -> run_op (OpReserve d md) (m, logs, room) = Some st' ->
  sinv st' /\ exists e, st'.1 = (upd_flags e (meta_appendable m) m, logs).
Proof using Hg.
  intros [I _ _]. cbn [run_op fst snd] in *. case_if; [|done]. zbool. pose proof (ensure_admits n c Hg m logs I d md) as Ha.
  assert ((ensure_available_space d md m).2 = upd_flags true (meta_appendable m) m) as Em by (unfold ensure_available_space; cbn zeta; by case_if).
  destruct (ensure_available_space d md m) as [ok m1]. cbn [fst snd] in *. subst m1. intros [= <-]. split; [|by eexists].
  split; cbn [fst snd]; [by apply zinv_flags|destruct ok; lia|]. intros Hp. destruct ok; [|done]. destruct (Ha ltac:(lia) ltac:(lia) eq_refl Hp) as [? Hw].
  split_and!; [done..|]. rewrite Z.add_assoc. exact Hw.
Qed.

Lemma run_append m logs room buf st' : sinv (m, logs, room) -> run_op (OpAppend buf) (m, logs, room) = Some st' ->
  let cur := current_group m in
  let wp := z_write_pointer (zone_at m (Z.to_nat cur)) in
  exists m', st' = (m', logs, room - blen buf) /\ sinv st' /\ 0 < blen buf /\ append buf Data m = (Ok wp, m') /\ wp + blen buf <= cur * c + c - 4096 /\
  file (device m') = splice (file (device m)) wp buf /\ gc_list m' = gc_list m /\ current_group m' = cur /\
  z_write_pointer (zone_at m' (Z.to_nat cur)) = wp + blen buf.
Proof using Hg.
  intros S. cbn [run_op]. destruct (Z.leb_spec (blen buf) room) as [Hb|]; [|done].
  destruct (reserved_append m logs room buf Data S Hb) as [(e & m2 & ->)|(He & Ha & Hp & Hm & Hw)]; [done|].
  destruct (append_data_ok n c Hg m logs buf (si_zones _ S) He Ha Hp Hm) as (m2 & E & I2 & Ef & _ & Eg & Ec & Ea & _ & Ew); [cbn; lia|].
  assert (ensured m2 = true) as He2.
  { revert E. unfold append. cbn zeta. repeat (case_if; [done|]). unfold write_then. destruct (device_write _ _ _); [|done]. intros E%(f_equal snd). cbn [snd] in E. rewrite <- E. exact He. }
  rewrite E. intros [= <-]. cbv zeta in *. exists m2. split_and!; try done; [|lia].
  split; cbn [fst snd]; [done|lia|]. intros _. rewrite Ec, Ew. split_and!; [done..|lia].
Qed.

Lemma run_seal m logs room log st' : sinv (m, logs, room) -> run_op (OpSeal log) (m, logs, room) = Some st' ->
  let cur := current_group m in
  let wp := z_write_pointer (zone_at m (Z.to_nat cur)) in
  exists m', st' = (m', <[cur := log]> logs, 0) /\ sinv st' /\ gc_list m' = gc_list m /\ current_group m' = cur /\
  z_write_pointer (zone_at m' (Z.to_nat cur)) = cur * c + c /\
  exists x, file (device m') = splice (file (device m)) wp x /\ blen x = cur * c + c - wp.
Proof using Hg.
  intros S. cbn [run_op]. destruct (Z.leb_spec (blen log) room) as [Hb|]; [|done].
  destruct (reserved_append m logs room log MetaLog S Hb) as [(e & m2 & ->)|(He & Ha & Hp & Hm & Hw)]; [done|].
  destruct (append_meta_ok n c Hg m logs log (si_zones _ S) He Ha Hp Hm) as (m2 & -> & I2 & _ & Eg & Ec & Ema & _ & x & Ef & Lx); [cbn; lia|].
  intros [= <-]. cbv zeta in *. exists m2. rewrite Ec. split_and!; try done; [|by exists x].
  pose proof (zi_current _ _ _ _ I2) as C. unfold current_ok in C. by rewrite Ema, Ec in C.
Qed.

Lemma run_finish m logs room st' : sinv (m, logs, room) -> run_op OpFinish (m, logs, room) = Some st' ->
  exists m', st' = (m', logs, 0) /\ sinv st' /\ gc_list m' = gc_list m ++ [current_group m] /\
  exists id, id ∈ free_list m /\ (forall i, 0 <= i < n -> i <> id -> zone_bytes c m' i = zone_bytes c m i).
Proof using Hg.
  intros [I _ _]. cbn [run_op fst snd] in *. case_if; [done|]. zbool. unfold u64_max in *. destruct (free_list m) as [|id free] eqn:Ef.
  - unfold finish_group, open_next_group. cbn. by rewrite Ef.
  - destruct (finish_ok n c Hg m logs id free I Ef) as (m1 & -> & I1 & _ & Eg & _ & _ & _ & _ & Hfr); [lia|]. intros [= <-].
    exists m1. split_and!; [done|by apply sinv_closed|done|]. exists id. split; [by left|done].
Qed.

Lemma run_reset m logs room id st' : sinv (m, logs, room) -> run_op (OpReset id) (m, logs, room) = Some st' ->
  exists m', st' = (m', delete id logs, room) /\ sinv st' /\ id ∈ gc_list m /\ gc_list m' = remove_first id (gc_list m) /\
  current_group m' = current_group m /\
  z_write_pointer (zone_at m' (Z.to_nat (current_group m))) = z_write_pointer (zone_at m (Z.to_nat (current_group m))) /\
  (forall i, 0 <= i < n -> i <> id -> zone_bytes c m' i = zone_bytes c m i).
Proof using Hg.
  intros [I Hr Hf]. cbn [run_op fst snd] in *. destruct (decide (id ∈ gc_list m)) as [Hin|Hout].
  - destruct (reset_ok n c Hg m logs id I Hin) as (m1 & E & I1 & _ & Eg & _ & Ec & Ea & Ew & Hfr).
    assert (ensured m1 = ensured m) as Ee.
    { revert E. unfold reset_group. case_if; [|done]. cbn zeta. destruct (device_reset_zone _ _); [|done]. by intros [= <-]. }
    rewrite E. intros [= <-]. exists m1. split_and!; try done. split; cbn [fst snd]; [done..|]. by rewrite Ec, Ea, Ee, Ew.
  - unfold reset_group. by rewrite bool_decide_eq_false_2 by done.
Qed.

Lemma run_trim m logs room off size st' : sinv (m, logs, room) -> run_op (OpTrim off size) (m, logs, room) = Some st' ->
  exists m', st' = (m', logs, room) /\ sinv st' /\ device m' = device m /\ gc_list m' = gc_list m /\ current_group m' = current_group m /\
  z_write_pointer (zone_at m' (Z.to_nat (current_group m))) = z_write_pointer (zone_at m (Z.to_nat (current_group m))).
Proof using Hg.
  intros [I Hr Hf]. cbn [run_op fst snd] in *. case_if; [|done]. zbool. destruct (trim_bytes off size m) as [r m1] eqn:E. intros [= <-].
  destruct (trim_ok n c Hg m logs off size m1 r I ltac:(done) E) as (I1 & Ed & Eg & Ec & Ew).
  assert (ensured m1 = ensured m /\ meta_appendable m1 = meta_appendable m) as [Ee Ea] by (revert E; unfold trim_bytes; cbn zeta; case_if; by intros [= _ <-]).
  exists m1. split_and!; try done. split; cbn [fst snd]; [done..|]. by rewrite Ec, Ea, Ee, Ew.
Qed.

Lemma run_find_gc m logs room st' : sinv (m, logs, room) -> run_op OpFindGc (m, logs, room) = Some st' ->
  exists m', st' = (m', logs, room) /\ sinv st' /\ device m' = device m /\ gc_list m' ≡ₚ gc_list m /\ current_group m' = current_group m /\ zones m' = zones m.
Proof.
  intros [I Hr Hf] [= <-]. cbn [fst snd] in *. destruct (find_gc_ok n c m logs I) as (I1 & Pg & _). eexists. split; [done|].
  assert (device (find_gc_group m).2 = device m /\ current_group (find_gc_group m).2 = current_group m /\ zones (find_gc_group m).2 = zones m /\
    ensured (find_gc_group m).2 = ensured m /\ meta_appendable (find_gc_group m).2 = meta_appendable m) as (Ed & Ec & Ez & Ee & Ea)
    by (unfold find_gc_group; cbn zeta; by case_if).
  split_and!; try done. split; cbn [fst snd]; [done..|]. unfold zone_at. by rewrite Ec, Ea, Ee, Ez.
Qed.

Lemma run_reopen m logs room live st' : sinv (m, logs, room) -> run_op (OpReopen live) (m, logs, room) = Some st' ->
  let kept := kept_logs logs n in
  exists m', st' = (m', kept, 0) /\ sinv st' /\ gc_list m' = logged kept n /\
  (forall i, is_Some (kept !! i) -> zone_bytes c m' i = zone_bytes c m i).
Proof using Hg.
  intros [I _ _]. cbn [run_op fst snd] in *. destruct (reopen_ok m logs I) as (m1 & -> & I1 & Hr & Hgc & Hfr). unfold recover.
  rewrite (sh_info _ _ _ (zi_shape _ _ _ _ I)). cbn [groups_in_device geometry].
  destruct (recover_loop_ok n c Hg (fun id log (_ : unit) => (live id log, tt)) (recovery_list m1) m1 (kept_logs logs n) 0 tt I1 eq_refl)
    as (m2 & -> & I2 & _ & Eg & _ & Ed & _). intros [= <-]. cbv zeta. exists m2. split_and!; [done|by apply sinv_closed|by rewrite Eg, Hgc, Hr|].
  intros i Hi. unfold zone_bytes. rewrite Ed. by apply Hfr.
Qed.

Lemma run_op_inv op st st' : sinv st -> run_op op st = Some st' -> sinv st'.
Proof using Hg.
  destruct st as [[m logs] room]. intros S Hop. destruct op as [d md|buf|log| |off size| |id|live].
  - by destruct (run_reserve _ _ _ _ _ _ S Hop).
  - by destruct (run_append _ _ _ _ _ S Hop) as (? & _ & ? & _).
  - by destruct (run_seal _ _ _ _ _ S Hop) as (? & _ & ? & _).
  - by destruct (run_finish _ _ _ _ S Hop) as (? & _ & ? & _).
  - by destruct (run_trim _ _ _ _ _ _ S Hop) as (? & _ & ? & _).
  - by destruct (run_find_gc _ _ _ _ S Hop) as (? & _ & ? & _).
  - by destruct (run_reset _ _ _ _ _ S Hop) as (? & _ & ? & _).
  - by destruct (run_reopen _ _ _ _ _ S Hop) as (? & _ & ? & _).
Qed.

Lemma run_ops_inv ops : forall st st', sinv st -> run_ops ops st = Some st' -> sinv st'.
Proof using Hg.
  induction ops as [|op ops IH]; intros st st' S; [by intros [= <-]|]. cbn [run_ops].
  destruct (run_op op st) as [st1|] eqn:E; [|done]. apply IH. by eapply run_op_inv.
Qed.
(** ** What stays on the device *)

(** The bytes of group [i] below [hi] are written and their group not free. *)
Definition held (m : ZoneManager) (i hi : Z) : Prop :=
  i ∈ gc_list m \/ (i = current_group m /\ hi <= z_write_pointer (zone_at m (Z.to_nat i))).

(** The call leaves group [i] alone: it does not reset it, and a reopen finds
    its log and keeps it. *)
Definition leaves (i : Z) (op : zone_op) (logs : gmap Z bytes) : Prop :=
  match op with OpReset id => id <> i | OpReopen _ => is_Some (kept_logs logs n !! i) | _ => True end.

Definition same_below (m m' : ZoneManager) (i hi : Z) : Prop :=
  forall o len, i * c <= o -> 0 <= len -> o + len <= hi -> window (file (device m')) o len = window (file (device m)) o len.

Lemma same_below_zone m m' i hi : 0 <= i < n -> hi <= i * c + c -> zone_bytes c m' i = zone_bytes c m i -> same_below m m' i hi.
Proof using Hg.
  intros Hi Hh E o len Ho Hl Hlen. destruct (zone_end n c Hg i Hi). pose proof (f_equal (fun zb => window zb (o - i * c) len) E) as X.
  cbn beta in X. unfold zone_bytes in X. rewrite !window_window in X by lia. by replace (i * c + (o - i * c)) with o in X by lia.
Qed.

(** A write of the current zone from its write pointer on. *)
Lemma same_below_write m m' logs i hi x : zinv n c m logs -> 0 <= i < n -> hi <= i * c + c -> held m i hi ->
  let wp := z_write_pointer (zone_at m (Z.to_nat (current_group m))) in
  current_group m * c <= wp -> wp + blen x <= current_group m * c + c ->
  file (device m') = splice (file (device m)) wp x -> same_below m m' i hi.
Proof using Hg.
  intros I Hi Hh Hheld wp Hwp Hx Ef. pose proof (current_range n c m logs I) as Hr. pose proof (zi_shape _ _ _ _ I) as Sh.
  destruct (decide (i = current_group m)) as [->|Hne].
  - destruct Hheld as [Hin|[_ Hlow]].
    { pose proof (part_nodup n c m logs I) as [X _]%NoDup_cons. set_solver. }
    intros o len Ho Hl Hlen. rewrite Ef. destruct (zone_end n c Hg _ Hr).
    apply window_apart; rewrite ?(sh_file _ _ _ Sh); fold wp in Hlow; lia.
  - apply same_below_zone; [done..|]. unfold zone_bytes. rewrite Ef.
    apply (zone_apart n c Hg _ i (current_group m)); try done; [apply Sh].
Qed.

Lemma same_below_device m m' i hi : device m' = device m -> same_below m m' i hi.
Proof. intros E o len _ _ _. by rewrite E. Qed.

Lemma current_low m logs : zinv n c m logs ->
  let wp := z_write_pointer (zone_at m (Z.to_nat (current_group m))) in
  current_group m * c <= wp <= current_group m * c + c.
Proof using Hg.
  intros I wp. pose proof (zi_current _ _ _ _ I) as C. unfold current_ok in C. fold wp in C. pose proof Hg as (? & ? & ?).
  destruct (meta_appendable m); [destruct C as (_ & _ & C & _)|]; lia.
Qed.

Lemma op_keeps_bytes op m logs room st' i hi :
  sinv (m, logs, room) -> run_op op (m, logs, room) = Some st' -> leaves i op logs ->
  0 <= i < n -> hi <= i * c + c -> held m i hi -> held st'.1.1 i hi /\ same_below m st'.1.1 i hi.
Proof using Hg.
  intros S Hop Hleave Hi Hh Hheld. pose proof (si_zones _ S) as I. cbn [fst snd] in I. pose proof (current_low m logs I) as Hlow. cbv zeta in Hlow.
  destruct op as [d md|buf|log| |off size| |id|live].
  - destruct (run_reserve _ _ _ _ _ _ S Hop) as (_ & e & ->). split; [exact Hheld|by apply same_below_device].
  - destruct (run_append _ _ _ _ _ S Hop) as (m' & -> & _ & Hp & _ & Hw & Ef & Eg & Ec & Ew). cbn [fst snd]. split.
    + destruct Hheld as [Hin|[-> Hlt]]; [left; by rewrite Eg|right; rewrite Ec, Ew; split; [done|lia]].
    + by apply (same_below_write m m' logs i hi buf); try done; lia.
  - destruct (run_seal _ _ _ _ _ S Hop) as (m' & -> & _ & Eg & Ec & Ew & x & Ef & Lx). cbn [fst snd]. split.
    + destruct Hheld as [Hin|[-> Hlt]]; [left; by rewrite Eg|right; by rewrite Ec, Ew].
    + by apply (same_below_write m m' logs i hi x); try done; lia.
  - destruct (run_finish _ _ _ _ S Hop) as (m' & -> & _ & Eg & id & Hfree & Hfr). cbn [fst snd].
    assert (i <> id) as Hne.
    { intros ->. pose proof (part_nodup n c m logs I) as [H1 Hnd]%NoDup_cons.
      destruct Hheld as [Hin|[-> _]]; [|set_solver]. apply NoDup_app in Hnd as (_ & Hd & _). apply (Hd id); set_solver. }
    split; [|apply same_below_zone; auto]. left. rewrite Eg. destruct Hheld as [Hin|[-> _]]; set_solver.
  - destruct (run_trim _ _ _ _ _ _ S Hop) as (m' & -> & _ & Ed & Eg & Ec & Ew). cbn [fst snd].
    split; [|by apply same_below_device]. destruct Hheld as [Hin|[-> Hlt]]; [left; by rewrite Eg|right; by rewrite Ec, Ew].
  - destruct (run_find_gc _ _ _ _ S Hop) as (m' & -> & _ & Ed & Pg & Ec & Ez). cbn [fst snd].
    split; [|by apply same_below_device]. destruct Hheld as [Hin|[-> Hlt]]; [left; by rewrite Pg|right]. unfold zone_at in *. by rewrite Ec, Ez.
  - destruct (run_reset _ _ _ _ _ S Hop) as (m' & -> & _ & Hin & Eg & Ec & Ew & Hfr). cbn [fst snd]. cbn in Hleave.
    split; [|apply same_below_zone; auto]. destruct Hheld as [Hi2|[-> Hlt]]; [left|right; by rewrite Ec, Ew].
    rewrite Eg. rewrite (remove_first_perm id (gc_list m) Hin) in Hi2. set_solver.
  - destruct (run_reopen _ _ _ _ _ S Hop) as (m' & -> & _ & Eg & Hfr). cbn [fst snd]. split; [|apply same_below_zone; auto].
    left. rewrite Eg. apply list_elem_of_filter. split; [done|]. apply elem_of_seqZ. lia.
Qed.

Fixpoint leaves_all (i : Z) (ops : list zone_op) (st : session) : Prop :=
  match ops with
  | [] => True
  | op :: ops => leaves i op st.1.2 /\ match run_op op st with Some st => leaves_all i ops st | None => True end
  end.

Lemma ops_keep_bytes ops : forall st st' i hi,
  sinv st -> run_ops ops st = Some st' -> leaves_all i ops st ->
  0 <= i < n -> hi <= i * c + c -> held st.1.1 i hi -> same_below st.1.1 st'.1.1 i hi.
Proof using Hg.
  induction ops as [|op ops IH]; intros [[m logs] room] st' i hi S Hop Hl Hi Hh Hheld.
  - cbn in Hop. injection Hop as <-. by intros o len _ _ _.
  - cbn [run_ops] in Hop. destruct Hl as [L1 L2]. destruct (run_op op (m, logs, room)) as [st1|] eqn:E; [|done].
    cbn in Hop. destruct (op_keeps_bytes op m logs room st1 i hi S E L1 Hi Hh Hheld) as [Hheld1 S1].
    pose proof (IH st1 st' i hi (run_op_inv op _ _ S E) Hop L2 Hi Hh Hheld1) as S2.
    intros o len Ho Hlen Hlt. rewrite S2 by done. by apply S1.
Qed.
End spec.

(** A device that opens has whole zones, and its file the size asked for. *)
Lemma open_geometry existing capacity zone_cap d :
  0 < capacity < 2 ^ 63 -> 8192 <= zone_cap -> capacity <= 2 ^ 16 * zone_cap -> open_device existing capacity zone_cap = Ok d ->
  let n := capacity `div` zone_cap in
  sizes_ok n zone_cap /\ info d = geometry n zone_cap /\ blen (file d) = n * zone_cap.
Proof.
  intros Hc Hz Hb. unfold open_device. case_if; [done|]. case_if; [done|]. intros [= <-]. cbn zeta. zbool.
  assert (capacity = capacity `div` zone_cap * zone_cap) as E by (rewrite (Z.div_mod capacity zone_cap) at 1; lia).
  set (n := capacity `div` zone_cap) in *. assert (0 < n <= 2 ^ 16) by nia.
  split; [split_and!; lia|]. cbn -[blen]. split; [unfold geometry; by rewrite <- E|]. rewrite <- E. unfold set_len, blen.
  rewrite length_app, length_take, length_replicate. lia.
Qed.

(** The side condition, decided. *)
Definition op_leavesb (n i : Z) (op : zone_op) (logs : gmap Z bytes) : bool :=
  match op with OpReset id => negb (id =? i) | OpReopen _ => bool_decide (is_Some (kept_logs logs n !! i)) | _ => true end.

Fixpoint all_ops (test : zone_op -> gmap Z bytes -> bool) (ops : list zone_op) (st : session) : bool :=
  match ops with
  | [] => true
  | op :: ops => test op st.1.2 && match run_op op st with Some st => all_ops test ops st | None => true end
  end.

Lemma all_leaves n i ops : forall st, all_ops (op_leavesb n i) ops st = true -> leaves_all n i ops st.
Proof.
  induction ops as [|op ops IH]; intros st; [done|]. cbn. intros [H1 H2]%andb_prop. split.
  - destruct op; try done; cbn in *; zbool; done.
  - destruct (run_op op st) as [st1|]; [by apply IH|done].
Qed.

(** ** The theorems *)

(** A device opened with room for a header and a footer in each zone, and no
    more zones than sixteen bits number; its first manager, on a clean start. *)
Definition opened (existing : bytes) (capacity zone_cap : Z) (d : ZoneDevice) : Prop :=
  0 < capacity < 2 ^ 63 /\ 8192 <= zone_cap /\ capacity <= 2 ^ 16 * zone_cap /\ open_device existing capacity zone_cap = Ok d.
Definition start_of (d : ZoneDevice) : session := ((new_manager d false).2, ∅, 0).

Lemma start_ok existing capacity zone_cap d : opened existing capacity zone_cap d ->
  let n := capacity `div` zone_cap in
  sizes_ok n zone_cap /\ (new_manager d false).1 = Ok tt /\ sinv n zone_cap (start_of d).
Proof.
  intros (H1 & H2 & H3 & H4) n. destruct (open_geometry existing capacity zone_cap d H1 H2 H3 H4) as (Hg & Ei & Ef). fold n in Hg, Ei, Ef.
  split; [done|]. unfold start_of. destruct (new_fresh n zone_cap Hg d Ei Ef) as (m & -> & I & _). split; [done|]. by apply sinv_closed.
Qed.

Lemma session_ok existing capacity zone_cap d ops st :
  opened existing capacity zone_cap d -> run_ops ops (start_of d) = Some st ->
  sizes_ok (capacity `div` zone_cap) zone_cap /\ sinv (capacity `div` zone_cap) zone_cap st.
Proof.
  intros Ho Hop. destruct (start_ok existing capacity zone_cap d Ho) as (Hg & _ & S).
  split; [done|]. exact (run_ops_inv _ _ Hg ops _ _ S Hop).
Qed.



(** What an append within its reservation wrote is read back, at the offset it
    answered, after any further session that does not reset its group nor
    reopens the file before the group is sealed. *)
Theorem appended_data_reads_back existing capacity zone_cap d ops1 m logs room buf offset m1 ops2 st2 :
  opened existing capacity zone_cap d -> run_ops ops1 (start_of d) = Some (m, logs, room) ->
  blen buf <= room -> append buf Data m = (Ok offset, m1) ->
  all_ops (op_leavesb (capacity `div` zone_cap) (current_group m)) ops2 (m1, logs, room - blen buf) = true ->
  run_ops ops2 (m1, logs, room - blen buf) = Some st2 ->
  read offset (blen buf) st2.1.1 = Ok buf.
Proof.
  intros Ho Hop1 Hroom Happ Hl2 Hop2. destruct (session_ok existing capacity zone_cap d ops1 _ Ho Hop1) as [Hg S].
  set (n := capacity `div` zone_cap) in *. apply all_leaves in Hl2. pose proof (si_zones _ _ _ S) as I. cbn [fst snd] in I.
  assert (run_op (OpAppend buf) (m, logs, room) = Some (m1, logs, room - blen buf)) as Hop
    by (cbn [run_op]; rewrite (proj2 (Z.leb_le _ _)) by done; by rewrite Happ).
  destruct (run_append n zone_cap Hg _ _ _ _ _ S Hop) as (m1' & E1 & S1 & Hp & Ea & Hw & Ef & Eg & Ec & Ew). injection E1 as <-.
  set (cur := current_group m) in *. set (wp := z_write_pointer (zone_at m (Z.to_nat cur))) in *.
  assert (offset = wp) as -> by congruence.
  pose proof (current_low n zone_cap Hg m logs I) as Hlow. cbv zeta in Hlow. fold cur wp in Hlow.
  pose proof (current_range n zone_cap m logs I) as Hr. fold cur in Hr. destruct (zone_end n zone_cap Hg _ Hr).
  pose proof (ops_keep_bytes n zone_cap Hg ops2 _ _ cur (wp + blen buf) S1 Hop2 Hl2 Hr ltac:(destruct Hg; lia)) as K. cbn [fst snd] in K.
  pose proof (run_ops_inv _ _ Hg ops2 _ _ S1 Hop2) as S2. pose proof (zi_shape _ _ _ _ (si_zones _ _ _ S2)) as Sh2.
  unfold read, device_read. rewrite (sh_info _ _ _ Sh2). cbn [device_capacity geometry]. pose proof Hg as (? & ? & ?).
  rewrite sat_add_exact by (unfold u64_max; lia). rewrite (proj2 (Z.ltb_ge _ _)) by lia. f_equal.
  rewrite K; [|right; split; [done|by rewrite Ew]|lia|lia|lia]. rewrite Ef. apply window_same; [lia|].
  rewrite (sh_file _ _ _ (zi_shape _ _ _ _ I)). lia.
Qed.

(** ** A device of three zones of four pages *)

Definition demo_device : ZoneDevice :=
  match open_device [] 49152 16384 with Ok d => d | Err _ => mkDevice [] (geometry 0 0) end.
Definition demo_page (b : Byte.byte) : bytes := replicate 4096 b.

(** Two groups written and sealed, the file reopened, the first reset. *)
Definition demo_ops1 : list zone_op := [OpReserve 4096 4096; OpAppend (demo_page x11); OpSeal (demo_page x12); OpFinish; OpReserve 4096 4096].
Definition demo_ops2 : list zone_op :=
  [OpTrim 4096 4096; OpSeal (demo_page x14); OpFinish; OpReopen (fun _ _ => 100); OpFindGc; OpReset 0; OpReserve 4096 0; OpAppend (demo_page x15)].
Definition demo_ops : list zone_op := demo_ops1 ++ OpAppend (demo_page x13) :: demo_ops2.

Lemma demo_opened : opened [] 49152 16384 demo_device.
Proof.
  split; [lia|]. split; [lia|]. split; [lia|]. unfold demo_device.
  assert (is_ok (open_device [] 49152 16384) = true) as H by by vm_compute. by destruct (open_device [] 49152 16384).
Qed.


(** Every group sealed. *)
Definition full_ops : list zone_op :=
  [OpReserve 0 4096; OpSeal (demo_page x31); OpFinish; OpReserve 0 4096; OpSeal (demo_page x32); OpFinish; OpReserve 0 4096; OpSeal (demo_page x33)].
Definition full_logs : gmap Z bytes := {[0 := demo_page x31; 1 := demo_page x32; 2 := demo_page x33]}.


Lemma appended_data_reads_back_witness :
  exists st2, read 20480 4096 (fst (fst st2 : ZoneManager * gmap Z bytes)) = Ok (demo_page x13) /\ is_Some (snd st2 : option Z).
Proof.
  assert (match run_ops demo_ops1 (start_of demo_device) with
          | Some (m, logs, room) =>
              match append (demo_page x13) Data m with
              | (Ok offset, m1) => (4096 <=? room) && (offset =? 20480)
                  && all_ops (op_leavesb 3 (current_group m)) demo_ops2 (m1, logs, room - 4096)
                  && bool_decide (is_Some (run_ops demo_ops2 (m1, logs, room - 4096)))
              | _ => false end
          | None => false end = true) as H by by vm_compute.
  destruct (run_ops demo_ops1 (start_of demo_device)) as [[[m logs] room]|] eqn:E1; [|done].
  destruct (append _ Data _) as [[offset|] m1] eqn:E2; [|done].
  apply andb_prop in H as [[[H1 H2]%andb_prop H3]%andb_prop H4]. apply Z.leb_le in H1. apply Z.eqb_eq in H2. subst offset.
  destruct (run_ops demo_ops2 (m1, logs, room - 4096)) as [st2|] eqn:E3; [|done]. exists (st2.1, Some st2.2). split; [|by eexists].
  exact (appended_data_reads_back [] 49152 16384 demo_device demo_ops1 m logs room (demo_page x13) 20480 m1 demo_ops2 st2
    demo_opened E1 H1 E2 H3 E3).
Defined.

#[global] Instance result_eq_dec {A} `{EqDecision A} : EqDecision (result A).
Proof. solve_decision. Defined.

(** Two groups used in turn; the first is reset, opened again, and filled to its
    end after a refused reservation.  The answers, the manager before the
    refusal and after the metadata log. *)
Definition refused_run : list (result Z) * bool * ZoneManager * ZoneManager :=
  let fill := demo_page x21 ++ demo_page x22 ++ demo_page x23 in
  let m := (finish_group (new_manager demo_device false).2).2 in
  let m := (ensure_available_space 4096 4096 m).2 in
  let '(r1, m) := append (demo_page x24) Data m in
  let '(r2, m) := append (demo_page x25) MetaLog m in
  let m := (finish_group (reset_group 0 (finish_group m).2).2).2 in
  let '(granted, m') := ensure_available_space 12288 4096 m in
  let '(r3, m') := append fill Data m' in
  let '(r4, m') := append (demo_page x26) MetaLog m' in
  ([r1; r2; r3; r4], granted, m, m').

(** [append] asks that a reservation came first, but not that it was
    granted: after a refused one, data may fill the zone to its end, and the
    metadata log appended next is written into the neighbouring zone, over the
    header and the data of a group that is sealed and awaiting reclaim. *)
Theorem refused_reservation_overwrites_neighbour :
  let before := refused_run.1.2 in
  let after := refused_run.2 in
  refused_run.1.1 = ([Ok 20480; Ok 24576; Ok 4096; Ok 16384], false) /\
  current_group before = 0 /\ 1 ∈ gc_list before /\
  load_meta_data 1 before = Ok (demo_page x25) /\ read 20480 4096 before = Ok (demo_page x24) /\
  read 16384 4096 after = Ok (demo_page x26) /\ read 20480 4096 after <> Ok (demo_page x24).
Proof. cbv zeta. apply (bool_decide_unpack _). by vm_compute. Qed.

(** A granted reservation is not checked against what is appended: after one
    of a page, three pages of data and a metadata log are taken, and the write
    pointer of the first zone ends half a zone past its end. *)
Definition overrun : bool * list bool * ZoneManager :=
  let '(granted, m) := ensure_available_space 4096 0 (new_manager demo_device false).2 in
  let '(r1, m) := append (demo_page x21 ++ demo_page x22 ++ demo_page x23) Data m in
  let '(r2, m) := append (demo_page x24) MetaLog m in
  let '(r3, m) := finish_group m in (granted, [is_ok r1; is_ok r2; is_ok r3], m).
Example unchecked_append_overruns_zone :
  overrun.1 = (true, [true; true; true]) /\ z_write_pointer (zone_at overrun.2 0) = 24576 /\ z_capacity (zone_at overrun.2 0) = 16384.
Proof. vm_compute. done. Qed.
