(* ===== verification/ZonedGc.v ===== *)
(** * Reclaim of zoned storage

    The collector of runtime/zoned_gc.rs: it walks the operation log of the
    group with the most garbage, reads back the records that must survive, takes
    the others out of the index, and only then resets the group. *)

From Stdlib Require Import Strings.Byte.
From S2P Require Import Prelude BlockCodec SsdRecords Zones ZonesFacts ZonesInv ZonesOpen ZonesSpec.

Record ZoneGcReport := mkReport {
  gr_group_id : option Z; gr_scanned : Z; gr_dropped : Z; gr_kept : Z; gr_corrupt : Z; gr_bytes_reclaimed : Z
}.
#[global] Instance ZoneGcReport_eq_dec : EqDecision ZoneGcReport.
Proof. solve_decision. Defined.
Definition empty_report : ZoneGcReport := mkReport None 0 0 0 0 0.

Definition count_scanned r : ZoneGcReport :=
  mkReport (gr_group_id r) (gr_scanned r + 1) (gr_dropped r) (gr_kept r) (gr_corrupt r) (gr_bytes_reclaimed r).
Definition count_dropped r : ZoneGcReport :=
  mkReport (gr_group_id r) (gr_scanned r) (gr_dropped r + 1) (gr_kept r) (gr_corrupt r) (gr_bytes_reclaimed r).
Definition count_kept r : ZoneGcReport :=
  mkReport (gr_group_id r) (gr_scanned r) (gr_dropped r) (gr_kept r + 1) (gr_corrupt r) (gr_bytes_reclaimed r).
Definition count_corrupt r : ZoneGcReport :=
  mkReport (gr_group_id r) (gr_scanned r) (gr_dropped r) (gr_kept r) (gr_corrupt r + 1) (gr_bytes_reclaimed r).

Record ZoneGcWorker := mkWorker { w_encoder : BufferEncoder; w_enabled : bool; w_max_record_length : Z }.
Definition new_worker (max_record_length : Z) : ZoneGcWorker := mkWorker new_encoder false max_record_length.
Definition start_worker (w : ZoneGcWorker) : ZoneGcWorker := mkWorker (w_encoder w) true (w_max_record_length w).
Definition stop_worker (w : ZoneGcWorker) : ZoneGcWorker := mkWorker (w_encoder w) false (w_max_record_length w).

Definition survives (state : RecordState) (mode : GcMode) : bool :=
  match state with
  | SoftDel => false
  | Pinned => true
  | Normal | MaxCode => match mode with Lossless => true | Lossy => false end
  end.

Abbreviation survivor := (string * bytes)%type.

Section gc.
Context `{Hasher}.
Implicit Types (w : ZoneGcWorker) (m : ZoneManager) (index : SsdIndex).

(** The record a pointer leads to. *)
Definition read_record w (pointer : Z) m : option bytes :=
  let '(units, lba) := decode_colored_ptr pointer in
  let align := align_size (w_encoder w) in
  let span := units * align in
  if (span =? 0) || (w_max_record_length w <? span) then None
  else
    let page_delta := lba `mod` align in
    match read (lba - page_delta) span m with
    | Err _ => None
    | Ok buf =>
        if blen buf <=? page_delta then None
        else
          let '(value, corrupt) := deserialize_data (w_encoder w) (drop (Z.to_nat page_delta) buf) in
          if corrupt then None else Some value
    end.

Definition construct_single_record w (oplog : bytes) m : option (string * option bytes * Z) :=
  let '(key, pointer, used, corrupt) := deserialize_oplog (w_encoder w) oplog in
  if corrupt || (used =? 0) then None else Some (key, read_record w pointer m, used).

Fixpoint process_loop (fuel : nat) w (remaining : bytes) (mode : GcMode) m (report : ZoneGcReport)
    (survivors : list survivor) index : ZoneGcReport * list survivor * SsdIndex :=
  match fuel with
  | O => (report, survivors, index)
  | S fuel =>
      if blen remaining <? OPLOG_FIXED_PART_SIZE then (report, survivors, index)
      else match construct_single_record w remaining m with
      | None => (count_corrupt report, survivors, index)
      | Some (key, value, used) =>
          let report := count_scanned report in
          let rest := drop (Z.to_nat used) remaining in
          match index_get key index with
          | (None, index) => process_loop fuel w rest mode m (count_dropped report) survivors index
          | (Some entry, index) =>
              match survives (value_state entry) mode, value with
              | true, Some value => process_loop fuel w rest mode m (count_kept report) (survivors ++ [(key, value)]) index
              | true, None =>
                  process_loop fuel w rest mode m (count_dropped (count_corrupt report)) survivors
                    (delete_if key (fun _ => true) index).2
              | false, _ =>
                  process_loop fuel w rest mode m (count_dropped report) survivors (delete_if key (fun _ => true) index).2
              end
          end
      end
  end.

(** Every entry takes at least its fixed part, so the length bounds the walk. *)
Definition process_metadata w (oplogs : bytes) (mode : GcMode) m index : ZoneGcReport * list survivor * SsdIndex :=
  process_loop (length oplogs) w oplogs mode m empty_report [] index.

(** The entries of a log that was read: a length, itself included, then the
    entries. *)
Definition log_body (oplogs : bytes) : bytes :=
  if OPLOG_HEADER_SIZE <? blen oplogs then
    let declared := le_value (take 8 oplogs) in
    let end_ := Z.min declared (blen oplogs) in
    take (Z.to_nat (Z.max end_ 8 - 8)) (drop 8 oplogs)
  else [].

Definition collect w m index : result (ZoneGcReport * list survivor) * ZoneManager * SsdIndex :=
  if negb (w_enabled w) then (Ok (empty_report, []), m, index)
  else
    let '(found, m) := find_gc_group m in
    match found with
    | None => (Ok (empty_report, []), m, index)
    | Some (group_id, mode) =>
        match (match load_meta_data group_id m with
               | Ok oplogs => Ok oplogs
               | Err NotFound => Ok []
               | Err e => Err e
               end) with
        | Err e => (Err e, m, index)
        | Ok oplogs =>
            let '(walked, survivors, index) := process_metadata w (log_body oplogs) mode m index in
            let '(r, m) := reset_group group_id m in
            match r with
            | Err e => (Err e, m, index)
            | Ok _ =>
                (Ok (mkReport (Some group_id) (gr_scanned walked) (gr_dropped walked) (gr_kept walked) (gr_corrupt walked)
                       (zone_capacity (info (device m))), survivors), m, index)
            end
        end
    end.

End gc.

(** ** Reading back what was written *)

Section walk.
Context `{HasherLaws}.
Context (max_record_length : Z) (m : ZoneManager).
Let w : ZoneGcWorker := start_worker (new_worker max_record_length).

(** The pages of a record, as its pointer counts them. *)
Definition record_pages (v : bytes) : Z := aligned_to (DATA_FIXED_PART_SIZE + blen v) 4096 `div` 4096.

(** The record is on the device at [base]; its pointer has room for the pages
    of the record. *)
Record placed (base : Z) (r : WriteBufferRecord) : Prop := {
  pl_key : is_utf8 (key_bytes (rec_key r)) = true /\ blen (key_bytes (rec_key r)) < 2 ^ 32;
  pl_base : 0 <= base < 2 ^ 45;
  pl_length : blen (rec_value r) < 2 ^ 31;
  pl_pages : record_pages (rec_value r) < 2 ^ 12;
  pl_device : base - base `mod` 4096 + record_pages (rec_value r) * 4096 <= device_capacity (info (device m));
  pl_bytes : window (file (device m)) base (DATA_FIXED_PART_SIZE + blen (rec_value r)) = serialize_data new_encoder (rec_value r)
}.

(** The collector can read it back: it does not run past the pages its pointer
    counts, and they are no more than the collector reads. *)
Definition whole (base : Z) (r : WriteBufferRecord) : bool :=
  (base `mod` 4096 + (DATA_FIXED_PART_SIZE + blen (rec_value r)) <=? record_pages (rec_value r) * 4096)
  && (record_pages (rec_value r) * 4096 <=? max_record_length).

Fixpoint all_placed (base : Z) (records : list WriteBufferRecord) : Prop :=
  match records with
  | [] => True
  | r :: records => placed base r /\ all_placed (base + (DATA_FIXED_PART_SIZE + blen (rec_value r))) records
  end.

Context (Hcap : device_capacity (info (device m)) < 2 ^ 63) (Hfile : blen (file (device m)) = device_capacity (info (device m))).

Lemma record_ptr_eq v base : blen v < 2 ^ 31 ->
  record_ptr new_encoder (blen v) base = pack_ptr SoftDel base (record_pages v).
Proof.
  intros Hv. pose proof (blen_nonneg v). unfold record_ptr, pack_ptr, record_pages, sat_add32, u32_max. cbn [align_size new_encoder].
  unfold SSD_RECORD_ALIGN_SIZE. rewrite Z.min_r by (unfold DATA_FIXED_PART_SIZE; lia). done.
Qed.

Lemma record_pages_bound v : blen v < 2 ^ 31 -> 0 < record_pages v /\ DATA_FIXED_PART_SIZE + blen v <= record_pages v * 4096.
Proof.
  intros Hv. pose proof (blen_nonneg v). unfold record_pages, aligned_to, sat_add32, u32_max, DATA_FIXED_PART_SIZE.
  cbn [Z.eqb]. change (Z.min 4096 (2 ^ 32 - 1)) with 4096. pose proof (Z.div_mod (20 + blen v) 4096). pose proof (Z.mod_pos_bound (20 + blen v) 4096).
  destruct (Z.eqb_spec ((20 + blen v) `mod` 4096) 0) as [E|E].
  - lia.
  - rewrite Z.min_r by lia. replace (20 + blen v + (4096 - (20 + blen v) `mod` 4096)) with (((20 + blen v) `div` 4096 + 1) * 4096) by lia.
    rewrite Z.div_mul by lia. pose proof (Z.div_pos (20 + blen v) 4096). lia.
Qed.

Lemma window_front v o a b : 0 <= a <= b -> 0 <= o -> o + b <= blen v -> exists rest, window v o b = window v o a ++ rest.
Proof.
  intros Ha Ho Hb. exists (drop (Z.to_nat a) (window v o b)). unfold window. rewrite <- (take_drop (Z.to_nat a) (take (Z.to_nat b) _)) at 1.
  f_equal. rewrite take_take. f_equal. lia.
Qed.

(** A record cut short is not taken for one. *)
Lemma torn_rejected v a : blen v < 2 ^ 31 -> 0 <= a < DATA_FIXED_PART_SIZE + blen v -> blen (serialize_data new_encoder v) = DATA_FIXED_PART_SIZE + blen v ->
  (deserialize_data new_encoder (take (Z.to_nat a) (serialize_data new_encoder v))).2 = true.
Proof.
  intros Hv Ha Hl. set (src := take (Z.to_nat a) (serialize_data new_encoder v)). set (tail := drop (Z.to_nat a) (serialize_data new_encoder v)).
  assert (serialize_data new_encoder v = src ++ tail) as E by (unfold src, tail; by rewrite take_drop).
  assert (vec_ok (serialize_data new_encoder v)) as Hok by (unfold vec_ok; rewrite Hl; unfold DATA_FIXED_PART_SIZE; lia).
  destruct (deserialize_data new_encoder src) as [v' []] eqn:Ed; [done|exfalso].
  destruct (data_accepted new_encoder src v') as (Hv' & rest & Er); [|done|].
  { unfold vec_ok in *. rewrite E, blen_app in Hok. pose proof (blen_nonneg tail). lia. }
  rewrite Er, <- app_assoc in E. pose proof (data_round_trip new_encoder v' (rest ++ tail) Hv') as R1. rewrite <- E in R1.
  pose proof (data_round_trip new_encoder v [] ltac:(lia)) as R2. rewrite app_nil_r in R2. assert (v = v') as -> by (specialize (R1 Hok); specialize (R2 Hok); congruence).
  apply (f_equal blen) in E. rewrite !blen_app in E. pose proof (blen_nonneg rest).
  assert (blen tail = DATA_FIXED_PART_SIZE + blen v' - a) as Lt by (unfold tail, blen in *; rewrite length_drop; lia). lia.
Qed.

Lemma read_placed base r : placed base r ->
  read_record w (record_ptr new_encoder (blen (rec_value r)) base) m = if whole base r then Some (rec_value r) else None.
Proof.
  intros [_ Hb Hl Hp Hd Hbytes]. unfold whole. set (v := rec_value r) in *. pose proof (blen_nonneg v) as Hv0.
  destruct (record_pages_bound v Hl) as [Hpos Hfit]. rewrite record_ptr_eq by done. unfold read_record, w. cbn [w_encoder start_worker new_worker w_max_record_length align_size new_encoder].
  destruct (pack_ptr_decode SoftDel base (record_pages v)) as [-> _]; [lia..|]. rewrite !Z.mod_small by lia. unfold SSD_RECORD_ALIGN_SIZE.
  rewrite (proj2 (Z.eqb_neq (record_pages v * 4096) 0)) by lia. cbn [orb].
  destruct (Z.ltb_spec max_record_length (record_pages v * 4096)) as [Hmax|Hmax].
  { rewrite (proj2 (Z.leb_gt (record_pages v * 4096) _)) by lia. by rewrite andb_false_r. }
  rewrite (proj2 (Z.leb_le (record_pages v * 4096) _)), andb_true_r by lia. set (pd := base `mod` 4096) in *.
  assert (0 <= pd < 4096 /\ pd <= base) as [Hpd Hpb] by (split; [apply Z.mod_pos_bound; lia|apply Z.mod_le; lia]).
  set (span := record_pages v * 4096) in *. unfold read, device_read. rewrite sat_add_exact by (unfold u64_max; lia).
  rewrite (proj2 (Z.ltb_ge _ _)) by lia. rewrite blen_window by lia. unfold DATA_FIXED_PART_SIZE in *. rewrite (proj2 (Z.leb_gt span pd)) by lia.
  assert (drop (Z.to_nat pd) (window (file (device m)) (base - pd) span) = window (file (device m)) base (span - pd)) as ->.
  { transitivity (window (window (file (device m)) (base - pd) span) pd (span - pd)).
    - unfold window at 2. rewrite take_ge; [done|]. rewrite length_drop. pose proof (blen_window (file (device m)) (base - pd) span).
      unfold blen in *. lia.
    - rewrite window_window by lia. f_equal. lia. }
  destruct (Z.leb_spec (pd + (20 + blen v)) span) as [Hs|Hs].
  - destruct (window_front (file (device m)) base (20 + blen v) (span - pd)) as [rest Er]; [lia..|].
    rewrite Er, Hbytes. rewrite data_round_trip; [done|lia|]. unfold vec_ok. rewrite <- Hbytes, <- Er, blen_window; lia.
  - assert (blen (serialize_data new_encoder v) = 20 + blen v) as Ls by (rewrite serialize_data_eq by lia; cbv zeta; unfold blen; rewrite !length_app, !le_bytes_length; lia).
    pose proof (torn_rejected v (span - pd) Hl ltac:(unfold DATA_FIXED_PART_SIZE; lia) Ls) as T.
    assert (window (file (device m)) base (span - pd) = take (Z.to_nat (span - pd)) (serialize_data new_encoder v)) as ->.
    { rewrite <- Hbytes. unfold window. rewrite take_take. f_equal. lia. }
    destruct (deserialize_data _ _) as [x y]. cbn [snd] in T. by subst y.
Qed.

(** One entry of the log, decoded with the record behind it. *)
Lemma construct_placed base r rest : placed base r -> vec_ok (oplog_entry new_encoder (key_bytes (rec_key r)) (record_ptr new_encoder (blen (rec_value r)) base) ++ rest) ->
  construct_single_record w (oplog_entry new_encoder (key_bytes (rec_key r)) (record_ptr new_encoder (blen (rec_value r)) base) ++ rest) m =
    Some (rec_key r, if whole base r then Some (rec_value r) else None, OPLOG_FIXED_PART_SIZE + blen (key_bytes (rec_key r))).
Proof.
  intros Hp Hv. destruct (pl_key _ _ Hp) as [Hu Hk]. unfold construct_single_record. cbn [w_encoder w start_worker new_worker].
  rewrite oplog_entry_round_trip; [|done|rewrite record_ptr_eq by apply Hp; apply pack_ptr_range|done].
  pose proof (blen_nonneg (key_bytes (rec_key r))). unfold OPLOG_FIXED_PART_SIZE. rewrite (proj2 (Z.eqb_neq _ _)) by lia. cbn [orb].
  by rewrite key_round_trip, (read_placed base r Hp).
Qed.
(** ** The fate of every record *)

Definition pinned (index : SsdIndex) (k : string) : bool :=
  match index !! k with Some e => bool_decide (value_state e = Pinned) | None => false end.

(** What becomes of the records in turn: a pinned one that can be read back is
    kept, a pinned one that cannot is lost, and all but the kept leave the
    index.  The kept, the number of lost ones and the index. *)
Fixpoint fates (base : Z) (records : list WriteBufferRecord) (index : SsdIndex) : list survivor * nat * SsdIndex :=
  match records with
  | [] => ([], 0%nat, index)
  | r :: records =>
      let next := base + (DATA_FIXED_PART_SIZE + blen (rec_value r)) in
      if pinned index (rec_key r) then
        if whole base r then
          let '(kept, lost, index) := fates next records index in ((rec_key r, rec_value r) :: kept, lost, index)
        else let '(kept, lost, index) := fates next records (delete (rec_key r) index) in (kept, S lost, index)
      else fates next records (delete (rec_key r) index)
  end.
(** The keys of the records that cannot be read back. *)
Fixpoint torn_keys (base : Z) (records : list WriteBufferRecord) : list string :=
  match records with
  | [] => []
  | r :: records => (if whole base r then [] else [rec_key r]) ++ torn_keys (base + (DATA_FIXED_PART_SIZE + blen (rec_value r))) records
  end.

Definition pinned_records (index : SsdIndex) (records : list WriteBufferRecord) : list survivor :=
  (fun r => (rec_key r, rec_value r)) <$> filter (fun r => pinned index (rec_key r)) records.

Lemma pinned_delete index k j : pinned (delete k index) j = if decide (j = k) then false else pinned index j.
Proof using. unfold pinned. case_decide as E; [subst; by rewrite lookup_delete_eq|by rewrite lookup_delete_ne]. Qed.

Lemma fates_length base records index : let '(kept, lost, _) := fates base records index in (length kept + lost <= length records)%nat.
Proof using.
  revert base index. induction records as [|r records IH]; intros base index; [cbn; lia|]. cbn [fates length].
  destruct (pinned index (rec_key r)), (whole base r);
    [specialize (IH (base + (DATA_FIXED_PART_SIZE + blen (rec_value r))) index)|specialize (IH (base + (DATA_FIXED_PART_SIZE + blen (rec_value r))) (delete (rec_key r) index))..];
    destruct (fates _ _ _) as [[kept lost] index']; cbn [length]; lia.
Qed.

Lemma torn_in base records k : k ∈ torn_keys base records -> k ∈ rec_key <$> records.
Proof using.
  revert base. induction records as [|r records IH]; intros base; [done|]. cbn [torn_keys fmap list_fmap]. intros [Hk|Hk]%elem_of_app; [|right; by eapply IH].
  destruct (whole base r); [by apply elem_of_nil in Hk|]. apply list_elem_of_singleton in Hk as ->. by left.
Qed.

(** The index afterwards. *)
Lemma fates_index base records index k :
  (fates base records index).2 !! k =
    if decide (k ∈ rec_key <$> records /\ (pinned index k = false \/ k ∈ torn_keys base records)) then None else index !! k.
Proof using.
  clear Hfile Hcap m H0 H.
  revert base index. induction records as [|r records IH]; intros base index.
  { rewrite decide_False; [done|]. intros [Hk _]. by apply elem_of_nil in Hk. }
  cbn [fates torn_keys fmap list_fmap]. set (next := base + _). pose proof (IH next index) as I1. pose proof (IH next (delete (rec_key r) index)) as I2.
  rewrite pinned_delete in I2.
  destruct (pinned index (rec_key r)) eqn:Ep; [destruct (whole base r) eqn:Ew|];
    [|destruct (fates next records (delete _ _)) as [[kept lost] index2]; cbn [snd] in I2 |- *; rewrite I2..].
  - destruct (fates next records index) as [[kept lost] index1]. cbn [snd] in I1 |- *. rewrite I1. cbn [app].
    apply decide_ext. rewrite elem_of_cons. split; [tauto|]. intros [[->|Hk] Ht]; [|tauto]. destruct Ht as [Ht|Ht]; [congruence|].
    split; [|by right]. by apply (torn_in next).
  - destruct (decide (k = rec_key r)) as [->|Hne].
    + rewrite (decide_True (P := rec_key r ∈ rec_key r :: _ /\ _)) by set_solver. case_decide; [done|apply lookup_delete_eq].
    + rewrite lookup_delete_ne by done. apply decide_ext. set_solver.
  - destruct (decide (k = rec_key r)) as [->|Hne].
    + rewrite (decide_True (P := rec_key r ∈ rec_key r :: _ /\ _)) by (split; [by left|by left]). case_decide; [done|apply lookup_delete_eq].
    + rewrite lookup_delete_ne by done. apply decide_ext. destruct (whole base r); set_solver.
Qed.

(** When every record can be read back. *)
Lemma fates_whole base records index : torn_keys base records = [] ->
  (fates base records index).1 = (pinned_records index records, 0%nat).
Proof using.
  revert base index. induction records as [|r records IH]; intros base index Ht; [done|]. cbn [fates torn_keys] in *. unfold pinned_records. rewrite filter_cons.
  destruct (whole base r); [|done]. destruct (pinned index (rec_key r)) eqn:Ep.
  - rewrite decide_True by done. specialize (IH _ index Ht). destruct (fates _ records index) as [[kept lost] index']. cbn [fst] in *. injection IH as -> ->. done.
  - rewrite decide_False by (cbn; tauto). rewrite IH by done. f_equal. unfold pinned_records. f_equal. apply list_filter_iff. intros x. rewrite pinned_delete.
    case_decide as E; [|done]. rewrite E, Ep. done.
Qed.

(** The report after [kept] records kept, [dropped] dropped and [lost] among
    these that could not be read. *)
Definition tally (r : ZoneGcReport) (kept dropped lost : nat) : ZoneGcReport :=
  mkReport (gr_group_id r) (gr_scanned r + Z.of_nat (kept + dropped)) (gr_dropped r + Z.of_nat dropped)
    (gr_kept r + Z.of_nat kept) (gr_corrupt r + Z.of_nat lost) (gr_bytes_reclaimed r).

Ltac tally_step := unfold tally; cbn [gr_group_id gr_scanned gr_dropped gr_kept gr_corrupt gr_bytes_reclaimed count_kept count_scanned count_dropped count_corrupt]; f_equal; lia.
Lemma tally_kept r a b l : tally (count_kept (count_scanned r)) a b l = tally r (S a) b l.
Proof. tally_step. Qed.
Lemma tally_dropped r a b l : tally (count_dropped (count_scanned r)) a b l = tally r a (S b) l.
Proof. tally_step. Qed.
Lemma tally_lost r a b l : tally (count_dropped (count_corrupt (count_scanned r))) a b l = tally r a (S b) (S l).
Proof. tally_step. Qed.

(** Taking a record's entry through the loop, lossily. *)
Lemma lossy_step fuel key value used rest rep surv index :
  construct_single_record w rest m = Some (key, value, used) -> (blen rest <? OPLOG_FIXED_PART_SIZE) = false ->
  process_loop (S fuel) w rest Lossy m rep surv index =
    if pinned index key
    then match value with
         | Some value => process_loop fuel w (drop (Z.to_nat used) rest) Lossy m (count_kept (count_scanned rep)) (surv ++ [(key, value)]) index
         | None => process_loop fuel w (drop (Z.to_nat used) rest) Lossy m (count_dropped (count_corrupt (count_scanned rep))) surv (delete key index)
         end
    else process_loop fuel w (drop (Z.to_nat used) rest) Lossy m (count_dropped (count_scanned rep)) surv (delete key index).
Proof.
  intros E Hl. cbn [process_loop]. rewrite Hl, E. cbn zeta. unfold pinned, index_get.
  destruct (index !! key) as [e|] eqn:Ek; [|by rewrite delete_id].
  destruct (decide (value_state e = SoftDel)) as [Hs|Hs].
  - rewrite state_with_state. cbn [survives]. rewrite bool_decide_eq_false_2 by congruence.
    unfold delete_if. rewrite lookup_insert_eq. cbn [snd]. by rewrite delete_insert_eq.
  - destruct (value_state e) eqn:Ev; [done| | |]; cbn [survives].
    + rewrite bool_decide_eq_false_2 by congruence. unfold delete_if. by rewrite Ek.
    + rewrite bool_decide_eq_true_2 by done. destruct value; [done|]. unfold delete_if. by rewrite Ek.
    + rewrite bool_decide_eq_false_2 by congruence. unfold delete_if. by rewrite Ek.
Qed.

Lemma serialize_oplog_cons {St} r records (cb : string -> SsdIndexValue -> St -> bool * St) base st :
  0 <= base -> blen (rec_value r) < 2 ^ 31 -> base + (DATA_FIXED_PART_SIZE + blen (rec_value r)) <= u64_max ->
  exists st', (serialize_oplog new_encoder (r :: records) cb base st).1 =
    oplog_entry new_encoder (key_bytes (rec_key r)) (record_ptr new_encoder (blen (rec_value r)) base) ++
    (serialize_oplog new_encoder records cb (base + (DATA_FIXED_PART_SIZE + blen (rec_value r))) st').1.
Proof.
  intros Hb Hl Hs. pose proof (blen_nonneg (rec_value r)). cbn [serialize_oplog]. unfold wrap32. rewrite Z.mod_small by lia.
  rewrite sat_add_exact by done.
  exists (snd (cb (rec_key r) (SsdColoredPtr (record_ptr new_encoder (blen (rec_value r)) base)) st)).
  by destruct (serialize_oplog new_encoder records cb _ _).
Qed.

Lemma lossy_walk {St} (cb : string -> SsdIndexValue -> St -> bool * St) records : forall fuel base st rep surv index,
  let log := (serialize_oplog new_encoder records cb base st).1 in
  all_placed base records -> vec_ok log -> (length log <= fuel)%nat ->
  process_loop fuel w log Lossy m rep surv index =
    (let '(kept, lost, index') := fates base records index in
     (tally rep (length kept) (length records - length kept) lost, surv ++ kept, index')).
Proof.
  induction records as [|r records IH]; intros fuel base st rep surv index log Hp Hv Hf.
  - cbn in *. unfold log. cbn. rewrite app_nil_r. replace (tally rep 0 0 0) with rep by (destruct rep; unfold tally; cbn; f_equal; lia).
    by destruct fuel.
  - destruct Hp as [Hr Hp]. pose proof (pl_length _ _ Hr) as Hl. pose proof (blen_nonneg (rec_value r)) as Hl0.
    destruct (serialize_oplog_cons r records cb base st) as [st' E]; [apply Hr|done|pose proof (pl_base _ _ Hr); unfold u64_max, DATA_FIXED_PART_SIZE; lia|].
    fold log in E. set (entry := oplog_entry _ _ _) in E. set (log' := (serialize_oplog _ records _ _ st').1) in *.
    assert (blen entry = OPLOG_FIXED_PART_SIZE + blen (key_bytes (rec_key r))) as Le by apply oplog_length.
    pose proof (blen_nonneg (key_bytes (rec_key r))) as Hk0. pose proof (blen_nonneg log') as Hlog'.
    rewrite E in Hv, Hf |- *. pose proof (construct_placed base r log' Hr Hv) as Ec. fold entry in Ec.
    assert (length entry = Z.to_nat (OPLOG_FIXED_PART_SIZE + blen (key_bytes (rec_key r)))) as Len by (rewrite <- Le; unfold blen; lia).
    rewrite length_app in Hf. destruct fuel as [|fuel]; [unfold OPLOG_FIXED_PART_SIZE in *; lia|].
    rewrite (lossy_step fuel _ _ _ _ rep surv index Ec) by (apply Z.ltb_ge; rewrite blen_app, Le; unfold OPLOG_FIXED_PART_SIZE; lia).
    rewrite <- Len, drop_app_length. assert (vec_ok log') as Hv' by (unfold vec_ok in *; rewrite blen_app in Hv; unfold OPLOG_FIXED_PART_SIZE in *; lia).
    assert (length log' <= fuel)%nat as Hf' by (unfold OPLOG_FIXED_PART_SIZE in *; lia).
    cbn [fates length]. set (next := base + _) in *.
    pose proof (fates_length next records (delete (rec_key r) index)) as L2.
    destruct (pinned index (rec_key r)); [destruct (whole base r)|]; rewrite (IH fuel _ st' _ _ _ Hp Hv' Hf').
    + destruct (fates next records index) as [[kept lost] index']. rewrite tally_kept, <- app_assoc. done.
    + destruct (fates next records (delete _ _)) as [[kept lost] index']. rewrite tally_lost. f_equal. f_equal. f_equal. lia.
    + destruct (fates next records (delete _ _)) as [[kept lost] index']. rewrite tally_dropped. f_equal. f_equal. f_equal. lia.
Qed.
End walk.

Lemma log_body_framed body pad : 8 + blen body < 2 ^ 64 -> log_body (le_bytes 8 (8 + blen body) ++ body ++ pad) = body.
Proof.
  intros Hb. pose proof (blen_nonneg body). pose proof (blen_nonneg pad). unfold log_body, OPLOG_HEADER_SIZE.
  assert (blen (le_bytes 8 (8 + blen body) ++ body ++ pad) = 8 + blen body + blen pad) as L
    by (rewrite !blen_app; unfold blen; rewrite le_bytes_length; lia).
  rewrite L. rewrite take_app_length', drop_app_length' by by rewrite le_bytes_length. rewrite le_value_bytes by lia.
  destruct (Z.ltb_spec 8 (8 + blen body + blen pad)).
  - rewrite Z.min_l, Z.max_l by lia. replace (8 + blen body - 8) with (blen body) by lia. unfold blen. rewrite Nat2Z.id. apply take_app_length.
  - symmetry. apply length_zero_iff_nil. unfold blen in *. lia.
Qed.

(** ** The theorems *)


(** ** A device of three zones of eight pages *)

#[local] Existing Instance sum_hasher.

Definition gc_device : ZoneDevice :=
  match open_device [] 98304 32768 with Ok d => d | Err _ => mkDevice [] (geometry 0 0) end.

(** Bytes filled up to whole pages. *)
Definition paged (v : bytes) : bytes := v ++ zeros ((- blen v) `mod` 4096).
Definition batch (records : list WriteBufferRecord) : bytes := concat ((fun r => serialize_data new_encoder (rec_value r)) <$> records).
Definition framed (body : bytes) : bytes := le_bytes 8 (8 + blen body) ++ body.

(** The pointers a batch at [base] is given, put in an index. *)
Definition record_index (k : string) (v : SsdIndexValue) (index : SsdIndex) : bool * SsdIndex := (true, index_put k v index).
Definition oplog_of (records : list WriteBufferRecord) (base : Z) : bytes :=
  (serialize_oplog new_encoder records record_index base ∅).1.
Definition index_of (records : list WriteBufferRecord) (base : Z) (index : SsdIndex) : SsdIndex :=
  (serialize_oplog new_encoder records record_index base index).2.

(** A group that takes a batch, its log, and is left. *)
Definition group_ops (records : list WriteBufferRecord) (base : Z) : list zone_op :=
  [OpReserve (blen (paged (batch records))) (blen (paged (framed (oplog_of records base))));
   OpAppend (paged (batch records)); OpSeal (paged (framed (oplog_of records base))); OpFinish].

(** Four records, the first three pinned; the second runs past the page its
    pointer counts. *)
Definition four_records : list WriteBufferRecord :=
  [mkRecord "a" (replicate 100 x61); mkRecord "b" (replicate 4000 x62); mkRecord "c" (replicate 200 x63); mkRecord "d" (replicate 10 x64)].
Definition four_index : SsdIndex := (index_pin "c" (index_pin "b" (index_pin "a" (index_of four_records 4096 ∅)).2).2).2.
Abbreviation four_state := (run_ops (group_ops four_records 4096) (start_of gc_device)).

Lemma gc_opened : opened [] 98304 32768 gc_device.
Proof.
  split; [lia|]. split; [lia|]. split; [lia|]. unfold gc_device.
  assert (is_ok (open_device [] 98304 32768) = true) as H by by vm_compute. by destruct (open_device [] 98304 32768).
Qed.

Definition placedb (m : ZoneManager) (base : Z) (r : WriteBufferRecord) : bool :=
  (is_utf8 (key_bytes (rec_key r)) && (blen (key_bytes (rec_key r)) <? 2 ^ 32) && (0 <=? base) && (base <? 2 ^ 45)
   && (blen (rec_value r) <? 2 ^ 31) && (record_pages (rec_value r) <? 2 ^ 12)
   && (base - base `mod` 4096 + record_pages (rec_value r) * 4096 <=? device_capacity (info (device m)))
   && bool_decide (window (file (device m)) base (DATA_FIXED_PART_SIZE + blen (rec_value r)) = serialize_data new_encoder (rec_value r)))%bool.
Lemma placed_decided m base r : placedb m base r = true -> placed m base r.
Proof. unfold placedb. intros H. zbool. by split. Qed.
Fixpoint all_placedb (m : ZoneManager) (base : Z) (records : list WriteBufferRecord) : bool :=
  match records with
  | [] => true
  | r :: records => placedb m base r && all_placedb m (base + (DATA_FIXED_PART_SIZE + blen (rec_value r))) records
  end.
Lemma all_placed_decided m base records : all_placedb m base records = true -> all_placed m base records.
Proof.
  revert base. induction records as [|r records IH]; intros base; [done|]. cbn [all_placedb all_placed]. intros [H1 H2]%andb_prop.
  split; [by apply placed_decided|by apply IH].
Qed.


(** A session, then one collection. *)
Definition gc_run (ops : list zone_op) (index : SsdIndex) : option (ZoneManager * result (ZoneGcReport * list survivor) * SsdIndex) :=
  match run_ops ops (start_of gc_device) with
  | Some (m, _, _) => let '(r, _, index') := collect (start_worker (new_worker 65536)) m index in Some (m, r, index')
  | None => None
  end.

Definition straddling : list WriteBufferRecord := [mkRecord "a" (replicate 100 x61); mkRecord "b" (replicate 4000 x62)].
Definition straddling_index : SsdIndex := (index_pin "b" (index_of straddling 4096 ∅)).2.

Definition old_a : list WriteBufferRecord := [mkRecord "a" (replicate 100 x61)].
Definition new_a : list WriteBufferRecord := [mkRecord "a" (replicate 100 x62)].
(** The key first indexed in group 0, then repointed to group 1. *)
Definition moved_index : SsdIndex :=
  (index_get "a" (serialize_oplog new_encoder new_a update_index 36864 (index_of old_a 4096 ∅)).2).2.

(** A record that starts inside a page and runs past the pages its pointer
    counts (the pages are counted from the record's length alone) cannot be
    read back: the collector cuts its read short of the record's end, takes it
    for torn, and drops it from the index although it is pinned and whole on
    the device. *)
Theorem straddling_record_lost :
  match gc_run (group_ops straddling 4096) straddling_index with
  | Some (m, outcome, index') =>
      pinned straddling_index "b" = true /\
      deserialize_data new_encoder (window (file (device m)) 4216 8192) = (replicate 4000 x62, false) /\
      outcome = Ok (mkReport (Some 0) 2 2 0 1 32768, []) /\ index' !! "b"%string = None
  | None => False
  end.
Proof.
  assert (match gc_run (group_ops straddling 4096) straddling_index with
          | Some (m, outcome, index') =>
              bool_decide (pinned straddling_index "b" = true /\
                deserialize_data new_encoder (window (file (device m)) 4216 8192) = (replicate 4000 x62, false) /\
                outcome = Ok (mkReport (Some 0) 2 2 0 1 32768, []) /\ index' !! "b"%string = None)
          | None => false end = true) as H by (vm_compute; reflexivity).
  destruct (gc_run _ _) as [[[m outcome] index']|]; [exact (bool_decide_eq_true_1 _ H)|discriminate H].
Qed.

(** The walk does not ask whether the index still points into the group it
    reclaims: the log entry of an old version decides over the key's current
    record, which lives in another group.  Unpinned, the current record leaves
    the index; pinned, the old value comes back as the one to write again. *)
Theorem stale_entry_decides :
  match gc_run (group_ops old_a 4096 ++ group_ops new_a 36864) moved_index,
        gc_run (group_ops old_a 4096 ++ group_ops new_a 36864) (index_pin "a" moved_index).2 with
  | Some (m, outcome, index'), Some (_, outcome_pinned, _) =>
      location <$> moved_index !! "a"%string = Some (inl (1, 36864)) /\
      deserialize_data new_encoder (window (file (device m)) 36864 4096) = (replicate 100 x62, false) /\
      outcome = Ok (mkReport (Some 0) 1 1 0 0 32768, []) /\ index' !! "a"%string = None /\
      outcome_pinned = Ok (mkReport (Some 0) 1 0 1 0 32768, [("a"%string, replicate 100 x61)])
  | _, _ => False
  end.
Proof.
  assert (match gc_run (group_ops old_a 4096 ++ group_ops new_a 36864) moved_index,
                gc_run (group_ops old_a 4096 ++ group_ops new_a 36864) (index_pin "a" moved_index).2 with
          | Some (m, outcome, index'), Some (_, outcome_pinned, _) =>
              bool_decide (location <$> moved_index !! "a"%string = Some (inl (1, 36864)) /\
                deserialize_data new_encoder (window (file (device m)) 36864 4096) = (replicate 100 x62, false) /\
                outcome = Ok (mkReport (Some 0) 1 1 0 0 32768, []) /\ index' !! "a"%string = None /\
                outcome_pinned = Ok (mkReport (Some 0) 1 0 1 0 32768, [("a"%string, replicate 100 x61)]))
          | _, _ => false end = true) as H by (vm_compute; reflexivity).
  destruct (gc_run _ moved_index) as [[[m outcome] index']|]; [|discriminate H].
  destruct (gc_run _ _) as [[[m2 outcome2] index2]|]; [exact (bool_decide_eq_true_1 _ H)|discriminate H].
Qed.
