(* ===== verification/RdmaIndex.v ===== *)
(** * The remote block index

    The hash table of core/rdma.rs that says where a block of the remote cache
    is stored: packed index entries, buckets of fifteen slots with a bitmap,
    fingerprints and an eviction hand, and the table of buckets.  The standard
    hasher, whose algorithm is left open, is the class [DefaultHasher]; what a
    value feeds to it is the class [Hash]. *)

From Stdlib Require Import Strings.Byte.
From S2P Require Import Prelude.

(** ** Hashing *)

(** [finish] of a fresh [DefaultHasher] that was fed some bytes. *)
Class DefaultHasher := finish : bytes -> Z.

(** What [Hash::hash] feeds to the hasher. *)
Class Hash (T : Type) := hash_feed : T -> bytes.
(** A [u64], a [usize]. *)
#[global] Instance hash_word : Hash Z := le_bytes 8.
(** A slice, a [Vec<u8>] or an array of bytes: the length, then the bytes. *)
#[global] Instance hash_slice : Hash bytes := fun v => le_bytes 8 (blen v) ++ v.
#[global] Instance hash_pair {A B} `{Hash A, Hash B} : Hash (A * B) := fun '(a, b) => hash_feed a ++ hash_feed b.

(** ** Media and status codes *)

(** [RdmaStorageEngineKind]: the medium an entry lives on. *)
Inductive RdmaStorageEngineKind := RDram | RPmem | RSsd | RInvalid.
#[global] Instance RdmaStorageEngineKind_eq_dec : EqDecision RdmaStorageEngineKind.
Proof. solve_decision. Defined.

Definition from_code (code : Z) : RdmaStorageEngineKind :=
  if code =? 0 then RDram else if code =? 1 then RPmem else if code =? 2 then RSsd else RInvalid.
Definition as_code (k : RdmaStorageEngineKind) : Z :=
  match k with RDram => 0 | RPmem => 1 | RSsd => 2 | RInvalid => 3 end.

Definition RDMA_BUCKET_CAP : nat := 15.
Definition RDMA_BUCKET_SIZE : Z := 512.
Definition RDMA_OP_FAIL : Z := -1.
Definition RDMA_OP_SUCCESS : Z := 0.
Definition RDMA_NOT_FOUND : Z := 1.
Definition RDMA_BUCKET_LOCKED : Z := 4.
Definition RDMA_DATA_HEADER : Z := 16.
Definition RDMA_CRC_LEN : Z := 8.
Definition RDMA_FAIL_ALLOC : Z := -1.
Definition RDMA_CRC_MISMATCH : Z := -2.
Definition i32_max : Z := 2 ^ 31 - 1.

(** ** Index entries *)

Record RdmaIndexEntry := mkEntry { e_signature : bytes; e_addr : Z; e_length : Z; e_version : Z }.

Definition default_entry : RdmaIndexEntry := mkEntry (replicate 16 x00) 0 0 (-1).

Definition ptr (e : RdmaIndexEntry) : Z := Z.shiftr (Z.land (e_addr e) 0xFFFFFFFFFFFF0000) 16.
Definition crc (e : RdmaIndexEntry) : Z := Z.shiftr (Z.land (e_addr e) 0xFF00) 8.
Definition entry_type (e : RdmaIndexEntry) : Z := Z.shiftr (Z.land (e_addr e) 0xC0) 6.
Definition storage_engine_type (e : RdmaIndexEntry) : RdmaStorageEngineKind := from_code (entry_type e).
Definition overflow_flag (e : RdmaIndexEntry) : Z := Z.shiftr (Z.land (e_addr e) 0x20) 5.
Definition signature_96b (e : RdmaIndexEntry) : bytes := take 12 (e_signature e).

Definition set_signature_96 (sig : bytes) (e : RdmaIndexEntry) : RdmaIndexEntry :=
  mkEntry (sig ++ replicate 4 x00) (e_addr e) (e_length e) (e_version e).
Definition set_signature_128 (sig : bytes) (e : RdmaIndexEntry) : RdmaIndexEntry :=
  mkEntry sig (e_addr e) (e_length e) (e_version e).
Definition set_data_length (len : Z) (e : RdmaIndexEntry) : RdmaIndexEntry :=
  mkEntry (e_signature e) (e_addr e) len (e_version e).
(** [version += 1] on an [i32], which wraps in a release build. *)
Definition set_version (e : RdmaIndexEntry) : RdmaIndexEntry :=
  mkEntry (e_signature e) (e_addr e) (e_length e) ((e_version e + 1 + 2 ^ 31) `mod` 2 ^ 32 - 2 ^ 31).

Definition rdma_length_fits_index_entry (block_size : Z) : bool := block_size <=? i32_max.

(** Where a block that the index no longer points at is. *)
Abbreviation displaced := (option Z * Z * RdmaStorageEngineKind)%type.

Section index.
Context `{DefaultHasher}.

Definition entry_crc (e : RdmaIndexEntry) : Z :=
  Z.land (finish (hash_feed (e_signature e) ++ le_bytes 4 (e_length e) ++ le_bytes 4 (e_version e))) 0xff.

(** [(ptr as u64) << 16] drops the bits that leave the word. *)
Definition set_packed_addr (p : Z) (storage_type : RdmaStorageEngineKind) (block_size : Z) (e : RdmaIndexEntry) :
    RdmaIndexEntry :=
  let overflow := if rdma_length_fits_index_entry block_size then 0 else 1 in
  let addr := Z.lor (Z.lor (wrap64 (Z.shiftl p 16)) (Z.shiftl (as_code storage_type) 6)) (Z.shiftl overflow 5) in
  let addr := Z.lor addr (Z.shiftl (entry_crc e) 8) in
  mkEntry (e_signature e) addr (e_length e) (e_version e).

Definition rdma_stable_hash {T} `{Hash T} (value : T) (salt : Z) : Z := finish (le_bytes 8 salt ++ hash_feed value).

(** ** Buckets *)

Context {K : Type} `{EqDecision K} `{Hash K}.

Definition rdma_hash_code_1b (value : K) : Z := Z.land (rdma_stable_hash value 0x1b) 0xff.

Definition signature_96 (key : K) (bucket_pos : Z) : bytes :=
  le_bytes 8 (rdma_stable_hash (bucket_pos, key) 0x96) ++
  take 4 (le_bytes 8 (rdma_stable_hash (bucket_pos, key) 0x9600)).
Definition signature_128 (key : K) (bucket_pos : Z) : bytes :=
  le_bytes 8 (rdma_stable_hash (bucket_pos, key) 0x128) ++ le_bytes 8 (rdma_stable_hash (bucket_pos, key) 0x1280).

Record RdmaBucketHeader := mkHeader { fingerprints : list Z; bitmap : Z; next_victim_ : Z }.
Record RdmaBucket := mkBucket { metadata : RdmaBucketHeader; entries : list RdmaIndexEntry; keys : list (option K) }.

Definition default_bucket : RdmaBucket :=
  mkBucket (mkHeader (replicate RDMA_BUCKET_CAP 0) 0 0) (replicate RDMA_BUCKET_CAP default_entry)
    (replicate RDMA_BUCKET_CAP None).

Implicit Types b : RdmaBucket.

Definition with_bitmap (f : Z -> Z) b : RdmaBucket :=
  mkBucket (mkHeader (fingerprints (metadata b)) (f (bitmap (metadata b))) (next_victim_ (metadata b)))
    (entries b) (keys b).
Definition with_victim (v : Z) b : RdmaBucket :=
  mkBucket (mkHeader (fingerprints (metadata b)) (bitmap (metadata b)) v) (entries b) (keys b).
Definition with_fingerprint (pos : nat) (fp : Z) b : RdmaBucket :=
  mkBucket (mkHeader (<[pos := fp]> (fingerprints (metadata b))) (bitmap (metadata b)) (next_victim_ (metadata b)))
    (entries b) (keys b).
Definition with_entry (pos : nat) (f : RdmaIndexEntry -> RdmaIndexEntry) b : RdmaBucket :=
  mkBucket (metadata b) (alter f pos (entries b)) (keys b).
Definition with_key (pos : nat) (k : option K) b : RdmaBucket :=
  mkBucket (metadata b) (entries b) (<[pos := k]> (keys b)).

(** [self.entries[pos]], [self.keys[pos]]: the arrays have fifteen slots. *)
Definition entry_at b (pos : nat) : RdmaIndexEntry := default default_entry (entries b !! pos).
Definition key_at b (pos : nat) : option K := default None (keys b !! pos).

Definition next_victim (h : RdmaBucketHeader) : nat := (Z.to_nat (next_victim_ h) `mod` RDMA_BUCKET_CAP)%nat.

Definition is_locked b : bool := Z.land (bitmap (metadata b)) 1 =? 1.
Definition lock_bucket b : bool * RdmaBucket :=
  if is_locked b then (false, b) else (true, with_bitmap (fun m => Z.lor m 1) b).
(** [!1] on a [u16]. *)
Definition unlock_bucket b : RdmaBucket := with_bitmap (fun m => Z.land m 0xfffe) b.

(** [self.metadata.bitmap & (1 << (pos + 1)) != 0]. *)
Definition slot_bit (pos : nat) : Z := Z.shiftl 1 (Z.of_nat pos + 1).
Definition slot_used b (pos : nat) : bool := negb (Z.land (bitmap (metadata b)) (slot_bit pos) =? 0).

(** [for pos in 0..RDMA_BUCKET_CAP { if f(pos) { return pos as i32; } } -1]. *)
Definition first_slot (f : nat -> bool) : Z :=
  match List.find f (seq 0 RDMA_BUCKET_CAP) with Some pos => Z.of_nat pos | None => -1 end.

Definition empty_entry b : Z := first_slot (fun pos => negb (slot_used b pos)).

Definition occupy_entry (pos : nat) b : RdmaBucket :=
  if (pos <? RDMA_BUCKET_CAP)%nat then with_bitmap (fun m => Z.lor m (slot_bit pos)) b else b.

Definition clear_entry (pos : nat) b : RdmaBucket :=
  if (pos <? RDMA_BUCKET_CAP)%nat then
    let b := with_bitmap (fun m => Z.land m (Z.lxor 0xffff (slot_bit pos))) b in
    with_fingerprint pos 0 (with_key pos None (with_entry pos (fun _ => default_entry) b))
  else b.

Definition eviction_candidate b : nat :=
  let start := next_victim (metadata b) in
  let slots := (fun step => ((start + step) `mod` RDMA_BUCKET_CAP)%nat) <$> seq 0 RDMA_BUCKET_CAP in
  match List.find (fun pos => bool_decide (is_Some (key_at b pos))) slots with Some pos => pos | None => start end.

Definition take_eviction_candidate b : nat * RdmaIndexEntry * RdmaBucket :=
  let pos := eviction_candidate b in
  let evicted := entry_at b pos in
  let b := clear_entry pos b in
  (pos, evicted, with_victim (Z.of_nat ((pos + 1) `mod` RDMA_BUCKET_CAP)) b).

(** [count_ones] of a [u16]. *)
Definition count_ones (m : Z) : Z := Z.of_nat (length (List.filter (fun i => Z.testbit m (Z.of_nat i)) (seq 0 16))).
Definition occupied_entry_count b : Z := count_ones (Z.land (Z.shiftr (bitmap (metadata b)) 1) 0x7fff).

Definition get_index b (key : K) (sig96 sig128 : bytes) : Z :=
  let fp := rdma_hash_code_1b key in
  first_slot (fun pos =>
    slot_used b pos && (default 0 (fingerprints (metadata b) !! pos) =? fp) &&
    (if decide (storage_engine_type (entry_at b pos) = RSsd)
     then bool_decide (e_signature (entry_at b pos) = sig128)
     else bool_decide (signature_96b (entry_at b pos) = sig96)) &&
    bool_decide (key_at b pos = Some key)).

(** ** The table *)

Record RdmaHashTableGet := mkGet { get_addr : option Z; get_len : Z; get_type : RdmaStorageEngineKind }.
Record RdmaHashTablePut := mkPut { put_status : Z; old_addr : option Z; old_len : Z; old_type : RdmaStorageEngineKind }.
Record RdmaHashTableDel := mkDel { del_status : Z; del_addr : option Z; del_len : Z; del_type : RdmaStorageEngineKind }.
Record RdmaHashTable := mkTable { buckets : list RdmaBucket }.

Implicit Types t : RdmaHashTable.

Definition new_table (bucket_count : nat) : RdmaHashTable := mkTable (replicate (Nat.max bucket_count 1) default_bucket).

Definition bucket_pos t (key : K) : nat := Z.to_nat (rdma_stable_hash key 0 `mod` Z.of_nat (length (buckets t))).
Definition bucket_at t (i : nat) : RdmaBucket := default default_bucket (buckets t !! i).
Definition set_bucket (i : nat) b t : RdmaHashTable := mkTable (<[i := b]> (buckets t)).

Definition table_get t (key : K) : RdmaHashTableGet :=
  let i := bucket_pos t key in
  let b := bucket_at t i in
  let pos := get_index b key (signature_96 key (Z.of_nat i)) (signature_128 key (Z.of_nat i)) in
  if pos <? 0 then mkGet None 0 RInvalid
  else
    let entry := entry_at b (Z.to_nat pos) in
    mkGet (Some (ptr entry)) (if overflow_flag entry =? 1 then 0 else Z.max 0 (e_length entry))
      (storage_engine_type entry).

(** Nothing was displaced. *)
Definition nothing : displaced := (None, 0, RInvalid).
Definition displaced_by (e : RdmaIndexEntry) : displaced := (Some (ptr e), Z.max 0 (e_length e), storage_engine_type e).

(** The slot a put writes and what it displaces. *)
Definition choose_slot (key : K) (sig96 sig128 : bytes) b : nat * displaced * RdmaBucket :=
  let existing := get_index b key sig96 sig128 in
  if 0 <=? existing then
    let pos := Z.to_nat existing in (pos, displaced_by (entry_at b pos), b)
  else
    let empty := empty_entry b in
    let '(pos, old, b) :=
      if 0 <=? empty then (Z.to_nat empty, nothing, b)
      else let '(victim, evicted, b) := take_eviction_candidate b in (victim, displaced_by evicted, b) in
    let b := occupy_entry pos b in
    let b := with_key pos (Some key) b in
    (pos, old, with_fingerprint pos (rdma_hash_code_1b key) b).

Definition write_entry (sig96 sig128 : bytes) (addr block_size : Z) (storage_type : RdmaStorageEngineKind)
    (e : RdmaIndexEntry) : RdmaIndexEntry :=
  let e := if decide (storage_type = RSsd) then set_signature_128 sig128 e else set_signature_96 sig96 e in
  let recorded_length := if rdma_length_fits_index_entry block_size then block_size else i32_max in
  set_packed_addr addr storage_type block_size (set_version (set_data_length recorded_length e)).

Definition table_put (key : K) (addr kv_size : Z) (storage_type : RdmaStorageEngineKind) t :
    RdmaHashTablePut * RdmaHashTable :=
  let i := bucket_pos t key in
  let '(locked, b) := lock_bucket (bucket_at t i) in
  if negb locked then (mkPut RDMA_BUCKET_LOCKED None 0 RInvalid, t)
  else
    let sig96 := signature_96 key (Z.of_nat i) in
    let sig128 := signature_128 key (Z.of_nat i) in
    let block_size := kv_size +! (RDMA_DATA_HEADER + RDMA_CRC_LEN) in
    let '(pos, (old_addr, old_len, old_type), b) := choose_slot key sig96 sig128 b in
    let b := with_entry pos (write_entry sig96 sig128 addr block_size storage_type) b in
    (mkPut RDMA_OP_SUCCESS old_addr old_len old_type, set_bucket i (unlock_bucket b) t).

Definition table_del (key : K) t : RdmaHashTableDel * RdmaHashTable :=
  let i := bucket_pos t key in
  let '(locked, b) := lock_bucket (bucket_at t i) in
  if negb locked then (mkDel RDMA_BUCKET_LOCKED None 0 RInvalid, t)
  else
    let pos := get_index b key (signature_96 key (Z.of_nat i)) (signature_128 key (Z.of_nat i)) in
    if pos <? 0 then (mkDel RDMA_NOT_FOUND None 0 RInvalid, set_bucket i (unlock_bucket b) t)
    else
      let entry := entry_at b (Z.to_nat pos) in
      let b := clear_entry (Z.to_nat pos) b in
      (mkDel RDMA_OP_SUCCESS (Some (ptr entry)) (Z.max 0 (e_length entry)) (storage_engine_type entry),
       set_bucket i (unlock_bucket b) t).

Definition table_size t : Z := Z.of_nat (length (buckets t)) * RDMA_BUCKET_SIZE.
Definition num_entries t : Z := foldr (fun b acc => occupied_entry_count b + acc) 0 (buckets t).
Definition all_buckets_unlocked t : bool := forallb (fun b => negb (is_locked b)) (buckets t).

End index.

Arguments RdmaBucket : clear implicits.
Arguments RdmaHashTable : clear implicits.
