(* ===== verification/RdmaIndexFacts.v ===== *)
(** * The remote block index: what a bucket holds

    Packing of index entries, the bitmap, and the representation of a finite
    map from keys to locations by the slots of a bucket, kept by every change
    a put or a delete makes. *)

From Stdlib Require Import Strings.Byte.
From S2P Require Import Prelude RdmaIndex.

(** ** Packed addresses *)

(** Where the index says a block is: its address, its medium and the size of
    its key and value. *)
Record location := mkLoc { loc_addr : Z; loc_type : RdmaStorageEngineKind; loc_size : Z }.

(** The address field has 48 bits. *)
Definition loc_ok (l : location) : Prop := 0 <= loc_addr l < 2 ^ 48 /\ 0 <= loc_size l.
Definition block_size (l : location) : Z := loc_size l +! (RDMA_DATA_HEADER + RDMA_CRC_LEN).
Definition recorded_length (l : location) : Z :=
  if rdma_length_fits_index_entry (block_size l) then block_size l else i32_max.

Lemma from_as_code k : from_code (as_code k) = k.
Proof. by destruct k. Qed.

(** The four fields of a packed address do not disturb one another. *)
Lemma packed_fields p code overflow check :
  0 <= p < 2 ^ 48 -> 0 <= code < 4 -> 0 <= overflow < 2 -> 0 <= check < 256 ->
  let addr := Z.lor (Z.lor (Z.lor (wrap64 (Z.shiftl p 16)) (Z.shiftl code 6)) (Z.shiftl overflow 5)) (Z.shiftl check 8) in
  field 48 16 addr = p /\ field 2 6 addr = code /\ field 1 5 addr = overflow.
Proof.
  intros Hp Hc Ho Hk addr. subst addr. rewrite !field_lor by lia.
  rewrite wrap64_small by (rewrite Z.shiftl_mul_pow2 by lia; lia).
  rewrite !Z.shiftl_mul_pow2 by lia. unfold field.
  change (2 ^ 16) with 65536. change (2 ^ 6) with 64. change (2 ^ 5) with 32. change (2 ^ 8) with 256.
  change (2 ^ 48) with 281474976710656 in *. change (2 ^ 2) with 4. change (2 ^ 1) with 2.
  split_and!.
  - assert (((p * 65536) `div` 65536) `mod` 281474976710656 = p) as -> by (Z.div_mod_to_equations; lia).
    assert (((code * 64) `div` 65536) `mod` 281474976710656 = 0) as -> by (Z.div_mod_to_equations; lia).
    assert (((overflow * 32) `div` 65536) `mod` 281474976710656 = 0) as -> by (Z.div_mod_to_equations; lia).
    assert (((check * 256) `div` 65536) `mod` 281474976710656 = 0) as -> by (Z.div_mod_to_equations; lia).
    by rewrite !Z.lor_0_r.
  - assert (((p * 65536) `div` 64) `mod` 4 = 0) as -> by (Z.div_mod_to_equations; lia).
    assert (((code * 64) `div` 64) `mod` 4 = code) as -> by (Z.div_mod_to_equations; lia).
    assert (((overflow * 32) `div` 64) `mod` 4 = 0) as -> by (Z.div_mod_to_equations; lia).
    assert (((check * 256) `div` 64) `mod` 4 = 0) as -> by (Z.div_mod_to_equations; lia).
    by rewrite !Z.lor_0_r.
  - assert (((p * 65536) `div` 32) `mod` 2 = 0) as -> by (Z.div_mod_to_equations; lia).
    assert (((code * 64) `div` 32) `mod` 2 = 0) as -> by (Z.div_mod_to_equations; lia).
    assert (((overflow * 32) `div` 32) `mod` 2 = overflow) as -> by (Z.div_mod_to_equations; lia).
    assert (((check * 256) `div` 32) `mod` 2 = 0) as -> by (Z.div_mod_to_equations; lia).
    by rewrite !Z.lor_0_r.
Qed.

Ltac bucket_cbn :=
  cbn [with_bitmap with_fingerprint with_key with_entry with_victim unlock_bucket
       metadata bitmap keys entries fingerprints next_victim_].

Section facts.
Context `{DefaultHasher} {K : Type} `{EqDecision K} `{!Countable K} `{Hash K}.
Implicit Types (b : RdmaBucket K) (T : gmap K location) (k : K) (pos : nat).

(** An entry that says [l] for a key of bucket [i]. *)
Record entry_for (i : nat) k (l : location) (e : RdmaIndexEntry) : Prop := {
  ef_signature : e_signature e =
    if decide (loc_type l = RSsd) then signature_128 k (Z.of_nat i) else signature_96 k (Z.of_nat i) ++ replicate 4 x00;
  ef_ptr : ptr e = loc_addr l;
  ef_type : storage_engine_type e = loc_type l;
  ef_overflow : overflow_flag e = if rdma_length_fits_index_entry (block_size l) then 0 else 1;
  ef_length : e_length e = recorded_length l }.

Lemma written_entry i k l e : loc_ok l ->
  entry_for i k l (write_entry (signature_96 k (Z.of_nat i)) (signature_128 k (Z.of_nat i)) (loc_addr l)
    (block_size l) (loc_type l) e).
Proof.
  intros [Hp Hs]. unfold write_entry. set (e0 := if decide _ then _ else _).
  set (e1 := set_version _).
  assert (0 <= entry_crc e1 < 256) as Hc.
  { unfold entry_crc. change 0xff with (Z.ones 8). rewrite Z.land_ones by lia. apply Z.mod_pos_bound. lia. }
  destruct (packed_fields (loc_addr l) (as_code (loc_type l))
    (if rdma_length_fits_index_entry (block_size l) then 0 else 1) (entry_crc e1)) as (F1 & F2 & F3);
    [done|by destruct (loc_type l)|by destruct (rdma_length_fits_index_entry _)|done|].
  split; unfold set_packed_addr; cbn [e_signature e_addr e_length].
  - subst e1 e0. by destruct (decide (loc_type l = RSsd)).
  - unfold ptr; cbn [e_addr]. change 0xFFFFFFFFFFFF0000 with (Z.shiftl (Z.ones 48) 16). by rewrite masked_field by lia.
  - unfold storage_engine_type, entry_type; cbn [e_addr]. change 0xC0 with (Z.shiftl (Z.ones 2) 6).
    rewrite masked_field, F2 by lia. apply from_as_code.
  - unfold overflow_flag; cbn [e_addr]. change 0x20 with (Z.shiftl (Z.ones 1) 5). by rewrite masked_field by lia.
  - done.
Qed.

Lemma signature_96_length k i : length (signature_96 k i) = 12%nat.
Proof. unfold signature_96. by rewrite length_app, length_take, !le_bytes_length. Qed.

(** The comparison of a lookup accepts the entry of its own key. *)
Lemma entry_signature_matches i k l e : entry_for i k l e ->
  (if decide (storage_engine_type e = RSsd)
   then bool_decide (e_signature e = signature_128 k (Z.of_nat i))
   else bool_decide (signature_96b e = signature_96 k (Z.of_nat i))) = true.
Proof.
  intros [Hs _ Ht _ _]. rewrite Ht. unfold signature_96b. rewrite Hs.
  destruct (decide (loc_type l = RSsd)); [by apply bool_decide_eq_true|].
  apply bool_decide_eq_true. rewrite take_app_length'; [done|by rewrite signature_96_length].
Qed.

(** ** The bitmap *)

Record shape (locked : bool) b : Prop := {
  sh_fingerprints : length (fingerprints (metadata b)) = RDMA_BUCKET_CAP;
  sh_entries : length (entries b) = RDMA_BUCKET_CAP;
  sh_keys : length (keys b) = RDMA_BUCKET_CAP;
  sh_lock : Z.testbit (bitmap (metadata b)) 0 = locked;
  sh_bits pos : (pos < RDMA_BUCKET_CAP)%nat ->
    Z.testbit (bitmap (metadata b)) (Z.of_nat pos + 1) = bool_decide (is_Some (key_at b pos)) }.

Lemma slot_used_bit b pos : slot_used b pos = Z.testbit (bitmap (metadata b)) (Z.of_nat pos + 1).
Proof. unfold slot_used, slot_bit. rewrite land_bit by lia. apply negb_involutive. Qed.

Lemma slot_used_key lk b pos : shape lk b -> (pos < RDMA_BUCKET_CAP)%nat ->
  slot_used b pos = bool_decide (is_Some (key_at b pos)).
Proof. intros S Hp. rewrite slot_used_bit. by apply S. Qed.

Lemma is_locked_bit b : is_locked b = Z.testbit (bitmap (metadata b)) 0.
Proof.
  unfold is_locked. change 1 with (Z.ones 1) at 1. rewrite Z.land_ones by lia. change (2 ^ 1) with 2.
  rewrite <- Z.bit0_mod. by destruct (Z.testbit _ 0).
Qed.

Lemma key_at_some b pos k : key_at b pos = Some k <-> keys b !! pos = Some (Some k).
Proof. unfold key_at. destruct (keys b !! pos) as [[]|]; cbn; split; congruence. Qed.

Lemma key_at_bound lk b pos k : shape lk b -> key_at b pos = Some k -> (pos < RDMA_BUCKET_CAP)%nat.
Proof. intros S Hk. rewrite key_at_some in Hk. rewrite <- (sh_keys _ _ S). by eapply lookup_lt_Some. Qed.
Lemma first_slot_spec (f : nat -> bool) :
  (exists pos, (pos < RDMA_BUCKET_CAP)%nat /\ f pos = true /\ first_slot f = Z.of_nat pos) \/
  ((forall pos, (pos < RDMA_BUCKET_CAP)%nat -> f pos = false) /\ first_slot f = -1).
Proof.
  unfold first_slot. destruct (List.find f (seq 0 RDMA_BUCKET_CAP)) as [pos|] eqn:E.
  - left. apply find_some in E as [Hin Hf]. apply in_seq in Hin. exists pos. split_and!; [lia|done|done].
  - right. split; [|done]. intros pos Hp. apply (find_none _ _ E). apply in_seq. lia.
Qed.

Lemma empty_entry_spec lk b : shape lk b ->
  (exists pos, (pos < RDMA_BUCKET_CAP)%nat /\ key_at b pos = None /\ empty_entry b = Z.of_nat pos) \/
  ((forall pos, (pos < RDMA_BUCKET_CAP)%nat -> is_Some (key_at b pos)) /\ empty_entry b = -1).
Proof.
  intros S. unfold empty_entry. destruct (first_slot_spec (fun pos => negb (slot_used b pos))) as [(pos & Hp & Hf & E)|[Hall E]];
    rewrite E; [left; exists pos|right; split; [|done]].
  - rewrite (slot_used_key lk b pos S Hp) in Hf. apply negb_true_iff, bool_decide_eq_false, eq_None_not_Some in Hf. done.
  - intros pos Hp. specialize (Hall pos Hp). rewrite (slot_used_key lk b pos S Hp) in Hall.
    by apply negb_false_iff, bool_decide_eq_true in Hall.
Qed.

(** A full bucket gives up the slot its hand points at. *)
Lemma full_candidate b : (forall pos, (pos < RDMA_BUCKET_CAP)%nat -> is_Some (key_at b pos)) ->
  eviction_candidate b = next_victim (metadata b).
Proof.
  intros Hf. unfold eviction_candidate. set (start := next_victim (metadata b)).
  assert (start < RDMA_BUCKET_CAP)%nat as Hs by (apply Nat.mod_upper_bound; done).
  change (seq 0 RDMA_BUCKET_CAP) with (0%nat :: seq 1 14). cbn [fmap list_fmap List.find].
  rewrite Nat.add_0_r, Nat.mod_small by done. by rewrite bool_decide_eq_true_2 by auto.
Qed.

(** ** The operations of a bucket, slot by slot *)

Lemma shape_lock b : shape false b -> exists b', lock_bucket b = (true, b') /\ shape true b' /\
  keys b' = keys b /\ entries b' = entries b /\ fingerprints (metadata b') = fingerprints (metadata b) /\
  next_victim_ (metadata b') = next_victim_ (metadata b).
Proof.
  intros S. unfold lock_bucket. rewrite is_locked_bit, (sh_lock _ _ S). eexists; split; [done|].
  split_and!; try done. destruct S as [? ? ? Hl Hb]. split; try done; bucket_cbn.
  - rewrite Z.lor_spec. apply orb_true_r.
  - intros pos Hp. rewrite Z.lor_spec, Hb by done.
    rewrite (testbit_high 1 1) by lia. apply orb_false_r.
Qed.

Lemma shape_unlock b : shape true b -> shape false (unlock_bucket b).
Proof.
  intros [? ? ? Hl Hb]. split; try done; bucket_cbn.
  - rewrite Z.land_spec. apply andb_false_r.
  - intros pos Hp. rewrite Z.land_spec, Hb by done.
    assert (Z.testbit 0xfffe (Z.of_nat pos + 1) = true) as ->; [|apply andb_true_r].
    unfold RDMA_BUCKET_CAP in Hp. do 15 (destruct pos as [|pos]; [done|]). lia.
Qed.

Lemma slot_bit_spec pos i : 0 <= i -> Z.testbit (slot_bit pos) i = (Z.of_nat pos + 1 =? i).
Proof. intros. unfold slot_bit. rewrite Z.shiftl_1_l. rewrite Z.pow2_bits_eqb by lia. done. Qed.

(** The bits of a bucket that occupies one slot more. *)
Lemma shape_claim lk b pos k fp : shape lk b -> (pos < RDMA_BUCKET_CAP)%nat ->
  shape lk (with_fingerprint pos fp (with_key pos (Some k) (occupy_entry pos b))).
Proof.
  intros [? ? ? Hl Hb] Hp. unfold occupy_entry. rewrite (proj2 (Nat.ltb_lt _ _) Hp).
  split; bucket_cbn; rewrite ?length_insert; try done.
  - rewrite Z.lor_spec, slot_bit_spec, Hl by lia. rewrite (proj2 (Z.eqb_neq _ _)) by lia. apply orb_false_r.
  - intros q Hq. rewrite Z.lor_spec, slot_bit_spec, Hb by lia || done.
    unfold key_at; bucket_cbn. destruct (decide (q = pos)) as [->|Hne].
    + rewrite list_lookup_insert_eq by lia. rewrite Z.eqb_refl. cbn. apply orb_true_r.
    + rewrite list_lookup_insert_ne by congruence. rewrite (proj2 (Z.eqb_neq _ _)) by lia. apply orb_false_r.
Qed.

Lemma shape_clear lk b pos : shape lk b -> (pos < RDMA_BUCKET_CAP)%nat -> shape lk (clear_entry pos b).
Proof.
  intros [? ? ? Hl Hb] Hp. unfold clear_entry. rewrite (proj2 (Nat.ltb_lt _ _) Hp).
  split; bucket_cbn; rewrite ?length_insert, ?length_alter; try done.
  - rewrite Z.land_spec, Z.lxor_spec, slot_bit_spec, Hl by lia. rewrite (proj2 (Z.eqb_neq _ _)) by lia. apply andb_true_r.
  - intros q Hq. rewrite Z.land_spec, Z.lxor_spec, slot_bit_spec, Hb by lia || done.
    assert (Z.testbit 0xffff (Z.of_nat q + 1) = true) as ->.
    { unfold RDMA_BUCKET_CAP in Hq. do 15 (destruct q as [|q]; [done|]). lia. }
    unfold key_at; bucket_cbn. destruct (decide (q = pos)) as [->|Hne].
    + rewrite list_lookup_insert_eq by lia. rewrite Z.eqb_refl. apply andb_false_r.
    + rewrite list_lookup_insert_ne by congruence. rewrite (proj2 (Z.eqb_neq _ _)) by lia. apply andb_true_r.
Qed.

Lemma shape_with_entry lk b pos f : shape lk b -> shape lk (with_entry pos f b).
Proof. intros [? ? ? ? ?]. split; try done. bucket_cbn. by rewrite length_alter. Qed.

Lemma shape_with_victim lk b v : shape lk b -> shape lk (with_victim v b).
Proof. by intros [? ? ? ? ?]. Qed.

Lemma shape_default : shape false (default_bucket (K := K)).
Proof.
  split; try done. intros pos Hp. unfold key_at; cbn [default_bucket keys]. rewrite lookup_replicate_2 by done.
  cbn. by rewrite Z.bits_0.
Qed.
(** ** The keys of a bucket as a map *)

Definition home (n : nat) k : nat := Z.to_nat (rdma_stable_hash k 0 `mod` Z.of_nat n).

Definition slot_holds (i : nat) b pos k (l : location) : Prop :=
  fingerprints (metadata b) !! pos = Some (rdma_hash_code_1b k) /\
  exists e, entries b !! pos = Some e /\ entry_for i k l e.

(** The slots of bucket [i] hold exactly the keys of [T] that belong there, each
    once, with the location [T] gives. *)
Record rep (lk : bool) (n i : nat) T b : Prop := {
  rep_shape : shape lk b;
  rep_slot pos k : key_at b pos = Some k -> home n k = i /\ exists l, T !! k = Some l /\ slot_holds i b pos k l;
  rep_all k l : T !! k = Some l -> home n k = i -> exists pos, key_at b pos = Some k;
  rep_unique p q k : key_at b p = Some k -> key_at b q = Some k -> p = q }.

(** A bucket only sees its own keys. *)
Lemma rep_agree lk n i T T' b : (forall k, home n k = i -> T !! k = T' !! k) -> rep lk n i T b -> rep lk n i T' b.
Proof.
  intros E [S Hs Ha Hu]. split; try done.
  - intros pos k Hk. destruct (Hs _ _ Hk) as (Hh & l & Hl & Hr). split; [done|]. exists l. by rewrite <- E.
  - intros k l Hl Hh. apply (Ha k l); [by rewrite E|done].
Qed.

(** Nor the lock bit and the hand. *)
Lemma rep_relabel lk lk' n i T b b' : rep lk n i T b -> shape lk' b' -> keys b' = keys b -> entries b' = entries b ->
  fingerprints (metadata b') = fingerprints (metadata b) -> rep lk' n i T b'.
Proof.
  intros [S Hs Ha Hu] S' Ek Ee Ef. unfold key_at in *.
  split; [done| | |]; unfold key_at; rewrite Ek; try done.
  intros pos k Hk. destruct (Hs _ _ Hk) as (Hh & l & Hl & Hr). split; [done|]. exists l. split; [done|].
  unfold slot_holds in *. by rewrite Ef, Ee.
Qed.

Lemma rep_lock n i T b : rep false n i T b ->
  exists b', lock_bucket b = (true, b') /\ rep true n i T b' /\ keys b' = keys b /\
    next_victim_ (metadata b') = next_victim_ (metadata b).
Proof.
  intros R. destruct (shape_lock b (rep_shape _ _ _ _ _ R)) as (b' & E & S & Ek & Ee & Ef & Ev). exists b'.
  split_and!; try done. by apply (rep_relabel false true n i T b b').
Qed.

Lemma rep_unlock n i T b : rep true n i T b -> rep false n i T (unlock_bucket b).
Proof. intros R. eapply rep_relabel; [done|apply shape_unlock, R|done..]. Qed.

Lemma rep_default n i : rep false n i ∅ (default_bucket (K := K)).
Proof.
  assert (forall pos k, key_at (default_bucket (K := K)) pos = Some k -> False) as Hn.
  { intros pos k Hk. rewrite key_at_some in Hk. cbn [default_bucket keys] in Hk. apply lookup_replicate in Hk as [? _]. done. }
  split; [apply shape_default|intros pos k E; by destruct (Hn pos k E)| |intros p q k E; by destruct (Hn p k E)].
  intros k l E. by rewrite lookup_empty in E.
Qed.

(** A lookup finds the slot of its key or reports that there is none. *)
Lemma get_index_spec lk n i T b k : rep lk n i T b ->
  let found := get_index b k (signature_96 k (Z.of_nat i)) (signature_128 k (Z.of_nat i)) in
  (exists pos l, (pos < RDMA_BUCKET_CAP)%nat /\ key_at b pos = Some k /\ T !! k = Some l /\ slot_holds i b pos k l /\
     found = Z.of_nat pos) \/
  ((forall pos, key_at b pos <> Some k) /\ found = -1).
Proof.
  intros R found. subst found. unfold get_index. match goal with |- context [first_slot ?g] => set (f := g) end.
  assert (forall pos, (pos < RDMA_BUCKET_CAP)%nat -> f pos = true <-> key_at b pos = Some k) as Hf.
  { intros pos Hp. unfold f. rewrite (slot_used_key lk b pos (rep_shape _ _ _ _ _ R) Hp). split.
    - intros Ht. zbool. done.
    - intros Hk. destruct (rep_slot _ _ _ _ _ R pos k Hk) as (_ & l & _ & Hfp & e & He & Hfor).
      unfold entry_at. rewrite Hk, Hfp, He. cbn [default from_option]. rewrite Z.eqb_refl.
      cbn [id]. rewrite (entry_signature_matches i k l e Hfor). by rewrite !bool_decide_eq_true_2. }
  destruct (first_slot_spec f) as [(pos & Hp & Ht & E)|[Hall E]]; rewrite E.
  - left. apply Hf in Ht; [|done]. destruct (rep_slot _ _ _ _ _ R pos k Ht) as (_ & l & Hl & Hh).
    exists pos, l. done.
  - right. split; [|done]. intros pos Hk. pose proof (key_at_bound lk b pos k (rep_shape _ _ _ _ _ R) Hk) as Hp.
    apply (Hf pos Hp) in Hk. by rewrite Hall in Hk.
Qed.

Lemma get_index_absent lk n i T b k : rep lk n i T b -> home n k = i -> T !! k = None ->
  get_index b k (signature_96 k (Z.of_nat i)) (signature_128 k (Z.of_nat i)) = -1.
Proof. intros R Hh Hn. destruct (get_index_spec lk n i T b k R) as [(pos & l & _ & _ & Hl & _)|[_ E]]; [congruence|done]. Qed.

(** ** Changing one slot *)

Lemma rep_clear lk n i T b pos k : rep lk n i T b -> key_at b pos = Some k ->
  rep lk n i (delete k T) (clear_entry pos b) /\ key_at (clear_entry pos b) pos = None /\
  (forall q, q <> pos -> key_at (clear_entry pos b) q = key_at b q).
Proof.
  intros R Hk. pose proof (rep_shape _ _ _ _ _ R) as S. pose proof (key_at_bound _ _ _ _ S Hk) as Hp.
  pose proof (shape_clear lk b pos S Hp) as S'. unfold clear_entry in *. rewrite (proj2 (Nat.ltb_lt _ _) Hp) in *.
  set (b' := with_fingerprint pos 0 _) in *.
  assert (key_at b' pos = None) as Hn.
  { unfold key_at, b'; bucket_cbn. by rewrite list_lookup_insert_eq by (rewrite (sh_keys _ _ S); done). }
  assert (forall q, q <> pos -> key_at b' q = key_at b q) as Hq.
  { intros q Hne. unfold key_at, b'; bucket_cbn. by rewrite list_lookup_insert_ne by congruence. }
  split_and!; try done. split; [done| | |].
  - intros q k' Hk'. destruct (decide (q = pos)) as [->|Hne]; [congruence|]. rewrite Hq in Hk' by done.
    destruct (rep_slot _ _ _ _ _ R q k' Hk') as (Hh & l & Hl & Hfp & e & He & Hfor). split; [done|]. exists l.
    assert (k <> k') as Hkk by (intros ->; apply Hne; by eapply R).
    rewrite lookup_delete_ne by done. split; [done|]. unfold slot_holds, b'; bucket_cbn.
    rewrite list_lookup_insert_ne, list_lookup_alter_ne by congruence. eauto.
  - intros k' l Hl Hh. apply lookup_delete_Some in Hl as [Hkk Hl]. destruct (rep_all _ _ _ _ _ R k' l Hl Hh) as [q Hk'].
    exists q. rewrite Hq; [done|]. intros ->. congruence.
  - intros q q' k' E1 E2. destruct (decide (q = pos)) as [->|H1]; [congruence|].
    destruct (decide (q' = pos)) as [->|H2]; [congruence|]. rewrite Hq in E1, E2 by done. by eapply R.
Qed.

(** Writing a location to the slot that a key has just been given. *)
Lemma rep_claim lk n i T b pos k l f : rep lk n i T b -> (pos < RDMA_BUCKET_CAP)%nat -> key_at b pos = None ->
  home n k = i -> T !! k = None -> (forall e, entry_for i k l (f e)) ->
  let b' := with_entry pos f
    (with_fingerprint pos (rdma_hash_code_1b k) (with_key pos (Some k) (occupy_entry pos b))) in
  rep lk n i (<[k := l]> T) b' /\ key_at b' pos = Some k /\ (forall q, q <> pos -> key_at b' q = key_at b q).
Proof.
  intros R Hp Hn Hh Ht Hf. pose proof (rep_shape _ _ _ _ _ R) as S.
  pose proof (shape_claim lk b pos k (rdma_hash_code_1b k) S Hp) as S'.
  unfold occupy_entry in *. rewrite (proj2 (Nat.ltb_lt _ _) Hp) in *.
  set (b0 := with_fingerprint pos _ _) in *. set (b' := with_entry pos f b0). pose proof (shape_with_entry lk b0 pos f S') as S''.
  assert (key_at b' pos = Some k) as Hk.
  { unfold key_at, b', b0; bucket_cbn. by rewrite list_lookup_insert_eq by (rewrite (sh_keys _ _ S); done). }
  assert (forall q, q <> pos -> key_at b' q = key_at b q) as Hq.
  { intros q Hne. unfold key_at, b', b0; bucket_cbn. by rewrite list_lookup_insert_ne by congruence. }
  assert (forall q, key_at b q <> Some k) as Hfresh.
  { intros q E. destruct (rep_slot _ _ _ _ _ R q k E) as (_ & l' & E' & _). congruence. }
  split_and!; try done. split; [done| | |].
  - intros q k' E. destruct (decide (q = pos)) as [->|Hne].
    + assert (k' = k) as -> by congruence. split; [done|]. exists l. rewrite lookup_insert_eq. split; [done|].
      unfold slot_holds, b', b0; bucket_cbn. rewrite list_lookup_insert_eq by (rewrite (sh_fingerprints _ _ S); done).
      split; [done|]. destruct (lookup_lt_is_Some_2 (entries b) pos) as [e He]; [rewrite (sh_entries _ _ S); done|].
      exists (f e). rewrite list_lookup_alter_eq, He. done.
    + rewrite Hq in E by done. destruct (rep_slot _ _ _ _ _ R q k' E) as (Hh' & l' & Hl' & Hfp & e & He & Hfor).
      split; [done|]. exists l'. rewrite lookup_insert_ne by (intros ->; by eapply Hfresh). split; [done|].
      unfold slot_holds, b', b0; bucket_cbn. rewrite list_lookup_insert_ne, list_lookup_alter_ne by congruence. eauto.
  - intros k' l' Hl' Hh'. destruct (decide (k' = k)) as [->|Hne]; [by exists pos|].
    rewrite lookup_insert_ne in Hl' by congruence. destruct (rep_all _ _ _ _ _ R k' l' Hl' Hh') as [q E].
    exists q. rewrite Hq; [done|]. intros ->. congruence.
  - intros q q' k' E1 E2. destruct (decide (q = pos)) as [->|H1], (decide (q' = pos)) as [->|H2]; try done.
    + assert (k' = k) as -> by congruence. rewrite Hq in E2 by done. by apply Hfresh in E2.
    + assert (k' = k) as -> by congruence. rewrite Hq in E1 by done. by apply Hfresh in E1.
    + rewrite Hq in E1, E2 by done. by eapply R.
Qed.

(** Writing a new location to the slot of a key. *)
Lemma rep_rewrite lk n i T b pos k l f : rep lk n i T b -> key_at b pos = Some k -> (forall e, entry_for i k l (f e)) ->
  rep lk n i (<[k := l]> T) (with_entry pos f b).
Proof.
  intros R Hk Hf. pose proof (rep_shape _ _ _ _ _ R) as S.
  assert (forall q, key_at (with_entry pos f b) q = key_at b q) as Hq by done.
  split; [by apply shape_with_entry| | |]; setoid_rewrite Hq.
  - intros q k' E. destruct (rep_slot _ _ _ _ _ R q k' E) as (Hh & l' & Hl' & Hfp & e & He & Hfor). split; [done|].
    destruct (decide (q = pos)) as [->|Hne].
    + assert (k' = k) as -> by congruence. exists l. rewrite lookup_insert_eq. split; [done|]. split; [done|].
      exists (f e). bucket_cbn. rewrite list_lookup_alter_eq, He. done.
    + exists l'. rewrite lookup_insert_ne by (intros ->; apply Hne; by eapply R). split; [done|]. split; [done|].
      exists e. bucket_cbn. rewrite list_lookup_alter_ne by congruence. done.
  - intros k' l' Hl' Hh'. destruct (decide (k' = k)) as [->|Hne]; [by exists pos|].
    rewrite lookup_insert_ne in Hl' by congruence. by eapply R.
  - intros. by eapply R.
Qed.
End facts.
