(* ===== verification/RdmaTable.v ===== *)
(** * The remote block index: the table

    The table refines a finite map from keys to locations.  A put rewrites the
    location of a key it holds, adds a key while its bucket has room, and
    otherwise displaces one key of the same bucket, working its way round the
    bucket; it reports the location it displaced. *)

From S2P Require Import Prelude RdmaIndex RdmaIndexFacts.

Section table.
Context `{DefaultHasher} {K : Type} `{EqDecision K} `{!Countable K} `{Hash K}.
Implicit Types (b : RdmaBucket K) (t : RdmaHashTable K) (T : gmap K location) (k : K) (l : location) (pos : nat).

(** ** One bucket *)

Definition bucket_full b : Prop := forall pos, (pos < RDMA_BUCKET_CAP)%nat -> is_Some (key_at b pos).
#[global] Instance bucket_full_dec b : Decision (bucket_full b).
Proof.
  destruct (decide (Forall (fun pos => is_Some (key_at b pos)) (seq 0 RDMA_BUCKET_CAP))) as [F|F]; [left|right].
  - intros pos Hp. rewrite Forall_forall in F. apply F. apply elem_of_seq. lia.
  - intros Hb. apply F. apply Forall_forall. intros pos Hp. apply Hb. apply elem_of_seq in Hp. lia.
Defined.

(** What a put reports about the location it replaced. *)
Definition displaced_of (gone : option location) : displaced :=
  match gone with None => nothing | Some l => (Some (loc_addr l), recorded_length l, loc_type l) end.

(** The ways a put changes the map. *)
Inductive put_change (n : nat) (full : bool) k l T : option location -> gmap K location -> Prop :=
| put_rewrites l0 : T !! k = Some l0 -> put_change n full k l T (Some l0) (<[k := l]> T)
| put_adds : full = false -> T !! k = None -> put_change n full k l T None (<[k := l]> T)
| put_displaces v lv : full = true -> T !! k = None -> T !! v = Some lv -> home n v = home n k ->
    put_change n full k l T (Some lv) (<[k := l]> (delete v T)).

Lemma recorded_length_pos l : loc_ok l -> Z.max 0 (recorded_length l) = recorded_length l.
Proof.
  intros [_ Hs]. unfold recorded_length, rdma_length_fits_index_entry, block_size, sat_add, i32_max, RDMA_DATA_HEADER,
    RDMA_CRC_LEN, u64_max. destruct (Z.leb_spec (Z.min (2 ^ 64 - 1) (loc_size l + (16 + 8))) (2 ^ 31 - 1)); lia.
Qed.

Lemma displaced_by_entry i k l e : loc_ok l -> entry_for i k l e -> displaced_by e = displaced_of (Some l).
Proof. intros Hl [_ Hp Ht _ Hn]. unfold displaced_by. by rewrite Hp, Ht, Hn, recorded_length_pos. Qed.

(** Every location of the map fits an entry. *)
Definition locs_ok T : Prop := map_Forall (fun _ l => loc_ok l) T.

(** A full bucket that is asked for a key it does not hold gives up the slot
    its hand points at and moves the hand on. *)
Definition takes_turn k b b' : Prop :=
  let pos := next_victim (metadata b) in
  key_at b' pos = Some k /\ (forall q, q <> pos -> key_at b' q = key_at b q) /\
  next_victim (metadata b') = ((pos + 1) `mod` RDMA_BUCKET_CAP)%nat.

Lemma hand_moved pos : (Z.to_nat (Z.of_nat ((pos + 1) `mod` RDMA_BUCKET_CAP)) `mod` RDMA_BUCKET_CAP =
  (pos + 1) `mod` RDMA_BUCKET_CAP)%nat.
Proof. rewrite Nat2Z.id. by apply Nat.Div0.mod_mod. Qed.

Lemma bucket_put n i T b k l : rep true n i T b -> locs_ok T -> home n k = i -> loc_ok l ->
  let sig96 := signature_96 k (Z.of_nat i) in
  let sig128 := signature_128 k (Z.of_nat i) in
  exists pos gone b1 T',
    choose_slot k sig96 sig128 b = (pos, displaced_of gone, b1) /\
    put_change n (bool_decide (bucket_full b)) k l T gone T' /\
    let b' := with_entry pos (write_entry sig96 sig128 (loc_addr l) (block_size l) (loc_type l)) b1 in
    rep true n i T' b' /\ (bucket_full b -> T !! k = None -> takes_turn k b b').
Proof.
  intros R HT Hh Hl sig96 sig128. unfold choose_slot. subst sig96 sig128.
  pose proof (fun e => written_entry i k l e Hl) as Hw. pose proof (rep_shape _ _ _ _ _ R) as S.
  destruct (get_index_spec true n i T b k R) as [(pos & l0 & Hp & Hk & Hl0 & (_ & e & He & Hfor) & ->)|[Hno ->]].
  - rewrite (proj2 (Z.leb_le 0 (Z.of_nat pos))), Nat2Z.id by lia.
    unfold entry_at. rewrite He. cbn [default from_option id].
    exists pos, (Some l0), b, (<[k := l]> T). rewrite (displaced_by_entry i k l0 e) by (by eapply HT || done).
    split_and!; [done|by constructor|by apply rep_rewrite|congruence].
  - assert (T !! k = None) as Hn.
    { destruct (T !! k) as [l0|] eqn:E; [|done]. by destruct (rep_all _ _ _ _ _ R k l0 E Hh) as [q ?%Hno]. }
    cbn [Z.leb Z.compare]. destruct (empty_entry_spec true b S) as [(pos & Hp & Hke & ->)|[Hfull ->]].
    + rewrite (proj2 (Z.leb_le 0 (Z.of_nat pos))), Nat2Z.id by lia.
      destruct (rep_claim true n i T b pos k l _ R Hp Hke Hh Hn Hw) as (R' & _). eexists pos, None, _, _.
      split_and!; [done| |exact R'|].
      * constructor; [|done]. apply bool_decide_eq_false. intros Hb. destruct (Hb pos Hp). congruence.
      * intros Hb. destruct (Hb pos Hp). congruence.
    + cbn [Z.leb Z.compare]. unfold take_eviction_candidate. rewrite (full_candidate b Hfull).
      set (pos := next_victim (metadata b)).
      assert (pos < RDMA_BUCKET_CAP)%nat as Hp by (apply Nat.mod_upper_bound; done).
      destruct (Hfull pos Hp) as [v Hv].
      destruct (rep_slot _ _ _ _ _ R pos v Hv) as (Hhv & lv & Hlv & _ & e & He & Hfor).
      destruct (rep_clear true n i T b pos v R Hv) as (R1 & Hc & Hq).
      set (b1 := with_victim _ (clear_entry pos b)).
      assert (rep true n i (delete v T) b1) as R2 by (eapply rep_relabel; [exact R1|apply shape_with_victim, R1|done..]).
      assert (delete v T !! k = None) as Hn' by by rewrite lookup_delete_None; right.
      destruct (rep_claim true n i (delete v T) b1 pos k l _ R2 Hp Hc Hh Hn' Hw) as (R3 & Hk & Hq').
      unfold entry_at. rewrite He. cbn [default from_option id].
      eexists pos, (Some lv), _, _. rewrite (displaced_by_entry i v lv e) by (by eapply HT || done).
      split_and!; [done| |exact R3|].
      * econstructor; [by apply bool_decide_eq_true|done|done|congruence].
      * intros _ _. split_and!; [exact Hk| |].
        -- intros q Hne. rewrite Hq' by done. by rewrite <- Hq.
        -- unfold occupy_entry. rewrite (proj2 (Nat.ltb_lt _ _) Hp). apply hand_moved.
Qed.
(** ** The table *)

(** The table holds exactly the map, every bucket unlocked. *)
Record index_rep t T : Prop := {
  ir_some : (0 < length (buckets t))%nat;
  ir_locs : locs_ok T;
  ir_bucket i b : buckets t !! i = Some b -> rep false (length (buckets t)) i T b }.

Lemma home_bound n k : (0 < n)%nat -> (home n k < n)%nat.
Proof.
  intros Hn. unfold home. assert (0 <= rdma_stable_hash k 0 `mod` Z.of_nat n < Z.of_nat n) by (apply Z.mod_pos_bound; lia). lia.
Qed.

Lemma home_bucket t T k : index_rep t T -> exists b, buckets t !! home (length (buckets t)) k = Some b /\
  bucket_at t (home (length (buckets t)) k) = b /\ rep false (length (buckets t)) (home (length (buckets t)) k) T b.
Proof.
  intros R. destruct (lookup_lt_is_Some_2 (buckets t) (home (length (buckets t)) k)) as [b Hb]; [apply home_bound, R|].
  exists b. split_and!; [done| |by apply R]. unfold bucket_at. by rewrite Hb.
Qed.

Lemma index_rep_new n : index_rep (new_table n) ∅.
Proof.
  split; unfold new_table; cbn; [rewrite length_replicate; lia|by apply map_Forall_empty|].
  intros i b Hb. apply lookup_replicate in Hb as [-> _]. apply rep_default.
Qed.

(** Replacing a bucket by one that represents the new map at home. *)
Lemma index_rep_set t T T' k b : index_rep t T -> locs_ok T' ->
  (forall k', home (length (buckets t)) k' <> home (length (buckets t)) k -> T !! k' = T' !! k') ->
  rep false (length (buckets t)) (home (length (buckets t)) k) T' b ->
  index_rep (set_bucket (home (length (buckets t)) k) b t) T'.
Proof.
  intros R HT E Rb. split; cbn; rewrite ?length_insert; [apply R|done|].
  intros i b' Hb'. rewrite list_lookup_insert in Hb'. case_decide as Hi.
  - destruct Hi as [<- _]. by simplify_eq.
  - assert (i <> home (length (buckets t)) k) as Hne by (intros ->; apply Hi; split; [done|apply home_bound, R]).
    eapply rep_agree; [|by apply R]. intros k' Hk'. apply E. congruence.
Qed.

Lemma table_get_ok t T k : index_rep t T -> table_get t k =
  match T !! k with
  | None => mkGet None 0 RInvalid
  | Some l => mkGet (Some (loc_addr l)) (if rdma_length_fits_index_entry (block_size l) then block_size l else 0) (loc_type l)
  end.
Proof.
  intros R. destruct (home_bucket t T k R) as (b & _ & Hb & Rb). unfold table_get. fold (home (length (buckets t)) k).
  change (bucket_pos t k) with (home (length (buckets t)) k). rewrite Hb.
  destruct (get_index_spec _ _ _ T b k Rb) as [(pos & l & Hp & Hk & Hl & (_ & e & He & Hfor) & ->)|[Hno ->]].
  - rewrite (proj2 (Z.ltb_ge _ _)), Nat2Z.id, Hl by lia. unfold entry_at. rewrite He. cbn [default from_option id].
    destruct Hfor as [_ -> -> -> ->]. rewrite recorded_length_pos by (by eapply R). unfold recorded_length.
    by destruct (rdma_length_fits_index_entry _).
  - destruct (T !! k) as [l|] eqn:E; [|done]. by destruct (rep_all _ _ _ _ _ Rb k l E eq_refl) as [q ?%Hno].
Qed.

Lemma locs_ok_insert T k l : locs_ok T -> loc_ok l -> locs_ok (<[k := l]> T).
Proof. intros. by apply map_Forall_insert_2. Qed.
Lemma locs_ok_delete T k : locs_ok T -> locs_ok (delete k T).
Proof. apply map_Forall_delete. Qed.

Lemma put_change_locs n full k l T gone T' : put_change n full k l T gone T' -> locs_ok T -> loc_ok l -> locs_ok T'.
Proof. intros [] ? ?; apply locs_ok_insert; try done. by apply locs_ok_delete. Qed.

Lemma put_change_elsewhere n full k l T gone T' k' : put_change n full k l T gone T' -> home n k' <> home n k ->
  T !! k' = T' !! k'.
Proof.
  intros [] Hne; rewrite lookup_insert_ne by congruence; [done|done|]. rewrite lookup_delete_ne by congruence. done.
Qed.

Definition home_full t k : Prop := bucket_full (bucket_at t (home (length (buckets t)) k)).
#[global] Instance home_full_dec t k : Decision (home_full t k) := bucket_full_dec _.

Lemma table_put_ok t T k l : index_rep t T -> loc_ok l -> exists gone T',
  put_change (length (buckets t)) (bool_decide (home_full t k)) k l T gone T' /\
  let '(r, t') := table_put k (loc_addr l) (loc_size l) (loc_type l) t in
  (let '(a, len, ty) := displaced_of gone in r = mkPut RDMA_OP_SUCCESS a len ty) /\
  index_rep t' T' /\ length (buckets t') = length (buckets t) /\
  (home_full t k -> T !! k = None ->
   takes_turn k (bucket_at t (home (length (buckets t)) k)) (bucket_at t' (home (length (buckets t)) k))).
Proof.
  intros R Hl. destruct (home_bucket t T k R) as (b & Hbi & Hb & Rb). unfold home_full, home_full_dec, table_put.
  change (bucket_pos t k) with (home (length (buckets t)) k). rewrite Hb.
  destruct (rep_lock _ _ _ _ Rb) as (bl & El & Rl & Ek & Ev). rewrite El. cbn [negb].
  destruct (bucket_put _ _ T bl k l Rl (ir_locs _ _ R) eq_refl Hl) as (pos & gone & b1 & T' & Ec & Hch & R' & Ht).
  rewrite Ec. assert (bucket_full bl <-> bucket_full b) as Hfull by (unfold bucket_full, key_at; by rewrite Ek).
  exists gone, T'. rewrite <- (bool_decide_ext _ _ Hfull). split; [done|].
  destruct (displaced_of gone) as [[a len] ty]. split_and!; [done| |by cbn; rewrite length_insert|].
  - apply (index_rep_set t T); [done|by eapply put_change_locs; [done|apply R|]| |by apply rep_unlock].
    intros k'. by eapply put_change_elsewhere.
  - intros Hf Hn. destruct (Ht (proj2 Hfull Hf) Hn) as (T1 & T2 & T3). unfold bucket_at, set_bucket; cbn [buckets].
    rewrite list_lookup_insert_eq by (apply home_bound, R). cbn [default from_option id].
    unfold takes_turn, next_victim, key_at in *. cbn [unlock_bucket with_bitmap keys metadata next_victim_].
    rewrite <- Ev, <- Ek. done.
Qed.

Lemma table_del_ok t T k : index_rep t T ->
  let '(r, t') := table_del k t in
  match T !! k with
  | None => r = mkDel RDMA_NOT_FOUND None 0 RInvalid
  | Some l => r = mkDel RDMA_OP_SUCCESS (Some (loc_addr l)) (recorded_length l) (loc_type l)
  end /\ index_rep t' (delete k T) /\ length (buckets t') = length (buckets t).
Proof.
  intros R. destruct (home_bucket t T k R) as (b & Hbi & Hb & Rb). unfold table_del.
  change (bucket_pos t k) with (home (length (buckets t)) k). rewrite Hb.
  destruct (rep_lock _ _ _ _ Rb) as (bl & -> & Rl & Ek & Ev). cbn [negb].
  assert (forall k', home (length (buckets t)) k' <> home (length (buckets t)) k -> T !! k' = delete k T !! k') as He
    by (intros k' Hne; rewrite lookup_delete_ne by congruence; done).
  destruct (get_index_spec _ _ _ T bl k Rl) as [(pos & l & Hp & Hk & Hl & (_ & e & Hee & Hfor) & ->)|[Hno ->]].
  - rewrite (proj2 (Z.ltb_ge _ _)), Nat2Z.id, Hl by lia. unfold entry_at. rewrite Hee. cbn [default from_option id].
    destruct (rep_clear _ _ _ _ bl pos k Rl Hk) as (Rc & _). split_and!; [|  |by cbn; rewrite length_insert].
    + destruct Hfor as [_ -> -> _ ->]. by rewrite recorded_length_pos by (by eapply R).
    + apply (index_rep_set t T); [done|by apply locs_ok_delete, R|done|by apply rep_unlock].
  - cbn [Z.ltb Z.compare]. destruct (T !! k) as [l|] eqn:E; [by destruct (rep_all _ _ _ _ _ Rl k l E eq_refl) as [q ?%Hno]|].
    rewrite delete_id by done. split_and!; [done| |by cbn; rewrite length_insert].
    apply (index_rep_set t T); [done|apply R|done|by apply rep_unlock].
Qed.
(** ** Counting *)

(** The keys in the slots of a bucket. *)
Definition bucket_keys b : list K := omap id (keys b).

Lemma elem_of_bucket_keys b k : k ∈ bucket_keys b <-> exists pos, key_at b pos = Some k.
Proof.
  unfold bucket_keys. rewrite list_elem_of_omap. setoid_rewrite key_at_some. split.
  - intros (o & Ho & E). cbn in E. subst o. by apply list_elem_of_lookup in Ho.
  - intros [pos Hp]. exists (Some k). split; [|done]. by eapply list_elem_of_lookup_2.
Qed.

Lemma omap_id_nodup {A} (ks : list (option A)) :
  (forall (p q : nat) (x : A), ks !! p = Some (Some x) -> ks !! q = Some (Some x) -> p = q) -> NoDup (omap id ks).
Proof.
  induction ks as [|o ks IH]; intros Hu; [constructor|].
  assert (NoDup (omap id ks)) as Hks.
  { apply IH. intros p q x Hp Hq. enough (S p = S q) by congruence. by eapply (Hu (S p) (S q)). }
  destruct o as [x|]; cbn; [|done]. constructor; [|done]. intros Hin.
  apply list_elem_of_omap in Hin as (o & Ho & E). cbn in E. subst o.
  apply list_elem_of_lookup in Ho as [p Hp]. by specialize (Hu (S p) 0%nat x Hp eq_refl).
Qed.

Lemma bucket_keys_nodup lk n i T b : rep lk n i T b -> NoDup (bucket_keys b).
Proof. intros R. apply omap_id_nodup. intros p q k. rewrite <- !key_at_some. apply R. Qed.

Lemma bucket_keys_of lk n i T b k : rep lk n i T b -> k ∈ bucket_keys b <-> is_Some (T !! k) /\ home n k = i.
Proof.
  intros R. rewrite elem_of_bucket_keys. split.
  - intros [pos Hp]. destruct (rep_slot _ _ _ _ _ R pos k Hp) as (Hh & l & Hl & _). split; [by exists l|done].
  - intros [[l Hl] Hh]. by eapply R.
Qed.

(** How many keys of the map belong to bucket [i]. *)
Definition occupancy {A} (n i : nat) (M : gmap K A) : nat := size (filter (fun kl => home n kl.1 = i) M).

Lemma keys_size {A} (M : gmap K A) (l : list K) : NoDup l -> (forall k, k ∈ l <-> is_Some (M !! k)) -> size M = length l.
Proof.
  intros Hd Hl. rewrite <- size_dom. erewrite <- (size_list_to_set (C := gset K)) by done. f_equal.
  apply leibniz_equiv. intros k. rewrite elem_of_dom, elem_of_list_to_set. symmetry. apply Hl.
Qed.

Lemma occupancy_keys lk n i T b : rep lk n i T b -> occupancy n i T = length (bucket_keys b).
Proof.
  intros R. apply keys_size; [by eapply bucket_keys_nodup|]. intros k. rewrite (bucket_keys_of _ _ _ _ _ _ R). split.
  - intros [[l Hl] Hh]. exists l. by apply map_lookup_filter_Some_2.
  - intros [l [Hl Hh]%map_lookup_filter_Some]. split; [by exists l|done].
Qed.

Lemma occupancy_dom {A B} n i (M : gmap K A) (M' : gmap K B) :
  (forall k, is_Some (M !! k) <-> is_Some (M' !! k)) -> occupancy n i M = occupancy n i M'.
Proof.
  intros E. unfold occupancy. rewrite <- !size_dom. f_equal. apply leibniz_equiv. intros k. rewrite !elem_of_dom.
  split; intros [x [Hx Hh]%map_lookup_filter_Some].
  - destruct (proj1 (E k)) as [y Hy]; [by exists x|]. exists y. by apply map_lookup_filter_Some_2.
  - destruct (proj2 (E k)) as [y Hy]; [by exists x|]. exists y. by apply map_lookup_filter_Some_2.
Qed.

Lemma omap_id_count {A} (ks : list (option A)) :
  length (omap id ks) =
  length (List.filter (fun i => bool_decide (is_Some (default None (ks !! i)))) (seq 0 (length ks))).
Proof.
  induction ks as [|o ks IH] using rev_ind; [done|].
  rewrite omap_app, !length_app, Nat.add_1_r, seq_S, List.filter_app, length_app, IH. f_equal.
  - f_equal. apply filter_ext_in. intros i [_ Hi]%in_seq. by rewrite lookup_app_l by lia.
  - cbn. rewrite list_lookup_middle by done. by destruct o.
Qed.

Lemma omap_id_full {A} (ks : list (option A)) :
  (length (omap id ks) <= length ks)%nat /\ (length (omap id ks) = length ks <-> forall o, o ∈ ks -> is_Some o).
Proof.
  induction ks as [|o ks [Hle IH]]; [split; [done|split; [intros _ o Ho; by apply not_elem_of_nil in Ho|done]]|].
  destruct o as [x|]; cbn.
  - split; [lia|]. split.
    + intros E o [->|Ho]%elem_of_cons; [by eexists|]. apply IH; [lia|done].
    + intros Ha. f_equal. apply IH. intros o Ho. apply Ha. by right.
  - split; [lia|]. split; [lia|]. intros Ha. destruct (Ha None); [by left|done].
Qed.

Lemma full_occupancy lk n i T b : rep lk n i T b -> bucket_full b <-> occupancy n i T = RDMA_BUCKET_CAP.
Proof.
  intros R. rewrite (occupancy_keys _ _ _ _ _ R), <- (sh_keys _ _ (rep_shape _ _ _ _ _ R)).
  unfold bucket_keys. rewrite (proj2 (omap_id_full _)). split.
  - intros Hb o [pos Hp]%list_elem_of_lookup. destruct (Hb pos) as [k Hk].
    { rewrite <- (sh_keys _ _ (rep_shape _ _ _ _ _ R)). by eapply lookup_lt_Some. }
    rewrite key_at_some in Hk. rewrite Hk in Hp. simplify_eq. by exists k.
  - intros Ha pos Hp. rewrite <- (sh_keys _ _ (rep_shape _ _ _ _ _ R)) in Hp. apply lookup_lt_is_Some_2 in Hp as [o Ho].
    destruct (Ha o) as [k ->]; [by eapply list_elem_of_lookup_2|]. exists k. by apply key_at_some.
Qed.

Lemma bucket_count lk b : shape lk b -> occupied_entry_count b = Z.of_nat (length (bucket_keys b)).
Proof.
  intros S. unfold occupied_entry_count, count_ones, bucket_keys. f_equal. rewrite omap_id_count, (sh_keys _ _ S).
  change (seq 0 16) with (seq 0 RDMA_BUCKET_CAP ++ [15%nat]). rewrite List.filter_app, length_app.
  assert (forall i, (i < 16)%nat -> Z.testbit (Z.land (Z.shiftr (bitmap (metadata b)) 1) 0x7fff) (Z.of_nat i) =
    Z.testbit (bitmap (metadata b)) (Z.of_nat i + 1) && (i <? RDMA_BUCKET_CAP)%nat) as E.
  { intros i Hi. rewrite Z.land_spec, Z.shiftr_spec by lia. f_equal. change 0x7fff with (Z.ones 15).
    rewrite testbit_ones by lia. unfold RDMA_BUCKET_CAP. destruct (Z.ltb_spec (Z.of_nat i) 15), (Nat.ltb_spec i 15); lia. }
  assert (forall f : nat -> bool, f 15%nat = false -> List.filter f [15%nat] = []) as Hlast
    by (intros f Hf; cbn; by rewrite Hf).
  rewrite Hlast by (rewrite E by lia; apply andb_false_r). rewrite Nat.add_0_r. f_equal.
  apply filter_ext_in. intros i [_ Hi]%in_seq. rewrite E by (unfold RDMA_BUCKET_CAP in Hi; lia).
  rewrite (proj2 (Nat.ltb_lt _ _)), andb_true_r by lia. apply S. lia.
Qed.

Lemma buckets_seq t : buckets t = bucket_at t <$> seq 0 (length (buckets t)).
Proof.
  apply list_eq. intros i. rewrite list_lookup_fmap. destruct (decide (i < length (buckets t))%nat) as [Hi|Hi].
  - rewrite lookup_seq_lt by done. cbn. unfold bucket_at. by destruct (lookup_lt_is_Some_2 _ _ Hi) as [b ->].
  - rewrite lookup_ge_None_2 by lia. by rewrite lookup_seq_ge by lia.
Qed.

Lemma table_count t T : index_rep t T -> num_entries t = Z.of_nat (size T) /\ all_buckets_unlocked t = true.
Proof.
  intros R. set (n := length (buckets t)).
  assert (forall i, (i < n)%nat -> rep false n i T (bucket_at t i)) as Rb.
  { intros i Hi. destruct (lookup_lt_is_Some_2 _ _ Hi) as [b Hb]. unfold bucket_at. rewrite Hb. by apply R. }
  split.
  - rewrite (keys_size T (seq 0 n ≫= fun i => bucket_keys (bucket_at t i))).
    + unfold num_entries. rewrite buckets_seq. fold n.
      assert (forall js : list nat, (forall i, i ∈ js -> (i < n)%nat) ->
        foldr (fun b acc => occupied_entry_count b + acc) 0 (bucket_at t <$> js) =
        Z.of_nat (length (js ≫= fun i => bucket_keys (bucket_at t i)))) as Hsum.
      { induction js as [|i js IH]; intros Hl; [done|]. cbn. rewrite IH by (intros; apply Hl; by right).
        rewrite (bucket_count false) by (apply (rep_shape false n i T), Rb, Hl; by left). rewrite length_app. lia. }
      apply Hsum. intros i ?%elem_of_seq. lia.
    + apply NoDup_bind.
      * intros i j k Hi Hj E1 E2. apply elem_of_seq in Hi, Hj.
        apply (bucket_keys_of _ _ _ _ _ _ (Rb i ltac:(lia))) in E1 as [_ <-].
        by apply (bucket_keys_of _ _ _ _ _ _ (Rb j ltac:(lia))) in E2 as [_ <-].
      * intros i Hi%elem_of_seq. eapply bucket_keys_nodup, Rb. lia.
      * apply NoDup_seq.
    + intros k. rewrite list_elem_of_bind. split.
      * intros (i & Hk & Hi%elem_of_seq). by apply (bucket_keys_of _ _ _ _ _ _ (Rb i ltac:(lia))) in Hk as [? _].
      * intros Hk. exists (home n k). pose proof (home_bound n k (ir_some _ _ R)). split; [|apply elem_of_seq; lia].
        by apply (bucket_keys_of _ _ _ _ _ _ (Rb _ H1)).
  - unfold all_buckets_unlocked. apply forallb_forall. intros b Hb%list_elem_of_In.
    apply list_elem_of_lookup in Hb as [i Hi]. rewrite is_locked_bit.
    by rewrite (sh_lock _ _ (rep_shape _ _ _ _ _ (ir_bucket _ _ R i b Hi))).
Qed.
(** ** Histories *)

Inductive table_op := TPut (k : K) (l : location) | TDel (k : K).

Definition table_step t (o : table_op) : RdmaHashTable K :=
  match o with
  | TPut k l => (table_put k (loc_addr l) (loc_size l) (loc_type l) t).2
  | TDel k => (table_del k t).2
  end.
Definition run_table (ops : list table_op) t : RdmaHashTable K := foldl table_step t ops.
Definition table_op_ok (o : table_op) : Prop := match o with TPut _ l => loc_ok l | TDel _ => True end.

#[global] Instance loc_ok_dec l : Decision (loc_ok l).
Proof. unfold loc_ok. apply _. Defined.
#[global] Instance table_op_ok_dec o : Decision (table_op_ok o).
Proof. destruct o; cbn; apply _. Defined.

Lemma table_step_rep t T o : index_rep t T -> table_op_ok o -> exists T', index_rep (table_step t o) T'.
Proof.
  intros R Ho. destruct o as [k l|k]; cbn.
  - destruct (table_put_ok t T k l R Ho) as (gone & T' & _ & Hput). destruct (table_put _ _ _ _ t) as [r t'].
    exists T'. apply Hput.
  - pose proof (table_del_ok t T k R) as Hdel. destruct (table_del k t) as [r t']. exists (delete k T). apply Hdel.
Qed.

Lemma run_table_rep ops t T : index_rep t T -> Forall table_op_ok ops -> exists T', index_rep (run_table ops t) T'.
Proof.
  intros R Ho. revert t T R. induction Ho as [|o ops Ho _ IH]; intros t T R; [by exists T|].
  destruct (table_step_rep t T o R Ho) as [T' R']. by apply (IH _ T').
Qed.

(** Slots met by a hand that starts at [s] are distinct for a full turn. *)
Lemma turn_slots (s a m : nat) : (a < m)%nat -> (m < RDMA_BUCKET_CAP)%nat ->
  ((s + a) `mod` RDMA_BUCKET_CAP <> (s + m) `mod` RDMA_BUCKET_CAP)%nat.
Proof.
  unfold RDMA_BUCKET_CAP. intros Ha Hm E.
  pose proof (Nat.div_mod_eq (s + a) 15). pose proof (Nat.div_mod_eq (s + m) 15). lia.
Qed.

(** The state of a turn: bucket [i] full, the hand [length put] slots on from
    [s], the keys put so far in the slots it passed. *)
Record turning (i s : nat) (put : list (K * location)) t T : Prop := {
  tu_rep : index_rep t T;
  tu_full : bucket_full (bucket_at t i);
  tu_hand : next_victim (metadata (bucket_at t i)) = ((s + length put) `mod` RDMA_BUCKET_CAP)%nat;
  tu_put a k l : put !! a = Some (k, l) ->
    T !! k = Some l /\ key_at (bucket_at t i) ((s + a) `mod` RDMA_BUCKET_CAP) = Some k }.

Lemma turning_step i s put t T k l : turning i s put t T -> (length put < RDMA_BUCKET_CAP)%nat ->
  bucket_pos t k = i -> T !! k = None -> loc_ok l -> exists T',
  turning i s (put ++ [(k, l)]) (table_step t (TPut k l)) T' /\
  length (buckets (table_step t (TPut k l))) = length (buckets t) /\
  (forall k', k' <> k -> T !! k' = None -> T' !! k' = None).
Proof.
  intros [R Hf Hh Hp] Hlen Hi Hn Hl. cbn [table_step].
  destruct (table_put_ok t T k l R Hl) as (gone & T' & Hch & Hput).
  destruct (table_put _ _ _ _ t) as [r t']. destruct Hput as (_ & R' & El & Ht). cbn [snd].
  change (bucket_pos t k) with (home (length (buckets t)) k) in Hi. rewrite Hi in Ht. unfold home_full, home_full_dec in *. rewrite Hi in *.
  destruct (Ht Hf Hn) as (Hk & Hq & Hnv). rewrite Hh in *. set (pos := ((s + length put) `mod` RDMA_BUCKET_CAP)%nat) in *.
  rewrite bool_decide_eq_true_2 in Hch by done.
  assert (forall k', T' !! k' = if decide (k' = k) then Some l else T' !! k') as Hk'.
  { intros k'. case_decide as E; [|done]. subst k'. by destruct Hch; rewrite lookup_insert_eq. }
  assert (forall k' l', k' <> k -> T' !! k' = Some l' -> T !! k' = Some l') as Hsub.
  { intros k' l' Hne E. destruct Hch; rewrite lookup_insert_ne in E by congruence; try done.
    by apply lookup_delete_Some in E as [_ E]. }
  exists T'. split_and!; [|done|].
  - split; [done| | |].
    + intros q Hqb. destruct (decide (q = pos)) as [->|Hne]; [by exists k|]. rewrite Hq by done. by apply Hf.
    + rewrite Hnv, length_app. cbn [length]. subst pos.
      rewrite Nat.Div0.add_mod_idemp_l. f_equal. lia.
    + intros a k' l' Ha. apply lookup_app_Some in Ha as [Ha|[Hge Ha]].
      * destruct (Hp a k' l' Ha) as [E1 E2].
        assert (a < length put)%nat as Halt by (by eapply lookup_lt_Some).
        rewrite Hq by (by apply turn_slots). split; [|done].
        assert (k' <> k) as Hne by congruence.
        destruct (home_bucket t' T' k R') as (b' & _ & Eb & Rb). rewrite El, Hi in Eb, Rb.
        destruct (rep_slot _ _ _ _ _ Rb ((s + a) `mod` RDMA_BUCKET_CAP)%nat k') as (_ & l'' & E3 & _).
        { rewrite <- Eb, Hq by (by apply turn_slots). done. }
        rewrite E3. f_equal. apply Hsub in E3; [congruence|done].
      * assert (a - length put = 0)%nat as E0 by (apply lookup_lt_Some in Ha; cbn in Ha; lia).
        rewrite E0 in Ha. cbn in Ha. simplify_eq. assert (a = length put) as -> by lia.
        split; [|done]. rewrite Hk'. by rewrite decide_True.
  - intros k' Hne E. destruct (T' !! k') as [l'|] eqn:E'; [|done]. apply Hsub in E'; [congruence|done].
Qed.

Lemma turning_run i s new put t T : turning i s put t T -> (length put + length new <= RDMA_BUCKET_CAP)%nat ->
  NoDup new.*1 -> (forall k l, (k, l) ∈ new -> bucket_pos t k = i /\ T !! k = None /\ loc_ok l) ->
  exists T', turning i s (put ++ new) (run_table ((fun kl => TPut kl.1 kl.2) <$> new) t) T'.
Proof.
  revert put t T. induction new as [|[k l] new IH]; intros put t T Ht Hlen Hd Hnew; [rewrite app_nil_r; by exists T|].
  cbn in Hd, Hlen. apply NoDup_cons in Hd as [Hnk Hd].
  destruct (Hnew k l) as (Hi & Hn & Hl); [by left|].
  destruct (turning_step i s put t T k l Ht ltac:(lia) Hi Hn Hl) as (T1 & Ht1 & El & Hsame).
  cbn [fmap list_fmap run_table foldl fst snd]. rewrite cons_middle, app_assoc. apply (IH _ _ T1); [done| |done|].
  - rewrite length_app. cbn. lia.
  - intros k' l' Hin. destruct (Hnew k' l') as (Hi' & Hn' & Hl'); [by right|]. unfold bucket_pos in *. rewrite El.
    split_and!; [done| |done]. apply Hsame; [|done]. intros ->. apply Hnk. by apply (list_elem_of_fmap_2 fst) in Hin.
Qed.

(** Displacement works its way round a full bucket: of the keys put into a
    full bucket one after another, each displacing an older one, the last
    fifteen are all still found where they were put. *)
Theorem displacement_goes_round n ops i new :
  let t := run_table ops (new_table n) in
  Forall table_op_ok ops ->
  occupied_entry_count (bucket_at t i) = Z.of_nat RDMA_BUCKET_CAP ->
  (length new <= RDMA_BUCKET_CAP)%nat -> NoDup new.*1 ->
  Forall (fun kl => bucket_pos t kl.1 = i /\ get_addr (table_get t kl.1) = None /\ loc_ok kl.2) new ->
  Forall (fun kl => get_addr (table_get (run_table ((fun kl => TPut kl.1 kl.2) <$> new) t) kl.1) = Some (loc_addr kl.2)) new.
Proof.
  intros t Ho Hc Hlen Hd Hnew. destruct (run_table_rep ops (new_table n) ∅ (index_rep_new n) Ho) as [T R]. fold t in R.
  apply Forall_forall. intros [k l] Hin. rewrite Forall_forall in Hnew.
  destruct (Hnew _ Hin) as (Hi & _ & _). cbn [fst snd] in *. change (bucket_pos t k) with (home (length (buckets t)) k) in Hi.
  destruct (home_bucket t T k R) as (b & _ & Hb & Rb). rewrite Hi in *.
  assert (bucket_full (bucket_at t i)) as Hf.
  { rewrite Hb in Hc |- *. rewrite (bucket_count false) in Hc by apply Rb.
    apply (full_occupancy _ _ _ _ _ Rb). rewrite (occupancy_keys _ _ _ _ _ Rb). lia. }
  destruct (turning_run i (next_victim (metadata (bucket_at t i))) new [] t T) as [T' Ht]; [|done|done| |].
  - split; [done|done| |done]. cbn [length]. rewrite Nat.add_0_r. symmetry.
    by apply Nat.mod_small, Nat.mod_upper_bound.
  - intros k' l' Hin'. destruct (Hnew _ Hin') as (Hi' & Hg & Hl'). cbn [fst snd] in *. split_and!; [done| |done].
    rewrite (table_get_ok t T k' R) in Hg. by destruct (T !! k').
  - apply list_elem_of_lookup in Hin as [a Ha]. destruct (tu_put _ _ _ _ _ Ht a k l Ha) as [E _].
    rewrite (table_get_ok _ T' k (tu_rep _ _ _ _ _ Ht)), E. done.
Qed.
End table.

(** A hasher that sends every key to one bucket. *)
Definition one_bucket_hasher : DefaultHasher := fun _ => 0.

Section round_witness.
#[local] Existing Instance one_bucket_hasher.

Definition numbered (from len : Z) : list (Z * location) :=
  (fun i => (i, mkLoc (4096 + 64 * i) RDram 10)) <$> seqZ from len.
Definition seventeen : list (table_op (K := Z)) := (fun kl => TPut kl.1 kl.2) <$> numbered 0 17.

Lemma displacement_goes_round_witness :
  Forall (fun kl => get_addr (table_get (run_table ((fun kl => TPut kl.1 kl.2) <$> numbered 17 14)
    (run_table seventeen (new_table 1))) kl.1) = Some (loc_addr kl.2)) (numbered 17 14).
Proof.
  apply (displacement_goes_round 1 seventeen 0 (numbered 17 14)).
  - apply (bool_decide_eq_true_1 _). vm_compute. reflexivity.
  - vm_compute. reflexivity.
  - vm_compute. repeat constructor.
  - apply (bool_decide_eq_true_1 _). vm_compute. reflexivity.
  - apply (bool_decide_eq_true_1 _). vm_compute. reflexivity.
Defined.
End round_witness.
