(* ===== verification/RdmaCache.v ===== *)
(** * The remote cache

    The storage engines behind the remote block index (core/rdma.rs), the
    response a lookup fills, the process-wide registry its buffer is allocated
    in (runtime/allocators_executors.rs), and [RdmaCache], which keeps the
    index and the engines together.  The three engine types hold one
    [RdmaStorageEngine] each and forward to it; flushing persistent memory does
    nothing in the source. *)

From Stdlib Require Import Strings.Byte.
From S2P Require Import Prelude RdmaIndex.

(** [round_up]. *)
Definition round_up (value align : Z) : Z := if align =? 0 then value else (value +! (align - 1)) `div` align * align.

(** ** Virtual regions *)

(** The registry, and the counter addresses are minted from. *)
Record VirtualMemory := mkVM { vm_regions : gmap Z bytes; vm_next : Z }.

Definition align_address (value align : Z) : Z :=
  if align <=? 1 then Z.max value 1 else round_up (Z.max value 1) align.

Definition allocate_virtual_region (len align : Z) (vm : VirtualMemory) : result Z * VirtualMemory :=
  if len =? 0 then (Err CapacityExceeded, vm)
  else
    let stride := Z.max (len +! Z.max align 1) 1 in
    let raw := vm_next vm in
    let p := align_address raw (Z.max align 1) in
    (Ok p, mkVM (<[p := replicate (Z.to_nat len) x00]> (vm_regions vm)) (wrap64 (raw + stride))).

Definition free_virtual_region (p : Z) (vm : VirtualMemory) : result bytes * VirtualMemory :=
  match vm_regions vm !! p with
  | Some v => (Ok v, mkVM (delete p (vm_regions vm)) (vm_next vm))
  | None => (Err NotFound, vm)
  end.

(** [RdmaStdAllocator]: the regions it has handed out. *)
Record RdmaStdAllocator := mkStd { outstanding : gmap Z Z }.

Definition std_allocate (len : Z) (al : RdmaStdAllocator) (vm : VirtualMemory) :
    option Z * RdmaStdAllocator * VirtualMemory :=
  match allocate_virtual_region len 1 vm with
  | (Ok addr, vm) => (Some addr, mkStd (<[addr := len]> (outstanding al)), vm)
  | (Err _, vm) => (None, al, vm)
  end.
Definition std_free (addr : Z) (al : RdmaStdAllocator) (vm : VirtualMemory) : RdmaStdAllocator * VirtualMemory :=
  (mkStd (delete addr (outstanding al)), (free_virtual_region addr vm).2).
Definition outstanding_allocations (al : RdmaStdAllocator) : Z := Z.of_nat (size (outstanding al)).
Definition outstanding_bytes (al : RdmaStdAllocator) : Z := map_sum id (outstanding al).

(** ** Responses *)

Record RdmaResponse := mkResponse { buffer : bytes; allocator : RdmaStdAllocator; allocation : option Z; buf_size : Z }.

Definition new_response : RdmaResponse := mkResponse [] (mkStd ∅) None u64_max.

Definition release_allocation (r : RdmaResponse) (vm : VirtualMemory) : RdmaResponse * VirtualMemory :=
  match allocation r with
  | None => (r, vm)
  | Some p => let '(al, vm) := std_free p (allocator r) vm in (mkResponse (buffer r) al None (buf_size r), vm)
  end.
Definition response_init (size : Z) (r : RdmaResponse) (vm : VirtualMemory) : RdmaResponse * VirtualMemory :=
  let '(r, vm) := release_allocation r vm in
  let '(p, al, vm) := std_allocate size (allocator r) vm in (mkResponse [] al p size, vm).
Definition fill (data : bytes) (r : RdmaResponse) (vm : VirtualMemory) : RdmaResponse * VirtualMemory :=
  let '(r, vm) := release_allocation r vm in
  let '(p, al, vm) := std_allocate (blen data) (allocator r) vm in (mkResponse data al p (blen data), vm).
Definition response_clear (r : RdmaResponse) (vm : VirtualMemory) : RdmaResponse * VirtualMemory :=
  let '(r, vm) := release_allocation r vm in (mkResponse [] (allocator r) (allocation r) u64_max, vm).

(** ** Storage engines *)

Section cache.
Context `{DefaultHasher}.

Definition rdma_data_crc (data : bytes) : Z := finish (hash_feed data).

Record RdmaStoredBlock := mkBlock { blk_key : bytes; blk_value : bytes; blk_crc : Z }.

Definition encoded_without_crc (key value : bytes) : bytes :=
  le_bytes 8 (blen key) ++ le_bytes 8 (blen value) ++ key ++ value.
Definition new_block (key value : bytes) : RdmaStoredBlock :=
  mkBlock key value (rdma_data_crc (encoded_without_crc key value)).
Definition encoded_len (b : RdmaStoredBlock) : Z :=
  RDMA_DATA_HEADER + blen (blk_key b) + blen (blk_value b) + RDMA_CRC_LEN.
Definition encode (b : RdmaStoredBlock) : bytes :=
  encoded_without_crc (blk_key b) (blk_value b) ++ le_bytes 8 (blk_crc b).

Record RdmaStorageEngine := mkEngine {
  storage_type : RdmaStorageEngineKind;
  capacity : Z;
  used : Z;
  next_addr : Z;
  blocks : gmap Z RdmaStoredBlock }.

Definition new_engine (storage_type : RdmaStorageEngineKind) (capacity : Z) : RdmaStorageEngine :=
  let base := match storage_type with
    | RDram => 0x01000000 | RPmem => 0x02000000 | RSsd => 0x03000000 | RInvalid => 0x04000000 end in
  mkEngine storage_type capacity 0 base ∅.

Definition engine_put (key value : bytes) (e : RdmaStorageEngine) : option Z * RdmaStorageEngine :=
  let block := new_block key value in
  let len := encoded_len block in
  if capacity e <? used e +! len then (None, e)
  else
    let addr := next_addr e in
    (Some addr, mkEngine (storage_type e) (capacity e) (wrap64 (used e + len))
       (next_addr e +! Z.max (round_up len 8) 8) (<[addr := block]> (blocks e))).

Definition engine_get (key : bytes) (size : Z) (addr : Z) (e : RdmaStorageEngine) (r : RdmaResponse)
    (vm : VirtualMemory) : Z * RdmaResponse * VirtualMemory :=
  match blocks e !! addr with
  | None => (RDMA_NOT_FOUND, r, vm)
  | Some block =>
      let size := if size =? 0 then encoded_len block else size in
      let '(r, vm) := fill (blk_value block) r vm in
      if decide (blk_key block <> key) then (RDMA_NOT_FOUND, r, vm)
      else
        let expected_without_crc := encoded_len block -! RDMA_CRC_LEN in
        if negb (size =? encoded_len block)
           || negb (rdma_data_crc (encoded_without_crc (blk_key block) (blk_value block)) =? blk_crc block)
           || negb (size -! RDMA_CRC_LEN =? expected_without_crc)
        then (RDMA_CRC_MISMATCH, r, vm)
        else (RDMA_OP_SUCCESS, r, vm)
  end.

Definition engine_del (addr : Z) (e : RdmaStorageEngine) : Z * RdmaStorageEngine :=
  match blocks e !! addr with
  | Some block =>
      (RDMA_OP_SUCCESS, mkEngine (storage_type e) (capacity e) (used e -! encoded_len block) (next_addr e)
         (delete addr (blocks e)))
  | None => (RDMA_OP_SUCCESS, e)
  end.

Definition engine_stats (e : RdmaStorageEngine) : Z * Z * Z := (capacity e, used e, Z.of_nat (size (blocks e))).

(** ** The cache *)

Inductive RdmaReplacementPolicyKind := RFifo | RLru | ROther.

Record RdmaCache := mkCache {
  cache_index : RdmaHashTable bytes;
  dram_engine : option RdmaStorageEngine;
  pmem_engine : option RdmaStorageEngine;
  ssd_engine : option RdmaStorageEngine;
  replacement_policy : RdmaReplacementPolicyKind }.

Definition new_cache (dram_capacity pmem_capacity ssd_capacity : Z) (policy : RdmaReplacementPolicyKind) : RdmaCache :=
  let engine ty cap := if 0 <? cap then Some (new_engine ty cap) else None in
  mkCache (new_table 1024) (engine RDram dram_capacity) (engine RPmem pmem_capacity) (engine RSsd ssd_capacity) policy.

(** The [match storage_type] of every operation. *)
Definition engine_of (c : RdmaCache) (ty : RdmaStorageEngineKind) : option RdmaStorageEngine :=
  match ty with RDram => dram_engine c | RPmem => pmem_engine c | RSsd => ssd_engine c | RInvalid => None end.
Definition set_engine (ty : RdmaStorageEngineKind) (e : RdmaStorageEngine) (c : RdmaCache) : RdmaCache :=
  match ty with
  | RDram => mkCache (cache_index c) (Some e) (pmem_engine c) (ssd_engine c) (replacement_policy c)
  | RPmem => mkCache (cache_index c) (dram_engine c) (Some e) (ssd_engine c) (replacement_policy c)
  | RSsd => mkCache (cache_index c) (dram_engine c) (pmem_engine c) (Some e) (replacement_policy c)
  | RInvalid => c
  end.
Definition set_index (t : RdmaHashTable bytes) (c : RdmaCache) : RdmaCache :=
  mkCache t (dram_engine c) (pmem_engine c) (ssd_engine c) (replacement_policy c).

Definition init_storage_engine (ty : RdmaStorageEngineKind) (capacity : Z) (c : RdmaCache) : RdmaCache :=
  set_engine ty (new_engine ty capacity) c.

Definition put_storage_block (ty : RdmaStorageEngineKind) (key value : bytes) (c : RdmaCache) : option Z * RdmaCache :=
  match engine_of c ty with
  | None => (None, c)
  | Some e => let '(r, e) := engine_put key value e in (r, set_engine ty e c)
  end.
Definition delete_storage_block (ty : RdmaStorageEngineKind) (addr : Z) (c : RdmaCache) : Z * RdmaCache :=
  match engine_of c ty with
  | None => (RDMA_NOT_FOUND, c)
  | Some e => let '(r, e) := engine_del addr e in (r, set_engine ty e c)
  end.

Definition rdma_lookup (key : bytes) (c : RdmaCache) (r : RdmaResponse) (vm : VirtualMemory) : Z * RdmaResponse * VirtualMemory :=
  let index := table_get (cache_index c) key in
  match get_addr index with
  | None => (RDMA_NOT_FOUND, r, vm)
  | Some addr =>
      match engine_of c (get_type index) with
      | None => (RDMA_NOT_FOUND, r, vm)
      | Some e => engine_get key (get_len index) addr e r vm
      end
  end.

Definition insert_to_storage (ty : RdmaStorageEngineKind) (key value : bytes) (c : RdmaCache) : Z * RdmaCache :=
  let '(addr, c) := put_storage_block ty key value c in
  match addr with
  | None => (RDMA_FAIL_ALLOC, c)
  | Some addr =>
      let '(put, t) := table_put key addr (blen key + blen value) ty (cache_index c) in
      let c := set_index t c in
      if negb (put_status put =? RDMA_OP_SUCCESS) then
        let '(_, c) := delete_storage_block ty addr c in (put_status put, c)
      else
        match old_addr put with
        | Some old =>
            if 0 <? old_len put then
              let '(delete_status, c) := delete_storage_block (old_type put) old c in
              if negb (delete_status =? RDMA_OP_SUCCESS) then (RDMA_OP_FAIL, c) else (RDMA_OP_SUCCESS, c)
            else (RDMA_OP_SUCCESS, c)
        | None => (RDMA_OP_SUCCESS, c)
        end
  end.

Definition rdma_insert (key value : bytes) (c : RdmaCache) : Z * RdmaCache := insert_to_storage RDram key value c.

Definition rdma_remove (key : bytes) (c : RdmaCache) : Z * RdmaCache :=
  let '(del, t) := table_del key (cache_index c) in
  let c := set_index t c in
  if negb (del_status del =? RDMA_OP_SUCCESS) then (del_status del, c)
  else match del_addr del with
  | None => (RDMA_NOT_FOUND, c)
  | Some addr => delete_storage_block (del_type del) addr c
  end.

Definition get_capacity (c : RdmaCache) (ty : RdmaStorageEngineKind) : Z :=
  match engine_of c ty with Some e => (engine_stats e).1.1 | None => 0 end.
Definition num_index_entries (c : RdmaCache) : Z := num_entries (cache_index c).
Definition storage_stats (c : RdmaCache) (ty : RdmaStorageEngineKind) : option (Z * Z * Z) :=
  engine_stats <$> engine_of c ty.
Definition set_replacement_policy (p : RdmaReplacementPolicyKind) (c : RdmaCache) : RdmaCache :=
  mkCache (cache_index c) (dram_engine c) (pmem_engine c) (ssd_engine c) p.
End cache.
