(* ===== verification/RdmaSpec.v ===== *)
(** * The remote cache refines a bounded map

    The specification: a map from keys to a medium and a value, bounded by the
    capacity of each medium and by fifteen keys a bucket.  The cache answers
    every history as the specification does, keeps exactly the bytes of the
    entries it holds in each engine, and never leaves a block behind that no
    index entry names.  Re-initialising an engine is outside the
    specification; the last theorem shows what it does. *)

From Stdlib Require Import Strings.Byte.
From S2P Require Import Prelude RdmaIndex RdmaIndexFacts RdmaTable RdmaCache.

Section store.
Context `{DefaultHasher}.

(** ** The specification *)

(** What the cache means: the medium and the value of every key. *)
Abbreviation contents := (gmap bytes (RdmaStorageEngineKind * bytes)).
Implicit Types (M : contents) (T : gmap bytes location) (k g v : bytes) (ty : RdmaStorageEngineKind).

Definition block_len k v : Z := RDMA_DATA_HEADER + blen k + blen v + RDMA_CRC_LEN.

(** The total of a measure over the entries on one medium. *)
Definition stored (f : bytes -> bytes -> Z) M ty : Z :=
  map_sum id (map_imap (fun k tv => if decide (tv.1 = ty) then Some (f k tv.2) else None) M).
Definition stored_bytes : contents -> RdmaStorageEngineKind -> Z := stored block_len.
Definition stored_count : contents -> RdmaStorageEngineKind -> Z := stored (fun _ _ => 1).

(** Room on a medium of the given capacity, if the cache has it at all. *)
Definition room (cap : RdmaStorageEngineKind -> option Z) M ty k v : bool :=
  match cap ty with None => false | Some c => stored_bytes M ty + block_len k v <=? c end.

Inductive cache_op :=
| Insert (ty : RdmaStorageEngineKind) (k v : bytes)
| Remove (k : bytes)
| Lookup (k : bytes).

(** One step of the specification on a table of [n] buckets: the status, and
    the value a lookup hands to the response. *)
Inductive spec_step (n : nat) (cap : RdmaStorageEngineKind -> option Z) M : cache_op -> Z * option bytes -> contents -> Prop :=
| insert_refused ty k v : room cap M ty k v = false -> spec_step n cap M (Insert ty k v) (RDMA_FAIL_ALLOC, None) M
| insert_rewrites ty k v : room cap M ty k v = true -> is_Some (M !! k) ->
    spec_step n cap M (Insert ty k v) (RDMA_OP_SUCCESS, None) (<[k := (ty, v)]> M)
| insert_adds ty k v : room cap M ty k v = true -> M !! k = None -> occupancy n (home n k) M <> RDMA_BUCKET_CAP ->
    spec_step n cap M (Insert ty k v) (RDMA_OP_SUCCESS, None) (<[k := (ty, v)]> M)
| insert_displaces ty k v g : room cap M ty k v = true -> M !! k = None ->
    occupancy n (home n k) M = RDMA_BUCKET_CAP -> is_Some (M !! g) -> home n g = home n k ->
    spec_step n cap M (Insert ty k v) (RDMA_OP_SUCCESS, None) (<[k := (ty, v)]> (delete g M))
| remove_hit k : is_Some (M !! k) -> spec_step n cap M (Remove k) (RDMA_OP_SUCCESS, None) (delete k M)
| remove_miss k : M !! k = None -> spec_step n cap M (Remove k) (RDMA_NOT_FOUND, None) M
| lookup_hit k ty v : M !! k = Some (ty, v) -> spec_step n cap M (Lookup k) (RDMA_OP_SUCCESS, Some v) M
| lookup_miss k : M !! k = None -> spec_step n cap M (Lookup k) (RDMA_NOT_FOUND, None) M.

(** ** Measures of the contents *)

Lemma stored_empty f ty : stored f ∅ ty = 0.
Proof. unfold stored. rewrite map_imap_empty. apply map_sum_empty. Qed.

Lemma stored_insert f M ty k ty' v : M !! k = None ->
  stored f (<[k := (ty', v)]> M) ty = (if decide (ty' = ty) then f k v else 0) + stored f M ty.
Proof.
  intros Hk. unfold stored. case_decide as E.
  - rewrite (map_imap_insert_Some _ _ _ _ (f k v)) by (cbn; by rewrite decide_True).
    rewrite map_sum_insert_new; [done|]. by rewrite map_lookup_imap, Hk.
  - rewrite map_imap_insert_None by (cbn; by rewrite decide_False). rewrite delete_id; [done|].
    by rewrite map_lookup_imap, Hk.
Qed.

Lemma stored_delete f M ty k ty' v : M !! k = Some (ty', v) ->
  stored f M ty = (if decide (ty' = ty) then f k v else 0) + stored f (delete k M) ty.
Proof.
  intros Hk. rewrite <- stored_insert by apply lookup_delete_eq. by rewrite insert_delete_id.
Qed.

Lemma stored_nonneg f M ty : (forall k v, 0 <= f k v) -> 0 <= stored f M ty.
Proof.
  intros Hf. induction M as [|k [ty' v] M Hk IH] using map_ind; [by rewrite stored_empty|].
  rewrite stored_insert by done. specialize (Hf k v). case_decide; lia.
Qed.

Lemma block_len_pos k v : 24 <= block_len k v.
Proof. unfold block_len, RDMA_DATA_HEADER, RDMA_CRC_LEN. pose proof (blen_nonneg k). pose proof (blen_nonneg v). lia. Qed.
(** ** The engines of a cache *)

Abbreviation engines := (RdmaStorageEngineKind -> option RdmaStorageEngine).
Implicit Types (E : engines) (e : RdmaStorageEngine) (l : location) (c : RdmaCache).

Definition upd E ty e : engines := fun ty' => if decide (ty' = ty) then Some e else E ty'.

(** The engines hold the blocks of [M] where [T] says, and nothing else;
    addresses below [limit]. *)
Record stores (limit : Z) (cap : RdmaStorageEngineKind -> option Z) E T M : Prop := {
  st_cap ty : capacity <$> E ty = cap ty;
  st_loc k l : T !! k = Some l -> exists e v, E (loc_type l) = Some e /\
    blocks e !! loc_addr l = Some (new_block k v) /\ M !! k = Some (loc_type l, v) /\ loc_size l = blen k + blen v;
  st_dom k : is_Some (M !! k) -> is_Some (T !! k);
  st_block ty e a b : E ty = Some e -> blocks e !! a = Some b ->
    exists k l, T !! k = Some l /\ loc_type l = ty /\ loc_addr l = a;
  st_used ty e : E ty = Some e -> used e = stored_bytes M ty /\ stored_bytes M ty <= capacity e;
  st_count ty e : E ty = Some e -> Z.of_nat (size (blocks e)) = stored_count M ty;
  st_next ty e : E ty = Some e -> 0 <= next_addr e <= limit;
  st_fresh ty e a : E ty = Some e -> is_Some (blocks e !! a) -> a < next_addr e }.

Lemma encoded_len_new k v : encoded_len (new_block k v) = block_len k v.
Proof. done. Qed.

Lemma stores_dom limit cap E T M k : stores limit cap E T M -> is_Some (M !! k) <-> is_Some (T !! k).
Proof.
  intros S. split; [apply S|]. intros [l Hl]. destruct (st_loc _ _ _ _ _ S k l Hl) as (e & v & _ & _ & Hm & _). by exists (loc_type l, v).
Qed.

(** No two keys share a block. *)
Lemma stores_inj limit cap E T M k k' l l' : stores limit cap E T M -> T !! k = Some l -> T !! k' = Some l' ->
  loc_type l = loc_type l' -> loc_addr l = loc_addr l' -> k = k'.
Proof.
  intros S H1 H2 Et Ea. destruct (st_loc _ _ _ _ _ S k l H1) as (e1 & v1 & E1 & B1 & _).
  destruct (st_loc _ _ _ _ _ S k' l' H2) as (e2 & v2 & E2 & B2 & _). rewrite Et in E1. simplify_eq.
  rewrite Ea in B1. unfold new_block in *. congruence.
Qed.

Lemma stores_ext limit cap E E' T M : (forall ty, E ty = E' ty) -> stores limit cap E T M -> stores limit cap E' T M.
Proof.
  intros HE S. split; [intros ty; rewrite <- HE; apply S| |apply S|..].
  - intros k l Hk. destruct (st_loc _ _ _ _ _ S k l Hk) as (e & v & He & R). exists e, v. by rewrite <- HE.
  - intros ty e a b He. rewrite <- HE in He. by apply (st_block _ _ _ _ _ S).
  - intros ty e He. rewrite <- HE in He. by apply S.
  - intros ty e He. rewrite <- HE in He. by apply S.
  - intros ty e He. rewrite <- HE in He. by eapply S.
  - intros ty e a He. rewrite <- HE in He. by eapply S.
Qed.

Lemma stores_limit limit limit' cap E T M : limit <= limit' -> stores limit cap E T M -> stores limit' cap E T M.
Proof. intros Hl S. destruct S as [? ? ? ? ? ? Hn ?]. split; try assumption. intros ty e He. specialize (Hn ty e He). lia. Qed.

Definition after_del (a : Z) (b : RdmaStoredBlock) e : RdmaStorageEngine :=
  mkEngine (storage_type e) (capacity e) (used e -! encoded_len b) (next_addr e) (delete a (blocks e)).

Lemma engine_del_hit a b e : blocks e !! a = Some b -> engine_del a e = (RDMA_OP_SUCCESS, after_del a b e).
Proof. intros Hb. unfold engine_del. by rewrite Hb. Qed.

(** Deleting the block of a key. *)
Lemma store_drop limit cap E T M k l e : stores limit cap E T M -> T !! k = Some l -> E (loc_type l) = Some e ->
  stores limit cap (upd E (loc_type l) (engine_del (loc_addr l) e).2) (delete k T) (delete k M).
Proof.
  intros S Hk He. destruct (st_loc _ _ _ _ _ S k l Hk) as (e0 & v & He0 & Hb & Hm & Hsz). simplify_eq.
  rewrite (engine_del_hit _ _ _ Hb). cbn [snd].
  destruct (st_used _ _ _ _ _ S _ _ He) as [Hu Hc].
  pose proof (stored_delete block_len M (loc_type l) k _ v Hm) as Hd. rewrite decide_True in Hd by done.
  pose proof (stored_nonneg block_len (delete k M) (loc_type l)) as Hnn.
  assert (forall k v, 0 <= block_len k v) as Hpos by (intros k' v'; pose proof (block_len_pos k' v'); lia). specialize (Hnn Hpos). pose proof (Hpos k v) as Hkv.
  split; unfold upd.
  - intros ty. destruct (decide (ty = loc_type l)) as [->|]; [|apply S]. rewrite <- (st_cap _ _ _ _ _ S), He. done.
  - intros k' l' [Hne Hk']%lookup_delete_Some. destruct (st_loc _ _ _ _ _ S k' l' Hk') as (e1 & v1 & He1 & Hb1 & Hm1 & Hs1).
    rewrite lookup_delete_ne by done. case_decide as Ed; [|by exists e1, v1].
    rewrite Ed in *. simplify_eq. eexists _, v1. split_and!; try done. cbn [blocks after_del].
    rewrite lookup_delete_ne; [done|]. intros Ea. apply Hne. by eapply (stores_inj _ _ _ _ _ k k' l l').
  - intros k' [tv Hk']. apply lookup_delete_Some in Hk' as [Hne Hk']. rewrite lookup_delete_ne by done. apply S. by exists tv.
  - intros ty e1 a b He1 Hb1. case_decide as Ed.
    + subst ty. simplify_eq. cbn [blocks after_del] in Hb1. apply lookup_delete_Some in Hb1 as [Hna Hb1].
      destruct (st_block _ _ _ _ _ S _ _ _ _ He Hb1) as (k' & l' & Hk' & Ht' & Ha'). exists k', l'.
      rewrite lookup_delete_ne; [done|]. intros ->. congruence.
    + destruct (st_block _ _ _ _ _ S _ _ _ _ He1 Hb1) as (k' & l' & Hk' & Ht' & Ha'). exists k', l'.
      rewrite lookup_delete_ne; [done|]. intros ->. congruence.
  - intros ty e1 He1. case_decide as Ed; simplify_eq; cbn [used capacity after_del].
    + rewrite Hu, encoded_len_new, sat_sub_exact by (unfold stored_bytes; lia). unfold stored_bytes in *. lia.
    + destruct (st_used _ _ _ _ _ S _ _ He1). unfold stored_bytes in *. rewrite (stored_delete block_len M ty k _ v Hm) in *.
      rewrite decide_False in * by congruence. lia.
  - intros ty e1 He1. unfold stored_count. case_decide as Ed; simplify_eq; cbn [blocks after_del].
    + rewrite map_size_delete_Some by by eexists. pose proof (st_count _ _ _ _ _ S _ _ He) as Hn.
      unfold stored_count in Hn. rewrite (stored_delete _ M (loc_type l) k _ v Hm), decide_True in Hn by done.
      assert (size (blocks e) <> 0%nat) by (apply (map_size_ne_0_lookup_2 _ (loc_addr l)); eauto). lia.
    + rewrite (st_count _ _ _ _ _ S _ _ He1). unfold stored_count. rewrite (stored_delete _ M ty k _ v Hm).
      rewrite decide_False by congruence. lia.
  - intros ty e1 He1. case_decide as Ed; simplify_eq; [exact (st_next _ _ _ _ _ S _ _ He)|exact (st_next _ _ _ _ _ S _ _ He1)].
  - intros ty e1 a He1 Ha. case_decide as Ed; simplify_eq; [|by eapply S]. cbn [next_addr after_del] in *.
    eapply (st_fresh _ _ _ _ _ S); [done|]. destruct Ha as [b Hb']. cbn [blocks after_del] in Hb'.
    apply lookup_delete_Some in Hb' as [_ Hb']. by exists b.
Qed.

(** ** Adding a block *)

Definition after_put k v e : RdmaStorageEngine :=
  mkEngine (storage_type e) (capacity e) (wrap64 (used e + block_len k v))
    (next_addr e +! Z.max (round_up (block_len k v) 8) 8) (<[next_addr e := new_block k v]> (blocks e)).

Lemma engine_put_room k v e u cp : used e = u -> capacity e = cp -> 0 <= u -> cp < u64_max ->
  engine_put k v e = if u + block_len k v <=? cp then (Some (next_addr e), after_put k v e) else (None, e).
Proof.
  intros <- <- Hu Hc. unfold engine_put. rewrite !encoded_len_new. pose proof (block_len_pos k v).
  unfold sat_add at 1, after_put. destruct (Z.leb_spec (used e + block_len k v) (capacity e)).
  - rewrite (proj2 (Z.ltb_ge _ _)) by lia. done.
  - rewrite (proj2 (Z.ltb_lt _ _)) by lia. done.
Qed.

Lemma round_up_8 n : 24 <= n -> n + 8 <= u64_max -> 0 < Z.max (round_up n 8) 8 <= n + 8.
Proof. unfold round_up, sat_add. cbn. intros. Z.div_mod_to_equations. lia. Qed.

(** A put that has room: exact byte count, a fresh address, the next one in
    bounds. *)
Lemma after_put_fresh limit cap E T M k v ty e : stores limit cap E T M -> E ty = Some e ->
  stored_bytes M ty + block_len k v <= capacity e -> capacity e < u64_max -> limit + block_len k v + 8 <= u64_max ->
  used (after_put k v e) = used e + block_len k v /\
  next_addr e < next_addr (after_put k v e) <= limit + block_len k v + 8 /\ blocks e !! next_addr e = None.
Proof.
  intros S He Hroom Hc Hlim. pose proof (block_len_pos k v) as Hb24.
  destruct (st_used _ _ _ _ _ S _ _ He) as [Hu _]. destruct (st_next _ _ _ _ _ S _ _ He) as [Hn0 Hn1].
  assert (0 <= stored_bytes M ty) as Hnn.
  { apply stored_nonneg. intros k' v'. pose proof (block_len_pos k' v'). lia. }
  pose proof (round_up_8 (block_len k v) Hb24 ltac:(lia)) as Hr. split_and!.
  - cbn. apply wrap64_small. unfold u64_max in *. lia.
  - unfold after_put; cbn [next_addr]. unfold sat_add. lia.
  - unfold after_put; cbn [next_addr]. unfold sat_add. lia.
  - apply eq_None_not_Some. intros Hs. pose proof (st_fresh _ _ _ _ _ S _ _ _ He Hs). lia.
Qed.

Lemma store_add limit cap E T M k v ty e : stores limit cap E T M -> T !! k = None -> E ty = Some e ->
  stored_bytes M ty + block_len k v <= capacity e -> capacity e < u64_max -> limit + block_len k v + 8 <= u64_max ->
  stores (limit + block_len k v + 8) cap (upd E ty (after_put k v e))
    (<[k := mkLoc (next_addr e) ty (blen k + blen v)]> T) (<[k := (ty, v)]> M).
Proof.
  intros S Hk He Hroom Hc Hlim. pose proof (block_len_pos k v) as Hb24.
  assert (M !! k = None) as Hm.
  { apply eq_None_not_Some. intros Hs. apply (st_dom _ _ _ _ _ S) in Hs. rewrite Hk in Hs. by destruct Hs. }
  destruct (st_used _ _ _ _ _ S _ _ He) as [Hu _].
  destruct (st_next _ _ _ _ _ S _ _ He) as [Hn0 Hn1].
  destruct (after_put_fresh _ _ _ _ _ k v ty e S He Hroom Hc Hlim) as (Hu' & Hnx & Hfree).
  assert (forall a, is_Some (blocks e !! a) -> next_addr e <> a) as Hold by (intros a Hs Ea; rewrite <- Ea, Hfree in Hs; by destruct Hs).
  split; unfold upd.
  - intros ty'. destruct (decide (ty' = ty)) as [->|]; [|apply S]. rewrite <- (st_cap _ _ _ _ _ S), He. done.
  - intros k' l'. destruct (decide (k' = k)) as [->|Hne].
    + rewrite !lookup_insert_eq. intros [= <-]. cbn. rewrite decide_True by done. exists (after_put k v e), v.
      cbn [blocks after_put]. by rewrite lookup_insert_eq.
    + rewrite !lookup_insert_ne by done. intros Hk'. destruct (st_loc _ _ _ _ _ S k' l' Hk') as (e1 & v1 & He1 & Hb1 & Hm1 & Hs1).
      case_decide as Ed; [|by exists e1, v1]. rewrite Ed in *. simplify_eq. exists (after_put k v e), v1.
      split_and!; try done. cbn [blocks after_put]. rewrite lookup_insert_ne; [done|]. apply Hold. by eexists.
  - intros k'. destruct (decide (k' = k)) as [->|Hne]; [rewrite !lookup_insert_eq; eauto|].
    rewrite !lookup_insert_ne by done. apply S.
  - intros ty' e1 a b He1 Hb1. case_decide as Ed.
    + subst ty'. simplify_eq. cbn [blocks after_put] in Hb1. apply lookup_insert_Some in Hb1 as [[<- _]|[Hna Hb1]].
      * exists k, (mkLoc (next_addr e) ty (blen k + blen v)). by rewrite lookup_insert_eq.
      * destruct (st_block _ _ _ _ _ S _ _ _ _ He Hb1) as (k' & l' & Hk' & Ht' & Ha'). exists k', l'.
        rewrite lookup_insert_ne; [done|]. congruence.
    + destruct (st_block _ _ _ _ _ S _ _ _ _ He1 Hb1) as (k' & l' & Hk' & Ht' & Ha'). exists k', l'.
      rewrite lookup_insert_ne; [done|]. congruence.
  - intros ty' e1 He1. unfold stored_bytes. rewrite stored_insert by done. case_decide as Ed; simplify_eq.
    + rewrite decide_True by done. rewrite Hu', Hu. cbn [capacity after_put]. unfold stored_bytes in *. lia.
    + rewrite decide_False by congruence. by apply S.
  - intros ty' e1 He1. unfold stored_count. rewrite stored_insert by done. case_decide as Ed; simplify_eq.
    + rewrite decide_True by done. cbn [blocks after_put]. rewrite map_size_insert_None by done.
      pose proof (st_count _ _ _ _ _ S _ _ He). unfold stored_count in *. lia.
    + rewrite decide_False by congruence. by apply S.
  - intros ty' e1 He1. case_decide as Ed; simplify_eq; [lia|].
    destruct (st_next _ _ _ _ _ S _ _ He1). lia.
  - intros ty' e1 a He1 Ha. case_decide as Ed; simplify_eq; [|by eapply S].
    destruct Ha as [b Hb']. cbn [blocks after_put] in Hb'. apply lookup_insert_Some in Hb' as [[<- _]|[_ Hb']]; [lia|].
    assert (a < next_addr e) by (eapply S; [done|by eexists]). lia.
Qed.
(** ** The operations *)

Definition cap_ok (cap : RdmaStorageEngineKind -> option Z) : Prop := forall ty n, cap ty = Some n -> n < u64_max.

Lemma engine_of_set ty e c ty' : ty <> RInvalid -> engine_of (set_engine ty e c) ty' = upd (engine_of c) ty e ty'.
Proof. unfold upd. intros Hty. by destruct ty, ty'. Qed.

Lemma engine_of_valid c ty e : engine_of c ty = Some e -> ty <> RInvalid.
Proof. by intros H1 ->. Qed.

(** The cache holds [M], in a table of [n] buckets and below address [limit]. *)
Definition cache_rep (n : nat) (limit : Z) (cap : RdmaStorageEngineKind -> option Z) c M : Prop :=
  exists T, index_rep (cache_index c) T /\ length (buckets (cache_index c)) = n /\ stores limit cap (engine_of c) T M.

(** A put then a delete of another block, or the other way round. *)
Lemma del_put_comm k v e a b : blocks e !! a = Some b -> a <> next_addr e ->
  0 <= encoded_len b <= used e -> used e + block_len k v <= u64_max ->
  (engine_del a (after_put k v e)).2 = after_put k v (engine_del a e).2.
Proof.
  intros Hb Hne Hu Hw. pose proof (block_len_pos k v). rewrite (engine_del_hit a b e Hb).
  rewrite (engine_del_hit a b) by (cbn [blocks after_put]; by rewrite lookup_insert_ne).
  unfold after_del, after_put; cbn [snd storage_type capacity used next_addr blocks].
  rewrite !wrap64_small by (unfold sat_sub, u64_max in *; lia). rewrite delete_insert_ne by done.
  f_equal. unfold sat_sub. lia.
Qed.

Lemma block_stored limit cap E T M k l e b : stores limit cap E T M -> T !! k = Some l -> E (loc_type l) = Some e ->
  blocks e !! loc_addr l = Some b -> 0 <= encoded_len b <= used e.
Proof.
  intros S Hk He Hb. destruct (st_loc _ _ _ _ _ S k l Hk) as (e' & v & He' & Hb' & Hm & _). simplify_eq.
  destruct (st_used _ _ _ _ _ S _ _ He) as [-> _]. unfold stored_bytes. rewrite (stored_delete _ M _ k _ v Hm).
  rewrite decide_True, encoded_len_new by done. pose proof (block_len_pos k v).
  pose proof (stored_nonneg block_len (delete k M) (loc_type l)) as Hn.
  assert (0 <= stored block_len (delete k M) (loc_type l)); [|lia].
  apply Hn. intros k' v'. pose proof (block_len_pos k' v'). lia.
Qed.

Lemma recorded_length_gt l : loc_ok l -> 0 < recorded_length l.
Proof.
  intros [_ Hs]. unfold recorded_length, rdma_length_fits_index_entry, block_size, sat_add, i32_max, RDMA_DATA_HEADER,
    RDMA_CRC_LEN, u64_max. destruct (Z.leb_spec (Z.min (2 ^ 64 - 1) (loc_size l + (16 + 8))) (2 ^ 31 - 1)); lia.
Qed.

(** Replacing the block of [g] by one of [k], engines first written, then
    cleaned. *)
Lemma store_replace limit cap E T M k v ty e g lg e2 : stores limit cap E T M -> cap_ok cap ->
  E ty = Some e -> stored_bytes M ty + block_len k v <= capacity e -> limit + block_len k v + 8 <= u64_max ->
  T !! g = Some lg -> delete g T !! k = None -> upd E ty (after_put k v e) (loc_type lg) = Some e2 ->
  stores (limit + block_len k v + 8) cap (upd (upd E ty (after_put k v e)) (loc_type lg) (engine_del (loc_addr lg) e2).2)
    (<[k := mkLoc (next_addr e) ty (blen k + blen v)]> (delete g T)) (<[k := (ty, v)]> (delete g M)).
Proof.
  intros S Hcap He Hroom Hlim Hg Hk He2.
  destruct (st_loc _ _ _ _ _ S g lg Hg) as (eg & vg & Heg & Hbg & Hmg & _).
  pose proof (store_drop _ _ _ _ _ g lg eg S Hg Heg) as S1. set (E1 := upd E (loc_type lg) _) in S1.
  assert (capacity e < u64_max) as Hce.
  { apply (Hcap ty). rewrite <- (st_cap _ _ _ _ _ S), He. done. }
  assert (stored_bytes (delete g M) ty <= stored_bytes M ty) as Hle.
  { unfold stored_bytes. rewrite (stored_delete _ M ty g _ vg Hmg). pose proof (block_len_pos g vg). case_decide; lia. }
  destruct (st_used _ _ _ _ _ S _ _ He) as [Hu _].
  unfold upd in He2. destruct (decide (loc_type lg = ty)) as [Ety|Hty].
  - subst ty. simplify_eq.
    assert (E1 (loc_type lg) = Some (engine_del (loc_addr lg) e).2) as He1 by (unfold E1, upd; by rewrite decide_True).
    assert (next_addr (engine_del (loc_addr lg) e).2 = next_addr e) as Hnx by by rewrite (engine_del_hit _ _ _ Hbg).
    pose proof (store_add limit cap E1 _ _ k v (loc_type lg) _ S1 Hk He1) as S2. rewrite Hnx in S2.
    eapply stores_ext; [|apply S2]; [|rewrite (engine_del_hit _ _ _ Hbg); cbn; lia..|done].
    intros ty'. unfold E1, upd. case_decide; [|done]. f_equal. symmetry.
    eapply del_put_comm; [exact Hbg| |by eapply (block_stored _ _ _ _ _ g lg); [exact S|done..]|lia].
    pose proof (st_fresh _ _ _ _ _ S _ _ (loc_addr lg) He) as Hf. specialize (Hf ltac:(by eexists)). lia.
  - assert (e2 = eg) as -> by congruence.
    assert (E1 ty = Some e) as He1 by (unfold E1, upd; by rewrite decide_False).
    pose proof (store_add limit cap E1 _ _ k v ty e S1 Hk He1 ltac:(lia) Hce Hlim) as S2.
    eapply stores_ext; [|exact S2]. intros ty'. unfold E1, upd. by repeat case_decide; congruence || done.
Qed.

Lemma delete_storage_block_ok c ty a e : engine_of c ty = Some e ->
  delete_storage_block ty a c = (RDMA_OP_SUCCESS, set_engine ty (engine_del a e).2 c).
Proof.
  intros He. unfold delete_storage_block. rewrite He. unfold engine_del. by destruct (blocks e !! a).
Qed.

(** The change of the index in a put, the replaced key made explicit. *)
Lemma put_change_gone n full k l T gone T' : put_change n full k l T gone T' ->
  match gone with
  | None => T' = <[k := l]> T /\ T !! k = None /\ full = false
  | Some lg => exists g, T !! g = Some lg /\ T' = <[k := l]> (delete g T) /\ delete g T !! k = None /\
      (g = k \/ T !! k = None /\ full = true /\ home n g = home n k)
  end.
Proof.
  intros [l0 H0|Hf Hk|v lv Hf Hk Hv Hh].
  - exists k. rewrite insert_delete_eq, lookup_delete_eq. auto.
  - done.
  - exists v. split_and!; try done; [|by right]. by rewrite lookup_delete_None; right.
Qed.

(** What the specification makes of a change of the index. *)
Lemma put_change_spec n limit cap E T M ty k v l gone T' : stores limit cap E T M -> room cap M ty k v = true ->
  put_change n (bool_decide (occupancy n (home n k) M = RDMA_BUCKET_CAP)) k l T gone T' ->
  exists M', spec_step n cap M (Insert ty k v) (RDMA_OP_SUCCESS, None) M' /\
  match gone with
  | None => T !! k = None /\ T' = <[k := l]> T /\ M' = <[k := (ty, v)]> M
  | Some lg => exists g, T !! g = Some lg /\ delete g T !! k = None /\
      T' = <[k := l]> (delete g T) /\ M' = <[k := (ty, v)]> (delete g M)
  end.
Proof.
  intros S Hroom Hch. apply put_change_gone in Hch.
  assert (T !! k = None -> M !! k = None) as Habs.
  { intros Hk. apply eq_None_not_Some. rewrite (stores_dom _ _ _ _ _ k S), Hk. by intros [? ?]. }
  destruct gone as [lg|].
  - destruct Hch as (g & Hg & -> & Hk & Hgk). exists (<[k := (ty, v)]> (delete g M)). split; [|by exists g].
    assert (is_Some (M !! g)) as Hmg by (rewrite (stores_dom _ _ _ _ _ g S); by eexists).
    destruct Hgk as [->|(Hk' & Hf%bool_decide_eq_true & Hh)].
    + rewrite insert_delete_eq. by apply insert_rewrites.
    + apply insert_displaces; auto.
  - destruct Hch as (-> & Hk & Hf%bool_decide_eq_false). exists (<[k := (ty, v)]> M). split; [|done].
    apply insert_adds; auto.
Qed.

Lemma home_full_occupancy n limit cap t E T M k : index_rep t T -> length (buckets t) = n -> stores limit cap E T M ->
  bool_decide (home_full t k) = bool_decide (occupancy n (home n k) M = RDMA_BUCKET_CAP).
Proof.
  intros R <- S. apply bool_decide_ext. rewrite (occupancy_dom _ _ M T) by (intros k'; by eapply stores_dom).
  destruct (home_bucket _ T k R) as (b & _ & Hb & Rb). unfold home_full. rewrite Hb. by eapply full_occupancy.
Qed.

Lemma insert_ok n limit cap c M ty k v : cache_rep n limit cap c M -> cap_ok cap -> limit + block_len k v + 8 < 2 ^ 48 ->
  exists M', spec_step n cap M (Insert ty k v) ((insert_to_storage ty k v c).1, None) M' /\
    cache_rep n (limit + block_len k v + 8) cap (insert_to_storage ty k v c).2 M'.
Proof.
  intros (T & R & Hn & S) Hcap Hlim. pose proof (block_len_pos k v) as Hb24.
  unfold insert_to_storage, put_storage_block. destruct (engine_of c ty) as [e|] eqn:He.
  2:{ exists M. split; [|exists T; split_and!; [done..|eapply stores_limit; [|done]; lia]]. constructor.
      unfold room. by rewrite <- (st_cap _ _ _ _ _ S), He. }
  assert (cap ty = Some (capacity e)) as Hct by by rewrite <- (st_cap _ _ _ _ _ S), He.
  destruct (st_used _ _ _ _ _ S _ _ He) as [Hu _]. pose proof (engine_of_valid _ _ _ He) as Hty.
  rewrite (engine_put_room k v e (stored_bytes M ty) (capacity e) Hu eq_refl); [|apply stored_nonneg; intros k' v'; pose proof (block_len_pos k' v'); lia|by eapply Hcap].
  assert (room cap M ty k v = (stored_bytes M ty + block_len k v <=? capacity e)) as Hroom by (unfold room; by rewrite Hct).
  destruct (stored_bytes M ty + block_len k v <=? capacity e) eqn:Er; cbn [fst snd].
  2:{ exists M. split; [by constructor|]. exists T. split_and!; [by destruct ty|by destruct ty|].
      eapply stores_limit; [|eapply stores_ext; [|exact S]]; [lia|]. intros ty'. rewrite engine_of_set by done.
      unfold upd. by case_decide; congruence || done. }
  apply Z.leb_le in Er. set (c1 := set_engine ty (after_put k v e) c).
  assert (cache_index c1 = cache_index c) as Hci by by destruct ty. rewrite Hci.
  set (l := mkLoc (next_addr e) ty (blen k + blen v)).
  destruct (st_next _ _ _ _ _ S _ _ He) as [Hn0 Hn1].
  assert (loc_ok l) as Hl by (split; cbn; [lia|pose proof (blen_nonneg k); pose proof (blen_nonneg v); lia]).
  destruct (table_put_ok (cache_index c) T k l R Hl) as (gone & T' & Hch & Hput). subst l; cbn [loc_addr loc_size loc_type] in Hput.
  set (l := mkLoc (next_addr e) ty (blen k + blen v)) in *.
  destruct (table_put _ _ _ _ (cache_index c)) as [put t']. destruct Hput as (Hr & R' & Elen & _).
  rewrite (home_full_occupancy n limit cap _ _ T M k R Hn S), Hn in Hch.
  destruct (put_change_spec n limit cap _ T M ty k v l gone T' S Hroom Hch) as (M' & Hspec & Hgone).
  exists M'. assert (forall ty', engine_of (set_index t' c1) ty' = upd (engine_of c) ty (after_put k v e) ty') as Hc1
    by (intros ty'; change (engine_of (set_index t' c1) ty') with (engine_of c1 ty'); by apply engine_of_set).
  destruct gone as [lg|]; cbn [displaced_of nothing] in Hr; subst put; cbn [put_status old_addr old_len old_type];
    rewrite Z.eqb_refl; cbn [negb].
  - destruct Hgone as (g & Hg & Hk & -> & ->). rewrite (proj2 (Z.ltb_lt _ _)) by (apply recorded_length_gt; exact (ir_locs _ _ R g lg Hg)).
    destruct (st_loc _ _ _ _ _ S g lg Hg) as (eg & vg & Heg & _). pose proof (engine_of_valid _ _ _ Heg) as Htg.
    destruct (upd (engine_of c) ty (after_put k v e) (loc_type lg)) as [e2|] eqn:He2;
      [|unfold upd in He2; case_decide; congruence].
    rewrite (delete_storage_block_ok _ _ _ e2) by by rewrite Hc1. rewrite Z.eqb_refl. cbn [negb fst snd].
    split; [done|]. exists (<[k := l]> (delete g T)).
    assert (cache_index (set_engine (loc_type lg) (engine_del (loc_addr lg) e2).2 (set_index t' c1)) = t') as -> by by destruct (loc_type lg).
    split_and!; [done|congruence|].
    eapply stores_ext; [|eapply (store_replace limit cap (engine_of c) T M k v ty e g lg e2)]; try done; [|unfold u64_max; lia].
    intros ty'. rewrite engine_of_set by done. unfold upd at 1. unfold upd at 2. by rewrite Hc1.
  - destruct Hgone as (Hk & -> & ->). split; [done|]. exists (<[k := l]> T). split_and!; [done|cbn; congruence|].
    eapply stores_ext; [|apply store_add; try done; [by eapply Hcap|unfold u64_max; lia]].
    intros ty'. by rewrite Hc1.
Qed.

Lemma rdma_remove_ok n limit cap c M k : cache_rep n limit cap c M ->
  exists M', spec_step n cap M (Remove k) ((rdma_remove k c).1, None) M' /\ cache_rep n limit cap (rdma_remove k c).2 M'.
Proof.
  intros (T & R & Hn & S). unfold rdma_remove. pose proof (table_del_ok (cache_index c) T k R) as Hdel.
  destruct (table_del k (cache_index c)) as [del t']. destruct Hdel as (Hr & R' & El).
  destruct (T !! k) as [l|] eqn:Hk; subst del; cbn [del_status del_addr del_type].
  - rewrite Z.eqb_refl. cbn [negb]. destruct (st_loc _ _ _ _ _ S k l Hk) as (e & v & He & Hb & Hm & _).
    pose proof (engine_of_valid _ _ _ He) as Hty. rewrite (delete_storage_block_ok _ _ _ e) by done. cbn [fst snd].
    exists (delete k M). split; [constructor; by eexists|]. exists (delete k T).
    assert (cache_index (set_engine (loc_type l) (engine_del (loc_addr l) e).2 (set_index t' c)) = t') as Ei by by destruct (loc_type l).
    rewrite Ei. split_and!; [done|congruence|]. eapply stores_ext; [|by apply (store_drop limit cap (engine_of c) T M k l e)].
    intros ty'. by rewrite engine_of_set.
  - assert (M !! k = None) as Hm.
    { apply eq_None_not_Some. rewrite (stores_dom _ _ _ _ _ k S), Hk. by intros [? ?]. }
    cbn. exists M. split; [by constructor|]. exists T. rewrite delete_id in R' by done. split_and!; [done|cbn; congruence|exact S].
Qed.

Lemma fill_buffer v r vm : buffer (fill v r vm).1 = v.
Proof.
  unfold fill. destruct (release_allocation r vm) as [r' vm']. by destruct (std_allocate _ _ _) as [[? ?] ?].
Qed.

Lemma lookup_ok n limit cap c M k r vm : cache_rep n limit cap c M -> cap_ok cap ->
  exists w, spec_step n cap M (Lookup k) ((rdma_lookup k c r vm).1.1, w) M /\
    buffer (rdma_lookup k c r vm).1.2 = default (buffer r) w.
Proof.
  intros (T & R & Hn & S) Hcap. unfold rdma_lookup. rewrite (table_get_ok _ T k R).
  destruct (T !! k) as [l|] eqn:Hk; cbn [get_addr get_type get_len].
  2:{ exists None. split; [|done]. apply lookup_miss. apply eq_None_not_Some. rewrite (stores_dom _ _ _ _ _ k S), Hk. by intros [? ?]. }
  destruct (st_loc _ _ _ _ _ S k l Hk) as (e & v & He & Hb & Hm & Hsz). rewrite He. unfold engine_get. rewrite Hb.
  pose proof (fill_buffer v r vm) as Hf. change (blk_value (new_block k v)) with v.
  destruct (fill v r vm) as [r' vm']. cbn [fst] in Hf.
  rewrite decide_False by (intros Hx; by apply Hx). rewrite encoded_len_new.
  assert (block_size l = block_len k v) as Hbs.
  { unfold block_size. rewrite Hsz, sat_add_exact; [unfold block_len; lia|].
    destruct (block_stored _ _ _ _ _ _ _ _ _ S Hk He Hb) as [_ Hu]. rewrite encoded_len_new in Hu.
    destruct (st_used _ _ _ _ _ S _ _ He) as [Eu Hc]. pose proof (Hcap (loc_type l) (capacity e)) as Hcl.
    rewrite <- (st_cap _ _ _ _ _ S), He in Hcl. specialize (Hcl eq_refl). unfold block_len in Hu. lia. }
  rewrite Hbs. pose proof (block_len_pos k v) as Hpos.
  set (size := if _ =? 0 then _ else _).
  assert (size = block_len k v) as ->.
  { unfold size. destruct (rdma_length_fits_index_entry (block_len k v)); [|done].
    by rewrite (proj2 (Z.eqb_neq _ _)) by lia. }
  change (blk_crc (new_block k v)) with (rdma_data_crc (encoded_without_crc k v)).
  change (blk_key (new_block k v)) with k. change (blk_value (new_block k v)) with v.
  rewrite !Z.eqb_refl. cbn [negb orb fst snd]. exists (Some v). split; [by eapply lookup_hit|done].
Qed.

(** ** Histories *)

(** The cache, the response its client reuses, and the registry. *)
Definition world : Type := RdmaCache * RdmaResponse * VirtualMemory.

(** One operation: its status and what the response holds afterwards. *)
Definition world_step (o : cache_op) (w : world) : Z * bytes * world :=
  let '(c, r, vm) := w in
  match o with
  | Insert ty k v => let '(s, c) := insert_to_storage ty k v c in (s, buffer r, (c, r, vm))
  | Remove k => let '(s, c) := rdma_remove k c in (s, buffer r, (c, r, vm))
  | Lookup k => let '(s, r, vm) := rdma_lookup k c r vm in (s, buffer r, (c, r, vm))
  end.
Fixpoint run_cache (ops : list cache_op) (w : world) : list (Z * bytes) * world :=
  match ops with
  | [] => ([], w)
  | o :: ops => let '(out, w) := world_step o w in let '(outs, w) := run_cache ops w in (out :: outs, w)
  end.

(** The same history of the specification. *)
Inductive spec_run (n : nat) (cap : RdmaStorageEngineKind -> option Z) : contents -> bytes -> list cache_op -> list (Z * bytes) -> contents -> Prop :=
| run_done M buf : spec_run n cap M buf [] [] M
| run_more M M1 M2 buf o ops s w outs : spec_step n cap M o (s, w) M1 ->
    spec_run n cap M1 (default buf w) ops outs M2 -> spec_run n cap M buf (o :: ops) ((s, default buf w) :: outs) M2.

(** What a history writes: each block and the alignment of its address. *)
Definition written (ops : list cache_op) : Z :=
  foldr (fun o acc => match o with Insert _ k v => block_len k v + 8 | _ => 0 end + acc) 0 ops.

Lemma written_nonneg ops : 0 <= written ops.
Proof.
  induction ops as [|[ty k v|k|k] ops IH]; cbn; [done| |exact IH..]. pose proof (block_len_pos k v). fold (written ops). lia.
Qed.

Lemma run_refines n cap ops limit c r vm M : cache_rep n limit cap c M -> cap_ok cap -> limit + written ops < 2 ^ 48 ->
  exists outs c' r' vm' M', run_cache ops (c, r, vm) = (outs, (c', r', vm')) /\
    spec_run n cap M (buffer r) ops outs M' /\ cache_rep n (limit + written ops) cap c' M'.
Proof.
  intros R Hcap. revert limit c r vm M R. induction ops as [|o ops IH]; intros limit c r vm M R Hl.
  { exists [], c, r, vm, M. cbn. rewrite Z.add_0_r. split_and!; [done|constructor|done]. }
  pose proof (written_nonneg ops) as Hw.
  destruct o as [ty k v|k|k]; cbn [run_cache world_step written foldr] in *; fold (written ops) in *.
  - destruct (insert_ok n limit cap c M ty k v R Hcap ltac:(lia)) as (M1 & Hs & R1).
    destruct (insert_to_storage ty k v c) as [s c1].
    destruct (IH _ c1 r vm M1 R1 ltac:(lia)) as (outs & c' & r' & vm' & M' & -> & Hr & R').
    exists ((s, buffer r) :: outs), c', r', vm', M'. split_and!; [done|by apply (run_more _ _ _ M1 _ _ _ _ _ None)|].
    by replace (limit + (block_len k v + 8 + written ops)) with (limit + block_len k v + 8 + written ops) by lia.
  - destruct (rdma_remove_ok n limit cap c M k R) as (M1 & Hs & R1). destruct (rdma_remove k c) as [s c1].
    destruct (IH _ c1 r vm M1 R1 ltac:(lia)) as (outs & c' & r' & vm' & M' & -> & Hr & R').
    exists ((s, buffer r) :: outs), c', r', vm', M'. split_and!; [done|by apply (run_more _ _ _ M1 _ _ _ _ _ None)|done].
  - destruct (lookup_ok n limit cap c M k r vm R Hcap) as (w & Hs & Hb). destruct (rdma_lookup k c r vm) as [[s r1] vm1].
    destruct (IH _ c r1 vm1 M R ltac:(lia)) as (outs & c' & r' & vm' & M' & -> & Hr & R').
    exists ((s, buffer r1) :: outs), c', r', vm', M'. cbn [fst snd] in *.
    split_and!; [done|rewrite Hb in *; by eapply run_more|done].
Qed.

(** A medium the constructor was given no bytes for does not exist. *)
Definition capacities (dram pmem ssd : Z) (ty : RdmaStorageEngineKind) : option Z :=
  match ty with
  | RDram => if 0 <? dram then Some dram else None
  | RPmem => if 0 <? pmem then Some pmem else None
  | RSsd => if 0 <? ssd then Some ssd else None
  | RInvalid => None
  end.

Lemma new_cache_rep dram pmem ssd policy :
  cache_rep 1024 0x04000000 (capacities dram pmem ssd) (new_cache dram pmem ssd policy) ∅.
Proof.
  exists ∅. split_and!; [apply index_rep_new|cbn [new_cache cache_index new_table buckets]; by rewrite length_replicate|].
  assert (forall ty e, engine_of (new_cache dram pmem ssd policy) ty = Some e ->
    exists cp, e = new_engine ty cp /\ 0 < cp) as Hnew.
  { intros ty e. destruct ty; cbn; try done; case_if; intros [= <-]; zbool; eauto. }
  split.
  - intros []; cbn; by try case_if.
  - intros k l Hk. by rewrite lookup_empty in Hk.
  - intros k [? Hk]. by rewrite lookup_empty in Hk.
  - intros ty e a b He Hb. destruct (Hnew ty e He) as (cp & -> & _). cbn in Hb. by rewrite lookup_empty in Hb.
  - intros ty e He. destruct (Hnew ty e He) as (cp & -> & Hp). unfold stored_bytes. rewrite stored_empty. cbn. lia.
  - intros ty e He. destruct (Hnew ty e He) as (cp & -> & _). unfold stored_count. by rewrite stored_empty.
  - intros ty e He. destruct (Hnew ty e He) as (cp & -> & _). by destruct ty.
  - intros ty e a He [b Hb]. destruct (Hnew ty e He) as (cp & -> & _). cbn in Hb. by rewrite lookup_empty in Hb.
Qed.

(** C37. The remote cache is a map bounded by its media and its buckets: every
    history of inserts, removals and lookups answers as the specification,
    which serves the last value written under a key and displaces a key only
    from a full bucket; afterwards the index counts the keys, and each engine
    holds exactly the bytes and blocks of the keys on its medium, so no block
    is left that nothing points at. *)
Theorem remote_cache_refines dram pmem ssd policy ops r vm :
  dram < u64_max -> pmem < u64_max -> ssd < u64_max -> 0x04000000 + written ops < 2 ^ 48 ->
  let caps := capacities dram pmem ssd in
  exists outs c r' vm' M,
    run_cache ops (new_cache dram pmem ssd policy, r, vm) = (outs, (c, r', vm')) /\
    spec_run 1024 caps ∅ (buffer r) ops outs M /\
    num_index_entries c = Z.of_nat (size M) /\
    forall ty, storage_stats c ty = (fun cp => (cp, stored_bytes M ty, stored_count M ty)) <$> caps ty.
Proof.
  intros Hd Hp Hs Hw caps.
  assert (cap_ok caps) as Hcap by (intros [] m; cbn; try done; case_if; congruence).
  destruct (run_refines 1024 caps ops _ _ r vm ∅ (new_cache_rep dram pmem ssd policy) Hcap Hw)
    as (outs & c & r' & vm' & M & E & Hrun & T & R & Hn & S).
  exists outs, c, r', vm', M. split_and!; [done|done| |].
  - unfold num_index_entries. rewrite (proj1 (table_count _ T R)). f_equal. rewrite <- !size_dom. f_equal.
    apply leibniz_equiv. intros k. rewrite !elem_of_dom. symmetry. by eapply stores_dom.
  - intros ty. rewrite <- (st_cap _ _ _ _ _ S ty). unfold storage_stats.
    destruct (engine_of c ty) as [e|] eqn:He; [|done]. cbn. unfold engine_stats.
    destruct (st_used _ _ _ _ _ S _ _ He) as [-> _]. by rewrite (st_count _ _ _ _ _ S _ _ He).
Qed.
End store.

(** ** A history run, and what re-initialising an engine does *)

Section demo.
#[local] Existing Instance one_bucket_hasher.

Definition demo_history : list cache_op :=
  [Insert RDram [x61] [x01; x02]; Insert RSsd [x62] [x03]; Insert RDram [x61] [x04]; Lookup [x61];
   Remove [x62]; Lookup [x62]; Insert RDram [x63] (replicate 200 x05)].
Definition empty_vm : VirtualMemory := mkVM ∅ (2 ^ 32).

Lemma remote_cache_refines_witness : exists outs c r' vm' M,
  run_cache demo_history (new_cache 100 0 100 RFifo, new_response, empty_vm) = (outs, (c, r', vm')) /\
  spec_run 1024 (capacities 100 0 100) ∅ [] demo_history outs M /\
  num_index_entries c = Z.of_nat (size M) /\
  forall ty, storage_stats c ty = (fun cp => (cp, stored_bytes M ty, stored_count M ty)) <$> capacities 100 0 100 ty.
Proof. apply (remote_cache_refines 100 0 100 RFifo demo_history new_response empty_vm); reflexivity. Defined.

Definition statuses (ops : list cache_op) : list (Z * bytes) :=
  (run_cache ops (new_cache 100 0 100 RFifo, new_response, empty_vm)).1.

Example demo_history_runs : statuses demo_history =
  [(0, []); (0, []); (0, []); (0, [x04]); (0, [x04]); (1, [x04]); (-1, [x04])].
Proof. vm_compute. reflexivity. Qed.

(** A cache whose memory engine is initialised again after a key was put. *)
Definition reinitialised : RdmaCache :=
  init_storage_engine RDram 100 (insert_to_storage RDram [x61] [x01] (new_cache 100 0 0 RFifo)).2.

(** Re-initialising an engine leaves the index behind: its addresses start
    again at the base, so an old index entry points at a new block.  A lookup
    of the old key answers "not found" but hands over the other key's value,
    and writing the old key again deletes the other key's block, which is then
    gone although its insert succeeded and nothing removed it. *)
Example reinitialised_engine_loses_block :
  let '(s1, c1) := insert_to_storage RDram [x62] [x02] reinitialised in
  let '(s2, r, _) := rdma_lookup [x61] c1 new_response empty_vm in
  let '(s3, c2) := insert_to_storage RDram [x61] [x03] c1 in
  let '(s4, _, _) := rdma_lookup [x62] c2 new_response empty_vm in
  s1 = RDMA_OP_SUCCESS /\ s2 = RDMA_NOT_FOUND /\ buffer r = [x02] /\ s3 = RDMA_OP_SUCCESS /\ s4 = RDMA_NOT_FOUND.
Proof. vm_compute. repeat split. Qed.
End demo.
