(* ===== verification/Allocators.v ===== *)
(** * Memory allocators

    The three allocators of runtime/allocators_executors.rs over a modelled
    address space: the log-based one, whose freed regions wait for collection,
    the je one, and the pool of fixed-size objects.  [MemStorageAllocatorApi]
    is the trait they implement; [LawfulAllocator] is what its clients rely
    on, and each allocator is an instance of it. *)

From Stdlib Require Import Strings.Byte.
From S2P Require Import Prelude.

Record AllocatorStats := mkStats { num_allocated_bytes : Z; num_freed_bytes : Z; num_occupied_bytes : Z }.
Record ChunkMeta := mkChunk { ck_id : Z; ck_num_allocated_bytes : Z; ck_num_freed_bytes : Z; ck_ref_count : Z }.

(** [vec![0; len]]. *)
Definition zeroed (len : Z) : bytes := replicate (Z.to_nat len) x00.
(** [dst[..data.len()].copy_from_slice(data)]. *)
Definition overwrite (data dst : bytes) : bytes := data ++ drop (length data) dst.

(** ** The interface *)

(** [CacheAllocatorApi] and [MemStorageAllocatorApi]. *)
Class MemStorageAllocatorApi (A : Type) := {
  al_allocate : Z -> A -> result Z * A;
  al_contains : Z -> A -> bool;
  al_free : Z -> Z -> A -> result unit * A;
  al_seal : Z -> A -> result unit * A;
  al_seal_with_crc : Z -> Z -> Z -> A -> result unit * A;
  al_stats : A -> AllocatorStats;
  al_capacity : A -> Z;
  al_write_region : Z -> bytes -> A -> result unit * A;
  al_read_region : Z -> A -> result bytes }.

(** What a client relies on: the live regions are a map from addresses to
    bytes that each operation changes at one address at most.  [al_ok n a]
    says that [a] is well formed and can mint [n] more addresses. *)
Class LawfulAllocator (A : Type) `{MemStorageAllocatorApi A} := {
  al_view : A -> gmap Z bytes;
  al_ok : nat -> A -> Prop;
  al_ok_weaken n a : al_ok (S n) a -> al_ok n a;
  al_read_law p a : al_read_region p a = match al_view a !! p with Some v => Ok v | None => Err NotFound end;
  al_contains_law p a : al_contains p a = bool_decide (is_Some (al_view a !! p));
  al_allocate_law n len a r a' : al_ok (S n) a -> 0 <= len -> al_allocate len a = (r, a') ->
    al_ok n a' /\ match r with
    | Ok p => al_view a !! p = None /\ al_view a' = <[p := zeroed len]> (al_view a) /\ 0 <= p <= 2 ^ 63
    | Err _ => al_view a' = al_view a
    end;
  al_write_law n p data v a : al_ok n a -> al_view a !! p = Some v -> length data = length v ->
    exists a', al_write_region p data a = (Ok tt, a') /\ al_ok n a' /\ al_view a' = <[p := data]> (al_view a);
  al_seal_law n p crc v a : al_ok n a -> al_view a !! p = Some v ->
    exists a', al_seal_with_crc p (blen v) crc a = (Ok tt, a') /\ al_ok n a' /\ al_view a' = al_view a;
  al_free_law n p len a r a' : al_ok n a -> al_free p len a = (r, a') ->
    al_ok n a' /\ match al_view a !! p with
    | Some _ => r = Ok tt /\ al_view a' = delete p (al_view a)
    | None => r = Err NotFound /\ al_view a' = al_view a
    end }.

(** ** The log-based allocator *)

Record SimpleAllocationRegion := mkRegion {
  rg_data : bytes; rg_sealed : bool; rg_crc32 : option Z; rg_len_for_crc : option Z }.

#[global] Instance SimpleAllocationRegion_eq_dec : EqDecision SimpleAllocationRegion.
Proof. solve_decision. Defined.

Record SimpleLogBasedMemoryAllocator := mkLog {
  lg_regions : gmap Z (option SimpleAllocationRegion);
  lg_freed_lens : gmap Z Z;
  lg_next_ptr : Z;
  lg_capacity : Z;
  lg_num_allocated_bytes : Z;
  lg_num_freed_bytes : Z;
  lg_gc_runs : Z }.

Section log_allocator.
Implicit Types a : SimpleLogBasedMemoryAllocator.

Definition log_with_capacity_and_base (capacity base_ptr : Z) : SimpleLogBasedMemoryAllocator :=
  mkLog ∅ ∅ (Z.max base_ptr 1) capacity 0 0 0.
Definition log_with_capacity (capacity : Z) : SimpleLogBasedMemoryAllocator := log_with_capacity_and_base capacity 1.

Definition log_set_regions (m : gmap Z (option SimpleAllocationRegion)) a : SimpleLogBasedMemoryAllocator :=
  mkLog m (lg_freed_lens a) (lg_next_ptr a) (lg_capacity a) (lg_num_allocated_bytes a) (lg_num_freed_bytes a) (lg_gc_runs a).

(** [self.regions.get(&ptr).and_then(Option::as_ref)]. *)
Definition log_region a (p : Z) : option SimpleAllocationRegion := lg_regions a !! p ≫= id.

Definition log_live_bytes a : Z :=
  map_sum (fun o => match o with Some r => blen (rg_data r) | None => 0 end) (lg_regions a).

Definition log_write (p : Z) (data : bytes) a : result unit * SimpleLogBasedMemoryAllocator :=
  match log_region a p with
  | None => (Err NotFound, a)
  | Some r =>
      if blen (rg_data r) <? blen data then (Err CapacityExceeded, a)
      else
        let r := mkRegion (overwrite data (rg_data r)) (rg_sealed r) (rg_crc32 r) (rg_len_for_crc r) in
        (Ok tt, log_set_regions (<[p := Some r]> (lg_regions a)) a)
  end.
Definition log_read (p : Z) a : result bytes := match log_region a p with Some r => Ok (rg_data r) | None => Err NotFound end.
Definition log_sealed (p : Z) a : bool := match log_region a p with Some r => rg_sealed r | None => false end.
Definition log_crc32 (p : Z) a : option Z := log_region a p ≫= rg_crc32.
Definition log_live_region_count a : Z := Z.of_nat (size (omap id (lg_regions a))).
Definition log_global_free_list_size a : Z := Z.of_nat (size (filter (fun po => po.2 = None) (lg_regions a))).

Definition log_allocate (len : Z) a : result Z * SimpleLogBasedMemoryAllocator :=
  if negb (lg_capacity a =? 0) && (lg_capacity a <? log_live_bytes a +! len) then (Err CapacityExceeded, a)
  else
    let p := lg_next_ptr a in
    (Ok p, mkLog (<[p := Some (mkRegion (zeroed len) false None None)]> (lg_regions a)) (lg_freed_lens a)
       (Z.max (lg_next_ptr a +! 1) 1) (lg_capacity a) (lg_num_allocated_bytes a +! len) (lg_num_freed_bytes a)
       (lg_gc_runs a)).
Definition log_contains (p : Z) a : bool := bool_decide (is_Some (log_region a p)).
Definition log_free (p len : Z) a : result unit * SimpleLogBasedMemoryAllocator :=
  match log_region a p with
  | None => (Err NotFound, a)
  | Some r =>
      (Ok tt, mkLog (<[p := None]> (lg_regions a)) (<[p := blen (rg_data r)]> (lg_freed_lens a)) (lg_next_ptr a)
         (lg_capacity a) (lg_num_allocated_bytes a) (lg_num_freed_bytes a +! Z.min len (blen (rg_data r))) (lg_gc_runs a))
  end.
Definition log_seal (p : Z) a : result unit * SimpleLogBasedMemoryAllocator :=
  match log_region a p with
  | None => (Err NotFound, a)
  | Some r => (Ok tt, log_set_regions (<[p := Some (mkRegion (rg_data r) true (rg_crc32 r) (rg_len_for_crc r))]> (lg_regions a)) a)
  end.
Definition log_seal_with_crc (p len crc : Z) a : result unit * SimpleLogBasedMemoryAllocator :=
  match log_region a p with
  | None => (Err NotFound, a)
  | Some r =>
      if blen (rg_data r) <? len then (Err CapacityExceeded, a)
      else (Ok tt, log_set_regions (<[p := Some (mkRegion (rg_data r) true (Some crc) (Some len))]> (lg_regions a)) a)
  end.
Definition log_stats a : AllocatorStats := mkStats (lg_num_allocated_bytes a) (lg_num_freed_bytes a) (log_live_bytes a).

(** The chunks a collection can reclaim, in the order the hash map is walked
    ([order]), until the visitor says stop. *)
Fixpoint iterate_recyclable_chunk_meta {S : Type} (order : list (Z * option SimpleAllocationRegion))
    (func : ChunkMeta -> S -> bool * S) a (st : S) : S :=
  match order with
  | [] => st
  | (p, Some _) :: order => iterate_recyclable_chunk_meta order func a st
  | (p, None) :: order =>
      let len := default 0 (lg_freed_lens a !! p) in
      let '(continue, st) := func (mkChunk p len len 0) st in
      if continue then iterate_recyclable_chunk_meta order func a st else st
  end.
Definition retrieve_chunk_meta (chunk_id : Z) a : result ChunkMeta :=
  match lg_regions a !! chunk_id with
  | None => Err NotFound
  | Some (Some r) => Ok (mkChunk chunk_id (blen (rg_data r)) 0 1)
  | Some None => let len := default 0 (lg_freed_lens a !! chunk_id) in Ok (mkChunk chunk_id len len 0)
  end.

Definition reclaim (p : Z) a : SimpleLogBasedMemoryAllocator :=
  match lg_regions a !! p with
  | Some None =>
      mkLog (delete p (lg_regions a)) (delete p (lg_freed_lens a)) (lg_next_ptr a) (lg_capacity a)
        (lg_num_allocated_bytes a) (lg_num_freed_bytes a) (lg_gc_runs a)
  | _ => a
  end.
Definition log_gc (chunk_ids : list Z) a : SimpleLogBasedMemoryAllocator :=
  let a := mkLog (lg_regions a) (lg_freed_lens a) (lg_next_ptr a) (lg_capacity a) (lg_num_allocated_bytes a)
    (lg_num_freed_bytes a) (lg_gc_runs a +! 1) in
  foldl (fun a id => reclaim id a) a chunk_ids.

#[global] Instance log_api : MemStorageAllocatorApi SimpleLogBasedMemoryAllocator := {
  al_allocate := log_allocate; al_contains := log_contains; al_free := log_free; al_seal := log_seal;
  al_seal_with_crc := log_seal_with_crc; al_stats := log_stats; al_capacity := lg_capacity;
  al_write_region := log_write; al_read_region := log_read }.
End log_allocator.

(** ** The je allocator *)

Record JeAllocationRegion := mkJeRegion { jr_data : bytes; jr_sealed : bool; jr_crc32 : option Z }.

Record JeAllocator := mkJe {
  je_regions : gmap Z JeAllocationRegion;
  je_next_ptr : Z;
  je_capacity : Z;
  je_num_allocated_bytes : Z;
  je_num_freed_bytes : Z;
  je_freed_objects : Z }.

Section je_allocator.
Implicit Types a : JeAllocator.

Definition je_with_capacity (capacity : Z) : JeAllocator := mkJe ∅ (2 ^ 40) capacity 0 0 0.
Definition je_set_regions (m : gmap Z JeAllocationRegion) a : JeAllocator :=
  mkJe m (je_next_ptr a) (je_capacity a) (je_num_allocated_bytes a) (je_num_freed_bytes a) (je_freed_objects a).
Definition je_occupied a : Z := map_sum (fun r => blen (jr_data r)) (je_regions a).

Definition je_write (p : Z) (data : bytes) a : result unit * JeAllocator :=
  match je_regions a !! p with
  | None => (Err NotFound, a)
  | Some r =>
      if blen (jr_data r) <? blen data then (Err CapacityExceeded, a)
      else (Ok tt, je_set_regions (<[p := mkJeRegion (overwrite data (jr_data r)) (jr_sealed r) (jr_crc32 r)]> (je_regions a)) a)
  end.
Definition je_read (p : Z) a : result bytes := match je_regions a !! p with Some r => Ok (jr_data r) | None => Err NotFound end.
Definition je_sealed (p : Z) a : bool := match je_regions a !! p with Some r => jr_sealed r | None => false end.
Definition je_crc32 (p : Z) a : option Z := je_regions a !! p ≫= jr_crc32.

Definition je_allocate (len : Z) a : result Z * JeAllocator :=
  if negb (je_capacity a =? 0) && (je_capacity a <? je_occupied a +! len) then (Err CapacityExceeded, a)
  else
    let p := je_next_ptr a in
    (Ok p, mkJe (<[p := mkJeRegion (zeroed len) false None]> (je_regions a)) (Z.max (je_next_ptr a +! 1) (2 ^ 40))
       (je_capacity a) (je_num_allocated_bytes a +! len) (je_num_freed_bytes a) (je_freed_objects a)).
Definition je_contains (p : Z) a : bool := bool_decide (is_Some (je_regions a !! p)).
Definition je_free (p len : Z) a : result unit * JeAllocator :=
  match je_regions a !! p with
  | None => (Err NotFound, a)
  | Some r =>
      (Ok tt, mkJe (delete p (je_regions a)) (je_next_ptr a) (je_capacity a) (je_num_allocated_bytes a)
         (je_num_freed_bytes a +! Z.min len (blen (jr_data r))) (je_freed_objects a +! 1))
  end.
Definition je_seal (p : Z) a : result unit * JeAllocator :=
  match je_regions a !! p with
  | None => (Err NotFound, a)
  | Some r => (Ok tt, je_set_regions (<[p := mkJeRegion (jr_data r) true (jr_crc32 r)]> (je_regions a)) a)
  end.
Definition je_seal_with_crc (p len crc : Z) a : result unit * JeAllocator :=
  match je_regions a !! p with
  | None => (Err NotFound, a)
  | Some r =>
      if blen (jr_data r) <? len then (Err CapacityExceeded, a)
      else (Ok tt, je_set_regions (<[p := mkJeRegion (jr_data r) true (Some crc)]> (je_regions a)) a)
  end.
Definition je_stats a : AllocatorStats := mkStats (je_num_allocated_bytes a) (je_num_freed_bytes a) (je_occupied a).

#[global] Instance je_api : MemStorageAllocatorApi JeAllocator := {
  al_allocate := je_allocate; al_contains := je_contains; al_free := je_free; al_seal := je_seal;
  al_seal_with_crc := je_seal_with_crc; al_stats := je_stats; al_capacity := je_capacity;
  al_write_region := je_write; al_read_region := je_read }.
End je_allocator.

(** ** The pool *)

Record PoolObject := mkObject { ob_data : bytes; ob_requested_len : Z; ob_sealed : bool; ob_crc32 : option Z }.

Record PoolBasedMemoryAllocatorBase := mkPool {
  pl_live : gmap Z PoolObject;
  pl_free_list : list Z;
  pl_next_ptr : Z;
  pl_capacity_bytes : Z;
  pl_max_thread_count : Z;
  pl_object_len : Z;
  pl_chunk_size : Z;
  pl_num_occupied_bytes : Z;
  pl_num_allocated_objects : Z;
  pl_num_freed_objects : Z }.

Section pool_allocator.
Implicit Types a : PoolBasedMemoryAllocatorBase.

Definition DEFAULT_CHUNK_SIZE : Z := 4 * 1024 * 1024.
Definition DEFAULT_OBJECT_LEN : Z := 4 * 1024.
Definition DEFAULT_MAX_THREAD_NUM : Z := 100.

Definition pool_new (capacity_bytes max_thread_count object_len : Z) : PoolBasedMemoryAllocatorBase :=
  let object_len := Z.min (Z.max object_len 1) (Z.max capacity_bytes 1) in
  let chunk_size := Z.max (Z.min DEFAULT_CHUNK_SIZE (Z.max capacity_bytes object_len)) object_len in
  mkPool ∅ [] (2 ^ 44) capacity_bytes max_thread_count object_len chunk_size 0 0 0.
Definition pool_with_capacity (capacity : Z) : PoolBasedMemoryAllocatorBase := pool_new capacity DEFAULT_MAX_THREAD_NUM DEFAULT_OBJECT_LEN.

Definition pool_set_live (m : gmap Z PoolObject) a : PoolBasedMemoryAllocatorBase :=
  mkPool m (pl_free_list a) (pl_next_ptr a) (pl_capacity_bytes a) (pl_max_thread_count a) (pl_object_len a)
    (pl_chunk_size a) (pl_num_occupied_bytes a) (pl_num_allocated_objects a) (pl_num_freed_objects a).

Definition allocated_chunk_count a : Z :=
  if pl_num_occupied_bytes a =? 0 then 0 else (pl_num_occupied_bytes a + pl_chunk_size a - 1) `div` pl_chunk_size a.

Definition ensure_chunk_capacity_for_one_object a : result unit * PoolBasedMemoryAllocatorBase :=
  let live_and_cached_objects := Z.of_nat (size (pl_live a)) +! Z.of_nat (length (pl_free_list a)) in
  if live_and_cached_objects <? pl_num_occupied_bytes a `div` pl_object_len a then (Ok tt, a)
  else
    let next_occupied := pl_num_occupied_bytes a +! pl_chunk_size a in
    if negb (pl_capacity_bytes a =? 0) && (pl_capacity_bytes a <? next_occupied) then (Err CapacityExceeded, a)
    else
      (Ok tt, mkPool (pl_live a) (pl_free_list a) (pl_next_ptr a) (pl_capacity_bytes a) (pl_max_thread_count a)
         (pl_object_len a) (pl_chunk_size a) next_occupied (pl_num_allocated_objects a) (pl_num_freed_objects a)).

Definition pool_write (p : Z) (data : bytes) a : result unit * PoolBasedMemoryAllocatorBase :=
  match pl_live a !! p with
  | None => (Err NotFound, a)
  | Some o =>
      if blen (ob_data o) <? blen data then (Err CapacityExceeded, a)
      else (Ok tt, pool_set_live (<[p := mkObject (overwrite data (ob_data o)) (blen data) (ob_sealed o) (ob_crc32 o)]> (pl_live a)) a)
  end.
Definition pool_shown (o : PoolObject) : bytes := take (Z.to_nat (Z.min (ob_requested_len o) (blen (ob_data o)))) (ob_data o).
Definition pool_read (p : Z) a : result bytes := match pl_live a !! p with Some o => Ok (pool_shown o) | None => Err NotFound end.
Definition pool_sealed (p : Z) a : bool := match pl_live a !! p with Some o => ob_sealed o | None => false end.
Definition pool_crc32 (p : Z) a : option Z := pl_live a !! p ≫= ob_crc32.

(** [free_list.pop()] takes the last freed address. *)
Definition pool_take_address a : result Z * PoolBasedMemoryAllocatorBase :=
  match last (pl_free_list a) with
  | Some p =>
      (Ok p, mkPool (pl_live a) (removelast (pl_free_list a)) (pl_next_ptr a) (pl_capacity_bytes a)
         (pl_max_thread_count a) (pl_object_len a) (pl_chunk_size a) (pl_num_occupied_bytes a)
         (pl_num_allocated_objects a) (pl_num_freed_objects a))
  | None =>
      match ensure_chunk_capacity_for_one_object a with
      | (Err e, a) => (Err e, a)
      | (Ok _, a) =>
          (Ok (pl_next_ptr a), mkPool (pl_live a) (pl_free_list a) (Z.max (pl_next_ptr a +! 1) (2 ^ 44)) (pl_capacity_bytes a)
             (pl_max_thread_count a) (pl_object_len a) (pl_chunk_size a) (pl_num_occupied_bytes a)
             (pl_num_allocated_objects a) (pl_num_freed_objects a))
      end
  end.
Definition pool_allocate (len : Z) a : result Z * PoolBasedMemoryAllocatorBase :=
  if (len =? 0) || (pl_object_len a <=? len) then (Err CapacityExceeded, a)
  else
    match pool_take_address a with
    | (Err e, a) => (Err e, a)
    | (Ok p, a) =>
        (Ok p, mkPool (<[p := mkObject (zeroed (pl_object_len a)) len false None]> (pl_live a)) (pl_free_list a)
           (pl_next_ptr a) (pl_capacity_bytes a) (pl_max_thread_count a) (pl_object_len a) (pl_chunk_size a)
           (pl_num_occupied_bytes a) (pl_num_allocated_objects a +! 1) (pl_num_freed_objects a))
    end.
Definition pool_contains (p : Z) a : bool := bool_decide (is_Some (pl_live a !! p)).
Definition pool_free (p len : Z) a : result unit * PoolBasedMemoryAllocatorBase :=
  match pl_live a !! p with
  | None => (Err NotFound, a)
  | Some _ =>
      (Ok tt, mkPool (delete p (pl_live a)) (pl_free_list a ++ [p]) (pl_next_ptr a) (pl_capacity_bytes a)
         (pl_max_thread_count a) (pl_object_len a) (pl_chunk_size a) (pl_num_occupied_bytes a)
         (pl_num_allocated_objects a) (pl_num_freed_objects a +! 1))
  end.
Definition pool_seal (p : Z) a : result unit * PoolBasedMemoryAllocatorBase :=
  match pl_live a !! p with
  | None => (Err NotFound, a)
  | Some o => (Ok tt, pool_set_live (<[p := mkObject (ob_data o) (ob_requested_len o) true (ob_crc32 o)]> (pl_live a)) a)
  end.
Definition pool_seal_with_crc (p len crc : Z) a : result unit * PoolBasedMemoryAllocatorBase :=
  match pl_live a !! p with
  | None => (Err NotFound, a)
  | Some o =>
      if blen (ob_data o) <? len then (Err CapacityExceeded, a)
      else (Ok tt, pool_set_live (<[p := mkObject (ob_data o) len true (Some crc)]> (pl_live a)) a)
  end.
Definition pool_stats a : AllocatorStats :=
  mkStats (sat_mul (pl_num_allocated_objects a) (pl_object_len a))
    (sat_mul (Z.of_nat (length (pl_free_list a))) (pl_object_len a)) (pl_num_occupied_bytes a).

#[global] Instance pool_api : MemStorageAllocatorApi PoolBasedMemoryAllocatorBase := {
  al_allocate := pool_allocate; al_contains := pool_contains; al_free := pool_free; al_seal := pool_seal;
  al_seal_with_crc := pool_seal_with_crc; al_stats := pool_stats; al_capacity := pl_capacity_bytes;
  al_write_region := pool_write; al_read_region := pool_read }.
End pool_allocator.
