(* ===== verification/AllocatorLaws.v ===== *)
(** * The allocators keep the laws of the interface

    Each allocator is an instance of [LawfulAllocator]; collecting freed
    chunks of the log-based one changes no live region. *)

From Stdlib Require Import Strings.Byte.
From S2P Require Import Prelude Allocators.

(** ** Shared facts *)

Lemma zeroed_length len : 0 <= len -> blen (zeroed len) = len.
Proof. intros. unfold blen, zeroed. rewrite length_replicate. lia. Qed.

Lemma overwrite_same data (v : bytes) : length data = length v -> overwrite data v = data.
Proof. intros E. unfold overwrite. rewrite E, drop_all. apply app_nil_r. Qed.

Lemma blen_eq (v w : bytes) : length v = length w -> blen v = blen w.
Proof. unfold blen. congruence. Qed.

(** Minting an address: the next one is above all that were handed out. *)
Definition mints {A} (m : gmap Z A) (next : Z) (n : nat) : Prop :=
  (forall p, is_Some (m !! p) -> 0 <= p < next) /\ 0 <= next /\ next + Z.of_nat n <= 2 ^ 63.

Lemma mints_weaken {A} (m : gmap Z A) next n : mints m next (S n) -> mints m next n.
Proof. intros (? & ? & ?). repeat split; [by apply H|by apply H|lia..]. Qed.

Lemma mints_insert {A} (m : gmap Z A) next n p (x : A) : mints m next n -> is_Some (m !! p) -> mints (<[p := x]> m) next n.
Proof.
  intros (Hm & H0 & Hn) Hp. split; [|done]. intros q. destruct (decide (q = p)) as [->|Hne]; [auto|].
  rewrite lookup_insert_ne by done. apply Hm.
Qed.

Lemma mints_delete {A} (m : gmap Z A) next n p : mints m next n -> mints (delete p m) next n.
Proof.
  intros (Hm & H0 & Hn). split; [|done]. intros q [x Hq]. apply lookup_delete_Some in Hq as [_ Hq]. apply Hm. by exists x.
Qed.

Lemma mints_next {A} (m : gmap Z A) next n low (x : A) : mints m next (S n) -> low <= next + 1 ->
  mints (<[next := x]> m) (Z.max (next +! 1) low) n /\ m !! next = None /\ 0 <= next <= 2 ^ 63.
Proof.
  intros (Hm & H0 & Hn) Hl. rewrite sat_add_exact by (unfold u64_max; lia). split_and!; [|..|lia|lia].
  - split; [|split; lia]. intros q. destruct (decide (q = next)) as [->|Hne]; [lia|].
    rewrite lookup_insert_ne by done. intros Hq. specialize (Hm q Hq). lia.
  - apply eq_None_not_Some. intros Hs. specialize (Hm next Hs). lia.
Qed.

(** ** The log-based allocator *)

Section log.
Implicit Types a : SimpleLogBasedMemoryAllocator.

Definition log_view a : gmap Z bytes := omap (fmap rg_data) (lg_regions a).
Definition log_ok (n : nat) a : Prop := mints (lg_regions a) (lg_next_ptr a) n /\ 1 <= lg_next_ptr a.

Lemma log_view_region a p : log_view a !! p = rg_data <$> log_region a p.
Proof. unfold log_view, log_region. rewrite lookup_omap. by destruct (lg_regions a !! p) as [[]|]. Qed.

Lemma log_region_some a p r : log_region a p = Some r -> lg_regions a !! p = Some (Some r).
Proof. unfold log_region. destruct (lg_regions a !! p) as [[]|]; cbn; congruence. Qed.

Lemma log_view_insert a p o : omap (fmap rg_data) (<[p := o]> (lg_regions a)) =
  match o with Some r => <[p := rg_data r]> (log_view a) | None => delete p (log_view a) end.
Proof.
  unfold log_view. destruct o as [r|]; [by rewrite (omap_insert_Some _ _ _ _ (rg_data r))|by rewrite omap_insert_None].
Qed.

#[global] Program Instance log_lawful : LawfulAllocator SimpleLogBasedMemoryAllocator := {
  al_view := log_view; al_ok := log_ok }.
Next Obligation. intros n a [Hm H1]. split; [by apply mints_weaken|done]. Qed.
Next Obligation. intros p a. cbn. unfold log_read. rewrite log_view_region. by destruct (log_region a p). Qed.
Next Obligation. intros p a. cbn. unfold log_contains. rewrite log_view_region. apply bool_decide_ext. by rewrite fmap_is_Some. Qed.
Next Obligation.
  intros n len a r a' [Hm H1] Hlen E. cbn in E. unfold log_allocate in E. case_if; [simplify_eq; split; [split; [by apply mints_weaken|done]|done]|].
  simplify_eq. destruct (mints_next _ _ _ 1 (Some (mkRegion (zeroed len) false None None)) Hm ltac:(lia)) as (Hm' & Hn & Hb).
  split; [split; [done|cbn; lia]|]. split; [|split; [|done]].
  - rewrite log_view_region. unfold log_region. by rewrite Hn.
  - unfold log_view at 1; cbn [lg_regions]. by rewrite log_view_insert.
Qed.
Next Obligation.
  intros n p data v a [Hm H1] Hv E. cbn. rewrite log_view_region in Hv. unfold log_write.
  destruct (log_region a p) as [r|] eqn:Er; [|done]. cbn in Hv. simplify_eq.
  rewrite (blen_eq _ _ E), Z.ltb_irrefl. eexists; split; [done|split].
  - split; [|done]. apply mints_insert; [done|]. rewrite (log_region_some a p r) by done. by eexists.
  - unfold log_view at 1; cbn. rewrite log_view_insert; cbn. by rewrite overwrite_same.
Qed.
Next Obligation.
  intros n p crc v a [Hm H1] Hv. cbn. rewrite log_view_region in Hv. unfold log_seal_with_crc.
  destruct (log_region a p) as [r|] eqn:Er; [|done]. cbn in Hv. simplify_eq.
  rewrite Z.ltb_irrefl. eexists; split; [done|split].
  - split; [|done]. apply mints_insert; [done|]. rewrite (log_region_some a p r) by done. by eexists.
  - unfold log_view at 1; cbn. rewrite log_view_insert; cbn. apply insert_id. rewrite log_view_region. by rewrite Er.
Qed.
Next Obligation.
  intros n p len a r a' [Hm H1] E. cbn in E. unfold log_free in E. rewrite log_view_region.
  destruct (log_region a p) as [g|] eqn:Er; simplify_eq; cbn; [|done]. split; [|split; [done|]].
  - split; [|done]. apply mints_insert; [done|]. rewrite (log_region_some a p g) by done. by eexists.
  - unfold log_view at 1; cbn [lg_regions]. by rewrite log_view_insert.
Qed.
End log.

(** ** The je allocator *)

Section je.
Implicit Types a : JeAllocator.

Definition je_view a : gmap Z bytes := jr_data <$> je_regions a.
Definition je_ok (n : nat) a : Prop := mints (je_regions a) (je_next_ptr a) n /\ 2 ^ 40 <= je_next_ptr a.

Lemma je_view_region a p : je_view a !! p = jr_data <$> je_regions a !! p.
Proof. apply lookup_fmap. Qed.

#[global] Program Instance je_lawful : LawfulAllocator JeAllocator := { al_view := je_view; al_ok := je_ok }.
Next Obligation. intros n a [Hm H1]. split; [by apply mints_weaken|done]. Qed.
Next Obligation. intros p a. cbn. unfold je_read. rewrite je_view_region. by destruct (je_regions a !! p). Qed.
Next Obligation. intros p a. cbn. unfold je_contains. rewrite je_view_region. apply bool_decide_ext. by rewrite fmap_is_Some. Qed.
Next Obligation.
  intros n len a r a' [Hm H1] Hlen E. cbn in E. unfold je_allocate in E. case_if; [simplify_eq; split; [split; [by apply mints_weaken|done]|done]|].
  simplify_eq. destruct (mints_next _ _ _ (2 ^ 40) (mkJeRegion (zeroed len) false None) Hm ltac:(lia)) as (Hm' & Hn & Hb).
  split; [split; [done|cbn; lia]|]. split; [|split; [|done]].
  - rewrite je_view_region. by rewrite Hn.
  - unfold je_view at 1; cbn [je_regions]. by rewrite fmap_insert.
Qed.
Next Obligation.
  intros n p data v a [Hm H1] Hv E. cbn. rewrite je_view_region in Hv. unfold je_write.
  destruct (je_regions a !! p) as [r|] eqn:Er; [|done]. cbn in Hv. simplify_eq.
  rewrite (blen_eq _ _ E), Z.ltb_irrefl. eexists; split; [done|split].
  - split; [|done]. by apply mints_insert.
  - unfold je_view at 1; cbn. rewrite fmap_insert; cbn. by rewrite overwrite_same.
Qed.
Next Obligation.
  intros n p crc v a [Hm H1] Hv. cbn. rewrite je_view_region in Hv. unfold je_seal_with_crc.
  destruct (je_regions a !! p) as [r|] eqn:Er; [|done]. cbn in Hv. simplify_eq.
  rewrite Z.ltb_irrefl. eexists; split; [done|split].
  - split; [|done]. by apply mints_insert.
  - unfold je_view at 1; cbn. rewrite fmap_insert; cbn. apply insert_id. by rewrite je_view_region, Er.
Qed.
Next Obligation.
  intros n p len a r a' [Hm H1] E. cbn in E. unfold je_free in E. rewrite je_view_region.
  destruct (je_regions a !! p) as [g|] eqn:Er; simplify_eq; cbn; [|done]. split; [|split; [done|]].
  - split; [|done]. by apply mints_delete.
  - unfold je_view at 1; cbn [je_regions]. by rewrite fmap_delete.
Qed.
End je.

(** ** The pool *)

Section pool.
Implicit Types a : PoolBasedMemoryAllocatorBase.

Definition pool_view a : gmap Z bytes := pool_shown <$> pl_live a.

(** Freed addresses are distinct, minted before, and not live. *)
Record pool_ok (n : nat) a : Prop := {
  po_mints : mints (pl_live a) (pl_next_ptr a) n;
  po_base : 2 ^ 44 <= pl_next_ptr a;
  po_free_nodup : NoDup (pl_free_list a);
  po_free p : p ∈ pl_free_list a -> pl_live a !! p = None /\ 0 <= p < pl_next_ptr a }.

Lemma pool_view_object a p : pool_view a !! p = pool_shown <$> pl_live a !! p.
Proof. apply lookup_fmap. Qed.

(** An address for one more object, no longer on the free list. *)
Lemma pool_take_address_ok n a r a' : pool_ok (S n) a -> pool_take_address a = (r, a') ->
  pl_live a' = pl_live a /\ pl_object_len a' = pl_object_len a /\
  match r with
  | Ok p => pl_live a !! p = None /\ 0 <= p <= 2 ^ 63 /\ 0 <= p < pl_next_ptr a' /\ p ∉ pl_free_list a' /\ pool_ok n a'
  | Err _ => pool_ok n a'
  end.
Proof.
  intros [Hm Hb Hd Hf]. unfold pool_take_address. pose proof Hm as (Hlt & H0 & Hn).
  destruct (last (pl_free_list a)) as [p|] eqn:El.
  - apply last_Some in El as [l El]. rewrite El in *. rewrite removelast_last.
    intros [= <- <-]. cbn. apply NoDup_app in Hd as (Hd & Hx & _).
    destruct (Hf p) as [Hn' Hr]; [apply elem_of_app; right; by apply list_elem_of_singleton|].
    assert (p ∉ l) as Hpl by (intros Hin; apply (Hx p Hin); by apply list_elem_of_singleton).
    split_and!; try done; try lia. split; cbn; [by apply mints_weaken|done|done|].
    intros q Hq. apply Hf. apply elem_of_app. by left.
  - unfold ensure_chunk_capacity_for_one_object.
    assert (pool_ok n a) as Ha by (split; [by apply mints_weaken|done..]).
    assert (forall occ, let a1 := mkPool (pl_live a) (pl_free_list a) (Z.max (pl_next_ptr a +! 1) (2 ^ 44))
      (pl_capacity_bytes a) (pl_max_thread_count a) (pl_object_len a) (pl_chunk_size a) occ
      (pl_num_allocated_objects a) (pl_num_freed_objects a) in
      pl_live a !! pl_next_ptr a = None /\ 0 <= pl_next_ptr a <= 2 ^ 63 /\ 0 <= pl_next_ptr a < pl_next_ptr a1 /\
      pl_next_ptr a ∉ pl_free_list a1 /\ pool_ok n a1) as Hfresh.
    { intros occ a1. assert (Z.max (pl_next_ptr a +! 1) (2 ^ 44) = pl_next_ptr a + 1) as Enx
        by (rewrite sat_add_exact by (unfold u64_max; lia); lia).
      split_and!; cbn; rewrite ?Enx; try lia.
      - apply eq_None_not_Some. intros Hs. specialize (Hlt _ Hs). lia.
      - intros Hin. destruct (Hf _ Hin). lia.
      - split; cbn; rewrite ?Enx; [split; [|split; lia]|lia|done|].
        + intros q Hq. specialize (Hlt q Hq). lia.
        + intros q Hq. destruct (Hf q Hq). split; [done|lia]. }
    case_if; [|case_if]; intros [= <- <-]; cbn; split; try done; split; try done; apply Hfresh.
Qed.

Lemma pool_ok_insert n a p o o' : pool_ok n a -> pl_live a !! p = Some o -> pool_ok n (pool_set_live (<[p := o']> (pl_live a)) a).
Proof.
  intros [Hm Hb Hd Hf] Hp. split; cbn; [by apply mints_insert|done|done|].
  intros q Hq. destruct (Hf q Hq) as [Hn Hr]. split; [|done]. rewrite lookup_insert_ne; [done|congruence].
Qed.

Lemma shown_length v o : pool_shown o = v -> blen v <= blen (ob_data o).
Proof. intros <-. unfold pool_shown, blen. rewrite length_take. lia. Qed.

Lemma shown_zeroed len n : 0 <= len <= n -> pool_shown (mkObject (zeroed n) len false None) = zeroed len.
Proof.
  intros Hl. unfold pool_shown; cbn. rewrite zeroed_length, Z.min_l by lia. unfold zeroed. rewrite take_replicate.
  f_equal. lia.
Qed.

#[global] Program Instance pool_lawful : LawfulAllocator PoolBasedMemoryAllocatorBase := { al_view := pool_view; al_ok := pool_ok }.
Next Obligation. intros n a []. split; [by apply mints_weaken|done..]. Qed.
Next Obligation. intros p a. cbn. unfold pool_read. rewrite pool_view_object. by destruct (pl_live a !! p). Qed.
Next Obligation. intros p a. cbn. unfold pool_contains. rewrite pool_view_object. apply bool_decide_ext. by rewrite fmap_is_Some. Qed.
Next Obligation.
  intros n len a r a' Ha Hlen E. cbn in E. unfold pool_allocate in E.
  assert (pool_ok n a) as Ha' by (destruct Ha; split; [by apply mints_weaken|done..]).
  case_if; [by simplify_eq|]. zbool. destruct (pool_take_address a) as [rt at_] eqn:Et.
  destruct (pool_take_address_ok n a rt at_ Ha Et) as (Elive & Eobj & Hr).
  destruct rt as [p|e]; simplify_eq.
  - destruct Hr as (Hn & Hb & Hlt & Hnf & [Hm Hbase Hd Hf]). split.
    + split; cbn; [|done|done|].
      * rewrite Elive. destruct Hm as (Hm & ? & ?). rewrite Elive in Hm. split; [|done].
        intros q. destruct (decide (q = p)) as [->|Hne]; [done|]. rewrite lookup_insert_ne by done. apply Hm.
      * intros q Hq. destruct (Hf q Hq). split; [|done]. rewrite lookup_insert_ne; [done|congruence].
    + split; [|split; [|done]]; rewrite ?pool_view_object, ?Hn; [done|].
      unfold pool_view at 1; cbn. rewrite fmap_insert, Elive, Eobj. by rewrite shown_zeroed by lia.
  - split; [done|]. unfold pool_view. by rewrite Elive.
Qed.
Next Obligation.
  intros n p data v a Ha Hv E. cbn. rewrite pool_view_object in Hv. unfold pool_write.
  destruct (pl_live a !! p) as [o|] eqn:Eo; [|done]. cbn in Hv. injection Hv as Hv.
  pose proof (shown_length _ _ Hv) as Hl. rewrite (proj2 (Z.ltb_ge _ _)) by (unfold blen in *; lia).
  eexists; split; [done|split]; [by eapply pool_ok_insert|].
  unfold pool_view at 1; cbn. rewrite fmap_insert. f_equal. unfold pool_shown, overwrite; cbn.
  unfold blen in *. rewrite length_app. rewrite Z.min_l by lia. rewrite Nat2Z.id. apply take_app_length.
Qed.
Next Obligation.
  intros n p crc v a Ha Hv. cbn. rewrite pool_view_object in Hv. unfold pool_seal_with_crc.
  destruct (pl_live a !! p) as [o|] eqn:Eo; [|done]. cbn in Hv. injection Hv as Hv.
  pose proof (shown_length _ _ Hv) as Hl. rewrite (proj2 (Z.ltb_ge _ _)) by done.
  eexists; split; [done|split]; [by eapply pool_ok_insert|].
  unfold pool_view at 1; cbn. rewrite fmap_insert. apply insert_id. rewrite pool_view_object, Eo. cbn. f_equal.
  unfold pool_shown at 2; cbn. rewrite Z.min_l by done. rewrite <- Hv. unfold pool_shown, blen.
  f_equal. rewrite length_take. lia.
Qed.
Next Obligation.
  intros n p len a r a' [Hm Hb Hd Hf] E. cbn in E. unfold pool_free in E. rewrite pool_view_object.
  destruct (pl_live a !! p) as [o|] eqn:Eo; simplify_eq; cbn; [|done]. split; [|split; [done|]].
  - assert (p ∉ pl_free_list a) as Hp by (intros Hin; destruct (Hf p Hin); congruence).
    split; cbn; [by apply mints_delete|done| |].
    + apply NoDup_app. split_and!; [done| |apply NoDup_singleton]. intros q Hq ->%list_elem_of_singleton. done.
    + intros q [Hq| ->%list_elem_of_singleton]%elem_of_app.
      * destruct (Hf q Hq). split; [|done]. rewrite lookup_delete_ne; [done|]. intros ->. done.
      * split; [apply lookup_delete_eq|]. apply Hm. by eexists.
  - unfold pool_view at 1; cbn. by rewrite fmap_delete.
Qed.
End pool.

(** ** Collection *)

(** What a collection of some chunks does to the log-based allocator: freed
    regions among them are forgotten, nothing else changes. *)
Lemma reclaim_regions ids (a : SimpleLogBasedMemoryAllocator) p :
  lg_regions (foldl (fun a id => reclaim id a) a ids) !! p =
  if bool_decide (p ∈ ids /\ lg_regions a !! p = Some None) then None else lg_regions a !! p.
Proof.
  revert a. induction ids as [|id ids IH]; intros a; cbn [foldl].
  { rewrite bool_decide_eq_false_2; [done|]. intros [Hin _]. by apply not_elem_of_nil in Hin. }
  rewrite IH. assert (lg_regions (reclaim id a) !! p =
    if bool_decide (p = id /\ lg_regions a !! p = Some None) then None else lg_regions a !! p) as ->.
  { unfold reclaim. case_bool_decide as Hp.
    - destruct Hp as [-> Hp]. rewrite Hp. cbn. apply lookup_delete_eq.
    - destruct (lg_regions a !! id) as [[r|]|] eqn:E; try done. cbn.
      destruct (decide (p = id)) as [->|Hne]; [by destruct Hp|]. by rewrite lookup_delete_ne. }
  repeat case_bool_decide; rewrite ?elem_of_cons in *; intuition congruence.
Qed.
