(* ===== verification/MemStorage.v ===== *)
(** * Records in memory

    The records that the memory-backed engines keep (runtime/storage_engines.rs):
    a length header, the value and the key, with a CRC-32C over all three;
    storing them in an allocator, reading them back and deleting them; the
    engine that keeps them in a map; and the listener that picks the valid
    records of a recovery scan. *)

From Stdlib Require Import Strings.Byte.
From S2P Require Import Prelude BlockCodec SsdRecords Allocators Ordering.

(** ** CRC-32C *)

(** One turn of the inner loop. *)
Definition crc_bit (crc : Z) : Z :=
  let mask := wrap32 (0 - Z.land crc 1) in
  Z.lxor (Z.shiftr crc 1) (Z.land 0x82f63b78 mask).
Definition crc_byte (crc : Z) (b : Byte.byte) : Z := Nat.iter 8 crc_bit (Z.lxor crc (byte_value b)).
(** [!x] on a [u32]. *)
Definition not32 (x : Z) : Z := Z.lxor u32_max x.
Definition crc32c_with_seed (v : bytes) (seed : Z) : Z := not32 (foldl crc_byte (not32 seed) v).
Definition crc32c (v : bytes) : Z := crc32c_with_seed v 0.

(** ** Records *)

Definition HEADER_BYTES : Z := 8.

(** The header: the lengths as [u32]s. *)
Definition record_header (key : string) (value : bytes) : bytes :=
  le_bytes 4 (wrap32 (blen value)) ++ le_bytes 4 (wrap32 (blen (key_bytes key))).

Definition compute_crc (key : string) (value : bytes) : Z :=
  let crc := crc32c (record_header key value) in
  let crc := crc32c_with_seed value crc in
  crc32c_with_seed (key_bytes key) crc.

Definition do_put (key : string) (value : bytes) : bytes := record_header key value ++ value ++ key_bytes key.
Definition do_put_with_crc (key : string) (value : bytes) (crc : Z) : result bytes :=
  if negb (compute_crc key value =? crc) then Err CorruptBlock else Ok (do_put key value).

Definition record_lengths (data : bytes) : result (Z * Z) :=
  if blen data <? HEADER_BYTES then Err CorruptBlock
  else Ok (le_value (take 4 data), le_value (take 4 (drop 4 data))).

(** [&data[from..to]]. *)
Definition range (data : bytes) (from to : Z) : bytes := take (Z.to_nat (to - from)) (drop (Z.to_nat from) data).

Definition get_value_from_data (data : bytes) : result bytes :=
  let? lens := record_lengths data in
  let value_end := HEADER_BYTES + lens.1 in
  let record_end := value_end + lens.2 in
  if blen data <? record_end then Err CorruptBlock else Ok (range data HEADER_BYTES value_end).
Definition get_key_from_data (data : bytes) : result string :=
  let? lens := record_lengths data in
  let key_start := HEADER_BYTES + lens.1 in
  let key_end := key_start + lens.2 in
  if blen data <? key_end then Err CorruptBlock
  else
    let key := range data key_start key_end in
    if is_utf8 key then Ok (String.string_of_list_byte key) else Err CorruptBlock.

(** A [CacheBuffer] made of a key and a value: no tier, no handle. *)
Record CacheBuffer := mkBuffer { cb_key : string; cb_value : bytes }.

Definition create_cache_buffer_from_data (data : bytes) : result CacheBuffer :=
  let? key := get_key_from_data data in
  let? value := get_value_from_data data in
  Ok (mkBuffer key value).

(** ** Records in an allocator *)

Record MemStorageRecordHandle := mkHandle {
  record_address : Z; data_address : Z; record_len : Z; value_len : Z; key_len : Z }.
#[global] Instance MemStorageRecordHandle_eq_dec : EqDecision MemStorageRecordHandle.
Proof. solve_decision. Defined.

Definition payload_offset (h : MemStorageRecordHandle) : Z := data_address h -! record_address h.

Section storage.
Context {A : Type} `{MemStorageAllocatorApi A}.
Implicit Types a : A.

Definition do_put_to_allocator_with_crc (key : string) (value : bytes) (crc : Z) a : result MemStorageRecordHandle * A :=
  match do_put_with_crc key value crc with
  | Err e => (Err e, a)
  | Ok record =>
      let '(r, a) := al_allocate (blen record) a in
      match r with
      | Err e => (Err e, a)
      | Ok p =>
          let '(w, a) := al_write_region p record a in
          match w with
          | Err e => (Err e, (al_free p (blen record) a).2)
          | Ok _ =>
              let '(s, a) := al_seal_with_crc p (blen record) crc a in
              match s with
              | Err e => (Err e, (al_free p (blen record) a).2)
              | Ok _ => (Ok (mkHandle p (p +! HEADER_BYTES) (blen record) (blen value) (blen (key_bytes key))), a)
              end
          end
      end
  end.
Definition do_put_to_allocator (key : string) (value : bytes) a : result MemStorageRecordHandle * A :=
  do_put_to_allocator_with_crc key value (compute_crc key value) a.

Definition create_cache_buffer_from_allocator_data (h : MemStorageRecordHandle) a : result CacheBuffer :=
  let? record := al_read_region (record_address h) a in
  if negb (payload_offset h =? HEADER_BYTES) then Err CorruptBlock else create_cache_buffer_from_data record.

Definition do_delete_from_allocator (h : MemStorageRecordHandle) a : result unit * A :=
  match al_read_region (record_address h) a with
  | Err e => (Err e, a)
  | Ok record =>
      match record_lengths record with
      | Err e => (Err e, a)
      | Ok (vl, kl) =>
          let rl := HEADER_BYTES +! vl +! kl in
          if negb (rl =? record_len h) || negb (vl =? value_len h) || negb (kl =? key_len h)
          then (Err CorruptBlock, a)
          else al_free (record_address h) (record_len h) a
      end
  end.
End storage.

(** ** The engine that keeps records in a map *)

Record StorageEngineSimple := mkSimple {
  se_initialized : bool; se_capacity : Z; se_records : gmap string bytes; se_delete_completed_count : Z }.

Section simple.
Implicit Types s : StorageEngineSimple.

Definition simple_with_capacity (capacity : Z) : StorageEngineSimple := mkSimple false capacity ∅ 0.
Definition simple_new : StorageEngineSimple := simple_with_capacity u64_max.

Definition simple_set_records (m : gmap string bytes) s : StorageEngineSimple :=
  mkSimple (se_initialized s) (se_capacity s) m (se_delete_completed_count s).
Definition used_bytes s : Z := map_sum blen (se_records s).

Definition simple_start s : StorageEngineSimple := mkSimple true (se_capacity s) (se_records s) (se_delete_completed_count s).
Definition simple_stop s : StorageEngineSimple := mkSimple false (se_capacity s) (se_records s) (se_delete_completed_count s).
Definition simple_set_capacity (capacity : Z) s : StorageEngineSimple :=
  mkSimple (se_initialized s) capacity (se_records s) (se_delete_completed_count s).

Definition simple_put (key : string) (value : bytes) s : result CacheBuffer * StorageEngineSimple :=
  if negb (se_initialized s) then (Err Stopped, s)
  else
    let record := do_put key value in
    let old_len := match se_records s !! key with Some old => blen old | None => 0 end in
    let next_used := used_bytes s -! old_len +! blen record in
    if se_capacity s <? next_used then (Err CapacityExceeded, s)
    else (Ok (mkBuffer key value), simple_set_records (<[key := record]> (se_records s)) s).
Definition simple_get (key : string) s : result CacheBuffer :=
  if negb (se_initialized s) then Err Stopped
  else match se_records s !! key with None => Err NotFound | Some record => create_cache_buffer_from_data record end.
Definition simple_peek (key : string) s : bool := bool_decide (is_Some (se_records s !! key)).
Definition simple_delete (key : string) s : result unit * StorageEngineSimple :=
  if negb (se_initialized s) then (Err Stopped, s)
  else match se_records s !! key with
  | None => (Err NotFound, s)
  | Some _ =>
      (Ok tt, mkSimple (se_initialized s) (se_capacity s) (delete key (se_records s)) (sat_add32 (se_delete_completed_count s) 1))
  end.
Definition simple_delete_buffer (b : CacheBuffer) s : result unit * StorageEngineSimple := simple_delete (cb_key b) s.
Definition simple_reset s : StorageEngineSimple := mkSimple (se_initialized s) (se_capacity s) ∅ 0.

(** The callback ([cb]) sees the result that is returned. *)
Definition simple_async_put {S} (b : CacheBuffer) (cb : result CacheBuffer -> S -> S) s (st : S) :
    result CacheBuffer * StorageEngineSimple * S :=
  let '(r, s) := simple_put (cb_key b) (cb_value b) s in (r, s, cb r st).
Definition simple_async_delete {S} (b : CacheBuffer) (cb : result unit -> S -> S) s (st : S) :
    result unit * StorageEngineSimple * S :=
  let '(r, s) := simple_delete_buffer b s in (r, s, cb r st).

(** Recovery hands over the records in the order the hash map is walked. *)
Fixpoint simple_recover_data {S} (order : list (string * bytes)) (cb : string -> CacheBuffer -> S -> S) (st : S) :
    result unit * S :=
  match order with
  | [] => (Ok tt, st)
  | (key, record) :: order =>
      match create_cache_buffer_from_data record with
      | Err e => (Err e, st)
      | Ok b => simple_recover_data order cb (cb key b st)
      end
  end.
End simple.

(** ** Recovery scans *)

(** A key seen once keeps its record; seen again it keeps none. *)
Record PmemAllocatorRecoverListenerImpl := mkListener {
  ls_records : gmap string (option bytes); ls_duplicate_records : list bytes }.

Section listener.
Implicit Types l : PmemAllocatorRecoverListenerImpl.

Definition new_listener : PmemAllocatorRecoverListenerImpl := mkListener ∅ [].

Definition on_scan_record_data (data : bytes) l : result bool * PmemAllocatorRecoverListenerImpl :=
  match get_key_from_data data with
  | Err e => (Err e, l)
  | Ok key =>
      match ls_records l !! key with
      | None => (Ok false, mkListener (<[key := Some data]> (ls_records l)) (ls_duplicate_records l))
      | Some _ => (Ok true, mkListener (<[key := None]> (ls_records l)) (ls_duplicate_records l ++ [data]))
      end
  end.

Fixpoint recover_keys {S} (keys : list string) (records : gmap string (option bytes))
    (cb : string -> CacheBuffer -> S -> S) (valid : Z) (st : S) : result Z * S :=
  match keys with
  | [] => (Ok valid, st)
  | key :: keys =>
      match records !! key with
      | Some (Some record) =>
          match create_cache_buffer_from_data record with
          | Err e => (Err e, st)
          | Ok b => recover_keys keys records cb (valid +! 1) (cb key b st)
          end
      | _ => recover_keys keys records cb valid st
      end
  end.
Definition finish_recover {S} (cb : string -> CacheBuffer -> S -> S) l (st : S) :
    result Z * PmemAllocatorRecoverListenerImpl * S :=
  match recover_keys (sorted_keys (ls_records l)) (ls_records l) cb 0 st with
  | (Err e, st) => (Err e, l, st)
  | (Ok n, st) => (Ok n, mkListener (ls_records l) [], st)
  end.
End listener.
