(* ===== verification/MemStorageSpec.v ===== *)
(** * Records in memory: what they promise

    A record read back is the record written, within the 32-bit lengths of its
    header; the checksum covers the whole record and changes with any one byte
    of it; an allocator used through the record operations is a map from
    addresses to keys and values; the engine is a map bounded by its capacity;
    recovery hands over exactly the keys that were scanned once, in order. *)

From Stdlib Require Import Strings.Byte Sorting.Sorted.
From S2P Require Import Prelude BlockCodec SsdRecords Allocators AllocatorLaws Ordering MemStorage.

(** ** CRC-32C *)

Lemma lxor_range n x y : 0 <= n -> 0 <= x < 2 ^ n -> 0 <= y < 2 ^ n -> 0 <= Z.lxor x y < 2 ^ n.
Proof.
  intros Hn Hx Hy. assert (0 <= Z.lxor x y) as H0 by (apply Z.lxor_nonneg; lia). split; [done|].
  apply Z.nle_gt. intros Hge. assert (Z.lxor x y <> 0) as Hnz by (pose proof (Z.pow_pos_nonneg 2 n); lia).
  pose proof (Z.bit_log2 (Z.lxor x y) ltac:(lia)) as Hb. rewrite Z.lxor_spec in Hb.
  assert (n <= Z.log2 (Z.lxor x y)) as Hl by (rewrite <- (Z.log2_pow2 n) by done; by apply Z.log2_le_mono).
  by rewrite !(testbit_high n) in Hb.
Qed.

Lemma lxor_inj_l a x y : Z.lxor a x = Z.lxor a y -> x = y.
Proof. intros E. rewrite <- (Z.lxor_0_l x), <- (Z.lxor_0_l y), <- (Z.lxor_nilpotent a), !Z.lxor_assoc. by rewrite E. Qed.

Lemma not32_range x : 0 <= x < 2 ^ 32 -> 0 <= not32 x < 2 ^ 32.
Proof. intros. apply lxor_range; unfold u32_max; lia. Qed.

Lemma not32_not32 x : not32 (not32 x) = x.
Proof. unfold not32. by rewrite <- Z.lxor_assoc, Z.lxor_nilpotent, Z.lxor_0_l. Qed.

(** The mask keeps the polynomial when the low bit is set and drops it when
    it is not. *)
Lemma crc_bit_eq x : crc_bit x = Z.lxor (Z.shiftr x 1) (if Z.odd x then 0x82f63b78 else 0).
Proof.
  unfold crc_bit. change (Z.land x 1) with (Z.land x (Z.ones 1)). rewrite (Z.land_ones x 1) by lia. change (2 ^ 1) with 2. rewrite Zmod_odd. by destruct (Z.odd x).
Qed.

#[local] Opaque crc_bit.

Lemma crc_bit_range x : 0 <= x < 2 ^ 32 -> 0 <= crc_bit x < 2 ^ 32.
Proof.
  intros Hx. rewrite crc_bit_eq. apply lxor_range; [lia| |destruct (Z.odd x); lia].
  rewrite Z.shiftr_div_pow2 by lia. split; [apply Z.div_pos; lia|]. apply Z.div_lt_upper_bound; lia.
Qed.

(** The polynomial has its top bit set, so the bit shifted out is still
    there. *)
Lemma crc_bit_top x : 0 <= x < 2 ^ 32 -> Z.testbit (crc_bit x) 31 = Z.odd x.
Proof.
  intros Hx. rewrite crc_bit_eq, Z.lxor_spec, Z.shiftr_spec by lia. rewrite (testbit_high 32) by lia. by destruct (Z.odd x).
Qed.

Lemma crc_bit_inj x y : 0 <= x < 2 ^ 32 -> 0 <= y < 2 ^ 32 -> crc_bit x = crc_bit y -> x = y.
Proof.
  intros Hx Hy E. assert (Z.odd x = Z.odd y) as Ho by (rewrite <- !crc_bit_top by done; by rewrite E).
  rewrite !crc_bit_eq, Ho, (Z.lxor_comm (Z.shiftr x 1)), (Z.lxor_comm (Z.shiftr y 1)) in E. apply lxor_inj_l in E.
  rewrite !Z.shiftr_div_pow2 in E by lia. change (2 ^ 1) with 2 in E.
  rewrite (Z.div_mod x 2), (Z.div_mod y 2), !Zmod_odd, Ho by lia. by rewrite E.
Qed.

Lemma iter_crc_bit n x : 0 <= x < 2 ^ 32 -> 0 <= Nat.iter n crc_bit x < 2 ^ 32.
Proof. intros Hx. induction n; cbn; [done|by apply crc_bit_range]. Qed.

Lemma iter_crc_bit_inj n x y : 0 <= x < 2 ^ 32 -> 0 <= y < 2 ^ 32 -> Nat.iter n crc_bit x = Nat.iter n crc_bit y -> x = y.
Proof.
  intros Hx Hy. induction n; cbn; [done|]. intros E. apply IHn. apply crc_bit_inj; [by apply iter_crc_bit..|done].
Qed.

Lemma byte_lxor_range x b : 0 <= x < 2 ^ 32 -> 0 <= Z.lxor x (byte_value b) < 2 ^ 32.
Proof. intros Hx. apply lxor_range; [lia|done|]. pose proof (byte_value_range b). lia. Qed.

Lemma crc_byte_eq x b : crc_byte x b = Nat.iter 8 crc_bit (Z.lxor x (byte_value b)).
Proof. unfold crc_byte. reflexivity. Qed.

Lemma crc_byte_range x b : 0 <= x < 2 ^ 32 -> 0 <= crc_byte x b < 2 ^ 32.
Proof. intros Hx. rewrite crc_byte_eq. by apply iter_crc_bit, byte_lxor_range. Qed.

Lemma crc_byte_inj_state x y b : 0 <= x < 2 ^ 32 -> 0 <= y < 2 ^ 32 -> crc_byte x b = crc_byte y b -> x = y.
Proof.
  rewrite !crc_byte_eq. intros Hx Hy E. apply iter_crc_bit_inj in E; [|by apply byte_lxor_range..].
  rewrite (Z.lxor_comm x), (Z.lxor_comm y) in E. by apply lxor_inj_l in E.
Qed.

Lemma crc_byte_inj_byte x b c : 0 <= x < 2 ^ 32 -> crc_byte x b = crc_byte x c -> b = c.
Proof.
  rewrite !crc_byte_eq. intros Hx E. apply iter_crc_bit_inj in E; [|by apply byte_lxor_range..]. apply lxor_inj_l in E. by apply byte_value_inj.
Qed.

Lemma crc_fold_range v x : 0 <= x < 2 ^ 32 -> 0 <= foldl crc_byte x v < 2 ^ 32.
Proof. revert x. induction v as [|b v IH]; intros x Hx; cbn; [done|]. by apply IH, crc_byte_range. Qed.

Lemma crc_fold_inj v x y : 0 <= x < 2 ^ 32 -> 0 <= y < 2 ^ 32 -> foldl crc_byte x v = foldl crc_byte y v -> x = y.
Proof.
  revert x y. induction v as [|b v IH]; intros x y Hx Hy; cbn; [done|]. intros E.
  apply (crc_byte_inj_state _ _ b); [done..|]. apply IH; [by apply crc_byte_range..|done].
Qed.

(** Checksumming in pieces: the checksum so far is the seed of the next. *)
Lemma crc_pieces v w seed : crc32c_with_seed (v ++ w) seed = crc32c_with_seed w (crc32c_with_seed v seed).
Proof. unfold crc32c_with_seed. by rewrite not32_not32, foldl_app. Qed.

Lemma compute_crc_record key value : compute_crc key value = crc32c (do_put key value).
Proof. unfold compute_crc, crc32c, do_put. by rewrite !crc_pieces. Qed.

Lemma do_put_checked key value crc :
  do_put_with_crc key value crc = if decide (crc = crc32c (do_put key value)) then Ok (do_put key value) else Err CorruptBlock.
Proof. unfold do_put_with_crc. rewrite compute_crc_record. case_decide; case_if; zbool; congruence. Qed.

(** The checksum of a record is the CRC-32C of the record's bytes, header
    and all, and a record in which exactly one byte differs has another
    checksum. *)
Theorem crc_detects_byte (key key' : string) (value value' p r : bytes) (b c : Byte.byte) :
  do_put key value = p ++ b :: r -> do_put key' value' = p ++ c :: r -> b <> c ->
  compute_crc key value = crc32c (p ++ b :: r) /\ compute_crc key value <> compute_crc key' value'.
Proof.
  intros E E' Hbc. rewrite !compute_crc_record, E, E'. split; [done|]. intros Eq. apply Hbc.
  unfold crc32c, crc32c_with_seed in Eq. apply lxor_inj_l in Eq. rewrite !foldl_app in Eq. cbn [foldl] in Eq.
  assert (0 <= foldl crc_byte (not32 0) p < 2 ^ 32) as Hp by (apply crc_fold_range; by apply not32_range).
  apply crc_fold_inj in Eq; [|by apply crc_byte_range..]. by apply crc_byte_inj_byte in Eq.
Qed.

Lemma crc_detects_byte_witness :
  compute_crc "k" [x01; x02] = 2476120458 /\ compute_crc "k" [x01; x02] <> compute_crc "k" [x01; x03].
Proof.
  assert (compute_crc "k" [x01; x02] = crc32c (do_put "k" [x01; x02])) as E by apply compute_crc_record.
  destruct (crc_detects_byte "k" "k" [x01; x02] [x01; x03] (take 9 (do_put "k" [x01; x02])) [x6b] x02 x03
    ltac:(reflexivity) ltac:(reflexivity) ltac:(discriminate)) as [_ Hne].
  split; [vm_compute; reflexivity|exact Hne].
Defined.

(** ** Fields of a record *)

Lemma drop_blen_app n (v w : bytes) : blen v = n -> drop (Z.to_nat n) (v ++ w) = w.
Proof. intros <-. unfold blen. rewrite Nat2Z.id. apply drop_app_length. Qed.

Lemma take_blen_app n (v w : bytes) : blen v = n -> take (Z.to_nat n) (v ++ w) = v.
Proof. intros <-. unfold blen. rewrite Nat2Z.id. apply take_app_length. Qed.

Lemma record_header_length key value : blen (record_header key value) = HEADER_BYTES.
Proof. unfold record_header. by rewrite blen_app; unfold blen; rewrite !le_bytes_length. Qed.

Lemma wrap32_range z : 0 <= wrap32 z < 2 ^ 32.
Proof. apply Z.mod_pos_bound. lia. Qed.

Lemma wrap32_small z : 0 <= z < 2 ^ 32 -> wrap32 z = z.
Proof. apply Z.mod_small. Qed.

(** The header keeps the lengths modulo 2^32. *)
Lemma record_lengths_put key value :
  record_lengths (do_put key value) = Ok (wrap32 (blen value), wrap32 (blen (key_bytes key))).
Proof.
  unfold record_lengths, do_put. rewrite !blen_app, record_header_length.
  pose proof (blen_nonneg value). pose proof (blen_nonneg (key_bytes key)).
  rewrite (proj2 (Z.ltb_ge _ _)) by lia. unfold record_header. rewrite <- !app_assoc.
  rewrite (take_blen_app 4), (drop_blen_app 4), (take_blen_app 4) by (unfold blen; by rewrite le_bytes_length).
  by rewrite !le_value_bytes by apply wrap32_range.
Qed.

Lemma get_value_put key value :
  get_value_from_data (do_put key value) = Ok (take (Z.to_nat (wrap32 (blen value))) (value ++ key_bytes key)).
Proof.
  unfold get_value_from_data. rewrite record_lengths_put. cbn [result_bind fst snd].
  pose proof (blen_nonneg value) as Hv. pose proof (blen_nonneg (key_bytes key)) as Hk.
  pose proof (Z.mod_le (blen value) (2 ^ 32) Hv ltac:(lia)) as Hwv. fold (wrap32 (blen value)) in Hwv.
  pose proof (Z.mod_le (blen (key_bytes key)) (2 ^ 32) Hk ltac:(lia)) as Hwk. fold (wrap32 (blen (key_bytes key))) in Hwk.
  unfold do_put at 1. rewrite !blen_app, record_header_length, (proj2 (Z.ltb_ge _ _)) by lia.
  unfold range, do_put. rewrite (drop_blen_app HEADER_BYTES) by apply record_header_length. do 2 f_equal. lia.
Qed.

(** A record yields the value that was written when the value is shorter
    than 4 GiB, and its first bytes modulo 4 GiB, without an error, when it is
    not. *)
Theorem record_value_wraps (key : string) (value : bytes) :
  get_value_from_data (do_put key value) = Ok (take (Z.to_nat (blen value `mod` 2 ^ 32)) value).
Proof.
  rewrite get_value_put. unfold wrap32. pose proof (blen_nonneg value).
  pose proof (Z.mod_le (blen value) (2 ^ 32) ltac:(done) ltac:(lia)). rewrite take_app_le; [done|].
  unfold blen in *. lia.
Qed.

(** What a client may store: keys are Rust strings, and both lengths fit the
    header. *)
Definition record_ok (key : string) (value : bytes) : Prop :=
  is_utf8 (key_bytes key) = true /\ blen value < 2 ^ 32 /\ blen (key_bytes key) < 2 ^ 32.

Lemma record_lengths_ok key value : record_ok key value ->
  record_lengths (do_put key value) = Ok (blen value, blen (key_bytes key)).
Proof.
  intros (_ & Hv & Hk). pose proof (blen_nonneg value). pose proof (blen_nonneg (key_bytes key)).
  by rewrite record_lengths_put, !wrap32_small.
Qed.

Lemma do_put_length key value : blen (do_put key value) = HEADER_BYTES + blen value + blen (key_bytes key).
Proof. unfold do_put. rewrite !blen_app, record_header_length. lia. Qed.

Lemma get_key_put key value : record_ok key value -> get_key_from_data (do_put key value) = Ok key.
Proof.
  intros Hok. unfold get_key_from_data. rewrite (record_lengths_ok _ _ Hok). cbn [result_bind fst snd].
  rewrite do_put_length, Z.ltb_irrefl. unfold range, do_put.
  replace (Z.to_nat (HEADER_BYTES + blen value + blen (key_bytes key) - (HEADER_BYTES + blen value)))
    with (Z.to_nat (blen (key_bytes key))) by lia.
  rewrite (app_assoc (record_header key value)).
  rewrite drop_blen_app by (by rewrite blen_app, record_header_length).
  unfold blen at 1 2. rewrite Nat2Z.id, firstn_all. destruct Hok as (-> & _ & _).
  unfold key_bytes. by rewrite String.string_of_list_byte_of_string.
Qed.

Lemma buffer_put key value : record_ok key value -> create_cache_buffer_from_data (do_put key value) = Ok (mkBuffer key value).
Proof.
  intros Hok. unfold create_cache_buffer_from_data. rewrite (get_key_put _ _ Hok), get_value_put. cbn [result_bind].
  destruct Hok as (_ & Hv & _). pose proof (blen_nonneg value). rewrite wrap32_small by done. by rewrite take_blen_app.
Qed.

(** ** The allocator as a map of records *)

Inductive record_op :=
| PutRecord (key : string) (value : bytes)
| GetRecord (h : MemStorageRecordHandle)
| DeleteRecord (h : MemStorageRecordHandle).
Inductive record_out :=
| PutOut (r : result MemStorageRecordHandle)
| GetOut (r : result CacheBuffer)
| DeleteOut (r : result unit).

(** The handle of a record kept at an address. *)
Definition handle_of (p : Z) (key : string) (value : bytes) : MemStorageRecordHandle :=
  mkHandle p (p + HEADER_BYTES) (blen (do_put key value)) (blen value) (blen (key_bytes key)).
Definition same_lengths (h : MemStorageRecordHandle) (key : string) (value : bytes) : Prop :=
  (record_len h, value_len h, key_len h) = (blen (do_put key value), blen value, blen (key_bytes key)).

Abbreviation kept := (gmap Z (string * bytes)).
Implicit Types S : kept.

(** A put takes an address that holds nothing; reading and deleting go by the
    address; a handle whose lengths are not the record's deletes nothing. *)
Inductive record_step S : record_op -> record_out -> kept -> Prop :=
| put_kept p key value : S !! p = None ->
    record_step S (PutRecord key value) (PutOut (Ok (handle_of p key value))) (<[p := (key, value)]> S)
| put_refused key value e : record_step S (PutRecord key value) (PutOut (Err e)) S
| get_kept h key value : S !! record_address h = Some (key, value) -> payload_offset h = HEADER_BYTES ->
    record_step S (GetRecord h) (GetOut (Ok (mkBuffer key value))) S
| get_bad h : is_Some (S !! record_address h) -> payload_offset h <> HEADER_BYTES ->
    record_step S (GetRecord h) (GetOut (Err CorruptBlock)) S
| get_absent h : S !! record_address h = None -> record_step S (GetRecord h) (GetOut (Err NotFound)) S
| delete_kept h key value : S !! record_address h = Some (key, value) -> same_lengths h key value ->
    record_step S (DeleteRecord h) (DeleteOut (Ok tt)) (delete (record_address h) S)
| delete_bad h key value : S !! record_address h = Some (key, value) -> ~ same_lengths h key value ->
    record_step S (DeleteRecord h) (DeleteOut (Err CorruptBlock)) S
| delete_absent h : S !! record_address h = None -> record_step S (DeleteRecord h) (DeleteOut (Err NotFound)) S.

Inductive record_steps S : list record_op -> list record_out -> kept -> Prop :=
| steps_nil : record_steps S [] [] S
| steps_cons op out ops outs S' S'' : record_step S op out S' -> record_steps S' ops outs S'' ->
    record_steps S (op :: ops) (out :: outs) S''.

Definition op_ok (op : record_op) : Prop := match op with PutRecord key value => record_ok key value | _ => True end.

(** What the allocator holds for [S]. *)
Definition images S : gmap Z bytes := (fun kv => do_put kv.1 kv.2) <$> S.
Definition kept_ok S : Prop := map_Forall (fun _ kv => record_ok kv.1 kv.2) S.

Section records.
Context {A : Type} `{LawfulAllocator A}.
Implicit Types a : A.

Definition run_record_op (op : record_op) a : record_out * A :=
  match op with
  | PutRecord key value => let '(r, a) := do_put_to_allocator key value a in (PutOut r, a)
  | GetRecord h => (GetOut (create_cache_buffer_from_allocator_data h a), a)
  | DeleteRecord h => let '(r, a) := do_delete_from_allocator h a in (DeleteOut r, a)
  end.
Fixpoint run_record_ops (ops : list record_op) a : list record_out * A :=
  match ops with
  | [] => ([], a)
  | op :: ops =>
      let '(out, a) := run_record_op op a in
      let '(outs, a) := run_record_ops ops a in (out :: outs, a)
  end.

Lemma images_lookup S p : images S !! p = (fun kv => do_put kv.1 kv.2) <$> S !! p.
Proof. apply lookup_fmap. Qed.

Lemma read_kept S a p : al_view a = images S ->
  al_read_region p a = match S !! p with Some kv => Ok (do_put kv.1 kv.2) | None => Err NotFound end.
Proof. intros E. rewrite al_read_law, E, images_lookup. by destruct (S !! p). Qed.

(** Allocating, writing and sealing a record; the clean-up paths are not
    taken. *)
Lemma put_record n key value a r a' : al_ok (Datatypes.S n) a -> do_put_to_allocator key value a = (r, a') ->
  al_ok n a' /\ match r with
  | Ok h => exists p, h = handle_of p key value /\ al_view a !! p = None /\ al_view a' = <[p := do_put key value]> (al_view a)
  | Err _ => al_view a' = al_view a
  end.
Proof.
  intros Ha. unfold do_put_to_allocator, do_put_to_allocator_with_crc.
  rewrite do_put_checked, compute_crc_record, decide_True by done.
  set (record := do_put key value). destruct (al_allocate (blen record) a) as [ra a1] eqn:Ea.
  destruct (al_allocate_law _ _ _ _ _ Ha (blen_nonneg _) Ea) as [Ha1 Hr].
  destruct ra as [p|e]; [|by intros [= <- <-]]. destruct Hr as (Hp & Hv & Hb).
  pose proof (blen_nonneg record) as Hl.
  destruct (al_write_law n p record (zeroed (blen record)) a1) as (a2 & -> & Ha2 & Hv2); [done|by rewrite Hv, lookup_insert_eq| |].
  { apply Nat2Z.inj. symmetry. exact (zeroed_length _ Hl). }
  rewrite Hv, insert_insert_eq in Hv2.
  destruct (al_seal_law n p (crc32c record) record a2) as (a3 & -> & Ha3 & Hv3); [done|by rewrite Hv2, lookup_insert_eq|].
  intros [= <- <-]. split; [done|]. exists p. rewrite Hv3, Hv2. split_and!; [|done..].
  unfold handle_of. rewrite sat_add_exact; [done|]. unfold HEADER_BYTES, u64_max. lia.
Qed.

Lemma put_step n S key value a r a' : record_ok key value -> al_ok (Datatypes.S n) a -> al_view a = images S -> kept_ok S ->
  do_put_to_allocator key value a = (r, a') ->
  exists S', record_step S (PutRecord key value) (PutOut r) S' /\ al_ok n a' /\ al_view a' = images S' /\ kept_ok S'.
Proof.
  intros Hok Ha Hv HS E. destruct (put_record _ _ _ _ _ _ Ha E) as [Ha' Hr]. destruct r as [h|e].
  - destruct Hr as (p & -> & Hp & Hv'). rewrite Hv, images_lookup, fmap_None in Hp.
    exists (<[p := (key, value)]> S). split_and!; [by constructor|done| |by apply map_Forall_insert_2].
    rewrite Hv', Hv. unfold images. by rewrite fmap_insert.
  - exists S. rewrite Hr. split_and!; try done. constructor.
Qed.

Lemma get_step S h a : al_view a = images S -> kept_ok S ->
  record_step S (GetRecord h) (GetOut (create_cache_buffer_from_allocator_data h a)) S.
Proof.
  intros Hv HS. unfold create_cache_buffer_from_allocator_data. rewrite (read_kept S) by done.
  destruct (S !! record_address h) as [[key value]|] eqn:E; cbn [result_bind fst snd]; [|by constructor].
  pose proof (HS _ _ E). case_if; zbool; [by constructor|]. rewrite buffer_put by done. by constructor.
Qed.

Lemma delete_step n S h a r a' : al_ok n a -> al_view a = images S -> kept_ok S ->
  do_delete_from_allocator h a = (r, a') ->
  exists S', record_step S (DeleteRecord h) (DeleteOut r) S' /\ al_ok n a' /\ al_view a' = images S' /\ kept_ok S'.
Proof.
  intros Ha Hv HS. unfold do_delete_from_allocator. rewrite (read_kept S) by done.
  destruct (S !! record_address h) as [[key value]|] eqn:E; cbn [fst snd].
  2: { intros [= <- <-]. exists S. split_and!; [by constructor|done..]. }
  pose proof (HS _ _ E) as Hok. rewrite record_lengths_ok by done. destruct Hok as (_ & Hlv & Hlk). cbn [fst snd] in Hlv, Hlk.
  rewrite (sat_add_exact HEADER_BYTES), sat_add_exact by (unfold HEADER_BYTES, u64_max; lia). rewrite <- do_put_length. case_if.
  - intros [= <- <-]. exists S. split_and!; [|done..]. eapply delete_bad; [done|]. unfold same_lengths. intros [=].
    zbool. lia.
  - intros Ef. destruct (al_free_law _ _ _ _ _ _ Ha Ef) as [Ha' Hr]. rewrite Hv, images_lookup, E in Hr. destruct Hr as [-> Hv'].
    exists (delete (record_address h) S). split_and!; [|done| |by apply map_Forall_delete].
    + eapply delete_kept; [done|]. unfold same_lengths. zbool. repeat f_equal; lia.
    + rewrite Hv'. unfold images. by rewrite fmap_delete.
Qed.

Lemma run_records n ops S a outs a' : Forall op_ok ops -> (length ops <= n)%nat -> al_ok n a -> al_view a = images S -> kept_ok S ->
  run_record_ops ops a = (outs, a') -> exists S', record_steps S ops outs S' /\ al_view a' = images S'.
Proof.
  revert n S a outs. induction ops as [|op ops IH]; intros n S a outs Hops Hn Ha Hv HS; cbn [run_record_ops].
  { intros [= <- <-]. exists S. split; [constructor|done]. }
  apply Forall_cons in Hops as [Hop Hops]. cbn [length] in Hn. destruct n as [|n]; [lia|].
  destruct (run_record_op op a) as [out a1] eqn:E1. destruct (run_record_ops ops a1) as [outs1 a2] eqn:E2. intros [= <- <-].
  assert (exists S1, record_step S op out S1 /\ al_ok n a1 /\ al_view a1 = images S1 /\ kept_ok S1) as (S1 & Hs & Ha1 & Hv1 & HS1).
  { destruct op as [key value|h|h]; cbn in E1.
    - destruct (do_put_to_allocator key value a) as [r a3] eqn:Ep. simplify_eq. by eapply put_step.
    - simplify_eq. exists S. split_and!; [by apply get_step|by apply al_ok_weaken|done..].
    - destruct (do_delete_from_allocator h a) as [r a3] eqn:Ep. simplify_eq. apply al_ok_weaken in Ha. by eapply delete_step. }
  destruct (IH n S1 a1 outs1) as (S2 & Hss & Hv2); [done|lia|done..|]. exists S2. split; [by econstructor|done].
Qed.
End records.

(** C32. Over any of the allocators, every history of putting, reading and
    deleting records behaves as a map from addresses to keys and values: a put
    that succeeds takes a free address, a read hands over the key and value
    kept there, and only a handle with the record's lengths deletes it. *)
Theorem mem_storage_refines {A} `{LawfulAllocator A} (ops : list record_op) (a : A) :
  Forall op_ok ops -> al_ok (length ops) a -> al_view a = ∅ ->
  exists outs a' S', run_record_ops ops a = (outs, a') /\ record_steps ∅ ops outs S' /\ al_view a' = images S'.
Proof.
  intros Hops Ha Hv. destruct (run_record_ops ops a) as [outs a'] eqn:E. exists outs, a'.
  destruct (run_records (length ops) ops ∅ a outs a') as (S' & Hs & Hv'); [done..| |apply map_Forall_empty|done|by exists S'].
  rewrite Hv. symmetry. apply fmap_empty.
Qed.

(** A pool of 64-byte objects: a record, its deletion, and a record that
    takes the address again; the old handle then reads the new record. *)
Definition demo_handle : MemStorageRecordHandle := handle_of (2 ^ 44) "a" [x01; x02].
Definition demo_ops : list record_op :=
  [PutRecord "a" [x01; x02]; DeleteRecord demo_handle; GetRecord demo_handle; PutRecord "b" [x03]; GetRecord demo_handle;
   DeleteRecord demo_handle].

Example demo_ops_run : (run_record_ops demo_ops (pool_new 128 1 64)).1 =
  [PutOut (Ok demo_handle); DeleteOut (Ok tt); GetOut (Err NotFound); PutOut (Ok (handle_of (2 ^ 44) "b" [x03]));
   GetOut (Ok (mkBuffer "b" [x03])); DeleteOut (Err CorruptBlock)].
Proof. vm_compute. reflexivity. Qed.

Lemma pool_new_ok n capacity threads len : (n < 2 ^ 62)%Z -> 0 <= n -> pool_ok (Z.to_nat n) (pool_new capacity threads len).
Proof.
  intros Hn H0. split; cbn; [|lia|constructor|]; [split; [|lia]|].
  - intros p [x Hx]. by rewrite lookup_empty in Hx.
  - intros p Hp. by apply not_elem_of_nil in Hp.
Qed.

Lemma mem_storage_refines_witness :
  Forall op_ok demo_ops /\ al_ok (length demo_ops) (pool_new 128 1 64) /\ al_view (pool_new 128 1 64) = ∅ /\
  exists outs a' S', run_record_ops demo_ops (pool_new 128 1 64) = (outs, a') /\ record_steps ∅ demo_ops outs S' /\
    al_view a' = images S'.
Proof.
  assert (Forall op_ok demo_ops) as H1 by (repeat constructor).
  assert (al_ok (length demo_ops) (pool_new 128 1 64)) as H2 by (apply (pool_new_ok 6); done).
  assert (al_view (pool_new 128 1 64) = ∅) as H3 by reflexivity.
  split; [exact H1|split; [exact H2|split; [exact H3|]]].
  exact (mem_storage_refines demo_ops (pool_new 128 1 64) H1 H2 H3).
Defined.

(** ** Recovery *)

Section recovery.
Implicit Types (es : list (string * bytes)) (l : PmemAllocatorRecoverListenerImpl).

(** The records of [es] scanned one after another. *)
Definition scan_records es l : PmemAllocatorRecoverListenerImpl :=
  foldl (fun l e => (on_scan_record_data (do_put e.1 e.2) l).2) l es.
Definition entries_of es (key : string) : list (string * bytes) := filter (fun e => e.1 = key) es.
Definition push_found (key : string) (b : CacheBuffer) (found : list (string * CacheBuffer)) : list (string * CacheBuffer) :=
  found ++ [(key, b)].

Definition all_ok es : Prop := Forall (fun e => record_ok e.1 e.2) es.

Lemma scan_lookup es key : all_ok es ->
  ls_records (scan_records es new_listener) !! key =
  match entries_of es key with [] => None | [e] => Some (Some (do_put e.1 e.2)) | _ => Some None end.
Proof.
  induction es as [|[key' value] es IH] using rev_ind; intros Hok; [apply lookup_empty|].
  apply Forall_app in Hok as [Hok He]. apply Forall_cons in He as [He _]. cbn [fst snd] in He. specialize (IH Hok).
  unfold scan_records, entries_of in *. rewrite foldl_app, filter_app, filter_cons. cbn [foldl fst snd].
  set (l := foldl _ _ es) in *. unfold on_scan_record_data. rewrite get_key_put by done.
  destruct (decide (key' = key)) as [->|Hne].
  - destruct (filter _ es) as [|e [|e' es']]; rewrite IH; cbn; by rewrite lookup_insert_eq.
  - rewrite app_nil_r. by destruct (ls_records l !! key'); cbn; rewrite lookup_insert_ne.
Qed.

Lemma entries_of_in es key e : e ∈ entries_of es key -> e.1 = key /\ e ∈ es.
Proof. intros He. by apply list_elem_of_filter in He. Qed.

(** The buffer a recovery makes of a key: that of its record, if it has one. *)
Definition picked (records : gmap string (option bytes)) (key : string) : option CacheBuffer :=
  record ← (records !! key ≫= id); match create_cache_buffer_from_data record with Ok b => Some b | Err _ => None end.

Lemma scan_picked es key : all_ok es ->
  picked (ls_records (scan_records es new_listener)) key = match entries_of es key with [e] => Some (mkBuffer key e.2) | _ => None end.
Proof.
  intros Hok. unfold picked. rewrite scan_lookup by done.
  destruct (entries_of es key) as [|[k v] [|]] eqn:E; [done| |done]. cbn.
  destruct (entries_of_in es key (k, v)) as [<- Hin]; [rewrite E; by apply list_elem_of_singleton|].
  by rewrite buffer_put by exact (proj1 (Forall_forall _ _) Hok _ Hin).
Qed.

Lemma scan_readable es key record : all_ok es -> ls_records (scan_records es new_listener) !! key = Some (Some record) ->
  exists b, create_cache_buffer_from_data record = Ok b.
Proof.
  intros Hok. rewrite scan_lookup by done. destruct (entries_of es key) as [|[k v] [|]] eqn:E; [done| |done].
  intros [= <-]. destruct (entries_of_in es key (k, v)) as [_ Hin]; [rewrite E; by apply list_elem_of_singleton|].
  eexists. apply buffer_put. exact (proj1 (Forall_forall _ _) Hok _ Hin).
Qed.

Definition handed_over (records : gmap string (option bytes)) (keys : list string) : list (string * CacheBuffer) :=
  omap (fun key => pair key <$> picked records key) keys.

Lemma recover_keys_picks es keys valid found (records := ls_records (scan_records es new_listener)) : all_ok es ->
  0 <= valid -> valid + Z.of_nat (length keys) <= u64_max ->
  recover_keys keys records push_found valid found =
  (Ok (valid + Z.of_nat (length (handed_over records keys))), found ++ handed_over records keys).
Proof.
  intros Hok. revert valid found. induction keys as [|key keys IH]; intros valid found H0 Hv.
  { cbn. by rewrite Z.add_0_r, app_nil_r. }
  cbn [length] in Hv. unfold handed_over. cbn [recover_keys omap list_omap]. fold (handed_over records keys). unfold picked.
  destruct (records !! key) as [[record|]|] eqn:E; cbn [mbind option_bind id fmap option_fmap option_map]; [|apply IH; lia..].
  destruct (scan_readable es key record Hok E) as [b ->]. cbn [fmap option_fmap option_map].
  rewrite IH; rewrite ?sat_add_exact by lia; [|lia..]. unfold push_found. rewrite <- app_assoc. cbn [app length].
  f_equal. apply f_equal. lia.
Qed.

Lemma handed_over_fst records keys : (handed_over records keys).*1 = filter (fun key => is_Some (picked records key)) keys.
Proof.
  induction keys as [|key keys IH]; [done|]. unfold handed_over in *. cbn [omap list_omap]. rewrite filter_cons.
  destruct (picked records key) as [b|]; cbn.
  - rewrite decide_True by done. by f_equal.
  - rewrite decide_False by (by intros []). done.
Qed.

Lemma scan_size es : (size (ls_records (scan_records es new_listener)) <= length es)%nat.
Proof.
  induction es as [|[key value] es IH] using rev_ind; [done|]. unfold scan_records in *. rewrite foldl_app, length_app. cbn [foldl].
  set (l := foldl _ _ es) in *. unfold on_scan_record_data. destruct (get_key_from_data _) as [k|]; [|cbn; lia].
  destruct (ls_records l !! k) eqn:E; cbn.
  - rewrite map_size_insert_Some by (by eexists). lia.
  - rewrite map_size_insert_None by done. lia.
Qed.
End recovery.

(** After a scan, recovery hands over exactly the keys that were scanned
    once, with their values, each once and in order, and counts them; a key
    that was scanned again is not recovered at all. *)
Theorem recovery_exact (es : list (string * bytes)) : all_ok es -> Z.of_nat (length es) < 2 ^ 63 ->
  exists found l', finish_recover push_found (scan_records es new_listener) [] = (Ok (Z.of_nat (length found)), l', found) /\
    StronglySorted string_le found.*1 /\ NoDup found.*1 /\
    forall key b, (key, b) ∈ found <-> exists value, b = mkBuffer key value /\ entries_of es key = [(key, value)].
Proof.
  intros Hok Hlen. unfold finish_recover. set (records := ls_records (scan_records es new_listener)).
  assert (Z.of_nat (length (sorted_keys records)) <= Z.of_nat (length es)) as Hs
    by (rewrite sorted_keys_length; pose proof (scan_size es); unfold records; lia).
  unfold records at 2. rewrite recover_keys_picks; [|done|lia|unfold u64_max; fold records; lia]. fold records.
  eexists _, _. split; [reflexivity|]. cbn [app]. rewrite handed_over_fst. split_and!.
  - apply sorted_keys_filter, sorted_keys_sorted.
  - apply NoDup_filter, sorted_keys_nodup.
  - intros key b. unfold handed_over. rewrite list_elem_of_omap. split.
    + intros (k & _ & Hk). unfold records in Hk. rewrite scan_picked in Hk by done.
      destruct (entries_of es k) as [|[k' v] [|]] eqn:E; cbn in Hk; simplify_eq. exists v. split; [done|].
      destruct (entries_of_in es key (k', v)) as [<- _]; [rewrite E; by apply list_elem_of_singleton|done].
    + intros (v & -> & E). exists key. split.
      * apply sorted_keys_elem. unfold records. rewrite scan_lookup, E by done. by eexists.
      * unfold records. by rewrite scan_picked, E.
Qed.

Lemma recovery_exact_witness (es := [("b", [x01]); ("a", [x02]); ("c", []); ("a", [x03])] : list (string * bytes)) :
  all_ok es /\ exists found l', finish_recover push_found (scan_records es new_listener) [] = (Ok (Z.of_nat (length found)), l', found) /\
    StronglySorted string_le found.*1 /\ NoDup found.*1 /\
    forall key b, (key, b) ∈ found <-> exists value, b = mkBuffer key value /\ entries_of es key = [(key, value)].
Proof. assert (all_ok es) as H by (repeat constructor). split; [exact H|]. exact (recovery_exact es H ltac:(reflexivity)). Defined.
