(* ===== verification/StorageGc.v ===== *)
(** * The collector of the log-based allocator, and writing to several nodes

    StorageGcController of runtime/allocators_executors.rs: when it decides to
    collect, and what one round reclaims; then the writers of several nodes.  The caller's clock is an argument,
    in nanoseconds; the order in which the hash map of regions is walked is an
    argument too. *)

From Stdlib Require Import Strings.Byte.
From S2P Require Import Prelude Allocators AllocatorLaws.
From S2P Require Import MemStorage.

Definition GC_DEFAULT_CHECK_INTERVAL_MS : Z := 1000.

Record StorageGcController := mkGc {
  gc_allocator : SimpleLogBasedMemoryAllocator;
  gc_force : bool;
  gc_pause : bool;
  gc_enable : bool;
  gc_free_mem_min : Z;
  gc_fragmentation_ratio_max : Z;
  gc_check_interval_ms : Z;
  gc_last_check : option Z;
  gc_complete_chunks : Z;
  gc_fly_chunks : Z;
  gc_complete_tasks : Z }.

(** [i64] counters saturate at both ends. *)
Definition i64_max : Z := 2 ^ 63 - 1.
Definition sat_add_i64 (a b : Z) : Z := Z.max (- 2 ^ 63) (Z.min i64_max (a + b)).

Section controller.
Implicit Types c : StorageGcController.

Definition with_thresholds (a : SimpleLogBasedMemoryAllocator) (force_gc : bool) (free_mem_min ratio : Z) : StorageGcController :=
  mkGc a force_gc false false free_mem_min ratio GC_DEFAULT_CHECK_INTERVAL_MS None 0 0 0.
Definition new_gc (a : SimpleLogBasedMemoryAllocator) (force_gc : bool) : StorageGcController := with_thresholds a force_gc 0 50.

Definition gc_set_enable (enable : bool) c : StorageGcController :=
  mkGc (gc_allocator c) (gc_force c) (gc_pause c) enable (gc_free_mem_min c) (gc_fragmentation_ratio_max c)
    (gc_check_interval_ms c) (gc_last_check c) (gc_complete_chunks c) (gc_fly_chunks c) (gc_complete_tasks c).
Definition gc_set_pause (pause : bool) c : StorageGcController :=
  mkGc (gc_allocator c) (gc_force c) pause (gc_enable c) (gc_free_mem_min c) (gc_fragmentation_ratio_max c)
    (gc_check_interval_ms c) (gc_last_check c) (gc_complete_chunks c) (gc_fly_chunks c) (gc_complete_tasks c).
Definition gc_set_interval (ms : Z) c : StorageGcController :=
  mkGc (gc_allocator c) (gc_force c) (gc_pause c) (gc_enable c) (gc_free_mem_min c) (gc_fragmentation_ratio_max c)
    ms (gc_last_check c) (gc_complete_chunks c) (gc_fly_chunks c) (gc_complete_tasks c).
Definition gc_checked (now : Z) c : StorageGcController :=
  mkGc (gc_allocator c) (gc_force c) (gc_pause c) (gc_enable c) (gc_free_mem_min c) (gc_fragmentation_ratio_max c)
    (gc_check_interval_ms c) (Some now) (gc_complete_chunks c) (gc_fly_chunks c) (gc_complete_tasks c).

Definition need_gc c : bool :=
  if gc_pause c then false
  else if gc_force c then true
  else
    let stats := log_stats (gc_allocator c) in
    let capacity := lg_capacity (gc_allocator c) in
    if (0 <? capacity) && (capacity -! num_occupied_bytes stats <? gc_free_mem_min c) then true
    else
      let allocated_live := num_allocated_bytes stats -! num_freed_bytes stats in
      if (num_occupied_bytes stats =? 0) || (num_occupied_bytes stats <=? allocated_live) then false
      else
        let fragmented := num_occupied_bytes stats -! allocated_live in
        sat_mul (num_occupied_bytes stats) (gc_fragmentation_ratio_max c) <? sat_mul fragmented 100.

Definition gc_job (chunks : list Z) c : Z * StorageGcController :=
  match chunks with
  | [] => (0, c)
  | _ =>
      let n := Z.of_nat (length chunks) in
      let fly := sat_add_i64 (gc_fly_chunks c) n in
      (n, mkGc (log_gc chunks (gc_allocator c)) (gc_force c) (gc_pause c) (gc_enable c) (gc_free_mem_min c)
            (gc_fragmentation_ratio_max c) (gc_check_interval_ms c) (gc_last_check c)
            (sat_add_i64 (gc_complete_chunks c) n) (sat_add_i64 fly (- n)) (sat_add_i64 (gc_complete_tasks c) 1))
  end.

(** The ids of the recyclable chunks, in the order of the walk. *)
Definition recyclable (order : list (Z * option SimpleAllocationRegion)) (a : SimpleLogBasedMemoryAllocator) : list Z :=
  iterate_recyclable_chunk_meta order (fun meta chunks => (true, chunks ++ [ck_id meta])) a [].

Definition pick_submit_chunks (order : list (Z * option SimpleAllocationRegion)) c : Z * StorageGcController :=
  if negb (gc_enable c) || negb (need_gc c) then (0, c) else gc_job (recyclable order (gc_allocator c)) c.

Definition poll (now : Z) (order : list (Z * option SimpleAllocationRegion)) c : Z * StorageGcController :=
  if negb (gc_enable c) || gc_pause c then (0, c)
  else
    let due := match gc_last_check c with
      | None => true
      | Some last => gc_check_interval_ms c * 1000000 <=? now -! last
      end in
    if negb due then (0, c) else pick_submit_chunks order (gc_checked now c).
End controller.

(** ** What the statistics say *)

(** The histories of an allocator: the counters do not overflow. *)
Inductive log_reach : SimpleLogBasedMemoryAllocator -> Prop :=
| log_reach_new capacity base : log_reach (log_with_capacity_and_base capacity base)
| log_reach_allocate len a : log_reach a -> 0 <= len -> lg_num_allocated_bytes a + len <= u64_max -> log_reach (log_allocate len a).2
| log_reach_write p data a : log_reach a -> log_reach (log_write p data a).2
| log_reach_free p len a : log_reach a -> 0 <= len -> log_reach (log_free p len a).2
| log_reach_seal p a : log_reach a -> log_reach (log_seal p a).2
| log_reach_seal_with_crc p len crc a : log_reach a -> log_reach (log_seal_with_crc p len crc a).2
| log_reach_gc ids a : log_reach a -> log_reach (log_gc ids a).

Definition region_bytes (o : option SimpleAllocationRegion) : Z := match o with Some r => blen (rg_data r) | None => 0 end.

Lemma region_bytes_nonneg o : 0 <= region_bytes o.
Proof. destruct o; [apply blen_nonneg|done]. Qed.

(** What was freed was allocated and is not live; minted addresses stay
    below the next one. *)
Record log_accounts (a : SimpleLogBasedMemoryAllocator) : Prop := {
  la_balance : lg_num_freed_bytes a + log_live_bytes a <= lg_num_allocated_bytes a;
  la_freed : 0 <= lg_num_freed_bytes a;
  la_alloc : lg_num_allocated_bytes a <= u64_max }.

Lemma live_insert (m : gmap Z (option SimpleAllocationRegion)) p o :
  map_sum region_bytes (<[p := o]> m) + region_bytes (default None (m !! p)) = map_sum region_bytes m + region_bytes o.
Proof.
  destruct (m !! p) as [o'|] eqn:E; cbn [from_option id].
  - rewrite (map_sum_insert region_bytes m p o o') by done. lia.
  - rewrite map_sum_insert_new by done. cbn. lia.
Qed.

Lemma live_eq a : log_live_bytes a = map_sum region_bytes (lg_regions a).
Proof. done. Qed.

Lemma live_nonneg a : 0 <= log_live_bytes a.
Proof. rewrite live_eq. apply map_sum_nonneg, region_bytes_nonneg. Qed.

Lemma overwrite_length data (v : bytes) : (length data <= length v)%nat -> blen (overwrite data v) = blen v.
Proof. intros. unfold overwrite. rewrite blen_app. unfold blen. rewrite length_drop. lia. Qed.

(** Replacing the region at a live address. *)
Lemma live_replace a p r o : log_region a p = Some r ->
  map_sum region_bytes (<[p := o]> (lg_regions a)) = log_live_bytes a - blen (rg_data r) + region_bytes o.
Proof.
  intros E%log_region_some. pose proof (live_insert (lg_regions a) p o) as H. rewrite E in H. cbn in H. rewrite live_eq. lia.
Qed.

Lemma reclaim_accounts a p : log_accounts a -> log_accounts (reclaim p a).
Proof.
  intros [H1 H2 H3]. unfold reclaim. destruct (lg_regions a !! p) as [[r|]|] eqn:E; [done| |done].
  split; cbn; [|done..]. rewrite live_eq in *. cbn. rewrite (map_sum_delete _ _ _ _ E) in H1. cbn in H1. lia.
Qed.

Lemma log_reach_accounts a : log_reach a -> log_accounts a.
Proof.
  induction 1 as [| len a _ [H1 H2 H3] Hl Hm | p data a _ [H1 H2 H3] | p len a _ [H1 H2 H3] Hl
    | p a _ [H1 H2 H3] | p len crc a _ [H1 H2 H3] | ids a _ IH].
  - split; done.
  - unfold log_allocate. case_if; [done|]. split; cbn; rewrite ?(sat_add_exact (lg_num_allocated_bytes a)) by lia; try lia.
    pose proof (live_insert (lg_regions a) (lg_next_ptr a) (Some (mkRegion (zeroed len) false None None))) as Hi. cbn in Hi.
    rewrite zeroed_length in Hi by done. pose proof (region_bytes_nonneg (default None (lg_regions a !! lg_next_ptr a))).
    rewrite live_eq in H1 |- *. cbn. lia.
  - unfold log_write. destruct (log_region a p) as [r|] eqn:E; [|done]. case_if; [done|]. zbool.
    split; cbn; try done. rewrite live_eq. cbn. rewrite (live_replace _ _ _ _ E). cbn.
    rewrite overwrite_length by (unfold blen in *; lia). lia.
  - unfold log_free. destruct (log_region a p) as [r|] eqn:E; [|done]. pose proof (live_nonneg a). pose proof (blen_nonneg (rg_data r)).
    assert (blen (rg_data r) <= log_live_bytes a).
    { apply log_region_some in E. exact (map_sum_lookup_le region_bytes _ _ _ region_bytes_nonneg E). }
    split; cbn; rewrite ?(sat_add_exact (lg_num_freed_bytes a)) by lia; try lia.
    rewrite live_eq. cbn. rewrite (live_replace _ _ _ _ E). cbn. lia.
  - unfold log_seal. destruct (log_region a p) as [r|] eqn:E; [|done].
    split; cbn; try done. rewrite live_eq. cbn. rewrite (live_replace _ _ _ _ E). cbn. lia.
  - unfold log_seal_with_crc. destruct (log_region a p) as [r|] eqn:E; [|done]. case_if; [done|].
    split; cbn; try done. rewrite live_eq. cbn. rewrite (live_replace _ _ _ _ E). cbn. lia.
  - unfold log_gc. set (b := mkLog _ _ _ _ _ _ _). assert (log_accounts b) as Hb by (destruct IH; split; done).
    clearbody b. revert b Hb. induction ids as [|id ids IHi]; intros b Hb; cbn; [done|]. by apply IHi, reclaim_accounts.
Qed.

(** For an allocator whose counters did not overflow, the controller
    collects when it is forced to or free memory is below its minimum, and in
    no other case: the statistics it reads never show fragmentation, whatever
    the ratio it was given. *)
Theorem fragmentation_never_triggers (c : StorageGcController) : log_reach (gc_allocator c) ->
  need_gc c = negb (gc_pause c) && (gc_force c ||
    ((0 <? lg_capacity (gc_allocator c)) &&
     (lg_capacity (gc_allocator c) -! log_live_bytes (gc_allocator c) <? gc_free_mem_min c))).
Proof.
  intros [H1 H2 H3]%log_reach_accounts. pose proof (live_nonneg (gc_allocator c)).
  unfold need_gc. cbn [log_stats num_occupied_bytes num_allocated_bytes num_freed_bytes].
  destruct (gc_pause c); [done|]. destruct (gc_force c); [done|]. cbn [negb andb orb].
  destruct ((0 <? lg_capacity (gc_allocator c)) && _); [done|]. rewrite sat_sub_exact by lia.
  by rewrite (proj2 (Z.leb_le _ _)), orb_true_r by lia.
Qed.

(** A store of ten regions of which nine were freed. *)
Definition fragmented_log : SimpleLogBasedMemoryAllocator :=
  foldl (fun a p => (log_free p 10 a).2) (Nat.iter 10 (fun a => (log_allocate 10 a).2) (log_with_capacity 1000)) [1; 2; 3; 4; 5; 6; 7; 8; 9].

Lemma fragmented_log_reach : log_reach fragmented_log.
Proof.
  unfold fragmented_log. cbn [foldl Nat.iter nat_rect].
  do 9 (apply log_reach_free; [|done]). do 10 (apply log_reach_allocate; [|done|apply Z.leb_le; vm_compute; reflexivity]).
  apply log_reach_new.
Qed.

Lemma fragmentation_never_triggers_witness :
  log_reach fragmented_log /\ need_gc (with_thresholds fragmented_log false 0 1) = false.
Proof.
  split; [exact fragmented_log_reach|].
  rewrite (fragmentation_never_triggers (with_thresholds fragmented_log false 0 1) fragmented_log_reach).
  vm_compute. reflexivity.
Defined.

(** ** One round *)

Definition freed_ids (order : list (Z * option SimpleAllocationRegion)) : list Z :=
  omap (fun po => match po.2 with None => Some po.1 | Some _ => None end) order.

Lemma recyclable_freed order a : recyclable order a = freed_ids order.
Proof.
  unfold recyclable. enough (forall chunks, iterate_recyclable_chunk_meta order
    (fun meta chunks => (true, chunks ++ [ck_id meta])) a chunks = chunks ++ freed_ids order) as H by apply H.
  induction order as [|[p [r|]] order IH]; intros chunks; cbn; [by rewrite app_nil_r|apply IH|]. by rewrite IH, <- app_assoc.
Qed.

Lemma freed_ids_elem order p : p ∈ freed_ids order <-> (p, None) ∈ order.
Proof.
  unfold freed_ids. rewrite list_elem_of_omap. split.
  - intros ([q [r|]] & Hin & E); [done|]. by injection E as ->.
  - intros Hin. by exists (p, None).
Qed.

(** The freed regions, counted along a walk of the map. *)
Lemma freed_ids_count order (a : SimpleLogBasedMemoryAllocator) : order ≡ₚ map_to_list (lg_regions a) ->
  Z.of_nat (length (freed_ids order)) = log_global_free_list_size a.
Proof.
  intros Hp. unfold log_global_free_list_size. rewrite <- (length_map_to_list (filter _ _)).
  rewrite map_filter_alt, map_to_list_to_map
    by (eapply sublist_NoDup; [apply (NoDup_fst_map_to_list (lg_regions a))|apply fmap_sublist, sublist_filter]).
  rewrite <- Hp. f_equal. clear Hp. unfold freed_ids.
  induction order as [|[p [r|]] order IH]; [done| |]; rewrite filter_cons; cbn [snd].
  - by rewrite decide_False.
  - rewrite decide_True by done. cbn. by rewrite IH.
Qed.

Lemma log_gc_regions ids a p : lg_regions (log_gc ids a) !! p =
  if bool_decide (p ∈ ids /\ lg_regions a !! p = Some None) then None else lg_regions a !! p.
Proof. unfold log_gc. by rewrite reclaim_regions. Qed.

Lemma log_gc_view ids a : log_view (log_gc ids a) = log_view a.
Proof.
  apply map_eq. intros p. rewrite !log_view_region. unfold log_region. rewrite log_gc_regions.
  case_bool_decide as H; [|done]. by destruct H as [_ ->].
Qed.

(** A round that is due reclaims every freed region, counts them, and
    changes no live one: afterwards none is left to reclaim, and what clients
    read is what they read before. *)
Theorem gc_round_reclaims (c : StorageGcController) (now : Z) (order : list (Z * option SimpleAllocationRegion)) :
  gc_enable c = true -> need_gc c = true -> gc_last_check c = None -> order ≡ₚ map_to_list (lg_regions (gc_allocator c)) ->
  exists c', poll now order c = (log_global_free_list_size (gc_allocator c), c') /\
    log_global_free_list_size (gc_allocator c') = 0 /\ log_view (gc_allocator c') = log_view (gc_allocator c) /\
    log_live_region_count (gc_allocator c') = log_live_region_count (gc_allocator c) /\ gc_last_check c' = Some now.
Proof.
  intros He Hn Hl Hp. unfold poll. rewrite He, Hl. assert (gc_pause c = false) as -> by (unfold need_gc in Hn; by destruct (gc_pause c)).
  cbn [negb orb]. unfold pick_submit_chunks. cbn [gc_checked gc_enable gc_allocator]. rewrite He.
  change (need_gc (gc_checked now c)) with (need_gc c). rewrite Hn. cbn [negb orb]. rewrite recyclable_freed.
  pose proof (freed_ids_count order (gc_allocator c) Hp) as Hc. set (ids := freed_ids order) in *.
  exists (gc_job ids (gc_checked now c)).2. set (a := gc_allocator c) in *.
  assert (gc_allocator (gc_job ids (gc_checked now c)).2 = if decide (ids = []) then a else log_gc ids a) as Ea by (by destruct ids).
  assert (forall p, lg_regions (if decide (ids = []) then a else log_gc ids a) !! p <> Some None) as Hnone.
  { intros p E. assert (p ∈ ids -> False) as Hni.
    { intros Hin. case_decide as Hd; [by rewrite Hd in Hin; apply not_elem_of_nil in Hin|].
      rewrite log_gc_regions in E. case_bool_decide as Hb; [done|]. by apply Hb. }
    apply Hni. apply freed_ids_elem. rewrite Hp. apply elem_of_map_to_list. fold a. case_decide; [done|].
    rewrite log_gc_regions in E. by case_bool_decide. }
  split_and!.
  - rewrite <- Hc. by destruct ids.
  - rewrite Ea. unfold log_global_free_list_size. rewrite map_empty_filter_2; [done|].
    intros p o Eo Hno. cbn in Hno. subst o. by apply (Hnone p).
  - rewrite Ea. case_decide; [done|]. apply log_gc_view.
  - rewrite Ea. case_decide; [done|]. unfold log_live_region_count. do 2 f_equal.
    apply map_eq. intros p. rewrite !lookup_omap, log_gc_regions. case_bool_decide as H1; [|done]. by destruct H1 as [_ ->].
  - by destruct ids.
Qed.

Definition demo_gc : StorageGcController := gc_set_enable true (new_gc fragmented_log true).

Lemma gc_round_reclaims_witness (a := gc_allocator demo_gc) :
  log_global_free_list_size a = 9 /\ need_gc demo_gc = true /\
  exists c', poll 7 (map_to_list (lg_regions a)) demo_gc = (log_global_free_list_size a, c') /\
    log_global_free_list_size (gc_allocator c') = 0 /\ log_view (gc_allocator c') = log_view a /\
    log_live_region_count (gc_allocator c') = log_live_region_count a /\ gc_last_check c' = Some 7.
Proof.
  split; [vm_compute; reflexivity|split; [reflexivity|]].
  apply (gc_round_reclaims demo_gc 7); reflexivity.
Defined.

(** ** Writing to the allocators of several nodes

    AsyncWriter and PmemDispatcher of runtime/storage_engines.rs: one writer
    per node, each with an allocator of its own whose addresses start at a
    base of its own; tasks go round robin, or to the writer that holds the
    address they name. *)


Record AsyncWriteTask := mkTask {
  write_func : SimpleLogBasedMemoryAllocator -> result Z * SimpleLogBasedMemoryAllocator;
  callback_func : result Z -> SimpleLogBasedMemoryAllocator -> result CacheBuffer;
  task_addr : option Z }.

Record AsyncWriter := mkWriter {
  aw_allocator : SimpleLogBasedMemoryAllocator;
  aw_stopped : bool;
  in_flight_write_count : Z;
  in_flight_callback_count : Z;
  completed_write_count : Z;
  completed_callback_count : Z }.

Definition new_writer (a : SimpleLogBasedMemoryAllocator) : AsyncWriter := mkWriter a false 0 0 0 0.

(** The write runs, then the callback, both before the call returns. *)
Definition async_write (t : AsyncWriteTask) (w : AsyncWriter) : result CacheBuffer * AsyncWriter :=
  if aw_stopped w then (Err Stopped, w)
  else
    let '(write_result, a) := write_func t (aw_allocator w) in
    let callback_result := callback_func t write_result a in
    (callback_result, mkWriter a (aw_stopped w) (in_flight_write_count w +! 1 -! 1) (in_flight_callback_count w +! 1 -! 1)
       (completed_write_count w +! 1) (completed_callback_count w +! 1)).

(** [stop] spins while a write or a callback is in flight; nothing else can
    run meanwhile, so it either returns at once or never. *)
Definition writer_stop (w : AsyncWriter) : option AsyncWriter :=
  if (in_flight_write_count w =? 0) && (in_flight_callback_count w =? 0) then
    Some (mkWriter (aw_allocator w) true (in_flight_write_count w) (in_flight_callback_count w)
            (completed_write_count w) (completed_callback_count w))
  else None.

Record PmemDispatcher := mkDispatcher { pd_writers : list AsyncWriter; pd_current_numa : Z; pd_stopped : bool }.

Section dispatcher.
Implicit Types d : PmemDispatcher.

(** [((numa_id + 1) as AllocatorAddress) << 48]. *)
Definition base_ptr (numa_id : nat) : Z := wrap64 (Z.shiftl (Z.of_nat numa_id + 1) 48).
Definition new_dispatcher (numa_count : nat) (allocator_capacity : Z) : PmemDispatcher :=
  let numa_count := Nat.max numa_count 1 in
  mkDispatcher ((fun numa_id => new_writer (log_with_capacity_and_base allocator_capacity (base_ptr numa_id))) <$> seq 0 numa_count) 0 true.
Definition from_allocators (allocators : list SimpleLogBasedMemoryAllocator) : PmemDispatcher :=
  mkDispatcher (new_writer <$> allocators) 0 true.

Definition dispatcher_start d : PmemDispatcher := mkDispatcher (pd_writers d) (pd_current_numa d) false.
Definition dispatcher_stop d : option PmemDispatcher :=
  writers ← mapM writer_stop (pd_writers d); Some (mkDispatcher writers (pd_current_numa d) true).

Definition get_numa_id_by_pmem_addr d (addr : Z) : option nat :=
  fst <$> list_find (fun w => log_contains addr (aw_allocator w) = true) (pd_writers d).

(** [current_numa % writers.len()], for a non-empty list of writers. *)
Definition next_round_robin_numa d : nat * PmemDispatcher :=
  (Z.to_nat (pd_current_numa d `mod` Z.of_nat (length (pd_writers d))),
   mkDispatcher (pd_writers d) (wrap64 (pd_current_numa d + 1)) (pd_stopped d)).

(** [self.writers[numa_id].AsyncWrite(task)]. *)
Definition write_to (numa_id : nat) (t : AsyncWriteTask) d : option (result CacheBuffer * PmemDispatcher) :=
  w ← pd_writers d !! numa_id;
  let '(r, w) := async_write t w in
  Some (r, mkDispatcher (<[numa_id := w]> (pd_writers d)) (pd_current_numa d) (pd_stopped d)).

Definition push_task (t : AsyncWriteTask) d : result CacheBuffer * PmemDispatcher :=
  if pd_stopped d then (Err Stopped, d)
  else if bool_decide (pd_writers d = []) then (Err CorruptBlock, d)
  else
    let '(target, d) := match task_addr t with
      | Some addr => (get_numa_id_by_pmem_addr d addr, d)
      | None => let '(numa_id, d) := next_round_robin_numa d in (Some numa_id, d)
      end in
    match target ≫= fun numa_id => write_to numa_id t d with
    | Some rd => rd
    | None => (Err CorruptBlock, d)
    end.

Definition get_allocator d (addr : option Z) : option nat * PmemDispatcher :=
  if bool_decide (pd_writers d = []) then (None, d)
  else match addr with
  | Some addr => (get_numa_id_by_pmem_addr d addr, d)
  | None => let '(numa_id, d) := next_round_robin_numa d in (Some numa_id, d)
  end.

(** The task of [test_put_to_numa]: allocate, write, seal; then read back. *)
Definition store_value (value : bytes) (a : SimpleLogBasedMemoryAllocator) : result Z * SimpleLogBasedMemoryAllocator :=
  let '(r, a) := log_allocate (blen value) a in
  match r with
  | Err e => (Err e, a)
  | Ok p =>
      let '(r, a) := log_write p value a in
      match r with
      | Err e => (Err e, a)
      | Ok _ => let '(r, a) := log_seal p a in (match r with Err e => Err e | Ok _ => Ok p end, a)
      end
  end.
Definition read_back (key : string) (r : result Z) (a : SimpleLogBasedMemoryAllocator) : result CacheBuffer :=
  let? p := r in let? v := log_read p a in Ok (mkBuffer key v).
Definition put_task (key : string) (value : bytes) (addr : option Z) : AsyncWriteTask :=
  mkTask (store_value value) (read_back key) addr.

Definition put_to_numa (numa_id : nat) (key : string) (value : bytes) d : result CacheBuffer * PmemDispatcher :=
  if pd_stopped d then (Err Stopped, d)
  else match write_to numa_id (put_task key value None) d with Some rd => rd | None => (Err CorruptBlock, d) end.
End dispatcher.

(** ** Storing a value *)

Lemma store_value_ok n value a r a' : log_ok (S n) a -> store_value value a = (r, a') ->
  log_ok n a' /\ match r with
  | Ok p => p = lg_next_ptr a /\ log_view a' = <[p := value]> (log_view a) /\ log_view a !! p = None /\ lg_next_ptr a' = p + 1
  | Err _ => log_view a' = log_view a /\ a' = a
  end.
Proof.
  intros Ha. unfold store_value. destruct (log_allocate (blen value) a) as [ra a1] eqn:Ea.
  pose proof (al_allocate_law n (blen value) a ra a1 Ha (blen_nonneg _) Ea) as [Ha1 Hr].
  destruct ra as [p|e].
  2: { intros [= <- <-]. split; [done|split; [done|]]. unfold log_allocate in Ea. by destruct (_ && _); simplify_eq. }
  destruct Hr as (Hp & Hv & Hb).
  assert (p = lg_next_ptr a /\ lg_next_ptr a1 = p + 1) as [-> Hnx].
  { unfold log_allocate in Ea. destruct (_ && _); [done|]. injection Ea as <- <-. split; [done|]. cbn.
    destruct Ha as ((_ & _ & Hm) & Hl). rewrite sat_add_exact by (unfold u64_max; lia). lia. }
  destruct (al_write_law n (lg_next_ptr a) value (zeroed (blen value)) a1) as (a2 & E2 & Ha2 & Hv2);
    [done|by rewrite Hv, lookup_insert_eq| |].
  { apply Nat2Z.inj. symmetry. exact (zeroed_length _ (blen_nonneg value)). }
  cbn in E2. rewrite E2. rewrite Hv, insert_insert_eq in Hv2. cbn in Hv2.
  assert (lg_next_ptr a2 = lg_next_ptr a1) as Hnx2.
  { unfold log_write in E2. destruct (log_region a1 _); [|done]. destruct (_ <? _); [done|]. by injection E2 as <-. }
  unfold log_seal. destruct (log_region a2 (lg_next_ptr a)) as [g|] eqn:Eg.
  2: { exfalso. pose proof (log_view_region a2 (lg_next_ptr a)) as Hx. rewrite Hv2, lookup_insert_eq, Eg in Hx. done. }
  intros [= <- <-]. split.
  - destruct Ha2 as [Hm ?]. split; [|done]. apply mints_insert; [done|]. rewrite (log_region_some _ _ _ Eg). by eexists.
  - split_and!; [done| |done|cbn; lia]. unfold log_view at 1; cbn. rewrite log_view_insert; cbn. rewrite Hv2. rewrite insert_id; [done|].
    pose proof (log_view_region a2 (lg_next_ptr a)) as Hx. rewrite Hv2, Eg in Hx. exact Hx.
Qed.

(** ** Which node holds an address *)

(** The [n]-th writer: idle, running, with all its addresses in its own
    window and [k] more to hand out. *)
Record writer_ok (k : nat) (i : nat) (w : AsyncWriter) : Prop := {
  wo_running : aw_stopped w = false;
  wo_idle : in_flight_write_count w = 0 /\ in_flight_callback_count w = 0;
  wo_alloc : log_ok k (aw_allocator w);
  wo_window p : is_Some (log_view (aw_allocator w) !! p) -> (Z.of_nat i + 1) * 2 ^ 48 <= p < lg_next_ptr (aw_allocator w);
  wo_next : (Z.of_nat i + 1) * 2 ^ 48 <= lg_next_ptr (aw_allocator w);
  wo_room : lg_next_ptr (aw_allocator w) + Z.of_nat k <= (Z.of_nat i + 2) * 2 ^ 48 }.

Definition writers_ok (k : nat) (ws : list AsyncWriter) : Prop := forall i w, ws !! i = Some w -> writer_ok k i w.

Lemma base_ptr_eq i : Z.of_nat i < 2 ^ 15 -> base_ptr i = (Z.of_nat i + 1) * 2 ^ 48.
Proof. intros. unfold base_ptr. rewrite Z.shiftl_mul_pow2 by lia. apply wrap64_small. lia. Qed.

Lemma new_dispatcher_ok k nodes capacity : (0 < nodes < Z.to_nat (2 ^ 15))%nat -> Z.of_nat k < 2 ^ 48 ->
  writers_ok k (pd_writers (new_dispatcher nodes capacity)).
Proof.
  intros Hn Hk i w. cbn. rewrite list_lookup_fmap. intros (j & Hj & ->)%fmap_Some.
  apply lookup_seq in Hj as [-> Hi]. cbn [plus] in *. assert (Z.of_nat i + 2 <= 2 ^ 15) as Hi' by lia.
  assert (lg_next_ptr (log_with_capacity_and_base capacity (base_ptr i)) = (Z.of_nat i + 1) * 2 ^ 48) as E
    by (cbn; rewrite base_ptr_eq; lia).
  split; cbn [new_writer aw_stopped aw_allocator in_flight_write_count in_flight_callback_count]; rewrite ?E; try done; try lia.
  - split; rewrite ?E; [split|lia]; [|lia]. intros p [x Hx]. exact (False_ind _ (lookup_empty_Some _ _ Hx)).
  - intros p. rewrite log_view_region. by intros [].
Qed.

Lemma writers_weaken k ws : writers_ok (S k) ws -> writers_ok k ws.
Proof.
  intros H i w Hw. destruct (H i w Hw) as [? ? [Hm ?] ? ? ?]. split; try done; [|lia]. split; [by apply mints_weaken|done].
Qed.

Lemma async_put_ok k i key value addr w r w' : writer_ok (S k) i w -> async_write (put_task key value addr) w = (r, w') ->
  writer_ok k i w' /\ match r with
  | Ok b => b = mkBuffer key value /\ log_view (aw_allocator w') = <[lg_next_ptr (aw_allocator w) := value]> (log_view (aw_allocator w))
  | Err _ => log_view (aw_allocator w') = log_view (aw_allocator w)
  end.
Proof.
  intros [Hr [Hi1 Hi2] Ha Hw Hn Hk]. unfold async_write. rewrite Hr. cbn [put_task write_func callback_func].
  destruct (store_value value (aw_allocator w)) as [rp a'] eqn:E. apply (store_value_ok k) in E as [Ha' Hrp]; [|done].
  rewrite Hi1, Hi2. change (0 +! 1 -! 1) with 0. intros [= <- <-]. destruct rp as [p|e]; cbn [read_back result_bind].
  - destruct Hrp as (-> & Hv & Hp & Hnx). pose proof (al_read_law (lg_next_ptr (aw_allocator w)) a') as Hread.
    cbn in Hread. rewrite Hv, lookup_insert_eq in Hread. rewrite Hread. cbn [result_bind].
    split; [|done]. split; cbn; try done; rewrite ?Hnx; try lia.
    intros q. rewrite Hv. destruct (decide (q = lg_next_ptr (aw_allocator w))) as [->|Hne]; [lia|].
    rewrite lookup_insert_ne by done. intros Hq. specialize (Hw q Hq). lia.
  - destruct Hrp as [Hv ->]. split; [|done]. split; cbn; try done. lia.
Qed.

Lemma write_to_ok k i key value addr d rd : writers_ok (S k) (pd_writers d) -> write_to i (put_task key value addr) d = Some rd ->
  writers_ok k (pd_writers rd.2) /\ length (pd_writers rd.2) = length (pd_writers d) /\ pd_stopped rd.2 = pd_stopped d.
Proof.
  intros Hd. unfold write_to. destruct (pd_writers d !! i) as [w|] eqn:Ei; [|done]. cbn [mbind option_bind].
  destruct (async_write _ w) as [r w'] eqn:E. intros [= <-]. cbn. split; [|split; [by rewrite length_insert|done]].
  intros j v. rewrite list_lookup_insert_Some. intros [(<- & <- & _)|[_ Hj]]; [|by apply (writers_weaken k _ Hd)].
  apply (async_put_ok k i) in E as [H _]; [done|by apply Hd].
Qed.

(** A put, round robin or to a given node. *)
Definition run_put (op : option nat * string * bytes) (d : PmemDispatcher) : result CacheBuffer * PmemDispatcher :=
  let '(target, key, value) := op in
  match target with None => push_task (put_task key value None) d | Some i => put_to_numa i key value d end.
Definition run_puts (ops : list (option nat * string * bytes)) (d : PmemDispatcher) : PmemDispatcher :=
  foldl (fun d op => (run_put op d).2) d ops.

Lemma run_put_ok k op d : writers_ok (S k) (pd_writers d) ->
  writers_ok k (pd_writers (run_put op d).2) /\ length (pd_writers (run_put op d).2) = length (pd_writers d).
Proof.
  intros Hd. pose proof (writers_weaken k _ Hd) as Hd'. destruct op as [[[i|] key] value]; cbn [run_put].
  - unfold put_to_numa. destruct (pd_stopped d); [done|]. destruct (write_to i _ d) as [rd|] eqn:E; [|done].
    by apply (write_to_ok k) in E as (? & ? & _).
  - unfold push_task. destruct (pd_stopped d); [done|]. case_bool_decide; [done|]. cbn [put_task task_addr next_round_robin_numa mbind option_bind].
    destruct (write_to _ _ _) as [rd|] eqn:E; [|done]. by apply (write_to_ok k) in E as (? & ? & _).
Qed.

Lemma run_puts_ok k ops d : writers_ok (length ops + k) (pd_writers d) ->
  writers_ok k (pd_writers (run_puts ops d)) /\ length (pd_writers (run_puts ops d)) = length (pd_writers d).
Proof.
  revert d. induction ops as [|op ops IH]; intros d Hd; [done|]. cbn [run_puts foldl].
  destruct (run_put_ok (length ops + k) op d Hd) as [H1 H2]. destruct (IH _ H1) as [H3 H4]. split; [done|]. unfold run_puts in H4. congruence.
Qed.

Lemma find_writer k d p i : writers_ok k (pd_writers d) ->
  get_numa_id_by_pmem_addr d p = Some i <-> exists w, pd_writers d !! i = Some w /\ is_Some (log_view (aw_allocator w) !! p).
Proof.
  intros Hd. unfold get_numa_id_by_pmem_addr.
  assert (forall w, log_contains p (aw_allocator w) = true <-> is_Some (log_view (aw_allocator w) !! p)) as Hc.
  { intros w. pose proof (al_contains_law p (aw_allocator w)) as H. cbn in H. rewrite H. apply bool_decide_eq_true. }
  split.
  - intros ([j w] & Hj & ->)%fmap_Some. apply list_find_Some in Hj as (Hj & Hp & _). exists w. by rewrite <- Hc.
  - intros (w & Hi & Hp). apply fmap_Some. exists (i, w). split; [|done]. apply list_find_Some. rewrite Hc. split_and!; [done..|].
    intros j v Hj Hlt. rewrite Hc. intros Hq. destruct (Hd i w Hi) as [_ _ _ Hw _ _]. specialize (Hw p Hp).
    destruct (Hd j v Hj) as [_ _ _ Hv _ Hr]. specialize (Hv p Hq). nia.
Qed.

Lemma stop_returns k ws : writers_ok k ws -> is_Some (mapM writer_stop ws).
Proof.
  intros H. apply mapM_is_Some_2. apply Forall_lookup. intros i w Hw. destruct (H i w Hw) as [_ [E1 E2] _ _ _ _].
  change (is_Some (writer_stop w)). unfold writer_stop. rewrite E1, E2. by eexists.
Qed.

(** After any history of puts to a started dispatcher of up to 32767
    nodes, an address is found in the writer whose allocator holds it, and in
    no other, so a task that names it runs where its data is; and stopping the
    dispatcher returns. *)
Theorem dispatcher_finds_node (nodes : nat) (capacity : Z) (ops : list (option nat * string * bytes)) :
  (0 < nodes < Z.to_nat (2 ^ 15))%nat -> Z.of_nat (length ops) < 2 ^ 48 ->
  let d := run_puts ops (dispatcher_start (new_dispatcher nodes capacity)) in
  length (pd_writers d) = nodes /\
  (forall p i, get_numa_id_by_pmem_addr d p = Some i <->
    exists w, pd_writers d !! i = Some w /\ is_Some (log_view (aw_allocator w) !! p)) /\
  is_Some (dispatcher_stop d).
Proof.
  intros Hn Hlen d. pose proof (new_dispatcher_ok (length ops + 0) nodes capacity Hn ltac:(lia)) as H0.
  destruct (run_puts_ok 0 ops (dispatcher_start (new_dispatcher nodes capacity)) H0) as [Hok Hl]. fold d in Hok, Hl. split_and!.
  - rewrite Hl. cbn. rewrite length_fmap, length_seq. lia.
  - intros p i. by apply (find_writer 0).
  - unfold dispatcher_stop. destruct (stop_returns 0 _ Hok) as [ws ->]. by eexists.
Qed.

Definition demo_puts : list (option nat * string * bytes) := [(None, "a"%string, [x01]); (None, "b"%string, [x02]); (Some 0%nat, "c"%string, [x03])].

Lemma dispatcher_finds_node_witness (d := run_puts demo_puts (dispatcher_start (new_dispatcher 2 1000))) :
  get_numa_id_by_pmem_addr d (2 ^ 48 + 1) = Some 0%nat /\ get_numa_id_by_pmem_addr d (2 * 2 ^ 48) = Some 1%nat /\
  length (pd_writers d) = 2%nat /\
  (forall p i, get_numa_id_by_pmem_addr d p = Some i <->
    exists w, pd_writers d !! i = Some w /\ is_Some (log_view (aw_allocator w) !! p)) /\
  is_Some (dispatcher_stop d).
Proof.
  split; [vm_compute; reflexivity|split; [vm_compute; reflexivity|]].
  apply (dispatcher_finds_node 2 1000 demo_puts); [split; [lia|]|reflexivity].
  apply Nat2Z.inj_lt. rewrite Z2Nat.id; [reflexivity|discriminate].
Defined.

Lemma stopped_writers ws ws' i w : mapM writer_stop ws = Some ws' -> ws' !! i = Some w -> aw_stopped w = true.
Proof.
  intros H Hw. apply mapM_Some in H. destruct (Forall2_lookup_r _ _ _ _ _ H Hw) as (v & _ & E). unfold writer_stop in E.
  destruct (_ && _); [|done]. by injection E as <-.
Qed.

(** A dispatcher that was stopped and started again refuses every task:
    starting it does not start its writers. *)
Theorem restarted_dispatcher_refuses (d d' : PmemDispatcher) (t : AsyncWriteTask) :
  dispatcher_stop d = Some d' -> task_addr t = None -> pd_writers d <> [] -> 
  (push_task t (dispatcher_start d')).1 = Err Stopped /\
  pd_writers (push_task t (dispatcher_start d')).2 = pd_writers d'.
Proof.
  intros H Ht Hne. unfold dispatcher_stop in H. destruct (mapM writer_stop (pd_writers d)) as [ws|] eqn:E; [|done].
  cbn in H. injection H as <-. pose proof (Forall2_length _ _ _ (mapM_Some_1 _ _ _ E)) as Hl.
  assert (0 < length ws)%nat as Hpos by (destruct (pd_writers d); cbn in *; [done|lia]).
  unfold push_task. cbn. rewrite bool_decide_eq_false_2 by (by intros ->; cbn in Hpos; lia). rewrite Ht.
  cbn. unfold write_to; cbn. set (i := Z.to_nat _).
  assert (i < length ws)%nat as Hi by (unfold i; pose proof (Z.mod_pos_bound (pd_current_numa d) (Z.of_nat (length ws))); lia).
  apply lookup_lt_is_Some in Hi as [w Hw]. rewrite Hw. cbn. unfold async_write. rewrite (stopped_writers _ _ _ _ E Hw). cbn.
  split; [done|]. by apply list_insert_id.
Qed.

Lemma restarted_dispatcher_refuses_witness (d := run_puts demo_puts (dispatcher_start (new_dispatcher 2 1000))) :
  exists d', dispatcher_stop d = Some d' /\ (push_task (put_task "k"%string [] None) (dispatcher_start d')).1 = Err Stopped.
Proof.
  destruct (dispatcher_stop d) as [d'|] eqn:E; [|exfalso; revert E; vm_compute; discriminate].
  exists d'. split; [reflexivity|].
  refine (proj1 (restarted_dispatcher_refuses d d' (put_task "k"%string [] None) E eq_refl _)).
  vm_compute. discriminate.
Defined.
