(* ===== verification/StorageBatch.v ===== *)
(** * Batches of keys

    How the storage engines fold the duplicates of a batch and lay the answers
    out again (runtime/storage_engines.rs).  A batch of up to 64 keys is
    searched from the front, a longer one through a hash map; an answer asked
    for several times is cloned, and moved out at its last use.  [None] is a
    panic: an index past the end. *)

From S2P Require Import Prelude.

Definition STORAGE_BATCH_LINEAR_SCAN_MAX_KEYS : nat := 64.

(** ** Routing *)

(** [vec![Vec::new(); n]], and each item pushed to its device's. *)
Definition route {A} (n : nat) (device : A -> nat) (items : list A) : list (list A) :=
  foldl (fun routed x => alter (fun l => l ++ [x]) (device x) routed) (replicate n []) items.

Section route.
Context {A : Type} (n : nat) (device : A -> nat).

Lemma route_length items : length (route n device items) = n.
Proof.
  unfold route. induction items as [|x items IH] using rev_ind; [apply length_replicate|]. rewrite foldl_app. cbn [foldl]. by rewrite length_alter, IH.
Qed.

(** A device gets its items, in the order of the batch. *)
Lemma route_lookup items i : (i < n)%nat -> route n device items !! i = Some (filter (fun x => device x = i) items).
Proof.
  intros Hi. unfold route. induction items as [|x items IH] using rev_ind; [by apply lookup_replicate_2|].
  rewrite foldl_app. cbn [foldl]. rewrite filter_app, filter_cons, filter_nil. destruct (decide (device x = i)) as [<-|Hne].
  - by rewrite list_lookup_alter_eq, IH.
  - rewrite list_lookup_alter_ne, IH by done. by rewrite app_nil_r.
Qed.
End route.

(** ** Folding duplicates *)

(** [unique_keys.iter().position(|existing| existing == key)]. *)
Definition find_position (key : string) (unique_keys : list string) : option nat :=
  fst <$> list_find (fun existing => existing = key) unique_keys.

Fixpoint coalesce_scan (keys : list string) (unique_keys : list string) (output_positions : list nat) : list string * list nat :=
  match keys with
  | [] => (unique_keys, output_positions)
  | key :: keys =>
      match find_position key unique_keys with
      | Some p => coalesce_scan keys unique_keys (output_positions ++ [p])
      | None => coalesce_scan keys (unique_keys ++ [key]) (output_positions ++ [length unique_keys])
      end
  end.
Fixpoint coalesce_hashed (keys : list string) (unique_keys : list string) (unique_positions : gmap string nat)
    (output_positions : list nat) : list string * list nat :=
  match keys with
  | [] => (unique_keys, output_positions)
  | key :: keys =>
      match unique_positions !! key with
      | Some p => coalesce_hashed keys unique_keys unique_positions (output_positions ++ [p])
      | None =>
          let p := length unique_keys in
          coalesce_hashed keys (unique_keys ++ [key]) (<[key := p]> unique_positions) (output_positions ++ [p])
      end
  end.
Definition coalesce_storage_batch_key_refs (keys : list string) : list string * list nat :=
  if (length keys <=? STORAGE_BATCH_LINEAR_SCAN_MAX_KEYS)%nat then coalesce_scan keys [] [] else coalesce_hashed keys [] ∅ [].

Fixpoint delete_scan (keys unique_keys : list string) : list string :=
  match keys with
  | [] => unique_keys
  | key :: keys => delete_scan keys (if existsb (fun existing => String.eqb existing key) unique_keys then unique_keys else unique_keys ++ [key])
  end.
Fixpoint delete_hashed (keys unique_keys : list string) (seen : gset string) : list string :=
  match keys with
  | [] => unique_keys
  | key :: keys =>
      if bool_decide (key ∈ seen) then delete_hashed keys unique_keys seen
      else delete_hashed keys (unique_keys ++ [key]) ({[key]} ∪ seen)
  end.
Definition coalesce_storage_delete_keys (keys : list string) : list string :=
  if (length keys <=? STORAGE_BATCH_LINEAR_SCAN_MAX_KEYS)%nat then delete_scan keys [] else delete_hashed keys [] ∅.

(** ** Laying the answers out *)

Section expand.
Context {V : Type}.

Definition count_positions (positions : list nat) (n : nat) : option (list nat) :=
  foldl (fun remaining p => remaining ← remaining; r ← remaining !! p; Some (<[p := S r]> remaining)) (Some (replicate n 0%nat)) positions.
Fixpoint take_values (remaining : list nat) (values : list (option V)) (positions : list nat) : option (list (option V)) :=
  match positions with
  | [] => Some []
  | p :: positions =>
      r ← remaining !! p; v ← values !! p;
      let r := Nat.pred r in
      rest ← take_values (<[p := r]> remaining) (if (r =? 0)%nat then <[p := None]> values else values) positions;
      Some (v :: rest)
  end.
Definition expand_storage_batch_values (values : list (option V)) (positions : list nat) : option (list (option V)) :=
  if (length values =? length positions)%nat then Some values
  else remaining ← count_positions positions (length values); take_values remaining values positions.
End expand.

(** ** Folding, as a whole *)

Lemma find_position_spec key uk p : find_position key uk = Some p -> uk !! p = Some key.
Proof. unfold find_position. intros ([j k] & H & ->)%fmap_Some. apply list_find_Some in H as (H & -> & _). done. Qed.

Lemma find_position_none key uk : find_position key uk = None <-> key ∉ uk.
Proof.
  unfold find_position. rewrite fmap_None, list_find_None, Forall_forall. split; [intros H Hin; by apply (H key)|].
  by intros H x Hx ->.
Qed.

Lemma find_position_app key k uk : find_position key (uk ++ [k]) =
  match find_position key uk with Some p => Some p | None => if decide (k = key) then Some (length uk) else None end.
Proof.
  destruct (find_position key uk) as [p|] eqn:E.
  - unfold find_position in *. apply fmap_Some in E as ([j x] & Hj & ->). by rewrite (list_find_app_l _ _ _ j x Hj).
  - unfold find_position in *. apply fmap_None in E. rewrite list_find_app_r by done. cbn. by case_decide.
Qed.

(** The hash map holds the positions of the keys seen. *)
Lemma coalesce_hashed_scan keys uk m ps : (forall key, m !! key = find_position key uk) ->
  coalesce_hashed keys uk m ps = coalesce_scan keys uk ps.
Proof.
  revert uk m ps. induction keys as [|key keys IH]; intros uk m ps Hm; [done|]. cbn. rewrite Hm.
  destruct (find_position key uk) eqn:E; apply IH; [done|]. intros k. rewrite find_position_app.
  destruct (decide (key = k)) as [->|Hne].
  - by rewrite lookup_insert_eq, E.
  - rewrite lookup_insert_ne, Hm by done. by destruct (find_position k uk).
Qed.

Lemma coalesce_either keys : coalesce_storage_batch_key_refs keys = coalesce_scan keys [] [].
Proof. unfold coalesce_storage_batch_key_refs. destruct (_ <=? _)%nat; [done|]. by apply coalesce_hashed_scan. Qed.

(** What the pair says after the keys of [done_]. *)
Record folded (seen : list string) (uk : list string) (ps : list nat) : Prop := {
  fo_nodup : NoDup uk;
  fo_same key : key ∈ uk <-> key ∈ seen;
  fo_pos : Forall2 (fun p key => uk !! p = Some key) ps seen;
  fo_le : (length uk <= length seen)%nat;
  fo_eq : length uk = length seen -> uk = seen }.

Lemma coalesce_folded keys seen uk ps : folded seen uk ps ->
  folded (seen ++ keys) (coalesce_scan keys uk ps).1 (coalesce_scan keys uk ps).2.
Proof.
  revert seen uk ps. induction keys as [|key keys IH]; intros seen uk ps [Hn Hs Hp Hl He]; [rewrite app_nil_r; done|].
  cbn. replace (seen ++ key :: keys) with ((seen ++ [key]) ++ keys) by (by rewrite <- app_assoc).
  destruct (find_position key uk) as [p|] eqn:E; apply IH.
  - apply find_position_spec in E. split; [done| |apply Forall2_app; [done|by repeat constructor]|rewrite length_app; cbn; lia|].
    + intros k. rewrite elem_of_app, list_elem_of_singleton, <- Hs. split; [auto|]. intros [?| ->]; [done|by eapply list_elem_of_lookup_2].
    + rewrite length_app. cbn. lia.
  - apply find_position_none in E. split.
    + apply NoDup_app. split_and!; [done| |apply NoDup_singleton]. intros x Hx ->%list_elem_of_singleton. done.
    + intros k. by rewrite !elem_of_app, Hs.
    + apply Forall2_app; [|repeat constructor; by apply list_lookup_middle].
      eapply Forall2_impl; [exact Hp|]. cbn. intros p k Hk. by apply lookup_app_l_Some.
    + rewrite !length_app. cbn. lia.
    + rewrite !length_app. cbn. intros Hlen. by rewrite He by lia.
Qed.

Lemma coalesce_spec keys : folded keys (coalesce_storage_batch_key_refs keys).1 (coalesce_storage_batch_key_refs keys).2.
Proof.
  rewrite coalesce_either. apply (coalesce_folded keys [] [] []). split; [constructor|done|constructor|done|done].
Qed.

(** Deleting folds the same way and drops the positions. *)
Lemma delete_scan_spec keys uk ps : delete_scan keys uk = (coalesce_scan keys uk ps).1.
Proof.
  revert uk ps. induction keys as [|key keys IH]; intros uk ps; [done|]. cbn.
  destruct (find_position key uk) as [p|] eqn:E.
  - apply find_position_spec in E. rewrite (proj2 (existsb_exists _ _)); [apply IH|]. exists key.
    split; [by apply list_elem_of_In; eapply list_elem_of_lookup_2|apply String.eqb_refl].
  - apply find_position_none in E. destruct (existsb _ uk) eqn:Ex; [|apply IH].
    apply existsb_exists in Ex as (k & Hk%list_elem_of_In & ->%String.eqb_eq). done.
Qed.

Lemma delete_hashed_scan keys uk seen : (forall key, key ∈ seen <-> key ∈ uk) -> delete_hashed keys uk seen = delete_scan keys uk.
Proof.
  revert uk seen. induction keys as [|key keys IH]; intros uk seen Hs; [done|]. cbn.
  destruct (existsb _ uk) eqn:Ex.
  - apply existsb_exists in Ex as (k & Hk%list_elem_of_In & ->%String.eqb_eq). rewrite bool_decide_eq_true_2 by (by apply Hs). by apply IH.
  - rewrite bool_decide_eq_false_2.
    + apply IH. intros k. rewrite elem_of_union, elem_of_singleton, elem_of_app, list_elem_of_singleton, Hs. tauto.
    + rewrite Hs. intros Hin. assert (existsb (fun existing => String.eqb existing key) uk = true) as Ht; [|congruence].
      apply existsb_exists. exists key. split; [by apply list_elem_of_In|apply String.eqb_refl].
Qed.

Lemma coalesce_delete_spec keys : coalesce_storage_delete_keys keys = (coalesce_storage_batch_key_refs keys).1.
Proof.
  rewrite coalesce_either, <- (delete_scan_spec keys [] []). unfold coalesce_storage_delete_keys.
  destruct (_ <=? _)%nat; [done|]. apply delete_hashed_scan. set_solver.
Qed.

(** ** Laying out, as a whole *)

Section expand_spec.
Context {V : Type}.

Lemma count_positions_ok (positions : list nat) n : Forall (fun p => (p < n)%nat) positions ->
  exists remaining, count_positions positions n = Some remaining /\
    forall p, (p < n)%nat -> remaining !! p = Some (count_occ Nat.eq_dec positions p).
Proof.
  induction positions as [|q positions IH] using rev_ind; intros H.
  { eexists. split; [done|]. intros p Hp. by apply lookup_replicate_2. }
  apply Forall_app in H as [H Hq]. apply Forall_inv in Hq. destruct (IH H) as (r & Er & Hr).
  unfold count_positions in *. rewrite foldl_app, Er. cbn [foldl mbind option_bind]. rewrite (Hr q Hq). cbn [mbind option_bind].
  eexists. split; [done|]. intros p Hp. rewrite count_occ_app. cbn. destruct (Nat.eq_dec q p) as [->|Hne].
  - rewrite list_lookup_insert_eq by (eapply lookup_lt_Some; by apply Hr). f_equal. lia.
  - rewrite list_lookup_insert_ne by done. rewrite Hr by done. f_equal. lia.
Qed.

Lemma take_values_ok (g : nat -> option V) positions remaining values :
  (forall p, p ∈ positions -> values !! p = Some (g p) /\ remaining !! p = Some (count_occ Nat.eq_dec positions p)) ->
  take_values remaining values positions = Some (g <$> positions).
Proof.
  revert remaining values. induction positions as [|p positions IH]; intros remaining values H; [done|]. cbn [take_values].
  destruct (H p) as [Hv Hr]; [by left|]. rewrite Hv, Hr. cbn [mbind option_bind].
  rewrite count_occ_cons_eq by done. cbn [Nat.pred]. set (c := count_occ Nat.eq_dec positions p).
  rewrite IH; [done|]. intros q Hq. destruct (H q) as [Hvq Hrq]; [by right|].
  assert (q = p -> c <> 0%nat) as Hc by (intros ->; apply Nat.neq_0_lt_0, count_occ_In, list_elem_of_In, Hq).
  split.
  - destruct (c =? 0)%nat eqn:Ez; [|done]. apply Nat.eqb_eq in Ez. rewrite list_lookup_insert_ne; [done|].
    intros ->. by apply Hc.
  - destruct (decide (q = p)) as [->|Hne].
    + rewrite list_lookup_insert_eq; [done|]. by eapply lookup_lt_Some.
    + rewrite list_lookup_insert_ne by done. rewrite Hrq. by rewrite count_occ_cons_neq.
Qed.

(** Folding a batch, answering the distinct keys and laying the answers out
    answers the batch. *)
Lemma expand_coalesced (f : string -> option V) keys :
  let '(unique_keys, positions) := coalesce_storage_batch_key_refs keys in
  expand_storage_batch_values (f <$> unique_keys) positions = Some (f <$> keys).
Proof.
  pose proof (coalesce_spec keys) as [Hn Hs Hp Hl He]. destruct (coalesce_storage_batch_key_refs keys) as [uk ps]. cbn in *.
  pose proof (Forall2_length _ _ _ Hp) as Hlen. unfold expand_storage_batch_values. rewrite length_fmap.
  destruct (length uk =? length ps)%nat eqn:E.
  { apply Nat.eqb_eq in E. by rewrite He by lia. }
  destruct (count_positions_ok ps (length uk)) as (r & -> & Hr).
  { apply Forall_lookup. intros i p Hi. destruct (Forall2_lookup_l _ _ _ _ _ Hp Hi) as (k & _ & Hk). by eapply lookup_lt_Some. }
  cbn [mbind option_bind]. rewrite (take_values_ok (fun p => uk !! p ≫= f)).
  - f_equal. clear Hr Hl He E Hlen Hs. induction Hp as [|p k ps keys Hk Hp IH]; [done|]. cbn. by rewrite Hk, IH.
  - intros p Hin. apply list_elem_of_lookup_1 in Hin as [i Hi]. destruct (Forall2_lookup_l _ _ _ _ _ Hp Hi) as (k & _ & Hk).
    split; [by rewrite list_lookup_fmap, Hk|]. apply Hr. by eapply lookup_lt_Some.
Qed.
End expand_spec.
