(* ===== verification/Sharded.v ===== *)
(** * The sharded cache

    [ShardedMultiLayerCache] (multilayer_cache.rs): caches side by side, a key
    belonging to the one its hash names.  A batch goes to its shards as a
    whole, shard after shard, or by one worker for each shard, as its keys and
    its size say; this file has the batches, their folding and laying out, the
    proofs that the ways agree, and the shares of capacities and budgets.  The
    shards are behind an interface.  A worker touches its own shard only, so
    that it is one step here, and the order the workers run in is an
    argument. *)

From Stdlib Require Import Strings.Byte.
From S2P Require Import Prelude Types WriteBudget Writeback StorageBatch.

(** ** Batches of keys *)

Definition SMALL_BATCH_DEDUP_LIMIT : nat := 64.

(** [unique_keys.iter().position(..)]. *)
Definition key_position (key : CacheKey) (unique_keys : list CacheKey) : option nat := fst <$> list_find (fun existing => existing = key) unique_keys.

Fixpoint own_unique_scan (group : list (nat * CacheKey)) (unique_keys : list CacheKey) (requested : list (nat * nat)) : list CacheKey * list (nat * nat) :=
  match group with
  | [] => (unique_keys, requested)
  | (position, key) :: group =>
      match key_position key unique_keys with
      | Some u => own_unique_scan group unique_keys (requested ++ [(position, u)])
      | None => own_unique_scan group (unique_keys ++ [key]) (requested ++ [(position, length unique_keys)])
      end
  end.
Fixpoint own_unique_hashed (group : list (nat * CacheKey)) (unique_keys : list CacheKey) (unique_positions : gmap CacheKey nat) (requested : list (nat * nat)) : list CacheKey * list (nat * nat) :=
  match group with
  | [] => (unique_keys, requested)
  | (position, key) :: group =>
      match unique_positions !! key with
      | Some u => own_unique_hashed group unique_keys unique_positions (requested ++ [(position, u)])
      | None =>
          let u := length unique_keys in
          own_unique_hashed group (unique_keys ++ [key]) (<[key := u]> unique_positions) (requested ++ [(position, u)])
      end
  end.
Definition own_unique_positioned_batch_keys (group : list (nat * CacheKey)) : list CacheKey * list (nat * nat) :=
  if (length group <=? SMALL_BATCH_DEDUP_LIMIT)%nat then own_unique_scan group [] [] else own_unique_hashed group [] ∅ [].

Definition unique_cache_keys (keys : list CacheKey) : list CacheKey :=
  (foldl (fun (st : gset CacheKey * list CacheKey) key => if bool_decide (key ∈ st.1) then st else ({[key]} ∪ st.1, st.2 ++ [key])) (∅, []) keys).2.

(** The positions a batch asked one key for. *)
Inductive BatchPositions := One (position : nat) | Many (positions : list nat).
Definition bp_push (position : nat) (p : BatchPositions) : BatchPositions :=
  match p with One first => Many [first; position] | Many positions => Many (positions ++ [position]) end.
Definition bp_first (p : BatchPositions) : nat := match p with One position => position | Many positions => default 0%nat (head positions) end.
Definition bp_list (p : BatchPositions) : list nat := match p with One position => [position] | Many positions => positions end.

Definition group_position (key : CacheKey) (groups : list (CacheKey * BatchPositions)) : option nat := fst <$> list_find (fun e => e.1 = key) groups.
Fixpoint coalesce_positions_scan (position : nat) (keys : list CacheKey) (groups : list (CacheKey * BatchPositions)) : list (CacheKey * BatchPositions) :=
  match keys with
  | [] => groups
  | key :: keys =>
      coalesce_positions_scan (S position) keys
        (match group_position key groups with
         | Some u => alter (fun e => (e.1, bp_push position e.2)) u groups
         | None => groups ++ [(key, One position)]
         end)
  end.
Fixpoint coalesce_positions_hashed (position : nat) (keys : list CacheKey) (unique_positions : gmap CacheKey nat) (groups : list (CacheKey * BatchPositions)) : list (CacheKey * BatchPositions) :=
  match keys with
  | [] => groups
  | key :: keys =>
      match unique_positions !! key with
      | Some u => coalesce_positions_hashed (S position) keys unique_positions (alter (fun e => (e.1, bp_push position e.2)) u groups)
      | None => coalesce_positions_hashed (S position) keys (<[key := length groups]> unique_positions) (groups ++ [(key, One position)])
      end
  end.
Definition coalesce_batch_positions_borrowed (keys : list CacheKey) : list (CacheKey * BatchPositions) :=
  if (length keys <=? SMALL_BATCH_DEDUP_LIMIT)%nat then coalesce_positions_scan 0 keys [] else coalesce_positions_hashed 0 keys ∅ [].

Definition empty_batch_results {T} (n : nat) : list (option T) := replicate n None.

(** Every unique value to the positions that asked for it, cloned but for its
    last use.  [None] is a panic: an index past the end. *)
Section visit.
Context {S T : Type} (clone_value : T -> S -> T * S).

Definition count_requested (requested : list (nat * nat)) (n : nat) : option (list nat) :=
  foldl (fun remaining e => remaining ← remaining; r ← remaining !! e.2; Some (<[e.2 := Datatypes.S r]> remaining)) (Some (replicate n 0%nat)) requested.
Fixpoint visit_loop (remaining : list nat) (values : list (option T)) (requested : list (nat * nat)) (s : S) : option (list (nat * option T) * S) :=
  match requested with
  | [] => Some ([], s)
  | (position, u) :: requested =>
      r ← remaining !! u; v ← values !! u;
      let r := Nat.pred r in
      let '(value, values, s) :=
        if (r =? 0)%nat then (v, <[u := None]> values, s)
        else match v with None => (None, values, s) | Some x => let '(x, s) := clone_value x s in (Some x, values, s) end in
      rest ← visit_loop (<[u := r]> remaining) values requested s;
      Some ((position, value) :: rest.1, rest.2)
  end.
Definition visit_batch_values_with (values : list (option T)) (requested : list (nat * nat)) (s : S) : option (list (nat * option T) * S) :=
  if (length values =? length requested)%nat then Some (zip requested.*1 values, s)
  else remaining ← count_requested requested (length values); visit_loop remaining values requested s.
End visit.

(** ** State and routing *)

Record ShardedBatchStats := mkShardedStats { fanout_operations : Z; local_operations : Z; fanout_shards : Z }.
Record Sharded (S : Type) := mkSharded { shards : list S; sharded_stats : ShardedBatchStats }.
Arguments mkSharded {S}.
Arguments shards {S}.
Arguments sharded_stats {S}.

Definition record_fanout (n : nat) (t : ShardedBatchStats) : ShardedBatchStats :=
  mkShardedStats (wrap64 (fanout_operations t + 1)) (local_operations t) (wrap64 (fanout_shards t + Z.of_nat n)).
Definition record_local (t : ShardedBatchStats) : ShardedBatchStats :=
  mkShardedStats (fanout_operations t) (wrap64 (local_operations t + 1)) (fanout_shards t).
Definition reset_stats : ShardedBatchStats := mkShardedStats 0 0 0.

Definition BATCH_FANOUT_THRESHOLD : nat := 256.
Definition READ_BATCH_FANOUT_THRESHOLD : nat := 2048.

(** How many groups are not empty. *)
Definition fanout_of {X} (groups : list (list X)) : nat := length (filter (fun g => g <> []) groups).
(** The one shard all items belong to. *)
Definition single_shard {X} (index : X -> nat) (items : list X) : option nat :=
  match items with
  | [] => None
  | first :: rest => let shard := index first in if forallb (fun x => (index x =? shard)%nat) rest then Some shard else None
  end.

(** The share of a total that the shard at an index has. *)
Definition split_capacity (total shard_count index : Z) : Z :=
  total / shard_count +! (if index <? total `mod` shard_count then 1 else 0).

(** ** Running groups *)

Section groups.
Context {S X A : Type} (f : list X -> S -> result A * S).

(** Shard after shard, up to the first that fails. *)
Fixpoint local_groups (groups : list (list X)) (ss : list S) : result (list A) * list S :=
  match groups, ss with
  | g :: groups, s :: ss =>
      if bool_decide (length g = 0%nat) then let '(r, ss) := local_groups groups ss in (r, s :: ss)
      else match f g s with
      | (Err e, s) => (Err e, s :: ss)
      | (Ok a, s) => let '(r, ss) := local_groups groups ss in (let? l := r in Ok (a :: l), s :: ss)
      end
  | _, _ => (Ok [], ss)
  end.

(** A worker for each group that is not empty, in the order of [schedule];
    the answers are joined in the order of the shards. *)
Definition run_worker (groups : list (list X)) (st : list (option (result A)) * list S) (i : nat) : list (option (result A)) * list S :=
  match groups !! i, st.2 !! i with
  | Some g, Some s =>
      if bool_decide (length g = 0%nat) then st
      else let '(r, s) := f g s in (<[i := Some r]> st.1, <[i := s]> st.2)
  | _, _ => st
  end.
Fixpoint join_workers (slots : list (option (result A))) : result (list A) :=
  match slots with
  | [] => Ok []
  | None :: slots => join_workers slots
  | Some (Err e) :: _ => Err e
  | Some (Ok a) :: slots => let? l := join_workers slots in Ok (a :: l)
  end.
Definition fanout_groups (schedule : list nat) (groups : list (list X)) (ss : list S) : result (list A) * list S :=
  let '(slots, ss) := foldl (run_worker groups) (replicate (length ss) None, ss) schedule in (join_workers slots, ss).

(** The whole batch to one shard. *)
Definition to_shard (i : nat) (items : list X) (ss : list S) : outcome (result A * list S) :=
  match ss !! i with
  | None => Panics
  | Some s => let '(r, s) := f items s in Returns (r, <[i := s]> ss)
  end.
End groups.

(** ** The shards *)

(** What a shard does, with handles of type [H]. *)
Class ShardApi (S H : Type) := {
  handle_key : H -> CacheKey;
  s_put_batch_sized : list (CacheKey * bytes * Z) -> S -> result Z * S;
  s_remove_batch : list CacheKey -> S -> result Z * S;
  s_pin : CacheKey -> S -> S;
  s_unpin : CacheKey -> S -> S;
  s_release_batch : list H -> S -> S;
  s_insert_pinned_sized : CacheKey -> bytes -> Z -> S -> result (option H) * S;
  s_acquire : CacheKey -> S -> result (option H) * S;
  s_acquire_batch : list CacheKey -> S -> result (list (option H)) * S;
  s_clone_handle : H -> S -> H * S;
  s_enqueue_batch : list (CacheKey * bytes) -> S -> (Z + list (CacheKey * bytes)) * S;
  s_submit : CacheKey -> bytes -> S -> result CacheWritebackSubmitReport * S;
  s_drain : nat -> S -> result CacheWritebackDrainReport * S;
  s_flush : S -> result CacheWritebackDrainReport * S;
  s_remove_all : S -> result unit * S;
  s_reset : S -> result unit * S;
  s_set_capacity : Z -> S -> S }.

Section operations.
Context {S H : Type} `{ShardApi S H} (hash : CacheKey -> Z) (schedule : list nat).
Implicit Types (c : Sharded S) (keys : list CacheKey).

Definition shard_index_for_key c (key : CacheKey) : nat := Z.to_nat (hash key `mod` Z.of_nat (length (shards c))).
Definition with_shards (ss : list S) c : Sharded S := mkSharded ss (sharded_stats c).
Definition with_stats (t : ShardedBatchStats) c : Sharded S := mkSharded (shards c) t.
Definition local_done c : Sharded S := with_stats (record_local (sharded_stats c)) c.
Definition fanout_done (n : nat) c : Sharded S := with_stats (record_fanout n (sharded_stats c)) c.

Definition group_keys_by_shard c keys : list (list (nat * CacheKey)) :=
  route (length (shards c)) (fun e => shard_index_for_key c e.2) (imap pair keys).
Definition batch_shard_fanout c keys : nat :=
  (foldl (fun (st : list bool * nat) key =>
    let index := shard_index_for_key c key in
    if default false (st.1 !! index) then st else (<[index := true]> st.1, Datatypes.S st.2)) (replicate (length (shards c)) false, 0%nat) keys).2.

(** [self.shard_for_key(key)]. *)
Definition for_key {A} (key : CacheKey) (f : S -> A * S) c : outcome (A * Sharded S) :=
  match shards c !! shard_index_for_key c key with
  | None => Panics
  | Some s => let '(a, s) := f s in Returns (a, with_shards (<[shard_index_for_key c key := s]> (shards c)) c)
  end.

(** *** Writes *)

(** The ways of a batch: to the one shard it is for, shard after shard below
    [threshold] items, or by workers.  [finish] makes the answer of the
    answers of the shards.  A local batch that fails is not counted. *)
Definition write_batch {X A B} (index : X -> nat) (f : list X -> S -> result A * S) (size : nat) (items : list X) (finish : list A -> B) c : outcome (result B * Sharded S) :=
  match single_shard index items with
  | Some i =>
      match to_shard f i items (shards c) with
      | Panics => Panics
      | Returns (r, ss) => Returns (let? a := r in Ok (finish [a]), local_done (with_shards ss c))
      end
  | None =>
      let groups := route (length (shards c)) index items in
      if (size <? BATCH_FANOUT_THRESHOLD)%nat then
        let '(r, ss) := local_groups f groups (shards c) in
        Returns (match r with
                 | Ok l => (Ok (finish l), local_done (with_shards ss c))
                 | Err e => (Err e, with_shards ss c)
                 end)
      else
        let '(r, ss) := fanout_groups f schedule groups (shards c) in
        Returns (let? l := r in Ok (finish l), fanout_done (fanout_of groups) (with_shards ss c))
  end.

Definition sum_counts (l : list Z) : Z := foldl sat_add 0 l.
Definition put_batch_sized (entries : list (CacheKey * bytes * Z)) c : outcome (result Z * Sharded S) :=
  if bool_decide (length entries = 0%nat) then Returns (Ok 0, c)
  else write_batch (fun e => shard_index_for_key c e.1.1) s_put_batch_sized (length entries) entries sum_counts c.
Definition sharded_put_batch (entries : list (CacheKey * bytes)) c : outcome (result Z * Sharded S) :=
  put_batch_sized ((fun e => (e.1, e.2, blen e.2)) <$> entries) c.

(** Duplicates are dropped unless one shard has them all; the answer is the
    number of keys asked for. *)
Definition remove_batch keys c : outcome (result Z * Sharded S) :=
  if bool_decide (length keys = 0%nat) then Returns (Ok 0, c)
  else
    let items := match single_shard (shard_index_for_key c) keys with Some _ => keys | None => unique_cache_keys keys end in
    write_batch (shard_index_for_key c) s_remove_batch (length keys) items (fun _ => Z.of_nat (length keys)) c.

(** What cannot fail. *)
Definition always {X} (f : list X -> S -> S) (items : list X) (s : S) : result unit * S := (Ok tt, f items s).
Definition pin_batch keys c : outcome (result Z * Sharded S) :=
  if bool_decide (length keys = 0%nat) then Returns (Ok 0, c)
  else write_batch (shard_index_for_key c) (always (fun g s => foldl (fun s k => s_pin k s) s g)) (length keys) keys (fun _ => Z.of_nat (length keys)) c.
Definition unpin_batch keys c : outcome (result Z * Sharded S) :=
  if bool_decide (length keys = 0%nat) then Returns (Ok 0, c)
  else write_batch (shard_index_for_key c) (always (fun g s => foldl (fun s k => s_unpin k s) s g)) (length keys) keys (fun _ => Z.of_nat (length keys)) c.

Definition release_shard_groups (groups : list (list H)) (released : nat) c : Z * Sharded S :=
  if (released =? 0)%nat then (0, c)
  else if (released <? BATCH_FANOUT_THRESHOLD)%nat then
    (Z.of_nat released, local_done (with_shards (local_groups (always s_release_batch) groups (shards c)).2 c))
  else
    (Z.of_nat released, fanout_done (fanout_of groups) (with_shards (fanout_groups (always s_release_batch) schedule groups (shards c)).2 c)).
Definition handle_index c (h : H) : nat := shard_index_for_key c (handle_key h).
Definition release_batch (handles : list H) c : outcome (Z * Sharded S) :=
  if bool_decide (length handles = 0%nat) then Returns (0, c)
  else match single_shard (handle_index c) handles with
  | Some i =>
      match to_shard (always s_release_batch) i handles (shards c) with
      | Panics => Panics
      | Returns (_, ss) => Returns (Z.of_nat (length handles), local_done (with_shards ss c))
      end
  | None => Returns (release_shard_groups (route (length (shards c)) (handle_index c) handles) (length handles) c)
  end.
Definition release_batch_iter (handles : list H) c : Z * Sharded S :=
  release_shard_groups (route (length (shards c)) (handle_index c) handles) (length handles) c.

(** One after the other, up to the first that fails. *)
Fixpoint insert_pinned_all (group : list (nat * (CacheKey * bytes * Z))) (s : S) : result (list (nat * option H)) * S :=
  match group with
  | [] => (Ok [], s)
  | (position, (key, value, size)) :: group =>
      match s_insert_pinned_sized key value size s with
      | (Err e, s) => (Err e, s)
      | (Ok h, s) => let '(r, s) := insert_pinned_all group s in (let? l := r in Ok ((position, h) :: l), s)
      end
  end.
(** [results[position] = value]. *)
Definition place {T} (n : nat) (placed : list (nat * option T)) : list (option T) :=
  foldl (fun results pv => <[pv.1 := pv.2]> results) (empty_batch_results n) placed.
(** The answers of one shard are in the order asked: to place them is to
    collect them. *)
Definition insert_pinned_batch_sized (entries : list (CacheKey * bytes * Z)) c : outcome (result (list (option H)) * Sharded S) :=
  if bool_decide (length entries = 0%nat) then Returns (Ok [], c)
  else write_batch (fun e => shard_index_for_key c e.2.1.1) insert_pinned_all (length entries) (imap pair entries)
    (fun l => place (length entries) (concat l)) c.

(** The writes turned back are those of the shards, in the order of the
    shards. *)
Definition merge_enqueued (l : list (Z + list (CacheKey * bytes))) : Z + list (CacheKey * bytes) :=
  let rejected := concat ((fun r => match r with inl _ => [] | inr jobs => jobs end) <$> l) in
  if bool_decide (length rejected = 0%nat) then inl (foldl (fun n r => match r with inl m => n +! m | inr _ => n end) 0 l) else inr rejected.
Definition enqueue_async_writeback_batch_sharded (entries : list (CacheKey * bytes)) c : outcome ((Z + list (CacheKey * bytes)) * Sharded S) :=
  if bool_decide (length entries = 0%nat) then Returns (inl 0, c)
  else
    let index e := shard_index_for_key c (fst e) in
    let run g s := let '(r, s) := s_enqueue_batch g s in (Ok r, s) in
    match single_shard index entries with
    | Some i =>
        match shards c !! i with
        | None => Panics
        | Some s => let '(r, s) := s_enqueue_batch entries s in Returns (r, local_done (with_shards (<[i := s]> (shards c)) c))
        end
    | None =>
        match write_batch index run (length entries) entries merge_enqueued c with
        | Returns (Ok r, c) => Returns (r, c)
        | Returns (Err _, _) | Panics => Panics
        end
    end.
Fixpoint submit_all (entries : list (CacheKey * bytes)) (report : CacheWritebackSubmitReport) c : outcome (result CacheWritebackSubmitReport * Sharded S) :=
  match entries with
  | [] => Returns (Ok report, c)
  | (key, value) :: entries =>
      match for_key key (s_submit key value) c with
      | Panics => Panics
      | Returns (Err e, c) => Returns (Err e, c)
      | Returns (Ok r, c) => submit_all entries (mkSubmit (sr_queued report +! sr_queued r) (sr_write_through report +! sr_write_through r)) c
      end
  end.

(** *** Every shard *)

(** A worker for each shard. *)
Definition all_shards {A} (f : nat -> S -> result A * S) c : result (list A) * Sharded S :=
  let '(r, ss) := fanout_groups (fun g s => match g with i :: _ => f i s | [] => f 0%nat s end) schedule
    ((fun i => [i]) <$> seq 0 (length (shards c))) (shards c) in
  (r, with_shards ss c).
Definition sum_of {A} (f : A -> Z) (l : list A) : Z := foldl (fun n x => wrap64 (n + f x)) 0 l.
Definition drain_async_writeback_sharded (max_jobs_per_shard : nat) c : result CacheWritebackDrainReport * Sharded S :=
  let '(r, c) := all_shards (fun _ => s_drain max_jobs_per_shard) c in
  (let? reports := r in Ok (mkDrain (sat_mul (Z.of_nat max_jobs_per_shard) (Z.of_nat (length (shards c)))) (sum_of dr_drained reports) (sum_of dr_remaining reports)), c).
Definition flush_async_writeback_sharded c : result CacheWritebackDrainReport * Sharded S :=
  let '(r, c) := all_shards (fun _ => s_flush) c in
  (let? reports := r in Ok (mkDrain (sum_of dr_requested reports) (sum_of dr_drained reports) (sum_of dr_remaining reports)), c).
Definition remove_all c : result unit * Sharded S := let '(r, c) := all_shards (fun _ => s_remove_all) c in (let? _ := r in Ok tt, c).
Definition reset c : result unit * Sharded S :=
  let '(r, c) := all_shards (fun _ => s_reset) c in
  match r with Ok _ => (Ok tt, with_stats reset_stats c) | Err e => (Err e, c) end.
Definition set_capacity (capacity : Z) c : Sharded S :=
  (all_shards (fun i s => (Ok tt, s_set_capacity (split_capacity capacity (Z.of_nat (length (shards c))) (Z.of_nat i)) s)) c).2.

(** Every shard its share of the bytes; a share of nothing admits nothing,
    unless there is no limit at all. *)
Definition set_ssd_write_budget_bytes_per_sec (bytes_per_sec : Z) (budgets : list SsdWriteBudget) : list SsdWriteBudget :=
  imap (fun i b =>
    let share := split_capacity bytes_per_sec (Z.of_nat (length budgets)) (Z.of_nat i) in
    if negb (bytes_per_sec =? 0) && (share =? 0) then disable_admission b else set_target_bytes_per_sec share b) budgets.
(** [ssd_write_budget_bytes_per_sec] of the shards, summed. *)
Definition sharded_ssd_write_budget (budgets : list SsdWriteBudget) : Z := sum_of target_bytes_per_sec budgets.

(** *** Reads *)

Section reads.
Context {T : Type} (reader : list CacheKey -> S -> result (list (option T)) * S) (clone_value : T -> S -> T * S).

(** What a shard answers for a group, laid out over the positions.  A panic
    of a worker is an error of the batch. *)
Definition read_group (group : list (nat * CacheKey)) (s : S) : outcome (result (list (nat * option T))) * S :=
  let '(unique_keys, requested) := own_unique_positioned_batch_keys group in
  match reader unique_keys s with
  | (Err e, s) => (Returns (Err e), s)
  | (Ok values, s) =>
      match visit_batch_values_with clone_value values requested s with
      | None => (Panics, s)
      | Some (placed, s) => (Returns (Ok placed), s)
      end
  end.
Definition read_worker (group : list (nat * CacheKey)) (s : S) : result (list (nat * option T)) * S :=
  match read_group group s with (Returns r, s) => (r, s) | (Panics, s) => (Err CorruptBlock, s) end.
Fixpoint local_reads (groups : list (list (nat * CacheKey))) (ss : list S) : outcome (result (list (nat * option T)) * list S) :=
  match groups, ss with
  | g :: groups, s :: ss =>
      if bool_decide (length g = 0%nat) then
        match local_reads groups ss with Panics => Panics | Returns (r, ss) => Returns (r, s :: ss) end
      else match read_group g s with
      | (Panics, _) => Panics
      | (Returns (Err e), s) => Returns (Err e, s :: ss)
      | (Returns (Ok placed), s) =>
          match local_reads groups ss with
          | Panics => Panics
          | Returns (r, ss) => Returns (let? l := r in Ok (placed ++ l), s :: ss)
          end
      end
  | _, _ => Returns (Ok [], ss)
  end.
Definition fanout_reads keys c : result (list (option T)) * Sharded S :=
  let '(r, ss) := fanout_groups read_worker schedule (group_keys_by_shard c keys) (shards c) in
  (let? l := r in Ok (place (length keys) (concat l)), with_shards ss c).

Definition get_batch_with_shard_reader keys c : outcome (result (list (option T)) * Sharded S) :=
  if bool_decide (length keys = 0%nat) then Returns (Ok [], c)
  else match single_shard (shard_index_for_key c) keys with
  | Some i =>
      match to_shard reader i keys (shards c) with
      | Panics => Panics
      | Returns (r, ss) => Returns (r, local_done (with_shards ss c))
      end
  | None =>
      if (length keys <? READ_BATCH_FANOUT_THRESHOLD)%nat then
        match local_reads (group_keys_by_shard c keys) (shards c) with
        | Panics => Panics
        | Returns (r, ss) => Returns (let? l := r in Ok (place (length keys) l), local_done (with_shards ss c))
        end
      else Returns (fanout_reads keys (fanout_done (batch_shard_fanout c keys) c))
  end.
End reads.

(** A handle for the first position of a key, and clones of it for the
    others. *)
Fixpoint clone_positions (key : CacheKey) (first : nat) (positions : list nat) (results : list (option H)) c : outcome (list (option H) * Sharded S) :=
  match positions with
  | [] => Returns (results, c)
  | position :: positions =>
      match results !! first with
      | Some (Some h) =>
          match for_key key (s_clone_handle h) c with
          | Panics => Panics
          | Returns (h, c) => clone_positions key first positions (<[position := Some h]> results) c
          end
      | _ => Panics
      end
  end.
Fixpoint acquire_locally (groups : list (CacheKey * BatchPositions)) (results : list (option H)) c : outcome (result (list (option H)) * Sharded S) :=
  match groups with
  | [] => Returns (Ok results, c)
  | (key, positions) :: groups =>
      match for_key key (s_acquire key) c with
      | Panics => Panics
      | Returns (Err e, c) => Returns (Err e, c)
      | Returns (Ok None, c) => acquire_locally groups results c
      | Returns (Ok (Some h), c) =>
          let first := bp_first positions in
          match clone_positions key first (drop 1 (bp_list positions)) (<[first := Some h]> results) c with
          | Panics => Panics
          | Returns (results, c) => acquire_locally groups results c
          end
      end
  end.
Definition acquire_batch_locally keys c : outcome (result (list (option H)) * Sharded S) :=
  acquire_locally (coalesce_batch_positions_borrowed keys) (empty_batch_results (length keys)) c.
Definition acquire_batch keys c : outcome (result (list (option H)) * Sharded S) :=
  match single_shard (shard_index_for_key c) keys with
  | Some i =>
      match to_shard s_acquire_batch i keys (shards c) with
      | Panics => Panics
      | Returns (r, ss) => Returns (r, local_done (with_shards ss c))
      end
  | None =>
      if (length keys <? READ_BATCH_FANOUT_THRESHOLD)%nat then acquire_batch_locally keys (local_done c)
      else Returns (fanout_reads s_acquire_batch s_clone_handle keys (fanout_done (batch_shard_fanout c keys) c))
  end.
End operations.

(** ** Shards side by side

    What a batch means, without the ways: every shard runs its group on its
    own, and the answers are joined in the order of the shards. *)

Lemma single_shard_all {X} (index : X -> nat) (items : list X) i : single_shard index items = Some i -> items <> [] /\ forall x, x ∈ items -> index x = i.
Proof.
  unfold single_shard. destruct items as [|first rest]; [done|]. destruct (forallb _ rest) eqn:E; [|done]. intros [= <-]. split; [done|].
  intros x [->|Hx]%elem_of_cons; [done|]. rewrite forallb_forall in E. by apply Nat.eqb_eq, E, list_elem_of_In.
Qed.
Lemma filter_same_index {X} (index : X -> nat) i (items : list X) : (forall x, x ∈ items -> index x = i) -> filter (fun x => index x = i) items = items.
Proof. intros Hi. induction items as [|x items IH]; [done|]. rewrite filter_cons_True by (apply Hi; set_solver). f_equal. apply IH. set_solver. Qed.
Lemma route_single {X} (index : X -> nat) n (items : list X) i : (i < n)%nat -> (forall x, x ∈ items -> index x = i) -> route n index items = <[i := items]> (replicate n []).
Proof.
  intros Hi Hall. apply list_eq. intros j. destruct (decide (j < n)%nat) as [Hj|Hj].
  - rewrite route_lookup by done. destruct (decide (i = j)) as [->|Hne].
    + rewrite list_lookup_insert_eq by (by rewrite length_replicate). by rewrite filter_same_index.
    + rewrite list_lookup_insert_ne, lookup_replicate_2 by done. f_equal.
      clear Hj. induction items as [|x items IH]; [done|].
      rewrite filter_cons_False; [apply IH; set_solver|]. rewrite (Hall x) by set_solver. done.
  - rewrite !(proj2 (lookup_ge_None _ j)); [done|rewrite length_insert, length_replicate; lia|rewrite route_length; lia].
Qed.

Section plain.
Context {S X A : Type} (f : list X -> S -> result A * S).
Implicit Types (groups : list (list X)) (ss : list S).

Definition plain_group (g : list X) (s : S) : option (result A) * S :=
  if bool_decide (length g = 0%nat) then (None, s) else let '(r, s) := f g s in (Some r, s).
Definition plain_groups groups ss : result (list A) * list S :=
  let rs := zip_with plain_group groups ss in (join_workers rs.*1, rs.*2).

(** How many shards there are up to the first that fails, it included; all of
    them when none does. *)
Fixpoint first_failed (rs : list (option (result A))) : nat :=
  match rs with
  | [] => 0
  | Some (Err _) :: _ => 1
  | _ :: rs => Datatypes.S (first_failed rs)
  end.
Definition reached groups ss : nat := first_failed (zip_with plain_group groups ss).*1.

Arguments plain_groups : simpl never.

Lemma plain_groups_length groups ss : length groups = length ss -> length (plain_groups groups ss).2 = length ss.
Proof. intros Hl. unfold plain_groups. cbn [snd]. rewrite length_fmap, length_zip_with. lia. Qed.
Lemma plain_groups_lookup groups ss i g s : groups !! i = Some g -> ss !! i = Some s -> (plain_groups groups ss).2 !! i = Some (plain_group g s).2.
Proof. intros Hg Hs. unfold plain_groups. simpl. by rewrite list_lookup_fmap, lookup_zip_with, Hg, Hs. Qed.

Lemma plain_cons g s groups ss : plain_groups (g :: groups) (s :: ss) =
  (match (plain_group g s).1 with
   | None => (plain_groups groups ss).1
   | Some (Err e) => Err e
   | Some (Ok a) => let? l := (plain_groups groups ss).1 in Ok (a :: l)
   end, (plain_group g s).2 :: (plain_groups groups ss).2).
Proof. unfold plain_groups. simpl. by destruct (plain_group g s) as [[[]|] ?]. Qed.

Lemma plain_total groups ss : (forall g s, is_ok (f g s).1 = true) -> is_ok (plain_groups groups ss).1 = true.
Proof.
  intros Hf. revert ss. induction groups as [|g groups IH]; intros [|s ss]; try done. rewrite plain_cons. specialize (IH ss).
  unfold plain_group. case_bool_decide; cbn [fst]; [done|]. specialize (Hf g s). destruct (f g s) as [[a|e] s']; [|done]. cbn [fst].
  revert IH. by destruct (plain_groups groups ss) as [[] ?].
Qed.

(** Shard after shard: the same answer, and the same shards unless one
    failed. *)
Lemma local_plain groups ss : length groups = length ss ->
  (local_groups f groups ss).1 = (plain_groups groups ss).1 /\
  (is_ok (plain_groups groups ss).1 = true -> (local_groups f groups ss).2 = (plain_groups groups ss).2).
Proof.
  revert ss. induction groups as [|g groups IH]; intros [|s ss] Hl; try done. injection Hl as Hl.
  destruct (IH ss Hl) as [H1 H2]. unfold plain_groups in *. simpl in *.
  destruct (plain_group g s) as [o s1] eqn:E. unfold plain_group in E. case_bool_decide; simpl.
  - injection E as <- <-. destruct (local_groups f groups ss) as [r ss']. simpl in *. split; [done|]. intros Hok. by rewrite H2.
  - destruct (f g s) as [[a|e] s']; injection E as <- <-; simpl; [|by split]. destruct (local_groups f groups ss) as [r ss']. simpl in *. rewrite H1.
    destruct (join_workers _); simpl; [|by split]. split; [done|]. intros _. by rewrite H2.
Qed.

(** Shard after shard when one fails: it and those before it have run their
    part, those after it are as they were. *)
Lemma local_prefix groups ss : length groups = length ss ->
  (local_groups f groups ss).2 = take (reached groups ss) (plain_groups groups ss).2 ++ drop (reached groups ss) ss.
Proof.
  revert ss. induction groups as [|g groups IH]; intros [|s ss] Hl; try done. injection Hl as Hl. specialize (IH ss Hl).
  rewrite plain_cons. change (reached (g :: groups) (s :: ss)) with (match (plain_group g s).1 with Some (Err _) => 1%nat | _ => Datatypes.S (reached groups ss) end).
  cbn [local_groups]. unfold plain_group. case_bool_decide; [|destruct (f g s) as [[a|e] s']]; cbn [fst snd take drop app];
    [..|by rewrite take_0, drop_0]; destruct (local_groups f groups ss) as [r ss']; cbn [snd] in *; by rewrite IH.
Qed.

(** By workers, in any order. *)
Lemma run_workers groups schedule slots ss : NoDup schedule -> length slots = length ss ->
  let st := foldl (run_worker f groups) (slots, ss) schedule in
  length st.1 = length ss /\ length st.2 = length ss /\
  forall i g s, groups !! i = Some g -> ss !! i = Some s ->
    st.1 !! i = (if bool_decide (i ∈ schedule /\ length g <> 0%nat) then Some (Some (f g s).1) else slots !! i) /\
    st.2 !! i = Some (if bool_decide (i ∈ schedule) then (plain_group g s).2 else s).
Proof.
  intros Hnd. revert slots ss. induction schedule as [|j schedule IH]; intros slots ss Hl; simpl.
  { split_and!; [done..|]. intros i g s Hg Hs. by split. }
  apply NoDup_cons in Hnd as [Hj Hnd].
  assert (Hlen : length (run_worker f groups (slots, ss) j).1 = length (run_worker f groups (slots, ss) j).2 /\ length (run_worker f groups (slots, ss) j).2 = length ss).
  { unfold run_worker. simpl. repeat case_match; simpl; rewrite ?length_insert; done. }
  destruct Hlen as [Hlen1 Hlen2]. destruct (run_worker f groups (slots, ss) j) as [slots1 ss1] eqn:E. simpl in Hlen1, Hlen2.
  destruct (IH Hnd slots1 ss1 Hlen1) as (L1 & L2 & Hi). split_and!; [congruence..|]. intros i g s Hg Hs.
  destruct (decide (i = j)) as [->|Hne].
  - assert (slots1 !! j = (if bool_decide (length g = 0%nat) then slots !! j else Some (Some (f g s).1)) /\ ss1 !! j = Some (plain_group g s).2) as [E1 E2].
    { unfold run_worker in E. simpl in E. rewrite Hg, Hs in E. unfold plain_group. case_bool_decide; [by simplify_eq|].
      destruct (f g s) as [r s']. simplify_eq/=. pose proof (lookup_lt_Some _ _ _ Hs).
      rewrite !list_lookup_insert_eq by lia. done. }
    destruct (Hi j g _ Hg E2) as [H1 H2]. rewrite H1, H2, E1. rewrite (bool_decide_eq_false_2 (j ∈ schedule)) by done.
    rewrite (bool_decide_eq_false_2 (j ∈ schedule /\ _)) by tauto. rewrite (bool_decide_eq_true_2 (j ∈ _ :: _)) by set_solver.
    split; [|done]. destruct (decide (length g = 0%nat)) as [Hz|Hz].
    + by rewrite (bool_decide_eq_true_2 (length g = _)), bool_decide_eq_false_2 by tauto.
    + by rewrite (bool_decide_eq_false_2 (length g = _)), bool_decide_eq_true_2 by (try split; set_solver).
  - assert (slots1 !! i = slots !! i /\ ss1 !! i = Some s) as [E1 E2].
    { unfold run_worker in E. simpl in E. repeat case_match; simplify_eq/=; rewrite ?list_lookup_insert_ne by done; done. }
    destruct (Hi i g s Hg E2) as [H1 H2]. rewrite H1, H2, E1.
    rewrite (bool_decide_ext (i ∈ j :: schedule) (i ∈ schedule)) by set_solver.
    rewrite (bool_decide_ext (i ∈ j :: schedule /\ length g <> 0%nat) (i ∈ schedule /\ length g <> 0%nat)) by set_solver. done.
Qed.
Lemma fanout_plain schedule groups ss : schedule ≡ₚ seq 0 (length ss) -> length groups = length ss ->
  fanout_groups f schedule groups ss = plain_groups groups ss.
Proof.
  intros Hs Hl. assert (Hnd : NoDup schedule) by (rewrite Hs; apply NoDup_seq).
  pose proof (run_workers groups schedule (replicate (length ss) None) ss Hnd (length_replicate _ _)) as Hr.
  unfold fanout_groups, plain_groups. destruct (foldl _ _ schedule) as [slots ss']. destruct Hr as (L1 & L2 & Hi). simpl in *.
  assert (Hin : forall i s, ss !! i = Some s -> i ∈ schedule).
  { intros i s Hi'. rewrite Hs. apply elem_of_seq. apply lookup_lt_Some in Hi'. lia. }
  f_equal; [f_equal|]; apply list_eq; intros i; rewrite list_lookup_fmap, lookup_zip_with; destruct (ss !! i) as [s|] eqn:Es.
  1, 3: destruct (lookup_lt_is_Some_2 groups i) as [g Hg]; [apply lookup_lt_Some in Es; lia|];
    destruct (Hi i g s Hg Es) as [H1 H2]; rewrite Hg; simpl; rewrite ?H1, ?H2; pose proof (Hin i s Es).
  - unfold plain_group. destruct (decide (length g = 0%nat)) as [Hz|Hz].
    + rewrite (bool_decide_eq_true_2 (length g = _)), bool_decide_eq_false_2 by tauto. apply lookup_replicate_2. by eapply lookup_lt_Some.
    + rewrite (bool_decide_eq_false_2 (length g = _)), bool_decide_eq_true_2 by done. by destruct (f g s).
  - by rewrite bool_decide_eq_true_2.
  - apply lookup_ge_None in Es. rewrite (proj2 (lookup_ge_None slots i)) by lia. by destruct (groups !! i).
  - apply lookup_ge_None in Es. rewrite (proj2 (lookup_ge_None ss' i)) by lia. by destruct (groups !! i).
Qed.

(** To the one shard. *)
Lemma plain_empty ss : plain_groups (replicate (length ss) []) ss = (Ok [], ss).
Proof. induction ss as [|s ss IH]; [done|]. cbn [length replicate]. by rewrite plain_cons, IH. Qed.
Lemma plain_single i items ss s : items <> [] -> ss !! i = Some s ->
  plain_groups (<[i := items]> (replicate (length ss) [])) ss = (let? a := (f items s).1 in Ok [a], <[i := (f items s).2]> ss).
Proof.
  intros Hne. revert i. induction ss as [|s' ss IH]; intros i Hs; [done|]. cbn [length replicate]. destruct i as [|i]; simpl in Hs.
  - injection Hs as ->. change (<[0%nat := items]> ([] :: replicate (length ss) [])) with (items :: replicate (length ss) []).
    rewrite plain_cons, plain_empty. unfold plain_group. rewrite bool_decide_eq_false_2 by (by destruct items). by destruct (f items s) as [[] ?].
  - change (<[Datatypes.S i := items]> ([] :: replicate (length ss) [])) with ([] :: <[i := items]> (replicate (length ss) [])).
    by rewrite plain_cons, (IH i Hs).
Qed.
Lemma to_shard_plain (index : X -> nat) i items ss : single_shard index items = Some i -> (i < length ss)%nat ->
  exists r ss', to_shard f i items ss = Returns (r, ss') /\ plain_groups (route (length ss) index items) ss = (let? a := r in Ok [a], ss').
Proof.
  intros [Hne Hall]%single_shard_all Hi. destruct (lookup_lt_is_Some_2 ss i Hi) as [s Hs]. unfold to_shard. rewrite Hs.
  rewrite (route_single index _ items i Hi Hall), (plain_single i items ss s Hne Hs). destruct (f items s) as [r s']. by exists r, (<[i := s']> ss).
Qed.
End plain.
Arguments plain_groups : simpl never.

(** ** Writes *)

Section writes.
Context {S H : Type} `{ShardApi S H} (hash : CacheKey -> Z) (schedule : list nat).
Implicit Types (c : Sharded S).

Lemma index_in_range c key : shards c <> [] -> (shard_index_for_key hash c key < length (shards c))%nat.
Proof.
  intros Hne. unfold shard_index_for_key. assert (0 < Z.of_nat (length (shards c))) by (destruct (shards c); simpl; [done|lia]).
  pose proof (Z.mod_pos_bound (hash key) (Z.of_nat (length (shards c)))). lia.
Qed.

(** The shards of [final] have run their part, which leaves them as in [new]:
    all of them when none failed; and otherwise all of them, or the first [n],
    which end with the first that failed, and those after it are as in [old]. *)
Definition ran (n : nat) (ok : bool) (new old final : list S) : Prop :=
  (ok = true -> final = new) /\ (final = new \/ final = take n new ++ drop n old).
Lemma ran_all n ok new old final : final = new -> ran n ok new old final.
Proof. intros ->. split; [done|by left]. Qed.

(** Whichever way a batch goes. *)
Lemma write_batch_plain {X A B} (index : X -> nat) (f : list X -> S -> result A * S) size items (finish : list A -> B) c :
  schedule ≡ₚ seq 0 (length (shards c)) -> (forall x, index x < length (shards c))%nat ->
  let p := plain_groups f (route (length (shards c)) index items) (shards c) in
  exists c', write_batch schedule index f size items finish c = Returns (let? l := p.1 in Ok (finish l), c') /\
    ran (reached f (route (length (shards c)) index items) (shards c)) (is_ok p.1) p.2 (shards c) (shards c').
Proof.
  intros Hs Hi. cbv zeta. unfold write_batch.
  pose proof (plain_groups_length f (route (length (shards c)) index items) (shards c) ltac:(by rewrite route_length)) as Hlen. destruct (single_shard index items) as [i|] eqn:E.
  - assert (i < length (shards c))%nat as Hlt.
    { destruct (single_shard_all index items i E) as [Hne Hall]. destruct items as [|x items]; [done|]. rewrite <- (Hall x) by set_solver. apply Hi. }
    destruct (to_shard_plain f index i items (shards c) E Hlt) as (r & ss & -> & Hp). rewrite Hp in *. cbn [fst snd] in *.
    eexists. split; [by destruct r|]. by apply ran_all.
  - destruct (size <? BATCH_FANOUT_THRESHOLD)%nat.
    + destruct (local_plain f (route (length (shards c)) index items) (shards c)) as [H1 H3]; [by rewrite route_length|].
      pose proof (local_prefix f (route (length (shards c)) index items) (shards c) ltac:(by rewrite route_length)) as H2.
      destruct (local_groups _ _ _) as [r ss], (plain_groups _ _ _) as [r' ss']. cbn [fst snd] in *. subst r'.
      destruct r as [l|e]; eexists; (split; [done|]); (split; [exact H3|by right]).
    + rewrite fanout_plain by (rewrite ?route_length; done). destruct (plain_groups _ _ _) as [r ss]. cbn [fst snd] in *. eexists. split; [done|]. by apply ran_all.
Qed.

(** Every shard runs [f] on its own. *)
Definition plain_all {A} (f : nat -> S -> result A * S) (ss : list S) : result (list A) * list S :=
  let rs := imap f ss in (join_workers (Some ∘ fst <$> rs), rs.*2).
Lemma all_shards_plain {A} (f : nat -> S -> result A * S) c : schedule ≡ₚ seq 0 (length (shards c)) ->
  all_shards schedule f c = ((plain_all f (shards c)).1, with_shards (plain_all f (shards c)).2 c).
Proof.
  intros Hs. unfold all_shards. rewrite fanout_plain by (rewrite ?length_fmap, ?length_seq; done).
  set (g := fun (l : list nat) s => match l with i :: _ => f i s | [] => f 0%nat s end).
  assert (E : zip_with (plain_group g) ((fun i => [i]) <$> seq 0 (length (shards c))) (shards c) = (fun rs => (Some rs.1, rs.2)) <$> imap f (shards c)).
  { apply list_eq. intros i. rewrite lookup_zip_with, !list_lookup_fmap, list_lookup_imap.
    destruct (shards c !! i) as [s|] eqn:E; [|by destruct (seq _ _ !! i)]. rewrite lookup_seq_lt by (by eapply lookup_lt_Some). simpl.
    unfold plain_group, g. simpl. by destruct (f i s). }
  unfold plain_groups, plain_all. rewrite E, <- !list_fmap_compose. done.
Qed.

(** The writes, what they answer, and what they mean. *)
Inductive ShardWrite :=
  | SPut (entries : list (CacheKey * bytes * Z)) | SRemove (keys : list CacheKey) | SPin (keys : list CacheKey) | SUnpin (keys : list CacheKey)
  | SRelease (handles : list H) | SReleaseIter (handles : list H) | SInsertPinned (entries : list (CacheKey * bytes * Z))
  | SEnqueue (entries : list (CacheKey * bytes)) | SDrain (max_jobs : nat) | SFlush | SRemoveAll | SReset | SSetCapacity (capacity : Z).
Inductive WriteOut :=
  | WCount (r : result Z) | WHandles (r : result (list (option H))) | WEnqueued (r : Z + list (CacheKey * bytes))
  | WDrained (r : result CacheWritebackDrainReport) | WUnit (r : result unit).
Definition out_ok (o : WriteOut) : bool :=
  match o with WCount r => is_ok r | WHandles r => is_ok r | WEnqueued _ => true | WDrained r => is_ok r | WUnit r => is_ok r end.
Definition returned {A} (out : A -> WriteOut) (r : outcome (A * Sharded S)) : outcome (WriteOut * Sharded S) :=
  match r with Panics => Panics | Returns (a, c) => Returns (out a, c) end.

Definition sharded_write (op : ShardWrite) c : outcome (WriteOut * Sharded S) :=
  match op with
  | SPut es => returned WCount (put_batch_sized hash schedule es c)
  | SRemove ks => returned WCount (remove_batch hash schedule ks c)
  | SPin ks => returned WCount (pin_batch hash schedule ks c)
  | SUnpin ks => returned WCount (unpin_batch hash schedule ks c)
  | SRelease hs => returned (fun n => WCount (Ok n)) (release_batch hash schedule hs c)
  | SReleaseIter hs => returned (fun n => WCount (Ok n)) (Returns (release_batch_iter hash schedule hs c))
  | SInsertPinned es => returned WHandles (insert_pinned_batch_sized hash schedule es c)
  | SEnqueue es => returned WEnqueued (enqueue_async_writeback_batch_sharded hash schedule es c)
  | SDrain n => returned WDrained (Returns (drain_async_writeback_sharded schedule n c))
  | SFlush => returned WDrained (Returns (flush_async_writeback_sharded schedule c))
  | SRemoveAll => returned WUnit (Returns (remove_all schedule c))
  | SReset => returned WUnit (Returns (reset schedule c))
  | SSetCapacity n => Returns (WUnit (Ok tt), set_capacity schedule n c)
  end.

Definition by_shard {X A} (key_of : X -> CacheKey) (f : list X -> S -> result A * S) (items : list X) c : result (list A) * list S :=
  plain_groups f (route (length (shards c)) (fun x => shard_index_for_key hash c (key_of x)) items) (shards c).
Definition by_reached {X A} (key_of : X -> CacheKey) (f : list X -> S -> result A * S) (items : list X) c : nat :=
  reached f (route (length (shards c)) (fun x => shard_index_for_key hash c (key_of x)) items) (shards c).
Definition plain_write (op : ShardWrite) c : WriteOut * list S :=
  match op with
  | SPut es => let '(r, ss) := by_shard (fun e => e.1.1) s_put_batch_sized es c in (WCount (let? l := r in Ok (sum_counts l)), ss)
  | SRemove ks =>
      let items := match single_shard (shard_index_for_key hash c) ks with Some _ => ks | None => unique_cache_keys ks end in
      let '(r, ss) := by_shard id s_remove_batch items c in (WCount (let? _ := r in Ok (Z.of_nat (length ks))), ss)
  | SPin ks => (WCount (Ok (Z.of_nat (length ks))), (by_shard id (always (fun g s => foldl (fun s k => s_pin k s) s g)) ks c).2)
  | SUnpin ks => (WCount (Ok (Z.of_nat (length ks))), (by_shard id (always (fun g s => foldl (fun s k => s_unpin k s) s g)) ks c).2)
  | SRelease hs | SReleaseIter hs => (WCount (Ok (Z.of_nat (length hs))), (by_shard handle_key (always s_release_batch) hs c).2)
  | SInsertPinned es =>
      let '(r, ss) := by_shard (fun e => e.2.1.1) insert_pinned_all (imap pair es) c in
      (WHandles (let? l := r in Ok (place (length es) (concat l))), ss)
  | SEnqueue es =>
      let '(r, ss) := by_shard fst (fun g s => let '(r, s) := s_enqueue_batch g s in (Ok r, s)) es c in
      (WEnqueued (match r with Ok l => merge_enqueued l | Err _ => inl 0 end), ss)
  | SDrain n =>
      let '(r, ss) := plain_all (fun _ => s_drain n) (shards c) in
      (WDrained (let? rs := r in Ok (mkDrain (sat_mul (Z.of_nat n) (Z.of_nat (length (shards c)))) (sum_of dr_drained rs) (sum_of dr_remaining rs))), ss)
  | SFlush =>
      let '(r, ss) := plain_all (fun _ => s_flush) (shards c) in
      (WDrained (let? rs := r in Ok (mkDrain (sum_of dr_requested rs) (sum_of dr_drained rs) (sum_of dr_remaining rs))), ss)
  | SRemoveAll => let '(r, ss) := plain_all (fun _ => s_remove_all) (shards c) in (WUnit (let? _ := r in Ok tt), ss)
  | SReset => let '(r, ss) := plain_all (fun _ => s_reset) (shards c) in (WUnit (let? _ := r in Ok tt), ss)
  | SSetCapacity n =>
      (WUnit (Ok tt), imap (fun i s => s_set_capacity (split_capacity n (Z.of_nat (length (shards c))) (Z.of_nat i)) s) (shards c))
  end.
(** How many shards a write runs at least: to the first that fails for the
    writes that may go shard after shard and fail, every one for the others. *)
Definition plain_reached (op : ShardWrite) c : nat :=
  match op with
  | SPut es => by_reached (fun e => e.1.1) s_put_batch_sized es c
  | SRemove ks =>
      by_reached id s_remove_batch (match single_shard (shard_index_for_key hash c) ks with Some _ => ks | None => unique_cache_keys ks end) c
  | SInsertPinned es => by_reached (fun e => e.2.1.1) insert_pinned_all (imap pair es) c
  | _ => length (shards c)
  end.
End writes.

(** What the proofs need of a shard: an enqueue that turns nothing back says
    so. *)
Class ShardLaws (S H : Type) `{ShardApi S H} : Prop :=
  enqueue_answers : forall entries (s : S), match (s_enqueue_batch entries s).1 with inl n => 0 <= n <= u64_max | inr jobs => jobs <> [] end.

Section writes_exact.
Context {S H : Type} `{ShardLaws S H} (hash : CacheKey -> Z) (schedule : list nat).
Implicit Types (c : Sharded S).

Lemma merge_one (r : Z + list (CacheKey * bytes)) : match r with inl n => 0 <= n <= u64_max | inr jobs => jobs <> [] end -> merge_enqueued [r] = r.
Proof.
  unfold merge_enqueued. destruct r as [n|jobs]; simpl.
  - intros Hn. unfold sat_add. f_equal. lia.
  - rewrite app_nil_r. intros Hj. rewrite bool_decide_eq_false_2; [done|]. by destruct jobs.
Qed.
Lemma by_shard_nil {X A} (key_of : X -> CacheKey) (f : list X -> S -> result A * S) c : by_shard hash key_of f [] c = (Ok [], shards c).
Proof. apply plain_empty. Qed.
Lemma by_shard_always {X} (key_of : X -> CacheKey) (f : list X -> S -> S) items c : is_ok (by_shard hash key_of (always f) items c).1 = true.
Proof. by apply plain_total. Qed.

(** A batch of writes by key. *)
Lemma write_batch_by_shard {X A B} (key_of : X -> CacheKey) (f : list X -> S -> result A * S) size items (finish : list A -> B) c :
  schedule ≡ₚ seq 0 (length (shards c)) -> shards c <> [] ->
  exists c', write_batch schedule (fun x => shard_index_for_key hash c (key_of x)) f size items finish c =
    Returns (let? l := (by_shard hash key_of f items c).1 in Ok (finish l), c') /\
    ran (by_reached hash key_of f items c) (is_ok (by_shard hash key_of f items c).1) (by_shard hash key_of f items c).2 (shards c) (shards c').
Proof. intros Hs Hne. apply write_batch_plain; [done|]. intros x. by apply index_in_range. Qed.

Lemma always_plain (f : list CacheKey -> S -> S) keys c : schedule ≡ₚ seq 0 (length (shards c)) -> shards c <> [] ->
  exists c', (if bool_decide (length keys = 0%nat) then Returns (Ok 0, c)
    else write_batch schedule (shard_index_for_key hash c) (always f) (length keys) keys (fun _ => Z.of_nat (length keys)) c) = Returns (Ok (Z.of_nat (length keys)), c') /\
    shards c' = (by_shard hash id (always f) keys c).2.
Proof.
  intros Hs Hne. case_bool_decide as He; [destruct keys; [|done]; rewrite by_shard_nil; by eexists|].
  destruct (write_batch_by_shard id (always f) (length keys) keys (fun _ => Z.of_nat (length keys)) c Hs Hne) as (c' & E & Hc).
  change (fun x => shard_index_for_key hash c (id x)) with (shard_index_for_key hash c) in E. rewrite E. exists c'. pose proof (by_shard_always id f keys c) as Ha.
  split; [|by apply Hc, Ha]. by destruct (by_shard _ _ _ _ _) as [[] ss].
Qed.
Lemma release_groups_plain (handles : list H) c : schedule ≡ₚ seq 0 (length (shards c)) -> handles <> [] ->
  let p := by_shard hash handle_key (always s_release_batch) handles c in
  exists c', release_shard_groups schedule (route (length (shards c)) (handle_index hash c) handles) (length handles) c = (Z.of_nat (length handles), c') /\ shards c' = p.2.
Proof.
  intros Hs Hne p. unfold release_shard_groups. rewrite (proj2 (Nat.eqb_neq _ _)) by (by destruct handles).
  destruct (_ <? _)%nat.
  - eexists. split; [done|]. simpl. apply (local_plain _ _ (shards c)); [by rewrite route_length|]. apply (by_shard_always handle_key).
  - eexists. split; [done|]. simpl. by rewrite fanout_plain by (rewrite ?route_length; done).
Qed.
Lemma enqueue_plain entries c : schedule ≡ₚ seq 0 (length (shards c)) -> shards c <> [] ->
  exists c', enqueue_async_writeback_batch_sharded hash schedule entries c =
    Returns (match (by_shard hash fst (fun g s => let '(r, s) := s_enqueue_batch g s in (Ok r, s)) entries c).1 with Ok l => merge_enqueued l | Err _ => inl 0 end, c') /\
    shards c' = (by_shard hash fst (fun g s => let '(r, s) := s_enqueue_batch g s in (Ok r, s)) entries c).2.
Proof.
  intros Hs Hne. unfold enqueue_async_writeback_batch_sharded. case_bool_decide as He.
  { destruct entries; [|done]. rewrite by_shard_nil. by eexists. }
  set (run := fun (g : list (CacheKey * bytes)) (s : S) => let '(r, s) := s_enqueue_batch g s in (Ok r, s)).
  destruct (single_shard _ entries) as [i|] eqn:E.
  - destruct (single_shard_all (fun e => shard_index_for_key hash c e.1) entries i E) as [_ Hall].
    assert (i < length (shards c))%nat as Hi by (destruct entries as [|x entries]; [done|]; rewrite <- (Hall x) by set_solver; by apply index_in_range).
    destruct (lookup_lt_is_Some_2 (shards c) i Hi) as [s Hss]. rewrite Hss.
    unfold by_shard. rewrite (route_single _ _ entries i Hi Hall), (plain_single run i entries (shards c) s) by (done || by destruct entries).
    unfold run. pose proof (enqueue_answers entries s) as Ha. destruct (s_enqueue_batch entries s) as [r s']. simpl in *.
    rewrite merge_one by done. by eexists.
  - destruct (write_batch_by_shard fst run (length entries) entries merge_enqueued c Hs Hne) as (c' & -> & Hc).
    assert (exists l, (by_shard hash fst run entries c).1 = Ok l) as [l Hl].
    { assert (is_ok (by_shard hash fst run entries c).1 = true) as Ht by (apply plain_total; intros g s; unfold run; by destruct (s_enqueue_batch g s)).
      destruct (by_shard _ _ _ _ _) as [[l|e] ss]; [by exists l|done]. }
    rewrite Hl in *. simpl. eexists. split; [done|]. by apply Hc.
Qed.

(** A case where every shard runs its part. *)
#[local] Ltac all_ran := eexists; split; [done|by apply ran_all].

(** C28. Whichever way a batch of writes takes (to the one shard it is for,
    shard after shard, or by workers in any order), and for every other
    write: the sharded cache does not panic and answers as if every shard
    had run its own part on its own, with the first error in the order of
    the shards where one fails.  When none fails every shard ends in the
    state its own part leaves; when one fails, either every shard still does,
    or those up to the first failing one do and the others are as they
    were. *)
Theorem sharded_writes_exact (op : ShardWrite) c :
  schedule ≡ₚ seq 0 (length (shards c)) -> shards c <> [] ->
  exists c', sharded_write hash schedule op c = Returns ((plain_write hash op c).1, c') /\
    ran (plain_reached hash op c) (out_ok (plain_write hash op c).1) (plain_write hash op c).2 (shards c) (shards c').
Proof.
  intros Hs Hne. destruct op; unfold sharded_write, plain_write.
  - unfold put_batch_sized. case_bool_decide as He; [destruct entries; [|done]; rewrite by_shard_nil; all_ran|].
    destruct (write_batch_by_shard (fun e => e.1.1) s_put_batch_sized (length entries) entries sum_counts c Hs Hne) as (c' & -> & Hc).
    destruct (by_shard _ _ _ _ _) as [r ss]. exists c'. by destruct r.
  - unfold remove_batch. case_bool_decide as He; [destruct keys; [|done]; cbn [single_shard]; change (unique_cache_keys []) with (@nil CacheKey); rewrite by_shard_nil; all_ran|].
    set (items := match single_shard _ keys with Some _ => _ | None => _ end).
    destruct (write_batch_by_shard id s_remove_batch (length keys) items (fun _ => Z.of_nat (length keys)) c Hs Hne) as (c' & E & Hc).
    change (fun x => shard_index_for_key hash c (id x)) with (shard_index_for_key hash c) in E. rewrite E.
    destruct (by_shard _ _ _ _ _) as [r ss]. exists c'. by destruct r.
  - destruct (always_plain (fun g s => foldl (fun s k => s_pin k s) s g) keys c Hs Hne) as (c' & E & Hc). unfold pin_batch. rewrite E. all_ran.
  - destruct (always_plain (fun g s => foldl (fun s k => s_unpin k s) s g) keys c Hs Hne) as (c' & E & Hc). unfold unpin_batch. rewrite E. all_ran.
  - unfold release_batch. case_bool_decide as He; [destruct handles; [|done]; rewrite by_shard_nil; all_ran|].
    destruct (single_shard _ handles) as [i|] eqn:E.
    + assert (i < length (shards c))%nat as Hi.
      { destruct (single_shard_all _ handles i E) as [_ Hall]. destruct handles as [|x handles]; [done|]. rewrite <- (Hall x) by set_solver. by apply index_in_range. }
      destruct (to_shard_plain (always s_release_batch) (handle_index hash c) i handles (shards c) E Hi) as (r & ss & -> & Hp).
      unfold by_shard. change (fun x => shard_index_for_key hash c (handle_key x)) with (handle_index hash c). rewrite Hp. all_ran.
    + destruct (release_groups_plain handles c Hs) as (c' & -> & Hc); [by destruct handles|]. all_ran.
  - unfold release_batch_iter. destruct handles as [|h handles]; [rewrite by_shard_nil; all_ran|].
    destruct (release_groups_plain (h :: handles) c Hs) as (c' & -> & Hc); [done|]. all_ran.
  - unfold insert_pinned_batch_sized. case_bool_decide as He; [destruct entries; [|done]; cbn [imap]; rewrite by_shard_nil; all_ran|].
    destruct (write_batch_by_shard (fun e => e.2.1.1) insert_pinned_all (length entries) (imap pair entries) (fun l => place (length entries) (concat l)) c Hs Hne) as (c' & -> & Hc).
    destruct (by_shard _ _ _ _ _) as [r ss]. exists c'. by destruct r.
  - destruct (enqueue_plain entries c Hs Hne) as (c' & -> & Hc). destruct (by_shard _ _ _ _ _) as [r ss]. all_ran.
  - unfold drain_async_writeback_sharded. rewrite all_shards_plain by done. destruct (plain_all _ _) as [r ss] eqn:E. simpl.
    assert (length ss = length (shards c)) as <- by (apply (f_equal snd) in E; simpl in E; subst ss; by rewrite length_fmap, length_imap). all_ran.
  - unfold flush_async_writeback_sharded. rewrite all_shards_plain by done. destruct (plain_all _ _) as [r ss]. all_ran.
  - unfold remove_all. rewrite all_shards_plain by done. destruct (plain_all _ _) as [r ss]. all_ran.
  - unfold reset. rewrite all_shards_plain by done. destruct (plain_all _ _) as [[l|e] ss]; all_ran.
  - unfold set_capacity. rewrite all_shards_plain by done. eexists. split; [done|]. apply ran_all. unfold plain_all. simpl.
    apply list_eq. intros i. rewrite list_lookup_fmap, !list_lookup_imap. by destruct (shards c !! i).
Qed.
End writes_exact.

(** ** Folding and laying out *)

Lemma key_position_some key uk u : key_position key uk = Some u -> uk !! u = Some key.
Proof. unfold key_position. intros ([j k] & Hk & ->)%fmap_Some. apply list_find_Some in Hk as (Hk & -> & _). done. Qed.
Lemma key_position_none key uk : key_position key uk = None <-> key ∉ uk.
Proof.
  unfold key_position. rewrite fmap_None, list_find_None, Forall_forall. split; [intros Hn Hin; by apply (Hn key)|]. by intros Hn x Hx ->.
Qed.
Lemma key_position_app key k uk : key_position key (uk ++ [k]) =
  match key_position key uk with Some u => Some u | None => if decide (k = key) then Some (length uk) else None end.
Proof.
  unfold key_position. destruct (list_find _ uk) as [[u x]|] eqn:E; simpl.
  - by rewrite (list_find_app_l _ _ _ u x E).
  - rewrite list_find_app_r by done. simpl. by case_decide.
Qed.
Lemma own_unique_either group : own_unique_positioned_batch_keys group = own_unique_scan group [] [].
Proof.
  unfold own_unique_positioned_batch_keys. destruct (_ <=? _)%nat; [done|].
  enough (forall group uk m req, (forall key, m !! key = key_position key uk) -> own_unique_hashed group uk m req = own_unique_scan group uk req) as Hg by (by apply Hg).
  clear. intros group. induction group as [|[position key] group IH]; intros uk m req Hm; [done|]. simpl. rewrite Hm.
  destruct (key_position key uk) eqn:E; apply IH; [done|]. intros k. rewrite key_position_app.
  destruct (decide (key = k)) as [->|Hne]; [by rewrite lookup_insert_eq, E|]. rewrite lookup_insert_ne, Hm by done. by destruct (key_position k uk).
Qed.

(** Every request names the unique key that it asked for. *)
Record unique_of (group : list (nat * CacheKey)) (uk : list CacheKey) (req : list (nat * nat)) : Prop := {
  uo_requests : Forall2 (fun r e => r.1 = e.1 /\ uk !! r.2 = Some e.2) req group;
  uo_le : (length uk <= length group)%nat;
  uo_eq : length uk = length group -> uk = group.*2 }.
Lemma own_unique_spec group : unique_of group (own_unique_positioned_batch_keys group).1 (own_unique_positioned_batch_keys group).2.
Proof.
  rewrite own_unique_either.
  enough (forall group' uk req group, unique_of group uk req -> unique_of (group ++ group') (own_unique_scan group' uk req).1 (own_unique_scan group' uk req).2) as Hg.
  { apply (Hg group [] [] []). by split. }
  clear. intros group'. induction group' as [|[position key] group' IH]; intros uk req group [Hr Hl He]; [by rewrite app_nil_r|].
  simpl. replace (group ++ (position, key) :: group') with ((group ++ [(position, key)]) ++ group') by (by rewrite <- app_assoc).
  destruct (key_position key uk) as [u|] eqn:E; apply IH; split; rewrite ?length_app; simpl.
  - apply key_position_some in E. apply Forall2_app; [done|by repeat constructor].
  - lia.
  - lia.
  - apply Forall2_app; [|repeat constructor; simpl; by apply list_lookup_middle]. eapply Forall2_impl; [exact Hr|]. simpl. intros r e [-> Hu]. split; [done|]. by apply lookup_app_l_Some.
  - lia.
  - intros Hlen. rewrite He, fmap_app by lia. done.
Qed.

Section visit_spec.
Context {S T : Type} (clone_value : T -> S -> T * S) (clone_same : forall x s, (clone_value x s).1 = x).

Definition asked (u : nat) (req : list (nat * nat)) : nat := length (filter (fun r => r.2 = u) req).
Lemma asked_cons u r req : asked u (r :: req) = ((if decide (r.2 = u) then 1 else 0) + asked u req)%nat.
Proof. unfold asked. rewrite filter_cons. by case_decide. Qed.

Lemma count_requested_ok req n : Forall (fun r => (r.2 < n)%nat) req ->
  exists remaining, count_requested req n = Some remaining /\ forall u, (u < n)%nat -> remaining !! u = Some (asked u req).
Proof.
  induction req as [|r req IH] using rev_ind; intros Hr.
  { eexists. split; [done|]. intros u Hu. by apply lookup_replicate_2. }
  apply Forall_app in Hr as [Hr Hn]. apply Forall_inv in Hn. destruct (IH Hr) as (remaining & E & Hm).
  unfold count_requested in *. rewrite foldl_app, E. cbn [foldl mbind option_bind]. rewrite (Hm _ Hn). cbn [mbind option_bind].
  eexists. split; [done|]. intros u Hu. unfold asked. rewrite filter_app, length_app, filter_cons, filter_nil. destruct (decide (r.2 = u)) as [<-|Hne].
  - rewrite list_lookup_insert_eq by (eapply lookup_lt_Some; by apply Hm). f_equal. unfold asked. simpl. lia.
  - rewrite list_lookup_insert_ne by done. rewrite Hm by done. f_equal. unfold asked. simpl. lia.
Qed.
Lemma visit_loop_ok (g : nat -> option T) req remaining values s :
  (forall r, r ∈ req -> values !! r.2 = Some (g r.2) /\ remaining !! r.2 = Some (asked r.2 req)) ->
  exists s', visit_loop clone_value remaining values req s = Some ((fun r => (r.1, g r.2)) <$> req, s').
Proof.
  revert remaining values s. induction req as [|[position u] req IH]; intros remaining values s Hr; [by eexists|]. cbn [visit_loop].
  destruct (Hr (position, u)) as [Hv Hc]; [by left|]. simpl in Hv, Hc. rewrite Hv, Hc. cbn [mbind option_bind].
  rewrite asked_cons. simpl. rewrite decide_True by done. cbn [Nat.add Nat.pred].
  assert (Hin : forall r, r ∈ req -> r.2 = u -> asked u req <> 0%nat).
  { intros r Hi <-. unfold asked. assert (r ∈ filter (fun r' => r'.2 = r.2) req) as Hf by (by apply list_elem_of_filter). by destruct (filter _ req); [apply elem_of_nil in Hf|]. }
  assert (Hrem : forall r, r ∈ req -> <[u := asked u req]> remaining !! r.2 = Some (asked r.2 req)).
  { intros r Hi. destruct (Hr r) as [_ Hc']; [by right|]. destruct (decide (r.2 = u)) as [->|Hne].
    - rewrite list_lookup_insert_eq; [done|]. by eapply lookup_lt_Some.
    - rewrite list_lookup_insert_ne by done. rewrite Hc', asked_cons. simpl. by rewrite decide_False. }
  destruct (asked u req =? 0)%nat eqn:Ez.
  - apply Nat.eqb_eq in Ez. destruct (IH (<[u := asked u req]> remaining) (<[u := None]> values) s) as (s' & Hl).
    + intros r Hi. split; [|by apply Hrem]. rewrite list_lookup_insert_ne; [by apply Hr; right|]. intros ->. by apply (Hin r Hi).
    + rewrite Hl. cbn [mbind option_bind fst snd]. by eexists.
  - assert (exists s1, (match g u with None => (None, values, s) | Some x => let '(x, s) := clone_value x s in (Some x, values, s) end) = (g u, values, s1)) as [s1 ->].
    { destruct (g u) as [x|]; [|by eexists]. pose proof (clone_same x s) as Hs. destruct (clone_value x s) as [x' s']. simpl in Hs. subst. by eexists. }
    destruct (IH (<[u := asked u req]> remaining) values s1) as (s' & Hl).
    + intros r Hi. split; [by apply Hr; right|by apply Hrem].
    + rewrite Hl. cbn [mbind option_bind fst snd]. by eexists.
Qed.

(** Answering the unique keys and laying the answers out answers the group. *)
Lemma visit_unique (answer : CacheKey -> option T) group s :
  let '(uk, req) := own_unique_positioned_batch_keys group in
  exists s', visit_batch_values_with clone_value (answer <$> uk) req s = Some ((fun e => (e.1, answer e.2)) <$> group, s').
Proof.
  pose proof (own_unique_spec group) as [Hr Hl He]. destruct (own_unique_positioned_batch_keys group) as [uk req]. simpl in *.
  pose proof (Forall2_length _ _ _ Hr) as Hlen. unfold visit_batch_values_with. rewrite length_fmap.
  destruct (length uk =? length req)%nat eqn:E.
  - apply Nat.eqb_eq in E. rewrite He by lia. exists s. do 2 f_equal. clear Hl He E.
    induction Hr as [|r e req group [Hp _] _ IH]; [done|]. simpl. rewrite Hp. f_equal. apply IH. simpl in Hlen. lia.
  - destruct (count_requested_ok req (length uk)) as (remaining & -> & Hm).
    { apply Forall_lookup. intros i r Hi. destruct (Forall2_lookup_l _ _ _ _ _ Hr Hi) as (e & _ & _ & Hu). by eapply lookup_lt_Some. }
    cbn [mbind option_bind]. destruct (visit_loop_ok (fun u => uk !! u ≫= answer) req remaining (answer <$> uk) s) as (s' & ->).
    + intros r [i Hi]%list_elem_of_lookup. destruct (Forall2_lookup_l _ _ _ _ _ Hr Hi) as (e & _ & _ & Hu).
      rewrite list_lookup_fmap, Hu. split; [done|]. apply Hm. by eapply lookup_lt_Some.
    + exists s'. do 2 f_equal. clear Hm Hl He E Hlen. induction Hr as [|r e req group [Hp Hu] _ IH]; [done|]. simpl. rewrite Hp, Hu. simpl. f_equal. exact IH.
Qed.
End visit_spec.

Lemma placed_spec {T} n (g : nat -> option T) placed :
  (forall pv, pv ∈ placed -> pv.2 = g pv.1) -> (forall p, (p < n)%nat -> p ∈ placed.*1) -> place n placed = g <$> seq 0 n.
Proof.
  intros Hg Hc. unfold place, empty_batch_results.
  assert (Hf : forall placed results, (forall pv, pv ∈ placed -> pv.2 = g pv.1) ->
    length (foldl (fun results pv => <[pv.1 := pv.2]> results) results placed) = length results /\
    forall p, (p < length results)%nat -> (p ∈ placed.*1 \/ results !! p = Some (g p)) -> foldl (fun results pv => <[pv.1 := pv.2]> results) results placed !! p = Some (g p)).
  { clear. intros placed. induction placed as [|pv placed IH]; intros results Hg; simpl; [split; [done|]; intros p Hp [Hin|Hr]; [by apply elem_of_nil in Hin|done]|].
    destruct (IH (<[pv.1 := pv.2]> results)) as [L Hp]; [set_solver|]. rewrite length_insert in L, Hp. split; [done|].
    intros p Hlt Hin. apply Hp; [done|]. destruct (decide (pv.1 = p)) as [<-|Hne].
    - right. rewrite list_lookup_insert_eq by done. f_equal. apply Hg. set_solver.
    - rewrite list_lookup_insert_ne by done. destruct Hin as [[Heq|Hin]%elem_of_cons|Hr]; [congruence|by left|by right]. }
  destruct (Hf placed (replicate n None) Hg) as [L Hp]. rewrite length_replicate in L, Hp. apply list_eq. intros p.
  destruct (decide (p < n)%nat) as [Hlt|Hge].
  - rewrite Hp by auto. rewrite list_lookup_fmap, lookup_seq_lt by done. done.
  - rewrite !(proj2 (lookup_ge_None _ p)); [done|rewrite length_fmap, length_seq; lia|lia].
Qed.

(** ** Reads *)

Section plain_answers.
Context {S X A : Type} (f : list X -> S -> result A * S).

Lemma plain_ok groups ss l : (plain_groups f groups ss).1 = Ok l ->
  (forall i g s, groups !! i = Some g -> ss !! i = Some s -> length g <> 0%nat -> exists a, (f g s).1 = Ok a /\ a ∈ l) /\
  (forall a, a ∈ l -> exists i g s, groups !! i = Some g /\ ss !! i = Some s /\ (f g s).1 = Ok a).
Proof.
  revert ss l. induction groups as [|g groups IH]; intros [|s ss] l; try (intros [= <-]; split; [done|]; by intros a Ha%elem_of_nil).
  rewrite plain_cons. cbn [fst]. intros Hp.
  assert (exists l', (plain_groups f groups ss).1 = Ok l' /\ ((length g = 0%nat /\ l = l') \/ exists a, (f g s).1 = Ok a /\ l = a :: l')) as (l' & Hl' & Hc).
  { unfold plain_group in Hp. case_bool_decide; cbn [fst] in Hp; [by exists l; split; [|left]|]. destruct (f g s) as [[a|e] s']; [|done]. cbn [fst] in Hp.
    destruct (plain_groups f groups ss).1 as [l'|]; [|done]. injection Hp as <-. exists l'. split; [done|]. right. by exists a. }
  destruct (IH ss l' Hl') as [H1 H2]. split.
  - intros [|i] g' s' Hg Hs Hz; simpl in Hg, Hs.
    + simplify_eq. destruct Hc as [[? _]|(a & Ha & ->)]; [done|]. exists a. split; [done|]. by left.
    + destruct (H1 i g' s' Hg Hs Hz) as (a & Ha & Hin). exists a. split; [done|]. destruct Hc as [[_ ->]|(? & _ & ->)]; [done|by right].
  - intros a Ha. assert (a ∈ l' \/ (f g s).1 = Ok a) as [Hin|Hf].
    { destruct Hc as [[_ ->]|(a' & Ha' & ->)]; [by left|]. apply elem_of_cons in Ha as [->|Ha]; [by right|by left]. }
    + destruct (H2 a Hin) as (i & g' & s' & ? & ? & ?). by exists (Datatypes.S i), g', s'.
    + by exists 0%nat, g, s.
Qed.
Lemma plain_err groups ss e : (plain_groups f groups ss).1 = Err e -> exists i g s, groups !! i = Some g /\ ss !! i = Some s /\ (f g s).1 = Err e.
Proof.
  revert ss. induction groups as [|g groups IH]; intros [|s ss]; try done. rewrite plain_cons. cbn [fst]. intros Hp.
  assert ((plain_groups f groups ss).1 = Err e \/ (f g s).1 = Err e) as [Hp'|Hf].
  { unfold plain_group in Hp. case_bool_decide; cbn [fst] in Hp; [by left|]. destruct (f g s) as [[a|e'] s']; cbn [fst] in *; [|right; congruence].
    destruct (plain_groups f groups ss).1; [done|left; simpl in Hp; congruence]. }
  - destruct (IH ss Hp') as (i & g' & s' & ? & ? & ?). by exists (Datatypes.S i), g', s'.
  - by exists 0%nat, g, s.
Qed.
(** A shard without a group is left alone. *)
Lemma local_untouched groups ss i : groups !! i = Some [] -> (local_groups f groups ss).2 !! i = ss !! i.
Proof.
  revert ss i. induction groups as [|g groups IH]; intros [|s ss] i Hi; try done. simpl. case_bool_decide as Hz.
  - destruct i as [|i]; simpl in Hi; [by destruct (local_groups f groups ss)|]. specialize (IH ss i Hi). by destruct (local_groups f groups ss).
  - destruct i as [|i]; simpl in Hi; [by simplify_eq|]. specialize (IH ss i Hi). destruct (f g s) as [[a|e] s']; [|done]. by destruct (local_groups f groups ss).
Qed.
End plain_answers.

Section reads_exact.
Context {S T : Type} (hash : CacheKey -> Z) (schedule : list nat).
Context (reader : list CacheKey -> S -> result (list (option T)) * S) (clone_value : T -> S -> T * S) (answer : S -> CacheKey -> option T).
Hypothesis clone_same : forall x s, (clone_value x s).1 = x.
Hypothesis reader_answers : forall ks s vs, (reader ks s).1 = Ok vs -> vs = answer s <$> ks.
Implicit Types (c : Sharded S) (keys : list CacheKey).

(** The answer of the shard a key belongs to. *)
Definition answer_of c (key : CacheKey) : option T := shards c !! shard_index_for_key hash c key ≫= fun s => answer s key.

Lemma read_group_spec g s : exists r, (read_group reader clone_value g s).1 = Returns r /\
  match r with Ok placed => placed = (fun e => (e.1, answer s e.2)) <$> g | Err e => exists ks, (reader ks s).1 = Err e end.
Proof.
  unfold read_group. pose proof (fun s' => visit_unique clone_value clone_same (answer s) g s') as Hv. destruct (own_unique_positioned_batch_keys g) as [uk req].
  pose proof (reader_answers uk s) as Hr. destruct (reader uk s) as [[vs|e] s'] eqn:E.
  - rewrite (Hr vs eq_refl). destruct (Hv s') as (s'' & ->). by eexists.
  - exists (Err e). split; [done|]. exists uk. by rewrite E.
Qed.
Lemma read_worker_spec g s :
  match (read_worker reader clone_value g s).1 with Ok placed => placed = (fun e => (e.1, answer s e.2)) <$> g | Err e => exists ks, (reader ks s).1 = Err e end.
Proof. unfold read_worker. destruct (read_group_spec g s) as (r & Hr & Hm). destruct (read_group reader clone_value g s) as [o s']. simpl in Hr. by subst. Qed.
Lemma local_reads_groups groups ss : local_reads reader clone_value groups ss =
  Returns (let? l := (local_groups (read_worker reader clone_value) groups ss).1 in Ok (concat l), (local_groups (read_worker reader clone_value) groups ss).2).
Proof.
  revert ss. induction groups as [|g groups IH]; intros [|s ss]; try done. simpl. rewrite IH. case_bool_decide; [by destruct (local_groups _ groups ss)|].
  destruct (read_worker reader clone_value g s) as [rw sw] eqn:Ew. unfold read_worker in Ew.
  destruct (read_group_spec g s) as (r & Hr & _). destruct (read_group reader clone_value g s) as [o s']. simpl in Hr. subst o.
  injection Ew as <- <-. destruct r as [placed|e]; [|done]. destruct (local_groups _ groups ss) as [[l|e] ss']; done.
Qed.

(** The answers of the groups, laid out. *)
Lemma placed_answers keys c l : shards c <> [] ->
  (plain_groups (read_worker reader clone_value) (group_keys_by_shard hash c keys) (shards c)).1 = Ok l ->
  place (length keys) (concat l) = answer_of c <$> keys.
Proof.
  intros Hne Hp. destruct (plain_ok _ _ _ _ Hp) as [Hin Hfrom].
  assert (Hg : forall i s, shards c !! i = Some s -> group_keys_by_shard hash c keys !! i = Some (filter (fun e => shard_index_for_key hash c e.2 = i) (imap pair keys))).
  { intros i s Hs. unfold group_keys_by_shard. apply route_lookup. by eapply lookup_lt_Some. }
  rewrite (placed_spec _ (fun p => keys !! p ≫= answer_of c)).
  - apply list_eq. intros p. rewrite !list_lookup_fmap. destruct (decide (p < length keys)%nat) as [Hlt|Hge].
    + rewrite lookup_seq_lt by done. simpl. destruct (lookup_lt_is_Some_2 keys p Hlt) as [k ->]. done.
    + rewrite (proj2 (lookup_ge_None keys p)), (proj2 (lookup_ge_None (seq _ _) p)) by (rewrite ?length_seq; lia). done.
  - intros [p v] Hpv. apply list_elem_of_In, in_concat in Hpv as (a & Ha%list_elem_of_In & Hpv%list_elem_of_In).
    destruct (Hfrom a Ha) as (i & g & s & Hgi & Hs & Ha'). rewrite (Hg i s Hs) in Hgi. injection Hgi as <-.
    pose proof (read_worker_spec (filter (fun e => shard_index_for_key hash c e.2 = i) (imap pair keys)) s) as Hw. rewrite Ha' in Hw. subst a.
    apply list_elem_of_fmap in Hpv as ([p' k] & [= -> ->] & [Hk Hpk]%list_elem_of_filter). apply elem_of_lookup_imap in Hpk as (j & x & [= -> ->] & Hj).
    simpl in *. rewrite Hj. simpl. unfold answer_of. by rewrite Hk, Hs.
  - intros p Hlt. destruct (lookup_lt_is_Some_2 keys p Hlt) as [k Hk]. set (i := shard_index_for_key hash c k).
    destruct (lookup_lt_is_Some_2 (shards c) i (index_in_range hash c k Hne)) as [s Hs].
    assert (Hpk : (p, k) ∈ filter (fun e => shard_index_for_key hash c e.2 = i) (imap pair keys)).
    { apply list_elem_of_filter. split; [done|]. apply (list_elem_of_lookup_2 _ p). by rewrite list_lookup_imap, Hk. }
    destruct (Hin i _ s (Hg i s Hs) Hs) as (a & Ha & Hal).
    { intros Hz. destruct (filter _ (imap pair keys)); [by apply elem_of_nil in Hpk|done]. }
    pose proof (read_worker_spec (filter (fun e => shard_index_for_key hash c e.2 = i) (imap pair keys)) s) as Hw. rewrite Ha in Hw. subst a.
    apply list_elem_of_fmap. exists (p, answer s k). split; [done|]. apply list_elem_of_In, in_concat. eexists. split; [by apply list_elem_of_In|].
    apply list_elem_of_In, list_elem_of_fmap. by exists (p, k).
Qed.

(** What a batch of reads answers. *)
Definition read_right keys c (r : result (list (option T))) : Prop :=
  match r with Ok vs => vs = answer_of c <$> keys | Err e => exists ks s, s ∈ shards c /\ (reader ks s).1 = Err e end.
Lemma plain_reads_right keys c : shards c <> [] ->
  read_right keys c (let? l := (plain_groups (read_worker reader clone_value) (group_keys_by_shard hash c keys) (shards c)).1 in Ok (place (length keys) (concat l))).
Proof.
  intros Hne. destruct (plain_groups _ _ _).1 as [l|e] eqn:E; simpl; [by apply placed_answers|].
  destruct (plain_err _ _ _ _ E) as (i & g & s & _ & Hs & He). pose proof (read_worker_spec g s) as Hw. rewrite He in Hw. destruct Hw as [ks Hks].
  exists ks, s. split; [by eapply list_elem_of_lookup_2|done].
Qed.
Lemma group_empty keys c i : (i < length (shards c))%nat -> (forall k, k ∈ keys -> shard_index_for_key hash c k <> i) -> group_keys_by_shard hash c keys !! i = Some [].
Proof.
  intros Hi Hk. unfold group_keys_by_shard. rewrite route_lookup by done. f_equal.
  destruct (filter _ (imap pair keys)) as [|[p k] rest] eqn:E; [done|].
  assert ((p, k) ∈ filter (fun e => shard_index_for_key hash c e.2 = i) (imap pair keys)) as [Hx Hin]%list_elem_of_filter by (rewrite E; by left).
  apply elem_of_lookup_imap in Hin as (j & x & [= -> ->] & Hj). destruct (Hk x); [by eapply list_elem_of_lookup_2|done].
Qed.

(** C29. A batch of reads answers, whichever way it takes, for every position
    what the shard of the key at that position answers for it, with
    duplicates, in the order they were asked, or the error of a shard; it
    does not panic, and a shard that none of the keys belongs to is left
    alone.  This holds for every reader that answers its keys one by one. *)
Theorem sharded_reads_exact keys c : schedule ≡ₚ seq 0 (length (shards c)) -> shards c <> [] ->
  exists r c', get_batch_with_shard_reader hash schedule reader clone_value keys c = Returns (r, c') /\ read_right keys c r /\
    forall i, (i < length (shards c))%nat -> (forall k, k ∈ keys -> shard_index_for_key hash c k <> i) -> shards c' !! i = shards c !! i.
Proof.
  intros Hs Hne. unfold get_batch_with_shard_reader. case_bool_decide as Hz.
  { destruct keys; [|done]. by eexists _, c. }
  destruct (single_shard _ keys) as [i|] eqn:E.
  - destruct (single_shard_all _ keys i E) as [_ Hall].
    assert (i < length (shards c))%nat as Hi by (destruct keys as [|k keys]; [done|]; rewrite <- (Hall k) by set_solver; by apply index_in_range).
    destruct (lookup_lt_is_Some_2 (shards c) i Hi) as [s Hss]. unfold to_shard. rewrite Hss. destruct (reader keys s) as [r s'] eqn:Er.
    eexists _, _. split; [done|]. split.
    + destruct r as [vs|e]; simpl; [|exists keys, s; split; [by eapply list_elem_of_lookup_2|by rewrite Er]].
      rewrite (reader_answers keys s vs) by (by rewrite Er). apply list_fmap_ext. intros j k Hj. unfold answer_of.
      rewrite (Hall k) by (by eapply list_elem_of_lookup_2). by rewrite Hss.
    + intros j Hj Hk. simpl. rewrite list_lookup_insert_ne; [done|]. intros <-. destruct keys as [|k keys]; [done|]. apply (Hk k); [by left|]. apply Hall. by left.
  - destruct (_ <? _)%nat.
    + rewrite local_reads_groups. destruct (local_plain (read_worker reader clone_value) (group_keys_by_shard hash c keys) (shards c)) as [H1 _]; [apply route_length|].
      rewrite H1. eexists _, _. split; [done|]. split.
      * pose proof (plain_reads_right keys c Hne) as Hr. by destruct (plain_groups _ _ _).1.
      * intros j Hj Hk. simpl. apply local_untouched. by apply group_empty.
    + pose proof (plain_reads_right keys c Hne) as Hr. unfold fanout_reads.
      change (group_keys_by_shard hash (fanout_done (batch_shard_fanout hash c keys) c) keys) with (group_keys_by_shard hash c keys).
      change (shards (fanout_done (batch_shard_fanout hash c keys) c)) with (shards c).
      rewrite fanout_plain by (try done; apply route_length).
      pose proof (fun j s Hj Hk => plain_groups_lookup (read_worker reader clone_value) _ (shards c) j [] s (group_empty keys c j Hj Hk)) as Hl.
      destruct (plain_groups (read_worker reader clone_value) (group_keys_by_shard hash c keys) (shards c)) as [r ss] eqn:Eg. eexists _, _. split; [done|]. split; [done|].
      intros j Hj Hk. destruct (lookup_lt_is_Some_2 (shards c) j Hj) as [s Hss]. cbn [shards with_shards].
      rewrite Hss. specialize (Hl j s Hj Hk Hss). done.
Qed.
End reads_exact.

(** ** Shares *)

Lemma split_sum total n k : 0 <= total <= u64_max -> 0 < n -> 0 <= Z.of_nat k <= n ->
  foldr Z.add 0 ((fun i => split_capacity total n (Z.of_nat i)) <$> seq 0 k) = Z.of_nat k * (total / n) + Z.min (Z.of_nat k) (total `mod` n).
Proof.
  intros Ht Hn. pose proof (Z.div_mod total n) as Hdm. pose proof (Z.mod_pos_bound total n Hn) as Hb. pose proof (Z.div_pos total n) as Hd.
  induction k as [|k IH]; intros Hk; [simpl; lia|]. rewrite seq_S, fmap_app, foldr_app. simpl.
  assert (Hs : split_capacity total n (Z.of_nat k) = total / n + (if Z.of_nat k <? total `mod` n then 1 else 0)).
  { unfold split_capacity, sat_add. assert (total / n + 1 <= u64_max \/ total `mod` n = 0) by (destruct (decide (n = 1)) as [->|]; [right; apply Z.mod_1_r|left; unfold u64_max in *; nia]).
    pose proof (Z.div_le_upper_bound total n u64_max Hn). case_if; nia. }
  rewrite Hs, Z.add_0_r.
  assert (Hadd : forall l x, foldr Z.add x l = foldr Z.add 0 l + x) by (intros l x; induction l as [|y l IHl]; simpl; lia).
  rewrite Hadd, IH by lia. case_if; zbool; lia.
Qed.
Lemma sum_of_plain {A} (f : A -> Z) (l : list A) : Forall (fun x => 0 <= f x) l -> foldr Z.add 0 (f <$> l) <= u64_max -> sum_of f l = foldr Z.add 0 (f <$> l).
Proof.
  intros Hp Hs. unfold sum_of. enough (forall n, 0 <= n -> n + foldr Z.add 0 (f <$> l) <= u64_max -> foldl (fun n x => wrap64 (n + f x)) n l = n + foldr Z.add 0 (f <$> l)) as He by (by rewrite He).
  clear Hs. induction Hp as [|x l Hx Hl IH]; intros n Hn Hs; rewrite ?fmap_cons in *; cbn [foldr foldl] in *; [cbn; lia|].
  assert (0 <= foldr Z.add 0 (f <$> l)) by (clear -Hl; induction Hl as [|y l Hy Hl IHl]; rewrite ?fmap_cons; cbn [foldr]; [done|]; cbn beta in Hy; lia).
  rewrite IH; rewrite wrap64_small by (unfold u64_max in *; lia); lia.
Qed.

(** What a shard's budget is set to. *)
Definition shard_budget (total n : Z) (i : nat) (b : SsdWriteBudget) : SsdWriteBudget :=
  let share := split_capacity total n (Z.of_nat i) in
  if negb (total =? 0) && (share =? 0) then disable_admission b else set_target_bytes_per_sec share b.
Lemma shard_budget_target total n i b : target_bytes_per_sec (shard_budget total n i b) = split_capacity total n (Z.of_nat i).
Proof.
  unfold shard_budget. cbv zeta. set (share := split_capacity total n (Z.of_nat i)).
  assert (Ht : forall s, target_bytes_per_sec (set_target_bytes_per_sec s b) = s).
  { intros s. unfold set_target_bytes_per_sec. destruct (s =? target_bytes_per_sec b) eqn:E, (admission_disabled b); simpl; zbool; congruence. }
  destruct (negb (total =? 0) && (share =? 0)) eqn:E; [|apply Ht]. apply andb_true_iff in E as [_ E%Z.eqb_eq]. unfold disable_admission. simpl. by rewrite Ht, E.
Qed.
Lemma split_bounds total n i : 0 <= total <= u64_max -> 0 < n -> total / n <= split_capacity total n i <= total / n + 1.
Proof.
  intros Ht Hn. unfold split_capacity, sat_add. pose proof (Z.div_le_upper_bound total n u64_max Hn). case_if; nia.
Qed.

(** The shares of a capacity, or of a budget of bytes, add up to the
    whole and no two differ by more than one; the budget read back is the one
    that was set; and unless the limit was lifted, no shard is left without
    one: a shard whose share is nothing admits nothing. *)
Theorem sharded_shares_exact total (bs : list SsdWriteBudget) : bs <> [] -> 0 <= total <= u64_max ->
  let n := Z.of_nat (length bs) in
  let bs' := set_ssd_write_budget_bytes_per_sec total bs in
  foldr Z.add 0 ((fun i => split_capacity total n (Z.of_nat i)) <$> seq 0 (length bs)) = total /\
  (forall i j, Z.abs (split_capacity total n i - split_capacity total n j) <= 1) /\
  sharded_ssd_write_budget bs' = total /\
  (total <> 0 -> forall b, b ∈ bs' -> 0 < target_bytes_per_sec b \/ forall key_hash now, (admits key_hash now b).1 = false).
Proof.
  intros Hne Ht n bs'. assert (Hn : 0 < n) by (destruct bs; [done|]; unfold n; simpl; lia).
  pose proof (split_sum total n (length bs) Ht Hn) as Hsum. pose proof (Z.div_mod total n) as Hdm. pose proof (Z.mod_pos_bound total n Hn) as Hb.
  assert (E : foldr Z.add 0 ((fun i => split_capacity total n (Z.of_nat i)) <$> seq 0 (length bs)) = total) by (rewrite Hsum; unfold n in *; lia).
  assert (Hsh : target_bytes_per_sec <$> bs' = (fun i => split_capacity total n (Z.of_nat i)) <$> seq 0 (length bs)).
  { apply list_eq. intros i. unfold bs', set_ssd_write_budget_bytes_per_sec. rewrite !list_lookup_fmap, list_lookup_imap. destruct (bs !! i) as [b|] eqn:Eb.
    - rewrite lookup_seq_lt by (by eapply lookup_lt_Some). simpl. f_equal. apply shard_budget_target.
    - apply lookup_ge_None in Eb. by rewrite (proj2 (lookup_ge_None (seq _ _) i)) by (by rewrite length_seq). }
  split_and!; [done| | |].
  - intros i j. pose proof (split_bounds total n i Ht Hn). pose proof (split_bounds total n j Ht Hn). lia.
  - unfold sharded_ssd_write_budget. rewrite sum_of_plain; rewrite ?Hsh; [done| |lia].
    apply Forall_forall. intros b Hin%(list_elem_of_fmap_2 target_bytes_per_sec). rewrite Hsh in Hin. apply list_elem_of_fmap in Hin as (i & -> & _).
    pose proof (split_bounds total n (Z.of_nat i) Ht Hn). pose proof (Z.div_pos total n). lia.
  - intros Hz b Hin. apply elem_of_lookup_imap in Hin as (i & b0 & -> & _). change (let share := _ in _) with (shard_budget total n i b0). rewrite shard_budget_target.
    pose proof (split_bounds total n (Z.of_nat i) Ht Hn). pose proof (Z.div_pos total n).
    destruct (decide (split_capacity total n (Z.of_nat i) = 0)) as [Hs|]; [right|left; lia].
    intros h now. unfold shard_budget. rewrite Hs. rewrite (proj2 (Z.eqb_neq total 0)) by done. done.
Qed.

(** ** Shards with a write-back queue

    The write-back of a shard is that of Writeback.v, which answers as the
    sharded cache needs; the cache below it is an association list here. *)

Lemma enqueue_batch_answers entries (w : Writeback) : match (enqueue_async_writeback_batch entries w).1 with inl n => 0 <= n <= u64_max | inr jobs => jobs <> [] end.
Proof.
  unfold enqueue_async_writeback_batch. case_bool_decide as Hz; [simpl; unfold u64_max; lia|]. destruct (negb (wb_started w)); [done|].
  assert (Hf : forall st, 0 <= st.1.1 <= u64_max -> 0 <= (foldl enqueue_entry st entries).1.1 <= u64_max).
  { clear Hz w. induction entries as [|e entries IH]; intros [[n rej] w] Hn; [done|]. apply IH. unfold enqueue_entry. destruct (enqueue_one e.1 e.2 w) as [[|] w']; simpl in *; [|done].
    unfold sat_add. lia. }
  specialize (Hf (0, [], w)). destruct (foldl enqueue_entry (0, [], w) entries) as [[n rej] w']. simpl in *. case_bool_decide; [apply Hf; unfold u64_max; lia|done].
Qed.

Definition listed (key : CacheKey) (s : list (CacheKey * bytes)) : option (CacheKey * bytes) := snd <$> list_find (fun e => e.1 = key) s.
Definition unlisted (key : CacheKey) (s : list (CacheKey * bytes)) : list (CacheKey * bytes) := filter (fun e => e.1 <> key) s.
Definition list_put (key : CacheKey) (value : bytes) (s : list (CacheKey * bytes)) : list (CacheKey * bytes) := (key, value) :: unlisted key s.
#[local] Instance list_cache : WritebackCache (list (CacheKey * bytes)) := {
  cache_put_batch batch s := (Ok (Z.of_nat (length batch)), foldl (fun s e => list_put e.1 e.2 s) s batch);
  cache_put key value s := (Ok tt, list_put key value s) }.
Definition ListShard : Type := Writeback * list (CacheKey * bytes).
#[local] Instance list_shard : ShardApi ListShard (CacheKey * bytes) := {
  handle_key := fst;
  s_put_batch_sized entries s := (Ok (Z.of_nat (length entries)), (s.1, foldl (fun s e => list_put e.1.1 e.1.2 s) s.2 entries));
  s_remove_batch keys s := (Ok (Z.of_nat (length keys)), (s.1, foldl (fun s key => unlisted key s) s.2 keys));
  s_pin _ s := s;
  s_unpin _ s := s;
  s_release_batch _ s := s;
  s_insert_pinned_sized key value _ s := (Ok (Some (key, value)), (s.1, list_put key value s.2));
  s_acquire key s := (Ok (listed key s.2), s);
  s_acquire_batch keys s := (Ok ((fun key => listed key s.2) <$> keys), s);
  s_clone_handle h s := (h, s);
  s_enqueue_batch entries s := let '(r, w) := enqueue_async_writeback_batch entries s.1 in (r, (w, s.2));
  s_submit := submit_async_writeback_or_write_through;
  s_drain := drain_async_writeback;
  s_flush := flush_async_writeback;
  s_remove_all s := (Ok tt, (clear_writeback s.1, []));
  s_reset s := (Ok tt, (clear_writeback s.1, []));
  s_set_capacity n s := (s.1, take (Z.to_nat n) s.2) }.
#[local] Instance list_shard_laws : ShardLaws ListShard (CacheKey * bytes).
Proof. intros entries s. simpl. pose proof (enqueue_batch_answers entries s.1) as Ha. by destruct (enqueue_async_writeback_batch entries s.1). Qed.

Definition key_a : CacheKey := key_string 0 "a".
Definition key_b : CacheKey := key_string 0 "b".
Definition shard_named (key : CacheKey) : Z := if bool_decide (key = key_b) then 1 else 0.
Definition two_shards : Sharded ListShard := mkSharded [(new_writeback 1, []); (new_writeback 1, [])] reset_stats.
Definition filled_shards : Sharded ListShard := mkSharded [(new_writeback 1, [(key_a, [x01])]); (new_writeback 1, [(key_b, [x02])])] reset_stats.

Lemma sharded_writes_exact_witness : exists c',
  sharded_write shard_named [1; 0]%nat (SPut [(key_a, [x01], 1); (key_b, [x02], 1)]) two_shards = Returns (WCount (Ok 2), c') /\ shards c' = shards filled_shards.
Proof.
  destruct (sharded_writes_exact shard_named [1; 0]%nat (SPut [(key_a, [x01], 1); (key_b, [x02], 1)]) two_shards) as (c' & Hw & Hc); [apply perm_swap|done|].
  exists c'. split; [exact Hw|]. apply Hc. reflexivity.
Defined.

Lemma sharded_reads_exact_witness : exists r c',
  get_batch_with_shard_reader shard_named [1; 0]%nat s_acquire_batch s_clone_handle [key_b; key_a; key_b] filled_shards = Returns (r, c') /\
  r = Ok [Some (key_b, [x02]); Some (key_a, [x01]); Some (key_b, [x02])].
Proof.
  destruct (sharded_reads_exact shard_named [1; 0]%nat (s_acquire_batch (ShardApi := list_shard)) (s_clone_handle (ShardApi := list_shard)) (fun (s : ListShard) key => listed key s.2)
    ltac:(reflexivity) ltac:(intros ks s vs [= <-]; reflexivity) [key_b; key_a; key_b] filled_shards) as (r & c' & Hg & Hr & _); [apply perm_swap|done|].
  exists r, c'. split; [exact Hg|]. destruct r as [vs|e]; [|destruct Hr as (ks & s & _ & He); discriminate He]. rewrite Hr. reflexivity.
Defined.

Lemma sharded_shares_exact_witness :
  let bs := set_ssd_write_budget_bytes_per_sec 1 [unlimited; unlimited] in
  sharded_ssd_write_budget bs = 1 /\ forall b, bs !! 1%nat = Some b -> 0 < target_bytes_per_sec b \/ forall key_hash now, (admits key_hash now b).1 = false.
Proof.
  destruct (sharded_shares_exact 1 [unlimited; unlimited]) as (_ & _ & Hs & Hl); [done|unfold u64_max; lia|].
  split; [exact Hs|]. intros b Hb. apply Hl; [done|]. by apply (list_elem_of_lookup_2 _ 1%nat).
Defined.
