(* ===== verification/FileStore.v ===== *)
(** * The file-backed store

    StorageEngineRocksDb of runtime/storage_engines.rs as it is built without
    RocksDB: a map in memory with a snapshot and a journal on disk.  The
    directory is a value; [dk_writes] is the history of what was done to it,
    so that a theorem can stop after any of them.  Nothing but a crash
    interrupts a write. *)

From Stdlib Require Import Strings.Byte.
From S2P Require Import Prelude BlockCodec SsdRecords Ordering MemStorage StorageBatch.

(** ** The directory *)

(** Opening the journal creates it; writes to it append; a snapshot is
    written beside the old one and renamed over it. *)
Inductive disk_write := CreateJournal | AppendJournal (v : bytes) | ReplaceStore (v : bytes) | RemoveJournal.

Record Directory := mkDir { dir_is_file : bool; dir_store : option bytes; dir_journal : option bytes }.
Record Disk := mkDisk { dk_dir : Directory; dk_writes : list disk_write }.

Definition apply_write (w : disk_write) (d : Directory) : Directory :=
  match w with
  | CreateJournal => mkDir (dir_is_file d) (dir_store d) (Some (default [] (dir_journal d)))
  | AppendJournal v => mkDir (dir_is_file d) (dir_store d) ((fun j => j ++ v) <$> dir_journal d)
  | ReplaceStore v => mkDir (dir_is_file d) (Some v) (dir_journal d)
  | RemoveJournal => mkDir (dir_is_file d) (dir_store d) None
  end.
Definition write_disk (w : disk_write) (d : Disk) : Disk := mkDisk (apply_write w (dk_dir d)) (dk_writes d ++ [w]).

(** ** Formats *)

Definition ascii_bytes (s : string) : bytes := String.list_byte_of_string s.
Definition STORE_MAGIC : bytes := ascii_bytes "matrixcache-rocksdb-v1" ++ [x00].
Definition JOURNAL_MAGIC : bytes := ascii_bytes "matrixcache-rocksdb-journal-v1" ++ [x00].
Definition JOURNAL_COMPACTION_FLOOR_BYTES : Z := 64 * 1024.
Definition JOURNAL_PUT : Byte.byte := x01.
Definition JOURNAL_DELETE : Byte.byte := x02.

Definition encode_journal_change_into (record : bytes) (key : string) (value : option bytes) : bytes :=
  match value with
  | Some value =>
      let record := record ++ [JOURNAL_PUT] in
      let record := put_fixed_uint64 record (blen (key_bytes key)) in
      let record := put_fixed_uint64 record (blen value) in
      record ++ key_bytes key ++ value
  | None =>
      let record := record ++ [JOURNAL_DELETE] in
      let record := put_fixed_uint64 record (blen (key_bytes key)) in
      record ++ key_bytes key
  end.
Definition encode_journal_change (key : string) (value : option bytes) : bytes := encode_journal_change_into [] key value.

(** The snapshot: the records in the order of their keys. *)
Definition encode_record (raw : bytes) (key : string) (value : bytes) : bytes :=
  put_fixed_uint64 (put_fixed_uint64 raw (blen (key_bytes key))) (blen value) ++ key_bytes key ++ value.
Definition encode_store (records : gmap string bytes) : bytes :=
  foldl (fun raw key => encode_record raw key (default [] (records !! key)))
    (put_fixed_uint64 STORE_MAGIC (Z.of_nat (size records))) (sorted_keys records).

(** ** Replaying the journal *)

(** The operation that starts at [offset]: its tag, key and value lengths, and
    where its key starts.  [None] is a torn tail. *)
Definition read_operation (raw : bytes) (offset : Z) : option (result (Byte.byte * Z * Z * Z)) :=
  let tag := byte_at raw (Z.to_nat offset) in
  '(key_len, offset) ← get_fixed_uint64 raw (offset + 1);
  if bool_decide (tag = JOURNAL_PUT) then
    '(value_len, offset) ← get_fixed_uint64 raw offset; Some (Ok (tag, key_len, value_len, offset))
  else if bool_decide (tag = JOURNAL_DELETE) then Some (Ok (tag, key_len, 0, offset))
  else Some (Err CorruptBlock).

(** One turn of the loop: where the next operation starts and the records
    after this one, or the end of the loop.  [offset + len] wraps, as it does
    in a release build. *)
Definition replay_operation (raw : bytes) (offset : Z) (records : gmap string bytes) :
    outcome (option (result (Z * gmap string bytes))) :=
  match read_operation raw offset with
  | None => Returns None
  | Some (Err e) => Returns (Some (Err e))
  | Some (Ok (tag, key_len, value_len, offset)) =>
      let key_end := wrap64 (offset + key_len) in
      let value_end := wrap64 (key_end + value_len) in
      if blen raw <? value_end then Returns None
      else match slice raw offset key_end with
      | None => Panics
      | Some key =>
          if negb (is_utf8 key) then Returns (Some (Err CorruptBlock))
          else
            let key := String.string_of_list_byte key in
            if bool_decide (tag = JOURNAL_PUT) then
              match slice raw key_end value_end with
              | None => Panics
              | Some value => Returns (Some (Ok (value_end, <[key := value]> records)))
              end
            else Returns (Some (Ok (value_end, delete key records)))
      end
  end.

(** Each turn moves past nine bytes at least, or panics first, so as many
    turns as the journal has bytes are enough. *)
Fixpoint replay_operations (fuel : nat) (raw : bytes) (offset : Z) (records : gmap string bytes) :
    outcome (result unit * gmap string bytes) :=
  match fuel with
  | O => Returns (Ok tt, records)
  | S fuel =>
      if negb (offset <? blen raw) then Returns (Ok tt, records)
      else match replay_operation raw offset records with
      | Panics => Panics
      | Returns None => Returns (Ok tt, records)
      | Returns (Some (Err e)) => Returns (Err e, records)
      | Returns (Some (Ok (offset, records))) => replay_operations fuel raw offset records
      end
  end.

(** The result, the bytes counted in the journal when it is replayed, and the
    records. *)
Definition replay_journal (journal : option bytes) (records : gmap string bytes) :
    outcome (result Z * gmap string bytes) :=
  match journal with
  | None => Returns (Ok 0, records)
  | Some raw =>
      if negb (starts_with JOURNAL_MAGIC raw) then
        if bool_decide (raw = []) then Returns (Ok 0, records) else Returns (Err CorruptBlock, records)
      else match replay_operations (length raw) raw (blen JOURNAL_MAGIC) records with
      | Panics => Panics
      | Returns (Err e, records) => Returns (Err e, records)
      | Returns (Ok _, records) => Returns (Ok (blen raw), records)
      end
  end.

(** ** Reading the snapshot *)

Definition ok_or {A} (o : option A) : result A := match o with Some x => Ok x | None => Err CorruptBlock end.

Definition read_stored_record (raw : bytes) (offset : Z) : result (string * bytes * Z) :=
  let? key_len := ok_or (get_fixed_uint64 raw offset) in
  let? value_len := ok_or (get_fixed_uint64 raw key_len.2) in
  let offset := value_len.2 in
  let? key_end := ok_or (checked_add offset key_len.1) in
  let? key := ok_or (slice raw offset key_end) in
  if negb (is_utf8 key) then Err CorruptBlock
  else
    let? value_end := ok_or (checked_add key_end value_len.1) in
    let? value := ok_or (slice raw key_end value_end) in
    Ok (String.string_of_list_byte key, value, value_end).
(** [for _ in 0..count]; a record takes sixteen bytes at least, so the fuel
    is the length of the file. *)
Fixpoint read_records (fuel : nat) (count : Z) (raw : bytes) (offset : Z) (records : gmap string bytes) :
    result (Z * gmap string bytes) :=
  if count <=? 0 then Ok (offset, records)
  else match fuel with
  | O => Err CorruptBlock
  | S fuel =>
      let? r := read_stored_record raw offset in
      let '(key, value, offset) := r in
      read_records fuel (count - 1) raw offset (<[key := value]> records)
  end.
(** The map reserved for the count the snapshot claims is not modelled: a count
    no snapshot the store wrote can carry may end the process there, before the
    records found missing are answered as corruption. *)
Definition decode_store (raw : bytes) : result (gmap string bytes) :=
  if (blen raw <? blen STORE_MAGIC) || negb (starts_with STORE_MAGIC raw) then Err CorruptBlock
  else
    let? count := ok_or (get_fixed_uint64 raw (blen STORE_MAGIC)) in
    let? r := read_records (length raw) count.1 raw count.2 ∅ in
    if negb (r.1 =? blen raw) then Err CorruptBlock else Ok r.2.

(** ** The engine *)

Record StorageEngineRocksDb := mkEngine {
  re_initialized : bool;
  re_records : gmap string bytes;
  re_journal_bytes : Z;
  re_journal_file : bool;
  re_snapshot_bytes : Z;
  re_recover_finished : bool;
  re_capacity : Z }.

(** An operation threads the engine and the disk. *)
Record Store := mkStore { st_engine : StorageEngineRocksDb; st_disk : Disk }.

Section engine.
Implicit Types (e : StorageEngineRocksDb) (s : Store).

Definition new_file_engine : StorageEngineRocksDb := mkEngine false ∅ 0 false 0 false u64_max.
(** A clone opens a journal handle of its own. *)
Definition clone_engine e : StorageEngineRocksDb :=
  mkEngine (re_initialized e) (re_records e) (re_journal_bytes e) false (re_snapshot_bytes e) (re_recover_finished e) (re_capacity e).

Definition set_records (m : gmap string bytes) e : StorageEngineRocksDb :=
  mkEngine (re_initialized e) m (re_journal_bytes e) (re_journal_file e) (re_snapshot_bytes e) (re_recover_finished e) (re_capacity e).
Definition set_initialized (b : bool) e : StorageEngineRocksDb :=
  mkEngine b (re_records e) (re_journal_bytes e) (re_journal_file e) (re_snapshot_bytes e) (re_recover_finished e) (re_capacity e).
Definition set_recover_finished (b : bool) e : StorageEngineRocksDb :=
  mkEngine (re_initialized e) (re_records e) (re_journal_bytes e) (re_journal_file e) (re_snapshot_bytes e) b (re_capacity e).
Definition set_snapshot_bytes (n : Z) e : StorageEngineRocksDb :=
  mkEngine (re_initialized e) (re_records e) (re_journal_bytes e) (re_journal_file e) n (re_recover_finished e) (re_capacity e).
Definition set_journal_bytes (n : Z) e : StorageEngineRocksDb :=
  mkEngine (re_initialized e) (re_records e) n (re_journal_file e) (re_snapshot_bytes e) (re_recover_finished e) (re_capacity e).
Definition set_journal_file (b : bool) e : StorageEngineRocksDb :=
  mkEngine (re_initialized e) (re_records e) (re_journal_bytes e) b (re_snapshot_bytes e) (re_recover_finished e) (re_capacity e).
Definition engine_set_capacity (n : Z) e : StorageEngineRocksDb :=
  mkEngine (re_initialized e) (re_records e) (re_journal_bytes e) (re_journal_file e) (re_snapshot_bytes e) (re_recover_finished e) n.

Definition on_engine (f : StorageEngineRocksDb -> StorageEngineRocksDb) s : Store := mkStore (f (st_engine s)) (st_disk s).
Definition on_disk (w : disk_write) s : Store := mkStore (st_engine s) (write_disk w (st_disk s)).

(** *** The journal and the snapshot *)

Definition open_journal s : Store :=
  if re_journal_file (st_engine s) then s
  else
    let s := on_disk CreateJournal s in
    let s := if bool_decide (dir_journal (dk_dir (st_disk s)) = Some []) then on_disk (AppendJournal JOURNAL_MAGIC) s else s in
    on_engine (set_journal_file true) s.
Definition append_journal_bytes (record : bytes) s : Store :=
  let s := on_disk (AppendJournal record) (open_journal s) in
  on_engine (fun e => set_journal_bytes (re_journal_bytes e +! blen record) e) s.

Definition persist_records s : Store :=
  let raw := encode_store (re_records (st_engine s)) in
  let s := on_disk (ReplaceStore raw) s in
  let s := on_engine (set_snapshot_bytes (blen raw)) s in
  let s := on_engine (set_journal_file false) s in
  let s := on_disk RemoveJournal s in
  on_engine (set_journal_bytes 0) s.
Definition compact_journal_if_needed s : Store :=
  let e := st_engine s in
  if Z.max (re_snapshot_bytes e) JOURNAL_COMPACTION_FLOOR_BYTES <? re_journal_bytes e then persist_records s else s.
Definition append_journal_record (record : bytes) s : Store := compact_journal_if_needed (append_journal_bytes record s).
Definition journal_change (key : string) (value : option bytes) s : Store :=
  append_journal_record (encode_journal_change key value) s.

(** The result, and the engine whose records were read. *)
Definition load_records s : outcome (result unit * Store) :=
  let d := dk_dir (st_disk s) in
  let replay (s : Store) := match replay_journal (dir_journal d) (re_records (st_engine s)) with
    | Panics => Panics
    | Returns (Err e, records) => Returns (Err e, on_engine (set_records records) s)
    | Returns (Ok n, records) => Returns (Ok tt, on_engine (fun e => set_journal_bytes n (set_records records e)) s)
    end in
  match dir_store d with
  | None => replay (on_engine (fun e => set_snapshot_bytes 0 (set_records ∅ e)) s)
  | Some raw =>
      let s := on_engine (set_snapshot_bytes (blen raw)) s in
      match decode_store raw with
      | Err e => Returns (Err e, s)
      | Ok records => replay (on_engine (set_records records) s)
      end
  end.

(** *** Operations *)

Definition store_start s : outcome (bool * Store) :=
  if dir_is_file (dk_dir (st_disk s)) then Returns (false, s)
  else match load_records s with
  | Panics => Panics
  | Returns (Err _, s) => Returns (false, s)
  | Returns (Ok _, s) => Returns (true, on_engine (fun e => set_recover_finished false (set_initialized true e)) s)
  end.
Definition store_stop s : bool * Store :=
  let s := if re_initialized (st_engine s) then persist_records s else s in
  (true, on_engine (set_initialized false) s).

Definition insert_journaled (key : string) (value : bytes) s : Store :=
  let s := on_engine (fun e => set_records (<[key := value]> (re_records e)) e) s in
  append_journal_record (encode_journal_change key (Some value)) s.
(** The view has the key and the size of the value. *)
Definition put_view (key : string) (value : bytes) s : result (string * Z) * Store :=
  if negb (re_initialized (st_engine s)) then (Err Stopped, s)
  else (Ok (key, blen value), insert_journaled key value s).
Definition store_put (key : string) (value : bytes) s : result CacheBuffer * Store :=
  match put_view key value s with (Err e, s) => (Err e, s) | (Ok _, s) => (Ok (mkBuffer key value), s) end.
Definition get_owned (key : string) s : result bytes :=
  if negb (re_initialized (st_engine s)) then Err Stopped
  else match re_records (st_engine s) !! key with Some v => Ok v | None => Err NotFound end.
Definition store_get (key : string) s : result CacheBuffer := let? v := get_owned key s in Ok (mkBuffer key v).
Definition store_peek (key : string) s : bool :=
  if negb (re_initialized (st_engine s)) then false else bool_decide (is_Some (re_records (st_engine s) !! key)).
Definition store_delete (key : string) s : result unit * Store :=
  if negb (re_initialized (st_engine s)) then (Err Stopped, s)
  else match re_records (st_engine s) !! key with
  | None => (Err NotFound, s)
  | Some _ => (Ok tt, journal_change key None (on_engine (fun e => set_records (delete key (re_records e)) e) s))
  end.
Definition store_reset s : result unit * Store :=
  if negb (re_initialized (st_engine s)) then (Err Stopped, s)
  else (Ok tt, persist_records (on_engine (fun e => set_recover_finished false (set_records ∅ e)) s)).

(** *** Batches *)

Definition get_unique_batch (keys : list string) s : result (list (option bytes)) :=
  if negb (re_initialized (st_engine s)) then Err Stopped
  else Ok ((fun key => re_records (st_engine s) !! key) <$> keys).
Definition get_batch (keys : list string) s : outcome (result (list (option bytes))) :=
  if negb (re_initialized (st_engine s)) then Returns (Err Stopped)
  else if bool_decide (keys = []) then Returns (Ok [])
  else
    let '(unique_keys, output_positions) := coalesce_storage_batch_key_refs keys in
    let unique_values := (fun key => re_records (st_engine s) !! key) <$> unique_keys in
    match expand_storage_batch_values unique_values output_positions with
    | None => Panics
    | Some values => Returns (Ok values)
    end.

(** The last value of a key, at the place of its first. *)
Fixpoint coalesce_entries (entries coalesced : list (string * bytes)) (positions : gmap string nat) : list (string * bytes) :=
  match entries with
  | [] => coalesced
  | (key, value) :: entries =>
      match positions !! key with
      | Some p => coalesce_entries entries (<[p := (key, value)]> coalesced) positions
      | None => coalesce_entries entries (coalesced ++ [(key, value)]) (<[key := length coalesced]> positions)
      end
  end.
Definition put_batch (entries : list (string * bytes)) s : result Z * Store :=
  if negb (re_initialized (st_engine s)) then (Err Stopped, s)
  else
    (Ok (Z.of_nat (length entries)),
     foldl (fun s kv => insert_journaled kv.1 kv.2 s) s (coalesce_entries entries [] ∅)).

Definition BUFFER_LIMIT : Z := 64 * 1024.
(** Deletes are gathered into writes of up to [BUFFER_LIMIT] bytes. *)
Definition delete_one (key : string) (st : Z * bytes * Store) : Z * bytes * Store :=
  let '(deleted, journal, s) := st in
  match re_records (st_engine s) !! key with
  | None => (deleted, journal, s)
  | Some _ =>
      let s := on_engine (fun e => set_records (delete key (re_records e)) e) s in
      let size := blen (key_bytes key) +! 9 in
      let '(journal, s) :=
        if negb (bool_decide (journal = [])) && (BUFFER_LIMIT <? blen journal +! size)
        then ([], append_journal_bytes journal s) else (journal, s) in
      if BUFFER_LIMIT <? size then (deleted +! 1, journal, append_journal_bytes (encode_journal_change key None) s)
      else (deleted +! 1, encode_journal_change_into journal key None, s)
  end.
Definition delete_batch (keys : list string) s : result Z * Store :=
  if negb (re_initialized (st_engine s)) then (Err Stopped, s)
  else if bool_decide (keys = []) then (Ok 0, s)
  else
    let '(deleted, journal, s) := foldl (fun st key => delete_one key st) (0, [], s) (coalesce_storage_delete_keys keys) in
    let s := if bool_decide (journal = []) then s else append_journal_bytes journal s in
    (Ok deleted, compact_journal_if_needed s).

(** *** Recovery *)

Definition store_recover_data {S} (cb : string -> CacheBuffer -> S -> S) s (st : S) : result unit * S :=
  if negb (re_initialized (st_engine s)) then (Err Stopped, st)
  else
    let records := re_records (st_engine s) in
    (Ok tt, foldl (fun st key => cb key (mkBuffer key (default [] (records !! key))) st) st (sorted_keys records)).
Definition recover_view_data {S} (cb : string -> string * Z -> S -> S) s (st : S) : result unit * Store * S :=
  if negb (re_initialized (st_engine s)) then (Err Stopped, s, st)
  else
    let records := re_records (st_engine s) in
    (Ok tt, on_engine (set_recover_finished true) s,
     foldl (fun st key => cb key (key, blen (default [] (records !! key))) st) st (sorted_keys records)).
End engine.
