(* ===== verification/FileStoreFacts.v ===== *)
(** * What a journal and a snapshot say

    Replaying a journal applies its operations in order and stops at a torn
    tail; a snapshot reads back as the records it was made of; a journal
    replayed over a snapshot that has it already changes nothing. *)

From Stdlib Require Import Strings.Byte.
From S2P Require Import Prelude BlockCodec SsdRecords Ordering FileStore.

(** ** Changes *)

Abbreviation change := (string * option bytes)%type.
Implicit Types (c : change) (cs : list change) (m : gmap string bytes) (p raw : bytes).

Definition apply_change m c : gmap string bytes := match c.2 with Some v => <[c.1 := v]> m | None => delete c.1 m end.
Definition apply_changes cs m : gmap string bytes := foldl apply_change m cs.
Definition encoded c : bytes := encode_journal_change c.1 c.2.
Definition journal_of cs : bytes := JOURNAL_MAGIC ++ concat (encoded <$> cs).
#[global] Arguments journal_of : simpl never.
#[global] Arguments JOURNAL_MAGIC : simpl never.
#[global] Arguments STORE_MAGIC : simpl never.

(** Keys are Rust strings, and the encoding of a change is a [Vec]. *)
Definition key_ok (k : string) : Prop := is_utf8 (key_bytes k) = true.
Definition change_ok c : Prop := key_ok c.1 /\ vec_ok (encoded c).
Definition changes_ok cs : Prop := Forall change_ok cs.

Lemma encoded_put k v : encoded (k, Some v) = [JOURNAL_PUT] ++ le_bytes 8 (blen (key_bytes k)) ++ le_bytes 8 (blen v) ++ key_bytes k ++ v.
Proof. unfold encoded, encode_journal_change; cbn [fst snd encode_journal_change_into]. unfold put_fixed_uint64. by rewrite <- !app_assoc. Qed.
Lemma encoded_delete k : encoded (k, None) = [JOURNAL_DELETE] ++ le_bytes 8 (blen (key_bytes k)) ++ key_bytes k.
Proof. unfold encoded, encode_journal_change; cbn [fst snd encode_journal_change_into]. unfold put_fixed_uint64. by rewrite <- !app_assoc. Qed.

Lemma encoded_into journal k v : encode_journal_change_into journal k v = journal ++ encoded (k, v).
Proof. destruct v as [v|]; [rewrite encoded_put|rewrite encoded_delete]; cbn; unfold put_fixed_uint64; by rewrite <- !app_assoc. Qed.

Lemma journal_magic_length : length JOURNAL_MAGIC = 31%nat.
Proof. reflexivity. Qed.

Lemma le8_length z : blen (le_bytes 8 z) = 8.
Proof. unfold blen. by rewrite le_bytes_length. Qed.

Lemma tag_length (t : Byte.byte) : blen [t] = 1.
Proof. done. Qed.

Lemma encoded_length c : blen (encoded c) = 9 + blen (key_bytes c.1) + match c.2 with Some v => 8 + blen v | None => 0 end.
Proof.
  destruct c as [k [v|]]; [rewrite encoded_put|rewrite encoded_delete]; rewrite !blen_app, !le8_length, tag_length; cbn [fst snd]; lia.
Qed.

Lemma encoded_nonempty c : encoded c <> [].
Proof. intros E. apply (f_equal blen) in E. rewrite encoded_length in E. pose proof (blen_nonneg (key_bytes c.1)). destruct c.2 as [v|]; [pose proof (blen_nonneg v)|]; change (blen []) with 0 in E; lia. Qed.

Lemma tag_at p t r : byte_at (p ++ t :: r) (Z.to_nat (blen p)) = t.
Proof. unfold byte_at, blen. rewrite Nat2Z.id. by rewrite list_lookup_middle. Qed.

Lemma blen_u64 v : vec_ok v -> 0 <= blen v < 2 ^ 64.
Proof. unfold vec_ok. pose proof (blen_nonneg v). lia. Qed.

(** ** One operation *)

Lemma u64_after src p q r z : vec_ok src -> src = (p ++ q) ++ le_bytes 8 z ++ r -> 0 <= z < 2 ^ 64 ->
  get_fixed_uint64 src (blen p + blen q) = Some (z, blen p + blen q + 8).
Proof. intros Hv E Hz. rewrite <- blen_app. by apply (u64_at src (p ++ q) r Hv z). Qed.

Lemma u64_short src offset : blen src < offset + 8 -> get_fixed_uint64 src offset = None.
Proof.
  intros H. unfold get_fixed_uint64, checked_add. destruct (_ <=? _); [|done]. cbn. unfold slice.
  by rewrite (proj2 (Z.leb_gt (offset + 8) _)), andb_false_r.
Qed.

Lemma vec_ok_app_r v w : vec_ok (v ++ w) -> vec_ok w.
Proof. unfold vec_ok. rewrite blen_app. pose proof (blen_nonneg v). lia. Qed.
Lemma vec_ok_app_l v w : vec_ok (v ++ w) -> vec_ok v.
Proof. unfold vec_ok. rewrite blen_app. pose proof (blen_nonneg w). lia. Qed.

(** Where an operation's fields are, whole or cut: the header of an operation
    followed by anything. *)
Lemma read_put raw p k n r : vec_ok raw -> 0 <= n < 2 ^ 64 -> blen (key_bytes k) < 2 ^ 63 ->
  raw = p ++ [JOURNAL_PUT] ++ le_bytes 8 (blen (key_bytes k)) ++ le_bytes 8 n ++ r ->
  read_operation raw (blen p) = Some (Ok (JOURNAL_PUT, blen (key_bytes k), n, blen p + 17)).
Proof.
  intros Hv Hn Hk E. unfold read_operation.
  assert (byte_at raw (Z.to_nat (blen p)) = JOURNAL_PUT) as -> by (rewrite E; apply tag_at).
  pose proof (blen_nonneg (key_bytes k)). change (blen p + 1) with (blen p + blen [JOURNAL_PUT]).
  rewrite (u64_after raw p [JOURNAL_PUT] (le_bytes 8 n ++ r) (blen (key_bytes k)) Hv); [|rewrite E; by rewrite <- !app_assoc|lia].
  cbn [mbind option_bind]. rewrite bool_decide_eq_true_2 by done.
  pose proof (u64_after raw p ([JOURNAL_PUT] ++ le_bytes 8 (blen (key_bytes k))) r n Hv) as H9.
  rewrite !blen_app, le8_length in H9. rewrite tag_length in *. rewrite Z.add_assoc in H9. rewrite H9; [|rewrite E; by rewrite <- !app_assoc|done].
  cbn [mbind option_bind]. do 3 f_equal. lia.
Qed.

Lemma read_delete raw p k r : vec_ok raw -> blen (key_bytes k) < 2 ^ 63 ->
  raw = p ++ [JOURNAL_DELETE] ++ le_bytes 8 (blen (key_bytes k)) ++ r ->
  read_operation raw (blen p) = Some (Ok (JOURNAL_DELETE, blen (key_bytes k), 0, blen p + 9)).
Proof.
  intros Hv Hk E. unfold read_operation.
  assert (byte_at raw (Z.to_nat (blen p)) = JOURNAL_DELETE) as -> by (rewrite E; apply tag_at).
  pose proof (blen_nonneg (key_bytes k)). change (blen p + 1) with (blen p + blen [JOURNAL_DELETE]).
  rewrite (u64_after raw p [JOURNAL_DELETE] r (blen (key_bytes k)) Hv); [|rewrite E; by rewrite <- !app_assoc|lia].
  cbn [mbind option_bind]. rewrite bool_decide_eq_false_2, bool_decide_eq_true_2 by done. do 3 f_equal. rewrite tag_length. lia.
Qed.

Lemma slice_at src p q v r off to : src = (p ++ q) ++ v ++ r -> off = blen p + blen q -> to = off + blen v -> slice src off to = Some v.
Proof. intros -> -> ->. rewrite <- blen_app. apply slice_app. Qed.

Lemma key_back k : String.string_of_list_byte (key_bytes k) = k.
Proof. apply String.string_of_list_byte_of_string. Qed.

(** An operation is read and applied. *)
Lemma replay_one raw p c r m : vec_ok raw -> raw = p ++ encoded c ++ r -> key_ok c.1 ->
  replay_operation raw (blen p) m = Returns (Some (Ok (blen p + blen (encoded c), apply_change m c))).
Proof.
  intros Hv E Hk. pose proof Hv as Hl. unfold vec_ok in Hl. rewrite E, !blen_app, encoded_length in Hl.
  pose proof (blen_nonneg p). pose proof (blen_nonneg r). pose proof (blen_nonneg (key_bytes c.1)).
  assert (blen raw = blen p + blen (encoded c) + blen r) as Er by (rewrite E, !blen_app; lia). rewrite encoded_length in Er.
  unfold replay_operation. rewrite encoded_length. destruct c as [k [v|]]; cbn [fst snd] in *.
  - pose proof (blen_nonneg v). rewrite encoded_put in E.
    rewrite (read_put raw p k (blen v) (key_bytes k ++ v ++ r)) by (try lia; try done; rewrite E; by rewrite <- !app_assoc).
    rewrite !(wrap64_small (blen p + 17 + _)), wrap64_small by lia. rewrite (proj2 (Z.ltb_ge _ _)) by lia.
    rewrite (slice_at raw p ([JOURNAL_PUT] ++ le_bytes 8 (blen (key_bytes k)) ++ le_bytes 8 (blen v)) (key_bytes k) (v ++ r));
      [|rewrite E; by rewrite <- !app_assoc|rewrite !blen_app, !le8_length, tag_length; lia|done].
    rewrite Hk. cbn [negb]. rewrite bool_decide_eq_true_2 by done.
    rewrite (slice_at raw p ([JOURNAL_PUT] ++ le_bytes 8 (blen (key_bytes k)) ++ le_bytes 8 (blen v) ++ key_bytes k) v r);
      [|rewrite E; by rewrite <- !app_assoc|rewrite !blen_app, !le8_length, tag_length; lia|done].
    rewrite key_back. unfold apply_change; cbn. do 4 f_equal. lia.
  - rewrite encoded_delete in E.
    rewrite (read_delete raw p k (key_bytes k ++ r)) by (try lia; try done; rewrite E; by rewrite <- !app_assoc).
    rewrite !(wrap64_small (blen p + 9 + _)), wrap64_small by lia. rewrite (proj2 (Z.ltb_ge _ _)) by lia.
    rewrite (slice_at raw p ([JOURNAL_DELETE] ++ le_bytes 8 (blen (key_bytes k))) (key_bytes k) r);
      [|rewrite E; by rewrite <- !app_assoc|rewrite !blen_app, !le8_length, tag_length; lia|done].
    rewrite Hk. cbn [negb]. rewrite bool_decide_eq_false_2 by done. rewrite key_back. unfold apply_change; cbn. do 4 f_equal. lia.
Qed.

(** ** A torn tail *)

Lemma take_past (u v : bytes) n : (length u <= n)%nat -> take n (u ++ v) = u ++ take (n - length u) v.
Proof. intros. rewrite take_app. by rewrite take_ge. Qed.

Lemma blen_take_le n (v : bytes) : blen (take n v) <= Z.of_nat n.
Proof. unfold blen. rewrite length_take. lia. Qed.

Lemma replay_beyond raw offset m tag kl vl off : read_operation raw offset = Some (Ok (tag, kl, vl, off)) ->
  0 <= off -> 0 <= kl -> 0 <= vl -> off + kl + vl < 2 ^ 64 -> blen raw < off + kl + vl -> replay_operation raw offset m = Returns None.
Proof.
  intros R H1 H2 H3 H4 H5. unfold replay_operation. rewrite R, !(wrap64_small (off + kl)), wrap64_small by lia.
  by rewrite (proj2 (Z.ltb_lt _ _)).
Qed.

Lemma replay_short raw offset m : read_operation raw offset = None -> replay_operation raw offset m = Returns None.
Proof. intros R. unfold replay_operation. by rewrite R. Qed.

Section torn.
Context (raw p : bytes) (m : gmap string bytes) (Hv : vec_ok raw).

Lemma torn_delete k n : raw = p ++ take n (encoded (k, None)) -> vec_ok (encoded (k, None)) ->
  (n < length (encoded (k, None)))%nat -> replay_operation raw (blen p) m = Returns None.
Proof using Hv.
  intros E He Hn. assert (blen raw <= blen p + Z.of_nat n) as Er by (rewrite E, blen_app; pose proof (blen_take_le n (encoded (k, None))); lia).
  assert (Z.of_nat n < blen (encoded (k, None))) as Hn' by (unfold blen; lia).
  rewrite encoded_length in Hn'. unfold vec_ok in He. rewrite encoded_length in He. cbn [fst snd] in *.
  pose proof (blen_nonneg p). pose proof (blen_nonneg (key_bytes k)). pose proof Hv as Hp. rewrite E in Hp. apply vec_ok_app_l in Hp. unfold vec_ok in Hp.
  destruct (decide (n < 9)%nat) as [H9|H9].
  { apply replay_short. unfold read_operation. by rewrite u64_short by lia. }
  rewrite encoded_delete, take_past, take_past in E by (rewrite ?le_bytes_length; cbn; lia).
  eapply replay_beyond; [exact (read_delete raw p k _ Hv ltac:(lia) E)|lia..].
Qed.

Lemma torn_put k v n : raw = p ++ take n (encoded (k, Some v)) -> vec_ok (encoded (k, Some v)) ->
  (n < length (encoded (k, Some v)))%nat -> replay_operation raw (blen p) m = Returns None.
Proof using Hv.
  intros E He Hn. assert (blen raw <= blen p + Z.of_nat n) as Er by (rewrite E, blen_app; pose proof (blen_take_le n (encoded (k, Some v))); lia).
  assert (Z.of_nat n < blen (encoded (k, Some v))) as Hn' by (unfold blen; lia).
  rewrite encoded_length in Hn'. unfold vec_ok in He. rewrite encoded_length in He. cbn [fst snd] in *.
  pose proof (blen_nonneg p). pose proof (blen_nonneg v). pose proof (blen_nonneg (key_bytes k)).
  pose proof Hv as Hp. rewrite E in Hp. apply vec_ok_app_l in Hp. unfold vec_ok in Hp.
  destruct (decide (n < 9)%nat) as [H9|H9].
  { apply replay_short. unfold read_operation. by rewrite u64_short by lia. }
  rewrite encoded_put, take_past, take_past in E by (rewrite ?le_bytes_length; cbn; lia).
  destruct (decide (n < 17)%nat) as [H17|H17].
  - apply replay_short. unfold read_operation.
    assert (byte_at raw (Z.to_nat (blen p)) = JOURNAL_PUT) as -> by (rewrite E; apply tag_at).
    change (blen p + 1) with (blen p + blen [JOURNAL_PUT]).
    erewrite (u64_after raw p [JOURNAL_PUT] _ (blen (key_bytes k)) Hv); [|rewrite E; by rewrite <- !app_assoc|lia].
    cbn [mbind option_bind]. rewrite bool_decide_eq_true_2 by done. by rewrite tag_length, u64_short by lia.
  - rewrite take_past in E by (rewrite ?le_bytes_length; cbn; lia).
    eapply replay_beyond; [exact (read_put raw p k (blen v) _ Hv ltac:(lia) ltac:(lia) E)|lia..].
Qed.

(** A cut operation ends the loop. *)
Lemma replay_torn c n : raw = p ++ take n (encoded c) -> vec_ok (encoded c) -> (n < length (encoded c))%nat ->
  replay_operation raw (blen p) m = Returns None.
Proof using Hv. destruct c as [k [v|]]; [apply torn_put|apply torn_delete]. Qed.
End torn.

(** ** A whole journal *)

(** What may follow the operations: nothing, or a cut one. *)
Definition torn_tail (v : bytes) : Prop := exists c n, v = take n (encoded c) /\ vec_ok (encoded c) /\ (n < length (encoded c))%nat.

Lemma torn_nil : torn_tail [].
Proof.
  exists ("", None), 0%nat. split; [done|split]; [done|]. pose proof (encoded_nonempty ("", None)). destruct (encoded _); [done|cbn; lia].
Qed.

Lemma replay_many fuel raw p cs t m : vec_ok raw -> raw = p ++ concat (encoded <$> cs) ++ t -> torn_tail t -> changes_ok cs ->
  (length cs < fuel)%nat -> replay_operations fuel raw (blen p) m = Returns (Ok tt, apply_changes cs m).
Proof.
  intros Hv E Ht Hcs. revert fuel p m E. induction Hcs as [|c cs Hc Hcs IH]; intros fuel p m E Hf; (destruct fuel as [|fuel]; [cbn in Hf; lia|]);
    cbn [replay_operations].
  - destruct (blen p <? blen raw) eqn:El; [|done]. cbn [negb]. cbn in E. destruct Ht as (c & n & -> & He & Hn).
    by rewrite (replay_torn raw p m Hv c n E He Hn).
  - cbn [fmap list_fmap concat] in E. rewrite <- app_assoc in E. pose proof (encoded_length c). pose proof (blen_nonneg (key_bytes c.1)).
    assert (0 < blen (encoded c)) as Hpos by (rewrite encoded_length; destruct c.2 as [v|]; [pose proof (blen_nonneg v)|]; lia).
    rewrite (proj2 (Z.ltb_lt _ _)).
    2: { rewrite E, !blen_app. pose proof (blen_nonneg (concat (encoded <$> cs))). pose proof (blen_nonneg t). lia. }
    cbn [negb]. rewrite (replay_one raw p c _ m Hv E (proj1 Hc)). rewrite <- blen_app. cbn [apply_changes foldl].
    apply IH; [by rewrite E, <- !app_assoc|cbn in Hf; lia].
Qed.

Lemma concat_length_le cs : (length cs <= length (concat (encoded <$> cs)))%nat.
Proof.
  induction cs as [|c cs IH]; [done|]. cbn. rewrite length_app. pose proof (encoded_nonempty c). destruct (encoded c); [done|]. cbn. lia.
Qed.

(** A journal of whole operations, perhaps with a torn tail, replays as the
    operations. *)
Lemma replay_journal_of cs t m : vec_ok (journal_of cs ++ t) -> torn_tail t -> changes_ok cs ->
  replay_journal (Some (journal_of cs ++ t)) m = Returns (Ok (blen (journal_of cs ++ t)), apply_changes cs m).
Proof.
  intros Hv Ht Hcs. unfold replay_journal, journal_of in *. rewrite <- app_assoc in *.
  assert (starts_with JOURNAL_MAGIC (JOURNAL_MAGIC ++ concat (encoded <$> cs) ++ t) = true) as -> by (apply bool_decide_eq_true_2, take_app_length).
  cbn [negb]. rewrite (replay_many _ _ JOURNAL_MAGIC cs t) by (try done; rewrite !length_app, journal_magic_length; pose proof (concat_length_le cs); lia). done.
Qed.

(** ** Changes twice over *)

Lemma apply_change_lookup m c k : apply_change m c !! k = if decide (c.1 = k) then c.2 else m !! k.
Proof.
  unfold apply_change. destruct c as [k' [v|]]; cbn; case_decide as H; subst;
    by rewrite ?lookup_insert_eq, ?lookup_delete_eq, ?lookup_insert_ne, ?lookup_delete_ne.
Qed.

Lemma apply_changes_app cs cs' m : apply_changes (cs ++ cs') m = apply_changes cs' (apply_changes cs m).
Proof. apply foldl_app. Qed.

(** The last change of a key decides; a key that none changes stays. *)
Definition last_change cs (k : string) : option (option bytes) := foldl (fun acc c => if decide (c.1 = k) then Some c.2 else acc) None cs.

Lemma apply_changes_lookup cs m k : apply_changes cs m !! k = match last_change cs k with Some o => o | None => m !! k end.
Proof.
  induction cs as [|c cs IH] using rev_ind; [done|]. rewrite apply_changes_app. cbn. rewrite apply_change_lookup.
  unfold last_change in *. rewrite foldl_app. cbn. by case_decide.
Qed.

(** Replaying a journal over a snapshot taken after it changes nothing. *)
Lemma apply_changes_twice cs m : apply_changes cs (apply_changes cs m) = apply_changes cs m.
Proof. apply map_eq. intros k. rewrite !apply_changes_lookup. by destruct (last_change cs k). Qed.

(** ** The snapshot *)

Definition records_ok m : Prop := map_Forall (fun k _ => key_ok k) m.

Definition record_bytes (kv : string * bytes) : bytes :=
  le_bytes 8 (blen (key_bytes kv.1)) ++ le_bytes 8 (blen kv.2) ++ key_bytes kv.1 ++ kv.2.

Lemma record_bytes_length kv : blen (record_bytes kv) = 16 + blen (key_bytes kv.1) + blen kv.2.
Proof. unfold record_bytes. rewrite !blen_app, !le8_length. lia. Qed.

Lemma read_stored_record_at raw p kv r : vec_ok raw -> raw = p ++ record_bytes kv ++ r -> key_ok kv.1 ->
  read_stored_record raw (blen p) = Ok (kv.1, kv.2, blen p + blen (record_bytes kv)).
Proof.
  intros Hv E Hk. pose proof Hv as Hl. unfold vec_ok in Hl. rewrite E, !blen_app, record_bytes_length in Hl.
  destruct kv as [k v]. cbn [fst snd] in *. pose proof (blen_nonneg p). pose proof (blen_nonneg r).
  pose proof (blen_nonneg (key_bytes k)). pose proof (blen_nonneg v). rewrite record_bytes_length. unfold record_bytes in E. cbn [fst snd] in *.
  unfold read_stored_record. pose proof (u64_after raw p [] (le_bytes 8 (blen v) ++ key_bytes k ++ v ++ r) (blen (key_bytes k)) Hv) as Hkl.
  change (blen []) with 0 in Hkl. rewrite Z.add_0_r in Hkl. rewrite Hkl; [|rewrite E, app_nil_r; by rewrite <- !app_assoc|lia]. cbn [ok_or result_bind fst snd].
  pose proof (u64_after raw p (le_bytes 8 (blen (key_bytes k))) (key_bytes k ++ v ++ r) (blen v) Hv) as Hvl. rewrite le8_length in Hvl.
  rewrite Hvl; [|rewrite E; by rewrite <- !app_assoc|lia]. cbn [ok_or result_bind fst snd].
  rewrite !checked_add_ok by (unfold u64_max; lia). cbn [ok_or result_bind fst snd].
  rewrite (slice_at raw p (le_bytes 8 (blen (key_bytes k)) ++ le_bytes 8 (blen v)) (key_bytes k) (v ++ r));
    [|rewrite E; by rewrite <- !app_assoc|rewrite blen_app, !le8_length; lia|done].
  cbn [ok_or result_bind]. rewrite Hk. cbn [negb].
  rewrite checked_add_ok by (unfold u64_max; lia). cbn [ok_or result_bind].
  rewrite (slice_at raw p (le_bytes 8 (blen (key_bytes k)) ++ le_bytes 8 (blen v) ++ key_bytes k) v r);
    [|rewrite E; by rewrite <- !app_assoc|rewrite !blen_app, !le8_length; lia|done].
  cbn [ok_or result_bind]. rewrite key_back. do 2 f_equal. lia.
Qed.

Definition insert_records (kvs : list (string * bytes)) m : gmap string bytes := foldl (fun m kv => <[kv.1 := kv.2]> m) m kvs.

Lemma read_records_at fuel raw p kvs m : vec_ok raw -> raw = p ++ concat (record_bytes <$> kvs) ->
  Forall (fun kv => key_ok kv.1) kvs -> (length kvs <= fuel)%nat ->
  read_records fuel (Z.of_nat (length kvs)) raw (blen p) m = Ok (blen raw, insert_records kvs m).
Proof.
  intros Hv E Hk. revert fuel p m E. induction Hk as [|kv kvs Hk Hks IH]; intros fuel p m E Hf; cbn [length] in *.
  - destruct fuel; cbn; cbn in E; rewrite app_nil_r in E; by subst raw.
  - destruct fuel as [|fuel]; [lia|]. cbn [read_records]. rewrite (proj2 (Z.leb_gt _ _)) by lia.
    cbn [fmap list_fmap concat] in E. rewrite (read_stored_record_at raw p kv (concat (record_bytes <$> kvs))) by done.
    cbn [result_bind]. rewrite <- blen_app. replace (Z.of_nat (S (length kvs)) - 1) with (Z.of_nat (length kvs)) by lia.
    cbn [insert_records foldl]. apply IH; [by rewrite <- app_assoc|lia].
Qed.

(** The records of the map in the order of their keys. *)
Definition sorted_records m : list (string * bytes) := (fun k => (k, default [] (m !! k))) <$> sorted_keys m.

Lemma encode_store_eq m : encode_store m = (STORE_MAGIC ++ le_bytes 8 (Z.of_nat (size m))) ++ concat (record_bytes <$> sorted_records m).
Proof.
  unfold encode_store, sorted_records. change (put_fixed_uint64 STORE_MAGIC (Z.of_nat (size m))) with (STORE_MAGIC ++ le_bytes 8 (Z.of_nat (size m))).
  generalize (STORE_MAGIC ++ le_bytes 8 (Z.of_nat (size m))). induction (sorted_keys m) as [|k ks IH]; intros raw; [by rewrite app_nil_r|].
  cbn [foldl fmap list_fmap concat]. rewrite IH. unfold encode_record, put_fixed_uint64, record_bytes. cbn [fst snd]. by rewrite <- !app_assoc.
Qed.

Lemma insert_records_lookup ks m acc k : insert_records ((fun k => (k, default [] (m !! k))) <$> ks) acc !! k =
  if decide (k ∈ ks) then Some (default [] (m !! k)) else acc !! k.
Proof.
  revert acc. induction ks as [|k' ks IH]; intros acc; cbn [fmap list_fmap insert_records foldl].
  - rewrite decide_False by apply not_elem_of_nil. done.
  - unfold insert_records in IH. rewrite IH. cbn [fst snd]. destruct (decide (k = k')) as [->|Hne].
    + rewrite lookup_insert_eq, (decide_True (P := k' ∈ k' :: ks)) by apply list_elem_of_here. by case_decide.
    + rewrite lookup_insert_ne by done. do 2 case_decide; rewrite ?elem_of_cons in *; naive_solver.
Qed.

Lemma insert_sorted_records m : insert_records (sorted_records m) ∅ = m.
Proof.
  apply map_eq. intros k. unfold sorted_records. rewrite insert_records_lookup. case_decide as H; rewrite sorted_keys_elem in H.
  - destruct H as [v ->]. done.
  - rewrite lookup_empty. symmetry. by apply eq_None_not_Some.
Qed.

(** A snapshot reads back. *)
Lemma decode_encode_store m : records_ok m -> vec_ok (encode_store m) -> decode_store (encode_store m) = Ok m.
Proof.
  intros Hm Hv. unfold decode_store. rewrite encode_store_eq in *. set (raw := (_ ++ _) ++ _) in *.
  assert (length (sorted_records m) = size m) as Hsz by (unfold sorted_records; rewrite length_fmap; apply sorted_keys_length).
  assert (Z.of_nat (length (sorted_records m)) <= blen (concat (record_bytes <$> sorted_records m))) as Hcount.
  { generalize (sorted_records m). intros l. induction l as [|kv l IH]; [done|]. cbn [fmap list_fmap concat]. rewrite blen_app, record_bytes_length.
    pose proof (blen_nonneg (key_bytes kv.1)). pose proof (blen_nonneg kv.2). cbn [length]. lia. }
  assert (blen raw = blen STORE_MAGIC + 8 + blen (concat (record_bytes <$> sorted_records m))) as Hl
    by (unfold raw; rewrite (blen_app (_ ++ _)), (blen_app STORE_MAGIC), le8_length; lia).
  pose proof (blen_nonneg (concat (record_bytes <$> sorted_records m))). rewrite (proj2 (Z.ltb_ge _ _)) by lia.
  assert (starts_with STORE_MAGIC raw = true) as -> by (apply bool_decide_eq_true_2; unfold raw; rewrite <- app_assoc; apply take_app_length).
  cbn [orb negb]. unfold vec_ok in Hv.
  pose proof (blen_nonneg STORE_MAGIC).
  pose proof (u64_after raw STORE_MAGIC [] (concat (record_bytes <$> sorted_records m)) (Z.of_nat (size m))) as Hc.
  change (blen []) with 0 in Hc. rewrite Z.add_0_r in Hc. rewrite Hc; [|done|unfold raw; by rewrite app_nil_r, <- !app_assoc|lia].
  cbn [ok_or result_bind fst snd].
  replace (blen STORE_MAGIC + 8) with (blen (STORE_MAGIC ++ le_bytes 8 (Z.of_nat (size m)))) by (rewrite blen_app, le8_length; lia).
  rewrite <- Hsz. rewrite (read_records_at _ raw _ (sorted_records m)); [| done | unfold raw; by rewrite <- Hsz | |unfold blen in *; lia].
  - cbn [result_bind fst snd]. rewrite Z.eqb_refl. cbn [negb]. by rewrite insert_sorted_records.
  - apply Forall_forall. intros kv (k & -> & Hk)%list_elem_of_fmap. cbn. apply sorted_keys_elem in Hk as [v Hk]. exact (Hm k v Hk).
Qed.
