(* ===== verification/FileStoreDisk.v ===== *)
(** * What a crash leaves of a store's files

    An image of a directory is a snapshot and a journal that may end in a torn
    tail; starting on one reads its map back.  Writing changes down leaves, at
    every point, an image of the map with the first few of them. *)

From Stdlib Require Import Strings.Byte.
From S2P Require Import Prelude BlockCodec SsdRecords Ordering MemStorage FileStore FileStoreFacts.

Implicit Types (c : change) (cs ds : list change) (m M B : gmap string bytes) (d : Directory) (s : Store).

(** ** What is on disk *)

(** A snapshot of [B], and a journal of [cs] that may end in a torn tail. *)
Record image d B cs (t : bytes) : Prop := {
  im_dir : dir_is_file d = false;
  im_store : (dir_store d = None /\ B = ∅) \/ dir_store d = Some (encode_store B);
  im_records : records_ok B;
  im_changes : changes_ok cs;
  im_tail : torn_tail t;
  im_journal : (cs = [] /\ t = [] /\ (dir_journal d = None \/ dir_journal d = Some [])) \/ dir_journal d = Some (journal_of cs ++ t) }.

Definition small d : Prop := (forall v, dir_store d = Some v -> vec_ok v) /\ (forall v, dir_journal d = Some v -> vec_ok v).

Lemma records_ok_apply cs m : records_ok m -> changes_ok cs -> records_ok (apply_changes cs m).
Proof.
  intros Hm Hcs. revert m Hm. induction Hcs as [|c cs Hc Hcs IH]; intros m Hm; [done|]. cbn. apply IH.
  intros k v. rewrite apply_change_lookup. case_decide as E; [intros _; subst k; apply Hc|apply Hm].
Qed.

Lemma image_records_ok d B cs t : image d B cs t -> records_ok (apply_changes cs B).
Proof. intros I. apply records_ok_apply; apply I. Qed.

(** Starting on such a directory reads the map back. *)
Lemma start_reads e dk B cs t : image (dk_dir dk) B cs t -> small (dk_dir dk) ->
  exists e', store_start (mkStore e dk) = Returns (true, mkStore e' dk) /\
    re_initialized e' = true /\ re_records e' = apply_changes cs B /\ re_journal_file e' = re_journal_file e.
Proof.
  intros [Hd Hs HB Hcs Ht Hj] [Hs1 Hs2]. unfold store_start. cbn [st_disk]. rewrite Hd. unfold load_records. cbn [st_disk st_engine].
  assert (exists n, replay_journal (dir_journal (dk_dir dk)) B = Returns (Ok n, apply_changes cs B)) as [n E].
  { destruct Hj as [(-> & -> & [->| ->])|Hj]; [by exists 0..|]. rewrite Hj. eexists. by apply replay_journal_of; [apply Hs2|..]. }
  destruct Hs as [[Hs HB0]|Hs]; rewrite Hs; cbn [on_engine st_engine set_snapshot_bytes set_records re_records st_disk].
  - rewrite HB0 in E |- *. rewrite E. eexists. split; [reflexivity|done].
  - rewrite decode_encode_store by (try done; by apply Hs1). cbn [on_engine st_engine set_snapshot_bytes set_records re_records st_disk].
    rewrite E. eexists. split; [reflexivity|done].
Qed.

(** ** Crashes *)

(** What can be on disk when the process dies somewhere in these writes: an
    append may be cut; a rename is not. *)
Inductive crash d : list disk_write -> Directory -> Prop :=
| crash_here ws : crash d ws d
| crash_cut v n ws : crash d (AppendJournal v :: ws) (apply_write (AppendJournal (take n v)) d)
| crash_later w ws d' : crash (apply_write w d) ws d' -> crash d (w :: ws) d'.

Definition apply_writes (ws : list disk_write) d : Directory := foldl (fun d w => apply_write w d) d ws.

Lemma crash_app d ws ws' d' : crash d (ws ++ ws') d' -> crash d ws d' \/ crash (apply_writes ws d) ws' d'.
Proof.
  revert d. induction ws as [|w ws IH]; intros d H; [by right|]. cbn in H. inversion H; subst.
  - left. constructor.
  - left. constructor.
  - destruct (IH _ H3); [left; by constructor|by right].
Qed.

(** The first write of a journal, cut. *)
Definition cut_magic d : Prop := exists n, (0 < n < length JOURNAL_MAGIC)%nat /\ dir_journal d = Some (take n JOURNAL_MAGIC).
Definition recovers d M : Prop := exists B cs t, image d B cs t /\ M = apply_changes cs B.
Definition outlasts d (Ms : gmap string bytes -> Prop) : Prop := cut_magic d \/ exists M, Ms M /\ recovers d M.
Definition safe d (ws : list disk_write) (Ms : gmap string bytes -> Prop) : Prop := forall d', crash d ws d' -> outlasts d' Ms.

Lemma safe_app d ws ws' Ms : safe d ws Ms -> safe (apply_writes ws d) ws' Ms -> safe d (ws ++ ws') Ms.
Proof. intros H1 H2 d' [H|H]%crash_app; auto. Qed.

Lemma safe_mono d ws (Ms Ms' : gmap string bytes -> Prop) : (forall M, Ms M -> Ms' M) -> safe d ws Ms -> safe d ws Ms'.
Proof. intros Hm H d' [Hc|(M & HM & Hr)]%H; [by left|right; eauto]. Qed.

Lemma safe_nil d Ms M : recovers d M -> Ms M -> safe d [] Ms.
Proof. intros Hr HM d' H. inversion H; subst. right. eauto. Qed.

Lemma safe_cons d w ws (Ms : gmap string bytes -> Prop) M : (forall v, w <> AppendJournal v) -> recovers d M -> Ms M ->
  safe (apply_write w d) ws Ms -> safe d (w :: ws) Ms.
Proof. intros Hw Hr HM H d' Hc. inversion Hc; subst; [right; eauto|by destruct (Hw v)|by apply H]. Qed.

(** ** Writing to the journal *)

Definition dir s : Directory := dk_dir (st_disk s).

(** The disk of [s] holds [M], and an open handle is at the end of its
    journal. *)
Definition holds s M : Prop := exists B cs, image (dir s) B cs [] /\ M = apply_changes cs B /\
  (re_journal_file (st_engine s) = true -> dir_journal (dir s) = Some (journal_of cs)).

Lemma holds_recovers s M : holds s M -> recovers (dir s) M.
Proof. intros (B & cs & I & -> & _). by exists B, cs, []. Qed.

(** [s'] is reached from [s] by writing the changes [ds] down: at every point
    in between, the disk holds the first few of them. *)
Definition prefix_of M ds (M' : gmap string bytes) : Prop := exists j, M' = apply_changes (take j ds) M.
Definition journaled s M s' ds : Prop := holds s M /\ holds s' (apply_changes ds M) /\
  exists ws, dk_writes (st_disk s') = dk_writes (st_disk s) ++ ws /\ dir s' = apply_writes ws (dir s) /\
    safe (dir s) ws (prefix_of M ds).

Lemma prefix_start M ds : prefix_of M ds M.
Proof. exists 0%nat. by rewrite take_0. Qed.

Lemma prefix_app_l M ds ds' M' : prefix_of M ds M' -> prefix_of M (ds ++ ds') M'.
Proof.
  intros [j ->]. exists (Nat.min j (length ds)). rewrite take_app_le by lia. f_equal.
  destruct (decide (j <= length ds)%nat); [by rewrite Nat.min_l|]. rewrite Nat.min_r, !take_ge by lia. done.
Qed.

Lemma prefix_app_r M ds ds' M' : prefix_of (apply_changes ds M) ds' M' -> prefix_of M (ds ++ ds') M'.
Proof.
  intros [j ->]. exists (length ds + j)%nat. rewrite take_app_add'; [|done]. by rewrite apply_changes_app.
Qed.

Lemma journaled_refl s M : holds s M -> journaled s M s [].
Proof.
  intros H. split; [done|split; [done|]]. exists []. rewrite app_nil_r. split_and!; [done|done|].
  eapply safe_nil; [by apply holds_recovers|apply prefix_start].
Qed.

Lemma journaled_trans s M s1 ds1 s2 ds2 : journaled s M s1 ds1 -> journaled s1 (apply_changes ds1 M) s2 ds2 ->
  journaled s M s2 (ds1 ++ ds2).
Proof.
  intros (H1 & H2 & ws1 & Ew1 & Ed1 & S1) (_ & H3 & ws2 & Ew2 & Ed2 & S2). split; [done|]. split; [by rewrite apply_changes_app|].
  exists (ws1 ++ ws2). split_and!.
  - by rewrite Ew2, Ew1, app_assoc.
  - rewrite Ed2, Ed1. unfold apply_writes. by rewrite foldl_app.
  - apply safe_app.
    + eapply safe_mono; [|done]. apply prefix_app_l.
    + rewrite <- Ed1. eapply safe_mono; [|done]. apply prefix_app_r.
Qed.

(** Changing the engine alone writes nothing. *)
Lemma journaled_engine f s M s' ds : (forall e, re_journal_file (f e) = re_journal_file e) ->
  journaled (on_engine f s) M s' ds -> journaled s M s' ds.
Proof.
  intros Hf ((B & cs & I & E & Hh) & H). split; [|done]. exists B, cs. split_and!; [done..|]. intros Ho. apply Hh. cbn. by rewrite Hf.
Qed.
Lemma journaled_then_engine f s M s' ds : (forall e, re_journal_file (f e) = re_journal_file e) ->
  journaled s M s' ds -> journaled s M (on_engine f s') ds.
Proof.
  intros Hf (H & (B & cs & I & E & Hh) & W). split; [done|split; [|done]]. exists B, cs. split_and!; [done..|]. cbn. by rewrite Hf.
Qed.

Lemma image_torn d B cs t t' : image d B cs t -> torn_tail t' -> dir_journal d = Some (journal_of cs ++ t) ->
  image (mkDir (dir_is_file d) (dir_store d) (Some (journal_of cs ++ t'))) B cs t'.
Proof. intros [] Ht' Hj. split; try done. by right. Qed.

(** A cut in the middle of several operations: the first ones whole, then a
    torn tail. *)
Lemma cut_concat ds n : changes_ok ds -> (n < length (concat (encoded <$> ds)))%nat ->
  exists j t, take n (concat (encoded <$> ds)) = concat (encoded <$> take j ds) ++ t /\ torn_tail t.
Proof.
  intros Hds. revert n. induction Hds as [|c ds Hc Hds IH]; intros n Hn; [cbn in Hn; lia|]. cbn [fmap list_fmap concat] in *.
  destruct (decide (n < length (encoded c))%nat) as [Hlt|Hge].
  - exists 0%nat, (take n (encoded c)). rewrite take_app_le by lia. split; [done|]. exists c, n. split; [done|split; [apply Hc|done]].
  - rewrite length_app in Hn. destruct (IH (n - length (encoded c))%nat) as (j & t & E & Ht); [lia|].
    exists (S j), t. rewrite take_past by lia. rewrite E. cbn [take fmap list_fmap concat]. by rewrite <- app_assoc.
Qed.

Lemma journal_of_app cs ds : journal_of (cs ++ ds) = journal_of cs ++ concat (encoded <$> ds).
Proof. unfold journal_of. by rewrite fmap_app, concat_app, app_assoc. Qed.

Lemma image_cut d B cs t v n : image d B cs t -> dir_journal d = Some (journal_of cs) -> changes_ok v -> 
  exists j t', image (apply_write (AppendJournal (take n (concat (encoded <$> v)))) d) B (cs ++ take j v) t'.
Proof.
  intros [Hd Hs HB Hcs Ht Hj] Ej Hv.
  destruct (decide (n < length (concat (encoded <$> v)))%nat) as [Hlt|Hge].
  - destruct (cut_concat v n Hv Hlt) as (j & t' & E & Ht'). exists j, t'. split; cbn; try done.
    + apply Forall_app. split; [done|]. by apply Forall_take.
    + right. rewrite Ej, E. cbn. by rewrite journal_of_app, app_assoc.
  - exists (length v), []. rewrite !take_ge by lia. split; cbn; try done.
    + by apply Forall_app.
    + apply torn_nil.
    + right. rewrite Ej. cbn. by rewrite journal_of_app, app_nil_r.
Qed.

(** Appending to an open journal. *)
Lemma append_journaled s M ds : holds s M -> re_journal_file (st_engine s) = true -> changes_ok ds ->
  journaled s M (on_disk (AppendJournal (concat (encoded <$> ds))) s) ds.
Proof.
  intros H Hopen Hds. split; [done|]. destruct H as (B & cs & I & -> & Hh). specialize (Hh Hopen).
  assert (image (apply_write (AppendJournal (concat (encoded <$> ds))) (dir s)) B (cs ++ ds) []) as I'.
  { destruct I as [Hd Hs HB Hcs Ht Hj]. split; cbn; try done; [by apply Forall_app|]. right. rewrite Hh. cbn. by rewrite journal_of_app, app_nil_r. }
  split.
  - exists B, (cs ++ ds). split_and!; [done|by rewrite apply_changes_app|]. intros _. unfold dir in *. cbn. rewrite Hh. cbn. by rewrite journal_of_app.
  - exists [AppendJournal (concat (encoded <$> ds))]. split_and!; [done|done|]. intros d' Hc. right. inversion Hc; subst.
    + eexists. split; [apply prefix_start|]. by exists B, cs, [].
    + destruct (image_cut (dir s) B cs [] ds n I Hh Hds) as (j & t & It). exists (apply_changes (take j ds) (apply_changes cs B)).
      split; [by exists j|]. exists B, (cs ++ take j ds), t. by rewrite apply_changes_app.
    + inversion H2; subst. exists (apply_changes ds (apply_changes cs B)). split; [exists (length ds); by rewrite take_ge by lia|].
      exists B, (cs ++ ds), []. by rewrite apply_changes_app.
Qed.

(** Opening it. *)
Lemma open_journaled s M : holds s M -> journaled s M (open_journal s) [] /\ re_journal_file (st_engine (open_journal s)) = true.
Proof.
  intros H. unfold open_journal. destruct (re_journal_file (st_engine s)) eqn:Ho; [by split; [apply journaled_refl|]|].
  split; [|done]. split; [done|]. destruct H as (B & cs & I & -> & _).
  pose proof I as [Hd Hs HB Hcs Ht Hj]. cbn [on_disk st_disk write_disk dk_dir apply_write dir_journal].
  fold (dir s). set (d1 := mkDir (dir_is_file (dir s)) (dir_store (dir s)) (Some (default [] (dir_journal (dir s))))).
  destruct Hj as [(-> & _ & Hj)|Hj].
  - assert (default [] (dir_journal (dir s)) = []) as E1 by (by destruct Hj as [->| ->]).
    rewrite bool_decide_eq_true_2 by (cbn; by rewrite E1).
    assert (forall n, (n = 0 \/ length JOURNAL_MAGIC <= n)%nat -> image (apply_write (AppendJournal (take n JOURNAL_MAGIC)) d1) B [] []) as Im.
    { intros n Hn. split; cbn; try done; try apply torn_nil. rewrite E1. cbn.
      destruct Hn as [->|Hn]; [left; by auto|right]. rewrite take_ge by done. unfold journal_of. cbn. by rewrite !app_nil_r. }
    assert (image d1 B [] []) as I1 by (split; cbn; rewrite ?E1; try done; try apply torn_nil; left; auto).
    split.
    + exists B, []. specialize (Im (length JOURNAL_MAGIC) (or_intror (le_n _))). rewrite take_ge in Im by done. split_and!; [exact Im|done|].
      intros _. unfold dir. cbn. fold (dir s). rewrite E1. cbn. unfold journal_of. cbn. by rewrite app_nil_r.
    + exists [CreateJournal; AppendJournal JOURNAL_MAGIC]. split_and!; [cbn; by rewrite <- app_assoc|done|].
      eapply safe_cons; [done|by exists B, [], []|apply prefix_start|]. change (apply_write CreateJournal (dir s)) with d1.
      intros d' Hc. inversion Hc; subst.
      * right. exists B. split; [apply prefix_start|by exists B, [], []].
      * destruct (decide (0 < n < length JOURNAL_MAGIC)%nat) as [Hn|Hn].
        -- left. exists n. split; [done|]. cbn. by rewrite E1.
        -- right. exists B. split; [apply prefix_start|]. exists B, [], []. split; [apply Im; lia|done].
      * inversion H2; subst. right. exists B. split; [apply prefix_start|]. exists B, [], [].
        specialize (Im (length JOURNAL_MAGIC) (or_intror (le_n _))). by rewrite take_ge in Im.
  - rewrite app_nil_r in Hj. assert (d1 = dir s) as Ed1 by (unfold d1; rewrite Hj; destruct (dir s); cbn in *; by subst).
    rewrite bool_decide_eq_false_2 by (cbn; rewrite Hj; cbn; discriminate).
    split.
    + exists B, cs. change (dir (on_engine _ _)) with d1. rewrite Ed1. split_and!; done.
    + exists [CreateJournal]. split_and!; [done|done|]. eapply safe_cons; [done|by exists B, cs, []|apply prefix_start|].
      change (apply_write CreateJournal (dir s)) with d1. rewrite Ed1. eapply safe_nil; [by exists B, cs, []|apply prefix_start].
Qed.

Lemma append_bytes_journaled s M ds : holds s M -> changes_ok ds -> journaled s M (append_journal_bytes (concat (encoded <$> ds)) s) ds.
Proof.
  intros H Hds. destruct (open_journaled s M H) as [J Ho]. unfold append_journal_bytes. apply journaled_then_engine; [done|].
  change ds with ([] ++ ds) at 2. eapply journaled_trans; [exact J|]. apply append_journaled; [apply J|done|done].
Qed.

(** A snapshot of what the disk holds: the journal read over it is read over
    what it led to. *)
Lemma persist_journaled s M : holds s M -> re_records (st_engine s) = M -> journaled s M (persist_records s) [].
Proof.
  intros H EM. split; [done|]. pose proof (holds_recovers s M H) as Hr. rewrite <- EM in *. clear EM. set (m := re_records (st_engine s)) in *. destruct H as (B & cs & I & E & Hh).
  pose proof (image_records_ok _ _ _ _ I) as HM. rewrite <- E in HM. pose proof I as [Hd Hs HB Hcs Ht Hj].
  unfold persist_records. fold m.
  assert (image (apply_write (ReplaceStore (encode_store m)) (dir s)) m cs []) as I1 by (split; cbn; try done; by right).
  assert (image (apply_write RemoveJournal (apply_write (ReplaceStore (encode_store m)) (dir s))) m [] []) as I2
    by (split; cbn; try done; [by right|constructor|left; auto]).
  split.
  - exists m, []. split_and!; [exact I2|done|]. done.
  - exists [ReplaceStore (encode_store m); RemoveJournal]. split_and!; [by cbn; rewrite <- app_assoc|done|].
    eapply safe_cons; [done|exact Hr|apply prefix_start|]. eapply safe_cons; [done| |apply prefix_start|].
    + exists m, cs, []. split; [done|]. rewrite E. by rewrite apply_changes_twice.
    + apply (safe_nil _ _ m); [by exists m, [], []|apply prefix_start].
Qed.

Lemma compact_journaled s M : holds s M -> re_records (st_engine s) = M -> journaled s M (compact_journal_if_needed s) [].
Proof. intros. unfold compact_journal_if_needed. destruct (_ <? _); [by apply persist_journaled|by apply journaled_refl]. Qed.
