(* ===== verification/FileStoreOps.v ===== *)
(** * Operations of the file-backed store

    What each operation writes down: a change, a batch of entries folded to
    the last value of each key, a batch of deletes gathered into a few
    writes. *)

From Stdlib Require Import Strings.Byte.
From S2P Require Import Prelude BlockCodec SsdRecords Ordering MemStorage StorageBatch FileStore FileStoreFacts FileStoreDisk.

Implicit Types (c : change) (cs ds : list change) (m M B : gmap string bytes) (d : Directory) (s : Store).

(** ** Operations *)

(** What writing to the disk leaves alone in the engine. *)
Definition same_memory s s' : Prop :=
  re_records (st_engine s') = re_records (st_engine s) /\ re_initialized (st_engine s') = re_initialized (st_engine s).

Lemma append_memory v s : same_memory s (append_journal_bytes v s).
Proof. unfold append_journal_bytes, open_journal. destruct (re_journal_file _); [done|]. by destruct (bool_decide _). Qed.
Lemma compact_memory s : same_memory s (compact_journal_if_needed s).
Proof. unfold compact_journal_if_needed. by destruct (_ <? _). Qed.
Lemma same_memory_trans s1 s2 s3 : same_memory s1 s2 -> same_memory s2 s3 -> same_memory s1 s3.
Proof. unfold same_memory. intuition congruence. Qed.

(** An append that may compact: by then the records have the changes. *)
Lemma append_record_journaled s M ds : holds s M -> changes_ok ds -> re_records (st_engine s) = apply_changes ds M ->
  journaled s M (append_journal_record (concat (encoded <$> ds)) s) ds /\ same_memory s (append_journal_record (concat (encoded <$> ds)) s).
Proof.
  intros H Hds E. unfold append_journal_record. pose proof (append_bytes_journaled s M ds H Hds) as J.
  destruct (append_memory (concat (encoded <$> ds)) s) as [Em Ei]. split.
  - rewrite <- (app_nil_r ds) at 2. eapply journaled_trans; [exact J|]. apply compact_journaled; [apply J|congruence].
  - eapply same_memory_trans; [by split|apply compact_memory].
Qed.

(** A live store: its memory is what its disk holds. *)
Definition live s M : Prop := re_initialized (st_engine s) = true /\ re_records (st_engine s) = M /\ holds s M.

Definition effect s M s' ds : Prop := journaled s M s' ds /\ live s' (apply_changes ds M).

Lemma effect_refl s M : live s M -> effect s M s [].
Proof. intros H. split; [by apply journaled_refl, H|done]. Qed.
Lemma effect_trans s M s1 ds1 s2 ds2 : effect s M s1 ds1 -> effect s1 (apply_changes ds1 M) s2 ds2 -> effect s M s2 (ds1 ++ ds2).
Proof. intros [J1 L1] [J2 L2]. split; [by eapply journaled_trans|by rewrite apply_changes_app]. Qed.

(** One change, in memory and then in the journal. *)
Lemma change_effect s M c : live s M -> change_ok c ->
  effect s M (append_journal_record (encoded c) (on_engine (fun e => set_records (apply_change (re_records e) c) e) s)) [c].
Proof.
  intros (Hi & Em & H) Hc. set (s1 := on_engine _ s). assert (holds s1 M) as H1 by exact H.
  destruct (append_record_journaled s1 M [c] H1) as [J [Er Ei]].
  - by constructor.
  - cbn. by rewrite Em.
  - cbn in J, Er, Ei. rewrite app_nil_r in J, Er, Ei. split.
    + eapply journaled_engine; [|exact J]. done.
    + split_and!; [congruence| |apply J]. rewrite Er. cbn. by rewrite Em.
Qed.

Lemma insert_effect s M key value : live s M -> change_ok (key, Some value) ->
  effect s M (insert_journaled key value s) [(key, Some value)].
Proof. intros. by apply (change_effect s M (key, Some value)). Qed.

Definition puts_of (kvs : list (string * bytes)) : list change := (fun kv => (kv.1, Some kv.2)) <$> kvs.

Lemma inserts_effect s M kvs : live s M -> changes_ok (puts_of kvs) ->
  effect s M (foldl (fun s kv => insert_journaled kv.1 kv.2 s) s kvs) (puts_of kvs).
Proof.
  revert s M. induction kvs as [|kv kvs IH]; intros s M H Hok; [by apply effect_refl|]. apply Forall_cons in Hok as [Hkv Hok]. cbn [foldl].
  pose proof (insert_effect s M kv.1 kv.2 H Hkv) as E. change (puts_of (kv :: kvs)) with ([(kv.1, Some kv.2)] ++ puts_of kvs).
  eapply effect_trans; [exact E|]. apply IH; [apply E|done].
Qed.

(** The deletes of a batch: the keys that are there when their turn comes. *)
Fixpoint dels_of (keys : list string) m : list change :=
  match keys with
  | [] => []
  | key :: keys => match m !! key with Some _ => (key, None) :: dels_of keys (delete key m) | None => dels_of keys m end
  end.

Lemma delete_ok k : key_ok k -> blen (key_bytes k) < 2 ^ 62 -> change_ok (k, None).
Proof. intros Hk Hl. split; [done|]. unfold vec_ok. rewrite encoded_length. cbn [fst snd]. lia. Qed.

(** Deletes that wait in the buffer: in memory, not yet on disk. *)
Record waiting (s0 : Store) M s (flushed pending : list change) : Prop := {
  wt_disk : journaled s0 M s flushed;
  wt_records : re_records (st_engine s) = apply_changes (flushed ++ pending) M;
  wt_live : re_initialized (st_engine s) = true;
  wt_ok : changes_ok pending }.

Lemma waiting_flush s0 M s flushed pending : waiting s0 M s flushed pending ->
  waiting s0 M (append_journal_bytes (concat (encoded <$> pending)) s) (flushed ++ pending) [].
Proof.
  intros [J E L Hok]. destruct (append_memory (concat (encoded <$> pending)) s) as [Er Ei]. split.
  - eapply journaled_trans; [exact J|]. apply append_bytes_journaled; [apply J|done].
  - by rewrite app_nil_r, Er.
  - congruence.
  - constructor.
Qed.

Lemma concat_nil_iff ds : concat (encoded <$> ds) = [] <-> ds = [].
Proof.
  split; [|by intros ->]. destruct ds as [|c ds]; [done|]. cbn. intros E. apply app_nil in E as [E _]. by apply encoded_nonempty in E.
Qed.

Lemma delete_one_waits s0 M s flushed pending key n : waiting s0 M s flushed pending -> change_ok (key, None) ->
  exists s' flushed' pending', delete_one key (n, concat (encoded <$> pending), s) =
      (match re_records (st_engine s) !! key with Some _ => n +! 1 | None => n end, concat (encoded <$> pending'), s') /\
    waiting s0 M s' flushed' pending' /\
    flushed' ++ pending' = (flushed ++ pending) ++ match re_records (st_engine s) !! key with Some _ => [(key, None)] | None => [] end /\
    re_records (st_engine s') = match re_records (st_engine s) !! key with Some _ => delete key (re_records (st_engine s)) | None => re_records (st_engine s) end.
Proof.
  intros W Hc. unfold delete_one. destruct (re_records (st_engine s) !! key) as [v|] eqn:Ek.
  2: { exists s, flushed, pending. by rewrite app_nil_r. }
  set (s1 := on_engine _ s). assert (journaled s0 M s1 flushed) as J1 by (unfold s1; apply journaled_then_engine; [done|apply W]).
  assert (exists s2 flushed2 pending2,
    (if negb (bool_decide (concat (encoded <$> pending) = [])) && (BUFFER_LIMIT <? blen (concat (encoded <$> pending)) +! (blen (key_bytes key) +! 9))
     then ([], append_journal_bytes (concat (encoded <$> pending)) s1) else (concat (encoded <$> pending), s1)) =
     (concat (encoded <$> pending2), s2) /\ flushed2 ++ pending2 = flushed ++ pending /\ changes_ok pending2 /\
     journaled s0 M s2 flushed2 /\ same_memory s1 s2 /\
     (BUFFER_LIMIT <? blen (key_bytes key) +! 9 = true -> pending2 = [])) as (s2 & flushed2 & pending2 & -> & Efp & Hok2 & J2 & [Er2 Ei2] & Hbig).
  { destruct (negb _ && _) eqn:Ecase.
    - exists (append_journal_bytes (concat (encoded <$> pending)) s1), (flushed ++ pending), [].
      destruct W as [J E L Hok]. split_and!; [done|by rewrite app_nil_r|constructor| |apply append_memory|done].
      eapply journaled_trans; [exact J1|]. apply append_bytes_journaled; [apply J1|done].
    - exists s1, flushed, pending. destruct W as [J E L Hok]. split_and!; [done..|].
      intros Hb. apply andb_false_iff in Ecase as [Ec|Ec].
      + apply negb_false_iff, bool_decide_eq_true, concat_nil_iff in Ec. done.
      + exfalso. zbool. unfold sat_add in *. pose proof (blen_nonneg (concat (encoded <$> pending))). lia. }
  destruct W as [J E L Hok]. assert (re_records (st_engine s1) = delete key (re_records (st_engine s))) as E1 by done.
  assert (apply_changes ((flushed ++ pending) ++ [(key, None)]) M = delete key (re_records (st_engine s))) as Eap
    by (rewrite apply_changes_app, <- E; done).
  destruct (BUFFER_LIMIT <? _) eqn:Eb.
  - rewrite Hbig in * by done. eexists _, (flushed2 ++ [(key, None)]), []. split; [done|].
    destruct (append_memory (encode_journal_change key None) s2) as [Er3 Ei3]. split_and!.
    + split; [|rewrite app_nil_r, Er3, Er2, E1, <- Eap, <- Efp, app_nil_r; done|rewrite Ei3, Ei2; done|constructor].
      eapply journaled_trans; [exact J2|]. pose proof (append_bytes_journaled s2 _ [(key, None)] (proj1 (proj2 J2))) as Ja.
      cbn in Ja. rewrite app_nil_r in Ja. apply Ja. by constructor.
    + by rewrite app_nil_r, <- Efp, app_nil_r.
    + by rewrite Er3, Er2, E1.
  - eexists s2, flushed2, (pending2 ++ [(key, None)]). split; [|split_and!].
    + rewrite encoded_into, fmap_app, concat_app. cbn. by rewrite app_nil_r.
    + split; [done|by rewrite app_assoc, Efp, Er2, E1, <- Eap|rewrite Ei2; done|]. apply Forall_app. split; [done|]. by constructor.
    + by rewrite app_assoc, Efp.
    + by rewrite Er2, E1.
Qed.

Lemma deletes_wait s0 M keys s flushed pending n : waiting s0 M s flushed pending -> Forall (fun k => change_ok (k, None)) keys ->
  n + Z.of_nat (length keys) <= u64_max ->
  exists s' flushed' pending', foldl (fun st key => delete_one key st) (n, concat (encoded <$> pending), s) keys =
      (n + Z.of_nat (length (dels_of keys (re_records (st_engine s)))), concat (encoded <$> pending'), s') /\
    waiting s0 M s' flushed' pending' /\
    flushed' ++ pending' = (flushed ++ pending) ++ dels_of keys (re_records (st_engine s)).
Proof.
  revert s flushed pending n. induction keys as [|key keys IH]; intros s flushed pending n W Hok Hn.
  { exists s, flushed, pending. cbn. by rewrite Z.add_0_r, app_nil_r. }
  apply Forall_cons in Hok as [Hk Hok]. cbn [foldl length] in *.
  destruct (delete_one_waits s0 M s flushed pending key n W Hk) as (s1 & f1 & p1 & -> & W1 & E1 & R1).
  assert (exists s' f' p', foldl (fun st key => delete_one key st) (match re_records (st_engine s) !! key with Some _ => n +! 1 | None => n end, concat (encoded <$> p1), s1) keys =
      (match re_records (st_engine s) !! key with Some _ => n +! 1 | None => n end + Z.of_nat (length (dels_of keys (re_records (st_engine s1)))), concat (encoded <$> p'), s') /\
    waiting s0 M s' f' p' /\ f' ++ p' = (f1 ++ p1) ++ dels_of keys (re_records (st_engine s1))) as (s' & f' & p' & -> & W' & E').
  { apply IH; [done..|]. destruct (_ !! key); [rewrite sat_add_exact by lia|]; lia. }
  exists s', f', p'. rewrite R1. cbn [dels_of]. rewrite R1, E1 in E'. destruct (re_records (st_engine s) !! key) as [v|].
  - cbn [length]. rewrite sat_add_exact by lia. split_and!; [f_equal; f_equal; lia|done|]. by rewrite E', <- app_assoc.
  - rewrite app_nil_r in E'. done.
Qed.

Lemma delete_batch_effect s M keys r s' : live s M -> Forall (fun k => change_ok (k, None)) keys -> Z.of_nat (length keys) < 2 ^ 63 ->
  delete_batch keys s = (r, s') ->
  let ds := dels_of (coalesce_storage_delete_keys keys) M in r = Ok (Z.of_nat (length ds)) /\ effect s M s' ds.
Proof.
  intros (Hi & Em & H) Hok Hlen. unfold delete_batch. rewrite Hi. cbn [negb]. case_bool_decide as Hnil.
  { subst keys. intros [= <- <-]. split; [done|]. by apply effect_refl. }
  set (uk := coalesce_storage_delete_keys keys).
  pose proof (coalesce_spec keys) as [Hnd Hs _ Hle _]. rewrite <- coalesce_delete_spec in *. fold uk in Hnd, Hs, Hle.
  assert (waiting s M s [] []) as W0 by (split; [by apply journaled_refl|done|done|constructor]).
  assert (Forall (fun k => change_ok (k, None)) uk) as Huk.
  { apply Forall_forall. intros k Hk. apply Hs in Hk. exact (proj1 (Forall_forall _ _) Hok k Hk). }
  destruct (deletes_wait s M uk s [] [] 0 W0 Huk) as (s1 & f1 & p1 & E1 & W1 & Ef); [unfold u64_max; lia|].
  cbn [concat fmap list_fmap app] in E1, Ef. rewrite E1, Em in *. intros [= <- <-]. split; [by rewrite Z.add_0_l|].
  set (ds := dels_of uk M) in *.
  assert (exists s2, (if bool_decide (concat (encoded <$> p1) = []) then s1 else append_journal_bytes (concat (encoded <$> p1)) s1) = s2 /\
    waiting s M s2 ds []) as (s2 & -> & W2).
  { case_bool_decide as Hp.
    - apply concat_nil_iff in Hp. subst p1. rewrite app_nil_r in Ef. subst f1. by eexists.
    - eexists. split; [done|]. rewrite <- Ef. by apply waiting_flush. }
  destruct W2 as [J2 R2 L2 _]. rewrite app_nil_r in R2. destruct (compact_memory s2) as [Er Ei]. split.
  - rewrite <- (app_nil_r ds). eapply journaled_trans; [exact J2|]. apply compact_journaled; [apply J2|done].
  - split_and!; [congruence|congruence|]. pose proof (compact_journaled s2 _ (proj1 (proj2 J2)) R2) as Jc. apply Jc.
Qed.

Lemma dels_apply keys m : apply_changes (dels_of keys m) m = filter (fun kv => kv.1 ∉ keys) m.
Proof.
  revert m. induction keys as [|key keys IH]; intros m; cbn [dels_of].
  - symmetry. apply map_filter_id. intros k v _. apply not_elem_of_nil.
  - assert (filter (fun kv : string * bytes => kv.1 ∉ keys) (delete key m) = filter (fun kv => kv.1 ∉ key :: keys) m) as Ef.
    { apply map_eq. intros k. apply option_eq. intros v. rewrite !map_lookup_filter_Some, lookup_delete_Some, not_elem_of_cons. naive_solver. }
    destruct (m !! key) as [v|] eqn:E.
    + change (apply_changes (dels_of keys (delete key m)) (delete key m) = filter (fun kv => kv.1 ∉ key :: keys) m). by rewrite IH.
    + rewrite IH. by rewrite <- Ef, delete_id.
Qed.

Lemma dels_count keys m : Z.of_nat (length (dels_of keys m)) = Z.of_nat (size m) - Z.of_nat (size (apply_changes (dels_of keys m) m)).
Proof.
  revert m. induction keys as [|key keys IH]; intros m; cbn [dels_of]; [cbn; lia|]. destruct (m !! key) as [v|] eqn:E; [|apply IH].
  cbn [length apply_changes foldl]. change (foldl apply_change (apply_change m (key, None)) ?l) with (apply_changes l (delete key m)).
  specialize (IH (delete key m)). assert (size (delete key m) = pred (size m)) by (apply map_size_delete_Some; by eexists).
  assert (0 < size m)%nat by (destruct (size m) eqn:Ez; [apply map_size_empty_inv in Ez; subst m; done|lia]). lia.
Qed.

(** *** Folding a batch of entries *)

Definition entry_positions (l : list (string * bytes)) (positions : gmap string nat) : Prop :=
  forall k p, positions !! k = Some p <-> fst <$> l !! p = Some k.

Lemma insert_records_last l m k v : insert_records (l ++ [(k, v)]) m = <[k := v]> (insert_records l m).
Proof. unfold insert_records. by rewrite foldl_app. Qed.

Lemma insert_records_cons k v l m : insert_records ((k, v) :: l) m = insert_records l (<[k := v]> m).
Proof. done. Qed.

Lemma insert_records_other l m k : k ∉ l.*1 -> insert_records l m !! k = m !! k.
Proof.
  revert m. induction l as [|[k' v] l IH]; intros m Hk; [done|]. cbn in Hk. apply not_elem_of_cons in Hk as [Hne Hk].
  rewrite insert_records_cons, IH by done. by rewrite lookup_insert_ne.
Qed.

Lemma insert_records_replace l m p k v v' : NoDup l.*1 -> l !! p = Some (k, v') ->
  insert_records (<[p := (k, v)]> l) m = <[k := v]> (insert_records l m).
Proof.
  revert m p. induction l as [|[k0 v0] l IH]; intros m p Hn Hp; [done|]. cbn in Hn. apply NoDup_cons in Hn as [Hk0 Hn].
  destruct p as [|p]; cbn in Hp; [change (<[0%nat := (k, v)]> ((k0, v0) :: l)) with ((k, v) :: l)|change (<[S p := (k, v)]> ((k0, v0) :: l)) with ((k0, v0) :: <[p := (k, v)]> l)];
    rewrite !insert_records_cons.
  - simplify_eq. clear IH. apply map_eq. intros j. destruct (decide (j = k)) as [->|Hne].
    + rewrite insert_records_other, !lookup_insert_eq by done. done.
    + rewrite (lookup_insert_ne _ k j) by done. destruct (decide (j ∈ l.*1)) as [Hin|Hout].
      * clear -Hin. induction l as [|[k1 v1] l IHl] using rev_ind; [by apply not_elem_of_nil in Hin|].
        rewrite !insert_records_last. destruct (decide (j = k1)) as [->|Hj]; [by rewrite !lookup_insert_eq|]. rewrite !lookup_insert_ne by done.
        apply IHl. rewrite fmap_app, elem_of_app in Hin. destruct Hin as [|Hin]; [done|]. by apply list_elem_of_singleton in Hin.
      * rewrite !insert_records_other by done. by rewrite !lookup_insert_ne.
  - by apply IH.
Qed.

Lemma coalesce_entries_inserts entries l positions m : NoDup l.*1 -> entry_positions l positions ->
  insert_records (coalesce_entries entries l positions) m = insert_records entries (insert_records l m) /\
  (forall kv, kv ∈ coalesce_entries entries l positions -> kv ∈ l \/ kv ∈ entries).
Proof.
  revert l positions. induction entries as [|[k v] entries IH]; intros l positions Hn Hp; [split; [done|auto]|]. cbn [coalesce_entries].
  destruct (positions !! k) as [p|] eqn:E.
  - apply Hp in E. apply fmap_Some in E as ([k' v'] & Hl & ->). cbn [fst].
    assert ((<[p := (k', v)]> l).*1 = l.*1) as Ekeys.
    { rewrite list_fmap_insert. cbn. apply list_insert_id. by rewrite list_lookup_fmap, Hl. }
    destruct (IH (<[p := (k', v)]> l) positions) as [Ei Hin].
    + by rewrite Ekeys.
    + intros j q. rewrite (Hp j q). by rewrite <- !list_lookup_fmap, Ekeys.
    + split; [by rewrite Ei, insert_records_cons, (insert_records_replace l m p k' v v')|].
      intros kv [Hkv|Hkv]%Hin; [|right; by right]. apply list_elem_of_lookup in Hkv as [q Hq].
      apply list_lookup_insert_Some in Hq as [(_ & <- & _)|[_ Hq]]; [right; by left|left; by eapply list_elem_of_lookup_2].
  - assert (k ∉ l.*1) as Hk.
    { intros Hin. apply list_elem_of_lookup in Hin as [p Hq]. rewrite list_lookup_fmap in Hq. apply Hp in Hq. congruence. }
    destruct (IH (l ++ [(k, v)]) (<[k := length l]> positions)) as [Ei Hin].
    + rewrite fmap_app. apply NoDup_app. split_and!; [done| |apply NoDup_singleton]. intros x Hx ->%list_elem_of_singleton. done.
    + intros j q. destruct (decide (j = k)) as [->|Hne].
      * rewrite lookup_insert_eq. rewrite <- list_lookup_fmap, fmap_app, lookup_app. destruct (l.*1 !! q) as [x|] eqn:Eq.
        -- split; [|intros [= ->]; by apply list_elem_of_lookup_2 in Eq]. intros [= <-]. apply lookup_lt_Some in Eq. rewrite length_fmap in Eq. lia.
        -- apply lookup_ge_None in Eq. rewrite length_fmap in *. destruct (q - length l)%nat as [|d] eqn:Ed; cbn.
           ++ split; [done|]. intros _. f_equal. lia.
           ++ split; [|done]. intros Hq. injection Hq as Hq. lia.
      * rewrite lookup_insert_ne by done. rewrite (Hp j q). rewrite <- !list_lookup_fmap, fmap_app, lookup_app. destruct (l.*1 !! q) as [x|] eqn:Eq; [done|].
        destruct (q - length l.*1)%nat as [|d]; cbn; [|done]. split; [done|]. intros [= ?]. congruence.
    + split; [by rewrite Ei, insert_records_cons, insert_records_last|].
      intros kv [Hkv|Hkv]%Hin; [|right; by right]. apply elem_of_app in Hkv as [?|Hkv%list_elem_of_singleton]; [by left|right; subst; by left].
Qed.
