(* ===== verification/FileStoreSpec.v ===== *)
(** * The file-backed store is a durable map

    Every history of operations, stops, starts and crashes between operations
    answers as a map does; a crash in the middle of an operation leaves the
    map as it was, or with the first few of the operation's changes.  The last
    theorems show where that ends: a torn tail that is appended to, and a
    reset that is interrupted. *)

From Stdlib Require Import Strings.Byte.
From S2P Require Import Prelude BlockCodec SsdRecords Ordering MemStorage StorageBatch FileStore FileStoreFacts FileStoreDisk FileStoreOps.

Implicit Types (c : change) (cs ds : list change) (m M B : gmap string bytes) (d : Directory) (s : Store).

(** ** Histories *)

Inductive store_op :=
| OpPut (key : string) (value : bytes)
| OpGet (key : string)
| OpPeek (key : string)
| OpDelete (key : string)
| OpPutBatch (entries : list (string * bytes))
| OpGetBatch (keys : list string)
| OpDeleteBatch (keys : list string)
| OpReset
| OpStart
| OpStop
| OpCrash.
Inductive store_out :=
| OutBuffer (r : result CacheBuffer)
| OutUnit (r : result unit)
| OutCount (r : result Z)
| OutValues (r : result (list (option bytes)))
| OutBool (b : bool)
| OutNone.

(** A crash between operations leaves the disk and a new engine. *)
Definition run_store_op (op : store_op) s : outcome (store_out * Store) :=
  match op with
  | OpPut key value => let '(r, s) := store_put key value s in Returns (OutBuffer r, s)
  | OpGet key => Returns (OutBuffer (store_get key s), s)
  | OpPeek key => Returns (OutBool (store_peek key s), s)
  | OpDelete key => let '(r, s) := store_delete key s in Returns (OutUnit r, s)
  | OpPutBatch entries => let '(r, s) := put_batch entries s in Returns (OutCount r, s)
  | OpGetBatch keys => match get_batch keys s with Panics => Panics | Returns r => Returns (OutValues r, s) end
  | OpDeleteBatch keys => let '(r, s) := delete_batch keys s in Returns (OutCount r, s)
  | OpReset => let '(r, s) := store_reset s in Returns (OutUnit r, s)
  | OpStart => match store_start s with Panics => Panics | Returns (b, s) => Returns (OutBool b, s) end
  | OpStop => let '(b, s) := store_stop s in Returns (OutBool b, s)
  | OpCrash => Returns (OutNone, mkStore new_file_engine (st_disk s))
  end.

(** The specification: whether the store is started, and its map. *)
Definition spec_op (op : store_op) (on : bool) M : store_out * (bool * gmap string bytes) :=
  match op with
  | OpPut key value => if on then (OutBuffer (Ok (mkBuffer key value)), (on, <[key := value]> M)) else (OutBuffer (Err Stopped), (on, M))
  | OpGet key =>
      (OutBuffer (if on then match M !! key with Some v => Ok (mkBuffer key v) | None => Err NotFound end else Err Stopped), (on, M))
  | OpPeek key => (OutBool (on && bool_decide (is_Some (M !! key))), (on, M))
  | OpDelete key =>
      if on then match M !! key with Some _ => (OutUnit (Ok tt), (on, delete key M)) | None => (OutUnit (Err NotFound), (on, M)) end
      else (OutUnit (Err Stopped), (on, M))
  | OpPutBatch entries =>
      if on then (OutCount (Ok (Z.of_nat (length entries))), (on, insert_records entries M)) else (OutCount (Err Stopped), (on, M))
  | OpGetBatch keys => (OutValues (if on then Ok ((fun key => M !! key) <$> keys) else Err Stopped), (on, M))
  | OpDeleteBatch keys =>
      if on then
        let M' := filter (fun kv => kv.1 ∉ keys) M in (OutCount (Ok (Z.of_nat (size M) - Z.of_nat (size M'))), (on, M'))
      else (OutCount (Err Stopped), (on, M))
  | OpReset => if on then (OutUnit (Ok tt), (on, ∅)) else (OutUnit (Err Stopped), (on, M))
  | OpStart => (OutBool true, (true, M))
  | OpStop => (OutBool true, (false, M))
  | OpCrash => (OutNone, (false, M))
  end.

(** What the caller may pass: strings and slices that fit in memory. *)
Definition entry_ok (kv : string * bytes) : Prop := change_ok (kv.1, Some kv.2).
Definition store_op_ok (op : store_op) : Prop :=
  match op with
  | OpPut key value => entry_ok (key, value)
  | OpDelete key => change_ok (key, None)
  | OpPutBatch entries => Forall entry_ok entries
  | OpDeleteBatch keys => Forall (fun k => change_ok (k, None)) keys /\ Z.of_nat (length keys) < 2 ^ 63
  | _ => True
  end.

(** ** The invariant *)

Definition tracks s (on : bool) M : Prop :=
  holds s M /\ re_initialized (st_engine s) = on /\ (on = true -> re_records (st_engine s) = M).

Lemma tracks_live s M : tracks s true M <-> live s M.
Proof. unfold tracks, live. intuition. Qed.

Lemma effect_tracks s M s' ds M' : effect s M s' ds -> apply_changes ds M = M' -> tracks s' true M'.
Proof. intros [_ L] <-. by apply tracks_live. Qed.

Lemma puts_apply kvs m : apply_changes (puts_of kvs) m = insert_records kvs m.
Proof. revert m. induction kvs as [|kv kvs IH]; intros m; [done|]. apply IH. Qed.

Lemma put_batch_folds entries M : insert_records (coalesce_entries entries [] ∅) M = insert_records entries M.
Proof. apply coalesce_entries_inserts; [constructor|]. intros k p. by rewrite lookup_empty, lookup_nil. Qed.
Lemma put_batch_ok entries : Forall entry_ok entries -> changes_ok (puts_of (coalesce_entries entries [] ∅)).
Proof.
  intros H. apply Forall_fmap, Forall_forall. intros kv Hkv.
  apply (coalesce_entries_inserts entries [] ∅ ∅) in Hkv as [Hkv|Hkv]; [by apply not_elem_of_nil in Hkv| | constructor |].
  - exact (proj1 (Forall_forall _ _) H kv Hkv).
  - intros k p. by rewrite lookup_empty, lookup_nil.
Qed.

(** The changes an operation writes down. *)
Definition op_changes (op : store_op) M : list change :=
  match op with
  | OpPut key value => [(key, Some value)]
  | OpDelete key => match M !! key with Some _ => [(key, None)] | None => [] end
  | OpPutBatch entries => puts_of (coalesce_entries entries [] ∅)
  | OpDeleteBatch keys => dels_of (coalesce_storage_delete_keys keys) M
  | _ => []
  end.
Definition writes_changes (op : store_op) : bool :=
  match op with OpPut _ _ | OpDelete _ | OpPutBatch _ | OpDeleteBatch _ => true | _ => false end.

Lemma filter_coalesced keys M : filter (fun kv : string * bytes => kv.1 ∉ coalesce_storage_delete_keys keys) M = filter (fun kv => kv.1 ∉ keys) M.
Proof.
  pose proof (coalesce_spec keys) as [_ Hs _ _ _]. rewrite <- coalesce_delete_spec in Hs.
  apply map_filter_ext. intros k v _. by rewrite Hs.
Qed.

(** A live store does what the specification says, and writes its changes. *)
Lemma write_op_effect op s M : writes_changes op = true -> store_op_ok op -> live s M ->
  exists s', run_store_op op s = Returns ((spec_op op true M).1, s') /\ effect s M s' (op_changes op M) /\
    (spec_op op true M).2 = (true, apply_changes (op_changes op M) M).
Proof.
  intros Hw Hok L. pose proof L as (Hi & Em & _). destruct op as [key value| | |key|entries| |keys| | | |]; try done; cbn [run_store_op op_changes store_op_ok] in *.
  - unfold store_put, put_view. rewrite Hi. cbn [negb]. eexists. split; [reflexivity|]. split; [|done]. by apply insert_effect.
  - unfold store_delete. rewrite Hi, Em. cbn [negb]. cbn [spec_op]. destruct (M !! key) as [v|] eqn:E.
    + eexists. split; [reflexivity|]. split; [|done]. by apply (change_effect s M (key, None)).
    + eexists. split; [reflexivity|]. split; [by apply effect_refl|done].
  - unfold put_batch. rewrite Hi. cbn [negb]. eexists. split; [reflexivity|]. split.
    + apply inserts_effect; [done|by apply put_batch_ok].
    + cbn. by rewrite puts_apply, put_batch_folds.
  - destruct Hok as [Hk Hlen]. destruct (delete_batch keys s) as [r s'] eqn:E.
    destruct (delete_batch_effect s M keys r s' L Hk Hlen E) as [-> Ef]. exists s'. cbn [spec_op fst snd].
    rewrite dels_count, dels_apply, filter_coalesced. done.
Qed.

Lemma persist_holds s m : holds s m -> records_ok (re_records (st_engine s)) -> holds (persist_records s) (re_records (st_engine s)).
Proof.
  intros (B & cs & [Hd _ _ _ _ _] & _ & _) Hr. exists (re_records (st_engine s)), []. split_and!; [|done..].
  split; try done; [by right|constructor|apply torn_nil|left; auto].
Qed.

Lemma holds_memory s s' M : dir s' = dir s -> re_journal_file (st_engine s') = re_journal_file (st_engine s) \/ re_journal_file (st_engine s') = false ->
  holds s M -> holds s' M.
Proof.
  intros Ed Ej (B & cs & I & E & Hh). exists B, cs. rewrite Ed. split_and!; [done..|]. intros Ho. apply Hh. destruct Ej; congruence.
Qed.

Lemma tracks_off s M f : tracks s false M -> (forall e, re_journal_file (f e) = re_journal_file e) -> (forall e, re_initialized (f e) = false) ->
  tracks (on_engine f s) false M.
Proof. intros (H & _ & _) Hf Hi. split; [|split; [apply Hi|done]]. apply (holds_memory s); [done|left; apply Hf|done]. Qed.

Lemma get_batch_ok keys s M : live s M -> get_batch keys s = Returns (Ok ((fun key => M !! key) <$> keys)).
Proof.
  intros (Hi & Em & _). unfold get_batch. rewrite Hi, Em. cbn [negb]. case_bool_decide as E; [by subst|].
  pose proof (expand_coalesced (fun key => M !! key) keys) as H. destruct (coalesce_storage_batch_key_refs keys) as [uk ps]. by rewrite H.
Qed.

(** One operation, whatever the state it is applied in. *)
Lemma store_op_step op s on M : tracks s on M -> store_op_ok op -> (op = OpStart -> small (dir s)) ->
  exists s', run_store_op op s = Returns ((spec_op op on M).1, s') /\ tracks s' (spec_op op on M).2.1 (spec_op op on M).2.2.
Proof.
  intros T Hok Hsm. pose proof T as (H & Hi & Hm). destruct (writes_changes op) eqn:Hw.
  { destruct on.
    - destruct (write_op_effect op s M Hw Hok) as (s' & E & Ef & Es); [by apply tracks_live|]. exists s'. rewrite Es. split; [done|]. by eapply effect_tracks.
    - exists s. destruct op; try done; cbn in *; unfold store_put, put_view, store_delete, put_batch, delete_batch; rewrite Hi; done. }
  destruct op as [| key | key | | | keys | | | | | ]; try done; cbn [run_store_op spec_op fst snd].
  - exists s. split; [|done]. unfold store_get, get_owned. rewrite Hi. destruct on; cbn; [|done]. rewrite Hm by done. by destruct (M !! key).
  - exists s. split; [|done]. unfold store_peek. rewrite Hi. destruct on; cbn; [|done]. by rewrite Hm.
  - exists s. destruct on.
    + rewrite (get_batch_ok keys s M) by (by apply tracks_live). done.
    + unfold get_batch. rewrite Hi. done.
  - unfold store_reset. rewrite Hi. destruct on; cbn [negb fst snd]; [|by exists s]. eexists. split; [reflexivity|]. split; [|done].
    set (s1 := on_engine _ s). apply (persist_holds s1 M); [|done]. apply (holds_memory s); [done|by left|done].
  - destruct H as (B & cs & I & -> & Hh). destruct s as [e dk]. destruct (start_reads e dk B cs [] I (Hsm eq_refl)) as (e' & -> & Hi' & Er & Ej).
    eexists. split; [reflexivity|]. split; [|done]. exists B, cs. split_and!; [done..|]. cbn. rewrite Ej. apply Hh.
  - unfold store_stop. rewrite Hi. destruct on; cbn [fst snd].
    + eexists. split; [reflexivity|]. split; [|done]. specialize (Hm eq_refl). rewrite <- Hm in H |- *.
      pose proof (persist_journaled s _ H eq_refl) as (_ & Hp & _). apply (holds_memory (persist_records s)); [done|by left|exact Hp].
    + eexists. split; [reflexivity|]. by apply tracks_off.
  - eexists. split; [reflexivity|]. split; [|done]. apply (holds_memory s); [done|by right|done].
Qed.

Fixpoint run_store_ops (ops : list store_op) s : outcome (list store_out * Store) :=
  match ops with
  | [] => Returns ([], s)
  | op :: ops =>
      match run_store_op op s with
      | Panics => Panics
      | Returns (out, s) => match run_store_ops ops s with Panics => Panics | Returns (outs, s) => Returns (out :: outs, s) end
      end
  end.
Fixpoint spec_ops (ops : list store_op) (on : bool) M : list store_out * (bool * gmap string bytes) :=
  match ops with
  | [] => ([], (on, M))
  | op :: ops =>
      let '(out, (on, M)) := spec_op op on M in
      let '(outs, st) := spec_ops ops on M in (out :: outs, st)
  end.

(** The files that a start reads are below 2^63 bytes. *)
Fixpoint small_starts (ops : list store_op) s : Prop :=
  match ops with
  | [] => True
  | op :: ops =>
      (op = OpStart -> small (dir s)) /\ match run_store_op op s with Returns (_, s) => small_starts ops s | Panics => True end
  end.

Definition empty_dir : Directory := mkDir false None None.
Definition empty_store : Store := mkStore new_file_engine (mkDisk empty_dir []).

Lemma empty_store_tracks : tracks empty_store false ∅.
Proof.
  split; [|done]. exists ∅, []. split_and!; [|done..]. split; try done; [by left|constructor|apply torn_nil|left; auto].
Qed.

Lemma run_store_refines ops s on M : tracks s on M -> Forall store_op_ok ops -> small_starts ops s ->
  exists s', run_store_ops ops s = Returns ((spec_ops ops on M).1, s') /\ tracks s' (spec_ops ops on M).2.1 (spec_ops ops on M).2.2.
Proof.
  revert s on M. induction ops as [|op ops IH]; intros s on M T Hok Hsm; [by exists s|]. apply Forall_cons in Hok as [Hop Hok].
  destruct Hsm as [Hs1 Hsm]. destruct (store_op_step op s on M T Hop Hs1) as (s1 & E1 & T1). cbn [run_store_ops spec_ops]. rewrite E1 in Hsm |- *.
  destruct (spec_op op on M) as [out [on1 M1]]. cbn [fst snd] in *. destruct (IH s1 on1 M1 T1 Hok Hsm) as (s2 & -> & T2).
  destruct (spec_ops ops on1 M1) as [outs [on2 M2]]. by exists s2.
Qed.

(** C18. From an empty directory, every history of puts, gets, deletes,
    batches, resets, starts, stops and crashes between operations answers as a
    map from keys to values does that a stop or a crash does not change, and
    never panics. *)
Theorem file_store_refines (ops : list store_op) : Forall store_op_ok ops -> small_starts ops empty_store ->
  exists s, run_store_ops ops empty_store = Returns ((spec_ops ops false ∅).1, s) /\
    (re_initialized (st_engine s) = true -> re_records (st_engine s) = (spec_ops ops false ∅).2.2).
Proof.
  intros Hok Hsm. destruct (run_store_refines ops empty_store false ∅ empty_store_tracks Hok Hsm) as (s & E & _ & Hi & Hm).
  exists s. split; [done|]. rewrite Hi. exact Hm.
Qed.

Definition demo_store_ops : list store_op :=
  [OpStart; OpPut "a" [x01]; OpPutBatch [("b"%string, [x02]); ("b"%string, [x03])]; OpCrash; OpGet "a"; OpStart; OpGetBatch ["b"; "a"; "b"]%string;
   OpDeleteBatch ["a"; "zz"; "a"]%string; OpStop; OpStart; OpDelete "a"; OpGet "b"]%string.

Example demo_store_run : match run_store_ops demo_store_ops empty_store with Returns (outs, _) => outs | Panics => [] end =
  [OutBool true; OutBuffer (Ok (mkBuffer "a" [x01])); OutCount (Ok 2); OutNone; OutBuffer (Err Stopped); OutBool true;
   OutValues (Ok [Some [x03]; Some [x01]; Some [x03]]); OutCount (Ok 1); OutBool true; OutBool true; OutUnit (Err NotFound);
   OutBuffer (Ok (mkBuffer "b" [x03]))].
Proof. vm_compute. reflexivity. Qed.

Definition is_small d : bool :=
  match dir_store d with Some v => blen v <? 2 ^ 63 | None => true end && match dir_journal d with Some v => blen v <? 2 ^ 63 | None => true end.
Fixpoint starts_are_small (ops : list store_op) s : bool :=
  match ops with
  | [] => true
  | op :: ops =>
      match op with OpStart => is_small (dir s) | _ => true end &&
      match run_store_op op s with Returns (_, s) => starts_are_small ops s | Panics => true end
  end.

Lemma is_small_true d : is_small d = true -> small d.
Proof. intros [H1 H2]%andb_prop. split; intros v E; rewrite E in *; by apply Z.ltb_lt. Qed.

Lemma starts_are_small_true ops s : starts_are_small ops s = true -> small_starts ops s.
Proof.
  revert s. induction ops as [|op ops IH]; intros s; [done|]. cbn. intros [H1 H2]%andb_prop. split.
  - intros ->. by apply is_small_true.
  - destruct (run_store_op op s) as [[out s1]|]; [by apply IH|done].
Qed.

Lemma file_store_refines_witness :
  Forall store_op_ok demo_store_ops /\ small_starts demo_store_ops empty_store /\
  exists s, run_store_ops demo_store_ops empty_store = Returns ((spec_ops demo_store_ops false ∅).1, s) /\
    (re_initialized (st_engine s) = true -> re_records (st_engine s) = (spec_ops demo_store_ops false ∅).2.2).
Proof.
  assert (Forall store_op_ok demo_store_ops) as H1 by (repeat constructor).
  assert (small_starts demo_store_ops empty_store) as H2 by (apply starts_are_small_true; vm_compute; reflexivity).
  split; [exact H1|split; [exact H2|exact (file_store_refines demo_store_ops H1 H2)]].
Defined.

(** ** Crashes in the middle of an operation *)

Definition fresh d : Store := mkStore new_file_engine (mkDisk d []).
(** The disk writes between two states. *)
Definition writes_between s s' : list disk_write := drop (length (dk_writes (st_disk s))) (dk_writes (st_disk s')).

Lemma journaled_crash s M s' ds d : journaled s M s' ds -> crash (dir s) (writes_between s s') d -> outlasts d (prefix_of M ds).
Proof.
  intros (_ & _ & ws & Ew & _ & Hsafe). unfold writes_between. rewrite Ew, drop_app_length. apply Hsafe.
Qed.

Lemma cut_magic_refused d : cut_magic d -> exists s, store_start (fresh d) = Returns (false, s).
Proof.
  intros (n & Hn & Hj). unfold store_start. cbn [fresh st_disk dk_dir]. destruct (dir_is_file d); [by eexists|].
  unfold load_records. cbn [fresh st_disk dk_dir st_engine].
  assert (forall m, replay_journal (dir_journal d) m = Returns (Err CorruptBlock, m)) as Hr.
  { intros m. rewrite Hj. unfold replay_journal, starts_with. rewrite bool_decide_eq_false_2.
    - cbn [negb]. rewrite bool_decide_eq_false_2; [done|]. intros E. apply (f_equal length) in E. rewrite length_take in E. cbn [length] in E. lia.
    - intros E. apply (f_equal length) in E. rewrite !length_take in E. lia. }
  destruct (dir_store d) as [raw|].
  - destruct (decode_store raw); [rewrite Hr|]; eexists; reflexivity.
  - rewrite Hr. eexists; reflexivity.
Qed.

Lemma recovers_starts d M : recovers d M -> small d ->
  exists s, store_start (fresh d) = Returns (true, s) /\ re_records (st_engine s) = M.
Proof.
  intros (B & cs & t & I & ->) Hs. destruct (start_reads new_file_engine (mkDisk d []) B cs t I Hs) as (e & E & _ & Er & _).
  eexists. split; [exact E|done].
Qed.

(** C19. When the process dies at any point of a put, a delete, a batch or a
    stop, with the last append cut anywhere, the next start reads the map back
    with the first few of the operation's changes, in their order, and nothing
    else -- unless the cut was in the first bytes a new journal has, when the
    next start is refused. *)
Theorem crash_leaves_prefix (ops : list store_op) (op : store_op) (outs : list store_out) (out : store_out) (s s' : Store) (d : Directory) (M : gmap string bytes) :
  Forall store_op_ok ops -> small_starts ops empty_store -> run_store_ops ops empty_store = Returns (outs, s) ->
  (spec_ops ops false ∅).2 = (true, M) ->
  store_op_ok op -> writes_changes op = true \/ op = OpStop -> run_store_op op s = Returns (out, s') ->
  crash (dir s) (writes_between s s') d -> small d ->
  (cut_magic d /\ exists s0, store_start (fresh d) = Returns (false, s0)) \/
  exists j s0, store_start (fresh d) = Returns (true, s0) /\ re_records (st_engine s0) = apply_changes (take j (op_changes op M)) M.
Proof.
  intros Hok Hsm E Es Hop Hw Eop Hc Hd.
  destruct (run_store_refines ops empty_store false ∅ empty_store_tracks Hok Hsm) as (s1 & E1 & T). rewrite E in E1. injection E1 as _ <-.
  rewrite Es in T. cbn [fst snd] in T. assert (live s M) as L by (by apply tracks_live). pose proof L as (Hi & Em & H).
  assert (journaled s M s' (op_changes op M)) as J.
  { destruct Hw as [Hw| ->].
    - destruct (write_op_effect op s M Hw Hop L) as (s2 & E2 & [J _] & _). rewrite Eop in E2. by injection E2 as _ <-.
    - cbn in Eop. unfold store_stop in Eop. rewrite Hi in Eop. injection Eop as _ <-. apply journaled_then_engine; [done|]. by apply persist_journaled. }
  destruct (journaled_crash _ _ _ _ _ J Hc) as [Hcut|(M' & [j ->] & Hr)]; [left; split; [done|by apply cut_magic_refused]|right].
  destruct (recovers_starts d _ Hr Hd) as (s0 & E0 & Er). by exists j, s0.
Qed.

Definition after (ops : list store_op) s : Store := match run_store_ops ops s with Returns (_, s) => s | Panics => s end.

(** Two entries, the second of them cut. *)
Definition crash_ops : list store_op := [OpStart; OpPut "a" [x05]]%string.
Definition crash_op : store_op := OpPutBatch [("b"%string, [x01]); ("c"%string, [x02; x03])].
Definition crash_before : Store := after crash_ops empty_store.
Definition crash_dir : Directory :=
  match writes_between crash_before (after [crash_op] crash_before) with
  | AppendJournal v :: AppendJournal w :: _ => apply_write (AppendJournal (take 18 w)) (apply_write (AppendJournal v) (dir crash_before))
  | _ => empty_dir
  end.

Lemma crash_leaves_prefix_witness :
  crash (dir crash_before) (writes_between crash_before (after [crash_op] crash_before)) crash_dir /\
  ((cut_magic crash_dir /\ exists s0, store_start (fresh crash_dir) = Returns (false, s0)) \/
   exists j s0, store_start (fresh crash_dir) = Returns (true, s0) /\
     re_records (st_engine s0) = apply_changes (take j (op_changes crash_op {["a"%string := [x05]]})) {["a"%string := [x05]]}).
Proof.
  assert (crash (dir crash_before) (writes_between crash_before (after [crash_op] crash_before)) crash_dir) as Hc.
  { unfold crash_dir. assert (exists v w, writes_between crash_before (after [crash_op] crash_before) = [AppendJournal v; AppendJournal w]) as (v & w & E)
      by (eexists _, _; vm_compute; reflexivity). rewrite E. apply crash_later, crash_cut. }
  split; [exact Hc|].
  apply (crash_leaves_prefix crash_ops crash_op [OutBool true; OutBuffer (Ok (mkBuffer "a" [x05]))] (OutCount (Ok 2))
    crash_before (after [crash_op] crash_before));
    [repeat constructor|apply starts_are_small_true; vm_compute; reflexivity|vm_compute; reflexivity|vm_compute; reflexivity
    |repeat constructor|by left|vm_compute; reflexivity|exact Hc|].
  apply is_small_true. vm_compute. reflexivity.
Defined.

(** ** Where the guarantee ends *)

(** A put of ten bytes, cut eight bytes short. *)
Definition torn_op : store_op := OpPut "b" [x01; x02; x03; x04; x05; x06; x07; x08; x09; x0a].
Definition torn_dir : Directory :=
  match writes_between crash_before (after [torn_op] crash_before) with
  | AppendJournal v :: _ => apply_write (AppendJournal (take 20 v)) (dir crash_before)
  | _ => empty_dir
  end.

(** The start after a crash in a put succeeds and leaves the torn tail in
    the journal; the next record is appended behind it, so that the record
    that was acknowledged is read as part of the torn one: after the next
    crash the store does not start at all. *)
Theorem torn_tail_swallows_next :
  crash (dir crash_before) (writes_between crash_before (after [torn_op] crash_before)) torn_dir /\
  match run_store_ops [OpStart; OpPut "c" [x2a; x2b]; OpGet "c"; OpCrash; OpStart] (fresh torn_dir) with
  | Returns (outs, _) => outs = [OutBool true; OutBuffer (Ok (mkBuffer "c" [x2a; x2b])); OutBuffer (Ok (mkBuffer "c" [x2a; x2b])); OutNone; OutBool false]
  | Panics => False
  end.
Proof.
  split; [|vm_compute; reflexivity]. unfold torn_dir.
  assert (exists v, writes_between crash_before (after [torn_op] crash_before) = [AppendJournal v]) as [v E] by (eexists; vm_compute; reflexivity).
  rewrite E. apply crash_cut.
Qed.

(** A snapshot with one key and a journal with another. *)
Definition reset_before : Store := after [OpStart; OpPut "a" [x05]; OpStop; OpStart; OpPut "b" [x06]]%string empty_store.
Definition reset_dir : Directory :=
  match writes_between reset_before (after [OpReset] reset_before) with w :: _ => apply_write w (dir reset_before) | [] => empty_dir end.

(** A crash between the two disk writes of a reset leaves the empty snapshot
    and the old journal: what the journal has comes back. *)
Example interrupted_reset_revives :
  match run_store_ops [OpStart; OpGetBatch ["a"; "b"]%string] (fresh reset_dir) with
  | Returns (outs, _) => outs = [OutBool true; OutValues (Ok [None; Some [x06]])]
  | Panics => False
  end.
Proof. vm_compute. reflexivity. Qed.
