(* ===== verification/MultiStore.v ===== *)
(** * Several devices

    StorageEngineMultiSsd of runtime/storage_engines.rs over file-backed
    stores: one store per path, keys spread over them by hash.  The paths name
    directories of one file system.  An index past the storages is a panic. *)

From Stdlib Require Import Strings.Byte.
From S2P Require Import Prelude Hashes BlockCodec SsdRecords Ordering MemStorage StorageBatch FileStore.

(** A storage and the path it was made with. *)
Record StorageEngineMultiSsd := mkMulti {
  mu_paths : list string;
  mu_storages : list (string * StorageEngineRocksDb);
  mu_capacity : Z;
  mu_initialized : bool }.

(** The engine and the file system. *)
Record Multi := mkMultiState { mu_engine : StorageEngineMultiSsd; mu_disks : gmap string Disk }.

Section multi.
Implicit Types (w : Multi) (e : StorageEngineMultiSsd).

Definition multi_new (paths : list string) (capacity : Z) : StorageEngineMultiSsd := mkMulti paths [] capacity false.

Definition new_disk : Disk := mkDisk (mkDir false None None) [].
Definition disk_at (path : string) w : Disk := default new_disk (mu_disks w !! path).

Definition set_storages (storages : list (string * StorageEngineRocksDb)) w : Multi :=
  let e := mu_engine w in mkMultiState (mkMulti (mu_paths e) storages (mu_capacity e) (mu_initialized e)) (mu_disks w).
Definition set_multi_initialized (b : bool) w : Multi :=
  let e := mu_engine w in mkMultiState (mkMulti (mu_paths e) (mu_storages e) (mu_capacity e) b) (mu_disks w).
Definition set_paths (paths : list string) w : Multi :=
  let e := mu_engine w in mkMultiState (mkMulti paths (mu_storages e) (mu_capacity e) (mu_initialized e)) (mu_disks w).

(** *** One storage *)

Definition shard (i : nat) w : option Store := pe ← mu_storages (mu_engine w) !! i; Some (mkStore pe.2 (disk_at pe.1 w)).
Definition set_shard (i : nat) (s : Store) w : Multi :=
  match mu_storages (mu_engine w) !! i with
  | None => w
  | Some pe =>
      let e := mu_engine w in
      mkMultiState (mkMulti (mu_paths e) (<[i := (pe.1, st_engine s)]> (mu_storages e)) (mu_capacity e) (mu_initialized e))
        (<[pe.1 := st_disk s]> (mu_disks w))
  end.
(** [self.storages[index]]. *)
Definition at_shard {A} (i : nat) (f : Store -> A * Store) w : outcome (A * Multi) :=
  match shard i w with
  | None => Panics
  | Some s => let '(a, s) := f s in Returns (a, set_shard i s w)
  end.

(** *** Starting and stopping *)

Definition create_storage_by_device_path e : StorageEngineRocksDb :=
  if mu_capacity e =? 0 then new_file_engine else engine_set_capacity (mu_capacity e) new_file_engine.

(** A start reads the directory and writes nothing. *)
Fixpoint init_storages (paths : list string) (storages : list (string * StorageEngineRocksDb)) w : outcome (bool * Multi) :=
  match paths with
  | [] => Returns (true, set_storages storages w)
  | path :: paths =>
      match store_start (mkStore (create_storage_by_device_path (mu_engine w)) (disk_at path w)) with
      | Panics => Panics
      | Returns (false, _) => Returns (false, set_storages [] w)
      | Returns (true, s) => init_storages paths (storages ++ [(path, st_engine s)]) w
      end
  end.
Definition multi_init w : outcome (bool * Multi) :=
  if bool_decide (mu_paths (mu_engine w) = []) then Returns (false, w) else init_storages (mu_paths (mu_engine w)) [] w.
Definition multi_start w : outcome (bool * Multi) :=
  if mu_initialized (mu_engine w) then Returns (true, w)
  else match multi_init w with
  | Panics => Panics
  | Returns (false, w) => Returns (false, w)
  | Returns (true, w) => Returns (true, set_multi_initialized true w)
  end.
Definition for_shards {A} (f : Store -> A * Store) (indices : list nat) w : Multi :=
  foldl (fun w i => match shard i w with None => w | Some s => set_shard i (f s).2 w end) w indices.
Definition multi_stop w : bool * Multi :=
  let w := for_shards store_stop (seq 0 (length (mu_storages (mu_engine w)))) w in (true, set_multi_initialized false w).

(** *** Devices *)

Definition multi_hash (key : string) : Z := mur_mur_hash2 (key_bytes key).
Definition device_index (key : string) (count : nat) : nat := Z.to_nat (multi_hash key `mod` Z.of_nat count).
Definition shard_count w : nat :=
  let e := mu_engine w in
  if mu_initialized e && negb (bool_decide (mu_storages e = [])) then length (mu_storages e) else length (mu_paths e).
(** The operations refuse to run before the start and without storages. *)
Definition not_ready w : bool := negb (mu_initialized (mu_engine w)) || bool_decide (mu_storages (mu_engine w) = []).
Definition storage_index (key : string) w : result nat :=
  if not_ready w then Err Stopped else Ok (device_index key (length (mu_storages (mu_engine w)))).
Definition device_for_key (key : string) w : option string :=
  let count := shard_count w in
  if (count =? 0)%nat then None else mu_paths (mu_engine w) !! device_index key count.

Definition add_device (path : string) w : outcome (bool * Multi) :=
  let e := mu_engine w in
  if bool_decide (path ∈ mu_paths e) then Returns (false, w)
  else
    let storage := create_storage_by_device_path e in
    if mu_initialized e then
      match store_start (mkStore storage (disk_at path w)) with
      | Panics => Panics
      | Returns (false, _) => Returns (false, w)
      | Returns (true, s) => Returns (true, set_storages (mu_storages e ++ [(path, st_engine s)]) (set_paths (mu_paths e ++ [path]) w))
      end
    else Returns (true, set_paths (mu_paths e ++ [path]) w).
Definition remove_device (path : string) w : bool * Multi :=
  let e := mu_engine w in
  match find_position path (mu_paths e) with
  | None => (false, w)
  | Some i =>
      let w' := set_paths (delete i (mu_paths e)) w in
      (true, if mu_initialized e && (i <? length (mu_storages e))%nat then set_storages (delete i (mu_storages e)) w' else w')
  end.
Definition multi_set_capacity (capacity : Z) w : Multi :=
  let e := mu_engine w in
  mkMultiState (mkMulti (mu_paths e) ((fun pe => (pe.1, engine_set_capacity capacity pe.2)) <$> mu_storages e) capacity (mu_initialized e)) (mu_disks w).

(** *** Single keys *)

Definition on_key {A} (key : string) (f : Store -> result A * Store) w : outcome (result A * Multi) :=
  match storage_index key w with Err e => Returns (Err e, w) | Ok i => at_shard i f w end.
Definition multi_put (key : string) (value : bytes) : Multi -> outcome (result CacheBuffer * Multi) := on_key key (store_put key value).
Definition multi_put_view (key : string) (value : bytes) : Multi -> outcome (result (string * Z) * Multi) := on_key key (put_view key value).
Definition multi_delete (key : string) : Multi -> outcome (result unit * Multi) := on_key key (store_delete key).
Definition multi_get_owned (key : string) w : outcome (result bytes) :=
  match storage_index key w with
  | Err e => Returns (Err e)
  | Ok i => match shard i w with None => Panics | Some s => Returns (get_owned key s) end
  end.
Definition multi_get (key : string) w : outcome (result CacheBuffer) :=
  match storage_index key w with
  | Err e => Returns (Err e)
  | Ok i => match shard i w with None => Panics | Some s => Returns (store_get key s) end
  end.
Definition multi_peek (key : string) w : outcome bool :=
  match storage_index key w with
  | Err _ => Returns false
  | Ok i => match shard i w with None => Panics | Some s => Returns (store_peek key s) end
  end.

(** *** Batches *)

(** The devices in turn, skipping those that got nothing; an error ends the
    loop. *)
Fixpoint each_device {A B} (f : list A -> Store -> result B * Store) (acc : B -> B -> B) (i : nat) (routed : list (list A)) (total : B) w :
    outcome (result B * Multi) :=
  match routed with
  | [] => Returns (Ok total, w)
  | items :: routed =>
      if bool_decide (length items = 0%nat) then each_device f acc (S i) routed total w
      else match at_shard i (f items) w with
      | Panics => Panics
      | Returns (Err e, w) => Returns (Err e, w)
      | Returns (Ok n, w) => each_device f acc (S i) routed (acc total n) w
      end
  end.

Definition multi_put_batch (entries : list (string * bytes)) w : outcome (result Z * Multi) :=
  if not_ready w then Returns (Err Stopped, w)
  else if bool_decide (entries = []) then Returns (Ok 0, w)
  else
    let n := length (mu_storages (mu_engine w)) in
    match each_device put_batch (fun total _ => total) 0 (route n (fun kv => device_index kv.1 n) entries) 0 w with
    | Panics => Panics
    | Returns (Err e, w) => Returns (Err e, w)
    | Returns (Ok _, w) => Returns (Ok (Z.of_nat (length entries)), w)
    end.
Definition multi_delete_batch (keys : list string) w : outcome (result Z * Multi) :=
  if not_ready w then Returns (Err Stopped, w)
  else if bool_decide (keys = []) then Returns (Ok 0, w)
  else
    let n := length (mu_storages (mu_engine w)) in
    each_device delete_batch sat_add 0 (route n (fun key => device_index key n) (coalesce_storage_delete_keys keys)) 0 w.

(** [for ((index, _), value) in entries.zip(values) { out[index] = value; }]. *)
Definition scatter {V} (entries : list (nat * string)) (values : list (option V)) (out : list (option V)) : list (option V) :=
  foldl (fun out ev => <[ev.1.1 := ev.2]> out) out (zip entries values).
Fixpoint gather (get : list string -> Store -> outcome (result (list (option bytes)))) (i : nat) (routed : list (list (nat * string)))
    (out : list (option bytes)) w : outcome (result (list (option bytes))) :=
  match routed with
  | [] => Returns (Ok out)
  | entries :: routed =>
      if bool_decide (length entries = 0%nat) then gather get (S i) routed out w
      else match shard i w with
      | None => Panics
      | Some s =>
          match get (snd <$> entries) s with
          | Panics => Panics
          | Returns (Err e) => Returns (Err e)
          | Returns (Ok values) => gather get (S i) routed (scatter entries values out) w
          end
      end
  end.
(** Each key with its place in the batch, on its device. *)
Definition routed_keys (keys : list string) w : list (list (nat * string)) :=
  let n := length (mu_storages (mu_engine w)) in
  route n (fun ik : nat * string => device_index ik.2 n) (zip (seq 0 (length keys)) keys).
Definition multi_get_batch (keys : list string) w : outcome (result (list (option bytes))) :=
  if not_ready w then Returns (Err Stopped)
  else if bool_decide (keys = []) then Returns (Ok [])
  else
    let '(unique_keys, output_positions) := coalesce_storage_batch_key_refs keys in
    match gather get_batch 0 (routed_keys unique_keys w) (replicate (length unique_keys) None) w with
    | Panics => Panics
    | Returns (Err e) => Returns (Err e)
    | Returns (Ok unique_values) =>
        match expand_storage_batch_values unique_values output_positions with None => Panics | Some values => Returns (Ok values) end
    end.
Definition multi_get_unique_batch (keys : list string) w : outcome (result (list (option bytes))) :=
  if not_ready w then Returns (Err Stopped)
  else if bool_decide (keys = []) then Returns (Ok [])
  else gather (fun keys s => Returns (get_unique_batch keys s)) 0 (routed_keys keys w) (replicate (length keys) None) w.

(** *** Reset and recovery *)

Fixpoint reset_shards (indices : list nat) w : result unit * Multi :=
  match indices with
  | [] => (Ok tt, w)
  | i :: indices =>
      match shard i w with
      | None => (Ok tt, w)
      | Some s => match store_reset s with (Err e, s) => (Err e, set_shard i s w) | (Ok _, s) => reset_shards indices (set_shard i s w) end
      end
  end.
Definition multi_reset w : result unit * Multi :=
  if not_ready w then (Err Stopped, w) else reset_shards (seq 0 (length (mu_storages (mu_engine w)))) w.

Fixpoint recover_shards {S} (cb : string -> CacheBuffer -> S -> S) (indices : list nat) w (st : S) : result unit * S :=
  match indices with
  | [] => (Ok tt, st)
  | i :: indices =>
      match shard i w with
      | None => (Ok tt, st)
      | Some s => match store_recover_data cb s st with (Err e, st) => (Err e, st) | (Ok _, st) => recover_shards cb indices w st end
      end
  end.
Definition multi_recover_data {S} (cb : string -> CacheBuffer -> S -> S) w (st : S) : result unit * S :=
  if not_ready w then (Err Stopped, st) else recover_shards cb (seq 0 (length (mu_storages (mu_engine w)))) w st.
End multi.
