(* ===== verification/MultiStoreSpec.v ===== *)
(** * Several devices are one map

    As long as the devices do not change, the engine over several of them
    answers as one durable map does, whatever the hash; adding a device and
    removing it again brings old values back. *)

From Stdlib Require Import Strings.Byte.
From S2P Require Import Prelude Hashes BlockCodec SsdRecords Ordering MemStorage StorageBatch FileStore FileStoreFacts FileStoreDisk FileStoreOps FileStoreSpec MultiStore.

Abbreviation contents := (gmap string bytes).
Implicit Types (w : Multi) (M m : contents) (ms : list contents) (s : Store).

(** ** Routing *)

(** What the devices get adds up to the batch. *)
Lemma filter_partition {A} (device : A -> nat) n items : (forall x, x ∈ items -> (device x < n)%nat) ->
  sum_list ((fun i => length (filter (fun x => device x = i) items)) <$> seq 0 n) = length items.
Proof.
  induction items as [|x items IH]; intros H.
  - clear H. by induction (seq 0 n) as [|i l IHl].
  - assert (device x < n)%nat as Hx by (apply H; by left).
    assert (forall l, NoDup l -> sum_list ((fun i => length (filter (fun x => device x = i) (x :: items))) <$> l) =
      (sum_list ((fun i => length (filter (fun x => device x = i) items)) <$> l) + if decide (device x ∈ l) then 1 else 0)%nat) as Hl.
    { induction l as [|i l IHl]; intros Hnd; [done|]. apply NoDup_cons in Hnd as [Hi Hnd]. cbn [fmap list_fmap sum_list].
      rewrite IHl by done. rewrite filter_cons. destruct (decide (device x = i)) as [->|Hne].
      - rewrite (decide_False (P := i ∈ l)), (decide_True (P := i ∈ i :: l)) by (done || by left). cbn. lia.
      - destruct (decide (device x ∈ l)); [rewrite (decide_True (P := device x ∈ i :: l)) by (by right)|rewrite (decide_False (P := device x ∈ i :: l)) by (by rewrite elem_of_cons; intros [|])]; lia. }
    rewrite Hl by apply NoDup_seq. rewrite IH by (intros y Hy; apply H; by right).
    rewrite decide_True by (apply elem_of_seq; lia). cbn. lia.
Qed.

(** ** The invariant *)

Definition index_of ms (key : string) : nat := device_index key (length ms).

Lemma index_lt ms key : ms <> [] -> (index_of ms key < length ms)%nat.
Proof.
  intros H. unfold index_of, device_index. assert (0 < length ms)%nat by (destruct ms; [done|cbn; lia]).
  pose proof (Z.mod_pos_bound (multi_hash key) (Z.of_nat (length ms)) ltac:(lia)). lia.
Qed.

(** [M] is what the devices hold, each key on its own device. *)
Definition spread ms M : Prop := forall key, M !! key = ms !! index_of ms key ≫= fun m => m !! key.

(** The storages, each with what it holds. *)
Record shards_are (Q : Store -> contents -> Prop) w ms : Prop := {
  sl_nodup : NoDup (mu_storages (mu_engine w)).*1;
  sl_length : length (mu_storages (mu_engine w)) = length ms;
  sl_live i m : ms !! i = Some m -> exists s, shard i w = Some s /\ Q s m }.
Abbreviation shards_live := (shards_are live).

Lemma shards_lookup w ms i m : shards_live w ms -> ms !! i = Some m -> exists s, shard i w = Some s /\ live s m.
Proof. intros L. apply L. Qed.

Lemma set_shard_same i s s' w : shard i w = Some s -> shard i (set_shard i s' w) = Some s'.
Proof.
  unfold shard, set_shard. destruct (mu_storages (mu_engine w) !! i) as [pe|] eqn:E; [|done]. intros _. cbn.
  rewrite list_lookup_insert_eq by (by eapply lookup_lt_Some). cbn. unfold disk_at. cbn. rewrite lookup_insert_eq. by destruct s'.
Qed.

Lemma set_shard_other i j s' w : NoDup (mu_storages (mu_engine w)).*1 -> i <> j -> shard j (set_shard i s' w) = shard j w.
Proof.
  intros Hnd Hij. unfold shard, set_shard. destruct (mu_storages (mu_engine w) !! i) as [pe|] eqn:E; [|done]. cbn.
  rewrite list_lookup_insert_ne by done. destruct (mu_storages (mu_engine w) !! j) as [qe|] eqn:F; [|done]. cbn. unfold disk_at. cbn.
  rewrite lookup_insert_ne; [done|]. intros Eq. apply Hij. eapply NoDup_lookup; [exact Hnd| |]; rewrite list_lookup_fmap; [by rewrite E|by rewrite F, Eq].
Qed.

Lemma set_shard_engine i s w : let e := mu_engine (set_shard i s w) in
  mu_paths e = mu_paths (mu_engine w) /\ (mu_storages e).*1 = (mu_storages (mu_engine w)).*1 /\
  mu_initialized e = mu_initialized (mu_engine w) /\ mu_capacity e = mu_capacity (mu_engine w).
Proof.
  unfold set_shard. destruct (mu_storages (mu_engine w) !! i) as [pe|] eqn:E; [|done]. cbn. split_and!; try done.
  rewrite list_fmap_insert. cbn. apply list_insert_id. by rewrite list_lookup_fmap, E.
Qed.

Lemma set_shard_live i s s' w ms m' : shards_live w ms -> shard i w = Some s -> live s' m' -> shards_live (set_shard i s' w) (<[i := m']> ms).
Proof.
  intros [Hnd Hlen Hl] Hs Hs'. destruct (set_shard_engine i s' w) as (_ & E1 & _). split.
  - by rewrite E1.
  - rewrite length_insert, <- Hlen, <- (length_fmap fst), E1, length_fmap. done.
  - intros j m Hj. apply list_lookup_insert_Some in Hj as [(<- & <- & _)|[Hne Hj]].
    + exists s'. split; [by eapply set_shard_same|done].
    + rewrite set_shard_other by done. by apply Hl.
Qed.

(** Changing one device by its keys' changes. *)
Lemma spread_insert ms M i m' M' : spread ms M -> (i < length ms)%nat ->
  (forall key, index_of ms key = i -> M' !! key = m' !! key) -> (forall key, index_of ms key <> i -> M' !! key = M !! key) ->
  spread (<[i := m']> ms) M'.
Proof.
  intros S Hi H1 H2 key. unfold index_of in *. rewrite length_insert. destruct (decide (device_index key (length ms) = i)) as [E|E].
  - rewrite E, list_lookup_insert_eq by done. cbn. by apply H1.
  - rewrite list_lookup_insert_ne by done. rewrite H2 by done. apply S.
Qed.

(** ** One key *)

Record ready w ms M : Prop := {
  rd_init : mu_initialized (mu_engine w) = true;
  rd_some : ms <> [];
  rd_live : shards_live w ms;
  rd_spread : spread ms M;
  rd_paths : (mu_storages (mu_engine w)).*1 = mu_paths (mu_engine w) }.

Lemma ready_index w ms M key : ready w ms M -> not_ready w = false /\ storage_index key w = Ok (index_of ms key).
Proof.
  intros [Hi Hn [_ Hlen _] _ _]. assert (not_ready w = false) as E.
  { unfold not_ready. rewrite Hi. cbn. rewrite bool_decide_eq_false_2; [done|]. intros E. rewrite E in Hlen. by destruct ms. }
  split; [done|]. unfold storage_index. rewrite E. unfold index_of. by rewrite Hlen.
Qed.

Lemma ready_shard w ms M key : ready w ms M -> exists m s, ms !! index_of ms key = Some m /\ shard (index_of ms key) w = Some s /\ live s m /\
  M !! key = m !! key.
Proof.
  intros R. pose proof R as [_ Hn L S _]. destruct (lookup_lt_is_Some_2 ms (index_of ms key) (index_lt ms key Hn)) as [m Em].
  destruct (shards_lookup w ms _ m L Em) as (s & Es & Ls). exists m, s. split_and!; [done..|]. by rewrite S, Em.
Qed.

Lemma ready_set w ms M i s s' m' M' : ready w ms M -> shard i w = Some s -> live s' m' -> spread (<[i := m']> ms) M' ->
  ready (set_shard i s' w) (<[i := m']> ms) M'.
Proof.
  intros [Hi Hn L S Hp] Hs Hl Hsp. destruct (set_shard_engine i s' w) as (E1 & E2 & E3 & _). split.
  - by rewrite E3.
  - intros E. apply (f_equal length) in E. rewrite length_insert in E. by destruct ms.
  - by eapply set_shard_live.
  - done.
  - by rewrite E1, E2.
Qed.

(** An operation on one key does on its device what it would do on a store
    that had the whole map. *)
Lemma on_key_ready {A} key (f : Store -> result A * Store) w ms M (r : contents -> result A) (g : contents -> contents) :
  ready w ms M ->
  (forall s m, live s m -> exists s', f s = (r m, s') /\ live s' (g m)) ->
  (forall m, m !! key = M !! key -> r m = r M /\ g m !! key = g M !! key) ->
  (forall m k, k <> key -> g m !! k = m !! k) ->
  exists w' ms', on_key key f w = Returns (r M, w') /\ ready w' ms' (g M).
Proof.
  intros R Hf Hr Hg. destruct (ready_index w ms M key R) as [_ Ei]. destruct (ready_shard w ms M key R) as (m & s & Em & Es & Ls & Ek).
  destruct (Hf s m Ls) as (s' & Ef & Ls'). destruct (Hr m (eq_sym Ek)) as [Er Eg].
  unfold on_key, at_shard. rewrite Ei, Es, Ef, Er. eexists _, _. split; [reflexivity|].
  eapply ready_set; [done|done|exact Ls'|]. pose proof R as [_ Hn _ S _].
  eapply spread_insert; [exact S|by apply index_lt| |].
  - intros k Hk. destruct (decide (k = key)) as [->|Hne]; [done|]. rewrite !Hg by done. by rewrite S, Hk, Em.
  - intros k Hk. destruct (decide (k = key)) as [->|Hne]; [done|]. by apply Hg.
Qed.

(** ** A batch over the devices *)

Section batch.
Context {A B : Type} (f : list A -> Store -> result B * Store) (acc : B -> B -> B).
Context (cnt : list A -> contents -> B) (upd : list A -> contents -> contents) (P : list A -> Prop).
Context (Hf : forall items s m, P items -> live s m -> exists s', f items s = (Ok (cnt items m), s') /\ live s' (upd items m)).
Context (Hupd : forall m, upd [] m = m).

Definition totals (routed : list (list A)) ms (total : B) : B :=
  foldl (fun t im => if bool_decide (length im.1 = 0%nat) then t else acc t (cnt im.1 im.2)) total (zip routed ms).

(** What the engine keeps while its devices work. *)
Definition same_devices w w' : Prop :=
  mu_initialized (mu_engine w') = mu_initialized (mu_engine w) /\ (mu_storages (mu_engine w')).*1 = (mu_storages (mu_engine w)).*1 /\
  mu_paths (mu_engine w') = mu_paths (mu_engine w).

Lemma set_shard_devices i s w : same_devices w (set_shard i s w).
Proof. by destruct (set_shard_engine i s w) as (? & ? & ? & _). Qed.
Lemma same_devices_trans w1 w2 w3 : same_devices w1 w2 -> same_devices w2 w3 -> same_devices w1 w3.
Proof. unfold same_devices. intuition congruence. Qed.

Lemma each_device_ok routed ms1 ms2 w total : shards_live w (ms1 ++ ms2) -> length routed = length ms2 -> Forall P routed ->
  exists w', each_device f acc (length ms1) routed total w = Returns (Ok (totals routed ms2 total), w') /\
    shards_live w' (ms1 ++ zip_with upd routed ms2) /\ same_devices w w'.
Proof using Hf Hupd.
  revert ms1 ms2 w total. induction routed as [|items routed IH]; intros ms1 ms2 w total L Hlen HP; (destruct ms2 as [|m ms2]; [try done|]); [|done|].
  { by exists w. }
  apply Forall_cons in HP as [Hitems HP]. cbn [each_device length zip_with] in *.
  assert (S (length ms1) = length (ms1 ++ [upd items m])) as Es by (rewrite length_app; cbn; lia).
  replace (ms1 ++ upd items m :: zip_with upd routed ms2) with ((ms1 ++ [upd items m]) ++ zip_with upd routed ms2) by (by rewrite <- app_assoc).
  unfold totals. cbn [zip_with foldl fst snd]. case_bool_decide as Hnil.
  - apply nil_length_inv in Hnil as ->. rewrite Es. apply IH; [|lia|done]. rewrite Hupd, <- app_assoc. done.
  - destruct (shards_lookup w (ms1 ++ m :: ms2) (length ms1) m L) as (s & Hs & Ls); [by rewrite list_lookup_middle|].
    destruct (Hf items s m Hitems Ls) as (s' & Ef & Ls'). unfold at_shard. rewrite Hs, Ef. rewrite Es.
    destruct (IH (ms1 ++ [upd items m]) ms2 (set_shard (length ms1) s' w) (acc total (cnt items m))) as (w' & E & L' & D'); [|lia|done|].
    + pose proof (set_shard_live _ _ _ _ _ _ L Hs Ls') as Lx. rewrite insert_app_r_alt, Nat.sub_diag in Lx by lia. cbn in Lx. by rewrite <- app_assoc.
    + exists w'. split; [exact E|]. split; [done|]. eapply same_devices_trans; [apply set_shard_devices|done].
Qed.

Lemma each_device_ready (device : A -> nat) items w ms M M' total : ready w ms M -> Forall P (route (length ms) device items) ->
  spread (zip_with upd (route (length ms) device items) ms) M' ->
  exists w' ms', each_device f acc 0 (route (length ms) device items) total w =
    Returns (Ok (totals (route (length ms) device items) ms total), w') /\ ready w' ms' M'.
Proof using Hf Hupd.
  intros [Hi Hn L S Hp] HP S'. destruct (each_device_ok (route (length ms) device items) [] ms w total) as (w' & E & L' & (D1 & D2 & D3));
    [done|by rewrite route_length|done|].
  exists w', (zip_with upd (route (length ms) device items) ms). split; [done|]. split; [congruence| |done|done|congruence].
  intros Ez. apply (f_equal length) in Ez. rewrite length_zip_with, route_length, Nat.min_id in Ez. by destruct ms.
Qed.
End batch.

Lemma filter_keeps {A} (P Q : A -> Prop) `{forall x, Decision (Q x)} l : Forall P l -> Forall P (filter Q l).
Proof. rewrite !Forall_forall. intros Hl x [_ Hx]%list_elem_of_filter. by apply Hl. Qed.

Lemma route_keeps {A} (P : A -> Prop) n (device : A -> nat) items : Forall P items -> Forall (Forall P) (route n device items).
Proof.
  intros HP. apply Forall_lookup. intros i l Hl. rewrite route_lookup in Hl by (apply lookup_lt_Some in Hl; by rewrite route_length in Hl).
  injection Hl as <-. by apply filter_keeps.
Qed.

(** *** Puts *)

Lemma insert_records_filter (device : string -> nat) (l : list (string * bytes)) m M key :
  m !! key = M !! key -> insert_records (filter (fun kv => device kv.1 = device key) l) m !! key = insert_records l M !! key.
Proof.
  intros E. induction l as [|[k v] l IH] using rev_ind; [done|]. rewrite filter_app, filter_cons, filter_nil, insert_records_last. cbn [fst].
  destruct (decide (k = key)) as [->|Hne].
  - rewrite decide_True by done. by rewrite insert_records_last, !lookup_insert_eq.
  - rewrite (lookup_insert_ne _ k key) by done. case_decide; [rewrite insert_records_last, lookup_insert_ne by done; done|by rewrite app_nil_r].
Qed.

Lemma spread_zip {A} (upd : list A -> contents -> contents) (device : A -> nat) items ms M M' : ms <> [] -> spread ms M ->
  (forall m key, m !! key = M !! key -> upd (filter (fun x => device x = index_of ms key) items) m !! key = M' !! key) ->
  spread (zip_with upd (route (length ms) device items) ms) M'.
Proof.
  intros Hn S H key. pose proof (index_lt ms key Hn) as Hi. unfold index_of in *.
  rewrite length_zip_with, route_length, Nat.min_id. rewrite lookup_zip_with, route_lookup by done. cbn.
  destruct (lookup_lt_is_Some_2 ms _ Hi) as [m Em]. rewrite Em. cbn. rewrite H; [done|]. specialize (S key). unfold index_of in S. by rewrite S, Em.
Qed.

Lemma put_batch_live entries s m : Forall entry_ok entries -> live s m ->
  exists s', put_batch entries s = (Ok (Z.of_nat (length entries)), s') /\ live s' (insert_records entries m).
Proof.
  intros Hok L. destruct (write_op_effect (OpPutBatch entries) s m eq_refl Hok L) as (s' & E & Ef & Es). cbn in E.
  destruct (put_batch entries s) as [r s1]. injection E as -> ->. exists s'. split; [done|]. cbn [spec_op snd] in Es. injection Es as Es.
  rewrite Es. apply Ef.
Qed.

Lemma multi_put_batch_ready entries w ms M : Forall entry_ok entries -> ready w ms M ->
  exists w' ms', multi_put_batch entries w = Returns (Ok (Z.of_nat (length entries)), w') /\ ready w' ms' (insert_records entries M).
Proof.
  intros Hok R. destruct (ready_index w ms M "" R) as [En _]. unfold multi_put_batch. rewrite En. pose proof R as [_ Hn [_ Hlen _] S _].
  case_bool_decide as Hnil; [subst; exists w, ms; done|]. rewrite Hlen.
  destruct (each_device_ready put_batch (fun total _ => total) (fun l _ => Z.of_nat (length l)) insert_records (Forall entry_ok)
    put_batch_live ltac:(done) (fun kv : string * bytes => device_index kv.1 (length ms)) entries w ms M (insert_records entries M) 0 R) as (w' & ms' & -> & R').
  - by apply route_keeps.
  - eapply spread_zip; [done|exact S|]. intros m key E. by apply (insert_records_filter (fun k => device_index k (length ms)) entries m M key).
  - exists w', ms'. done.
Qed.

(** *** Deletes *)

Lemma coalesce_nodup keys : NoDup keys -> coalesce_storage_delete_keys keys = keys.
Proof.
  intros Hn. pose proof (coalesce_spec keys) as [Hu Hs _ _ He]. rewrite coalesce_delete_spec. apply He.
  apply Permutation_length. apply NoDup_Permutation; [done|done|exact Hs].
Qed.

Lemma filter_same {A} (P Q : A -> Prop) `{forall x, Decision (P x)} `{forall x, Decision (Q x)} (l : list A) :
  (forall x, x ∈ l -> P x <-> Q x) -> filter P l = filter Q l.
Proof.
  induction l as [|x l IH]; intros Hl; [done|]. rewrite !filter_cons, IH by (intros y Hy; apply Hl; by right).
  pose proof (Hl x ltac:(by left)). by do 2 case_decide; try tauto.
Qed.

Lemma dels_length keys m : NoDup keys -> length (dels_of keys m) = length (filter (fun k => is_Some (m !! k)) keys).
Proof.
  intros Hn. revert m. induction Hn as [|k keys Hk Hn IH]; intros m; [done|]. cbn [dels_of]. rewrite filter_cons. destruct (m !! k) as [v|] eqn:E.
  - rewrite decide_True by (by eexists). cbn [length]. f_equal. rewrite IH. f_equal. apply filter_same. intros j Hj.
    rewrite lookup_delete_ne; [done|]. by intros ->.
  - rewrite decide_False by (by intros []). apply IH.
Qed.

Lemma delete_batch_live keys s m : Forall (fun k => change_ok (k, None)) keys /\ Z.of_nat (length keys) < 2 ^ 63 -> live s m ->
  exists s', delete_batch keys s = (Ok (Z.of_nat (length (dels_of (coalesce_storage_delete_keys keys) m))), s') /\
    live s' (filter (fun kv => kv.1 ∉ keys) m).
Proof.
  intros [Hok Hlen] L. destruct (delete_batch keys s) as [r s'] eqn:E.
  destruct (delete_batch_effect s m keys r s' L Hok Hlen E) as [-> [_ L']]. exists s'. split; [done|].
  by rewrite dels_apply, filter_coalesced in L'.
Qed.

(** The counts of the devices, added. *)
Definition del_count (keys : list string) m : Z := Z.of_nat (length (dels_of (coalesce_storage_delete_keys keys) m)).

Lemma totals_sum routed ms t : length routed = length ms -> 0 <= t ->
  t + Z.of_nat (sum_list (zip_with (fun keys m => length (dels_of (coalesce_storage_delete_keys keys) m)) routed ms)) <= u64_max ->
  totals sat_add del_count routed ms t =
  t + Z.of_nat (sum_list (zip_with (fun keys m => length (dels_of (coalesce_storage_delete_keys keys) m)) routed ms)).
Proof.
  revert ms t. induction routed as [|keys routed IH]; intros ms t Hlen H0 Ht; (destruct ms as [|m ms]; [try done|]); [cbn; lia|done|].
  cbn [zip_with sum_list_with id] in *. unfold totals. cbn [zip_with foldl fst snd]. cbn in Hlen. case_bool_decide as Hk.
  - apply nil_length_inv in Hk as ->. cbn in Ht |- *. apply IH; lia.
  - assert (t +! del_count keys m = t + del_count keys m) as -> by (apply sat_add_exact; unfold del_count in *; lia).
    pose proof (IH ms (t + del_count keys m)) as H. unfold totals in H. rewrite H; unfold del_count; lia.
Qed.

Lemma devices_sum uk ms M : NoDup uk -> ms <> [] -> spread ms M ->
  sum_list (zip_with (fun keys m => length (dels_of (coalesce_storage_delete_keys keys) m)) (route (length ms) (fun k => device_index k (length ms)) uk) ms) =
  length (dels_of uk M).
Proof.
  intros Hnd Hn S. rewrite (dels_length uk M) by done.
  rewrite <- (filter_partition (fun k => device_index k (length ms)) (length ms)) by (intros k _; by apply index_lt). f_equal.
  apply list_eq. intros i. destruct (decide (i < length ms)%nat) as [Hi|Hi].
  - destruct (lookup_lt_is_Some_2 ms i Hi) as [m Em]. rewrite lookup_zip_with, route_lookup by done. rewrite Em. cbn.
    rewrite list_lookup_fmap, lookup_seq_lt by done. cbn. f_equal.
    rewrite coalesce_nodup by by apply NoDup_filter. rewrite dels_length by by apply NoDup_filter. f_equal.
    rewrite !list_filter_filter. apply filter_same. intros k _. specialize (S k). unfold index_of in S.
    split; intros [H1 H2]; split; try done; subst i; by rewrite S, Em in *.
  - rewrite !lookup_ge_None_2; [done|rewrite length_fmap, length_seq; lia|rewrite length_zip_with, route_length; lia].
Qed.

Lemma multi_delete_batch_ready keys w ms M : Forall (fun k => change_ok (k, None)) keys /\ Z.of_nat (length keys) < 2 ^ 63 -> ready w ms M ->
  let M' := filter (fun kv : string * bytes => kv.1 ∉ keys) M in
  exists w' ms', multi_delete_batch keys w = Returns (Ok (Z.of_nat (size M) - Z.of_nat (size M')), w') /\ ready w' ms' M'.
Proof.
  intros [Hok Hlen] R M'. destruct (ready_index w ms M "" R) as [En _]. unfold multi_delete_batch. rewrite En. pose proof R as [_ Hn [_ Hl _] S _].
  case_bool_decide as Hnil.
  { subst keys. exists w, ms. assert (M' = M) as -> by (apply map_filter_id; intros k v _; apply not_elem_of_nil). by rewrite Z.sub_diag. }
  rewrite Hl. set (uk := coalesce_storage_delete_keys keys).
  pose proof (coalesce_spec keys) as [Hnd Hs _ Hle _]. rewrite <- coalesce_delete_spec in Hnd, Hs, Hle. fold uk in Hnd, Hs, Hle.
  set (device := fun k => device_index k (length ms)).
  assert (Forall (fun k => change_ok (k, None)) uk) as Huk
    by (apply Forall_forall; intros k Hk; apply Hs in Hk; exact (proj1 (Forall_forall _ _) Hok k Hk)).
  destruct (each_device_ready delete_batch sat_add del_count (fun l m => filter (fun kv : string * bytes => kv.1 ∉ l) m)
    (fun l => Forall (fun k => change_ok (k, None)) l /\ Z.of_nat (length l) < 2 ^ 63) delete_batch_live
    ltac:(intros m; apply map_filter_id; intros k v _; apply not_elem_of_nil) device uk w ms M M' 0 R) as (w' & ms' & -> & R').
  - apply Forall_lookup. intros i l Hi. rewrite route_lookup in Hi by (apply lookup_lt_Some in Hi; by rewrite route_length in Hi).
    injection Hi as <-. split; [by apply filter_keeps|]. pose proof (length_filter (fun k => device k = i) uk). lia.
  - eapply spread_zip; [done|exact S|]. intros m key E. apply option_eq. intros v. unfold M'. rewrite !map_lookup_filter_Some, E.
    cbn [fst]. rewrite list_elem_of_filter, Hs. unfold device, index_of. tauto.
  - exists w', ms'. split; [|done]. do 3 f_equal. pose proof (devices_sum uk ms M Hnd Hn S) as Hsum. fold device in Hsum.
    assert (Z.of_nat (length (dels_of uk M)) = Z.of_nat (size M) - Z.of_nat (size M')) as Hc
      by (rewrite dels_count, dels_apply; unfold uk; by rewrite filter_coalesced).
    assert (length (dels_of uk M) <= length uk)%nat by (rewrite dels_length by done; apply length_filter).
    rewrite totals_sum; [rewrite Hsum; lia|by rewrite route_length|lia|rewrite Hsum; unfold u64_max; lia].
Qed.

(** *** Gets *)

Lemma elem_of_concat {A} (ls : list (list A)) x : x ∈ concat ls <-> exists l, x ∈ l /\ exists i : nat, ls !! i = Some l.
Proof.
  setoid_rewrite <- list_elem_of_lookup. induction ls as [|l ls IH]; cbn [concat]; [set_solver|]. rewrite elem_of_app, IH. set_solver.
Qed.

Lemma route_elem {A} n (device : A -> nat) items x : (forall y, (device y < n)%nat) -> x ∈ concat (route n device items) <-> x ∈ items.
Proof.
  intros Hd. rewrite elem_of_concat. split.
  - intros (l & Hx & i & Hl). rewrite route_lookup in Hl by (apply lookup_lt_Some in Hl; by rewrite route_length in Hl).
    injection Hl as <-. by apply list_elem_of_filter in Hx as [_ Hx].
  - intros Hx. exists (filter (fun y => device y = device x) items). split; [by apply list_elem_of_filter|]. exists (device x). by apply route_lookup.
Qed.

Section gather.
Context (get : list string -> Store -> outcome (result (list (option bytes)))).
Context (Hget : forall keys s m, live s m -> get keys s = Returns (Ok ((fun key => m !! key) <$> keys))).

(** The places of [entries], filled from [m]. *)
Definition fill_slots m (out : list (option bytes)) (entries : list (nat * string)) : list (option bytes) :=
  foldl (fun out e => <[e.1 := m !! e.2]> out) out entries.

Lemma scatter_fill m entries out : scatter entries ((fun key => m !! key) <$> (snd <$> entries)) out = fill_slots m out entries.
Proof. revert out. induction entries as [|e entries IH]; intros out; [done|]. cbn [fmap list_fmap]. unfold scatter. cbn [zip_with foldl]. apply IH. Qed.

Lemma gather_ok routed ms1 ms2 M w out : shards_live w (ms1 ++ ms2) -> length routed = length ms2 ->
  (forall i entries m, routed !! i = Some entries -> ms2 !! i = Some m -> Forall (fun e => m !! e.2 = M !! e.2) entries) ->
  gather get (length ms1) routed out w = Returns (Ok (fill_slots M out (concat routed))).
Proof using Hget.
  revert ms1 ms2 out. induction routed as [|entries routed IH]; intros ms1 ms2 out L Hlen H; (destruct ms2 as [|m ms2]; [done|]); [done|].
  cbn [gather concat length] in *. unfold fill_slots. rewrite foldl_app.
  assert (fill_slots m out entries = fill_slots M out entries) as Ef.
  { pose proof (H 0%nat entries m eq_refl eq_refl) as He. clear -He. revert out. induction He as [|e entries E _ IH]; intros out; [done|].
    unfold fill_slots. cbn. rewrite E. apply IH. }
  assert (S (length ms1) = length (ms1 ++ [m])) as -> by (rewrite length_app; cbn; lia).
  assert (forall out, gather get (length (ms1 ++ [m])) routed out w = Returns (Ok (fill_slots M out (concat routed)))) as Hr.
  { intros out'. apply (IH _ ms2); [by rewrite <- app_assoc|lia|]. intros i. apply (H (S i)). }
  case_bool_decide as Hnil; [apply nil_length_inv in Hnil as ->; apply Hr|].
  destruct (shards_lookup w (ms1 ++ m :: ms2) (length ms1) m L) as (s & -> & Ls); [by rewrite list_lookup_middle|].
  rewrite (Hget _ _ m Ls), Hr, scatter_fill, Ef. done.
Qed.

Lemma fill_lookup M keys entries out u : (forall e, e ∈ entries -> keys !! e.1 = Some e.2) -> length out = length keys ->
  fill_slots M out entries !! u = if decide (u ∈ entries.*1) then (fun key => M !! key) <$> keys !! u else out !! u.
Proof.
  intros H Hlen. induction entries as [|[v k] entries IH] using rev_ind; [done|]. unfold fill_slots in *. rewrite foldl_app, fmap_app. cbn [foldl fmap list_fmap fst snd].
  pose proof (H (v, k) ltac:(set_solver)) as Hk. cbn in Hk.
  assert (length (foldl (fun out e => <[e.1:=M !! e.2]> out) out entries) = length keys) as Hl.
  { rewrite <- Hlen. clear. revert out. induction entries as [|e l IHl]; intros out; [done|]. cbn. by rewrite IHl, length_insert. }
  destruct (decide (v = u)) as [->|Hne].
  - rewrite list_lookup_insert_eq by (rewrite Hl; by eapply lookup_lt_Some). rewrite Hk, decide_True by set_solver. done.
  - rewrite list_lookup_insert_ne by done. rewrite IH by set_solver. destruct (decide (u ∈ entries.*1)); [rewrite decide_True by set_solver; done|].
    rewrite decide_False by set_solver. done.
Qed.

Lemma gather_ready keys w ms M : ready w ms M ->
  gather get 0 (routed_keys keys w) (replicate (length keys) None) w = Returns (Ok ((fun key => M !! key) <$> keys)).
Proof using Hget.
  intros R. pose proof R as [_ Hn L S _]. pose proof L as [_ Hl _]. unfold routed_keys. rewrite Hl.
  set (device := fun ik : nat * string => device_index ik.2 (length ms)). set (items := zip (seq 0 (length keys)) keys).
  assert (forall y, (device y < length ms)%nat) as Hd by (intros y; by apply index_lt).
  assert (forall u k, (u, k) ∈ items <-> keys !! u = Some k) as Hi.
  { intros u k. unfold items. rewrite list_elem_of_lookup. setoid_rewrite lookup_zip_with_Some. split.
    - intros (i & a & b & [= <- <-] & [-> _]%lookup_seq & Hk). done.
    - intros Hk. exists u, u, k. split; [done|]. split; [|done]. apply lookup_seq. split; [done|]. by apply lookup_lt_Some in Hk. }
  rewrite (gather_ok _ [] ms M); [|done|by rewrite route_length|].
  - do 2 f_equal. apply list_eq. intros u. rewrite (fill_lookup M keys); [|intros [v k] He; by apply Hi, (route_elem (length ms) device)|by rewrite length_replicate].
    rewrite list_lookup_fmap. case_decide as Hu; [done|]. destruct (keys !! u) as [k|] eqn:E.
    + destruct Hu. apply list_elem_of_fmap. exists (u, k). split; [done|]. by apply (route_elem (length ms) device), Hi.
    + apply lookup_replicate_None. by apply lookup_ge_None in E.
  - intros i entries m He Em. rewrite route_lookup in He by (by eapply lookup_lt_Some). injection He as <-.
    apply Forall_forall. intros e [<- _]%list_elem_of_filter. pose proof (S e.2) as Se. unfold index_of in Se. unfold device in Em. by rewrite Se, Em.
Qed.
End gather.

Lemma multi_get_batch_ready keys w ms M : ready w ms M -> multi_get_batch keys w = Returns (Ok ((fun key => M !! key) <$> keys)).
Proof.
  intros R. destruct (ready_index w ms M "" R) as [En _]. unfold multi_get_batch. rewrite En. case_bool_decide as Hnil; [by subst|].
  pose proof (expand_coalesced (fun key => M !! key) keys) as H. destruct (coalesce_storage_batch_key_refs keys) as [uk ps].
  rewrite (gather_ready get_batch (fun ks s m => get_batch_ok ks s m) uk w ms M R). by rewrite H.
Qed.

Lemma multi_get_unique_batch_ready keys w ms M : ready w ms M -> multi_get_unique_batch keys w = Returns (Ok ((fun key => M !! key) <$> keys)).
Proof.
  intros R. destruct (ready_index w ms M "" R) as [En _]. unfold multi_get_unique_batch. rewrite En. case_bool_decide as Hnil; [by subst|].
  apply (gather_ready (fun keys s => Returns (get_unique_batch keys s))) with (ms := ms); [|done].
  intros ks s m (Hi & <- & _). unfold get_unique_batch. by rewrite Hi.
Qed.

(** ** Every device at once *)

Lemma for_shards_devices {A} (f : Store -> A * Store) l w : let e := mu_engine (for_shards f l w) in
  (mu_storages e).*1 = (mu_storages (mu_engine w)).*1 /\ mu_paths e = mu_paths (mu_engine w) /\ mu_initialized e = mu_initialized (mu_engine w).
Proof.
  revert w. induction l as [|i l IH]; intros w; [done|]. cbn [for_shards foldl]. unfold for_shards in *. cbn [foldl].
  destruct (shard i w) as [s|]; [|apply IH]. destruct (IH (set_shard i (f s).2 w)) as (-> & -> & ->).
  by destruct (set_shard_engine i (f s).2 w) as (-> & -> & -> & _).
Qed.

Lemma for_shards_shard {A} (f : Store -> A * Store) l w i : NoDup l -> NoDup (mu_storages (mu_engine w)).*1 ->
  shard i (for_shards f l w) = if decide (i ∈ l) then (fun s => (f s).2) <$> shard i w else shard i w.
Proof.
  intros Hl. revert w. induction Hl as [|j l Hj Hl IH]; intros w Hnd; [done|]. unfold for_shards in *. cbn [foldl].
  destruct (shard j w) as [s|] eqn:E.
  - rewrite IH by (destruct (set_shard_engine j (f s).2 w) as (_ & E1 & _); by rewrite E1). destruct (decide (i = j)) as [->|Hne].
    + rewrite decide_False, decide_True by (done || by left). erewrite set_shard_same by done. by rewrite E.
    + rewrite set_shard_other by done. do 2 case_decide; set_solver.
  - rewrite IH by done. destruct (decide (i = j)) as [->|Hne]; [rewrite E; by repeat case_decide|]. do 2 case_decide; set_solver.
Qed.

Lemma for_all_shards {A} (f : Store -> A * Store) (Q Q' : Store -> contents -> Prop) w ms : shards_are Q w ms ->
  (forall s m, Q s m -> Q' (f s).2 m) -> shards_are Q' (for_shards f (seq 0 (length (mu_storages (mu_engine w)))) w) ms.
Proof.
  intros [Hnd Hlen Hl] H. destruct (for_shards_devices f (seq 0 (length (mu_storages (mu_engine w)))) w) as (E1 & _). split.
  - by rewrite E1.
  - rewrite <- Hlen, <- (length_fmap fst), E1. apply length_fmap.
  - intros i m Hm. destruct (Hl i m Hm) as (s & Es & Hs). exists (f s).2. split; [|by apply H].
    rewrite for_shards_shard by (done || apply NoDup_seq). rewrite decide_True by (apply elem_of_seq; apply lookup_lt_Some in Hm; lia). by rewrite Es.
Qed.

Definition resting_store s m : Prop := re_initialized (st_engine s) = false /\ holds s m.

Lemma stop_rests s m : live s m \/ resting_store s m -> resting_store (store_stop s).2 m.
Proof.
  intros [L|[Hi H]].
  - destruct (store_op_step OpStop s true m) as (s' & E & H & Hi & _); [by apply tracks_live|done..|]. cbn in E. injection E as <-. by split.
  - destruct (store_op_step OpStop s false m) as (s' & E & H' & Hi' & _); [by split|done..|]. cbn in E. injection E as <-. by split.
Qed.

Lemma reset_shards_ok ms1 ms2 w : shards_live w (ms1 ++ ms2) ->
  exists w', reset_shards (seq (length ms1) (length ms2)) w = (Ok tt, w') /\ shards_live w' (ms1 ++ replicate (length ms2) ∅) /\ same_devices w w'.
Proof.
  revert ms1 w. induction ms2 as [|m ms2 IH]; intros ms1 w L; [by exists w|]. cbn [length seq reset_shards replicate].
  destruct (shards_lookup w (ms1 ++ m :: ms2) (length ms1) m L) as (s & Hs & Ls); [by rewrite list_lookup_middle|]. rewrite Hs.
  destruct (store_op_step OpReset s true m) as (s' & E & T'); [by apply tracks_live|done..|]. cbn in E, T'. apply tracks_live in T'.
  destruct (store_reset s) as [r s1]. injection E as -> ->.
  pose proof (set_shard_live _ _ _ _ _ _ L Hs T') as Lx. rewrite insert_app_r_alt, Nat.sub_diag in Lx by lia. cbn in Lx.
  assert (S (length ms1) = length (ms1 ++ [∅ : contents])) as -> by (rewrite length_app; cbn; lia).
  replace (ms1 ++ ∅ :: replicate (length ms2) ∅) with ((ms1 ++ [∅ : contents]) ++ replicate (length ms2) ∅) by (by rewrite <- app_assoc).
  destruct (IH (ms1 ++ [∅]) (set_shard (length ms1) s' w)) as (w' & E & L' & D'); [by rewrite <- app_assoc|].
  exists w'. split; [done|]. split; [done|]. eapply same_devices_trans; [apply set_shard_devices|done].
Qed.

(** ** Stopped *)

(** The disks of the paths hold the map, whatever is left of the storages. *)
Record resting w ms M : Prop := {
  rs_init : mu_initialized (mu_engine w) = false;
  rs_some : ms <> [];
  rs_nodup : NoDup (mu_paths (mu_engine w));
  rs_left : mu_storages (mu_engine w) = [] \/
    shards_are resting_store w ms /\ (mu_storages (mu_engine w)).*1 = mu_paths (mu_engine w);
  rs_disks : Forall2 (fun path m => holds (mkStore new_file_engine (disk_at path w)) m) (mu_paths (mu_engine w)) ms;
  rs_spread : spread ms M }.

Lemma holds_on_disk e dk m : holds (mkStore e dk) m -> holds (mkStore new_file_engine dk) m.
Proof. intros H. apply (holds_memory (mkStore e dk)); [done|by right|done]. Qed.

Lemma shards_disks (Q : Store -> contents -> Prop) w ms : (forall s m, Q s m -> holds s m) -> shards_are Q w ms ->
  Forall2 (fun path m => holds (mkStore new_file_engine (disk_at path w)) m) (mu_storages (mu_engine w)).*1 ms.
Proof.
  intros HQ [_ Hlen Hl]. apply Forall2_same_length_lookup_2; [by rewrite length_fmap|]. intros i path m Hp Hm.
  destruct (Hl i m Hm) as (s & Es & Hs). rewrite list_lookup_fmap in Hp. unfold shard in Es.
  destruct (mu_storages (mu_engine w) !! i) as [pe|]; [|done]. cbn in Es, Hp. injection Hp as <-. injection Es as <-. by eapply holds_on_disk, HQ.
Qed.

Lemma stop_ready w w' ms M : ready w ms M -> w' = (multi_stop w).2 -> resting w' ms M.
Proof.
  intros [Hi Hn L S Hp] ->. cbn. pose proof (for_all_shards store_stop live resting_store w ms L
    (fun s m Ls => stop_rests s m (or_introl Ls))) as R.
  destruct (for_shards_devices store_stop (seq 0 (length (mu_storages (mu_engine w)))) w) as (E1 & E2 & _).
  pose proof (shards_disks resting_store _ _ ltac:(by intros ?? []) R) as Hd. destruct R as [R1 R2 R3].
  split; cbn; [done..| | | |done].
  - rewrite E2, <- Hp. apply L.
  - right. split; [by split|]. by rewrite E1, E2.
  - by rewrite E2, <- Hp, <- E1.
Qed.

Lemma stop_resting w ms M : resting w ms M -> resting (multi_stop w).2 ms M.
Proof.
  intros [Hi Hn Hnd Hl Hd S]. cbn. destruct Hl as [Hl|[L Hp]].
  { unfold for_shards. rewrite Hl. cbn. split; cbn; [done..|by left|done|done]. }
  pose proof (for_all_shards store_stop resting_store resting_store w ms L (fun s m Ls => stop_rests s m (or_intror Ls))) as R.
  destruct (for_shards_devices store_stop (seq 0 (length (mu_storages (mu_engine w)))) w) as (E1 & E2 & _).
  pose proof (shards_disks resting_store _ _ ltac:(by intros ?? []) R) as Hd'. destruct R as [R1 R2 R3].
  split; cbn; [done..| | | |done].
  - by rewrite E2.
  - right. split; [by split|]. by rewrite E1, E2.
  - by rewrite E2, <- Hp, <- E1.
Qed.

(** A crash, between operations, leaves the disks. *)
Definition multi_crash w : Multi := mkMultiState (multi_new (mu_paths (mu_engine w)) (mu_capacity (mu_engine w))) (mu_disks w).

Lemma crash_ready w ms M : ready w ms M -> resting (multi_crash w) ms M.
Proof.
  intros [Hi Hn L S Hp]. split; cbn; [done|done| |by left| |done].
  - rewrite <- Hp. apply L.
  - rewrite <- Hp. apply (shards_disks live w ms); [by intros s m (_ & _ & H)|done].
Qed.
Lemma crash_resting w ms M : resting w ms M -> resting (multi_crash w) ms M.
Proof. intros [Hi Hn Hnd Hl Hd S]. split; cbn; by try left. Qed.

(** ** Starting *)

Lemma start_shard path w m : holds (mkStore new_file_engine (disk_at path w)) m -> small (dk_dir (disk_at path w)) ->
  exists e, store_start (mkStore (create_storage_by_device_path (mu_engine w)) (disk_at path w)) = Returns (true, mkStore e (disk_at path w)) /\
    live (mkStore e (disk_at path w)) m.
Proof.
  intros H Hs. set (e0 := create_storage_by_device_path (mu_engine w)).
  assert (re_journal_file e0 = false) as Ej by (unfold e0, create_storage_by_device_path; by case_match).
  assert (re_initialized e0 = false) as Ei by (unfold e0, create_storage_by_device_path; by case_match).
  destruct (store_op_step OpStart (mkStore e0 (disk_at path w)) false m) as (s' & E & T); [|done|done|].
  - split; [|done]. apply (holds_memory (mkStore new_file_engine (disk_at path w))); [done|by right|done].
  - apply tracks_live in T. cbn [run_store_op spec_op fst] in E. destruct H as (B & cs & I & _ & _).
    destruct (start_reads e0 (disk_at path w) B cs [] I Hs) as (e' & E' & _). rewrite E' in E |- *. injection E as <-. by exists e'.
Qed.

Lemma init_storages_ok paths ms storages w :
  Forall2 (fun path m => holds (mkStore new_file_engine (disk_at path w)) m) paths ms ->
  Forall (fun path => small (dk_dir (disk_at path w))) paths ->
  exists started, init_storages paths storages w = Returns (true, set_storages (storages ++ started) w) /\ started.*1 = paths /\
    Forall2 (fun pe m => live (mkStore pe.2 (disk_at pe.1 w)) m) started ms.
Proof.
  intros H. revert storages. induction H as [|path m paths ms Hp _ IH]; intros storages Hs.
  - exists []. by rewrite app_nil_r.
  - apply Forall_cons in Hs as [Hsm Hs]. destruct (start_shard path w m Hp Hsm) as (e & E & L). cbn [init_storages]. rewrite E. cbn [st_engine].
    destruct (IH (storages ++ [(path, e)]) Hs) as (started & -> & Ep & HL). exists ((path, e) :: started).
    split; [by rewrite <- app_assoc|]. split; [cbn; by rewrite Ep|]. by constructor.
Qed.

Lemma start_resting w ms M : resting w ms M -> Forall (fun path => small (dk_dir (disk_at path w))) (mu_paths (mu_engine w)) ->
  exists w', multi_start w = Returns (true, w') /\ ready w' ms M.
Proof.
  intros [Hi Hn Hnd Hl Hd S] Hs. destruct (init_storages_ok _ ms [] w Hd Hs) as (started & E & Ep & HL).
  unfold multi_start, multi_init. rewrite Hi, bool_decide_eq_false_2, E by (intros En; rewrite En in Hd; by apply Forall2_nil_inv_l in Hd).
  eexists. split; [reflexivity|]. split; cbn; [done..| |done|done]. split; cbn; [by rewrite Ep|by eapply Forall2_length|].
  intros i m Hm. destruct (Forall2_lookup_r _ _ _ _ _ HL Hm) as (pe & Epe & Lp). exists (mkStore pe.2 (disk_at pe.1 w)).
  split; [|done]. unfold shard. cbn. by rewrite Epe.
Qed.

(** ** Histories *)

Definition out_of {A} (f : A -> store_out) (o : outcome (A * Multi)) : outcome (store_out * Multi) :=
  match o with Panics => Panics | Returns (a, w) => Returns (f a, w) end.
Definition answer {A} (f : A -> store_out) (o : outcome A) w : outcome (store_out * Multi) :=
  match o with Panics => Panics | Returns a => Returns (f a, w) end.

Definition run_multi_op (op : store_op) w : outcome (store_out * Multi) :=
  match op with
  | OpPut key value => out_of OutBuffer (multi_put key value w)
  | OpGet key => answer OutBuffer (multi_get key w) w
  | OpPeek key => answer OutBool (multi_peek key w) w
  | OpDelete key => out_of OutUnit (multi_delete key w)
  | OpPutBatch entries => out_of OutCount (multi_put_batch entries w)
  | OpGetBatch keys => answer OutValues (multi_get_batch keys w) w
  | OpDeleteBatch keys => out_of OutCount (multi_delete_batch keys w)
  | OpReset => out_of OutUnit (Returns (multi_reset w))
  | OpStart => out_of OutBool (multi_start w)
  | OpStop => out_of OutBool (Returns (multi_stop w))
  | OpCrash => Returns (OutNone, multi_crash w)
  end.

Definition multi_tracks w (on : bool) M : Prop := exists ms, if on then ready w ms M else resting w ms M.
Definition disks_small w : Prop := Forall (fun path => small (dk_dir (disk_at path w))) (mu_paths (mu_engine w)).

Lemma store_put_live key value s m : store_op_ok (OpPut key value) -> live s m ->
  exists s', store_put key value s = (Ok (mkBuffer key value), s') /\ live s' (<[key := value]> m).
Proof.
  intros Hok L. destruct (store_op_step (OpPut key value) s true m) as (s' & E & T); [by apply tracks_live|done|done|]. cbn in E, T.
  apply tracks_live in T. destruct (store_put key value s) as [r s1]. injection E as -> ->. by exists s'.
Qed.

Lemma store_delete_live key s m : store_op_ok (OpDelete key) -> live s m ->
  exists s', store_delete key s = (match m !! key with Some _ => Ok tt | None => Err NotFound end, s') /\ live s' (delete key m).
Proof.
  intros Hok L. destruct (store_op_step (OpDelete key) s true m) as (s' & E & T); [by apply tracks_live|done|done|]. cbn [run_store_op spec_op] in E, T.
  destruct (store_delete key s) as [r s1]. exists s'. destruct (m !! key) as [v|] eqn:Em; cbn in E, T; apply tracks_live in T; injection E as -> ->; split; try done.
  by rewrite delete_id.
Qed.

Lemma multi_reset_ready w ms M : ready w ms M -> exists w', multi_reset w = (Ok tt, w') /\ ready w' (replicate (length ms) ∅) ∅.
Proof.
  intros R. destruct (ready_index w ms M "" R) as [En _]. pose proof R as [Hi Hn L S Hp]. unfold multi_reset. rewrite En, (sl_length _ _ _ L).
  destruct (reset_shards_ok [] ms w L) as (w' & E & L' & (D1 & D2 & D3)). cbn in E. rewrite E. exists w'. split; [done|]. split; [congruence|by destruct ms|done| |congruence].
  intros key. unfold index_of. rewrite length_replicate. rewrite lookup_replicate_2; [done|by apply index_lt].
Qed.

(** While it is started. *)
Lemma multi_op_ready op w ms M : ready w ms M -> store_op_ok op -> 
  exists w', run_multi_op op w = Returns ((spec_op op true M).1, w') /\ multi_tracks w' (spec_op op true M).2.1 (spec_op op true M).2.2.
Proof.
  intros R Hok. pose proof (fun key => ready_index w ms M key R) as Hi.
  destruct op as [key value|key|key|key|entries|keys|keys| | | |]; cbn [run_multi_op spec_op fst snd].
  - destruct (on_key_ready key (store_put key value) w ms M (fun _ => Ok (mkBuffer key value)) <[key := value]> R) as (w' & ms' & E & R').
    + intros s m. by apply store_put_live.
    + intros m _. by rewrite !lookup_insert_eq.
    + intros m k Hk. by apply lookup_insert_ne.
    + unfold multi_put. rewrite E. exists w'. split; [done|by exists ms'].
  - destruct (ready_shard w ms M key R) as (m & s & _ & Es & (Hs & Em & _) & Ek). destruct (Hi key) as [_ E]. unfold multi_get. rewrite E, Es.
    exists w. split; [|by exists ms]. unfold store_get, get_owned. rewrite Hs, Em, Ek. cbn. by destruct (m !! key).
  - destruct (ready_shard w ms M key R) as (m & s & _ & Es & (Hs & Em & _) & Ek). destruct (Hi key) as [_ E]. unfold multi_peek. rewrite E, Es.
    exists w. split; [|by exists ms]. unfold store_peek. by rewrite Hs, Em, Ek.
  - destruct (on_key_ready key (store_delete key) w ms M (fun m => match m !! key with Some _ => Ok tt | None => Err NotFound end) (delete key) R) as (w' & ms' & E & R').
    + intros s m. by apply store_delete_live.
    + intros m E. by rewrite E, !lookup_delete_eq.
    + intros m k Hk. by apply lookup_delete_ne.
    + unfold multi_delete. rewrite E. exists w'. destruct (M !! key) eqn:Em; (split; [done|]); exists ms'; [done|]. by rewrite delete_id in R'.
  - destruct (multi_put_batch_ready entries w ms M Hok R) as (w' & ms' & -> & R'). exists w'. split; [done|by exists ms'].
  - rewrite (multi_get_batch_ready keys w ms M R). exists w. split; [done|by exists ms].
  - destruct (multi_delete_batch_ready keys w ms M Hok R) as (w' & ms' & -> & R'). exists w'. split; [done|by exists ms'].
  - destruct (multi_reset_ready w ms M R) as (w' & -> & R'). exists w'. split; [done|by eexists].
  - unfold multi_start. rewrite (rd_init _ _ _ R). exists w. split; [done|by exists ms].
  - eexists. split; [reflexivity|]. exists ms. by apply (stop_ready w).
  - eexists. split; [reflexivity|]. exists ms. by apply crash_ready.
Qed.

(** While it is not. *)
Lemma multi_op_resting op w ms M : resting w ms M -> (op = OpStart -> disks_small w) ->
  exists w', run_multi_op op w = Returns ((spec_op op false M).1, w') /\ multi_tracks w' (spec_op op false M).2.1 (spec_op op false M).2.2.
Proof.
  intros R Hs. assert (not_ready w = true) as En by (unfold not_ready; by rewrite (rs_init _ _ _ R)).
  destruct op as [key value|key|key|key|entries|keys|keys| | | |]; cbn [run_multi_op spec_op fst snd];
    unfold multi_put, multi_delete, multi_get, multi_peek, on_key, storage_index, multi_put_batch, multi_get_batch, multi_delete_batch, multi_reset;
    rewrite ?En; try (exists w; split; [reflexivity|by exists ms]).
  - destruct (start_resting w ms M R (Hs eq_refl)) as (w' & -> & R'). exists w'. split; [done|by exists ms].
  - eexists. split; [reflexivity|]. exists ms. by apply stop_resting.
  - eexists. split; [reflexivity|]. exists ms. by apply crash_resting.
Qed.

Fixpoint run_multi_ops (ops : list store_op) w : outcome (list store_out * Multi) :=
  match ops with
  | [] => Returns ([], w)
  | op :: ops =>
      match run_multi_op op w with
      | Panics => Panics
      | Returns (out, w) => match run_multi_ops ops w with Panics => Panics | Returns (outs, w) => Returns (out :: outs, w) end
      end
  end.

(** The files that a start reads are below 2^63 bytes. *)
Fixpoint multi_small_starts (ops : list store_op) w : Prop :=
  match ops with
  | [] => True
  | op :: ops => (op = OpStart -> disks_small w) /\ match run_multi_op op w with Returns (_, w) => multi_small_starts ops w | Panics => True end
  end.

Definition new_multi (paths : list string) (capacity : Z) : Multi := mkMultiState (multi_new paths capacity) ∅.

Lemma new_multi_resting paths capacity : NoDup paths -> paths <> [] -> resting (new_multi paths capacity) (replicate (length paths) ∅) ∅.
Proof.
  intros Hnd Hn. split; cbn; [done| |done|by left| |].
  - by destruct paths.
  - clear. induction paths as [|path paths IH]; [constructor|]. constructor; [|done]. apply empty_store_tracks.
  - intros key. unfold index_of. rewrite length_replicate. rewrite lookup_replicate_2; [done|].
    pose proof (index_lt (replicate (length paths) ∅) key). unfold index_of in *. rewrite length_replicate in *. apply H. by destruct paths.
Qed.

Lemma run_multi_tracks ops w on M : multi_tracks w on M -> Forall store_op_ok ops -> multi_small_starts ops w ->
  exists w', run_multi_ops ops w = Returns ((spec_ops ops on M).1, w').
Proof.
  revert w on M. induction ops as [|op ops IH]; intros w on M [ms T] Hok Hsm; [by exists w|]. apply Forall_cons in Hok as [Hop Hok].
  destruct Hsm as [Hs1 Hsm]. assert (exists w', run_multi_op op w = Returns ((spec_op op on M).1, w') /\
    multi_tracks w' (spec_op op on M).2.1 (spec_op op on M).2.2) as (w1 & E1 & T1)
    by (destruct on; [by eapply multi_op_ready|by eapply multi_op_resting]).
  cbn [run_multi_ops spec_ops]. rewrite E1 in Hsm |- *. destruct (spec_op op on M) as [out [on1 M1]]. cbn [fst snd] in *.
  destruct (IH w1 on1 M1 T1 Hok Hsm) as (w2 & ->). destruct (spec_ops ops on1 M1) as [outs [on2 M2]]. by exists w2.
Qed.

(** C24. Over any set of devices that does not change, every history of puts,
    gets, deletes, batches, resets, starts, stops and crashes between
    operations answers as one durable map does, and never panics. *)
Theorem multi_store_refines (paths : list string) (capacity : Z) (ops : list store_op) :
  NoDup paths -> paths <> [] -> Forall store_op_ok ops -> multi_small_starts ops (new_multi paths capacity) ->
  exists w, run_multi_ops ops (new_multi paths capacity) = Returns ((spec_ops ops false ∅).1, w).
Proof.
  intros Hnd Hn Hok Hsm. eapply run_multi_tracks; [|done|done]. eexists. by apply new_multi_resting.
Qed.

Definition two_paths : list string := ["p0"; "p1"]%string.
Definition demo_multi_ops : list store_op :=
  [OpGet "a"; OpStart; OpPut "a" [x01]; OpPutBatch [("b"%string, [x02]); ("c"%string, [x03]); ("b"%string, [x04])]; OpCrash; OpStart;
   OpGetBatch ["b"; "a"; "zz"; "b"; "c"]%string; OpDeleteBatch ["a"; "zz"; "b"; "a"]%string; OpStop; OpStart; OpDelete "a"; OpGet "c"; OpPeek "b";
   OpReset; OpPeek "c"]%string.

(** Both devices are used. *)
Example demo_multi_run : (fun key => device_index key 2) <$> ["a"; "b"; "c"]%string = [1; 0; 0]%nat /\
  match run_multi_ops demo_multi_ops (new_multi two_paths 0) with Returns (outs, _) => outs | Panics => [] end =
  [OutBuffer (Err Stopped); OutBool true; OutBuffer (Ok (mkBuffer "a" [x01])); OutCount (Ok 3); OutNone; OutBool true;
   OutValues (Ok [Some [x04]; Some [x01]; None; Some [x04]; Some [x03]]); OutCount (Ok 2); OutBool true; OutBool true; OutUnit (Err NotFound);
   OutBuffer (Ok (mkBuffer "c" [x03])); OutBool false; OutUnit (Ok tt); OutBool false].
Proof. split; vm_compute; reflexivity. Qed.

Fixpoint multi_starts_are_small (ops : list store_op) w : bool :=
  match ops with
  | [] => true
  | op :: ops =>
      match op with OpStart => forallb (fun path => is_small (dk_dir (disk_at path w))) (mu_paths (mu_engine w)) | _ => true end &&
      match run_multi_op op w with Returns (_, w) => multi_starts_are_small ops w | Panics => true end
  end.

Lemma multi_starts_are_small_true ops w : multi_starts_are_small ops w = true -> multi_small_starts ops w.
Proof.
  revert w. induction ops as [|op ops IH]; intros w; [done|]. cbn. intros [H1 H2]%andb_prop. split.
  - intros ->. unfold disks_small. rewrite forallb_forall in H1. apply Forall_forall. intros path Hp. by apply is_small_true, H1, list_elem_of_In.
  - destruct (run_multi_op op w) as [[out w1]|]; [by apply IH|done].
Qed.

Lemma multi_store_refines_witness :
  multi_small_starts demo_multi_ops (new_multi two_paths 0) /\
  exists w, run_multi_ops demo_multi_ops (new_multi two_paths 0) = Returns ((spec_ops demo_multi_ops false ∅).1, w).
Proof.
  assert (multi_small_starts demo_multi_ops (new_multi two_paths 0)) as Hs by (apply multi_starts_are_small_true; vm_compute; reflexivity).
  split; [exact Hs|]. apply multi_store_refines; [vm_compute; eapply bool_decide_unpack; reflexivity|discriminate|repeat constructor|exact Hs].
Defined.

(** Without the condition on the devices: a device is added and keys are
    written again, some of them to the new one; when it is removed, the value
    that was overwritten comes back. *)
Example removed_device_revives :
  match multi_start (new_multi ["p0"%string] 0) with
  | Returns (true, w) =>
      match multi_put "a" [x01] w with
      | Returns (Ok _, w) =>
          match add_device "p1" w with
          | Returns (true, w) =>
              match multi_put "a" [x02] w with
              | Returns (Ok _, w) => (multi_get "a" w, multi_get "a" (remove_device "p1" w).2)
              | _ => (Panics, Panics)
              end
          | _ => (Panics, Panics)
          end
      | _ => (Panics, Panics)
      end
  | _ => (Panics, Panics)
  end = (Returns (Ok (mkBuffer "a" [x02])), Returns (Ok (mkBuffer "a" [x01]))).
Proof. vm_compute. reflexivity. Qed.
