(* ===== verification/ManifestLine.v ===== *)
(** * Manifest lines

    The text an entry is recorded by, in the manifest of the SSD tier, in the
    log of the persistent-memory tier and as the key of the SSD store
    (builder_and_gc.rs, multilayer_cache.rs): a tag, the shard in decimal,
    three fields in hexadecimal and, in two of the shapes, a length.  Lines
    are the bytes of Rust strings.  The keys of records, whose parts are text
    too, are at the end (concurrency_stats.rs). *)

From Stdlib Require Import Strings.Byte.
From S2P Require Import Prelude Types Hashes BlockCodec SsdRecords RdmaIndex.

(** ** Writing *)

Definition byte_of (n : Z) : Byte.byte := default x00 (Byte.of_N (Z.to_N n)).
Definition TAB : Byte.byte := x09.
Definition NEWLINE : Byte.byte := x0a.
Definition HEX : bytes := String.list_byte_of_string "0123456789abcdef".

(** Twenty digits are enough for a [u64]. *)
Fixpoint decimal_digits (fuel : nat) (rest : Z) (digits : bytes) : bytes :=
  match fuel with
  | O => digits
  | S fuel =>
      let digits := byte_of (0x30 + rest `mod` 10) :: digits in
      let rest := rest `div` 10 in
      if rest =? 0 then digits else decimal_digits fuel rest digits
  end.
Definition push_decimal (line : bytes) (value : Z) : bytes := line ++ decimal_digits 20 value [].

Definition hex_digit (n : Z) : Byte.byte := default x00 (HEX !! Z.to_nat n).
Definition push_manifest_field (line : bytes) (value : string) : bytes :=
  foldl (fun line b => (line ++ [hex_digit (Z.shiftr (byte_value b) 4)]) ++ [hex_digit (Z.land (byte_value b) 0x0f)]) line (key_bytes value).

Definition append_manifest_line (line tag : bytes) (key : CacheKey) (block_len : option Z) : bytes :=
  let line := line ++ tag in
  let line := push_decimal (line ++ [TAB]) (shard_id key) in
  let line := push_manifest_field (line ++ [TAB]) (record_key key) in
  let line := push_manifest_field (line ++ [TAB]) (namespace key) in
  let line := push_manifest_field (line ++ [TAB]) (selector key) in
  match block_len with Some len => push_decimal (line ++ [TAB]) len | None => line end.
Definition manifest_line (tag : bytes) (key : CacheKey) (block_len : option Z) : bytes := append_manifest_line [] tag key block_len.

Fixpoint ilog10 (fuel : nat) (value : Z) : Z :=
  match fuel with O => 0 | S fuel => if value <? 10 then 0 else 1 + ilog10 fuel (value `div` 10) end.
Definition decimal_width (value : Z) : Z := if value =? 0 then 1 else ilog10 20 value + 1.
Definition manifest_line_len (tag : bytes) (key : CacheKey) (block_len : option Z) : Z :=
  blen tag + 1 + decimal_width (shard_id key) + 1 + blen (key_bytes (record_key key)) * 2 + 1
  + blen (key_bytes (namespace key)) * 2 + 1 + blen (key_bytes (selector key)) * 2
  + match block_len with None => 0 | Some len => 1 + decimal_width len end.

Definition V1 : bytes := key_bytes "v1".
Definition D1 : bytes := key_bytes "d1".
Definition PMD1 : bytes := key_bytes "pmd1".

Definition manifest_line_for_key (key : CacheKey) (block_len : Z) : bytes := manifest_line V1 key (Some block_len).
Definition ssd_store_key (key : CacheKey) : bytes := manifest_line_for_key key 0.
Definition encode_pmem_delete_line (key : CacheKey) : bytes := manifest_line PMD1 key None.

(** The store key built in place, and the tail written as it is. *)
Definition inline_ssd_store_key (key : CacheKey) : bytes :=
  let line := V1 ++ [TAB] in
  let line := push_decimal line (shard_id key) ++ [TAB] in
  let line := push_manifest_field line (record_key key) ++ [TAB] in
  let line := push_manifest_field line (namespace key) ++ [TAB] in
  push_manifest_field line (selector key) ++ [TAB; x30].

(** ** Reading *)

(** [str::split('\t')]. *)
Fixpoint split_tab (line : bytes) : list bytes :=
  match line with
  | [] => [[]]
  | b :: line =>
      if bool_decide (b = TAB) then [] :: split_tab line
      else match split_tab line with field :: fields => (b :: field) :: fields | [] => [[b]] end
  end.

(** [str::parse::<u64>]: an optional plus sign, at least one digit, an error
    on any other byte and on overflow. *)
Definition decimal_digit (b : Byte.byte) : option Z :=
  let n := byte_value b in if (0x30 <=? n) && (n <=? 0x39) then Some (n - 0x30) else None.
Fixpoint parse_digits_u64 (acc : Z) (v : bytes) : option Z :=
  match v with
  | [] => Some acc
  | b :: v => d ← decimal_digit b; let acc := acc * 10 + d in if acc <=? u64_max then parse_digits_u64 acc v else None
  end.
Definition parse_u64 (v : bytes) : option Z :=
  match v with
  | [] => None
  | b :: rest => if bool_decide (b = x2b) then (if bool_decide (rest = []) then None else parse_digits_u64 0 rest) else parse_digits_u64 0 v
  end.

Definition decode_hex_nibble (b : Byte.byte) : option Z :=
  let n := byte_value b in
  if (0x30 <=? n) && (n <=? 0x39) then Some (n - 0x30)
  else if (0x61 <=? n) && (n <=? 0x66) then Some (n - 0x61 + 10)
  else if (0x41 <=? n) && (n <=? 0x46) then Some (n - 0x41 + 10)
  else None.
Fixpoint decode_hex (v : bytes) : option bytes :=
  match v with
  | [] => Some []
  | a :: b :: v =>
      high ← decode_hex_nibble a; low ← decode_hex_nibble b; rest ← decode_hex v;
      Some (byte_of (Z.lor (Z.shiftl high 4) low) :: rest)
  | [_] => None
  end.
Definition decode_manifest_field (value : bytes) : option string :=
  if negb (blen value `mod` 2 =? 0) then None
  else v ← decode_hex value; if is_utf8 v then Some (String.string_of_list_byte v) else None.

(** [fields.next()?]. *)
Definition next_field (fields : list bytes) : option (bytes * list bytes) :=
  match fields with f :: fields => Some (f, fields) | [] => None end.

(** The shard and the three fields, which every shape has. *)
Definition decode_key (fields : list bytes) : option (CacheKey * list bytes) :=
  '(shard, fields) ← next_field fields; shard_id ← parse_u64 shard;
  '(record_key, fields) ← next_field fields; record_key ← decode_manifest_field record_key;
  '(namespace, fields) ← next_field fields; namespace ← decode_manifest_field namespace;
  '(selector, fields) ← next_field fields; selector ← decode_manifest_field selector;
  Some (mkKey shard_id record_key namespace selector, fields).

(** A record is its key and its length. *)
Record CacheManifestRecord := mkManifestRecord { mr_key : CacheKey; mr_block_len : Z }.

Definition decode_line (line : bytes) : option CacheManifestRecord :=
  '(tag, fields) ← next_field (split_tab line);
  if negb (bool_decide (tag = V1)) then None
  else
    '(key, fields) ← decode_key fields;
    '(len, fields) ← next_field fields; block_len ← parse_u64 len;
    if negb (bool_decide (fields = [])) then None else Some (mkManifestRecord key block_len).

(** The two shapes without a length. *)
Definition decode_delete (tag line : bytes) : option CacheKey :=
  '(t, fields) ← next_field (split_tab line);
  if negb (bool_decide (t = tag)) then None
  else '(key, fields) ← decode_key fields; if negb (bool_decide (fields = [])) then None else Some key.
Definition decode_pmem_delete_line (line : bytes) : option CacheKey := decode_delete PMD1 line.

Inductive CacheManifestOp := ManifestPut (record : CacheManifestRecord) | ManifestDelete (key : CacheKey).

Definition encode_op (op : CacheManifestOp) : bytes :=
  match op with
  | ManifestPut record => manifest_line V1 (mr_key record) (Some (mr_block_len record))
  | ManifestDelete key => manifest_line D1 key None
  end.
Definition decode_op (line : bytes) : option CacheManifestOp :=
  match decode_line line with
  | Some record => Some (ManifestPut record)
  | None => ManifestDelete <$> decode_delete D1 line
  end.

(** ** Files of lines *)

(** [BufRead::lines]: a carriage return before a newline goes with it, and a
    last line needs no newline. *)
Definition strip_return (line : bytes) : bytes :=
  match rev line with b :: line' => if bool_decide (b = x0d) then rev line' else line | [] => [] end.
Fixpoint raw_lines (v cur : bytes) : list bytes :=
  match v with
  | [] => if bool_decide (cur = []) then [] else [cur]
  | b :: v => if bool_decide (b = NEWLINE) then strip_return cur :: raw_lines v [] else raw_lines v (cur ++ [b])
  end.
(** A line that is not UTF-8 is an error when it is reached. *)
Definition file_lines (v : bytes) : list (result bytes) := (fun line => if is_utf8 line then Ok line else Err Io) <$> raw_lines v [].

(** ** Block files of the persistent-memory tier *)

Section hash.
Context `{DefaultHasher}.

(** What [pmem_key_hash] writes, in its order; a field goes in chunks of 64
    bytes. *)
Fixpoint hex_chunks (fuel : nat) (v : bytes) : list bytes :=
  match fuel, v with
  | S fuel, _ :: _ =>
      (foldl (fun line b => (line ++ [hex_digit (Z.shiftr (byte_value b) 4)]) ++ [hex_digit (Z.land (byte_value b) 0x0f)]) [] (take 64 v))
        :: hex_chunks fuel (drop 64 v)
  | _, _ => []
  end.
Definition pmem_key_writes (key : CacheKey) : list bytes :=
  [V1 ++ [TAB]; decimal_digits 20 (shard_id key) []]
  ++ concat ((fun field => [TAB] :: hex_chunks (length (key_bytes field)) (key_bytes field)) <$> [record_key key; namespace key; selector key])
  ++ [[TAB; x30]; [xff]].
Definition pmem_key_hash (key : CacheKey) : Z := finish (concat (pmem_key_writes key)).
End hash.

(** ** The keys of records

    The constructors of [CacheKey] (concurrency_stats.rs).  A selector is
    reserved at the length it will have. *)

Definition COLON : Byte.byte := x3a.
Definition SEGMENT_PREFIX : bytes := key_bytes "segment-".
(** [{page_segment_id:020}]. *)
Definition padded_decimal (width : nat) (n : Z) : bytes := let digits := decimal_digits 20 n [] in replicate (width - length digits) x30 ++ digits.
Definition segment_record_key (page_segment_id : Z) : string := String.string_of_list_byte (SEGMENT_PREFIX ++ padded_decimal 20 page_segment_id).

Definition page_selector_capacity (routing_slot generation : option Z) (offset length : Z) : Z :=
  let capacity := decimal_width offset + 1 + decimal_width length in
  let capacity := match routing_slot with Some slot => capacity + (blen (key_bytes "slot-") + decimal_width slot + 1) | None => capacity end in
  match generation with Some generation => capacity + (blen (key_bytes "gen-") + decimal_width generation + 1) | None => capacity end.
Definition page_selector (routing_slot generation : option Z) (offset length : Z) : string :=
  let selector := [] in
  let selector := match routing_slot with Some slot => push_decimal (selector ++ key_bytes "slot-") slot ++ [COLON] | None => selector end in
  let selector := match generation with Some generation => push_decimal (selector ++ key_bytes "gen-") generation ++ [COLON] | None => selector end in
  String.string_of_list_byte (push_decimal (push_decimal selector offset ++ [COLON]) length).
Definition feature_selector_capacity (start_ms end_ms count : Z) : Z := decimal_width start_ms + 1 + decimal_width end_ms + 1 + decimal_width count.
Definition feature_selector (start_ms end_ms count : Z) : string :=
  String.string_of_list_byte (push_decimal (push_decimal (push_decimal [] start_ms ++ [COLON]) end_ms ++ [COLON]) count).

Definition key_hash_field (shard_id : Z) (key field : string) : CacheKey := mkKey shard_id key "hash" field.
Definition set_members (shard_id : Z) (key : string) : CacheKey := mkKey shard_id key "set" "members".
Definition feature_query (shard_id : Z) (key : string) (start_ms end_ms : Z) (count : option Z) : CacheKey :=
  mkKey shard_id key "feature" (feature_selector start_ms end_ms (default 5000 count)).
Definition page (shard_id page_segment_id offset length : Z) : CacheKey :=
  mkKey shard_id (segment_record_key page_segment_id) "page" (page_selector None None offset length).
Definition page_with_slot (shard_id page_segment_id offset length : Z) (routing_slot : option Z) : CacheKey :=
  mkKey shard_id (segment_record_key page_segment_id) "page" (page_selector routing_slot None offset length).
Definition page_with_slot_generation (shard_id page_segment_id offset length : Z) (routing_slot generation : option Z) : CacheKey :=
  match generation with
  | None => page_with_slot shard_id page_segment_id offset length routing_slot
  | Some generation =>
      mkKey shard_id (segment_record_key page_segment_id) "page"
        (match routing_slot with
         | Some slot => page_selector (Some slot) (Some generation) offset length
         | None => page_selector None (Some generation) offset length
         end)
  end.
Definition logical_size (key : CacheKey) : Z :=
  8 +! blen (key_bytes (record_key key)) +! blen (key_bytes (namespace key)) +! blen (key_bytes (selector key)).
