(* ===== verification/ManifestFacts.v ===== *)
(** * Manifest lines read back

    Numbers, fields, lines and files of lines come back as they were written,
    and no shape of line is taken for another; page keys name their page. *)

From Stdlib Require Import Strings.Byte.
From S2P Require Import Prelude Types Hashes BlockCodec SsdRecords RdmaIndex ManifestLine.

Implicit Types (v w line : bytes) (key : CacheKey) (len n : Z).

(** ** Numbers *)

Definition is_u64 n : Prop := 0 <= n < 2 ^ 64.
Definition is_digit (b : Byte.byte) : Prop := is_Some (decimal_digit b).

Lemma byte_of_value n : 0 <= n < 256 -> byte_value (byte_of n) = n.
Proof.
  intros Hn. unfold byte_of, byte_value. destruct (Byte.of_N (Z.to_N n)) as [b|] eqn:E; cbn.
  - apply Byte.to_of_N in E. rewrite E. lia.
  - apply Byte.of_N_None_iff in E. lia.
Qed.

Lemma digit_of d : 0 <= d < 10 -> decimal_digit (byte_of (0x30 + d)) = Some d.
Proof.
  intros Hd. unfold decimal_digit. rewrite byte_of_value by lia.
  rewrite (proj2 (Z.leb_le 48 (48 + d))), (proj2 (Z.leb_le (48 + d) 57)) by lia. cbn. f_equal. lia.
Qed.

Lemma decimal_digits_acc fuel n acc : decimal_digits fuel n acc = decimal_digits fuel n [] ++ acc.
Proof.
  revert n acc. induction fuel as [|fuel IH]; intros n acc; [done|]. cbn [decimal_digits]. case_if; [done|].
  rewrite IH, (IH _ [_]), <- app_assoc. done.
Qed.

(** The digits before the last, and the last. *)
Lemma decimal_digits_last fuel n : decimal_digits (S fuel) n [] =
  (if n `div` 10 =? 0 then [] else decimal_digits fuel (n `div` 10) []) ++ [byte_of (0x30 + n `mod` 10)].
Proof. cbn [decimal_digits]. case_if; [done|apply decimal_digits_acc]. Qed.

Lemma mod10 n : 0 <= n `mod` 10 < 10.
Proof. by apply Z.mod_pos_bound. Qed.

Lemma decimal_digits_are fuel n : Forall is_digit (decimal_digits fuel n []).
Proof.
  revert n. induction fuel as [|fuel IH]; intros n; [constructor|]. rewrite decimal_digits_last. apply Forall_app. split.
  - case_if; [constructor|apply IH].
  - constructor; [|constructor]. exists (n `mod` 10). apply digit_of, mod10.
Qed.

Lemma parse_digits_app v w acc : parse_digits_u64 acc (v ++ w) = parse_digits_u64 acc v ≫= fun a => parse_digits_u64 a w.
Proof.
  revert acc. induction v as [|b v IH]; intros acc; [done|]. cbn [app parse_digits_u64]. destruct (decimal_digit b); cbn; [|done].
  case_if; [apply IH|done].
Qed.

Lemma parse_decimal fuel n : 0 <= n < 10 ^ Z.of_nat fuel -> n <= u64_max -> (0 < fuel)%nat ->
  parse_digits_u64 0 (decimal_digits fuel n []) = Some n.
Proof.
  revert n. induction fuel as [|fuel IH]; intros n Hn Hu Hf; [lia|]. rewrite decimal_digits_last, parse_digits_app.
  pose proof (Z.div_mod n 10 ltac:(lia)) as Hd. pose proof (mod10 n) as Hm.
  assert ((parse_digits_u64 0 (if n `div` 10 =? 0 then [] else decimal_digits fuel (n `div` 10) [])) = Some (n `div` 10)) as ->.
  { case_if; zbool; [cbn; f_equal; lia|]. rewrite Nat2Z.inj_succ, Z.pow_succ_r in Hn by lia. apply IH; [lia|lia|].
    destruct fuel; [cbn in Hn; lia|lia]. }
  cbn [mbind option_bind parse_digits_u64]. rewrite digit_of by done. cbn [mbind option_bind].
  rewrite (proj2 (Z.leb_le _ _)) by lia. f_equal. lia.
Qed.

Lemma decimal_nonempty fuel n : decimal_digits (S fuel) n [] <> [].
Proof. rewrite decimal_digits_last. by destruct (if _ : bool then _ else _). Qed.

Lemma digit_is b : is_digit b -> b <> TAB /\ b <> NEWLINE /\ b <> x2b /\ b <> x0d.
Proof. intros [d Hd]. split_and!; intros ->; vm_compute in Hd; discriminate. Qed.

Lemma parse_u64_decimal n : is_u64 n -> parse_u64 (decimal_digits 20 n []) = Some n.
Proof.
  intros Hn. pose proof (parse_decimal 20 n ltac:(unfold is_u64 in Hn; lia) ltac:(unfold is_u64, u64_max in *; lia) ltac:(lia)) as H.
  pose proof (decimal_digits_are 20 n) as Hd. pose proof (decimal_nonempty 19 n) as Hne.
  destruct (decimal_digits 20 n []) as [|b v]; [done|]. apply Forall_cons in Hd as [Hb _]. unfold parse_u64.
  rewrite bool_decide_eq_false_2 by apply (digit_is b Hb). exact H.
Qed.

Lemma ilog10_digits fuel n : 0 <= n < 10 ^ Z.of_nat (S fuel) -> blen (decimal_digits (S fuel) n []) = ilog10 (S fuel) n + 1.
Proof.
  revert n. induction fuel as [|fuel IH]; intros n Hn; rewrite decimal_digits_last, blen_app; change (blen [_]) with 1;
    pose proof (Z.div_mod n 10 ltac:(lia)); pose proof (mod10 n).
  - rewrite (proj2 (Z.eqb_eq (n `div` 10) 0)) by (change (10 ^ Z.of_nat 1) with 10 in Hn; apply Z.div_small; lia). cbn [ilog10].
    rewrite (proj2 (Z.ltb_lt n 10)) by (change (10 ^ Z.of_nat 1) with 10 in Hn; lia). done.
  - cbn [ilog10]. case_if; zbool.
    + rewrite (proj2 (Z.ltb_lt n 10)) by lia. done.
    + rewrite (proj2 (Z.ltb_ge n 10)) by (destruct (Z.lt_ge_cases n 10); [|done]; assert (n `div` 10 = 0) by (apply Z.div_small; lia); lia).
      rewrite (Nat2Z.inj_succ (S fuel)), Z.pow_succ_r in Hn by lia. rewrite IH by lia. cbn [ilog10]. lia.
Qed.

Lemma decimal_length n : is_u64 n -> blen (decimal_digits 20 n []) = decimal_width n.
Proof.
  intros Hn. unfold decimal_width. case_if; zbool; [by subst|]. apply (ilog10_digits 19). unfold is_u64 in Hn. cbn. lia.
Qed.

(** ** Fields *)

Definition hex_of v : bytes := concat ((fun b => [hex_digit (Z.shiftr (byte_value b) 4); hex_digit (Z.land (byte_value b) 0x0f)]) <$> v).

Lemma hex_fold line v : foldl (fun line b => (line ++ [hex_digit (Z.shiftr (byte_value b) 4)]) ++ [hex_digit (Z.land (byte_value b) 0x0f)]) line v =
  line ++ hex_of v.
Proof.
  revert line. induction v as [|b v IH]; intros line; [by rewrite app_nil_r|]. cbn [foldl]. rewrite IH. unfold hex_of. cbn [fmap list_fmap concat].
  by rewrite <- !app_assoc.
Qed.

Lemma push_field line (s : string) : push_manifest_field line s = line ++ hex_of (key_bytes s).
Proof. apply hex_fold. Qed.

Lemma hex_of_app v w : hex_of (v ++ w) = hex_of v ++ hex_of w.
Proof. unfold hex_of. by rewrite fmap_app, concat_app. Qed.

Lemma hex_of_length v : blen (hex_of v) = blen v * 2.
Proof. unfold blen. induction v as [|b v IH]; [done|]. cbn [hex_of fmap list_fmap concat length app]. fold (hex_of v). lia. Qed.

Lemma hex_nibbles b : decode_hex_nibble (hex_digit (Z.shiftr (byte_value b) 4)) = Some (Z.shiftr (byte_value b) 4) /\
  decode_hex_nibble (hex_digit (Z.land (byte_value b) 0x0f)) = Some (Z.land (byte_value b) 0x0f) /\
  byte_of (Z.lor (Z.shiftl (Z.shiftr (byte_value b) 4) 4) (Z.land (byte_value b) 0x0f)) = b.
Proof. by destruct b. Qed.

Lemma decode_hex_of v : decode_hex (hex_of v) = Some v.
Proof.
  induction v as [|b v IH]; [done|]. cbn [hex_of fmap list_fmap concat app decode_hex]. fold (hex_of v). destruct (hex_nibbles b) as (-> & -> & E).
  cbn [mbind option_bind]. rewrite IH. cbn [mbind option_bind]. by rewrite E.
Qed.

Definition str_ok (s : string) : Prop := is_utf8 (key_bytes s) = true.

Lemma decode_field (s : string) : str_ok s -> decode_manifest_field (hex_of (key_bytes s)) = Some s.
Proof.
  intros Hs. unfold decode_manifest_field. rewrite hex_of_length, Z.mod_mul by done. cbn [Z.eqb negb]. rewrite decode_hex_of. cbn [mbind option_bind].
  rewrite Hs. f_equal. apply String.string_of_list_byte_of_string.
Qed.

(** Lines hold neither tabs in a field, nor newlines, nor carriage returns. *)
Definition plain (b : Byte.byte) : Prop := b <> TAB /\ b <> NEWLINE /\ b <> x0d.

Lemma hex_plain v : Forall plain (hex_of v).
Proof.
  induction v as [|b v IH]; [constructor|]. cbn [hex_of fmap list_fmap concat app]. fold (hex_of v).
  constructor; [|constructor]; [..|done]; by destruct b.
Qed.
Lemma decimal_plain fuel n : Forall plain (decimal_digits fuel n []).
Proof. eapply Forall_impl; [apply decimal_digits_are|]. intros b Hb. destruct (digit_is b Hb) as (? & ? & _ & ?). done. Qed.

(** ** Lines *)

Lemma split_tab_plain v : Forall plain v -> split_tab v = [v].
Proof. induction 1 as [|b v [Hb _] _ IH]; [done|]. cbn [split_tab]. by rewrite bool_decide_eq_false_2, IH. Qed.

Lemma split_tab_app v w : Forall plain v -> split_tab (v ++ TAB :: w) = v :: split_tab w.
Proof.
  induction 1 as [|b v [Hb _] _ IH]; cbn [app split_tab]; [by rewrite bool_decide_eq_true_2|]. by rewrite bool_decide_eq_false_2, IH.
Qed.

(** The fields of a line. *)
Definition line_fields (tag : bytes) key (block_len : option Z) : list bytes :=
  [tag; decimal_digits 20 (shard_id key) []; hex_of (key_bytes (record_key key)); hex_of (key_bytes (namespace key)); hex_of (key_bytes (selector key))]
  ++ match block_len with Some n => [decimal_digits 20 n []] | None => [] end.

Lemma manifest_line_eq tag key block_len : manifest_line tag key block_len =
  tag ++ TAB :: decimal_digits 20 (shard_id key) [] ++ TAB :: hex_of (key_bytes (record_key key)) ++ TAB :: hex_of (key_bytes (namespace key)) ++
  TAB :: hex_of (key_bytes (selector key)) ++ match block_len with Some n => TAB :: decimal_digits 20 n [] | None => [] end.
Proof.
  unfold manifest_line, append_manifest_line, push_decimal. rewrite !push_field. destruct block_len; rewrite <- ?app_assoc; cbn [app]; by rewrite ?app_nil_r.
Qed.

Lemma split_line tag key block_len : Forall plain tag -> split_tab (manifest_line tag key block_len) = line_fields tag key block_len.
Proof.
  intros Ht. rewrite manifest_line_eq. rewrite !split_tab_app by (done || apply decimal_plain || apply hex_plain). unfold line_fields. cbn [app].
  destruct block_len; [rewrite split_tab_app by apply hex_plain; by rewrite split_tab_plain by apply decimal_plain|].
  by rewrite app_nil_r, split_tab_plain by apply hex_plain.
Qed.

Record key_ok key : Prop := {
  ko_shard : is_u64 (shard_id key);
  ko_record : str_ok (record_key key);
  ko_namespace : str_ok (namespace key);
  ko_selector : str_ok (selector key) }.

Lemma decode_key_ok key rest : key_ok key ->
  decode_key ([decimal_digits 20 (shard_id key) []; hex_of (key_bytes (record_key key)); hex_of (key_bytes (namespace key)); hex_of (key_bytes (selector key))] ++ rest) =
  Some (key, rest).
Proof.
  intros [H1 H2 H3 H4]. unfold decode_key. cbn [app next_field mbind option_bind]. rewrite parse_u64_decimal by done. cbn [mbind option_bind].
  rewrite !decode_field by done. cbn [mbind option_bind]. by destruct key.
Qed.

Definition tags : list bytes := [V1; D1; PMD1].
Lemma tags_plain tag : tag ∈ tags -> Forall plain tag.
Proof. intros H. repeat (apply elem_of_cons in H as [->|H]; [repeat constructor; done|]). by apply not_elem_of_nil in H. Qed.

Lemma decode_line_ok key len : key_ok key -> is_u64 len -> decode_line (manifest_line_for_key key len) = Some (mkManifestRecord key len).
Proof.
  intros Hk Hl. unfold decode_line, manifest_line_for_key. rewrite split_line by (apply tags_plain; by left).
  unfold line_fields. cbn [app next_field mbind option_bind]. rewrite bool_decide_eq_true_2 by done. cbn [negb].
  pose proof (decode_key_ok key [decimal_digits 20 len []] Hk) as E. cbn [app] in E. rewrite E. cbn [mbind option_bind next_field].
  by rewrite parse_u64_decimal.
Qed.

Lemma decode_line_other tag key block_len : tag ∈ tags -> tag <> V1 -> decode_line (manifest_line tag key block_len) = None.
Proof.
  intros Ht Hne. unfold decode_line. rewrite split_line by (by apply tags_plain). unfold line_fields. cbn [app next_field mbind option_bind].
  by rewrite bool_decide_eq_false_2.
Qed.

Lemma decode_delete_ok tag key : tag ∈ tags -> key_ok key -> decode_delete tag (manifest_line tag key None) = Some key.
Proof.
  intros Ht Hk. unfold decode_delete. rewrite split_line by (by apply tags_plain). unfold line_fields. cbn [app next_field mbind option_bind].
  rewrite bool_decide_eq_true_2 by done. cbn [negb].
  pose proof (decode_key_ok key [] Hk) as E. cbn [app] in E. by rewrite E.
Qed.

Lemma decode_delete_other tag tag' key block_len : tag' ∈ tags -> tag' <> tag -> decode_delete tag (manifest_line tag' key block_len) = None.
Proof.
  intros Ht Hne. unfold decode_delete. rewrite split_line by (by apply tags_plain). unfold line_fields. cbn [app next_field mbind option_bind].
  by rewrite bool_decide_eq_false_2.
Qed.

Lemma line_length tag key block_len : is_u64 (shard_id key) -> (forall n, block_len = Some n -> is_u64 n) ->
  blen (manifest_line tag key block_len) = manifest_line_len tag key block_len.
Proof.
  intros Hs Hl. rewrite manifest_line_eq. unfold manifest_line_len. rewrite <- decimal_length by done.
  assert (forall v w, blen (v ++ TAB :: w) = blen v + 1 + blen w) as Hc by (intros v w; rewrite blen_app; unfold blen; cbn; lia).
  rewrite !Hc, !hex_of_length || rewrite !Hc. destruct block_len as [n|].
  - rewrite Hc, !hex_of_length, (decimal_length n) by (by apply Hl). lia.
  - rewrite app_nil_r, !hex_of_length. lia.
Qed.

Lemma inline_key_same key : inline_ssd_store_key key = ssd_store_key key.
Proof.
  unfold inline_ssd_store_key, ssd_store_key, manifest_line_for_key. rewrite manifest_line_eq. unfold push_decimal. rewrite !push_field.
  rewrite <- !app_assoc. done.
Qed.

(** ** Files of lines *)

Definition line_byte (b : Byte.byte) : Prop := b <> NEWLINE /\ b <> x0d /\ byte_value b <= 0x7f.

Lemma ascii_chunks fuel v : Forall (fun b => byte_value b <= 0x7f) v -> (length v <= fuel)%nat ->
  utf8_chunks fuel v = (fun b => inl [b]) <$> v.
Proof.
  intros Hv. revert fuel. induction Hv as [|b v Hb _ IH]; intros fuel Hf; [by destruct fuel|]. destruct fuel as [|fuel]; [cbn in Hf; lia|].
  cbn [utf8_chunks]. unfold utf8_first. rewrite (proj2 (Z.leb_le _ _)) by done. cbn. rewrite drop_0, IH by (cbn in Hf; lia). done.
Qed.

Lemma ascii_utf8 v : Forall (fun b => byte_value b <= 0x7f) v -> is_utf8 v = true.
Proof. intros Hv. unfold is_utf8. rewrite ascii_chunks by done. clear Hv. induction v as [|b v IH]; [done|exact IH]. Qed.

Lemma line_byte_plain v : Forall plain v -> Forall (fun b => byte_value b <= 0x7f) v -> Forall line_byte v.
Proof. intros H1 H2. apply Forall_and. split; [eapply Forall_impl; [exact H1|]|]; [by intros b (_ & ? & _)|]. apply Forall_and. split; [|done].
  eapply Forall_impl; [exact H1|]. by intros b (_ & _ & ?).
Qed.

Lemma hex_line v : Forall line_byte (hex_of v).
Proof.
  induction v as [|b v IH]; [constructor|]. cbn [hex_of fmap list_fmap concat app]. fold (hex_of v).
  constructor; [|constructor]; [..|done]; by destruct b.
Qed.
Lemma decimal_line fuel n : Forall line_byte (decimal_digits fuel n []).
Proof.
  apply line_byte_plain; [apply decimal_plain|]. eapply Forall_impl; [apply decimal_digits_are|]. intros b [d Hd]. unfold decimal_digit in Hd.
  case_if; [|done]. zbool. lia.
Qed.

Lemma tab_line : line_byte TAB.
Proof. done. Qed.
Lemma tags_line tag : tag ∈ tags -> Forall line_byte tag.
Proof. intros H. repeat (apply elem_of_cons in H as [->|H]; [repeat constructor; done|]). by apply not_elem_of_nil in H. Qed.

Lemma manifest_line_bytes tag key block_len : tag ∈ tags -> Forall line_byte (manifest_line tag key block_len).
Proof.
  intros Ht. rewrite manifest_line_eq. pose proof tab_line. pose proof (tags_line tag Ht).
  destruct block_len; repeat first [apply Forall_app; split | apply Forall_cons; split | apply hex_line | apply decimal_line | done | constructor].
Qed.

Definition text_of (lines : list bytes) : bytes := concat ((fun line => line ++ [NEWLINE]) <$> lines).

Lemma text_of_app ls ls' : text_of (ls ++ ls') = text_of ls ++ text_of ls'.
Proof. unfold text_of. by rewrite fmap_app, concat_app. Qed.
Lemma text_of_one line : text_of [line] = line ++ [NEWLINE].
Proof. unfold text_of. cbn. by rewrite app_nil_r. Qed.

Lemma strip_plain line : Forall line_byte line -> strip_return line = line.
Proof.
  intros H. unfold strip_return. destruct (rev line) as [|b l] eqn:E; [by rewrite <- (rev_involutive line), E|].
  rewrite bool_decide_eq_false_2; [done|]. intros ->. assert (x0d ∈ line) as Hin by (rewrite <- (rev_involutive line), E; apply list_elem_of_In, in_rev; rewrite rev_involutive; by left).
  rewrite Forall_forall in H. by destruct (H _ Hin) as (_ & ? & _).
Qed.

Lemma raw_lines_line line v cur : Forall line_byte line -> raw_lines (line ++ v) cur = raw_lines v (cur ++ line).
Proof.
  intros H. revert cur. induction H as [|b line [Hb _] _ IH]; intros cur; [by rewrite app_nil_r|]. cbn [app raw_lines].
  rewrite bool_decide_eq_false_2, IH by done. by rewrite <- app_assoc.
Qed.

(** Whole lines, and what is left after the last. *)
Lemma raw_lines_text ls t : Forall (Forall line_byte) ls -> Forall line_byte t ->
  raw_lines (text_of ls ++ t) [] = ls ++ if bool_decide (t = []) then [] else [t].
Proof.
  intros Hl Ht. induction Hl as [|line ls H _ IH].
  - cbn [text_of fmap list_fmap concat app]. rewrite <- (app_nil_r t) at 1. by rewrite raw_lines_line.
  - cbn [text_of fmap list_fmap concat]. fold (text_of ls). rewrite <- !app_assoc, raw_lines_line by done. cbn [app raw_lines].
    rewrite bool_decide_eq_true_2, strip_plain by done. by rewrite IH.
Qed.

Lemma file_lines_text ls t : Forall (Forall line_byte) ls -> Forall line_byte t ->
  file_lines (text_of ls ++ t) = Ok <$> (ls ++ if bool_decide (t = []) then [] else [t]).
Proof.
  intros Hl Ht. unfold file_lines. rewrite raw_lines_text by done. apply list_fmap_ext. intros i line Hi.
  rewrite ascii_utf8; [done|]. assert (Forall (Forall line_byte) (ls ++ if bool_decide (t = []) then [] else [t])) as Hall
    by (apply Forall_app; split; [done|]; case_bool_decide; by repeat constructor).
  pose proof (Forall_lookup_1 _ _ _ _ Hall Hi) as H. eapply Forall_impl; [exact H|]. by intros b (_ & _ & ?).
Qed.

(** ** The name of a block file *)

Section hash.
Context `{DefaultHasher}.

Lemma hex_chunks_eq fuel v : (length v <= fuel)%nat -> concat (hex_chunks fuel v) = hex_of v.
Proof.
  revert v. induction fuel as [|fuel IH]; intros v Hf; [destruct v; [done|cbn in Hf; lia]|]. destruct v as [|b v]; [done|]. cbn [hex_chunks concat].
  rewrite hex_fold. cbn [app]. rewrite IH by (rewrite length_drop; cbn in Hf |- *; lia). by rewrite <- hex_of_app, take_drop.
Qed.

(** The hash of the line as a [str], written in pieces. *)
Lemma pmem_key_hash_eq key : pmem_key_hash key = finish (manifest_line_for_key key 0 ++ [xff]).
Proof.
  unfold pmem_key_hash, manifest_line_for_key. f_equal. rewrite manifest_line_eq. unfold pmem_key_writes.
  assert (decimal_digits 20 0 [] = [x30]) as -> by done.
  repeat first [progress cbn [fmap list_fmap concat app] | rewrite concat_app | rewrite hex_chunks_eq by done | rewrite <- app_assoc | rewrite app_nil_r]. done.
Qed.
End hash.

(** C22. A line reads back as what it was written for: a record as its key and
    length, a delete as its key, and each shape only by its own reader; its
    length is the capacity that is reserved for it, the store key that is
    built in place is the same line, and the block file of a key is named
    after the hash of that line. *)
Theorem manifest_line_exact `{DefaultHasher} (key : CacheKey) (len : Z) : key_ok key -> is_u64 len ->
  decode_op (encode_op (ManifestPut (mkManifestRecord key len))) = Some (ManifestPut (mkManifestRecord key len)) /\
  decode_op (encode_op (ManifestDelete key)) = Some (ManifestDelete key) /\
  decode_pmem_delete_line (encode_pmem_delete_line key) = Some key /\
  decode_line (encode_pmem_delete_line key) = None /\ decode_op (encode_pmem_delete_line key) = None /\
  decode_pmem_delete_line (manifest_line_for_key key len) = None /\
  blen (manifest_line_for_key key len) = manifest_line_len V1 key (Some len) /\
  inline_ssd_store_key key = ssd_store_key key /\
  pmem_key_hash key = finish (ssd_store_key key ++ [xff]).
Proof.
  intros Hk Hl. assert (D1 <> V1 /\ PMD1 <> V1 /\ PMD1 <> D1 /\ V1 <> PMD1) as (? & ? & ? & ?) by done.
  assert (V1 ∈ tags /\ D1 ∈ tags /\ PMD1 ∈ tags) as (? & ? & ?) by (unfold tags; set_solver).
  unfold decode_op, encode_op, encode_pmem_delete_line, decode_pmem_delete_line. cbn [mr_key mr_block_len].
  pose proof (decode_line_ok key len Hk Hl) as E. unfold manifest_line_for_key in E. rewrite E. rewrite !decode_line_other by done.
  rewrite !decode_delete_ok by done. unfold manifest_line_for_key. rewrite !decode_delete_other by done.
  split_and!; try done; [apply line_length; [apply Hk|by intros n [= ->]]|apply inline_key_same|apply pmem_key_hash_eq].
Qed.

Definition line_key : CacheKey := mkKey 18446744073709551615 "k	e" "string" "a:é".
Definition byte_hasher : DefaultHasher := fun v => wrap64 (foldl (fun h b => h * 31 + byte_value b) 7 v).

Lemma manifest_line_exact_witness :
  decode_op (encode_op (ManifestPut (mkManifestRecord line_key 1024))) = Some (ManifestPut (mkManifestRecord line_key 1024)) /\
  @pmem_key_hash byte_hasher line_key = @finish byte_hasher (ssd_store_key line_key ++ [xff]).
Proof.
  destruct (@manifest_line_exact byte_hasher line_key 1024) as (H1 & _ & _ & _ & _ & _ & _ & _ & H2); [by split|done|].
  split; [exact H1|exact H2].
Defined.

(** ** Keys read back *)

Definition text_bytes (v : bytes) : string := String.string_of_list_byte v.
Lemma text_bytes_back v : key_bytes (text_bytes v) = v.
Proof. apply String.list_byte_of_string_of_list_byte. Qed.
Lemma text_bytes_inj v w : text_bytes v = text_bytes w -> v = w.
Proof. intros E. by rewrite <- (text_bytes_back v), E, text_bytes_back. Qed.

Definition dec n : bytes := decimal_digits 20 n [].
Lemma dec_inj n m : is_u64 n -> is_u64 m -> dec n = dec m -> n = m.
Proof. intros Hn Hm E. apply parse_u64_decimal in Hn, Hm. unfold dec in E. congruence. Qed.
Lemma digit_not_colon b : is_digit b -> b <> COLON.
Proof. intros [d Hd] ->. vm_compute in Hd. discriminate. Qed.
(** What stands before the first colon, and what after. *)
Lemma colon_split v w x y : Forall is_digit v -> Forall is_digit w -> v ++ COLON :: x = w ++ COLON :: y -> v = w /\ x = y.
Proof.
  intros Hv. revert w. induction Hv as [|b v Hb _ IH]; intros w Hw E; destruct Hw as [|b' w Hb' Hw]; simpl in E.
  - by injection E.
  - injection E as <- _. by destruct (digit_not_colon _ Hb').
  - injection E as -> _. by destruct (digit_not_colon _ Hb).
  - injection E as -> E. by destruct (IH w Hw E) as [-> ->].
Qed.
Lemma dec_split n m x y : is_u64 n -> is_u64 m -> dec n ++ COLON :: x = dec m ++ COLON :: y -> n = m /\ x = y.
Proof. intros Hn Hm E. apply colon_split in E as [E ->]; [|apply decimal_digits_are..]. split; [by apply dec_inj|done]. Qed.
Lemma dec_head n x : exists b r, dec n ++ x = b :: r /\ is_digit b.
Proof.
  unfold dec. pose proof (decimal_digits_are 20 n) as Hd. pose proof (decimal_nonempty 19 n) as Hne. destruct (decimal_digits 20 n []) as [|b r]; [done|].
  apply Forall_cons in Hd as [Hb _]. by exists b, (r ++ x).
Qed.

(** A selector is its parts. *)
Definition slot_part (slot : option Z) : bytes := match slot with Some n => key_bytes "slot-" ++ dec n ++ [COLON] | None => [] end.
Definition gen_part (gen : option Z) : bytes := match gen with Some n => key_bytes "gen-" ++ dec n ++ [COLON] | None => [] end.
Lemma page_selector_parts slot gen offset length : page_selector slot gen offset length = text_bytes (slot_part slot ++ gen_part gen ++ dec offset ++ COLON :: dec length).
Proof.
  unfold page_selector, push_decimal, text_bytes, slot_part, gen_part, dec. f_equal. destruct slot, gen; cbn [app]; rewrite <- ?app_assoc; done.
Qed.

Definition opt_u64 (n : option Z) : Prop := forall x, n = Some x -> is_u64 x.
(** Digits and colons start neither "slot-" nor "gen-". *)
Lemma starts_other n x y c : dec n ++ x = c :: y -> c <> x73 /\ c <> x67.
Proof. intros E. destruct (dec_head n x) as (b & r & E' & [d Hd]). rewrite E in E'. injection E' as -> ->. split; intros ->; vm_compute in Hd; discriminate. Qed.
Lemma gen_part_split gen gen' offset offset' x y : opt_u64 gen -> opt_u64 gen' ->
  gen_part gen ++ dec offset ++ x = gen_part gen' ++ dec offset' ++ y -> gen = gen' /\ dec offset ++ x = dec offset' ++ y.
Proof.
  intros Hg Hg' E. destruct gen as [n|], gen' as [m|]; unfold gen_part in E; cbn [app] in E.
  - rewrite <- !app_assoc in E. apply app_inv_head in E. cbn [app] in E. apply dec_split in E as [-> E]; [done|by apply Hg|by apply Hg'].
  - symmetry in E. by destruct (starts_other _ _ _ _ E).
  - by destruct (starts_other _ _ _ _ E).
  - done.
Qed.
Lemma slot_part_split slot slot' gen gen' offset offset' x y : opt_u64 slot -> opt_u64 slot' ->
  slot_part slot ++ gen_part gen ++ dec offset ++ x = slot_part slot' ++ gen_part gen' ++ dec offset' ++ y ->
  slot = slot' /\ gen_part gen ++ dec offset ++ x = gen_part gen' ++ dec offset' ++ y.
Proof.
  assert (Hns : forall gen offset x r, gen_part gen ++ dec offset ++ x <> x73 :: r).
  { intros [n|] o z r E; [discriminate E|]. by destruct (starts_other _ _ _ _ E). }
  intros Hs Hs' E. destruct slot as [n|], slot' as [m|]; unfold slot_part in E; cbn [app] in E.
  - rewrite <- !app_assoc in E. apply app_inv_head in E. cbn [app] in E. apply dec_split in E as [-> E]; [done|by apply Hs|by apply Hs'].
  - symmetry in E. by destruct (Hns _ _ _ _ E).
  - by destruct (Hns _ _ _ _ E).
  - done.
Qed.
Lemma page_selector_inj slot gen offset length slot' gen' offset' length' :
  opt_u64 slot -> opt_u64 gen -> is_u64 offset -> is_u64 length -> opt_u64 slot' -> opt_u64 gen' -> is_u64 offset' -> is_u64 length' ->
  page_selector slot gen offset length = page_selector slot' gen' offset' length' -> slot = slot' /\ gen = gen' /\ offset = offset' /\ length = length'.
Proof.
  intros ???????? E. rewrite !page_selector_parts in E. apply text_bytes_inj in E. apply slot_part_split in E as [-> E]; [|done..].
  apply gen_part_split in E as [-> E]; [|done..]. apply dec_split in E as [-> E]; [|done..]. apply dec_inj in E as ->; done.
Qed.
Lemma parse_zeros k v : parse_digits_u64 0 (replicate k x30 ++ v) = parse_digits_u64 0 v.
Proof. induction k as [|k IH]; [done|exact IH]. Qed.
Lemma segment_inj n m : is_u64 n -> is_u64 m -> segment_record_key n = segment_record_key m -> n = m.
Proof.
  intros Hn Hm E. apply text_bytes_inj, app_inv_head in E. unfold padded_decimal in E. apply (f_equal (parse_digits_u64 0)) in E. rewrite !parse_zeros in E.
  rewrite !parse_decimal in E by (unfold is_u64, u64_max in *; lia). by injection E.
Qed.
Lemma feature_selector_inj a b c a' b' c' : is_u64 a -> is_u64 b -> is_u64 c -> is_u64 a' -> is_u64 b' -> is_u64 c' ->
  feature_selector a b c = feature_selector a' b' c' -> a = a' /\ b = b' /\ c = c'.
Proof.
  intros ?????? E. apply text_bytes_inj in E. unfold push_decimal in E. rewrite <- !app_assoc in E. cbn [app] in E.
  apply dec_split in E as [-> E]; [|done..]. apply dec_split in E as [-> E]; [|done..]. by apply dec_inj in E as ->.
Qed.

(** *** The slot of a selector *)

Lemma text_cons b v : text_bytes (b :: v) = String (Ascii.ascii_of_byte b) (text_bytes v).
Proof. done. Qed.
Lemma digit_text b d : decimal_digit b = Some d -> digit_value (Ascii.ascii_of_byte b) = Some d.
Proof. destruct b; vm_compute; intros H; try discriminate H; exact H. Qed.
Lemma digit_nonneg b d : decimal_digit b = Some d -> 0 <= d.
Proof. unfold decimal_digit. case_if; [|done]. zbool. intros [= <-]. lia. Qed.
Lemma split_once_text v w : Forall is_digit v -> split_once (Ascii.ascii_of_byte COLON) (text_bytes (v ++ COLON :: w)) = Some (text_bytes v, text_bytes w).
Proof.
  induction 1 as [|b v Hb _ IH]; [done|]. cbn [app]. rewrite text_cons. cbn [split_once]. rewrite IH.
  destruct (Ascii.eqb_spec (Ascii.ascii_of_byte b) (Ascii.ascii_of_byte COLON)) as [E|_]; [|done]. destruct (digit_not_colon b Hb). by destruct b.
Qed.
(** A number that fits is read by the narrower reader as by the wider one. *)
Lemma parse_digits_text v acc n : 0 <= acc -> n <= u32_max -> parse_digits_u64 acc v = Some n -> parse_digits acc (text_bytes v) = Some n.
Proof.
  assert (Hmono : forall v acc n, 0 <= acc -> parse_digits_u64 acc v = Some n -> acc <= n).
  { clear. intros v. induction v as [|b v IH]; intros acc n Ha E; [by injection E as ->|]. cbn [parse_digits_u64] in E.
    destruct (decimal_digit b) as [d|] eqn:Ed; [|done]. cbn [mbind option_bind] in E. case_if; [|done].
    pose proof (digit_nonneg b d Ed). apply IH in E; lia. }
  revert acc. induction v as [|b v IH]; intros acc Ha Hn E; [done|]. rewrite text_cons. cbn [parse_digits parse_digits_u64] in *.
  destruct (decimal_digit b) as [d|] eqn:Ed; [|done]. rewrite (digit_text b d Ed). cbn [mbind option_bind] in E. destruct (acc * 10 + d <=? u64_max); [|done].
  pose proof (digit_nonneg b d Ed).
  assert (acc * 10 + d <= n) by (eapply Hmono; [|exact E]; lia). rewrite (proj2 (Z.leb_le _ _)) by lia. apply IH; [lia|done|done].
Qed.
Lemma parse_u32_dec n : 0 <= n <= u32_max -> parse_u32 (text_bytes (dec n)) = Some n.
Proof.
  intros Hn. assert (parse_digits 0 (text_bytes (dec n)) = Some n) as E.
  { apply parse_digits_text; [done|lia|]. apply parse_decimal; unfold u32_max, u64_max in *; lia. }
  destruct (dec_head n []) as (b & r & Hd & [d Hb]). rewrite app_nil_r in Hd. rewrite Hd in *. rewrite text_cons in *.
  by destruct b; vm_compute in Hb; try discriminate Hb.
Qed.
Lemma slot_reads_back key slot gen offset length : (forall n, slot = Some n -> 0 <= n <= u32_max) ->
  selector key = page_selector slot gen offset length -> extract_routing_slot key = slot.
Proof.
  intros Hs E. unfold extract_routing_slot. rewrite E, page_selector_parts. destruct slot as [n|]; cbn [slot_part].
  - rewrite <- !app_assoc. change (strip_prefix "slot-" _) with (Some (text_bytes (dec n ++ [COLON] ++ gen_part gen ++ dec offset ++ COLON :: dec length))). cbn [app].
    rewrite split_once_text by apply decimal_digits_are. by apply parse_u32_dec, Hs.
  - destruct gen as [n|]; [done|]. cbn [gen_part app]. destruct (dec_head offset (COLON :: dec length)) as (b & r & -> & [d Hb]).
    by destruct b; vm_compute in Hb; try discriminate Hb.
Qed.

(** The room reserved is the length. *)
Lemma colon_length w : blen (COLON :: w) = 1 + blen w.
Proof. unfold blen. cbn [length]. lia. Qed.
Lemma page_capacity slot gen offset length : opt_u64 slot -> opt_u64 gen -> is_u64 offset -> is_u64 length ->
  blen (key_bytes (page_selector slot gen offset length)) = page_selector_capacity slot gen offset length.
Proof.
  intros Hs Hg Ho Hl. rewrite page_selector_parts, text_bytes_back. unfold page_selector_capacity. rewrite <- !decimal_length by done.
  assert (Hsl : blen (slot_part slot) = match slot with Some n => blen (key_bytes "slot-") + decimal_width n + 1 | None => 0 end).
  { destruct slot as [n|]; [|done]. unfold slot_part. rewrite !blen_app, colon_length. unfold dec. rewrite decimal_length by (by apply Hs). change (blen []) with 0. lia. }
  assert (Hge : blen (gen_part gen) = match gen with Some n => blen (key_bytes "gen-") + decimal_width n + 1 | None => 0 end).
  { destruct gen as [n|]; [|done]. unfold gen_part. rewrite !blen_app, colon_length. unfold dec. rewrite decimal_length by (by apply Hg). change (blen []) with 0. lia. }
  rewrite !blen_app, colon_length, Hsl, Hge. unfold dec. destruct slot, gen; lia.
Qed.
Lemma feature_capacity a b c : is_u64 a -> is_u64 b -> is_u64 c -> blen (key_bytes (feature_selector a b c)) = feature_selector_capacity a b c.
Proof.
  intros Ha Hb Hc. unfold feature_selector. rewrite text_bytes_back. unfold feature_selector_capacity, push_decimal. rewrite <- !decimal_length by done.
  rewrite ?blen_app, !colon_length. change (blen []) with 0. lia.
Qed.

(** The parts of a page key, at their widths. *)
Record PageName := mkPage { pn_shard : Z; pn_segment : Z; pn_offset : Z; pn_length : Z; pn_slot : option Z; pn_generation : option Z }.
Definition page_key (p : PageName) : CacheKey := page_with_slot_generation (pn_shard p) (pn_segment p) (pn_offset p) (pn_length p) (pn_slot p) (pn_generation p).
Record page_ok (p : PageName) : Prop := {
  po_segment : is_u64 (pn_segment p);
  po_offset : is_u64 (pn_offset p);
  po_length : is_u64 (pn_length p);
  po_slot : forall n, pn_slot p = Some n -> 0 <= n <= u32_max;
  po_generation : opt_u64 (pn_generation p) }.
Lemma page_key_eq p : page_key p = mkKey (pn_shard p) (segment_record_key (pn_segment p)) "page" (page_selector (pn_slot p) (pn_generation p) (pn_offset p) (pn_length p)).
Proof. unfold page_key, page_with_slot_generation, page_with_slot. by destruct (pn_generation p), (pn_slot p). Qed.
Lemma page_slot_u64 p : page_ok p -> opt_u64 (pn_slot p).
Proof. intros Hp n Hn. pose proof (po_slot p Hp n Hn). unfold is_u64, u32_max in *. lia. Qed.

(** C23. A page key names its page: the routing slot is read back out of its
    selector as it was given, or found absent, and another page, slot or
    generation has another key, whichever of the three constructors made it;
    the room reserved for the selector is exactly its length. *)
Theorem page_keys_exact p : page_ok p ->
  extract_routing_slot (page_key p) = pn_slot p /\
  (forall p', page_ok p' -> page_key p' = page_key p -> p' = p) /\
  blen (key_bytes (selector (page_key p))) = page_selector_capacity (pn_slot p) (pn_generation p) (pn_offset p) (pn_length p) /\
  page_with_slot (pn_shard p) (pn_segment p) (pn_offset p) (pn_length p) (pn_slot p) = page_key (mkPage (pn_shard p) (pn_segment p) (pn_offset p) (pn_length p) (pn_slot p) None) /\
  page (pn_shard p) (pn_segment p) (pn_offset p) (pn_length p) = page_key (mkPage (pn_shard p) (pn_segment p) (pn_offset p) (pn_length p) None None).
Proof.
  intros Hp. rewrite page_key_eq. split_and!; [|intros p' Hp'; rewrite page_key_eq; intros E| |done|done].
  - by eapply slot_reads_back; [apply po_slot|].
  - pose proof (f_equal shard_id E) as E1. pose proof (f_equal record_key E) as E2. pose proof (f_equal selector E) as E3. cbn [shard_id record_key selector] in E1, E2, E3.
    clear E. apply segment_inj in E2; [|by apply po_segment..].
    apply page_selector_inj in E3 as (E4 & E5 & E6 & E7); [|first [by apply page_slot_u64|by apply po_generation|by apply po_offset|by apply po_length]..].
    destruct p, p'; simpl in *. congruence.
  - apply page_capacity; first [by apply page_slot_u64|by apply po_generation|by apply po_offset|by apply po_length].
Qed.
(** A feature query has one key, a count left out being 5000, and its selector
    the length that the assertion of its constructor asks for. *)
Theorem feature_keys_exact shard name a b count shard' name' a' b' count' :
  is_u64 a -> is_u64 b -> is_u64 (default 5000 count) -> is_u64 a' -> is_u64 b' -> is_u64 (default 5000 count') ->
  blen (key_bytes (selector (feature_query shard name a b count))) = feature_selector_capacity a b (default 5000 count) /\
  (feature_query shard name a b count = feature_query shard' name' a' b' count' ->
    shard = shard' /\ name = name' /\ a = a' /\ b = b' /\ default 5000 count = default 5000 count').
Proof.
  intros Ha Hb Hc Ha' Hb' Hc'. split; [by apply feature_capacity|]. intros E. pose proof (f_equal shard_id E) as E1. pose proof (f_equal record_key E) as E2. pose proof (f_equal selector E) as E3.
  by apply feature_selector_inj in E3 as (-> & -> & ->).
Qed.

Lemma page_keys_exact_witness :
  page_key (mkPage 3 7 4096 512 (Some 11) (Some 2)) = mkKey 3 "segment-00000000000000000007" "page" "slot-11:gen-2:4096:512" /\
  extract_routing_slot (page_key (mkPage 3 7 4096 512 (Some 11) (Some 2))) = Some 11.
Proof.
  split; [vm_compute; reflexivity|]. apply (page_keys_exact (mkPage 3 7 4096 512 (Some 11) (Some 2))).
  split; simpl; [unfold is_u64; lia..|intros n [= <-]; unfold u32_max; lia|intros n [= <-]; unfold is_u64; lia].
Defined.
