(* ===== verification/DiskManifest.v ===== *)
(** * The manifest of the SSD tier

    How the SSD tier of the build without RocksDB survives a restart
    (builder_and_gc.rs): a block file per entry, a manifest that every
    arrival and removal appends a line to, rewriting it when it has grown
    long, and recovery, which rebuilds the index from it.  The tier's index,
    order and byte count are the only memory; writes do not fail here. *)

From Stdlib Require Import Strings.Byte.
From S2P Require Import Prelude Types Hashes BlockCodec SsdRecords RdmaIndex ManifestLine.

(** The index and its order, the lines appended since the manifest was last
    written whole, and the files: the manifest and the length of every block
    file, by path. *)
Record DiskTier := mkTier {
  disk_index : gmap CacheKey Z;
  disk_order : list CacheKey;
  ssd_bytes : Z;
  manifest_appends : Z;
  manifest_file : option bytes;
  block_files : gmap (Z * string * Z) Z }.

Record CacheRecoverReport := mkReport { scanned_files : Z; recovered_files : Z; recovered_bytes : Z; skipped_files : Z }.
Definition default_report : CacheRecoverReport := mkReport 0 0 0 0.
Definition scanned (r : CacheRecoverReport) : CacheRecoverReport :=
  mkReport (scanned_files r +! 1) (recovered_files r) (recovered_bytes r) (skipped_files r).
Definition skipped (r : CacheRecoverReport) : CacheRecoverReport :=
  mkReport (scanned_files r) (recovered_files r) (recovered_bytes r) (skipped_files r +! 1).
Definition recovered (n : Z) (r : CacheRecoverReport) : CacheRecoverReport :=
  mkReport (scanned_files r) (recovered_files r +! 1) (recovered_bytes r +! n) (skipped_files r).

(** [str::trim]: the white space of Unicode, in UTF-8. *)
Definition white_space : list bytes :=
  [[x09]; [x0a]; [x0b]; [x0c]; [x0d]; [x20]; [xc2; x85]; [xc2; xa0]; [xe1; x9a; x80]; [xe2; x80; x80]; [xe2; x80; x81]; [xe2; x80; x82];
   [xe2; x80; x83]; [xe2; x80; x84]; [xe2; x80; x85]; [xe2; x80; x86]; [xe2; x80; x87]; [xe2; x80; x88]; [xe2; x80; x89]; [xe2; x80; x8a];
   [xe2; x80; xa8]; [xe2; x80; xa9]; [xe2; x80; xaf]; [xe2; x81; x9f]; [xe3; x80; x80]].
Definition drop_one (spaces : list bytes) (v : bytes) : option bytes :=
  match list_find (fun w => take (length w) v = w) spaces with Some (_, w) => Some (drop (length w) v) | None => None end.
Fixpoint trim_start (fuel : nat) (spaces : list bytes) (v : bytes) : bytes :=
  match fuel with
  | O => v
  | S fuel => match drop_one spaces v with Some v => trim_start fuel spaces v | None => v end
  end.
Definition trim (v : bytes) : bytes :=
  let v := trim_start (length v) white_space v in rev (trim_start (length v) ((fun w => rev w) <$> white_space) (rev v)).

Section disk.
Context `{DefaultHasher}.
(** The order in which the index is gone through: a hash map's. *)
Context (iterate : gmap CacheKey Z -> list (CacheKey * Z)).
Implicit Types (t : DiskTier) (key : CacheKey).

(** What the derived [Hash] feeds to the hasher. *)
#[local] Instance hash_key : Hash CacheKey := fun key =>
  hash_feed (shard_id key) ++ (key_bytes (record_key key) ++ [xff]) ++ (key_bytes (namespace key) ++ [xff]) ++ (key_bytes (selector key) ++ [xff]).
Definition disk_name key : Z := finish (hash_feed key).
(** Below the tier's directory: the shard's, the namespace's, and a name.
    A namespace is taken as the name of one directory. *)
Definition disk_path key : Z * string * Z := (shard_id key, namespace key, disk_name key).

Definition set_tier_index (index : gmap CacheKey Z) t : DiskTier :=
  mkTier index (disk_order t) (ssd_bytes t) (manifest_appends t) (manifest_file t) (block_files t).
Definition set_order (order : list CacheKey) t : DiskTier :=
  mkTier (disk_index t) order (ssd_bytes t) (manifest_appends t) (manifest_file t) (block_files t).
Definition set_tier_bytes (n : Z) t : DiskTier :=
  mkTier (disk_index t) (disk_order t) n (manifest_appends t) (manifest_file t) (block_files t).
Definition set_manifest (appends : Z) (file : option bytes) t : DiskTier :=
  mkTier (disk_index t) (disk_order t) (ssd_bytes t) appends file (block_files t).
Definition set_files (files : gmap (Z * string * Z) Z) t : DiskTier :=
  mkTier (disk_index t) (disk_order t) (ssd_bytes t) (manifest_appends t) (manifest_file t) files.

(** ** The manifest *)

Definition rewrite_disk_manifest t : DiskTier :=
  set_manifest (Z.of_nat (size (disk_index t)))
    (Some (concat ((fun kl => manifest_line_for_key kl.1 kl.2 ++ [NEWLINE]) <$> iterate (disk_index t)))) t.

Definition MANIFEST_COMPACT_FLOOR : Z := 64.
Definition compact_disk_manifest_if_long t : DiskTier :=
  let appended := manifest_appends t + 1 in
  let t := set_manifest appended (manifest_file t) t in
  let live := Z.of_nat (size (disk_index t)) in
  if appended <=? Z.max MANIFEST_COMPACT_FLOOR (sat_mul live 4) then t
  else let t := rewrite_disk_manifest t in set_manifest live (manifest_file t) t.
Definition append_disk_manifest_op (op : CacheManifestOp) t : DiskTier :=
  compact_disk_manifest_if_long
    (set_manifest (manifest_appends t) (Some (default [] (manifest_file t) ++ encode_op op ++ [NEWLINE])) t).
Definition append_disk_manifest_put key (block_len : Z) : DiskTier -> DiskTier :=
  append_disk_manifest_op (ManifestPut (mkManifestRecord key block_len)).
Definition append_disk_manifest_delete key : DiskTier -> DiskTier := append_disk_manifest_op (ManifestDelete key).

(** ** Blocks *)

Definition write_block_file key (len : Z) t : DiskTier := set_files (<[disk_path key := len]> (block_files t)) t.
Definition remove_block_file key t : DiskTier := set_files (delete (disk_path key) (block_files t)) t.
Definition push_key_if_absent key (order : list CacheKey) : list CacheKey := if bool_decide (key ∈ order) then order else order ++ [key].
Definition remove_key key (order : list CacheKey) : list CacheKey := filter (fun k => k <> key) order.

(** The end of [put_with_request_inner]. *)
Definition install_block key (len : Z) t : DiskTier :=
  let t := write_block_file key len t in
  let t := match disk_index t !! key with Some old_len => set_tier_bytes (ssd_bytes t -! old_len) t | None => t end in
  let t := set_tier_index (<[key := len]> (disk_index t)) t in
  let t := set_order (push_key_if_absent key (disk_order t)) t in
  let t := set_tier_bytes (ssd_bytes t +! len) t in
  append_disk_manifest_put key len t.
(** The end of [put_ssd_bypass_if_absent]. *)
Definition bypass_block key (len : Z) t : DiskTier :=
  match disk_index t !! key with
  | Some _ => t
  | None =>
      let t := append_disk_manifest_put key len (write_block_file key len t) in
      let t := set_order (push_key_if_absent key (disk_order t)) (set_tier_index (<[key := len]> (disk_index t)) t) in
      set_tier_bytes (ssd_bytes t +! len) t
  end.

Definition forget_block key t : DiskTier :=
  let t := match disk_index t !! key with Some len => set_tier_bytes (ssd_bytes t -! len) (set_tier_index (delete key (disk_index t)) t) | None => t end in
  set_order (remove_key key (disk_order t)) t.
(** An expired entry. *)
Definition expire_block key t : DiskTier := append_disk_manifest_delete key (remove_block_file key (forget_block key t)).
(** A rewrite that the tier turned down. *)
Definition drop_stale_block key t : DiskTier := forget_block key (append_disk_manifest_delete key (remove_block_file key t)).
(** The victims of an eviction, the lines last. *)
Definition evict_blocks (victims : list CacheKey) t : DiskTier :=
  let t := foldl (fun t key => forget_block key t) t victims in
  let t := foldl (fun t key => remove_block_file key t) t victims in
  foldl (fun t key => append_disk_manifest_delete key t) t victims.
(** [invalidate_keys_locked], the files last. *)
Definition invalidate_step key t : DiskTier :=
  let disk_bytes := default 0 (disk_index t !! key) in
  let t := set_tier_index (delete key (disk_index t)) t in
  append_disk_manifest_delete key (set_tier_bytes (ssd_bytes t -! disk_bytes) t).
Definition invalidate_blocks (keys : list CacheKey) t : DiskTier :=
  let t := foldl (fun t key => invalidate_step key t) t keys in
  let t := set_order (filter (fun k => k ∉ keys) (disk_order t)) t in
  foldl (fun t key => remove_block_file key t) t keys.
(** [invalidate_shard]. *)
Definition invalidate_shard_blocks (shard : Z) t : DiskTier :=
  let disk_keys := (filter (fun kl => shard_id kl.1 = shard) (iterate (disk_index t))).*1 in
  let disk_bytes := foldl (fun n key => n +! default 0 (disk_index t !! key)) 0 disk_keys in
  let t := set_tier_index (filter (fun kl => shard_id kl.1 <> shard) (disk_index t)) t in
  let t := foldl (fun t key => remove_block_file key t) t disk_keys in
  let t := set_order (filter (fun k => shard_id k <> shard) (disk_order t)) t in
  rewrite_disk_manifest (set_tier_bytes (ssd_bytes t -! disk_bytes) t).

(** [clear_all_locked]: the tier's directory goes; the count of lines stays. *)
Definition clear_tier t : DiskTier := mkTier ∅ [] 0 (manifest_appends t) None ∅.

(** ** Recovery *)

(** What the loop over the lines has gathered. *)
Record Recovering := mkRecovering { rg_index : gmap CacheKey Z; rg_order : list CacheKey; rg_bytes : Z; rg_report : CacheRecoverReport }.
Definition note (f : CacheRecoverReport -> CacheRecoverReport) (g : Recovering) : Recovering :=
  mkRecovering (rg_index g) (rg_order g) (rg_bytes g) (f (rg_report g)).

Definition recover_line (files : gmap (Z * string * Z) Z) (line : bytes) (g : Recovering) : Recovering :=
  let line := trim line in
  if bool_decide (line = []) then g
  else
    let g := note scanned g in
    match decode_op line with
    | None => note skipped g
    | Some (ManifestDelete key) =>
        note skipped (mkRecovering (delete key (rg_index g)) (remove_key key (rg_order g))
          (rg_bytes g -! default 0 (rg_index g !! key)) (rg_report g))
    | Some (ManifestPut record) =>
        let key := mr_key record in
        match files !! disk_path key with
        | None => note skipped g
        | Some len =>
            let block_len := Z.max len (mr_block_len record) in
            let g' := mkRecovering (<[key := block_len]> (rg_index g)) (rg_order g) (rg_bytes g) (rg_report g) in
            match rg_index g !! key with
            | Some _ => note skipped g'
            | None => note (recovered block_len) (mkRecovering (rg_index g') (rg_order g' ++ [key]) (rg_bytes g' +! block_len) (rg_report g'))
            end
        end
    end.
Fixpoint recover_lines (files : gmap (Z * string * Z) Z) (lines : list (result bytes)) (g : Recovering) : result Recovering :=
  match lines with
  | [] => Ok g
  | Err e :: _ => Err e
  | Ok line :: lines => recover_lines files lines (recover_line files line g)
  end.
Definition recover_disk_index t : result CacheRecoverReport * DiskTier :=
  match manifest_file t with
  | None => (Ok default_report, set_tier_bytes 0 (set_tier_index ∅ t))
  | Some file =>
      match recover_lines (block_files t) (file_lines file) (mkRecovering ∅ [] 0 default_report) with
      | Err e => (Err e, t)
      | Ok g => (Ok (rg_report g), set_tier_bytes (rg_bytes g) (set_order (rg_order g) (set_tier_index (rg_index g) t)))
      end
  end.

(** A new process: nothing in memory. *)
Definition restart t : DiskTier := mkTier ∅ [] 0 0 (manifest_file t) (block_files t).
End disk.

Definition new_tier : DiskTier := mkTier ∅ [] 0 0 None ∅.
