(* ===== verification/DiskManifestSpec.v ===== *)
(** * What a restart of the SSD tier brings back

    The manifest read back as operations, what recovery makes of them, and the
    claim: whatever was written, evicted and invalidated, recovery brings back
    the index as it was.  The entries that went around the replacement policy
    are the exception, since a manifest that is rewritten while one of them is
    recorded leaves it out. *)

From Stdlib Require Import Strings.Byte.
From S2P Require Import Prelude Types Hashes BlockCodec SsdRecords RdmaIndex ManifestLine ManifestFacts DiskManifest.

(** ** Lines as operations *)

Definition storable (key : CacheKey) : Prop := key_ok key /\ selector key <> ""%string.
Definition op_key (op : CacheManifestOp) : CacheKey := match op with ManifestPut r => mr_key r | ManifestDelete k => k end.
Definition op_ok (op : CacheManifestOp) : Prop := storable (op_key op) /\ match op with ManifestPut r => is_u64 (mr_block_len r) | ManifestDelete _ => True end.
Definition op_text (ops : list CacheManifestOp) : bytes := text_of (encode_op <$> ops).

Definition solid (b : Byte.byte) : Prop := byte_value b <= 0x7f /\ [b] ∉ white_space.

(** A white space of one byte, or of a first byte that is not ASCII. *)
Definition space_ok (w : bytes) : bool :=
  match w with [_] => bool_decide (w ∈ white_space) | c :: _ => 0x80 <=? byte_value c | [] => false end.

Lemma drop_one_solid (spaces : list bytes) b v : solid b -> forallb space_ok spaces = true -> drop_one spaces (b :: v) = None.
Proof.
  intros [Hb Hn] Hs. unfold drop_one. destruct (list_find _ spaces) as [[i w]|] eqn:E; [|done].
  apply list_find_Some in E as (Hi & Hw & _). rewrite forallb_forall in Hs. apply list_elem_of_lookup_2, list_elem_of_In, Hs in Hi.
  destruct w as [|c [|c' w]]; [done|..]; cbn in Hi, Hw; injection Hw; intros; subst; zbool; [done|lia].
Qed.

Lemma white_starts : forallb space_ok white_space = true.
Proof. vm_compute. reflexivity. Qed.
Lemma white_ends : forallb space_ok ((fun w => rev w) <$> white_space) = true.
Proof. vm_compute. reflexivity. Qed.

Lemma trim_solid a v b : solid a -> solid b -> trim (a :: v ++ [b]) = a :: v ++ [b].
Proof.
  intros Ha Hb. unfold trim. cbn [length trim_start]. rewrite drop_one_solid by (done || apply white_starts). cbn [length].
  change (a :: v ++ [b]) with ((a :: v) ++ [b]). rewrite rev_app_distr. cbn [rev app trim_start].
  rewrite drop_one_solid by (done || apply white_ends). change (b :: (rev v ++ [a])) with (rev [b] ++ rev (a :: v)). by rewrite <- rev_app_distr, rev_involutive.
Qed.

Lemma digit_solid b : is_digit b -> solid b.
Proof. intros [d Hd]. destruct b; try done; (split; [done|eapply bool_decide_unpack; vm_compute; exact I]). Qed.
Lemma hex_digit_solid c : solid (hex_digit (Z.land (byte_value c) 0x0f)).
Proof. destruct c; (split; [done|eapply bool_decide_unpack; vm_compute; exact I]). Qed.

Definition ends_solid (v : bytes) : Prop := exists w b, v = w ++ [b] /\ solid b.
Lemma ends_app u v : ends_solid v -> ends_solid (u ++ v).
Proof. intros (w & b & -> & Hb). exists (u ++ w), b. by rewrite app_assoc. Qed.
Lemma ends_cons a v : ends_solid v -> ends_solid (a :: v).
Proof. apply (ends_app [a]). Qed.
Lemma ends_decimal n : ends_solid (decimal_digits 20 n []).
Proof. eexists _, _. split; [exact (decimal_digits_last 19 n)|]. apply digit_solid. exists (n `mod` 10). apply digit_of, mod10. Qed.
Lemma ends_hex (k : string) : k <> ""%string -> ends_solid (hex_of (key_bytes k)).
Proof.
  intros Hk. destruct (key_bytes k) as [|c v _] eqn:E using rev_ind.
  - destruct Hk. by destruct k.
  - rewrite hex_of_app. apply ends_app. exists [hex_digit (Z.shiftr (byte_value c) 4)], (hex_digit (Z.land (byte_value c) 0x0f)).
    split; [done|apply hex_digit_solid].
Qed.

Lemma trim_line tag key len : tag ∈ tags -> storable key -> trim (manifest_line tag key len) = manifest_line tag key len.
Proof.
  intros Ht [_ Hs]. assert (exists a t, tag = a :: t /\ solid a) as (a & t & -> & Ha).
  { unfold tags in Ht. repeat (apply elem_of_cons in Ht as [->|Ht]; [eexists _, _; split; [reflexivity|]; split; [done|eapply bool_decide_unpack; vm_compute; exact I]|]).
    by apply not_elem_of_nil in Ht. }
  rewrite manifest_line_eq. cbn [app].
  assert (ends_solid (hex_of (key_bytes (selector key)) ++ match len with Some n => TAB :: decimal_digits 20 n [] | None => [] end)) as He
    by (destruct len; [apply ends_app, ends_cons, ends_decimal|rewrite app_nil_r; by apply ends_hex]).
  match goal with |- trim (a :: ?v) = _ => assert (ends_solid v) as (w & b & -> & Hb) by (do 4 apply ends_app, ends_cons; exact He) end.
  by apply trim_solid.
Qed.

Lemma tags_in : V1 ∈ tags /\ D1 ∈ tags /\ PMD1 ∈ tags.
Proof. unfold tags. set_solver. Qed.

Lemma decode_trimmed op : op_ok op -> trim (encode_op op) = encode_op op /\ encode_op op <> [] /\ decode_op (encode_op op) = Some op.
Proof.
  intros [Hk Hl]. destruct tags_in as (? & ? & ?). destruct op as [[key len]|key]; cbn [encode_op op_key mr_key mr_block_len] in *.
  - split_and!; [by apply trim_line|by rewrite manifest_line_eq|]. unfold decode_op.
    pose proof (decode_line_ok key len (proj1 Hk) Hl) as E. unfold manifest_line_for_key in E. by rewrite E.
  - split_and!; [by apply trim_line|by rewrite manifest_line_eq|]. unfold decode_op. rewrite decode_line_other by done.
    by rewrite decode_delete_ok by (done || apply Hk).
Qed.

Lemma encode_op_line op : Forall line_byte (encode_op op).
Proof. destruct tags_in as (? & ? & ?). destruct op; by apply manifest_line_bytes. Qed.

Lemma op_text_lines ops : file_lines (op_text ops) = Ok <$> (encode_op <$> ops).
Proof.
  unfold op_text. rewrite <- (app_nil_r (text_of _)), file_lines_text; [by rewrite app_nil_r| |constructor].
  apply Forall_fmap, Forall_forall. intros op _. apply encode_op_line.
Qed.

(** ** Recovery *)

(** The last thing the manifest says of a key. *)
Definition last_op (ops : list CacheManifestOp) (k : CacheKey) : option (option Z) :=
  foldl (fun acc op => if decide (op_key op = k) then Some (match op with ManifestPut r => Some (mr_block_len r) | ManifestDelete _ => None end) else acc) None ops.

Lemma last_op_snoc ops op k : last_op (ops ++ [op]) k =
  if decide (op_key op = k) then Some (match op with ManifestPut r => Some (mr_block_len r) | ManifestDelete _ => None end) else last_op ops k.
Proof. unfold last_op. by rewrite foldl_app. Qed.

Definition puts (l : list (CacheKey * Z)) : list CacheManifestOp := (fun kl => ManifestPut (mkManifestRecord kl.1 kl.2)) <$> l.

Lemma last_op_puts l k : NoDup l.*1 -> (forall v, (k, v) ∈ l -> last_op (puts l) k = Some (Some v)) /\ (k ∉ l.*1 -> last_op (puts l) k = None).
Proof.
  induction l as [|[k' v'] l IH] using rev_ind; intros Hnd; [split; [by intros v ?%elem_of_nil|done]|].
  rewrite fmap_app in Hnd. apply NoDup_app in Hnd as (Hnd & Hd & _). destruct (IH Hnd) as [IH1 IH2].
  assert (puts (l ++ [(k', v')]) = puts l ++ [ManifestPut (mkManifestRecord k' v')]) as -> by (unfold puts; by rewrite fmap_app).
  rewrite last_op_snoc, fmap_app. cbn. split.
  - intros v [Hv|Hv%list_elem_of_singleton]%elem_of_app; [|injection Hv as -> ->; by rewrite decide_True].
    rewrite decide_False; [by apply IH1|]. intros ->. apply (Hd k); [|by left]. apply list_elem_of_fmap. by exists (k, v).
  - intros Hn. rewrite decide_False, IH2; [done| |]; set_solver.
Qed.

Lemma last_op_used' (used : CacheKey -> Prop) ops k : Forall (fun op => used (op_key op)) ops -> last_op ops k <> None -> used k.
Proof.
  induction ops as [|op ops IH] using rev_ind; [done|]. intros [Hops [Hop _]%Forall_cons]%Forall_app Hn.
  rewrite last_op_snoc in Hn. case_decide as E; [by rewrite <- E|by apply IH].
Qed.

Section recovery.
Context `{DefaultHasher}.
Implicit Types (t : DiskTier) (k : CacheKey) (ops : list CacheManifestOp).

(** What the order lists is what the index has. *)
Definition lists_index (order : list CacheKey) (index : gmap CacheKey Z) : Prop := NoDup order /\ forall k, k ∈ order <-> is_Some (index !! k).

Lemma recover_lines_ops files ops g : Forall op_ok ops ->
  recover_lines files (Ok <$> (encode_op <$> ops)) g = Ok (foldl (fun g op => recover_line files (encode_op op) g) g ops).
Proof. intros _. revert g. induction ops as [|op ops IH]; intros g; [done|]. apply IH. Qed.

Lemma remove_key_lists k order index : lists_index order index -> lists_index (remove_key k order) (delete k index).
Proof.
  intros [Hnd Hin]. split; [by apply NoDup_filter|]. intros j. unfold remove_key. rewrite list_elem_of_filter, Hin.
  destruct (decide (j = k)) as [->|Hne]; [rewrite lookup_delete_eq|rewrite lookup_delete_ne by done]; [|tauto]. split; [tauto|by intros []].
Qed.

Lemma append_key_lists k l order index : lists_index order index -> index !! k = None -> lists_index (order ++ [k]) (<[k := l]> index).
Proof.
  intros [Hnd Hin] Hk. split.
  - apply NoDup_app. split; [done|]. split; [|apply NoDup_singleton]. intros j Hj ->%list_elem_of_singleton. apply Hin in Hj. rewrite Hk in Hj. by destruct Hj.
  - intros j. rewrite elem_of_app, list_elem_of_singleton, Hin. destruct (decide (j = k)) as [->|Hne].
    + rewrite lookup_insert_eq. split; [by eexists|by right].
    + rewrite lookup_insert_ne by done. intuition.
Qed.

Lemma replace_key_lists k l order index : lists_index order index -> is_Some (index !! k) -> lists_index order (<[k := l]> index).
Proof.
  intros [Hnd Hin] Hk. split; [done|]. intros j. rewrite Hin. destruct (decide (j = k)) as [->|Hne].
  - rewrite lookup_insert_eq. split; [by eexists|done].
  - by rewrite lookup_insert_ne.
Qed.

Lemma recover_fold files ops : Forall op_ok ops ->
  let g := foldl (fun g op => recover_line files (encode_op op) g) (mkRecovering ∅ [] 0 default_report) ops in
  lists_index (rg_order g) (rg_index g) /\
  forall k, rg_index g !! k = match last_op ops k with Some (Some l) => (fun f => Z.max f l) <$> files !! disk_path k | _ => None end.
Proof.
  induction ops as [|op ops IH] using rev_ind; intros Hok.
  { split; [|done]. split; [constructor|]. intros k. cbn. rewrite lookup_empty. split; [by intros ?%elem_of_nil|by intros []]. }
  apply Forall_app in Hok as [Hok [Hop _]%Forall_cons]. specialize (IH Hok). rewrite foldl_app. cbn [foldl].
  set (g := foldl _ _ ops) in *. clearbody g. destruct IH as [Hl Hi]. destruct (decode_trimmed op Hop) as (Et & Ene & Ed).
  unfold recover_line. rewrite Et, bool_decide_eq_false_2, Ed by done. destruct op as [[key len]|key]; cbn [mr_key mr_block_len].
  - destruct (files !! disk_path key) as [f|] eqn:Ef.
    + destruct (rg_index (note scanned g) !! key) as [old|] eqn:Eo; cbn in Eo |- *; (split; [|intros k; rewrite last_op_snoc; cbn [op_key mr_key mr_block_len];
        destruct (decide (key = k)) as [<-|Hne]; [by rewrite lookup_insert_eq, Ef|by rewrite lookup_insert_ne, Hi]]).
      * apply replace_key_lists; [done|]. rewrite Eo. by eexists.
      * by apply append_key_lists.
    + split; [done|]. intros k. rewrite last_op_snoc. cbn. destruct (decide (key = k)) as [<-|Hne]; [|apply Hi].
      rewrite Ef. cbn. rewrite Hi, Ef. by destruct (last_op ops key) as [[]|].
  - cbn. split; [by apply remove_key_lists|]. intros k. rewrite last_op_snoc. cbn. destruct (decide (key = k)) as [<-|Hne].
    + by rewrite lookup_delete_eq.
    + by rewrite lookup_delete_ne, Hi.
Qed.
End recovery.

(** ** The invariant *)

(** The manifest says nothing of a key, or that it is gone. *)
Definition gone (o : option (option Z)) : Prop := o = None \/ o = Some None.

Section kept.
Context `{DefaultHasher} (iterate : gmap CacheKey Z -> list (CacheKey * Z)) (used : CacheKey -> Prop).
Context (Hiter : forall m, iterate m ≡ₚ map_to_list m).
Context (Hpath : forall k k', used k -> used k' -> disk_path k = disk_path k' -> k = k') (Hst : forall k, used k -> storable k).
Implicit Types (t : DiskTier) (k j : CacheKey) (ops : list CacheManifestOp) (whole : bool) (X : CacheKey -> Prop).

Definition used_op (op : CacheManifestOp) : Prop := op_ok op /\ used (op_key op).
Definition written t ops : Prop := (manifest_file t = Some (op_text ops) \/ manifest_file t = None /\ ops = []) /\ Forall used_op ops.

(** A key of the index has its block file, and the manifest ends with its
    line; one that is not is not brought back.  [whole] is lost when an entry
    was left out of the manifest. *)
Definition says whole t ops k : Prop :=
  match disk_index t !! k with
  | Some l => block_files t !! disk_path k = Some l /\ (last_op ops k = Some (Some l) \/ whole = false /\ gone (last_op ops k))
  | None => block_files t !! disk_path k = None \/ gone (last_op ops k)
  end.

(** The invariant, but for the keys of [X]. *)
Record kept_but X whole t ops : Prop := {
  kb_written : written t ops;
  kb_index : map_Forall (fun k l => used k /\ is_u64 l) (disk_index t);
  kb_order : lists_index (disk_order t) (disk_index t);
  kb_says k : used k -> ~ X k -> says whole t ops k }.
Definition kept whole t ops : Prop := kept_but (fun _ => False) whole t ops.

Lemma kept_open X whole t ops : kept whole t ops -> kept_but X whole t ops.
Proof. intros [H1 H2 H3 H4]. split; [done..|]. intros k Hu _. apply H4; [done|by intros []]. Qed.

Lemma settle X whole t ops : kept_but X whole t ops -> (forall k, used k -> X k -> says whole t ops k) -> (forall k, Decision (X k)) -> kept whole t ops.
Proof. intros [H1 H2 H3 H4] HX HD. split; [done..|]. intros k Hu _. destruct (decide (X k)); [by apply HX|by apply H4]. Qed.

Lemma kept_weaken t ops whole : kept whole t ops -> kept false t ops.
Proof.
  intros [H1 H2 H3 H4]. split; [done..|]. intros k Hu Hn. specialize (H4 k Hu Hn). unfold says in *. destruct (disk_index t !! k); [|done]. intuition.
Qed.

Lemma but_forget X whole t ops k : X k -> kept_but X whole t ops -> kept_but X whole (forget_block k t) ops.
Proof.
  intros HX [H1 H2 H3 H4]. assert (disk_index (forget_block k t) = delete k (disk_index t)) as Ei
    by (unfold forget_block; destruct (disk_index t !! k) eqn:E; cbn; [done|by rewrite delete_id]).
  assert (block_files (forget_block k t) = block_files t /\ manifest_file (forget_block k t) = manifest_file t /\
    disk_order (forget_block k t) = remove_key k (disk_order t)) as (Ef & Em & Eo) by (unfold forget_block; by case_match).
  split; unfold written, says; rewrite ?Ei, ?Ef, ?Em, ?Eo; [done|by apply map_Forall_delete|by apply remove_key_lists|].
  intros j Hu Hj. rewrite lookup_delete_ne by (intros ->; done). by apply H4.
Qed.

Lemma but_remove_file X whole t ops k : X k -> used k -> kept_but X whole t ops -> kept_but X whole (remove_block_file k t) ops.
Proof.
  intros HX Hk [H1 H2 H3 H4]. split; [done..|]. intros j Hu Hj. specialize (H4 j Hu Hj). unfold says in *. cbn.
  rewrite lookup_delete_ne; [done|]. intros E. apply Hpath in E; [|done..]. by subst.
Qed.

Lemma but_write_file X whole t ops k l : X k -> used k -> kept_but X whole t ops -> kept_but X whole (write_block_file k l t) ops.
Proof.
  intros HX Hk [H1 H2 H3 H4]. split; [done..|]. intros j Hu Hj. specialize (H4 j Hu Hj). unfold says in *. cbn.
  rewrite lookup_insert_ne; [done|]. intros E. apply Hpath in E; [|done..]. by subst.
Qed.

Lemma but_bytes X whole t ops n : kept_but X whole t ops -> kept_but X whole (set_tier_bytes n t) ops.
Proof. intros [H1 H2 H3 H4]. by split. Qed.

(** A new entry in the index and its order. *)
Lemma push_lists k l order index : lists_index order index -> lists_index (push_key_if_absent k order) (<[k := l]> index).
Proof.
  intros Hl. unfold push_key_if_absent. case_bool_decide as Hin; [apply replace_key_lists; [done|by apply Hl]|].
  apply append_key_lists; [done|]. apply eq_None_not_Some. by rewrite <- (proj2 Hl).
Qed.
Lemma but_index X whole t ops k l : X k -> used k -> is_u64 l -> kept_but X whole t ops ->
  kept_but X whole (set_order (push_key_if_absent k (disk_order t)) (set_tier_index (<[k := l]> (disk_index t)) t)) ops.
Proof.
  intros HX Hk Hl [H1 H2 H3 H4]. split; [done|cbn; by apply map_Forall_insert_2|by apply push_lists|].
  intros j Hu Hj. specialize (H4 j Hu Hj). unfold says in *. cbn. by rewrite lookup_insert_ne by (intros ->; done).
Qed.

(** *** Appending *)

Lemma last_op_iterate m k : last_op (puts (iterate m)) k = Some <$> m !! k.
Proof.
  assert (NoDup (iterate m).*1) as Hnd by (rewrite (Hiter m); apply NoDup_fst_map_to_list). destruct (last_op_puts (iterate m) k Hnd) as [H1 H2].
  destruct (m !! k) as [v|] eqn:E; [apply H1|apply H2].
  - rewrite (Hiter m). by apply elem_of_map_to_list.
  - rewrite (Hiter m). intros ([k' v] & -> & Hin)%list_elem_of_fmap. apply elem_of_map_to_list in Hin. cbn in E. congruence.
Qed.

Lemma rewrite_text m : concat ((fun kl => manifest_line_for_key kl.1 kl.2 ++ [NEWLINE]) <$> iterate m) = op_text (puts (iterate m)).
Proof. unfold op_text, text_of, puts. rewrite <- !list_fmap_compose. done. Qed.

Lemma puts_used t : map_Forall (fun k l => used k /\ is_u64 l) (disk_index t) -> Forall used_op (puts (iterate (disk_index t))).
Proof.
  intros Hm. apply Forall_fmap, Forall_forall. intros [k l] Hin. rewrite (Hiter (disk_index t)) in Hin. apply elem_of_map_to_list in Hin.
  destruct (Hm k l Hin) as [Hu Hl]. split; [split; [by apply Hst|done]|done].
Qed.

Definition same_tier t t' : Prop := disk_index t' = disk_index t /\ disk_order t' = disk_order t /\ ssd_bytes t' = ssd_bytes t /\ block_files t' = block_files t.

Lemma append_written op t ops : written t ops -> used_op op -> map_Forall (fun k l => used k /\ is_u64 l) (disk_index t) ->
  let t' := append_disk_manifest_op iterate op t in
  exists ops', written t' ops' /\ same_tier t t' /\ (ops' = ops ++ [op] \/ forall k, last_op ops' k = Some <$> disk_index t !! k).
Proof.
  intros [Hw Hops] Hop Hm t'. unfold t', append_disk_manifest_op, compact_disk_manifest_if_long. cbn [set_manifest manifest_file manifest_appends disk_index]. case_if.
  - exists (ops ++ [op]). split; [|split; [done|by left]]. split; [|apply Forall_app; split; [done|by constructor]]. left. cbn. f_equal.
    unfold op_text. rewrite fmap_app, text_of_app. cbn [fmap list_fmap]. rewrite text_of_one. destruct Hw as [->|[-> ->]]; done.
  - exists (puts (iterate (disk_index t))). split; [split; [left; cbn; by rewrite rewrite_text|by apply puts_used]|]. split; [done|].
    right. intros k. apply last_op_iterate.
Qed.

Lemma says_append whole t ops ops' op j : op_key op <> j -> (ops' = ops ++ [op] \/ forall k, last_op ops' k = Some <$> disk_index t !! k) ->
  says whole t ops j -> says whole t ops' j.
Proof.
  intros Hne [->|Hr] Hs; unfold says in *; [by rewrite last_op_snoc, decide_False|]. rewrite Hr. destruct (disk_index t !! j) as [l|]; cbn.
  - split; [apply Hs|by left].
  - right. by left.
Qed.

Lemma but_append X whole t ops op : X (op_key op) -> used_op op -> kept_but X whole t ops ->
  exists ops', kept_but X whole (append_disk_manifest_op iterate op t) ops' /\ same_tier t (append_disk_manifest_op iterate op t) /\
    (ops' = ops ++ [op] \/ forall k, last_op ops' k = Some <$> disk_index t !! k).
Proof.
  intros HX Hop [H1 H2 H3 H4]. destruct (append_written op t ops H1 Hop H2) as (ops' & W & S & R). exists ops'. split; [|done].
  pose proof S as (E1 & E2 & E3 & E4). split; [done|by rewrite E1|by rewrite E1, E2|]. intros j Hu Hj.
  assert (says whole t ops' j) as Hs by (eapply says_append; [|exact R|by apply H4]; intros E; apply Hj; by rewrite <- E).
  unfold says in *. by rewrite E1, E4.
Qed.

(** *** What is done to the blocks *)

Lemma install_kept whole t ops k l : used k -> is_u64 l -> kept whole t ops -> exists ops', kept whole (install_block iterate k l t) ops'.
Proof.
  intros Hu Hl Hk. unfold install_block. apply (kept_open (fun j => j = k)), (but_write_file _ _ _ _ k l) in Hk; [|done..].
  set (t1 := write_block_file k l t) in *.
  set (t2 := match disk_index t1 !! k with Some old => set_tier_bytes (ssd_bytes t1 -! old) t1 | None => t1 end).
  assert (kept_but (fun j => j = k) whole t2 ops) as H2 by (unfold t2; case_match; [by apply but_bytes|done]).
  apply (but_index _ _ _ _ k l) in H2; [|done..]. apply (but_bytes _ _ _ _ (ssd_bytes t2 +! l)) in H2.
  destruct (but_append (fun j => j = k) _ _ _ (ManifestPut (mkManifestRecord k l)) eq_refl ltac:(split; [split; [by apply Hst|done]|done]) H2) as (ops' & H3 & S & R).
  exists ops'. set (t3 := set_tier_bytes _ _) in *. change (kept whole (append_disk_manifest_op iterate (ManifestPut (mkManifestRecord k l)) t3) ops').
  eapply settle; [exact H3| |solve_decision]. intros j _ ->. destruct S as (E1 & _ & _ & E4). unfold says. rewrite E1, E4. cbn.
  assert (block_files t2 = <[disk_path k := l]> (block_files t)) as -> by (unfold t2; by case_match).
  rewrite !lookup_insert_eq. split; [done|]. left. destruct R as [->|R]; [by rewrite last_op_snoc, decide_True|]. rewrite R. cbn. by rewrite lookup_insert_eq.
Qed.

Lemma bypass_kept whole t ops k l : used k -> is_u64 l -> kept whole t ops -> exists ops', kept false (bypass_block iterate k l t) ops'.
Proof.
  intros Hu Hl Hk. unfold bypass_block, append_disk_manifest_put. destruct (disk_index t !! k) as [old|] eqn:E; [exists ops; by eapply kept_weaken|].
  apply kept_weaken, (kept_open (fun j => j = k)), (but_write_file _ _ _ _ k l) in Hk; [|done..].
  destruct (but_append (fun j => j = k) _ _ _ (ManifestPut (mkManifestRecord k l)) eq_refl ltac:(split; [split; [by apply Hst|done]|done]) Hk) as (ops' & H3 & S & R).
  exists ops'. apply (but_index _ _ _ _ k l) in H3; [|done..]. eapply (but_bytes _ _ _ _ _) in H3. eapply settle; [exact H3| |solve_decision].
  intros j _ ->. destruct S as (E1 & _ & _ & E4). unfold says. cbn [disk_index block_files set_tier_bytes set_order set_tier_index]. rewrite E4. cbn [block_files write_block_file set_files]. rewrite !lookup_insert_eq.
  split; [done|]. destruct R as [->|R]; [left; by rewrite last_op_snoc, decide_True|]. right. split; [done|]. rewrite R. cbn. rewrite E. by left.
Qed.

Lemma settled X whole t ops : kept_but X whole t ops -> (forall k, Decision (X k)) ->
  (forall k, used k -> X k -> disk_index t !! k = None /\ block_files t !! disk_path k = None) -> kept whole t ops.
Proof.
  intros Hb HD HX. eapply settle; [exact Hb| |done]. intros k Hu Hk. destruct (HX k Hu Hk) as [E1 E2]. unfold says. rewrite E1. by left.
Qed.

Lemma forget_index k t : disk_index (forget_block k t) = delete k (disk_index t) /\ block_files (forget_block k t) = block_files t.
Proof. unfold forget_block. destruct (disk_index t !! k) eqn:E; cbn; [done|by rewrite delete_id]. Qed.

Lemma delete_op_used k : used k -> used_op (ManifestDelete k).
Proof. intros Hu. split; [split; [by apply Hst|done]|done]. Qed.

Lemma expire_kept whole t ops k : used k -> kept whole t ops -> exists ops', kept whole (expire_block iterate k t) ops'.
Proof.
  intros Hu Hk. apply (kept_open (fun j => j = k)), (but_forget _ _ _ _ k) in Hk; [|done..]. apply (but_remove_file _ _ _ _ k) in Hk; [|done..].
  destruct (but_append (fun j => j = k) _ _ _ (ManifestDelete k) eq_refl (delete_op_used k Hu) Hk) as (ops' & H3 & (E1 & _ & _ & E4) & _). exists ops'.
  eapply settled; [exact H3|solve_decision|]. intros j _ ->. unfold expire_block, append_disk_manifest_delete. rewrite E1, E4. cbn [disk_index block_files remove_block_file set_files].
  destruct (forget_index k t) as [-> _]. by rewrite !lookup_delete_eq.
Qed.

Lemma drop_stale_kept whole t ops k : used k -> kept whole t ops -> exists ops', kept whole (drop_stale_block iterate k t) ops'.
Proof.
  intros Hu Hk. apply (kept_open (fun j => j = k)), (but_remove_file _ _ _ _ k) in Hk; [|done..].
  destruct (but_append (fun j => j = k) _ _ _ (ManifestDelete k) eq_refl (delete_op_used k Hu) Hk) as (ops' & H3 & (E1 & _ & _ & E4) & _). exists ops'.
  apply (but_forget _ _ _ _ k) in H3; [|done]. eapply settled; [exact H3|solve_decision|]. intros j _ ->. unfold drop_stale_block, append_disk_manifest_delete.
  destruct (forget_index k (append_disk_manifest_op iterate (ManifestDelete k) (remove_block_file k t))) as [-> ->]. rewrite E4. cbn. by rewrite !lookup_delete_eq.
Qed.

(** *** Lists of keys *)

Lemma fold_remove_files l X whole t ops : Forall (fun k => X k /\ used k) l -> kept_but X whole t ops ->
  let t' := foldl (fun t k => remove_block_file k t) t l in
  kept_but X whole t' ops /\ disk_index t' = disk_index t /\ disk_order t' = disk_order t /\ manifest_file t' = manifest_file t /\
  (forall k, block_files t' !! disk_path k = if decide (disk_path k ∈ disk_path <$> l) then None else block_files t !! disk_path k).
Proof.
  intros Hl. revert t. induction Hl as [|k l [HX Hu] _ IH]; intros t Hk; cbn [foldl].
  { by split_and!. }
  destruct (IH (remove_block_file k t)) as (H1 & E1 & E2 & E3 & Hf); [by apply but_remove_file|]. split_and!; [done..|]. intros j. rewrite Hf. cbn [fmap list_fmap].
  destruct (decide (disk_path j = disk_path k)) as [E|E].
  - rewrite (decide_True (P := _ ∈ _ :: _)) by (rewrite E; by left). case_decide; [done|]. cbn. rewrite E. apply lookup_delete_eq.
  - cbn [block_files remove_block_file set_files]. rewrite lookup_delete_ne by done. apply decide_ext. rewrite elem_of_cons. tauto.
Qed.

Lemma fold_forget l X whole t ops : Forall X l -> kept_but X whole t ops ->
  let t' := foldl (fun t k => forget_block k t) t l in
  kept_but X whole t' ops /\ block_files t' = block_files t /\ (forall k, k ∈ l -> disk_index t' !! k = None).
Proof.
  intros Hl. revert t. assert (forall l t k, disk_index t !! k = None -> disk_index (foldl (fun t k => forget_block k t) t l) !! k = None) as Hstay.
  { clear. induction l as [|j l IH]; intros t k Hk; [done|]. apply IH. destruct (forget_index j t) as [-> _].
    destruct (decide (j = k)) as [->|]; [apply lookup_delete_eq|by rewrite lookup_delete_ne]. }
  induction Hl as [|k l HX _ IH]; intros t Hk; cbn [foldl]; [split_and!; try done; by intros k ?%elem_of_nil|].
  destruct (IH (forget_block k t)) as (H1 & E1 & Hi); [by apply but_forget|]. split_and!; [done|by rewrite E1; apply forget_index|].
  intros j [->|Hj]%elem_of_cons; [|by apply Hi]. apply Hstay. destruct (forget_index k t) as [-> _]. apply lookup_delete_eq.
Qed.

Lemma fold_append_deletes l X whole t ops : Forall (fun k => X k /\ used k) l -> kept_but X whole t ops ->
  let t' := foldl (fun t k => append_disk_manifest_delete iterate k t) t l in
  exists ops', kept_but X whole t' ops' /\ same_tier t t'.
Proof.
  intros Hl. revert t ops. induction Hl as [|k l [HX Hu] _ IH]; intros t ops Hk; cbn [foldl]; [by exists ops|].
  destruct (but_append X _ _ _ (ManifestDelete k) HX (delete_op_used k Hu) Hk) as (ops1 & H1 & (E1 & E2 & E3 & E4) & _).
  destruct (IH _ _ H1) as (ops2 & H2 & (F1 & F2 & F3 & F4)). exists ops2. split; [done|]. unfold same_tier, append_disk_manifest_delete in *. split_and!; congruence.
Qed.

Lemma evict_kept whole t ops l : Forall used l -> kept whole t ops -> exists ops', kept whole (evict_blocks iterate l t) ops'.
Proof.
  intros Hl Hk. apply (kept_open (fun j => j ∈ l)) in Hk. assert (Forall (fun k => k ∈ l) l) as Hin by (by apply Forall_forall).
  assert (Forall (fun k => k ∈ l /\ used k) l) as Hboth by (by apply Forall_and). unfold evict_blocks.
  destruct (fold_forget l _ _ _ _ Hin Hk) as (H1 & _ & Hi). destruct (fold_remove_files l _ _ _ _ Hboth H1) as (H2 & E2 & _ & _ & Hf).
  destruct (fold_append_deletes l _ _ _ _ Hboth H2) as (ops' & H3 & (E1 & _ & _ & E4)). exists ops'. eapply settled; [exact H3|solve_decision|].
  intros k Hu Hkl. rewrite E1, E2, E4, Hf. split; [by apply Hi|]. by rewrite decide_True by (apply list_elem_of_fmap; by exists k).
Qed.

(** The order still lists what an invalidation took out. *)
Definition loose X whole t ops : Prop :=
  written t ops /\ map_Forall (fun k l => used k /\ is_u64 l) (disk_index t) /\
  (NoDup (disk_order t) /\ forall k, ~ X k -> k ∈ disk_order t <-> is_Some (disk_index t !! k)) /\
  (forall k, used k -> ~ X k -> says whole t ops k).

Lemma fold_invalidate l X whole t ops : Forall (fun k => X k /\ used k) l -> loose X whole t ops ->
  let t' := foldl (fun t k => invalidate_step iterate k t) t l in
  exists ops', loose X whole t' ops' /\ disk_order t' = disk_order t /\ (forall k, disk_index t' !! k = if decide (k ∈ l) then None else disk_index t !! k).
Proof.
  intros Hl. revert t ops. induction Hl as [|k l [HX Hu] _ IH]; intros t ops Hk; cbn [foldl]; [by exists ops|].
  destruct Hk as (H1 & H2 & H3 & H4). set (t1 := set_tier_bytes (ssd_bytes t -! default 0 (disk_index t !! k)) (set_tier_index (delete k (disk_index t)) t)).
  assert (forall j, used j -> ~ X j -> says whole t1 ops j) as Hs1
    by (intros j Hj Hn; specialize (H4 j Hj Hn); unfold says, t1 in *; cbn; by rewrite lookup_delete_ne by (intros ->; done)).
  assert (map_Forall (fun k l => used k /\ is_u64 l) (disk_index t1)) as Hm1 by (by apply map_Forall_delete).
  destruct (append_written (ManifestDelete k) t1 ops H1 (delete_op_used k Hu) Hm1) as (ops1 & W & (E1 & E2 & E3 & E4) & R).
  destruct (IH (invalidate_step iterate k t) ops1) as (ops' & L & Eo & Ei).
  { change (invalidate_step iterate k t) with (append_disk_manifest_op iterate (ManifestDelete k) t1). split_and!; [done|by rewrite E1|rewrite E2; apply H3| |].
    - intros j Hj. rewrite E1, E2. cbn. destruct H3 as [_ H3]. rewrite (H3 j Hj). by rewrite lookup_delete_ne by (intros ->; done).
    - intros j Hj Hn. assert (says whole t1 ops1 j) as Hs by (eapply says_append; [|exact R|by apply Hs1]; intros E; apply Hn; by rewrite <- E).
      unfold says in *. by rewrite E1, E4. }
  exists ops'. split; [done|]. split; [by rewrite Eo|]. intros j. rewrite Ei. change (invalidate_step iterate k t) with (append_disk_manifest_op iterate (ManifestDelete k) t1). rewrite E1. cbn [disk_index t1 set_tier_bytes set_tier_index].
  destruct (decide (j = k)) as [->|Hne]; [rewrite lookup_delete_eq, (decide_True (P := k ∈ k :: l)) by (by left); by case_decide|].
  rewrite lookup_delete_ne by done. apply decide_ext. rewrite elem_of_cons. tauto.
Qed.

Lemma invalidate_kept whole t ops l : Forall used l -> kept whole t ops -> exists ops', kept whole (invalidate_blocks iterate l t) ops'.
Proof.
  intros Hl [H1 H2 [H3 H3'] H4]. assert (Forall (fun k => k ∈ l /\ used k) l) as Hboth by (apply Forall_and; split; [by apply Forall_forall|done]).
  destruct (fold_invalidate l (fun j => j ∈ l) whole t ops Hboth) as (ops' & (L1 & L2 & [L3 L3'] & L4) & Eo & Ei).
  { split_and!; [done|done|done|intros k _; apply H3'|]. intros k Hu _. apply H4; [done|by intros []]. }
  unfold invalidate_blocks. set (t1 := foldl (fun t k => invalidate_step iterate k t) t l) in *.
  set (t2 := set_order (filter (fun k => k ∉ l) (disk_order t1)) t1).
  assert (kept_but (fun j => j ∈ l) whole t2 ops') as K2.
  { split; [done|done| |done]. split; [by apply NoDup_filter|]. intros k. cbn. rewrite list_elem_of_filter. destruct (decide (k ∈ l)) as [Hk|Hk].
    - rewrite Ei, decide_True by done. split; [by intros []|by intros []].
    - rewrite (L3' k Hk). tauto. }
  destruct (fold_remove_files l _ _ _ _ Hboth K2) as (K3 & E3 & _ & _ & Hf). exists ops'. eapply settled; [exact K3|solve_decision|].
  intros k Hu Hk. rewrite E3, Hf. cbn. rewrite Ei, decide_True by done. split; [done|]. by rewrite decide_True by (apply list_elem_of_fmap; by exists k).
Qed.

Lemma invalidate_shard_kept whole t ops n : kept whole t ops -> exists ops', kept whole (invalidate_shard_blocks iterate n t) ops'.
Proof.
  intros [H1 H2 [H3 H3'] H4]. unfold invalidate_shard_blocks. set (ks := (filter (fun kl => shard_id kl.1 = n) (iterate (disk_index t))).*1).
  assert (forall k, k ∈ ks -> shard_id k = n /\ used k) as Hks.
  { intros k ([k' l] & -> & [Hn Hin]%list_elem_of_filter)%list_elem_of_fmap. rewrite (Hiter (disk_index t)) in Hin. apply elem_of_map_to_list in Hin.
    split; [done|]. by destruct (H2 _ _ Hin). }
  set (n0 := foldl _ 0 ks). set (index := filter (fun kl : CacheKey * Z => shard_id kl.1 <> n) (disk_index t)).
  assert (map_Forall (fun k l => used k /\ is_u64 l) index) as Hm by (intros k l [Hin _]%map_lookup_filter_Some; by apply H2).
  assert (forall t0, manifest_file (foldl (fun t k => remove_block_file k t) t0 ks) = manifest_file t0 /\
    disk_index (foldl (fun t k => remove_block_file k t) t0 ks) = disk_index t0 /\ disk_order (foldl (fun t k => remove_block_file k t) t0 ks) = disk_order t0 /\
    forall p, p ∉ disk_path <$> ks -> block_files (foldl (fun t k => remove_block_file k t) t0 ks) !! p = block_files t0 !! p) as Hfold.
  { clear. induction ks as [|k ks IH]; intros t0; [done|]. cbn [foldl fmap list_fmap]. destruct (IH (remove_block_file k t0)) as (-> & -> & -> & Hp).
    split_and!; try done. intros p [Hne Hp']%not_elem_of_cons. rewrite Hp by done. cbn. by apply lookup_delete_ne. }
  destruct (Hfold (set_tier_index index t)) as (Em & Ei & Eo & Ef). set (t1 := foldl _ (set_tier_index index t) ks) in *. clearbody t1.
  exists (puts (iterate index)). unfold rewrite_disk_manifest. cbn [disk_index set_tier_bytes set_order ssd_bytes block_files]. rewrite Ei. cbn [disk_index set_tier_index]. split; cbn.
  - split; [left; cbn; by rewrite rewrite_text|]. by apply (puts_used (set_tier_index index t)).
  - by rewrite Ei.
  - rewrite Ei, Eo. cbn. split; [by apply NoDup_filter|]. intros k. rewrite list_elem_of_filter, H3'. unfold index. split.
    + intros [Hn [l Hl]]. exists l. by apply map_lookup_filter_Some.
    + intros [l [Hl Hn]%map_lookup_filter_Some]. split; [done|by eexists].
  - intros k Hu _. unfold says. cbn. rewrite Ei. cbn. rewrite last_op_iterate. destruct (index !! k) as [l|] eqn:E; cbn; [|right; by left].
    apply map_lookup_filter_Some in E as [E Hn]. specialize (H4 k Hu ltac:(by intros [])). unfold says in H4. rewrite E in H4.
    split; [|by left]. rewrite Ef; [apply H4|]. intros (k' & Ep & Hk')%list_elem_of_fmap. destruct (Hks k' Hk') as [Hn' Hu']. apply Hpath in Ep; [|done..]. by subst.
Qed.

(** *** Restarting *)

Lemma gone_lookup ops (files : gmap (Z * string * Z) Z) k : gone (last_op ops k) ->
  match last_op ops k with Some (Some l) => (fun f : Z => Z.max f l) <$> files !! disk_path k | _ => None end = None.
Proof. intros [->| ->]; done. Qed.

Lemma last_op_used ops k : Forall used_op ops -> last_op ops k <> None -> used k.
Proof. intros Hops. apply last_op_used'. eapply Forall_impl; [exact Hops|by intros op []]. Qed.

Lemma restart_kept whole t ops : kept whole t ops -> exists r t', recover_disk_index (restart t) = (Ok r, t') /\ kept true t' ops /\
  disk_index t' ⊆ disk_index t /\ (whole = true -> disk_index t' = disk_index t) /\ block_files t' = block_files t.
Proof.
  intros [[Hw Hops] H2 H3 H4]. assert (Forall op_ok ops) as Hok by (eapply Forall_impl; [exact Hops|by intros op []]).
  destruct (recover_fold (block_files t) ops Hok) as [Hl Hi]. set (g := foldl _ _ ops) in *.
  assert (exists r t', recover_disk_index (restart t) = (Ok r, t') /\ disk_index t' = rg_index g /\ disk_order t' = rg_order g /\
    manifest_file t' = manifest_file t /\ block_files t' = block_files t) as (r & t' & E & Ei & Eo & Em & Ef).
  { unfold recover_disk_index. destruct Hw as [Hw|[Hw ->]]; cbn [manifest_file restart]; rewrite Hw; [|by eexists _, _].
    rewrite op_text_lines, recover_lines_ops by done. eexists _, _. split; [reflexivity|]. cbn. fold g. done. }
  assert (forall k, used k -> rg_index g !! k = disk_index t !! k /\ (disk_index t !! k = None \/ last_op ops k = Some (disk_index t !! k)) \/
    rg_index g !! k = None /\ gone (last_op ops k) /\ whole = false) as Hk.
  { intros k Hu. specialize (H4 k Hu ltac:(by intros [])). rewrite Hi. unfold says in H4. destruct (disk_index t !! k) as [l|] eqn:El.
    - destruct H4 as [Hf [Hlast|[Hwf Hg]]]; [left|right; split; [by apply gone_lookup|done]]. rewrite Hlast, Hf. cbn. rewrite Z.max_id. split; [done|by right].
    - left. split; [|by left]. destruct H4 as [Hf|Hg]; [|by apply gone_lookup]. rewrite Hf. by destruct (last_op ops k) as [[]|]. }
  exists r, t'. split; [done|]. rewrite Ei, Ef.
  assert (rg_index g ⊆ disk_index t) as Hsub.
  { apply map_subseteq_spec. intros k l Hg. destruct (decide (last_op ops k = None)) as [Hn|Hn]; [rewrite Hi, Hn in Hg; done|].
    pose proof (last_op_used ops k Hops Hn) as Hu.
    destruct (Hk k Hu) as [[E1 _]|(E1 & _)]; congruence. }
  split_and!; [|done| |done].
  - split; [by split; [rewrite Em|]| | |].
    + rewrite Ei. intros k l Hg. apply H2. by eapply lookup_weaken.
    + by rewrite Ei, Eo.
    + intros k Hu _. unfold says. rewrite Ei, Ef. specialize (H4 k Hu ltac:(by intros [])). unfold says in H4.
      destruct (Hk k Hu) as [[-> Hl']|(-> & Hg & _)]; [|by right]. destruct (disk_index t !! k) as [l|]; [|done].
      destruct H4 as [Hf _]. split; [done|]. left. by destruct Hl'.
  - intros Hwh. apply (anti_symm (⊆)); [done|]. apply map_subseteq_spec. intros k l El. destruct (H2 k l El) as [Hu _].
    destruct (Hk k Hu) as [[-> _]|(_ & _ & ?)]; [done|congruence].
Qed.
End kept.

(** ** Histories *)

Inductive disk_op :=
| DInstall (key : CacheKey) (len : Z)
| DBypass (key : CacheKey) (len : Z)
| DExpire (key : CacheKey)
| DDropStale (key : CacheKey)
| DEvict (keys : list CacheKey)
| DInvalidate (keys : list CacheKey)
| DInvalidateShard (shard : Z)
| DClear
| DRestart.

Definition disk_op_keys (op : disk_op) : list CacheKey :=
  match op with
  | DInstall k _ | DBypass k _ | DExpire k | DDropStale k => [k]
  | DEvict ks | DInvalidate ks => ks
  | DInvalidateShard _ | DClear | DRestart => []
  end.
Definition disk_keys (ops : list disk_op) : list CacheKey := concat (disk_op_keys <$> ops).
Definition disk_len_ok (op : disk_op) : Prop := match op with DInstall _ l | DBypass _ l => is_u64 l | _ => True end.
Definition is_bypass (op : disk_op) : bool := match op with DBypass _ _ => true | _ => false end.

Section histories.
Context `{DefaultHasher} (iterate : gmap CacheKey Z -> list (CacheKey * Z)).
Implicit Types (t : DiskTier) (op : disk_op) (ops : list disk_op).

Definition run_disk_op op t : DiskTier :=
  match op with
  | DInstall k l => install_block iterate k l t
  | DBypass k l => bypass_block iterate k l t
  | DExpire k => expire_block iterate k t
  | DDropStale k => drop_stale_block iterate k t
  | DEvict ks => evict_blocks iterate ks t
  | DInvalidate ks => invalidate_blocks iterate ks t
  | DInvalidateShard n => invalidate_shard_blocks iterate n t
  | DClear => clear_tier t
  | DRestart => (recover_disk_index (restart t)).2
  end.
Definition run_disk ops t : DiskTier := foldl (fun t op => run_disk_op op t) t ops.

Lemma no_files_kept used n : kept used true (mkTier ∅ [] 0 n None ∅) [].
Proof.
  split; [by split; [right|constructor]|done| |intros k _ _; by left]. split; [constructor|]. intros k. cbn. rewrite lookup_empty.
  split; [by intros ?%elem_of_nil|by intros []].
Qed.

Lemma run_disk_op_kept used op t mops whole : (forall m, iterate m ≡ₚ map_to_list m) ->
  (forall k k', used k -> used k' -> disk_path k = disk_path k' -> k = k') -> (forall k, used k -> storable k) ->
  Forall used (disk_op_keys op) -> disk_len_ok op -> kept used whole t mops ->
  exists mops', kept used (whole && negb (is_bypass op)) (run_disk_op op t) mops'.
Proof.
  intros Hit Hp Hst Hu Hl Hk. destruct op; cbn [disk_op_keys run_disk_op is_bypass negb] in *; rewrite ?andb_true_r, ?andb_false_r;
    try (apply Forall_cons in Hu as [Hu _]).
  - by eapply install_kept.
  - by eapply bypass_kept.
  - by eapply expire_kept.
  - by eapply drop_stale_kept.
  - by eapply evict_kept.
  - by eapply invalidate_kept.
  - by eapply invalidate_shard_kept.
  - exists []. destruct whole; [|eapply kept_weaken]; apply no_files_kept.
  - destruct (restart_kept used whole t mops Hk) as (r & t' & -> & Hk' & _). exists mops. destruct whole; [done|by eapply kept_weaken].
Qed.

Lemma run_disk_kept used ops t mops whole : (forall m, iterate m ≡ₚ map_to_list m) ->
  (forall k k', used k -> used k' -> disk_path k = disk_path k' -> k = k') -> (forall k, used k -> storable k) ->
  Forall used (disk_keys ops) -> Forall disk_len_ok ops -> kept used whole t mops ->
  exists mops', kept used (whole && forallb (fun op => negb (is_bypass op)) ops) (run_disk ops t) mops'.
Proof.
  intros Hit Hp Hst. revert t mops whole. induction ops as [|op ops IH]; intros t mops whole Hu Hl Hk; [exists mops; by rewrite andb_true_r|].
  unfold disk_keys in Hu. cbn [fmap list_fmap concat] in Hu. apply Forall_app in Hu as [Hu1 Hu]. apply Forall_cons in Hl as [Hl1 Hl].
  destruct (run_disk_op_kept used op t mops whole Hit Hp Hst Hu1 Hl1 Hk) as (mops1 & Hk1). cbn [run_disk foldl forallb]. rewrite andb_assoc. by apply (IH _ _ _ Hu Hl Hk1).
Qed.
End histories.

(** C21. After any history of writes, expiries, evictions, invalidations,
    clears and restarts, whose keys have block files of their own, a restart
    brings back an index that is part of the one the tier had, and exactly
    that one when no entry went around the replacement policy; it loses no
    block file. *)
Theorem disk_recovery_exact `{DefaultHasher} (iterate : gmap CacheKey Z -> list (CacheKey * Z)) (ops : list disk_op) :
  (forall m, iterate m ≡ₚ map_to_list m) ->
  (forall k k', k ∈ disk_keys ops -> k' ∈ disk_keys ops -> disk_path k = disk_path k' -> k = k') ->
  Forall storable (disk_keys ops) -> Forall disk_len_ok ops ->
  let t := run_disk iterate ops new_tier in
  exists report t', recover_disk_index (restart t) = (Ok report, t') /\
    disk_index t' ⊆ disk_index t /\
    (forallb (fun op => negb (is_bypass op)) ops = true -> disk_index t' = disk_index t) /\
    lists_index (disk_order t') (disk_index t') /\ block_files t' = block_files t.
Proof.
  intros Hit Hp Hst Hl t. rewrite Forall_forall in Hst.
  destruct (run_disk_kept iterate (fun k => k ∈ disk_keys ops) ops new_tier [] true Hit Hp Hst ltac:(by apply Forall_forall) Hl (no_files_kept _ 0)) as (mops & Hk).
  destruct (restart_kept _ _ _ _ Hk) as (r & t' & E & K' & Hsub & Heq & Hf). exists r, t'. split_and!; [done|done|exact Heq|apply K'|done].
Qed.

Definition disk_demo (shard : Z) (name : string) : CacheKey := mkKey shard name "string" "value".
Definition disk_demo_ops : list disk_op :=
  replicate 70 (DInstall (disk_demo 1 "a") 30) ++
  [DClear; DInstall (disk_demo 1 "a") 10; DInstall (disk_demo 1 "b") 40; DInstall (disk_demo 2 "c") 50; DInstall (disk_demo 1 "b") 20; DEvict [disk_demo 1 "a"]; DRestart;
   DInstall (disk_demo 3 "d") 60; DInvalidateShard 2; DInvalidate [disk_demo 3 "d"; disk_demo 9 "z"]; DInstall (disk_demo 3 "d") 61].

#[local] Existing Instance byte_hasher.

Lemma disk_recovery_exact_witness : exists report t',
  recover_disk_index (restart (run_disk map_to_list disk_demo_ops new_tier)) = (Ok report, t') /\
  disk_index t' = {[disk_demo 1 "b" := 20; disk_demo 3 "d" := 61]}.
Proof.
  destruct (disk_recovery_exact map_to_list disk_demo_ops) as (report & t' & E & _ & Heq & _).
  - done.
  - assert (NoDup (disk_path <$> [disk_demo 1 "a"; disk_demo 1 "b"; disk_demo 2 "c"; disk_demo 3 "d"; disk_demo 9 "z"])) as Hnd
      by (eapply bool_decide_unpack; vm_compute; exact I).
    assert (forall k, k ∈ disk_keys disk_demo_ops -> k ∈ [disk_demo 1 "a"; disk_demo 1 "b"; disk_demo 2 "c"; disk_demo 3 "d"; disk_demo 9 "z"]) as Hsub.
    { apply Forall_forall. eapply bool_decide_unpack. vm_compute. exact I. }
    intros k k' [i Hi]%Hsub%list_elem_of_lookup [i' Hi']%Hsub%list_elem_of_lookup Ep.
    assert (i = i') as <-; [|congruence]. eapply NoDup_lookup; [exact Hnd| |]; rewrite list_lookup_fmap; [by rewrite Hi|by rewrite Hi', Ep].
  - apply Forall_forall. intros k Hk. assert (forall k, k ∈ disk_keys disk_demo_ops -> is_utf8 (key_bytes (record_key k)) = true /\ namespace k = "string"%string /\ selector k = "value"%string /\ 0 <= shard_id k < 10) as Hall.
    { apply Forall_forall. eapply bool_decide_unpack. vm_compute. exact I. }
    destruct (Hall k Hk) as (H1 & H2 & H3 & H4). split; [split; unfold str_ok; rewrite ?H2, ?H3; [unfold is_u64; lia|done..]|by rewrite H3].
  - repeat (constructor; [done|]). constructor.
  - exists report, t'. split; [exact E|]. rewrite Heq by (vm_compute; reflexivity). eapply bool_decide_unpack. vm_compute. exact I.
Defined.

(** The sixty-fifth line makes the manifest long; the entry that appended it
    is not in the index yet, so it is not in the new manifest either. *)
Example bypassed_entry_lost :
  let t := run_disk map_to_list (replicate 64 (DInstall (disk_demo 1 "a") 30) ++ [DBypass (disk_demo 1 "b") 40]) new_tier in
  let t' := (recover_disk_index (restart t)).2 in
  disk_index t !! disk_demo 1 "b" = Some 40 /\ disk_index t' !! disk_demo 1 "b" = None /\
  block_files t' !! disk_path (disk_demo 1 "b") = Some 40.
Proof. vm_compute. done. Qed.

(** A second line of the same key counts no bytes, and a delete takes away
    the length of the last: the count comes back too high, or too low. *)
Example recovered_bytes_drift :
  let bytes ops := let t := (recover_disk_index (restart (run_disk map_to_list ops new_tier))).2 in (ssd_bytes t, map_sum id (disk_index t)) in
  bytes [DInstall (disk_demo 1 "a") 1000; DInstall (disk_demo 1 "a") 10] = (1000, 10) /\
  bytes [DInstall (disk_demo 1 "b") 500; DInstall (disk_demo 1 "a") 10; DInstall (disk_demo 1 "a") 1000; DExpire (disk_demo 1 "a"); DInstall (disk_demo 1 "a") 10]
    = (10, 510).
Proof. vm_compute. done. Qed.

(** A line that a crash cut is the beginning of the next one. *)
Example torn_line_swallows_next :
  let t := run_disk map_to_list [DInstall (disk_demo 1 "a") 30] new_tier in
  let cut := set_manifest 1 (Some (default [] (manifest_file t) ++ take 12 (manifest_line_for_key (disk_demo 1 "b") 40))) t in
  let t' := run_disk map_to_list [DRestart; DInstall (disk_demo 1 "c") 50; DRestart] cut in
  disk_index t' = {[disk_demo 1 "a" := 30]}.
Proof. eapply bool_decide_unpack. vm_compute. exact I. Qed.
