(* ===== verification/PmemManifest.v ===== *)
(** * The log of the persistent-memory tier

    The files behind the persistent-memory tier (builder_and_gc.rs,
    manifest_writer.rs): a block file per key, named after a hash of its
    manifest line, and a log of lines with a writer that skips a record it
    has just written, rewritten when it has grown; recovery offers what the
    log and the files agree on to the tier.  Reads and writes of files do not
    fail here; a file's times are a counter that every write moves. *)

From Stdlib Require Import Strings.Byte.
From S2P Require Import Prelude Types Hashes BlockCodec SsdRecords RdmaIndex ManifestLine ManifestFacts DiskManifest DiskManifestSpec.

(** ** Files *)

(** The log file: its device and inode, the time of its last change, and its
    text. *)
Record LogFile := mkLog { lf_identity : Z; lf_time : Z; lf_text : bytes }.
Definition version (f : LogFile) : Z * Z := (blen (lf_text f), lf_time f).

Record PmemManifestWriter := mkPmemWriter { pw_identity : Z; pw_last_record : bytes; pw_last_version : option (Z * Z) }.

(** [pmem_paths] names a directory or does not; inodes and times are counted
    by [pf_next]. *)
Record PmemFiles := mkPmemFiles {
  pf_tier : bool;
  pf_log : option LogFile;
  pf_blocks : gmap Z bytes;
  pf_next : Z;
  pf_writer : option PmemManifestWriter;
  pf_appends : Z;
  pf_compact_after : Z }.

Definition PMEM_MANIFEST_COMPACT_MIN : Z := 4096.
Definition new_pmem_files : PmemFiles := mkPmemFiles true None ∅ 0 None 0 PMEM_MANIFEST_COMPACT_MIN.

Section pmem.
Context `{DefaultHasher} (iterate : gmap CacheKey Z -> list (CacheKey * Z)).
Implicit Types (p : PmemFiles) (key : CacheKey) (value line : bytes).

Definition set_log (log : option LogFile) (next : Z) (writer : option PmemManifestWriter) p : PmemFiles :=
  mkPmemFiles (pf_tier p) log (pf_blocks p) next writer (pf_appends p) (pf_compact_after p).
Definition set_blocks (blocks : gmap Z bytes) p : PmemFiles :=
  mkPmemFiles (pf_tier p) (pf_log p) blocks (pf_next p) (pf_writer p) (pf_appends p) (pf_compact_after p).
Definition set_history (appends compact_after : Z) p : PmemFiles :=
  mkPmemFiles (pf_tier p) (pf_log p) (pf_blocks p) (pf_next p) (pf_writer p) appends compact_after.
Definition reset_pmem_manifest_writer p : PmemFiles := set_log (pf_log p) (pf_next p) None p.
Definition reset_pmem_manifest_history p : PmemFiles := set_history 0 PMEM_MANIFEST_COMPACT_MIN p.

(** ** The writer *)

(** Whether the record was appended. *)
Definition writer_append (record : bytes) p : bool * PmemFiles :=
  let matches := match pf_writer p, pf_log p with Some w, Some f => lf_identity f =? pw_identity w | _, _ => false end in
  let repeated := match pf_writer p with
    | Some w => bool_decide (pw_last_record w = record) && bool_decide (is_Some (pw_last_version w))
        && bool_decide ((version <$> pf_log p) = pw_last_version w)
    | None => false
    end in
  if matches && repeated then (false, p)
  else
    let '(f, next) := match pf_log p with Some f => (f, pf_next p) | None => (mkLog (pf_next p) (pf_next p) [], pf_next p + 1) end in
    let f := mkLog (lf_identity f) next (lf_text f ++ record) in
    let w := if blen record <=? 4096 then mkPmemWriter (lf_identity f) record (Some (version f)) else mkPmemWriter (lf_identity f) [] None in
    (true, set_log (Some f) (next + 1) (Some w) p).

(** ** Compaction *)

(** The lengths the log ends with, and the lines that are neither record nor
    delete. *)
Definition live_line line (st : gmap CacheKey Z * Z) : gmap CacheKey Z * Z :=
  match decode_line line with
  | Some record => (<[mr_key record := mr_block_len record]> st.1, st.2)
  | None => match decode_pmem_delete_line line with Some key => (delete key st.1, st.2) | None => (st.1, st.2 +! 1) end
  end.
Fixpoint live_lines (lines : list (result bytes)) (st : gmap CacheKey Z * Z) : result (gmap CacheKey Z * Z) :=
  match lines with
  | [] => Ok st
  | Err e :: _ => Err e
  | Ok line :: lines => live_lines lines (live_line line st)
  end.

(** A line that is neither is an error here, and the log is left alone. *)
Definition compact_pmem_manifest p : result unit * PmemFiles :=
  if negb (pf_tier p) then (Ok tt, p)
  else match pf_log p with
  | None => (Err Io, p)
  | Some f =>
      match live_lines (file_lines (lf_text f)) (∅, 0) with
      | Err e => (Err e, p)
      | Ok (live, invalid) =>
          if 0 <? invalid then (Err Io, p)
          else
            let kept := filter (fun kl => is_Some (pf_blocks p !! pmem_key_hash kl.1)) (iterate live) in
            let text := concat ((fun kl => manifest_line_for_key kl.1 kl.2 ++ [NEWLINE]) <$> kept) in
            let p := set_log (Some (mkLog (pf_next p) (pf_next p) text)) (pf_next p + 1) None p in
            (Ok tt, set_history (pf_appends p) (Z.max PMEM_MANIFEST_COMPACT_MIN (sat_mul (Z.of_nat (length kept)) 3)) p)
      end
  end.

Definition append_pmem_manifest_line line p : PmemFiles :=
  if negb (pf_tier p) then p
  else
    let '(appended, p) := writer_append (line ++ [NEWLINE]) p in
    if negb appended then p
    else
      let p := set_history (pf_appends p + 1) (pf_compact_after p) p in
      if pf_compact_after p <=? pf_appends p then
        let p := (compact_pmem_manifest p).2 in set_history 0 (pf_compact_after p) p
      else p.

(** ** Puts and deletes *)

(** [old] is what the tier holds in memory under the key; when that and the
    file are the value already, the file is not written again. *)
Definition persist_pmem_put key value (old : option bytes) p : PmemFiles :=
  if negb (pf_tier p) then p
  else
    let name := pmem_key_hash key in
    let matching := bool_decide (old = Some value) && bool_decide (pf_blocks p !! name = Some value) in
    let p := if matching then p else set_blocks (<[name := value]> (pf_blocks p)) p in
    append_pmem_manifest_line (manifest_line_for_key key (blen value)) p.
Definition persist_pmem_delete key p : PmemFiles :=
  if negb (pf_tier p) then p
  else
    let name := pmem_key_hash key in
    match pf_blocks p !! name with
    | None => p
    | Some _ => append_pmem_manifest_line (encode_pmem_delete_line key) (set_blocks (delete name (pf_blocks p)) p)
    end.
Definition clear_pmem_persistence p : PmemFiles :=
  let p := reset_pmem_manifest_history (reset_pmem_manifest_writer p) in
  if negb (pf_tier p) then p else set_log None (pf_next p) (pf_writer p) (set_blocks ∅ p).

(** ** Recovery *)

Section recover.
Context {S : Type} (clear : S -> S) (put_pmem : CacheKey -> bytes -> S -> bool * S).

Definition recover_block (blocks : gmap Z bytes) (kl : CacheKey * Z) (st : CacheRecoverReport * S) : CacheRecoverReport * S :=
  let r := scanned st.1 in
  match blocks !! pmem_key_hash kl.1 with
  | None => (skipped r, st.2)
  | Some value =>
      if negb (blen value =? kl.2) then (skipped r, st.2)
      else let '(admitted, s) := put_pmem kl.1 value st.2 in ((if admitted then recovered kl.2 r else skipped r), s)
  end.
(** The tier's admission is [put_pmem], and it starts empty. *)
Definition recover_pmem_index p (s : S) : result CacheRecoverReport * S :=
  if negb (pf_tier p) then (Ok default_report, s)
  else match pf_log p with
  | None => (Ok default_report, s)
  | Some f =>
      match live_lines (file_lines (lf_text f)) (∅, 0) with
      | Err e => (Err e, s)
      | Ok (live, invalid) =>
          let '(r, s) := foldl (fun st kl => recover_block (pf_blocks p) kl st) (mkReport 0 0 0 invalid, clear s) (iterate live) in (Ok r, s)
      end
  end.
End recover.

(** What [invalidate_shard] does to the tier: the values in memory go. *)
Definition invalidate_shard_pmem (shard : Z) (resident : gmap CacheKey bytes) : gmap CacheKey bytes :=
  filter (fun kv => shard_id kv.1 <> shard) resident.
End pmem.
