(* ===== verification/PmemManifestSpec.v ===== *)
(** * What a restart of the persistent-memory tier brings back

    The block files and the log agree on one map from keys to values,
    whatever the writer skipped and however often the log was rewritten, and
    recovery offers that map to the tier. *)

From Stdlib Require Import Strings.Byte.
From S2P Require Import Prelude Types Hashes BlockCodec SsdRecords RdmaIndex ManifestLine ManifestFacts DiskManifest DiskManifestSpec PmemManifest.

Implicit Types (p : PmemFiles) (k : CacheKey) (v : bytes) (ops : list CacheManifestOp) (M : gmap CacheKey bytes).

(** ** The log as operations *)

Definition pm_encode (op : CacheManifestOp) : bytes :=
  match op with ManifestPut r => manifest_line_for_key (mr_key r) (mr_block_len r) | ManifestDelete k => encode_pmem_delete_line k end.
Definition pm_text ops : bytes := text_of (pm_encode <$> ops).
Definition len_ok (op : CacheManifestOp) : Prop := match op with ManifestPut r => is_u64 (mr_block_len r) | ManifestDelete _ => True end.
Definition pm_ok (op : CacheManifestOp) : Prop := key_ok (op_key op) /\ len_ok op.

Lemma pm_decode op : pm_ok op ->
  match op with
  | ManifestPut r => decode_line (pm_encode op) = Some r
  | ManifestDelete k => decode_line (pm_encode op) = None /\ decode_pmem_delete_line (pm_encode op) = Some k
  end.
Proof.
  destruct tags_in as (? & ? & ?). intros [Hk Hl]. destruct op as [[k l]|k]; cbn [pm_encode op_key mr_key mr_block_len len_ok] in *; [by apply decode_line_ok|].
  split; [by apply decode_line_other|by apply decode_delete_ok].
Qed.

Lemma pm_encode_inj op op' : pm_ok op -> pm_ok op' -> pm_encode op = pm_encode op' -> op = op'.
Proof.
  intros H H' E. apply pm_decode in H. apply pm_decode in H'. rewrite E in H. destruct op as [r|k], op' as [r'|k'].
  - congruence.
  - destruct H' as [H' _]. congruence.
  - destruct H as [H _]. congruence.
  - destruct H as [_ H], H' as [_ H']. congruence.
Qed.

Lemma pm_text_lines ops : file_lines (pm_text ops) = Ok <$> (pm_encode <$> ops).
Proof.
  unfold pm_text. rewrite <- (app_nil_r (text_of _)), file_lines_text; [by rewrite app_nil_r| |constructor].
  apply Forall_fmap, Forall_forall. intros op _. destruct tags_in as (? & ? & ?). destruct op; by apply manifest_line_bytes.
Qed.

Definition live_of ops : gmap CacheKey Z :=
  foldl (fun m op => match op with ManifestPut r => <[mr_key r := mr_block_len r]> m | ManifestDelete k => delete k m end) ∅ ops.

Lemma live_of_lookup ops k : live_of ops !! k = match last_op ops k with Some (Some l) => Some l | _ => None end.
Proof.
  induction ops as [|op ops IH] using rev_ind; [done|]. unfold live_of in *. rewrite foldl_app, last_op_snoc. destruct op as [[k' l]|k']; cbn;
    destruct (decide (k' = k)) as [->|Hne]; rewrite ?lookup_insert_eq, ?lookup_delete_eq, ?lookup_insert_ne, ?lookup_delete_ne by done; done.
Qed.

Lemma live_lines_text ops : Forall pm_ok ops -> live_lines (file_lines (pm_text ops)) (∅, 0) = Ok (live_of ops, 0).
Proof.
  intros Hok. rewrite pm_text_lines. unfold live_of. generalize (∅ : gmap CacheKey Z) as m. induction Hok as [|op ops Hop _ IH]; intros m; [done|].
  cbn [fmap list_fmap live_lines foldl]. rewrite <- IH. f_equal. apply pm_decode in Hop. unfold live_line.
  destruct op as [r|k]; [by rewrite Hop|]. by destruct Hop as [-> ->].
Qed.

Lemma filter_fst_nodup {A B} (P : A * B -> Prop) `{forall x, Decision (P x)} (l : list (A * B)) : NoDup l.*1 -> NoDup (filter P l).*1.
Proof.
  induction l as [|[a b] l IH]; intros Hnd; [constructor|]. cbn in Hnd. apply NoDup_cons in Hnd as [Ha Hnd]. rewrite filter_cons. case_decide; [|by apply IH].
  cbn. constructor; [|by apply IH]. intros ([a' b'] & -> & [_ Hin]%list_elem_of_filter)%list_elem_of_fmap. apply Ha. apply list_elem_of_fmap. by exists (a', b').
Qed.

Section files.
Context `{HS : DefaultHasher} (iterate : gmap CacheKey Z -> list (CacheKey * Z)) (used : CacheKey -> Prop).
Context (Hiter : forall m, iterate m ≡ₚ map_to_list m).
Context (Hname : forall k k', used k -> used k' -> pmem_key_hash k = pmem_key_hash k' -> k = k') (Hkey : forall k, used k -> key_ok k).

(** ** The invariant *)

(** The log has the lines of [ops], and what the writer remembers is the last
    of them. *)
Record logged p ops : Prop := {
  lg_tier : pf_tier p = true;
  lg_log : (exists f, pf_log p = Some f /\ lf_text f = pm_text ops) \/ pf_log p = None /\ ops = [];
  lg_ops : Forall (fun op => used (op_key op) /\ len_ok op) ops;
  lg_writer w : pf_writer p = Some w -> pw_last_version w <> None -> exists ops0 op, ops = ops0 ++ [op] /\ pw_last_record w = pm_encode op ++ [NEWLINE] }.

Lemma logged_ok p ops : logged p ops -> Forall pm_ok ops.
Proof. intros [_ _ H _]. eapply Forall_impl; [exact H|]. intros op [Hu Hl]. split; [by apply Hkey|done]. Qed.

Lemma writer_appends p ops op : logged p ops -> used (op_key op) -> len_ok op ->
  let '(appended, p') := writer_append (pm_encode op ++ [NEWLINE]) p in
  pf_blocks p' = pf_blocks p /\ if appended then logged p' (ops ++ [op]) else p' = p /\ exists ops0, ops = ops0 ++ [op].
Proof.
  intros L Hu Hl. pose proof L as [Ht Hg Ho Hw]. unfold writer_append.
  destruct (_ && _) eqn:E.
  - split; [done|]. split; [done|]. apply andb_prop in E as [_ E]. destruct (pf_writer p) as [w|] eqn:Ew; [|done]. apply andb_prop in E as [[E1 E2]%andb_prop _].
    apply bool_decide_eq_true in E1, E2. destruct (Hw w eq_refl) as (ops0 & op' & -> & Er); [by destruct E2 as [? ->]|]. exists ops0.
    rewrite Er in E1. apply app_inj_2 in E1 as [E1 _]; [|done]. apply pm_encode_inj in E1; [by rewrite E1| |].
    + apply logged_ok in L. apply Forall_app in L as [_ L]. by apply Forall_cons in L as [? _].
    + split; [by apply Hkey|done].
  - set (q := match pf_log p with Some f => (f, pf_next p) | None => _ end).
    assert (lf_text q.1 = pm_text ops) as Et by (unfold q; destruct Hg as [(f & -> & Hf)|[-> ->]]; done). destruct q as [f next]. cbn in Et. split; [done|].
    split; [done| | |].
    + left. eexists. split; [reflexivity|]. cbn. rewrite Et. unfold pm_text. rewrite fmap_app, text_of_app. cbn [fmap list_fmap]. by rewrite text_of_one.
    + apply Forall_app. split; [done|by constructor].
    + intros w Ew Hv. cbn in Ew. injection Ew as <-. exists ops, op. split; [done|]. by case_match.
Qed.

(** What the last lines may become when the log is rewritten. *)
Definition rewritten p ops ops' : Prop := forall k, last_op ops' k = last_op ops k \/
  last_op ops' k = match last_op ops k with Some (Some l) => if decide (is_Some (pf_blocks p !! pmem_key_hash k)) then Some (Some l) else None | _ => None end.

Lemma compact_logged p ops : logged p ops -> pf_log p <> None ->
  exists ops', logged (compact_pmem_manifest iterate p).2 ops' /\ pf_blocks (compact_pmem_manifest iterate p).2 = pf_blocks p /\ rewritten p ops ops'.
Proof.
  intros L Hn. pose proof (logged_ok p ops L) as Hok. destruct L as [Ht Hg Ho Hw]. unfold compact_pmem_manifest. rewrite Ht. cbn [negb].
  destruct Hg as [(f & Ef & Et)|[Ef _]]; [|congruence]. rewrite Ef, Et, (live_lines_text ops Hok). cbn [Z.ltb].
  set (kept := filter _ (iterate (live_of ops))).
  assert (forall k l, (k, l) ∈ kept <-> is_Some (pf_blocks p !! pmem_key_hash k) /\ last_op ops k = Some (Some l)) as Hkept.
  { intros k l. unfold kept. rewrite list_elem_of_filter, (Hiter (live_of ops)), elem_of_map_to_list, live_of_lookup. cbn.
    destruct (last_op ops k) as [[l'|]|]; intuition congruence. }
  assert (NoDup kept.*1) as Hnd.
  { apply filter_fst_nodup. rewrite (Hiter (live_of ops)). apply NoDup_fst_map_to_list. }
  exists (puts kept). split; [|split; [done|]].
  - split; [done| | |done].
    + left. eexists. split; [reflexivity|]. cbn. unfold pm_text, puts, text_of. rewrite <- !list_fmap_compose. done.
    + apply Forall_fmap, Forall_forall. intros [k l] [_ Hl]%Hkept. cbn.
      assert (exists op, op ∈ ops /\ op_key op = k /\ match op with ManifestPut r => mr_block_len r = l | _ => False end) as (op & Hop & Ek & El).
      { clear -Hl. induction ops as [|op ops IH] using rev_ind; [done|]. rewrite last_op_snoc in Hl. case_decide as E.
        - exists op. split; [set_solver|]. split; [done|]. destruct op; congruence.
        - destruct (IH Hl) as (op' & ? & ?). exists op'. set_solver. }
      rewrite Forall_forall in Ho. destruct (Ho op Hop) as [Hu Hlen]. rewrite Ek in Hu. split; [done|]. destruct op; [|done]. cbn in *. by rewrite <- El.
  - intros k. right. destruct (last_op_puts kept k Hnd) as [H1 H2]. destruct (last_op ops k) as [[l|]|] eqn:E.
    + case_decide as Hb; [by apply H1, Hkept|]. apply H2. intros ([k' l'] & -> & [Hb' _]%Hkept)%list_elem_of_fmap. done.
    + apply H2. intros ([k' l'] & -> & [_ Hl']%Hkept)%list_elem_of_fmap. cbn in E. congruence.
    + apply H2. intros ([k' l'] & -> & [_ Hl']%Hkept)%list_elem_of_fmap. cbn in E. congruence.
Qed.

Lemma append_logged p ops op : logged p ops -> used (op_key op) -> len_ok op ->
  let p' := append_pmem_manifest_line iterate (pm_encode op) p in
  exists ops', logged p' ops' /\ pf_blocks p' = pf_blocks p /\ rewritten p (ops ++ [op]) ops'.
Proof.
  intros L Hu Hl p'. unfold p', append_pmem_manifest_line. rewrite (lg_tier _ _ L). cbn [negb].
  pose proof (writer_appends p ops op L Hu Hl) as Hw. destruct (writer_append _ p) as [appended p1]. destruct Hw as [Eb Hw]. destruct appended; cbn [negb].
  - set (p2 := set_history _ _ p1). assert (logged p2 (ops ++ [op])) as L2 by (destruct Hw as [? ? ? ?]; by split). case_if.
    + destruct (compact_logged p2 (ops ++ [op]) L2) as (ops' & [L1 L3 L4 L5] & Eb' & R).
      { destruct L2 as [_ [(f & -> & _)|[_ E]] _ _]; [done|]. by destruct ops. }
      exists ops'. split; [by split|]. split; [by rewrite <- Eb, <- (eq_refl : pf_blocks p2 = pf_blocks p1)|].
      intros k. specialize (R k). unfold rewritten in *. rewrite <- Eb. exact R.
    + exists (ops ++ [op]). split; [done|]. split; [done|]. intros k. by left.
  - destruct Hw as [-> (ops0 & ->)]. exists (ops0 ++ [op]). split; [done|]. split; [done|]. intros k. left. rewrite !last_op_snoc. by case_decide.
Qed.

(** The files and the log hold [M]. *)
Record persisted p ops M : Prop := {
  ps_logged : logged p ops;
  ps_keys : map_Forall (fun k v => used k /\ is_u64 (blen v)) M;
  ps_blocks k : used k -> pf_blocks p !! pmem_key_hash k = M !! k;
  ps_last k : used k -> match M !! k with Some v => last_op ops k = Some (Some (blen v)) | None => gone (last_op ops k) end }.

Lemma rewritten_last p ops ops' k v : rewritten p ops ops' -> pf_blocks p !! pmem_key_hash k = Some v -> last_op ops k = Some (Some (blen v)) ->
  last_op ops' k = Some (Some (blen v)).
Proof. intros R Hb Hl. destruct (R k) as [-> | ->]; [done|]. rewrite Hl, Hb. by rewrite decide_True by (by eexists). Qed.
Lemma rewritten_gone p ops ops' k : rewritten p ops ops' -> gone (last_op ops k) -> gone (last_op ops' k).
Proof. intros R Hg. destruct (R k) as [-> | ->]; [done|]. destruct Hg as [-> | ->]; by left. Qed.

(** A line is appended after the file has changed. *)
Lemma append_persisted p ops op M M' : logged p ops -> used (op_key op) -> len_ok op ->
  map_Forall (fun k v => used k /\ is_u64 (blen v)) M' -> (forall k, used k -> pf_blocks p !! pmem_key_hash k = M' !! k) ->
  (forall k, used k -> match M' !! k with Some v => last_op (ops ++ [op]) k = Some (Some (blen v)) | None => gone (last_op (ops ++ [op]) k) end) ->
  exists ops', persisted (append_pmem_manifest_line iterate (pm_encode op) p) ops' M'.
Proof.
  intros L Hu Hl HM Hb Hlast. destruct (append_logged p ops op L Hu Hl) as (ops' & L' & Eb & R). exists ops'. split; [done|done| |].
  - intros k Hk. by rewrite Eb, Hb.
  - intros k Hk. specialize (Hlast k Hk). destruct (M' !! k) as [v|] eqn:E; [|by eapply rewritten_gone]. eapply rewritten_last; [done| |done]. by rewrite Hb, E.
Qed.

Lemma logged_blocks p ops blocks : logged p ops -> logged (set_blocks blocks p) ops.
Proof. intros [H1 H2 H3 H4]. by split. Qed.

Lemma put_persisted p ops M k v old : persisted p ops M -> used k -> is_u64 (blen v) ->
  exists ops', persisted (persist_pmem_put iterate k v old p) ops' (<[k := v]> M).
Proof.
  intros [L HM Hb Hlast] Hu Hv. unfold persist_pmem_put. rewrite (lg_tier _ _ L). cbn [negb]. set (matching := _ && _).
  set (p1 := if matching then p else _).
  assert (logged p1 ops /\ forall j, used j -> pf_blocks p1 !! pmem_key_hash j = <[k := v]> M !! j) as [L1 Hb1].
  { unfold p1. destruct matching eqn:E.
    - split; [done|]. intros j Hj. unfold matching in E. apply andb_prop in E as [_ E%bool_decide_eq_true]. destruct (decide (j = k)) as [->|Hne].
      + by rewrite E, lookup_insert_eq.
      + rewrite lookup_insert_ne by done. by apply Hb.
    - split; [by apply logged_blocks|]. intros j Hj. cbn. destruct (decide (j = k)) as [->|Hne]; [by rewrite !lookup_insert_eq|].
      rewrite !lookup_insert_ne; [by apply Hb|done|]. intros E'. apply Hne. by apply Hname. }
  apply (append_persisted p1 ops (ManifestPut (mkManifestRecord k (blen v))) M); [done|done|done|by apply map_Forall_insert_2|done|].
  intros j Hj. rewrite last_op_snoc. cbn [op_key mr_key mr_block_len]. destruct (decide (k = j)) as [<-|Hne]; [by rewrite lookup_insert_eq|].
  rewrite lookup_insert_ne by done. by apply Hlast.
Qed.

Lemma delete_persisted p ops M k : persisted p ops M -> used k -> exists ops', persisted (persist_pmem_delete iterate k p) ops' (delete k M).
Proof.
  intros [L HM Hb Hlast] Hu. unfold persist_pmem_delete. rewrite (lg_tier _ _ L), (Hb k Hu). cbn [negb]. destruct (M !! k) as [v|] eqn:Ek.
  - apply (append_persisted _ ops (ManifestDelete k) M); [by apply logged_blocks|done|done|by apply map_Forall_delete| |].
    + intros j Hj. cbn. destruct (decide (j = k)) as [->|Hne]; [by rewrite !lookup_delete_eq|].
      rewrite !lookup_delete_ne; [by apply Hb|done|]. intros E. apply Hne. by apply Hname.
    + intros j Hj. rewrite last_op_snoc. cbn [op_key]. destruct (decide (k = j)) as [<-|Hne]; [rewrite lookup_delete_eq; by right|].
      rewrite lookup_delete_ne by done. by apply Hlast.
  - exists ops. rewrite delete_id by done. by split.
Qed.

Lemma clear_persisted p ops M : persisted p ops M -> persisted (clear_pmem_persistence p) [] ∅.
Proof.
  intros [[Ht _ _ _] _ _ _]. unfold clear_pmem_persistence. cbn. rewrite Ht. cbn. split; [split; cbn; [done|by right|constructor|done]|done|done|].
  intros k _. rewrite lookup_empty. by left.
Qed.

(** ** Recovery *)

Section recover.
Context {S : Type} (clear : S -> S) (put_pmem : CacheKey -> bytes -> S -> bool * S).

Lemma recover_offers blocks M kls st : (forall kl, kl ∈ kls -> exists v, M !! kl.1 = Some v /\ blocks !! pmem_key_hash kl.1 = Some v /\ blen v = kl.2) ->
  exists r, foldl (fun st kl => recover_block put_pmem blocks kl st) st kls =
    (r, foldl (fun s kv => (put_pmem kv.1 kv.2 s).2) st.2 ((fun kl => (kl.1, default [] (M !! kl.1))) <$> kls)).
Proof.
  revert st. induction kls as [|kl kls IH]; intros st H; [exists st.1; by destruct st|]. destruct (H kl ltac:(by left)) as (v & Hm & Hb & Hl).
  cbn [foldl fmap list_fmap fst snd]. rewrite Hm. unfold recover_block at 2. rewrite Hb, Hl, Z.eqb_refl. cbn [negb default].
  destruct (put_pmem kl.1 v st.2) as [admitted s] eqn:E. destruct (IH ((if admitted then recovered kl.2 (scanned st.1) else skipped (scanned st.1)), s)) as [r Hr].
  { intros kl' Hin. apply H. by right. }
  exists r. rewrite Hr. cbn. by rewrite E.
Qed.

Lemma recover_persisted p ops M s : persisted p ops M -> exists r offers, offers ≡ₚ map_to_list M /\
  (recover_pmem_index iterate clear put_pmem p s = (Ok r, foldl (fun s kv => (put_pmem kv.1 kv.2 s).2) (clear s) offers) \/
   M = ∅ /\ recover_pmem_index iterate clear put_pmem p s = (Ok r, s)).
Proof.
  intros [L HM Hb Hlast]. pose proof (logged_ok p ops L) as Hok. destruct L as [Ht Hg Ho Hw]. unfold recover_pmem_index. rewrite Ht. cbn [negb].
  assert (forall k, live_of ops !! k = blen <$> M !! k) as Hlive.
  { intros k. rewrite live_of_lookup. destruct (decide (last_op ops k = None)) as [Hn|Hn].
    - rewrite Hn. destruct (M !! k) as [v|] eqn:E; [|done]. destruct (HM k v E) as [Hu _]. specialize (Hlast k Hu). rewrite E in Hlast. congruence.
    - assert (used k) as Hu by (eapply (last_op_used' used ops k); [|done]; eapply Forall_impl; [exact Ho|by intros op []]).
      specialize (Hlast k Hu). destruct (M !! k) as [v|]; [by rewrite Hlast|]. by destruct Hlast as [-> | ->]. }
  assert (live_of ops = blen <$> M) as Elive by (apply map_eq; intros k; by rewrite Hlive, lookup_fmap).
  destruct Hg as [(f & Ef & Et)|[Ef ->]]; rewrite Ef.
  - rewrite Et, (live_lines_text ops Hok).
    destruct (recover_offers (pf_blocks p) M (iterate (live_of ops)) (mkReport 0 0 0 0, clear s)) as [r Hr].
    { intros [k l] Hin. rewrite (Hiter (live_of ops)), elem_of_map_to_list, Elive in Hin. apply lookup_fmap_Some in Hin as (v & <- & Hv).
      exists v. cbn. split_and!; [done| |done]. destruct (HM k v Hv) as [Hu _]. by rewrite Hb. }
    rewrite Hr. eexists r, _. split; [|by left]. rewrite (Hiter (live_of ops)), Elive, map_to_list_fmap, <- list_fmap_compose.
    rewrite <- (list_fmap_id (map_to_list M)) at 2. apply Permutation_refl', list_fmap_ext. intros i [k v] Hi. cbn.
    apply list_elem_of_lookup_2, elem_of_map_to_list in Hi. by rewrite Hi.
  - assert (M = ∅) as -> by (apply map_eq; intros k; specialize (Hlive k); rewrite lookup_empty in *; cbn in Hlive; by destruct (M !! k)).
    eexists _, []. split; [by rewrite map_to_list_empty|by right].
Qed.
End recover.
End files.

(** ** Histories *)

(** A put also says what the tier had in memory under the key. *)
Inductive pmem_op :=
| PPut (key : CacheKey) (value : bytes) (old : option bytes)
| PDelete (key : CacheKey)
| PClear.

Definition pmem_op_keys (op : pmem_op) : list CacheKey := match op with PPut k _ _ | PDelete k => [k] | PClear => [] end.
Definition pmem_keys (h : list pmem_op) : list CacheKey := concat (pmem_op_keys <$> h).
Definition pmem_len_ok (op : pmem_op) : Prop := match op with PPut _ v _ => is_u64 (blen v) | _ => True end.

(** What the tier holds after a history, as a map. *)
Definition pmem_spec_op (op : pmem_op) M : gmap CacheKey bytes :=
  match op with PPut k v _ => <[k := v]> M | PDelete k => delete k M | PClear => ∅ end.
Definition pmem_spec (h : list pmem_op) : gmap CacheKey bytes := foldl (fun M op => pmem_spec_op op M) ∅ h.

Section histories.
Context `{DefaultHasher} (iterate : gmap CacheKey Z -> list (CacheKey * Z)).

Definition run_pmem_op (op : pmem_op) p : PmemFiles :=
  match op with
  | PPut k v old => persist_pmem_put iterate k v old p
  | PDelete k => persist_pmem_delete iterate k p
  | PClear => clear_pmem_persistence p
  end.
Definition run_pmem (h : list pmem_op) p : PmemFiles := foldl (fun p op => run_pmem_op op p) p h.

Lemma new_files_persisted used : persisted used new_pmem_files [] ∅.
Proof. split; [split; [done|by right|constructor|done]|done|done|]. intros k _. rewrite lookup_empty. by left. Qed.

Lemma run_pmem_persisted used h p ops M : (forall m, iterate m ≡ₚ map_to_list m) ->
  (forall k k', used k -> used k' -> pmem_key_hash k = pmem_key_hash k' -> k = k') -> (forall k, used k -> key_ok k) ->
  Forall used (pmem_keys h) -> Forall pmem_len_ok h -> persisted used p ops M ->
  exists ops', persisted used (run_pmem h p) ops' (foldl (fun M op => pmem_spec_op op M) M h).
Proof.
  intros Hit Hn Hk. revert p ops M. induction h as [|op h IH]; intros p ops M Hu Hl Hp; [by exists ops|].
  unfold pmem_keys in Hu. cbn [fmap list_fmap concat] in Hu. apply Forall_app in Hu as [Hu1 Hu]. apply Forall_cons in Hl as [Hl1 Hl].
  assert (exists ops1, persisted used (run_pmem_op op p) ops1 (pmem_spec_op op M)) as (ops1 & Hp1); [|by apply (IH _ ops1)].
  destruct op as [k v old|k|]; cbn [pmem_op_keys run_pmem_op pmem_spec_op pmem_len_ok] in *; try (apply Forall_cons in Hu1 as [Hu1 _]).
  - by eapply put_persisted.
  - by eapply delete_persisted.
  - exists []. by eapply clear_persisted.
Qed.
End histories.

(** C20. After any history of puts, deletes and clears of the files of the
    persistent-memory tier, over keys no two of which share the hash that names
    their files, whatever lines the log's writer skipped and
    however often the log was rewritten, a restart reads the files without an
    error and offers an empty tier exactly the entries the history leaves,
    each once, with the value last put.  Entries taken out of the tier without
    a delete are offered too: see [invalidated_entry_revives]. *)
Theorem pmem_recovery_exact `{DefaultHasher} (iterate : gmap CacheKey Z -> list (CacheKey * Z)) (h : list pmem_op)
    {S : Type} (clear : S -> S) (put_pmem : CacheKey -> bytes -> S -> bool * S) (s : S) :
  (forall m, iterate m ≡ₚ map_to_list m) ->
  (forall k k', k ∈ pmem_keys h -> k' ∈ pmem_keys h -> pmem_key_hash k = pmem_key_hash k' -> k = k') ->
  Forall key_ok (pmem_keys h) -> Forall pmem_len_ok h -> clear s = s ->
  exists report offers, offers ≡ₚ map_to_list (pmem_spec h) /\
    recover_pmem_index iterate clear put_pmem (run_pmem iterate h new_pmem_files) s =
      (Ok report, foldl (fun s kv => (put_pmem kv.1 kv.2 s).2) s offers).
Proof.
  intros Hit Hn Hk Hl Hc. rewrite Forall_forall in Hk.
  destruct (run_pmem_persisted iterate (fun k => k ∈ pmem_keys h) h new_pmem_files [] ∅ Hit Hn Hk ltac:(by apply Forall_forall) Hl (new_files_persisted _)) as (ops & Hp).
  fold (pmem_spec h) in Hp.
  destruct (recover_persisted iterate _ Hit Hk clear put_pmem _ ops _ s Hp) as (r & offers & Ho & [E|[EM E]]); exists r; rewrite E, ?Hc; [by exists offers|].
  exists []. split; [|done]. by rewrite EM, map_to_list_empty.
Qed.

Definition pmem_demo (shard : Z) (name : string) : CacheKey := mkKey shard name "string" "value".
Definition pmem_history : list pmem_op :=
  [PPut (pmem_demo 1 "a") [x61] None; PClear; PPut (pmem_demo 1 "a") [x61; x62] None; PPut (pmem_demo 1 "a") [x61; x62] (Some [x61; x62]);
   PPut (pmem_demo 2 "b") [x63] None; PDelete (pmem_demo 9 "z"); PDelete (pmem_demo 1 "a"); PPut (pmem_demo 3 "c") [] None].
(** A tier that takes whatever it is offered. *)
Definition take_all (k : CacheKey) v (m : gmap CacheKey bytes) : bool * gmap CacheKey bytes := (true, <[k := v]> m).

#[local] Existing Instance byte_hasher.

Lemma pmem_recovery_exact_witness : exists report offers,
  recover_pmem_index map_to_list (fun _ => ∅) take_all (run_pmem map_to_list pmem_history new_pmem_files) ∅ =
    (Ok report, foldl (fun s kv => (take_all kv.1 kv.2 s).2) ∅ offers) /\
  offers ≡ₚ [(pmem_demo 2 "b", [x63]); (pmem_demo 3 "c", [])].
Proof.
  destruct (pmem_recovery_exact map_to_list pmem_history (fun _ => ∅) take_all ∅) as (report & offers & Ho & E).
  - done.
  - assert (Forall (fun k => Forall (fun k' => pmem_key_hash k = pmem_key_hash k' -> k = k') (pmem_keys pmem_history)) (pmem_keys pmem_history)) as Hinj
      by (eapply bool_decide_unpack; vm_compute; exact I).
    rewrite Forall_forall in Hinj. intros k k' Hk Hk'. specialize (Hinj k Hk). rewrite Forall_forall in Hinj. by apply Hinj.
  - repeat (constructor; [by split|]). constructor.
  - repeat (constructor; [done|]). constructor.
  - done.
  - exists report, offers. split; [exact E|]. rewrite Ho. eapply bool_decide_unpack. vm_compute. exact I.
Defined.

(** Invalidating a shard empties the tier and leaves its files: a restart
    brings the entry back. *)
Example invalidated_entry_revives :
  let p := run_pmem map_to_list [PPut (pmem_demo 1 "a") [x61] None] new_pmem_files in
  let resident : gmap CacheKey bytes := {[pmem_demo 1 "a" := [x61]]} in
  invalidate_shard_pmem 1 resident !! pmem_demo 1 "a" = None /\
  (recover_pmem_index map_to_list (fun _ => ∅) take_all p (invalidate_shard_pmem 1 resident)).2 !! pmem_demo 1 "a" = Some [x61].
Proof. vm_compute. done. Qed.
